(* ===== verification/_CoqProject ===== *)
-Q . S2P
Prelude.v
JsValue.v
Time.v
Encoding.v
Crypto.v
ToyPrimitives.v
Authorization.v
ScopeEvaluator.v
Attenuation.v
CapabilityToken.v
Delegation.v
Examples.v
ActionRecords.v
ActionRecorder.v
PostgresTracker.v
LedgerExamples.v
RuntimeGuard.v
PolicyEngine.v
PolicyExamples.v
DisputeArbitration.v
DisputeExamples.v
SignedPayload.v
Merkle.v
Multisig.v
MultisigExamples.v
SettlementRetry.v
SettlementExamples.v
TrustBoundary.v
TrustBoundaryExamples.v
AuditTamperProof.v
AuditExamples.v
Sessions.v
SessionExamples.v
LruCache.v
Revocation.v
RevocationExamples.v
HashChain.v
HashChainExamples.v
EnvelopeLedger.v
EnvelopeExamples.v
CrossSettle.v
CrossSettleExamples.v
ControllerChain.v
ControllerChainExamples.v
Encryption.v
SecureChannel.v
SecureChannelExamples.v
Envelope.v
Handshake.v
HandshakeExamples.v
BridgeScope.v
Bridge.v
BridgeExamples.v
Freshness.v
Identity.v
Registry.v
RegistryExamples.v
FederationNodes.v
Federation.v
FederationRuns.v
FederationExamples.v
AuditQuery.v
AuditRoutes.v
AuditAccess.v
AuditRoutesExamples.v
TransportVerifier.v
AuditShare.v
AuditShareExamples.v
PgSessions.v
PgSessionExamples.v
