(* ===== verification/Prelude.v ===== *)
(** * Coivitas: a verification library for the protocol core

    Coivitas is a TypeScript monorepo (src/packages/) for agents that act for a
    principal: the principal issues capability tokens to an agent, the agent
    delegates them in attenuated form, agents find and authenticate each other
    and talk over encrypted sessions, and every action runs behind a policy
    engine that checks the tokens and writes a signed, hash-chained ledger.  The
    packages are layers: types (L0), crypto (L1), identity (L2), policy (L3),
    communication (L4), sdk (L5), and services on top of them.  This library
    models the core of L0 to L4 and the revocation client of L5.

    ** How the parts interact

    - The authorization path.  [executeWithPolicy] (policy/src/engine.ts) asks
      the guard, asks the human checkpoint when approval is required, runs the
      executor and writes one record.  [guard_check]
      (policy/src/guard/runtime-guard.ts) walks the agent's tokens; a token
      without a delegation chain goes through [verifyCapabilityToken]
      (identity/src/token-verifier.ts), one with a chain through
      [validateDelegationChain] (identity/src/delegation-validator.ts), which
      calls [validateAttenuation] (identity/src/token-issuer.ts) and the
      signatures of crypto/src.  Scopes are evaluated by [evaluate]
      (policy/src/guard/scope-evaluator.ts), a cumulative limit through a
      [CumulativeTracker], in production the one over Postgres.  Its reservation
      rows and the records of the recorder share the table
      policy.action_records, which the integrity checker re-reads.  The
      revocation checker of the guard is the revocation API
      (policy/src/revocation), a table behind a cache.
    - Identities.  A document is created with a binding of the principal and
      rotated by a proof of three signatures (identity/src/did-agent.ts,
      binding.ts, key-rotation.ts); the registry stores it (registry.ts,
      routes.ts), the federated resolver elects one answer among registry nodes
      (federated-resolver.ts), freshness proofs date an answer
      (resolver-freshness-proof.ts), and chains of controllers are resolved and
      certified (controller-chain-resolution).
    - Communication.  The handshake (communication/src/handshake) exchanges
      signed envelopes (envelope.ts), claims a nonce, asks the validator, stores
      a session (session/in-memory-store.ts) and agrees on keys
      (crypto/src/encryption.ts), with which the handles and the registry of
      sessions (session/crypto-state.ts, session-registry.ts) encrypt.  The
      lifecycle of a trust boundary gates messages between two sides
      (trust-boundary).  The bridge (communication/src/bridge) lets MCP tools
      in: it binds a sender to a holder, charges its scopes, converts messages
      to envelopes and queues answers.
    - Ledgers and settlement.  Beside the action ledger, policy/src keeps a
      tamper-proof audit log per tenant, an envelope ledger with leases, dispute
      arbitration, retries of settlements and settlement between domains; they
      share canonicalization, hashing and signatures with the rest, as do the
      multisig tokens and the canonical hash chains of crypto/src.

    ** Files

    Shared:
    - Prelude.v: this header; exceptions as values ([res]), stateful code as
      [M W A = W -> res A * W] (the state survives an exception),
      [withTransaction] of shared/src/database.ts (rollback), JavaScript maps as
      association lists, the tactics and the hint database [coivitas].
    - JsValue.v: numbers with NaN and the infinities and their comparison rules,
      string operations, JSON values, [canonicalize] of
      crypto/src/canonicalization.ts over a serializer parameter.
    - Time.v: timestamps, [Date], the windows of guard/cumulative-tracker.ts.
    - Encoding.v: crypto/src/encoding.ts, identity/src/did.ts and did-key.ts.
    - Crypto.v: crypto/src/signing.ts and hashing.ts over the class
      [Primitives] (the npm packages for RFC 8785, SHA-256 and Ed25519), with
      the class [PrimitiveLaws] for their documented behaviour;
      ToyPrimitives.v is an instance of both.

    Authorization (types/src/authorization.ts and schemas.ts, identity/src,
    policy/src):
    - Authorization.v (data and token schema), ScopeEvaluator.v (scopes,
      plugins, the tracker interface: record [CumulativeTracker], class
      [TrackerLaws]), Attenuation.v, CapabilityToken.v (issue, delegate,
      verify), Delegation.v (the chain validator, step by step), ActionRecords.v
      and ActionRecorder.v (the table, the recorder, the integrity checker),
      PostgresTracker.v (an instance of the tracker interface), RuntimeGuard.v,
      PolicyEngine.v.
    - LruCache.v: the two caches of policy/src/revocation/revocation-cache.ts
      and sdk/src/revocation, refining one abstract cache behind the class
      [LruImpl]; Revocation.v: records, store, API with interleavings, client.
    Signed data (crypto/src and identity/src/credentials/multisig):
    - SignedPayload.v (canonical-signed-payload), Merkle.v and Multisig.v
      (multisig), HashChain.v (hash-chain-canonicalize).
    Policy ledgers (policy/src):
    - DisputeArbitration.v (seven steps over the ports [DaPorts], class
      [TxLaws]), SettlementRetry.v, AuditTamperProof.v, EnvelopeLedger.v,
      CrossSettle.v.
    - AuditQuery.v (signed audit queries and their parsing, types/src/audit.ts),
      AuditRoutes.v (recorder/action-record-routes.ts: middleware, list, get,
      verify and the public head) and AuditAccess.v
      (recorder/audit-access-routes.ts with its nonce store, meta ledger and
      delegated keys).
    - AuditShare.v: shared audits (audit-share with types/src/audit-share and
      identity/src/delegated-audit-key.ts), each verification a tree of the calls
      it makes to its ports, so that verifications interleave call by call.
    Identity (identity/src):
    - ControllerChain.v, Freshness.v, Identity.v, Registry.v; FederationNodes.v
      (one node: address guard, query, health), Federation.v (the resolver) and
      FederationRuns.v (its histories, over the class [WatermarkStore]).
    - TransportVerifier.v: cryptographic-verifier (mTLS, JWT and OAuth2 with its
      cache, circuit breaker and rate limiter) and types/src/sdk, over the
      classes [X509] and [Jose] for the two libraries it calls.
    Communication (communication/src):
    - TrustBoundary.v, Sessions.v, Encryption.v (over the class
      [E2EPrimitives]), SecureChannel.v, Envelope.v, Handshake.v, BridgeScope.v
      and Bridge.v.
    - PgSessions.v: session/postgres-store.ts over the table of sql/001 and 004
      with its constraints (class [PgInput] for the reading of parameters), and
      the manager over it.
    Each *Examples.v holds concrete tokens, ledgers and runs of the files before
    it, at which the theorems are applied.

    ** What the theorems show

    - Authority: what attenuation accepts ([attenuation_rules_exact]), that a
      child never permits what its parent refuses ([attenuation_sound]), along a
      chain of any length ([validated_leaf_authority]); what a validated chain
      guarantees ([validated_chain_trusted]) and that honest chains are
      accepted ([honest_delegations_accepted]).
    - Scopes and limits: each evaluator against a declarative meaning
      ([builtin_scopes_exact], stated on minutes, dates and totals without the
      code's helpers); reservations are exact
      ([checkAndReserve_exact]), idempotent ([reserve_idempotent]) and keep the
      window's total within its limit under every interleaving
      ([limit_never_exceeded]); the tables of the bridge implement a ledger of
      charged keys ([scope_ledger_refined]) and keep its limits
      ([limits_respected]).
    - Guard and engine: an allowed check and an executed call rest on a verified,
      unrevoked token whose scopes allow the request ([guard_allow_sound],
      [executed_has_token]); one record per call ([one_record_per_call]).
    - Revocation: the linked cache is an LRU cache ([linked_cache_refines_lru]);
      an answer follows the table when calls do not overlap ([isRevoked_exact])
      and lags behind it by a bounded time when they do
      ([revocation_takes_effect]).
    - Ledgers: what the writers write passes the checkers ([ledger_integrity],
      [audit_chains_verify], [append_extends_chain]) and a head hash commits to
      all of it ([ledger_head_commits], [audit_head_commits]); outcomes are
      final ([outcome_final], [settle_outcome_final], [terminal_final]), a lease
      protects its claim ([lease_protects]), retries end
      ([retries_terminate]) and submit once ([submission_guarded]);
      reconciliation returns every record once ([reconciliation_complete]).
    - Disputes and multisig: a decision carries verified signatures of a majority
      of distinct members ([arbitration_sound]) and its writes happen together
      or not at all ([arbitration_atomic]); Merkle commitments open
      ([merkle_complete]) and open to nothing else ([merkle_sound]).
    - Identities: rotation keeps a document valid ([rotation_keeps_valid]),
      updates are not lost ([one_update_per_version]), rows evolve lawfully
      ([identity_evolution]); answers of a federation are backed by a majority
      of three or more targets ([answer_backed]), do not go back
      ([versions_never_go_back]) and yield to an invalidation
      ([invalidation_wins]); controller chains and freshness
      proofs are accepted exactly when they are lawful
      ([chain_resolution_exact], [freshness_exact]).
    - Communication: the handshake completes between compatible parties
      ([handshake_completes]), is never downgraded
      ([required_never_downgraded]) and accepts only checked challenges
      ([accepted_challenge_checked]); encrypted sessions deliver what arrives
      ([lossy_delivery]), refuse replays ([replay_rejected]) and never repeat a
      nonce ([nonces_never_repeat]); a boundary that lets messages through was
      established ([active_was_established]); sessions are fenced by revisions
      ([authorization_fenced]) and closed with their token
      ([revocation_cascades]).
    - Audit queries: records go only to requesters who may see them
      ([disclosure_authorized], [access_authorized]), pages are complete
      ([pages_complete]), the surfaces agree ([surfaces_agree]) and what is
      reported as verified is genuine ([verified_record_genuine],
      [chain_verify_complete]); a shared audit is of a consenting delegator,
      under a challenge that serves once ([share_authorized],
      [challenge_single_use], [v03_authorized]).
    - Session stores: the Postgres store and the store in memory answer alike
      ([pg_refines_memory]), two parties share one live session
      ([one_live_session]), authorizations are fenced
      ([pg_authorization_fenced]) and the constraints stop no routine call
      ([routine_calls_served]), but they do stop the close of an idle session
      ([idle_close_refused]).
    - Transports: a certificate, a JWT or an access token is accepted for a DID
      only when it verifies ([mtls_cross_check_exact], [jwt_accepted_verified],
      [accepted_token_was_active]), introspection stays within its rate
      ([rate_bounded]); where the code does not do this:
      [forged_root_accepted], [path_length_wrong_side], [many_probes],
      [v03_payloads_disclosed].
    - Defects: theorems of the kind [second_cumulative_limit_unchecked],
      [unrecordable_execution], [attenuation_midnight_gap],
      [nan_pool_needs_no_signature], [verdict_not_bound],
      [history_not_committed], [malformed_signature_stalls],
      [resolution_not_bound_to_target], [zeroized_session_revived],
      [first_amount_unlimited], [one_proof_makes_quorum], [foreign_did_valid],
      [foreign_did_registered], [rotation_never_ends], [outage_permanent],
      [mapped_address_passes], [existence_oracle] and [nonce_forgotten_early]
      state what the code does where it misses its intent, as do the runs
      [overlapping_writes_break_integrity], [settled_amount_not_counted],
      [failed_write_lets_versions_go_back], [negative_amount_bypasses_limit],
      [late_settlement_exceeds_limit], [cross_tenant_collision] and
      [three_writers_fork].  The doc comment of a theorem names the conditions
      it needs; these counterexamples show what happens without them.

    ** Modelling choices

    - Strings are byte strings; every string the code orders or decodes is
      ASCII.  A finite number is an exact integer count of some unit, so sums
      are exact; the code's are, up to 2^53.  Amounts of the bridge are in
      thousandths and stored in hundredths, versions of a federation are in
      thousandths, because the code meets fractions there.
    - A JavaScript exception is [Throw code], with the code of the error class,
      a database error with its SQLSTATE.  Messages are left out, except the
      reason constructors of denials.
    - Readings of the clock, random ids and seeds, and the answers of networks
      and of ports that no code under src/ implements are arguments.  What the
      code relies on of third-party packages is a class of laws with an instance
      in an *Examples.v or ToyPrimitives.v.
    - A database transaction is one step.  Where the code can read a state that
      another call changes before it writes, the step has an argument for it: an
      earlier table, a flag [missed], the [Weather] of an attempt, or a begin
      and an end event.  A call whose parts other calls can come between (a
      record and its time, an audit write and its lock, a check of a revocation
      and its cache) is split where it awaits, and the parts are steps of a
      relation.  A wait for a lock is a step that is not possible yet.
    - Objects that callers share (session handles, cache nodes) live in a store
      and are reached by their address; timers are pending callbacks.
    - Recursion is structural, on the data or on a bound the code has itself: the
      retries of a loop, the depth limit of a chain.  Fuel is used in
      [push_carry] of Encoding.v (the carry bounds the divisions;
      [base58_roundtrip] is proved with it), in [build_levels] of Merkle.v (the
      number of leaves; [merkle_complete] shows that the root is reached) and
      for decimal digits (the number bounds its digits).

    ** Not modelled

    Credential resolution, the legacy hash chain, the audit governor lane, the
    control-plane side tables, transport and discovery, the SDK (orchestrator, CLI,
    SSO, key custody, multi-tenancy, admin console), the managed service,
    the wallet interface, the conformance suite and the Python SDK.  Of these the
    state-keeping ones are the next to model; the rest is I/O and composition. *)
From stdpp Require Export base list strings gmap option sorting.
From stdpp Require Import pretty.
From Stdlib Require Export ZArith Lia Ascii.
From Stdlib Require String.
#[export] Set Default Goal Selector "!".

Open Scope Z_scope.

(** ** Errors *)

(** A JavaScript completion: a value, or an exception.  Exceptions of the
    source carry a [code] ([ProtocolError], [CryptoError], [MultisigError]);
    a plain [Error] is given the code ["Error"]. *)
Inductive res (A : Type) : Type :=
| Ok (a : A)
| Throw (code : string).
Arguments Ok {A} a.
Arguments Throw {A} code.

#[export] Instance res_ret : MRet res := @Ok.
#[export] Instance res_bind : MBind res := λ A B f m,
  match m with Ok a => f a | Throw c => Throw c end.
#[export] Instance res_eq_dec `{EqDecision A} : EqDecision (res A).
Proof. solve_decision. Defined.

(** A stateful computation that may throw: the store survives an exception,
    as the store of a JavaScript program does. *)
Definition M (W A : Type) : Type := W → res A * W.

#[export] Instance M_ret {W} : MRet (M W) := λ A a w, (Ok a, w).
#[export] Instance M_bind {W} : MBind (M W) := λ A B f m w,
  match m w with
  | (Ok a, w') => f a w'
  | (Throw c, w') => (Throw c, w')
  end.

Definition throw {W A} (c : string) : M W A := λ w, (Throw c, w).
Definition lift_res {W A} (r : res A) : M W A := λ w, (r, w).

(** [withTransaction] of [packages/shared/src/database.ts]: commit on a normal
    return, roll the store back and rethrow on an exception. *)
Definition withTransaction {W A} (body : M W A) : M W A := λ w,
  match body w with
  | (Ok a, w') => (Ok a, w')
  | (Throw c, _) => (Throw c, w)
  end.

(** ** Laws of the two monads *)

Lemma res_bind_ok {A B} (f : A → res B) (m : res A) b :
  m ≫= f = Ok b ↔ ∃ a, m = Ok a ∧ f a = Ok b.
Proof.
  destruct m as [a|c]; split.
  - intros H. by exists a.
  - intros (a' & [= <-] & H). done.
  - intros [=].
  - intros (a' & [=] & _).
Qed.

Lemma M_bind_ok {W A B} (f : A → M W B) (m : M W A) b w w' :
  (m ≫= f) w = (Ok b, w') ↔ ∃ a w1, m w = (Ok a, w1) ∧ f a w1 = (Ok b, w').
Proof.
  unfold mbind, M_bind. destruct (m w) as [[a|c] w1]; split.
  - intros H. eauto.
  - intros (a' & w1' & [= <- <-] & H). done.
  - intros [=].
  - intros (a' & w1' & [=] & _).
Qed.

Lemma M_bind_throw {W A B} (f : A → M W B) (m : M W A) c w w' :
  (m ≫= f) w = (Throw c, w') →
  m w = (Throw c, w') ∨ ∃ a w1, m w = (Ok a, w1) ∧ f a w1 = (Throw c, w').
Proof.
  unfold mbind, M_bind. destruct (m w) as [[a|c'] w1]; [eauto|]. intros [= -> ->]. by left.
Qed.

Lemma M_bind_inv {W A B} (f : A → M W B) (m : M W A) r w w' :
  (m ≫= f) w = (r, w') →
  (∃ a w1, m w = (Ok a, w1) ∧ f a w1 = (r, w')) ∨ (∃ c, m w = (Throw c, w') ∧ r = Throw c).
Proof.
  unfold mbind, M_bind. destruct (m w) as [[a|c] w1] eqn:E; [eauto|]. intros [= <- <-]. eauto.
Qed.

Lemma M_bind_run {W A B} (f : A → M W B) (m : M W A) a w w1 :
  m w = (Ok a, w1) → (m ≫= f) w = f a w1.
Proof. intros E. unfold mbind, M_bind. by rewrite E. Qed.

Lemma M_bind_run_throw {W A B} (f : A → M W B) (m : M W A) c w w1 :
  m w = (Throw c, w1) → (m ≫= f) w = (Throw c, w1).
Proof. intros E. unfold mbind, M_bind. by rewrite E. Qed.

(** Two continuations that agree on the results of [m]. *)
Lemma M_bind_cong {W A B} (f1 f2 : A → M W B) (m : M W A) w :
  (∀ a w1, m w = (Ok a, w1) → f1 a w1 = f2 a w1) → (m ≫= f1) w = (m ≫= f2) w.
Proof. intros Hf. unfold mbind, M_bind. destruct (m w) as [[a|c] w1]; [by apply Hf|done]. Qed.

Lemma withTransaction_ok {W A} (body : M W A) a w w' :
  withTransaction body w = (Ok a, w') ↔ body w = (Ok a, w').
Proof. unfold withTransaction. destruct (body w) as [[]]; naive_solver. Qed.

(** Atomicity: a transaction that throws leaves the store as it was. *)
Lemma withTransaction_throw {W A} (body : M W A) c w w' :
  withTransaction body w = (Throw c, w') → w' = w.
Proof. unfold withTransaction. destruct (body w) as [[]]; naive_solver. Qed.

(** ** Lists *)

(** The first element a partial function accepts: the shape of every
    [for (...) { if (...) return ...; }] loop of the source. *)
Fixpoint first_some {A B} (f : A → option B) (l : list A) : option B :=
  match l with
  | [] => None
  | x :: l' => match f x with Some b => Some b | None => first_some f l' end
  end.

Lemma first_some_None {A B} (f : A → option B) l :
  first_some f l = None ↔ ∀ x, x ∈ l → f x = None.
Proof.
  induction l as [|x l IH]; simpl; [split; [by intros _ x ?%elem_of_nil|done]|].
  destruct (f x) eqn:Hx; split.
  - intros [=].
  - intros H. rewrite H in Hx; [done|left].
  - intros H y [->|?]%elem_of_cons; [done|]. by apply IH.
  - intros H. apply IH. intros y ?. apply H. by right.
Qed.

Lemma first_some_Some {A B} (f : A → option B) l b :
  first_some f l = Some b → ∃ x, x ∈ l ∧ f x = Some b.
Proof.
  induction l as [|x l IH]; simpl; [done|].
  destruct (f x) eqn:Hx.
  - intros [= <-]. exists x. split; [left|done].
  - intros (y & ? & ?)%IH. exists y. split; [by right|done].
Qed.

(** ** [Map]: insertion-ordered association lists

    [m.set(k, v)] replaces in place or appends; [m.get(k)] looks up; a
    [for (... of m)] loop runs in insertion order. *)
Fixpoint map_get {V} (k : string) (m : list (string * V)) : option V :=
  match m with
  | [] => None
  | (k', v) :: m' => if String.eqb k' k then Some v else map_get k m'
  end.

Fixpoint map_set {V} (k : string) (v : V) (m : list (string * V)) : list (string * V) :=
  match m with
  | [] => [(k, v)]
  | (k', v') :: m' => if String.eqb k' k then (k', v) :: m' else (k', v') :: map_set k v m'
  end.

Lemma map_get_set {V} k k' (v : V) m :
  map_get k' (map_set k v m) = if String.eqb k k' then Some v else map_get k' m.
Proof.
  induction m as [|[k0 v0] m IH]; [done|]. cbn [map_set].
  destruct (String.eqb_spec k0 k) as [->|Hk]; cbn [map_get].
  - by destruct (String.eqb_spec k k').
  - destruct (String.eqb_spec k0 k') as [->|]; [|done].
    destruct (String.eqb_spec k k'); [congruence|done].
Qed.

Lemma map_set_fresh {V} k (v : V) m : map_get k m = None → map_set k v m = m ++ [(k, v)].
Proof.
  induction m as [|[k' v'] m IH]; [done|]. cbn [map_get map_set].
  destruct (String.eqb k' k); [done|]. intros ?. by rewrite IH.
Qed.

Lemma map_get_app {V} k (m1 m2 : list (string * V)) :
  map_get k (m1 ++ m2) = match map_get k m1 with Some v => Some v | None => map_get k m2 end.
Proof. induction m1 as [|[k' v'] m IH]; [done|]. cbn [app map_get]. by destruct (String.eqb k' k). Qed.

Lemma map_get_Some_elem {V} k (v : V) m : map_get k m = Some v → (k, v) ∈ m.
Proof.
  induction m as [|[k0 v0] m IH]; [done|]. cbn [map_get].
  destruct (String.eqb_spec k0 k) as [->|]; [intros [= ->]; left|intros; right; auto].
Qed.

Lemma map_set_keys {V} k (v : V) m k' :
  k' ∈ (map_set k v m).*1 ↔ k' = k ∨ k' ∈ m.*1.
Proof.
  induction m as [|[k0 v0] m IH]; cbn [map_set].
  - rewrite fmap_cons, elem_of_cons. done.
  - destruct (String.eqb_spec k0 k) as [->|]; cbn [fmap list_fmap fst]; rewrite !elem_of_cons; [tauto|].
    rewrite IH. tauto.
Qed.

Lemma map_set_NoDup {V} k (v : V) m : NoDup m.*1 → NoDup (map_set k v m).*1.
Proof.
  induction m as [|[k0 v0] m IH]; cbn [map_set].
  - intros _. apply NoDup_singleton.
  - rewrite fmap_cons, NoDup_cons. intros [Hn Hm].
    destruct (String.eqb_spec k0 k) as [->|Hk]; cbn [fmap list_fmap fst]; rewrite NoDup_cons; [done|].
    split; [|auto]. rewrite map_set_keys. intros [->|?]; done.
Qed.

Lemma map_elem_get {V} k (v : V) m : NoDup m.*1 → (k, v) ∈ m → map_get k m = Some v.
Proof.
  induction m as [|[k0 v0] m IH]; [by intros _ ?%elem_of_nil|].
  rewrite fmap_cons, NoDup_cons. intros [Hn Hm]. cbn [map_get].
  rewrite elem_of_cons. intros [[= -> ->]|Hin]; [by rewrite String.eqb_refl|].
  destruct (String.eqb_spec k0 k) as [->|]; [|auto].
  destruct Hn. apply list_elem_of_fmap. by exists (k, v).
Qed.

(** [m.delete(k)] *)
Definition map_delete {V} (k : string) (m : list (string * V)) : list (string * V) :=
  filter (λ kv, kv.1 ≠ k) m.

Lemma map_get_delete {V} k j (m : list (string * V)) : map_get j (map_delete k m) = if String.eqb k j then None else map_get j m.
Proof.
  unfold map_delete. induction m as [|[k0 v0] m IH]; [by destruct (String.eqb k j)|].
  rewrite filter_cons. case_decide as D; cbn [fst] in D; cbn [map_get].
  - rewrite IH. destruct (String.eqb_spec k0 j), (String.eqb_spec k j); congruence.
  - rewrite IH. destruct (String.eqb_spec k0 j), (String.eqb_spec k j); naive_solver.
Qed.

(** ** Automation *)

(** ** Filters *)

Lemma filter_every {A} (P : A → Prop) `{∀ x, Decision (P x)} l : Forall P l → filter P l = l.
Proof. induction 1 as [|x l Hx _ IH]; [done|]. by rewrite filter_cons_True, IH. Qed.
Lemma filter_none {A} (P : A → Prop) `{∀ x, Decision (P x)} l : Forall (λ x, ¬ P x) l → filter P l = [].
Proof. induction 1 as [|x l Hx _ IH]; [done|]. by rewrite filter_cons_False. Qed.
Lemma StronglySorted_filtered {A} (R : relation A) (P : A → Prop) `{∀ x, Decision (P x)} l : StronglySorted R l → StronglySorted R (filter P l).
Proof.
  induction 1 as [|x l _ IH Hx]; [constructor|]. rewrite filter_cons. destruct (decide (P x)); [|done]. constructor; [done|].
  rewrite Forall_forall in Hx |- *. intros y [_ Hy]%list_elem_of_filter. auto.
Qed.

(** A result is known when its first component is. *)
Lemma pair_of_fst {A B} (p : A * B) (a : A) : p.1 = a → p = (a, p.2).
Proof. by destruct p as [? ?]; intros <-. Qed.

Create HintDb coivitas.
#[export] Hint Constructors Forall : coivitas.

(** Split the outermost conditional or match of a hypothesis and close the
    impossible branches. *)
Ltac break_match_hyp H :=
  match type of H with
  | context [if ?b then _ else _] => destruct b eqn:?
  | context [match ?x with _ => _ end] => destruct x eqn:?
  end; try discriminate H.

(** Reflect the boolean tests of the source into propositions. *)
Ltac reflect_bools :=
  repeat match goal with
  | H : (_ && _) = true |- _ => apply andb_true_iff in H as [? ?]
  | H : (_ || _) = false |- _ => apply orb_false_iff in H as [? ?]
  | H : negb _ = true |- _ => apply negb_true_iff in H
  | H : negb _ = false |- _ => apply negb_false_iff in H
  | H : String.eqb _ _ = true |- _ => apply String.eqb_eq in H
  | H : String.eqb _ _ = false |- _ => apply String.eqb_neq in H
  | H : (_ =? _)%Z = true |- _ => apply Z.eqb_eq in H
  | H : (_ =? _)%Z = false |- _ => apply Z.eqb_neq in H
  | H : (_ <=? _)%Z = true |- _ => apply Z.leb_le in H
  | H : (_ <=? _)%Z = false |- _ => apply Z.leb_gt in H
  | H : (_ <? _)%Z = true |- _ => apply Z.ltb_lt in H
  | H : (_ <? _)%Z = false |- _ => apply Z.ltb_ge in H
  | H : bool_decide _ = true |- _ => apply bool_decide_eq_true in H
  | H : bool_decide _ = false |- _ => apply bool_decide_eq_false in H
  end.
