(* ===== verification/JsValue.v ===== *)
(** * JavaScript data: numbers, strings, plain objects

    The fragment of JavaScript values the modelled packages compute with:
    [number] with its three non-finite values and its comparison rules,
    [string] with the prefix, suffix and ordering operations the code calls,
    and the values that can sit in a [Record<string, unknown>].  Also the
    [canonicalize] wrapper of [packages/crypto/src/canonicalization.ts], over
    the third-party JCS serializer it calls. *)
From S2P Require Import Prelude.

(** ** Numbers *)

(** A finite number is an integer count of some unit; every comparison of the
    source is exact on it, and addition is exact as long as the sums stay in
    the safe-integer range (|n| <= 2^53), which is stated where it matters. *)
Inductive num : Type :=
| NaN
| PInf
| NInf
| Fin (z : Z).

#[export] Instance num_eq_dec : EqDecision num.
Proof. solve_decision. Defined.

(** [a < b] and [a <= b]: false as soon as one side is [NaN]. *)
Definition num_ltb (a b : num) : bool :=
  match a, b with
  | NaN, _ | _, NaN => false
  | _, NInf => false
  | NInf, _ => true
  | PInf, _ => false
  | _, PInf => true
  | Fin x, Fin y => x <? y
  end.

Definition num_leb (a b : num) : bool :=
  match a, b with
  | NaN, _ | _, NaN => false
  | NInf, _ => true
  | _, PInf => true
  | PInf, _ => false
  | _, NInf => false
  | Fin x, Fin y => x <=? y
  end.

Definition num_gtb (a b : num) : bool := num_ltb b a.
Definition num_geb (a b : num) : bool := num_leb b a.

Definition num_add (a b : num) : num :=
  match a, b with
  | NaN, _ | _, NaN => NaN
  | PInf, NInf | NInf, PInf => NaN
  | PInf, _ | _, PInf => PInf
  | NInf, _ | _, NInf => NInf
  | Fin x, Fin y => Fin (x + y)
  end.

Definition is_nan (a : num) : bool := match a with NaN => true | _ => false end.
Definition is_finite (a : num) : bool := match a with Fin _ => true | _ => false end.

(** [Math.min(a, b)] *)
Definition num_min (a b : num) : num := if is_nan a || is_nan b then NaN else if num_ltb b a then b else a.

(** A number read from JSON is finite. *)
Definition num_of_date (d : option Z) : num :=
  match d with Some z => Fin z | None => NaN end.

(** [Number.MAX_SAFE_INTEGER]. *)
Definition MAX_SAFE_INTEGER : Z := 2 ^ 53 - 1.

Lemma num_gtb_leb a b :
  is_finite a = true → is_finite b = true → num_gtb a b = negb (num_leb a b).
Proof.
  destruct a, b; try discriminate. intros _ _. unfold num_gtb; simpl.
  destruct (Z.leb_spec z z0), (Z.ltb_spec z0 z); simpl; lia.
Qed.

Lemma num_leb_trans a b c :
  num_leb a b = true → num_leb b c = true → num_leb a c = true.
Proof. destruct a, b, c; simpl; try done. rewrite !Z.leb_le. lia. Qed.

(** ** Strings *)

Definition str_endsWith (s suffix : string) : bool :=
  let n := String.length s in
  let k := String.length suffix in
  Nat.leb k n && String.eqb (String.substring (n - k) k s) suffix.

Definition str_startsWith (s p : string) : bool := String.prefix p s.

(** [s.slice(1)] *)
Definition str_tail (s : string) : string :=
  match s with String.EmptyString => String.EmptyString | String.String _ s' => s' end.

(** [s.split(c)[0]] for a one-character separator: the part before the first
    occurrence of [c], the whole string when there is none. *)
Fixpoint str_before (c : ascii) (s : string) : string :=
  match s with
  | String.EmptyString => String.EmptyString
  | String.String a s' => if Ascii.eqb a c then String.EmptyString else String.String a (str_before c s')
  end.

(** [s.includes(sub)] *)
Fixpoint str_includes (s sub : string) : bool :=
  String.prefix sub s ||
  match s with String.EmptyString => false | String.String _ s' => str_includes s' sub end.

(** The ordering of [<] on strings (code units; every string the source
    orders is a timestamp or an [HH:MM] time, hence ASCII). *)
Definition str_ltb (a b : string) : bool := String.ltb a b.
Definition str_leb (a b : string) : bool := String.leb a b.

Definition is_digit (c : ascii) : bool :=
  let n := N_of_ascii c in (48 <=? n)%N && (n <=? 57)%N.
Definition is_lower_hex (c : ascii) : bool :=
  let n := N_of_ascii c in is_digit c || ((97 <=? n)%N && (n <=? 102)%N).
Definition is_hex (c : ascii) : bool :=
  let n := N_of_ascii c in is_lower_hex c || ((65 <=? n)%N && (n <=? 70)%N).
Definition is_alpha (c : ascii) : bool :=
  let n := N_of_ascii c in
  ((65 <=? n)%N && (n <=? 90)%N) || ((97 <=? n)%N && (n <=? 122)%N).
Definition digit_val (c : ascii) : Z := Z.of_N (N_of_ascii c) - 48.

Fixpoint str_forallb (f : ascii → bool) (s : string) : bool :=
  match s with String.EmptyString => true | String.String a s' => f a && str_forallb f s' end.

(** [s.trim().length === 0] on ASCII white space. *)
Definition is_space (c : ascii) : bool :=
  let n := N_of_ascii c in ((9 <=? n)%N && (n <=? 13)%N) || (n =? 32)%N.
Definition blank (s : string) : bool := str_forallb is_space s.

(** Substrings *)
Lemma substring_all s : String.substring 0 (String.length s) s = s.
Proof. induction s as [|c s IH]; [done|]. cbn. by rewrite IH. Qed.

Lemma substring_skip a b : String.substring (String.length a) (String.length b) (a +:+ b) = b.
Proof.
  induction a as [|c a IH]; [apply substring_all|].
  change (String.String c a +:+ b) with (String.String c (a +:+ b)). exact IH.
Qed.

Lemma substring_split n s :
  (n <= String.length s)%nat →
  ∃ pre, String.length pre = n ∧ s = pre +:+ String.substring n (String.length s - n) s.
Proof.
  revert s. induction n as [|n IH]; intros s Hn.
  - exists "". rewrite Nat.sub_0_r, substring_all. done.
  - destruct s as [|c s]; simpl in Hn; [lia|].
    destruct (IH s ltac:(lia)) as (pre & L & E). exists (String.String c pre).
    split; [simpl; lia|]. change (String.String c pre +:+ ?x) with (String.String c (pre +:+ x)).
    f_equal. exact E.
Qed.

(** [s.endsWith(suffix)] *)
Lemma str_endsWith_spec s suffix : str_endsWith s suffix = true ↔ ∃ pre, s = pre +:+ suffix.
Proof.
  unfold str_endsWith. rewrite andb_true_iff, Nat.leb_le, String.eqb_eq. split.
  - intros [Hle E]. destruct (substring_split (String.length s - String.length suffix) s ltac:(lia))
      as (pre & _ & Es).
    replace (String.length s - (String.length s - String.length suffix))%nat
      with (String.length suffix) in Es by lia.
    exists pre. by rewrite E in Es.
  - intros [pre ->].
    assert (String.length (pre +:+ suffix) = String.length pre + String.length suffix)%nat as L.
    { induction pre as [|c pre IH]; [done|].
      change (String.String c pre +:+ suffix) with (String.String c (pre +:+ suffix)). simpl. lia. }
    rewrite L. split; [lia|].
    replace (String.length pre + String.length suffix - String.length suffix)%nat
      with (String.length pre) by lia.
    apply substring_skip.
Qed.

(** ** Values *)

(** What can sit in a [Record<string, unknown>]; cyclic objects and functions
    are outside the model. *)
Inductive value : Type :=
| VUndefined
| VNull
| VBool (b : bool)
| VNum (n : num)
| VStr (s : string)
| VArr (l : list value)
| VObj (o : list (string * value)).

(** A plain parameter object. *)
Abbreviation params := (gmap string value).

Definition get_prop (p : params) (field : string) : value :=
  default VUndefined (p !! field).

(** ** [canonicalize] *)

(** [assertSerializable]: reject [undefined] and non-finite numbers anywhere
    in the tree. *)
Fixpoint assertSerializable (v : value) : bool :=
  match v with
  | VUndefined => false
  | VNull | VBool _ | VStr _ => true
  | VNum n => is_finite n
  | VArr l => forallb assertSerializable l
  | VObj o => forallb (λ kv, assertSerializable kv.2) o
  end.

Section canonicalize.
(** The npm package [canonicalize] (RFC 8785). *)
Context (jcs : value → string).

Definition canonicalize (v : value) : res string :=
  if assertSerializable v then Ok (jcs v) else Throw "SERIALIZATION_FAILED".

Lemma canonicalize_inv v s : canonicalize v = Ok s → assertSerializable v = true ∧ s = jcs v.
Proof. unfold canonicalize. destruct (assertSerializable v); naive_solver. Qed.
End canonicalize.
