(* ===== verification/Time.v ===== *)
(** * Timestamps, the UTC calendar and metering windows

    Every timestamp of a wire object has the form
    [YYYY-MM-DDTHH:mm:ss.sssZ] ([timestampPattern] of
    [packages/types/src/schemas.ts]).  The source compares timestamps in two
    ways: as strings ([token.expiresAt > proof.parentExpiresAt]) and as
    instants ([new Date(t).getTime()]).  This file models both, and shows
    when they agree.  It also models [computeWindowStart]
    (packages/policy/src/guard/cumulative-tracker.ts) and the [HH:MM] times
    of recurring windows. *)
From S2P Require Import Prelude JsValue.

(** ** The calendar of ECMAScript dates *)

Definition msPerSecond : Z := 1000.
Definition msPerMinute : Z := 60000.
Definition msPerHour : Z := 3600000.
Definition msPerDay : Z := 86400000.

Definition leap (y : Z) : bool :=
  ((y mod 4 =? 0) && negb (y mod 100 =? 0)) || (y mod 400 =? 0).

(** [DayFromYear]: the day number of the first of January of [y]. *)
Definition DayFromYear (y : Z) : Z :=
  365 * (y - 1970) + (y - 1969) / 4 - (y - 1901) / 100 + (y - 1601) / 400.

Definition daysInYear (y : Z) : Z := if leap y then 366 else 365.

(** Days of the year before month [m] (1-12). *)
Definition daysBeforeMonth (m : Z) (lp : bool) : Z :=
  let l := if lp then 1 else 0 in
  match m with
  | 1 => 0 | 2 => 31 | 3 => 59 + l | 4 => 90 + l | 5 => 120 + l | 6 => 151 + l
  | 7 => 181 + l | 8 => 212 + l | 9 => 243 + l | 10 => 273 + l | 11 => 304 + l
  | _ => 334 + l
  end.

Definition daysInMonth (y m : Z) : Z :=
  if m =? 12 then 31
  else daysBeforeMonth (m + 1) (leap y) - daysBeforeMonth m (leap y).

(** [MakeDay]: a day of the month past the end of the month runs on into the
    next one. *)
Definition MakeDay (y m d : Z) : Z :=
  DayFromYear y + daysBeforeMonth m (leap y) + d - 1.

(** ** Timestamps *)

Record fields : Type := mkFields {
  f_year : Z; f_month : Z; f_day : Z;
  f_hour : Z; f_min : Z; f_sec : Z; f_ms : Z }.

Definition num2 (a b : ascii) : Z := 10 * digit_val a + digit_val b.

(** Strings of [timestampPattern], split into their fields. *)
Definition timestamp_fields (s : string) : option fields :=
  match String.list_ascii_of_string s with
  | [y1; y2; y3; y4; c1; m1; m2; c2; d1; d2; c3; h1; h2; c4; i1; i2; c5;
     s1; s2; c6; f1; f2; f3; c7] =>
      if forallb is_digit [y1; y2; y3; y4; m1; m2; d1; d2; h1; h2; i1; i2; s1; s2; f1; f2; f3]
         && (Ascii.eqb c1 "-" && Ascii.eqb c2 "-" && Ascii.eqb c3 "T" && Ascii.eqb c4 ":"
             && Ascii.eqb c5 ":" && Ascii.eqb c6 "." && Ascii.eqb c7 "Z")
      then Some (mkFields (100 * num2 y1 y2 + num2 y3 y4) (num2 m1 m2) (num2 d1 d2)
                   (num2 h1 h2) (num2 i1 i2) (num2 s1 s2) (100 * digit_val f1 + num2 f2 f3))
      else None
  | _ => None
  end.

(** The schema's timestamp pattern. *)
Definition timestampPattern (s : string) : bool :=
  match timestamp_fields s with Some _ => true | None => false end.

(** [new Date(s).getTime()] on strings of the pattern, [None] standing for
    [NaN]: months 1-12, days 1-31, and 24:00:00.000 for the end of a day are
    accepted, other out-of-range fields give an invalid date.  (Strings of
    other shapes do not pass the schema; they are given [NaN] here.) *)
Definition date_ms (f : fields) : option Z :=
  let inrange :=
    (1 <=? f_month f) && (f_month f <=? 12) && (1 <=? f_day f) && (f_day f <=? 31) in
  let clock :=
    ((f_hour f <=? 23) && (f_min f <=? 59) && (f_sec f <=? 59))
    || ((f_hour f =? 24) && (f_min f =? 0) && (f_sec f =? 0) && (f_ms f =? 0)) in
  if inrange && clock
  then Some (MakeDay (f_year f) (f_month f) (f_day f) * msPerDay
             + f_hour f * msPerHour + f_min f * msPerMinute
             + f_sec f * msPerSecond + f_ms f)
  else None.

Definition getTime (s : string) : option Z := timestamp_fields s ≫= date_ms.

(** The numeric value of [new Date(s).getTime()]. *)
Definition dateNum (s : string) : num := num_of_date (getTime s).

(** A date of the calendar: what [Date.prototype.toISOString] writes. *)
Definition calendar_fields (f : fields) : bool :=
  (1 <=? f_month f) && (f_month f <=? 12)
  && (1 <=? f_day f) && (f_day f <=? daysInMonth (f_year f) (f_month f))
  && (f_hour f <=? 23) && (f_min f <=? 59) && (f_sec f <=? 59).

Definition calendar_timestamp (s : string) : bool :=
  match timestamp_fields s with Some f => calendar_fields f | None => false end.

(** ** RFC 3339 timestamps

    The payloads of crypto/src carry timestamps of the wider form
    [YYYY-MM-DDTHH:mm:ss], an optional fraction, and [Z] or an offset. *)

(** The digits at the head of a list. *)
Fixpoint span_digits (l : list ascii) : list ascii * list ascii :=
  match l with
  | c :: l' => if is_digit c then let '(ds, rest) := span_digits l' in (c :: ds, rest) else ([], l)
  | [] => ([], [])
  end.

(** Milliseconds of a fraction: its first three digits. *)
Definition fraction_ms (ds : list ascii) : Z :=
  match ds with
  | a :: b :: c :: _ => 100 * digit_val a + num2 b c
  | [a; b] => 10 * num2 a b
  | [a] => 100 * digit_val a
  | [] => 0
  end.

(** The offset of a zone designator, in milliseconds. *)
Definition zone_ms (l : list ascii) : option Z :=
  match l with
  | [c] => if Ascii.eqb c "Z" then Some 0 else None
  | [sg; h1; h2; c; m1; m2] =>
      if forallb is_digit [h1; h2; m1; m2] && Ascii.eqb c ":"
         && (Ascii.eqb sg "+" || Ascii.eqb sg "-")
      then Some ((if Ascii.eqb sg "+" then 1 else -1)
                 * (num2 h1 h2 * msPerHour + num2 m1 m2 * msPerMinute))
      else None
  | _ => None
  end.

Definition iso_fields (s : string) : option (fields * Z) :=
  match String.list_ascii_of_string s with
  | y1 :: y2 :: y3 :: y4 :: c1 :: m1 :: m2 :: c2 :: d1 :: d2 :: c3 :: h1 :: h2 :: c4 :: i1 :: i2 :: c5
    :: s1 :: s2 :: rest =>
      if forallb is_digit [y1; y2; y3; y4; m1; m2; d1; d2; h1; h2; i1; i2; s1; s2]
         && (Ascii.eqb c1 "-" && Ascii.eqb c2 "-" && Ascii.eqb c3 "T" && Ascii.eqb c4 ":"
             && Ascii.eqb c5 ":")
      then
        let mk ms off := Some (mkFields (100 * num2 y1 y2 + num2 y3 y4) (num2 m1 m2) (num2 d1 d2)
                                 (num2 h1 h2) (num2 i1 i2) (num2 s1 s2) ms, off) in
        match rest with
        | dot :: rest' =>
            if Ascii.eqb dot "." then
              let '(ds, z) := span_digits rest' in
              if negb (Nat.eqb (length ds) 0) then zone_ms z ≫= mk (fraction_ms ds) else None
            else zone_ms rest ≫= mk 0
        | [] => None
        end
      else None
  | _ => None
  end.

(** [new Date(s).getTime()] on such strings. *)
Definition iso_getTime (s : string) : option Z :=
  '(f, off) ← iso_fields s; t ← date_ms f; Some (t - off).

Example iso_offset : iso_getTime "2026-06-01T02:00:00+02:00" = iso_getTime "2026-06-01T00:00:00.0Z".
Proof. reflexivity. Qed.

(** On timestamps of the schema's pattern it is the instant of [getTime]. *)
Lemma iso_getTime_timestamp s : timestampPattern s = true → iso_getTime s = getTime s.
Proof.
  unfold timestampPattern, iso_getTime, getTime, iso_fields, timestamp_fields.
  destruct (String.list_ascii_of_string s) as [|y1[|y2[|y3[|y4[|c1[|m1[|m2[|c2[|d1[|d2[|c3[|h1[|h2[|c4
    [|i1[|i2[|c5[|s1[|s2[|c6[|f1[|f2[|f3[|c7[|]]]]]]]]]]]]]]]]]]]]]]]]]; try done.
  destruct (_ && _) eqn:E; [|done]. intros _. reflect_bools. cbn [forallb] in *. reflect_bools.
  repeat match goal with H : Ascii.eqb _ _ = true |- _ => apply Ascii.eqb_eq in H; subst end.
  repeat match goal with H : is_digit _ = true |- _ => rewrite H end. cbn -[date_ms num2 digit_val].
  repeat match goal with H : is_digit _ = true |- _ => rewrite ?H; clear H end. cbn -[date_ms num2 digit_val].
  change (is_digit "Z") with false. cbn -[date_ms num2 digit_val].
  match goal with |- context [date_ms ?f] => destruct (date_ms f) as [t|] end; cbn; [|done].
  by rewrite Z.sub_0_r.
Qed.

(** ** [isTimestampExpired] (packages/identity/src/did.ts) *)

Definition isTimestampExpired (expiresAt now : string) : bool :=
  num_leb (dateNum expiresAt) (dateNum now).

(** ** Recurring windows: [HH:MM] *)

(** [/^([01][0-9]|2[0-3]):[0-5][0-9]$/] *)
Definition HH_MM_test (s : string) : bool :=
  match String.list_ascii_of_string s with
  | [h1; h2; c; m1; m2] =>
      forallb is_digit [h1; h2; m1; m2] && Ascii.eqb c ":"
      && (num2 h1 h2 <=? 23) && (num2 m1 m2 <=? 59)
  | _ => false
  end.

(** [Number(s)] on the decimal literals that occur in times; the empty string
    is 0 and anything else is [NaN]. *)
Fixpoint decimal_from (acc : Z) (l : list ascii) : option Z :=
  match l with
  | [] => Some acc
  | c :: l' => if is_digit c then decimal_from (10 * acc + digit_val c) l' else None
  end.
Definition js_Number (l : list ascii) : num := num_of_date (decimal_from 0 l).

(** [t.split(':')], as lists of characters. *)
Fixpoint split_colon (l : list ascii) : list (list ascii) :=
  match l with
  | [] => [[]]
  | c :: l' =>
      if Ascii.eqb c ":" then [] :: split_colon l'
      else match split_colon l' with
           | w :: ws => (c :: w) :: ws
           | [] => [[c]]
           end
  end.

Definition num_mul60 (n : num) : num :=
  match n with Fin z => Fin (60 * z) | _ => n end.

Definition parseHHMM (t : string) : num :=
  match map js_Number (split_colon (String.list_ascii_of_string t)) with
  | h :: m :: _ => num_add (num_mul60 h) m
  | [h] => num_mul60 h
  | [] => Fin 0
  end.

(** ** Metering windows *)

Inductive window : Type := hour | day | week | month.

#[export] Instance window_eq_dec : EqDecision window.
Proof. solve_decision. Defined.

Definition Day (t : Z) : Z := t / msPerDay.

(** [getUTCDay]: 0 = Sunday. *)
Definition WeekDay (t : Z) : Z := (Day t + 4) mod 7.

(** [YearFromTime]: the year whose days contain day [d], from the mean length
    of a Gregorian year, corrected by one year where needed. *)
Definition YearFromDay (d : Z) : Z :=
  let y := 1970 + d * 400 / 146097 in
  if d <? DayFromYear y then y - 1
  else if DayFromYear (y + 1) <=? d then y + 1 else y.

(** The month (1-12) holding day-in-year [n]. *)
Definition MonthFromDayInYear (n : Z) (lp : bool) : Z :=
  let l := if lp then 1 else 0 in
  if n <? 31 then 1 else if n <? 59 + l then 2 else if n <? 90 + l then 3
  else if n <? 120 + l then 4 else if n <? 151 + l then 5 else if n <? 181 + l then 6
  else if n <? 212 + l then 7 else if n <? 243 + l then 8 else if n <? 273 + l then 9
  else if n <? 304 + l then 10 else if n <? 334 + l then 11 else 12.

(** The day number of the first of the month that contains day [d]. *)
Definition MonthStartDay (d : Z) : Z :=
  let y := YearFromDay d in
  let m := MonthFromDayInYear (d - DayFromYear y) (leap y) in
  MakeDay y m 1.

Definition computeWindowStart_ms (w : window) (t : Z) : Z :=
  match w with
  | hour => t / msPerHour * msPerHour
  | day => Day t * msPerDay
  | week =>
      let dayOfWeek := WeekDay t in
      let daysToMonday := if dayOfWeek =? 0 then 6 else dayOfWeek - 1 in
      (Day t - daysToMonday) * msPerDay
  | month => MonthStartDay (Day t) * msPerDay
  end.

Definition computeWindowStart (w : window) (now : option Z) : option Z :=
  computeWindowStart_ms w <$> now.

(** ** Lemmas on the calendar *)

Lemma DayFromYear_succ y : DayFromYear (y + 1) = DayFromYear y + daysInYear y.
Proof.
  unfold DayFromYear, daysInYear, leap.
  destruct (Z.eqb_spec (y mod 4) 0), (Z.eqb_spec (y mod 100) 0),
    (Z.eqb_spec (y mod 400) 0); simpl; Z.div_mod_to_equations; lia.
Qed.

Lemma DayFromYear_mono y1 y2 : y1 <= y2 → DayFromYear y1 <= DayFromYear y2.
Proof. unfold DayFromYear. Z.div_mod_to_equations. lia. Qed.

Lemma daysInYear_bounds y : 365 <= daysInYear y <= 366.
Proof. unfold daysInYear. destruct (leap y); lia. Qed.

(** Enumerate a month number. *)
Ltac month_cases m :=
  let H := fresh in
  assert (m = 1 ∨ m = 2 ∨ m = 3 ∨ m = 4 ∨ m = 5 ∨ m = 6 ∨ m = 7 ∨ m = 8 ∨ m = 9
          ∨ m = 10 ∨ m = 11 ∨ m = 12) as H by lia;
  destruct H as [->|[->|[->|[->|[->|[->|[->|[->|[->|[->|[->| ->]]]]]]]]]]].

Lemma daysInMonth_bounds y m : 1 <= m <= 12 → 28 <= daysInMonth y m <= 31.
Proof. intros. unfold daysInMonth. month_cases m; destruct (leap y); simpl; lia. Qed.

(** A day of a month precedes the first day of every later month. *)
Lemma daysBeforeMonth_lt y m1 m2 d :
  1 <= m1 → m1 < m2 → m2 <= 12 → d <= daysInMonth y m1 →
  daysBeforeMonth m1 (leap y) + d <= daysBeforeMonth m2 (leap y).
Proof.
  unfold daysInMonth. intros ???. month_cases m1; month_cases m2; try lia;
    destruct (leap y); simpl; lia.
Qed.

Lemma day_in_year y m d :
  1 <= m <= 12 → d <= daysInMonth y m →
  daysBeforeMonth m (leap y) + d <= daysInYear y.
Proof.
  unfold daysInMonth, daysInYear. intros ?. month_cases m; destruct (leap y); simpl; lia.
Qed.

Lemma daysBeforeMonth_nonneg m lp : 0 <= daysBeforeMonth m lp.
Proof.
  destruct (decide (1 <= m <= 12)) as [?|?].
  - month_cases m; destruct lp; simpl; lia.
  - unfold daysBeforeMonth. destruct lp; repeat case_match; lia.
Qed.

(** Lexicographic order on the civil date is the order of day numbers. *)
Lemma MakeDay_mono y1 m1 d1 y2 m2 d2 :
  1 <= m1 <= 12 → 1 <= m2 <= 12 → d1 <= daysInMonth y1 m1 → 1 <= d1 → 1 <= d2 →
  y1 < y2 ∨ (y1 = y2 ∧ (m1 < m2 ∨ (m1 = m2 ∧ d1 < d2))) →
  MakeDay y1 m1 d1 < MakeDay y2 m2 d2.
Proof.
  intros Hm1 Hm2 Hd1 ?? Hlex. unfold MakeDay.
  destruct Hlex as [Hy|[-> [Hm|[-> Hd]]]].
  - pose proof (day_in_year y1 m1 d1 Hm1 Hd1).
    pose proof (DayFromYear_succ y1). pose proof (DayFromYear_mono (y1 + 1) y2 ltac:(lia)).
    pose proof (daysBeforeMonth_nonneg m2 (leap y2)). lia.
  - pose proof (daysBeforeMonth_lt y2 m1 m2 d1). lia.
  - lia.
Qed.

(** ** String order and number order *)

Definition same_shape (a b : ascii) : Prop :=
  (is_digit a = true ∧ is_digit b = true) ∨ (a = b ∧ is_digit a = false).

(** The number spelled by the digits of a string, separators skipped. *)
Fixpoint digits_num (l : list ascii) : Z :=
  match l with
  | [] => 0
  | c :: l' =>
      if is_digit c
      then digit_val c * 10 ^ Z.of_nat (length (filter (λ c, is_digit c = true) l')) + digits_num l'
      else digits_num l'
  end.

Definition ndigits (l : list ascii) : nat := length (filter (λ c, is_digit c = true) l).

Lemma is_digit_val c : is_digit c = true → 0 <= digit_val c <= 9.
Proof.
  unfold is_digit, digit_val. intros [H1 H2]%andb_true_iff.
  apply N.leb_le in H1, H2. lia.
Qed.

Lemma ndigits_cons c l :
  ndigits (c :: l) = if is_digit c then S (ndigits l) else ndigits l.
Proof. unfold ndigits. rewrite filter_cons. destruct (is_digit c); done. Qed.

Lemma digits_num_bounds l : 0 <= digits_num l < 10 ^ Z.of_nat (ndigits l).
Proof.
  induction l as [|c l IH]; [done|]. rewrite ndigits_cons. simpl.
  destruct (is_digit c) eqn:Hc; [|done].
  apply is_digit_val in Hc. fold (ndigits l).
  rewrite Nat2Z.inj_succ, Z.pow_succ_r by lia. nia.
Qed.

Lemma same_shape_ndigits l1 l2 : Forall2 same_shape l1 l2 → ndigits l1 = ndigits l2.
Proof.
  induction 1 as [|a b l1 l2 Hs _ IH]; [done|]. rewrite !ndigits_cons, IH.
  destruct Hs as [[-> ->]|[-> ->]]; done.
Qed.

Lemma ascii_compare_digits a b :
  Ascii.compare a b = (N_of_ascii a ?= N_of_ascii b)%N.
Proof. done. Qed.

(** Comparing two strings of the same shape compares the numbers they spell. *)
Lemma compare_digits_num l1 l2 :
  Forall2 same_shape l1 l2 →
  String.compare (String.string_of_list_ascii l1) (String.string_of_list_ascii l2)
  = (digits_num l1 ?= digits_num l2).
Proof.
  induction 1 as [|a b l1 l2 Hs Hl IH]; [done|]. simpl.
  rewrite ascii_compare_digits.
  pose proof (digits_num_bounds l1) as B1. pose proof (digits_num_bounds l2) as B2.
  rewrite (same_shape_ndigits _ _ Hl) in B1.
  destruct Hs as [[Ha Hb]|[-> Hd]].
  - rewrite Ha, Hb. fold (ndigits l1) (ndigits l2). rewrite (same_shape_ndigits _ _ Hl).
    set (P := 10 ^ Z.of_nat (ndigits l2)) in *.
    pose proof (is_digit_val _ Ha). pose proof (is_digit_val _ Hb).
    unfold digit_val in *. symmetry.
    destruct (N.compare_spec (N_of_ascii a) (N_of_ascii b)) as [->|Hlt|Hgt].
    + rewrite IH. destruct (Z.compare_spec (digits_num l1) (digits_num l2));
        [apply Z.compare_eq_iff|apply Z.compare_lt_iff|apply Z.compare_gt_iff]; lia.
    + apply Z.compare_lt_iff. nia.
    + apply Z.compare_gt_iff. nia.
  - rewrite N.compare_refl, Hd. exact IH.
Qed.

(** Reading the digits from the left. *)
Fixpoint digits_from (acc : Z) (l : list ascii) : Z :=
  match l with
  | [] => acc
  | c :: l' => digits_from (if is_digit c then 10 * acc + digit_val c else acc) l'
  end.

Lemma digits_from_num acc l :
  digits_from acc l = acc * 10 ^ Z.of_nat (ndigits l) + digits_num l.
Proof.
  revert acc. induction l as [|c l IH]; intros acc;
    cbn [digits_from digits_num]; [change (ndigits []) with 0%nat; lia|].
  rewrite IH, ndigits_cons. fold (ndigits l). destruct (is_digit c); [|lia].
  rewrite Nat2Z.inj_succ, Z.pow_succ_r by lia. ring.
Qed.

Lemma digits_from_digit acc c l :
  is_digit c = true → digits_from acc (c :: l) = digits_from (10 * acc + digit_val c) l.
Proof. simpl. by intros ->. Qed.

Lemma digits_from_sep acc c l :
  is_digit c = false → digits_from acc (c :: l) = digits_from acc l.
Proof. simpl. by intros ->. Qed.

(** The order key of a timestamp: its digits read as one number. *)
Definition ts_key (f : fields) : Z :=
  f_year f * 10 ^ 13 + f_month f * 10 ^ 11 + f_day f * 10 ^ 9 + f_hour f * 10 ^ 7
  + f_min f * 10 ^ 5 + f_sec f * 10 ^ 3 + f_ms f.

(** What [timestamp_fields] reads: digits at fixed places, separators between. *)
Definition fields_ranges (f : fields) : Prop :=
  0 <= f_year f < 10000 ∧ 0 <= f_month f < 100 ∧ 0 <= f_day f < 100 ∧
  0 <= f_hour f < 100 ∧ 0 <= f_min f < 100 ∧ 0 <= f_sec f < 100 ∧ 0 <= f_ms f < 1000.

(** The characters of a timestamp, all 24 of them. *)
Ltac timestamp_chars l :=
  do 24 (destruct l as [|? l]; [discriminate|]); destruct l as [|? l]; [|discriminate].

Lemma timestamp_template s f :
  timestamp_fields s = Some f →
  Forall2 same_shape (String.list_ascii_of_string s)
    (String.list_ascii_of_string "0000-00-00T00:00:00.000Z")
  ∧ digits_num (String.list_ascii_of_string s) = ts_key f ∧ fields_ranges f.
Proof.
  unfold timestamp_fields. generalize (String.list_ascii_of_string s) as l. intros l.
  timestamp_chars l. cbn [forallb].
  match goal with |- context [if ?b then _ else _] => destruct b eqn:Hb end; [|discriminate].
  intros [= <-]. repeat rewrite ?andb_true_iff, ?Ascii.eqb_eq in Hb.
  destruct_and!; subst.
  split; [|split].
  - cbn [String.list_ascii_of_string].
    repeat (constructor; [first [left; split; [assumption|reflexivity] | right; split; reflexivity]|]).
    constructor.
  - pose proof (digits_from_num 0 [a; a0; a1; a2; "-"; a4; a5; "-"; a7; a8; "T"; a10; a11; ":";
      a13; a14; ":"; a16; a17; "."; a19; a20; a21; "Z"]%char) as E.
    rewrite Z.mul_0_l, Z.add_0_l in E. rewrite <- E. clear E.
    repeat first [rewrite digits_from_digit by assumption
                 | rewrite digits_from_sep by reflexivity].
    cbn [digits_from]. unfold ts_key, num2.
    cbn [f_year f_month f_day f_hour f_min f_sec f_ms]. lia.
  - unfold fields_ranges, num2; cbn [f_year f_month f_day f_hour f_min f_sec f_ms].
    repeat match goal with H : is_digit _ = true |- _ => apply is_digit_val in H end. lia.
Qed.

Lemma same_shape_trans l1 l2 l3 :
  Forall2 same_shape l1 l3 → Forall2 same_shape l2 l3 → Forall2 same_shape l1 l2.
Proof.
  intros H1. revert l2. induction H1 as [|a c l1 l3 Hs _ IH]; intros l2 H2;
    inversion_clear H2 as [|b ? l2' ? Hb Hl2]; [constructor|].
  constructor; [|by apply IH].
  unfold same_shape in *. intuition congruence.
Qed.

(** On the timestamps of the schema, string comparison is comparison of the
    digit keys. *)
Lemma timestamp_compare_key a b fa fb :
  timestamp_fields a = Some fa → timestamp_fields b = Some fb →
  String.compare a b = (ts_key fa ?= ts_key fb).
Proof.
  intros (Ha & Ea & _)%timestamp_template (Hb & Eb & _)%timestamp_template.
  rewrite <- Ea, <- Eb, <- compare_digits_num by (by eapply same_shape_trans).
  by rewrite !String.string_of_list_ascii_of_string.
Qed.

Lemma calendar_date_ms f :
  calendar_fields f = true → fields_ranges f →
  date_ms f = Some (MakeDay (f_year f) (f_month f) (f_day f) * msPerDay
             + f_hour f * msPerHour + f_min f * msPerMinute
             + f_sec f * msPerSecond + f_ms f).
Proof.
  unfold calendar_fields, date_ms. intros H Hr. reflect_bools.
  pose proof (daysInMonth_bounds (f_year f) (f_month f) ltac:(lia)).
  repeat match goal with |- context [?a <=? ?b] =>
    replace (a <=? b) with true by (symmetry; apply Z.leb_le; lia) end.
  done.
Qed.

(** Calendar timestamps are ordered by their keys. *)
Lemma date_ms_mono fa fb ta tb :
  calendar_fields fa = true → calendar_fields fb = true →
  fields_ranges fa → fields_ranges fb →
  date_ms fa = Some ta → date_ms fb = Some tb →
  ts_key fa < ts_key fb → ta < tb.
Proof.
  intros Ca Cb Ra Rb. rewrite !calendar_date_ms by done. intros [= <-] [= <-] Hk.
  unfold calendar_fields in *. reflect_bools.
  unfold fields_ranges, ts_key, msPerDay, msPerHour, msPerMinute, msPerSecond in *.
  destruct (decide (f_year fa < f_year fb ∨ (f_year fa = f_year fb ∧
     (f_month fa < f_month fb ∨ (f_month fa = f_month fb ∧ f_day fa < f_day fb))))) as [Hlex|Hn].
  - pose proof (MakeDay_mono (f_year fa) (f_month fa) (f_day fa)
      (f_year fb) (f_month fb) (f_day fb)
      ltac:(lia) ltac:(lia) ltac:(lia) ltac:(lia) ltac:(lia) Hlex). lia.
  - assert (f_year fa = f_year fb ∧ f_month fa = f_month fb ∧ f_day fa = f_day fb)
      as (-> & -> & ->) by lia. lia.
Qed.

(** String order and instant order of calendar timestamps. *)
Lemma calendar_order a b :
  calendar_timestamp a = true → calendar_timestamp b = true →
  str_ltb a b = num_ltb (dateNum a) (dateNum b)
  ∧ str_leb a b = num_leb (dateNum a) (dateNum b).
Proof.
  unfold calendar_timestamp, dateNum, getTime, str_ltb, str_leb, String.ltb, String.leb.
  destruct (timestamp_fields a) as [fa|] eqn:Ha; [|done].
  destruct (timestamp_fields b) as [fb|] eqn:Hb; [|done]. intros Ca Cb.
  rewrite (timestamp_compare_key a b fa fb) by done.
  destruct (timestamp_template _ _ Ha) as (_ & Ka & Ra).
  destruct (timestamp_template _ _ Hb) as (_ & Kb & Rb).
  cbn [mbind option_bind].
  rewrite !calendar_date_ms by done. cbn [num_of_date num_ltb num_leb].
  pose proof (calendar_date_ms fa Ca Ra) as Ta. pose proof (calendar_date_ms fb Cb Rb) as Tb.
  match type of Ta with _ = Some ?x => set (ta := x) in * end.
  match type of Tb with _ = Some ?x => set (tb := x) in * end.
  destruct (Z.compare_spec (ts_key fa) (ts_key fb)) as [E|L|G].
  - assert (ta = tb) as <-.
    { subst ta tb. unfold ts_key, fields_ranges in *.
      assert (f_year fa = f_year fb ∧ f_month fa = f_month fb ∧ f_day fa = f_day fb
        ∧ f_hour fa = f_hour fb ∧ f_min fa = f_min fb ∧ f_sec fa = f_sec fb
        ∧ f_ms fa = f_ms fb) as (-> & -> & -> & -> & -> & -> & ->) by lia. done. }
    by rewrite Z.ltb_irrefl, Z.leb_refl.
  - pose proof (date_ms_mono fa fb ta tb Ca Cb Ra Rb Ta Tb L).
    split; symmetry; [apply Z.ltb_lt|apply Z.leb_le]; lia.
  - pose proof (date_ms_mono fb fa tb ta Cb Ca Rb Ra Tb Ta G).
    split; symmetry; [apply Z.ltb_ge|apply Z.leb_gt]; lia.
Qed.

(** A calendar timestamp denotes an instant. *)
Lemma calendar_getTime a : calendar_timestamp a = true → ∃ t, getTime a = Some t.
Proof.
  unfold calendar_timestamp, getTime. destruct (timestamp_fields a) as [f|] eqn:E; [|done].
  intros C. destruct (timestamp_template _ _ E) as (_ & _ & R). simpl.
  rewrite calendar_date_ms by done. eauto.
Qed.

(** String comparison of timestamps is comparison of instants: on
    timestamps that denote a calendar date, [a < b] and [a <= b] on the
    strings (as the delegation validator compares expiries) agree with the
    same comparisons on [new Date(_).getTime()] (as the token verifier and the
    runtime guard compare them), and a timestamp is expired at [now] exactly
    when it is at most [now] as a string. *)
Theorem timestamp_order_agrees a b :
  calendar_timestamp a = true → calendar_timestamp b = true →
  str_ltb a b = num_ltb (dateNum a) (dateNum b)
  ∧ str_leb a b = num_leb (dateNum a) (dateNum b)
  ∧ isTimestampExpired a b = str_leb a b.
Proof. intros Ha Hb. destruct (calendar_order a b Ha Hb) as [H1 H2]. by rewrite H1, H2. Qed.

Lemma timestamp_order_agrees_witness :
  str_ltb "2026-01-31T23:59:59.999Z" "2026-02-01T00:00:00.000Z"
  = num_ltb (dateNum "2026-01-31T23:59:59.999Z") (dateNum "2026-02-01T00:00:00.000Z").
Proof.
  apply (timestamp_order_agrees "2026-01-31T23:59:59.999Z" "2026-02-01T00:00:00.000Z");
    reflexivity.
Defined.

(** A timestamp that passes the schema but is not a date: [new Date] gives an
    invalid date, every comparison with it is false. *)
Lemma isTimestampExpired_invalid s now :
  getTime s = None → isTimestampExpired s now = false.
Proof. unfold isTimestampExpired, dateNum. by intros ->. Qed.

(** ** Lemmas on [HH:MM] times *)

Lemma js_Number2 a b :
  is_digit a = true → is_digit b = true → js_Number [a; b] = Fin (num2 a b).
Proof.
  intros Ha Hb. unfold js_Number. cbn [decimal_from]. rewrite Ha, Hb.
  unfold num_of_date, num2. f_equal; lia.
Qed.

Lemma HH_MM_inv s :
  HH_MM_test s = true →
  ∃ h m, parseHHMM s = Fin (60 * h + m) ∧ 0 <= h <= 23 ∧ 0 <= m <= 59
    ∧ digits_num (String.list_ascii_of_string s) = 100 * h + m
    ∧ Forall2 same_shape (String.list_ascii_of_string s) (String.list_ascii_of_string "00:00").
Proof.
  unfold HH_MM_test, parseHHMM. generalize (String.list_ascii_of_string s) as l. intros l.
  do 5 (destruct l as [|? l]; [discriminate|]); destruct l as [|? l]; [|discriminate].
  cbn [forallb]. intros Hb. repeat rewrite ?andb_true_iff, ?Ascii.eqb_eq in Hb.
  destruct Hb as [[[(D1 & D2 & D3 & D4 & _) ->] Hh] Hm]. apply Z.leb_le in Hh, Hm.
  exists (num2 a a0), (num2 a2 a3).
  assert (∀ c, is_digit c = true → Ascii.eqb c ":" = false) as Hc.
  { intros c Hd. destruct (Ascii.eqb_spec c ":"); [subst; discriminate|done]. }
  pose proof (is_digit_val _ D1). pose proof (is_digit_val _ D2).
  pose proof (is_digit_val _ D3). pose proof (is_digit_val _ D4).
  split_and!; try (unfold num2 in *; lia).
  - assert (split_colon [a; a0; ":"; a2; a3]%char = [[a; a0]; [a2; a3]]) as ->.
    { cbn [split_colon]. by rewrite (Hc a), (Hc a0), (Hc a2), (Hc a3). }
    cbn [map]. rewrite !js_Number2 by done. cbn [num_mul60 num_add]. f_equal; lia.
  - pose proof (digits_from_num 0 [a; a0; ":"; a2; a3]%char) as E.
    rewrite Z.mul_0_l, Z.add_0_l in E. rewrite <- E. clear E.
    repeat first [rewrite digits_from_digit by assumption
                 | rewrite digits_from_sep by reflexivity].
    cbn [digits_from]. unfold num2. lia.
  - cbn [String.list_ascii_of_string].
    repeat (constructor; [first [left; split; [assumption|reflexivity] | right; split; reflexivity]|]).
    constructor.
Qed.

(** The minute of the day of a valid [HH:MM] time. *)
Definition hhmm (s : string) : Z :=
  match parseHHMM s with Fin z => z | _ => 0 end.

Lemma hhmm_range s : HH_MM_test s = true → parseHHMM s = Fin (hhmm s) ∧ 0 <= hhmm s < 1440.
Proof. intros (h & m & E & ? & ? & _)%HH_MM_inv. unfold hhmm. rewrite E. split; [done|lia]. Qed.

(** The string order of valid times is the order of minutes. *)
Lemma hhmm_compare a b :
  HH_MM_test a = true → HH_MM_test b = true → String.compare a b = (hhmm a ?= hhmm b).
Proof.
  intros (ha & ma & Ea & ? & ? & Da & Sa)%HH_MM_inv (hb & mb & Eb & ? & ? & Db & Sb)%HH_MM_inv.
  unfold hhmm. rewrite Ea, Eb.
  rewrite <- (String.string_of_list_ascii_of_string a), <- (String.string_of_list_ascii_of_string b).
  rewrite compare_digits_num by (by eapply same_shape_trans). rewrite Da, Db.
  destruct (Z.compare_spec (60 * ha + ma) (60 * hb + mb));
    [apply Z.compare_eq_iff|apply Z.compare_lt_iff|apply Z.compare_gt_iff]; lia.
Qed.

Lemma hhmm_ltb a b :
  HH_MM_test a = true → HH_MM_test b = true → str_ltb a b = (hhmm a <? hhmm b).
Proof.
  intros. unfold str_ltb, String.ltb. rewrite hhmm_compare by done.
  by rewrite Z.ltb_compare.
Qed.

Lemma hhmm_leb a b :
  HH_MM_test a = true → HH_MM_test b = true → str_leb a b = (hhmm a <=? hhmm b).
Proof.
  intros. unfold str_leb, String.leb. rewrite hhmm_compare by done.
  by rewrite Z.leb_compare.
Qed.

(** ** Metering windows are intervals *)

Lemma YearFromDay_spec d :
  DayFromYear (YearFromDay d) <= d < DayFromYear (YearFromDay d + 1).
Proof.
  unfold YearFromDay. set (y := 1970 + d * 400 / 146097).
  assert (DayFromYear (y - 1) <= d < DayFromYear (y + 2)) as [Hlo Hhi].
  { unfold DayFromYear. subst y. Z.div_mod_to_equations. lia. }
  destruct (Z.ltb_spec d (DayFromYear y)); [replace (y - 1 + 1) with y by lia; lia|].
  destruct (Z.leb_spec (DayFromYear (y + 1)) d); [|lia].
  replace (y + 1 + 1) with (y + 2) by lia. lia.
Qed.

Lemma MonthFromDayInYear_spec y n :
  0 <= n < daysInYear y →
  let m := MonthFromDayInYear n (leap y) in
  1 <= m <= 12 ∧ daysBeforeMonth m (leap y) <= n
  ∧ n < daysBeforeMonth m (leap y) + daysInMonth y m.
Proof.
  unfold daysInYear, daysInMonth, MonthFromDayInYear. intros H.
  destruct (leap y); repeat match goal with |- context [?a <? ?b] =>
    destruct (Z.ltb_spec a b); [simpl; lia|] end; simpl; lia.
Qed.

(** The month that holds a day. *)
Lemma MonthStartDay_spec d :
  ∃ y m, 1 <= m <= 12 ∧ MonthStartDay d = MakeDay y m 1
    ∧ MakeDay y m 1 <= d <= MakeDay y m (daysInMonth y m).
Proof.
  pose proof (YearFromDay_spec d) as HY. set (y := YearFromDay d) in *.
  rewrite DayFromYear_succ in HY.
  destruct (MonthFromDayInYear_spec y (d - DayFromYear y)) as (Hm & H1 & H2); [lia|].
  exists y, (MonthFromDayInYear (d - DayFromYear y) (leap y)).
  split; [done|]. split; [done|]. unfold MakeDay. lia.
Qed.

(** A day lies in one month only. *)
Lemma same_month y m y' m' d d' :
  1 <= m <= 12 → 1 <= m' <= 12 →
  MakeDay y m 1 <= d <= MakeDay y m (daysInMonth y m) →
  MakeDay y' m' 1 <= d' <= MakeDay y' m' (daysInMonth y' m') →
  MakeDay y m 1 <= d' <= d → MakeDay y' m' 1 = MakeDay y m 1.
Proof.
  intros Hm Hm' Hd Hd' Hle.
  pose proof (daysInMonth_bounds y m Hm). pose proof (daysInMonth_bounds y' m' Hm').
  destruct (decide (y' < y ∨ (y' = y ∧ m' < m))) as [Hlt|Hn1].
  - pose proof (MakeDay_mono y' m' (daysInMonth y' m') y m 1). lia.
  - destruct (decide (y < y' ∨ (y = y' ∧ m < m'))) as [Hlt|Hn2].
    + pose proof (MakeDay_mono y m (daysInMonth y m) y' m' 1). lia.
    + by assert (y' = y ∧ m' = m) as [-> ->] by lia.
Qed.

Lemma MonthStartDay_const d d' :
  MonthStartDay d <= d' <= d → MonthStartDay d' = MonthStartDay d.
Proof.
  destruct (MonthStartDay_spec d) as (y & m & Hm & -> & Hd).
  destruct (MonthStartDay_spec d') as (y' & m' & Hm' & -> & Hd'). intros Hle.
  by eapply (same_month y m y' m' d d').
Qed.

(** The longest a window can be, in milliseconds. *)
Definition window_span (w : window) : Z :=
  match w with
  | hour => msPerHour
  | day => msPerDay
  | week => 7 * msPerDay
  | month => 31 * msPerDay
  end.

Lemma window_start_bounds w t :
  computeWindowStart_ms w t <= t < computeWindowStart_ms w t + window_span w.
Proof.
  destruct w; unfold computeWindowStart_ms, window_span, WeekDay, Day, msPerHour, msPerDay.
  - Z.div_mod_to_equations. lia.
  - Z.div_mod_to_equations. lia.
  - case_match; reflect_bools; Z.div_mod_to_equations; lia.
  - destruct (MonthStartDay_spec (t / 86400000)) as (y & m & Hm & -> & Hd).
    pose proof (daysInMonth_bounds y m Hm).
    assert (MakeDay y m (daysInMonth y m) = MakeDay y m 1 + daysInMonth y m - 1)
      by (unfold MakeDay; lia).
    Z.div_mod_to_equations. lia.
Qed.

Lemma window_start_const w t t' :
  computeWindowStart_ms w t <= t' <= t →
  computeWindowStart_ms w t' = computeWindowStart_ms w t.
Proof.
  destruct w; unfold computeWindowStart_ms, WeekDay, Day, msPerHour, msPerDay.
  - intros H. f_equal. Z.div_mod_to_equations. lia.
  - intros H. f_equal. Z.div_mod_to_equations. lia.
  - intros H. f_equal. revert H. repeat case_match; reflect_bools;
      Z.div_mod_to_equations; lia.
  - intros H. f_equal. apply MonthStartDay_const.
    Z.div_mod_to_equations. lia.
Qed.

(** [computeWindowStart] cuts time into consecutive windows: the start is
    never after [now] and never further back than the window's length, and
    every instant between the start and [now] has the same start (so two
    requests in the same hour, UTC day, ISO week or calendar month meter
    against the same window). *)
Theorem computeWindowStart_interval w t :
  ∃ s, computeWindowStart w (Some t) = Some s
    ∧ s <= t < s + window_span w
    ∧ ∀ t', s <= t' <= t → computeWindowStart w (Some t') = Some s.
Proof.
  exists (computeWindowStart_ms w t). split; [done|].
  split; [apply window_start_bounds|].
  intros t' Ht'. simpl. f_equal. by apply window_start_const.
Qed.

(** ** [Date.prototype.toISOString] *)

Definition digit_ascii (d : Z) : ascii := ascii_of_N (48 + Z.to_N d).
Definition print2 (n : Z) : list ascii := [digit_ascii (n / 10); digit_ascii (n mod 10)].
Definition print3 (n : Z) : list ascii := digit_ascii (n / 100) :: print2 (n mod 100).
Definition print4 (n : Z) : list ascii := print2 (n / 100) ++ print2 (n mod 100).

Definition fields_of_time (t : Z) : fields :=
  let d := Day t in
  let y := YearFromDay d in
  let m := MonthFromDayInYear (d - DayFromYear y) (leap y) in
  mkFields y m (d - MakeDay y m 1 + 1)
    (t mod msPerDay / msPerHour) (t mod msPerHour / msPerMinute)
    (t mod msPerMinute / msPerSecond) (t mod msPerSecond).

(** The years 0 to 9999, which the four-digit format covers. *)
Definition toISOString (t : Z) : string :=
  let f := fields_of_time t in
  String.string_of_list_ascii
    (print4 (f_year f) ++ "-"%char :: print2 (f_month f) ++ "-"%char :: print2 (f_day f)
     ++ "T"%char :: print2 (f_hour f) ++ ":"%char :: print2 (f_min f) ++ ":"%char :: print2 (f_sec f)
     ++ "."%char :: print3 (f_ms f) ++ ["Z"%char]).

Lemma digit_ascii_val a : is_digit a = true → digit_ascii (digit_val a) = a.
Proof.
  intros Ha. pose proof (is_digit_val a Ha). unfold digit_ascii, digit_val in *.
  replace (48 + Z.to_N (Z.of_N (N_of_ascii a) - 48))%N with (N_of_ascii a) by lia.
  apply ascii_N_embedding.
Qed.

Lemma print2_num2 a b : is_digit a = true → is_digit b = true → print2 (num2 a b) = [a; b].
Proof.
  intros Ha Hb. pose proof (is_digit_val a Ha). pose proof (is_digit_val b Hb).
  unfold print2, num2.
  replace ((10 * digit_val a + digit_val b) / 10) with (digit_val a) by (Z.div_mod_to_equations; lia).
  replace ((10 * digit_val a + digit_val b) mod 10) with (digit_val b) by (Z.div_mod_to_equations; lia).
  by rewrite !digit_ascii_val.
Qed.

Lemma num2_bounds a b : is_digit a = true → is_digit b = true → 0 <= num2 a b < 100.
Proof. intros ?%is_digit_val ?%is_digit_val. unfold num2. lia. Qed.

Lemma print4_num a b c d :
  forallb is_digit [a; b; c; d] = true → print4 (100 * num2 a b + num2 c d) = [a; b; c; d].
Proof.
  simpl. rewrite !andb_true_iff. intros (Ha & Hb & Hc & Hd & _).
  pose proof (num2_bounds c d Hc Hd). unfold print4.
  replace ((100 * num2 a b + num2 c d) / 100) with (num2 a b) by (Z.div_mod_to_equations; lia).
  replace ((100 * num2 a b + num2 c d) mod 100) with (num2 c d) by (Z.div_mod_to_equations; lia).
  by rewrite !print2_num2.
Qed.

Lemma print3_num a b c :
  forallb is_digit [a; b; c] = true → print3 (100 * digit_val a + num2 b c) = [a; b; c].
Proof.
  simpl. rewrite !andb_true_iff. intros (Ha & Hb & Hc & _).
  pose proof (num2_bounds b c Hb Hc). unfold print3.
  replace ((100 * digit_val a + num2 b c) / 100) with (digit_val a) by (Z.div_mod_to_equations; lia).
  replace ((100 * digit_val a + num2 b c) mod 100) with (num2 b c) by (Z.div_mod_to_equations; lia).
  by rewrite print2_num2, digit_ascii_val.
Qed.

(** The calendar fields of an instant are the ones it was made from. *)
Lemma YearFromDay_MakeDay y m d :
  1 <= m <= 12 → 1 <= d <= daysInMonth y m → YearFromDay (MakeDay y m d) = y.
Proof.
  intros Hm Hd. pose proof (day_in_year y m d Hm ltac:(lia)) as Hy.
  pose proof (daysBeforeMonth_nonneg m (leap y)). pose proof (DayFromYear_succ y).
  pose proof (YearFromDay_spec (MakeDay y m d)) as [H1 H2]. unfold MakeDay in *.
  set (Y := YearFromDay _) in *.
  destruct (decide (Y < y)); [pose proof (DayFromYear_mono (Y + 1) y); lia|].
  destruct (decide (y < Y)); [pose proof (DayFromYear_mono (y + 1) Y); lia|]. lia.
Qed.

Lemma MonthFromDayInYear_MakeDay y m d :
  1 <= m <= 12 → 1 <= d <= daysInMonth y m →
  MonthFromDayInYear (MakeDay y m d - DayFromYear y) (leap y) = m.
Proof.
  intros Hm Hd. pose proof (daysBeforeMonth_nonneg m (leap y)).
  pose proof (day_in_year y m d Hm ltac:(lia)).
  destruct (MonthFromDayInYear_spec y (MakeDay y m d - DayFromYear y)) as (Hm' & H1 & H2);
    [unfold MakeDay; lia|].
  set (m' := MonthFromDayInYear _ _) in *. unfold MakeDay in *.
  destruct (decide (m' < m)); [pose proof (daysBeforeMonth_lt y m' m (daysInMonth y m')); lia|].
  destruct (decide (m < m')); [pose proof (daysBeforeMonth_lt y m m' d); lia|]. lia.
Qed.

Lemma fields_of_time_date_ms f t :
  calendar_fields f = true → fields_ranges f → date_ms f = Some t → fields_of_time t = f.
Proof.
  intros C R. rewrite calendar_date_ms by done. intros [= <-].
  unfold calendar_fields, fields_ranges in *. reflect_bools. destruct f as [y mo d h mi s ms].
  cbn [f_year f_month f_day f_hour f_min f_sec f_ms] in *.
  unfold fields_of_time, Day, msPerDay, msPerHour, msPerMinute, msPerSecond.
  set (D := MakeDay y mo d).
  replace ((D * 86400000 + h * 3600000 + mi * 60000 + s * 1000 + ms) / 86400000) with D
    by (Z.div_mod_to_equations; lia).
  assert (YearFromDay D = y) as -> by (apply YearFromDay_MakeDay; lia).
  assert (MonthFromDayInYear (D - DayFromYear y) (leap y) = mo) as ->
    by (apply MonthFromDayInYear_MakeDay; lia).
  assert (D - MakeDay y mo 1 + 1 = d) as -> by (unfold D, MakeDay; lia).
  clearbody D. f_equal; Z.div_mod_to_equations; lia.
Qed.

Lemma timestamp_print_parse s t :
  calendar_timestamp s = true → getTime s = Some t → toISOString t = s.
Proof.
  unfold calendar_timestamp, getTime. destruct (timestamp_fields s) as [f|] eqn:E; [|done].
  intros C Ht. simpl in Ht. destruct (timestamp_template _ _ E) as (_ & _ & R).
  unfold toISOString. rewrite (fields_of_time_date_ms f t C R Ht). clear C Ht R.
  unfold timestamp_fields in E. rewrite <- (String.string_of_list_ascii_of_string s) at 1.
  f_equal. revert E. generalize (String.list_ascii_of_string s) as l. intros l.
  timestamp_chars l.
  match goal with |- context [if ?b then _ else _] => destruct b eqn:Hb end; [|discriminate].
  intros [= <-]. apply andb_true_iff in Hb as [Hd Hs]. cbn [forallb] in Hd.
  repeat rewrite ?andb_true_iff, ?Ascii.eqb_eq in Hd. repeat rewrite ?andb_true_iff, ?Ascii.eqb_eq in Hs.
  destruct_and!. subst.
  cbn [f_year f_month f_day f_hour f_min f_sec f_ms].
  assert (∀ x y z, is_digit x = true → is_digit y = true → is_digit z = true →
    forallb is_digit [x; y; z] = true) as H3 by (intros ??? E1 E2 E3; simpl; by rewrite E1, E2, E3).
  assert (∀ x y z w, is_digit x = true → is_digit y = true → is_digit z = true → is_digit w = true →
    forallb is_digit [x; y; z; w] = true) as H4
    by (intros ???? E1 E2 E3 E4; simpl; by rewrite E1, E2, E3, E4).
  by rewrite print4_num, print3_num, !print2_num2 by auto.
Qed.

(** Timestamps survive the database: a calendar timestamp stored as an
    instant and written back by [toISOString] is the same string, so the
    payload rebuilt from a row is the payload that was signed. *)
Theorem toISOString_getTime s t :
  calendar_timestamp s = true → getTime s = Some t → toISOString t = s.
Proof. apply timestamp_print_parse. Qed.

Lemma toISOString_getTime_witness : toISOString 1709210096789 = "2024-02-29T12:34:56.789Z".
Proof. apply (toISOString_getTime "2024-02-29T12:34:56.789Z"); vm_compute; reflexivity. Defined.

(** The other direction: an instant of the years 0 to 9999 is read back from
    what [toISOString] writes. *)
Lemma digit_ascii_digit d : 0 <= d <= 9 → is_digit (digit_ascii d) = true ∧ digit_val (digit_ascii d) = d.
Proof.
  intros Hd. assert (N_of_ascii (digit_ascii d) = (48 + Z.to_N d)%N) as E
    by (unfold digit_ascii; rewrite N_ascii_embedding; lia).
  unfold is_digit, digit_val. rewrite E. split; [|lia]. apply andb_true_iff. split; apply N.leb_le; lia.
Qed.

Lemma num2_print a b n : 0 <= n < 100 → [a; b] = print2 n → is_digit a = true ∧ is_digit b = true ∧ num2 a b = n.
Proof.
  intros Hn [= -> ->].
  destruct (digit_ascii_digit (n / 10)) as [-> E1]; [Z.div_mod_to_equations; lia|].
  destruct (digit_ascii_digit (n mod 10)) as [-> E2]; [Z.div_mod_to_equations; lia|].
  split_and!; [done..|]. unfold num2. rewrite E1, E2. Z.div_mod_to_equations; lia.
Qed.

Lemma time_of_day t :
  0 <= t mod msPerDay / msPerHour <= 23 ∧ 0 <= t mod msPerHour / msPerMinute <= 59
  ∧ 0 <= t mod msPerMinute / msPerSecond <= 59 ∧ 0 <= t mod msPerSecond < 1000
  ∧ Day t * msPerDay + t mod msPerDay / msPerHour * msPerHour + t mod msPerHour / msPerMinute * msPerMinute
    + t mod msPerMinute / msPerSecond * msPerSecond + t mod msPerSecond = t.
Proof.
  unfold Day, msPerDay, msPerHour, msPerMinute, msPerSecond. split_and!; Z.div_mod_to_equations; lia.
Qed.

Lemma calendar_fields_of_time t :
  let f := fields_of_time t in
  calendar_fields f = true ∧ 0 <= f_hour f ∧ 0 <= f_min f ∧ 0 <= f_sec f ∧ 0 <= f_ms f < 1000
  ∧ date_ms f = Some t.
Proof.
  set (d := Day t). pose proof (YearFromDay_spec d) as HY. rewrite DayFromYear_succ in HY.
  destruct (MonthFromDayInYear_spec (YearFromDay d) (d - DayFromYear (YearFromDay d))) as (Hm & H1 & H2); [lia|].
  pose proof (daysInMonth_bounds (YearFromDay d) _ Hm).
  unfold calendar_fields, date_ms, fields_of_time. fold d. cbn [f_year f_month f_day f_hour f_min f_sec f_ms].
  set (y := YearFromDay d) in *. set (m := MonthFromDayInYear _ _) in *.
  assert (d - MakeDay y m 1 + 1 = d - (DayFromYear y + daysBeforeMonth m (leap y)) + 1) as Ed by (unfold MakeDay; lia).
  assert (MakeDay y m (d - MakeDay y m 1 + 1) = d) as Ed' by (unfold MakeDay; lia).
  rewrite Ed'. set (dd := d - MakeDay y m 1 + 1) in *.
  destruct (time_of_day t) as (Hh & Hi & Hs & Hms & Et).
  assert (1 <= dd <= daysInMonth y m) as Hdd by lia.
  rewrite !(proj2 (Z.leb_le _ _)) by lia. split_and!; [done|lia..|]. simpl. f_equal. exact Et.
Qed.

Lemma getTime_print t :
  0 <= f_year (fields_of_time t) <= 9999 →
  timestampPattern (toISOString t) = true ∧ getTime (toISOString t) = Some t.
Proof.
  intros Hy. destruct (calendar_fields_of_time t) as (C & Hh & Hi & Hs & Hms & Ht).
  unfold calendar_fields in C. reflect_bools. set (f := fields_of_time t) in *.
  pose proof (daysInMonth_bounds (f_year f) (f_month f)).
  assert (timestamp_fields (toISOString t) = Some f) as E; [|unfold timestampPattern, getTime; by rewrite E].
  unfold timestamp_fields, toISOString. fold f. rewrite String.list_ascii_of_string_of_list_ascii.
  unfold print4, print3. cbn [app print2 forallb].
  destruct (num2_print _ _ (f_year f / 100) ltac:(Z.div_mod_to_equations; lia) eq_refl) as (-> & -> & ->).
  destruct (num2_print _ _ (f_year f mod 100) ltac:(Z.div_mod_to_equations; lia) eq_refl) as (-> & -> & ->).
  destruct (num2_print _ _ (f_month f) ltac:(lia) eq_refl) as (-> & -> & ->).
  destruct (num2_print _ _ (f_day f) ltac:(lia) eq_refl) as (-> & -> & ->).
  destruct (num2_print _ _ (f_hour f) ltac:(lia) eq_refl) as (-> & -> & ->).
  destruct (num2_print _ _ (f_min f) ltac:(lia) eq_refl) as (-> & -> & ->).
  destruct (num2_print _ _ (f_sec f) ltac:(lia) eq_refl) as (-> & -> & ->).
  destruct (num2_print _ _ (f_ms f mod 100) ltac:(Z.div_mod_to_equations; lia) eq_refl) as (-> & -> & ->).
  destruct (digit_ascii_digit (f_ms f / 100)) as [-> ->]; [Z.div_mod_to_equations; lia|].
  cbn [andb Ascii.eqb Bool.eqb]. rewrite <- !Z.div_mod by done. by destruct f.
Qed.

(** Instants from 1970 to the end of 9999. *)
Definition iso_range (t : Z) : Prop := 0 <= t <= 253402300799999.

Lemma iso_range_year t : iso_range t → 0 <= f_year (fields_of_time t) <= 9999.
Proof.
  unfold iso_range, fields_of_time, Day, msPerDay. cbn [f_year]. intros Ht.
  set (d := t / 86400000). assert (0 <= d <= 2932896) as Hd by (subst d; Z.div_mod_to_equations; lia).
  pose proof (YearFromDay_spec d) as [H1 H2]. set (y := YearFromDay d) in *.
  destruct (decide (y < 0)); [pose proof (DayFromYear_mono (y + 1) 0 ltac:(lia)); vm_compute (DayFromYear 0) in *; lia|].
  destruct (decide (9999 < y)); [pose proof (DayFromYear_mono 10000 y ltac:(lia)); vm_compute (DayFromYear 10000) in *; lia|].
  lia.
Qed.

(** Reading back what was written. *)
Lemma iso_print_parse t : iso_range t → iso_getTime (toISOString t) = Some t.
Proof. intros [Hp Ht]%iso_range_year%getTime_print. by rewrite iso_getTime_timestamp. Qed.

(** ** Clock times *)

(** [HH:MM], with the hours 00 to 23, of a minute of the day. *)
Definition clock_text (m : Z) : string :=
  String.string_of_list_ascii (print2 (m / 60) ++ ":"%char :: print2 (m mod 60)).

Lemma clock_text_valid m :
  0 <= m < 1440 → HH_MM_test (clock_text m) = true ∧ hhmm (clock_text m) = m.
Proof.
  intros Hm. destruct (num2_print (digit_ascii (m / 60 / 10)) (digit_ascii (m / 60 mod 10)) (m / 60)) as (D1 & D2 & E1); [Z.div_mod_to_equations; lia|reflexivity|].
  destruct (num2_print (digit_ascii (m mod 60 / 10)) (digit_ascii (m mod 60 mod 10)) (m mod 60)) as (D3 & D4 & E2); [Z.div_mod_to_equations; lia|reflexivity|].
  assert (HH_MM_test (clock_text m) = true) as Ht.
  { unfold HH_MM_test, clock_text. rewrite String.list_ascii_of_string_of_list_ascii.
    cbn [print2 app forallb]. rewrite D1, D2, D3, D4, E1, E2. cbn [andb].
    apply andb_true_iff; split; [|apply Z.leb_le; Z.div_mod_to_equations; lia].
    apply Z.leb_le; Z.div_mod_to_equations; lia. }
  split; [done|]. unfold hhmm, parseHHMM, clock_text.
  rewrite String.list_ascii_of_string_of_list_ascii. unfold print2. cbn [app].
  assert (∀ c, is_digit c = true → Ascii.eqb c ":" = false) as Hc.
  { intros c Hd. destruct (Ascii.eqb_spec c ":"); [subst; discriminate|done]. }
  revert D1 D2 D3 D4 E1 E2. generalize (digit_ascii (m / 60 / 10)) as a, (digit_ascii (m / 60 mod 10)) as b,
    (digit_ascii (m mod 60 / 10)) as c, (digit_ascii (m mod 60 mod 10)) as d. intros.
  assert (split_colon [a; b; ":"; c; d]%char = [[a; b]; [c; d]]) as ->.
  { cbn [split_colon]. by rewrite (Hc a), (Hc b), (Hc c), (Hc d). }
  cbn [map].
  rewrite !js_Number2 by done. rewrite E1, E2. cbn [num_mul60 num_add]. Z.div_mod_to_equations; lia.
Qed.

(** The pattern of the code accepts exactly the clock times. *)
Lemma HH_MM_clock s : HH_MM_test s = true ↔ ∃ m, 0 <= m < 1440 ∧ s = clock_text m.
Proof.
  split; [|intros (m & Hm & ->); by apply clock_text_valid].
  intros Hs. destruct (hhmm_range s Hs) as [_ Hr]. exists (hhmm s). split; [done|].
  destruct (clock_text_valid _ Hr) as [Ht Hh]. apply String.compare_eq_iff.
  rewrite hhmm_compare by done. rewrite Hh. apply Z.compare_refl.
Qed.
