(* ===== verification/Encoding.v ===== *)
(** * Byte encodings: hex, base64url, base58btc and did:key

    [packages/crypto/src/encoding.ts] and [packages/identity/src/did-key.ts].
    A [Uint8Array] is a list of bytes, each a [Z] in [0,255]; a string is
    handled as its list of characters. *)
From S2P Require Import Prelude JsValue.

Abbreviation bytes := (list Z).

Definition is_byte (b : Z) : Prop := 0 <= b < 256.
#[export] Instance is_byte_dec b : Decision (is_byte b).
Proof. unfold is_byte. apply _. Defined.

Abbreviation chars := String.list_ascii_of_string.
Abbreviation str := String.string_of_list_ascii.

(** ** Hex *)

Definition hex_digit (n : Z) : ascii :=
  ascii_of_N (Z.to_N (if n <? 10 then 48 + n else 87 + n)).

(** [byte.toString(16).padStart(2, '0')] *)
Definition hex_byte (b : Z) : list ascii := [hex_digit (b / 16); hex_digit (b mod 16)].

Definition toHex (bs : bytes) : string := str (concat (hex_byte <$> bs)).

(** [HEX_PATTERN], case-insensitive, at least one character. *)
Definition HEX_PATTERN (s : string) : bool :=
  match chars s with [] => false | l => forallb is_hex l end.

(** The value of one hex digit after [toLowerCase]. *)
Definition hex_val (c : ascii) : Z :=
  let n := Z.of_N (N_of_ascii c) in
  if n <=? 57 then n - 48 else if n <=? 70 then n - 55 else n - 87.

Fixpoint hex_pairs (l : list ascii) : bytes :=
  match l with
  | a :: b :: l' => 16 * hex_val a + hex_val b :: hex_pairs l'
  | _ => []
  end.

Definition fromHex (hex : string) : res bytes :=
  let n := String.length hex in
  if Nat.eqb n 0 then Ok []
  else if negb (Nat.eqb (n mod 2) 0) || negb (HEX_PATTERN hex)
  then Throw "INVALID_HEX_STRING"
  else Ok (hex_pairs (chars hex)).

(** ** base64url *)

Definition BASE64URL_CHARS : list ascii :=
  chars "ABCDEFGHIJKLMNOPQRSTUVWXYZabcdefghijklmnopqrstuvwxyz0123456789-_".

(** [BASE64URL_CHARS[i]], for indices that are in range. *)
Definition b64_char (i : Z) : ascii := nth (Z.to_nat i) BASE64URL_CHARS "000"%char.

(** The decode table: 255 for a character outside the alphabet. *)
Definition lookup_in (alphabet : list ascii) (c : ascii) : option Z :=
  Z.of_nat ∘ fst <$> list_find (λ a, a = c) alphabet.
Definition b64_lookup (c : ascii) : Z := default 255 (lookup_in BASE64URL_CHARS c).

(** Three bytes to four characters; the tail of one or two bytes gives two or
    three characters, without padding. *)
Fixpoint b64_encode (bs : bytes) : list ascii :=
  match bs with
  | [] => []
  | [b0] =>
      [b64_char (Z.shiftr b0 2);
       b64_char (Z.lor (Z.shiftl (Z.land b0 3) 4) (Z.shiftr 0 4))]
  | [b0; b1] =>
      [b64_char (Z.shiftr b0 2);
       b64_char (Z.lor (Z.shiftl (Z.land b0 3) 4) (Z.shiftr b1 4));
       b64_char (Z.lor (Z.shiftl (Z.land b1 15) 2) (Z.shiftr 0 6))]
  | b0 :: b1 :: b2 :: bs' =>
      b64_char (Z.shiftr b0 2)
      :: b64_char (Z.lor (Z.shiftl (Z.land b0 3) 4) (Z.shiftr b1 4))
      :: b64_char (Z.lor (Z.shiftl (Z.land b1 15) 2) (Z.shiftr b2 6))
      :: b64_char (Z.land b2 63)
      :: b64_encode bs'
  end.

Definition toBase64Url (bs : bytes) : string := str (b64_encode bs).

(** [str.replace(/=+$/, '')] *)
Fixpoint drop_eqs (l : list ascii) : list ascii :=
  match l with c :: l' => if Ascii.eqb c "=" then drop_eqs l' else l | [] => [] end.
Definition strip_padding (l : list ascii) : list ascii := reverse (drop_eqs (reverse l)).

Definition is_b64 (c : ascii) : bool :=
  is_alpha c || is_digit c || Ascii.eqb c "_" || Ascii.eqb c "-".

(** [BASE64URL_PATTERN]: alphabet characters, then at most two [=]. *)
Definition BASE64URL_PATTERN (l : list ascii) : bool :=
  let body := strip_padding l in
  forallb is_b64 body && Nat.leb (length l - length body) 2.

(** Four characters to three bytes; a tail of two or three characters gives
    one or two bytes.  A [Uint8Array] cell keeps the low eight bits, and a
    single trailing character (excluded before the loop) would write past the
    end of the array, which is ignored. *)
Fixpoint b64_decode (l : list ascii) : bytes :=
  match l with
  | [] => []
  | [x0] => []
  | [x0; x1] =>
      [Z.lor (Z.shiftl (b64_lookup x0) 2) (Z.shiftr (b64_lookup x1) 4) mod 256]
  | [x0; x1; x2] =>
      [Z.lor (Z.shiftl (b64_lookup x0) 2) (Z.shiftr (b64_lookup x1) 4) mod 256;
       Z.lor (Z.shiftl (Z.land (b64_lookup x1) 15) 4) (Z.shiftr (b64_lookup x2) 2) mod 256]
  | x0 :: x1 :: x2 :: x3 :: l' =>
      Z.lor (Z.shiftl (b64_lookup x0) 2) (Z.shiftr (b64_lookup x1) 4) mod 256
      :: Z.lor (Z.shiftl (Z.land (b64_lookup x1) 15) 4) (Z.shiftr (b64_lookup x2) 2) mod 256
      :: Z.lor (Z.shiftl (Z.land (b64_lookup x2) 3) 6) (b64_lookup x3) mod 256
      :: b64_decode l'
  end.

Definition fromBase64Url (s : string) : res bytes :=
  let l := chars s in
  if Nat.eqb (length l) 0 then Ok []
  else if negb (BASE64URL_PATTERN l) then Throw "ENCODING_ERROR"
  else if Nat.eqb (length (strip_padding l) mod 4) 1 then Throw "ENCODING_ERROR"
  else Ok (b64_decode (strip_padding l)).

(** ** [detectEncoding] *)

Inductive encoding : Type := enc_hex | enc_base64url.

Definition detectEncoding (s : string) : encoding :=
  if Nat.eqb (String.length s) 0 then enc_hex
  else if Nat.eqb (String.length s mod 2) 0 && HEX_PATTERN s then enc_hex
  else enc_base64url.

(** ** base58btc *)

Definition BASE58_ALPHABET : list ascii :=
  chars "123456789ABCDEFGHJKLMNPQRSTUVWXYZabcdefghijkmnopqrstuvwxyz".
Definition b58_char (i : Z) : ascii := nth (Z.to_nat i) BASE58_ALPHABET "000"%char.

(** One step of the base conversion: [digits * mul + carry], least significant
    digit first, in base [base]. *)
Fixpoint mul_add (base mul : Z) (digits : list Z) (carry : Z) : list Z * Z :=
  match digits with
  | [] => ([], carry)
  | d :: ds =>
      let value := d * mul + carry in
      let '(ds', carry') := mul_add base mul ds (value / base) in
      (value mod base :: ds', carry')
  end.

(** [while (carry > 0) { digits.push(carry % base); carry = carry / base }] *)
Fixpoint push_carry (fuel : nat) (base carry : Z) : list Z :=
  match fuel with
  | O => []
  | S fuel' => if 0 <? carry then carry mod base :: push_carry fuel' base (carry / base) else []
  end.

Definition convert_step (base mul : Z) (digits : list Z) (carry : Z) : list Z :=
  let '(ds, c) := mul_add base mul digits carry in
  ds ++ push_carry (Z.to_nat c) base c.

(** [digits = [0]], then one step per input digit. *)
Definition convert (base mul : Z) (input : list Z) : list Z :=
  foldl (convert_step base mul) [0] input.

(** The prefix of elements equal to [x]. *)
Fixpoint leading (x : Z) (l : list Z) : nat :=
  match l with y :: l' => if y =? x then S (leading x l') else O | [] => O end.

Definition encodeBase58 (bs : bytes) : string :=
  match bs with
  | [] => ""
  | _ =>
      str (replicate (leading 0 bs) (b58_char 0)
           ++ (b58_char <$> reverse (convert 58 256 bs)))
  end.

(** The digits of a base58 string; a character outside the alphabet throws. *)
Fixpoint b58_digits (l : list ascii) : res (list Z) :=
  match l with
  | [] => Ok []
  | c :: l' =>
      match lookup_in BASE58_ALPHABET c with
      | Some d => ds ← b58_digits l'; mret (d :: ds)
      | None => Throw "Error"
      end
  end.

Definition decodeBase58 (s : string) : res bytes :=
  match chars s with
  | [] => Ok []
  | l =>
      ds ← b58_digits l;
      mret (reverse (convert 256 58 ds ++ replicate (leading 0 ds) 0))
  end.

(** ** did:key *)

Definition ED25519_MULTICODEC_PREFIX : bytes := [237; 1].

Definition publicKeyToDidKey (publicKeyBytes : bytes) : string :=
  "did:key:z" +:+ encodeBase58 (ED25519_MULTICODEC_PREFIX ++ publicKeyBytes).

Definition decodeDidKeyPayload (methodSpecificId : string) : res bytes :=
  if negb (str_startsWith methodSpecificId "z") then Throw "Error"
  else
    bs ← decodeBase58 (str_tail methodSpecificId);
    if negb (Nat.eqb (length bs) 34) then Throw "Error"
    else match bs with
         | b0 :: b1 :: rest =>
             if negb (b0 =? 237) || negb (b1 =? 1) then Throw "Error" else Ok rest
         | _ => Throw "Error"
         end.

(** ** DID syntax (packages/identity/src/did.ts) *)

Definition is_base58 (c : ascii) : bool :=
  match lookup_in BASE58_ALPHABET c with Some _ => true | None => false end.

(** [/^did:agent:[a-f0-9]{40}$/] *)
Definition isDidAgent (did : string) : bool :=
  str_startsWith did "did:agent:"
  && (let id := drop 10 (chars did) in Nat.eqb (length id) 40 && forallb is_lower_hex id).

(** [/^did:key:[1-9A-HJ-NP-Za-km-z]+$/] *)
Definition isDidKey (did : string) : bool :=
  str_startsWith did "did:key:"
  && (let id := drop 8 (chars did) in negb (Nat.eqb (length id) 0) && forallb is_base58 id).

Definition extractPublicKeyFromDIDKey (didKey : string) : res string :=
  if negb (isDidKey didKey) then Throw "Error"
  else
    bs ← decodeDidKeyPayload (str (drop 8 (chars didKey)));
    mret (toHex bs).

(** ** Lemmas: hex *)

Lemma chars_str l : chars (str l) = l.
Proof. apply String.list_ascii_of_string_of_list_ascii. Qed.

Lemma str_chars s : str (chars s) = s.
Proof. apply String.string_of_list_ascii_of_string. Qed.

Lemma str_length l : String.length (str l) = length l.
Proof. induction l; simpl; congruence. Qed.

Lemma length_chars s : length (chars s) = String.length s.
Proof. induction s; simpl; congruence. Qed.

(** A boolean test checked on every nibble (or on every index of a table). *)
Lemma forallb_range (f : Z → bool) (n : nat) :
  forallb f (Z.of_nat <$> seq 0 n) = true → ∀ i, 0 <= i < Z.of_nat n → f i = true.
Proof.
  intros H i Hi. rewrite forallb_forall in H. apply H.
  apply in_map_iff. exists (Z.to_nat i). split; [lia|]. apply in_seq. lia.
Qed.

Lemma hex_digit_ok n : 0 <= n < 16 → hex_val (hex_digit n) = n ∧ is_hex (hex_digit n) = true.
Proof.
  intros H. revert n H.
  assert (∀ n, 0 <= n < Z.of_nat 16 →
    (hex_val (hex_digit n) =? n) && is_hex (hex_digit n) = true) as Hall
    by (apply forallb_range; reflexivity).
  intros n H. specialize (Hall n H). reflect_bools. done.
Qed.

Lemma hex_byte_range b : is_byte b → 0 <= b / 16 < 16 ∧ 0 <= b mod 16 < 16.
Proof. unfold is_byte. intros. Z.div_mod_to_equations. lia. Qed.

Lemma hex_pairs_concat bs :
  Forall is_byte bs → hex_pairs (concat (hex_byte <$> bs)) = bs
  ∧ forallb is_hex (concat (hex_byte <$> bs)) = true.
Proof.
  induction 1 as [|b bs Hb _ [IH1 IH2]]; [done|].
  pose proof (hex_byte_range b Hb) as [H1 H2]. unfold is_byte in Hb.
  destruct (hex_digit_ok _ H1) as [V1 X1], (hex_digit_ok _ H2) as [V2 X2].
  cbn [fmap list_fmap concat hex_byte app hex_pairs forallb].
  rewrite V1, V2, X1, X2. split; [|done]. f_equal; [|done].
  Z.div_mod_to_equations. lia.
Qed.

Lemma hex_length bs : length (concat (hex_byte <$> bs)) = (2 * length bs)%nat.
Proof. induction bs as [|b bs IH]; [done|]. cbn [fmap list_fmap concat]. simpl in *. lia. Qed.

Lemma toHex_fromHex bs : Forall is_byte bs → fromHex (toHex bs) = Ok bs.
Proof.
  intros Hb. destruct (hex_pairs_concat bs Hb) as [H1 H2].
  unfold fromHex, toHex, HEX_PATTERN. rewrite str_length, chars_str, hex_length.
  destruct bs as [|b bs]; [done|].
  replace ((2 * length (b :: bs)) mod 2)%nat with 0%nat
    by (rewrite Nat.mul_comm, Nat.Div0.mod_mul; done).
  cbn [length Nat.mul Nat.add Nat.eqb negb orb]. rewrite H1.
  by destruct (concat (hex_byte <$> b :: bs)) eqn:E; [|rewrite H2].
Qed.

(** ** Lemmas: base64url *)

Lemma b64_table i : 0 <= i < 64 → b64_lookup (b64_char i) = i ∧ is_b64 (b64_char i) = true
  ∧ b64_char i ≠ "="%char.
Proof.
  intros H. revert i H.
  assert (∀ n, 0 <= n < Z.of_nat 64 →
    (b64_lookup (b64_char n) =? n) && is_b64 (b64_char n) && negb (Ascii.eqb (b64_char n) "=") = true)
    as Hall by (apply forallb_range; reflexivity).
  intros n H. specialize (Hall n H). reflect_bools.
  split_and!; try done. by apply Ascii.eqb_neq.
Qed.

Lemma b64_lookup_char i : 0 <= i < 64 → b64_lookup (b64_char i) = i.
Proof. intros. by apply b64_table. Qed.

Lemma lor_shiftl_add a b n : 0 <= n → 0 <= b < 2 ^ n → Z.lor (Z.shiftl a n) b = a * 2 ^ n + b.
Proof.
  intros Hn Hb. rewrite <- Z.shiftl_mul_pow2 by done.
  symmetry. rewrite <- Z.lxor_lor; [apply Z.add_nocarry_lxor|].
  all: apply Z.bits_inj'; intros k Hk; rewrite Z.land_spec, Z.bits_0.
  all: destruct (Z.lt_ge_cases k n) as [?|Hnk]; [by rewrite Z.shiftl_spec_low|].
  all: assert (2 ^ n <= 2 ^ k) by (by apply Z.pow_le_mono_r).
  all: rewrite (proj2 (Z.testbit_false b k Hk)); [by rewrite andb_false_r|].
  all: rewrite Z.div_small by lia; done.
Qed.

(** The bit operations of the codec as arithmetic. *)
Lemma land_ones_mod b n : 0 <= n → Z.land b (2 ^ n - 1) = b mod 2 ^ n.
Proof. intros. rewrite <- Z.land_ones by done. by rewrite Z.ones_equiv, Z.sub_1_r. Qed.

Lemma enc_c0 b0 : Z.shiftr b0 2 = b0 / 4.
Proof. by rewrite Z.shiftr_div_pow2. Qed.
Lemma enc_c1 b0 b1 : is_byte b1 →
  Z.lor (Z.shiftl (Z.land b0 3) 4) (Z.shiftr b1 4) = b0 mod 4 * 16 + b1 / 16.
Proof.
  unfold is_byte. intros. change 3 with (2 ^ 2 - 1).
  rewrite land_ones_mod, Z.shiftr_div_pow2, lor_shiftl_add by (simpl; try lia; Z.div_mod_to_equations; lia).
  done.
Qed.
Lemma enc_c2 b1 b2 : is_byte b2 →
  Z.lor (Z.shiftl (Z.land b1 15) 2) (Z.shiftr b2 6) = b1 mod 16 * 4 + b2 / 64.
Proof.
  unfold is_byte. intros. change 15 with (2 ^ 4 - 1).
  rewrite land_ones_mod, Z.shiftr_div_pow2, lor_shiftl_add by (simpl; try lia; Z.div_mod_to_equations; lia).
  done.
Qed.
Lemma enc_c3 b2 : Z.land b2 63 = b2 mod 64.
Proof. change 63 with (2 ^ 6 - 1). by rewrite land_ones_mod. Qed.
Lemma dec_b0 c0 c1 : 0 <= c1 < 64 →
  Z.lor (Z.shiftl c0 2) (Z.shiftr c1 4) = c0 * 4 + c1 / 16.
Proof.
  intros. rewrite Z.shiftr_div_pow2, lor_shiftl_add by (simpl; try lia; Z.div_mod_to_equations; lia).
  done.
Qed.
Lemma dec_b1 c1 c2 : 0 <= c2 < 64 →
  Z.lor (Z.shiftl (Z.land c1 15) 4) (Z.shiftr c2 2) = c1 mod 16 * 16 + c2 / 4.
Proof.
  intros. change 15 with (2 ^ 4 - 1).
  rewrite land_ones_mod, Z.shiftr_div_pow2, lor_shiftl_add by (simpl; try lia; Z.div_mod_to_equations; lia).
  done.
Qed.
Lemma dec_b2 c2 c3 : 0 <= c3 < 64 →
  Z.lor (Z.shiftl (Z.land c2 3) 6) c3 = c2 mod 4 * 64 + c3.
Proof.
  intros. change 3 with (2 ^ 2 - 1).
  rewrite land_ones_mod, lor_shiftl_add by (simpl; lia). done.
Qed.

(** Induction three bytes at a time, as the encoder's loop walks. *)
Lemma bytes3_ind (P : bytes → Prop) :
  P [] → (∀ a, P [a]) → (∀ a b, P [a; b]) → (∀ a b c l, P l → P (a :: b :: c :: l)) →
  ∀ l, P l.
Proof.
  intros H0 H1 H2 H3. fix IH 1. intros [|a [|b [|c l]]]; [done|done|done|].
  apply H3, IH.
Qed.

(** Close one arithmetic side condition of the codec. *)
Ltac codec_side := unfold is_byte in *; Z.div_mod_to_equations; lia.

Lemma b64_roundtrip bs :
  Forall is_byte bs → b64_decode (b64_encode bs) = bs.
Proof.
  induction bs as [|b0|b0 b1|b0 b1 b2 bs IH] using bytes3_ind; intros H;
    repeat match goal with H : Forall is_byte (_ :: _) |- _ => apply Forall_cons in H as [? H] end.
  - done.
  - cbn [b64_encode b64_decode].
    rewrite enc_c0, enc_c1 by (unfold is_byte; lia).
    rewrite !b64_lookup_char by codec_side.
    rewrite dec_b0 by codec_side. f_equal. codec_side.
  - cbn [b64_encode b64_decode].
    rewrite enc_c0, enc_c1, enc_c2 by (unfold is_byte in *; lia).
    rewrite !b64_lookup_char by codec_side.
    rewrite dec_b0, dec_b1 by codec_side. repeat f_equal; codec_side.
  - cbn [b64_encode b64_decode].
    rewrite enc_c0, enc_c1, enc_c2, enc_c3 by (unfold is_byte in *; lia).
    rewrite !b64_lookup_char by codec_side.
    rewrite dec_b0, dec_b1, dec_b2 by codec_side.
    rewrite (IH H). repeat f_equal; codec_side.
Qed.

Definition b64_index (i : Z) : Prop := 0 <= i < 64.

Lemma b64_encode_table bs :
  Forall is_byte bs → Forall (λ c, is_b64 c = true ∧ c ≠ "="%char) (b64_encode bs).
Proof.
  induction bs as [|b0|b0 b1|b0 b1 b2 bs IH] using bytes3_ind; intros H;
    repeat match goal with H : Forall is_byte (_ :: _) |- _ => apply Forall_cons in H as [? H] end;
    cbn [b64_encode].
  - constructor.
  - rewrite enc_c0, enc_c1 by (unfold is_byte; lia).
    repeat constructor; apply b64_table; codec_side.
  - rewrite enc_c0, enc_c1, enc_c2 by (unfold is_byte in *; lia).
    repeat constructor; apply b64_table; codec_side.
  - rewrite enc_c0, enc_c1, enc_c2, enc_c3 by (unfold is_byte in *; lia).
    repeat (apply Forall_cons; split; [apply b64_table; codec_side|]). by apply IH.
Qed.

(** An encoding never has the impossible length. *)
Lemma b64_encode_length bs : (length (b64_encode bs) mod 4 ≠ 1)%nat.
Proof.
  induction bs as [|b0|b0 b1|b0 b1 b2 bs IH] using bytes3_ind; try done.
  cbn [b64_encode length].
  replace (S (S (S (S (length (b64_encode bs)))))) with (length (b64_encode bs) + 1 * 4)%nat by lia.
  by rewrite Nat.Div0.mod_add.
Qed.

Lemma strip_padding_id l : Forall (λ c, c ≠ "="%char) l → strip_padding l = l.
Proof.
  intros H. unfold strip_padding. apply Forall_reverse in H.
  assert (drop_eqs (reverse l) = reverse l) as ->; [|by rewrite reverse_involutive].
  destruct (reverse l) as [|c r]; [done|]. simpl. apply Forall_cons in H as [Hc _].
  by rewrite (proj2 (Ascii.eqb_neq _ _) Hc).
Qed.

Lemma toBase64Url_fromBase64Url bs : Forall is_byte bs → fromBase64Url (toBase64Url bs) = Ok bs.
Proof.
  intros H. pose proof (b64_encode_table bs H) as Ht. apply Forall_and in Ht as [Hb Hne].
  unfold fromBase64Url, toBase64Url, BASE64URL_PATTERN. rewrite chars_str, (strip_padding_id _ Hne).
  destruct (Nat.eqb_spec (length (b64_encode bs)) 0) as [E|_].
  { destruct bs as [|? [|? [|? ?]]]; done. }
  assert (forallb is_b64 (b64_encode bs) = true) as ->.
  { apply forallb_forall. intros c Hc. by eapply Forall_forall in Hb; [|apply list_elem_of_In]. }
  rewrite Nat.sub_diag. cbn [Nat.leb andb negb].
  rewrite (proj2 (Nat.eqb_neq _ _) (b64_encode_length bs)). by rewrite b64_roundtrip.
Qed.

(** Hex and base64url round trip: every byte string survives encoding and
    decoding, in either encoding. *)
Theorem encoding_roundtrip bs :
  Forall is_byte bs →
  fromHex (toHex bs) = Ok bs ∧ fromBase64Url (toBase64Url bs) = Ok bs.
Proof. intros H. split; [by apply toHex_fromHex|by apply toBase64Url_fromBase64Url]. Qed.

Lemma encoding_roundtrip_witness :
  fromHex (toHex [0; 255; 16]) = Ok [0; 255; 16]
  ∧ fromBase64Url (toBase64Url [0; 255; 16]) = Ok [0; 255; 16].
Proof. apply (encoding_roundtrip [0; 255; 16]). repeat constructor; vm_compute; congruence. Defined.

(** ** Lemmas: positional notation *)

(** The number a digit list denotes, least significant digit first, and most
    significant digit first. *)
Definition le_val (base : Z) (ds : list Z) : Z := foldr (λ d acc, d + base * acc) 0 ds.
Definition be_val (base : Z) (ds : list Z) : Z := foldl (λ acc d, acc * base + d) 0 ds.

Definition in_base (base d : Z) : Prop := 0 <= d < base.

(** No superfluous leading digit. *)
Definition normal (base : Z) (ds : list Z) : Prop :=
  (1 <= length ds)%nat ∧
  (length ds = 1%nat ∨ base ^ (Z.of_nat (length ds) - 1) <= le_val base ds).

Lemma le_val_app base l1 l2 :
  le_val base (l1 ++ l2) = le_val base l1 + base ^ Z.of_nat (length l1) * le_val base l2.
Proof.
  induction l1 as [|d l1 IH]; simpl; [lia|]. unfold le_val in *.
  rewrite IH. rewrite Nat2Z.inj_succ, Z.pow_succ_r by lia. ring.
Qed.

Lemma le_val_bounds base ds :
  0 < base → Forall (in_base base) ds → 0 <= le_val base ds < base ^ Z.of_nat (length ds).
Proof.
  intros Hb. induction 1 as [|d ds Hd _ IH]; [done|]. unfold in_base in Hd.
  cbn [length]. rewrite Nat2Z.inj_succ, Z.pow_succ_r by lia. simpl.
  fold (le_val base ds). nia.
Qed.

Lemma be_val_le base ds : be_val base ds = le_val base (reverse ds).
Proof.
  unfold be_val. rewrite <- (reverse_involutive ds) at 1.
  generalize (reverse ds) as l. intros l. induction l as [|d l IH]; [done|].
  rewrite reverse_cons, foldl_app. simpl. rewrite IH. unfold le_val. ring.
Qed.

Section conversion.
Context (base mul : Z) (Hbase : 2 <= base) (Hmul : 2 <= mul).

Lemma mul_add_spec ds c ds' c' :
  Forall (Z.le 0) ds → 0 <= c → mul_add base mul ds c = (ds', c') →
  le_val base ds' + base ^ Z.of_nat (length ds) * c' = le_val base ds * mul + c
  ∧ length ds' = length ds ∧ Forall (in_base base) ds' ∧ 0 <= c'.
Proof using Hbase Hmul.
  intros Hds. revert c ds' c'. induction Hds as [|d ds Hd _ IH]; intros c ds' c' Hc; cbn [mul_add].
  { intros [= <- <-]. simpl. split_and!; [lia|done|constructor|done]. }
  destruct (mul_add base mul ds ((d * mul + c) / base)) as [ds1 c1] eqn:E.
  intros [= <- <-].
  assert (0 <= d * mul + c) by nia.
  destruct (IH _ _ _ (Z.div_pos (d * mul + c) base ltac:(lia) ltac:(lia)) E) as (IH1 & IH2 & IH3 & IH4).
  cbn [length]. rewrite Nat2Z.inj_succ, Z.pow_succ_r by lia. split_and!; [|lia| |done].
  - simpl. fold (le_val base ds1) (le_val base ds).
    pose proof (Z.div_mod (d * mul + c) base ltac:(lia)) as Hdm.
    replace (base * base ^ Z.of_nat (length ds) * c1)
      with (base * (base ^ Z.of_nat (length ds) * c1)) by ring. nia.
  - constructor; [|done]. apply Z.mod_pos_bound. lia.
Qed.

Lemma push_carry_spec fuel c :
  0 <= c → (Z.to_nat c <= fuel)%nat →
  le_val base (push_carry fuel base c) = c ∧ Forall (in_base base) (push_carry fuel base c)
  ∧ (push_carry fuel base c = [] ∧ c = 0 ∨
     (1 <= length (push_carry fuel base c))%nat ∧
     base ^ (Z.of_nat (length (push_carry fuel base c)) - 1) <= c).
Proof using Hbase.
  clear mul Hmul. revert c. induction fuel as [|fuel IH]; intros c Hc Hf.
  { simpl. split_and!; [lia|constructor|left; split; [done|lia]]. }
  cbn [push_carry]. destruct (Z.ltb_spec 0 c) as [Hpos|Hz].
  2:{ split_and!; [simpl; lia|constructor|left; split; [done|lia]]. }
  assert (0 <= c / base < c) as [? ?] by (Z.div_mod_to_equations; nia).
  destruct (IH (c / base)) as (V & F & N); [lia|lia|].
  split_and!.
  - simpl. fold (le_val base (push_carry fuel base (c / base))). rewrite V.
    pose proof (Z.div_mod c base). lia.
  - constructor; [|done]. apply Z.mod_pos_bound. lia.
  - right. split; [simpl; lia|]. cbn [length].
    replace (Z.of_nat (S (length (push_carry fuel base (c / base)))) - 1)
      with (Z.of_nat (length (push_carry fuel base (c / base)))) by lia.
    destruct N as [[-> _]|[HL HN]]; [simpl; lia|].
    set (n := Z.of_nat (length (push_carry fuel base (c / base)))) in *.
    replace n with (Z.succ (n - 1)) by lia. rewrite Z.pow_succ_r by lia.
    pose proof (Z.mul_div_le c base). nia.
Qed.

Lemma convert_step_spec ds c :
  Forall (in_base base) ds → normal base ds → 0 <= c →
  le_val base (convert_step base mul ds c) = le_val base ds * mul + c
  ∧ Forall (in_base base) (convert_step base mul ds c)
  ∧ normal base (convert_step base mul ds c).
Proof using Hbase Hmul.
  intros Hds [HL HN] Hc. unfold convert_step.
  destruct (mul_add base mul ds c) as [ds' c'] eqn:E.
  apply mul_add_spec in E as (V & L & F & C);
    [|eapply Forall_impl; [apply Hds|]; unfold in_base; simpl; lia|done].
  destruct (push_carry_spec (Z.to_nat c') c' C) as (V' & F' & N'); [lia|].
  rewrite le_val_app, L, V', V. split_and!; [done|by apply Forall_app_2|].
  pose proof (le_val_bounds base ds ltac:(lia) Hds) as Bds.
  unfold normal. rewrite length_app, L, le_val_app, L, V', V. split; [lia|].
  destruct N' as [[-> ->]|[HL' HN']].
  - simpl. rewrite Nat.add_0_r. destruct HN as [HN|HN]; [by left|]. right. nia.
  - right. rewrite <- V. pose proof (le_val_bounds base ds' ltac:(lia) F) as B'.
    rewrite Nat2Z.inj_add, <- Z.add_sub_assoc, Z.pow_add_r by lia.
    pose proof (Z.pow_nonneg base (Z.of_nat (length ds)) ltac:(lia)). nia.
Qed.

(** The conversion loop computes the digits of the input's value. *)
Lemma convert_spec input :
  Forall (Z.le 0) input →
  le_val base (convert base mul input) = be_val mul input
  ∧ Forall (in_base base) (convert base mul input)
  ∧ normal base (convert base mul input).
Proof using Hbase Hmul.
  induction input as [|x l IH] using rev_ind; intros Hin.
  { unfold convert, be_val, le_val, normal. simpl.
    split_and!; [lia| |lia|by left].
    constructor; [unfold in_base; lia|constructor]. }
  apply Forall_app in Hin as [Hl [Hx _]%Forall_cons].
  destruct (IH Hl) as (V & F & N).
  unfold convert, be_val in *. rewrite !foldl_app. cbn [foldl].
  destruct (convert_step_spec _ x F N Hx) as (V' & F' & N'). rewrite V', V. done.
Qed.
End conversion.

(** Digit lists of the same length and value are equal. *)
Lemma le_val_inj base l1 l2 :
  0 < base → Forall (in_base base) l1 → Forall (in_base base) l2 →
  length l1 = length l2 → le_val base l1 = le_val base l2 → l1 = l2.
Proof.
  intros Hb H1. revert l2. induction H1 as [|d l1 Hd _ IH]; intros l2 H2 HL HV.
  { by destruct l2. }
  destruct H2 as [|d2 l2 Hd2 H2]; [done|]. injection HL as HL. simpl in HV.
  fold (le_val base l1) (le_val base l2) in HV. unfold in_base in *.
  destruct (Z.div_mod_unique base (le_val base l1) (le_val base l2) d d2) as [HV' ->];
    [by left|by left|lia|].
  f_equal. by apply IH.
Qed.

(** Normal digit lists are determined by their value. *)
Lemma normal_unique base l1 l2 :
  2 <= base → Forall (in_base base) l1 → Forall (in_base base) l2 →
  normal base l1 → normal base l2 → le_val base l1 = le_val base l2 → l1 = l2.
Proof.
  intros Hb H1 H2 [L1 N1] [L2 N2] HV.
  apply (le_val_inj base); try done; [lia|].
  pose proof (le_val_bounds base l1 ltac:(lia) H1) as B1.
  pose proof (le_val_bounds base l2 ltac:(lia) H2) as B2.
  assert (∀ n m : nat, base ^ (Z.of_nat m - 1) < base ^ Z.of_nat n → (1 <= m)%nat → (m <= n)%nat) as Hpow.
  { intros n m Hlt Hm. destruct (decide (m <= n)%nat) as [?|Hn]; [done|].
    assert (base ^ Z.of_nat n <= base ^ (Z.of_nat m - 1)) by (apply Z.pow_le_mono_r; lia). lia. }
  destruct N1 as [E1|N1], N2 as [E2|N2].
  - congruence.
  - rewrite HV in B1. pose proof (Hpow (length l1) (length l2)). lia.
  - pose proof (Hpow (length l2) (length l1)). lia.
  - pose proof (Hpow (length l1) (length l2)). pose proof (Hpow (length l2) (length l1)). lia.
Qed.

(** ** Lemmas: base58 *)

Lemma b58_table i :
  0 <= i < 58 → lookup_in BASE58_ALPHABET (b58_char i) = Some i ∧ is_base58 (b58_char i) = true.
Proof.
  intros H.
  assert (∀ n, 0 <= n < Z.of_nat 58 →
    bool_decide (lookup_in BASE58_ALPHABET (b58_char n) = Some n) = true) as Hall
    by (apply forallb_range; vm_compute; reflexivity).
  specialize (Hall i H). apply bool_decide_eq_true in Hall. unfold is_base58. by rewrite Hall.
Qed.

Lemma b58_digits_chars ds :
  Forall (in_base 58) ds → b58_digits (b58_char <$> ds) = Ok ds.
Proof.
  induction 1 as [|d ds Hd _ IH]; [done|]. rewrite fmap_cons. cbn [b58_digits].
  by rewrite (proj1 (b58_table d Hd)), IH.
Qed.

Lemma decodeBase58_chars ds :
  Forall (in_base 58) ds → ds ≠ [] →
  decodeBase58 (str (b58_char <$> ds)) = Ok (reverse (convert 256 58 ds ++ replicate (leading 0 ds) 0)).
Proof.
  intros Hds Hne. unfold decodeBase58. rewrite chars_str.
  pose proof (b58_digits_chars ds Hds) as E. destruct ds as [|d ds]; [done|].
  rewrite fmap_cons in *. by rewrite E.
Qed.

(** Split a byte string at its first non-zero byte. *)
Lemma leading_zeros bs :
  (∃ b, b ∈ bs ∧ b ≠ 0) →
  ∃ b rest, bs = replicate (leading 0 bs) 0 ++ b :: rest ∧ b ≠ 0.
Proof.
  induction bs as [|x bs IH]; intros (b & Hb & Hne); [by apply elem_of_nil in Hb|].
  cbn [leading]. destruct (Z.eqb_spec x 0) as [->|Hx]; [|by exists x, bs].
  destruct IH as (b' & rest & E & Hb'); [|exists b', rest; split; [|done]; simpl; by f_equal].
  apply elem_of_cons in Hb as [->|Hb]; [done|]. by exists b.
Qed.

Lemma leading_app z b rest : b ≠ 0 → leading 0 (replicate z 0 ++ b :: rest) = z.
Proof.
  intros Hb. induction z as [|z IH]; simpl; [by rewrite (proj2 (Z.eqb_neq _ _) Hb)|by rewrite IH].
Qed.

Lemma le_val_zeros base n : le_val base (replicate n 0) = 0.
Proof. induction n as [|n IH]; simpl; [done|]. fold (le_val base (replicate n 0)). lia. Qed.

(** Leading zeros do not change the value. *)
Lemma be_val_zeros base n l : be_val base (replicate n 0 ++ l) = be_val base l.
Proof.
  rewrite !be_val_le, reverse_app, reverse_replicate, le_val_app, le_val_zeros. lia.
Qed.

Lemma normal_head base b rest :
  2 <= base → Forall (in_base base) (b :: rest) → b ≠ 0 →
  normal base (reverse (b :: rest)) ∧ 0 < be_val base (b :: rest).
Proof.
  intros Hb Hin Hne. rewrite be_val_le, reverse_cons. unfold normal.
  rewrite le_val_app, length_app, length_reverse.
  apply Forall_cons in Hin as [Hd Hr]. unfold in_base in Hd.
  pose proof (le_val_bounds base (reverse rest) ltac:(lia) (proj2 (Forall_reverse _ _) Hr)) as B.
  rewrite length_reverse in *. cbn [length].
  replace (le_val base [b]) with b by (simpl; lia).
  pose proof (Z.pow_pos_nonneg base (Z.of_nat (length rest)) ltac:(lia) ltac:(lia)).
  split; [split; [lia|right]|nia].
  replace (Z.of_nat (length rest + 1) - 1) with (Z.of_nat (length rest)) by lia. nia.
Qed.

(** The most significant digit of a normal list of positive value. *)
Lemma normal_rev_head base ds :
  2 <= base → Forall (in_base base) ds → normal base ds → 0 < le_val base ds →
  ∃ d rest, reverse ds = d :: rest ∧ d ≠ 0.
Proof.
  intros Hb Hin [HL HN] HV. destruct ds as [|d0 ds0] using rev_ind; [simpl in HL; lia|clear IHds0].
  exists d0, (reverse ds0). rewrite reverse_app. split; [done|]. intros ->.
  rewrite length_app, le_val_app in *. cbn [length] in *.
  apply Forall_app in Hin as [Hin _]. pose proof (le_val_bounds base ds0 ltac:(lia) Hin).
  replace (le_val base [0]) with 0 in * by (simpl; lia).
  destruct HN as [HN|HN].
  - assert (ds0 = []) as -> by (destruct ds0; [done|simpl in HN; lia]). simpl in *. lia.
  - replace (Z.of_nat (length ds0 + 1) - 1) with (Z.of_nat (length ds0)) in HN by lia. lia.
Qed.

Lemma Forall_in_base_nonneg base ds : Forall (in_base base) ds → Forall (Z.le 0) ds.
Proof. intros H. eapply Forall_impl; [apply H|]. unfold in_base. simpl. lia. Qed.

Lemma base58_roundtrip_gen bs :
  Forall (in_base 256) bs → (∃ b, b ∈ bs ∧ b ≠ 0) → decodeBase58 (encodeBase58 bs) = Ok bs.
Proof.
  intros Hin Hnz. destruct (leading_zeros bs Hnz) as (b & rest & E & Hb).
  set (z := leading 0 bs) in *.
  assert (Forall (in_base 256) (b :: rest)) as Hbr
    by (rewrite E in Hin; by apply Forall_app in Hin as [_ ?]).
  destruct (normal_head 256 b rest ltac:(lia) Hbr Hb) as [Nbr Vpos].
  destruct (convert_spec 58 256 ltac:(lia) ltac:(lia) bs) as (V & F & N);
    [by eapply Forall_in_base_nonneg|].
  assert (be_val 256 bs = be_val 256 (b :: rest)) as EV by (by rewrite E, be_val_zeros).
  destruct (normal_rev_head 58 _ ltac:(lia) F N) as (d & ds & Ed & Hd); [lia|].
  assert (Forall (in_base 58) (replicate z 0 ++ d :: ds)) as HO.
  { apply Forall_app. split; [apply Forall_replicate; unfold in_base; lia|].
    rewrite <- Ed. by apply Forall_reverse. }
  assert (encodeBase58 bs = str (b58_char <$> (replicate z 0 ++ d :: ds))) as ->.
  { unfold encodeBase58. destruct bs as [|x bs']; [by destruct z|].
    fold z. by rewrite Ed, fmap_app, fmap_replicate. }
  rewrite decodeBase58_chars by (done || by destruct z). f_equal.
  rewrite (leading_app _ _ _ Hd), reverse_app, reverse_replicate, E. f_equal.
  destruct (convert_spec 256 58 ltac:(lia) ltac:(lia) (replicate z 0 ++ d :: ds)) as (V2 & F2 & N2);
    [by eapply Forall_in_base_nonneg|].
  rewrite <- (reverse_involutive (b :: rest)). f_equal.
  apply (normal_unique 256); [lia|done|by apply Forall_reverse|done|done|].
  rewrite V2, be_val_zeros, be_val_le, <- Ed, reverse_involutive, V, EV. apply be_val_le.
Qed.

(** base58btc round trip: every non-empty byte string with a non-zero
    byte survives [encodeBase58] and [decodeBase58], leading zeros included. *)
Theorem base58_roundtrip bs :
  Forall is_byte bs → (∃ b, b ∈ bs ∧ b ≠ 0) → decodeBase58 (encodeBase58 bs) = Ok bs.
Proof. exact (base58_roundtrip_gen bs). Qed.

Lemma base58_roundtrip_witness : decodeBase58 (encodeBase58 [0; 0; 1; 2; 3]) = Ok [0; 0; 1; 2; 3].
Proof.
  apply (base58_roundtrip [0; 0; 1; 2; 3]).
  - repeat constructor; vm_compute; congruence.
  - exists 1. split; [|done]. do 2 right. left.
Defined.

(** The guard of [base58_roundtrip] is needed: an all-zero byte string
    gains two bytes ([digits] starts as [[0]] on both sides, so the zero digit
    is written in addition to the leading zeros). *)
Theorem base58_all_zero_not_roundtrip n :
  decodeBase58 (encodeBase58 (replicate (S n) 0)) = Ok (replicate (S n + 2) 0).
Proof.
  assert (∀ base mul k, 2 <= base → convert base mul (replicate k 0) = [0]) as Hc.
  { intros base mul k Hb. induction k as [|k IH]; [done|].
    rewrite replicate_S_end. unfold convert in *. rewrite foldl_app, IH.
    cbn [foldl convert_step mul_add]. by rewrite Z.mul_0_l, Zdiv.Zdiv_0_l, Zdiv.Zmod_0_l. }
  assert (∀ k, leading 0 (replicate k 0) = k) as Hl by (intros k; induction k; simpl; congruence).
  unfold encodeBase58. rewrite Hc, Hl by lia. cbn [replicate].
  change (0 :: replicate n 0) with (replicate (S n) 0).
  change (b58_char 0 :: replicate n (b58_char 0)) with (replicate (S n) (b58_char 0)).
  change (b58_char <$> reverse [0]) with (replicate 1 (b58_char 0)).
  rewrite <- replicate_add, <- fmap_replicate.
  rewrite decodeBase58_chars by (try done; apply Forall_replicate; unfold in_base; lia).
  rewrite Hl, Hc by lia. rewrite reverse_app, reverse_replicate.
  change (reverse [0]) with (replicate 1 0). rewrite <- replicate_add. do 2 f_equal. lia.
Qed.

(** ** Lemmas: did:key *)

Lemma chars_app s1 s2 : chars (s1 +:+ s2) = chars s1 ++ chars s2.
Proof.
  induction s1 as [|c s1 IH]; [done|].
  change (String.String c s1 +:+ s2) with (String.String c (s1 +:+ s2)). simpl. by rewrite IH.
Qed.

Lemma prefix_app p s : str_startsWith (p +:+ s) p = true.
Proof.
  unfold str_startsWith. induction p as [|c p IH]; [by destruct s|].
  change (String.String c p +:+ s) with (String.String c (p +:+ s)). simpl.
  destruct (ascii_dec c c); [done|congruence].
Qed.

Lemma encodeBase58_alphabet bs :
  Forall is_byte bs → forallb is_base58 (chars (encodeBase58 bs)) = true.
Proof.
  intros Hin. unfold encodeBase58. destruct bs as [|b bs]; [done|]. rewrite chars_str.
  destruct (convert_spec 58 256 ltac:(lia) ltac:(lia) (b :: bs)) as (_ & F & _);
    [by eapply (Forall_in_base_nonneg 256)|].
  apply forallb_forall. intros c Hc. apply list_elem_of_In, elem_of_app in Hc as [Hc|Hc].
  - apply elem_of_replicate in Hc as [-> _]. by apply b58_table.
  - apply list_elem_of_fmap in Hc as (d & -> & Hd). apply elem_of_reverse in Hd.
    rewrite reverse_involutive in Hd. apply b58_table. rewrite List.Forall_forall in F. by apply F, list_elem_of_In.
Qed.

Lemma publicKeyToDidKey_isDidKey pk : Forall is_byte pk → isDidKey (publicKeyToDidKey pk) = true.
Proof.
  intros Hpk. unfold isDidKey, publicKeyToDidKey.
  set (s := encodeBase58 (ED25519_MULTICODEC_PREFIX ++ pk)).
  change ("did:key:z" +:+ s) with ("did:key:" +:+ ("z" +:+ s)).
  rewrite prefix_app, !chars_app. cbn [andb chars app drop length Nat.eqb negb forallb].
  subst s. rewrite encodeBase58_alphabet; [done|].
  unfold ED25519_MULTICODEC_PREFIX. do 2 (constructor; [unfold is_byte; lia|]). done.
Qed.

(** Reading back the key of a did:key. *)
Lemma extractPublicKey_didKey pk :
  Forall is_byte pk → length pk = 32%nat →
  isDidKey (publicKeyToDidKey pk) = true
  ∧ extractPublicKeyFromDIDKey (publicKeyToDidKey pk) = Ok (toHex pk).
Proof.
  intros Hpk HL. pose proof (publicKeyToDidKey_isDidKey pk Hpk) as Hk. split; [done|].
  unfold extractPublicKeyFromDIDKey. rewrite Hk. cbn [negb].
  assert (str (drop 8 (chars (publicKeyToDidKey pk)))
          = "z" +:+ encodeBase58 (ED25519_MULTICODEC_PREFIX ++ pk)) as ->.
  { unfold publicKeyToDidKey. rewrite chars_app. cbn [chars app drop str].
    by rewrite str_chars. }
  unfold decodeDidKeyPayload. rewrite prefix_app. cbn [negb].
  assert (∀ s, str_tail ("z" +:+ s) = s) as -> by done.
  rewrite base58_roundtrip_gen.
  - cbn [mbind res_bind]. rewrite length_app, HL. cbn. done.
  - unfold ED25519_MULTICODEC_PREFIX. do 2 (constructor; [unfold in_base; lia|]). done.
  - exists 237. split; [left|done].
Qed.

(** did:key round trip: a 32-byte Ed25519 public key is written as a
    well-formed did:key, and the key read back from the DID is that key in
    hex. *)
Theorem didKey_roundtrip pk :
  Forall is_byte pk → length pk = 32%nat →
  isDidKey (publicKeyToDidKey pk) = true
  ∧ extractPublicKeyFromDIDKey (publicKeyToDidKey pk) = Ok (toHex pk).
Proof. apply extractPublicKey_didKey. Qed.

Lemma didKey_roundtrip_witness :
  extractPublicKeyFromDIDKey (publicKeyToDidKey (replicate 32 7)) = Ok (toHex (replicate 32 7)).
Proof.
  apply (didKey_roundtrip (replicate 32 7)).
  - apply Forall_replicate. vm_compute. split; congruence.
  - reflexivity.
Defined.
