(* ===== verification/Crypto.v ===== *)
(** * Signatures, hashes and canonical serialization

    [packages/crypto/src/signing.ts], [hashing.ts] and [canonicalization.ts],
    over the third-party primitives they call (@noble/curves, @noble/hashes
    and the npm package [canonicalize]), which are the operations of the class
    [Primitives]; what the source relies on is the class [PrimitiveLaws]. *)
From S2P Require Import Prelude JsValue Encoding.

(** ** Third-party primitives *)

Class Primitives : Type := {
  (** RFC 8785 serialization *)
  jcs : value → string;
  sha256 : bytes → bytes;
  (** the public key of a 32-byte seed *)
  ed25519_pub : bytes → bytes;
  (** message, seed *)
  ed25519_sign : bytes → bytes → bytes;
  (** signature, message, public key; [None] when the library throws *)
  ed25519_verify : bytes → bytes → bytes → option bool }.

(** Objects whose keys are in strictly ascending order at every level, and
    whose numbers are finite: one representative per JSON document. *)
Fixpoint keys_sorted (ks : list string) : bool :=
  match ks with
  | k1 :: (k2 :: _) as ks' => String.ltb k1 k2 && keys_sorted ks'
  | _ => true
  end.

Fixpoint canonical_value (v : value) : bool :=
  match v with
  | VUndefined => false
  | VNull | VBool _ | VStr _ => true
  | VNum n => is_finite n
  | VArr l => forallb canonical_value l
  | VObj o => keys_sorted (fst <$> o) && forallb (λ kv, canonical_value kv.2) o
  end.

Class PrimitiveLaws `{Primitives} : Prop := {
  (** RFC 8785 output determines the document *)
  jcs_inj v1 v2 : canonical_value v1 = true → canonical_value v2 = true →
    jcs v1 = jcs v2 → v1 = v2;
  (** the text of an object starts with an opening brace *)
  jcs_brace o : ∃ rest, jcs (VObj o) = String.String "{" rest;
  (** and contains its string members, quoted *)
  jcs_member_length o k s : (k, VStr s) ∈ o → (String.length s < String.length (jcs (VObj o)))%nat;
  sha256_bytes m : Forall is_byte (sha256 m) ∧ length (sha256 m) = 32%nat;
  ed25519_pub_bytes sk : Forall is_byte (ed25519_pub sk) ∧ length (ed25519_pub sk) = 32%nat;
  ed25519_sign_bytes m sk :
    Forall is_byte (ed25519_sign m sk) ∧ length (ed25519_sign m sk) = 64%nat;
  (** a signature verifies under the signer's key *)
  ed25519_complete m sk : length sk = 32%nat →
    ed25519_verify (ed25519_sign m sk) m (ed25519_pub sk) = Some true }.

(** ** signing.ts *)

(** [new TextEncoder().encode(s)]: strings are their bytes. *)
Definition textEncode (s : string) : bytes := (λ c, Z.of_N (N_of_ascii c)) <$> chars s.

Section signing.
Context `{Primitives}.

Definition normalizeKey (input : string) : res bytes :=
  match detectEncoding input with
  | enc_hex => fromHex input
  | enc_base64url => fromBase64Url input
  end.

(** Decode, replacing a decoding error by [code], and check the length. *)
Definition assertDecoded (code : string) (ok : nat → bool) (input : string) : res bytes :=
  match normalizeKey input with
  | Ok bs => if ok (length bs) then Ok bs else Throw code
  | Throw _ => Throw code
  end.

Definition assertPrivateKey : string → res bytes :=
  assertDecoded "INVALID_KEY_FORMAT" (λ n, Nat.eqb n 32 || Nat.eqb n 64).
Definition assertPublicKey : string → res bytes :=
  assertDecoded "INVALID_KEY_FORMAT" (λ n, Nat.eqb n 32).
Definition assertSignature : string → res bytes :=
  assertDecoded "INVALID_SIGNATURE_FORMAT" (λ n, Nat.eqb n 64).

Definition sign (message : bytes) (privateKey : string) (outputEncoding : encoding) : res string :=
  keyBytes ← assertPrivateKey privateKey;
  let signatureBytes := ed25519_sign message (take 32 keyBytes) in
  mret (match outputEncoding with
        | enc_base64url => toBase64Url signatureBytes
        | enc_hex => toHex signatureBytes
        end).

Definition verify (message : bytes) (signature publicKey : string) : res bool :=
  signatureBytes ← assertSignature signature;
  publicKeyBytes ← assertPublicKey publicKey;
  mret (default false (ed25519_verify signatureBytes message publicKeyBytes)).

(** ** hashing.ts *)

Definition hash (data : bytes) (enc : encoding) : string :=
  match enc with
  | enc_base64url => toBase64Url (sha256 data)
  | enc_hex => toHex (sha256 data)
  end.

End signing.

(** ** Lemmas *)

Lemma textEncode_inj s1 s2 : textEncode s1 = textEncode s2 → s1 = s2.
Proof.
  unfold textEncode. intros E. rewrite <- (str_chars s1), <- (str_chars s2). f_equal.
  eapply list_fmap_eq_inj; [|exact E]. intros a b Eab.
  rewrite <- (ascii_N_embedding a), <- (ascii_N_embedding b). f_equal. lia.
Qed.

Lemma toHex_detect bs : Forall is_byte bs → detectEncoding (toHex bs) = enc_hex.
Proof.
  intros Hb. destruct (hex_pairs_concat bs Hb) as [_ H2].
  unfold detectEncoding, toHex, HEX_PATTERN. rewrite str_length, chars_str, hex_length.
  destruct bs as [|b bs]; [done|].
  replace ((2 * length (b :: bs)) mod 2)%nat with 0%nat
    by (rewrite Nat.mul_comm, Nat.Div0.mod_mul; done).
  cbn [length Nat.mul Nat.add Nat.eqb andb].
  by destruct (concat (hex_byte <$> b :: bs)) eqn:E; [|rewrite H2].
Qed.

Lemma normalizeKey_toHex bs : Forall is_byte bs → normalizeKey (toHex bs) = Ok bs.
Proof. intros Hb. unfold normalizeKey. by rewrite toHex_detect, toHex_fromHex. Qed.

Lemma normalizeKey_toBase64Url bs :
  Forall is_byte bs → detectEncoding (toBase64Url bs) = enc_base64url →
  normalizeKey (toBase64Url bs) = Ok bs.
Proof. intros Hb E. unfold normalizeKey. by rewrite E, toBase64Url_fromBase64Url. Qed.

(** The unpadded length of a base64url encoding. *)
Lemma b64_length bs :
  length (b64_encode bs) = (4 * (length bs / 3)
    + match length bs mod 3 with 0 => 0 | 1 => 2 | _ => 3 end)%nat.
Proof.
  induction bs as [|b0|b0 b1|b0 b1 b2 bs IH] using bytes3_ind; try done.
  cbn [b64_encode length]. rewrite IH.
  replace (S (S (S (length bs)))) with (length bs + 1 * 3)%nat by lia.
  rewrite Nat.Div0.mod_add, Nat.div_add by lia. lia.
Qed.

(** A 32-byte key in base64url has 43 characters, so it is never mistaken for
    hex. *)
Lemma toBase64Url_key_detect bs :
  length bs = 32%nat → detectEncoding (toBase64Url bs) = enc_base64url.
Proof.
  intros HL. unfold detectEncoding, toBase64Url. by rewrite str_length, b64_length, HL.
Qed.

Section laws.
Context `{PrimitiveLaws}.

Lemma hash_length m enc :
  String.length (hash m enc) = match enc with enc_hex => 64%nat | enc_base64url => 43%nat end.
Proof.
  destruct (sha256_bytes m) as [_ L]. destruct enc; unfold hash, toHex, toBase64Url; rewrite str_length.
  - by rewrite hex_length, L.
  - by rewrite b64_length, L.
Qed.

Lemma hash_detect m enc : detectEncoding (hash m enc) = enc.
Proof.
  destruct (sha256_bytes m) as [B L]. destruct enc; unfold hash.
  - by apply toHex_detect.
  - by apply toBase64Url_key_detect.
Qed.

(** A hash text determines the digest. *)
Lemma hash_digest m1 m2 e1 e2 : hash m1 e1 = hash m2 e2 → sha256 m1 = sha256 m2.
Proof.
  intros E. assert (e1 = e2) as <-.
  { rewrite <- (hash_detect m1 e1), E. apply hash_detect. }
  destruct (sha256_bytes m1) as [B1 _], (sha256_bytes m2) as [B2 _].
  destruct e1; unfold hash in E.
  - apply (f_equal fromHex) in E. rewrite !toHex_fromHex in E by done. congruence.
  - apply (f_equal fromBase64Url) in E. rewrite !toBase64Url_fromBase64Url in E by done. congruence.
Qed.

(** Signatures verify across encodings. *)
Lemma sign_verify_encodings message seed (skey pkey senc : encoding) privateKey sig :
  let enc e bs := match e with enc_hex => toHex bs | enc_base64url => toBase64Url bs end in
  Forall is_byte seed → length seed = 32%nat →
  privateKey = enc skey seed →
  sign message privateKey senc = Ok sig →
  (senc = enc_base64url → detectEncoding sig = enc_base64url) →
  verify message sig (enc pkey (ed25519_pub seed)) = Ok true.
Proof.
  intros enc Hseed HL Hsk Hsign Hdet. subst privateKey.
  assert (∀ e bs, Forall is_byte bs → length bs = 32%nat → normalizeKey (enc e bs) = Ok bs) as Hn.
  { intros [] bs Hb Hl; [by apply normalizeKey_toHex|].
    apply normalizeKey_toBase64Url; [done|by apply toBase64Url_key_detect]. }
  unfold sign, assertPrivateKey, assertDecoded in Hsign.
  rewrite Hn, HL in Hsign by done. cbn in Hsign. injection Hsign as <-.
  rewrite take_ge in * by lia.
  destruct (ed25519_sign_bytes message seed) as [Sb Sl].
  destruct (ed25519_pub_bytes seed) as [Pb Pl].
  unfold verify, assertSignature, assertPublicKey, assertDecoded.
  assert (normalizeKey (enc senc (ed25519_sign message seed)) = Ok (ed25519_sign message seed)) as E.
  { destruct senc; [by apply normalizeKey_toHex|]. apply normalizeKey_toBase64Url; [done|]. by apply Hdet. }
  change (match senc with enc_hex => toHex (ed25519_sign message seed)
          | enc_base64url => toBase64Url (ed25519_sign message seed) end)
    with (enc senc (ed25519_sign message seed)).
  rewrite E, Sl, Hn, Pl by done. cbn. by rewrite ed25519_complete.
Qed.

(** Signing and verifying agree, whatever the encodings: a signature made
    with a 32-byte seed verifies under the seed's public key, for the key and
    the signature each in hex or in base64url (for a base64url signature,
    unless its 86 characters happen to be hex digits, which [detectEncoding]
    reads as hex). *)
Theorem sign_verify message seed (skey pkey senc : encoding) privateKey sig :
  let enc e bs := match e with enc_hex => toHex bs | enc_base64url => toBase64Url bs end in
  Forall is_byte seed → length seed = 32%nat →
  privateKey = enc skey seed →
  sign message privateKey senc = Ok sig →
  (senc = enc_base64url → detectEncoding sig = enc_base64url) →
  verify message sig (enc pkey (ed25519_pub seed)) = Ok true.
Proof. apply sign_verify_encodings. Qed.
End laws.
