(* ===== verification/ToyPrimitives.v ===== *)
(** * A concrete instance of the third-party primitives

    The theorems of this library hold for every implementation of the class
    [Primitives] that satisfies [PrimitiveLaws].  This file has one such
    implementation: a prefix-free serializer for [jcs], a checksum for
    [sha256] and a keyed checksum for Ed25519.  It is not cryptography; it
    shows that the laws are consistent, and it makes concrete runs of the
    models computable. *)
From S2P Require Import Prelude JsValue Encoding Crypto.

(** ** A prefix-free serializer *)

Fixpoint show_pos (p : positive) (k : list ascii) : list ascii :=
  match p with
  | xH => "."%char :: k
  | xO p' => "0"%char :: show_pos p' k
  | xI p' => "1"%char :: show_pos p' k
  end.

Definition show_Z (z : Z) (k : list ascii) : list ascii :=
  match z with
  | Z0 => "z"%char :: k
  | Zpos p => "+"%char :: show_pos p k
  | Zneg p => "-"%char :: show_pos p k
  end.

Fixpoint show_chars (s : list ascii) (k : list ascii) : list ascii :=
  match s with
  | [] => "."%char :: k
  | c :: s' => "+"%char :: c :: show_chars s' k
  end.

Definition show_num (n : num) (k : list ascii) : list ascii :=
  match n with
  | NaN => "N"%char :: k
  | PInf => "P"%char :: k
  | NInf => "M"%char :: k
  | Fin z => "F"%char :: show_Z z k
  end.

Fixpoint show (v : value) (k : list ascii) : list ascii :=
  match v with
  | VUndefined => "u"%char :: k
  | VNull => "n"%char :: k
  | VBool true => "t"%char :: k
  | VBool false => "f"%char :: k
  | VNum n => "#"%char :: show_num n k
  | VStr s => "'"%char :: show_chars (chars s) k
  | VArr l =>
      "["%char :: (fix go l := match l with
                    | [] => "]"%char :: k
                    | x :: l' => ","%char :: show x (go l')
                    end) l
  | VObj o =>
      "{"%char :: (fix go o := match o with
                    | [] => "}"%char :: k
                    | (key, x) :: o' => ":"%char :: show_chars (chars key) (show x (go o'))
                    end) o
  end.

Lemma show_pos_inj p1 p2 k1 k2 : show_pos p1 k1 = show_pos p2 k2 → p1 = p2 ∧ k1 = k2.
Proof.
  revert p2. induction p1 as [p IH|p IH|]; intros [q|q|]; simpl; intros [=]; try done.
  all: by destruct (IH q) as [-> ->].
Qed.

Lemma show_Z_inj z1 z2 k1 k2 : show_Z z1 k1 = show_Z z2 k2 → z1 = z2 ∧ k1 = k2.
Proof.
  destruct z1, z2; simpl; intros [=]; try done.
  all: by edestruct show_pos_inj as [-> ->].
Qed.

Lemma show_chars_inj s1 s2 k1 k2 : show_chars s1 k1 = show_chars s2 k2 → s1 = s2 ∧ k1 = k2.
Proof.
  revert s2. induction s1 as [|c s1 IH]; intros [|c2 s2]; simpl; intros [=]; try done.
  subst. by destruct (IH s2) as [-> ->].
Qed.

Lemma show_str_inj s1 s2 k1 k2 :
  show_chars (chars s1) k1 = show_chars (chars s2) k2 → s1 = s2 ∧ k1 = k2.
Proof.
  intros [E ->]%show_chars_inj. split; [|done].
  by rewrite <- (str_chars s1), E, str_chars.
Qed.

Lemma show_num_inj n1 n2 k1 k2 : show_num n1 k1 = show_num n2 k2 → n1 = n2 ∧ k1 = k2.
Proof.
  destruct n1, n2; simpl; intros [=]; try done. by edestruct show_Z_inj as [-> ->].
Qed.

(** Induction over values, through the lists they nest. *)
Lemma value_nested_ind (P : value → Prop) :
  P VUndefined → P VNull → (∀ b, P (VBool b)) → (∀ n, P (VNum n)) → (∀ s, P (VStr s)) →
  (∀ l, Forall P l → P (VArr l)) → (∀ o, Forall (λ kv, P kv.2) o → P (VObj o)) →
  ∀ v, P v.
Proof.
  intros Hu Hn Hb Hm Hs Ha Ho. fix IH 1. intros [| |b|n|s|l|o].
  - done.
  - done.
  - done.
  - done.
  - done.
  - apply Ha. induction l as [|v l IHl]; constructor; [apply IH|apply IHl].
  - apply Ho. induction o as [|[k v] o IHo]; constructor; [apply IH|apply IHo].
Qed.

Lemma show_inj v1 : ∀ v2 k1 k2, show v1 k1 = show v2 k2 → v1 = v2 ∧ k1 = k2.
Proof.
  induction v1 as [| |b|n|s|l IH|o IH] using value_nested_ind; intros v2 k1 k2 E.
  - destruct v2 as [| |[]| | | |]; by simplify_eq/=.
  - destruct v2 as [| |[]| | | |]; by simplify_eq/=.
  - destruct b, v2 as [| |[]| | | |]; by simplify_eq/=.
  - destruct v2 as [| |[]|n2| | |]; simplify_eq/=; try done.
    by destruct (show_num_inj _ _ _ _ E) as [-> ->].
  - destruct v2 as [| |[]| |s2| |]; simplify_eq/=; try done.
    by destruct (show_str_inj _ _ _ _ E) as [-> ->].
  - destruct v2 as [| |[]| | |l2|]; simplify_eq/=; try done.
    revert l2 E. induction IH as [|x l Hx _ IHl]; intros [|x2 l2] E; simplify_eq/=; try done.
    destruct (Hx _ _ _ E) as [-> E2]. by destruct (IHl _ E2) as [[= ->] ->].
  - destruct v2 as [| |[]| | | |o2]; simplify_eq/=; try done.
    revert o2 E. induction IH as [|[key x] o Hx _ IHo]; intros [|[key2 x2] o2] E; simplify_eq/=; try done.
    destruct (show_str_inj _ _ _ _ E) as [-> E2].
    destruct (Hx _ _ _ E2) as [-> E3]. by destruct (IHo _ E3) as [[= ->] ->].
Qed.

Lemma show_chars_length s k : (length s + length k < length (show_chars s k))%nat.
Proof. induction s as [|c s IH]; simpl in *; lia. Qed.

Lemma show_pos_length p k : (length k < length (show_pos p k))%nat.
Proof. induction p; simpl; lia. Qed.

Lemma show_num_length n k : (length k < length (show_num n k))%nat.
Proof.
  destruct n as [| | |z]; simpl; [lia..|].
  destruct z as [|p|p]; simpl; [lia|pose proof (show_pos_length p k); lia..].
Qed.

Lemma show_length v k : (length k < length (show v k))%nat.
Proof.
  revert k. induction v as [| |b|n|s|l IH|o IH] using value_nested_ind; intros k; simpl.
  - lia.
  - lia.
  - destruct b; simpl; lia.
  - pose proof (show_num_length n k). lia.
  - pose proof (show_chars_length (chars s) k). lia.
  - induction IH as [|x l Hx _ IHl]; simpl; [lia|]. etransitivity; [exact IHl|].
    apply -> Nat.succ_lt_mono. etransitivity; [apply Hx|lia].
  - induction IH as [|[key x] o Hx _ IHo]; simpl in *; [lia|]. etransitivity; [exact IHo|].
    apply -> Nat.succ_lt_mono. etransitivity; [apply Hx|].
    etransitivity; [|apply Nat.lt_succ_diag_r].
    eapply Nat.le_lt_trans; [|apply show_chars_length]. lia.
Qed.

(** A string member is part of the text. *)
Lemma show_member o k s rest : (k, VStr s) ∈ o → (String.length s < length (show (VObj o) rest))%nat.
Proof.
  simpl. induction o as [|[k' x] o IH]; [by intros ?%elem_of_nil|].
  rewrite elem_of_cons. simpl. intros [[= <- <-]|Hin].
  - apply Nat.lt_lt_succ_r, Nat.lt_lt_succ_r.
    eapply Nat.lt_le_trans; [|apply Nat.lt_le_incl, (show_chars_length (chars k))].
    simpl. rewrite <- length_chars.
    match goal with |- context [show_chars (chars s) ?r] => pose proof (show_chars_length (chars s) r) end.
    lia.
  - specialize (IH Hin). etransitivity; [exact IH|]. apply -> Nat.succ_lt_mono.
    etransitivity; [apply (show_length x)|]. etransitivity; [|apply Nat.lt_succ_diag_r].
    eapply Nat.le_lt_trans; [|apply show_chars_length]. lia.
Qed.

(** ** Checksums in place of hashes and signatures *)

Definition to_byte (z : Z) : Z := z mod 256.

(** Exactly [n] bytes. *)
Definition fit (n : nat) (bs : bytes) : bytes := resize n 0 (to_byte <$> bs).

Definition checksum (m : bytes) : Z := foldl (λ acc b, (31 * acc + b + 7) mod 65521) 1 m.

Definition toy_sha256 (m : bytes) : bytes := fit 32 [checksum m; checksum m / 256].

#[export] Instance toy_primitives : Primitives := {|
  jcs v := str (show v []);
  sha256 := toy_sha256;
  ed25519_pub sk := fit 32 sk;
  ed25519_sign m sk := fit 32 sk ++ toy_sha256 m;
  ed25519_verify sig m pk := Some (bool_decide (sig = pk ++ toy_sha256 m)) |}.

Lemma fit_bytes n bs : Forall is_byte (fit n bs) ∧ length (fit n bs) = n.
Proof.
  unfold fit. rewrite length_resize. split; [|done]. apply Forall_resize.
  - unfold is_byte. lia.
  - apply Forall_fmap, Forall_true. intros z. unfold is_byte, to_byte. simpl.
    apply Z.mod_pos_bound. lia.
Qed.

#[export] Instance toy_laws : PrimitiveLaws.
Proof.
  split.
  - intros v1 v2 _ _ E. simpl in E.
    assert (show v1 [] = show v2 []) as E2 by (by rewrite <- (chars_str (show v1 [])), E, chars_str).
    by destruct (show_inj _ _ _ _ E2).
  - intros o. simpl. eexists. reflexivity.
  - intros o k s Hin. change (jcs (VObj o)) with (str (show (VObj o) [])). rewrite str_length.
    by apply (show_member o k s []).
  - intros m. apply fit_bytes.
  - intros sk. apply fit_bytes.
  - intros m sk. simpl. rewrite length_app. destruct (fit_bytes 32 sk) as [F1 L1].
    destruct (fit_bytes 32 [checksum m; checksum m / 256]) as [F2 L2].
    split; [by apply Forall_app|]. unfold toy_sha256. by rewrite L1, L2.
  - intros m sk _. simpl. by rewrite bool_decide_eq_true_2.
Qed.

Lemma sign_verify_witness :
  verify [1; 2; 3] (match sign [1; 2; 3] (toHex (replicate 32 9)) enc_base64url with
                    | Ok s => s | Throw _ => "" end)
    (toBase64Url (ed25519_pub (replicate 32 9))) = Ok true.
Proof.
  apply (sign_verify [1; 2; 3] (replicate 32 9) enc_hex enc_base64url enc_base64url
           (toHex (replicate 32 9))).
  - apply Forall_replicate. vm_compute. split; congruence.
  - reflexivity.
  - reflexivity.
  - vm_compute. reflexivity.
  - intros _. vm_compute. reflexivity.
Defined.
