(* ===== verification/Authorization.v ===== *)
(** * Authorization data: scopes, capabilities, tokens, delegation proofs

    The wire types of [packages/types/src/authorization.ts], the key
    resolution result of [identity.ts], their JSON views (the objects that are
    canonicalized and signed), and the [capabilityToken] schema of
    [packages/types/src/schemas.ts] as a decidable predicate. *)
From S2P Require Import Prelude JsValue Time Encoding Crypto.

(** ** Scopes *)

Record RecurringWindow : Type := mkRecurringWindow {
  rw_startTime : string;
  rw_endTime : string;
  rw_daysOfWeek : option (list Z);
  rw_timezone : string }.

Inductive MeterFieldRefSource : Type := action_record | external_witness | consensus_meter.

Record MeterFieldRef : Type := mkMeterFieldRef {
  mf_source : MeterFieldRefSource;
  mf_metric : string;
  mf_unit : option string;
  mf_precision : option Z }.

(** The four scope kinds, and a fifth constructor for an object whose [type]
    is not one of the four (it reaches the code from JSON, and each function
    of the source has a fail-closed branch for it). *)
Inductive Scope : Type :=
| AllowlistScope (field : string) (values : list string)
| NumericLimitScope (field : string) (max : num) (currency : option string)
| TemporalScope (notBefore notAfter : string) (recurringWindow : option RecurringWindow)
| CumulativeLimitScope (meterField : MeterFieldRef) (max : num) (w : window)
    (currency : option string)
| OtherScope (type : string).

Definition scope_type (s : Scope) : string :=
  match s with
  | AllowlistScope _ _ => "allowlist"
  | NumericLimitScope _ _ _ => "numeric_limit"
  | TemporalScope _ _ _ => "temporal_scope"
  | CumulativeLimitScope _ _ _ _ => "cumulative_limit"
  | OtherScope t => t
  end.

Record Capability : Type := mkCapability { cap_action : string; cap_scope : Scope }.

(** ** Tokens *)

Record TokenProof : Type := mkTokenProof {
  tp_created : string;
  tp_verificationMethod : string;
  tp_value : string }.

Record DelegationProof : Type := mkDelegationProof {
  dp_parentTokenId : string;
  dp_delegatorDid : string;
  dp_delegateeDid : string;
  dp_parentCapabilities : list Capability;
  dp_parentExpiresAt : string;
  dp_attenuatedCapabilities : list Capability;
  dp_proof : TokenProof;
  dp_dcVersion : option string }.

Record CapabilityToken : Type := mkCapabilityToken {
  ct_id : string;
  ct_specVersion : string;
  ct_issuerDid : string;
  ct_principalDid : string;
  ct_issuedTo : string;
  ct_issuedAt : string;
  ct_expiresAt : string;
  ct_capabilities : list Capability;
  ct_revocationUrl : string;
  ct_proof : TokenProof;
  ct_delegationChain : option (list DelegationProof) }.

Definition MAX_DELEGATION_DEPTH : nat := 5.
Definition SPEC_VERSION : string := "0.1.0".
Definition SPEC_VERSION_0_2_0 : string := "0.2.0".
Definition DC_VERSION : string := "0.3.0".

(** The chain of a token, empty when the field is absent. *)
Definition chain_of (t : CapabilityToken) : list DelegationProof :=
  default [] (ct_delegationChain t).

(** [packages/types/src/identity.ts]: [ResolvedPublicKeys]. *)
Inductive ResolvedKeyRotationState : Type := STABLE | ROTATING | FROZEN.

Record ResolvedPublicKeys : Type := mkResolvedPublicKeys {
  rk_current : string;
  rk_previous : option string;
  rk_previousValidBefore : option string;
  rk_rotationState : ResolvedKeyRotationState }.

(** ** Results *)

Inductive DcErrorCode : Type :=
| DEPTH_EXCEEDED | ATTENUATION_VIOLATED | DELEGATION_CHAIN_INVALID | SIGNATURE_INVALID
| PARENT_TOKEN_REVOKED | PARENT_TOKEN_NOT_FOUND | PARENT_TOKEN_EXPIRED | EXPIRY_EXCEEDED
| DELEGATOR_MISMATCH | CYCLE_DETECTED | ROOT_NOT_PRINCIPAL | INVALID_TOKEN_FORMAT
| ROTATION_NOT_SUPPORTED.

Inductive side : Type := parent_side | child_side.

Inductive AttenuationDetail : Type :=
| rule_2a (missingDimension : string)
| rule_2c (introducedDimension : string)
| temporal_subset (reason : string)
| cumulative_subset (reason : string)
| scope_type_unknown (scopeType : string)
| allowlist_violation (field : string)
| numeric_limit_violation (field : string)
| capabilities_mismatch (at_ : string)
| duplicate_dimension (s : side) (action dimension : string)
| empty_allowlist (s : side) (action field : string).

Inductive AttenuationResult : Type :=
| AttenuationOk
| AttenuationFail (mixedVersion : bool) (detail : AttenuationDetail).

Record DelegationChainValidationResult : Type := mkChainResult {
  cr_valid : bool;
  cr_depth : nat;
  cr_reason : option DcErrorCode;
  cr_brokenAtIndex : option nat;
  cr_revokedTokenId : option string;
  cr_detail : option AttenuationDetail }.

#[export] Instance RecurringWindow_eq_dec : EqDecision RecurringWindow.
Proof. solve_decision. Defined.
#[export] Instance MeterFieldRefSource_eq_dec : EqDecision MeterFieldRefSource.
Proof. solve_decision. Defined.
#[export] Instance MeterFieldRef_eq_dec : EqDecision MeterFieldRef.
Proof. solve_decision. Defined.
#[export] Instance Scope_eq_dec : EqDecision Scope.
Proof. solve_decision. Defined.
#[export] Instance Capability_eq_dec : EqDecision Capability.
Proof. solve_decision. Defined.
#[export] Instance ResolvedKeyRotationState_eq_dec : EqDecision ResolvedKeyRotationState.
Proof. solve_decision. Defined.
#[export] Instance DcErrorCode_eq_dec : EqDecision DcErrorCode.
Proof. solve_decision. Defined.

(** ** JSON views

    The objects the source hands to [canonicalize], with their keys in the
    ascending order RFC 8785 writes them in; an absent optional field is an
    absent key. *)

Definition opt_field (k : string) (v : option value) : list (string * value) :=
  match v with Some x => [(k, x)] | None => [] end.

Definition window_json (w : window) : value :=
  VStr (match w with hour => "hour" | day => "day" | week => "week" | month => "month" end).

Definition source_json (s : MeterFieldRefSource) : value :=
  VStr (match s with action_record => "action_record" | external_witness => "external_witness"
        | consensus_meter => "consensus_meter" end).

Definition meterField_json (m : MeterFieldRef) : value :=
  VObj ([("metric", VStr (mf_metric m))]
        ++ opt_field "precision" (VNum ∘ Fin <$> mf_precision m)
        ++ [("source", source_json (mf_source m))]
        ++ opt_field "unit" (VStr <$> mf_unit m)).

Definition recurringWindow_json (r : RecurringWindow) : value :=
  VObj (opt_field "daysOfWeek" ((λ l, VArr (VNum ∘ Fin <$> l)) <$> rw_daysOfWeek r)
        ++ [("endTime", VStr (rw_endTime r)); ("startTime", VStr (rw_startTime r));
            ("timezone", VStr (rw_timezone r))]).

Definition scope_json (s : Scope) : value :=
  match s with
  | AllowlistScope field values =>
      VObj [("field", VStr field); ("type", VStr "allowlist"); ("values", VArr (VStr <$> values))]
  | NumericLimitScope field max currency =>
      VObj (opt_field "currency" (VStr <$> currency)
            ++ [("field", VStr field); ("max", VNum max); ("type", VStr "numeric_limit")])
  | TemporalScope nb na rw =>
      VObj ([("notAfter", VStr na); ("notBefore", VStr nb)]
            ++ opt_field "recurringWindow" (recurringWindow_json <$> rw)
            ++ [("type", VStr "temporal_scope")])
  | CumulativeLimitScope mf max w currency =>
      VObj (opt_field "currency" (VStr <$> currency)
            ++ [("max", VNum max); ("meterField", meterField_json mf);
                ("type", VStr "cumulative_limit"); ("window", window_json w)])
  | OtherScope t => VObj [("type", VStr t)]
  end.

Definition capability_json (c : Capability) : value :=
  VObj [("action", VStr (cap_action c)); ("scope", scope_json (cap_scope c))].

Definition tokenProof_json (p : TokenProof) : value :=
  VObj [("created", VStr (tp_created p)); ("type", VStr "Ed25519Signature2026");
        ("value", VStr (tp_value p)); ("verificationMethod", VStr (tp_verificationMethod p))].

(** [DelegationProofSignedPayload]: every field but [proof]; [dcVersion] is in
    the payload exactly when the proof carries it. *)
Definition signedPayload_fields (p : DelegationProof) : list (string * value) :=
  [("attenuatedCapabilities", VArr (capability_json <$> dp_attenuatedCapabilities p))]
  ++ opt_field "dcVersion" (VStr <$> dp_dcVersion p)
  ++ [("delegateeDid", VStr (dp_delegateeDid p));
      ("delegatorDid", VStr (dp_delegatorDid p));
      ("parentCapabilities", VArr (capability_json <$> dp_parentCapabilities p));
      ("parentExpiresAt", VStr (dp_parentExpiresAt p));
      ("parentTokenId", VStr (dp_parentTokenId p))].

Definition delegationProof_json (p : DelegationProof) : value :=
  VObj (signedPayload_fields p ++ [("proof", tokenProof_json (dp_proof p))]).

(** The object built by [createCapabilityTokenPayload]. *)
Definition tokenPayload_json (t : CapabilityToken) : value :=
  VObj ([("capabilities", VArr (capability_json <$> ct_capabilities t))]
        ++ opt_field "delegationChain" ((λ l, VArr (delegationProof_json <$> l)) <$> ct_delegationChain t)
        ++ [("expiresAt", VStr (ct_expiresAt t));
            ("id", VStr (ct_id t)); ("issuedAt", VStr (ct_issuedAt t));
            ("issuedTo", VStr (ct_issuedTo t)); ("issuerDid", VStr (ct_issuerDid t));
            ("principalDid", VStr (ct_principalDid t));
            ("revocationUrl", VStr (ct_revocationUrl t)); ("specVersion", VStr (ct_specVersion t))]).

(** ** The [capabilityToken] schema *)

Definition is_word (c : ascii) : bool :=
  is_alpha c || is_digit c || Ascii.eqb c "." || Ascii.eqb c "_" || Ascii.eqb c "%" || Ascii.eqb c "-".

(** Words separated by single colons: [[a-zA-Z0-9._%-]+(?::[a-zA-Z0-9._%-]+)*]. *)
Definition colon_words (l : list ascii) : bool :=
  forallb (λ w, negb (Nat.eqb (length w) 0) && forallb is_word w) (split_colon l).

(** [didKeyPattern] *)
Definition didKeyPattern (s : string) : bool :=
  str_startsWith s "did:key:" && colon_words (drop 8 (chars s)).

(** [didPattern]: did, a method name, and a method-specific id. *)
Definition didPattern (s : string) : bool :=
  match split_colon (chars s) with
  | scheme :: method :: id =>
      bool_decide (str scheme = "did")
      && match method with
         | c :: m => (is_alpha c && (97 <=? N_of_ascii c)%N)
             && forallb (λ c, (is_alpha c && (97 <=? N_of_ascii c)%N) || is_digit c || Ascii.eqb c "-") m
         | [] => false
         end
      && negb (Nat.eqb (length id) 0)
      && forallb (λ w, negb (Nat.eqb (length w) 0) && forallb is_word w) id
  | _ => false
  end.

(** Characters at fixed places: [x] a hex digit, any other character itself,
    with the two restricted digits of a UUID. *)
Fixpoint matches_template (tmpl l : list ascii) : bool :=
  match tmpl, l with
  | [], [] => true
  | t :: tmpl', c :: l' =>
      (if Ascii.eqb t "x" then is_lower_hex c
       else if Ascii.eqb t "V" then is_digit c && (1 <=? digit_val c) && (digit_val c <=? 5)
       else if Ascii.eqb t "R" then Ascii.eqb c "8" || Ascii.eqb c "9" || Ascii.eqb c "a" || Ascii.eqb c "b"
       else Ascii.eqb c t)
      && matches_template tmpl' l'
  | _, _ => false
  end.

(** [capabilityTokenIdPattern] *)
Definition capabilityTokenIdPattern (s : string) : bool :=
  str_startsWith s "urn:cap:"
  && matches_template (chars "xxxxxxxx-xxxx-Vxxx-Rxxx-xxxxxxxxxxxx") (drop 8 (chars s)).

Definition specVersion_enum (s : string) : bool :=
  bool_decide (s ∈ ["0.1.0"; "0.2.0"; "0.3.0"]).

(** [hex128Pattern] or [base64url86Pattern] *)
Definition signature_schema (s : string) : bool :=
  (Nat.eqb (String.length s) 128 && forallb is_lower_hex (chars s))
  || (Nat.eqb (String.length s) 86 && forallb is_b64 (chars s)).

(** [^https://.+\{id\}.*$]: after at least one character, the literal
    {id}; no line break. *)
Definition revocationUrl_schema (s : string) : bool :=
  str_startsWith s "https://"
  && str_includes (str (drop 9 (chars s))) "{id}"
  && forallb (λ c, negb (Ascii.eqb c "010") && negb (Ascii.eqb c "013")) (chars s).

Definition BUSINESS_ACTION_VOCABULARY : list string :=
  ["INQUIRY"; "QUOTE"; "CONFIRM"; "PUBLISH"; "RECORD"].

Definition currency_schema (c : option string) : bool :=
  match c with Some s => Nat.eqb (String.length s) 3 | None => true end.

Definition nonneg_number (n : num) : bool := is_finite n && num_leb (Fin 0) n.

Definition recurringWindow_schema (r : RecurringWindow) : bool :=
  HH_MM_test (rw_startTime r) && HH_MM_test (rw_endTime r)
  && match rw_daysOfWeek r with
     | Some l => forallb (λ d, (1 <=? d) && (d <=? 7)) l && bool_decide (NoDup l)
                 && negb (Nat.eqb (length l) 0)
     | None => true
     end
  && negb (Nat.eqb (String.length (rw_timezone r)) 0).

Definition scope_schema (s : Scope) : bool :=
  match s with
  | AllowlistScope field values =>
      negb (Nat.eqb (String.length field) 0)
      && forallb (λ v, negb (Nat.eqb (String.length v) 0)) values
      && Nat.leb 1 (length values) && Nat.leb (length values) 100
  | NumericLimitScope field max currency =>
      negb (Nat.eqb (String.length field) 0) && nonneg_number max && currency_schema currency
  | TemporalScope nb na rw =>
      timestampPattern nb && timestampPattern na
      && match rw with Some r => recurringWindow_schema r | None => true end
  | CumulativeLimitScope mf max _ currency =>
      negb (Nat.eqb (String.length (mf_metric mf)) 0)
      && match mf_precision mf with Some p => 0 <=? p | None => true end
      && nonneg_number max && currency_schema currency
  | OtherScope _ => false
  end.

Definition capability_schema (c : Capability) : bool :=
  bool_decide (cap_action c ∈ BUSINESS_ACTION_VOCABULARY) && scope_schema (cap_scope c).

Definition capabilities_schema (l : list Capability) : bool :=
  forallb capability_schema l && Nat.leb 1 (length l) && Nat.leb (length l) 20.

(** [^did:(?:key:...|agent:[a-f0-9]{40})#key-1$] *)
Definition verificationMethod_schema (s : string) : bool :=
  str_endsWith s "#key-1"
  && (let did := str (take (String.length s - 6) (chars s)) in didKeyPattern did || isDidAgent did).

Definition tokenProof_schema (p : TokenProof) : bool :=
  timestampPattern (tp_created p) && verificationMethod_schema (tp_verificationMethod p)
  && signature_schema (tp_value p).

(** [^[0-9]+\.[0-9]+\.[0-9]+$] *)
Fixpoint dotted (l : list ascii) : list (list ascii) :=
  match l with
  | [] => [[]]
  | c :: l' =>
      if Ascii.eqb c "." then [] :: dotted l'
      else match dotted l' with w :: ws => (c :: w) :: ws | [] => [[c]] end
  end.
Definition semver_schema (s : string) : bool :=
  let ws := dotted (chars s) in
  Nat.eqb (length ws) 3 && forallb (λ w, negb (Nat.eqb (length w) 0) && forallb is_digit w) ws.

Definition delegationProof_schema (p : DelegationProof) : bool :=
  negb (Nat.eqb (String.length (dp_parentTokenId p)) 0)
  && didPattern (dp_delegatorDid p) && isDidAgent (dp_delegateeDid p)
  && capabilities_schema (dp_parentCapabilities p)
  && timestampPattern (dp_parentExpiresAt p)
  && capabilities_schema (dp_attenuatedCapabilities p)
  && tokenProof_schema (dp_proof p)
  && match dp_dcVersion p with Some v => semver_schema v | None => true end.

(** [validateAgainstSchema(token, 'capabilityToken').valid] *)
Definition capabilityToken_schema (t : CapabilityToken) : bool :=
  capabilityTokenIdPattern (ct_id t) && specVersion_enum (ct_specVersion t)
  && didKeyPattern (ct_issuerDid t) && didKeyPattern (ct_principalDid t)
  && isDidAgent (ct_issuedTo t)
  && timestampPattern (ct_issuedAt t) && timestampPattern (ct_expiresAt t)
  && capabilities_schema (ct_capabilities t)
  && revocationUrl_schema (ct_revocationUrl t)
  && tokenProof_schema (ct_proof t)
  && match ct_delegationChain t with
     | Some l => forallb delegationProof_schema l && Nat.leb (length l) 5
     | None => true
     end.

(** ** Lemmas: the JSON views are faithful *)

#[export] Instance VStr_inj : Inj (=) (=) VStr.
Proof. by intros ?? [=]. Qed.

#[export] Instance VNumFin_inj : Inj (=) (=) (VNum ∘ Fin).
Proof. by intros ?? [=]. Qed.

Lemma fmap_VStr_inj (l1 l2 : list string) : VStr <$> l1 = VStr <$> l2 → l1 = l2.
Proof. intros E. by apply (inj (fmap VStr)). Qed.

Lemma window_json_inj w1 w2 : window_json w1 = window_json w2 → w1 = w2.
Proof. by destruct w1, w2. Qed.

Lemma source_json_inj s1 s2 : source_json s1 = source_json s2 → s1 = s2.
Proof. by destruct s1, s2. Qed.

Lemma meterField_json_inj m1 m2 : meterField_json m1 = meterField_json m2 → m1 = m2.
Proof.
  destruct m1 as [s1 me1 [u1|] [p1|]], m2 as [s2 me2 [u2|] [p2|]];
    unfold meterField_json; cbn; intros E; injection E; intros; subst; try discriminate.
  all: f_equal; by destruct s1, s2.
Qed.

Lemma recurringWindow_json_inj r1 r2 :
  recurringWindow_json r1 = recurringWindow_json r2 → r1 = r2.
Proof.
  destruct r1 as [a1 b1 [d1|] t1], r2 as [a2 b2 [d2|] t2];
    unfold recurringWindow_json; cbn; intros E; injection E; intros; subst; try discriminate.
  - f_equal. f_equal. by apply (inj (fmap (VNum ∘ Fin))).
  - done.
Qed.

Lemma scope_json_inj s1 s2 : scope_json s1 = scope_json s2 → s1 = s2.
Proof.
  destruct s1 as [f1 v1|f1 m1 [c1|]|b1 a1 [r1|]|mf1 m1 w1 [c1|]|t1],
    s2 as [f2 v2|f2 m2 [c2|]|b2 a2 [r2|]|mf2 m2 w2 [c2|]|t2];
    unfold scope_json; cbn [opt_field fmap option_fmap option_map app];
    intros E; injection E; intros; subst; try discriminate; try done.
  - f_equal. by apply fmap_VStr_inj.
  - do 2 f_equal. apply recurringWindow_json_inj. unfold recurringWindow_json. by f_equal.
  - f_equal; [apply meterField_json_inj; unfold meterField_json; cbn; congruence|by destruct w1, w2].
  - f_equal; [apply meterField_json_inj; unfold meterField_json; cbn; congruence|by destruct w1, w2].
Qed.

Lemma capability_json_inj c1 c2 : capability_json c1 = capability_json c2 → c1 = c2.
Proof.
  destruct c1, c2; unfold capability_json; simpl. intros E. injection E. intros Hs ->.
  f_equal. by apply scope_json_inj.
Qed.

(** A serializable view is a canonical one. *)
Lemma forallb_VStr (f : value → bool) l :
  (∀ s, f (VStr s) = true) → forallb f (VStr <$> l) = true.
Proof. intros Hf. induction l as [|s l IH]; [done|]. rewrite fmap_cons. simpl. by rewrite Hf. Qed.

Lemma forallb_VNum (f : value → bool) l :
  (∀ z, f (VNum (Fin z)) = true) → forallb f (VNum ∘ Fin <$> l) = true.
Proof. intros Hf. induction l as [|s l IH]; [done|]. rewrite fmap_cons. simpl. by rewrite Hf. Qed.

Lemma scope_json_canonical s :
  assertSerializable (scope_json s) = true → canonical_value (scope_json s) = true.
Proof.
  destruct s as [f v|f m [c|]|b a [[? ? [d|] ?]|]|[[] ? [u|] [p|]] m [] [c|]|t]; simpl; try done.
  all: rewrite ?forallb_VStr, ?forallb_VNum by done; try done.
  all: by destruct m.
Qed.

Lemma capability_json_canonical c :
  assertSerializable (capability_json c) = true → canonical_value (capability_json c) = true.
Proof.
  unfold capability_json. cbn [assertSerializable forallb snd].
  intros [_ [Hs _]%andb_true_iff]%andb_true_iff.
  cbn [canonical_value forallb snd]. by rewrite scope_json_canonical.
Qed.

(** [canonicalize] separates capabilities. *)
Lemma canonicalize_capability_inj `{PrimitiveLaws} c1 c2 s :
  canonicalize jcs (capability_json c1) = Ok s → canonicalize jcs (capability_json c2) = Ok s →
  c1 = c2.
Proof.
  intros [S1 ->]%canonicalize_inv [S2 E]%canonicalize_inv.
  apply capability_json_inj, jcs_inj; [by apply capability_json_canonical..|done].
Qed.

#[export] Hint Resolve capability_json_canonical capability_json_inj : coivitas.

(** ** The signed payloads determine what they sign *)

Lemma forallb_fmap_impl {A} (f g : value → bool) (h : A → value) l :
  (∀ x, f (h x) = true → g (h x) = true) →
  forallb f (h <$> l) = true → forallb g (h <$> l) = true.
Proof.
  intros Hfg. induction l as [|x l IH]; [done|]. cbn [fmap list_fmap forallb].
  intros [H1 H2]%andb_true_iff. apply andb_true_iff. split; [by apply Hfg|by apply IH].
Qed.

Lemma capabilities_json_canonical l :
  forallb assertSerializable (capability_json <$> l) = true →
  forallb canonical_value (capability_json <$> l) = true.
Proof. apply forallb_fmap_impl, capability_json_canonical. Qed.

Lemma signedPayload_canonical p :
  assertSerializable (VObj (signedPayload_fields p)) = true →
  canonical_value (VObj (signedPayload_fields p)) = true.
Proof.
  destruct p as [? ? ? ? ? ? ? [v|]]; cbn;
    rewrite !andb_true_iff; intros (H1 & H2); destruct_and!;
    rewrite !capabilities_json_canonical by done; done.
Qed.

Lemma delegationProof_json_canonical p :
  assertSerializable (delegationProof_json p) = true →
  canonical_value (delegationProof_json p) = true.
Proof.
  destruct p as [? ? ? ? ? ? ? [v|]]; cbn;
    rewrite !andb_true_iff; intros (H1 & H2); destruct_and!;
    rewrite !capabilities_json_canonical by done; done.
Qed.

Lemma tokenPayload_json_canonical t :
  assertSerializable (tokenPayload_json t) = true → canonical_value (tokenPayload_json t) = true.
Proof.
  destruct t as [? ? ? ? ? ? ? ? ? ? [ch|]]; cbn;
    rewrite !andb_true_iff; intros (H1 & H2); destruct_and?;
    rewrite !capabilities_json_canonical by done; [|done].
  rewrite (forallb_fmap_impl assertSerializable canonical_value delegationProof_json); try done.
  apply delegationProof_json_canonical.
Qed.

#[export] Instance capability_json_Inj : Inj (=) (=) capability_json.
Proof. intros ??. apply capability_json_inj. Qed.

Lemma fmap_capability_json_inj (l1 l2 : list Capability) :
  capability_json <$> l1 = capability_json <$> l2 → l1 = l2.
Proof. intros E. by apply (inj (fmap capability_json)). Qed.

(** Two delegation proofs with the same signed payload agree on every field
    but the signature. *)
Lemma signedPayload_inj p1 p2 :
  signedPayload_fields p1 = signedPayload_fields p2 →
  dp_parentTokenId p1 = dp_parentTokenId p2 ∧ dp_delegatorDid p1 = dp_delegatorDid p2
  ∧ dp_delegateeDid p1 = dp_delegateeDid p2
  ∧ dp_parentCapabilities p1 = dp_parentCapabilities p2
  ∧ dp_parentExpiresAt p1 = dp_parentExpiresAt p2
  ∧ dp_attenuatedCapabilities p1 = dp_attenuatedCapabilities p2
  ∧ dp_dcVersion p1 = dp_dcVersion p2.
Proof.
  destruct p1 as [? ? ? ? ? ? ? [v1|]], p2 as [? ? ? ? ? ? ? [v2|]]; cbn; intros E;
    try discriminate E.
  all: injection E; intros; subst; split_and!; try done; by apply fmap_capability_json_inj.
Qed.

Lemma delegationProof_json_inj p1 p2 : delegationProof_json p1 = delegationProof_json p2 → p1 = p2.
Proof.
  destruct p1 as [? ? ? ? ? ? [? ? ?] [v1|]], p2 as [? ? ? ? ? ? [? ? ?] [v2|]]; cbn; intros E;
    try discriminate E.
  all: injection E; intros; subst; f_equal; try done; by apply fmap_capability_json_inj.
Qed.

#[export] Instance delegationProof_json_Inj : Inj (=) (=) delegationProof_json.
Proof. intros ??. apply delegationProof_json_inj. Qed.

Lemma tokenPayload_json_inj t1 t2 :
  tokenPayload_json t1 = tokenPayload_json t2 →
  ct_id t1 = ct_id t2 ∧ ct_specVersion t1 = ct_specVersion t2
  ∧ ct_issuerDid t1 = ct_issuerDid t2 ∧ ct_principalDid t1 = ct_principalDid t2
  ∧ ct_issuedTo t1 = ct_issuedTo t2 ∧ ct_issuedAt t1 = ct_issuedAt t2
  ∧ ct_expiresAt t1 = ct_expiresAt t2 ∧ ct_capabilities t1 = ct_capabilities t2
  ∧ ct_revocationUrl t1 = ct_revocationUrl t2 ∧ ct_delegationChain t1 = ct_delegationChain t2.
Proof.
  destruct t1 as [? ? ? ? ? ? ? ? ? ? [c1|]], t2 as [? ? ? ? ? ? ? ? ? ? [c2|]]; cbn; intros E;
    try discriminate E.
  all: injection E; intros; subst; split_and!; try done; try by apply fmap_capability_json_inj.
  f_equal. by apply (inj (fmap delegationProof_json)).
Qed.
