(* ===== verification/ScopeEvaluator.v ===== *)
(** * Scope evaluation: what a capability permits at run time

    [packages/policy/src/guard/scope-evaluator.ts], the plugin registry
    [packages/policy/src/scope/scope-evaluator-registry.ts] and the stub plugin
    [packages/policy/src/scope/external-witness-evaluator.ts].  A scope is
    evaluated against the parameters of a request, the time of the request and
    the cumulative tracker, which is an interface here ([CumulativeTracker], its
    promise to the evaluator [TrackerLaws]); PostgresTracker.v implements it. *)
From S2P Require Import Prelude JsValue Time Authorization.

(** [Date]: milliseconds since the epoch, [None] an invalid date. *)
Abbreviation Date := (option Z).

(** ** Results *)

(** The [reason] of a denial, one constructor per message of the source. *)
Inductive DenyReason : Type :=
| allowlist_is_empty (field : string)
| missing_or_not_a_string (field : string)
| not_in_the_allowlist (field : string)
| not_a_number (field : string)
| exceeds_max (field : string) (max : num)
| not_yet_active
| expired
| invalid_time_format
| invalid_timezone
| outside_window_time
| outside_window_day
| no_tracker
| metric_source_not_implemented (source : MeterFieldRefSource)
| unregistered_meter_field (metric : string)
| cannot_extract_meter_value (requestField metric : string)
| cumulative_exceeded (current amount projected max : num) (w : window)
| unknown_scope_type (type : string)
| external_witness_stub
| plugin_reason (s : string).

Record ScopeEvaluationResult : Type := mkEval {
  allowed : bool;
  reason : option DenyReason }.

Definition allow : ScopeEvaluationResult := mkEval true None.
Definition deny (r : DenyReason) : ScopeEvaluationResult := mkEval false (Some r).

(** ** The tracker interface (guard/cumulative-tracker.ts) *)

Record ReserveResult : Type := mkReserve {
  rr_allowed : bool;
  rr_currentCumulative : num }.

Inductive ResultStatus : Type := SUCCESS | REJECTED | ERROR.

#[export] Instance ResultStatus_eq_dec : EqDecision ResultStatus.
Proof. solve_decision. Defined.

Record CumulativeTracker (W : Type) : Type := mkTracker {
  getCumulativeValue : string → MeterFieldRef → Date → Date → M W num;
  checkAndReserve : string → string → MeterFieldRef → Date → Date → num → num → M W ReserveResult;
  settleReservation : string → ResultStatus → option num → M W unit }.
Arguments getCumulativeValue {W} _ _ _ _ _.
Arguments checkAndReserve {W} _ _ _ _ _ _ _ _.
Arguments settleReservation {W} _ _ _ _.

(** What a tracker promises to its client: a reservation admitted under a
    limit is admitted, from the same state, under every larger limit. *)
Class TrackerLaws {W} (T : CumulativeTracker W) : Prop := {
  checkAndReserve_mono recordId agentDid mf ws now max1 max2 amount w r w' :
    num_leb max1 max2 = true →
    checkAndReserve T recordId agentDid mf ws now max1 amount w = (Ok r, w') →
    rr_allowed r = true →
    ∃ r', (checkAndReserve T recordId agentDid mf ws now max2 amount w).1 = Ok r'
          ∧ rr_allowed r' = true }.

(** [METER_FIELD_REGISTRY]: own keys of the table. *)
Inductive MeterAggregation : Type := SUM | COUNT.
Inductive CountFilter : Type := filter_SUCCESS | filter_any.

Record MeterFieldEntry : Type := mkMeterEntry {
  aggregation : MeterAggregation;
  recordField : option string;
  requestField : option string;
  countFilter : CountFilter }.

Definition METER_FIELD_REGISTRY (metric : string) : option MeterFieldEntry :=
  if String.eqb metric "transaction_amount"
  then Some (mkMeterEntry SUM (Some "amount") (Some "amount") filter_SUCCESS)
  else if String.eqb metric "api_call_count"
  then Some (mkMeterEntry COUNT None None filter_any)
  else None.

(** ** The time zone database

    [Intl.DateTimeFormat] depends on the zone data of the host:
    [resolvedTimeZone] is [None] when the constructor throws, the two others
    are the [format] results for a zone and an instant. *)
Class Intl : Type := {
  resolvedTimeZone : string → option string;
  formatHHMM : string → Z → string;
  formatWeekday : string → Z → string }.

(** [fmt.format(now)] throws a [RangeError] on an invalid date. *)
Definition format (f : Z → string) (now : Date) : res string :=
  match now with Some t => Ok (f t) | None => Throw "RangeError" end.

(** ** Allowlists and numeric limits *)

Definition matchAllowlistValue (actualValue candidate : string) : bool :=
  if str_startsWith candidate "*" && Nat.ltb 1 (String.length candidate)
  then str_endsWith actualValue (str_tail candidate)
  else String.eqb actualValue candidate.

Definition evaluateAllowlist (field : string) (values : list string) (p : params)
    : ScopeEvaluationResult :=
  if Nat.eqb (length values) 0 then deny (allowlist_is_empty field)
  else match get_prop p field with
       | VStr actualValue =>
           if existsb (matchAllowlistValue actualValue) values then allow
           else deny (not_in_the_allowlist field)
       | _ => deny (missing_or_not_a_string field)
       end.

Definition evaluateNumericLimit (field : string) (max : num) (p : params)
    : ScopeEvaluationResult :=
  match get_prop p field with
  | VUndefined | VNull => allow
  | VNum n =>
      if is_nan n then deny (not_a_number field)
      else if num_leb n max then allow else deny (exceeds_max field max)
  | _ => deny (not_a_number field)
  end.

(** ** Temporal scopes *)

Definition weekdayToISO (weekday : string) : res Z :=
  if String.eqb weekday "Mon" then Ok 1 else if String.eqb weekday "Tue" then Ok 2
  else if String.eqb weekday "Wed" then Ok 3 else if String.eqb weekday "Thu" then Ok 4
  else if String.eqb weekday "Fri" then Ok 5 else if String.eqb weekday "Sat" then Ok 6
  else if String.eqb weekday "Sun" then Ok 7 else Throw "Error".

Definition crosses_midnight (rw : RecurringWindow) : bool :=
  str_ltb (rw_endTime rw) (rw_startTime rw).

(** [localHHMM >= a] is [a <= localHHMM]. *)
Definition time_in_window (rw : RecurringWindow) (localHHMM : string) : bool :=
  if crosses_midnight rw
  then str_leb (rw_startTime rw) localHHMM || str_ltb localHHMM (rw_endTime rw)
  else str_leb (rw_startTime rw) localHHMM && str_ltb localHHMM (rw_endTime rw).

(** Cross-midnight day attribution: the segment after midnight belongs to the
    previous day. *)
Definition effective_day (rw : RecurringWindow) (localHHMM : string) (isoDay : Z) : Z :=
  if crosses_midnight rw && str_ltb localHHMM (rw_endTime rw)
  then (if isoDay =? 1 then 7 else isoDay - 1)
  else isoDay.

Definition day_in_window (rw : RecurringWindow) (localHHMM : string) (isoDay : Z) : bool :=
  match rw_daysOfWeek rw with
  | Some days => bool_decide (effective_day rw localHHMM isoDay ∈ days)
  | None => true
  end.

Section evaluators.
Context `{Intl} {W : Type}.

Definition evaluateRecurringWindow (rw : RecurringWindow) (now : Date)
    : res ScopeEvaluationResult :=
  if negb (HH_MM_test (rw_startTime rw)) || negb (HH_MM_test (rw_endTime rw))
  then mret (deny invalid_time_format)
  else match resolvedTimeZone (rw_timezone rw) with
  | None => mret (deny invalid_timezone)
  | Some tz =>
      if negb (String.eqb tz (rw_timezone rw)) then mret (deny invalid_timezone)
      else
        localHHMM ← format (formatHHMM (rw_timezone rw)) now;
        localWeekday ← format (formatWeekday (rw_timezone rw)) now;
        isoDay ← weekdayToISO localWeekday;
        if negb (time_in_window rw localHHMM) then mret (deny outside_window_time)
        else if negb (day_in_window rw localHHMM isoDay) then mret (deny outside_window_day)
        else mret allow
  end.

Definition evaluateTemporalScope (notBefore notAfter : string) (rw : option RecurringWindow)
    (now : Date) : res ScopeEvaluationResult :=
  let nowMs := num_of_date now in
  if num_ltb nowMs (dateNum notBefore) then mret (deny not_yet_active)
  else if num_geb nowMs (dateNum notAfter) then mret (deny expired)
  else match rw with
       | None => mret allow
       | Some rw => evaluateRecurringWindow rw now
       end.

(** ** Cumulative limits *)

(** [(params[key] as string | undefined) ?? '']: the guard injects strings
    under the two keys this is read with. *)
Definition injected_string (p : params) (key : string) : string :=
  match get_prop p key with VStr s => s | _ => "" end.

Definition reserve_amount (entry : MeterFieldEntry) (p : params) : option num :=
  match aggregation entry with
  | COUNT => Some (Fin 1)
  | SUM =>
      match requestField entry ≫= λ f, p !! f with
      | Some (VNum n) => if is_nan n then None else Some n
      | _ => None
      end
  end.

Definition evaluateCumulativeLimit (mf : MeterFieldRef) (max : num) (w : window)
    (p : params) (now : Date) (tracker : option (CumulativeTracker W))
    : M W ScopeEvaluationResult :=
  match tracker with
  | None => mret (deny no_tracker)
  | Some T =>
      match mf_source mf with
      | action_record =>
          match METER_FIELD_REGISTRY (mf_metric mf) with
          | None => mret (deny (unregistered_meter_field (mf_metric mf)))
          | Some entry =>
              let windowStart := computeWindowStart w now in
              let agentDid := injected_string p "__agentDid" in
              let recordId := injected_string p "__recordId" in
              match reserve_amount entry p with
              | None => mret (deny (cannot_extract_meter_value
                                      (default "" (requestField entry)) (mf_metric mf)))
              | Some reserveAmount =>
                  r ← checkAndReserve T recordId agentDid mf windowStart now max reserveAmount;
                  if negb (rr_allowed r)
                  then mret (deny (cumulative_exceeded (rr_currentCumulative r) reserveAmount
                              (num_add (rr_currentCumulative r) reserveAmount) max w))
                  else mret allow
              end
          end
      | source => mret (deny (metric_source_not_implemented source))
      end
  end.

(** ** The evaluator object *)

Definition EvaluatorFn : Type :=
  Scope → params → Date → option (CumulativeTracker W) → M W ScopeEvaluationResult.

Record ScopeEvaluator : Type := mkScopeEvaluator {
  se_tracker : option (CumulativeTracker W);
  se_evaluators : gmap string EvaluatorFn;
  se_registry : gmap string EvaluatorFn }.

(** The four closures the constructor installs; a closure is only ever looked
    up under its own [type]. *)
Definition allowlist_closure : EvaluatorFn := λ scope p now tr,
  match scope with
  | AllowlistScope field values => mret (evaluateAllowlist field values p)
  | _ => throw "TypeError"
  end.
Definition numeric_limit_closure : EvaluatorFn := λ scope p now tr,
  match scope with
  | NumericLimitScope field max _ => mret (evaluateNumericLimit field max p)
  | _ => throw "TypeError"
  end.
Definition temporal_scope_closure : EvaluatorFn := λ scope p now tr,
  match scope with
  | TemporalScope nb na rw => lift_res (evaluateTemporalScope nb na rw now)
  | _ => throw "TypeError"
  end.
Definition cumulative_limit_closure : EvaluatorFn := λ scope p now tr,
  match scope with
  | CumulativeLimitScope mf max w _ => evaluateCumulativeLimit mf max w p now tr
  | _ => throw "TypeError"
  end.

Definition builtin_closures : gmap string EvaluatorFn :=
  <["cumulative_limit" := cumulative_limit_closure]>
  (<["temporal_scope" := temporal_scope_closure]>
  (<["numeric_limit" := numeric_limit_closure]>
  (<["allowlist" := allowlist_closure]> ∅))).

Definition new_ScopeEvaluator (tracker : option (CumulativeTracker W))
    (registry : gmap string EvaluatorFn) : ScopeEvaluator :=
  mkScopeEvaluator tracker builtin_closures registry.

Definition evaluate (se : ScopeEvaluator) (scope : Scope) (p : params) (now : Date)
    : M W ScopeEvaluationResult :=
  let fn : option EvaluatorFn :=
    match se_evaluators se !! scope_type scope with
    | Some fn => Some fn
    | None => se_registry se !! scope_type scope
    end in
  match fn with
  | None => mret (deny (unknown_scope_type (scope_type scope)))
  | Some fn => fn scope p now (se_tracker se)
  end.

Fixpoint evaluateAll (se : ScopeEvaluator) (scopes : list Scope) (p : params) (now : Date)
    : M W ScopeEvaluationResult :=
  match scopes with
  | [] => mret allow
  | scope :: rest =>
      result ← evaluate se scope p now;
      if negb (allowed result) then mret result else evaluateAll se rest p now
  end.

(** ** Registration *)

Definition BUILT_IN_SCOPE_TYPES : list string :=
  ["allowlist"; "numeric_limit"; "temporal_scope"; "cumulative_limit"].

Definition registerScopeEvaluator (se : ScopeEvaluator) (type : string) (fn : EvaluatorFn)
    : res ScopeEvaluator :=
  if bool_decide (type ∈ BUILT_IN_SCOPE_TYPES) then Throw "Error"
  else Ok (mkScopeEvaluator (se_tracker se) (<[type := fn]> (se_evaluators se)) (se_registry se)).

(** [ScopeEvaluatorRegistry.register] *)
Definition register (plugins : gmap string EvaluatorFn) (type : string) (fn : EvaluatorFn)
    (force : bool) : res (gmap string EvaluatorFn) :=
  if blank type then Throw "Error"
  else if bool_decide (type ∈ BUILT_IN_SCOPE_TYPES) then Throw "Error"
  else if bool_decide (is_Some (plugins !! type)) && negb force then Throw "Error"
  else Ok (<[type := fn]> plugins).

(** ** The external witness plugin *)

Record ExternalWitnessEvaluator : Type := mkExternalWitness {
  witnessSource : string;
  witnessKeyId : option string;
  witnessTimestampWindow : option num }.

Definition external_witness_fn : EvaluatorFn := λ _ _ _ _, mret (deny external_witness_stub).

Definition createExternalWitnessEvaluator (config : ExternalWitnessEvaluator)
    : res (ExternalWitnessEvaluator * EvaluatorFn) :=
  if blank (witnessSource config) then Throw "Error"
  else Ok (config, external_witness_fn).

Definition registerExternalWitnessEvaluator (se : ScopeEvaluator)
    (config : ExternalWitnessEvaluator) : res (ExternalWitnessEvaluator * ScopeEvaluator) :=
  '(evaluatorConfig, evaluatorFn) ← createExternalWitnessEvaluator config;
  se' ← registerScopeEvaluator se "external_witness" evaluatorFn;
  mret (evaluatorConfig, se').

End evaluators.
Arguments EvaluatorFn : clear implicits.
Arguments ScopeEvaluator : clear implicits.

(** ** A host with the single zone UTC, for concrete evaluations *)

Definition utc_hhmm (t : Z) : string :=
  let m := t / msPerMinute mod 1440 in
  String.string_of_list_ascii
    [digit_ascii (m / 600); digit_ascii (m / 60 mod 10); ":"%char;
     digit_ascii (m mod 60 / 10); digit_ascii (m mod 60 mod 10)].

Definition utc_weekday (t : Z) : string :=
  match WeekDay t with
  | 0 => "Sun" | 1 => "Mon" | 2 => "Tue" | 3 => "Wed" | 4 => "Thu" | 5 => "Fri" | _ => "Sat"
  end.

#[export] Instance utc_intl : Intl := {|
  resolvedTimeZone tz := if String.eqb tz "UTC" then Some "UTC" else None;
  formatHHMM _ := utc_hhmm;
  formatWeekday _ := utc_weekday |}.

(** Fridays from 22:00 to 06:00 of the next day, in 2026. *)
Definition friday_night : Scope :=
  TemporalScope "2026-01-01T00:00:00.000Z" "2027-01-01T00:00:00.000Z"
    (Some (mkRecurringWindow "22:00" "06:00" (Some [5]) "UTC")).

(** ** Specification of a scope

    What each kind of scope is meant to permit, stated without the code. *)

(** A pattern is a literal, or a star followed by a required suffix. *)
Definition pattern_matches (v candidate : string) : Prop :=
  (∃ suffix pre, suffix ≠ "" ∧ candidate = String.String "*" suffix ∧ v = pre +:+ suffix)
  ∨ ((∀ suffix, candidate = String.String "*" suffix → suffix = "") ∧ v = candidate).

(** [n] is a number not above [max]; [NaN] is no such number. *)
Definition at_most (n max : num) : Prop :=
  match n, max with
  | NaN, _ | _, NaN => False
  | NInf, _ | _, PInf => True
  | Fin x, Fin y => x <= y
  | _, _ => False
  end.

(** The text [s] is the clock time [HH:MM] of the minute [m] of the day. *)
Definition clock_time (s : string) (m : Z) : Prop := 0 <= m < 1440 ∧ s = clock_text m.

(** Monday to Sunday, the days 1 to 7. *)
Definition weekday_names : list string := ["Mon"; "Tue"; "Wed"; "Thu"; "Fri"; "Sat"; "Sun"].

(** A recurring window is a set of occurrences: each starts at the minute
    [start] of a permitted day and lasts until the next [finish]; [isoDay] and
    [minute] are the local day of the week and minute of the day, and the week
    wraps around. *)
Definition window_covers (daysOfWeek : option (list Z)) (start finish isoDay minute : Z) : Prop :=
  ∃ d0, 1 <= d0 <= 7 ∧ (∀ days, daysOfWeek = Some days → d0 ∈ days)
    ∧ (1440 * (isoDay - d0) + minute - start) mod (7 * 1440) < (finish - start) mod 1440.

(** [start] is the beginning of the hour, the day, the week (from Monday) or
    the month, in UTC, that holds the time [now]. *)
Definition metering_window (w : window) (now start : Date) : Prop :=
  match now, start with
  | Some t, Some s =>
      match w with
      | hour => s mod 3600000 = 0 ∧ s <= t < s + 3600000
      | day => s mod 86400000 = 0 ∧ s <= t < s + 86400000
      | week => (s + 3 * 86400000) mod (7 * 86400000) = 0 ∧ s <= t < s + 7 * 86400000
      | month => ∃ y m, 1 <= m <= 12 ∧ s = 86400000 * MakeDay y m 1
                   ∧ s <= t < s + 86400000 * daysInMonth y m
      end
  | None, None => True
  | _, _ => False
  end.

(** The text under a key, empty when there is none. *)
Definition text_param (p : params) (key s : string) : Prop :=
  p !! key = Some (VStr s) ∨ s = "" ∧ ∀ s', p !! key ≠ Some (VStr s').

(** What a request adds to a metric: its [amount], which must be a number, or
    one call. *)
Definition adds_to_metric (metric : string) (p : params) (amount : num) : Prop :=
  metric = "transaction_amount" ∧ p !! "amount" = Some (VNum amount) ∧ amount ≠ NaN
  ∨ metric = "api_call_count" ∧ amount = Fin 1.

(** The local clock of a host shows the hours 00 to 23. *)
Class IntlLaws (I : Intl) : Prop := {
  formatHHMM_clock tz t :
    resolvedTimeZone tz = Some tz → ∃ m, clock_time (formatHHMM tz t) m }.

(** Evaluating a list of scopes in order, each one allowing. *)
Inductive all_allow `{Intl} {W} (se : ScopeEvaluator W) (p : params) (now : Date)
    : list Scope → W → W → Prop :=
| all_allow_nil w : all_allow se p now [] w w
| all_allow_cons s scopes w w1 w2 r :
    evaluate se s p now w = (Ok r, w1) → allowed r = true →
    all_allow se p now scopes w1 w2 → all_allow se p now (s :: scopes) w w2.

(** What a scope permits, and the effect on the tracker: an allowlist, a string
    that matches a pattern; a numeric limit, an absent or null field or a number
    at most [max]; a temporal scope, a time that is not before [notBefore] and
    before [notAfter], where these are dates, and inside an occurrence of its
    recurring window in the canonical zone it names; a cumulative limit, the
    reservation of what the request adds to the metric, admitted by the tracker
    for the window of the current time. *)
Definition scope_permits `{Intl} {W} (tracker : option (CumulativeTracker W)) (s : Scope)
    (p : params) (now : Date) (w w' : W) : Prop :=
  match s with
  | AllowlistScope field values =>
      w' = w ∧ ∃ v c, p !! field = Some (VStr v) ∧ c ∈ values ∧ pattern_matches v c
  | NumericLimitScope field max _ =>
      w' = w ∧ (p !! field = None ∨ p !! field = Some VUndefined ∨ p !! field = Some VNull
                ∨ ∃ n, p !! field = Some (VNum n) ∧ at_most n max)
  | TemporalScope nb na rw =>
      w' = w ∧ (∀ t b, now = Some t → getTime nb = Some b → b <= t)
      ∧ (∀ t a, now = Some t → getTime na = Some a → t < a)
      ∧ ∀ r, rw = Some r →
          ∃ t d name minute start finish, now = Some t
            ∧ resolvedTimeZone (rw_timezone r) = Some (rw_timezone r)
            ∧ clock_time (rw_startTime r) start ∧ clock_time (rw_endTime r) finish
            ∧ clock_time (formatHHMM (rw_timezone r) t) minute
            ∧ formatWeekday (rw_timezone r) t = name ∧ weekday_names !! d = Some name
            ∧ window_covers (rw_daysOfWeek r) start finish (Z.of_nat d + 1) minute
  | CumulativeLimitScope mf max win _ =>
      ∃ T recordId agentDid windowStart amount r, tracker = Some T
        ∧ mf_source mf = action_record ∧ adds_to_metric (mf_metric mf) p amount
        ∧ text_param p "__recordId" recordId ∧ text_param p "__agentDid" agentDid
        ∧ metering_window win now windowStart
        ∧ checkAndReserve T recordId agentDid mf windowStart now max amount w = (Ok r, w')
        ∧ rr_allowed r = true
  | OtherScope _ => False
  end.

(** What the evaluator asks of a request for each kind of scope, in the terms of
    the code. *)
Definition evaluator_accepts `{Intl} {W} (tracker : option (CumulativeTracker W)) (s : Scope)
    (p : params) (now : Date) (w w' : W) : Prop :=
  match s with
  | AllowlistScope field values =>
      w' = w ∧ ∃ v c, p !! field = Some (VStr v) ∧ c ∈ values ∧ pattern_matches v c
  | NumericLimitScope field max _ =>
      w' = w ∧ (get_prop p field = VUndefined ∨ get_prop p field = VNull
                ∨ ∃ n, get_prop p field = VNum n ∧ num_leb n max = true)
  | TemporalScope nb na rw =>
      w' = w ∧ num_ltb (num_of_date now) (dateNum nb) = false
      ∧ num_leb (dateNum na) (num_of_date now) = false
      ∧ ∀ r, rw = Some r →
          HH_MM_test (rw_startTime r) = true ∧ HH_MM_test (rw_endTime r) = true
          ∧ resolvedTimeZone (rw_timezone r) = Some (rw_timezone r)
          ∧ ∃ t d, now = Some t ∧ weekdayToISO (formatWeekday (rw_timezone r) t) = Ok d
              ∧ time_in_window r (formatHHMM (rw_timezone r) t) = true
              ∧ day_in_window r (formatHHMM (rw_timezone r) t) d = true
  | CumulativeLimitScope mf max win _ =>
      ∃ T entry amount r, tracker = Some T ∧ mf_source mf = action_record
        ∧ METER_FIELD_REGISTRY (mf_metric mf) = Some entry
        ∧ reserve_amount entry p = Some amount
        ∧ checkAndReserve T (injected_string p "__recordId") (injected_string p "__agentDid") mf
            (computeWindowStart win now) now max amount w = (Ok r, w')
        ∧ rr_allowed r = true
  | OtherScope _ => False
  end.

(** ** Lemmas *)

Lemma matchAllowlistValue_spec v c : matchAllowlistValue v c = true ↔ pattern_matches v c.
Proof.
  unfold matchAllowlistValue, pattern_matches.
  destruct (str_startsWith c "*" && Nat.ltb 1 (String.length c)) eqn:Hb.
  - apply andb_true_iff in Hb as [Hs Hl]. destruct c as [|a suf]; [done|].
    unfold str_startsWith, String.prefix in Hs.
    destruct (ascii_dec "*" a) as [<-|]; [|done].
    apply Nat.ltb_lt in Hl. simpl in Hl.
    assert (suf ≠ "") by (intros ->; simpl in Hl; lia).
    cbn [str_tail]. rewrite str_endsWith_spec. naive_solver.
  - rewrite String.eqb_eq. split.
    + intros ->. right. split; [|done]. intros suf ->. unfold str_startsWith in Hb. cbn in Hb.
      destruct suf; [done|]. discriminate.
    + intros [(suf & pre & Hn & -> & _)|[_ ->]]; [|done].
      unfold str_startsWith in Hb. cbn in Hb. by destruct suf.
Qed.

Lemma evaluateAllowlist_allowed field values p :
  allowed (evaluateAllowlist field values p) = true
  ↔ ∃ v c, p !! field = Some (VStr v) ∧ c ∈ values ∧ pattern_matches v c.
Proof.
  unfold evaluateAllowlist, get_prop. split.
  - destruct values as [|c0 cs]; [done|]. cbn [length Nat.eqb].
    destruct (p !! field) as [[| | | |v| |]|] eqn:E; simpl; try done.
    destruct (matchAllowlistValue v c0 || existsb (matchAllowlistValue v) cs) eqn:Hx; [|done].
    intros _. apply (existsb_exists (matchAllowlistValue v) (c0 :: cs)) in Hx as (c & Hc & Hm).
    exists v, c. rewrite list_elem_of_In. by rewrite <- matchAllowlistValue_spec.
  - intros (v & c & -> & Hc & Hm). destruct values as [|c0 cs]; [by apply elem_of_nil in Hc|].
    cbn [length Nat.eqb from_option id]. rewrite (proj2 (existsb_exists _ _)); [done|].
    exists c. rewrite <- list_elem_of_In. by rewrite matchAllowlistValue_spec.
Qed.

Lemma evaluateNumericLimit_allowed field max p :
  allowed (evaluateNumericLimit field max p) = true
  ↔ get_prop p field = VUndefined ∨ get_prop p field = VNull
    ∨ ∃ n, get_prop p field = VNum n ∧ num_leb n max = true.
Proof.
  unfold evaluateNumericLimit. destruct (get_prop p field) as [| | |n| | |]; simpl; try naive_solver.
  destruct n; simpl; [naive_solver|..];
    match goal with |- context [if ?b then _ else _] => destruct b eqn:? end; naive_solver.
Qed.

(** Times of valid windows, in minutes. *)
Lemma window_minutes rw m isoDay :
  HH_MM_test (rw_startTime rw) = true → HH_MM_test (rw_endTime rw) = true →
  HH_MM_test m = true → 1 <= isoDay <= 7 →
  time_in_window rw m = true ∧ day_in_window rw m isoDay = true
  ↔ window_covers (rw_daysOfWeek rw) (hhmm (rw_startTime rw)) (hhmm (rw_endTime rw)) isoDay (hhmm m).
Proof.
  intros Hs He Hm Hd. unfold time_in_window, day_in_window, effective_day, crosses_midnight,
    window_covers.
  rewrite !hhmm_ltb, !hhmm_leb by done.
  destruct (hhmm_range _ Hs) as [_ Rs], (hhmm_range _ He) as [_ Re], (hhmm_range _ Hm) as [_ Rm].
  revert Rs Re Rm. generalize (hhmm (rw_startTime rw)) as a, (hhmm (rw_endTime rw)) as b,
    (hhmm m) as t. intros a b t Ra Rb Rt.
  split.
  - intros [HT HD].
    destruct (Z.ltb_spec b a) as [Hab|Hab]; cbn [andb] in HD.
    + destruct (Z.ltb_spec t b) as [Htb|Htb].
      * exists (if isoDay =? 1 then 7 else isoDay - 1). split; [|split].
        -- destruct (Z.eqb_spec isoDay 1); lia.
        -- intros days E. rewrite E in HD. by apply bool_decide_eq_true in HD.
        -- destruct (Z.eqb_spec isoDay 1); Z.div_mod_to_equations; lia.
      * exists isoDay. split; [done|split].
        -- intros days E. rewrite E in HD. by apply bool_decide_eq_true in HD.
        -- apply orb_true_iff in HT as [HT|HT]; reflect_bools; Z.div_mod_to_equations; lia.
    + exists isoDay. split; [done|split].
      * intros days E. rewrite E in HD. by apply bool_decide_eq_true in HD.
      * reflect_bools. Z.div_mod_to_equations; lia.
  - intros (d0 & Hd0 & Hdays & Hlt).
    assert (d0 = isoDay ∨ d0 = (if isoDay =? 1 then 7 else isoDay - 1) ∧ b < a ∧ t < b) as Hcase.
    { destruct (Z.eqb_spec isoDay 1); Z.div_mod_to_equations; lia. }
    assert (b < a ∧ (a <= t ∨ t < b) ∨ a <= t < b) as HT by (Z.div_mod_to_equations; lia).
    split.
    + destruct (Z.ltb_spec b a), (Z.leb_spec a t), (Z.ltb_spec t b); simpl; lia.
    + destruct (rw_daysOfWeek rw) as [days|] eqn:E; [|done]. apply bool_decide_eq_true.
      destruct Hcase as [->|(-> & Hba & Htb)].
      * assert (b <? a = true → t <? b = false) as Hx.
        { intros. destruct (Z.ltb_spec t b); [|done]. reflect_bools. Z.div_mod_to_equations; lia. }
        destruct (b <? a); cbn [andb]; [rewrite Hx by done|]; auto.
      * apply Z.ltb_lt in Hba, Htb. rewrite Hba, Htb. cbn [andb]. auto.
Qed.

Lemma evaluateRecurringWindow_allowed `{Intl} rw now :
  (∃ r, evaluateRecurringWindow rw now = Ok r ∧ allowed r = true)
  ↔ HH_MM_test (rw_startTime rw) = true ∧ HH_MM_test (rw_endTime rw) = true
    ∧ resolvedTimeZone (rw_timezone rw) = Some (rw_timezone rw)
    ∧ ∃ t d, now = Some t ∧ weekdayToISO (formatWeekday (rw_timezone rw) t) = Ok d
        ∧ time_in_window rw (formatHHMM (rw_timezone rw) t) = true
        ∧ day_in_window rw (formatHHMM (rw_timezone rw) t) d = true.
Proof.
  unfold evaluateRecurringWindow.
  destruct (HH_MM_test (rw_startTime rw)), (HH_MM_test (rw_endTime rw)); cbn [negb orb];
    [|split; [by intros (? & [= <-] & ?)|by intros (?&?&_)]..].
  destruct (resolvedTimeZone (rw_timezone rw)) as [tz|];
    [|split; [by intros (? & [= <-] & ?)|by intros (_&_&?&_)]].
  destruct (String.eqb_spec tz (rw_timezone rw)) as [->|Hne]; cbn [negb];
    [|split; [by intros (? & [= <-] & ?)|intros (_&_&[= ?]&_); congruence]].
  destruct now as [t|]; [|split; [by intros (? & [=] & _)|by intros (_&_&_&?&?&?&_)]].
  unfold format, mbind, res_bind.
  destruct (weekdayToISO _) as [d|c] eqn:E;
    [|split; [by intros (? & [=] & _)|by intros (_&_&_&?&?&[= <-]&?&_); congruence]].
  split.
  - intros (r & Hr & Ha). split_and!; [done..|]. exists t, d.
    destruct (time_in_window _ _), (day_in_window _ _ _); cbn in Hr; injection Hr as <-; done.
  - intros (_&_&_&t'&d'&[= <-]&E'&Ht&Hd). rewrite E in E'. injection E' as <-.
    rewrite Ht, Hd. by exists allow.
Qed.

Section spec.
Context `{Intl} {W : Type}.

Lemma evaluate_builtin (tr : option (CumulativeTracker W)) reg s p now w :
  evaluate (new_ScopeEvaluator tr reg) s p now w =
  match s with
  | AllowlistScope field values => (Ok (evaluateAllowlist field values p), w)
  | NumericLimitScope field max _ => (Ok (evaluateNumericLimit field max p), w)
  | TemporalScope nb na rw => (evaluateTemporalScope nb na rw now, w)
  | CumulativeLimitScope mf max win _ => evaluateCumulativeLimit mf max win p now tr w
  | OtherScope t => evaluate (new_ScopeEvaluator tr reg) (OtherScope t) p now w
  end.
Proof. by destruct s. Qed.

Lemma evaluateCumulativeLimit_allowed (tr : option (CumulativeTracker W)) mf max win p now w w' :
  (∃ r, evaluateCumulativeLimit mf max win p now tr w = (Ok r, w') ∧ allowed r = true)
  ↔ ∃ T entry amount r, tr = Some T ∧ mf_source mf = action_record
      ∧ METER_FIELD_REGISTRY (mf_metric mf) = Some entry
      ∧ reserve_amount entry p = Some amount
      ∧ checkAndReserve T (injected_string p "__recordId") (injected_string p "__agentDid") mf
          (computeWindowStart win now) now max amount w = (Ok r, w')
      ∧ rr_allowed r = true.
Proof.
  unfold evaluateCumulativeLimit. split.
  - intros (r & E & Ha).
    destruct tr as [T|]; [|injection E as <- _; done].
    destruct (mf_source mf); [|injection E as <- _; done..].
    destruct (METER_FIELD_REGISTRY _) as [entry|]; [|injection E as <- _; done].
    destruct (reserve_amount entry p) as [amount|] eqn:Ham; [|injection E as <- _; done].
    apply M_bind_ok in E as (rr & w1 & E & Er).
    exists T, entry, amount, rr. destruct (rr_allowed rr) eqn:Hr; injection Er as <- <-; done.
  - intros (T & entry & amount & r & -> & -> & -> & -> & E & Hr).
    exists allow. split; [|done]. apply M_bind_ok. exists r, w'. by rewrite Hr.
Qed.

(** An evaluator without plugins allows a request exactly when it accepts it. *)
Lemma evaluate_accepts (tr : option (CumulativeTracker W)) s p now w w' :
  (∃ r, evaluate (new_ScopeEvaluator tr ∅) s p now w = (Ok r, w') ∧ allowed r = true)
  ↔ evaluator_accepts tr s p now w w'.
Proof.
  rewrite evaluate_builtin.
  destruct s as [field values|field max cur|nb na rw|mf max win cur|t]; simpl.
  - rewrite <- evaluateAllowlist_allowed. split.
    + by intros (r & [= <- <-] & ?).
    + intros [-> ?]. eauto.
  - rewrite <- evaluateNumericLimit_allowed. split.
    + by intros (r & [= <- <-] & ?).
    + intros [-> ?]. eauto.
  - unfold evaluateTemporalScope, num_geb.
    destruct (num_ltb (num_of_date now) (dateNum nb));
      [split; [by intros (? & [= <- _] & ?)|by intros (_&?&_)]|].
    destruct (num_leb (dateNum na) (num_of_date now));
      [split; [by intros (? & [= <- _] & ?)|by intros (_&_&?&_)]|].
    destruct rw as [rw|]; [|split; [by intros (? & [= <- <-] & ?)|by intros (->&_); exists allow]].
    split.
    + intros (r & [= E <-] & Ha). split_and!; [done..|]. intros ? [= <-].
      apply evaluateRecurringWindow_allowed. eauto.
    + intros (-> & _ & _ & Hrw). specialize (Hrw rw eq_refl).
      apply evaluateRecurringWindow_allowed in Hrw as (r & -> & ?). eauto.
  - apply evaluateCumulativeLimit_allowed.
  - unfold evaluate. simpl.
    change (builtin_closures !! t) with (builtin_closures (W := W) !! t).
    split; [|done]. destruct (builtin_closures !! t) as [fn|] eqn:E.
    + unfold builtin_closures in E. repeat (rewrite lookup_insert_Some in E || rewrite lookup_empty in E).
      intros (r & Er & _). naive_solver.
    + rewrite lookup_empty. by intros (? & [= <- _] & ?).
Qed.
End spec.

(** ** Registrations *)

(** Any sequence of registrations, on the instance or on the registry it
    consults; a registration that throws changes nothing. *)
Inductive registration {W} : Type :=
| on_instance (type : string) (fn : EvaluatorFn W)
| on_registry (type : string) (fn : EvaluatorFn W) (force : bool)
| on_witness (config : ExternalWitnessEvaluator).
Arguments registration : clear implicits.

Definition apply_registration {W} (se : ScopeEvaluator W) (op : registration W)
    : ScopeEvaluator W :=
  match op with
  | on_instance t fn =>
      match registerScopeEvaluator se t fn with Ok se' => se' | Throw _ => se end
  | on_registry t fn force =>
      match register (se_registry se) t fn force with
      | Ok reg => mkScopeEvaluator (se_tracker se) (se_evaluators se) reg
      | Throw _ => se
      end
  | on_witness config =>
      match registerExternalWitnessEvaluator se config with Ok (_, se') => se' | Throw _ => se end
  end.

Section registrations.
Context {W : Type}.

Lemma registerScopeEvaluator_builtin (se se' : ScopeEvaluator W) t fn b :
  b ∈ BUILT_IN_SCOPE_TYPES → registerScopeEvaluator se t fn = Ok se' →
  se_evaluators se' !! b = se_evaluators se !! b ∧ se_tracker se' = se_tracker se.
Proof.
  unfold registerScopeEvaluator. intros Hb. case_bool_decide as Ht; [done|].
  intros [= <-]. split; [|done]. simpl. rewrite lookup_insert_ne; [done|]. by intros ->.
Qed.

Lemma apply_registration_builtin (se : ScopeEvaluator W) op b :
  b ∈ BUILT_IN_SCOPE_TYPES →
  se_evaluators (apply_registration se op) !! b = se_evaluators se !! b
  ∧ se_tracker (apply_registration se op) = se_tracker se.
Proof.
  intros Hb. destruct op as [t fn|t fn force|config]; simpl.
  - destruct (registerScopeEvaluator se t fn) eqn:E; [|done].
    by eapply registerScopeEvaluator_builtin.
  - by destruct (register _ _ _ _).
  - unfold registerExternalWitnessEvaluator, createExternalWitnessEvaluator.
    destruct (blank (witnessSource config)); [done|]. unfold mbind, res_bind.
    destruct (registerScopeEvaluator se "external_witness" _) eqn:E; [|done]. simpl.
    by eapply registerScopeEvaluator_builtin.
Qed.

Lemma apply_registrations_builtin ops (se : ScopeEvaluator W) b :
  b ∈ BUILT_IN_SCOPE_TYPES →
  se_evaluators (foldl apply_registration se ops) !! b = se_evaluators se !! b
  ∧ se_tracker (foldl apply_registration se ops) = se_tracker se.
Proof.
  intros Hb. revert se. induction ops as [|op ops IH]; intros se; simpl; [done|].
  destruct (IH (apply_registration se op)) as [-> ->]. by apply apply_registration_builtin.
Qed.

Lemma evaluate_registrations `{Intl} ops tr reg s p now (w : W) :
  scope_type s ∈ BUILT_IN_SCOPE_TYPES →
  evaluate (foldl apply_registration (new_ScopeEvaluator tr reg) ops) s p now w
  = evaluate (new_ScopeEvaluator tr ∅) s p now w.
Proof.
  intros Hb. unfold evaluate.
  destruct (apply_registrations_builtin ops (new_ScopeEvaluator tr reg) _ Hb) as [-> ->].
  assert (is_Some (builtin_closures (W := W) !! scope_type s)) as [fn Hfn].
  { revert Hb. unfold BUILT_IN_SCOPE_TYPES. rewrite !elem_of_cons, elem_of_nil.
    by intros [->|[->|[->|[->|[]]]]]; eexists. }
  cbn [new_ScopeEvaluator se_evaluators se_tracker]. by rewrite Hfn.
Qed.
End registrations.

(** ** The meaning of a scope *)

#[export] Instance utc_laws : IntlLaws utc_intl.
Proof.
  constructor. intros tz t _. exists (t / msPerMinute mod 1440).
  split; [Z.div_mod_to_equations; lia|].
  change (formatHHMM tz t) with (utc_hhmm t). unfold utc_hhmm, clock_text, print2. cbn [app].
  set (m := t / msPerMinute mod 1440). replace (m / 60 / 10) with (m / 600); [done|].
  rewrite Z.div_div by lia. done.
Qed.

Lemma at_most_leb n max : at_most n max ↔ num_leb n max = true.
Proof. destruct n, max; simpl; rewrite ?Z.leb_le; naive_solver. Qed.

Lemma text_param_injected p key s : text_param p key s ↔ s = injected_string p key.
Proof.
  unfold text_param, injected_string, get_prop.
  destruct (p !! key) as [[| | | |v| |]|]; simpl; naive_solver.
Qed.

Lemma metered_amount metric p amount :
  adds_to_metric metric p amount
  ↔ ∃ entry, METER_FIELD_REGISTRY metric = Some entry ∧ reserve_amount entry p = Some amount.
Proof.
  unfold adds_to_metric, METER_FIELD_REGISTRY.
  destruct (String.eqb_spec metric "transaction_amount") as [->|H1];
    [|destruct (String.eqb_spec metric "api_call_count") as [->|H2]].
  - split.
    + intros [(_ & Hp & Hn)|[[=] _]]. eexists. split; [done|].
      cbn [reserve_amount aggregation requestField mbind option_bind]. rewrite Hp. by destruct amount.
    + intros (e & [= <-] & He). left. split; [done|].
      cbn [reserve_amount aggregation requestField mbind option_bind] in He.
      destruct (p !! "amount") as [[| | |n| | |]|]; try done. destruct n; naive_solver.
  - split.
    + intros [([=] & _)|[_ ->]]. eexists. by split.
    + intros (e & [= <-] & [= <-]). by right.
  - split; [naive_solver|]. by intros (e & [=] & _).
Qed.

Lemma metering_window_start w now start :
  metering_window w now start ↔ computeWindowStart w now = start.
Proof.
  unfold metering_window, computeWindowStart.
  destruct now as [t|], start as [s|]; simpl; [|naive_solver..].
  assert (∀ P : Prop, (P ↔ computeWindowStart_ms w t = s) → P ↔ Some (computeWindowStart_ms w t) = Some s)
    as Hs by (intros P ->; naive_solver).
  apply Hs. clear Hs. destruct w; unfold computeWindowStart_ms, WeekDay, Day, msPerHour, msPerDay.
  - split; [intros []|intros <-]; Z.div_mod_to_equations; lia.
  - split; [intros []|intros <-]; Z.div_mod_to_equations; lia.
  - case_match; reflect_bools; split; [intros []|intros <-|intros []|intros <-];
      Z.div_mod_to_equations; lia.
  - split.
    + intros (y & m & Hm & -> & Ht). rewrite Z.mul_comm. f_equal.
      destruct (MonthStartDay_spec (t / 86400000)) as (y' & m' & Hm' & -> & Hd).
      assert (MakeDay y m (daysInMonth y m) = MakeDay y m 1 + daysInMonth y m - 1) as E1
        by (unfold MakeDay; lia).
      assert (MakeDay y m 1 <= t / 86400000 <= MakeDay y m (daysInMonth y m)) as Hd'
        by (rewrite E1; Z.div_mod_to_equations; lia).
      symmetry. eapply (same_month y' m' y m); eauto; lia.
    + intros <-. destruct (MonthStartDay_spec (t / 86400000)) as (y & m & Hm & -> & Hd).
      assert (MakeDay y m (daysInMonth y m) = MakeDay y m 1 + daysInMonth y m - 1) as E1
        by (unfold MakeDay; lia).
      exists y, m. split; [done|]. split; [lia|]. rewrite E1 in Hd. Z.div_mod_to_equations; lia.
Qed.

Lemma weekday_number name d :
  weekdayToISO name = Ok d ↔ ∃ k, weekday_names !! k = Some name ∧ d = Z.of_nat k + 1.
Proof.
  unfold weekdayToISO, weekday_names. split.
  - repeat match goal with |- context [String.eqb ?a ?b] => destruct (String.eqb_spec a b) as [->|] end;
      intros [= <-]; [by exists 0%nat|by exists 1%nat|by exists 2%nat|by exists 3%nat
                     |by exists 4%nat|by exists 5%nat|by exists 6%nat].
  - intros (k & Hk & ->). do 7 (destruct k as [|k]; [by injection Hk as <-|]). done.
Qed.

Lemma clock_time_hhmm s m : clock_time s m ↔ HH_MM_test s = true ∧ m = hhmm s.
Proof.
  unfold clock_time. split.
  - intros [Hm ->]. by destruct (clock_text_valid m Hm).
  - intros [Ht ->]. apply HH_MM_clock in Ht as (m & Hm & ->).
    destruct (clock_text_valid m Hm) as [_ ->]. done.
Qed.

Lemma dates_meaning nb na (now : Date) :
  (num_ltb (num_of_date now) (dateNum nb) = false ∧ num_leb (dateNum na) (num_of_date now) = false)
  ↔ (∀ t b, now = Some t → getTime nb = Some b → b <= t)
    ∧ (∀ t a, now = Some t → getTime na = Some a → t < a).
Proof.
  unfold dateNum. destruct now as [t|], (getTime nb) as [b|], (getTime na) as [a|];
    simpl; rewrite ?Z.ltb_ge, ?Z.leb_gt; naive_solver.
Qed.

(** The window of the code, in minutes of the day and days of the week. *)
Lemma window_meaning `{I : Intl} {_ : IntlLaws I} r (now : Date) :
  (HH_MM_test (rw_startTime r) = true ∧ HH_MM_test (rw_endTime r) = true
   ∧ resolvedTimeZone (rw_timezone r) = Some (rw_timezone r)
   ∧ ∃ t d, now = Some t ∧ weekdayToISO (formatWeekday (rw_timezone r) t) = Ok d
       ∧ time_in_window r (formatHHMM (rw_timezone r) t) = true
       ∧ day_in_window r (formatHHMM (rw_timezone r) t) d = true)
  ↔ ∃ t d name minute start finish, now = Some t
      ∧ resolvedTimeZone (rw_timezone r) = Some (rw_timezone r)
      ∧ clock_time (rw_startTime r) start ∧ clock_time (rw_endTime r) finish
      ∧ clock_time (formatHHMM (rw_timezone r) t) minute
      ∧ formatWeekday (rw_timezone r) t = name ∧ weekday_names !! d = Some name
      ∧ window_covers (rw_daysOfWeek r) start finish (Z.of_nat d + 1) minute.
Proof.
  setoid_rewrite clock_time_hhmm. split.
  - intros (Hs & He & Hz & t & d & -> & Hd & Hw).
    destruct (formatHHMM_clock (rw_timezone r) t Hz) as (m & [Hm _]%clock_time_hhmm).
    apply weekday_number in Hd as (k & Hk & ->).
    pose proof (lookup_lt_Some _ _ _ Hk) as Hlt. cbn in Hlt.
    apply window_minutes in Hw; [|done..|lia].
    by exists t, k, (formatWeekday (rw_timezone r) t), (hhmm (formatHHMM (rw_timezone r) t)),
      (hhmm (rw_startTime r)), (hhmm (rw_endTime r)).
  - intros (t & k & ? & ? & ? & ? & -> & Hz & [Hs ->] & [He ->] & [Hm ->] & <- & Hk & Hw).
    pose proof (lookup_lt_Some _ _ _ Hk) as Hlt. cbn in Hlt.
    apply window_minutes in Hw; [|done..|lia].
    split_and!; [done..|]. exists t, (Z.of_nat k + 1). split_and!; [done| |apply Hw..].
    apply weekday_number. by exists k.
Qed.

(** What the evaluator accepts is what the scope permits. *)
Lemma evaluator_accepts_permits `{I : Intl} {_ : IntlLaws I} {W} (tr : option (CumulativeTracker W)) s p now w w' :
  evaluator_accepts tr s p now w w' ↔ scope_permits tr s p now w w'.
Proof.
  destruct s as [field values|field max cur|nb na rw|mf max win cur|t]; cbn [evaluator_accepts scope_permits].
  - done.
  - unfold get_prop. setoid_rewrite at_most_leb.
    destruct (p !! field) as [[| | |n| | |]|]; simpl; naive_solver.
  - setoid_rewrite <- window_meaning. pose proof (dates_meaning nb na now). tauto.
  - setoid_rewrite metered_amount. setoid_rewrite text_param_injected.
    setoid_rewrite metering_window_start. naive_solver.
  - done.
Qed.

(** ** Theorems *)

(** C33.  Scope evaluation is exact and cannot be widened by plugins: after any
    sequence of registrations, forced or not, an evaluator allows a request
    under one of the four built-in scope kinds exactly when the scope permits
    it: an allowlist when the field is a string matching a pattern of the list
    (a literal, or a star and a suffix), a numeric limit when the field is
    absent, null or a number at most [max], a temporal scope when the time is
    not before [notBefore] and before [notAfter], where these are dates, and
    some occurrence of the recurring window, from its start on a permitted day
    to the next end, holds the local minute, and a cumulative limit when a
    tracker is present and admits the amount of the request (a number, or one
    call) for the UTC hour, day, week or month of the request.  The host
    writes local times as clock times from 00:00 to 23:59 ([IntlLaws]). *)
Theorem builtin_scopes_exact `{I : Intl} {_ : IntlLaws I} {W} (ops : list (registration W))
    tr reg s p now w w' :
  scope_type s ∈ BUILT_IN_SCOPE_TYPES →
  (∃ r, evaluate (foldl apply_registration (new_ScopeEvaluator tr reg) ops) s p now w = (Ok r, w')
        ∧ allowed r = true)
  ↔ scope_permits tr s p now w w'.
Proof.
  intros Hb. rewrite <- evaluator_accepts_permits, <- evaluate_accepts.
  by rewrite evaluate_registrations.
Qed.

(** An overriding plugin is rejected: the window Friday 22:00 to 06:00 still
    applies, on a Saturday (2026-01-03) at 05:30 and at 06:00 UTC. *)
Lemma builtin_scopes_exact_witness :
  scope_permits (W := unit) None friday_night ∅ (Some 1767418200000) tt tt
  ∧ ¬ scope_permits (W := unit) None friday_night ∅ (Some 1767420000000) tt tt.
Proof.
  assert (scope_type friday_night ∈ BUILT_IN_SCOPE_TYPES) as Hb by (vm_compute; set_solver).
  split.
  - apply (builtin_scopes_exact
      [on_instance "temporal_scope" (λ _ _ _ _, mret (deny expired))] None ∅); [done|].
    exists allow. vm_compute. done.
  - intros Hp. apply (builtin_scopes_exact
      [on_registry "temporal_scope" (λ _ _ _ _, mret allow) true] None ∅) in Hp as (r & Hr & Ha); [|done].
    vm_compute in Hr. injection Hr as <-. discriminate Ha.
Defined.
(** All scopes of a request must allow, and the first denial ends the
    evaluation: [evaluateAll] allows exactly when every scope allows in turn,
    from the state the previous ones left; when it denies, the scopes before
    the denying one all allowed, and nothing after it ran. *)
Theorem evaluateAll_first_denial `{Intl} {W} (se : ScopeEvaluator W) scopes p now w r w' :
  evaluateAll se scopes p now w = (Ok r, w') ↔
  (r = allow ∧ all_allow se p now scopes w w')
  ∨ (allowed r = false ∧ ∃ pre s post w1, scopes = pre ++ s :: post
       ∧ all_allow se p now pre w w1 ∧ evaluate se s p now w1 = (Ok r, w')).
Proof.
  revert w. induction scopes as [|s scopes IH]; intros w; cbn [evaluateAll]; split.
  - intros [= <- <-]. left. split; [done|constructor].
  - intros [[-> Hall]|(_ & [] & ? & ? & ? & [=] & _)]. inversion Hall; subst. done.
  - intros (r1 & w1 & E & Er)%M_bind_ok. destruct (allowed r1) eqn:Ha; cbn [negb] in Er.
    + apply IH in Er as [[-> Hall]|(Hd & pre & s' & post & w2 & -> & Hall & Es)].
      * left. split; [done|]. by econstructor.
      * right. split; [done|]. exists (s :: pre), s', post, w2. split_and!; [done| |done].
        by econstructor.
    + injection Er as <- <-. right. split; [done|]. exists [], s, scopes, w.
      split_and!; [done|constructor|done].
  - intros [[-> Hall]|(Hd & pre & s' & post & w2 & Heq & Hall & Es)]; apply M_bind_ok.
    + inversion Hall as [|? ? ? w1 ? r1 E Ha Hrest]; subst. exists r1, w1. split; [done|].
      rewrite Ha. apply IH. by left.
    + destruct pre as [|s0 pre]; simpl in Heq; injection Heq as <- ->.
      * inversion Hall; subst. exists r, w'. split; [done|]. by rewrite Hd.
      * inversion Hall as [|? ? ? w1 ? r1 E Ha Hrest]; subst. exists r1, w1. split; [done|].
        rewrite Ha. apply IH. right. split; [done|]. by exists pre, s', post, w2.
Qed.
