(* ===== verification/Attenuation.v ===== *)
(** * Attenuation: a delegated token never holds more than its parent

    [validateAttenuation] and its helpers, packages/identity/src/token-issuer.ts.
    The theorems relate it to what the scopes mean at run time
    (ScopeEvaluator.v): capabilities that pass the check permit no request the
    parent's capabilities do not permit. *)
From S2P Require Import Prelude JsValue Time Authorization ScopeEvaluator.

(** ** The dimension of a scope *)

Definition window_name (w : window) : string :=
  match w with hour => "hour" | day => "day" | week => "week" | month => "month" end.

Definition scopeMatchKey (s : Scope) : string :=
  match s with
  | AllowlistScope field _ => "allowlist:" +:+ field
  | NumericLimitScope field _ _ => "numeric_limit:" +:+ field
  | TemporalScope _ _ _ => "temporal_scope"
  | CumulativeLimitScope mf _ w _ =>
      "cumulative_limit:" +:+ mf_metric mf +:+ ":" +:+ window_name w
  | OtherScope t => "__unknown__:" +:+ t
  end.

(** ** Time ranges, by minutes *)

(** [for (let m = a; m < b; m++)] *)
Definition minute_range (a b : num) : list Z :=
  match a, b with Fin x, Fin y => seqZ x (y - x) | _, _ => [] end.

Definition expandToMinuteSet (startMin endMin : num) : list Z :=
  if num_leb startMin endMin then minute_range startMin endMin
  else minute_range startMin (Fin 1440) ++ minute_range (Fin 0) endMin.

Definition isTimeRangeSubset (childStart childEnd parentStart parentEnd : num) : bool :=
  let childSet := expandToMinuteSet childStart childEnd in
  let parentSet := expandToMinuteSet parentStart parentEnd in
  forallb (λ m, bool_decide (m ∈ parentSet)) childSet.

(** [isScopeSubset]: [None] stands for [true], [Some detail] for a failure.
    [deepEquals] on the [meterField] is equality of the records. *)
Definition recurringWindow_subset (child parent : RecurringWindow) : bool :=
  String.eqb (rw_timezone child) (rw_timezone parent)
  && match rw_daysOfWeek parent, rw_daysOfWeek child with
     | Some _, None => false
     | Some pd, Some cd => forallb (λ d, bool_decide (d ∈ pd)) cd
     | None, _ => true
     end
  && isTimeRangeSubset (parseHHMM (rw_startTime child)) (parseHHMM (rw_endTime child))
       (parseHHMM (rw_startTime parent)) (parseHHMM (rw_endTime parent)).

Definition isScopeSubset (child parent : Scope) : option AttenuationDetail :=
  match child, parent with
  | AllowlistScope cf cv, AllowlistScope pf pv =>
      if negb (String.eqb cf pf) then Some (allowlist_violation cf)
      else if forallb (λ v, bool_decide (v ∈ pv)) cv then None
      else Some (allowlist_violation cf)
  | NumericLimitScope cf cm _, NumericLimitScope pf pm _ =>
      if negb (String.eqb cf pf) then Some (numeric_limit_violation cf)
      else if num_gtb cm pm then Some (numeric_limit_violation cf)
      else None
  | TemporalScope cb ca crw, TemporalScope pb pa prw =>
      if str_ltb cb pb then Some (temporal_subset "notBefore")
      else if str_ltb pa ca then Some (temporal_subset "notAfter")
      else match prw, crw with
           | Some _, None => Some (temporal_subset "recurringWindow")
           | _, None => None
           | None, Some _ => None
           | Some p, Some c =>
               if recurringWindow_subset c p then None
               else Some (temporal_subset "recurringWindow")
           end
  | CumulativeLimitScope cmf cm cw cc, CumulativeLimitScope pmf pm pw pc =>
      if negb (bool_decide (cmf = pmf)) then Some (cumulative_subset "meterField")
      else if num_gtb cm pm then Some (cumulative_subset "max")
      else if negb (bool_decide (cw = pw)) then Some (cumulative_subset "window")
      else if negb (bool_decide (cc = pc)) then Some (cumulative_subset "currency")
      else None
  | c, _ => Some (scope_type_unknown (scope_type c))
  end.

Definition isPhase2ScopeType (type : string) : bool :=
  String.eqb type "temporal_scope" || String.eqb type "cumulative_limit".

(** ** Pre-checks *)

Definition emptyAllowlistDetail (s : side) (caps : list Capability) : option AttenuationDetail :=
  first_some (λ cap,
    match cap_scope cap with
    | AllowlistScope field [] => Some (empty_allowlist s (cap_action cap) field)
    | _ => None
    end) caps.

Fixpoint duplicateDimension_loop (s : side) (seenByAction : gmap string (gset string))
    (caps : list Capability) : option AttenuationDetail :=
  match caps with
  | [] => None
  | cap :: caps' =>
      let key := scopeMatchKey (cap_scope cap) in
      match seenByAction !! cap_action cap with
      | None => duplicateDimension_loop s (<[cap_action cap := {[key]}]> seenByAction) caps'
      | Some seen =>
          if bool_decide (key ∈ seen) then Some (duplicate_dimension s (cap_action cap) key)
          else duplicateDimension_loop s (<[cap_action cap := {[key]} ∪ seen]> seenByAction) caps'
      end
  end.

Definition duplicateDimensionDetail (s : side) (caps : list Capability) : option AttenuationDetail :=
  duplicateDimension_loop s ∅ caps.

(** ** The check *)

(** [parentActionMap], [childActionMap]: action to scopes, in order. *)
Definition actionMap (caps : list Capability) : list (string * list Scope) :=
  foldl (λ m cap,
    map_set (cap_action cap) (default [] (map_get (cap_action cap) m) ++ [cap_scope cap]) m)
    [] caps.

(** [childDimMap], [parentDimMap]: dimension to scope. *)
Definition dimMap (scopes : list Scope) : list (string * Scope) :=
  foldl (λ m s, map_set (scopeMatchKey s) s m) [] scopes.

Definition mixed (versions : option (string * string)) (parentV childV type : string) : bool :=
  match versions with
  | Some (pv, cv) => String.eqb pv parentV && String.eqb cv childV && isPhase2ScopeType type
  | None => false
  end.

(** Rules 2a and 2b on one dimension of the parent. *)
Definition check_parent_dim (versions : option (string * string))
    (childDimMap : list (string * Scope)) (kp : string * Scope) : option AttenuationResult :=
  let '(key, parentScope) := kp in
  match map_get key childDimMap with
  | None => Some (AttenuationFail (mixed versions "0.2.0" "0.1.0" (scope_type parentScope))
                    (rule_2a key))
  | Some childScope =>
      match isScopeSubset childScope parentScope with
      | None => None
      | Some detail => Some (AttenuationFail false detail)
      end
  end.

(** Rule 2c on one dimension of the child. *)
Definition check_child_dim (versions : option (string * string))
    (parentDimMap : list (string * Scope)) (kc : string * Scope) : option AttenuationResult :=
  let '(key, childScope) := kc in
  match map_get key parentDimMap with
  | Some _ => None
  | None => Some (AttenuationFail (mixed versions "0.1.0" "0.2.0" (scope_type childScope))
                    (rule_2c key))
  end.

Definition check_action (versions : option (string * string))
    (parentActionMap : list (string * list Scope)) (ac : string * list Scope)
    : option AttenuationResult :=
  let '(action, childScopes) := ac in
  match map_get action parentActionMap with
  | None => None
  | Some parentScopes =>
      let childDimMap := dimMap childScopes in
      let parentDimMap := dimMap parentScopes in
      match first_some (check_parent_dim versions childDimMap) parentDimMap with
      | Some r => Some r
      | None => first_some (check_child_dim versions parentDimMap) childDimMap
      end
  end.

(** [versions] is [(parentSpecVersion, childSpecVersion)] when given. *)
Definition validateAttenuation (parentCapabilities childCapabilities : list Capability)
    (versions : option (string * string)) : AttenuationResult :=
  match emptyAllowlistDetail parent_side parentCapabilities with
  | Some d => AttenuationFail false d
  | None =>
  match emptyAllowlistDetail child_side childCapabilities with
  | Some d => AttenuationFail false d
  | None =>
  match duplicateDimensionDetail parent_side parentCapabilities with
  | Some d => AttenuationFail false d
  | None =>
  match duplicateDimensionDetail child_side childCapabilities with
  | Some d => AttenuationFail false d
  | None =>
  let parentActionMap := actionMap parentCapabilities in
  match first_some (λ child,
          match map_get (cap_action child) parentActionMap with
          | Some _ => None
          | None => Some (AttenuationFail false (rule_2a (cap_action child)))
          end) childCapabilities with
  | Some r => r
  | None =>
  match first_some (check_action versions parentActionMap) (actionMap childCapabilities) with
  | Some r => r
  | None => AttenuationOk
  end end end end end end.

(** The overload without versions returns a boolean. *)
Definition validateAttenuation_bool (parentCapabilities childCapabilities : list Capability) : bool :=
  match validateAttenuation parentCapabilities childCapabilities None with
  | AttenuationOk => true
  | AttenuationFail _ _ => false
  end.

(** ** Strings are totally ordered *)

Lemma str_compare_trans c a b t :
  String.compare a b = c → String.compare b t = c → String.compare a t = c.
Proof.
  revert b t. induction a as [|x a IH]; intros [|y b] [|z t]; simpl; try (intros; congruence).
  unfold Ascii.compare.
  destruct (N.compare_spec (N_of_ascii x) (N_of_ascii y)),
    (N.compare_spec (N_of_ascii y) (N_of_ascii z)); intros; subst; try congruence.
  all: repeat match goal with H : _ = N_of_ascii _ |- _ => rewrite H in * end.
  all: rewrite ?N.compare_refl; eauto.
  all: match goal with |- context [(?u ?= ?v)%N] => destruct (N.compare_spec u v) end; try lia; done.
Qed.

Lemma str_compare_refl a : String.compare a a = Eq.
Proof.
  induction a as [|x a IH]; [done|]. simpl. unfold Ascii.compare. by rewrite N.compare_refl.
Qed.

Lemma str_leb_iff a b : str_leb a b = true ↔ a = b ∨ String.compare a b = Lt.
Proof.
  unfold str_leb, String.leb.
  destruct (String.compare a b) eqn:E; split; try done.
  - intros _. left. by apply String.compare_eq_iff.
  - auto.
  - intros [->|?]; [|done]. by rewrite str_compare_refl in E.
Qed.

Lemma str_ltb_iff a b : str_ltb a b = true ↔ String.compare a b = Lt.
Proof. unfold str_ltb, String.ltb. by destruct (String.compare a b). Qed.

Lemma str_ltb_false a b : str_ltb a b = false ↔ str_leb b a = true.
Proof.
  unfold str_ltb, String.ltb, str_leb, String.leb. rewrite (String.compare_antisym b a).
  by destruct (String.compare a b).
Qed.

Lemma str_leb_trans a b t : str_leb a b = true → str_leb b t = true → str_leb a t = true.
Proof.
  rewrite !str_leb_iff. intros [->|H1] [->|H2]; auto. right. by eapply str_compare_trans.
Qed.

Lemma str_ltb_leb_trans t b c : str_ltb t b = true → str_leb b c = true → str_ltb t c = true.
Proof.
  rewrite !str_ltb_iff, str_leb_iff. intros H1 [<-|H2]; [done|]. by eapply str_compare_trans.
Qed.

(** ** Minute sets *)

Lemma elem_of_minutes x y m : m ∈ minute_range (Fin x) (Fin y) ↔ x <= m < y.
Proof. unfold minute_range. rewrite elem_of_seqZ. lia. Qed.

Lemma elem_of_expand a b m :
  m ∈ expandToMinuteSet (Fin a) (Fin b)
  ↔ (a <= b ∧ a <= m < b) ∨ (b < a ∧ (a <= m < 1440 ∨ 0 <= m < b)).
Proof.
  unfold expandToMinuteSet. simpl num_leb. destruct (Z.leb_spec a b).
  - rewrite elem_of_minutes. lia.
  - rewrite elem_of_app, !elem_of_minutes. lia.
Qed.

Lemma isTimeRangeSubset_spec cs ce ps pe :
  isTimeRangeSubset (Fin cs) (Fin ce) (Fin ps) (Fin pe) = true ↔
  ∀ m, m ∈ expandToMinuteSet (Fin cs) (Fin ce) → m ∈ expandToMinuteSet (Fin ps) (Fin pe).
Proof.
  unfold isTimeRangeSubset. rewrite forallb_forall. split.
  - intros Hall m Hm. rewrite list_elem_of_In in Hm. apply Hall in Hm.
    by apply bool_decide_eq_true in Hm.
  - intros Hall m Hm. apply bool_decide_eq_true, Hall. by rewrite list_elem_of_In.
Qed.

(** What the minute-set test says of the end points. *)
Lemma range_subset_bounds cs ce ps pe :
  0 <= cs < 1440 → 0 <= ce < 1440 → 0 <= ps < 1440 → 0 <= pe < 1440 → cs ≠ ce →
  isTimeRangeSubset (Fin cs) (Fin ce) (Fin ps) (Fin pe) = true →
  if ce <? cs then pe < ps ∧ ps <= cs ∧ ce <= pe
  else if pe <? ps then ps <= cs ∨ ce <= pe
  else ps <= cs ∧ ce <= pe.
Proof.
  rewrite isTimeRangeSubset_spec. intros Rcs Rce Rps Rpe Hne Hsub.
  assert (∀ m, (cs <= ce ∧ cs <= m < ce) ∨ (ce < cs ∧ (cs <= m < 1440 ∨ 0 <= m < ce)) →
               (ps <= pe ∧ ps <= m < pe) ∨ (pe < ps ∧ (ps <= m < 1440 ∨ 0 <= m < pe))) as H.
  { intros m. rewrite <- !elem_of_expand. apply Hsub. }
  pose proof (H cs). pose proof (H (ce - 1)). pose proof (H 1439). pose proof (H pe).
  pose proof (H 0).
  destruct (Z.ltb_spec ce cs); [|destruct (Z.ltb_spec pe ps)]; lia.
Qed.

(** ** Scopes: the static subset test implies the run-time implication *)

(** The child's window must not lie in the part after midnight of a parent's
    window that is restricted to days of the week, unless both cross
    midnight: the run-time check attributes that part to the previous day. *)
Definition midnight_safe (child parent : RecurringWindow) : Prop :=
  rw_daysOfWeek parent = None
  ∨ crosses_midnight child = crosses_midnight parent
  ∨ str_leb (rw_startTime parent) (rw_startTime child) = true.

Definition temporal_safe (child parent : Scope) : Prop :=
  match child, parent with
  | TemporalScope cb ca crw, TemporalScope pb pa prw =>
      calendar_timestamp cb = true ∧ calendar_timestamp ca = true
      ∧ calendar_timestamp pb = true ∧ calendar_timestamp pa = true
      ∧ ∀ c p, crw = Some c → prw = Some p → midnight_safe c p
  | _, _ => True
  end.

(** At every state, time and parameters, what [child] permits [parent] permits. *)
Definition scope_refines `{Intl} {W} (tr : option (CumulativeTracker W)) (child parent : Scope)
    : Prop :=
  ∀ p now w w', evaluator_accepts tr child p now w w' → ∃ w'', evaluator_accepts tr parent p now w w''.

Lemma recurringWindow_subset_bounds c p t :
  recurringWindow_subset c p = true →
  HH_MM_test (rw_startTime c) = true → HH_MM_test (rw_endTime c) = true →
  HH_MM_test (rw_startTime p) = true → HH_MM_test (rw_endTime p) = true →
  time_in_window c t = true →
  if crosses_midnight c then
    crosses_midnight p = true ∧ str_leb (rw_startTime p) (rw_startTime c) = true
    ∧ str_leb (rw_endTime c) (rw_endTime p) = true
  else if crosses_midnight p then
    str_leb (rw_startTime p) (rw_startTime c) = true ∨ str_leb (rw_endTime c) (rw_endTime p) = true
  else str_leb (rw_startTime p) (rw_startTime c) = true
       ∧ str_leb (rw_endTime c) (rw_endTime p) = true.
Proof.
  unfold recurringWindow_subset. intros [_ Hr]%andb_true_iff Hcs Hce Hps Hpe Ht.
  destruct (hhmm_range _ Hcs) as [Ecs ?], (hhmm_range _ Hce) as [Ece ?],
    (hhmm_range _ Hps) as [Eps ?], (hhmm_range _ Hpe) as [Epe ?].
  rewrite Ecs, Ece, Eps, Epe in Hr.
  assert (hhmm (rw_startTime c) ≠ hhmm (rw_endTime c)) as Hne.
  { intros E. unfold time_in_window, crosses_midnight in Ht.
    rewrite hhmm_ltb, E, Z.ltb_irrefl in Ht by done.
    apply andb_true_iff in Ht as [Ht1 Ht2].
    pose proof (str_ltb_leb_trans _ (rw_endTime c) (rw_startTime c) Ht2) as Hx.
    rewrite hhmm_leb, E, Z.leb_refl in Hx by done. specialize (Hx eq_refl).
    apply str_ltb_false in Ht1. congruence. }
  apply range_subset_bounds in Hr; [|done..].
  unfold crosses_midnight. rewrite !hhmm_ltb, !hhmm_leb by done.
  repeat match goal with |- context [if ?b then _ else _] => destruct b end;
    rewrite ?Z.leb_le, ?Z.ltb_lt; lia.
Qed.

(** Times and days allowed by the child's window are allowed by the parent's. *)
Lemma recurringWindow_subset_sound c p t d :
  recurringWindow_subset c p = true → midnight_safe c p →
  HH_MM_test (rw_startTime c) = true → HH_MM_test (rw_endTime c) = true →
  HH_MM_test (rw_startTime p) = true → HH_MM_test (rw_endTime p) = true →
  time_in_window c t = true → day_in_window c t d = true →
  time_in_window p t = true ∧ day_in_window p t d = true.
Proof.
  intros Hsub Hsafe Hcs Hce Hps Hpe Ht Hd.
  pose proof (recurringWindow_subset_bounds c p t Hsub Hcs Hce Hps Hpe Ht) as Hb.
  assert (∀ x, str_leb (rw_startTime p) (rw_startTime c) = true →
    str_leb (rw_startTime c) x = true → str_leb (rw_startTime p) x = true) as Hstart
    by (intros; by eapply str_leb_trans).
  assert (∀ x, str_leb (rw_endTime c) (rw_endTime p) = true →
    str_ltb x (rw_endTime c) = true → str_ltb x (rw_endTime p) = true) as Hend
    by (intros; by eapply str_ltb_leb_trans).
  assert (crosses_midnight p = true → str_leb (rw_startTime p) t = true →
          str_ltb t (rw_endTime p) = false) as Hlate.
  { intros Hx Hl. apply str_ltb_false. unfold crosses_midnight in Hx.
    eapply str_leb_trans; [|exact Hl]. apply str_leb_iff. right. by apply str_ltb_iff. }
  assert (time_in_window p t = true ∧ (effective_day p t d = effective_day c t d
            ∨ rw_daysOfWeek p = None)) as [HT HD].
  { unfold midnight_safe in Hsafe. unfold time_in_window, effective_day in *.
    destruct (crosses_midnight c) eqn:Cc, (crosses_midnight p) eqn:Cp.
    - destruct Hb as (_ & Hs & He). cbn [andb].
      destruct (str_ltb t (rw_endTime c)) eqn:Ec.
      + rewrite (Hend t He Ec), orb_true_r. auto.
      + rewrite orb_false_r in Ht. rewrite (Hstart t Hs Ht), (Hlate eq_refl (Hstart t Hs Ht)). auto.
    - by destruct Hb as (? & _).
    - apply andb_true_iff in Ht as [Ht1 Ht2]. cbn [andb].
      destruct (str_leb (rw_startTime p) (rw_startTime c)) eqn:Es.
      + rewrite (Hstart t eq_refl Ht1), (Hlate eq_refl (Hstart t eq_refl Ht1)). auto.
      + destruct Hb as [?|He]; [done|]. rewrite (Hend t He Ht2), orb_true_r.
        split; [done|]. right. by destruct Hsafe as [?|[?|?]].
    - destruct Hb as [Hs He]. apply andb_true_iff in Ht as [Ht1 Ht2].
      rewrite (Hstart t Hs Ht1), (Hend t He Ht2). auto. }
  split; [done|]. unfold day_in_window in *.
  unfold recurringWindow_subset in Hsub. apply andb_true_iff in Hsub as [[_ Hdays]%andb_true_iff _].
  destruct (rw_daysOfWeek p) as [pd|]; [|done]. destruct (rw_daysOfWeek c) as [cd|]; [|done].
  destruct HD as [->|?]; [|done]. apply bool_decide_eq_true in Hd. apply bool_decide_eq_true.
  rewrite forallb_forall in Hdays. apply list_elem_of_In, Hdays in Hd.
  by apply bool_decide_eq_true in Hd.
Qed.

Lemma num_gtb_false a b :
  is_finite a = true → is_finite b = true → num_gtb a b = false → num_leb a b = true.
Proof. intros Ha Hb. rewrite num_gtb_leb by done. by rewrite negb_false_iff. Qed.

Lemma scope_schema_max s m :
  scope_schema s = true →
  match s with NumericLimitScope _ m' _ | CumulativeLimitScope _ m' _ _ => m' = m | _ => False end →
  is_finite m = true.
Proof.
  destruct s; try done; simpl; intros Hs ->; reflect_bools;
    unfold nonneg_number in *; reflect_bools; done.
Qed.

Section soundness.
Context `{Intl} {W : Type} (tr : option (CumulativeTracker W)).
Context (tr_laws : ∀ T, tr = Some T → TrackerLaws T).

Lemma temporal_subset_sound cb ca crw pb pa prw :
  isScopeSubset (TemporalScope cb ca crw) (TemporalScope pb pa prw) = None →
  scope_schema (TemporalScope pb pa prw) = true →
  temporal_safe (TemporalScope cb ca crw) (TemporalScope pb pa prw) →
  scope_refines tr (TemporalScope cb ca crw) (TemporalScope pb pa prw).
Proof.
  cbn [isScopeSubset temporal_safe]. intros Hsub Hsch (Ccb & Cca & Cpb & Cpa & Hsafe).
  destruct (str_ltb cb pb) eqn:E1; [done|]. destruct (str_ltb pa ca) eqn:E2; [done|].
  apply str_ltb_false in E1, E2.
  rewrite (proj2 (calendar_order _ _ Cpb Ccb)) in E1.
  rewrite (proj2 (calendar_order _ _ Cca Cpa)) in E2.
  intros p now w w' (-> & Hnb & Hna & Hrw). exists w. simpl.
  destruct (calendar_getTime _ Ccb) as [tcb Tcb], (calendar_getTime _ Cca) as [tca Tca],
    (calendar_getTime _ Cpb) as [tpb Tpb], (calendar_getTime _ Cpa) as [tpa Tpa].
  unfold dateNum in *. rewrite Tcb, Tca, Tpb, Tpa in *. cbn [num_of_date num_leb] in *.
  split_and!; [done| | |].
  - destruct now as [t|]; [|done]. simpl in *. reflect_bools. apply Z.ltb_ge. lia.
  - destruct now as [t|]; [|done]. simpl in *. reflect_bools. apply Z.leb_gt. lia.
  - intros rp ->. destruct crw as [rc|]; [|done].
    destruct (recurringWindow_subset rc rp) eqn:Hs; [|done].
    simpl in Hsch. apply andb_true_iff in Hsch as [_ Hsch]. unfold recurringWindow_schema in Hsch.
    reflect_bools.
    destruct (Hrw rc eq_refl) as (Hcs & Hce & Htz & t & d & -> & Hd & HT & HD).
    assert (rw_timezone rc = rw_timezone rp) as Etz.
    { unfold recurringWindow_subset in Hs. by reflect_bools. }
    rewrite Etz in *. split_and!; [done..|]. exists t, d. split_and!; [done..| |];
      by eapply (recurringWindow_subset_sound rc rp); eauto.
Qed.

(** The heart of attenuation: a child scope that passes [isScopeSubset] refines
    the parent scope. *)
Lemma isScopeSubset_sound child parent :
  isScopeSubset child parent = None →
  scope_schema child = true → scope_schema parent = true → temporal_safe child parent →
  scope_refines tr child parent.
Proof.
  destruct child as [cf cv|cf cm cc|cb ca crw|cmf cm cw cc|ct],
    parent as [pf pv|pf pm pc|pb pa prw|pmf pm pw pc|pt]; try done.
  - cbn [isScopeSubset]. destruct (String.eqb_spec cf pf) as [->|]; [|done]. cbn [negb].
    destruct (forallb _ cv) eqn:Hv; [|done]. intros _ _ _ _ p now w w' (-> & v & c & Hp & Hc & Hm).
    exists w. split; [done|]. exists v, c. split_and!; [done| |done].
    rewrite forallb_forall in Hv. apply list_elem_of_In, Hv in Hc. by apply bool_decide_eq_true in Hc.
  - cbn [isScopeSubset]. destruct (String.eqb_spec cf pf) as [->|]; [|done]. cbn [negb].
    destruct (num_gtb cm pm) eqn:Hgt; [done|]. intros _ Sc Sp _ p now w w' [-> Hp].
    exists w. split; [done|]. destruct Hp as [?|[?|(n & ? & Hn)]]; [by auto..|].
    right; right. exists n. split; [done|]. eapply num_leb_trans; [exact Hn|].
    apply num_gtb_false; [by eapply (scope_schema_max _ _ Sc)|by eapply (scope_schema_max _ _ Sp)|done].
  - intros. by apply temporal_subset_sound.
  - cbn [isScopeSubset]. case_bool_decide as Em; [|done]. destruct (num_gtb cm pm) eqn:Hgt; [done|].
    case_bool_decide as Ew; [|done]. subst pmf pw. intros _ Sc Sp _ p now w w'
      (T & entry & amount & r & -> & Hsrc & Hreg & Ham & Hcr & Hr).
    destruct (tr_laws T eq_refl) as [Hmono].
    assert (num_leb cm pm = true) as Hle
      by (apply num_gtb_false; [by eapply (scope_schema_max _ _ Sc)|by eapply (scope_schema_max _ _ Sp)|done]).
    destruct (Hmono _ _ _ _ _ _ _ _ _ _ _ Hle Hcr Hr) as (r' & Hcr' & Hr').
    destruct (checkAndReserve T _ _ _ _ _ pm amount w) as [x w''] eqn:E. simpl in Hcr'. subst x.
    exists w'', T, entry, amount, r'. done.
Qed.
End soundness.

(** ** The declarative rule *)

Definition scopes_for (a : string) (caps : list Capability) : list Scope :=
  cap_scope <$> filter (λ c, cap_action c = a) caps.

Definition dims_unique (caps : list Capability) : Prop :=
  ∀ a, NoDup (scopeMatchKey <$> scopes_for a caps).

Definition no_empty_allowlist (caps : list Capability) : Prop :=
  ∀ c field, c ∈ caps → cap_scope c ≠ AllowlistScope field [].

(** What the delegation specification asks of a child's capabilities. *)
Record attenuates (parent child : list Capability) : Prop := {
  att_parent_nonempty : no_empty_allowlist parent;
  att_child_nonempty : no_empty_allowlist child;
  att_parent_unique : dims_unique parent;
  att_child_unique : dims_unique child;
  (** rule 1: no new action *)
  att_actions c : c ∈ child → ∃ p, p ∈ parent ∧ cap_action p = cap_action c;
  (** rules 2a and 2b: every parent dimension of a delegated action is kept,
      and narrowed *)
  att_kept p : p ∈ parent → (∃ c, c ∈ child ∧ cap_action c = cap_action p) →
    ∃ c, c ∈ child ∧ cap_action c = cap_action p
         ∧ scopeMatchKey (cap_scope c) = scopeMatchKey (cap_scope p)
         ∧ isScopeSubset (cap_scope c) (cap_scope p) = None;
  (** rule 2c: no new dimension *)
  att_no_new c : c ∈ child →
    ∃ p, p ∈ parent ∧ cap_action p = cap_action c
         ∧ scopeMatchKey (cap_scope p) = scopeMatchKey (cap_scope c) }.

Lemma elem_of_scopes_for a caps s :
  s ∈ scopes_for a caps ↔ ∃ c, c ∈ caps ∧ cap_action c = a ∧ cap_scope c = s.
Proof.
  unfold scopes_for. rewrite list_elem_of_fmap. setoid_rewrite list_elem_of_filter. naive_solver.
Qed.

Lemma scopes_for_cons a c caps :
  scopes_for a (c :: caps)
  = if decide (cap_action c = a) then cap_scope c :: scopes_for a caps else scopes_for a caps.
Proof. unfold scopes_for. rewrite filter_cons. by case_decide. Qed.

Lemma scopes_for_snoc a caps c :
  scopes_for a (caps ++ [c])
  = scopes_for a caps ++ if decide (cap_action c = a) then [cap_scope c] else [].
Proof.
  unfold scopes_for. rewrite filter_app, fmap_app. f_equal. rewrite filter_cons, filter_nil.
  by case_decide.
Qed.

Lemma actionMap_get a caps :
  map_get a (actionMap caps) = match scopes_for a caps with [] => None | l => Some l end.
Proof.
  induction caps as [|c caps IH] using rev_ind; [done|].
  unfold actionMap. rewrite foldl_app. fold (actionMap caps). cbn [foldl].
  rewrite map_get_set, scopes_for_snoc.
  destruct (String.eqb_spec (cap_action c) a) as [<-|Hne].
  - rewrite decide_True by done. rewrite IH. destruct (scopes_for (cap_action c) caps); done.
  - rewrite decide_False by done. by rewrite app_nil_r.
Qed.

Lemma actionMap_NoDup caps : NoDup (actionMap caps).*1.
Proof.
  induction caps as [|c caps IH] using rev_ind; [constructor|].
  unfold actionMap. rewrite foldl_app. by apply map_set_NoDup.
Qed.

Lemma dimMap_NoDup scopes : NoDup (dimMap scopes).*1.
Proof.
  induction scopes as [|c scopes IH] using rev_ind; [constructor|].
  unfold dimMap. rewrite foldl_app. by apply map_set_NoDup.
Qed.

Lemma dimMap_get scopes k s :
  NoDup (scopeMatchKey <$> scopes) →
  map_get k (dimMap scopes) = Some s ↔ s ∈ scopes ∧ scopeMatchKey s = k.
Proof.
  induction scopes as [|c scopes IH] using rev_ind; intros Hnd;
    [split; [done|by intros [?%elem_of_nil _]]|].
  rewrite fmap_app in Hnd. apply NoDup_app in Hnd as (Hnd & Hnin & _). specialize (IH Hnd).
  unfold dimMap. rewrite foldl_app. fold (dimMap scopes). cbn [foldl].
  rewrite map_get_set, elem_of_app, list_elem_of_singleton.
  destruct (String.eqb_spec (scopeMatchKey c) k) as [<-|Hne].
  - split; [intros [= ->]; auto|]. intros [[Hs| ->] Hk]; [|done]. exfalso.
    eapply (Hnin (scopeMatchKey c)); [|simpl; by left]. rewrite <- Hk. by apply list_elem_of_fmap_2.
  - rewrite IH. split; [naive_solver|]. by intros [[?| ->] ?].
Qed.

Lemma elem_of_dimMap scopes k s :
  NoDup (scopeMatchKey <$> scopes) →
  (k, s) ∈ dimMap scopes ↔ s ∈ scopes ∧ scopeMatchKey s = k.
Proof.
  intros Hnd. rewrite <- dimMap_get by done. split.
  - apply map_elem_get, dimMap_NoDup.
  - apply map_get_Some_elem.
Qed.

Lemma elem_of_actionMap caps a l :
  (a, l) ∈ actionMap caps ↔ l = scopes_for a caps ∧ l ≠ [].
Proof.
  split.
  - intros Hin%map_elem_get; [|apply actionMap_NoDup]. rewrite actionMap_get in Hin.
    destruct (scopes_for a caps) eqn:E; [done|]. by injection Hin as <-.
  - intros [-> Hne]. apply map_get_Some_elem. rewrite actionMap_get.
    by destruct (scopes_for a caps).
Qed.

Lemma duplicateDimension_loop_None s seen caps :
  duplicateDimension_loop s seen caps = None ↔
  ∀ a, NoDup (scopeMatchKey <$> scopes_for a caps)
       ∧ ∀ k, k ∈ scopeMatchKey <$> scopes_for a caps → k ∉ (default ∅ (seen !! a) : gset string).
Proof.
  revert seen. induction caps as [|c caps IH]; intros seen; cbn [duplicateDimension_loop].
  { split; [intros _ a; split; [constructor|by intros k ?%elem_of_nil]|done]. }
  set (key := scopeMatchKey (cap_scope c)).
  set (old := default ∅ (seen !! cap_action c) : gset string).
  assert (duplicateDimension_loop s (<[cap_action c := {[key]} ∪ old]> seen) caps = None ↔
    ∀ a, (NoDup (scopeMatchKey <$> scopes_for a caps)
       ∧ ∀ k, k ∈ scopeMatchKey <$> scopes_for a caps → k ∉ (default ∅ (seen !! a) : gset string)
         ∧ (cap_action c = a → k ≠ key))) as Hstep.
  { rewrite IH. apply forall_proper. intros a. apply and_iff_compat_l, forall_proper. intros k.
    destruct (decide (cap_action c = a)) as [<-|Hne].
    - rewrite lookup_insert_eq. simpl. unfold old. set_solver.
    - rewrite lookup_insert_ne by done. naive_solver. }
  transitivity (key ∉ old ∧ duplicateDimension_loop s (<[cap_action c:={[key]} ∪ old]> seen) caps = None).
  - unfold old. destruct (seen !! cap_action c) as [sn|]; simpl.
    + case_bool_decide; naive_solver.
    + rewrite union_empty_r_L. set_solver.
  - rewrite Hstep. setoid_rewrite scopes_for_cons. split.
    + intros [Hk Hall] a. destruct (Hall a) as [Hnd Hold]. case_decide as Ha; [subst a|naive_solver].
      rewrite fmap_cons. split.
      * apply NoDup_cons. split; [|done]. intros Hin. by destruct (Hold _ Hin) as [_ []].
      * intros k [->|Hin]%elem_of_cons; [done|]. by apply Hold.
    + intros Hall. split.
      * destruct (Hall (cap_action c)) as [_ Hx]. rewrite decide_True in Hx by done.
        apply Hx. rewrite fmap_cons. by left.
      * intros a. specialize (Hall a). case_decide as Ha; [|naive_solver].
        rewrite fmap_cons in Hall. destruct Hall as [[Hn Hnd]%NoDup_cons Hx]. split; [done|].
        intros k Hin. split; [apply Hx; by right|]. intros _ ->. done.
Qed.

Lemma duplicateDimensionDetail_None s caps :
  duplicateDimensionDetail s caps = None ↔ dims_unique caps.
Proof.
  unfold duplicateDimensionDetail, dims_unique. rewrite duplicateDimension_loop_None.
  apply forall_proper. intros a. rewrite lookup_empty. set_solver.
Qed.

Lemma emptyAllowlistDetail_None s caps :
  emptyAllowlistDetail s caps = None ↔ no_empty_allowlist caps.
Proof.
  unfold emptyAllowlistDetail, no_empty_allowlist. rewrite first_some_None. split.
  - intros Hall c f Hc E. specialize (Hall c Hc). by rewrite E in Hall.
  - intros Hall c Hc. specialize (Hall c). destruct (cap_scope c) as [f [|]| | | |]; try done.
    by destruct (Hall f).
Qed.

Lemma check_action_None v parent child a :
  dims_unique parent → dims_unique child → scopes_for a parent ≠ [] →
  check_action v (actionMap parent) (a, scopes_for a child) = None ↔
  (∀ ps, ps ∈ scopes_for a parent → ∃ cs, cs ∈ scopes_for a child
      ∧ scopeMatchKey cs = scopeMatchKey ps ∧ isScopeSubset cs ps = None)
  ∧ (∀ cs, cs ∈ scopes_for a child → ∃ ps, ps ∈ scopes_for a parent
      ∧ scopeMatchKey ps = scopeMatchKey cs).
Proof.
  intros Up Uc Hne. unfold check_action. rewrite actionMap_get.
  destruct (scopes_for a parent) as [|s0 l0] eqn:E; [done|]. rewrite <- E. clear Hne.
  set (pd := dimMap (scopes_for a parent)). set (cd := dimMap (scopes_for a child)).
  transitivity (first_some (check_parent_dim v cd) pd = None
                ∧ first_some (check_child_dim v pd) cd = None).
  { destruct (first_some (check_parent_dim v cd) pd); naive_solver. }
  rewrite !first_some_None. apply and_iff_compat_both || f_equiv.
  - split.
    + intros Hall ps Hps.
      assert ((scopeMatchKey ps, ps) ∈ pd) as Hin by (by apply elem_of_dimMap).
      specialize (Hall _ Hin). unfold check_parent_dim in Hall.
      destruct (map_get (scopeMatchKey ps) cd) as [cs|] eqn:Hg; [|done].
      apply dimMap_get in Hg as [? ?]; [|done].
      destruct (isScopeSubset cs ps) eqn:Hs; [done|]. eauto.
    + intros Hall [k ps] [Hin <-]%elem_of_dimMap; [|done].
      destruct (Hall ps Hin) as (cs & Hcs & Hk & Hs). unfold check_parent_dim.
      assert (map_get (scopeMatchKey ps) cd = Some cs) as -> by (by apply dimMap_get).
      by rewrite Hs.
  - split.
    + intros Hall cs Hcs.
      assert ((scopeMatchKey cs, cs) ∈ cd) as Hin by (by apply elem_of_dimMap).
      specialize (Hall _ Hin). unfold check_child_dim in Hall.
      destruct (map_get (scopeMatchKey cs) pd) as [ps|] eqn:Hg; [|done].
      apply dimMap_get in Hg as [? ?]; [|done]. eauto.
    + intros Hall [k cs] [Hin <-]%elem_of_dimMap; [|done].
      destruct (Hall cs Hin) as (ps & Hps & Hk). unfold check_child_dim.
      assert (map_get (scopeMatchKey cs) pd = Some ps) as -> by (by apply dimMap_get). done.
Qed.

Lemma rule1_None parent child :
  first_some (λ c, match map_get (cap_action c) (actionMap parent) with
                   | Some _ => None
                   | None => Some (AttenuationFail false (rule_2a (cap_action c)))
                   end) child = None
  ↔ ∀ c, c ∈ child → scopes_for (cap_action c) parent ≠ [].
Proof.
  rewrite first_some_None. apply forall_proper. intros c.
  rewrite actionMap_get. destruct (scopes_for (cap_action c) parent); naive_solver.
Qed.

Lemma scopes_for_nonempty a caps :
  scopes_for a caps ≠ [] ↔ ∃ c, c ∈ caps ∧ cap_action c = a.
Proof.
  split.
  - destruct (scopes_for a caps) as [|s l] eqn:E; [done|]. intros _.
    assert (s ∈ scopes_for a caps) as (c & ? & ? & _)%elem_of_scopes_for by (rewrite E; left). eauto.
  - intros (c & Hc & Ha) E.
    assert (cap_scope c ∈ scopes_for a caps) as Hin by (apply elem_of_scopes_for; eauto).
    rewrite E in Hin. by apply elem_of_nil in Hin.
Qed.

Lemma rule2_None v parent child :
  dims_unique parent → dims_unique child →
  (∀ c, c ∈ child → scopes_for (cap_action c) parent ≠ []) →
  first_some (check_action v (actionMap parent)) (actionMap child) = None ↔
  (∀ p, p ∈ parent → (∃ c, c ∈ child ∧ cap_action c = cap_action p) →
     ∃ c, c ∈ child ∧ cap_action c = cap_action p
         ∧ scopeMatchKey (cap_scope c) = scopeMatchKey (cap_scope p)
         ∧ isScopeSubset (cap_scope c) (cap_scope p) = None)
  ∧ (∀ c, c ∈ child → ∃ p, p ∈ parent ∧ cap_action p = cap_action c
         ∧ scopeMatchKey (cap_scope p) = scopeMatchKey (cap_scope c)).
Proof.
  intros Up Uc Hact. rewrite first_some_None.
  transitivity (∀ a, (∃ c, c ∈ child ∧ cap_action c = a) →
    check_action v (actionMap parent) (a, scopes_for a child) = None).
  { setoid_rewrite <- scopes_for_nonempty. split.
    - intros Hall a Ha. apply Hall, elem_of_actionMap. done.
    - intros Hall [a l] [-> ?]%elem_of_actionMap. auto. }
  split.
  - intros Hall. split.
    + intros p Hp Hex. destruct Hex as (c0 & Hc0 & Ha0).
      specialize (Hall (cap_action p) (ex_intro _ c0 (conj Hc0 Ha0))).
      rewrite check_action_None in Hall by (try done; rewrite <- Ha0; auto).
      destruct Hall as [Hkept _].
      destruct (Hkept (cap_scope p)) as (cs & Hcs & ? & ?); [apply elem_of_scopes_for; eauto|].
      apply elem_of_scopes_for in Hcs as (c & ? & ? & <-). eauto.
    + intros c Hc. specialize (Hall (cap_action c) (ex_intro _ c (conj Hc eq_refl))).
      rewrite check_action_None in Hall by auto. destruct Hall as [_ Hnew].
      destruct (Hnew (cap_scope c)) as (ps & Hps & ?); [apply elem_of_scopes_for; eauto|].
      apply elem_of_scopes_for in Hps as (p & ? & ? & <-). eauto.
  - intros [Hkept Hnew] a (c0 & Hc0 & <-). rewrite check_action_None by auto. split.
    + intros ps (p & Hp & Ha & <-)%elem_of_scopes_for.
      destruct (Hkept p Hp) as (c & ? & Hac & ? & ?); [by eauto|].
      exists (cap_scope c). rewrite elem_of_scopes_for. split; [|done]. exists c. by rewrite Hac, Ha.
    + intros cs (c & Hc & Ha & <-)%elem_of_scopes_for.
      destruct (Hnew c Hc) as (p & ? & Hap & ?).
      exists (cap_scope p). rewrite elem_of_scopes_for. split; [|done]. exists p. by rewrite Hap, Ha.
Qed.

Lemma check_action_fail v m al : check_action v m al ≠ Some AttenuationOk.
Proof.
  destruct al as [a l]. unfold check_action. destruct (map_get a m) as [ps|]; [|done].
  destruct (first_some (check_parent_dim _ _) _) as [r|] eqn:E.
  - intros [= ->]. apply first_some_Some in E as ([k s] & _ & E). unfold check_parent_dim in E.
    destruct (map_get k _); [|done]. by destruct (isScopeSubset _ _).
  - intros ([k s] & _ & E')%first_some_Some. unfold check_child_dim in E'. by destruct (map_get k _).
Qed.

Lemma validateAttenuation_ok v parent child :
  validateAttenuation parent child v = AttenuationOk ↔ attenuates parent child.
Proof.
  unfold validateAttenuation. split.
  - destruct (emptyAllowlistDetail parent_side parent) eqn:E1; [done|].
    destruct (emptyAllowlistDetail child_side child) eqn:E2; [done|].
    destruct (duplicateDimensionDetail parent_side parent) eqn:E3; [done|].
    destruct (duplicateDimensionDetail child_side child) eqn:E4; [done|].
    destruct (first_some _ child) as [r|] eqn:E5.
    { apply first_some_Some in E5 as (c & _ & E5). destruct (map_get _ _); [done|].
      injection E5 as <-. done. }
    destruct (first_some _ (actionMap child)) as [r|] eqn:E6.
    { apply first_some_Some in E6 as ([a l] & _ & E6). intros ->. by apply check_action_fail in E6. }
    intros _. apply emptyAllowlistDetail_None in E1, E2. apply duplicateDimensionDetail_None in E3, E4.
    rewrite rule1_None in E5. rewrite rule2_None in E6 by done. destruct E6.
    split; try done. intros c Hc. apply scopes_for_nonempty. auto.
  - intros [H1 H2 H3 H4 H5 H6 H7].
    rewrite (proj2 (emptyAllowlistDetail_None _ _) H1), (proj2 (emptyAllowlistDetail_None _ _) H2),
      (proj2 (duplicateDimensionDetail_None _ _) H3), (proj2 (duplicateDimensionDetail_None _ _) H4).
    assert (∀ c, c ∈ child → scopes_for (cap_action c) parent ≠ []) as Hr1.
    { intros c Hc. apply scopes_for_nonempty. auto. }
    rewrite (proj2 (rule1_None parent child) Hr1).
    by rewrite (proj2 (rule2_None v parent child H3 H4 Hr1) (conj H6 H7)).
Qed.

(** ** Attenuation is a preorder on schema-valid capabilities *)

Lemma forallb_subset {A} `{EqDecision A} (l k : list A) :
  forallb (λ x, bool_decide (x ∈ k)) l = true ↔ l ⊆ k.
Proof.
  rewrite forallb_forall. split.
  - intros Hall x Hx%list_elem_of_In. by apply Hall, bool_decide_eq_true in Hx.
  - intros Hs x Hx%list_elem_of_In. apply bool_decide_eq_true. auto.
Qed.

Lemma isTimeRangeSubset_trans a1 b1 a2 b2 a3 b3 :
  isTimeRangeSubset a1 b1 a2 b2 = true → isTimeRangeSubset a2 b2 a3 b3 = true →
  isTimeRangeSubset a1 b1 a3 b3 = true.
Proof. unfold isTimeRangeSubset. rewrite !forallb_subset. by intros ->. Qed.

Lemma recurringWindow_subset_trans c b a :
  recurringWindow_subset c b = true → recurringWindow_subset b a = true →
  recurringWindow_subset c a = true.
Proof.
  unfold recurringWindow_subset. intros Hcb Hba. reflect_bools.
  replace (rw_timezone c) with (rw_timezone a) by congruence. rewrite String.eqb_refl.
  rewrite (isTimeRangeSubset_trans _ _ (parseHHMM (rw_startTime b)) (parseHHMM (rw_endTime b)))
    by done.
  destruct (rw_daysOfWeek a), (rw_daysOfWeek b), (rw_daysOfWeek c); try done. simpl.
  rewrite andb_true_r, !forallb_subset in *. set_solver.
Qed.

Lemma num_gtb_trans c b a :
  is_finite c = true → is_finite b = true → is_finite a = true →
  num_gtb c b = false → num_gtb b a = false → num_gtb c a = false.
Proof.
  intros Fc Fb Fa. rewrite !num_gtb_leb, !negb_false_iff by done. apply num_leb_trans.
Qed.

Lemma str_ltb_trans_false c b a :
  str_ltb c b = false → str_ltb b a = false → str_ltb c a = false.
Proof. rewrite !str_ltb_false. eauto using str_leb_trans. Qed.

Lemma isScopeSubset_trans c b a :
  scope_schema c = true → scope_schema b = true → scope_schema a = true →
  isScopeSubset c b = None → isScopeSubset b a = None → isScopeSubset c a = None.
Proof.
  destruct c as [cf cv|cf cm cc|cb ca crw|cmf cm cw cc|ct],
    b as [bf bv|bf bm bc|bb ba brw|bmf bm bw bc|bt],
    a as [af av|af am ac|ab aa arw|amf am aw ac|at_]; try done;
    intros Sc Sb Sa; cbn [isScopeSubset].
  - destruct (String.eqb_spec cf bf) as [->|]; [|done]. destruct (String.eqb_spec bf af); [|done].
    cbn [negb]. destruct (forallb _ cv) eqn:E1; [|done]. destruct (forallb _ bv) eqn:E2; [|done].
    intros _ _. apply forallb_subset in E1, E2.
    by rewrite (proj2 (forallb_subset cv av)) by set_solver.
  - destruct (String.eqb_spec cf bf) as [->|]; [|done]. destruct (String.eqb_spec bf af); [|done].
    cbn [negb]. destruct (num_gtb cm bm) eqn:E1; [done|]. destruct (num_gtb bm am) eqn:E2; [done|].
    by rewrite (num_gtb_trans cm bm am (scope_schema_max _ cm Sc eq_refl)
      (scope_schema_max _ bm Sb eq_refl) (scope_schema_max _ am Sa eq_refl)).
  - destruct (str_ltb cb bb) eqn:E1; [done|]. destruct (str_ltb bb ab) eqn:E2; [done|].
    destruct (str_ltb ba ca) eqn:E3; [done|]. destruct (str_ltb aa ba) eqn:E4; [done|].
    rewrite (str_ltb_trans_false cb bb ab), (str_ltb_trans_false aa ba ca) by done.
    destruct arw as [ar|], brw as [br|], crw as [cr|]; try done.
    destruct (recurringWindow_subset cr br) eqn:E5; [|done].
    destruct (recurringWindow_subset br ar) eqn:E6; [|done].
    by rewrite (recurringWindow_subset_trans cr br ar).
  - case_bool_decide as M1; [|done]. destruct (num_gtb cm bm) eqn:E1; [done|].
    case_bool_decide as W1; [|done]. case_bool_decide as C1; [|done]. intros _. cbn [negb].
    case_bool_decide as M2; [|done]. destruct (num_gtb bm am) eqn:E2; [done|].
    case_bool_decide as W2; [|done]. case_bool_decide as C2; [|done]. intros _. subst.
    rewrite bool_decide_eq_true_2, bool_decide_eq_true_2, bool_decide_eq_true_2 by done. cbn [negb].
    by rewrite (num_gtb_trans cm bm am (scope_schema_max _ cm Sc eq_refl)
      (scope_schema_max _ bm Sb eq_refl) (scope_schema_max _ am Sa eq_refl)).
Qed.

Lemma capability_schema_scope c : capability_schema c = true → scope_schema (cap_scope c) = true.
Proof. unfold capability_schema. intros. by reflect_bools. Qed.

(** Attenuation composes along a chain of delegations. *)
Lemma attenuates_trans a b c :
  Forall (λ x, capability_schema x = true) a → Forall (λ x, capability_schema x = true) b →
  Forall (λ x, capability_schema x = true) c →
  attenuates a b → attenuates b c → attenuates a c.
Proof.
  rewrite !Forall_forall. intros Sa Sb Sc [Ea _ Ua _ A1 K1 N1] [_ Ec _ Uc A2 K2 N2].
  assert (∀ c0, c0 ∈ c → ∃ p, p ∈ a ∧ cap_action p = cap_action c0) as A3.
  { intros c0 Hc0. destruct (A2 _ Hc0) as (b0 & Hb0 & Eb). destruct (A1 _ Hb0) as (a0 & ? & ?).
    exists a0. split; [done|congruence]. }
  split; try done.
  - intros p Hp (c0 & Hc0 & Ec0). destruct (A2 _ Hc0) as (b0 & Hb0 & Eb0).
    destruct (K1 p Hp) as (b1 & Hb1 & Eb1 & Kb1 & Sb1); [exists b0; split; congruence|].
    destruct (K2 b1 Hb1) as (c1 & Hc1 & Ec1 & Kc1 & Sc1); [exists c0; split; congruence|].
    exists c1. split_and!; [done|congruence|congruence|].
    apply (isScopeSubset_trans _ (cap_scope b1)); [apply capability_schema_scope..|done|done]; auto.
  - intros c0 Hc0. destruct (N2 _ Hc0) as (b0 & Hb0 & ? & ?). destruct (N1 _ Hb0) as (a0 & ? & ? & ?).
    exists a0. split_and!; congruence.
Qed.

(** ** Requests *)

(** The capabilities permit the request: some capability is for the action,
    and the scope evaluator allows the request under every scope given for it
    (the conjunction the runtime guard evaluates). *)
Definition request_permitted `{Intl} {W} (tr : option (CumulativeTracker W))
    (caps : list Capability) (action : string) (p : params) (now : Date) (w : W) : Prop :=
  scopes_for action caps ≠ []
  ∧ ∀ s, s ∈ scopes_for action caps →
      ∃ r w', evaluate (new_ScopeEvaluator tr ∅) s p now w = (Ok r, w') ∧ allowed r = true.

Definition temporal_safe_all (parent child : list Capability) : Prop :=
  ∀ c p, c ∈ child → p ∈ parent → cap_action c = cap_action p →
    temporal_safe (cap_scope c) (cap_scope p).

(** The semantic content of the attenuation rules. *)
Lemma attenuates_sound `{Intl} {W} (tr : option (CumulativeTracker W)) parent child
    action p now w :
  (∀ T, tr = Some T → TrackerLaws T) →
  attenuates parent child →
  Forall (λ c, capability_schema c = true) parent →
  Forall (λ c, capability_schema c = true) child →
  temporal_safe_all parent child →
  request_permitted tr child action p now w → request_permitted tr parent action p now w.
Proof.
  rewrite !Forall_forall. intros HT [_ _ _ _ A K _] Sp Sc Hsafe [Hne Hall].
  apply scopes_for_nonempty in Hne as (c0 & Hc0 & <-). split.
  - apply scopes_for_nonempty. auto.
  - intros ps (pc & Hpc & Ha & <-)%elem_of_scopes_for.
    destruct (K pc Hpc) as (c & Hc & Hac & _ & Hsub); [by eauto|].
    destruct (Hall (cap_scope c)) as (r & w' & Hw').
    { apply elem_of_scopes_for. exists c. by rewrite Hac, Ha. }
    destruct (isScopeSubset_sound tr HT _ _ Hsub) with p now w w' as (w'' & Hw'');
      [eauto using capability_schema_scope..|apply evaluate_accepts; eauto|].
    apply evaluate_accepts in Hw'' as (r' & ? & ?). by exists r', w''.
Qed.

(** ** Theorems *)

(** [validateAttenuation] decides the attenuation rules: with or without
    version information it accepts exactly when neither side has an empty
    allowlist or a duplicate dimension, every child action is a parent action,
    every parent dimension of a delegated action is kept and narrowed, and no
    dimension is introduced. *)
Theorem attenuation_rules_exact versions parent child :
  (validateAttenuation parent child versions = AttenuationOk ↔ attenuates parent child)
  ∧ (validateAttenuation_bool parent child = true ↔ attenuates parent child).
Proof.
  split; [apply validateAttenuation_ok|]. rewrite <- (validateAttenuation_ok None).
  unfold validateAttenuation_bool. by destruct (validateAttenuation parent child None).
Qed.

(** C3.  Delegation never widens authority: when a child's capabilities pass
    [validateAttenuation] against its parent's, every request the child's
    capabilities permit, at any time, under any parameters and from any state
    of the cumulative tracker, is permitted by the parent's.  Conditions: both
    lists satisfy the schema; the tracker, where there is one, admits under a
    larger limit what it admits under a smaller one ([TrackerLaws]); and for
    temporal scopes of one action the bounds are dates of the calendar and no
    child window sits in the after-midnight part of a parent window restricted
    to days of the week ([temporal_safe_all]; without this the claim fails,
    [attenuation_midnight_gap]). *)
Theorem attenuation_sound `{Intl} {W} (tr : option (CumulativeTracker W)) versions parent child
    action p now w :
  (∀ T, tr = Some T → TrackerLaws T) →
  validateAttenuation parent child versions = AttenuationOk →
  Forall (λ c, capability_schema c = true) parent →
  Forall (λ c, capability_schema c = true) child →
  temporal_safe_all parent child →
  request_permitted tr child action p now w → request_permitted tr parent action p now w.
Proof. intros HT Hv%validateAttenuation_ok. by apply attenuates_sound. Qed.

Definition parent_caps : list Capability :=
  [mkCapability "CONFIRM" (NumericLimitScope "amount" (Fin 500) (Some "USD"));
   mkCapability "CONFIRM" (AllowlistScope "vendor" ["*.example.com"; "acme"]);
   mkCapability "QUOTE" (AllowlistScope "vendor" ["acme"])].
Definition child_caps : list Capability :=
  [mkCapability "CONFIRM" (NumericLimitScope "amount" (Fin 100) (Some "USD"));
   mkCapability "CONFIRM" (AllowlistScope "vendor" ["*.example.com"])].
Definition sample_request : params :=
  <["amount" := VNum (Fin 99)]> {["vendor" := VStr "shop.example.com"]}.

Lemma attenuation_sound_witness :
  request_permitted (W := unit) None parent_caps "CONFIRM" sample_request (Some 0) tt.
Proof.
  apply (attenuation_sound None None parent_caps child_caps).
  - done.
  - vm_compute. reflexivity.
  - repeat constructor.
  - repeat constructor.
  - intros c p Hc Hp. revert c p Hc Hp.
    unfold child_caps, parent_caps. intros c p.
    rewrite !elem_of_cons, elem_of_nil. by intros [->|[->|[]]] [->|[->|[->|[]]]].
  - split; [done|]. intros s Hs. exists allow, tt.
    change (scopes_for "CONFIRM" child_caps)
      with [NumericLimitScope "amount" (Fin 100) (Some "USD"); AllowlistScope "vendor" ["*.example.com"]] in Hs.
    rewrite !elem_of_cons, elem_of_nil in Hs.
    destruct Hs as [->|[->|[]]]; (split; [vm_compute; reflexivity|done]).
Defined.

(** The day-of-week gap at midnight: a parent window from 22:00 to 06:00
    on Mondays and a child window from 01:00 to 05:00 on Mondays pass
    [validateAttenuation] and the schema, yet on Monday at 02:00 the child
    permits a request the parent denies, because the parent's hours after
    midnight belong to the previous day. *)
Theorem attenuation_midnight_gap :
  ∃ parent child now,
    validateAttenuation parent child (Some ("0.2.0", "0.2.0")) = AttenuationOk
    ∧ capabilities_schema parent = true ∧ capabilities_schema child = true
    ∧ request_permitted (W := unit) None child "CONFIRM" ∅ now tt
    ∧ ¬ request_permitted (W := unit) None parent "CONFIRM" ∅ now tt.
Proof.
  set (scope s e := TemporalScope "2026-01-01T00:00:00.000Z" "2027-01-01T00:00:00.000Z"
                      (Some (mkRecurringWindow s e (Some [1]) "UTC"))).
  exists [mkCapability "CONFIRM" (scope "22:00" "06:00")],
    [mkCapability "CONFIRM" (scope "01:00" "05:00")], (Some 1767578400000).
  split_and!; [vm_compute; reflexivity..| |].
  - split; [done|]. intros s Hs. change (s ∈ [scope "01:00" "05:00"]) in Hs.
    apply list_elem_of_singleton in Hs as ->. exists allow, tt. split; [vm_compute; reflexivity|done].
  - intros [_ Hall]. destruct (Hall (scope "22:00" "06:00")) as (r & w' & E & Ha); [by left|].
    vm_compute in E. injection E as <- _. done.
Qed.
