(* ===== verification/CapabilityToken.v ===== *)
(** * Capability tokens: issue, delegate, verify

    [issueCapabilityToken] and [delegateCapabilityToken]
    (packages/identity/src/token-issuer.ts), [verifyCapabilityToken] and
    [checkTokenForAction] (packages/identity/src/token-verifier.ts).  The
    identifiers drawn from [randomUUID] and the clock are arguments; the WHATWG
    URL parser is the class [UrlParser]. *)
From S2P Require Import Prelude JsValue Time Encoding Crypto Authorization ScopeEvaluator.
From S2P Require Import Attenuation.

(** [new URL(s)]: [None] when it throws, else the protocol and the host name. *)
Class UrlParser : Type := { parse_url : string → option (string * string) }.

(** [packages/identity/src/encoding-config.ts] *)
Definition IDENTITY_ENCODING : encoding := enc_base64url.

(** [s.replace(from, to)]: the first occurrence. *)
Fixpoint str_replace (s from to : string) : string :=
  if String.prefix from s
  then to +:+ String.substring (String.length from) (String.length s - String.length from) s
  else match s with
       | String.EmptyString => s
       | String.String c s' => String.String c (str_replace s' from to)
       end.

Definition isValidRevocationUrlTemplate `{UrlParser} (url : string) : bool :=
  if negb (str_includes url "{id}") then false
  else match parse_url (str_replace url "{id}" "placeholder") with
       | Some (protocol, hostname) =>
           String.eqb protocol "https:" && Nat.ltb 0 (String.length hostname)
       | None => false
       end.

Section tokens.
Context `{Primitives}.

(** ** token-issuer.ts *)

(** The bytes a token's proof signs: every field but the proof. *)
Definition createCapabilityTokenPayload (t : CapabilityToken) : res bytes :=
  s ← canonicalize jcs (tokenPayload_json t);
  mret (textEncode s).

(** The bytes a delegation proof signs. *)
Definition delegationPayloadBytes (p : DelegationProof) : res bytes :=
  s ← canonicalize jcs (VObj (signedPayload_fields p));
  mret (textEncode s).

Definition no_proof : TokenProof := mkTokenProof "" "" "".

Record IssueCapabilityTokenParams : Type := mkIssueParams {
  ip_issuerDid : string;
  ip_issuedTo : string;
  ip_capabilities : list Capability;
  ip_expiresAt : string;
  ip_revocationUrl : string;
  ip_issuerPrivateKey : string;
  ip_issuedAt : string }.

Definition set_proof (t : CapabilityToken) (p : TokenProof) : CapabilityToken :=
  mkCapabilityToken (ct_id t) (ct_specVersion t) (ct_issuerDid t) (ct_principalDid t)
    (ct_issuedTo t) (ct_issuedAt t) (ct_expiresAt t) (ct_capabilities t) (ct_revocationUrl t)
    p (ct_delegationChain t).

Definition issueCapabilityToken `{UrlParser} (randomUUID : string)
    (params : IssueCapabilityTokenParams) : res CapabilityToken :=
  let issuedAt := ip_issuedAt params in
  if negb (isDidKey (ip_issuerDid params)) then Throw "SIGNATURE_INVALID"
  else if negb (isDidAgent (ip_issuedTo params)) then Throw "IDENTITY_NOT_FOUND"
  else if Nat.eqb (length (ip_capabilities params)) 0 then Throw "SCOPE_EXCEEDED"
  else if isTimestampExpired (ip_expiresAt params) issuedAt then Throw "TOKEN_EXPIRED"
  else if negb (isValidRevocationUrlTemplate (ip_revocationUrl params)) then Throw "INTERNAL_ERROR"
  else
    let payload := mkCapabilityToken ("urn:cap:" +:+ randomUUID) SPEC_VERSION
      (ip_issuerDid params) (ip_issuerDid params) (ip_issuedTo params) issuedAt
      (ip_expiresAt params) (ip_capabilities params) (ip_revocationUrl params) no_proof None in
    bytes ← createCapabilityTokenPayload payload;
    value ← sign bytes (ip_issuerPrivateKey params) IDENTITY_ENCODING;
    mret (set_proof payload
            (mkTokenProof issuedAt (ip_issuerDid params +:+ "#key-1") value)).

Record DelegateTokenParams : Type := mkDelegateParams {
  dg_parentToken : CapabilityToken;
  dg_delegatorPrivateKey : string;
  dg_delegateeDid : string;
  dg_attenuatedCapabilities : list Capability;
  dg_expiresAt : string;
  dg_revocationUrl : string;
  dg_issuedAt : string;
  dg_dcVersion : option string }.

Definition set_dp_proof (p : DelegationProof) (proof : TokenProof) : DelegationProof :=
  mkDelegationProof (dp_parentTokenId p) (dp_delegatorDid p) (dp_delegateeDid p)
    (dp_parentCapabilities p) (dp_parentExpiresAt p) (dp_attenuatedCapabilities p)
    proof (dp_dcVersion p).

Definition delegateCapabilityToken `{UrlParser} (randomUUID : string)
    (params : DelegateTokenParams) : res CapabilityToken :=
  let issuedAt := dg_issuedAt params in
  let parentToken := dg_parentToken params in
  if negb (isDidAgent (dg_delegateeDid params)) then Throw "IDENTITY_NOT_FOUND"
  else if Nat.eqb (length (dg_attenuatedCapabilities params)) 0 then Throw "SCOPE_EXCEEDED"
  else if isTimestampExpired (dg_expiresAt params) issuedAt then Throw "TOKEN_EXPIRED"
  else if str_ltb (ct_expiresAt parentToken) (dg_expiresAt params) then Throw "TOKEN_EXPIRED"
  else if negb (isValidRevocationUrlTemplate (dg_revocationUrl params)) then Throw "INTERNAL_ERROR"
  else match validateAttenuation (ct_capabilities parentToken) (dg_attenuatedCapabilities params)
               (Some (ct_specVersion parentToken, SPEC_VERSION_0_2_0)) with
  | AttenuationFail _ _ => Throw "SCOPE_EXCEEDED"
  | AttenuationOk =>
      let currentDepth := (length (chain_of parentToken) + 1)%nat in
      if Nat.ltb MAX_DELEGATION_DEPTH currentDepth then Throw "SCOPE_EXCEEDED"
      else
        let delegatorDid := ct_issuedTo parentToken in
        let proofPayload := mkDelegationProof (ct_id parentToken) delegatorDid
          (dg_delegateeDid params) (ct_capabilities parentToken) (ct_expiresAt parentToken)
          (dg_attenuatedCapabilities params) no_proof (dg_dcVersion params) in
        proofBytes ← delegationPayloadBytes proofPayload;
        proofValue ← sign proofBytes (dg_delegatorPrivateKey params) IDENTITY_ENCODING;
        let delegationProof := set_dp_proof proofPayload
          (mkTokenProof issuedAt (delegatorDid +:+ "#key-1") proofValue) in
        let childPayload := mkCapabilityToken ("urn:cap:" +:+ randomUUID) SPEC_VERSION_0_2_0
          (ct_issuerDid parentToken) (ct_principalDid parentToken) (dg_delegateeDid params)
          issuedAt (dg_expiresAt params) (dg_attenuatedCapabilities params)
          (dg_revocationUrl params) no_proof
          (Some (chain_of parentToken ++ [delegationProof])) in
        bytes ← createCapabilityTokenPayload childPayload;
        value ← sign bytes (dg_delegatorPrivateKey params) IDENTITY_ENCODING;
        mret (set_proof childPayload
                (mkTokenProof issuedAt (delegatorDid +:+ "#key-1") value))
  end.

(** ** token-verifier.ts *)

Inductive TokenCode : Type :=
| TV_INVALID_TOKEN_FORMAT | TV_TOKEN_EXPIRED | TV_SIGNATURE_INVALID | TV_DELEGATION_CHAIN_INVALID.

Inductive TokenVerificationResult : Type :=
| token_valid
| token_invalid (code : TokenCode).

(** Try the current key, and the previous one when the artifact is old enough
    to have been signed with it. *)
Definition verify_dual (old_enough : string → bool) (payload : bytes) (signature : string)
    (keys : ResolvedPublicKeys) : res bool :=
  currentValid ← verify payload signature (rk_current keys);
  if currentValid : bool then mret true
  else match rk_previous keys, rk_previousValidBefore keys with
       | Some previous, Some before =>
           if old_enough before then verify payload signature previous else mret false
       | _, _ => mret false
       end.

(** [did.split('#')[0]] *)
Definition parseDidFromVerificationMethod (vm : string) : string := str_before "#" vm.

Definition verifyCapabilityToken (token : CapabilityToken) (now : string)
    (resolvedKeys : option ResolvedPublicKeys) : res TokenVerificationResult :=
  if negb (capabilityToken_schema token) then mret (token_invalid TV_INVALID_TOKEN_FORMAT)
  else if match resolvedKeys with
          | Some _ => negb (isDidKey (ct_issuerDid token)) && negb (isDidAgent (ct_issuerDid token))
          | None => negb (isDidKey (ct_issuerDid token))
                    || isDidAgent (parseDidFromVerificationMethod
                                     (tp_verificationMethod (ct_proof token)))
          end then mret (token_invalid TV_INVALID_TOKEN_FORMAT)
  else if num_gtb (dateNum (ct_issuedAt token)) (dateNum now)
  then mret (token_invalid TV_INVALID_TOKEN_FORMAT)
  else if isTimestampExpired (ct_expiresAt token) now then mret (token_invalid TV_TOKEN_EXPIRED)
  else if Nat.ltb 0 (length (chain_of token)) then mret (token_invalid TV_INVALID_TOKEN_FORMAT)
  else if String.eqb (ct_specVersion token) "0.1.0"
          && existsb (λ cap, isPhase2ScopeType (scope_type (cap_scope cap))) (ct_capabilities token)
  then mret (token_invalid TV_INVALID_TOKEN_FORMAT)
  else
    payloadBytes ← createCapabilityTokenPayload token;
    match resolvedKeys with
    | Some keys =>
        ok ← verify_dual
               (λ before, bool_decide (rk_rotationState keys = ROTATING)
                          && num_leb (dateNum (ct_issuedAt token)) (dateNum before))
               payloadBytes (tp_value (ct_proof token)) keys;
        mret (if ok : bool then token_valid else token_invalid TV_SIGNATURE_INVALID)
    | None =>
        publicKey ← extractPublicKeyFromDIDKey (ct_issuerDid token);
        ok ← verify payloadBytes (tp_value (ct_proof token)) publicKey;
        mret (if ok : bool then token_valid else token_invalid TV_SIGNATURE_INVALID)
    end.

Inductive ActionCode : Type :=
| TOKEN_NOT_FOR_THIS_AGENT | INVALID_ACTION | SCOPE_EXCEEDED | SCOPE_TYPE_UNKNOWN.

Inductive TokenActionCheckResult : Type :=
| action_allowed
| action_denied (code : ActionCode).

(** One capability of the loop: [None] is [continue]. *)
Definition checkCapability (p : params) (capability : Capability) : option ActionCode :=
  match cap_scope capability with
  | AllowlistScope field values =>
      match get_prop p field with
      | VStr v => if bool_decide (v ∈ values) then None else Some SCOPE_EXCEEDED
      | _ => Some SCOPE_EXCEEDED
      end
  | NumericLimitScope field max _ =>
      match get_prop p field with
      | VUndefined => None
      | VNum n => if num_gtb n max then Some SCOPE_EXCEEDED else None
      | _ => Some SCOPE_EXCEEDED
      end
  | _ => Some SCOPE_TYPE_UNKNOWN
  end.

Definition checkTokenForAction (token : CapabilityToken) (action : string) (p : params)
    (agentDid : string) : TokenActionCheckResult :=
  if negb (String.eqb (ct_issuedTo token) agentDid) then action_denied TOKEN_NOT_FOR_THIS_AGENT
  else
    let matches := filter (λ c, cap_action c = action) (ct_capabilities token) in
    if Nat.eqb (length matches) 0 then action_denied INVALID_ACTION
    else match first_some (checkCapability p) matches with
         | Some code => action_denied code
         | None => action_allowed
         end.

End tokens.

(** ** Lemmas *)

Lemma str_startsWith_inv s p : str_startsWith s p = true → ∃ r, s = p +:+ r.
Proof.
  unfold str_startsWith. revert s. induction p as [|c p IH]; intros s Hs; [by exists s|].
  destruct s as [|c' s]; [done|]. cbn [String.prefix] in Hs.
  destruct (ascii_dec c c') as [<-|]; [|done].
  destruct (IH s Hs) as [r ->]. by exists r.
Qed.

(** A method under a did:key does not name a did:agent. *)
Lemma didKey_not_agent did rest :
  isDidKey did = true → isDidAgent (parseDidFromVerificationMethod (did +:+ rest)) = false.
Proof.
  unfold isDidKey. intros [Hs _]%andb_true_iff. apply str_startsWith_inv in Hs as [r ->]. done.
Qed.

Section lemmas.
Context `{PrimitiveLaws}.

(** A private key and a public key of one pair, in any encoding. *)
Definition encode_key (e : encoding) (bs : bytes) : string :=
  match e with enc_hex => toHex bs | enc_base64url => toBase64Url bs end.

Definition keypair (privateKey publicKey : string) : Prop :=
  ∃ seed e1 e2, Forall is_byte seed ∧ length seed = 32%nat
    ∧ privateKey = encode_key e1 seed ∧ publicKey = encode_key e2 (ed25519_pub seed).

Lemma sign_keypair m privateKey publicKey sig :
  keypair privateKey publicKey → sign m privateKey IDENTITY_ENCODING = Ok sig →
  detectEncoding sig = enc_base64url → verify m sig publicKey = Ok true.
Proof.
  intros (seed & e1 & e2 & Hb & HL & -> & ->) Hs Hd.
  by apply (sign_verify_encodings m seed e1 e2 enc_base64url (encode_key e1 seed)).
Qed.

Lemma createCapabilityTokenPayload_set_proof t p :
  createCapabilityTokenPayload (set_proof t p) = createCapabilityTokenPayload t.
Proof. by destruct t. Qed.

Lemma delegationPayloadBytes_set_proof p pr :
  delegationPayloadBytes (set_dp_proof p pr) = delegationPayloadBytes p.
Proof. by destruct p. Qed.

Lemma token_payload_inj t1 t2 b :
  createCapabilityTokenPayload t1 = Ok b → createCapabilityTokenPayload t2 = Ok b →
  tokenPayload_json t1 = tokenPayload_json t2.
Proof.
  unfold createCapabilityTokenPayload.
  intros (s1 & [S1 ->]%canonicalize_inv & [= E1])%res_bind_ok
    (s2 & [S2 ->]%canonicalize_inv & [= E2])%res_bind_ok.
  apply jcs_inj; [by apply tokenPayload_json_canonical..|]. apply textEncode_inj. congruence.
Qed.

Lemma issue_inv `{UrlParser} uuid ps t :
  issueCapabilityToken uuid ps = Ok t →
  isDidKey (ip_issuerDid ps) = true ∧ isDidAgent (ip_issuedTo ps) = true
  ∧ ip_capabilities ps ≠ [] ∧ isTimestampExpired (ip_expiresAt ps) (ip_issuedAt ps) = false
  ∧ ∃ bytes sig, createCapabilityTokenPayload t = Ok bytes
      ∧ sign bytes (ip_issuerPrivateKey ps) IDENTITY_ENCODING = Ok sig
      ∧ t = mkCapabilityToken ("urn:cap:" +:+ uuid) SPEC_VERSION
              (ip_issuerDid ps) (ip_issuerDid ps) (ip_issuedTo ps) (ip_issuedAt ps)
              (ip_expiresAt ps) (ip_capabilities ps) (ip_revocationUrl ps)
              (mkTokenProof (ip_issuedAt ps) (ip_issuerDid ps +:+ "#key-1") sig) None.
Proof.
  unfold issueCapabilityToken.
  destruct (isDidKey _); [|done]. destruct (isDidAgent _); [|done]. cbn [negb].
  destruct (ip_capabilities ps) as [|c0 l0] eqn:Ec; [done|]. cbn [length Nat.eqb].
  destruct (isTimestampExpired _ _); [done|]. destruct (isValidRevocationUrlTemplate _); [|done].
  cbn [negb]. intros (bs & Hb & (sig & Hsig & [= <-])%res_bind_ok)%res_bind_ok.
  split_and!; try done. by exists bs, sig.
Qed.
End lemmas.

(** ** Theorems *)

(** A token that is issued verifies: a token issued with the private key
    behind the issuer's did:key passes [verifyCapabilityToken] at every time
    from its issue to its expiry, provided it satisfies the schema and holds
    only the scope kinds of version 0.1.0 (and its 86 signature characters are
    not all hex digits). *)
Theorem issue_then_verify `{PrimitiveLaws} `{UrlParser} uuid ps e seed t now :
  Forall is_byte seed → length seed = 32%nat →
  ip_issuerDid ps = publicKeyToDidKey (ed25519_pub seed) →
  ip_issuerPrivateKey ps = encode_key e seed →
  issueCapabilityToken uuid ps = Ok t →
  capabilityToken_schema t = true →
  forallb (λ c, negb (isPhase2ScopeType (scope_type (cap_scope c)))) (ip_capabilities ps) = true →
  num_leb (dateNum (ip_issuedAt ps)) (dateNum now) = true →
  isTimestampExpired (ip_expiresAt ps) now = false →
  detectEncoding (tp_value (ct_proof t)) = enc_base64url →
  verifyCapabilityToken t now None = Ok token_valid.
Proof.
  intros Hb HL Hdid Hpriv Hissue Hschema Hp2 Hnow Hexp Hdet.
  destruct (issue_inv _ _ _ Hissue) as (Hkey & _ & _ & _ & bs & sig & Hbs & Hsig & Et).
  destruct (ed25519_pub_bytes seed) as [Pb Pl].
  unfold verifyCapabilityToken. rewrite Hschema, Hbs. subst t.
  cbn [ct_issuerDid ct_issuedAt ct_expiresAt ct_proof ct_specVersion ct_capabilities
       tp_verificationMethod tp_value] in *.
  rewrite Hkey, (didKey_not_agent _ _ Hkey), Hexp. cbn [negb orb chain_of ct_delegationChain].
  assert (num_gtb (dateNum (ip_issuedAt ps)) (dateNum now) = false) as ->.
  { unfold num_gtb. destruct (dateNum _), (dateNum now); simpl in *; try done.
    apply Z.ltb_ge. by apply Z.leb_le in Hnow. }
  assert (existsb (λ c, isPhase2ScopeType (scope_type (cap_scope c))) (ip_capabilities ps) = false) as ->.
  { apply not_true_iff_false. intros (c & Hc & Hx)%existsb_exists.
    rewrite forallb_forall in Hp2. apply Hp2 in Hc. by rewrite Hx in Hc. }
  rewrite andb_false_r, Hdid. cbn [length Nat.ltb Nat.leb default from_option id mbind res_bind].
  rewrite (proj2 (extractPublicKey_didKey _ Pb Pl)). cbn [mbind res_bind].
  rewrite (sign_keypair bs (ip_issuerPrivateKey ps) (toHex (ed25519_pub seed)) sig); try done.
  by exists seed, e, enc_hex.
Qed.

(** [issueCapabilityToken] stamps version 0.1.0 on every token, so a root
    token issued with a temporal or a cumulative scope is never accepted: the
    verifier rejects it whatever the time and the keys. *)
Theorem issued_phase2_never_verifies `{Primitives} `{UrlParser} uuid ps t cap now keys :
  issueCapabilityToken uuid ps = Ok t →
  cap ∈ ip_capabilities ps → isPhase2ScopeType (scope_type (cap_scope cap)) = true →
  verifyCapabilityToken t now keys ≠ Ok token_valid.
Proof.
  intros (_ & _ & _ & _ & bs & sig & _ & _ & ->)%issue_inv Hin Hp2.
  unfold verifyCapabilityToken.
  cbn [ct_specVersion ct_capabilities].
  assert (existsb (λ c, isPhase2ScopeType (scope_type (cap_scope c))) (ip_capabilities ps) = true) as ->.
  { apply existsb_exists. exists cap. by rewrite <- list_elem_of_In. }
  change (String.eqb SPEC_VERSION "0.1.0") with true. cbn [andb].
  repeat case_match; discriminate.
Qed.

(** The signature covers the whole token: two tokens with the same signed
    bytes agree on every field but the proof, the delegation chain with all
    its proofs included. *)
Theorem token_payload_covers_token `{PrimitiveLaws} t1 t2 b :
  createCapabilityTokenPayload t1 = Ok b → createCapabilityTokenPayload t2 = Ok b →
  set_proof t1 no_proof = set_proof t2 no_proof.
Proof.
  intros H1 H2. pose proof (tokenPayload_json_inj _ _ (token_payload_inj _ _ _ H1 H2)) as Hj.
  unfold set_proof. by destruct Hj as (-> & -> & -> & -> & -> & -> & -> & -> & -> & ->).
Qed.

(** The lightweight check is sound for the run-time one: when
    [checkTokenForAction] allows an action of an agent, the token was issued to
    that agent and its capabilities permit the request at run time, at any time
    and from any tracker state, unless a parameter is [NaN]. *)
Theorem checkTokenForAction_sound `{Intl} {W} (tr : option (CumulativeTracker W))
    token action p agentDid now w :
  (∀ field, get_prop p field ≠ VNum NaN) →
  Forall (λ c, capability_schema c = true) (ct_capabilities token) →
  checkTokenForAction token action p agentDid = action_allowed →
  ct_issuedTo token = agentDid ∧ request_permitted tr (ct_capabilities token) action p now w.
Proof.
  intros Hnan Hschema. unfold checkTokenForAction.
  destruct (String.eqb_spec (ct_issuedTo token) agentDid) as [->|]; [|done]. cbn [negb].
  destruct (filter _ _) as [|c0 l0] eqn:Hf; [done|]. cbn [length Nat.eqb]. rewrite <- Hf.
  destruct (first_some _ _) eqn:Hc; [done|]. intros _. split; [done|]. split.
  - unfold scopes_for. by rewrite Hf.
  - intros s Hs. unfold scopes_for in Hs. apply list_elem_of_fmap in Hs as (c & -> & Hin).
    rewrite first_some_None in Hc. specialize (Hc c Hin). unfold checkCapability in Hc.
    apply list_elem_of_filter in Hin as [_ Hin].
    rewrite Forall_forall in Hschema. specialize (Hschema c Hin).
    apply capability_schema_scope in Hschema.
    cut (∃ w', evaluator_accepts tr (cap_scope c) p now w w').
    { intros (w' & (r & ? & ?)%evaluate_accepts). by exists r, w'. }
    destruct (cap_scope c) as [field values|field max cur| | |]; try done; exists w; split; try done.
    + unfold get_prop in Hc. destruct (p !! field) as [[| | | |v| |]|] eqn:E; try done. simpl in Hc.
      case_bool_decide as Hv; [|done]. exists v, v. split_and!; [done|done|].
      apply matchAllowlistValue_spec. unfold matchAllowlistValue.
      destruct (str_startsWith v "*" && _) eqn:Hb; [|apply String.eqb_refl].
      apply str_endsWith_spec. destruct v as [|a v]; [done|].
      by exists (String.String a "").
    + specialize (Hnan field).
      destruct (get_prop p field) as [| | |n| | |]; try done; [by left|]. right; right. exists n.
      split; [done|]. destruct (num_gtb n max) eqn:Hg; [done|].
      pose proof (scope_schema_max _ max Hschema eq_refl) as Fm.
      destruct n, max; try done. apply num_gtb_false; done.
Qed.
