(* ===== verification/Delegation.v ===== *)
(** * Delegation chains

    [validateDelegationChain] (packages/identity/src/delegation-validator.ts) and
    [verifyCapabilityTokenWithChain] (packages/identity/src/token-verifier.ts).
    The three ports of the validator (key resolution, revocation, token store)
    are the fields of [ChainPorts]; a port that is absent is [None].  The checks
    of one hop are written as a sequence of steps that each continue or return
    a failure, in the order of the source. *)
From S2P Require Import Prelude JsValue Time Encoding Crypto Authorization ScopeEvaluator.
From S2P Require Import Attenuation CapabilityToken.

(** ** Order-independent equality of capabilities *)

Definition str_le (a b : string) : Prop := str_leb a b = true.
#[export] Instance str_le_dec a b : Decision (str_le a b).
Proof. unfold str_le. apply _. Defined.

Record ChainPorts : Type := mkPorts {
  resolvePublicKeys : string → option ResolvedPublicKeys;
  isRevoked : option (string → bool);
  resolveToken : option (string → option CapabilityToken) }.

(** A step of the validator: an exception, [Some failure] to return it, or
    [None] to go on. *)
Definition check : Type := res (option DelegationChainValidationResult).
Definition and_then (a b : check) : check :=
  r ← a; match r with Some f => mret (Some f) | None => b end.
Declare Scope check_scope.
Delimit Scope check_scope with check.
Notation "a ;;; b" := (and_then a b) (at level 100, right associativity) : check_scope.
Open Scope check_scope.

Definition require (ok : bool) (failure : DelegationChainValidationResult) : check :=
  mret (if ok then None else Some failure).
Definition require_res (ok : res bool) (failure : DelegationChainValidationResult) : check :=
  b ← ok; require b failure.

Definition fail (depth : nat) (reason : DcErrorCode) : DelegationChainValidationResult :=
  mkChainResult false depth (Some reason) None None None.
Definition fail_at (depth : nat) (reason : DcErrorCode) (i : nat)
    : DelegationChainValidationResult :=
  mkChainResult false depth (Some reason) (Some i) None None.
Definition fail_detail (depth : nat) (reason : DcErrorCode) (i : option nat)
    (d : AttenuationDetail) : DelegationChainValidationResult :=
  mkChainResult false depth (Some reason) i None (Some d).
Definition pass (depth : nat) : DelegationChainValidationResult :=
  mkChainResult true depth None None None None.

(** [seenDids]: the root delegator, then every delegatee. *)
Fixpoint has_cycle (seen : gset string) (chain : list DelegationProof) : bool :=
  match chain with
  | [] => false
  | proof :: rest =>
      if bool_decide (dp_delegateeDid proof ∈ seen) then true
      else has_cycle ({[dp_delegateeDid proof]} ∪ seen) rest
  end.

Definition cycle_detected (chain : list DelegationProof) : bool :=
  match chain with
  | [] => false
  | first :: _ => has_cycle {[dp_delegatorDid first]} chain
  end.

Section validator.
Context `{Primitives}.

Definition capabilitiesEqual (a b : list Capability) : res bool :=
  if negb (Nat.eqb (length a) (length b)) then mret false
  else
    sa ← mapM (λ c, canonicalize jcs (capability_json c)) a;
    sb ← mapM (λ c, canonicalize jcs (capability_json c)) b;
    mret (bool_decide (merge_sort str_le sa = merge_sort str_le sb)).

(** [keyMap], resolved once per distinct delegator. *)
Definition keyMap (ports : ChainPorts) (chain : list DelegationProof)
    : list (string * option ResolvedPublicKeys) :=
  (λ did, (did, resolvePublicKeys ports did)) <$> remove_dups (dp_delegatorDid <$> chain).
Definition keyMap_get (m : list (string * option ResolvedPublicKeys)) (did : string)
    : option ResolvedPublicKeys := mjoin (map_get did m).

(** Dual-key verification with the string cut-off of the validator. *)
Definition verify_cutoff (timestamp : string) : bytes → string → ResolvedPublicKeys → res bool :=
  verify_dual (λ before, str_leb timestamp before).

(** The signature of a token as made by the holder of [keys]. *)
Definition verify_token_signature (t : CapabilityToken) (keys : ResolvedPublicKeys) : res bool :=
  payload ← createCapabilityTokenPayload t;
  verify_cutoff (ct_issuedAt t) payload (tp_value (ct_proof t)) keys.

(** 4a: the signature of the delegation proof. *)
Definition check_proof_signature (depth i : nat) (proof : DelegationProof)
    (keys : option ResolvedPublicKeys) : check :=
  match keys with
  | None => mret (Some (fail_at depth SIGNATURE_INVALID i))
  | Some resolvedKeys =>
      require_res (payloadBytes ← delegationPayloadBytes proof;
                   verify_cutoff (tp_created (dp_proof proof)) payloadBytes
                     (tp_value (dp_proof proof)) resolvedKeys)
        (fail_at depth SIGNATURE_INVALID i)
  end.

(** 4a-bis: the proof against the authoritative parent token. *)
Definition check_parent_binding (depth i : nat) (token parentToken : CapabilityToken)
    (proof : DelegationProof) : check :=
  let mismatch := fail_detail depth DELEGATION_CHAIN_INVALID (Some i)
                    (capabilities_mismatch "parentCapabilities") in
  require (String.eqb (dp_delegatorDid proof) (ct_issuedTo parentToken))
    (fail_at depth DELEGATOR_MISMATCH i) ;;;
  require (String.eqb (ct_issuerDid parentToken) (ct_issuerDid token)
           && String.eqb (ct_principalDid parentToken) (ct_principalDid token))
    (fail_at depth ROOT_NOT_PRINCIPAL i) ;;;
  require_res (capabilitiesEqual (dp_parentCapabilities proof) (ct_capabilities parentToken))
    mismatch ;;;
  require (String.eqb (dp_parentExpiresAt proof) (ct_expiresAt parentToken)) mismatch ;;;
  require (String.eqb (ct_id parentToken) (dp_parentTokenId proof)) mismatch.

(** The parent token's own signature: the principal's for the root, the
    previous delegator's otherwise. *)
Definition check_parent_signature (depth i : nat) (now : string) (parentToken : CapabilityToken)
    (prev : option (option ResolvedPublicKeys)) : check :=
  match prev with
  | None =>
      require (Nat.eqb (length (chain_of parentToken)) 0) (fail_at depth ROOT_NOT_PRINCIPAL 0) ;;;
      (rootVerification ← verifyCapabilityToken parentToken now None;
       match rootVerification with
       | token_valid => mret None
       | token_invalid _ => mret (Some (fail_at depth SIGNATURE_INVALID 0))
       end)
  | Some None => mret (Some (fail_at depth SIGNATURE_INVALID i))
  | Some (Some prevResolvedKeys) =>
      require_res (verify_token_signature parentToken prevResolvedKeys)
        (fail_at depth SIGNATURE_INVALID i)
  end.

Definition check_attenuation (depth i : nat) (token parentToken : CapabilityToken)
    (proof : DelegationProof) : check :=
  match validateAttenuation (dp_parentCapabilities proof) (dp_attenuatedCapabilities proof)
          (Some (ct_specVersion parentToken, ct_specVersion token)) with
  | AttenuationOk => mret None
  | AttenuationFail _ d => mret (Some (fail_detail depth ATTENUATION_VIOLATED (Some i) d))
  end.

(** 4c: the next hop starts from what this one granted. *)
Definition check_continuity (depth i : nat) (proof : DelegationProof)
    (next : option DelegationProof) : check :=
  match next with
  | None => mret None
  | Some nextProof =>
      require_res (capabilitiesEqual (dp_attenuatedCapabilities proof)
                     (dp_parentCapabilities nextProof))
        (fail_detail depth DELEGATION_CHAIN_INVALID (Some (S i)) (capabilities_mismatch "continuity"))
  end.

(** 4d and 4e, and the link to the previous hop. *)
Definition check_revocation (depth i : nat) (revoked : string → bool) (proof : DelegationProof)
    : check :=
  require (negb (revoked (dp_parentTokenId proof)))
    (mkChainResult false depth (Some PARENT_TOKEN_REVOKED) (Some i)
       (Some (dp_parentTokenId proof)) None).

Definition check_expiry (depth i : nat) (token : CapabilityToken) (now : string)
    (proof : DelegationProof) : check :=
  require (negb (str_ltb (dp_parentExpiresAt proof) (ct_expiresAt token)))
    (fail_at depth EXPIRY_EXCEEDED i) ;;;
  require (negb (str_leb (dp_parentExpiresAt proof) now)) (fail_at depth EXPIRY_EXCEEDED i).

Definition check_link (depth i : nat) (proof : DelegationProof) (prev : option DelegationProof)
    : check :=
  match prev with
  | None => mret None
  | Some prevProof =>
      require (String.eqb (dp_delegatorDid proof) (dp_delegateeDid prevProof))
        (fail_at depth DELEGATOR_MISMATCH i)
  end.

(** One iteration of the loop over the chain. *)
Definition check_hop (keys : list (string * option ResolvedPublicKeys)) (revoked : string → bool)
    (store : string → option CapabilityToken) (token : CapabilityToken) (now : string)
    (depth i : nat) (prev : option DelegationProof) (proof : DelegationProof)
    (next : option DelegationProof) : check :=
  check_proof_signature depth i proof (keyMap_get keys (dp_delegatorDid proof)) ;;;
  match store (dp_parentTokenId proof) with
  | None => mret (Some (fail_at depth PARENT_TOKEN_NOT_FOUND i))
  | Some parentToken =>
      check_parent_binding depth i token parentToken proof ;;;
      check_parent_signature depth i now parentToken
        ((λ p, keyMap_get keys (dp_delegatorDid p)) <$> prev) ;;;
      check_attenuation depth i token parentToken proof ;;;
      check_continuity depth i proof next ;;;
      check_revocation depth i revoked proof ;;;
      check_expiry depth i token now proof ;;;
      check_link depth i proof prev
  end.

Fixpoint check_hops keys revoked store token now depth (i : nat) (prev : option DelegationProof)
    (chain : list DelegationProof) : check :=
  match chain with
  | [] => mret None
  | proof :: rest =>
      check_hop keys revoked store token now depth i prev proof (head rest) ;;;
      check_hops keys revoked store token now depth (S i) (Some proof) rest
  end.

(** 8c: the first proof whose verification method is not its delegator's. *)
Fixpoint check_methods (depth k : nat) (chain : list DelegationProof) : check :=
  match chain with
  | [] => mret None
  | proof :: rest =>
      require (String.eqb (parseDidFromVerificationMethod (tp_verificationMethod (dp_proof proof)))
                 (dp_delegatorDid proof))
        (fail_at depth SIGNATURE_INVALID k) ;;;
      check_methods depth (S k) rest
  end.

(** Steps 5 to 9, after the loop. *)
Definition check_leaf keys (token : CapabilityToken) (chain : list DelegationProof)
    (depth : nat) : check :=
  require (String.eqb (ct_issuerDid token) (ct_principalDid token))
    (fail depth ROOT_NOT_PRINCIPAL) ;;;
  match last chain with
  | None => mret None
  | Some lastProof =>
      require (String.eqb (dp_delegateeDid lastProof) (ct_issuedTo token))
        (fail depth DELEGATOR_MISMATCH) ;;;
      require_res (capabilitiesEqual (ct_capabilities token) (dp_attenuatedCapabilities lastProof))
        (fail_detail depth DELEGATION_CHAIN_INVALID None (capabilities_mismatch "leaf")) ;;;
      require (String.eqb (parseDidFromVerificationMethod (tp_verificationMethod (ct_proof token)))
                 (dp_delegatorDid lastProof))
        (fail_at depth SIGNATURE_INVALID (length chain - 1)) ;;;
      check_methods depth 0 chain ;;;
      match keyMap_get keys (dp_delegatorDid lastProof) with
      | None => mret (Some (fail_at depth SIGNATURE_INVALID (length chain - 1)))
      | Some lastKeys =>
          require_res (verify_token_signature token lastKeys)
            (fail_at depth SIGNATURE_INVALID (length chain - 1))
      end
  end.

Definition validateDelegationChain (ports : ChainPorts) (token : CapabilityToken) (now : string)
    : res DelegationChainValidationResult :=
  match ct_delegationChain token with
  | None | Some [] => mret (pass 0)
  | Some chain =>
      let depth := length chain in
      if negb (capabilityToken_schema token) then mret (fail depth INVALID_TOKEN_FORMAT)
      else if String.eqb (ct_specVersion token) "0.1.0" then mret (fail depth INVALID_TOKEN_FORMAT)
      else match resolveToken ports with
      | None => mret (fail depth INVALID_TOKEN_FORMAT)
      | Some store =>
      match isRevoked ports with
      | None => mret (fail depth INVALID_TOKEN_FORMAT)
      | Some revoked =>
          if Nat.ltb MAX_DELEGATION_DEPTH depth then mret (fail depth DEPTH_EXCEEDED)
          else if cycle_detected chain then mret (fail depth CYCLE_DETECTED)
          else
            let keys := keyMap ports chain in
            r ← (check_hops keys revoked store token now depth 0 None chain ;;;
                 check_leaf keys token chain depth);
            mret (default (pass depth) r)
      end end
  end.

(** ** token-verifier.ts: [verifyCapabilityTokenWithChain] *)

Definition verifyCapabilityTokenWithChain (ports : ChainPorts) (token : CapabilityToken)
    (now : string) : res TokenVerificationResult :=
  if Nat.eqb (length (chain_of token)) 0 then verifyCapabilityToken token now None
  else if negb (capabilityToken_schema token) then mret (token_invalid TV_INVALID_TOKEN_FORMAT)
  else if num_gtb (dateNum (ct_issuedAt token)) (dateNum now)
  then mret (token_invalid TV_INVALID_TOKEN_FORMAT)
  else if isTimestampExpired (ct_expiresAt token) now then mret (token_invalid TV_TOKEN_EXPIRED)
  else if String.eqb (ct_specVersion token) "0.1.0"
  then mret (token_invalid TV_INVALID_TOKEN_FORMAT)
  else
    chainResult ← validateDelegationChain ports token now;
    if negb (cr_valid chainResult)
    then mret (token_invalid (if bool_decide (cr_reason chainResult = Some SIGNATURE_INVALID)
                              then TV_SIGNATURE_INVALID else TV_DELEGATION_CHAIN_INVALID))
    else
      let signerDid := parseDidFromVerificationMethod (tp_verificationMethod (ct_proof token)) in
      keys ← (if isDidKey signerDid then
                k ← extractPublicKeyFromDIDKey signerDid;
                mret (Some (mkResolvedPublicKeys k None None STABLE))
              else if isDidAgent signerDid then mret (resolvePublicKeys ports signerDid)
              else mret None);
      match keys with
      | None => mret (token_invalid TV_SIGNATURE_INVALID)
      | Some keys =>
          if String.eqb (rk_current keys) "" then mret (token_invalid TV_SIGNATURE_INVALID)
          else
            payloadBytes ← createCapabilityTokenPayload token;
            ok ← verify_dual (λ before, num_leb (dateNum (ct_issuedAt token)) (dateNum before))
                   payloadBytes (tp_value (ct_proof token)) keys;
            mret (if ok : bool then token_valid else token_invalid TV_SIGNATURE_INVALID)
      end.

(** [resolveDcVersion] *)
Definition resolveDcVersion (proof : DelegationProof) (token : CapabilityToken) : string :=
  default (ct_specVersion token) (dp_dcVersion proof).
End validator.

(** ** Lemmas: steps *)

Lemma and_then_None a b : and_then a b = Ok None ↔ a = Ok None ∧ b = Ok None.
Proof.
  unfold and_then, mbind, res_bind. destruct a as [[f|]|c]; split; try done;
    (by intros [[=] ?]) || by intros [].
Qed.

Lemma require_None ok f : require ok f = Ok None ↔ ok = true.
Proof. unfold require. by destruct ok. Qed.

Lemma require_res_None ok f : require_res ok f = Ok None ↔ ok = Ok true.
Proof.
  unfold require_res, require, mbind, res_bind. destruct ok as [[|]|c]; done.
Qed.

#[export] Hint Rewrite and_then_None require_None require_res_None : checks.

(** ** Lemmas: sorting *)

#[export] Instance str_le_trans : Transitive str_le.
Proof. intros a b c. apply str_leb_trans. Qed.
#[export] Instance str_le_total : Total str_le.
Proof.
  intros a b. unfold str_le. destruct (str_leb a b) eqn:E; [by left|right].
  apply str_ltb_false. apply not_true_iff_false. intros Hlt%str_ltb_iff.
  rewrite (proj2 (str_leb_iff a b) (or_intror Hlt)) in E. done.
Qed.
#[export] Instance str_le_antisym : AntiSymm (=) str_le.
Proof. intros a b Ha Hb. by apply String.leb_antisym. Qed.

Lemma merge_sort_eq_perm sa sb : merge_sort str_le sa = merge_sort str_le sb ↔ sa ≡ₚ sb.
Proof.
  split.
  - intros E. by rewrite <- (merge_sort_Permutation str_le sa), E, merge_sort_Permutation.
  - intros Hp. apply (Sorted_unique str_le); [apply Sorted_merge_sort, _..|].
    by rewrite !merge_sort_Permutation.
Qed.

Lemma mapM_res_ok {A B} (f : A → res B) l ks :
  mapM f l = Ok ks ↔ Forall2 (λ x k, f x = Ok k) l ks.
Proof.
  revert ks. induction l as [|x l IH]; intros ks; cbn [mapM].
  - split; [by intros [= <-]|by inversion 1].
  - split.
    + intros (k & Hk & (ks' & Hks & [= <-])%res_bind_ok)%res_bind_ok. constructor; [done|].
      by apply IH.
    + inversion 1 as [|? k ? ks' Hk Hks]; subst. apply IH in Hks.
      rewrite Hk. cbn [mbind res_bind]. by rewrite Hks.
Qed.

Section facts.
Context `{PrimitiveLaws}.

Lemma canonical_strings l ks :
  Forall2 (λ c k, canonicalize jcs (capability_json c) = Ok k) l ks ↔
  ks = (jcs ∘ capability_json) <$> l ∧ Forall (λ c, assertSerializable (capability_json c) = true) l.
Proof.
  split.
  - induction 1 as [|c k l ks [Hs ->]%canonicalize_inv _ [-> IH]]; [by split|]. by split; [|constructor].
  - intros [-> Hall]. induction Hall as [|c l Hc _ IH]; [constructor|].
    constructor; [|done]. unfold canonicalize. by rewrite Hc.
Qed.

Lemma jcs_capability_inj c1 c2 :
  assertSerializable (capability_json c1) = true → assertSerializable (capability_json c2) = true →
  jcs (capability_json c1) = jcs (capability_json c2) → c1 = c2.
Proof. intros S1 S2 E. apply capability_json_inj, jcs_inj; auto with coivitas. Qed.

(** [capabilitiesEqual] decides equality up to order. *)
Lemma capabilitiesEqual_spec a b :
  capabilitiesEqual a b = Ok true ↔
  a ≡ₚ b ∧ Forall (λ c, assertSerializable (capability_json c) = true) a.
Proof.
  unfold capabilitiesEqual. split.
  - destruct (Nat.eqb (length a) (length b)); [|done]. cbn [negb].
    intros (sa & [-> Sa]%mapM_res_ok%canonical_strings &
      (sb & [-> Sb]%mapM_res_ok%canonical_strings & [= E])%res_bind_ok)%res_bind_ok.
    apply bool_decide_eq_true, merge_sort_eq_perm in E. split; [|done].
    apply Permutation_map_inv in E as (b' & E & Hp). rewrite Hp.
    assert (Forall (λ c, assertSerializable (capability_json c) = true) b') as Sb' by (by rewrite <- Hp).
    assert (a = b') as ->; [|done]. clear Hp Sb b. revert a Sa E.
    induction Sb' as [|c2 b' Hc2 _ IH]; intros [|c a] Sa E; try done.
    cbn in E. injection E as E1 E2. apply Forall_cons in Sa as [Hc Sa].
    apply jcs_capability_inj in E1; [|done..]. subst. f_equal. by apply IH.
  - intros [Hp Sa]. rewrite (Permutation_length Hp), Nat.eqb_refl. cbn [negb].
    assert (Forall (λ c, assertSerializable (capability_json c) = true) b) as Sb by (by rewrite <- Hp).
    rewrite (proj2 (mapM_res_ok _ a _) (proj2 (canonical_strings a _) (conj eq_refl Sa))).
    rewrite (proj2 (mapM_res_ok _ b _) (proj2 (canonical_strings b _) (conj eq_refl Sb))).
    cbn [mbind res_bind]. rewrite bool_decide_eq_true_2; [done|].
    apply merge_sort_eq_perm. by rewrite Hp.
Qed.
End facts.

(** ** Lemmas: keys and cycles *)

Lemma keyMap_lookup ports chain did :
  did ∈ dp_delegatorDid <$> chain →
  keyMap_get (keyMap ports chain) did = resolvePublicKeys ports did.
Proof.
  intros Hd. unfold keyMap_get, keyMap.
  rewrite (map_elem_get did (resolvePublicKeys ports did)); [done| |].
  - rewrite <- list_fmap_compose. rewrite (list_fmap_id _). apply NoDup_remove_dups.
  - apply list_elem_of_fmap. exists did. split; [done|]. by apply elem_of_remove_dups.
Qed.

Lemma has_cycle_false seen chain :
  has_cycle seen chain = false ↔
  NoDup (dp_delegateeDid <$> chain) ∧ ∀ p, p ∈ chain → dp_delegateeDid p ∉ seen.
Proof.
  revert seen. induction chain as [|p chain IH]; intros seen; cbn [has_cycle].
  - split; [intros _; split; [constructor|by intros p ?%elem_of_nil]|done].
  - rewrite fmap_cons, NoDup_cons. case_bool_decide as Hin.
    + split; [done|]. intros [_ Hall]. destruct (Hall p); [by left|done].
    + rewrite IH. setoid_rewrite elem_of_cons. setoid_rewrite elem_of_union.
      setoid_rewrite elem_of_singleton. split.
      * intros [Hnd Hall]. split; [split; [|done]|].
        -- intros (q & E & Hq)%list_elem_of_fmap. destruct (Hall q Hq). left. done.
        -- intros q [->|Hq]; [done|]. intros ?. by destruct (Hall q Hq); right.
      * intros [[Hn Hnd] Hall]. split; [done|]. intros q Hq [E|E]; [|by apply (Hall q); [right|]].
        apply Hn. rewrite <- E. by apply list_elem_of_fmap_2.
Qed.

(** ** Specification of a trusted chain *)

Section spec.
Context `{Primitives}.

(** The payload carries a signature of the holder of [keys]: by the current
    key, or by the previous one if the artifact is not younger than its
    cut-off. *)
Definition signed_by (payload : res bytes) (signature timestamp : string)
    (keys : ResolvedPublicKeys) : Prop :=
  ∃ bs, payload = Ok bs ∧
    (verify bs signature (rk_current keys) = Ok true
     ∨ ∃ previous before, rk_previous keys = Some previous
         ∧ rk_previousValidBefore keys = Some before ∧ str_leb timestamp before = true
         ∧ verify bs signature previous = Ok true).

(** What holds of one hop: the proof is signed by the delegator, the parent
    token is the authoritative one, belongs to the same principal, is held by
    the delegator, is neither revoked nor expired, outlives the leaf, and the
    capabilities granted attenuate its own. *)
Record trusted_hop (ports : ChainPorts) (store : string → option CapabilityToken)
    (revoked : string → bool) (token : CapabilityToken) (now : string)
    (proof : DelegationProof) (parent : CapabilityToken) : Prop := {
  th_signed : ∃ keys, resolvePublicKeys ports (dp_delegatorDid proof) = Some keys
    ∧ signed_by (delegationPayloadBytes proof) (tp_value (dp_proof proof))
        (tp_created (dp_proof proof)) keys;
  th_parent : store (dp_parentTokenId proof) = Some parent;
  th_id : ct_id parent = dp_parentTokenId proof;
  th_holder : ct_issuedTo parent = dp_delegatorDid proof;
  th_principal : ct_issuerDid parent = ct_issuerDid token
    ∧ ct_principalDid parent = ct_principalDid token;
  th_snapshot : dp_parentCapabilities proof ≡ₚ ct_capabilities parent
    ∧ dp_parentExpiresAt proof = ct_expiresAt parent;
  th_attenuates : attenuates (dp_parentCapabilities proof) (dp_attenuatedCapabilities proof);
  th_not_revoked : revoked (dp_parentTokenId proof) = false;
  th_outlives : str_leb (ct_expiresAt token) (dp_parentExpiresAt proof) = true;
  th_not_expired : str_ltb now (dp_parentExpiresAt proof) = true }.

Record trusted_chain (ports : ChainPorts) (token : CapabilityToken) (now : string)
    (chain : list DelegationProof) : Prop := {
  tc_ports : is_Some (resolveToken ports) ∧ is_Some (isRevoked ports);
  tc_depth : (1 <= length chain <= MAX_DELEGATION_DEPTH)%nat;
  tc_acyclic : ∀ first, head chain = Some first →
    NoDup (dp_delegatorDid first :: (dp_delegateeDid <$> chain));
  tc_principal : ct_issuerDid token = ct_principalDid token;
  tc_hops i proof store revoked :
    chain !! i = Some proof → resolveToken ports = Some store → isRevoked ports = Some revoked →
    ∃ parent, trusted_hop ports store revoked token now proof parent
      ∧ match i with
        | O => chain_of parent = [] ∧ verifyCapabilityToken parent now None = Ok token_valid
        | S j => ∃ prev keys, chain !! j = Some prev
                   ∧ resolvePublicKeys ports (dp_delegatorDid prev) = Some keys
                   ∧ signed_by (createCapabilityTokenPayload parent) (tp_value (ct_proof parent))
                       (ct_issuedAt parent) keys
        end;
  tc_links i p q : chain !! i = Some p → chain !! S i = Some q →
    dp_delegatorDid q = dp_delegateeDid p
    ∧ dp_attenuatedCapabilities p ≡ₚ dp_parentCapabilities q;
  tc_leaf lastProof : last chain = Some lastProof →
    dp_delegateeDid lastProof = ct_issuedTo token
    ∧ ct_capabilities token ≡ₚ dp_attenuatedCapabilities lastProof
    ∧ ∃ keys, resolvePublicKeys ports (dp_delegatorDid lastProof) = Some keys
        ∧ signed_by (createCapabilityTokenPayload token) (tp_value (ct_proof token))
            (ct_issuedAt token) keys }.

Lemma verify_cutoff_signed payload sig ts keys :
  (bs ← payload; verify_cutoff ts bs sig keys) = Ok true → signed_by payload sig ts keys.
Proof.
  intros (bs & -> & Hv)%res_bind_ok. exists bs. split; [done|].
  unfold verify_cutoff, verify_dual in Hv. apply res_bind_ok in Hv as ([|] & Hc & Hv); [by left|].
  right. destruct (rk_previous keys) as [previous|]; [|done].
  destruct (rk_previousValidBefore keys) as [before|]; [|done].
  destruct (str_leb ts before) eqn:E; [|done]. by exists previous, before.
Qed.

(** The steps of one iteration, as a conjunction. *)
Definition hop_checks keys revoked store token now depth i prev proof next : Prop :=
  check_proof_signature depth i proof (keyMap_get keys (dp_delegatorDid proof)) = Ok None
  ∧ ∃ parent, store (dp_parentTokenId proof) = Some parent
    ∧ check_parent_binding depth i token parent proof = Ok None
    ∧ check_parent_signature depth i now parent
        ((λ p, keyMap_get keys (dp_delegatorDid p)) <$> prev) = Ok None
    ∧ check_attenuation depth i token parent proof = Ok None
    ∧ check_continuity depth i proof next = Ok None
    ∧ check_revocation depth i revoked proof = Ok None
    ∧ check_expiry depth i token now proof = Ok None
    ∧ check_link depth i proof prev = Ok None.

Lemma check_hop_None keys revoked store token now depth i prev proof next :
  check_hop keys revoked store token now depth i prev proof next = Ok None
  ↔ hop_checks keys revoked store token now depth i prev proof next.
Proof.
  unfold check_hop, hop_checks. rewrite and_then_None.
  destruct (store (dp_parentTokenId proof)) as [parent|].
  - rewrite !and_then_None. naive_solver.
  - naive_solver.
Qed.

Lemma check_hops_None keys revoked store token now depth i prev chain :
  check_hops keys revoked store token now depth i prev chain = Ok None
  ↔ ∀ k proof, chain !! k = Some proof →
      hop_checks keys revoked store token now depth (i + k)
        (match k with O => prev | S j => chain !! j end) proof (chain !! S k).
Proof.
  revert i prev. induction chain as [|p chain IH]; intros i prev; cbn [check_hops]; [done|].
  rewrite and_then_None, check_hop_None, IH. split.
  - intros [H0 Hrest] [|k] proof Hk; simpl in Hk.
    + injection Hk as <-. rewrite Nat.add_0_r. simpl. by rewrite <- head_lookup.
    + specialize (Hrest k proof Hk). rewrite Nat.add_succ_r. by destruct k.
  - intros Hall. split.
    + specialize (Hall 0%nat p eq_refl). rewrite Nat.add_0_r in Hall. simpl in Hall.
      by rewrite <- head_lookup in Hall.
    + intros k proof Hk. specialize (Hall (S k) proof Hk). rewrite Nat.add_succ_r in Hall.
      by destruct k.
Qed.
End spec.

(** ** A failure is never reported as valid *)

Definition rejects (c : check) : Prop := ∀ f, c = Ok (Some f) → cr_valid f = false.

Lemma rejects_and_then a b : rejects a → rejects b → rejects (and_then a b).
Proof.
  intros Ha Hb f. unfold and_then, mbind, res_bind. destruct a as [[f'|]|c]; [|apply Hb|done].
  intros [= <-]. by apply Ha.
Qed.
Lemma rejects_none : rejects (mret None).
Proof. by intros f [=]. Qed.
Lemma rejects_some f : cr_valid f = false → rejects (mret (Some f)).
Proof. by intros ? ? [= <-]. Qed.
Lemma rejects_require ok f : cr_valid f = false → rejects (require ok f).
Proof. intros Hf g. unfold require. destruct ok; [done|]. by intros [= <-]. Qed.
Lemma rejects_require_res ok f : cr_valid f = false → rejects (require_res ok f).
Proof.
  intros Hf g. unfold require_res, mbind, res_bind. destruct ok as [b|]; [|done].
  by apply rejects_require.
Qed.
Create HintDb rejects.
#[export] Hint Resolve rejects_and_then rejects_none rejects_some rejects_require
  rejects_require_res : rejects.

Section rejects.
Context `{Primitives}.

Lemma rejects_parent_signature depth i now parent prev :
  rejects (check_parent_signature depth i now parent prev).
Proof.
  unfold check_parent_signature. destruct prev as [[k|]|]; auto with rejects.
  apply rejects_and_then; [auto with rejects|]. intros f.
  intros ([|code] & _ & E)%res_bind_ok; [done|]. by injection E as <-.
Qed.

Lemma rejects_hop keys revoked store token now depth i prev proof next :
  rejects (check_hop keys revoked store token now depth i prev proof next).
Proof.
  unfold check_hop, check_proof_signature, check_parent_binding, check_attenuation,
    check_continuity, check_revocation, check_expiry, check_link.
  repeat case_match; auto 20 using rejects_parent_signature with rejects.
Qed.

Lemma rejects_hops keys revoked store token now depth i prev chain :
  rejects (check_hops keys revoked store token now depth i prev chain).
Proof.
  revert i prev. induction chain as [|p chain IH]; intros i prev; cbn [check_hops];
    auto using rejects_hop with rejects.
Qed.

Lemma rejects_methods depth k chain : rejects (check_methods depth k chain).
Proof.
  revert k. induction chain as [|p chain IH]; intros k; cbn [check_methods]; auto with rejects.
Qed.

Lemma rejects_leaf keys token chain depth : rejects (check_leaf keys token chain depth).
Proof.
  unfold check_leaf. repeat case_match; auto 20 using rejects_methods with rejects.
Qed.

Lemma validate_inv ports token now r chain :
  validateDelegationChain ports token now = Ok r → cr_valid r = true →
  ct_delegationChain token = Some chain → chain ≠ [] →
  capabilityToken_schema token = true ∧ ct_specVersion token ≠ "0.1.0"
  ∧ (length chain <= MAX_DELEGATION_DEPTH)%nat ∧ cycle_detected chain = false
  ∧ r = pass (length chain)
  ∧ ∃ store revoked, resolveToken ports = Some store ∧ isRevoked ports = Some revoked
    ∧ check_hops (keyMap ports chain) revoked store token now (length chain) 0 None chain = Ok None
    ∧ check_leaf (keyMap ports chain) token chain (length chain) = Ok None.
Proof.
  unfold validateDelegationChain. intros Hv Hr Hc Hne. rewrite Hc in Hv.
  destruct chain as [|p0 l0]; [done|]. set (chain := p0 :: l0) in *.
  destruct (capabilityToken_schema token); [|by injection Hv as <-]. cbn [negb] in Hv.
  destruct (String.eqb_spec (ct_specVersion token) "0.1.0"); [by injection Hv as <-|].
  destruct (resolveToken ports) as [store|]; [|by injection Hv as <-].
  destruct (isRevoked ports) as [revoked|]; [|by injection Hv as <-].
  destruct (Nat.ltb_spec MAX_DELEGATION_DEPTH (length chain)); [by injection Hv as <-|].
  destruct (cycle_detected chain); [by injection Hv as <-|].
  apply res_bind_ok in Hv as ([f|] & Ho & [= <-]).
  - simpl in Hr. apply rejects_and_then in Ho; [congruence|apply rejects_hops|apply rejects_leaf].
  - apply and_then_None in Ho as [Ho1 Ho2]. split_and!; try done. by exists store, revoked.
Qed.
End rejects.

Section trust.
Context `{PrimitiveLaws}.

Lemma check_proof_signature_None depth i proof keys :
  check_proof_signature depth i proof keys = Ok None →
  ∃ ks, keys = Some ks
    ∧ signed_by (delegationPayloadBytes proof) (tp_value (dp_proof proof))
        (tp_created (dp_proof proof)) ks.
Proof.
  unfold check_proof_signature. destruct keys as [ks|]; [|done].
  rewrite require_res_None. intros Hs%verify_cutoff_signed. eauto.
Qed.

Lemma check_parent_binding_None depth i token parent proof :
  check_parent_binding depth i token parent proof = Ok None →
  dp_delegatorDid proof = ct_issuedTo parent
  ∧ ct_issuerDid parent = ct_issuerDid token ∧ ct_principalDid parent = ct_principalDid token
  ∧ dp_parentCapabilities proof ≡ₚ ct_capabilities parent
  ∧ dp_parentExpiresAt proof = ct_expiresAt parent ∧ ct_id parent = dp_parentTokenId proof.
Proof.
  unfold check_parent_binding. rewrite !and_then_None, !require_None, require_res_None.
  intros (H1 & H2 & H3 & H4 & H5). apply capabilitiesEqual_spec in H3 as [H3 _].
  reflect_bools. done.
Qed.

Lemma check_attenuation_None depth i token parent proof :
  check_attenuation depth i token parent proof = Ok None ↔
  attenuates (dp_parentCapabilities proof) (dp_attenuatedCapabilities proof).
Proof.
  unfold check_attenuation.
  rewrite <- (validateAttenuation_ok (Some (ct_specVersion parent, ct_specVersion token))).
  by destruct (validateAttenuation _ _ _).
Qed.

Lemma check_expiry_None depth i token now proof :
  check_expiry depth i token now proof = Ok None ↔
  str_leb (ct_expiresAt token) (dp_parentExpiresAt proof) = true
  ∧ str_ltb now (dp_parentExpiresAt proof) = true.
Proof.
  unfold check_expiry. rewrite and_then_None, !require_None, !negb_true_iff, str_ltb_false.
  split; intros [H1 H2]; split; try done.
  - apply not_false_iff_true. rewrite str_ltb_false. congruence.
  - apply not_true_iff_false. intros Hx. rewrite (proj2 (str_ltb_false _ _) Hx) in H2. done.
Qed.

Lemma hop_checks_trusted ports chain revoked store token now depth i prev proof next :
  proof ∈ chain →
  hop_checks (keyMap ports chain) revoked store token now depth i prev proof next →
  ∃ parent, trusted_hop ports store revoked token now proof parent
    ∧ check_parent_signature depth i now parent
        ((λ p, keyMap_get (keyMap ports chain) (dp_delegatorDid p)) <$> prev) = Ok None.
Proof.
  intros Hin (Hsig & parent & Hst & Hb & Hps & Ha & _ & Hr & He & _).
  exists parent. split; [|done].
  rewrite keyMap_lookup in Hsig by (by apply list_elem_of_fmap_2).
  apply check_proof_signature_None in Hsig. apply check_parent_binding_None in Hb.
  apply check_attenuation_None in Ha. apply check_expiry_None in He.
  unfold check_revocation in Hr. rewrite require_None, negb_true_iff in Hr.
  destruct Hb as (? & ? & ? & ? & ? & ?), He as [? ?], Hsig as (ks & ? & ?).
  split; eauto.
Qed.

Lemma check_leaf_None ports token chain depth lastProof :
  last chain = Some lastProof → check_leaf (keyMap ports chain) token chain depth = Ok None →
  ct_issuerDid token = ct_principalDid token
  ∧ dp_delegateeDid lastProof = ct_issuedTo token
  ∧ ct_capabilities token ≡ₚ dp_attenuatedCapabilities lastProof
  ∧ ∃ keys, resolvePublicKeys ports (dp_delegatorDid lastProof) = Some keys
      ∧ signed_by (createCapabilityTokenPayload token) (tp_value (ct_proof token))
          (ct_issuedAt token) keys.
Proof.
  intros Hl. unfold check_leaf. rewrite Hl, !and_then_None, !require_None, require_res_None.
  rewrite keyMap_lookup by (apply list_elem_of_fmap_2; by apply last_Some_elem_of).
  intros (H1 & H2 & H3 & _ & _ & H5). apply capabilitiesEqual_spec in H3 as [H3 _]. reflect_bools.
  split_and!; try done.
  destruct (resolvePublicKeys ports (dp_delegatorDid lastProof)) as [keys|]; [|done].
  exists keys. split; [done|]. rewrite require_res_None in H5. by apply verify_cutoff_signed.
Qed.

Lemma validate_trusted ports token now r chain :
  validateDelegationChain ports token now = Ok r → cr_valid r = true →
  ct_delegationChain token = Some chain → chain ≠ [] →
  trusted_chain ports token now chain.
Proof.
  intros Hv Hr Hc Hne.
  destruct (validate_inv _ _ _ _ _ Hv Hr Hc Hne)
    as (_ & _ & Hd & Hcy & _ & store & revoked & Hs & Hrev & Hhops & Hleaf).
  rewrite check_hops_None in Hhops.
  split.
  - rewrite Hs, Hrev. eauto.
  - destruct chain; [done|]. simpl in *. lia.
  - intros first Hf. destruct chain as [|p l]; [done|]. injection Hf as ->.
    unfold cycle_detected in Hcy. apply has_cycle_false in Hcy as [Hnd Hall].
    apply NoDup_cons. split; [|done]. intros (q & E & Hq)%list_elem_of_fmap.
    apply (Hall q Hq). rewrite <- E. by apply elem_of_singleton.
  - destruct (last chain) as [lp|] eqn:El; [|by apply last_None in El].
    by destruct (check_leaf_None _ _ _ _ _ El Hleaf) as (? & _).
  - intros i proof store' revoked' Hi Hs' Hrev'. rewrite Hs in Hs'. rewrite Hrev in Hrev'.
    injection Hs' as <-. injection Hrev' as <-.
    destruct (hop_checks_trusted _ _ _ _ _ _ _ _ _ _ _ (list_elem_of_lookup_2 _ _ _ Hi)
                (Hhops i proof Hi)) as (parent & Ht & Hps).
    exists parent. split; [done|]. destruct i as [|j].
    + unfold check_parent_signature in Hps. cbn [fmap option_fmap option_map] in Hps.
      apply and_then_None in Hps as [Hl Hps]. apply require_None, Nat.eqb_eq in Hl.
      apply res_bind_ok in Hps as ([|code] & Hver & Hx); [|done].
      split; [by apply nil_length_inv|done].
    + destruct (lookup_lt_is_Some_2 chain j) as [prev Hprev].
      { apply lookup_lt_Some in Hi. lia. }
      rewrite Hprev in Hps. simpl in Hps.
      rewrite keyMap_lookup in Hps by (apply list_elem_of_fmap_2; by eapply list_elem_of_lookup_2).
      unfold check_parent_signature in Hps.
      destruct (resolvePublicKeys ports (dp_delegatorDid prev)) as [keys|] eqn:Ek; [|done].
      rewrite require_res_None in Hps. apply verify_cutoff_signed in Hps. eauto 10.
  - intros i p q Hp Hq. destruct (Hhops i p Hp) as (_ & _ & _ & _ & _ & _ & Hcont & _).
    destruct (Hhops (S i) q Hq) as (_ & _ & _ & _ & _ & _ & _ & _ & _ & Hlink).
    rewrite Hq in Hcont. unfold check_continuity in Hcont. rewrite require_res_None in Hcont.
    rewrite Hp in Hlink. unfold check_link in Hlink. rewrite require_None in Hlink. reflect_bools.
    split; [done|]. by apply capabilitiesEqual_spec in Hcont as [? _].
  - intros lp Hlp. by destruct (check_leaf_None _ _ _ _ _ Hlp Hleaf) as (_ & ? & ? & ?).
Qed.
End trust.

(** ** Authority along a chain *)

#[export] Instance scopes_for_Permutation a : Proper ((≡ₚ) ==> (≡ₚ)) (scopes_for a).
Proof. intros l1 l2 Hp. unfold scopes_for. by rewrite Hp. Qed.

#[export] Instance attenuates_Permutation : Proper ((≡ₚ) ==> (≡ₚ) ==> iff) attenuates.
Proof.
  assert (∀ p1 p2 c1 c2, p1 ≡ₚ p2 → c1 ≡ₚ c2 → attenuates p1 c1 → attenuates p2 c2) as Himp.
  { intros p1 p2 c1 c2 Hp Hc [E1 E2 U1 U2 A K N].
    unfold no_empty_allowlist, dims_unique in *.
    split; unfold no_empty_allowlist, dims_unique; setoid_rewrite <- Hp || setoid_rewrite <- Hc; eauto;
      try (setoid_rewrite <- Hc; eauto). }
  intros p1 p2 Hp c1 c2 Hc. split; apply Himp; done.
Qed.

Lemma capabilities_schema_Forall l :
  capabilities_schema l = true → Forall (λ c, capability_schema c = true) l.
Proof.
  unfold capabilities_schema. intros Hs. reflect_bools. apply Forall_forall. intros c Hc.
  rewrite forallb_forall in H. apply H. by apply list_elem_of_In.
Qed.

Lemma delegationProof_schema_caps p :
  delegationProof_schema p = true →
  Forall (λ c, capability_schema c = true) (dp_parentCapabilities p)
  ∧ Forall (λ c, capability_schema c = true) (dp_attenuatedCapabilities p).
Proof.
  unfold delegationProof_schema. intros Hs. reflect_bools.
  by split; apply capabilities_schema_Forall.
Qed.

Lemma token_schema_chain token chain p :
  capabilityToken_schema token = true → ct_delegationChain token = Some chain → p ∈ chain →
  delegationProof_schema p = true.
Proof.
  unfold capabilityToken_schema. intros Hs Hc Hp. rewrite Hc in Hs. reflect_bools.
  match goal with Hx : forallb delegationProof_schema chain = true |- _ =>
    rewrite forallb_forall in Hx; apply Hx end. by apply list_elem_of_In.
Qed.

(** A chain of linked, attenuating hops attenuates from end to end. *)
Lemma linked_chain_attenuates first rest lastProof :
  Forall (λ p, delegationProof_schema p = true
               ∧ attenuates (dp_parentCapabilities p) (dp_attenuatedCapabilities p)) (first :: rest) →
  (∀ i p q, (first :: rest) !! i = Some p → (first :: rest) !! S i = Some q →
     dp_attenuatedCapabilities p ≡ₚ dp_parentCapabilities q) →
  last (first :: rest) = Some lastProof →
  attenuates (dp_parentCapabilities first) (dp_attenuatedCapabilities lastProof).
Proof.
  revert first. induction rest as [|q rest IH]; intros first Hall Hlink Hlast.
  - injection Hlast as <-. by apply Forall_singleton in Hall as [_ ?].
  - apply Forall_cons in Hall as [[Sf Af] Hall].
    pose proof (Hlink 0%nat first q eq_refl eq_refl) as Hpq.
    assert (attenuates (dp_parentCapabilities q) (dp_attenuatedCapabilities lastProof)) as Aq.
    { apply IH; [done| |by rewrite last_cons_cons in Hlast].
      intros i p0 q0 Hp Hq. by apply (Hlink (S i)). }
    assert (delegationProof_schema lastProof = true) as Sl.
    { rewrite last_cons_cons in Hlast. apply last_Some_elem_of in Hlast.
      rewrite Forall_forall in Hall. by apply Hall in Hlast as [? _]. }
    apply (attenuates_trans _ (dp_attenuatedCapabilities first));
      [by apply delegationProof_schema_caps..|done|]. by rewrite Hpq.
Qed.

Section authority.
Context `{PrimitiveLaws}.

(** The capabilities of a validated leaf attenuate those of its root token. *)
Lemma validated_leaf_attenuates ports token now r first rest root store :
  validateDelegationChain ports token now = Ok r → cr_valid r = true →
  ct_delegationChain token = Some (first :: rest) →
  resolveToken ports = Some store → store (dp_parentTokenId first) = Some root →
  attenuates (ct_capabilities root) (ct_capabilities token).
Proof.
  intros Hv Hr Hc Hs Hroot.
  destruct (validate_inv _ _ _ _ _ Hv Hr Hc ltac:(done)) as (Hschema & _).
  destruct (validate_trusted _ _ _ _ _ Hv Hr Hc ltac:(done))
    as [[_ [revoked Hrev]] _ _ _ Hhops Hlinks Hleaf].
  destruct (last (first :: rest)) as [lp|] eqn:El; [|by apply last_None in El].
  destruct (Hleaf lp eq_refl) as (_ & Hcaps & _). rewrite Hcaps.
  destruct (Hhops 0%nat first store revoked eq_refl Hs Hrev) as (parent & Ht & _).
  destruct Ht as [_ Hp _ _ _ [Hsnap _] _ _ _ _]. rewrite Hroot in Hp. injection Hp as <-.
  rewrite <- Hsnap. apply (linked_chain_attenuates first rest lp); [|intros i p q Hp Hq; by eapply Hlinks|done].
  apply Forall_forall. intros p Hp. split; [by eapply token_schema_chain|].
  apply list_elem_of_lookup in Hp as [i Hi].
  destruct (Hhops i p store revoked Hi Hs Hrev) as (pt & [] & _). done.
Qed.
End authority.

(** ** Extending a chain *)

Section extend.
Context `{PrimitiveLaws}.

(** The facts one iteration checks, without indices and depths. *)
Definition hop_facts (keys : string → option ResolvedPublicKeys) (revoked : string → bool)
    (store : string → option CapabilityToken) (token : CapabilityToken) (now : string)
    (prev : option DelegationProof) (proof : DelegationProof) (next : option DelegationProof)
    : Prop :=
  (∃ ks, keys (dp_delegatorDid proof) = Some ks ∧
     (bs ← delegationPayloadBytes proof;
      verify_cutoff (tp_created (dp_proof proof)) bs (tp_value (dp_proof proof)) ks) = Ok true)
  ∧ ∃ parent, store (dp_parentTokenId proof) = Some parent
    ∧ dp_delegatorDid proof = ct_issuedTo parent
    ∧ (ct_issuerDid parent = ct_issuerDid token ∧ ct_principalDid parent = ct_principalDid token)
    ∧ capabilitiesEqual (dp_parentCapabilities proof) (ct_capabilities parent) = Ok true
    ∧ dp_parentExpiresAt proof = ct_expiresAt parent
    ∧ ct_id parent = dp_parentTokenId proof
    ∧ match prev with
      | None => chain_of parent = [] ∧ verifyCapabilityToken parent now None = Ok token_valid
      | Some p => ∃ ks, keys (dp_delegatorDid p) = Some ks ∧ verify_token_signature parent ks = Ok true
      end
    ∧ attenuates (dp_parentCapabilities proof) (dp_attenuatedCapabilities proof)
    ∧ (∀ n, next = Some n →
         capabilitiesEqual (dp_attenuatedCapabilities proof) (dp_parentCapabilities n) = Ok true)
    ∧ revoked (dp_parentTokenId proof) = false
    ∧ (str_leb (ct_expiresAt token) (dp_parentExpiresAt proof) = true
       ∧ str_ltb now (dp_parentExpiresAt proof) = true)
    ∧ (∀ p, prev = Some p → dp_delegatorDid proof = dp_delegateeDid p).

Lemma check_parent_signature_None depth i now parent prev :
  check_parent_signature depth i now parent prev = Ok None ↔
  match prev with
  | None => chain_of parent = [] ∧ verifyCapabilityToken parent now None = Ok token_valid
  | Some k => ∃ ks, k = Some ks ∧ verify_token_signature parent ks = Ok true
  end.
Proof.
  unfold check_parent_signature. destruct prev as [[ks|]|].
  - rewrite require_res_None. naive_solver.
  - naive_solver.
  - rewrite and_then_None, require_None, Nat.eqb_eq, length_zero_iff_nil.
    apply and_iff_compat_l. split.
    + intros ([|c] & -> & E)%res_bind_ok; [done|discriminate].
    + by intros ->.
Qed.

Lemma hop_checks_facts keys revoked store token now depth i prev proof next :
  hop_checks keys revoked store token now depth i prev proof next ↔
  hop_facts (keyMap_get keys) revoked store token now prev proof next.
Proof.
  unfold hop_checks, hop_facts. apply and_iff_compat_both || f_equiv.
  - unfold check_proof_signature. destruct (keyMap_get keys (dp_delegatorDid proof)) as [ks|].
    + rewrite require_res_None. naive_solver.
    + naive_solver.
  - apply exist_proper. intros parent. apply and_iff_compat_l.
    rewrite check_parent_signature_None, check_attenuation_None, check_expiry_None.
    unfold check_parent_binding, check_continuity, check_revocation, check_link.
    rewrite !and_then_None, !require_None, !require_res_None, negb_true_iff, andb_true_iff, !String.eqb_eq.
    assert ((match next with None => mret None
      | Some n => require_res (capabilitiesEqual (dp_attenuatedCapabilities proof)
                                 (dp_parentCapabilities n))
          (fail_detail depth DELEGATION_CHAIN_INVALID (Some (S i)) (capabilities_mismatch "continuity"))
      end = Ok None) ↔ (∀ n, next = Some n →
         capabilitiesEqual (dp_attenuatedCapabilities proof) (dp_parentCapabilities n) = Ok true)) as ->.
    { destruct next; [rewrite require_res_None|]; naive_solver. }
    assert ((match prev with None => mret None
      | Some p => require (String.eqb (dp_delegatorDid proof) (dp_delegateeDid p))
          (fail_at depth DELEGATOR_MISMATCH i) end = Ok None)
      ↔ (∀ p, prev = Some p → dp_delegatorDid proof = dp_delegateeDid p)) as ->.
    { destruct prev; [rewrite require_None, String.eqb_eq|]; naive_solver. }
    destruct prev; simpl; tauto.
Qed.

Lemma check_methods_None depth k chain :
  check_methods depth k chain = Ok None ↔
  Forall (λ p, parseDidFromVerificationMethod (tp_verificationMethod (dp_proof p))
               = dp_delegatorDid p) chain.
Proof.
  revert k. induction chain as [|p chain IH]; intros k; cbn [check_methods]; [by split|].
  by rewrite and_then_None, require_None, String.eqb_eq, IH, Forall_cons.
Qed.

Definition leaf_facts (keys : string → option ResolvedPublicKeys) (token : CapabilityToken)
    (chain : list DelegationProof) (lastProof : DelegationProof) : Prop :=
  ct_issuerDid token = ct_principalDid token
  ∧ dp_delegateeDid lastProof = ct_issuedTo token
  ∧ capabilitiesEqual (ct_capabilities token) (dp_attenuatedCapabilities lastProof) = Ok true
  ∧ parseDidFromVerificationMethod (tp_verificationMethod (ct_proof token)) = dp_delegatorDid lastProof
  ∧ Forall (λ p, parseDidFromVerificationMethod (tp_verificationMethod (dp_proof p))
               = dp_delegatorDid p) chain
  ∧ ∃ ks, keys (dp_delegatorDid lastProof) = Some ks ∧ verify_token_signature token ks = Ok true.

Lemma check_leaf_facts keys token chain depth lastProof :
  last chain = Some lastProof →
  check_leaf keys token chain depth = Ok None ↔ leaf_facts (keyMap_get keys) token chain lastProof.
Proof.
  intros Hl. unfold check_leaf, leaf_facts.
  rewrite Hl, !and_then_None, !require_None, require_res_None, check_methods_None, !String.eqb_eq.
  destruct (keyMap_get keys (dp_delegatorDid lastProof)) as [ks|].
  - rewrite require_res_None. naive_solver.
  - naive_solver.
Qed.

(** The validator accepts exactly the tokens that satisfy all facts. *)
Lemma validate_facts ports token now chain lastProof store revoked :
  ct_delegationChain token = Some chain → last chain = Some lastProof →
  resolveToken ports = Some store → isRevoked ports = Some revoked →
  (∃ r, validateDelegationChain ports token now = Ok r ∧ cr_valid r = true) ↔
  capabilityToken_schema token = true ∧ ct_specVersion token ≠ "0.1.0"
  ∧ (length chain <= MAX_DELEGATION_DEPTH)%nat ∧ cycle_detected chain = false
  ∧ (∀ k proof, chain !! k = Some proof →
       hop_facts (resolvePublicKeys ports) revoked store token now
         (match k with O => None | S j => chain !! j end) proof (chain !! S k))
  ∧ leaf_facts (resolvePublicKeys ports) token chain lastProof.
Proof.
  intros Hc Hl Hs Hr.
  assert (chain ≠ []) as Hne by (by intros ->).
  assert (∀ p, p ∈ chain → keyMap_get (keyMap ports chain) (dp_delegatorDid p)
            = resolvePublicKeys ports (dp_delegatorDid p)) as Hkeys.
  { intros p Hp. apply keyMap_lookup. by apply list_elem_of_fmap_2. }
  assert (check_leaf (keyMap ports chain) token chain (length chain) = Ok None ↔
          leaf_facts (resolvePublicKeys ports) token chain lastProof) as Hleaf.
  { rewrite (check_leaf_facts _ _ _ _ _ Hl). unfold leaf_facts.
    by rewrite Hkeys by (by apply last_Some_elem_of). }
  assert (check_hops (keyMap ports chain) revoked store token now (length chain) 0 None chain = Ok None
    ↔ ∀ k proof, chain !! k = Some proof →
       hop_facts (resolvePublicKeys ports) revoked store token now
         (match k with O => None | S j => chain !! j end) proof (chain !! S k)) as Hhops.
  { rewrite check_hops_None. apply forall_proper; intros k. apply forall_proper; intros proof.
    split; intros Hk Hkp; specialize (Hk Hkp); revert Hk; rewrite hop_checks_facts; unfold hop_facts;
      rewrite Hkeys by (by eapply list_elem_of_lookup_2); destruct k as [|j]; try done;
      destruct (chain !! j) as [pj|] eqn:Ej; try done;
      by rewrite (Hkeys pj) by (by eapply list_elem_of_lookup_2). }
  split.
  - intros (r & Hv & Hr').
    destruct (validate_inv _ _ _ _ _ Hv Hr' Hc Hne)
      as (? & ? & ? & ? & _ & s' & r' & Hs' & Hr'' & Hh & Hlf).
    rewrite Hs in Hs'. rewrite Hr in Hr''. injection Hs' as <-. injection Hr'' as <-.
    split_and!; try done; [by apply Hhops|by apply Hleaf].
  - intros (H1 & H2 & H3 & H4 & H5%Hhops & H6%Hleaf). exists (pass (length chain)). split; [|done].
    unfold validateDelegationChain. rewrite Hc, H1, Hs, Hr.
    destruct chain as [|p0 l0]; [done|].
    rewrite (proj2 (String.eqb_neq _ _) H2), H4, (proj2 (Nat.ltb_ge _ _) H3). cbn [negb].
    by rewrite (proj2 (and_then_None _ _) (conj H5 H6)).
Qed.

Lemma delegate_inv `{UrlParser} uuid ps child :
  delegateCapabilityToken uuid ps = Ok child →
  let parent := dg_parentToken ps in
  str_leb (dg_expiresAt ps) (ct_expiresAt parent) = true
  ∧ attenuates (ct_capabilities parent) (dg_attenuatedCapabilities ps)
  ∧ (length (chain_of parent) < MAX_DELEGATION_DEPTH)%nat
  ∧ ∃ pb psig tb tsig proof,
      delegationPayloadBytes proof = Ok pb
      ∧ sign pb (dg_delegatorPrivateKey ps) IDENTITY_ENCODING = Ok psig
      ∧ createCapabilityTokenPayload child = Ok tb
      ∧ sign tb (dg_delegatorPrivateKey ps) IDENTITY_ENCODING = Ok tsig
      ∧ proof = mkDelegationProof (ct_id parent) (ct_issuedTo parent) (dg_delegateeDid ps)
          (ct_capabilities parent) (ct_expiresAt parent) (dg_attenuatedCapabilities ps)
          (mkTokenProof (dg_issuedAt ps) (ct_issuedTo parent +:+ "#key-1") psig) (dg_dcVersion ps)
      ∧ child = mkCapabilityToken ("urn:cap:" +:+ uuid) SPEC_VERSION_0_2_0 (ct_issuerDid parent)
          (ct_principalDid parent) (dg_delegateeDid ps) (dg_issuedAt ps) (dg_expiresAt ps)
          (dg_attenuatedCapabilities ps) (dg_revocationUrl ps)
          (mkTokenProof (dg_issuedAt ps) (ct_issuedTo parent +:+ "#key-1") tsig)
          (Some (chain_of parent ++ [proof])).
Proof.
  unfold delegateCapabilityToken. destruct (isDidAgent _); [|done].
  destruct (Nat.eqb _ 0); [done|]. destruct (isTimestampExpired _ _); [done|]. cbn [negb].
  destruct (str_ltb _ _) eqn:He; [done|]. destruct (isValidRevocationUrlTemplate _); [|done].
  destruct (validateAttenuation _ _ _) eqn:Ha; [|done].
  destruct (Nat.ltb_spec MAX_DELEGATION_DEPTH (length (chain_of (dg_parentToken ps)) + 1)); [done|].
  cbn [negb]. intros (pb & Hpb & (psig & Hps & (tb & Htb & (tsig & Hts & [= <-])
    %res_bind_ok)%res_bind_ok)%res_bind_ok)%res_bind_ok.
  split_and!; [by apply str_ltb_false|by eapply validateAttenuation_ok|lia|].
  eexists pb, psig, tb, tsig, _. split_and!; [| | | |reflexivity|reflexivity]; done.
Qed.

Lemma str_before_app c a b : str_forallb (λ x, negb (Ascii.eqb x c)) a = true →
  str_before c (a +:+ String.String c b) = a.
Proof.
  induction a as [|x a IH]; intros Ha.
  - change (str_before c (String.String c b) = ""). simpl. by rewrite Ascii.eqb_refl.
  - simpl in Ha. apply andb_true_iff in Ha as [Hx Ha]. apply negb_true_iff in Hx.
    change (str_before c (String.String x (a +:+ String.String c b)) = String.String x a).
    cbn [str_before]. by rewrite Hx, IH.
Qed.

Lemma method_of_agent did : isDidAgent did = true → parseDidFromVerificationMethod (did +:+ "#key-1") = did.
Proof.
  unfold isDidAgent. intros [Hs Hid]%andb_true_iff. apply str_startsWith_inv in Hs as [r ->].
  apply andb_true_iff in Hid as [_ Hx]. rewrite chars_app in Hx.
  change (drop 10 (chars "did:agent:" ++ chars r)) with (chars r) in Hx.
  apply str_before_app.
  change (str_forallb (λ x, negb (Ascii.eqb x "#")) r = true).
  induction r as [|c r IH]; [done|]. cbn [chars forallb] in Hx. apply andb_true_iff in Hx as [Hc Hx].
  cbn [str_forallb]. rewrite (IH Hx), andb_true_r. destruct (Ascii.eqb_spec c "#") as [->|]; done.
Qed.

Lemma payload_serializable p bs :
  delegationPayloadBytes p = Ok bs →
  Forall (λ c, assertSerializable (capability_json c) = true) (dp_parentCapabilities p)
  ∧ Forall (λ c, assertSerializable (capability_json c) = true) (dp_attenuatedCapabilities p).
Proof.
  intros (s & [Hs _]%canonicalize_inv & _)%res_bind_ok.
  assert (∀ l, forallb assertSerializable (capability_json <$> l) = true →
    Forall (λ c, assertSerializable (capability_json c) = true) l) as Hl.
  { intros l Hf. apply Forall_forall. intros c Hc. rewrite forallb_forall in Hf. apply Hf.
    apply list_elem_of_In. by apply list_elem_of_fmap_2. }
  destruct p as [? ? ? pc ? ac ? [v|]]; cbn in Hs |- *; rewrite !andb_true_iff in Hs; destruct_and!;
    split; by apply Hl.
Qed.

(** The parent is accepted: a root token by its own verification, a delegated
    one by its chain. *)
Definition accepted (ports : ChainPorts) (t : CapabilityToken) (now : string) : Prop :=
  (chain_of t = [] ∧ ct_issuerDid t = ct_principalDid t
   ∧ verifyCapabilityToken t now None = Ok token_valid)
  ∨ (chain_of t ≠ [] ∧ ∃ r, validateDelegationChain ports t now = Ok r ∧ cr_valid r = true).

Lemma accepted_agent ports t now : accepted ports t now → isDidAgent (ct_issuedTo t) = true.
Proof.
  assert (capabilityToken_schema t = true → isDidAgent (ct_issuedTo t) = true) as Hs.
  { unfold capabilityToken_schema. intros. by reflect_bools. }
  intros [(_ & _ & Hv)|(Hne & r & Hv & Hr)]; apply Hs.
  - unfold verifyCapabilityToken in Hv. by destruct (capabilityToken_schema t).
  - unfold chain_of in Hne. destruct (ct_delegationChain t) as [chain|] eqn:Hc; [|done].
    by destruct (validate_inv _ _ _ _ _ Hv Hr Hc Hne).
Qed.

Lemma hop_facts_transfer keys revoked store t1 t2 now prev proof next1 next2 :
  ct_issuerDid t2 = ct_issuerDid t1 → ct_principalDid t2 = ct_principalDid t1 →
  str_leb (ct_expiresAt t2) (ct_expiresAt t1) = true →
  (∀ n, next2 = Some n → next1 = Some n
     ∨ capabilitiesEqual (dp_attenuatedCapabilities proof) (dp_parentCapabilities n) = Ok true) →
  hop_facts keys revoked store t1 now prev proof next1 →
  hop_facts keys revoked store t2 now prev proof next2.
Proof.
  intros Ei Ep Hle Hn (Hk & parent & Hs & Hd & [? ?] & Hc & He & Hid & Hprev & Ha & Hnext & Hr & [Hx ?] & Hl).
  split; [done|]. exists parent. rewrite Ei, Ep. split_and!; try done.
  - intros n Hn2. destruct (Hn n Hn2); auto.
  - by eapply str_leb_trans.
Qed.

Lemma capabilitiesEqual_sym a b : capabilitiesEqual a b = Ok true → capabilitiesEqual b a = Ok true.
Proof.
  rewrite !capabilitiesEqual_spec. intros [Hp Hs]. split; [by symmetry|]. by rewrite <- Hp.
Qed.

Lemma verify_cutoff_current ts bs sig keys :
  verify bs sig (rk_current keys) = Ok true → verify_cutoff ts bs sig keys = Ok true.
Proof. unfold verify_cutoff, verify_dual. by intros ->. Qed.

Lemma cycle_snoc chain proof :
  cycle_detected chain = false →
  dp_delegateeDid proof ∉ dp_delegateeDid <$> chain →
  dp_delegateeDid proof ≠ dp_delegatorDid (default proof (head chain)) →
  cycle_detected (chain ++ [proof]) = false.
Proof.
  intros Hc Hnew Hroot.
  destruct chain as [|p chain]; simpl in Hroot.
  - unfold cycle_detected. apply has_cycle_false. split; [apply NoDup_singleton|].
    intros q ->%list_elem_of_singleton. set_solver.
  - unfold cycle_detected in *. cbn [app]. apply has_cycle_false in Hc as [Hnd Hall].
    apply has_cycle_false. rewrite app_comm_cons, fmap_app, NoDup_app. split.
    + split_and!; [done| |apply NoDup_singleton]. intros d Hd Hd2.
      simpl in Hd2. apply list_elem_of_singleton in Hd2 as ->. done.
    + intros q [Hq| ->%list_elem_of_singleton]%elem_of_app; [by apply Hall|]. set_solver.
Qed.

(** What the acceptance of a token says of its chain. *)
Lemma accepted_facts ports store revoked t now :
  resolveToken ports = Some store → isRevoked ports = Some revoked →
  accepted ports t now →
  let chain := chain_of t in
  cycle_detected chain = false
  ∧ ct_issuerDid t = ct_principalDid t
  ∧ (∀ k q, chain !! k = Some q → hop_facts (resolvePublicKeys ports) revoked store t now
       (match k with O => None | S j => chain !! j end) q (chain !! S k))
  ∧ (∀ lp, last chain = Some lp → leaf_facts (resolvePublicKeys ports) t chain lp)
  ∧ (chain = [] → verifyCapabilityToken t now None = Ok token_valid).
Proof.
  intros Hst Hrev [(E & Ei & Hv)|(Hne & Hval)] chain; unfold chain; clear chain.
  - rewrite E. by split_and!.
  - destruct (last (chain_of t)) as [lp|] eqn:El; [|by apply last_None in El].
    assert (ct_delegationChain t = Some (chain_of t)) as Hc.
    { unfold chain_of in *. by destruct (ct_delegationChain t). }
    destruct (proj1 (validate_facts _ _ _ _ _ _ _ Hc El Hst Hrev) Hval) as (_ & _ & _ & ? & ? & Hl).
    split_and!; try done; [by destruct Hl|by intros ? [= <-]].
Qed.

(** The hops of the parent's chain, seen from the child. *)
Lemma old_hops keys revoked store parent child now chain proof :
  ct_issuerDid child = ct_issuerDid parent → ct_principalDid child = ct_principalDid parent →
  str_leb (ct_expiresAt child) (ct_expiresAt parent) = true →
  dp_parentCapabilities proof = ct_capabilities parent →
  (∀ k q, chain !! k = Some q → hop_facts keys revoked store parent now
     (match k with O => None | S j => chain !! j end) q (chain !! S k)) →
  (∀ lp, last chain = Some lp → leaf_facts keys parent chain lp) →
  ∀ k q, chain !! k = Some q → hop_facts keys revoked store child now
     (match k with O => None | S j => (chain ++ [proof]) !! j end) q ((chain ++ [proof]) !! S k).
Proof.
  intros Ei Ep Hexp Ec Hhops Hleaf k q Hk. apply lookup_lt_Some in Hk as Hlt.
  assert (match k with O => None | S j => (chain ++ [proof]) !! j end
          = match k with O => None | S j => chain !! j end) as ->.
  { destruct k as [|j]; [done|]. apply lookup_app_l. lia. }
  apply (hop_facts_transfer _ _ _ parent _ _ _ _ (chain !! S k)); [done..| |by apply Hhops].
  intros n Hn. apply lookup_app_Some in Hn as [?|[Hl Hn]]; [by left|right].
  destruct (S k - length chain)%nat eqn:Ek; [|done]. injection Hn as <-.
  assert (last chain = Some q) as Hq.
  { rewrite last_lookup. by replace (pred (length chain)) with k by lia. }
  destruct (Hleaf q Hq) as (_ & _ & Hcaps & _). apply capabilitiesEqual_sym. by rewrite Ec.
Qed.

(** The hop that the delegation adds. *)
Lemma new_hop keys revoked store parent child now chain proof ks :
  chain = chain_of parent →
  (chain = [] → verifyCapabilityToken parent now None = Ok token_valid) →
  (∀ lp, last chain = Some lp → leaf_facts keys parent chain lp) →
  keys (dp_delegatorDid proof) = Some ks →
  (bs ← delegationPayloadBytes proof;
   verify_cutoff (tp_created (dp_proof proof)) bs (tp_value (dp_proof proof)) ks) = Ok true →
  store (dp_parentTokenId proof) = Some parent → dp_delegatorDid proof = ct_issuedTo parent →
  ct_issuerDid child = ct_issuerDid parent → ct_principalDid child = ct_principalDid parent →
  capabilitiesEqual (dp_parentCapabilities proof) (ct_capabilities parent) = Ok true →
  dp_parentExpiresAt proof = ct_expiresAt parent → ct_id parent = dp_parentTokenId proof →
  attenuates (dp_parentCapabilities proof) (dp_attenuatedCapabilities proof) →
  revoked (dp_parentTokenId proof) = false →
  str_leb (ct_expiresAt child) (ct_expiresAt parent) = true →
  str_ltb now (ct_expiresAt parent) = true →
  hop_facts keys revoked store child now
    (match length chain with O => None | S j => (chain ++ [proof]) !! j end) proof
    ((chain ++ [proof]) !! S (length chain)).
Proof.
  intros Ec Hroot Hleaf Hk Hsig Hs Hd Ei Ep Hc He Hid Ha Hr Hx1 Hx2.
  rewrite (lookup_ge_None_2 (chain ++ [proof])) by (rewrite length_app; simpl; lia).
  assert (match length chain with O => None | S j => (chain ++ [proof]) !! j end = last chain) as ->.
  { rewrite last_lookup. destruct (length chain) as [|j] eqn:El; [by apply nil_length_inv in El as ->|].
    simpl. apply lookup_app_l. lia. }
  split; [by eauto|]. exists parent. rewrite He. split_and!; try done.
  - destruct (last chain) as [lp|] eqn:El.
    + destruct (Hleaf lp eq_refl) as (_ & _ & _ & _ & _ & ?). done.
    + apply last_None in El. by rewrite <- Ec, El; auto.
  - intros p Hp. destruct (Hleaf p Hp) as (_ & Hdp & _). congruence.
Qed.

(** A delegation from an accepted token is accepted, one level deeper. *)
Lemma delegate_accepted `{UrlParser} ports store revoked uuid ps child now keys :
  let parent := dg_parentToken ps in
  resolveToken ports = Some store → isRevoked ports = Some revoked →
  accepted ports parent now →
  store (ct_id parent) = Some parent → revoked (ct_id parent) = false →
  resolvePublicKeys ports (ct_issuedTo parent) = Some keys →
  keypair (dg_delegatorPrivateKey ps) (rk_current keys) →
  str_ltb now (ct_expiresAt parent) = true →
  dg_delegateeDid ps ∉ ct_issuedTo parent ::
    ((dp_delegatorDid <$> chain_of parent) ++ (dp_delegateeDid <$> chain_of parent)) →
  delegateCapabilityToken uuid ps = Ok child →
  capabilityToken_schema child = true →
  Forall (λ s, detectEncoding s = enc_base64url)
    (tp_value (ct_proof child) :: ((λ p, tp_value (dp_proof p)) <$> chain_of child)) →
  accepted ports child now.
Proof.
  intros parent Hst Hrev Hacc Hstore Hnrev Hkeys Hpair Hnow Hfresh Hdel Hschema Henc.
  destruct (delegate_inv _ _ _ Hdel)
    as (Hexp & Hatt & Hdepth & pb & psig & tb & tsig & proof & Hpb & Hps & Htb & Hts & Eproof & Echild).
  fold parent in Hexp, Hatt, Hdepth, Eproof, Echild.
  pose proof (accepted_agent _ _ _ Hacc) as Hagent.
  destruct (accepted_facts _ _ _ _ _ Hst Hrev Hacc) as (Hcy & Hip & Hhops & Hleaf & Hroot).
  set (chain := chain_of parent) in *.
  assert (ct_delegationChain child = Some (chain ++ [proof])) as Hchain by (by subst child).
  assert (last (chain ++ [proof]) = Some proof) as Hlast by apply last_snoc.
  assert (detectEncoding psig = enc_base64url ∧ detectEncoding tsig = enc_base64url) as [Dp Dt].
  { unfold chain_of in Henc. rewrite Hchain in Henc. cbn [default from_option id] in Henc.
    rewrite fmap_app in Henc. apply Forall_cons in Henc as [Ht [_ [Hp _]%Forall_cons]%Forall_app].
    rewrite Echild in Ht. rewrite Eproof in Hp. by split. }
  pose proof (sign_keypair pb _ _ psig Hpair Hps Dp) as Vp.
  pose proof (sign_keypair tb _ _ tsig Hpair Hts Dt) as Vt.
  destruct (payload_serializable _ _ Hpb) as [Sp Sa].
  right. unfold chain_of. rewrite Hchain. split; [by destruct chain|].
  apply (validate_facts _ _ _ _ _ _ _ Hchain Hlast Hst Hrev). split_and!.
  - done.
  - by subst child.
  - rewrite length_app. simpl. lia.
  - apply cycle_snoc; [done|subst proof; set_solver|]. subst proof. destruct chain; set_solver.
  - intros k q Hk. apply lookup_app_Some in Hk as [Hk|[Hlen Hk]].
    + by apply (old_hops _ _ _ parent); subst.
    + destruct (k - length chain)%nat eqn:Ek; [|done]. injection Hk as <-.
      assert (k = length chain) as -> by lia.
      apply (new_hop _ _ _ parent _ _ _ _ keys); subst proof child; try done.
      * rewrite Hpb. by apply verify_cutoff_current.
      * by apply capabilitiesEqual_spec.
  - split_and!; [by subst| by subst|subst; by apply capabilitiesEqual_spec| | |].
    + subst. by apply method_of_agent.
    + apply Forall_app. split; [|apply Forall_singleton; subst proof; by apply method_of_agent].
      destruct (last chain) as [lp|] eqn:El; [by destruct (Hleaf lp eq_refl) as (_&_&_&_&?&_)|].
      apply last_None in El. by rewrite El.
    + exists keys. split; [by subst proof|]. unfold verify_token_signature. rewrite Htb.
      cbn [mbind res_bind]. apply verify_cutoff_current. by subst child.
Qed.
End extend.

(** ** Theorems *)

(** C5.  A validated chain is a trusted chain: when the validator accepts a
    token with a non-empty chain, both lookup ports were present, the depth is
    the length of the chain, between one and five, no agent occurs twice, the
    issuer is the principal, every hop is signed by its delegator and backed by
    the authoritative, unrevoked, unexpired parent token of the same principal,
    the root parent verifies on its own, every other parent is signed by the
    previous delegator, consecutive hops are linked in agent and capabilities,
    and the leaf is held by the last delegatee and signed by the last
    delegator. *)
Theorem validated_chain_trusted `{PrimitiveLaws} ports token now r chain :
  validateDelegationChain ports token now = Ok r → cr_valid r = true →
  ct_delegationChain token = Some chain → chain ≠ [] →
  cr_depth r = length chain ∧ trusted_chain ports token now chain.
Proof.
  intros Hv Hr Hc Hne. split; [|by eapply validate_trusted].
  by destruct (validate_inv _ _ _ _ _ Hv Hr Hc Hne) as (_ & _ & _ & _ & -> & _).
Qed.

(** C4.  Authority never grows along a chain: whatever the number of hops,
    every request the capabilities of a validated leaf token permit is
    permitted by the capabilities of the root token the principal signed.
    Conditions: the capabilities of the root token satisfy the schema (those of
    the leaf do, the validator checks them); the tracker, where there is one,
    admits under a larger limit what it admits under a smaller one; and between
    the temporal scopes of the leaf and of the root for one action the bounds
    are dates of the calendar and no window of the leaf sits in the
    after-midnight part of a window of the root that is restricted to days of
    the week ([temporal_safe_all], see [attenuation_midnight_gap]). *)
Theorem validated_leaf_authority `{PrimitiveLaws} `{Intl} {W} (tr : option (CumulativeTracker W))
    ports token now r first rest root store action p t w :
  (∀ T, tr = Some T → TrackerLaws T) →
  validateDelegationChain ports token now = Ok r → cr_valid r = true →
  ct_delegationChain token = Some (first :: rest) →
  resolveToken ports = Some store → store (dp_parentTokenId first) = Some root →
  Forall (λ c, capability_schema c = true) (ct_capabilities root) →
  temporal_safe_all (ct_capabilities root) (ct_capabilities token) →
  request_permitted tr (ct_capabilities token) action p t w →
  request_permitted tr (ct_capabilities root) action p t w.
Proof.
  intros HT Hv Hr Hc Hs Hroot Sroot Hsafe.
  destruct (validate_inv _ _ _ _ _ Hv Hr Hc ltac:(done)) as (Hschema & _).
  apply attenuates_sound; try done.
  - by eapply validated_leaf_attenuates.
  - apply capabilities_schema_Forall. unfold capabilityToken_schema in Hschema. by reflect_bools.
Qed.

(** An honest delegation: the delegator holds the parent token, signs with its
    current key while the parent is alive, stored and not revoked, and names a
    fresh agent. *)
Record honest_delegation `{Primitives} `{UrlParser} (ports : ChainPorts) (now uuid : string)
    (ps : DelegateTokenParams) (child : CapabilityToken) : Prop := {
  hd_stored : ∃ store, resolveToken ports = Some store
    ∧ store (ct_id (dg_parentToken ps)) = Some (dg_parentToken ps);
  hd_not_revoked : ∃ revoked, isRevoked ports = Some revoked
    ∧ revoked (ct_id (dg_parentToken ps)) = false;
  hd_key : ∃ keys, resolvePublicKeys ports (ct_issuedTo (dg_parentToken ps)) = Some keys
    ∧ keypair (dg_delegatorPrivateKey ps) (rk_current keys);
  hd_alive : str_ltb now (ct_expiresAt (dg_parentToken ps)) = true;
  hd_fresh : dg_delegateeDid ps ∉ ct_issuedTo (dg_parentToken ps) ::
    ((dp_delegatorDid <$> chain_of (dg_parentToken ps))
     ++ (dp_delegateeDid <$> chain_of (dg_parentToken ps)));
  hd_delegate : delegateCapabilityToken uuid ps = Ok child;
  hd_schema : capabilityToken_schema child = true;
  hd_encoding : Forall (λ s, detectEncoding s = enc_base64url)
    (tp_value (ct_proof child) :: ((λ p, tp_value (dp_proof p)) <$> chain_of child)) }.

(** Tokens reached from a principal's token by honest delegations. *)
Inductive honest_token `{Primitives} `{UrlParser} (ports : ChainPorts) (now : string)
    : CapabilityToken → Prop :=
| honest_root t :
    chain_of t = [] → ct_issuerDid t = ct_principalDid t →
    verifyCapabilityToken t now None = Ok token_valid → honest_token ports now t
| honest_step uuid ps child :
    honest_token ports now (dg_parentToken ps) →
    honest_delegation ports now uuid ps child → honest_token ports now child.

(** C34.  Honest delegations are accepted: every token reached from a verifying
    root token by any number of honest delegations is accepted; if it is
    delegated, the validator returns valid with the depth of its chain. *)
Theorem honest_delegations_accepted `{PrimitiveLaws} `{UrlParser} ports now t :
  honest_token ports now t →
  accepted ports t now
  ∧ (chain_of t ≠ [] → validateDelegationChain ports t now = Ok (pass (length (chain_of t)))).
Proof.
  intros Ht. assert (accepted ports t now) as Hacc.
  { induction Ht as [t Hc Hi Hv|uuid ps child _ IH [Hs Hr Hk Ha Hf Hd Hsc He]]; [left; done|].
    destruct Hs as (store & ? & ?), Hr as (revoked & ? & ?), Hk as (keys & ? & ?).
    by eapply (delegate_accepted ports store revoked uuid ps child now keys). }
  split; [done|]. intros Hne. destruct Hacc as [[? _]|(_ & r & Hv & Hr)]; [done|].
  assert (ct_delegationChain t = Some (chain_of t)) as Hc.
  { unfold chain_of in *. by destruct (ct_delegationChain t). }
  destruct (validate_inv _ _ _ _ _ Hv Hr Hc Hne) as (_ & _ & _ & _ & -> & _). done.
Qed.
