(* ===== verification/Examples.v ===== *)
(** * A concrete delegation

    A root token issued by a principal, delegated twice, checked with the toy
    primitives of ToyPrimitives.v: the values at which the theorems on tokens
    and chains are applied. *)
From S2P Require Import Prelude JsValue Time Encoding Crypto ToyPrimitives Authorization.
From S2P Require Import ScopeEvaluator Attenuation CapabilityToken Delegation.

(** Host names of https URLs. *)
#[export] Instance https_parser : UrlParser := {|
  parse_url s :=
    if str_startsWith s "https://"
    then Some ("https:", str (drop 8 (chars s))) else None |}.

Definition agent (c : ascii) : string := "did:agent:" +:+ str (replicate 40 c).
Definition seed_of (n : Z) : bytes := replicate 32 n.
Definition uuid_of (c : ascii) : string :=
  str (replicate 8 c) +:+ "-" +:+ str (replicate 4 c) +:+ "-4" +:+ str (replicate 3 c)
  +:+ "-8" +:+ str (replicate 3 c) +:+ "-" +:+ str (replicate 12 c).

Definition principal : string := publicKeyToDidKey (ed25519_pub (seed_of 200)).

Definition root_params : IssueCapabilityTokenParams :=
  mkIssueParams principal (agent "a") parent_caps "2027-01-01T00:00:00.000Z"
    "https://revocations.example.com/{id}" (toBase64Url (seed_of 200)) "2026-01-01T00:00:00.000Z".

Definition token_of (r : res CapabilityToken) : CapabilityToken :=
  match r with
  | Ok t => t
  | Throw _ => mkCapabilityToken "" "" "" "" "" "" "" [] "" no_proof None
  end.

Definition root_token : CapabilityToken :=
  Eval vm_compute in token_of (issueCapabilityToken (uuid_of "1") root_params).

Definition hop1_params : DelegateTokenParams :=
  mkDelegateParams root_token (toBase64Url (seed_of 201)) (agent "b") child_caps
    "2026-12-01T00:00:00.000Z" "https://revocations.example.com/{id}"
    "2026-02-01T00:00:00.000Z" None.

Definition hop1_token : CapabilityToken :=
  Eval vm_compute in token_of (delegateCapabilityToken (uuid_of "2") hop1_params).

Definition hop2_params : DelegateTokenParams :=
  mkDelegateParams hop1_token (toHex (seed_of 202)) (agent "c") child_caps
    "2026-11-01T00:00:00.000Z" "https://revocations.example.com/{id}"
    "2026-03-01T00:00:00.000Z" (Some DC_VERSION).

Definition hop2_token : CapabilityToken :=
  Eval vm_compute in token_of (delegateCapabilityToken (uuid_of "3") hop2_params).

Definition example_ports : ChainPorts :=
  mkPorts
    (λ did, if String.eqb did (agent "a")
            then Some (mkResolvedPublicKeys (toHex (seed_of 201)) None None STABLE)
            else if String.eqb did (agent "b")
            then Some (mkResolvedPublicKeys (toBase64Url (seed_of 202)) None None STABLE)
            else None)
    (Some (λ id, String.eqb id "urn:cap:revoked"))
    (Some (λ id, if String.eqb id (ct_id root_token) then Some root_token
                 else if String.eqb id (ct_id hop1_token) then Some hop1_token else None)).

Definition example_now : string := "2026-06-01T12:00:00.000Z".

Example root_issued : issueCapabilityToken (uuid_of "1") root_params = Ok root_token.
Proof. vm_compute. reflexivity. Qed.
Example hop2_valid :
  validateDelegationChain example_ports hop2_token example_now = Ok (pass 2).
Proof. vm_compute. reflexivity. Qed.

Lemma seed_bytes n : 0 <= n < 256 → Forall is_byte (seed_of n).
Proof. intros ?. by apply Forall_replicate. Qed.

Lemma example_keypair e n : 0 <= n < 256 →
  keypair (encode_key e (seed_of n)) (toHex (ed25519_pub (seed_of n))).
Proof.
  intros ?. exists (seed_of n), e, enc_hex. split_and!; try done. by apply seed_bytes.
Qed.

Lemma issue_then_verify_witness : verifyCapabilityToken root_token example_now None = Ok token_valid.
Proof.
  apply (issue_then_verify (uuid_of "1") root_params enc_base64url (seed_of 200));
    [apply seed_bytes; lia|vm_compute; reflexivity..].
Defined.

Definition temporal_params : IssueCapabilityTokenParams :=
  mkIssueParams principal (agent "a")
    [mkCapability "CONFIRM" (TemporalScope "2026-01-01T00:00:00.000Z" "2026-02-01T00:00:00.000Z" None)]
    "2027-01-01T00:00:00.000Z" "https://revocations.example.com/{id}"
    (toBase64Url (seed_of 200)) "2026-01-01T00:00:00.000Z".

Lemma issued_phase2_never_verifies_witness :
  verifyCapabilityToken (token_of (issueCapabilityToken (uuid_of "1") temporal_params))
    example_now None ≠ Ok token_valid.
Proof.
  apply (issued_phase2_never_verifies (uuid_of "1") temporal_params _
    (mkCapability "CONFIRM" (TemporalScope "2026-01-01T00:00:00.000Z" "2026-02-01T00:00:00.000Z" None))).
  - vm_compute. reflexivity.
  - by left.
  - reflexivity.
Defined.

Lemma token_payload_covers_token_witness :
  set_proof root_token no_proof = set_proof (set_proof root_token (ct_proof hop1_token)) no_proof.
Proof.
  apply (token_payload_covers_token _ _
    (match createCapabilityTokenPayload root_token with Ok b => b | Throw _ => [] end));
    vm_compute; reflexivity.
Defined.

Lemma checkTokenForAction_sound_witness :
  ct_issuedTo root_token = agent "a"
  ∧ request_permitted (W := unit) None (ct_capabilities root_token) "QUOTE"
      {["vendor" := VStr "acme"]} (Some 0) tt.
Proof.
  apply (checkTokenForAction_sound None root_token "QUOTE" {["vendor" := VStr "acme"]} (agent "a")).
  - intros field. unfold get_prop. destruct (decide (field = "vendor")) as [->|Hne]; [done|].
    rewrite lookup_singleton_ne by done. done.
  - repeat constructor.
  - vm_compute. reflexivity.
Defined.

Lemma validated_chain_trusted_witness :
  trusted_chain example_ports hop2_token example_now (chain_of hop2_token).
Proof.
  apply (validated_chain_trusted example_ports hop2_token example_now (pass 2) (chain_of hop2_token));
    [vm_compute; reflexivity|reflexivity|reflexivity|discriminate].
Defined.

Lemma validated_leaf_authority_witness :
  request_permitted (W := unit) None (ct_capabilities root_token) "CONFIRM" sample_request (Some 0) tt.
Proof.
  apply (validated_leaf_authority None example_ports hop2_token example_now (pass 2)
    (default (mkDelegationProof "" "" "" [] "" [] no_proof None) (head (chain_of hop2_token)))
    (tail (chain_of hop2_token)) root_token
    (default (λ _, None) (resolveToken example_ports))).
  - done.
  - vm_compute. reflexivity.
  - reflexivity.
  - reflexivity.
  - reflexivity.
  - vm_compute. reflexivity.
  - repeat constructor.
  - change (temporal_safe_all parent_caps child_caps). intros c p. unfold child_caps, parent_caps.
    rewrite !elem_of_cons, elem_of_nil. by intros [->|[->|[]]] [->|[->|[->|[]]]].
  - split; [done|]. intros s Hs. exists allow, tt.
    change (s ∈ [NumericLimitScope "amount" (Fin 100) (Some "USD");
                 AllowlistScope "vendor" ["*.example.com"]]) in Hs.
    rewrite !elem_of_cons, elem_of_nil in Hs.
    destruct Hs as [->|[->|[]]]; (split; [vm_compute; reflexivity|done]).
Defined.

Lemma example_honest : honest_token example_ports example_now hop2_token.
Proof.
  apply (honest_step _ _ (uuid_of "3") hop2_params hop2_token);
    [apply (honest_step _ _ (uuid_of "2") hop1_params hop1_token);
      [apply honest_root; vm_compute; reflexivity|]|].
  - split.
    + eexists. split; [reflexivity|]. vm_compute. reflexivity.
    + eexists. split; [reflexivity|]. reflexivity.
    + eexists. split; [reflexivity|]. by apply (example_keypair enc_base64url 201).
    + reflexivity.
    + apply (bool_decide_unpack _). vm_compute. exact I.
    + vm_compute. reflexivity.
    + vm_compute. reflexivity.
    + repeat constructor.
  - split.
    + eexists. split; [reflexivity|]. vm_compute. reflexivity.
    + eexists. split; [reflexivity|]. reflexivity.
    + eexists. split; [reflexivity|]. exists (seed_of 202), enc_hex, enc_base64url.
      split_and!; [by apply seed_bytes|reflexivity..].
    + reflexivity.
    + apply (bool_decide_unpack _). vm_compute. exact I.
    + vm_compute. reflexivity.
    + vm_compute. reflexivity.
    + repeat constructor.
Qed.

Lemma honest_delegations_accepted_witness :
  validateDelegationChain example_ports hop2_token example_now = Ok (pass 2).
Proof.
  apply (honest_delegations_accepted example_ports example_now hop2_token);
    [exact example_honest|discriminate].
Defined.
