(* ===== verification/ActionRecords.v ===== *)
(** * The table [policy.action_records]

    One table holds the ledger of action records (ActionRecorder.v) and the
    reservation rows of the cumulative tracker (PostgresTracker.v); its columns
    are those of packages/policy/sql/001-create-action-records.sql and
    003-add-delegation-session.sql.  The state of the database is the list of
    rows in insertion order (the serial [id]) together with the host clock. *)
From S2P Require Import Prelude JsValue Time.

Record Row : Type := mkRow {
  record_id : string;
  agent_did : string;
  principal_did : string;
  action_type : string;
  parameters_summary : option value;
  authorization_ref : option value;
  result_summary : option params;
  record_hash : string;
  previous_record_hash : string;
  actor_signature : string;
  ledger_signature : string;
  delegation_depth : option Z;
  session_id : option string;
  created_at : Z }.

(** The database, and [Date.now()]. *)
Record Db : Type := mkDb { db_rows : list Row; db_clock : Z }.

Definition set_rows (rows : list Row) (db : Db) : Db := mkDb rows (db_clock db).

(** [result_summary->>'status']: SQL text, [None] for NULL. *)
Definition status_text (r : Row) : option string :=
  match result_summary r with
  | Some o => match get_prop o "status" with
              | VStr s => Some s
              | VUndefined | VNull => None
              | _ => Some "(json)"
              end
  | None => None
  end.

(** [x IN (...)] and [x NOT IN (...)]: NULL makes both fail. *)
Definition sql_in (x : option string) (l : list string) : bool :=
  match x with Some s => bool_decide (s ∈ l) | None => false end.
Definition sql_not_in (x : option string) (l : list string) : bool :=
  match x with Some s => negb (bool_decide (s ∈ l)) | None => false end.

(** [row.result_summary?.[key]], when it is a number. *)
Definition summary_number (r : Row) (key : string) : option num :=
  match result_summary r with
  | Some o => match get_prop o key with VNum n => Some n | _ => None end
  | None => None
  end.

Definition summary_string (r : Row) (key : string) : option string :=
  match result_summary r with
  | Some o => match get_prop o key with VStr s => Some s | _ => None end
  | None => None
  end.

(** A number as it is stored in JSON: [JSON.stringify] writes the non-finite
    ones as [null]. *)
Definition json_num (n : num) : value := if is_finite n then VNum n else VNull.

(** The unique constraint on [record_id]. *)
Definition unique_ids (rows : list Row) : Prop := NoDup (record_id <$> rows).
