(* ===== verification/ActionRecorder.v ===== *)
(** * The action ledger

    The hash-chained, doubly signed ledger of agent actions:
    packages/policy/src/recorder/shared.ts (payload, hash, signatures),
    action-recorder.ts ([record], the lane rules, the ordered query) and
    integrity-checker.ts ([verifyIntegrity]). *)
From S2P Require Import Prelude JsValue Time Encoding Crypto Authorization ScopeEvaluator.
From S2P Require Import ActionRecords.

Definition LEDGER_ENCODING : encoding := enc_base64url.
Definition SESSION_GOVERNOR_DID : string := "did:system:session-governor".
Definition ACTION_SESSION_SUPERSEDED : string := "SESSION_SUPERSEDED".

(** ** recorder/shared.ts *)

(** [Buffer.from(s, 'hex')]: whole pairs of hex digits, up to the first bad one. *)
Fixpoint bufferFromHex (l : list ascii) : bytes :=
  match l with
  | a :: b :: l' =>
      if is_hex a && is_hex b then 16 * hex_val a + hex_val b :: bufferFromHex l' else []
  | _ => []
  end.

(** A stored summary as JSON: its fields in key order, [null] when absent. *)
Definition key_le (a b : string * value) : Prop := String.leb a.1 b.1 = true.
#[export] Instance key_le_dec a b : Decision (key_le a b).
Proof. unfold key_le. apply _. Defined.

Definition params_json (o : params) : value := VObj (merge_sort key_le (map_to_list o)).
Definition nullable (v : option value) : value := default VNull v.

(** [buildUnsignedRecordPayload], keys in ascending order. *)
Definition buildUnsignedRecordPayload (r : Row) : value :=
  VObj ([("actionType", VStr (action_type r)); ("agentDid", VStr (agent_did r));
         ("authorizationRef", nullable (authorization_ref r));
         ("createdAt", VStr (toISOString (created_at r)))]
        ++ opt_field "delegationDepth" (VNum ∘ Fin <$> delegation_depth r)
        ++ [("parametersSummary", nullable (parameters_summary r));
            ("previousRecordHash", VStr (previous_record_hash r));
            ("principalDid", VStr (principal_did r)); ("recordId", VStr (record_id r));
            ("resultSummary", nullable (params_json <$> result_summary r))]
        ++ opt_field "sessionId" (VStr <$> session_id r)).

Section ledger.
Context `{Primitives}.

Definition normalizeSigningPrivateKey (privateKey : string) : res string :=
  if Nat.eqb (String.length privateKey) 64 then
    let privateKeySeed := bufferFromHex (chars privateKey) in
    if Nat.eqb (length privateKeySeed) 32
    then Ok (toHex (privateKeySeed ++ ed25519_pub privateKeySeed))
    else Throw "Error"
  else Ok privateKey.

(** [normalized.slice(64)] *)
Definition derivePublicKeyFromPrivateKey (privateKey : string) : res string :=
  normalized ← normalizeSigningPrivateKey privateKey;
  mret (str (drop 64 (chars normalized))).

Definition computeRecordHash (payload : value) (previousRecordHash : string) (enc : encoding)
    : res string :=
  canonical ← canonicalize jcs payload;
  mret (hash (textEncode previousRecordHash ++ textEncode canonical) enc).

Definition createRecordSignature (payload : value) (privateKey : string) (enc : encoding)
    : res string :=
  canonical ← canonicalize jcs payload;
  key ← normalizeSigningPrivateKey privateKey;
  sign (textEncode canonical) key enc.

Definition verifyRecordSignature (payload : value) (signature publicKey : string) : res bool :=
  canonical ← canonicalize jcs payload;
  verify (textEncode canonical) signature publicKey.

(** ** action-recorder.ts *)

Record ActionRecordInput : Type := mkInput {
  in_recordId : option string;
  in_agentDid : string;
  in_principalDid : string;
  in_actionType : string;
  in_parametersSummary : option params;
  in_authorizationRef : option value;
  in_resultSummary : option params;
  in_actorPrivateKey : string;
  in_delegationDepth : option Z;
  in_sessionId : option string;
  in_outputEncoding : option encoding;
  in_createdAt : option string }.

(** The injected guards of a control-plane recorder. *)
Record ControlPlaneDeps : Type := mkControlPlane {
  resolveOwner : string → option (string * string);
  assertSchemaCompliant : ActionRecordInput → res unit;
  append : string → string → string → string → M Db unit }.

Record ActionRecorder : Type := mkRecorder {
  rc_controlPlane : option ControlPlaneDeps;
  rc_ledgerPrivateKey : string;
  rc_ledgerPublicKey : string }.

(** The constructor, for a non-empty configured key. *)
Definition new_ActionRecorder (deps : option ControlPlaneDeps) (configuredKey : string)
    : res ActionRecorder :=
  if Nat.eqb (String.length configuredKey) 0 then Throw "INTERNAL_ERROR"
  else
    key ← normalizeSigningPrivateKey configuredKey;
    pub ← derivePublicKeyFromPrivateKey configuredKey;
    mret (mkRecorder deps key pub).

Definition non_empty_string (v : value) : bool :=
  match v with VStr s => negb (String.eqb s "") | _ => false end.

(** [params[field]] is present: not [undefined], [null] or the empty string. *)
Definition field_present (o : params) (field : string) : bool :=
  match get_prop o field with
  | VUndefined | VNull => false
  | VStr s => negb (String.eqb s "")
  | _ => true
  end.

Definition SUPERSEDE_FIELDS : list string :=
  ["oldSessionId"; "reason"; "timestamp"; "affectedAgentDid"; "affectedPrincipalDid"].
Definition SUPERSEDE_REASONS : list string :=
  ["EXPLICIT_CLOSE"; "TOKEN_REVOKED"; "IDLE_EXPIRED"; "FORCED_CLOSE"].

(** The pairing of [reason] and [newSessionId]. *)
Definition reason_pairing (o : params) : bool :=
  match get_prop o "reason" with
  | VStr reason =>
      bool_decide (reason ∈ SUPERSEDE_REASONS)
      && (if String.eqb reason "FORCED_CLOSE"
          then match get_prop o "newSessionId" with
               | VNull => true
               | v => non_empty_string v
               end
          else non_empty_string (get_prop o "newSessionId"))
  | _ => false
  end.

Definition assertLaneAllowed (controlPlane : bool) (input : ActionRecordInput) : res unit :=
  let isGovernorActor := String.eqb (in_agentDid input) SESSION_GOVERNOR_DID in
  let isGovernorPrincipal := String.eqb (in_principalDid input) SESSION_GOVERNOR_DID in
  let isControlPlaneActionType := String.eqb (in_actionType input) ACTION_SESSION_SUPERSEDED in
  if negb controlPlane then
    if isGovernorActor || isGovernorPrincipal || isControlPlaneActionType
    then Throw "INTERNAL_ERROR" else mret tt
  else if negb isGovernorActor || negb isGovernorPrincipal || negb isControlPlaneActionType
  then Throw "INTERNAL_ERROR"
  else match in_parametersSummary input with
       | None => Throw "INTERNAL_ERROR"
       | Some o =>
           if forallb (field_present o) SUPERSEDE_FIELDS && reason_pairing o
           then mret tt else Throw "INTERNAL_ERROR"
       end.

Definition truthy (v : value) : bool :=
  match v with
  | VUndefined | VNull => false
  | VBool b => b
  | VNum n => negb (is_nan n) && negb (bool_decide (n = Fin 0))
  | VStr s => negb (String.eqb s "")
  | VArr _ | VObj _ => true
  end.

(** [affected && affected !== owner] *)
Definition differs (v : value) (owner : string) : bool :=
  truthy v && match v with VStr s => negb (String.eqb s owner) | _ => true end.

(** The session binding of a control-plane write (a session id that is not a
    string is unknown to the resolver). *)
Definition assertSessionBinding (deps : ControlPlaneDeps) (input : ActionRecordInput) : res unit :=
  match in_parametersSummary input with
  | None => mret tt
  | Some o =>
      let sessionId := get_prop o "oldSessionId" in
      if negb (truthy sessionId) then mret tt
      else match (match sessionId with VStr s => resolveOwner deps s | _ => None end) with
           | None => Throw "INTERNAL_ERROR"
           | Some (ownerAgent, ownerPrincipal) =>
               if differs (get_prop o "affectedAgentDid") ownerAgent
                  || differs (get_prop o "affectedPrincipalDid") ownerPrincipal
               then Throw "INTERNAL_ERROR" else mret tt
           end
  end.

(** The head of an agent's chain: ORDER BY created_at DESC, id DESC LIMIT 1,
    over every row of the agent. *)
Definition latest_row (agentDid : string) (rows : list Row) : option Row :=
  foldl (λ best r,
    if negb (String.eqb (agent_did r) agentDid) then best
    else match best with
         | Some b => if created_at b <=? created_at r then Some r else best
         | None => Some r
         end) None rows.

Definition loadPreviousRecordHash (agentDid : string) (rows : list Row) : string :=
  match latest_row agentDid rows with Some r => record_hash r | None => "" end.

(** The row without its hash and signatures. *)
Definition unsigned_row (input : ActionRecordInput) (recordId previousRecordHash : string)
    (createdAt : Z) : Row :=
  mkRow recordId (in_agentDid input) (in_principalDid input) (in_actionType input)
    (params_json <$> in_parametersSummary input) (in_authorizationRef input)
    (in_resultSummary input) "" previousRecordHash "" "" (in_delegationDepth input)
    (in_sessionId input) createdAt.

Definition sign_row (r : Row) (hash actorSig ledgerSig : string) : Row :=
  mkRow (record_id r) (agent_did r) (principal_did r) (action_type r) (parameters_summary r)
    (authorization_ref r) (result_summary r) hash (previous_record_hash r) actorSig ledgerSig
    (delegation_depth r) (session_id r) (created_at r).

(** A plain INSERT: the unique constraint on [record_id] raises. *)
Definition insert_row (row : Row) : M Db unit := λ db,
  if bool_decide (record_id row ∈ record_id <$> db_rows db) then (Throw "23505", db)
  else (Ok tt, set_rows (db_rows db ++ [row]) db).

Definition get_state {W} : M W W := λ w, (Ok w, w).

(** The instant of a timestamp. *)
Definition iso_ms (s : string) : res Z :=
  match getTime s with Some t => Ok t | None => Throw "22008" end.

(** The transaction of [record]: build, hash, sign twice, insert. *)
Definition write_record (rc : ActionRecorder) (input : ActionRecordInput) (recordId : string)
    (createdAt : Z) : M Db (string * string) :=
  db ← get_state;
  let previousRecordHash := loadPreviousRecordHash (in_agentDid input) (db_rows db) in
  let enc := default LEDGER_ENCODING (in_outputEncoding input) in
  let row := unsigned_row input recordId previousRecordHash createdAt in
  let payload := buildUnsignedRecordPayload row in
  recordHash ← lift_res (computeRecordHash payload previousRecordHash enc);
  actorSignature ← lift_res (createRecordSignature payload (in_actorPrivateKey input) enc);
  ledgerSignature ← lift_res (createRecordSignature payload (rc_ledgerPrivateKey rc) enc);
  _ ← insert_row (sign_row row recordHash actorSignature ledgerSignature);
  _ ← match rc_controlPlane rc with
      | Some deps => append deps recordId recordHash (in_agentDid input) (toISOString createdAt)
      | None => mret tt
      end;
  mret (recordId, recordHash).

(** [record] up to its transaction: the guards, then [createdAt], the clock or
    the given [Timestamp] (the millisecond format of [timestampPattern]), of
    which the TIMESTAMPTZ column refuses those that are no calendar date. *)
Definition begin_record (rc : ActionRecorder) (input : ActionRecordInput) : M Db Z :=
  _ ← lift_res (assertLaneAllowed (bool_decide (is_Some (rc_controlPlane rc))) input);
  _ ← lift_res (match rc_controlPlane rc with
                | Some deps => _ ← assertSchemaCompliant deps input; assertSessionBinding deps input
                | None => mret tt
                end);
  db ← get_state;
  lift_res (match in_createdAt input with
            | Some s => if calendar_timestamp s then iso_ms s else Throw "22008"
            | None => Ok (db_clock db)
            end).

(** The transaction of [record], which runs when it gets the lock of the
    agent's chain; other records may have been written since [begin_record]. *)
Definition commit_record (randomUUID : string) (rc : ActionRecorder) (input : ActionRecordInput) (createdAt : Z)
    : M Db (string * string) :=
  withTransaction (write_record rc input (default randomUUID (in_recordId input)) createdAt).

(** [record] with no other write in between. *)
Definition record (randomUUID : string) (rc : ActionRecorder) (input : ActionRecordInput)
    : M Db (string * string) :=
  createdAt ← begin_record rc input;
  commit_record randomUUID rc input createdAt.

(** [query] with an agent filter: ORDER BY created_at ASC, id ASC LIMIT. *)
Fixpoint insert_by_time (r : Row) (l : list Row) : list Row :=
  match l with
  | [] => [r]
  | x :: l' => if created_at r <? created_at x then r :: l else x :: insert_by_time r l'
  end.

Definition order_by_time (rows : list Row) : list Row := foldl (λ acc r, insert_by_time r acc) [] rows.

Definition query_agent (agentDid : string) (limit : nat) (rows : list Row) : list Row :=
  take limit (order_by_time (filter (λ r, agent_did r = agentDid) rows)).

(** ** integrity-checker.ts *)

Inductive IntegrityReason : Type :=
| previous_record_hash_mismatch | record_hash_mismatch | agent_public_key_unavailable
| actor_signature_invalid | ledger_signature_invalid.

Inductive IntegrityCheckResult : Type :=
| integrity_valid
| integrity_broken (brokenAt : string) (reason : IntegrityReason).

(** [RECORD_HASH_CHARSET_RE] *)
Definition hash_charset (s : string) : bool :=
  negb (String.eqb s "") && str_forallb is_b64 s.

(** The callback of the constructor: each lane fails closed on the other's DIDs. *)
Definition checker_resolve (controlPlane : bool) (resolve : string → option string) (did : string)
    : option string :=
  if bool_decide (did = SESSION_GOVERNOR_DID) then (if controlPlane then resolve did else None)
  else if controlPlane then None else resolve did.

(** One iteration: [None] continues. *)
Definition check_record (resolve : string → option string) (ledgerPublicKey : string)
    (expectedPrevious : string) (r : Row) : res (option IntegrityReason) :=
  if negb (String.eqb (previous_record_hash r) expectedPrevious)
  then mret (Some previous_record_hash_mismatch)
  else
    let payload := buildUnsignedRecordPayload r in
    if negb (hash_charset (record_hash r)) then Throw "INTERNAL_ERROR"
    else
      expectedHash ← computeRecordHash payload (previous_record_hash r)
                       (detectEncoding (record_hash r));
      if negb (String.eqb (record_hash r) expectedHash) then mret (Some record_hash_mismatch)
      else match resolve (agent_did r) with
           | None | Some "" => mret (Some agent_public_key_unavailable)
           | Some agentPublicKey =>
               actorOk ← verifyRecordSignature payload (actor_signature r) agentPublicKey;
               if negb actorOk then mret (Some actor_signature_invalid)
               else
                 ledgerOk ← verifyRecordSignature payload (ledger_signature r) ledgerPublicKey;
                 if negb ledgerOk then mret (Some ledger_signature_invalid) else mret None
           end.

Fixpoint check_records (resolve : string → option string) (ledgerPublicKey expectedPrevious : string)
    (rows : list Row) : res IntegrityCheckResult :=
  match rows with
  | [] => mret integrity_valid
  | r :: rest =>
      broken ← check_record resolve ledgerPublicKey expectedPrevious r;
      match broken with
      | Some reason => mret (integrity_broken (record_id r) reason)
      | None => check_records resolve ledgerPublicKey (record_hash r) rest
      end
  end.

(** The default limit of the query. *)
Definition INTEGRITY_LIMIT : nat := Z.to_nat 10000.

Definition verifyIntegrity (resolve : string → option string) (ledgerPublicKey agentDid : string)
    (limit : nat) (db : Db) : res IntegrityCheckResult :=
  check_records resolve ledgerPublicKey "" (query_agent agentDid limit (db_rows db)).

End ledger.

(** ** Lemmas: hashes and keys *)

Lemma str_forallb_chars f s : str_forallb f s = forallb f (chars s).
Proof. induction s as [|c s IH]; [done|]. simpl. by rewrite IH. Qed.

Lemma hex_is_b64 c : is_hex c = true → is_b64 c = true.
Proof.
  unfold is_hex, is_b64, is_lower_hex, is_digit, is_alpha.
  generalize (N_of_ascii c). intros n Hn.
  repeat rewrite ?orb_true_iff, ?andb_true_iff, ?N.leb_le in *. lia.
Qed.

Section hashes.
Context `{PrimitiveLaws}.

Lemma hash_charset_ok m enc : hash_charset (hash m enc) = true.
Proof.
  unfold hash_charset. rewrite str_forallb_chars. apply andb_true_iff. split.
  - pose proof (hash_length m enc). destruct (hash m enc); [by destruct enc|done].
  - destruct (sha256_bytes m) as [B L]. apply forallb_forall. intros c Hc.
    destruct enc; unfold hash, toHex, toBase64Url in Hc; rewrite chars_str in Hc.
    + destruct (hex_pairs_concat (sha256 m) B) as [_ Hx]. rewrite forallb_forall in Hx.
      by apply hex_is_b64, Hx.
    + pose proof (b64_encode_table _ B) as Ht. rewrite Forall_forall in Ht.
      apply list_elem_of_In, Ht in Hc as [? _]. done.
Qed.

(** The bytes of a string of hex digits, read leniently. *)
Lemma bufferFromHex_toHex bs : Forall is_byte bs → bufferFromHex (chars (toHex bs)) = bs.
Proof.
  intros Hb. unfold toHex. rewrite chars_str. induction Hb as [|b bs Hb _ IH]; [done|].
  cbn [fmap list_fmap concat hex_byte app bufferFromHex]. unfold is_byte in Hb.
  destruct (hex_digit_ok (b / 16)) as [E1 ->]; [Z.div_mod_to_equations; lia|].
  destruct (hex_digit_ok (b mod 16)) as [E2 ->]; [Z.div_mod_to_equations; lia|].
  cbn [andb]. rewrite E1, E2, IH. f_equal. Z.div_mod_to_equations; lia.
Qed.

(** A ledger key pair: the private key is the hex of a seed, expanded with its
    public key or not. *)
Definition ledger_keypair (privateKey publicKey : string) : Prop :=
  ∃ seed e, Forall is_byte seed ∧ length seed = 32%nat
    ∧ (privateKey = toHex seed ∨ privateKey = toHex (seed ++ ed25519_pub seed))
    ∧ publicKey = match e with enc_hex => toHex (ed25519_pub seed)
                  | enc_base64url => toBase64Url (ed25519_pub seed) end.

Lemma normalizeSigningPrivateKey_seed seed :
  Forall is_byte seed → length seed = 32%nat →
  normalizeSigningPrivateKey (toHex seed) = Ok (toHex (seed ++ ed25519_pub seed))
  ∧ normalizeSigningPrivateKey (toHex (seed ++ ed25519_pub seed))
    = Ok (toHex (seed ++ ed25519_pub seed)).
Proof.
  intros Hb HL. destruct (ed25519_pub_bytes seed) as [Pb Pl]. unfold normalizeSigningPrivateKey.
  split.
  - unfold toHex at 1. rewrite str_length, hex_length, HL. cbn [Nat.mul Nat.add Nat.eqb].
    by rewrite bufferFromHex_toHex, HL by done.
  - unfold toHex at 1. by rewrite str_length, hex_length, length_app, HL, Pl.
Qed.

Lemma record_signature_verifies payload privateKey publicKey enc sig :
  ledger_keypair privateKey publicKey →
  createRecordSignature payload privateKey enc = Ok sig →
  (enc = enc_base64url → detectEncoding sig = enc_base64url) →
  verifyRecordSignature payload sig publicKey = Ok true.
Proof.
  intros (seed & e & Hb & HL & Hpriv & ->) (c & Hc & (k & Hk & Hs)%res_bind_ok)%res_bind_ok Hdet.
  unfold verifyRecordSignature. rewrite Hc. cbn [mbind res_bind].
  destruct (normalizeSigningPrivateKey_seed seed Hb HL) as [N1 N2].
  assert (k = toHex (seed ++ ed25519_pub seed)) as -> by (destruct Hpriv; subst; congruence).
  apply (sign_verify_encodings _ seed enc_hex e enc (toHex seed)); try done.
  revert Hs. destruct (ed25519_pub_bytes seed) as [Pb Pl].
  unfold sign, assertPrivateKey, assertDecoded.
  rewrite !normalizeKey_toHex by (try apply Forall_app; done). rewrite length_app, HL, Pl.
  cbn [Nat.add Nat.eqb orb mbind res_bind]. rewrite take_app_le, (take_ge seed) by lia.
  done.
Qed.

(** The public key a recorder derives belongs to its private key. *)
Lemma new_recorder_keypair deps seed rc :
  Forall is_byte seed → length seed = 32%nat → new_ActionRecorder deps (toHex seed) = Ok rc →
  ledger_keypair (rc_ledgerPrivateKey rc) (rc_ledgerPublicKey rc) ∧ rc_controlPlane rc = deps.
Proof.
  intros Hb HL. unfold new_ActionRecorder, derivePublicKeyFromPrivateKey.
  destruct (normalizeSigningPrivateKey_seed seed Hb HL) as [-> _].
  destruct (Nat.eqb _ 0); [done|]. cbn [mbind res_bind]. intros [= <-]. split; [|done].
  exists seed, enc_hex. split_and!; [done|done|by right|]. simpl.
  unfold toHex. rewrite chars_str, fmap_app, concat_app, drop_app_length'; [done|].
  by rewrite hex_length, HL.
Qed.
End hashes.

(** ** Lemmas: order *)

Definition by_time (l : list Row) : Prop := StronglySorted (λ a b, created_at a <= created_at b) l.

Lemma insert_by_time_last r l :
  Forall (λ x, created_at x <= created_at r) l → insert_by_time r l = l ++ [r].
Proof.
  induction 1 as [|x l Hx _ IH]; [done|]. cbn [insert_by_time].
  rewrite (proj2 (Z.ltb_ge _ _)) by done. by rewrite IH.
Qed.

Lemma by_time_snoc l r :
  by_time (l ++ [r]) ↔ by_time l ∧ Forall (λ x, created_at x <= created_at r) l.
Proof.
  unfold by_time. induction l as [|x l IH]; simpl.
  - split; [by intros; split; constructor|by intros _; repeat constructor].
  - split.
    + inversion 1 as [|? ? Hs Hf]; subst. apply IH in Hs as [? ?].
      apply Forall_app in Hf as [? [Hr _]%Forall_cons]. by split; constructor.
    + intros [Hs Hf]. inversion Hs; subst. inversion Hf; subst. constructor; [by apply IH|].
      apply Forall_app. split; [done|by constructor].
Qed.

Lemma order_by_time_sorted l : by_time l → order_by_time l = l.
Proof.
  induction l as [|r l IH] using rev_ind; [done|]. rewrite by_time_snoc. intros [Hs Hf].
  unfold order_by_time. rewrite foldl_app. fold (order_by_time l). rewrite IH by done.
  by apply insert_by_time_last.
Qed.

Lemma insert_by_time_perm r l : insert_by_time r l ≡ₚ r :: l.
Proof.
  induction l as [|x l IH]; [done|]. cbn [insert_by_time]. case_match; [done|].
  rewrite IH. constructor.
Qed.

Lemma order_by_time_perm l : order_by_time l ≡ₚ l.
Proof.
  induction l as [|r l IH] using rev_ind; [done|]. unfold order_by_time. rewrite foldl_app.
  fold (order_by_time l). cbn [foldl]. rewrite insert_by_time_perm, IH. apply Permutation_cons_append.
Qed.

Lemma order_by_time_length l : length (order_by_time l) = length l.
Proof. by rewrite order_by_time_perm. Qed.

Lemma order_by_time_elem r l : r ∈ order_by_time l ↔ r ∈ l.
Proof. by rewrite order_by_time_perm. Qed.

Definition agent_rows (a : string) (rows : list Row) : list Row := filter (λ r, agent_did r = a) rows.

Lemma agent_rows_snoc a rows r :
  agent_rows a (rows ++ [r]) = agent_rows a rows ++ if decide (agent_did r = a) then [r] else [].
Proof.
  unfold agent_rows. rewrite filter_app. done.
Qed.

(** In time order the head of the chain is the last row of the agent. *)
Lemma latest_row_last a rows : by_time (agent_rows a rows) → latest_row a rows = last (agent_rows a rows).
Proof.
  induction rows as [|r rows IH] using rev_ind; [done|]. rewrite agent_rows_snoc. intros Hs.
  unfold latest_row. rewrite foldl_app. fold (latest_row a rows). cbn [foldl].
  destruct (String.eqb_spec (agent_did r) a) as [Ea|Ea]; cbn [negb].
  - rewrite decide_True in Hs |- * by done. apply by_time_snoc in Hs as [Hs Hf]. rewrite IH, last_snoc by done.
    destruct (last (agent_rows a rows)) as [b|] eqn:El; [|done]. apply last_Some_elem_of in El.
    rewrite Forall_forall in Hf. by rewrite (proj2 (Z.leb_le _ _)) by (by apply Hf).
  - rewrite decide_False in Hs |- * by done. rewrite app_nil_r in Hs |- *. by apply IH.
Qed.

(** ** Lemmas: chains *)

Section chain.
Context `{PrimitiveLaws}.

Lemma check_records_snoc resolve lpk prev rows r :
  check_records resolve lpk prev (rows ++ [r]) = Ok integrity_valid ↔
  check_records resolve lpk prev rows = Ok integrity_valid
  ∧ check_record resolve lpk (default prev (record_hash <$> last rows)) r = Ok None.
Proof.
  revert prev. induction rows as [|x rows IH]; intros prev; cbn [app check_records].
  - simpl. destruct (check_record resolve lpk prev r) as [[f|]|c]; cbn [mbind res_bind];
      split; try done; by intros [_ ?].
  - destruct (check_record resolve lpk prev x) as [[f|]|c]; cbn [mbind res_bind];
      [split; [done|by intros [? _]]| |split; [done|by intros [? _]]].
    rewrite IH. destruct rows as [|y rows]; [done|]. rewrite last_cons_cons.
    destruct (last (y :: rows)) eqn:E; [done|]. by apply last_None in E.
Qed.

Lemma check_records_take resolve lpk prev n rows :
  check_records resolve lpk prev rows = Ok integrity_valid →
  check_records resolve lpk prev (take n rows) = Ok integrity_valid.
Proof.
  revert prev n. induction rows as [|x rows IH]; intros prev [|n]; cbn [take check_records]; try done.
  destruct (check_record resolve lpk prev x) as [[f|]|c]; cbn [mbind res_bind]; try done. apply IH.
Qed.

Lemma write_record_inv rc input recordId t db r db' :
  rc_controlPlane rc = None →
  write_record rc input recordId t db = (Ok r, db') →
  ∃ h sa sl,
    let prev := loadPreviousRecordHash (in_agentDid input) (db_rows db) in
    let enc := default LEDGER_ENCODING (in_outputEncoding input) in
    let row := unsigned_row input recordId prev t in
    computeRecordHash (buildUnsignedRecordPayload row) prev enc = Ok h
    ∧ createRecordSignature (buildUnsignedRecordPayload row) (in_actorPrivateKey input) enc = Ok sa
    ∧ createRecordSignature (buildUnsignedRecordPayload row) (rc_ledgerPrivateKey rc) enc = Ok sl
    ∧ recordId ∉ record_id <$> db_rows db
    ∧ db' = set_rows (db_rows db ++ [sign_row row h sa sl]) db ∧ r = (recordId, h).
Proof.
  intros Hk. unfold write_record. rewrite Hk.
  intros (db0 & db1 & [= <- <-] & Hw)%M_bind_ok.
  apply M_bind_ok in Hw as (h & d1 & [= Hh <-] & Hw).
  apply M_bind_ok in Hw as (sa & d2 & [= Hsa <-] & Hw).
  apply M_bind_ok in Hw as (sl & d3 & [= Hsl <-] & Hw).
  apply M_bind_ok in Hw as ([] & d4 & Hi & Hw).
  apply M_bind_ok in Hw as ([] & d5 & [= <-] & [= <- <-]).
  exists h, sa, sl. unfold insert_row in Hi. case_bool_decide; [done|]. injection Hi as <-. done.
Qed.

(** A row written at the head of an agent's chain passes every check. *)
Lemma written_row_checks rc input recordId t prev enc h sa sl resolve publicKey :
  let row := unsigned_row input recordId prev t in
  ledger_keypair (rc_ledgerPrivateKey rc) (rc_ledgerPublicKey rc) →
  resolve (in_agentDid input) = Some publicKey → publicKey ≠ "" →
  ledger_keypair (in_actorPrivateKey input) publicKey →
  computeRecordHash (buildUnsignedRecordPayload row) prev enc = Ok h →
  createRecordSignature (buildUnsignedRecordPayload row) (in_actorPrivateKey input) enc = Ok sa →
  createRecordSignature (buildUnsignedRecordPayload row) (rc_ledgerPrivateKey rc) enc = Ok sl →
  (enc = enc_base64url → detectEncoding sa = enc_base64url ∧ detectEncoding sl = enc_base64url) →
  check_record resolve (rc_ledgerPublicKey rc) prev (sign_row row h sa sl) = Ok None.
Proof.
  intros row Hl Hr Hne Ha Hh Hsa Hsl Hdet. unfold check_record.
  change (buildUnsignedRecordPayload (sign_row row h sa sl)) with (buildUnsignedRecordPayload row).
  cbn [sign_row previous_record_hash record_hash actor_signature ledger_signature agent_did
       row unsigned_row]. rewrite String.eqb_refl. cbn [negb].
  destruct (proj1 (res_bind_ok _ _ _) Hh) as (c & Hc & [= Eh]).
  assert (detectEncoding h = enc ∧ hash_charset h = true) as [-> ->].
  { subst h. split; [apply hash_detect|apply hash_charset_ok]. }
  cbn [negb]. rewrite Hh. cbn [mbind res_bind]. rewrite String.eqb_refl, Hr. cbn [negb].
  rewrite (record_signature_verifies _ _ _ enc sa Ha Hsa) by (intros; by apply Hdet).
  rewrite (record_signature_verifies _ _ _ enc sl Hl Hsl) by (intros; by apply Hdet).
  by destruct publicKey.
Qed.
End chain.

(** The guards change nothing. *)
Lemma begin_record_state `{Primitives} rc input db : (begin_record rc input db).2 = db.
Proof.
  unfold begin_record, mbind, M_bind, lift_res, get_state.
  destruct (assertLaneAllowed _ input); [|done]. by destruct (match rc_controlPlane rc with Some _ => _ | None => _ end).
Qed.

Lemma record_run `{Primitives} uuid rc input db r db' :
  record uuid rc input db = (r, db') →
  (∃ t, begin_record rc input db = (Ok t, db) ∧ commit_record uuid rc input t db = (r, db')) ∨ (db' = db ∧ ∃ c, r = Throw c).
Proof.
  pose proof (begin_record_state rc input db) as Hb. unfold record, mbind, M_bind.
  destruct (begin_record rc input db) as [[t|c] d]; cbn in Hb; subst d; [by left; exists t|intros [= <- <-]; right; eauto].
Qed.

(** A record that throws leaves the table alone; one that succeeds has a fresh
    id. *)
Lemma record_throw `{Primitives} uuid rc input db c db' : record uuid rc input db = (Throw c, db') → db' = db.
Proof. intros [(t & _ & Hc)|[-> _]]%record_run; [|done]. by apply withTransaction_throw in Hc. Qed.

Lemma commit_ok_fresh `{Primitives} uuid rc input t db r db' :
  commit_record uuid rc input t db = (Ok r, db') → default uuid (in_recordId input) ∉ record_id <$> db_rows db.
Proof.
  intros Hr%(proj1 (withTransaction_ok _ _ _ _)). unfold write_record in Hr.
  apply M_bind_ok in Hr as (d5 & d6 & [= <- <-] & Hr).
  apply M_bind_ok in Hr as (h & d7 & [= _ <-] & Hr).
  apply M_bind_ok in Hr as (sa & d8 & [= _ <-] & Hr).
  apply M_bind_ok in Hr as (sl & d9 & [= _ <-] & Hr).
  apply M_bind_ok in Hr as ([] & d10 & Hi & _).
  unfold insert_row in Hi. by case_bool_decide.
Qed.

Lemma record_ok_fresh `{Primitives} uuid rc input db r db' :
  record uuid rc input db = (Ok r, db') → default uuid (in_recordId input) ∉ record_id <$> db_rows db.
Proof. intros [(t & _ & Hc)|[_ [c [=]]]]%record_run. by eapply commit_ok_fresh. Qed.

(** ** Reachable ledgers *)

(** A write between its two parts. *)
Record BegunRecord : Type := mkBegunRecord { bg_uuid : string; bg_input : ActionRecordInput; bg_createdAt : Z }.

(** No row of the agent is younger than the write. *)
Definition in_turn (b : BegunRecord) (rows : list Row) : Prop :=
  Forall (λ r, agent_did r = in_agentDid (bg_input b) → created_at r <= bg_createdAt b) rows.

(** Ledgers that only a standard recorder writes, with its writes in progress:
    each takes its time in [begin_record] and writes in [commit_record],
    whatever the others do in between; a record is signed with the agent's
    registered key.  A write commits only when no row of the same agent has a
    later time (see [overlapping_writes_break_integrity] of LedgerExamples.v
    for what happens otherwise).  The text of a signature in base64url is taken
    to be recognised as such (not all of its characters are hex digits). *)
Inductive ledger_reachable `{Primitives} (rc : ActionRecorder) (resolve : string → option string)
    : Db → list BegunRecord → Prop :=
| ledger_start clock : ledger_reachable rc resolve (mkDb [] clock) []
| ledger_tick db ws clock :
    ledger_reachable rc resolve db ws → ledger_reachable rc resolve (mkDb (db_rows db) clock) ws
| ledger_begin db ws uuid input t :
    ledger_reachable rc resolve db ws → begin_record rc input db = (Ok t, db) →
    ledger_reachable rc resolve db (mkBegunRecord uuid input t :: ws)
| ledger_commit db ws1 b ws2 db' r publicKey :
    ledger_reachable rc resolve db (ws1 ++ b :: ws2) →
    in_turn b (db_rows db) →
    resolve (in_agentDid (bg_input b)) = Some publicKey → publicKey ≠ "" →
    ledger_keypair (in_actorPrivateKey (bg_input b)) publicKey →
    commit_record (bg_uuid b) rc (bg_input b) (bg_createdAt b) db = (Ok r, db') →
    Forall (λ row, default LEDGER_ENCODING (in_outputEncoding (bg_input b)) = enc_base64url →
              detectEncoding (actor_signature row) = enc_base64url
              ∧ detectEncoding (ledger_signature row) = enc_base64url)
      (drop (length (db_rows db)) (db_rows db')) →
    ledger_reachable rc resolve db' (ws1 ++ ws2)
| ledger_fail db ws1 b ws2 db' c :
    ledger_reachable rc resolve db (ws1 ++ b :: ws2) →
    commit_record (bg_uuid b) rc (bg_input b) (bg_createdAt b) db = (Throw c, db') →
    ledger_reachable rc resolve db' (ws1 ++ ws2).

Section integrity.
Context `{PrimitiveLaws} (rc : ActionRecorder) (resolve : string → option string).
Context (Hstd : rc_controlPlane rc = None).
Context (Hledger : ledger_keypair (rc_ledgerPrivateKey rc) (rc_ledgerPublicKey rc)).

(** What every reachable ledger satisfies. *)
Record ledger_inv (db : Db) (ws : list BegunRecord) : Prop := {
  inv_sorted a : by_time (agent_rows a (db_rows db));
  inv_unique : unique_ids (db_rows db);
  inv_lanes : Forall (λ b, in_agentDid (bg_input b) ≠ SESSION_GOVERNOR_DID) ws;
  inv_chain a : check_records (checker_resolve false resolve) (rc_ledgerPublicKey rc) ""
                  (agent_rows a (db_rows db)) = Ok integrity_valid }.

Lemma begin_lane input db t : begin_record rc input db = (Ok t, db) → in_agentDid input ≠ SESSION_GOVERNOR_DID.
Proof.
  unfold begin_record. rewrite Hstd. intros ([] & d1 & [= Hl <-] & _)%M_bind_ok.
  unfold assertLaneAllowed in Hl. cbn in Hl. intros E. by rewrite E in Hl.
Qed.

Lemma record_inv uuid input db r db' :
  record uuid rc input db = (Ok r, db') → in_createdAt input = None →
  in_agentDid input ≠ SESSION_GOVERNOR_DID
  ∧ write_record rc input (default uuid (in_recordId input)) (db_clock db) db = (Ok r, db').
Proof.
  intros [(t & Hb & Hc)|[_ [c [=]]]]%record_run Hn. split; [by eapply begin_lane|]. apply (proj1 (withTransaction_ok _ _ _ _)) in Hc.
  unfold begin_record in Hb. rewrite Hn in Hb. apply M_bind_ok in Hb as ([] & d1 & [= _ <-] & Hb).
  apply M_bind_ok in Hb as ([] & d2 & [= _ <-] & Hb). apply M_bind_ok in Hb as (d & d3 & [= <- <-] & [= <-]). done.
Qed.

Lemma ledger_inv_write db ws1 b ws2 db' r publicKey :
  ledger_inv db (ws1 ++ b :: ws2) → in_turn b (db_rows db) →
  resolve (in_agentDid (bg_input b)) = Some publicKey → publicKey ≠ "" →
  ledger_keypair (in_actorPrivateKey (bg_input b)) publicKey →
  commit_record (bg_uuid b) rc (bg_input b) (bg_createdAt b) db = (Ok r, db') →
  Forall (λ row, default LEDGER_ENCODING (in_outputEncoding (bg_input b)) = enc_base64url →
            detectEncoding (actor_signature row) = enc_base64url
            ∧ detectEncoding (ledger_signature row) = enc_base64url)
    (drop (length (db_rows db)) (db_rows db')) →
  ledger_inv db' (ws1 ++ ws2).
Proof.
  intros [Hs Hu Hlane Hch] Hturn Hres Hne Hkey Hw%(proj1 (withTransaction_ok _ _ _ _)) Hdet.
  destruct (write_record_inv _ _ _ _ _ _ _ Hstd Hw)
    as (h & sa & sl & Hh & Hsa & Hsl & Hfresh & -> & _).
  cbn [db_rows set_rows] in Hdet. rewrite drop_app_length in Hdet.
  apply Forall_cons in Hdet as [Hdet _]. apply Forall_app in Hlane as [Hl1 [Hgov Hl2]%Forall_cons].
  split; cbn [db_rows set_rows db_clock].
  - intros a. rewrite agent_rows_snoc. case_decide as Ea; [|by rewrite app_nil_r]. apply by_time_snoc. split; [done|].
    apply Forall_forall. intros x [Hx Hin]%list_elem_of_filter. unfold in_turn in Hturn. rewrite Forall_forall in Hturn.
    apply Hturn; [done|]. by rewrite Hx, <- Ea.
  - unfold unique_ids. rewrite fmap_app, NoDup_app. split_and!; [done| |apply NoDup_singleton].
    intros x Hx Hx'. apply list_elem_of_singleton in Hx' as ->. done.
  - by apply Forall_app.
  - intros a. rewrite agent_rows_snoc. case_decide as Ea; [|by rewrite app_nil_r].
    apply check_records_snoc. split; [apply Hch|].
    assert (default "" (record_hash <$> last (agent_rows a (db_rows db)))
            = loadPreviousRecordHash (in_agentDid (bg_input b)) (db_rows db)) as ->.
    { simpl in Ea. subst a. unfold loadPreviousRecordHash. rewrite latest_row_last by done.
      by destruct (last _). }
    eapply (written_row_checks rc (bg_input b)); eauto.
    unfold checker_resolve. rewrite bool_decide_eq_false_2 by done. done.
Qed.

Lemma ledger_reachable_inv db ws : ledger_reachable rc resolve db ws → ledger_inv db ws.
Proof.
  induction 1 as [clock|db ws clock _ IH|db ws uuid input t _ IH Hb|db ws1 b ws2 db' r pk _ IH ? ? ? ? ? ?|db ws1 b ws2 db' c _ IH Hf].
  - split; [constructor|constructor|constructor|done].
  - by destruct IH.
  - destruct IH as [Hs Hu Hl Hch]. split; try done. constructor; [by eapply begin_lane|done].
  - by eapply ledger_inv_write.
  - apply withTransaction_throw in Hf as ->. destruct IH as [Hs Hu Hl Hch]. split; try done.
    apply Forall_app in Hl as [? [? ?]%Forall_cons]. by apply Forall_app.
Qed.

(** C6.  The ledger verifies.  Of a table that only a standard recorder writes,
    whatever writes are in progress at once and fail, the integrity checker
    accepts the records of every agent at every query limit, as long as each
    record is signed with the key that is registered for its agent, the records
    of one agent are inserted in the order of their times ([createdAt] is read
    before the chain is locked), and no base64url signature reads as hex. *)
Theorem ledger_integrity db ws agentDid limit :
  ledger_reachable rc resolve db ws →
  verifyIntegrity (checker_resolve false resolve) (rc_ledgerPublicKey rc) agentDid limit db
  = Ok integrity_valid.
Proof.
  intros [Hs _ _ Hch]%ledger_reachable_inv. unfold verifyIntegrity, query_agent.
  rewrite order_by_time_sorted by apply Hs.
  apply check_records_take, Hch.
Qed.
End integrity.

(** ** Tamper evidence *)

Section tamper.
Context `{PrimitiveLaws}.

(** What [computeRecordHash] hashes for a row. *)
Definition preimage (r : Row) : bytes :=
  textEncode (previous_record_hash r) ++ textEncode (jcs (buildUnsignedRecordPayload r)).

(** A SHA-256 collision between a row of one ledger and a row of another. *)
Definition colliding (rows1 rows2 : list Row) : Prop :=
  ∃ r1 r2, r1 ∈ rows1 ∧ r2 ∈ rows2 ∧ preimage r1 ≠ preimage r2
    ∧ sha256 (preimage r1) = sha256 (preimage r2).

Lemma check_record_inv resolve lpk prev r :
  check_record resolve lpk prev r = Ok None →
  previous_record_hash r = prev
  ∧ record_hash r = hash (preimage r) (detectEncoding (record_hash r)).
Proof.
  unfold check_record. destruct (String.eqb_spec (previous_record_hash r) prev) as [Ep|]; [|done].
  destruct (hash_charset _); [|done]. cbn [negb].
  intros (eh & (c & [_ ->]%canonicalize_inv & [= Eh])%res_bind_ok & Hx)%res_bind_ok.
  destruct (String.eqb_spec (record_hash r) eh) as [E|]; [|done].
  split; [done|]. unfold preimage. congruence.
Qed.

(** A chain link: empty, or the characters of a hash. *)
Definition link (s : string) : Prop := s = "" ∨ hash_charset s = true.

Lemma link_brace s : link s → 123 ∉ textEncode s.
Proof.
  intros Hs Hin. unfold textEncode in Hin.
  apply list_elem_of_fmap in Hin as (c & Ec & Hc).
  destruct Hs as [->|Hs]; [by apply not_elem_of_nil in Hc|].
  unfold hash_charset in Hs. apply andb_true_iff in Hs as [_ Hs].
  rewrite str_forallb_chars, forallb_forall in Hs. apply list_elem_of_In, Hs in Hc.
  rewrite <- (ascii_N_embedding c) in Hc. replace (N_of_ascii c) with 123%N in Hc by lia.
  vm_compute in Hc. done.
Qed.

Lemma split_at {A} (x : A) l1 m1 l2 m2 :
  x ∉ l1 → x ∉ l2 → l1 ++ x :: m1 = l2 ++ x :: m2 → l1 = l2 ∧ m1 = m2.
Proof.
  revert l2. induction l1 as [|a l1 IH]; intros [|b l2] H1 H2 [=]; subst; [done| | |].
  - destruct H2. by left.
  - destruct H1. by left.
  - rewrite not_elem_of_cons in H1, H2. by destruct (IH l2) as [-> ->]; [tauto..|].
Qed.

Lemma payload_brace r : ∃ rest, jcs (buildUnsignedRecordPayload r) = String.String "{" rest.
Proof. apply jcs_brace. Qed.

(** The hash covers the previous link and the payload separately. *)
Lemma preimage_inj r1 r2 :
  link (previous_record_hash r1) → link (previous_record_hash r2) → preimage r1 = preimage r2 →
  previous_record_hash r1 = previous_record_hash r2
  ∧ jcs (buildUnsignedRecordPayload r1) = jcs (buildUnsignedRecordPayload r2).
Proof.
  intros L1 L2. unfold preimage.
  destruct (payload_brace r1) as [x1 ->], (payload_brace r2) as [x2 ->].
  intros [Ep Ex]%(split_at 123); [|by apply link_brace..].
  apply textEncode_inj in Ep. split; [done|]. f_equal. by apply textEncode_inj.
Qed.

Lemma valid_chain_last resolve lpk rows r :
  check_records resolve lpk "" (rows ++ [r]) = Ok integrity_valid →
  check_records resolve lpk "" rows = Ok integrity_valid
  ∧ previous_record_hash r = default "" (record_hash <$> last rows)
  ∧ record_hash r = hash (preimage r) (detectEncoding (record_hash r)).
Proof. intros [Hc [? ?]%check_record_inv]%check_records_snoc. done. Qed.

Lemma valid_chain_link resolve lpk rows :
  check_records resolve lpk "" rows = Ok integrity_valid →
  match last rows with
  | Some r => hash_charset (record_hash r) = true
  | None => True
  end.
Proof.
  destruct rows as [|r rows _] using rev_ind; [done|]. rewrite last_snoc.
  intros (_ & _ & ->)%valid_chain_last. apply hash_charset_ok.
Qed.

Lemma valid_chain_prev resolve lpk rows :
  check_records resolve lpk "" rows = Ok integrity_valid →
  link (default "" (record_hash <$> last rows)).
Proof. intros Hv%valid_chain_link. destruct (last rows); simpl; [by right|by left]. Qed.

Lemma colliding_snoc rows1 rows2 r1 r2 :
  colliding rows1 rows2 → colliding (rows1 ++ [r1]) (rows2 ++ [r2]).
Proof. intros (x & y & ? & ? & ?). exists x, y. set_solver. Qed.

(** Peeling the common head off two valid chains. *)
Lemma chains_agree_step resolve1 resolve2 lpk1 lpk2 rows1 rows2 r1 r2 :
  check_records resolve1 lpk1 "" (rows1 ++ [r1]) = Ok integrity_valid →
  check_records resolve2 lpk2 "" (rows2 ++ [r2]) = Ok integrity_valid →
  record_hash r1 = record_hash r2 →
  (jcs (buildUnsignedRecordPayload r1) = jcs (buildUnsignedRecordPayload r2)
   ∧ (record_hash <$> last rows1) = (record_hash <$> last rows2))
  ∨ colliding (rows1 ++ [r1]) (rows2 ++ [r2]).
Proof.
  intros (V1 & P1 & H1)%valid_chain_last (V2 & P2 & H2)%valid_chain_last Eh.
  destruct (decide (preimage r1 = preimage r2)) as [E|NE].
  - left. destruct (preimage_inj r1 r2) as [Ep Ej]; [| |done|].
    { rewrite P1. by eapply valid_chain_prev. }
    { rewrite P2. by eapply valid_chain_prev. }
    split; [done|]. rewrite P1, P2 in Ep.
    apply valid_chain_link in V1, V2.
    destruct (last rows1), (last rows2); simpl in *; subst; try done; [congruence|..].
    + by rewrite Ep in V1.
    + by rewrite <- Ep in V2.
  - right. exists r1, r2. split_and!; [set_solver|set_solver|done|].
    eapply hash_digest. rewrite <- H1, <- H2. done.
Qed.

(** C7.  Tamper evidence: the hash of the last record commits to the whole
    ledger.  Two record sequences that the integrity checker accepts (whatever
    the keys they are checked with) and whose last records have one hash have
    the same length and the same serialized payloads, record by record, unless
    two records of them are a SHA-256 collision. *)
Theorem ledger_head_commits resolve1 resolve2 lpk1 lpk2 rows1 rows2 :
  check_records resolve1 lpk1 "" rows1 = Ok integrity_valid →
  check_records resolve2 lpk2 "" rows2 = Ok integrity_valid →
  (record_hash <$> last rows1) = (record_hash <$> last rows2) →
  map (λ r, jcs (buildUnsignedRecordPayload r)) rows1
  = map (λ r, jcs (buildUnsignedRecordPayload r)) rows2
  ∨ colliding rows1 rows2.
Proof.
  revert rows2. induction rows1 as [|r1 rows1 IH] using rev_ind; intros rows2 V1 V2 Eh.
  - destruct rows2 as [|r2 rows2 _] using rev_ind; [by left|by rewrite last_snoc in Eh].
  - destruct rows2 as [|r2 rows2 _] using rev_ind; [by rewrite last_snoc in Eh|].
    rewrite !last_snoc in Eh. injection Eh as Eh.
    destruct (chains_agree_step _ _ _ _ _ _ _ _ V1 V2 Eh) as [[Ej El]|]; [|by right].
    apply valid_chain_last in V1 as [V1 _], V2 as [V2 _].
    destruct (IH rows2 V1 V2 El) as [Em|Ec]; [left|right; by apply colliding_snoc].
    by rewrite !map_app, Em; simpl; rewrite Ej.
Qed.

(** A row whose [record_hash] is not a hash breaks the chain: if any row
    of an agent carries a [record_hash] of another length than a SHA-256
    digest (the reservation rows of the cumulative tracker store a UUID
    there), [verifyIntegrity] over all the rows does not report a valid
    ledger. *)
Theorem foreign_row_breaks_integrity resolve lpk agentDid limit db r :
  r ∈ db_rows db → agent_did r = agentDid → (length (db_rows db) <= limit)%nat →
  String.length (record_hash r) ≠ 64%nat → String.length (record_hash r) ≠ 43%nat →
  verifyIntegrity resolve lpk agentDid limit db ≠ Ok integrity_valid.
Proof.
  intros Hin Ha Hlim H64 H43. unfold verifyIntegrity, query_agent.
  rewrite take_ge by (rewrite order_by_time_length; etransitivity; [apply length_filter|done]).
  assert (r ∈ order_by_time (filter (λ r, agent_did r = agentDid) (db_rows db))) as Hr.
  { apply order_by_time_elem, list_elem_of_filter. done. }
  revert Hr. generalize (order_by_time (filter (λ r, agent_did r = agentDid) (db_rows db))).
  intros rows Hr. revert Hr. generalize "". induction rows as [|x rows IH]; [set_solver|].
  intros prev Hr. cbn [check_records].
  destruct (check_record resolve lpk prev x) as [[f|]|c] eqn:Hx; cbn [mbind res_bind]; try done.
  apply check_record_inv in Hx as [_ Hx].
  apply elem_of_cons in Hr as [->|Hr]; [|by apply IH].
  pose proof (hash_length (preimage x) (detectEncoding (record_hash x))) as HL.
  rewrite <- Hx in HL. destruct (detectEncoding _); done.
Qed.
End tamper.
