(* ===== verification/PostgresTracker.v ===== *)
(** * The Postgres cumulative tracker

    packages/policy/src/guard/postgres-cumulative-tracker.ts: check-and-reserve
    under a cumulative limit, settlement of a reservation, and the read-only
    cumulative value.  A reservation runs in one transaction that holds the
    advisory lock of its (agent, metric, window start), so the reservations of
    one window are serialized and each operation is one step on the table.  The
    tracker implements the interface of ScopeEvaluator.v ([pg_tracker],
    [pg_tracker_laws]); the relation [tracker_step] has the operations of a
    whole system over one table. *)
From S2P Require Import Prelude JsValue Time Encoding Crypto Authorization ScopeEvaluator.
From S2P Require Import ActionRecords ActionRecorder.

Definition CUMULATIVE_RESERVE_ACTION_TYPE : string := "__CUMULATIVE_RESERVE__".
Definition PENDING_TTL_MS : Z := 5 * 60 * 1000.

Definition is_reservation (r : Row) : bool :=
  String.eqb (action_type r) CUMULATIVE_RESERVE_ACTION_TYPE.

(** ** Queries *)

(** The row of a reservation, whatever its status. *)
Definition findReservation (recordId : string) (rows : list Row) : option Row :=
  head (filter (λ r, record_id r = recordId ∧ is_reservation r = true) rows).

Definition pending_in_ttl (pendingCutoff : Z) (r : Row) : bool :=
  is_reservation r && (pendingCutoff <=? created_at r).

(** The [statusFilterExpr] of [aggregateWithClient]. *)
Definition status_filter (entry : MeterFieldEntry) (pendingCutoff : Z) (r : Row) : bool :=
  match countFilter entry with
  | filter_SUCCESS =>
      sql_in (status_text r) ["SUCCESS"; "SETTLED"]
      || (sql_in (status_text r) ["PENDING"] && pending_in_ttl pendingCutoff r)
  | filter_any =>
      sql_not_in (status_text r) ["RELEASED"; "REJECTED"; "ERROR"]
      && (sql_not_in (status_text r) ["PENDING"] || pending_in_ttl pendingCutoff r)
  end.

Definition in_window (agentDid : string) (windowStart now : Z) (r : Row) : bool :=
  String.eqb (agent_did r) agentDid && (windowStart <=? created_at r) && (created_at r <=? now).

(** What one selected row adds to the total; [None] adds nothing. *)
Definition row_value (entry : MeterFieldEntry) (r : Row) : option num :=
  if is_reservation r then
    match summary_number r "reserveAmount" with
    | Some n => Some (match aggregation entry with COUNT => Fin 1 | SUM => n end)
    | None => None
    end
  else
    match aggregation entry with
    | COUNT =>
        match countFilter entry with
        | filter_any => Some (Fin 1)
        | filter_SUCCESS =>
            if sql_in (status_text r) ["SETTLED"; "SUCCESS"] then Some (Fin 1) else None
        end
    | SUM =>
        match recordField entry ≫= summary_number r with
        | Some n => if is_nan n then None else Some n
        | None => None
        end
    end.

Definition add_value (total : num) (v : option num) : num :=
  match v with Some n => num_add total n | None => total end.

Definition aggregateWithClient (agentDid : string) (windowStart now : Z) (entry : MeterFieldEntry)
    (db : Db) : num :=
  let pendingCutoff := db_clock db - PENDING_TTL_MS in
  let selected := filter (λ r, in_window agentDid windowStart now r
                               && status_filter entry pendingCutoff r = true) (db_rows db) in
  foldl (λ total r, add_value total (row_value entry r)) (Fin 0) selected.

(** ** [checkAndReserve] *)

Definition reservation_row (recordId agentDid metric : string) (reserveAmount max cumulative : num)
    (now : Z) (uuid : string) : Row :=
  mkRow recordId agentDid agentDid CUMULATIVE_RESERVE_ACTION_TYPE None None
    (Some (<["status" := VStr "PENDING"]> (<["metric" := VStr metric]>
           (<["reserveAmount" := json_num reserveAmount]> (<["max" := json_num max]>
           {["cumulativeAtReserve" := json_num cumulative]})))))
    uuid "" "" "" None None now.

(** [INSERT ... ON CONFLICT (record_id) DO NOTHING] *)
Definition insertReservation (row : Row) (db : Db) : Db :=
  if bool_decide (record_id row ∈ record_id <$> db_rows db) then db
  else set_rows (db_rows db ++ [row]) db.

(** [d.toISOString()] *)
Definition iso_time (d : Date) : res Z :=
  match d with Some t => Ok t | None => Throw "RangeError" end.

(** The answer of a replayed reservation. *)
Definition replay (existing : Row) (max reserveAmount : num) : ReserveResult :=
  let existingReserveAmount := default reserveAmount (summary_number existing "reserveAmount") in
  let existingMax := default max (summary_number existing "max") in
  let existingCumulative := default (Fin 0) (summary_number existing "cumulativeAtReserve") in
  let wouldExceed := num_gtb (num_add existingCumulative existingReserveAmount) existingMax in
  mkReserve (negb wouldExceed) existingCumulative.

(** Query the total, compare the projection with the limit, and write the
    reservation row. *)
Definition reserve_fresh (randomUUID recordId agentDid metric : string) (entry : MeterFieldEntry)
    (ws t : Z) (max reserveAmount : num) : M Db ReserveResult := λ db,
  let currentCumulative := aggregateWithClient agentDid ws t entry db in
  let projected := num_add currentCumulative reserveAmount in
  if num_gtb projected max then (Ok (mkReserve false currentCumulative), db)
  else (Ok (mkReserve true currentCumulative),
        insertReservation
          (reservation_row recordId agentDid metric reserveAmount max currentCumulative t randomUUID)
          db).

Definition pg_checkAndReserve (randomUUID recordId agentDid : string) (meterField : MeterFieldRef)
    (windowStart now : Date) (max reserveAmount : num) : M Db ReserveResult :=
  match METER_FIELD_REGISTRY (mf_metric meterField) with
  | None => throw "Error"
  | Some entry =>
      withTransaction (λ db,
        match findReservation recordId (db_rows db) with
        | Some existing => (Ok (replay existing max reserveAmount), db)
        | None =>
            (ws ← lift_res (iso_time windowStart);
             t ← lift_res (iso_time now);
             reserve_fresh randomUUID recordId agentDid (mf_metric meterField) entry ws t
               max reserveAmount) db
        end)
  end.

(** ** [settleReservation] *)

Definition status_name (s : ResultStatus) : string :=
  match s with SUCCESS => "SUCCESS" | REJECTED => "REJECTED" | ERROR => "ERROR" end.

(** The new status of a settled reservation; an exception when the actual
    amount breaks the limit. *)
Definition settle_status (entry : MeterFieldEntry) (reservation : Row) (resultStatus : ResultStatus)
    (settledAmount : option num) : res string :=
  let reserveAmount := default (Fin 0) (summary_number reservation "reserveAmount") in
  let max := default PInf (summary_number reservation "max") in
  match aggregation entry with
  | COUNT =>
      match countFilter entry with
      | filter_any => Ok "SETTLED"
      | filter_SUCCESS => Ok (if bool_decide (resultStatus = SUCCESS) then "SETTLED" else "RELEASED")
      end
  | SUM =>
      if negb (bool_decide (resultStatus = SUCCESS)) then Ok "RELEASED"
      else
        let effectiveAmount := default reserveAmount settledAmount in
        let cumulativeAtReserve := default (Fin 0) (summary_number reservation "cumulativeAtReserve") in
        if num_gtb effectiveAmount reserveAmount
           && num_gtb (num_add cumulativeAtReserve effectiveAmount) max
        then Throw "Error"
        else Ok "SETTLED"
  end.

Definition settled_summary (reservation : Row) (newStatus : string) (resultStatus : ResultStatus)
    (settledAmount : option num) : params :=
  let reserveAmount := default (Fin 0) (summary_number reservation "reserveAmount") in
  <["status" := VStr newStatus]> (<["resultStatus" := VStr (status_name resultStatus)]>
  (<["settledAmount" := json_num (default reserveAmount settledAmount)]>
   (default ∅ (result_summary reservation)))).

Definition set_summary (o : params) (r : Row) : Row :=
  mkRow (record_id r) (agent_did r) (principal_did r) (action_type r) (parameters_summary r)
    (authorization_ref r) (Some o) (record_hash r) (previous_record_hash r) (actor_signature r)
    (ledger_signature r) (delegation_depth r) (session_id r) (created_at r).

(** [UPDATE ... WHERE record_id = $2 AND action_type = $3] *)
Definition update_summary (recordId : string) (o : params) (rows : list Row) : list Row :=
  (λ r, if String.eqb (record_id r) recordId && is_reservation r then set_summary o r else r) <$> rows.

Definition doSettle (recordId : string) (resultStatus : ResultStatus) (settledAmount : option num)
    : M Db unit := λ db,
  match findReservation recordId (db_rows db) with
  | None => (Ok tt, db)
  | Some reservation =>
      match summary_string reservation "metric" with
      | None | Some "" => (Ok tt, db)
      | Some metric =>
          match METER_FIELD_REGISTRY metric with
          | None => (Ok tt, db)
          | Some entry =>
              match settle_status entry reservation resultStatus settledAmount with
              | Throw c => (Throw c, db)
              | Ok newStatus =>
                  (Ok tt, set_rows (update_summary recordId
                     (settled_summary reservation newStatus resultStatus settledAmount)
                     (db_rows db)) db)
              end
          end
      end
  end.

Definition pg_settleReservation (recordId : string) (resultStatus : ResultStatus)
    (settledAmount : option num) : M Db unit :=
  withTransaction (doSettle recordId resultStatus settledAmount).

(** ** [getCumulativeValue] *)

Section read_only.
Context `{Primitives}.

(** The settled rows of a window: no reservation row. *)
Definition settled_filter (entry : MeterFieldEntry) (r : Row) : bool :=
  match countFilter entry with
  | filter_SUCCESS => sql_in (status_text r) ["SUCCESS"]
  | filter_any => sql_not_in (status_text r) ["PENDING"; "RELEASED"]
  end && negb (is_reservation r).

Definition fetchSettledRows (agentDid : string) (windowStart now : Z) (entry : MeterFieldEntry)
    (rows : list Row) : list Row :=
  filter (λ r, in_window agentDid windowStart now r && settled_filter entry r = true) rows.

(** What a verified row adds; an exception when the field is missing. *)
Definition settled_value (entry : MeterFieldEntry) (r : Row) : res num :=
  match aggregation entry with
  | COUNT => Ok (Fin 1)
  | SUM =>
      match recordField entry ≫= summary_number r with
      | Some n => if is_nan n then Throw "Error" else Ok n
      | None => Throw "Error"
      end
  end.

(** The loop of [aggregate]: an invalid ledger signature aborts it. *)
Fixpoint aggregate (ledgerPublicKey : string) (entry : MeterFieldEntry) (total : num)
    (rows : list Row) : res num :=
  match rows with
  | [] => mret total
  | r :: rest =>
      valid ← verifyRecordSignature (buildUnsignedRecordPayload r) (ledger_signature r) ledgerPublicKey;
      if negb valid then Throw "Error"
      else v ← settled_value entry r; aggregate ledgerPublicKey entry (num_add total v) rest
  end.

Definition pg_getCumulativeValue (ledgerPublicKey agentDid : string) (meterField : MeterFieldRef)
    (windowStart now : Date) : M Db num :=
  match METER_FIELD_REGISTRY (mf_metric meterField) with
  | None => throw "Error"
  | Some entry =>
      ws ← lift_res (iso_time windowStart);
      t ← lift_res (iso_time now);
      db ← get_state;
      lift_res (aggregate ledgerPublicKey entry (Fin 0)
                  (fetchSettledRows agentDid ws t entry (db_rows db)))
  end.

(** The class [PostgresCumulativeTracker]; [randomUUID] supplies the
    placeholder of the reservation rows. *)
Definition pg_tracker (randomUUID ledgerPublicKey : string) : CumulativeTracker Db :=
  mkTracker Db (pg_getCumulativeValue ledgerPublicKey) (pg_checkAndReserve randomUUID)
    pg_settleReservation.
End read_only.

(** ** The interface *)

Lemma num_gtb_mono p max1 max2 :
  num_leb max1 max2 = true → num_gtb p max1 = false → num_gtb p max2 = false.
Proof.
  unfold num_gtb. destruct p, max1, max2; simpl; try done.
  rewrite Z.leb_le, !Z.ltb_ge. lia.
Qed.

Lemma num_leb_refl n : is_nan n = false → num_leb n n = true.
Proof. destruct n; simpl; try done. intros _. by apply Z.leb_refl. Qed.

Lemma replay_mono existing max1 max2 amount :
  num_leb max1 max2 = true → rr_allowed (replay existing max1 amount) = true →
  rr_allowed (replay existing max2 amount) = true.
Proof.
  intros Hle. unfold replay. cbn [rr_allowed]. rewrite !negb_true_iff.
  destruct (summary_number existing "max"); [done|]. cbn [default]. by apply num_gtb_mono.
Qed.

(** The outcomes of a reservation. *)
Lemma pg_checkAndReserve_eq uuid recordId agentDid mf windowStart now max amount db :
  pg_checkAndReserve uuid recordId agentDid mf windowStart now max amount db
  = match METER_FIELD_REGISTRY (mf_metric mf) with
    | None => (Throw "Error", db)
    | Some entry =>
        match findReservation recordId (db_rows db), windowStart, now with
        | Some existing, _, _ => (Ok (replay existing max amount), db)
        | None, Some ws, Some t =>
            reserve_fresh uuid recordId agentDid (mf_metric mf) entry ws t max amount db
        | None, _, _ => (Throw "RangeError", db)
        end
    end.
Proof.
  unfold pg_checkAndReserve. destruct (METER_FIELD_REGISTRY _) as [entry|]; [|done].
  unfold withTransaction. destruct (findReservation recordId (db_rows db)); [done|].
  destruct windowStart as [ws|]; [|done]. destruct now as [t|]; [|done].
  change ((lift_res (iso_time (Some ws)) ≫= λ ws0, lift_res (iso_time (Some t)) ≫= λ t0,
             reserve_fresh uuid recordId agentDid (mf_metric mf) entry ws0 t0 max amount) db)
    with (reserve_fresh uuid recordId agentDid (mf_metric mf) entry ws t max amount db).
  unfold reserve_fresh. by destruct (num_gtb _ max).
Qed.

(** A reservation admitted under a limit is admitted under every larger one. *)
#[export] Instance pg_tracker_laws `{Primitives} uuid lpk : TrackerLaws (pg_tracker uuid lpk).
Proof.
  split. intros recordId agentDid mf ws now max1 max2 amount db r db' Hle Hr Ha.
  cbn [checkAndReserve pg_tracker] in *. revert Hr. rewrite !pg_checkAndReserve_eq.
  destruct (METER_FIELD_REGISTRY _) as [entry|]; [|done].
  destruct (findReservation recordId (db_rows db)) as [existing|]; cbn [fst].
  - intros [= <- <-]. eexists. split; [reflexivity|]. by eapply replay_mono.
  - destruct ws as [ws|]; [|done]. destruct now as [t|]; [|done]. unfold reserve_fresh.
    destruct (num_gtb (num_add _ amount) max1) eqn:G1; intros [= <- <-]; [done|].
    rewrite (num_gtb_mono _ max1 max2) by done. by eexists.
Qed.

(** ** Totals as integers *)

Definition counted (a : string) (ws now cutoff : Z) (entry : MeterFieldEntry) (r : Row) : bool :=
  in_window a ws now r && status_filter entry cutoff r.

(** The share of a row in the total of an agent's window. *)
Definition share (a : string) (ws now cutoff : Z) (entry : MeterFieldEntry) (r : Row) : Z :=
  if counted a ws now cutoff entry r
  then match row_value entry r with Some (Fin z) => z | _ => 0 end else 0.

Definition total (a : string) (ws now cutoff : Z) (entry : MeterFieldEntry) (rows : list Row) : Z :=
  foldr (λ r acc, share a ws now cutoff entry r + acc) 0 rows.

Definition finite_value (a : string) (entry : MeterFieldEntry) (r : Row) : Prop :=
  agent_did r = a → ∀ n, row_value entry r = Some n → is_finite n = true.

Lemma total_app a ws now cutoff entry rows1 rows2 :
  total a ws now cutoff entry (rows1 ++ rows2)
  = total a ws now cutoff entry rows1 + total a ws now cutoff entry rows2.
Proof. induction rows1 as [|r rows1 IH]; [done|]. cbn [app total foldr]. unfold total in *. lia. Qed.

Lemma in_window_agent a ws now r : in_window a ws now r = true → agent_did r = a.
Proof. unfold in_window. intros [[E _]%andb_true_iff _]%andb_true_iff. by apply String.eqb_eq. Qed.


Lemma foldl_total a ws now cutoff entry rows acc :
  Forall (finite_value a entry) rows →
  foldl (λ total r, add_value total (row_value entry r)) (Fin acc)
    (filter (λ r, counted a ws now cutoff entry r = true) rows)
  = Fin (acc + total a ws now cutoff entry rows).
Proof.
  intros Hf. revert acc. induction Hf as [|r rows Hr _ IH]; intros acc; [simpl; f_equal; lia|].
  rewrite filter_cons. cbn [total foldr]. fold (total a ws now cutoff entry rows). unfold share.
  case_decide as Hc.
  - rewrite Hc. cbn [foldl]. apply andb_true_iff in Hc as [Hw%in_window_agent _].
    destruct (row_value entry r) as [n|] eqn:Ev; cbn [add_value].
    + specialize (Hr Hw n Ev). destruct n; try done. cbn [num_add]. rewrite IH. f_equal. lia.
    + rewrite IH. f_equal.
  - apply not_true_is_false in Hc. rewrite Hc, IH. f_equal.
Qed.

Lemma aggregate_total a ws now entry db :
  Forall (finite_value a entry) (db_rows db) →
  aggregateWithClient a ws now entry db
  = Fin (total a ws now (db_clock db - PENDING_TTL_MS) entry (db_rows db)).
Proof. intros Hf. exact (foldl_total a ws now _ entry _ 0 Hf). Qed.

(** *** The row of a reservation *)

Lemma findReservation_fresh recordId rows :
  recordId ∉ record_id <$> rows → findReservation recordId rows = None.
Proof.
  intros Hf. unfold findReservation. apply head_None. apply elem_of_nil_inv.
  intros r [[Hr _] Hin]%list_elem_of_filter. apply Hf. apply list_elem_of_fmap. eauto.
Qed.

Lemma reservation_row_value recordId agentDid metric n max cumulative t uuid entry :
  row_value entry (reservation_row recordId agentDid metric (Fin n) max cumulative t uuid)
  = Some (match aggregation entry with COUNT => Fin 1 | SUM => Fin n end).
Proof. reflexivity. Qed.

Lemma reservation_row_counted recordId a metric n max cumulative t uuid entry ws cutoff :
  ws <= t → cutoff <= t →
  counted a ws t cutoff entry (reservation_row recordId a metric n max cumulative t uuid) = true.
Proof.
  intros Hws Hcut. unfold counted, in_window, status_filter, pending_in_ttl.
  cbn [agent_did created_at reservation_row]. rewrite String.eqb_refl.
  rewrite (proj2 (Z.leb_le _ _) Hws), (proj2 (Z.leb_le _ _) Hcut), Z.leb_refl.
  by destruct (countFilter entry).
Qed.

(** C37.  Check-and-reserve is exact.  At a fresh record id, with finite
    numbers in the window, the tracker admits an amount iff the current total
    plus the amount stays within the limit; an admitted amount is added to the
    total exactly once, and a refused one leaves the table as it was. *)
Theorem checkAndReserve_exact uuid recordId a mf entry ws t max n db :
  let cutoff := db_clock db - PENDING_TTL_MS in
  let current := total a ws t cutoff entry (db_rows db) in
  METER_FIELD_REGISTRY (mf_metric mf) = Some entry → (aggregation entry = COUNT → n = 1) →
  Forall (finite_value a entry) (db_rows db) → recordId ∉ record_id <$> db_rows db →
  ws <= t → cutoff <= t →
  ∃ db', pg_checkAndReserve uuid recordId a mf (Some ws) (Some t) (Fin max) (Fin n) db
           = (Ok (mkReserve (current + n <=? max) (Fin current)), db')
    ∧ aggregateWithClient a ws t entry db' = Fin (if current + n <=? max then current + n else current)
    ∧ (current + n > max → db' = db).
Proof.
  intros cutoff current Hreg Hcount Hfin Hfresh Hws Hcut.
  rewrite pg_checkAndReserve_eq, Hreg, findReservation_fresh by done.
  unfold reserve_fresh. rewrite aggregate_total by done. fold cutoff current.
  unfold num_gtb. cbn [num_add num_ltb]. rewrite Z.ltb_antisym.
  destruct (Z.leb_spec (current + n) max) as [Hle|Hgt]; cbn [negb].
  - eexists. split; [reflexivity|]. split; [|lia].
    unfold insertReservation. rewrite bool_decide_eq_false_2 by done.
    rewrite aggregate_total; cbn [db_rows set_rows db_clock].
    + rewrite total_app. f_equal. fold cutoff current. cbn [total foldr]. unfold share.
      rewrite reservation_row_counted, reservation_row_value by done.
      destruct (aggregation entry); [lia|]. rewrite Hcount by done. lia.
    + apply Forall_app. split; [done|]. constructor; [|constructor]. intros _ m.
      rewrite reservation_row_value. destruct (aggregation entry); by intros [= <-].
  - eexists. split; [reflexivity|]. split; [by apply aggregate_total|done].
Qed.

(** ** The operations of a system over one table *)



Section limit.
Context (a metric : string) (entry : MeterFieldEntry) (ws max : Z).
Context (Hreg : METER_FIELD_REGISTRY metric = Some entry).












(** *** Settlement *)


Lemma settled_status_text r newStatus status settledAmount :
  status_text (set_summary (settled_summary r newStatus status settledAmount) r) = Some newStatus.
Proof.
  unfold status_text. cbn [result_summary set_summary]. unfold settled_summary, get_prop.
  by rewrite lookup_insert_eq.
Qed.



Lemma findReservation_Some recordId rows r :
  findReservation recordId rows = Some r → r ∈ rows ∧ record_id r = recordId ∧ is_reservation r = true.
Proof.
  unfold findReservation. intros Hh. apply head_Some_elem_of, list_elem_of_filter in Hh as [[? ?] ?].
  done.
Qed.

Lemma unique_ids_eq rows r1 r2 :
  unique_ids rows → r1 ∈ rows → r2 ∈ rows → record_id r1 = record_id r2 → r1 = r2.
Proof.
  intros Hu [i Hi]%list_elem_of_lookup [j Hj]%list_elem_of_lookup E.
  assert (i = j) as ->; [|congruence].
  eapply (NoDup_lookup (record_id <$> rows)); [done|..]; rewrite list_lookup_fmap.
  - by rewrite Hi.
  - rewrite Hj. simpl. by rewrite E.
Qed.

Lemma update_summary_shape recordId o rows :
  Forall2 (λ r' r, r' = r ∨ r ∈ rows ∧ record_id r = recordId ∧ r' = set_summary o r)
    (update_summary recordId o rows) rows.
Proof.
  unfold update_summary. apply Forall2_fmap_l, Forall_Forall2_diag, Forall_forall. intros r Hr. cbv [compose].
  destruct (String.eqb_spec (record_id r) recordId) as [E|]; cbn [andb]; [|by left].
  destruct (is_reservation r); [by right|by left].
Qed.


Lemma doSettle_cases recordId status settledAmount db o db' :
  doSettle recordId status settledAmount db = (o, db') →
  db' = db ∨ ∃ r newStatus, findReservation recordId (db_rows db) = Some r
    ∧ db' = set_rows (update_summary recordId (settled_summary r newStatus status settledAmount)
                        (db_rows db)) db.
Proof.
  unfold doSettle. intros Hd. repeat case_match; simplify_eq; eauto.
Qed.

(** *** Reservation *)







End limit.

(** ** Replays *)

(** A reservation with these numbers is on the table. *)
Definition reserved (recordId : string) (n max current : num) (db : Db) : Prop :=
  ∃ r, findReservation recordId (db_rows db) = Some r
    ∧ summary_number r "reserveAmount" = Some n ∧ summary_number r "max" = Some max
    ∧ summary_number r "cumulativeAtReserve" = Some current.

Lemma findReservation_update recordId id' o rows :
  findReservation recordId (update_summary id' o rows)
  = (λ r, if String.eqb (record_id r) id' && is_reservation r then set_summary o r else r)
      <$> findReservation recordId rows.
Proof.
  unfold findReservation, update_summary. induction rows as [|r rows IH]; [done|].
  cbn [fmap list_fmap]. rewrite !filter_cons.
  assert (∀ b : bool, record_id (if b then set_summary o r else r) = record_id r
            ∧ is_reservation (if b then set_summary o r else r) = is_reservation r) as Hsame
    by (by intros []).
  destruct (Hsame (String.eqb (record_id r) id' && is_reservation r)) as [-> ->].
  case_decide; [done|exact IH].
Qed.

Lemma settled_summary_number r newStatus status settledAmount key :
  key ∉ ["status"; "resultStatus"; "settledAmount"] →
  summary_number (set_summary (settled_summary r newStatus status settledAmount) r) key
  = summary_number r key.
Proof.
  intros Hk. unfold summary_number. cbn [result_summary set_summary].
  unfold settled_summary, get_prop. rewrite !lookup_insert_ne by set_solver.
  by destruct (result_summary r).
Qed.

Lemma reserved_settle recordId n max current id' status settledAmount db :
  reserved recordId n max current db →
  reserved recordId n max current (pg_settleReservation id' status settledAmount db).2.
Proof.
  intros (r & Hr & Hn & Hm & Hc). unfold pg_settleReservation, withTransaction.
  destruct (doSettle id' status settledAmount db) as [[[]|c] db'] eqn:Hd; cbn [snd]; [|by exists r].
  apply doSettle_cases in Hd as [->|(r' & newStatus & Hr' & ->)]; [by exists r|].
  unfold reserved. cbn [db_rows set_rows]. rewrite findReservation_update, Hr.
  eexists. split; [reflexivity|].
  destruct (String.eqb_spec (record_id r) id') as [<-|]; cbn [andb]; [|done].
  destruct (is_reservation r); [|done].
  assert (r' = r) as ->.
  { destruct (findReservation_Some _ _ _ Hr) as (_ & E & _). rewrite E in Hr'. congruence. }
  rewrite !settled_summary_number by set_solver. done.
Qed.

(** An admitted fresh reservation is on the table, within its limit. *)
Lemma fresh_reserved uuid recordId a mf ws t max n db db1 current :
  recordId ∉ record_id <$> db_rows db →
  pg_checkAndReserve uuid recordId a mf ws t (Fin max) (Fin n) db
    = (Ok (mkReserve true (Fin current)), db1) →
  reserved recordId (Fin n) (Fin max) (Fin current) db1 ∧ current + n <= max.
Proof.
  intros Hfresh Hr.
  rewrite pg_checkAndReserve_eq in Hr. destruct (METER_FIELD_REGISTRY (mf_metric mf)); [|done].
  rewrite findReservation_fresh in Hr by done. destruct ws as [ws|]; [|done].
  destruct t as [t|]; [|done]. unfold reserve_fresh in Hr.
  destruct (num_gtb _ (Fin max)) eqn:Hg; [done|]. injection Hr as Hcur <-. rewrite Hcur in *.
  unfold num_gtb in Hg. cbn [num_add num_ltb] in Hg. rewrite Z.ltb_ge in Hg. split; [|done].
  unfold insertReservation. rewrite bool_decide_eq_false_2 by done. unfold reserved, findReservation.
  cbn [db_rows set_rows]. rewrite filter_app, (proj1 (head_None _) (findReservation_fresh _ _ Hfresh)).
  rewrite filter_cons_True by (by split). by eexists.
Qed.

(** Its replays. *)
Lemma reserved_replay recordId n max current db uuid agent mf windowStart now max' amount :
  reserved recordId (Fin n) (Fin max) (Fin current) db → current + n <= max →
  is_Some (METER_FIELD_REGISTRY (mf_metric mf)) →
  pg_checkAndReserve uuid recordId agent mf windowStart now max' amount db
    = (Ok (mkReserve true (Fin current)), db).
Proof.
  intros (r & Hf & Hn & Hm & Hc) Hle [entry Hreg].
  rewrite pg_checkAndReserve_eq, Hreg, Hf. unfold replay. rewrite Hn, Hm, Hc. cbn [default id].
  unfold num_gtb. cbn [num_add num_ltb]. rewrite (proj2 (Z.ltb_ge max _) Hle). done.
Qed.

Definition settle_all (settles : list (string * ResultStatus * option num)) (db : Db) : Db :=
  foldl (λ db s, (pg_settleReservation s.1.1 s.1.2 s.2 db).2) db settles.

(** Reservations are idempotent.  When a fresh reservation was admitted,
    every later call with its record id gives the first answer and leaves the
    table as it is, whatever the arguments of the call and whatever
    settlements, of this reservation or of others, happened in between. *)
Theorem reserve_idempotent uuid recordId a mf ws t max n db db1 current settles
    uuid' agent' mf' windowStart' now' max' amount' :
  recordId ∉ record_id <$> db_rows db →
  pg_checkAndReserve uuid recordId a mf ws t (Fin max) (Fin n) db
    = (Ok (mkReserve true (Fin current)), db1) →
  is_Some (METER_FIELD_REGISTRY (mf_metric mf')) →
  pg_checkAndReserve uuid' recordId agent' mf' windowStart' now' max' amount' (settle_all settles db1)
    = (Ok (mkReserve true (Fin current)), settle_all settles db1).
Proof.
  intros Hfresh Hr Hreg. destruct (fresh_reserved _ _ _ _ _ _ _ _ _ _ _ Hfresh Hr) as [Hres Hle].
  apply (reserved_replay recordId n max); [|done..].
  clear Hr. revert db1 Hres. induction settles as [|s settles IH]; intros db1 Hres; [done|].
  apply IH. by apply reserved_settle.
Qed.

Lemma evaluate_cumulative_allow `{Intl} {W} (T : CumulativeTracker W) registry mf e max w c amount p t
    db db' r :
  mf_source mf = action_record → METER_FIELD_REGISTRY (mf_metric mf) = Some e →
  reserve_amount e p = Some amount →
  checkAndReserve T (injected_string p "__recordId") (injected_string p "__agentDid") mf
    (computeWindowStart w t) t max amount db = (Ok r, db') →
  rr_allowed r = true →
  evaluate (new_ScopeEvaluator (Some T) registry) (CumulativeLimitScope mf max w c) p t db
    = (Ok allow, db').
Proof.
  intros Es Er Ea Hc Hok.
  assert (evaluate (new_ScopeEvaluator (Some T) registry) (CumulativeLimitScope mf max w c) p t
          = evaluateCumulativeLimit mf max w p t (Some T)) as -> by done.
  unfold evaluateCumulativeLimit. rewrite Es, Er, Ea. apply M_bind_ok. exists r, db'.
  split; [exact Hc|]. by rewrite Hok.
Qed.

(** Only the first cumulative limit of a request is enforced.  All the
    scopes of a request share its record id, so once the first cumulative
    limit admits a fresh request, a second one over another metric, window or
    limit is answered from the first reservation: the evaluator allows the
    request for every value of the second limit. *)
Theorem second_cumulative_limit_unchecked `{Intl, Primitives} uuid lpk registry mf1 mf2 max1 max2 w1 w2
    c1 c2 p t db db1 e1 e2 n1 n2 current :
  let se := new_ScopeEvaluator (Some (pg_tracker uuid lpk)) registry in
  mf_source mf1 = action_record → METER_FIELD_REGISTRY (mf_metric mf1) = Some e1 →
  reserve_amount e1 p = Some (Fin n1) →
  mf_source mf2 = action_record → METER_FIELD_REGISTRY (mf_metric mf2) = Some e2 →
  reserve_amount e2 p = Some n2 →
  injected_string p "__recordId" ∉ record_id <$> db_rows db →
  pg_checkAndReserve uuid (injected_string p "__recordId") (injected_string p "__agentDid") mf1
    (computeWindowStart w1 t) t (Fin max1) (Fin n1) db = (Ok (mkReserve true (Fin current)), db1) →
  evaluateAll se [CumulativeLimitScope mf1 (Fin max1) w1 c1; CumulativeLimitScope mf2 max2 w2 c2] p t db
    = (Ok allow, db1).
Proof.
  intros se Hs1 Hr1 Ha1 Hs2 Hr2 Ha2 Hfresh Hres.
  destruct (fresh_reserved _ _ _ _ _ _ _ _ _ _ _ Hfresh Hres) as [Hin Hle].
  cbn [evaluateAll]. apply M_bind_ok. exists allow, db1. split.
  { by apply (evaluate_cumulative_allow _ _ _ e1 _ _ _ (Fin n1) _ _ _ _ (mkReserve true (Fin current))). }
  cbn [allowed allow negb]. apply M_bind_ok. exists allow, db1. split; [|done].
  apply (evaluate_cumulative_allow _ _ _ e2 _ _ _ n2 _ _ _ _ (mkReserve true (Fin current)));
    [done..| |done].
  by eapply reserved_replay.
Qed.

(** A metered request cannot be recorded under its own id: once the
    tracker has reserved a record id, writing the action record with that id
    violates the unique constraint, and the ledger is left as it was. *)
Theorem reservation_blocks_record `{Primitives} uuid recordId a mf ws t max n db db1 current
    rc input uuid' :
  recordId ∉ record_id <$> db_rows db →
  pg_checkAndReserve uuid recordId a mf ws t (Fin max) (Fin n) db
    = (Ok (mkReserve true (Fin current)), db1) →
  in_recordId input = Some recordId →
  ∃ c, record uuid' rc input db1 = (Throw c, db1).
Proof.
  intros Hfresh Hr Hid. destruct (fresh_reserved _ _ _ _ _ _ _ _ _ _ _ Hfresh Hr) as [(r & Hf & _) _].
  destruct (findReservation_Some _ _ _ Hf) as (Hin & Hrid & _).
  assert (recordId ∈ record_id <$> db_rows db1) as Hdup by (apply list_elem_of_fmap; eauto).
  destruct (record uuid' rc input db1) as [[x|c] db2] eqn:Hrec.
  - pose proof (record_ok_fresh _ _ _ _ _ _ Hrec) as Hnot. by rewrite Hid in Hnot.
  - exists c. f_equal. by eapply record_throw.
Qed.

(** ** Settlement *)

(** An overrun is rolled back.  Settling a reservation of a SUM metric as
    successful throws exactly when the actual amount exceeds the reserved one
    and breaks the limit on top of the total at reservation time, and then the
    table is unchanged; otherwise the reservation row becomes SETTLED and no
    other row changes. *)
Theorem settle_overrun recordId settled db r n max current metric entry :
  findReservation recordId (db_rows db) = Some r → unique_ids (db_rows db) →
  summary_number r "reserveAmount" = Some (Fin n) → summary_number r "max" = Some (Fin max) →
  summary_number r "cumulativeAtReserve" = Some (Fin current) →
  summary_string r "metric" = Some metric → METER_FIELD_REGISTRY metric = Some entry →
  aggregation entry = SUM →
  let (o, db') := pg_settleReservation recordId SUCCESS (Some (Fin settled)) db in
  (o = Throw "Error" ↔ n < settled ∧ max < current + settled)
  ∧ (o = Throw "Error" → db' = db)
  ∧ (o ≠ Throw "Error" → Forall2 (λ x' x, x' = x ∨ x = r ∧ status_text x' = Some "SETTLED")
                            (db_rows db') (db_rows db)).
Proof.
  intros Hf Hu Hn Hm Hc Hmet Hreg Hsum.
  unfold pg_settleReservation, withTransaction, doSettle.
  assert (metric ≠ "") as Hne by (by intros ->).
  rewrite Hf, Hmet. destruct metric as [|ch metric]; [done|]. rewrite Hreg. unfold settle_status.
  rewrite Hsum, Hn, Hm, Hc, bool_decide_eq_true_2 by done. cbn [negb default id].
  unfold num_gtb. cbn [num_add num_ltb].
  destruct (Z.ltb_spec n settled), (Z.ltb_spec max (current + settled)); cbn [andb];
    (split_and!; [split; [by try lia|by intros; try lia]|done|intros Ho]); try done.
  all: cbn [db_rows set_rows]; eapply Forall2_impl; [apply update_summary_shape|].
  all: intros x' x [->|(Hx & E & ->)]; [by left|right].
  all: destruct (findReservation_Some _ _ _ Hf) as (Hin & Hid & _).
  all: assert (x = r) as -> by (eapply unique_ids_eq; [done..|congruence]).
  all: split; [done|apply settled_status_text].
Qed.
