(* ===== verification/LedgerExamples.v ===== *)
(** * A concrete ledger

    Two records written by a recorder, a window with reservations and their
    settlement: the values at which the theorems on the ledger and the tracker
    are applied, with the toy primitives of ToyPrimitives.v. *)
From S2P Require Import Prelude JsValue Time Encoding Crypto ToyPrimitives Authorization.
From S2P Require Import ScopeEvaluator Attenuation CapabilityToken Delegation Examples.
From S2P Require Import ActionRecords ActionRecorder PostgresTracker.

Definition fst_ok {W A} (d : A) (x : res A * W) : A := match x.1 with Ok a => a | Throw _ => d end.

Definition ledger_rc : ActionRecorder :=
  Eval vm_compute in
    match new_ActionRecorder None (toHex (seed_of 10)) with
    | Ok rc => rc | Throw _ => mkRecorder None "" "" end.

Definition ledger_keys (did : string) : option string := Some (toHex (ed25519_pub (seed_of 11))).

Definition ledger_input (result : params) : ActionRecordInput :=
  mkInput None (agent "a") principal "payment" (Some {["amount" := VNum (Fin 5)]}) None (Some result)
    (toHex (seed_of 11)) (Some 1) None None None.

Definition clock0 : Z := 1767225600000.
Definition ledger0 : Db := mkDb [] clock0.
Definition ledger1 : Db :=
  Eval vm_compute in
    (record (uuid_of "1") ledger_rc (ledger_input {["status" := VStr "SUCCESS"]}) ledger0).2.
Definition ledger2 : Db :=
  Eval vm_compute in
    (record (uuid_of "2") ledger_rc (ledger_input {["status" := VStr "ERROR"]}) ledger1).2.

Lemma ledger_rc_keypair : ledger_keypair (rc_ledgerPrivateKey ledger_rc) (rc_ledgerPublicKey ledger_rc).
Proof.
  apply (new_recorder_keypair None (seed_of 10)).
  - by apply seed_bytes.
  - reflexivity.
  - vm_compute. reflexivity.
Qed.

(** A write of the agent that begins and commits at once. *)
Lemma ledger_step db db' uuid result :
  ledger_reachable ledger_rc ledger_keys db [] →
  begin_record ledger_rc (ledger_input result) db = (Ok clock0, db) →
  forallb (λ r, created_at r <=? clock0) (db_rows db) = true →
  commit_record uuid ledger_rc (ledger_input result) clock0 db
    = (Ok (fst_ok ("", "") (commit_record uuid ledger_rc (ledger_input result) clock0 db)), db') →
  forallb (λ row, match detectEncoding (actor_signature row), detectEncoding (ledger_signature row) with
                  | enc_base64url, enc_base64url => true | _, _ => false end)
    (drop (length (db_rows db)) (db_rows db')) = true →
  ledger_reachable ledger_rc ledger_keys db' [].
Proof.
  intros Hr Hb Ho Hrec Hd.
  refine (ledger_commit _ _ db [] (mkBegunRecord uuid (ledger_input result) clock0) [] db' _ (toHex (ed25519_pub (seed_of 11)))
            (ledger_begin _ _ db [] uuid _ _ Hr Hb) _ eq_refl _ _ Hrec _).
  - apply Forall_forall. intros r Hin _. rewrite forallb_forall in Ho. apply Z.leb_le, Ho. by apply list_elem_of_In.
  - apply (bool_decide_eq_true_1 _). vm_compute. reflexivity.
  - exists (seed_of 11), enc_hex. split; [apply seed_bytes; lia|]. split; [reflexivity|].
    split; [left; reflexivity|reflexivity].
  - clear Hr Hrec. apply Forall_forall. intros row Hin _. rewrite forallb_forall in Hd.
    apply list_elem_of_In, Hd in Hin.
    destruct (detectEncoding (actor_signature row)), (detectEncoding (ledger_signature row)); done.
Qed.

Lemma ledger2_reachable : ledger_reachable ledger_rc ledger_keys ledger2 [].
Proof.
  apply (ledger_step ledger1 _ (uuid_of "2") {["status" := VStr "ERROR"]});
    [|vm_compute; reflexivity..].
  apply (ledger_step ledger0 _ (uuid_of "1") {["status" := VStr "SUCCESS"]});
    [|vm_compute; reflexivity..].
  apply ledger_start.
Qed.

Lemma ledger_integrity_witness :
  verifyIntegrity (checker_resolve false ledger_keys) (rc_ledgerPublicKey ledger_rc) (agent "a") 100
    ledger2 = Ok integrity_valid.
Proof.
  apply (ledger_integrity ledger_rc ledger_keys eq_refl ledger_rc_keypair ledger2 [] (agent "a") 100).
  exact ledger2_reachable.
Defined.

(** Two writes of one agent overlap: the first takes its time, the second takes
    a later one and gets the lock before the first. *)
Definition overlapped : Db :=
  (commit_record (uuid_of "1") ledger_rc (ledger_input {["status" := VStr "SUCCESS"]}) clock0
     (commit_record (uuid_of "2") ledger_rc (ledger_input {["status" := VStr "SUCCESS"]}) (clock0 + 1) ledger0).2).2.

(** The times of records are read before the chain is locked: when two writes of
    one agent get the lock in the other order, both succeed, and the integrity
    checker reports the honest ledger as broken. *)
Theorem overlapping_writes_break_integrity :
  length (db_rows overlapped) = 2%nat
  ∧ verifyIntegrity (checker_resolve false ledger_keys) (rc_ledgerPublicKey ledger_rc) (agent "a") 100 overlapped
    = Ok (integrity_broken (uuid_of "1") previous_record_hash_mismatch).
Proof. vm_compute. split; reflexivity. Qed.

(** The same records kept by a second recorder: other ledger signatures. *)
Definition replica_rc : ActionRecorder :=
  Eval vm_compute in
    match new_ActionRecorder None (toHex (seed_of 12)) with
    | Ok rc => rc | Throw _ => mkRecorder None "" "" end.
Definition replica2 : Db :=
  Eval vm_compute in
    (record (uuid_of "2") replica_rc (ledger_input {["status" := VStr "ERROR"]})
       (record (uuid_of "1") replica_rc (ledger_input {["status" := VStr "SUCCESS"]}) ledger0).2).2.

Lemma ledger_head_commits_witness :
  map (λ r, jcs (buildUnsignedRecordPayload r)) (db_rows ledger2)
  = map (λ r, jcs (buildUnsignedRecordPayload r)) (db_rows replica2)
  ∨ colliding (db_rows ledger2) (db_rows replica2).
Proof.
  apply (ledger_head_commits (checker_resolve false ledger_keys) (checker_resolve false ledger_keys)
           (rc_ledgerPublicKey ledger_rc) (rc_ledgerPublicKey replica_rc)).
  - vm_compute. reflexivity.
  - vm_compute. reflexivity.
  - reflexivity.
Defined.

(** ** A window of reservations *)

Definition amount_field : MeterFieldRef := mkMeterFieldRef action_record "transaction_amount" None None.
Definition amount_entry : MeterFieldEntry :=
  mkMeterEntry SUM (Some "amount") (Some "amount") filter_SUCCESS.
Definition day_start : Z := clock0 - 3600000.

(** Sixty reserved of a hundred. *)
Definition reserve_60 (db : Db) : res ReserveResult * Db :=
  pg_checkAndReserve (uuid_of "9") (uuid_of "5") (agent "a") amount_field (Some day_start)
    (Some clock0) (Fin 100) (Fin 60) db.
Definition reserved_db : Db := Eval vm_compute in (reserve_60 ledger2).2.

(** The reservation stores a UUID in the hash column of the agent's ledger. *)
Lemma foreign_row_breaks_integrity_witness :
  verifyIntegrity (checker_resolve false ledger_keys) (rc_ledgerPublicKey ledger_rc) (agent "a")
    INTEGRITY_LIMIT reserved_db ≠ Ok integrity_valid.
Proof.
  apply (foreign_row_breaks_integrity _ _ _ _ _
           (reservation_row (uuid_of "5") (agent "a") "transaction_amount" (Fin 60) (Fin 100) (Fin 0)
              clock0 (uuid_of "9"))).
  - do 2 right. left.
  - reflexivity.
  - apply Nat.leb_le. vm_compute. reflexivity.
  - vm_compute. discriminate.
  - vm_compute. discriminate.
Defined.

Lemma checkAndReserve_exact_witness :
  ∃ db', reserve_60 ledger2 = (Ok (mkReserve true (Fin 0)), db')
    ∧ aggregateWithClient (agent "a") day_start clock0 amount_entry db' = Fin 60
    ∧ (60 > 100 → db' = ledger2).
Proof.
  apply (checkAndReserve_exact (uuid_of "9") (uuid_of "5") (agent "a") amount_field amount_entry
           day_start clock0 100 60 ledger2).
  - reflexivity.
  - discriminate.
  - repeat constructor; intros _ n E; vm_compute in E; discriminate.
  - apply (bool_decide_eq_true_1 _). vm_compute. reflexivity.
  - vm_compute. discriminate.
  - vm_compute. discriminate.
Defined.


Lemma reserve_idempotent_witness :
  pg_checkAndReserve "" (uuid_of "5") (agent "b") amount_field None None (Fin 1) (Fin 1000)
    (settle_all [(uuid_of "5", ERROR, None)] reserved_db)
  = (Ok (mkReserve true (Fin 0)), settle_all [(uuid_of "5", ERROR, None)] reserved_db).
Proof.
  apply (reserve_idempotent (uuid_of "9") (uuid_of "5") (agent "a") amount_field (Some day_start)
           (Some clock0) 100 60 ledger2).
  - apply (bool_decide_eq_true_1 _). vm_compute. reflexivity.
  - vm_compute. reflexivity.
  - eexists. reflexivity.
Defined.

Definition metered_request : params :=
  <["__recordId" := VStr (uuid_of "5")]> (<["__agentDid" := VStr (agent "a")]>
  {["amount" := VNum (Fin 60)]}).

(** A request for sixty passes a monthly limit of ten. *)
Lemma second_cumulative_limit_unchecked_witness :
  evaluateAll (new_ScopeEvaluator (Some (pg_tracker (uuid_of "9") "")) ∅)
    [CumulativeLimitScope amount_field (Fin 100) day None;
     CumulativeLimitScope amount_field (Fin 10) month None] metered_request (Some clock0) ledger2
  = (Ok allow, reserved_db).
Proof.
  apply (second_cumulative_limit_unchecked (uuid_of "9") "" ∅ amount_field amount_field 100 (Fin 10)
           day month None None metered_request (Some clock0) ledger2 reserved_db amount_entry
           amount_entry 60 (Fin 60) 0).
  - reflexivity.
  - reflexivity.
  - vm_compute. reflexivity.
  - reflexivity.
  - reflexivity.
  - vm_compute. reflexivity.
  - apply (bool_decide_eq_true_1 _). vm_compute. reflexivity.
  - vm_compute. reflexivity.
Defined.

Lemma reservation_blocks_record_witness :
  ∃ c, record (uuid_of "7") ledger_rc
         (mkInput (Some (uuid_of "5")) (agent "a") principal "payment" None None None
            (toHex (seed_of 11)) None None None None) reserved_db = (Throw c, reserved_db).
Proof.
  apply (reservation_blocks_record (uuid_of "9") (uuid_of "5") (agent "a") amount_field (Some day_start)
           (Some clock0) 100 60 ledger2 reserved_db 0).
  - apply (bool_decide_eq_true_1 _). vm_compute. reflexivity.
  - vm_compute. reflexivity.
  - reflexivity.
Defined.

Lemma settle_overrun_witness :
  let (o, db') := pg_settleReservation (uuid_of "5") SUCCESS (Some (Fin 120)) reserved_db in
  (o = Throw "Error" ↔ 60 < 120 ∧ 100 < 0 + 120)
  ∧ (o = Throw "Error" → db' = reserved_db)
  ∧ (o ≠ Throw "Error" → Forall2 (λ x' x, x' = x ∨ x = reservation_row (uuid_of "5") (agent "a")
         "transaction_amount" (Fin 60) (Fin 100) (Fin 0) clock0 (uuid_of "9")
         ∧ status_text x' = Some "SETTLED") (db_rows db') (db_rows reserved_db)).
Proof.
  apply (settle_overrun (uuid_of "5") 120 reserved_db
           (reservation_row (uuid_of "5") (agent "a") "transaction_amount" (Fin 60) (Fin 100) (Fin 0)
              clock0 (uuid_of "9")) 60 100 0 "transaction_amount" amount_entry).
  - vm_compute. reflexivity.
  - apply (bool_decide_eq_true_1 _). vm_compute. reflexivity.
  - vm_compute. reflexivity.
  - vm_compute. reflexivity.
  - vm_compute. reflexivity.
  - vm_compute. reflexivity.
  - reflexivity.
  - reflexivity.
Defined.

(** ** Late settlement *)

(** Sixty reserved; six minutes later the reservation no longer counts, so
    sixty more are reserved, and then both are settled. *)
Definition late_settlement : Db :=
  let db1 := (reserve_60 ledger0).2 in
  let later := clock0 + 360000 in
  let db2 := (pg_checkAndReserve (uuid_of "9") (uuid_of "6") (agent "a") amount_field (Some day_start)
                (Some later) (Fin 100) (Fin 60) (mkDb (db_rows db1) later)).2 in
  settle_all [(uuid_of "5", SUCCESS, None); (uuid_of "6", SUCCESS, None)] db2.

(** Settlement after the TTL breaks the limit: a pending reservation
    drops out of the total after five minutes, but settling it later still
    succeeds, and the settled total of a window with limit 100 reaches 120. *)
Theorem late_settlement_exceeds_limit :
  aggregateWithClient (agent "a") day_start (db_clock late_settlement) amount_entry late_settlement
  = Fin 120.
Proof. vm_compute. reflexivity. Qed.

(** Negative amounts restore the limit: a request with a negative amount
    is admitted and lowers the total, so that a second request for the whole
    limit is admitted after sixty were already reserved. *)
Theorem negative_amount_bypasses_limit :
  let refund := (pg_checkAndReserve (uuid_of "9") (uuid_of "6") (agent "a") amount_field
                   (Some day_start) (Some clock0) (Fin 100) (Fin (-60)) (reserve_60 ledger0).2).2 in
  (pg_checkAndReserve (uuid_of "9") (uuid_of "7") (agent "a") amount_field (Some day_start)
     (Some clock0) (Fin 100) (Fin 100) refund).1 = Ok (mkReserve true (Fin 0)).
Proof. vm_compute. reflexivity. Qed.

(** ** Settled amounts *)

(** Sixty reserved of a hundred and settled for the hundred actually spent, and
    then forty more reserved. *)
Definition overspent : Db :=
  (pg_checkAndReserve (uuid_of "9") (uuid_of "6") (agent "a") amount_field (Some day_start) (Some clock0) (Fin 100) (Fin 40)
     (settle_all [(uuid_of "5", SUCCESS, Some (Fin 100))] (reserve_60 ledger0).2)).2.

(** Settlement is documented to replace the reserved amount by the settled one;
    the total of a window still counts the reserved amount of a settled row, so
    that a window with limit 100 admits reservations after 100 were spent. *)
Theorem settled_amount_not_counted :
  aggregateWithClient (agent "a") day_start clock0 amount_entry overspent = Fin 100
  ∧ (λ r, summary_number r "settledAmount") <$> db_rows overspent = [Some (Fin 100); None]
  ∧ (λ r, summary_number r "reserveAmount") <$> db_rows overspent = [Some (Fin 60); Some (Fin 40)].
Proof. vm_compute. repeat split; reflexivity. Qed.
