(* ===== verification/RuntimeGuard.v ===== *)
(** * The runtime guard

    packages/policy/src/guard/runtime-guard.ts: [RuntimeGuard.check] walks the
    tokens of an agent, verifies each one (directly, or through the delegation
    chain validator), evaluates the scopes of its matching capabilities, asks
    the revocation checker, and allows the first token that passes.  The ports
    of the guard are fixed during one check; the state [W] is the one the
    cumulative tracker works on. *)
From S2P Require Import Prelude JsValue Time Encoding Crypto Authorization ScopeEvaluator.
From S2P Require Import CapabilityToken Delegation.

Inductive GuardReason : Type :=
| no_tokens_found
| requested_token_not_found
| parent_token_revoked
| no_matching_capability
| capability_revoked
| scope_check_failed (why : option DenyReason).

Inductive GuardCode : Type := TOKEN_REVOKED.

Record RuntimeGuardResult : Type := mkGuardResult {
  g_allowed : bool;
  g_reason : option GuardReason;
  g_code : option GuardCode;
  g_tokenId : option string;
  g_delegationDepth : option nat }.

Definition guard_deny (r : GuardReason) : RuntimeGuardResult :=
  mkGuardResult false (Some r) None None None.

Section guard.
Context `{Primitives} `{Intl} {W : Type}.

Definition Validator : Type :=
  ChainPorts → CapabilityToken → string → res DelegationChainValidationResult.

Record RuntimeGuard : Type := mkRuntimeGuard {
  getTokensForAgent : string → list CapabilityToken;
  getToken : option (string → option CapabilityToken);
  revocationChecker : string → bool;
  rg_scopeEvaluator : ScopeEvaluator W;
  rg_now : string;
  delegationChainValidator : option Validator;
  rg_resolvePublicKeys : option (string → option ResolvedPublicKeys) }.

(** The constructor, without a scope evaluator. *)
Definition default_scopeEvaluator : ScopeEvaluator W := new_ScopeEvaluator None ∅.

(** What the verification of a candidate token decides. *)
Inductive Gate : Type :=
| gate_skip
| gate_revoked
| gate_pass (depth : nat).

Definition check_token (g : RuntimeGuard) (token : CapabilityToken) : res Gate :=
  if Nat.eqb (length (chain_of token)) 0 then
    verification ← verifyCapabilityToken token (rg_now g) None;
    mret (match verification with token_valid => gate_pass 0 | token_invalid _ => gate_skip end)
  else
    match delegationChainValidator g, rg_resolvePublicKeys g, getToken g with
    | Some validator, Some keys, Some store =>
        let nowMs := dateNum (rg_now g) in
        if num_gtb (dateNum (ct_issuedAt token)) nowMs then mret gate_skip
        else if num_leb (dateNum (ct_expiresAt token)) nowMs then mret gate_skip
        else
          chainResult ← validator (mkPorts keys (Some (revocationChecker g)) (Some store)) token (rg_now g);
          mret (if cr_valid chainResult then gate_pass (cr_depth chainResult)
                else if bool_decide (cr_reason chainResult = Some PARENT_TOKEN_REVOKED)
                then gate_revoked else gate_skip)
    | _, _, _ => mret gate_skip
    end.

Definition matching_scopes (action : string) (token : CapabilityToken) : list Scope :=
  cap_scope <$> filter (λ c, cap_action c = action) (ct_capabilities token).

(** [{ ...params, __agentDid, __recordId }] *)
Definition guard_params (randomUUID agentDid : string) (p : params) : params :=
  <["__recordId" := VStr (match get_prop p "__recordId" with VStr s => s | _ => randomUUID end)]>
  (<["__agentDid" := VStr agentDid]> p).

(** The variables of the loop. *)
Record GuardState : Type := mkGuardState {
  sawMatchingCapability : bool;
  lastScopeFailure : option ScopeEvaluationResult;
  sawRevoked : bool }.

Definition guard_final (s : GuardState) : RuntimeGuardResult :=
  if negb (sawMatchingCapability s) then guard_deny no_matching_capability
  else if sawRevoked s then guard_deny capability_revoked
  else guard_deny (scope_check_failed (lastScopeFailure s ≫= reason)).

(** The loop over the candidates; [uuids i] is the UUID drawn for the [i]-th. *)
Fixpoint check_tokens (g : RuntimeGuard) (uuids : nat → string) (action : string) (p : params)
    (agentDid : string) (i : nat) (tokens : list CapabilityToken) (s : GuardState)
    : M W RuntimeGuardResult :=
  match tokens with
  | [] => mret (guard_final s)
  | token :: rest =>
      gate ← lift_res (check_token g token);
      match gate with
      | gate_skip => check_tokens g uuids action p agentDid (S i) rest s
      | gate_revoked =>
          mret (mkGuardResult false (Some parent_token_revoked) (Some TOKEN_REVOKED)
                  (Some (ct_id token)) None)
      | gate_pass depth =>
          match matching_scopes action token with
          | [] => check_tokens g uuids action p agentDid (S i) rest s
          | scopes =>
              scopeResult ← evaluateAll (rg_scopeEvaluator g) scopes
                              (guard_params (uuids i) agentDid p) (getTime (rg_now g));
              if negb (allowed scopeResult)
              then check_tokens g uuids action p agentDid (S i) rest
                     (mkGuardState true (Some scopeResult) (sawRevoked s))
              else if revocationChecker g (ct_id token)
              then check_tokens g uuids action p agentDid (S i) rest
                     (mkGuardState true (lastScopeFailure s) true)
              else mret (mkGuardResult true None None (Some (ct_id token)) (Some depth))
          end
      end
  end.

(** [RuntimeGuard.check] *)
Definition guard_check (g : RuntimeGuard) (uuids : nat → string) (action : string) (p : params)
    (agentDid : string) (requestedTokenId : option string) : M W RuntimeGuardResult :=
  let allTokens := getTokensForAgent g agentDid in
  let tokens := match requestedTokenId with
                | None => allTokens
                | Some id => filter (λ t, ct_id t = id) allTokens
                end in
  if Nat.eqb (length tokens) 0
  then mret (guard_deny (match requestedTokenId with
                         | Some _ => requested_token_not_found | None => no_tokens_found end))
  else check_tokens g uuids action p agentDid 0 tokens (mkGuardState false None false).
End guard.
Arguments RuntimeGuard : clear implicits.

(** ** Guards without a tracker *)

(** Without a tracker and plugins the evaluation of scopes has no effect, and
    neither has a check. *)
Section stateless.
Context `{Primitives} `{Intl} {W : Type} (g : RuntimeGuard W).
Context (Hse : rg_scopeEvaluator g = new_ScopeEvaluator None ∅).

Lemma evaluate_stateless s p now (w : W) : (evaluate (new_ScopeEvaluator None ∅) s p now w).2 = w.
Proof.
  rewrite evaluate_builtin. destruct s as [| | | |t]; try done.
  unfold evaluate. cbn [se_evaluators se_registry new_ScopeEvaluator scope_type].
  destruct (builtin_closures !! t) as [fn|] eqn:E; [|by rewrite lookup_empty].
  unfold builtin_closures in E. repeat (rewrite lookup_insert_Some in E || rewrite lookup_empty in E).
  naive_solver.
Qed.

Lemma evaluateAll_stateless scopes p now (w : W) : (evaluateAll (new_ScopeEvaluator None ∅) scopes p now w).2 = w.
Proof.
  revert w. induction scopes as [|s scopes IH]; intros w; cbn [evaluateAll]; [done|].
  unfold mbind, M_bind. pose proof (evaluate_stateless s p now w) as E.
  destruct (evaluate _ s p now w) as [[r|c] w1]; cbn in E; subst w1; [|done]. by destruct (negb (allowed r)).
Qed.

Lemma check_tokens_stateless uuids action p agentDid i tokens s (w : W) :
  (check_tokens g uuids action p agentDid i tokens s w).2 = w.
Proof.
  revert i s. induction tokens as [|token tokens IH]; intros i s; cbn [check_tokens]; [done|].
  unfold lift_res, mbind, M_bind. destruct (check_token g token) as [[| |depth]|c]; [apply IH|done| |done].
  destruct (matching_scopes action token) as [|sc scs]; [apply IH|]. rewrite Hse.
  pose proof (evaluateAll_stateless (sc :: scs) (guard_params (uuids i) agentDid p) (getTime (rg_now g)) w) as E.
  destruct (evaluateAll _ _ _ _ w) as [[r|c] w1]; cbn in E; subst w1; [|done].
  destruct (negb (allowed r)); [apply IH|]. destruct (revocationChecker g (ct_id token)); [apply IH|done].
Qed.

Lemma guard_check_stateless uuids action p agentDid requested (w : W) :
  (guard_check g uuids action p agentDid requested w).2 = w.
Proof. unfold guard_check. destruct (Nat.eqb _ _); [done|]. apply check_tokens_stateless. Qed.
End stateless.

(** ** What an allowed check rests on *)

Section sound.
Context `{Primitives} `{Intl} {W : Type} (g : RuntimeGuard W).

(** The candidates a request can be decided with. *)
Definition candidates (agentDid : string) (requestedTokenId : option string) : list CapabilityToken :=
  match requestedTokenId with
  | None => getTokensForAgent g agentDid
  | Some id => filter (λ t, ct_id t = id) (getTokensForAgent g agentDid)
  end.

(** A token passes: verified, with a capability for the action whose scopes all
    allow the request (in the state [w], which the tracker takes to [w']), and
    not revoked. *)
Record grants (uuids : nat → string) (action : string) (p : params) (agentDid : string)
    (token : CapabilityToken) (depth : nat) (w w' : W) : Prop := {
  grants_gate : check_token g token = Ok (gate_pass depth);
  grants_match : matching_scopes action token ≠ [];
  grants_scopes : ∃ i, evaluateAll (rg_scopeEvaluator g) (matching_scopes action token)
                    (guard_params (uuids i) agentDid p) (getTime (rg_now g)) w
                  = (Ok allow, w');
  grants_live : revocationChecker g (ct_id token) = false }.

Lemma evaluateAll_allowed (se : ScopeEvaluator W) scopes p now w r w' :
  evaluateAll se scopes p now w = (Ok r, w') → allowed r = true → r = allow.
Proof.
  revert w. induction scopes as [|s scopes IH]; intros w; cbn [evaluateAll].
  { by intros [= <- <-]. }
  intros (r1 & w1 & _ & Hk)%M_bind_ok Ha.
  destruct (allowed r1) eqn:E1; cbn [negb] in Hk; [by eapply IH|].
  injection Hk as <- <-. congruence.
Qed.

Lemma check_tokens_allowed uuids action p agentDid i tokens s w r w' :
  check_tokens g uuids action p agentDid i tokens s w = (Ok r, w') → g_allowed r = true →
  ∃ token depth w0, token ∈ tokens ∧ grants uuids action p agentDid token depth w0 w'
    ∧ r = mkGuardResult true None None (Some (ct_id token)) (Some depth).
Proof.
  revert i s w. induction tokens as [|token tokens IH]; intros i s w; cbn [check_tokens].
  { unfold guard_final. destruct (sawMatchingCapability s), (sawRevoked s); by intros [= <- <-]. }
  assert (∀ i s w, check_tokens g uuids action p agentDid i tokens s w = (Ok r, w') →
    g_allowed r = true →
    ∃ t depth w0, t ∈ token :: tokens ∧ grants uuids action p agentDid t depth w0 w'
      ∧ r = mkGuardResult true None None (Some (ct_id t)) (Some depth)) as Hrest.
  { intros i1 s1 w1 H1 H2. destruct (IH i1 s1 w1 H1 H2) as (t & d & w0 & ? & ?).
    exists t, d, w0. split; [by right|done]. }
  clear IH. intros (gate & w1 & [= Hg <-] & Hk)%M_bind_ok Ha.
  destruct gate as [| |depth]; [by eapply Hrest|by injection Hk as <- <-|].
  destruct (matching_scopes action token) as [|sc scopes] eqn:Em; [by eapply Hrest|].
  apply M_bind_ok in Hk as (sr & w2 & He & Hk).
  destruct (allowed sr) eqn:Es; cbn [negb] in Hk; [|by eapply Hrest].
  destruct (revocationChecker g (ct_id token)) eqn:Er; [by eapply Hrest|].
  injection Hk as <- <-. exists token, depth, w. split; [by left|]. split; [|done].
  rewrite (evaluateAll_allowed _ _ _ _ _ _ _ He Es) in He.
  split; [done|by rewrite Em|by exists i; rewrite Em|done].
Qed.

Lemma guard_check_allowed uuids action p agentDid requested w r w' :
  guard_check g uuids action p agentDid requested w = (Ok r, w') → g_allowed r = true →
  ∃ token depth w0,
    token ∈ getTokensForAgent g agentDid
    ∧ (∀ id, requested = Some id → ct_id token = id)
    ∧ grants uuids action p agentDid token depth w0 w'
    ∧ g_tokenId r = Some (ct_id token) ∧ g_delegationDepth r = Some depth.
Proof.
  unfold guard_check. intros Hc Ha.
  destruct (Nat.eqb _ 0); [by injection Hc as <- <-|].
  destruct (check_tokens_allowed _ _ _ _ _ _ _ _ _ _ Hc Ha) as (t & d & w0 & Hin & Hg & ->).
  exists t, d, w0. destruct requested as [id|].
  - apply list_elem_of_filter in Hin as [? ?]. split_and!; try done. by intros ? [= <-].
  - split_and!; done.
Qed.

(** The guard authorizes soundly.  An allowed check names a token of the
    agent's store (the requested one, when one was requested) that is verified,
    carries a capability for the action, has every matching scope satisfied by
    the request in the state in which it was evaluated, and is not revoked; the
    reported depth is the one its verification returned. *)
Theorem guard_allow_sound uuids action p agentDid requested w r w' :
  guard_check g uuids action p agentDid requested w = (Ok r, w') → g_allowed r = true →
  ∃ token depth w0,
    token ∈ getTokensForAgent g agentDid
    ∧ (∀ id, requested = Some id → ct_id token = id)
    ∧ grants uuids action p agentDid token depth w0 w'
    ∧ g_tokenId r = Some (ct_id token) ∧ g_delegationDepth r = Some depth.
Proof. apply guard_check_allowed. Qed.

(** ** The reason of a denial *)

(** A candidate is relevant when it verifies and names the action. *)
Definition relevant (action : string) (token : CapabilityToken) : Prop :=
  (∃ depth, check_token g token = Ok (gate_pass depth)) ∧ matching_scopes action token ≠ [].

Lemma check_tokens_denied uuids action p agentDid i tokens s w r w' :
  check_tokens g uuids action p agentDid i tokens s w = (Ok r, w') →
  g_allowed r = false → g_code r = None →
  (g_reason r = Some no_matching_capability
   ↔ sawMatchingCapability s = false ∧ Forall (λ t, ¬ relevant action t) tokens)
  ∧ (g_reason r = Some capability_revoked →
     sawRevoked s = true
     ∨ ∃ t, t ∈ tokens ∧ relevant action t ∧ revocationChecker g (ct_id t) = true).
Proof.
  revert i s w. induction tokens as [|t tokens IH]; intros i s w; cbn [check_tokens].
  { unfold guard_final. destruct (sawMatchingCapability s), (sawRevoked s); intros [= <- <-] _ _; simpl;
      split; try done; try (by split; [|intros []]); auto. }
  intros (gate & w1 & [= Hg <-] & Hk)%M_bind_ok Ha Hcode.
  assert (∀ i s', ¬ relevant action t →
    check_tokens g uuids action p agentDid i tokens s' w = (Ok r, w') → s' = s →
    (g_reason r = Some no_matching_capability
     ↔ sawMatchingCapability s = false ∧ Forall (λ t, ¬ relevant action t) (t :: tokens))
    ∧ (g_reason r = Some capability_revoked →
       sawRevoked s = true
       ∨ ∃ t', t' ∈ t :: tokens ∧ relevant action t' ∧ revocationChecker g (ct_id t') = true)) as Hskip.
  { intros j s' Hirr Hk' ->. destruct (IH _ _ _ Hk' Ha Hcode) as [H1 H2]. split.
    - rewrite H1, Forall_cons. naive_solver.
    - intros E. destruct (H2 E) as [?|(t' & ? & ?)]; [by left|right; exists t'; split; [by right|done]]. }
  destruct gate as [| |depth].
  - eapply Hskip; [|exact Hk|done]. intros [[d Hd] _]. congruence.
  - by injection Hk as <- <-.
  - destruct (matching_scopes action t) as [|sc scopes] eqn:Em.
    { eapply Hskip; [|exact Hk|done]. by intros [_ ?]. }
    assert (relevant action t) as Hrel by (split; [by exists depth|by rewrite Em]).
    apply M_bind_ok in Hk as (sr & w2 & He & Hk).
    destruct (allowed sr); cbn [negb] in Hk; [destruct (revocationChecker g (ct_id t)) eqn:Er|].
    + destruct (IH _ _ _ Hk Ha Hcode) as [H1 _]. split.
      * rewrite H1, Forall_cons. naive_solver.
      * intros _. right. exists t. split; [by left|done].
    + by injection Hk as <- <-.
    + destruct (IH _ _ _ Hk Ha Hcode) as [H1 H2]. split.
      * rewrite H1, Forall_cons. naive_solver.
      * intros E. destruct (H2 E) as [?|(t' & ? & ?)]; [by left|right; exists t'; split; [by right|done]].
Qed.

(** A denial says why.  When a check over a non-empty candidate list
    denies without a revocation code, the reason is "no matching capability"
    exactly when no candidate both verifies and names the action, and it is
    "capability revoked" only when a candidate that verifies and names the
    action is revoked. *)
Theorem guard_denial_reason uuids action p agentDid requested w r w' :
  candidates agentDid requested ≠ [] →
  guard_check g uuids action p agentDid requested w = (Ok r, w') →
  g_allowed r = false → g_code r = None →
  (g_reason r = Some no_matching_capability
   ↔ Forall (λ t, ¬ relevant action t) (candidates agentDid requested))
  ∧ (g_reason r = Some capability_revoked →
     ∃ t, t ∈ candidates agentDid requested ∧ relevant action t
          ∧ revocationChecker g (ct_id t) = true).
Proof.
  intros Hne Hc Ha Hcode. unfold guard_check in Hc. fold (candidates agentDid requested) in Hc.
  destruct (Nat.eqb_spec (length (candidates agentDid requested)) 0) as [E|_];
    [by apply nil_length_inv in E|].
  destruct (check_tokens_denied _ _ _ _ _ _ _ _ _ _ Hc Ha Hcode) as [H1 H2].
  split; [rewrite H1; cbn; naive_solver|]. intros E. by destruct (H2 E).
Qed.
End sound.
