(* ===== verification/PolicyEngine.v ===== *)
(** * The policy engine

    packages/policy/src/engine.ts: [PolicyEngine.executeWithPolicy] asks the
    guard, then the human checkpoint when approval is required, runs the
    executor and writes one action record with the outcome.  The guard, the
    recorder, the checkpoint, the executor and its success hook are the ports
    of the engine; each is a computation over the state [W] of the world, and an
    exception keeps what the computation has already done to it. *)
From S2P Require Import Prelude JsValue Time Encoding Crypto Authorization ScopeEvaluator.
From S2P Require Import CapabilityToken Delegation ActionRecords ActionRecorder RuntimeGuard.

Record PolicyGuardResult : Type := mkPolicyGuardResult {
  pg_allowed : bool;
  pg_reason : option string;
  pg_tokenId : option string;
  pg_delegationDepth : option Z }.

Record PolicyEngine (W : Type) : Type := mkPolicyEngine {
  pe_guard : string → params → string → option string → M W PolicyGuardResult;
  pe_recorder : ActionRecordInput → M W (string * string);
  pe_checkpoint : option (string → string → params → M W bool) }.
Arguments mkPolicyEngine {W} _ _ _.
Arguments pe_guard {W} _ _ _ _ _.
Arguments pe_recorder {W} _ _.
Arguments pe_checkpoint {W} _.

Record ExecuteWithPolicyParams (W A : Type) : Type := mkExecute {
  ex_action : string;
  ex_params : params;
  ex_agentDid : string;
  ex_principalDid : string;
  ex_actorPrivateKey : string;
  ex_executor : M W A;
  ex_requireHumanApproval : bool;
  ex_requestedTokenId : option string;
  ex_recordId : option string;
  ex_onExecutorSuccess : option (M W unit) }.
Arguments mkExecute {W A} _ _ _ _ _ _ _ _ _ _.
Arguments ex_action {W A} _.
Arguments ex_params {W A} _.
Arguments ex_agentDid {W A} _.
Arguments ex_principalDid {W A} _.
Arguments ex_actorPrivateKey {W A} _.
Arguments ex_executor {W A} _.
Arguments ex_requireHumanApproval {W A} _.
Arguments ex_requestedTokenId {W A} _.
Arguments ex_recordId {W A} _.
Arguments ex_onExecutorSuccess {W A} _.

Inductive ExecuteWithPolicyResult (A : Type) : Type :=
| executed (result : A) (recordId : string)
| rejected (why : string) (recordId : string).
Arguments executed {A} _ _.
Arguments rejected {A} _ _.

Section engine.
Context {W A : Type}.
(** [error.message], or [unknown error]. *)
Context (error_message : string → string).

(** The record of an outcome. *)
Definition outcome_record (q : ExecuteWithPolicyParams W A) (authorizationRef : option value)
    (resultSummary : params) (depth : option Z) : ActionRecordInput :=
  mkInput (ex_recordId q) (ex_agentDid q) (ex_principalDid q) (ex_action q) (Some (ex_params q))
    authorizationRef (Some resultSummary) (ex_actorPrivateKey q) depth None None None.

Definition token_ref (gr : PolicyGuardResult) : option value :=
  Some (VObj [("tokenId", match pg_tokenId gr with Some id => VStr id | None => VNull end)]).

(** [{ status, reason }]; a missing reason is [undefined]. *)
Definition rejected_summary (why : option string) : params :=
  <["status" := VStr "REJECTED"]> {["reason" := match why with Some s => VStr s | None => VUndefined end]}.
Definition success_summary : params := {["status" := VStr "SUCCESS"]}.
Definition error_summary (e : string) : params :=
  <["status" := VStr "ERROR"]> {["message" := VStr (error_message e)]}.

(** [try { body } catch (e) { handler(e) }]: no rollback. *)
Definition try_catch {B} (body : M W B) (handler : string → M W B) : M W B := λ w,
  match body w with
  | (Throw e, w') => handler e w'
  | ok => ok
  end.

(** The body of the [try] block. *)
Definition run_executor (pe : PolicyEngine W) (q : ExecuteWithPolicyParams W A)
    (gr : PolicyGuardResult) : M W (ExecuteWithPolicyResult A) :=
  result ← ex_executor q;
  _ ← match ex_onExecutorSuccess q with Some hook => hook | None => mret tt end;
  record ← pe_recorder pe (outcome_record q (token_ref gr) success_summary (pg_delegationDepth gr));
  mret (executed result record.1).

Definition record_error (pe : PolicyEngine W) (q : ExecuteWithPolicyParams W A)
    (gr : PolicyGuardResult) (e : string) : M W (ExecuteWithPolicyResult A) :=
  _ ← pe_recorder pe (outcome_record q (token_ref gr) (error_summary e) (pg_delegationDepth gr));
  throw e.

Definition execute_authorized (pe : PolicyEngine W) (q : ExecuteWithPolicyParams W A)
    (gr : PolicyGuardResult) : M W (ExecuteWithPolicyResult A) :=
  try_catch (run_executor pe q gr) (record_error pe q gr).

Definition executeWithPolicy (pe : PolicyEngine W) (q : ExecuteWithPolicyParams W A)
    : M W (ExecuteWithPolicyResult A) :=
  guardResult ← pe_guard pe (ex_action q) (ex_params q) (ex_agentDid q) (ex_requestedTokenId q);
  if negb (pg_allowed guardResult) then
    record ← pe_recorder pe (outcome_record q None (rejected_summary (pg_reason guardResult))
                               (pg_delegationDepth guardResult));
    mret (rejected (default "action rejected" (pg_reason guardResult)) record.1)
  else if ex_requireHumanApproval q then
    match pe_checkpoint pe with
    | None => throw "INTERNAL_ERROR"
    | Some requestConfirmation =>
        approved ← requestConfirmation (ex_action q) (ex_agentDid q) (ex_params q);
        if negb approved then
          record ← pe_recorder pe (outcome_record q (token_ref guardResult)
                                     (rejected_summary (Some "human approval denied"))
                                     (pg_delegationDepth guardResult));
          mret (rejected "human approval denied" record.1)
        else execute_authorized pe q guardResult
    end
  else execute_authorized pe q guardResult.

(** ** Authorization *)

(** Guard and checkpoint let the call through, from [w] to [w']. *)
Definition authorized (pe : PolicyEngine W) (q : ExecuteWithPolicyParams W A)
    (gr : PolicyGuardResult) (w w' : W) : Prop :=
  ∃ w1, pe_guard pe (ex_action q) (ex_params q) (ex_agentDid q) (ex_requestedTokenId q) w = (Ok gr, w1)
    ∧ pg_allowed gr = true
    ∧ if ex_requireHumanApproval q
      then ∃ ask, pe_checkpoint pe = Some ask
             ∧ ask (ex_action q) (ex_agentDid q) (ex_params q) w1 = (Ok true, w')
      else w' = w1.

Lemma executeWithPolicy_authorized pe q gr w w1 :
  authorized pe q gr w w1 → executeWithPolicy pe q w = execute_authorized pe q gr w1.
Proof.
  intros (w0 & Hg & Ha & Hh). unfold executeWithPolicy.
  rewrite (M_bind_run _ _ _ _ _ Hg), Ha. cbn [negb].
  destruct (ex_requireHumanApproval q); [|by subst].
  destruct Hh as (ask & -> & Hask). by rewrite (M_bind_run _ _ _ _ _ Hask).
Qed.

Lemma executed_inv pe q w result recordId w' :
  executeWithPolicy pe q w = (Ok (executed result recordId), w') →
  ∃ gr w1 w2 w3 h,
    authorized pe q gr w w1
    ∧ ex_executor q w1 = (Ok result, w2)
    ∧ match ex_onExecutorSuccess q with Some hook => hook w2 = (Ok tt, w3) | None => w3 = w2 end
    ∧ pe_recorder pe (outcome_record q (token_ref gr) success_summary (pg_delegationDepth gr)) w3
      = (Ok (recordId, h), w').
Proof.
  unfold executeWithPolicy. intros (gr & w1 & Hg & Hk)%M_bind_ok.
  destruct (pg_allowed gr) eqn:Ha; cbn [negb] in Hk.
  2: { by apply M_bind_ok in Hk as (rec & w2 & _ & [=]). }
  assert (∃ w2, authorized pe q gr w w2
            ∧ execute_authorized pe q gr w2 = (Ok (executed result recordId), w')) as (w2 & Hau & Hx).
  { unfold authorized. destruct (ex_requireHumanApproval q); [|by eauto 10].
    destruct (pe_checkpoint pe) as [ask|]; [|done].
    apply M_bind_ok in Hk as ([] & w2 & Hask & Hk); cbn [negb] in Hk; [by eauto 10|].
    by apply M_bind_ok in Hk as (rec & w3 & _ & [=]). }
  unfold execute_authorized, try_catch in Hx.
  destruct (run_executor pe q gr w2) as [[x|e] w3] eqn:Hr.
  2: { by apply M_bind_ok in Hx as (rec & w4 & _ & [=]). }
  injection Hx as -> ->. unfold run_executor in Hr.
  apply M_bind_ok in Hr as (res & w4 & He & Hr).
  apply M_bind_ok in Hr as ([] & w5 & Hh & Hr).
  apply M_bind_ok in Hr as ([rid h] & w6 & Hrec & [= -> <- <-]).
  exists gr, w2, w4, w5, h. split_and!; try done.
  destruct (ex_onExecutorSuccess q); [done|by injection Hh].
Qed.

(** Nothing runs without authorization.  If a call returns that it
    executed, then the guard allowed it, the human checkpoint approved it when
    approval was required, the executor returned the reported result and the
    success hook returned, in that order, and the record written last says
    SUCCESS and has the reported id. *)
Theorem executed_is_authorized pe q w result recordId w' :
  executeWithPolicy pe q w = (Ok (executed result recordId), w') →
  ∃ gr w1 w2 w3 h,
    authorized pe q gr w w1
    ∧ ex_executor q w1 = (Ok result, w2)
    ∧ match ex_onExecutorSuccess q with Some hook => hook w2 = (Ok tt, w3) | None => w3 = w2 end
    ∧ pe_recorder pe (outcome_record q (token_ref gr) success_summary (pg_delegationDepth gr)) w3
      = (Ok (recordId, h), w').
Proof. apply executed_inv. Qed.

(** The same call with another executor and hook. *)
Definition with_executor (q : ExecuteWithPolicyParams W A) (executor : M W A) (hook : option (M W unit))
    : ExecuteWithPolicyParams W A :=
  mkExecute (ex_action q) (ex_params q) (ex_agentDid q) (ex_principalDid q) (ex_actorPrivateKey q)
    executor (ex_requireHumanApproval q) (ex_requestedTokenId q) (ex_recordId q) hook.

(** A refused executor is never touched.  When no guard result and state
    authorize the call, the outcome and the state do not depend on the executor
    or the hook at all: replacing them by any others changes nothing. *)
Theorem unauthorized_independent pe q w executor hook :
  (∀ gr w1, ¬ authorized pe q gr w w1) →
  executeWithPolicy pe (with_executor q executor hook) w = executeWithPolicy pe q w.
Proof.
  intros Hno. unfold executeWithPolicy. cbn [ex_action ex_params ex_agentDid ex_requestedTokenId
    ex_requireHumanApproval with_executor].
  apply M_bind_cong. intros gr w1 Hg.
  destruct (pg_allowed gr) eqn:Ha; [|done]. cbn [negb].
  destruct (ex_requireHumanApproval q) eqn:Eh.
  2: { exfalso. apply (Hno gr w1). exists w1. by rewrite Eh. }
  destruct (pe_checkpoint pe) as [ask|] eqn:Ec; [|done].
  apply M_bind_cong. intros [] w2 Hask; [|done]. exfalso.
  apply (Hno gr w2). exists w1. rewrite Eh. eauto.
Qed.
End engine.

(** ** The engine over the runtime guard *)

Section with_guard.
Context `{Primitives} `{Intl} {W A : Type}.
Context (g : RuntimeGuard W) (uuids : nat → string) (render : GuardReason → string).

(** [RuntimeGuard] as the [guard] dependency; [render] is the wording of the
    reasons. *)
Definition guard_port (action : string) (p : params) (agentDid : string) (requested : option string)
    : M W PolicyGuardResult :=
  r ← guard_check g uuids action p agentDid requested;
  mret (mkPolicyGuardResult (g_allowed r) (render <$> g_reason r) (g_tokenId r)
          (Z.of_nat <$> g_delegationDepth r)).

(** C1.  End to end: a call that executed was authorized by a token.  With the
    runtime guard as its guard, an engine call that returns that it executed
    rests on a token of the agent (the requested one, when one was requested)
    that verified, that names the action, whose matching scopes all allowed the
    request, and that the revocation checker did not report; its id and its
    delegation depth are in the record. *)
Theorem executed_has_token error_message (pe : PolicyEngine W) (q : ExecuteWithPolicyParams W A) w result
    recordId w' :
  pe_guard pe = guard_port →
  executeWithPolicy error_message pe q w = (Ok (executed result recordId), w') →
  ∃ token depth w0 w1 w2 h,
    token ∈ getTokensForAgent g (ex_agentDid q)
    ∧ (∀ id, ex_requestedTokenId q = Some id → ct_id token = id)
    ∧ grants g uuids (ex_action q) (ex_params q) (ex_agentDid q) token depth w0 w1
    ∧ pe_recorder pe (outcome_record q (Some (VObj [("tokenId", VStr (ct_id token))]))
                        success_summary (Some (Z.of_nat depth))) w2 = (Ok (recordId, h), w').
Proof.
  intros Hport Hex. destruct (executed_inv _ _ _ _ _ _ _ Hex)
    as (gr & w1 & w2 & w3 & h & (wg & Hg & Ha & _) & _ & _ & Hrec).
  rewrite Hport in Hg. unfold guard_port in Hg.
  apply M_bind_ok in Hg as (r & wr & Hc & [= <- <-]). cbn [pg_allowed] in Ha.
  destruct (guard_check_allowed _ _ _ _ _ _ _ _ _ Hc Ha) as (t & d & w0 & Hin & Hreq & Hgr & Hid & Hd).
  exists t, d, w0, wr, w3, h. split_and!; try done.
  unfold token_ref in Hrec. cbn [pg_tokenId pg_delegationDepth] in Hrec.
  by rewrite Hid, Hd in Hrec.
Qed.
End with_guard.

(** ** The engine over the action ledger *)

Section with_ledger.
Context `{PrimitiveLaws} {A : Type} (error_message : string → string).
Context (rc : ActionRecorder) (uuid : string) (Hstd : rc_controlPlane rc = None).
Context (guard : string → params → string → option string → M Db PolicyGuardResult).
Context (checkpoint : option (string → string → params → M Db bool)).

Definition ledger_engine : PolicyEngine Db := mkPolicyEngine guard (record uuid rc) checkpoint.

(** A computation that writes no action record. *)
Definition keeps_rows {B} (m : M Db B) : Prop := ∀ db, db_rows (m db).2 = db_rows db.

(** The ledger after a call: one new record with this status, or none. *)
Definition one_record (status : string) (db db' : Db) : Prop :=
  ∃ row, db_rows db' = db_rows db ++ [row] ∧ status_text row = Some status.

Lemma record_appends input db r db' o status :
  record uuid rc input db = (Ok r, db') → in_createdAt input = None →
  in_resultSummary input = Some o → get_prop o "status" = VStr status → one_record status db db'.
Proof.
  intros Hr Hc Ho Hs. destruct (record_inv rc Hstd _ _ _ _ _ Hr Hc) as [_ Hw].
  destruct (write_record_inv _ _ _ _ _ _ _ Hstd Hw) as (h & sa & sl & _ & _ & _ & _ & -> & _).
  eexists. split; [reflexivity|]. unfold status_text. cbn [result_summary sign_row unsigned_row].
  by rewrite Ho, Hs.
Qed.

Lemma one_record_rows status db1 db db' :
  db_rows db1 = db_rows db → one_record status db1 db' → one_record status db db'.
Proof. intros E (row & Hr & Hs). exists row. by rewrite <- E. Qed.

Lemma execute_authorized_records (q : ExecuteWithPolicyParams Db A) gr db :
  keeps_rows (ex_executor q) →
  (∀ hook, ex_onExecutorSuccess q = Some hook → keeps_rows hook) →
  let (o, db') := execute_authorized error_message ledger_engine q gr db in
  match o with
  | Ok (executed _ _) => one_record "SUCCESS" db db'
  | Ok (rejected _ _) => False
  | Throw _ => db_rows db' = db_rows db ∨ one_record "ERROR" db db'
  end.
Proof.
  intros Hke Hkh. unfold execute_authorized, try_catch.
  destruct (run_executor ledger_engine q gr db) as [[x|e] db1] eqn:Hr.
  - unfold run_executor in Hr.
    apply M_bind_ok in Hr as (res & d1 & He & Hr).
    apply M_bind_ok in Hr as ([] & d2 & Hh & Hr).
    apply M_bind_ok in Hr as (rec & d3 & Hrec & [= <- <-]).
    eapply (one_record_rows _ d2); [|eapply record_appends; [exact Hrec|reflexivity..]].
    assert (db_rows d1 = db_rows db) as <- by (rewrite <- (Hke db), He; done).
    destruct (ex_onExecutorSuccess q) as [hook|]; [|by injection Hh as ->].
    by rewrite <- (Hkh hook eq_refl d1), Hh.
  - assert (db_rows db1 = db_rows db) as Hrows.
    { unfold run_executor in Hr. apply M_bind_throw in Hr as [He|(res & d1 & He & Hr)].
      { by rewrite <- (Hke db), He. }
      assert (db_rows d1 = db_rows db) as <- by (rewrite <- (Hke db), He; done).
      apply M_bind_throw in Hr as [Hh|([] & d2 & Hh & Hr)].
      { destruct (ex_onExecutorSuccess q) as [hook|]; [|done]. by rewrite <- (Hkh hook eq_refl d1), Hh. }
      assert (db_rows d2 = db_rows d1) as <-.
      { destruct (ex_onExecutorSuccess q) as [hook|]; [|by injection Hh as ->].
        by rewrite <- (Hkh hook eq_refl d1), Hh. }
      apply M_bind_throw in Hr as [Hrec|(rec & d3 & _ & [=])].
      by apply record_throw in Hrec as ->. }
    unfold record_error.
    destruct (record uuid rc (outcome_record q (token_ref gr) (error_summary error_message e)
                                (pg_delegationDepth gr)) db1) as [[rec|c] db2] eqn:Hrec.
    + rewrite (M_bind_run _ _ rec db1 db2 Hrec). right.
      eapply one_record_rows; [exact Hrows|]. eapply record_appends; [exact Hrec|reflexivity..].
    + rewrite (M_bind_run_throw _ _ c db1 db2 Hrec). left. by apply record_throw in Hrec as ->.
Qed.

(** What a call leaves in the ledger. *)
Definition logged (db : Db) (run : res (ExecuteWithPolicyResult A) * Db) : Prop :=
  match run.1 with
  | Ok (executed _ _) => one_record "SUCCESS" db run.2
  | Ok (rejected _ _) => one_record "REJECTED" db run.2
  | Throw _ => db_rows run.2 = db_rows db ∨ one_record "ERROR" db run.2
  end.

Lemma logged_authorized (q : ExecuteWithPolicyParams Db A) gr db db1 :
  keeps_rows (ex_executor q) →
  (∀ hook, ex_onExecutorSuccess q = Some hook → keeps_rows hook) →
  db_rows db1 = db_rows db → logged db (execute_authorized error_message ledger_engine q gr db1).
Proof.
  intros Hke Hkh E. pose proof (execute_authorized_records q gr db1 Hke Hkh) as Hrun.
  unfold logged. destruct (execute_authorized _ _ _ _ db1) as [[[]|e] db2]; cbn [fst snd];
    [by eapply one_record_rows|done|].
  destruct Hrun as [Hrun|Hrun]; [left; congruence|right; by eapply one_record_rows].
Qed.

Lemma logged_rejected (q : ExecuteWithPolicyParams Db A) db db1 ref why depth text :
  db_rows db1 = db_rows db →
  logged db ((rec ← record uuid rc (outcome_record q ref (rejected_summary why) depth);
              mret (rejected text rec.1)) db1).
Proof.
  intros E.
  destruct (record uuid rc (outcome_record q ref (rejected_summary why) depth) db1)
    as [[rec|c] db2] eqn:Hrec.
  - rewrite (M_bind_run _ _ rec db1 db2 Hrec). eapply one_record_rows; [exact E|].
    eapply record_appends; [exact Hrec|reflexivity..].
  - rewrite (M_bind_run_throw _ _ c db1 db2 Hrec). left. apply record_throw in Hrec as ->. done.
Qed.

Lemma guard_port_keeps_rows (g : RuntimeGuard Db) uuids render a p d t :
  rg_scopeEvaluator g = new_ScopeEvaluator None ∅ → keeps_rows (guard_port g uuids render a p d t).
Proof.
  intros Hse db. unfold guard_port, mbind, M_bind.
  pose proof (guard_check_stateless g Hse uuids a p d t db) as E.
  destruct (guard_check g uuids a p d t db) as [[r|c] db1]; cbn in E; by subst db1.
Qed.

Lemma keeps_rows_run {B} (m : M Db B) db o db' : keeps_rows m → m db = (o, db') → db_rows db' = db_rows db.
Proof. intros Hk E. by rewrite <- (Hk db), E. Qed.

(** C8.  One record per call.  With the standard action recorder, and a guard,
    checkpoint, executor and hook that write no rows of the ledger themselves,
    every call that returns has appended exactly one record to the ledger,
    SUCCESS when it executed and REJECTED when it did not; a call that throws
    has appended one ERROR record or nothing.  A runtime guard without a
    cumulative tracker is such a guard ([guard_port_keeps_rows]); one with the
    Postgres tracker is not, since a reservation is a row of the same table
    (see [unrecordable_execution]). *)
Theorem one_record_per_call (q : ExecuteWithPolicyParams Db A) db :
  (∀ a p d t, keeps_rows (guard a p d t)) →
  (∀ ask a d p, checkpoint = Some ask → keeps_rows (ask a d p)) →
  keeps_rows (ex_executor q) →
  (∀ hook, ex_onExecutorSuccess q = Some hook → keeps_rows hook) →
  logged db (executeWithPolicy error_message ledger_engine q db).
Proof.
  intros Hkg Hkc Hke Hkh.
  unfold executeWithPolicy. cbn [pe_guard pe_checkpoint pe_recorder ledger_engine].
  destruct (guard (ex_action q) (ex_params q) (ex_agentDid q) (ex_requestedTokenId q) db)
    as [[gr|c] db1] eqn:Hg; pose proof (keeps_rows_run _ _ _ _ (Hkg _ _ _ _) Hg) as E1.
  2: { rewrite (M_bind_run_throw _ _ _ _ _ Hg). by left. }
  rewrite (M_bind_run _ _ _ _ _ Hg).
  destruct (pg_allowed gr); cbn [negb]; [|by apply logged_rejected].
  destruct (ex_requireHumanApproval q); [|by apply logged_authorized].
  destruct checkpoint as [ask|]; [|by left].
  destruct (ask (ex_action q) (ex_agentDid q) (ex_params q) db1) as [[approved|c] db2] eqn:Hask;
    pose proof (keeps_rows_run _ _ _ _ (Hkc ask _ _ _ eq_refl) Hask) as E2.
  2: { rewrite (M_bind_run_throw _ _ _ _ _ Hask). left. by rewrite <- E1. }
  rewrite (M_bind_run _ _ _ _ _ Hask).
  destruct approved; cbn [negb]; [apply logged_authorized|apply logged_rejected]; by try congruence.
Qed.

(** A call whose record id is already on the table, as it is after a
    cumulative reservation under the same id, runs its executor and then throws
    without leaving any record of it. *)
Theorem unrecordable_execution (q : ExecuteWithPolicyParams Db A) gr db db1 db2 recordId result :
  authorized ledger_engine q gr db db1 →
  ex_recordId q = Some recordId → recordId ∈ record_id <$> db_rows db1 →
  ex_executor q db1 = (Ok result, db2) → db_rows db2 = db_rows db1 → ex_onExecutorSuccess q = None →
  ∃ c, executeWithPolicy error_message ledger_engine q db = (Throw c, db2).
Proof.
  intros Hau Hid Hin He Hrows Hh. rewrite (executeWithPolicy_authorized _ _ _ _ _ _ Hau).
  assert (∀ ref summary depth, ∃ c,
    record uuid rc (outcome_record q ref summary depth) db2 = (Throw c, db2)) as Hrec.
  { intros ref summary depth.
    destruct (record uuid rc (outcome_record q ref summary depth) db2) as [[r|c] db3] eqn:Hr.
    - pose proof (record_ok_fresh _ _ _ _ _ _ Hr) as Hf. cbn [in_recordId outcome_record] in Hf.
      rewrite Hid, Hrows in Hf. done.
    - exists c. by rewrite (record_throw _ _ _ _ _ _ Hr). }
  unfold execute_authorized, try_catch, run_executor. rewrite (M_bind_run _ _ _ _ _ He), Hh.
  rewrite (M_bind_run _ (mret tt) tt db2 db2) by done.
  destruct (Hrec (token_ref gr) success_summary (pg_delegationDepth gr)) as [c1 Hc1].
  cbn [pe_recorder ledger_engine]. rewrite (M_bind_run_throw _ _ _ _ _ Hc1).
  destruct (Hrec (token_ref gr) (error_summary error_message c1) (pg_delegationDepth gr)) as [c2 Hc2].
  exists c2. unfold record_error. cbn [pe_recorder ledger_engine].
  by rewrite (M_bind_run_throw _ _ _ _ _ Hc2).
Qed.
End with_ledger.
