(* ===== verification/PolicyExamples.v ===== *)
(** * Concrete guard and engine runs

    The delegated token of Examples.v behind the runtime guard, and engine
    calls over the ledger of LedgerExamples.v: the values at which the theorems
    on the guard and the engine are applied. *)
From S2P Require Import Prelude JsValue Time Encoding Crypto ToyPrimitives Authorization.
From S2P Require Import ScopeEvaluator Attenuation CapabilityToken Delegation Examples.
From S2P Require Import ActionRecords ActionRecorder PostgresTracker LedgerExamples RuntimeGuard.
From S2P Require Import PolicyEngine.

(** The agent "c" holds the twice delegated token; the root token is revoked. *)
Definition example_guard : RuntimeGuard Db :=
  mkRuntimeGuard
    (λ did, if String.eqb did (agent "c") then [root_token; hop2_token] else [])
    (resolveToken example_ports)
    (λ id, String.eqb id "urn:cap:revoked")
    (new_ScopeEvaluator None ∅) example_now
    (Some validateDelegationChain) (Some (resolvePublicKeys example_ports)).

Definition no_uuid (i : nat) : string := "".

Definition allowed_run : RuntimeGuardResult :=
  mkGuardResult true None None (Some (ct_id hop2_token)) (Some 2%nat).

Example guard_run :
  guard_check example_guard no_uuid "CONFIRM" sample_request (agent "c") (Some (ct_id hop2_token)) ledger0
  = (Ok allowed_run, ledger0).
Proof. vm_compute. reflexivity. Qed.

Lemma guard_allow_sound_witness :
  ∃ token depth w0,
    token ∈ getTokensForAgent example_guard (agent "c")
    ∧ (∀ id, Some (ct_id hop2_token) = Some id → ct_id token = id)
    ∧ grants example_guard no_uuid "CONFIRM" sample_request (agent "c") token depth w0 ledger0
    ∧ g_tokenId allowed_run = Some (ct_id token) ∧ g_delegationDepth allowed_run = Some depth.
Proof.
  apply (guard_allow_sound example_guard no_uuid "CONFIRM" sample_request (agent "c")
           (Some (ct_id hop2_token)) ledger0 allowed_run ledger0).
  - vm_compute. reflexivity.
  - reflexivity.
Defined.

Lemma guard_denial_reason_witness :
  (g_reason (guard_deny no_matching_capability) = Some no_matching_capability
   ↔ Forall (λ t, ¬ relevant example_guard "REFUND" t) (candidates example_guard (agent "c") None))
  ∧ (g_reason (guard_deny no_matching_capability) = Some capability_revoked →
     ∃ t, t ∈ candidates example_guard (agent "c") None ∧ relevant example_guard "REFUND" t
          ∧ revocationChecker example_guard (ct_id t) = true).
Proof.
  apply (guard_denial_reason example_guard no_uuid "REFUND" sample_request (agent "c") None ledger0
           (guard_deny no_matching_capability) ledger0).
  - discriminate.
  - vm_compute. reflexivity.
  - reflexivity.
  - reflexivity.
Defined.

(** ** Engine calls *)

Definition wording (r : GuardReason) : string := "denied".

Definition example_engine : PolicyEngine Db :=
  mkPolicyEngine (guard_port example_guard no_uuid wording) (record (uuid_of "4") ledger_rc)
    (Some (λ _ _ _, mret true)).

Definition example_call (action : string) : ExecuteWithPolicyParams Db Z :=
  mkExecute action sample_request (agent "c") principal (toHex (seed_of 11)) (mret 42) true None
    (Some (uuid_of "4")) (Some (mret tt)).

Definition called_db : Db :=
  Eval vm_compute in (executeWithPolicy (λ e, e) example_engine (example_call "CONFIRM") ledger0).2.

Lemma executed_is_authorized_witness :
  ∃ gr w1 w2 w3 h,
    authorized example_engine (example_call "CONFIRM") gr ledger0 w1
    ∧ ex_executor (example_call "CONFIRM") w1 = (Ok 42, w2)
    ∧ match ex_onExecutorSuccess (example_call "CONFIRM") with
      | Some hook => hook w2 = (Ok tt, w3) | None => w3 = w2 end
    ∧ pe_recorder example_engine (outcome_record (example_call "CONFIRM") (token_ref gr) success_summary
                                    (pg_delegationDepth gr)) w3
      = (Ok (uuid_of "4", h), called_db).
Proof.
  apply (executed_is_authorized (λ e, e) example_engine (example_call "CONFIRM") ledger0 42 (uuid_of "4")
           called_db).
  vm_compute. reflexivity.
Defined.

Lemma executed_has_token_witness :
  ∃ token depth w0 w1 w2 h,
    token ∈ getTokensForAgent example_guard (agent "c")
    ∧ (∀ id, None = Some id → ct_id token = id)
    ∧ grants example_guard no_uuid "CONFIRM" sample_request (agent "c") token depth w0 w1
    ∧ record (uuid_of "4") ledger_rc
        (outcome_record (example_call "CONFIRM") (Some (VObj [("tokenId", VStr (ct_id token))]))
           success_summary (Some (Z.of_nat depth))) w2 = (Ok (uuid_of "4", h), called_db).
Proof.
  apply (executed_has_token example_guard no_uuid wording (λ e, e) example_engine (example_call "CONFIRM")
           ledger0 42 (uuid_of "4") called_db).
  - reflexivity.
  - vm_compute. reflexivity.
Defined.

Lemma refund_unauthorized gr w : ¬ authorized example_engine (example_call "REFUND") gr ledger0 w.
Proof.
  intros (w1 & Hg & Ha & _).
  assert (pe_guard example_engine (ex_action (example_call "REFUND")) (ex_params (example_call "REFUND"))
            (ex_agentDid (example_call "REFUND")) (ex_requestedTokenId (example_call "REFUND")) ledger0
          = (Ok (mkPolicyGuardResult false (Some "denied") None None), ledger0)) as E
    by (vm_compute; reflexivity).
  rewrite E in Hg. injection Hg as <- <-. exact (diff_false_true Ha).
Qed.

Lemma unauthorized_independent_witness :
  executeWithPolicy (λ e, e) example_engine
    (with_executor (example_call "REFUND") (throw "boom") None) ledger0
  = executeWithPolicy (λ e, e) example_engine (example_call "REFUND") ledger0.
Proof.
  apply (unauthorized_independent (λ e, e) example_engine (example_call "REFUND") ledger0 (throw "boom")
           None).
  exact refund_unauthorized.
Defined.

(** The runtime guard, which lets the call of the agent "c" through. *)
Lemma one_record_per_call_witness :
  let e := ledger_engine ledger_rc (uuid_of "4") (guard_port example_guard no_uuid wording) (Some (λ _ _ _, mret true)) in
  logged ledger0 (executeWithPolicy (λ e, e) e (example_call "CONFIRM") ledger0)
  ∧ (executeWithPolicy (λ e, e) e (example_call "CONFIRM") ledger0).1 = Ok (executed 42 (uuid_of "4")).
Proof.
  split; [|vm_compute; reflexivity].
  apply (one_record_per_call (λ e, e) ledger_rc (uuid_of "4") eq_refl (guard_port example_guard no_uuid wording)
           (Some (λ _ _ _, mret true)) (example_call "CONFIRM") ledger0).
  - intros a p d t. exact (guard_port_keeps_rows example_guard no_uuid wording a p d t eq_refl).
  - intros ask a d p E. injection E as <-. intros db. reflexivity.
  - intros db. reflexivity.
  - intros hook E. injection E as <-. intros db. reflexivity.
Defined.

(** A guard that meters the call under its record id. *)
Definition metering_guard : string → params → string → option string → M Db PolicyGuardResult :=
  λ _ _ agentDid _,
    r ← pg_checkAndReserve (uuid_of "9") (uuid_of "4") agentDid amount_field (Some day_start)
          (Some clock0) (Fin 100) (Fin 60);
    mret (mkPolicyGuardResult (rr_allowed r) None None None).

Definition metered_call : ExecuteWithPolicyParams Db Z :=
  mkExecute "CONFIRM" sample_request (agent "c") principal (toHex (seed_of 11)) (mret 42) false None
    (Some (uuid_of "4")) None.

Definition metered_db : Db :=
  Eval vm_compute in
    (metering_guard "" ∅ (agent "c") None ledger0).2.

Lemma unrecordable_execution_witness :
  ∃ c, executeWithPolicy (λ e, e) (ledger_engine ledger_rc (uuid_of "8") metering_guard None) metered_call
         ledger0 = (Throw c, metered_db).
Proof.
  apply (unrecordable_execution (λ e, e) ledger_rc (uuid_of "8") metering_guard None metered_call
           (mkPolicyGuardResult true None None None) ledger0 metered_db metered_db (uuid_of "4") 42).
  - exists metered_db. split; [vm_compute; reflexivity|]. split; reflexivity.
  - reflexivity.
  - left.
  - reflexivity.
  - reflexivity.
  - reflexivity.
Defined.
