(* ===== verification/DisputeArbitration.v ===== *)
(** * Dispute arbitration

    packages/policy/src/dispute-arbitration/state-machine.ts over the ports of
    ports.ts, with the data, constants and schema of
    packages/types/src/dispute-arbitration.  The seven steps validate a filing,
    select arbitrators, collect and check their signatures, and persist the
    dispute and its resolution in one transaction.  The read ports answer from a
    fixed snapshot; the store and the audit recorder work on the state [W].
    Timestamps have the millisecond format of Time.v. *)
From S2P Require Import Prelude JsValue Time Encoding Crypto Authorization ActionRecorder.

(** ** Data *)

Inductive DisputeState : Type := FILED | RESOLVED | EXPIRED.
Inductive DisputeType : Type :=
| SETTLEMENT_FAILED | SCOPE_VIOLATION | IDENTITY_FRAUD | DELEGATION_REVOCATION_ABUSE
| DATA_ACCESS_BREACH.
Inductive DaVerdict : Type := CLAIMANT_PREVAILS | RESPONDENT_PREVAILS | NO_FAULT.

#[export] Instance DisputeState_eq_dec : EqDecision DisputeState.
Proof. solve_decision. Defined.
#[export] Instance DaVerdict_eq_dec : EqDecision DaVerdict.
Proof. solve_decision. Defined.

Definition DisputeType_text (t : DisputeType) : string :=
  match t with
  | SETTLEMENT_FAILED => "SETTLEMENT_FAILED"
  | SCOPE_VIOLATION => "SCOPE_VIOLATION"
  | IDENTITY_FRAUD => "IDENTITY_FRAUD"
  | DELEGATION_REVOCATION_ABUSE => "DELEGATION_REVOCATION_ABUSE"
  | DATA_ACCESS_BREACH => "DATA_ACCESS_BREACH"
  end.

Definition MIN_ARBITRATOR_COUNT : Z := 3.
Definition MAX_ARBITRATOR_COUNT : Z := 5.
Definition MAX_DISPUTE_MS : Z := 14 * 24 * 3600 * 1000.
Definition DA_VERSION_CURRENT : string := "1.0.0".
Definition DA_SUPPORTED_VERSIONS : list string := ["1.0.0"].
Definition DISPUTE_STATE_TRANSITIONS : list (DisputeState * DisputeState) :=
  [(FILED, RESOLVED); (FILED, EXPIRED)].

Record Arbitrator : Type := mkArbitrator {
  arb_did : string;
  arb_publicKey : string;
  arb_isActive : bool }.

Record DisputeFiling : Type := mkFiling {
  fl_disputeId : string;
  fl_claimantDid : string;
  fl_respondentDid : string;
  fl_disputeType : DisputeType;
  fl_evidenceUris : list string;
  fl_settlementOperationRef : option string;
  fl_cspVersion : string;
  fl_token : string;
  fl_disclosedClaims : params;
  fl_challenge : string;
  fl_audience : string;
  fl_notAfter : string;
  fl_filedAt : string;
  fl_daVersion : string }.

(** The signed payload: the fields of a filing, the hash and the signature. *)
Record DisputeFilingSignedPayload : Type := mkSignedPayload {
  sp_fields : DisputeFiling;
  sp_canonicalHash : string;
  sp_claimantSignature : string }.

Record ArbitratorSignature : Type := mkArbitratorSignature {
  as_arbitratorDid : string;
  as_signature : string }.

Record ArbitrationDecision : Type := mkDecision {
  de_decisionId : string;
  de_disputeId : string;
  de_verdict : DaVerdict;
  de_multisigThreshold : num;
  de_multisigPoolSize : num;
  de_decisionCanonicalHash : string;
  de_arbitratorSignatures : list ArbitratorSignature;
  de_decidedAt : string }.

Record Dispute : Type := mkDispute {
  di_disputeId : string;
  di_tenantId : string;
  di_currentState : DisputeState;
  di_disputeType : DisputeType;
  di_claimantDid : string;
  di_respondentDid : string;
  di_disputeFilingCanonicalHash : string;
  di_settlementOperationRef : option string;
  di_evidenceUris : list string;
  di_cspVersion : string;
  di_daVersion : string;
  di_filedAt : string;
  di_resolvedAt : option string;
  di_expiredAt : option string;
  di_attemptedAt : string;
  di_createdAt : string }.

Inductive Trigger : Type := ARBITRATION_DECISION | PC3_TIMEOUT_EXPIRY.

(** [auditClass] is the constant 'L2'. *)
Record DisputeStateTransitionEvent : Type := mkTransition {
  ev_disputeId : string;
  ev_fromState : DisputeState;
  ev_toState : DisputeState;
  ev_transitionedAt : string;
  ev_triggeredBy : Trigger;
  ev_reviewQueue : option bool }.

(** ** Ports *)

(** The operations the state machine calls; [getDisputeState] of ports.ts is
    called by no step. *)
Record DaPorts (W : Type) : Type := mkDaPorts {
  aggregateSignatures : ArbitrationDecision → list Arbitrator → num → res ArbitrationDecision;
  verifyArbitratorSignature : string → string → string → res bool;
  selectArbitrators : string → num → res (list Arbitrator);
  validateEvidenceUris : list string → res (list string);
  storeEvidenceRef : string → list string → M W unit;
  isTokenRevoked : string → res bool;
  checkDidRevocationStatus : string → res unit;
  verifyDisputeFilingSignature : DisputeFilingSignedPayload → res bool;
  checkFreshness : string → res unit;
  recordDisputeTransition : DisputeStateTransitionEvent → M W unit;
  recordDisputeFiled : string → string → M W unit;
  recordArbitrationDecision : string → string → M W unit;
  findByCanonicalHash : string → W → res (option string);
  findByDisputeId : string → W → res (option Dispute);
  saveDispute : Dispute → M W unit;
  updateDisputeState : string → DisputeState → string → M W unit;
  saveArbitrationDecision : ArbitrationDecision → M W unit;
  runInTransaction : M W unit → M W unit }.
Arguments aggregateSignatures {W} _ _ _ _.
Arguments verifyArbitratorSignature {W} _ _ _ _.
Arguments selectArbitrators {W} _ _ _.
Arguments validateEvidenceUris {W} _ _.
Arguments storeEvidenceRef {W} _ _ _.
Arguments isTokenRevoked {W} _ _.
Arguments checkDidRevocationStatus {W} _ _.
Arguments verifyDisputeFilingSignature {W} _ _.
Arguments checkFreshness {W} _ _.
Arguments recordDisputeTransition {W} _ _.
Arguments recordDisputeFiled {W} _ _ _.
Arguments recordArbitrationDecision {W} _ _ _.
Arguments findByCanonicalHash {W} _ _ _.
Arguments findByDisputeId {W} _ _ _.
Arguments saveDispute {W} _ _.
Arguments updateDisputeState {W} _ _ _ _.
Arguments saveArbitrationDecision {W} _ _.
Arguments runInTransaction {W} _ _.

(** What ports.ts requires of a transaction manager: BEGIN, COMMIT on return,
    ROLLBACK and rethrow on any exception. *)
Class TxLaws {W} (P : DaPorts W) : Prop := {
  runInTransaction_spec body w : runInTransaction P body w = withTransaction body w }.

(** ** Guards *)

Definition validateStateTransition (from to : DisputeState) : res unit :=
  if existsb (λ ft, bool_decide (ft.1 = from) && bool_decide (ft.2 = to)) DISPUTE_STATE_TRANSITIONS
  then mret tt else Throw "DA_STATE_TRANSITION_INVALID".

(** [Math.floor(n / 2) + 1] *)
Definition floor_half_plus_one (n : num) : num :=
  match n with Fin z => Fin (z / 2 + 1) | x => x end.

Definition computeThreshold (poolSize : num) : res num :=
  if num_ltb poolSize (Fin MIN_ARBITRATOR_COUNT) then Throw "DA_ARBITRATOR_INSUFFICIENT"
  else if num_gtb poolSize (Fin MAX_ARBITRATOR_COUNT) then Throw "DA_ARBITRATOR_INVALID"
  else mret (floor_half_plus_one poolSize).

Definition checkAndExpireDispute (filedAt : string) (nowMs : Z) : res unit :=
  match getTime filedAt with
  | None => Throw "DA_FILING_INVALID"
  | Some filedMs => if MAX_DISPUTE_MS <=? nowMs - filedMs then Throw "DA_TIMEOUT_EXCEEDED" else mret tt
  end.

(** [SHA256_HEX_RE], case insensitive *)
Definition toCanonicalHashHex (value : string) : res string :=
  if Nat.eqb (String.length value) 64 && forallb is_hex (chars value) then Ok value
  else Throw "DA_CANONICAL_HASH_MISMATCH".

(** The canonical object, keys in ascending order. *)
Definition filing_json (f : DisputeFiling) : value :=
  VObj ([("audience", VStr (fl_audience f)); ("challenge", VStr (fl_challenge f));
         ("claimantDid", VStr (fl_claimantDid f)); ("cspVersion", VStr (fl_cspVersion f));
         ("disclosedClaims", params_json (fl_disclosedClaims f));
         ("disputeId", VStr (fl_disputeId f));
         ("disputeType", VStr (DisputeType_text (fl_disputeType f)));
         ("evidenceUris", VArr (VStr <$> fl_evidenceUris f));
         ("filedAt", VStr (fl_filedAt f)); ("notAfter", VStr (fl_notAfter f));
         ("respondentDid", VStr (fl_respondentDid f))]
        ++ opt_field "settlementOperationRef" (VStr <$> fl_settlementOperationRef f)
        ++ [("token", VStr (fl_token f))]).

Definition uuidV4 (s : string) : bool :=
  matches_template (chars "xxxxxxxx-xxxx-4xxx-Rxxx-xxxxxxxxxxxx") (chars s).

(** The constraints of DISPUTE_FILING_SIGNED_PAYLOAD_SCHEMA on a record. *)
Definition validateDisputeFilingSchema (sp : DisputeFilingSignedPayload) : bool :=
  let f := sp_fields sp in
  uuidV4 (fl_disputeId f)
  && str_startsWith (fl_claimantDid f) "did:" && str_startsWith (fl_respondentDid f) "did:"
  && match fl_settlementOperationRef f with Some r => uuidV4 r | None => true end
  && Nat.eqb (String.length (sp_canonicalHash sp)) 64
  && forallb is_lower_hex (chars (sp_canonicalHash sp)).

Section arbitration.
Context `{Primitives} {W : Type} (P : DaPorts W).

Definition computeDisputeFilingCanonicalHash (f : DisputeFiling) : res string :=
  match canonicalize jcs (filing_json f) with
  | Ok canonicalStr => toCanonicalHashHex (hash (textEncode canonicalStr) enc_hex)
  | Throw _ => Throw "DA_CANONICAL_HASH_MISMATCH"
  end.

(** [if (!ok) throw new DaError(code)] *)
Definition ensure (ok : bool) (code : string) : res unit := if ok then mret tt else Throw code.

(** ** The seven steps *)

(** Step 1: schema, version, age, and the two idempotency checks. *)
Definition step1_filing (f : DisputeFiling) (sp : DisputeFilingSignedPayload) (nowMs : Z) (w : W)
    : res string :=
  _ ← ensure (validateDisputeFilingSchema sp) "DA_FILING_INVALID";
  _ ← ensure (bool_decide (fl_daVersion f ∈ DA_SUPPORTED_VERSIONS)) "DA_VERSION_UNSUPPORTED";
  _ ← checkAndExpireDispute (fl_filedAt f) nowMs;
  preCheckHash ← computeDisputeFilingCanonicalHash f;
  existingId ← findByCanonicalHash P preCheckHash w;
  _ ← ensure (bool_decide (existingId = None)) "DA_DUPLICATE_FILING";
  existingDispute ← findByDisputeId P (fl_disputeId f) w;
  _ ← match existingDispute with
      | Some d => ensure (String.eqb (di_disputeFilingCanonicalHash d) preCheckHash)
                    "DA_IDEMPOTENCY_VIOLATION"
      | None => mret tt
      end;
  mret preCheckHash.

(** Step 2: the signed hash and the evidence. *)
Definition step2_hash (f : DisputeFiling) (sp : DisputeFilingSignedPayload)
    : res (string * list string) :=
  filingCanonicalHash ← computeDisputeFilingCanonicalHash f;
  _ ← ensure (String.eqb (sp_canonicalHash sp) filingCanonicalHash) "DA_CANONICAL_HASH_MISMATCH";
  validatedUris ← validateEvidenceUris P (fl_evidenceUris f);
  mret (filingCanonicalHash, validatedUris).

(** Step 3: freshness, revocation, and the claimant's signature. *)
Definition step3_signature (f : DisputeFiling) (sp : DisputeFilingSignedPayload) : res unit :=
  _ ← checkFreshness P (fl_notAfter f);
  isRevoked ← isTokenRevoked P (fl_token f);
  _ ← ensure (negb isRevoked) "DA_DISPUTE_REVOKED";
  _ ← checkDidRevocationStatus P (fl_claimantDid f);
  _ ← checkDidRevocationStatus P (fl_respondentDid f);
  sigValid ← verifyDisputeFilingSignature P sp;
  ensure sigValid "DA_SIGNED_PAYLOAD_INVALID".

(** [for (const x of l) await body(x)] *)
Fixpoint for_each {A} (body : A → res unit) (l : list A) : res unit :=
  match l with
  | [] => mret tt
  | x :: l' => _ ← body x; for_each body l'
  end.

(** Step 4: threshold and pool. *)
Definition step4_pool (f : DisputeFiling) (poolSizeTarget : num) : res (num * list Arbitrator) :=
  threshold ← computeThreshold poolSizeTarget;
  arbitrators ← selectArbitrators P (fl_disputeId f) poolSizeTarget;
  _ ← ensure (MIN_ARBITRATOR_COUNT <=? Z.of_nat (length arbitrators)) "DA_ARBITRATOR_INSUFFICIENT";
  _ ← for_each (λ a, checkDidRevocationStatus P (arb_did a)) arbitrators;
  mret (threshold, arbitrators).

(** Dimension (a): no signer twice. *)
Fixpoint check_unique (seenSigners : gset string) (sigs : list ArbitratorSignature) : res unit :=
  match sigs with
  | [] => mret tt
  | s :: sigs' =>
      if bool_decide (as_arbitratorDid s ∈ seenSigners) then Throw "DA_INSUFFICIENT_SIGNATURES"
      else check_unique ({[as_arbitratorDid s]} ∪ seenSigners) sigs'
  end.

Definition initial_decision (f : DisputeFiling) (verdict : DaVerdict) (threshold poolSizeTarget : num)
    (nowIso : string) : ArbitrationDecision :=
  mkDecision (fl_disputeId f) (fl_disputeId f) verdict threshold poolSizeTarget
    (str (replicate 64 "0"%char)) [] nowIso.

(** Step 5: aggregate the signatures and check their number, uniqueness,
    membership and validity. *)
Definition step5_signatures (f : DisputeFiling) (verdict : DaVerdict) (threshold poolSizeTarget : num)
    (arbitrators : list Arbitrator) (nowIso : string) : res ArbitrationDecision :=
  let initialDecision := initial_decision f verdict threshold poolSizeTarget nowIso in
  _ ← ensure (negb (num_gtb (de_multisigThreshold initialDecision)
                            (de_multisigPoolSize initialDecision))) "DA_ARBITRATOR_INVALID";
  signedDecision ← aggregateSignatures P initialDecision arbitrators threshold;
  let sigs := de_arbitratorSignatures signedDecision in
  _ ← ensure (negb (num_ltb (Fin (Z.of_nat (length sigs))) threshold)) "DA_INSUFFICIENT_SIGNATURES";
  _ ← check_unique ∅ sigs;
  _ ← for_each (λ s, ensure (bool_decide (as_arbitratorDid s ∈ arb_did <$> arbitrators))
                       "DA_ARBITRATOR_INVALID") sigs;
  _ ← for_each (λ s, verified ← verifyArbitratorSignature P (as_arbitratorDid s) (as_signature s)
                                  (de_decisionCanonicalHash signedDecision);
                     ensure verified "DA_INSUFFICIENT_SIGNATURES") sigs;
  mret signedDecision.

Definition filed_dispute (f : DisputeFiling) (tenantId h : string) (uris : list string) (nowIso : string)
    : Dispute :=
  mkDispute (fl_disputeId f) tenantId FILED (fl_disputeType f) (fl_claimantDid f) (fl_respondentDid f)
    h (fl_settlementOperationRef f) uris (fl_cspVersion f) DA_VERSION_CURRENT (fl_filedAt f)
    None None nowIso nowIso.

Definition resolve_dispute (d : Dispute) (resolvedAt : string) : Dispute :=
  mkDispute (di_disputeId d) (di_tenantId d) RESOLVED (di_disputeType d) (di_claimantDid d)
    (di_respondentDid d) (di_disputeFilingCanonicalHash d) (di_settlementOperationRef d)
    (di_evidenceUris d) (di_cspVersion d) (di_daVersion d) (di_filedAt d) (Some resolvedAt)
    (di_expiredAt d) (di_attemptedAt d) (di_createdAt d).

(** Steps 6 and 7: the seven writes of the transaction. *)
Definition persist (d : Dispute) (uris : list string) (decision : ArbitrationDecision)
    (resolvedAt : string) (ev : DisputeStateTransitionEvent) : M W unit :=
  _ ← saveDispute P d;
  _ ← recordDisputeFiled P (di_disputeId d) (di_disputeFilingCanonicalHash d);
  _ ← storeEvidenceRef P (di_disputeId d) uris;
  _ ← updateDisputeState P (di_disputeId d) RESOLVED resolvedAt;
  _ ← saveArbitrationDecision P decision;
  _ ← recordDisputeTransition P ev;
  recordArbitrationDecision P (di_disputeId d) (de_decisionCanonicalHash decision).

Record DisputeArbitrationInput : Type := mkDaInput {
  da_filing : DisputeFiling;
  da_signedPayload : DisputeFilingSignedPayload;
  da_poolSizeTarget : num;
  da_verdict : DaVerdict;
  da_tenantId : string }.

Record DisputeArbitrationResult : Type := mkDaResult {
  dr_dispute : Dispute;
  dr_decision : ArbitrationDecision;
  dr_transitionEvent : DisputeStateTransitionEvent }.

(** Steps 1 to 5, which only read. *)
Definition decide_dispute (i : DisputeArbitrationInput) (nowMs : Z) (nowIso : string) (w : W)
    : res (Dispute * list string * ArbitrationDecision) :=
  let f := da_filing i in
  let sp := da_signedPayload i in
  _ ← step1_filing f sp nowMs w;
  '(h, uris) ← step2_hash f sp;
  _ ← step3_signature f sp;
  '(threshold, arbitrators) ← step4_pool f (da_poolSizeTarget i);
  decision ← step5_signatures f (da_verdict i) threshold (da_poolSizeTarget i) arbitrators nowIso;
  mret (filed_dispute f (da_tenantId i) h uris nowIso, uris, decision).

(** [nowMs], [nowIso] and [resolvedAt] are the three readings of the clock. *)
Definition runDisputeArbitration7Steps (i : DisputeArbitrationInput) (nowMs : Z)
    (nowIso resolvedAt : string) : M W DisputeArbitrationResult := λ w,
  match decide_dispute i nowMs nowIso w with
  | Throw c => (Throw c, w)
  | Ok (dispute, uris, decision) =>
      (_ ← lift_res (validateStateTransition FILED RESOLVED);
       let ev := mkTransition (fl_disputeId (da_filing i)) FILED RESOLVED resolvedAt
                   ARBITRATION_DECISION None in
       _ ← runInTransaction P (persist dispute uris decision resolvedAt ev);
       mret (mkDaResult (resolve_dispute dispute resolvedAt) decision ev)) w
  end.

Definition runDisputeExpiry (disputeId expiredAt : string) : M W unit :=
  _ ← lift_res (validateStateTransition FILED EXPIRED);
  _ ← updateDisputeState P disputeId EXPIRED expiredAt;
  recordDisputeTransition P
    (mkTransition disputeId FILED EXPIRED expiredAt PC3_TIMEOUT_EXPIRY (Some true)).
End arbitration.

(** ** What an accepted arbitration rests on *)

Section sound.
Context `{Primitives} {W : Type} (P : DaPorts W).

(** The filing was admissible in state [w] at time [nowMs]. *)
Record filing_accepted (f : DisputeFiling) (sp : DisputeFilingSignedPayload) (nowMs : Z) (w : W)
    : Prop := {
  fa_schema : validateDisputeFilingSchema sp = true;
  fa_version : fl_daVersion f ∈ DA_SUPPORTED_VERSIONS;
  fa_age : ∃ t, getTime (fl_filedAt f) = Some t ∧ nowMs - t < MAX_DISPUTE_MS;
  fa_hash : computeDisputeFilingCanonicalHash f = Ok (sp_canonicalHash sp);
  fa_new : findByCanonicalHash P (sp_canonicalHash sp) w = Ok None;
  fa_fresh : checkFreshness P (fl_notAfter f) = Ok tt;
  fa_token : isTokenRevoked P (fl_token f) = Ok false;
  fa_parties : Forall (λ did, checkDidRevocationStatus P did = Ok tt)
                 [fl_claimantDid f; fl_respondentDid f];
  fa_signature : verifyDisputeFilingSignature P sp = Ok true }.

(** A majority of a pool of [n] signed: distinct members of the pool, each with
    a signature that verifies over the decision's hash. *)
Record quorum (pool : list Arbitrator) (n : Z) (d : ArbitrationDecision) : Prop := {
  qu_unique : NoDup (as_arbitratorDid <$> de_arbitratorSignatures d);
  qu_member s : s ∈ de_arbitratorSignatures d → as_arbitratorDid s ∈ arb_did <$> pool;
  qu_majority : n < 2 * Z.of_nat (length (de_arbitratorSignatures d));
  qu_verified s : s ∈ de_arbitratorSignatures d →
    verifyArbitratorSignature P (as_arbitratorDid s) (as_signature s) (de_decisionCanonicalHash d)
    = Ok true }.

Lemma ensure_ok ok code u : ensure ok code = Ok u → ok = true.
Proof. by destruct ok. Qed.

Lemma for_each_ok {A} (body : A → res unit) l u :
  for_each body l = Ok u → Forall (λ x, body x = Ok tt) l.
Proof.
  induction l as [|x l IH]; [by constructor|]. cbn [for_each].
  intros ([] & Hx & Hl)%res_bind_ok. constructor; [done|by apply IH].
Qed.

Lemma check_unique_ok seen sigs u :
  check_unique seen sigs = Ok u →
  NoDup (as_arbitratorDid <$> sigs) ∧ ∀ s, s ∈ sigs → as_arbitratorDid s ∉ seen.
Proof.
  revert seen. induction sigs as [|s sigs IH]; intros seen; cbn [check_unique].
  { intros _. split; [constructor|set_solver]. }
  case_bool_decide as Hs; [done|]. intros [Hn Hseen]%IH. split.
  - cbn. apply NoDup_cons. split; [|done]. intros (s' & E & Hin)%list_elem_of_fmap.
    apply (Hseen s' Hin). set_solver.
  - intros x [->|Hx]%elem_of_cons; [done|]. specialize (Hseen x Hx). set_solver.
Qed.

Lemma step1_ok f sp nowMs w h :
  step1_filing P f sp nowMs w = Ok h →
  validateDisputeFilingSchema sp = true ∧ fl_daVersion f ∈ DA_SUPPORTED_VERSIONS
  ∧ (∃ t, getTime (fl_filedAt f) = Some t ∧ nowMs - t < MAX_DISPUTE_MS)
  ∧ computeDisputeFilingCanonicalHash f = Ok h ∧ findByCanonicalHash P h w = Ok None.
Proof.
  unfold step1_filing. intros ([] & Hsch%ensure_ok & Hk)%res_bind_ok.
  apply res_bind_ok in Hk as ([] & Hver%ensure_ok & Hk).
  apply res_bind_ok in Hk as ([] & Hage & Hk).
  apply res_bind_ok in Hk as (h' & Hh & Hk).
  apply res_bind_ok in Hk as (ex & Hex & Hk).
  apply res_bind_ok in Hk as ([] & Hnone%ensure_ok & Hk).
  apply res_bind_ok in Hk as (ed & _ & Hk).
  apply res_bind_ok in Hk as ([] & _ & [= <-]).
  apply bool_decide_eq_true in Hver, Hnone. subst ex. split_and!; try done.
  unfold checkAndExpireDispute in Hage. destruct (getTime (fl_filedAt f)) as [t|]; [|done].
  destruct (Z.leb_spec MAX_DISPUTE_MS (nowMs - t)); [done|]. by exists t.
Qed.

Lemma step3_ok f sp u :
  step3_signature P f sp = Ok u →
  checkFreshness P (fl_notAfter f) = Ok tt ∧ isTokenRevoked P (fl_token f) = Ok false
  ∧ Forall (λ did, checkDidRevocationStatus P did = Ok tt) [fl_claimantDid f; fl_respondentDid f]
  ∧ verifyDisputeFilingSignature P sp = Ok true.
Proof.
  unfold step3_signature. intros ([] & Hf & Hk)%res_bind_ok.
  apply res_bind_ok in Hk as (r & Hr & Hk).
  apply res_bind_ok in Hk as ([] & Hn%ensure_ok & Hk).
  apply res_bind_ok in Hk as ([] & Hc & Hk).
  apply res_bind_ok in Hk as ([] & Hd & Hk).
  apply res_bind_ok in Hk as (v & Hv & Hk%ensure_ok). subst v.
  apply negb_true_iff in Hn as ->. repeat constructor; done.
Qed.

Lemma step4_ok f pool threshold arbitrators :
  step4_pool P f pool = Ok (threshold, arbitrators) →
  computeThreshold pool = Ok threshold
  ∧ selectArbitrators P (fl_disputeId f) pool = Ok arbitrators
  ∧ MIN_ARBITRATOR_COUNT <= Z.of_nat (length arbitrators)
  ∧ Forall (λ a, checkDidRevocationStatus P (arb_did a) = Ok tt) arbitrators.
Proof.
  unfold step4_pool. intros (t & Ht & Hk)%res_bind_ok.
  apply res_bind_ok in Hk as (a & Ha & Hk).
  apply res_bind_ok in Hk as ([] & Hn%ensure_ok & Hk).
  apply res_bind_ok in Hk as ([] & Hr%for_each_ok & [= <- <-]).
  apply Z.leb_le in Hn. done.
Qed.

Lemma computeThreshold_fin n t :
  computeThreshold (Fin n) = Ok t →
  t = Fin (n / 2 + 1) ∧ MIN_ARBITRATOR_COUNT <= n <= MAX_ARBITRATOR_COUNT.
Proof.
  unfold computeThreshold, num_gtb. cbn [num_ltb].
  destruct (Z.ltb_spec n MIN_ARBITRATOR_COUNT); [done|].
  destruct (Z.ltb_spec MAX_ARBITRATOR_COUNT n); [done|]. by intros [= <-].
Qed.

Lemma step5_ok f verdict n pool arbitrators nowIso d :
  step5_signatures P f verdict (Fin (n / 2 + 1)) pool arbitrators nowIso = Ok d →
  quorum arbitrators n d.
Proof.
  unfold step5_signatures. intros ([] & _ & Hk)%res_bind_ok.
  apply res_bind_ok in Hk as (d' & _ & Hk).
  apply res_bind_ok in Hk as ([] & Hlen%ensure_ok & Hk).
  apply res_bind_ok in Hk as ([] & [Hu _]%check_unique_ok & Hk).
  apply res_bind_ok in Hk as ([] & Hm%for_each_ok & Hk).
  apply res_bind_ok in Hk as ([] & Hv%for_each_ok & [= <-]).
  rewrite Forall_forall in Hm, Hv. split; [done| | |].
  - intros s Hs. specialize (Hm s Hs). by apply ensure_ok, bool_decide_eq_true in Hm.
  - cbn [num_ltb] in Hlen. apply negb_true_iff, Z.ltb_ge in Hlen.
    Z.div_mod_to_equations. lia.
  - intros s Hs. specialize (Hv s Hs). apply res_bind_ok in Hv as (b & Hb & ->%ensure_ok). done.
Qed.

Lemma decide_dispute_ok i nowMs nowIso w d uris decision n :
  decide_dispute P i nowMs nowIso w = Ok (d, uris, decision) → da_poolSizeTarget i = Fin n →
  filing_accepted (da_filing i) (da_signedPayload i) nowMs w
  ∧ MIN_ARBITRATOR_COUNT <= n <= MAX_ARBITRATOR_COUNT
  ∧ ∃ arbitrators, selectArbitrators P (fl_disputeId (da_filing i)) (Fin n) = Ok arbitrators
      ∧ Forall (λ a, checkDidRevocationStatus P (arb_did a) = Ok tt) arbitrators
      ∧ quorum arbitrators n decision.
Proof.
  unfold decide_dispute. intros (h & H1%step1_ok & Hk)%res_bind_ok Hn.
  apply res_bind_ok in Hk as ([h' uris'] & H2 & Hk).
  apply res_bind_ok in Hk as ([] & H3%step3_ok & Hk).
  apply res_bind_ok in Hk as ([threshold arbitrators] & H4%step4_ok & Hk).
  apply res_bind_ok in Hk as (dec & H5 & [= _ _ <-]).
  rewrite Hn in H4, H5. destruct H4 as ([-> Hb]%computeThreshold_fin & Hsel & _ & Hrev).
  unfold step2_hash in H2. apply res_bind_ok in H2 as (h2 & Hh2 & Hk).
  apply res_bind_ok in Hk as ([] & Heq%ensure_ok & _). apply String.eqb_eq in Heq. subst h2.
  destruct H1 as (? & ? & ? & Hh & Hnew), H3 as (? & ? & ? & ?).
  assert (h = sp_canonicalHash (da_signedPayload i)) as -> by congruence.
  split; [by constructor|]. split; [done|]. exists arbitrators. split_and!; [done..|].
  by eapply step5_ok.
Qed.

Lemma run_ok i nowMs nowIso resolvedAt w r w' :
  runDisputeArbitration7Steps P i nowMs nowIso resolvedAt w = (Ok r, w') →
  ∃ d uris, decide_dispute P i nowMs nowIso w = Ok (d, uris, dr_decision r)
    ∧ dr_dispute r = resolve_dispute d resolvedAt
    ∧ runInTransaction P (persist P d uris (dr_decision r) resolvedAt (dr_transitionEvent r)) w
      = (Ok tt, w').
Proof.
  unfold runDisputeArbitration7Steps.
  destruct (decide_dispute P i nowMs nowIso w) as [[[d uris] dec]|c]; [|done].
  intros ([] & w1 & [= <-] & Hk)%M_bind_ok.
  apply M_bind_ok in Hk as ([] & w2 & Htx & [= <- <-]). by exists d, uris.
Qed.

(** C28.  An arbitration that succeeds was admissible.  The filing passed its
    schema, is of a supported version, younger than fourteen days, not filed
    before, matches the signed hash, is fresh and signed, with no revoked
    token, party or arbitrator; and the decision carries verified signatures of
    a majority of distinct members of the selected pool.  The size asked for is
    a finite number (with [NaN] a decision without signatures passes,
    [nan_pool_needs_no_signature]). *)
Theorem arbitration_sound i nowMs nowIso resolvedAt w r w' n :
  runDisputeArbitration7Steps P i nowMs nowIso resolvedAt w = (Ok r, w') →
  da_poolSizeTarget i = Fin n →
  filing_accepted (da_filing i) (da_signedPayload i) nowMs w
  ∧ MIN_ARBITRATOR_COUNT <= n <= MAX_ARBITRATOR_COUNT
  ∧ ∃ arbitrators, selectArbitrators P (fl_disputeId (da_filing i)) (Fin n) = Ok arbitrators
      ∧ Forall (λ a, checkDidRevocationStatus P (arb_did a) = Ok tt) arbitrators
      ∧ quorum arbitrators n (dr_decision r).
Proof. intros (d & uris & Hd & _)%run_ok Hn. by eapply decide_dispute_ok. Qed.

(** Two majorities of one pool meet. *)
Lemma quorum_meet pool n d1 d2 :
  quorum pool n d1 → quorum pool n d2 → Z.of_nat (length pool) <= n →
  ∃ did, did ∈ as_arbitratorDid <$> de_arbitratorSignatures d1
       ∧ did ∈ as_arbitratorDid <$> de_arbitratorSignatures d2.
Proof.
  intros [U1 M1 Q1 _] [U2 M2 Q2 _] Hlen.
  destruct (decide (Exists (λ did, did ∈ as_arbitratorDid <$> de_arbitratorSignatures d2)
                      (as_arbitratorDid <$> de_arbitratorSignatures d1))) as [He|Hno].
  { apply Exists_exists in He as (did & ? & ?). by exists did. }
  exfalso. apply not_Exists_Forall in Hno; [|intros; apply _]. rewrite Forall_forall in Hno.
  assert ((as_arbitratorDid <$> de_arbitratorSignatures d1)
          ++ (as_arbitratorDid <$> de_arbitratorSignatures d2) ⊆+ arb_did <$> pool) as Hsub.
  { apply NoDup_submseteq.
    - apply NoDup_app. split_and!; [done| |done]. intros x Hx. by apply Hno.
    - intros x [Hx|Hx]%elem_of_app; apply list_elem_of_fmap in Hx as (s & -> & Hs); auto. }
  apply submseteq_length in Hsub. rewrite length_app, !length_fmap in Hsub. lia.
Qed.

(** Two decisions share a signer.  Whatever the states and verdicts, two
    successful arbitrations over pools of one size selected as the same list of
    that many arbitrators have an arbitrator who signed both: a dispute cannot
    be decided twice by disjoint majorities. *)
Theorem decisions_share_signer i1 i2 nowMs1 nowIso1 at1 nowMs2 nowIso2 at2 w1 w2 w1' w2' r1 r2 n pool :
  runDisputeArbitration7Steps P i1 nowMs1 nowIso1 at1 w1 = (Ok r1, w1') →
  runDisputeArbitration7Steps P i2 nowMs2 nowIso2 at2 w2 = (Ok r2, w2') →
  da_poolSizeTarget i1 = Fin n → da_poolSizeTarget i2 = Fin n →
  selectArbitrators P (fl_disputeId (da_filing i1)) (Fin n) = Ok pool →
  selectArbitrators P (fl_disputeId (da_filing i2)) (Fin n) = Ok pool →
  Z.of_nat (length pool) = n →
  ∃ did, did ∈ as_arbitratorDid <$> de_arbitratorSignatures (dr_decision r1)
       ∧ did ∈ as_arbitratorDid <$> de_arbitratorSignatures (dr_decision r2).
Proof.
  intros (d1 & u1 & D1 & _)%run_ok (d2 & u2 & D2 & _)%run_ok N1 N2 S1 S2 Hlen.
  destruct (decide_dispute_ok _ _ _ _ _ _ _ _ D1 N1) as (_ & _ & a1 & A1 & _ & Q1).
  destruct (decide_dispute_ok _ _ _ _ _ _ _ _ D2 N2) as (_ & _ & a2 & A2 & _ & Q2).
  assert (a1 = pool ∧ a2 = pool) as [-> ->] by (split; congruence).
  apply (quorum_meet pool n); [done..|lia].
Qed.

(** Arbitration is atomic.  Over a transaction manager that rolls back, a
    run that throws, at any step and in any of the seven writes, leaves the
    state as it was; a run that returns has made all seven writes in order, and
    reports the dispute it saved as resolved. *)
Theorem arbitration_atomic `{!TxLaws P} i nowMs nowIso resolvedAt w :
  let (o, w') := runDisputeArbitration7Steps P i nowMs nowIso resolvedAt w in
  match o with
  | Throw _ => w' = w
  | Ok r => ∃ d uris, dr_dispute r = resolve_dispute d resolvedAt
      ∧ persist P d uris (dr_decision r) resolvedAt (dr_transitionEvent r) w = (Ok tt, w')
  end.
Proof.
  destruct (runDisputeArbitration7Steps P i nowMs nowIso resolvedAt w) as [[r|c] w'] eqn:Hrun.
  - apply run_ok in Hrun as (d & uris & _ & Hd & Htx). exists d, uris. split; [done|].
    rewrite runInTransaction_spec in Htx. exact (proj1 (withTransaction_ok _ _ _ _) Htx).
  - unfold runDisputeArbitration7Steps in Hrun.
    destruct (decide_dispute P i nowMs nowIso w) as [[[d uris] dec]|c']; [|by injection Hrun].
    apply M_bind_throw in Hrun as [[=]|([] & w1 & [= <-] & Hk)].
    apply M_bind_throw in Hk as [Htx|([] & w2 & _ & [=])].
    rewrite runInTransaction_spec in Htx. by apply withTransaction_throw in Htx.
Qed.

(** A pool size that is not a number defeats the threshold: every comparison
    with NaN is false, so a decision without any signature passes. *)
Theorem nan_pool_needs_no_signature f verdict arbitrators nowIso d :
  aggregateSignatures P (initial_decision f verdict NaN NaN nowIso) arbitrators NaN = Ok d →
  de_arbitratorSignatures d = [] →
  computeThreshold NaN = Ok NaN ∧ step5_signatures P f verdict NaN NaN arbitrators nowIso = Ok d.
Proof.
  intros Ha Hs. split; [done|]. unfold step5_signatures.
  apply res_bind_ok. exists tt. split; [done|].
  apply res_bind_ok. exists d. split; [done|]. by rewrite Hs.
Qed.

(** ** What the signatures do not cover *)

Definition set_verdict (v : DaVerdict) (d : ArbitrationDecision) : ArbitrationDecision :=
  mkDecision (de_decisionId d) (de_disputeId d) v (de_multisigThreshold d) (de_multisigPoolSize d)
    (de_decisionCanonicalHash d) (de_arbitratorSignatures d) (de_decidedAt d).

(** The same ports with an aggregator that reports another verdict. *)
Definition forge_verdict (v : DaVerdict) : DaPorts W :=
  mkDaPorts W (λ d a t, d' ← aggregateSignatures P d a t; mret (set_verdict v d')) (verifyArbitratorSignature P)
    (selectArbitrators P) (validateEvidenceUris P) (storeEvidenceRef P) (isTokenRevoked P)
    (checkDidRevocationStatus P) (verifyDisputeFilingSignature P) (checkFreshness P)
    (recordDisputeTransition P) (recordDisputeFiled P) (recordArbitrationDecision P)
    (findByCanonicalHash P) (findByDisputeId P) (saveDispute P) (updateDisputeState P)
    (saveArbitrationDecision P) (runInTransaction P).

Lemma step5_forge v f verdict threshold pool arbitrators nowIso d :
  step5_signatures P f verdict threshold pool arbitrators nowIso = Ok d →
  step5_signatures (forge_verdict v) f verdict threshold pool arbitrators nowIso = Ok (set_verdict v d).
Proof.
  unfold step5_signatures. intros ([] & H1 & Hk)%res_bind_ok.
  apply res_bind_ok in Hk as (d' & H2 & Hk).
  apply res_bind_ok in Hk as ([] & H3 & Hk).
  apply res_bind_ok in Hk as ([] & H4 & Hk).
  apply res_bind_ok in Hk as ([] & H5 & Hk).
  apply res_bind_ok in Hk as ([] & H6 & [= <-]).
  apply res_bind_ok. exists tt. split; [done|].
  apply res_bind_ok. exists (set_verdict v d').
  split; [cbn [aggregateSignatures forge_verdict]; by rewrite H2|].
  apply res_bind_ok. exists tt. split; [done|].
  apply res_bind_ok. exists tt. split; [done|].
  apply res_bind_ok. exists tt. split; [done|].
  apply res_bind_ok. exists tt. split; [exact H6|done].
Qed.

(** The verdict is not covered by the arbitrators' signatures.  They are
    verified over the hash the aggregator returns, which is not recomputed from
    the decision, and the returned verdict is not compared with the requested
    one: whenever a decision passes the first five steps, the same decision
    with any other verdict passes them too, with the same signatures. *)
Theorem verdict_not_bound v i nowMs nowIso w d uris decision :
  decide_dispute P i nowMs nowIso w = Ok (d, uris, decision) →
  decide_dispute (forge_verdict v) i nowMs nowIso w = Ok (d, uris, set_verdict v decision).
Proof.
  unfold decide_dispute. intros (h & H1 & Hk)%res_bind_ok.
  apply res_bind_ok in Hk as ([h' uris'] & H2 & Hk).
  apply res_bind_ok in Hk as ([] & H3 & Hk).
  apply res_bind_ok in Hk as ([threshold arbitrators] & H4 & Hk).
  apply res_bind_ok in Hk as (dec & H5 & [= <- <- <-]).
  apply res_bind_ok. exists h. split; [exact H1|].
  apply res_bind_ok. exists (h', uris'). split; [exact H2|].
  apply res_bind_ok. exists tt. split; [exact H3|].
  apply res_bind_ok. exists (threshold, arbitrators). split; [exact H4|].
  apply res_bind_ok. exists (set_verdict v dec). split; [by apply step5_forge|done].
Qed.
End sound.
