(* ===== verification/DisputeExamples.v ===== *)
(** * A concrete arbitration

    An in-memory dispute store with a rolling-back transaction manager, three
    arbitrators and one filing: the values at which the theorems on dispute
    arbitration are applied, with the toy primitives of ToyPrimitives.v. *)
From S2P Require Import Prelude JsValue Time Encoding Crypto ToyPrimitives Authorization.
From S2P Require Import ActionRecorder DisputeArbitration.

Record DaStore : Type := mkDaStore {
  st_disputes : list Dispute;
  st_decisions : list ArbitrationDecision;
  st_events : list DisputeStateTransitionEvent;
  st_notes : list (string * string);
  st_evidence : list (string * list string) }.

Definition da_empty : DaStore := mkDaStore [] [] [] [] [].

Definition add_note (a b : string) : M DaStore unit := λ s,
  (Ok tt, mkDaStore (st_disputes s) (st_decisions s) (st_events s) (st_notes s ++ [(a, b)])
            (st_evidence s)).

Definition da_pool : list Arbitrator :=
  [mkArbitrator "did:agent:x" "kx" true; mkArbitrator "did:agent:y" "ky" true;
   mkArbitrator "did:agent:z" "kz" true].

Definition da_hash : string := str (replicate 64 "a"%char).

(** The arbitrators in [signers] sign; a signature is the DID before the hash. *)
Definition memory_ports (signers : list string) : DaPorts DaStore :=
  mkDaPorts DaStore
    (λ d _ _, Ok (mkDecision (de_decisionId d) (de_disputeId d) (de_verdict d) (de_multisigThreshold d)
                    (de_multisigPoolSize d) da_hash
                    ((λ s, mkArbitratorSignature s (s +:+ da_hash)) <$> signers) (de_decidedAt d)))
    (λ did sig h, Ok (String.eqb sig (did +:+ h)))
    (λ _ _, Ok da_pool)
    (λ uris, Ok uris)
    (λ id uris s, (Ok tt, mkDaStore (st_disputes s) (st_decisions s) (st_events s) (st_notes s)
                            (st_evidence s ++ [(id, uris)])))
    (λ t, Ok (String.eqb t "revoked"))
    (λ did, if String.eqb did "did:revoked" then Throw "DA_DISPUTE_REVOKED" else Ok tt)
    (λ sp, Ok (String.eqb (sp_claimantSignature sp) "signed"))
    (λ _, Ok tt)
    (λ ev s, (Ok tt, mkDaStore (st_disputes s) (st_decisions s) (st_events s ++ [ev]) (st_notes s)
                       (st_evidence s)))
    add_note add_note
    (λ h s, Ok (di_disputeId <$> head (filter (λ d, di_disputeFilingCanonicalHash d = h) (st_disputes s))))
    (λ id s, Ok (head (filter (λ d, di_disputeId d = id) (st_disputes s))))
    (λ d s, (Ok tt, mkDaStore (st_disputes s ++ [d]) (st_decisions s) (st_events s) (st_notes s)
                      (st_evidence s)))
    (λ id to at_ s, (Ok tt, mkDaStore ((λ d, if String.eqb (di_disputeId d) id
                                             then resolve_dispute d at_ else d) <$> st_disputes s)
                              (st_decisions s) (st_events s) (st_notes s) (st_evidence s)))
    (λ d s, (Ok tt, mkDaStore (st_disputes s) (st_decisions s ++ [d]) (st_events s) (st_notes s)
                      (st_evidence s)))
    withTransaction.

#[export] Instance memory_tx signers : TxLaws (memory_ports signers).
Proof. split. reflexivity. Qed.

Definition da_uuid : string := "0a1b2c3d-0a1b-4c2d-8a1b-0a1b2c3d4e5f".

Definition example_filing : DisputeFiling :=
  mkFiling da_uuid "did:agent:claimant" "did:agent:respondent" SETTLEMENT_FAILED
    ["https://evidence.example.com/1"] None "1.0.0" "token" {["amount" := VNum (Fin 5)]} "challenge"
    "audience" "2026-06-02T00:00:00.000Z" "2026-06-01T00:00:00.000Z" "1.0.0".

Definition example_payload : DisputeFilingSignedPayload :=
  Eval vm_compute in
    mkSignedPayload example_filing
      (match computeDisputeFilingCanonicalHash example_filing with Ok h => h | Throw _ => "" end) "signed".

Definition da_input : DisputeArbitrationInput :=
  mkDaInput example_filing example_payload (Fin 3) CLAIMANT_PREVAILS "tenant".

(** One day after the filing. *)
Definition da_now : Z := 1780358400000.
Definition da_iso : string := "2026-06-02T00:00:00.000Z".

Definition da_run (signers : list string) : res DisputeArbitrationResult * DaStore :=
  runDisputeArbitration7Steps (memory_ports signers) da_input da_now da_iso da_iso da_empty.

Definition two_signers : list string := ["did:agent:x"; "did:agent:y"].

Definition da_result : DisputeArbitrationResult :=
  Eval vm_compute in
    match (da_run two_signers).1 with
    | Ok r => r
    | Throw c => mkDaResult (filed_dispute example_filing "" c [] "") (initial_decision example_filing NO_FAULT NaN NaN "")
                   (mkTransition "" FILED EXPIRED "" PC3_TIMEOUT_EXPIRY None)
    end.

Example da_succeeds : (da_run two_signers).1 = Ok da_result.
Proof. vm_compute. reflexivity. Qed.

(** One signer of three is not a majority, and nothing is written. *)
Example da_one_signer : da_run ["did:agent:x"] = (Throw "DA_INSUFFICIENT_SIGNATURES", da_empty).
Proof. vm_compute. reflexivity. Qed.

Lemma arbitration_sound_witness :
  filing_accepted (memory_ports two_signers) example_filing example_payload da_now da_empty
  ∧ MIN_ARBITRATOR_COUNT <= 3 <= MAX_ARBITRATOR_COUNT
  ∧ ∃ arbitrators, selectArbitrators (memory_ports two_signers) da_uuid (Fin 3) = Ok arbitrators
      ∧ Forall (λ a, checkDidRevocationStatus (memory_ports two_signers) (arb_did a) = Ok tt) arbitrators
      ∧ quorum (memory_ports two_signers) arbitrators 3 (dr_decision da_result).
Proof.
  apply (arbitration_sound (memory_ports two_signers) da_input da_now da_iso da_iso da_empty da_result
           (da_run two_signers).2 3).
  - vm_compute. reflexivity.
  - reflexivity.
Defined.

Lemma decisions_share_signer_witness :
  ∃ did, did ∈ as_arbitratorDid <$> de_arbitratorSignatures (dr_decision da_result)
       ∧ did ∈ as_arbitratorDid <$> de_arbitratorSignatures (dr_decision da_result).
Proof.
  apply (decisions_share_signer (memory_ports two_signers) da_input da_input da_now da_iso da_iso da_now
           da_iso da_iso da_empty da_empty (da_run two_signers).2 (da_run two_signers).2 da_result
           da_result 3 da_pool).
  - vm_compute. reflexivity.
  - vm_compute. reflexivity.
  - reflexivity.
  - reflexivity.
  - reflexivity.
  - reflexivity.
  - reflexivity.
Defined.

Lemma arbitration_atomic_witness :
  let (o, w') := runDisputeArbitration7Steps (memory_ports ["did:agent:x"]) da_input da_now da_iso da_iso
                   da_empty in
  match o with
  | Throw _ => w' = da_empty
  | Ok r => ∃ d uris, dr_dispute r = resolve_dispute d da_iso
      ∧ persist (memory_ports ["did:agent:x"]) d uris (dr_decision r) da_iso (dr_transitionEvent r)
          da_empty = (Ok tt, w')
  end.
Proof.
  pose proof (arbitration_atomic (memory_ports ["did:agent:x"]) da_input da_now da_iso da_iso da_empty) as Ha.
  exact Ha.
Defined.

Lemma verdict_not_bound_witness :
  decide_dispute (forge_verdict (memory_ports two_signers) RESPONDENT_PREVAILS) da_input da_now da_iso
    da_empty
  = Ok (filed_dispute example_filing "tenant" (sp_canonicalHash example_payload)
          (fl_evidenceUris example_filing) da_iso, fl_evidenceUris example_filing,
        set_verdict RESPONDENT_PREVAILS (dr_decision da_result)).
Proof.
  apply (verdict_not_bound (memory_ports two_signers) RESPONDENT_PREVAILS da_input da_now da_iso da_empty).
  vm_compute. reflexivity.
Defined.
