(* ===== verification/SignedPayload.v ===== *)
(** * Canonical signed payloads

    packages/crypto/src/canonical-signed-payload: the canonical bytes of a
    payload, their hash, and [verifySignature], with the payload schema
    packages/types/src/schemas/canonical-signed-payload.schema.json.  A payload
    is a [Record<string, unknown>]: an association list of its properties. *)
From S2P Require Import Prelude JsValue Time Encoding Crypto Authorization.

(** ** Schema *)

(** The formats of the npm package ajv-formats the schemas name. *)
Class Formats : Type := {
  format_uuid : string → bool;
  format_uri : string → bool;
  format_date_time : string → bool }.

Abbreviation object := (list (string * value)).

(** [o.k]; a property whose value is [undefined] counts as missing. *)
Definition prop (k : string) (o : object) : option value :=
  match map_get k o with Some VUndefined | None => None | Some v => Some v end.

(** [required] and [additionalProperties: false] *)
Definition required (ks : list string) (o : object) : bool :=
  forallb (λ k, bool_decide (is_Some (prop k o))) ks.
Definition only (ks : list string) (o : object) : bool :=
  forallb (λ kv, bool_decide (kv.1 ∈ ks)) o.

(** A property that is absent or satisfies its schema. *)
Definition property (k : string) (ok : value → bool) (o : object) : bool :=
  match prop k o with Some v => ok v | None => true end.

Definition string_where (ok : string → bool) (v : value) : bool :=
  match v with VStr s => ok s | _ => false end.
Definition array_of (ok : value → bool) (v : value) : bool :=
  match v with VArr l => forallb ok l | _ => false end.
Definition object_where (ok : object → bool) (v : value) : bool :=
  match v with VObj o => ok o | _ => false end.

Definition non_empty (s : string) : bool := negb (String.eqb s "").
Definition uuid_v4 (s : string) : bool :=
  matches_template (chars "xxxxxxxx-xxxx-4xxx-Rxxx-xxxxxxxxxxxx") (chars s).

(** [UUID_V4_PATTERN], which ignores case. *)
Definition to_lower (c : ascii) : ascii :=
  let n := N_of_ascii c in if (65 <=? n)%N && (n <=? 90)%N then ascii_of_N (n + 32) else c.
Definition UUID_V4_PATTERN (s : string) : bool := uuid_v4 (str (to_lower <$> chars s)).

(** [toUuidV4String] of types/src/canonical-signed-payload/types.ts. *)
Definition csp_toUuidV4String (s : string) : res string := if UUID_V4_PATTERN s then Ok s else Throw "Error".

(** [^[A-Za-z0-9_-]+=*$] *)
Definition base64url_padded (s : string) : bool :=
  let l := strip_padding (chars s) in negb (Nat.eqb (length l) 0) && forallb is_b64 l.

(** [^[0-9a-f]{64}$] *)
Definition hex64 (s : string) : bool :=
  Nat.eqb (String.length s) 64 && forallb is_lower_hex (chars s).

(** [^did:.*#], a hash sign somewhere after the prefix on its line *)
Definition did_url (s : string) : bool :=
  str_startsWith s "did:" && str_includes (str_before "010" s) "#".

Section schema.
Context `{Formats}.

Definition csp_capability : value → bool := object_where (λ o,
  required ["action"; "scope"] o && property "action" (string_where non_empty) o
  && property "scope" (object_where (λ sc, required ["type"] sc
       && property "type" (string_where (λ t,
            bool_decide (t ∈ ["allowlist"; "numeric_limit"; "temporal_scope"; "cumulative_limit"]))) sc)) o).

Definition csp_proof : value → bool := object_where (λ o,
  required ["type"; "created"; "verificationMethod"; "value"] o
  && only ["type"; "created"; "verificationMethod"; "value"] o
  && property "type" (string_where (λ t, String.eqb t "Ed25519Signature2026")) o
  && property "created" (string_where format_date_time) o
  && property "verificationMethod" (string_where did_url) o
  && property "value" (string_where non_empty) o).

Definition csp_token_fields : list string :=
  ["id"; "issuerDid"; "principalDid"; "issuedTo"; "specVersion"; "issuedAt"; "expiresAt"; "capabilities";
   "revocationUrl"; "proof"].

Definition csp_token : value → bool := object_where (λ o,
  required csp_token_fields o && only ("delegationChain" :: csp_token_fields) o
  && property "id" (string_where non_empty) o
  && property "issuerDid" (string_where (λ s, str_startsWith s "did:")) o
  && property "principalDid" (string_where (λ s, str_startsWith s "did:")) o
  && property "issuedTo" (string_where (λ s, str_startsWith s "did:")) o
  && property "specVersion" (string_where specVersion_enum) o
  && property "issuedAt" (string_where format_date_time) o
  && property "expiresAt" (string_where format_date_time) o
  && property "capabilities" (λ v, array_of csp_capability v
       && match v with VArr [] => false | _ => true end) o
  && property "delegationChain" (array_of (object_where (λ _, true))) o
  && property "revocationUrl" (string_where (λ s, format_uri s && str_startsWith s "https://")) o
  && property "proof" csp_proof o).

Definition csp_fields : list string :=
  ["cspVersion"; "token"; "disclosedClaims"; "challenge"; "audience"; "notAfter"].

(** [validateCspPayload] *)
Definition validateCspPayload (o : object) : bool :=
  required csp_fields o && only csp_fields o
  && property "cspVersion" (string_where (λ s, String.eqb s "1.0.0")) o
  && property "token" csp_token o
  && property "disclosedClaims" (array_of (object_where (λ _, true))) o
  && property "challenge" (string_where uuid_v4) o
  && property "audience" (string_where (λ s,
       format_uri s && (str_startsWith s "did:" || str_startsWith s "https://"))) o
  && property "notAfter" (string_where format_date_time) o.
End schema.

(** ** Canonical bytes *)

Section payload.
Context `{Primitives}.

Definition canonicalSerialize (payload : object) : res bytes :=
  if assertSerializable (VObj payload) then Ok (textEncode (jcs (VObj payload)))
  else Throw "CSP_SCHEMA_VIOLATION".

Definition canonicalHashBytes (payload : object) : res bytes :=
  canonicalBytes ← canonicalSerialize payload;
  mret (sha256 canonicalBytes).

Definition canonicalHash (payload : object) (enc : encoding) : res string :=
  canonicalBytes ← canonicalSerialize payload;
  mret (hash canonicalBytes enc).

(** ** [verifySignature] *)

Record VerifySignatureOptions : Type := mkVerifyOptions {
  vo_expectedAudience : option string;
  vo_expectedChallenge : option string;
  vo_now : option Z;
  vo_minWindowMs : Z;
  vo_requireMandatoryFields : bool;
  vo_enforceFullSchema : bool }.

(** The values of the omitted options. *)
Definition default_options : VerifySignatureOptions := mkVerifyOptions None None None 1000 true true.

(** [if (!ok) throw new CspError(code, ...)] *)
Definition check (ok : bool) (code : string) : res unit := if ok then mret tt else Throw code.

Definition is_array (v : option value) : bool := match v with Some (VArr _) => true | _ => false end.
(** [typeof v === 'object'] and not [null] *)
Definition is_object (v : option value) : bool :=
  match v with Some (VArr _) | Some (VObj _) => true | _ => false end.

Definition assertMandatoryFields (payload : object) : res unit :=
  _ ← check (forallb (λ f, bool_decide (is_Some (map_get f payload))) csp_fields) "CSP_SCHEMA_VIOLATION";
  _ ← check (is_array (map_get "disclosedClaims" payload)) "CSP_SCHEMA_VIOLATION";
  check (is_object (map_get "token" payload)) "CSP_TOKEN_MISSING".

Definition csp_assertSignature : string → res bytes :=
  assertDecoded "CSP_SIGNATURE_INVALID" (λ n, Nat.eqb n 64).
Definition csp_assertPublicKey : string → res bytes :=
  assertDecoded "CSP_SIGNATURE_INVALID" (λ n, Nat.eqb n 32).

Definition assertNotAfter (notAfter : string) (now minWindowMs : Z) : res unit :=
  match iso_getTime notAfter with
  | None => Throw "CSP_SCHEMA_VIOLATION"
  | Some t => check (negb (t <=? now + minWindowMs)) "CSP_PAYLOAD_EXPIRED"
  end.

(** [assertAudience] and [assertChallenge]: a string, strictly equal. *)
Definition assertEqualField (v : option value) (expected code : string) : res unit :=
  match v with
  | Some (VStr s) => check (String.eqb s expected) code
  | _ => Throw "CSP_SCHEMA_VIOLATION"
  end.

(** An omitted option checks nothing. *)
Definition when_given {A} (o : option A) (f : A → res unit) : res unit :=
  match o with Some a => f a | None => mret tt end.

Definition verifySignature `{Formats} (payload : object) (signature publicKey : string)
    (opts : VerifySignatureOptions) : res unit :=
  _ ← check (negb (vo_enforceFullSchema opts) || validateCspPayload payload) "CSP_SCHEMA_VIOLATION";
  _ ← (if vo_requireMandatoryFields opts then assertMandatoryFields payload else mret tt);
  signatureBytes ← csp_assertSignature signature;
  publicKeyBytes ← csp_assertPublicKey publicKey;
  recomputedBytes ← canonicalSerialize payload;
  _ ← check (bool_decide (ed25519_verify signatureBytes recomputedBytes publicKeyBytes = Some true))
        "CSP_SIGNATURE_INVALID";
  _ ← when_given (vo_now opts) (λ now,
        match map_get "notAfter" payload with
        | Some (VStr notAfter) => assertNotAfter notAfter now (vo_minWindowMs opts)
        | _ => Throw "CSP_SCHEMA_VIOLATION"
        end);
  _ ← when_given (vo_expectedAudience opts) (λ a,
        assertEqualField (map_get "audience" payload) a "CSP_AUDIENCE_MISMATCH");
  when_given (vo_expectedChallenge opts) (λ c,
    assertEqualField (map_get "challenge" payload) c "CSP_CHALLENGE_INVALID").
End payload.

(** ** Lemmas *)

Lemma check_ok ok code u : check ok code = Ok u ↔ ok = true.
Proof. destruct u, ok; unfold check; naive_solver. Qed.

Lemma when_given_ok {A} (o : option A) f u :
  when_given o f = Ok u ↔ ∀ a, o = Some a → f a = Ok tt.
Proof. destruct u, o as [a|]; simpl; naive_solver. Qed.

Lemma assertEqualField_ok v e code : assertEqualField v e code = Ok tt ↔ v = Some (VStr e).
Proof.
  destruct v as [[| | | |s| |]|]; simpl; rewrite ?check_ok, ?String.eqb_eq; naive_solver.
Qed.

Lemma assertDecoded_ok code ok input bs :
  assertDecoded code ok input = Ok bs ↔ normalizeKey input = Ok bs ∧ ok (length bs) = true.
Proof.
  unfold assertDecoded. destruct (normalizeKey input) as [bs'|c]; [|naive_solver].
  destruct (ok (length bs')) eqn:E; naive_solver congruence.
Qed.

Lemma canonicalSerialize_ok `{Primitives} o bs :
  canonicalSerialize o = Ok bs ↔ assertSerializable (VObj o) = true ∧ bs = textEncode (jcs (VObj o)).
Proof. unfold canonicalSerialize. destruct (assertSerializable _); naive_solver. Qed.

Lemma assertNotAfter_ok notAfter now window :
  assertNotAfter notAfter now window = Ok tt
  ↔ ∃ t, iso_getTime notAfter = Some t ∧ now + window < t.
Proof.
  unfold assertNotAfter. destruct (iso_getTime notAfter) as [t|]; [|naive_solver].
  rewrite check_ok, negb_true_iff, Z.leb_gt. naive_solver.
Qed.

Lemma forallb_elem_of {A} (f : A → bool) l : forallb f l = true ↔ ∀ x, x ∈ l → f x = true.
Proof. rewrite forallb_forall. by setoid_rewrite list_elem_of_In. Qed.

Lemma assertMandatoryFields_ok payload :
  assertMandatoryFields payload = Ok tt
  ↔ (∀ f, f ∈ csp_fields → is_Some (map_get f payload))
    ∧ is_array (map_get "disclosedClaims" payload) = true
    ∧ is_object (map_get "token" payload) = true.
Proof.
  unfold assertMandatoryFields. rewrite res_bind_ok. split.
  - intros ([] & H1%check_ok & ([] & H2%check_ok & H3%check_ok)%res_bind_ok). split; [|done].
    intros f Hf. rewrite forallb_elem_of in H1. by apply H1, bool_decide_eq_true in Hf.
  - intros (H1 & H2 & H3). exists tt. split.
    + apply check_ok, forallb_elem_of. intros f Hf. by apply bool_decide_eq_true, H1.
    + apply res_bind_ok. exists tt. by rewrite !check_ok.
Qed.

(** ** What a verified payload is *)

Section exact.
Context `{Primitives} `{Formats}.

(** The conditions under which a payload is accepted. *)
Record csp_accepted (payload : object) (signature publicKey : string) (opts : VerifySignatureOptions)
    : Prop := {
  ca_schema : vo_enforceFullSchema opts = true → validateCspPayload payload = true;
  ca_fields : vo_requireMandatoryFields opts = true →
    (∀ f, f ∈ csp_fields → is_Some (map_get f payload))
    ∧ is_array (map_get "disclosedClaims" payload) = true
    ∧ is_object (map_get "token" payload) = true;
  ca_signature : ∃ sig pk, normalizeKey signature = Ok sig ∧ length sig = 64%nat
    ∧ normalizeKey publicKey = Ok pk ∧ length pk = 32%nat
    ∧ assertSerializable (VObj payload) = true
    ∧ ed25519_verify sig (textEncode (jcs (VObj payload))) pk = Some true;
  ca_fresh now : vo_now opts = Some now →
    ∃ notAfter t, map_get "notAfter" payload = Some (VStr notAfter)
      ∧ iso_getTime notAfter = Some t ∧ now + vo_minWindowMs opts < t;
  ca_audience a : vo_expectedAudience opts = Some a → map_get "audience" payload = Some (VStr a);
  ca_challenge c : vo_expectedChallenge opts = Some c → map_get "challenge" payload = Some (VStr c) }.

Lemma signature_step signature publicKey payload (k : res unit) :
  (signatureBytes ← csp_assertSignature signature;
   publicKeyBytes ← csp_assertPublicKey publicKey;
   recomputedBytes ← canonicalSerialize payload;
   _ ← check (bool_decide (ed25519_verify signatureBytes recomputedBytes publicKeyBytes = Some true))
         "CSP_SIGNATURE_INVALID";
   k) = Ok tt
  ↔ (∃ sig pk, normalizeKey signature = Ok sig ∧ length sig = 64%nat
       ∧ normalizeKey publicKey = Ok pk ∧ length pk = 32%nat
       ∧ assertSerializable (VObj payload) = true
       ∧ ed25519_verify sig (textEncode (jcs (VObj payload))) pk = Some true) ∧ k = Ok tt.
Proof.
  unfold csp_assertSignature, csp_assertPublicKey. split.
  - intros (sig & [E1 L1]%assertDecoded_ok & Hk)%res_bind_ok.
    apply res_bind_ok in Hk as (pk & [E2 L2]%assertDecoded_ok & Hk).
    apply res_bind_ok in Hk as (bs & [E3 ->]%canonicalSerialize_ok & Hk).
    apply res_bind_ok in Hk as ([] & E4%check_ok%bool_decide_eq_true & Hk).
    apply Nat.eqb_eq in L1, L2. split; [by exists sig, pk|done].
  - intros [(sig & pk & E1 & L1 & E2 & L2 & E3 & E4) Hk].
    apply res_bind_ok. exists sig. split; [apply assertDecoded_ok; by rewrite L1|].
    apply res_bind_ok. exists pk. split; [apply assertDecoded_ok; by rewrite L2|].
    apply res_bind_ok. eexists. split; [by apply canonicalSerialize_ok|].
    apply res_bind_ok. exists tt. split; [|done]. by apply check_ok, bool_decide_eq_true.
Qed.

Lemma fresh_ok payload now window :
  match map_get "notAfter" payload with
  | Some (VStr notAfter) => assertNotAfter notAfter now window
  | _ => Throw "CSP_SCHEMA_VIOLATION"
  end = Ok tt
  ↔ ∃ notAfter t, map_get "notAfter" payload = Some (VStr notAfter)
      ∧ iso_getTime notAfter = Some t ∧ now + window < t.
Proof.
  destruct (map_get "notAfter" payload) as [[]|]; rewrite ?assertNotAfter_ok; naive_solver.
Qed.

Lemma mandatory_ok (on : bool) payload :
  (if on then assertMandatoryFields payload else mret tt) = Ok tt
  ↔ (on = true → (∀ f, f ∈ csp_fields → is_Some (map_get f payload))
                 ∧ is_array (map_get "disclosedClaims" payload) = true
                 ∧ is_object (map_get "token" payload) = true).
Proof. destruct on; rewrite ?assertMandatoryFields_ok; naive_solver. Qed.

(** [verifySignature] accepts exactly the payloads that satisfy the schema
    and have the mandatory fields (unless these checks are switched off), whose
    canonical bytes carry a valid Ed25519 signature of the key, and which,
    as far as the options ask, expire later than now plus the window, name the
    expected audience and carry the expected challenge. *)
Theorem csp_verify_exact payload signature publicKey opts :
  verifySignature payload signature publicKey opts = Ok tt
  ↔ csp_accepted payload signature publicKey opts.
Proof.
  unfold verifySignature. split.
  - intros ([] & H1%check_ok & ([] & H2 & [H3 Hk]%signature_step)%res_bind_ok)%res_bind_ok.
    apply res_bind_ok in Hk as ([] & H4 & Hk). apply res_bind_ok in Hk as ([] & H5 & H6).
    rewrite mandatory_ok in H2. rewrite when_given_ok in H4. rewrite when_given_ok in H5, H6. split; try done.
    + by destruct (vo_enforceFullSchema opts).
    + intros now Hn. by apply fresh_ok, H4.
    + intros a Ha. by eapply assertEqualField_ok, H5.
    + intros c Hc. by eapply assertEqualField_ok, H6.
  - intros [H1 H2 H3 H4 H5 H6].
    apply res_bind_ok. exists tt. split; [apply check_ok; destruct (vo_enforceFullSchema opts); auto|].
    apply res_bind_ok. exists tt. split; [by apply mandatory_ok|]. apply signature_step. split; [done|].
    apply res_bind_ok. exists tt. split; [apply when_given_ok; intros now Hn; by apply fresh_ok, H4|].
    apply res_bind_ok. exists tt. split; [apply when_given_ok; intros a Ha; by apply assertEqualField_ok, H5|].
    apply when_given_ok. intros c Hc. by apply assertEqualField_ok, H6.
Qed.
End exact.
