(* ===== verification/Merkle.v ===== *)
(** * Merkle commitments

    packages/crypto/src/multisig/merkle-tree.ts: leaves, the tree and its audit
    paths, and the verification of a path.  The tree is kept as the source
    keeps it, as the list of its levels from the leaves to the root. *)
From S2P Require Import Prelude JsValue Encoding Crypto SignedPayload.

Inductive SignerRole : Type := human | agent.
#[export] Instance SignerRole_eq_dec : EqDecision SignerRole.
Proof. solve_decision. Defined.
Definition SignerRole_text (r : SignerRole) : string :=
  match r with human => "human" | agent => "agent" end.

Record SignerLeafInput : Type := mkLeafInput {
  li_id : string;
  li_role : SignerRole;
  li_signature : string }.

Definition leaf_json (i : SignerLeafInput) : object :=
  [("id", VStr (li_id i)); ("role", VStr (SignerRole_text (li_role i)));
   ("signature", VStr (li_signature i))].

Section merkle.
Context `{Primitives}.

(** ** Leaves *)

Definition generateMerkleLeaf (input : SignerLeafInput) : res bytes :=
  _ ← check (non_empty (li_id input)) "MULTISIG_SCHEMA_VIOLATION";
  _ ← check (non_empty (li_signature input)) "MULTISIG_SCHEMA_VIOLATION";
  canonicalBytes ← match canonicalSerialize (leaf_json input) with
                   | Ok bs => Ok bs
                   | Throw _ => Throw "MULTISIG_SCHEMA_VIOLATION"
                   end;
  let digest := sha256 canonicalBytes in
  _ ← check (Nat.eqb (length digest) 32) "MULTISIG_MERKLE_ROOT_INVALID";
  mret digest.

(** ** The tree *)

(** One round of the [while] loop: pair neighbours, promote an odd last node. *)
Fixpoint next_level (current : list bytes) : list bytes :=
  match current with
  | l :: r :: rest => sha256 (l ++ r) :: next_level rest
  | _ => current
  end.

(** The [while] loop; each round at least halves the level, rounded up, so
    [fuel] rounds are enough for a level of at most [fuel] nodes. *)
Fixpoint build_levels (fuel : nat) (current : list bytes) : list (list bytes) :=
  if Nat.leb (length current) 1 then [current]
  else match fuel with
       | O => [current]
       | S fuel' => current :: build_levels fuel' (next_level current)
       end.

(** The audit path of node [idx] of the first level: siblings and directions,
    0 for a sibling on the left. *)
Fixpoint path_segments (levels : list (list bytes)) (idx : nat) : list (bytes * Z) :=
  match levels with
  | currentLevel :: (_ :: _) as rest =>
      let isRightChild := Nat.eqb (idx mod 2) 1 in
      let siblingIdx := if isRightChild then (idx - 1)%nat else (idx + 1)%nat in
      let segment :=
        match currentLevel !! siblingIdx with
        | Some sibling => [(sibling, if isRightChild then 0 else 1)]
        | None => []
        end in
      segment ++ path_segments rest (idx / 2)
  | _ => []
  end.

Definition path_bytes (segments : list (bytes * Z)) : bytes :=
  concat ((λ seg, seg.1 ++ [seg.2]) <$> segments).

Definition buildMerkleTree (leaves : list bytes) : res (bytes * list bytes) :=
  _ ← check (negb (Nat.eqb (length leaves) 0)) "MULTISIG_MERKLE_ROOT_INVALID";
  _ ← check (forallb (λ leaf, Nat.eqb (length leaf) 32) leaves) "MULTISIG_MERKLE_ROOT_INVALID";
  match leaves with
  | [onlyLeaf] => Ok (onlyLeaf, [[]])
  | _ =>
      let levels := build_levels (length leaves) leaves in
      match last levels with
      | Some (root :: _) =>
          Ok (root, imap (λ leafIdx _, path_bytes (path_segments levels leafIdx)) leaves)
      | _ => Throw "MULTISIG_MERKLE_ROOT_INVALID"
      end
  end.

Definition encodeMerklePath (pathBytes : bytes) : string := toBase64Url pathBytes.

Definition decodeMerklePath (pathStr : string) : res bytes :=
  match fromBase64Url pathStr with
  | Ok bs => Ok bs
  | Throw _ => Throw "MULTISIG_MERKLE_PATH_INVALID"
  end.

(** ** Verification *)

(** XOR the bytes, OR the differences. *)
Definition constantTimeEquals (a b : bytes) : bool :=
  Nat.eqb (length a) (length b)
  && (foldl (λ diff ab, Z.lor diff (Z.lxor ab.1 ab.2)) 0 (zip a b) =? 0).

(** The loop over the 33-byte segments of a path. *)
Fixpoint run_path (segmentCount : nat) (path : bytes) (currentHash : bytes) : res bytes :=
  match segmentCount with
  | O => Ok currentHash
  | S n =>
      let siblingHash := take 32 path in
      match path !! 32%nat with
      | Some 0 => run_path n (drop 33 path) (sha256 (siblingHash ++ currentHash))
      | Some 1 => run_path n (drop 33 path) (sha256 (currentHash ++ siblingHash))
      | _ => Throw "MULTISIG_MERKLE_PATH_INVALID"
      end
  end.

Definition verifyMerkleInclusion (leaf pathBytes expectedRoot : bytes) : res bool :=
  _ ← check (Nat.eqb (length leaf) 32) "MULTISIG_MERKLE_PATH_INVALID";
  _ ← check (Nat.eqb (length expectedRoot) 32) "MULTISIG_MERKLE_ROOT_INVALID";
  _ ← check (Nat.eqb (length pathBytes mod 33) 0) "MULTISIG_MERKLE_PATH_INVALID";
  if Nat.eqb (length pathBytes) 0 then mret (constantTimeEquals leaf expectedRoot)
  else
    currentHash ← run_path (length pathBytes / 33) pathBytes leaf;
    mret (constantTimeEquals currentHash expectedRoot).

(** The byte strings the tree and a path give to SHA-256. *)
Fixpoint level_inputs (current : list bytes) : list bytes :=
  match current with
  | l :: r :: rest => (l ++ r) :: level_inputs rest
  | _ => []
  end.
Definition tree_inputs (leaves : list bytes) : list bytes :=
  concat (level_inputs <$> build_levels (length leaves) leaves).

Fixpoint path_inputs (segmentCount : nat) (path : bytes) (currentHash : bytes) : list bytes :=
  match segmentCount with
  | O => []
  | S n =>
      let combined := match path !! 32%nat with
                      | Some 0 => take 32 path ++ currentHash
                      | _ => currentHash ++ take 32 path
                      end in
      combined :: path_inputs n (drop 33 path) (sha256 combined)
  end.
End merkle.

(** ** Comparison in constant time is equality *)

Lemma lor_fold_zero (l : list (Z * Z)) acc :
  foldl (λ diff ab, Z.lor diff (Z.lxor ab.1 ab.2)) acc l = 0
  ↔ acc = 0 ∧ ∀ ab, ab ∈ l → ab.1 = ab.2.
Proof.
  revert acc. induction l as [|[a b] l IH]; intros acc; cbn [foldl].
  - split; [by intros ->; split; [|intros ? ?%elem_of_nil]|by intros [-> _]].
  - rewrite IH, Z.lor_eq_0_iff, Z.lxor_eq_0_iff. setoid_rewrite elem_of_cons. naive_solver.
Qed.

Lemma constantTimeEquals_spec a b : constantTimeEquals a b = true ↔ a = b.
Proof.
  unfold constantTimeEquals. rewrite andb_true_iff, Nat.eqb_eq, Z.eqb_eq, lor_fold_zero. split.
  - intros [L [_ E]]. revert b L E. induction a as [|x a IH]; intros [|y b] L E; try done.
    f_equal; [apply (E (x, y)); left|]. apply IH; [simpl in L; lia|]. intros ab Hab. apply E. by right.
  - intros ->. split; [done|]. split; [done|]. induction b as [|x b IH]; [by intros ? ?%elem_of_nil|].
    intros ab [->|Hab]%elem_of_cons; [done|auto].
Qed.

(** ** Shape of the levels *)

Lemma list_pair_ind {A} (P : list A → Prop) :
  P [] → (∀ x, P [x]) → (∀ x y l, P l → P (x :: y :: l)) → ∀ l, P l.
Proof.
  intros H0 H1 H2. fix IH 1. intros [|x [|y l]]; [done|done|]. apply H2, IH.
Qed.

Section levels.
Context `{PrimitiveLaws}.

Definition digest (h : bytes) : Prop := Forall is_byte h ∧ length h = 32%nat.

Lemma next_level_length l : length (next_level l) = ((length l + 1) / 2)%nat.
Proof.
  induction l as [| |x y l IH] using list_pair_ind; [done|done|].
  cbn [next_level length]. rewrite IH.
  replace (S (S (length l)) + 1)%nat with (length l + 1 + 1 * 2)%nat by lia.
  rewrite Nat.div_add by lia. lia.
Qed.

Lemma next_level_shrinks l : (1 < length l)%nat → (0 < length (next_level l) < length l)%nat.
Proof.
  intros Hl. rewrite next_level_length. split; [apply Nat.div_str_pos; lia|].
  apply Nat.Div0.div_lt_upper_bound. lia.
Qed.

Lemma next_level_digest l : Forall digest l → Forall digest (next_level l).
Proof.
  induction l as [| |x y l IH] using list_pair_ind; intros Hl; [done|done|]. cbn [next_level].
  apply Forall_cons in Hl as [_ [_ Hl]%Forall_cons]. constructor; [apply sha256_bytes|auto].
Qed.

(** Node [i] goes to node [i / 2]: hashed with its sibling, or promoted. *)
Lemma next_level_lookup l i h :
  l !! i = Some h →
  next_level l !! (i / 2)%nat = Some
    (if Nat.eqb (i mod 2) 1
     then match l !! (i - 1)%nat with Some sib => sha256 (sib ++ h) | None => h end
     else match l !! (i + 1)%nat with Some sib => sha256 (h ++ sib) | None => h end).
Proof.
  revert i. induction l as [|x|x y l IH] using list_pair_ind; intros i Hi; [done| |].
  - destruct i as [|i]; [|done]. injection Hi as ->. done.
  - destruct i as [|[|i]]; [injection Hi as ->; done|injection Hi as ->; done|].
    change ((x :: y :: l) !! S (S i)) with (l !! i) in Hi. specialize (IH i Hi).
    replace (S (S i)) with (i + 1 * 2)%nat by lia.
    rewrite Nat.div_add, Nat.Div0.mod_add by lia. rewrite Nat.add_1_r. cbn [next_level].
    change ((?a :: ?b) !! S (i / 2)) with (b !! (i / 2)%nat). rewrite IH. f_equal.
    destruct (Nat.eqb_spec (i mod 2) 1) as [E|_].
    + destruct i as [|i]; [done|].
      replace (S i + 1 * 2 - 1)%nat with (S (S (S i - 1))) by lia. done.
    + replace (i + 1 * 2 + 1)%nat with (S (S (i + 1))) by lia. done.
Qed.

(** The [while] loop ends with a single root. *)
Lemma build_levels_root fuel l :
  (0 < length l <= fuel)%nat → ∃ root, last (build_levels fuel l) = Some [root].
Proof.
  revert l. induction fuel as [|fuel IH]; intros l Hl; [lia|]. cbn [build_levels].
  destruct (Nat.leb_spec (length l) 1) as [Hs|Hb].
  - destruct l as [|x [|]]; simpl in *; [lia|by exists x|lia].
  - pose proof (next_level_shrinks l Hb) as Hn.
    destruct (IH (next_level l) ltac:(lia)) as [root Hr]. exists root.
    rewrite last_cons, Hr. done.
Qed.

Lemma build_levels_head fuel l : head (build_levels fuel l) = Some l.
Proof. destruct fuel; simpl; by destruct (Nat.leb _ _). Qed.

(** ** Honest paths verify *)

Lemma path_bytes_length segs :
  Forall (λ seg, length seg.1 = 32%nat) segs → length (path_bytes segs) = (33 * length segs)%nat.
Proof.
  induction 1 as [|[s d] segs Hs _ IH]; [done|]. unfold path_bytes in *. cbn in *.
  rewrite !length_app, IH. simpl in *. lia.
Qed.

Lemma run_path_cons n s d segs cur :
  length s = 32%nat → d = 0 ∨ d = 1 →
  run_path (S n) (path_bytes ((s, d) :: segs)) cur
  = run_path n (path_bytes segs) (if d =? 0 then sha256 (s ++ cur) else sha256 (cur ++ s)).
Proof.
  intros Hs Hd. unfold path_bytes. rewrite fmap_cons. cbn [concat fst snd run_path].
  rewrite <- app_assoc. cbn [app].
  rewrite take_app_length' by done. rewrite lookup_app_r, Hs by lia. cbn.
  replace 33%nat with (length s + 1)%nat by lia. rewrite drop_app_add. cbn [drop].
  by destruct Hd as [-> | ->].
Qed.

Lemma path_segments_shape fuel l idx :
  Forall digest l →
  Forall (λ seg, digest seg.1 ∧ (seg.2 = 0 ∨ seg.2 = 1)) (path_segments (build_levels fuel l) idx).
Proof.
  revert l idx. induction fuel as [|fuel IH]; intros l idx Hl; cbn [build_levels].
  - by destruct (Nat.leb _ _).
  - destruct (Nat.leb _ _); [done|].
    specialize (IH (next_level l) (idx / 2)%nat (next_level_digest l Hl)).
    pose proof (build_levels_head fuel (next_level l)) as Hh.
    destruct (build_levels fuel (next_level l)) as [|lv lvs]; [done|]. cbn [path_segments].
    apply Forall_app. split; [|done].
    destruct (l !! _) as [sib|] eqn:Hs; [|done]. constructor; [|done]. simpl.
    split; [by eapply Forall_lookup_1|]. by destruct (Nat.eqb _ _); [left|right].
Qed.

Lemma run_path_honest fuel l idx cur root :
  Forall digest l → (length l <= fuel)%nat →
  l !! idx = Some cur → last (build_levels fuel l) = Some [root] →
  let segs := path_segments (build_levels fuel l) idx in
  run_path (length segs) (path_bytes segs) cur = Ok root.
Proof.
  revert l idx cur. induction fuel as [|fuel IH]; intros l idx cur Hd Hf Hc Hr; cbn [build_levels] in *.
  - destruct l; [done|simpl in Hf; lia].
  - destruct (Nat.leb_spec (length l) 1) as [Hs|Hb].
    + destruct l as [|x [|]]; simpl in *; [done| |lia].
      destruct idx; [|by destruct idx]. injection Hc as ->. by injection Hr as ->.
    + pose proof (next_level_shrinks l Hb) as Hn.
      pose proof (next_level_lookup l idx cur Hc) as Hnext.
      rewrite last_cons in Hr.
      destruct (last (build_levels fuel (next_level l))) as [lv|] eqn:Hlast;
        [injection Hr as ->|by apply last_None in Hlast; destruct fuel; simpl in Hlast; destruct (Nat.leb _ _)].
      specialize (IH (next_level l) (idx / 2)%nat _ (next_level_digest l Hd) ltac:(lia) Hnext Hlast).
      pose proof (build_levels_head fuel (next_level l)) as Hh.
      destruct (build_levels fuel (next_level l)) as [|lv lvs]; [done|]. cbn [path_segments].
      destruct (Nat.eqb (idx mod 2) 1) eqn:Ep.
      * destruct (l !! (idx - 1)%nat) as [sib|] eqn:Es; [|done].
        cbn [app length]. rewrite run_path_cons; [done| |by left].
        by destruct (Forall_lookup_1 _ _ _ _ Hd Es).
      * destruct (l !! (idx + 1)%nat) as [sib|] eqn:Es; [|done].
        cbn [app length]. rewrite run_path_cons; [done| |by right].
        by destruct (Forall_lookup_1 _ _ _ _ Hd Es).
Qed.
End levels.

(** ** Only committed leaves verify *)

Section sound.
Context `{PrimitiveLaws}.

(** A SHA-256 collision between two lists of inputs. *)
Definition colliding_inputs (xs ys : list bytes) : Prop :=
  ∃ x y, x ∈ xs ∧ y ∈ ys ∧ x ≠ y ∧ sha256 x = sha256 y.

Lemma next_level_origin l h :
  h ∈ next_level l → h ∈ l ∨ ∃ a b, a ∈ l ∧ b ∈ l ∧ h = sha256 (a ++ b) ∧ a ++ b ∈ level_inputs l.
Proof.
  induction l as [|x|x y l IH] using list_pair_ind; [auto|auto|]. cbn [next_level level_inputs].
  rewrite elem_of_cons. intros [->|Hh].
  - right. exists x, y. repeat constructor.
  - destruct (IH Hh) as [?|(a & b & ? & ? & -> & ?)]; [left; by do 2 right|].
    right. exists a, b. split_and!; [by do 2 right..|done|by right].
Qed.

(** Every node of the tree is a leaf or the hash of two nodes. *)
Lemma node_origin fuel l h :
  h ∈ concat (build_levels fuel l) →
  h ∈ l ∨ ∃ a b, a ∈ concat (build_levels fuel l) ∧ b ∈ concat (build_levels fuel l)
              ∧ h = sha256 (a ++ b) ∧ a ++ b ∈ concat (level_inputs <$> build_levels fuel l).
Proof.
  revert l. induction fuel as [|fuel IH]; intros l; cbn [build_levels].
  - destruct (Nat.leb _ _); cbn; rewrite app_nil_r; auto.
  - destruct (Nat.leb _ _); cbn; [rewrite app_nil_r; auto|].
    rewrite elem_of_app. intros [?|Hh]; [by left|].
    destruct (IH _ Hh) as [[?|(a & b & Ha & Hb & -> & Hin)]%next_level_origin|(a & b & Ha & Hb & -> & Hin)].
    + by left.
    + right. exists a, b. rewrite !elem_of_app. auto.
    + right. exists a, b. rewrite !elem_of_app. auto.
Qed.

Lemma build_levels_digest fuel l h :
  Forall digest l → h ∈ concat (build_levels fuel l) → digest h.
Proof.
  intros Hl [?|(a & b & _ & _ & -> & _)]%node_origin; [|apply sha256_bytes].
  by eapply Forall_forall.
Qed.

Lemma last_in_concat (ls : list (list bytes)) l h : last ls = Some l → h ∈ l → h ∈ concat ls.
Proof.
  intros (ls' & ->)%last_Some Hh. rewrite concat_app, elem_of_app. right. simpl. by rewrite app_nil_r.
Qed.

Context (pres : list bytes) (Hpres : Forall (λ p, length p ≠ 64%nat) pres).
Let leaves := sha256 <$> pres.
Let nodes := concat (build_levels (length leaves) leaves).

Lemma leaves_digest : Forall digest leaves.
Proof. apply Forall_fmap, Forall_true. intros p. apply sha256_bytes. Qed.

(** The hash of two 32-byte strings that is a node pairs two nodes. *)
Lemma node_children x y :
  length x = 32%nat → length y = 32%nat → sha256 (x ++ y) ∈ nodes →
  (x ∈ nodes ∧ y ∈ nodes) ∨ colliding_inputs (pres ++ tree_inputs leaves) [x ++ y].
Proof.
  intros Lx Ly [Hleaf|(a & b & Ha & Hb & E & Hin)]%node_origin.
  - right. apply list_elem_of_fmap in Hleaf as (p & E & Hp). exists p, (x ++ y).
    rewrite elem_of_app, list_elem_of_singleton. split_and!; [by left|done| |done].
    intros ->. rewrite Forall_forall in Hpres. apply (Hpres _ Hp). rewrite length_app. lia.
  - destruct (decide (a ++ b = x ++ y)) as [Eab|Nab].
    + left. apply app_inj_1 in Eab as [-> ->]; [done|].
      destruct (build_levels_digest _ _ _ leaves_digest Ha). lia.
    + right. exists (a ++ b), (x ++ y). rewrite elem_of_app, list_elem_of_singleton. auto.
Qed.

Lemma colliding_weaken xs ys zs : ys ⊆ zs → colliding_inputs xs ys → colliding_inputs xs zs.
Proof. intros Hs (x & y & ? & ? & ? & ?). exists x, y. auto. Qed.

Lemma run_path_sound n path cur h :
  length cur = 32%nat → length path = (33 * n)%nat →
  run_path n path cur = Ok h → h ∈ nodes →
  cur ∈ nodes ∨ colliding_inputs (pres ++ tree_inputs leaves) (path_inputs n path cur).
Proof.
  revert path cur. induction n as [|n IH]; intros path cur Lc Lp; cbn [run_path path_inputs].
  { intros [= ->] ?. by left. }
  assert (length (take 32 path) = 32%nat) as Ls by (rewrite length_take; lia).
  assert (length (drop 33 path) = (33 * n)%nat) as Ld by (rewrite length_drop; lia).
  intros Hrun Hh.
  destruct (path !! 32%nat) as [d|] eqn:Hd; [|done].
  assert (∀ x y, length x = 32%nat → length y = 32%nat → cur = x ∨ cur = y →
            run_path n (drop 33 path) (sha256 (x ++ y)) = Ok h →
            cur ∈ nodes ∨ colliding_inputs (pres ++ tree_inputs leaves)
              ((x ++ y) :: path_inputs n (drop 33 path) (sha256 (x ++ y)))) as Hstep.
  { intros x y Lx Ly Hxy Hr.
    destruct (IH _ _ (proj2 (sha256_bytes _)) Ld Hr Hh) as [Hn|Hc].
    - destruct (node_children x y Lx Ly Hn) as [[? ?]|Hc]; [left; by destruct Hxy as [-> | ->]|].
      right. eapply colliding_weaken; [|exact Hc]. intros z ->%list_elem_of_singleton. left.
    - right. eapply colliding_weaken; [|exact Hc]. intros z ?. by right. }
  destruct d as [|[| |]|]; try done; by apply Hstep; auto.
Qed.
End sound.

Section theorems.
Context `{PrimitiveLaws}.

Lemma buildMerkleTree_ok leaves root paths :
  buildMerkleTree leaves = Ok (root, paths) →
  Forall (λ l, length l = 32%nat) leaves
  ∧ last (build_levels (length leaves) leaves) = Some [root]
  ∧ paths = imap (λ i _, path_bytes (path_segments (build_levels (length leaves) leaves) i)) leaves.
Proof.
  unfold buildMerkleTree. intros ([] & H1%check_ok & Hk)%res_bind_ok.
  apply res_bind_ok in Hk as ([] & H2%check_ok & Hk).
  assert (Forall (λ l, length l = 32%nat) leaves) as HF.
  { apply Forall_forall. intros l Hl. rewrite forallb_elem_of in H2. by apply Nat.eqb_eq, H2. }
  split; [done|]. destruct leaves as [|l1 [|l2 ls]]; [done|by injection Hk as <- <-|].
  set (leaves := l1 :: l2 :: ls) in *.
  destruct (build_levels_root (length leaves) leaves) as [r Hr]; [simpl; lia|].
  rewrite Hr in *. by injection Hk as <- <-.
Qed.

Lemma tree_opens leaves :
  leaves ≠ [] → Forall digest leaves →
  ∃ root paths, buildMerkleTree leaves = Ok (root, paths)
    ∧ length paths = length leaves
    ∧ ∀ i leaf path, leaves !! i = Some leaf → paths !! i = Some path →
        verifyMerkleInclusion leaf path root = Ok true.
Proof.
  intros Hne Hd. destruct (build_levels_root (length leaves) leaves) as [root Hr].
  { destruct leaves; simpl; [done|lia]. }
  assert (∃ paths, buildMerkleTree leaves = Ok (root, paths)) as [paths Hb].
  { unfold buildMerkleTree.
    assert (forallb (λ leaf, (length leaf =? 32)%nat) leaves = true) as Hf.
    { apply forallb_elem_of. intros l Hl. apply Nat.eqb_eq. rewrite Forall_forall in Hd. by apply Hd. }
    destruct leaves as [|l1 [|l2 ls]]; [done| |].
    - injection Hr as ->. rewrite Hf. by eexists.
    - eexists. apply res_bind_ok. exists tt. split; [done|].
      apply res_bind_ok. exists tt. split; [by apply check_ok|]. rewrite Hr. done. }
  exists root, paths. split; [done|]. apply buildMerkleTree_ok in Hb as (_ & _ & ->).
  split; [apply length_imap|]. intros i leaf path Hi. rewrite list_lookup_imap, Hi. intros [= <-].
  set (segs := path_segments (build_levels (length leaves) leaves) i).
  assert (Forall (λ seg, digest seg.1 ∧ (seg.2 = 0 ∨ seg.2 = 1)) segs) as Hsh by by apply path_segments_shape.
  assert (length (path_bytes segs) = (33 * length segs)%nat) as HL.
  { apply path_bytes_length. eapply Forall_impl; [exact Hsh|]. by intros ? [[] ?]. }
  pose proof (run_path_honest (length leaves) leaves i leaf root Hd ltac:(lia) Hi Hr) as Hrun.
  unfold verifyMerkleInclusion.
  assert (length leaf = 32%nat) as -> by by destruct (Forall_lookup_1 _ _ _ _ Hd Hi).
  assert (length root = 32%nat) as ->.
  { apply (build_levels_digest (length leaves) leaves root Hd).
    eapply last_in_concat; [exact Hr|]. left. }
  rewrite HL, (Nat.mul_comm 33), Nat.Div0.mod_mul, Nat.div_mul by lia. cbn [Nat.eqb check mbind res_bind mret res_ret].
  fold segs in Hrun. cbn zeta in Hrun. destruct segs as [|seg segs].
  - cbn in *. injection Hrun as ->. f_equal. by apply constantTimeEquals_spec.
  - rewrite Hrun. cbn [length Nat.mul Nat.add Nat.eqb mbind res_bind]. f_equal. by apply constantTimeEquals_spec.
Qed.

(** C27.  Every commitment can be opened.  [buildMerkleTree] ends with a root for
    every non-empty list of SHA-256 digests, gives one audit path per leaf, and
    [verifyMerkleInclusion] accepts each leaf with its path. *)
Theorem merkle_complete leaves :
  leaves ≠ [] → Forall digest leaves →
  ∃ root paths, buildMerkleTree leaves = Ok (root, paths)
    ∧ length paths = length leaves
    ∧ ∀ i leaf path, leaves !! i = Some leaf → paths !! i = Some path →
        verifyMerkleInclusion leaf path root = Ok true.
Proof. apply tree_opens. Qed.

Lemma opening_committed pres pre path root paths :
  Forall (λ p, length p ≠ 64%nat) pres → length pre ≠ 64%nat →
  buildMerkleTree (sha256 <$> pres) = Ok (root, paths) →
  verifyMerkleInclusion (sha256 pre) path root = Ok true →
  pre ∈ pres
  ∨ colliding_inputs (pres ++ tree_inputs (sha256 <$> pres))
      (pre :: path_inputs (length path / 33) path (sha256 pre)).
Proof.
  intros Hpres Hpre Hbuild Hver.
  apply buildMerkleTree_ok in Hbuild as (_ & Hlast & _).
  assert (root ∈ concat (build_levels (length (sha256 <$> pres)) (sha256 <$> pres))) as Hroot.
  { eapply last_in_concat; [exact Hlast|]. left. }
  unfold verifyMerkleInclusion in Hver.
  apply res_bind_ok in Hver as ([] & L1%check_ok%Nat.eqb_eq & Hver).
  apply res_bind_ok in Hver as ([] & _ & Hver).
  apply res_bind_ok in Hver as ([] & L3%check_ok%Nat.eqb_eq & Hver).
  assert (run_path (length path / 33) path (sha256 pre) = Ok root) as Hrun.
  { destruct (Nat.eqb_spec (length path) 0) as [->|_].
    - injection Hver as Hver%constantTimeEquals_spec. by rewrite Hver.
    - apply res_bind_ok in Hver as (h & -> & [= Hh%constantTimeEquals_spec]). by rewrite Hh. }
  assert (length path = (33 * (length path / 33))%nat) as Lp.
  { pose proof (Nat.div_mod_eq (length path) 33). lia. }
  destruct (run_path_sound pres Hpres _ path _ root L1 Lp Hrun Hroot) as [Hn|Hc].
  2: { right. eapply colliding_weaken; [|exact Hc]. intros z ?. by right. }
  apply node_origin in Hn as [(p & Ep & Hp)%list_elem_of_fmap|(a & b & Ha & Hb & E & Hin)].
  - destruct (decide (pre = p)) as [->|Hne]; [by left|right].
    exists p, pre. rewrite elem_of_app. split_and!; [by left|left|done|done].
  - right. exists (a ++ b), pre. rewrite elem_of_app. split_and!; [by right|left| |done].
    intros <-. apply Hpre. rewrite length_app.
    destruct (build_levels_digest _ _ _ (leaves_digest pres) Ha) as [_ ->].
    by destruct (build_levels_digest _ _ _ (leaves_digest pres) Hb) as [_ ->].
Qed.

(** C26.  A commitment opens to nothing else.  If the leaves of a tree and a
    claimed leaf are hashes of texts that are not 64 bytes long (the texts of
    signer leaves are longer), and some path verifies the claimed leaf under the
    root of the tree, then the claimed text is one of the committed ones, or
    the hashes computed for the tree and for the path contain a collision of
    SHA-256.  The length matters: leaves and inner nodes are hashed alike, so
    that the 64 bytes under an inner node are themselves a text that verifies. *)
Theorem merkle_sound pres pre path root paths :
  Forall (λ p, length p ≠ 64%nat) pres → length pre ≠ 64%nat →
  buildMerkleTree (sha256 <$> pres) = Ok (root, paths) →
  verifyMerkleInclusion (sha256 pre) path root = Ok true →
  pre ∈ pres
  ∨ colliding_inputs (pres ++ tree_inputs (sha256 <$> pres))
      (pre :: path_inputs (length path / 33) path (sha256 pre)).
Proof. apply opening_committed. Qed.
End theorems.
