(* ===== verification/Multisig.v ===== *)
(** * Multisig tokens

    packages/crypto/src/multisig/verify-multisig.ts,
    packages/identity/src/credentials/multisig (issuer and verifier) and the
    factory and schema of packages/types/src/multisig: tokens signed by several
    signers over one signed payload, with a Merkle commitment to the signers. *)
From S2P Require Import Prelude JsValue Time Encoding Crypto Authorization SignedPayload Merkle.

(** ** Data *)

Record SignerInfo : Type := mkSigner {
  si_id : string;
  si_role : SignerRole;
  si_publicKey : string;
  si_signature : string }.

Record MultisigInclusionProof : Type := mkInclusionProof {
  ip_signerId : string;
  ip_path : string }.

#[export] Instance SignerInfo_eq_dec : EqDecision SignerInfo.
Proof. solve_decision. Defined.
#[export] Instance MultisigInclusionProof_eq_dec : EqDecision MultisigInclusionProof.
Proof. solve_decision. Defined.

Record MultisigToken : Type := mkMultisigToken {
  ms_multisigVersion : string;
  ms_threshold : num;
  ms_signers : list SignerInfo;
  ms_merkleRoot : string;
  ms_inclusionProofs : list MultisigInclusionProof;
  ms_csp : object }.

Definition MULTISIG_SUPPORTED_VERSIONS : list string := ["1.0.0"].
Definition MULTISIG_MERKLE_PATH_MAX_LENGTH : nat := 8192.
Definition MULTISIG_THRESHOLD_MAX_SANITY : Z := 1000.

Definition leaf_input (s : SignerInfo) : SignerLeafInput :=
  mkLeafInput (si_id s) (si_role s) (si_signature s).

(** ** Factories (types/src/multisig/types.ts) *)

Definition toSignerId (s : string) : res string :=
  if str_startsWith s "did:" && Nat.ltb 4 (String.length s) then Ok s
  else if UUID_V4_PATTERN s then Ok s
  else Throw "Error".

Definition toMerklePath (s : string) : res string :=
  _ ← check (negb (Nat.eqb (String.length s) 0)) "Error";
  _ ← check (Nat.leb (String.length s) MULTISIG_MERKLE_PATH_MAX_LENGTH) "Error";
  _ ← check (base64url_padded s) "Error";
  mret s.

Definition toMultisigVersion (s : string) : res string :=
  _ ← check (semver_schema s) "Error";
  _ ← check (bool_decide (s ∈ MULTISIG_SUPPORTED_VERSIONS)) "Error";
  mret s.

(** The two [map] loops of the factory, with the sets they fill. *)
Fixpoint create_signers (signerIdSet : gset string) (signers : list SignerInfo)
    : res (gset string) :=
  match signers with
  | [] => mret signerIdSet
  | rawSigner :: rest =>
      _ ← check (non_empty (si_publicKey rawSigner)) "Error";
      _ ← check (non_empty (si_signature rawSigner)) "Error";
      id ← toSignerId (si_id rawSigner);
      _ ← check (negb (bool_decide (id ∈ signerIdSet))) "Error";
      create_signers ({[id]} ∪ signerIdSet) rest
  end.

Fixpoint create_proofs (signerIdSet proofSignerIdSet : gset string)
    (proofs : list MultisigInclusionProof) : res unit :=
  match proofs with
  | [] => mret tt
  | rawProof :: rest =>
      signerId ← toSignerId (ip_signerId rawProof);
      _ ← toMerklePath (ip_path rawProof);
      _ ← check (negb (bool_decide (signerId ∈ proofSignerIdSet))) "Error";
      _ ← check (bool_decide (signerId ∈ signerIdSet)) "Error";
      create_proofs signerIdSet ({[signerId]} ∪ proofSignerIdSet) rest
  end.

(** The factory checks its input and returns it. *)
Definition createMultisigToken (input : MultisigToken) : res MultisigToken :=
  _ ← toMultisigVersion (ms_multisigVersion input);
  _ ← check (is_finite (ms_threshold input)) "Error";
  _ ← check (negb (num_ltb (ms_threshold input) (Fin 1))) "Error";
  _ ← check (negb (num_gtb (ms_threshold input) (Fin MULTISIG_THRESHOLD_MAX_SANITY))) "Error";
  _ ← check (negb (num_ltb (Fin (Z.of_nat (length (ms_signers input)))) (ms_threshold input))) "Error";
  signerIdSet ← create_signers ∅ (ms_signers input);
  _ ← check (non_empty (ms_merkleRoot input)) "Error";
  _ ← check (Nat.eqb (length (ms_inclusionProofs input)) (length (ms_signers input))) "Error";
  _ ← create_proofs signerIdSet ∅ (ms_inclusionProofs input);
  mret input.

(** ** Schema (multisig-token-v0.1.schema.json) *)

Definition signer_id_schema (s : string) : bool := str_startsWith s "did:" || uuid_v4 s.

Definition validateMultisigToken `{Formats} (t : MultisigToken) : bool :=
  String.eqb (ms_multisigVersion t) "1.0.0"
  && is_finite (ms_threshold t) && num_leb (Fin 1) (ms_threshold t)
  && negb (Nat.eqb (length (ms_signers t)) 0) && bool_decide (NoDup (ms_signers t))
  && forallb (λ s, signer_id_schema (si_id s) && non_empty (si_publicKey s)
                   && non_empty (si_signature s)) (ms_signers t)
  && base64url_padded (ms_merkleRoot t)
  && negb (Nat.eqb (length (ms_inclusionProofs t)) 0) && bool_decide (NoDup (ms_inclusionProofs t))
  && forallb (λ p, non_empty (ip_signerId p)
                   && Nat.leb (String.length (ip_path p)) MULTISIG_MERKLE_PATH_MAX_LENGTH
                   && base64url_padded (ip_path p)) (ms_inclusionProofs t)
  && validateCspPayload (ms_csp t).

Section multisig.
Context `{Primitives} `{Formats}.

(** ** [verifyMultisigProof] *)

Definition assertSignerSignature (signature : string) : res bytes :=
  _ ← check (non_empty signature) "MULTISIG_PARTIAL_SIGNED_REJECTED";
  assertDecoded "MULTISIG_SIGNATURE_INVALID" (λ n, Nat.eqb n 64) signature.

Definition assertSignerPublicKey (publicKey : string) : res bytes :=
  _ ← check (non_empty publicKey) "MULTISIG_SIGNATURE_INVALID";
  assertDecoded "MULTISIG_SIGNATURE_INVALID" (λ n, Nat.eqb n 32) publicKey.

Definition decodeMerkleRoot (merkleRoot : string) : res bytes :=
  _ ← check (non_empty merkleRoot) "MULTISIG_MERKLE_ROOT_INVALID";
  assertDecoded "MULTISIG_MERKLE_ROOT_INVALID" (λ n, Nat.eqb n 32) merkleRoot.

(** Step 3: signer ids are non-empty and distinct. *)
Fixpoint check_signer_ids (signerIdSet : gset string) (signers : list SignerInfo)
    : res (gset string) :=
  match signers with
  | [] => mret signerIdSet
  | signer :: rest =>
      _ ← check (non_empty (si_id signer)) "MULTISIG_SIGNER_ID_INVALID";
      _ ← check (negb (bool_decide (si_id signer ∈ signerIdSet))) "MULTISIG_SIGNER_DUPLICATE";
      check_signer_ids ({[si_id signer]} ∪ signerIdSet) rest
  end.

(** Step 4: the proofs, by signer. *)
Fixpoint build_proofMap (signerIdSet : gset string) (proofMap : list (string * string))
    (proofs : list MultisigInclusionProof) : res (list (string * string)) :=
  match proofs with
  | [] => mret proofMap
  | proof :: rest =>
      _ ← check (non_empty (ip_signerId proof)) "MULTISIG_INCLUSION_PROOF_MISSING";
      _ ← check (non_empty (ip_path proof)) "MULTISIG_MERKLE_PATH_INVALID";
      _ ← check (bool_decide (map_get (ip_signerId proof) proofMap = None))
            "MULTISIG_INCLUSION_PROOF_MISSING";
      _ ← check (bool_decide (ip_signerId proof ∈ signerIdSet)) "MULTISIG_INCLUSION_PROOF_MISSING";
      build_proofMap signerIdSet (map_set (ip_signerId proof) (ip_path proof) proofMap) rest
  end.

(** Step 6, for one signer. *)
Definition verify_signer (proofMap : list (string * string)) (merkleRootBytes signedBytes : bytes)
    (signer : SignerInfo) : res unit :=
  signatureBytes ← assertSignerSignature (si_signature signer);
  publicKeyBytes ← assertSignerPublicKey (si_publicKey signer);
  leaf ← generateMerkleLeaf (leaf_input signer);
  pathStr ← match map_get (si_id signer) proofMap with
            | Some p => Ok p
            | None => Throw "MULTISIG_INCLUSION_PROOF_MISSING"
            end;
  pathBytes ← decodeMerklePath pathStr;
  inclusionValid ← verifyMerkleInclusion leaf pathBytes merkleRootBytes;
  _ ← check inclusionValid "MULTISIG_MERKLE_ROOT_INVALID";
  check (bool_decide (ed25519_verify signatureBytes signedBytes publicKeyBytes = Some true))
    "MULTISIG_SIGNATURE_INVALID".

Fixpoint verify_signers (proofMap : list (string * string)) (merkleRootBytes signedBytes : bytes)
    (validCount : Z) (signers : list SignerInfo) : res Z :=
  match signers with
  | [] => mret validCount
  | signer :: rest =>
      _ ← verify_signer proofMap merkleRootBytes signedBytes signer;
      verify_signers proofMap merkleRootBytes signedBytes (validCount + 1) rest
  end.

(** The result is [validCount] and [threshold]; every failure throws. *)
Definition verifyMultisigProof (token : MultisigToken) (enforceFullSchema : bool)
    (cspSignedBytes : option bytes) : res (Z * num) :=
  let signerCount := Fin (Z.of_nat (length (ms_signers token))) in
  _ ← check (negb enforceFullSchema || validateMultisigToken token) "MULTISIG_SCHEMA_VIOLATION";
  _ ← check (String.eqb (ms_multisigVersion token) "1.0.0") "MULTISIG_VERSION_UNSUPPORTED";
  _ ← check (is_finite (ms_threshold token) && negb (num_ltb (ms_threshold token) (Fin 1)))
        "MULTISIG_THRESHOLD_INVALID";
  _ ← check (negb (num_ltb signerCount (ms_threshold token))) "MULTISIG_SIGNERS_INSUFFICIENT";
  _ ← check (negb (num_gtb (ms_threshold token) signerCount)) "MULTISIG_THRESHOLD_INVALID";
  signerIdSet ← check_signer_ids ∅ (ms_signers token);
  _ ← check (Nat.eqb (length (ms_inclusionProofs token)) (length (ms_signers token)))
        "MULTISIG_INCLUSION_PROOF_MISSING";
  proofMap ← build_proofMap signerIdSet [] (ms_inclusionProofs token);
  merkleRootBytes ← decodeMerkleRoot (ms_merkleRoot token);
  signedBytes ← match cspSignedBytes with
                | Some bs => Ok bs
                | None => match canonicalSerialize (ms_csp token) with
                          | Ok bs => Ok bs
                          | Throw _ => Throw "MULTISIG_SCHEMA_VIOLATION"
                          end
                end;
  validCount ← verify_signers proofMap merkleRootBytes signedBytes 0 (ms_signers token);
  _ ← check (negb (num_ltb (Fin validCount) (ms_threshold token))) "MULTISIG_QUORUM_INSUFFICIENT";
  mret (validCount, ms_threshold token).

(** ** [verifyMultisigToken] *)

Record VerifyMultisigTokenOptions : Type := mkMultisigOptions {
  mo_expectedAudience : string;
  mo_expectedChallenge : string;
  mo_now : Z;
  mo_minValidityWindowMs : Z;
  mo_enforceFullSchema : bool }.

(** A string property of the payload that is strictly equal to a value. *)
Definition require_field (v : option value) (expected code_type code : string) : res unit :=
  match v with
  | Some (VStr s) => check (String.eqb s expected) code
  | _ => Throw code_type
  end.

Definition require_fresh (v : option value) (now window : Z) : res unit :=
  match v with
  | Some (VStr notAfter) =>
      match iso_getTime notAfter with
      | Some t => check (negb (t <=? now + window)) "MULTISIG_SCHEMA_VIOLATION"
      | None => Throw "MULTISIG_SCHEMA_VIOLATION"
      end
  | _ => Throw "MULTISIG_SCHEMA_VIOLATION"
  end.

Definition verifyMultisigToken (token : MultisigToken) (opts : VerifyMultisigTokenOptions)
    : res (Z * num) :=
  _ ← check (non_empty (mo_expectedAudience opts)) "MULTISIG_SCHEMA_VIOLATION";
  _ ← check (non_empty (mo_expectedChallenge opts)) "MULTISIG_CHALLENGE_INVALID";
  _ ← require_field (map_get "challenge" (ms_csp token)) (mo_expectedChallenge opts)
        "MULTISIG_CHALLENGE_INVALID" "MULTISIG_CHALLENGE_INVALID";
  _ ← require_field (map_get "audience" (ms_csp token)) (mo_expectedAudience opts)
        "MULTISIG_SCHEMA_VIOLATION" "MULTISIG_SCHEMA_VIOLATION";
  _ ← require_fresh (map_get "notAfter" (ms_csp token)) (mo_now opts) (mo_minValidityWindowMs opts);
  cspSignedBytes ← match canonicalSerialize (ms_csp token) with
                   | Ok bs => Ok bs
                   | Throw _ => Throw "MULTISIG_SCHEMA_VIOLATION"
                   end;
  verifyMultisigProof token (mo_enforceFullSchema opts) (Some cspSignedBytes).

(** ** [issueMultisigToken] *)

Record SignerKeyMaterial : Type := mkKeyMaterial {
  km_id : string;
  km_role : SignerRole;
  km_publicKey : string;
  km_privateKey : string }.

Record IssueMultisigTokenInput : Type := mkIssueMultisig {
  im_signers : list SignerKeyMaterial;
  im_threshold : num;
  im_csp : object;
  im_merkleRootEncoding : encoding }.

(** Step 1: the signers' ids and keys. *)
Fixpoint check_key_material (signerIdSet : gset string) (signers : list SignerKeyMaterial) : res unit :=
  match signers with
  | [] => mret tt
  | signer :: rest =>
      _ ← check (non_empty (km_id signer)) "MULTISIG_SIGNER_ID_INVALID";
      _ ← check (negb (bool_decide (km_id signer ∈ signerIdSet))) "MULTISIG_SIGNER_DUPLICATE";
      _ ← check (non_empty (km_publicKey signer)) "MULTISIG_SIGNATURE_INVALID";
      _ ← check (non_empty (km_privateKey signer)) "MULTISIG_SIGNATURE_INVALID";
      check_key_material ({[km_id signer]} ∪ signerIdSet) rest
  end.

Definition signSignerEd25519 (message : bytes) (privateKey : string) : res string :=
  match sign message privateKey enc_hex with
  | Ok s => Ok s
  | Throw _ => Throw "MULTISIG_SIGNATURE_INVALID"
  end.

(** [l.map(f)] for a function that may throw. *)
Fixpoint map_res {A B} (f : A → res B) (l : list A) : res (list B) :=
  match l with
  | [] => mret []
  | x :: l' => y ← f x; ys ← map_res f l'; mret (y :: ys)
  end.

(** Step 5.3: count the signatures that verify. *)
Fixpoint count_valid (signedBytes : bytes) (validCount : Z) (signers : list (SignerKeyMaterial * string))
    : res Z :=
  match signers with
  | [] => mret validCount
  | (signer, signature) :: rest =>
      valid ← match verify signedBytes signature (km_publicKey signer) with
              | Ok b => Ok b
              | Throw _ => Throw "MULTISIG_SIGNATURE_INVALID"
              end;
      count_valid signedBytes (if valid : bool then validCount + 1 else validCount) rest
  end.

Definition signed_signer (ks : SignerKeyMaterial * string) : SignerInfo :=
  mkSigner (km_id ks.1) (km_role ks.1) (km_publicKey ks.1) ks.2.

Definition issueMultisigToken (input : IssueMultisigTokenInput) : res MultisigToken :=
  let signers := im_signers input in
  _ ← check (negb (Nat.eqb (length signers) 0)) "MULTISIG_SIGNERS_INSUFFICIENT";
  _ ← check (is_finite (im_threshold input) && negb (num_ltb (im_threshold input) (Fin 1)))
        "MULTISIG_THRESHOLD_INVALID";
  _ ← check (negb (num_ltb (Fin (Z.of_nat (length signers))) (im_threshold input)))
        "MULTISIG_SIGNERS_INSUFFICIENT";
  _ ← check_key_material ∅ signers;
  signedBytes ← match canonicalSerialize (im_csp input) with
                | Ok bs => Ok bs
                | Throw _ => Throw "MULTISIG_SCHEMA_VIOLATION"
                end;
  signatures ← map_res (λ signer, signSignerEd25519 signedBytes (km_privateKey signer)) signers;
  validCount ← count_valid signedBytes 0 (zip signers signatures);
  _ ← check (negb (num_ltb (Fin validCount) (im_threshold input))) "MULTISIG_QUORUM_INSUFFICIENT";
  let signersForToken := signed_signer <$> zip signers signatures in
  leaves ← map_res (λ s, generateMerkleLeaf (leaf_input s)) signersForToken;
  '(root, paths) ← buildMerkleTree leaves;
  createMultisigToken
    (mkMultisigToken "1.0.0" (im_threshold input) signersForToken
       (match im_merkleRootEncoding input with enc_base64url => toBase64Url root | enc_hex => toHex root end)
       (zip_with (λ s p, mkInclusionProof (si_id s) (encodeMerklePath p)) signersForToken paths)
       (im_csp input)).
End multisig.

(** ** Lemmas *)

(** The length of decoded text. *)
Lemma hex_pairs_length l : (length (hex_pairs l) <= length l)%nat.
Proof. induction l as [| |x y l IH] using list_pair_ind; simpl; lia. Qed.

Lemma list_quad_ind {A} (P : list A → Prop) :
  P [] → (∀ x, P [x]) → (∀ x y, P [x; y]) → (∀ x y z, P [x; y; z]) →
  (∀ x y z t l, P l → P (x :: y :: z :: t :: l)) → ∀ l, P l.
Proof.
  intros H0 H1 H2 H3 H4. fix IH 1. intros [|x [|y [|z [|t l]]]]; [exact H0|apply H1|apply H2|apply H3|apply H4, IH].
Qed.

Lemma b64_decode_length l : (length (b64_decode l) <= length l)%nat.
Proof. induction l using list_quad_ind; simpl; lia. Qed.

Lemma strip_padding_length l : (length (strip_padding l) <= length l)%nat.
Proof.
  unfold strip_padding. rewrite length_reverse, <- (length_reverse l).
  induction (reverse l) as [|c l' IH]; simpl; [lia|]. destruct (Ascii.eqb _ _); simpl; lia.
Qed.

Lemma normalizeKey_length s bs : normalizeKey s = Ok bs → (length bs <= String.length s)%nat.
Proof.
  unfold normalizeKey, fromHex, fromBase64Url. rewrite <- length_chars.
  destruct (detectEncoding s).
  - destruct (Nat.eqb _ 0); [intros [= <-]; simpl; lia|]. destruct (_ || _); [done|].
    intros [= <-]. apply hex_pairs_length.
  - destruct (Nat.eqb _ 0); [intros [= <-]; simpl; lia|]. destruct (negb _); [done|].
    destruct (Nat.eqb _ 1); [done|]. intros [= <-].
    etransitivity; [apply b64_decode_length|apply strip_padding_length].
Qed.

Lemma check_signer_ids_ok seen l ids :
  check_signer_ids seen l = Ok ids →
  NoDup (si_id <$> l) ∧ (∀ s, s ∈ l → si_id s ∉ seen) ∧ (∀ s, s ∈ l → si_id s ≠ "")
  ∧ ids = list_to_set (si_id <$> l) ∪ seen.
Proof.
  revert seen. induction l as [|s l IH]; intros seen; cbn [check_signer_ids].
  { intros [= <-]. split_and!; [constructor|by intros ? ?%elem_of_nil..|]. set_solver. }
  intros ([] & H1%check_ok & Hk)%res_bind_ok. apply res_bind_ok in Hk as ([] & H2%check_ok & Hk).
  unfold non_empty in H1. reflect_bools. apply IH in Hk as (Hd & Hs & Hn & ->).
  rewrite fmap_cons. split_and!.
  - constructor; [|done]. intros (s' & E & Hs')%list_elem_of_fmap. apply Hs in Hs'. set_solver.
  - intros s' [->|Hs']%elem_of_cons; [done|]. apply Hs in Hs'. set_solver.
  - intros s' [->|Hs']%elem_of_cons; auto.
  - cbn. set_solver.
Qed.

Lemma build_proofMap_ok ids start l m id p :
  build_proofMap ids start l = Ok m → map_get id m = Some p →
  map_get id start = Some p ∨ mkInclusionProof id p ∈ l.
Proof.
  revert start. induction l as [|q l IH]; intros start; cbn [build_proofMap].
  { intros [= ->]. by left. }
  intros ([] & _ & Hk)%res_bind_ok. apply res_bind_ok in Hk as ([] & _ & Hk).
  apply res_bind_ok in Hk as ([] & _ & Hk). apply res_bind_ok in Hk as ([] & _ & Hk).
  intros Hm. destruct (IH _ Hk Hm) as [Hs|?]; [|by right; right].
  rewrite map_get_set in Hs. destruct (String.eqb_spec (ip_signerId q) id) as [<-|]; [|by left].
  injection Hs as <-. right. destruct q. left.
Qed.

Section lemmas.
Context `{PrimitiveLaws} `{Fm : Formats}.

(** The text a leaf hashes. *)
Definition leaf_text (i : SignerLeafInput) : bytes := textEncode (jcs (VObj (leaf_json i))).

Lemma leaf_text_inj i1 i2 : leaf_text i1 = leaf_text i2 → i1 = i2.
Proof.
  intros E%textEncode_inj%jcs_inj; [|done..]. destruct i1 as [id1 [] s1], i2 as [id2 [] s2]; simpl in E; by simplify_eq.
Qed.

Lemma textEncode_length s : length (textEncode s) = String.length s.
Proof. unfold textEncode. by rewrite length_fmap, length_chars. Qed.

(** Leaves of genuine signatures hash more than 64 bytes. *)
Lemma leaf_text_length i : (64 <= String.length (li_signature i))%nat → (64 < length (leaf_text i))%nat.
Proof.
  intros Hs. unfold leaf_text. rewrite textEncode_length.
  eapply Nat.le_lt_trans; [exact Hs|]. apply (jcs_member_length _ "signature"). do 2 right. left.
Qed.

Lemma generateMerkleLeaf_ok i leaf :
  generateMerkleLeaf i = Ok leaf ↔ li_id i ≠ "" ∧ li_signature i ≠ "" ∧ leaf = sha256 (leaf_text i).
Proof.
  unfold generateMerkleLeaf, non_empty. split.
  - intros ([] & H1%check_ok & Hk)%res_bind_ok. apply res_bind_ok in Hk as ([] & H2%check_ok & Hk).
    apply res_bind_ok in Hk as (bs & Hbs & Hk). apply res_bind_ok in Hk as ([] & _ & [= <-]).
    reflect_bools. by injection Hbs as <-.
  - intros (H1 & H2 & ->).
    apply res_bind_ok. exists tt. split; [by apply check_ok, negb_true_iff, String.eqb_neq|].
    apply res_bind_ok. exists tt. split; [by apply check_ok, negb_true_iff, String.eqb_neq|].
    apply res_bind_ok. exists (leaf_text i). split; [done|].
    apply res_bind_ok. exists tt. split; [|done].
    apply check_ok. by rewrite (proj2 (sha256_bytes _)).
Qed.

(** What the verification of one signer establishes. *)
Record signer_verified (proofMap : list (string * string)) (root signedBytes : bytes) (s : SignerInfo)
    : Prop := {
  sv_signature : ∃ sig pk, normalizeKey (si_signature s) = Ok sig ∧ length sig = 64%nat
    ∧ normalizeKey (si_publicKey s) = Ok pk ∧ length pk = 32%nat
    ∧ ed25519_verify sig signedBytes pk = Some true;
  sv_inclusion : ∃ p path, map_get (si_id s) proofMap = Some p ∧ fromBase64Url p = Ok path
    ∧ verifyMerkleInclusion (sha256 (leaf_text (leaf_input s))) path root = Ok true }.

Lemma verify_signer_ok proofMap root bs s :
  verify_signer proofMap root bs s = Ok tt → signer_verified proofMap root bs s.
Proof.
  unfold verify_signer, assertSignerSignature, assertSignerPublicKey.
  intros (sig & Hsig & Hk)%res_bind_ok. apply res_bind_ok in Hk as (pk & Hpk & Hk).
  apply res_bind_ok in Hsig as ([] & _ & [E1 L1%Nat.eqb_eq]%assertDecoded_ok).
  apply res_bind_ok in Hpk as ([] & _ & [E2 L2%Nat.eqb_eq]%assertDecoded_ok).
  apply res_bind_ok in Hk as (leaf & (_ & _ & ->)%generateMerkleLeaf_ok & Hk).
  apply res_bind_ok in Hk as (p & Hp & Hk). apply res_bind_ok in Hk as (path & Hpath & Hk).
  apply res_bind_ok in Hk as (ok & Hi & Hk).
  apply res_bind_ok in Hk as ([] & ->%check_ok & Hk%check_ok%bool_decide_eq_true).
  split; [by exists sig, pk|].
  destruct (map_get (si_id s) proofMap) as [p'|]; [injection Hp as ->|done]. exists p, path.
  unfold decodeMerklePath in Hpath. destruct (fromBase64Url p) as [b|]; [injection Hpath as ->|]; done.
Qed.

Lemma verify_signers_ok proofMap root bs n l c :
  verify_signers proofMap root bs n l = Ok c →
  c = n + Z.of_nat (length l) ∧ ∀ s, s ∈ l → signer_verified proofMap root bs s.
Proof.
  revert n. induction l as [|s l IH]; intros n; cbn [verify_signers].
  { intros [= <-]. split; [simpl; lia|by intros ? ?%elem_of_nil]. }
  intros ([] & Hs%verify_signer_ok & [-> Hl]%IH)%res_bind_ok.
  split; [simpl; lia|]. intros s' [->|?]%elem_of_cons; auto.
Qed.

Record proof_accepted (t : MultisigToken) (signedBytes root : bytes) (n : Z)
    (proofMap : list (string * string)) : Prop := {
  pa_threshold : ms_threshold t = Fin n ∧ 1 <= n <= Z.of_nat (length (ms_signers t));
  pa_distinct : NoDup (si_id <$> ms_signers t);
  pa_root : normalizeKey (ms_merkleRoot t) = Ok root ∧ length root = 32%nat;
  pa_proofs id p : map_get id proofMap = Some p → mkInclusionProof id p ∈ ms_inclusionProofs t;
  pa_signers s : s ∈ ms_signers t → signer_verified proofMap root signedBytes s }.

Lemma verifyMultisigProof_ok t enforce signedBytes c n :
  verifyMultisigProof t enforce (Some signedBytes) = Ok (c, n) →
  c = Z.of_nat (length (ms_signers t)) ∧ n = ms_threshold t
  ∧ ∃ root k proofMap, proof_accepted t signedBytes root k proofMap.
Proof.
  unfold verifyMultisigProof.
  intros ([] & _ & Hk)%res_bind_ok. apply res_bind_ok in Hk as ([] & _ & Hk).
  apply res_bind_ok in Hk as ([] & Ht%check_ok & Hk). apply res_bind_ok in Hk as ([] & Hm%check_ok & Hk).
  apply res_bind_ok in Hk as ([] & _ & Hk).
  apply res_bind_ok in Hk as (ids & (Hd & _ & _ & _)%check_signer_ids_ok & Hk).
  apply res_bind_ok in Hk as ([] & _ & Hk). apply res_bind_ok in Hk as (pm & Hpm & Hk).
  apply res_bind_ok in Hk as (root & Hroot & Hk). apply res_bind_ok in Hk as (sb & [= <-] & Hk).
  apply res_bind_ok in Hk as (vc & [-> Hs]%verify_signers_ok & Hk).
  apply res_bind_ok in Hk as ([] & _ & [= <- <-]). split_and!; [lia|done|].
  unfold decodeMerkleRoot in Hroot.
  apply res_bind_ok in Hroot as ([] & _ & [Er Lr%Nat.eqb_eq]%assertDecoded_ok).
  destruct (ms_threshold t) as [| | |k] eqn:Et; try done. simpl in Ht, Hm. reflect_bools.
  exists root, k, pm. split; try done.
  intros id p Hp. by destruct (build_proofMap_ok _ _ _ _ _ _ Hpm Hp).
Qed.
End lemmas.

(** ** Issued tokens *)

Lemma map_res_ok {A B} (f : A → res B) l ys :
  map_res f l = Ok ys ↔ Forall2 (λ x y, f x = Ok y) l ys.
Proof.
  revert ys. induction l as [|x l IH]; intros ys; cbn [map_res].
  - split; [intros [= <-]; constructor|by intros ->%Forall2_nil_inv_l].
  - split.
    + intros (y & Hy & Hk)%res_bind_ok. apply res_bind_ok in Hk as (ys' & Hys & [= <-]).
      constructor; [done|]. by apply IH.
    + intros (y & ys' & Hy & Hys & ->)%Forall2_cons_inv_l.
      apply res_bind_ok. exists y. split; [done|]. apply res_bind_ok. exists ys'. by rewrite IH.
Qed.

Lemma create_signers_ok seen l ids :
  create_signers seen l = Ok ids →
  NoDup (si_id <$> l) ∧ (∀ s, s ∈ l → si_id s ∉ seen)
  ∧ ∀ s, s ∈ l → si_id s ≠ "" ∧ si_publicKey s ≠ "" ∧ si_signature s ≠ "".
Proof.
  revert seen. induction l as [|s l IH]; intros seen; cbn [create_signers].
  { intros _. split_and!; [constructor|by intros ? ?%elem_of_nil..]. }
  intros ([] & H1%check_ok & Hk)%res_bind_ok. apply res_bind_ok in Hk as ([] & H2%check_ok & Hk).
  apply res_bind_ok in Hk as (id & Hid & Hk). apply res_bind_ok in Hk as ([] & H3%check_ok & Hk).
  assert (id = si_id s ∧ si_id s ≠ "") as [-> Hne].
  { unfold toSignerId in Hid. destruct (si_id s) as [|a i]; [done|].
    split; [|done]. destruct (_ && _); [by injection Hid|].
    destruct (UUID_V4_PATTERN _); [by injection Hid|done]. }
  unfold non_empty in *. reflect_bools. apply IH in Hk as (Hd & Hs & Hn). rewrite fmap_cons. split_and!.
  - constructor; [|done]. intros (s' & E & Hs')%list_elem_of_fmap. apply Hs in Hs'. set_solver.
  - intros s' [->|Hs']%elem_of_cons; [done|]. apply Hs in Hs'. set_solver.
  - intros s' [->|Hs']%elem_of_cons; auto.
Qed.

Lemma create_proofs_ok ids seen l u :
  create_proofs ids seen l = Ok u →
  Forall (λ p, (0 < String.length (ip_path p) <= MULTISIG_MERKLE_PATH_MAX_LENGTH)%nat
               ∧ base64url_padded (ip_path p) = true) l.
Proof.
  revert seen. induction l as [|p l IH]; intros seen; cbn [create_proofs]; [constructor|].
  intros (id & _ & Hk)%res_bind_ok. apply res_bind_ok in Hk as (path & Hp & Hk).
  apply res_bind_ok in Hk as ([] & _ & Hk). apply res_bind_ok in Hk as ([] & _ & Hk).
  constructor; [|by eapply IH]. unfold toMerklePath in Hp.
  apply res_bind_ok in Hp as ([] & H1%check_ok & Hp). apply res_bind_ok in Hp as ([] & H2%check_ok & Hp).
  apply res_bind_ok in Hp as ([] & H3%check_ok & _). apply negb_true_iff, Nat.eqb_neq in H1.
  apply Nat.leb_le in H2. split; [lia|done].
Qed.

(** What the factory has checked. *)
Record well_formed (t : MultisigToken) (n : Z) : Prop := {
  wf_version : ms_multisigVersion t = "1.0.0";
  wf_threshold : ms_threshold t = Fin n ∧ 1 <= n <= Z.of_nat (length (ms_signers t));
  wf_distinct : NoDup (si_id <$> ms_signers t);
  wf_signers s : s ∈ ms_signers t → si_id s ≠ "" ∧ si_publicKey s ≠ "" ∧ si_signature s ≠ "";
  wf_proofs : length (ms_inclusionProofs t) = length (ms_signers t);
  wf_paths : Forall (λ p, (0 < String.length (ip_path p) <= MULTISIG_MERKLE_PATH_MAX_LENGTH)%nat
                          ∧ base64url_padded (ip_path p) = true) (ms_inclusionProofs t) }.

Lemma createMultisigToken_ok t t' :
  createMultisigToken t = Ok t' → t' = t ∧ ∃ n, well_formed t n.
Proof.
  unfold createMultisigToken. intros (v & Hv & Hk)%res_bind_ok.
  apply res_bind_ok in Hk as ([] & H1%check_ok & Hk). apply res_bind_ok in Hk as ([] & H2%check_ok & Hk).
  apply res_bind_ok in Hk as ([] & _ & Hk). apply res_bind_ok in Hk as ([] & H3%check_ok & Hk).
  apply res_bind_ok in Hk as (ids & (Hd & _ & Hs)%create_signers_ok & Hk).
  apply res_bind_ok in Hk as ([] & _ & Hk). apply res_bind_ok in Hk as ([] & H4%check_ok%Nat.eqb_eq & Hk).
  apply res_bind_ok in Hk as (u & Hp%create_proofs_ok & [= <-]). split; [done|].
  destruct (ms_threshold t) as [| | |n] eqn:Et; try done. simpl in H2, H3. reflect_bools.
  exists n. split; try done. unfold toMultisigVersion in Hv.
  apply res_bind_ok in Hv as ([] & _ & Hv). apply res_bind_ok in Hv as ([] & Hv%check_ok & _).
  apply bool_decide_eq_true in Hv. by apply list_elem_of_singleton in Hv.
Qed.

(** ** Verification succeeds *)

Lemma check_signer_ids_intro seen l :
  NoDup (si_id <$> l) → (∀ s, s ∈ l → si_id s ∉ seen ∧ si_id s ≠ "") →
  ∃ ids, check_signer_ids seen l = Ok ids ∧ ∀ s, s ∈ l → si_id s ∈ ids.
Proof.
  revert seen. induction l as [|s l IH]; intros seen Hd Hs; cbn [check_signer_ids].
  { exists seen. split; [done|by intros ? ?%elem_of_nil]. }
  rewrite fmap_cons in Hd. apply NoDup_cons in Hd as [Hnot Hd].
  destruct (Hs s ltac:(left)) as [Hn Hne].
  destruct (IH ({[si_id s]} ∪ seen)) as (ids & Hc & Hin); [done| |].
  { intros s' Hs'. destruct (Hs s' ltac:(by right)) as [? ?]. split; [|done].
    rewrite elem_of_union, elem_of_singleton. intros [E|?]; [|done].
    apply Hnot. rewrite <- E. by apply list_elem_of_fmap_2. }
  exists ids. split.
  - apply res_bind_ok. exists tt. split; [by apply check_ok, negb_true_iff, String.eqb_neq|].
    apply res_bind_ok. exists tt. split; [|done]. by apply check_ok, negb_true_iff, bool_decide_eq_false.
  - intros s' [->|?]%elem_of_cons; [|auto].
    apply check_signer_ids_ok in Hc as (_ & _ & _ & ->). set_solver.
Qed.

Definition proof_entry (p : MultisigInclusionProof) : string * string := (ip_signerId p, ip_path p).

Lemma build_proofMap_intro ids start l :
  NoDup (ip_signerId <$> l) →
  (∀ p, p ∈ l → map_get (ip_signerId p) start = None ∧ ip_signerId p ∈ ids
                ∧ ip_signerId p ≠ "" ∧ ip_path p ≠ "") →
  build_proofMap ids start l = Ok (start ++ (proof_entry <$> l)).
Proof.
  revert start. induction l as [|p l IH]; intros start Hd Hp; cbn [build_proofMap].
  { by rewrite app_nil_r. }
  rewrite fmap_cons in Hd. apply NoDup_cons in Hd as [Hnot Hd].
  destruct (Hp p ltac:(left)) as (H1 & H2 & H3 & H4).
  apply res_bind_ok. exists tt. split; [by apply check_ok, negb_true_iff, String.eqb_neq|].
  apply res_bind_ok. exists tt. split; [by apply check_ok, negb_true_iff, String.eqb_neq|].
  apply res_bind_ok. exists tt. split; [by apply check_ok, bool_decide_eq_true|].
  apply res_bind_ok. exists tt. split; [by apply check_ok, bool_decide_eq_true|].
  rewrite map_set_fresh by done. rewrite IH; [by rewrite <- app_assoc|done|].
  intros q Hq. destruct (Hp q ltac:(by right)) as (E & ? & ? & ?). split_and!; try done.
  rewrite map_get_app, E. cbn [map_get]. destruct (String.eqb_spec (ip_signerId p) (ip_signerId q)) as [Eq|]; [|done].
  destruct Hnot. rewrite Eq. by apply list_elem_of_fmap_2.
Qed.

Lemma verify_signers_intro `{Primitives} pm root bs n l :
  (∀ s, s ∈ l → verify_signer pm root bs s = Ok tt) →
  verify_signers pm root bs n l = Ok (n + Z.of_nat (length l)).
Proof.
  revert n. induction l as [|s l IH]; intros n Hs; cbn [verify_signers].
  { simpl. by rewrite Z.add_0_r. }
  apply res_bind_ok. exists tt. split; [apply Hs; left|]. rewrite IH; [f_equal; simpl; lia|].
  intros s' ?. apply Hs. by right.
Qed.

Section theorems.
Context `{PrimitiveLaws} `{Fm : Formats}.

Lemma require_field_ok v e c1 c2 : require_field v e c1 c2 = Ok tt ↔ v = Some (VStr e).
Proof. destruct v as [[| | | |s| |]|]; simpl; rewrite ?check_ok, ?String.eqb_eq; naive_solver. Qed.

Lemma require_fresh_ok v now window :
  require_fresh v now window = Ok tt
  ↔ ∃ notAfter t, v = Some (VStr notAfter) ∧ iso_getTime notAfter = Some t ∧ now + window < t.
Proof.
  destruct v as [[| | | |s| |]|]; simpl; try naive_solver.
  destruct (iso_getTime s) as [t|] eqn:Et; [|naive_solver].
  rewrite check_ok, negb_true_iff, Z.leb_gt. naive_solver.
Qed.

(** The payload of a token is the one the verifier asked for. *)
Record payload_bound (csp : object) (opts : VerifyMultisigTokenOptions) : Prop := {
  pb_challenge : map_get "challenge" csp = Some (VStr (mo_expectedChallenge opts));
  pb_audience : map_get "audience" csp = Some (VStr (mo_expectedAudience opts));
  pb_fresh : ∃ notAfter t, map_get "notAfter" csp = Some (VStr notAfter) ∧ iso_getTime notAfter = Some t
    ∧ mo_now opts + mo_minValidityWindowMs opts < t }.

Lemma verifyMultisigToken_ok t opts r :
  verifyMultisigToken t opts = Ok r ↔
  mo_expectedAudience opts ≠ "" ∧ mo_expectedChallenge opts ≠ "" ∧ payload_bound (ms_csp t) opts
  ∧ assertSerializable (VObj (ms_csp t)) = true
  ∧ verifyMultisigProof t (mo_enforceFullSchema opts) (Some (textEncode (jcs (VObj (ms_csp t))))) = Ok r.
Proof.
  unfold verifyMultisigToken, non_empty. split.
  - intros ([] & H1%check_ok & Hk)%res_bind_ok. apply res_bind_ok in Hk as ([] & H2%check_ok & Hk).
    apply res_bind_ok in Hk as ([] & H3%require_field_ok & Hk).
    apply res_bind_ok in Hk as ([] & H4%require_field_ok & Hk).
    apply res_bind_ok in Hk as ([] & H5%require_fresh_ok & Hk).
    apply res_bind_ok in Hk as (bs & Hbs & Hk). unfold canonicalSerialize in Hbs.
    destruct (assertSerializable _); [injection Hbs as <-|done]. by reflect_bools.
  - intros (H1 & H2 & [H3 H4 H5] & H6 & Hk).
    apply res_bind_ok. exists tt. split; [by apply check_ok, negb_true_iff, String.eqb_neq|].
    apply res_bind_ok. exists tt. split; [by apply check_ok, negb_true_iff, String.eqb_neq|].
    apply res_bind_ok. exists tt. split; [by apply require_field_ok|].
    apply res_bind_ok. exists tt. split; [by apply require_field_ok|].
    apply res_bind_ok. exists tt. split; [by apply require_fresh_ok|].
    apply res_bind_ok. eexists. split; [unfold canonicalSerialize; by rewrite H6|done].
Qed.

(** An accepted multisig token is signed by all of its signers.  Its payload
    carries the verifier's challenge and audience and is fresh; its signer ids
    are distinct and at least as many as the threshold; and every signer, not
    only a threshold of them, has a valid Ed25519 signature over the canonical
    payload and an inclusion proof under the Merkle root. *)
Theorem multisig_accepted t opts c n :
  verifyMultisigToken t opts = Ok (c, n) →
  payload_bound (ms_csp t) opts ∧ c = Z.of_nat (length (ms_signers t)) ∧ n = ms_threshold t
  ∧ ∃ root k proofMap, proof_accepted t (textEncode (jcs (VObj (ms_csp t)))) root k proofMap.
Proof. intros (_ & _ & Hb & _ & Hv%verifyMultisigProof_ok)%verifyMultisigToken_ok. done. Qed.

Lemma leaves_texts inputs leaves :
  Forall2 (λ i leaf, generateMerkleLeaf i = Ok leaf) inputs leaves →
  leaves = sha256 <$> (leaf_text <$> inputs).
Proof.
  induction 1 as [|i leaf inputs ls Hi _ IH]; [done|].
  apply generateMerkleLeaf_ok in Hi as (_ & _ & ->). by rewrite !fmap_cons, IH.
Qed.

(** The root fixes the signers.  If the root of an accepted token is the
    root an issuer computed for a list of signer leaves (with signatures of at
    least 64 characters, as hex and base64url signatures are), then each signer
    of the token, with its role and its signature, is in that list, unless the
    hashes of the tree and of the signer's path contain a SHA-256 collision. *)
Theorem multisig_committed t opts r committed leaves root paths s :
  verifyMultisigToken t opts = Ok r →
  Forall (λ i, (64 <= String.length (li_signature i))%nat) committed →
  map_res generateMerkleLeaf committed = Ok leaves →
  buildMerkleTree leaves = Ok (root, paths) →
  normalizeKey (ms_merkleRoot t) = Ok root →
  s ∈ ms_signers t →
  leaf_input s ∈ committed
  ∨ ∃ p path, mkInclusionProof (si_id s) p ∈ ms_inclusionProofs t ∧ fromBase64Url p = Ok path
      ∧ colliding_inputs ((leaf_text <$> committed) ++ tree_inputs leaves)
          (leaf_text (leaf_input s)
           :: path_inputs (length path / 33) path (sha256 (leaf_text (leaf_input s)))).
Proof.
  intros (_ & _ & _ & _ & Hv)%verifyMultisigToken_ok HL Hleaves Hbuild Hroot Hs. destruct r as [c n].
  apply verifyMultisigProof_ok in Hv as (_ & _ & root' & k & pm & Hpa).
  destruct (pa_signers _ _ _ _ _ Hpa s Hs) as [(sig & pk & Esig & Lsig & _) (p & path & Ep & Epath & Hi)].
  destruct (pa_root _ _ _ _ _ Hpa) as [Er _]. assert (root' = root) as -> by congruence.
  apply map_res_ok, leaves_texts in Hleaves as ->.
  assert ((64 <= String.length (si_signature s))%nat) as Ls.
  { rewrite <- Lsig. by apply normalizeKey_length. }
  destruct (opening_committed (leaf_text <$> committed) (leaf_text (leaf_input s)) path root paths)
    as [Hin|Hc]; try done.
  - apply Forall_fmap. eapply Forall_impl; [exact HL|]. intros i Hl%leaf_text_length. simpl. lia.
  - pose proof (leaf_text_length (leaf_input s) Ls). lia.
  - left. apply list_elem_of_fmap in Hin as (i & ->%leaf_text_inj & Hin). done.
  - right. exists p, path. split_and!; try done. by apply (pa_proofs _ _ _ _ _ Hpa).
Qed.

(** ** From the issuer to the verifier *)

(** A signer's key material: the public key belongs to the private key. *)
Definition genuine (k : SignerKeyMaterial) : Prop :=
  ∃ kb, normalizeKey (km_privateKey k) = Ok kb ∧ normalizeKey (km_publicKey k) = Ok (ed25519_pub (take 32 kb)).

Lemma issue_ok input t :
  issueMultisigToken input = Ok t →
  ∃ signatures leaves root paths n,
    let bs := textEncode (jcs (VObj (im_csp input))) in
    let signers := signed_signer <$> zip (im_signers input) signatures in
    assertSerializable (VObj (im_csp input)) = true
    ∧ Forall2 (λ k sig, signSignerEd25519 bs (km_privateKey k) = Ok sig) (im_signers input) signatures
    ∧ Forall2 (λ s leaf, generateMerkleLeaf (leaf_input s) = Ok leaf) signers leaves
    ∧ buildMerkleTree leaves = Ok (root, paths)
    ∧ t = mkMultisigToken "1.0.0" (im_threshold input) signers
            (match im_merkleRootEncoding input with
             | enc_base64url => toBase64Url root | enc_hex => toHex root end)
            (zip_with (λ s p, mkInclusionProof (si_id s) (encodeMerklePath p)) signers paths) (im_csp input)
    ∧ well_formed t n.
Proof.
  unfold issueMultisigToken. intros ([] & _ & Hk)%res_bind_ok.
  apply res_bind_ok in Hk as ([] & _ & Hk). apply res_bind_ok in Hk as ([] & _ & Hk).
  apply res_bind_ok in Hk as ([] & _ & Hk). apply res_bind_ok in Hk as (bs & Hbs & Hk).
  unfold canonicalSerialize in Hbs. destruct (assertSerializable _) eqn:Hser; [injection Hbs as <-|done].
  apply res_bind_ok in Hk as (sigs & Hsigs%map_res_ok & Hk).
  apply res_bind_ok in Hk as (vc & _ & Hk). apply res_bind_ok in Hk as ([] & _ & Hk).
  apply res_bind_ok in Hk as (leaves & Hl%map_res_ok & Hk).
  apply res_bind_ok in Hk as ([root paths] & Hb & [-> [n Hwf]]%createMultisigToken_ok).
  by exists sigs, leaves, root, paths, n.
Qed.

Lemma sign_hex bs k sig :
  genuine k → signSignerEd25519 bs (km_privateKey k) = Ok sig →
  ∃ raw pk, normalizeKey sig = Ok raw ∧ length raw = 64%nat
    ∧ normalizeKey (km_publicKey k) = Ok pk ∧ length pk = 32%nat ∧ ed25519_verify raw bs pk = Some true.
Proof.
  intros (kb & Ekb & Epk). unfold signSignerEd25519.
  destruct (sign bs (km_privateKey k) enc_hex) as [s|] eqn:Es; [intros [= <-]|done].
  unfold sign, assertPrivateKey in Es.
  apply res_bind_ok in Es as (kb' & [Ekb' Lkb]%assertDecoded_ok & [= <-]).
  assert (kb' = kb) as -> by congruence.
  destruct (ed25519_sign_bytes bs (take 32 kb)) as [Hb Hl].
  exists (ed25519_sign bs (take 32 kb)), (ed25519_pub (take 32 kb)).
  split_and!; [by apply normalizeKey_toHex|done|done|apply ed25519_pub_bytes|].
  apply ed25519_complete. rewrite length_take. apply orb_true_iff in Lkb as [L%Nat.eqb_eq|L%Nat.eqb_eq]; lia.
Qed.

Lemma verify_signer_intro pm root bs s raw pk p path :
  si_id s ≠ "" → si_signature s ≠ "" → si_publicKey s ≠ "" →
  normalizeKey (si_signature s) = Ok raw → length raw = 64%nat →
  normalizeKey (si_publicKey s) = Ok pk → length pk = 32%nat → ed25519_verify raw bs pk = Some true →
  map_get (si_id s) pm = Some p → fromBase64Url p = Ok path →
  verifyMerkleInclusion (sha256 (leaf_text (leaf_input s))) path root = Ok true →
  verify_signer pm root bs s = Ok tt.
Proof.
  intros N1 N2 N3 E1 L1 E2 L2 Hv Hp Hpath Hi. unfold verify_signer, assertSignerSignature, assertSignerPublicKey.
  apply res_bind_ok. exists raw. split.
  { apply res_bind_ok. exists tt. split; [by apply check_ok, negb_true_iff, String.eqb_neq|].
    apply assertDecoded_ok. by rewrite L1. }
  apply res_bind_ok. exists pk. split.
  { apply res_bind_ok. exists tt. split; [by apply check_ok, negb_true_iff, String.eqb_neq|].
    apply assertDecoded_ok. by rewrite L2. }
  apply res_bind_ok. eexists. split; [by apply generateMerkleLeaf_ok|].
  apply res_bind_ok. exists p. split; [by rewrite Hp|].
  apply res_bind_ok. exists path. split; [unfold decodeMerklePath; by rewrite Hpath|].
  apply res_bind_ok. exists true. split; [done|]. apply res_bind_ok. exists tt. split; [done|].
  by apply check_ok, bool_decide_eq_true.
Qed.

(** Text of the base64url alphabet passes the pattern. *)
Lemma base64url_padded_intro l :
  l ≠ [] → Forall (λ c, is_b64 c = true ∧ c ≠ "="%char) l → base64url_padded (str l) = true.
Proof.
  intros Hne [Hb Hp]%Forall_and. unfold base64url_padded. rewrite chars_str, strip_padding_id by done.
  destruct l as [|c l]; [done|]. apply andb_true_iff. split; [done|].
  apply forallb_elem_of. by apply Forall_forall.
Qed.

Lemma hex_b64_unpadded c : is_hex c = true → is_b64 c = true ∧ c ≠ "="%char.
Proof. destruct c as [[] [] [] [] [] [] [] []]; vm_compute; intros; split; congruence. Qed.

Lemma root_text root e :
  digest root →
  let s := match e with enc_base64url => toBase64Url root | enc_hex => toHex root end in
  base64url_padded s = true ∧ decodeMerkleRoot s = Ok root.
Proof.
  intros [Hb Hl]. unfold decodeMerkleRoot.
  assert (∀ s, s ≠ "" → normalizeKey s = Ok root →
    (_ ← check (non_empty s) "MULTISIG_MERKLE_ROOT_INVALID";
     assertDecoded "MULTISIG_MERKLE_ROOT_INVALID" (λ n, Nat.eqb n 32) s) = Ok root) as Hdec.
  { intros s Hs Hn. apply res_bind_ok. exists tt.
    split; [by apply check_ok, negb_true_iff, String.eqb_neq|]. apply assertDecoded_ok. by rewrite Hl. }
  destruct root as [|b root]; [done|]. destruct e.
  - split; [|by apply Hdec; [|by apply normalizeKey_toHex]]. apply base64url_padded_intro; [done|].
    destruct (hex_pairs_concat _ Hb) as [_ Hx]. rewrite forallb_elem_of in Hx.
    apply Forall_forall. intros c Hc. by apply hex_b64_unpadded, Hx.
  - split.
    + apply base64url_padded_intro; [|by apply b64_encode_table].
      intros E. pose proof (b64_length (b :: root)) as L. by rewrite E, Hl in L.
    + apply Hdec; [|by apply normalizeKey_toBase64Url, toBase64Url_key_detect].
      intros E. pose proof (b64_length (b :: root)) as L.
      unfold toBase64Url in E. by rewrite <- (chars_str (b64_encode (b :: root))), E, Hl in L.
Qed.

(** The schema accepts what the factory accepts, for ids in lower case. *)
Lemma schema_accepts t n :
  well_formed t n → Forall (λ s, signer_id_schema (si_id s) = true) (ms_signers t) →
  base64url_padded (ms_merkleRoot t) = true → ip_signerId <$> ms_inclusionProofs t = si_id <$> ms_signers t →
  validateCspPayload (ms_csp t) = true → validateMultisigToken t = true.
Proof.
  intros [Hv [Et Hn] Hd Hs Hlen Hp] Hids Hroot Eids Hcsp. unfold validateMultisigToken, non_empty.
  rewrite Hv, Et, Hroot, Hcsp. rewrite !andb_true_iff.
  assert (NoDup (ip_signerId <$> ms_inclusionProofs t)) as Hdp by by rewrite Eids.
  split_and!; try done.
  - simpl. apply Z.leb_le. lia.
  - apply negb_true_iff, Nat.eqb_neq. lia.
  - apply bool_decide_eq_true. by eapply NoDup_fmap_1.
  - apply forallb_elem_of. intros s Hin. rewrite Forall_forall in Hids. rewrite (Hids s Hin).
    destruct (Hs s Hin) as (_ & ? & ?). rewrite !andb_true_iff, !negb_true_iff, !String.eqb_neq. done.
  - apply negb_true_iff, Nat.eqb_neq. lia.
  - apply bool_decide_eq_true. by eapply NoDup_fmap_1.
  - apply forallb_elem_of. intros p Hin. rewrite Forall_forall in Hp. destruct (Hp p Hin) as [[? Hle] Hb].
    assert (ip_signerId p ∈ si_id <$> ms_signers t) as (s & Es & Hins)%list_elem_of_fmap.
    { rewrite <- Eids. by apply list_elem_of_fmap_2. }
    rewrite Hb, Es. destruct (Hs s Hins) as (? & _ & _).
    rewrite !andb_true_iff, negb_true_iff, String.eqb_neq, Nat.leb_le. done.
Qed.

Lemma issued_ids (signers : list SignerInfo) (paths : list bytes) :
  length paths = length signers →
  ip_signerId <$> zip_with (λ s p, mkInclusionProof (si_id s) (encodeMerklePath p)) signers paths
  = si_id <$> signers.
Proof.
  revert paths. induction signers as [|s signers IH]; intros [|p paths] Hl; try done.
  simpl in Hl. cbn [zip_with]. rewrite !fmap_cons, IH by lia. done.
Qed.

Lemma verifyMultisigProof_intro t n enforce bs root :
  well_formed t n → (enforce = true → validateMultisigToken t = true) →
  ip_signerId <$> ms_inclusionProofs t = si_id <$> ms_signers t →
  decodeMerkleRoot (ms_merkleRoot t) = Ok root →
  (∀ s, s ∈ ms_signers t → verify_signer (proof_entry <$> ms_inclusionProofs t) root bs s = Ok tt) →
  verifyMultisigProof t enforce (Some bs) = Ok (Z.of_nat (length (ms_signers t)), Fin n).
Proof.
  intros [Hv [Et Hn] Hd Hs Hlen Hp] Hschema Eids Hroot Hver.
  destruct (check_signer_ids_intro ∅ (ms_signers t) Hd) as (ids & Hcheck & Hin).
  { intros s Hins. split; [set_solver|]. by apply Hs. }
  assert (negb (Z.of_nat (length (ms_signers t)) <? n) = true) as Hle by (apply negb_true_iff, Z.ltb_ge; lia).
  unfold verifyMultisigProof. rewrite Et, Hv.
  apply res_bind_ok. exists tt. split; [apply check_ok; destruct enforce; simpl; auto|].
  apply res_bind_ok. exists tt. split; [done|].
  apply res_bind_ok. exists tt. split; [apply check_ok; simpl; apply negb_true_iff, Z.ltb_ge; lia|].
  apply res_bind_ok. exists tt. split; [by apply check_ok|].
  apply res_bind_ok. exists tt. split; [by apply check_ok|].
  apply res_bind_ok. exists ids. split; [done|].
  apply res_bind_ok. exists tt. split; [by apply check_ok, Nat.eqb_eq|].
  apply res_bind_ok. exists ([] ++ (proof_entry <$> ms_inclusionProofs t)). split.
  { apply build_proofMap_intro; [by rewrite Eids|]. intros p Hinp. split; [done|].
    assert (ip_signerId p ∈ si_id <$> ms_signers t) as (s & Es & Hins)%list_elem_of_fmap.
    { rewrite <- Eids. by apply list_elem_of_fmap_2. }
    rewrite Es. rewrite Forall_forall in Hp. destruct (Hp p Hinp) as [[Hpos _] _].
    split_and!; [by apply Hin|by apply Hs|]. intros E. rewrite E in Hpos. simpl in Hpos. lia. }
  apply res_bind_ok. exists root. split; [done|].
  apply res_bind_ok. exists bs. split; [done|].
  apply res_bind_ok. eexists. split; [by apply verify_signers_intro|].
  apply res_bind_ok. exists tt. split; [by apply check_ok|done].
Qed.

Lemma issued_proof_lookup (signers : list SignerInfo) paths i s p :
  NoDup (si_id <$> signers) → length paths = length signers → signers !! i = Some s → paths !! i = Some p →
  map_get (si_id s)
    (proof_entry <$> zip_with (λ s p, mkInclusionProof (si_id s) (encodeMerklePath p)) signers paths)
  = Some (encodeMerklePath p).
Proof.
  intros Hd Hl Hs Hp. apply map_elem_get.
  - rewrite <- list_fmap_compose. change (fst ∘ proof_entry) with ip_signerId. by rewrite issued_ids.
  - apply list_elem_of_fmap. exists (mkInclusionProof (si_id s) (encodeMerklePath p)). split; [done|].
    apply list_elem_of_lookup. exists i. by rewrite lookup_zip_with, Hs, Hp.
Qed.

(** A byte string is the text of a path; paths are bytes. *)
Lemma path_bytes_bytes fuel l idx :
  Forall digest l → Forall is_byte (path_bytes (path_segments (build_levels fuel l) idx)).
Proof.
  intros Hl. pose proof (path_segments_shape fuel l idx Hl) as Hsh. unfold path_bytes.
  induction Hsh as [|[sib d] segs [[Hb _] Hd] _ IH]; [done|]. cbn. apply Forall_app.
  split; [|done]. apply Forall_app. split; [done|]. constructor; [|done].
  unfold is_byte. simpl in Hd. lia.
Qed.

(** Issued tokens verify.  A token issued by [issueMultisigToken], with key
    material whose public keys belong to the private keys, over a payload of the
    schema, with signer ids in the form the schema asks for, is accepted by
    [verifyMultisigToken] for every audience, challenge and time its payload
    was made for, with every signer counted. *)
Theorem multisig_issue_verify input t opts :
  issueMultisigToken input = Ok t →
  Forall genuine (im_signers input) →
  Forall (λ k, signer_id_schema (km_id k) = true) (im_signers input) →
  validateCspPayload (im_csp input) = true →
  payload_bound (im_csp input) opts → mo_expectedAudience opts ≠ "" → mo_expectedChallenge opts ≠ "" →
  verifyMultisigToken t opts = Ok (Z.of_nat (length (im_signers input)), im_threshold input).
Proof.
  intros (sigs & leaves & root & paths & n & Hser & Hsigs & Hleaves & Hbuild & -> & Hwf)%issue_ok.
  intros Hgen Hids Hcsp Hpb Ha Hc. apply verifyMultisigToken_ok. split_and!; try done. cbn [ms_csp].
  set (signers := signed_signer <$> zip (im_signers input) sigs) in *.
  assert (length signers = length (im_signers input)) as Hlen.
  { unfold signers. rewrite length_fmap, length_zip_with, (Forall2_length _ _ _ Hsigs). lia. }
  assert (leaves = sha256 <$> (leaf_text <$> (leaf_input <$> signers))) as Eleaves
    by (by apply leaves_texts, Forall2_fmap_l).
  assert (Forall digest leaves) as Hdl by (rewrite Eleaves; apply leaves_digest).
  destruct (wf_threshold _ _ Hwf) as [Et Hn]. cbn [ms_threshold ms_signers] in Et, Hn.
  pose proof (Forall2_length _ _ _ Hleaves) as Hll.
  destruct (tree_opens leaves) as (root' & paths' & Hb' & Hlp & Hinc); [|done|].
  { intros ->. simpl in Hll. lia. }
  rewrite Hbuild in Hb'. injection Hb' as <- <-.
  destruct (buildMerkleTree_ok _ _ _ Hbuild) as (_ & Hlast & Epaths).
  destruct (root_text root (im_merkleRootEncoding input)) as [Hrt Hrd].
  { eapply build_levels_digest; [exact Hdl|]. eapply last_in_concat; [exact Hlast|]. left. }
  rewrite <- Hlen. rewrite Et in Hwf |- *. eapply verifyMultisigProof_intro; [done| |apply issued_ids; by rewrite Hlp|done|].
  { intros _. eapply schema_accepts; [done| |done|apply issued_ids; by rewrite Hlp|done].
    apply Forall_fmap, Forall_forall. intros [k sig] Hin%elem_of_zip_l.
    rewrite Forall_forall in Hids. by apply Hids. }
  cbn [ms_signers ms_inclusionProofs]. intros s Hs.
  destruct (wf_signers _ _ Hwf s Hs) as (N1 & N2 & N3).
  apply list_elem_of_lookup in Hs as [i Hi].
  destruct (lookup_lt_is_Some_2 paths i) as [path Hpath]; [apply lookup_lt_Some in Hi; lia|].
  assert (leaves !! i = Some (sha256 (leaf_text (leaf_input s)))) as Hleaf
    by (by rewrite Eleaves, !list_lookup_fmap, Hi).
  assert (∃ k sig, im_signers input !! i = Some k ∧ sigs !! i = Some sig ∧ s = signed_signer (k, sig))
    as (k & sig & Hk & Hsig & ->).
  { unfold signers in Hi. rewrite list_lookup_fmap, lookup_zip_with in Hi.
    destruct (im_signers input !! i) as [k|], (sigs !! i) as [sig|]; try done.
    injection Hi as <-. by exists k, sig. }
  destruct (sign_hex _ k sig (Forall_lookup_1 _ _ _ _ Hgen Hk) (Forall2_lookup_lr _ _ _ _ _ _ Hsigs Hk Hsig))
    as (raw & pk & E1 & L1 & E2 & L2 & Hv).
  eapply verify_signer_intro; try done.
  - apply (issued_proof_lookup signers paths i); [exact (wf_distinct _ _ Hwf)|lia|done|done].
  - apply toBase64Url_fromBase64Url. rewrite Epaths, list_lookup_imap, Hleaf in Hpath.
    injection Hpath as <-. by apply path_bytes_bytes.
  - by eapply Hinc.
Qed.

(** A token with one signer is never issued, although [1 <= n <= m] allows
    one: the audit path of a single leaf is empty, and the factory refuses an
    empty path. *)
Theorem single_signer_never_issued input k :
  im_signers input = [k] → ∃ code, issueMultisigToken input = Throw code.
Proof.
  intros Ek. destruct (issueMultisigToken input) as [t|code] eqn:E; [exfalso|by exists code].
  apply issue_ok in E as (sigs & leaves & root & paths & n & _ & Hsigs & Hleaves & Hbuild & -> & Hwf).
  rewrite Ek in *. apply Forall2_cons_inv_l in Hsigs as (sig & sigs' & _ & ->%Forall2_nil_inv_l & ->).
  cbn in Hleaves. apply Forall2_cons_inv_l in Hleaves as (leaf & ls & _ & ->%Forall2_nil_inv_l & ->).
  apply buildMerkleTree_ok in Hbuild as (_ & _ & ->).
  pose proof (wf_paths _ _ Hwf) as Hp. cbn in Hp. apply Forall_cons in Hp as [[[Hpos _] _] _].
  cbn in Hpos. lia.
Qed.
End theorems.
