(* ===== verification/MultisigExamples.v ===== *)
(** * Concrete payloads and multisig tokens

    A signed payload, a Merkle tree and a two-of-three multisig token over the
    toy primitives of ToyPrimitives.v: the values at which the theorems of
    SignedPayload.v, Merkle.v and Multisig.v are applied. *)
From S2P Require Import Prelude JsValue Time Encoding Crypto ToyPrimitives Authorization.
From S2P Require Import SignedPayload Merkle Multisig.

#[export] Instance any_format : Formats := {|
  format_uuid _ := true; format_uri _ := true; format_date_time _ := true |}.

Definition ms_challenge : string := "0a1b2c3d-0a1b-4c2d-8a1b-0a1b2c3d4e5f".

Definition example_csp : object :=
  [("audience", VStr "did:agent:verifier"); ("challenge", VStr ms_challenge); ("cspVersion", VStr "1.0.0");
   ("disclosedClaims", VArr []); ("notAfter", VStr "2026-06-02T00:00:00+02:00");
   ("token", VObj
      [("capabilities", VArr [VObj [("action", VStr "CONFIRM");
                                    ("scope", VObj [("type", VStr "allowlist")])]]);
       ("expiresAt", VStr "2026-07-01T00:00:00.000Z"); ("id", VStr "urn:cap:1");
       ("issuedAt", VStr "2026-06-01T00:00:00.000Z"); ("issuedTo", VStr "did:agent:b");
       ("issuerDid", VStr "did:agent:a"); ("principalDid", VStr "did:agent:a");
       ("proof", VObj [("created", VStr "2026-06-01T00:00:00.000Z"); ("type", VStr "Ed25519Signature2026");
                       ("value", VStr "aa"); ("verificationMethod", VStr "did:agent:a#key-1")]);
       ("revocationUrl", VStr "https://revocation.example.com/x"); ("specVersion", VStr "0.1.0")])].

Definition ms_seed (n : Z) : bytes := replicate 32 n.

Definition ok_or {A} (d : A) (r : res A) : A := match r with Ok a => a | Throw _ => d end.

Definition csp_signature : string :=
  Eval vm_compute in ok_or "" (sign (textEncode (jcs (VObj example_csp))) (toHex (ms_seed 7)) enc_hex).

(** 2026-06-01T12:00:00Z *)
Definition ms_now : Z := 1780315200000.

Definition csp_options : VerifySignatureOptions :=
  mkVerifyOptions (Some "did:agent:verifier") (Some ms_challenge) (Some ms_now) 1000 true true.

Example csp_verified :
  verifySignature example_csp csp_signature (toHex (ms_seed 7)) csp_options = Ok tt.
Proof. vm_compute. reflexivity. Qed.

Definition ms_key (id : string) (n : Z) : SignerKeyMaterial :=
  mkKeyMaterial id human (toHex (ms_seed n)) (toHex (ms_seed n)).

Definition ms_input : IssueMultisigTokenInput :=
  mkIssueMultisig [ms_key "did:agent:x" 1; ms_key "did:agent:y" 2; ms_key ms_challenge 3] (Fin 2)
    example_csp enc_hex.

Definition example_multisig : MultisigToken :=
  Eval vm_compute in ok_or (mkMultisigToken "" NaN [] "" [] []) (issueMultisigToken ms_input).

Definition ms_options : VerifyMultisigTokenOptions :=
  mkMultisigOptions "did:agent:verifier" ms_challenge ms_now 1000 true.

Example multisig_verified : verifyMultisigToken example_multisig ms_options = Ok (3, Fin 2).
Proof. vm_compute. reflexivity. Qed.

(** Another challenge is refused. *)
Example multisig_replayed :
  verifyMultisigToken example_multisig (mkMultisigOptions "did:agent:verifier" "other" ms_now 1000 true)
  = Throw "MULTISIG_CHALLENGE_INVALID".
Proof. vm_compute. reflexivity. Qed.

Definition ms_leaves : list bytes := sha256 <$> [[1]; [2]; [3]; [4]; [5]].
Definition ms_tree : bytes * list bytes := Eval vm_compute in ok_or ([], []) (buildMerkleTree ms_leaves).

Lemma merkle_complete_witness :
  ∃ root paths, buildMerkleTree ms_leaves = Ok (root, paths)
    ∧ length paths = length ms_leaves
    ∧ ∀ i leaf path, ms_leaves !! i = Some leaf → paths !! i = Some path →
        verifyMerkleInclusion leaf path root = Ok true.
Proof.
  apply (merkle_complete ms_leaves); [done|].
  unfold ms_leaves. apply Forall_fmap, Forall_true. intros p. apply sha256_bytes.
Defined.

Lemma merkle_sound_witness :
  [3] ∈ [[1]; [2]; [3]; [4]; [5]]
  ∨ colliding_inputs ([[1]; [2]; [3]; [4]; [5]] ++ tree_inputs ms_leaves)
      ([3] :: path_inputs (length (nth 2 ms_tree.2 []) / 33) (nth 2 ms_tree.2 []) (sha256 [3])).
Proof.
  apply (merkle_sound [[1]; [2]; [3]; [4]; [5]] [3] (nth 2 ms_tree.2 []) ms_tree.1 ms_tree.2).
  - repeat constructor; discriminate.
  - discriminate.
  - vm_compute. reflexivity.
  - vm_compute. reflexivity.
Defined.

Lemma multisig_accepted_witness :
  payload_bound (ms_csp example_multisig) ms_options ∧ 3 = Z.of_nat (length (ms_signers example_multisig))
  ∧ Fin 2 = ms_threshold example_multisig
  ∧ ∃ root k proofMap, proof_accepted example_multisig
      (textEncode (jcs (VObj (ms_csp example_multisig)))) root k proofMap.
Proof. apply (multisig_accepted example_multisig ms_options 3 (Fin 2)). vm_compute. reflexivity. Defined.

Definition ms_committed : list SignerLeafInput := leaf_input <$> ms_signers example_multisig.
Definition ms_committed_tree : bytes * list bytes :=
  Eval vm_compute in
    ok_or ([], []) (leaves ← map_res generateMerkleLeaf ms_committed; buildMerkleTree leaves).

Definition ms_signer_x : SignerInfo :=
  Eval vm_compute in nth 0 (ms_signers example_multisig) (mkSigner "" human "" "").

Lemma multisig_committed_witness :
  leaf_input ms_signer_x ∈ ms_committed
  ∨ ∃ p path, mkInclusionProof (si_id ms_signer_x) p ∈ ms_inclusionProofs example_multisig
      ∧ fromBase64Url p = Ok path
      ∧ colliding_inputs
          ((leaf_text <$> ms_committed) ++ tree_inputs (ok_or [] (map_res generateMerkleLeaf ms_committed)))
          (leaf_text (leaf_input ms_signer_x)
           :: path_inputs (length path / 33) path (sha256 (leaf_text (leaf_input ms_signer_x)))).
Proof.
  apply (multisig_committed example_multisig ms_options (3, Fin 2) ms_committed
           (ok_or [] (map_res generateMerkleLeaf ms_committed)) ms_committed_tree.1 ms_committed_tree.2).
  - vm_compute. reflexivity.
  - unfold ms_committed, example_multisig. repeat constructor; vm_compute; lia.
  - vm_compute. reflexivity.
  - vm_compute. reflexivity.
  - vm_compute. reflexivity.
  - unfold ms_signer_x, example_multisig. left.
Defined.

Lemma multisig_issue_verify_witness :
  verifyMultisigToken example_multisig ms_options = Ok (Z.of_nat 3, Fin 2).
Proof.
  apply (multisig_issue_verify ms_input example_multisig ms_options).
  - vm_compute. reflexivity.
  - unfold ms_input. cbn [im_signers]. repeat constructor.
    + exists (ms_seed 1). split; vm_compute; reflexivity.
    + exists (ms_seed 2). split; vm_compute; reflexivity.
    + exists (ms_seed 3). split; vm_compute; reflexivity.
  - repeat constructor.
  - vm_compute. reflexivity.
  - split; [reflexivity|reflexivity|].
    exists "2026-06-02T00:00:00+02:00", 1780351200000. split; [reflexivity|].
    split; [vm_compute; reflexivity|vm_compute; reflexivity].
  - discriminate.
  - discriminate.
Defined.

Lemma single_signer_never_issued_witness :
  ∃ code, issueMultisigToken (mkIssueMultisig [ms_key "did:agent:x" 1] (Fin 1) example_csp enc_hex)
          = Throw code.
Proof.
  apply (single_signer_never_issued (mkIssueMultisig [ms_key "did:agent:x" 1] (Fin 1) example_csp enc_hex)
           (ms_key "did:agent:x" 1)).
  reflexivity.
Defined.
