(* ===== verification/SettlementRetry.v ===== *)
(** * Settlement retry

    packages/policy/src/settlement-retry/settlement-retry.ts over the ports of
    packages/types/src/settlement-retry/ports.ts, with the data and schemas of
    that directory: one call of [executeSettlementRetry] checks an operation,
    submits it to the provider and records the attempt.  Stores, provider,
    audit recorder and attempt writer work on the state [W]; the signature
    verifier, the revocation checker and the scheduler answer from a snapshot. *)
From S2P Require Import Prelude JsValue Time Encoding Crypto Authorization SignedPayload.

(** ** Data *)

Inductive SettlementRetryState : Type := PENDING | IN_PROGRESS | SUCCEEDED | FAILED | DEAD_LETTER.
#[export] Instance SettlementRetryState_eq_dec : EqDecision SettlementRetryState.
Proof. solve_decision. Defined.

Definition state_text (s : SettlementRetryState) : string :=
  match s with
  | PENDING => "PENDING" | IN_PROGRESS => "IN_PROGRESS" | SUCCEEDED => "SUCCEEDED"
  | FAILED => "FAILED" | DEAD_LETTER => "DEAD_LETTER"
  end.

Definition SETTLEMENT_RETRY_STATE_TRANSITIONS : list (SettlementRetryState * SettlementRetryState) :=
  [(PENDING, IN_PROGRESS); (IN_PROGRESS, SUCCEEDED); (IN_PROGRESS, FAILED); (IN_PROGRESS, DEAD_LETTER);
   (FAILED, IN_PROGRESS); (FAILED, DEAD_LETTER)].

Definition TERMINAL_STATES : list SettlementRetryState := [SUCCEEDED; DEAD_LETTER].
Definition MAX_RETRY_ATTEMPTS : Z := 3.
Definition SR_SUPPORTED_VERSIONS : list string := ["1.0.0"].

Definition is_terminal (s : SettlementRetryState) : bool := bool_decide (s ∈ TERMINAL_STATES).

(** The codes of [SrError]. *)
Definition SrErrorCode : list string :=
  ["SR_IDEMPOTENCY_VIOLATION"; "SR_CANONICAL_HASH_MISMATCH"; "SR_STATE_TRANSITION_INVALID";
   "SR_RETRY_EXHAUSTED"; "SR_PROVIDER_UNAVAILABLE"; "SR_PROVIDER_TIMEOUT"; "SR_PROVIDER_DECLINED";
   "SR_PROVIDER_RESPONSE_INVALID"; "SR_OPERATION_REVOKED"; "SR_SIGNED_PAYLOAD_INVALID";
   "SR_FRESHNESS_INVALID"; "SR_VERSION_UNSUPPORTED"; "SR_AMOUNT_INVALID"; "SR_BACKOFF_INVALID"].

Inductive RetryAttemptFailureReason : Type :=
| SR_PROVIDER_UNAVAILABLE | SR_PROVIDER_TIMEOUT | SR_PROVIDER_DECLINED
| SR_INSUFFICIENT_FUNDS | SR_REGULATORY_REJECTED | SR_INTERNAL_ERROR.

Record RetryAttempt : Type := mkRetryAttempt {
  ra_id : string;
  ra_operationId : string;
  ra_attemptNumber : num;
  ra_fromState : SettlementRetryState;
  ra_toState : SettlementRetryState;
  ra_attemptedAt : string;
  ra_completedAt : option string;
  ra_resultSummary : option string;
  ra_failureReason : option RetryAttemptFailureReason;
  ra_backoffDelayMs : num;
  ra_auditEventId : string }.

Record IdempotencyRecord : Type := mkIdempotencyRecord {
  ir_key : string;
  ir_tenantId : string;
  ir_operationId : string;
  ir_currentState : SettlementRetryState;
  ir_createdAt : string;
  ir_finalizedAt : option string }.

(** The fields the algorithm reads, and the rest of the payload. *)
Record SettlementOperationSignedPayload : Type := mkSettlementPayload {
  sp_cspVersion : string;
  sp_challenge : string;
  sp_notAfter : string;
  sp_audience : string;
  sp_payloadSignature : string;
  sp_rest : object }.

Record SettlementOperation : Type := mkOperation {
  op_id : string;
  op_srVersion : string;
  op_tenantId : string;
  op_idempotencyKey : string;
  op_settlementType : string;
  op_principalDid : string;
  op_counterpartyDid : string;
  op_amount : num;
  op_currency : string;
  op_signedPayload : SettlementOperationSignedPayload;
  op_currentState : SettlementRetryState;
  op_attemptCount : num;
  op_revoked : bool;
  op_createdAt : string;
  op_updatedAt : string;
  op_finalizedAt : option string }.

Record ProviderResult : Type := mkProviderResult {
  pr_providerTxId : string;
  pr_finalState : string;
  pr_responseCode : option string;
  pr_responseMessage : option string }.

(** ** Ports *)

Record SrPorts (W : Type) : Type := mkSrPorts {
  submitSettlement : SettlementOperation → M W ProviderResult;
  acquireAdvisoryLock : string → string → M W unit;
  findByKey : string → string → M W (option IdempotencyRecord);
  insertRecord : IdempotencyRecord → M W unit;
  updateState : string → string → SettlementRetryState → option string → M W unit;
  computeBackoffDelay : num → num;
  isOperationRevoked : string → res bool;
  verifyPayload : string → SettlementOperationSignedPayload → string → res bool;
  recordEvent : string → string → string → object → M W string;
  insertAttempt : RetryAttempt → M W unit }.
Arguments submitSettlement {W} _ _.
Arguments acquireAdvisoryLock {W} _ _ _.
Arguments findByKey {W} _ _ _.
Arguments insertRecord {W} _ _.
Arguments updateState {W} _ _ _ _ _.
Arguments computeBackoffDelay {W} _ _.
Arguments isOperationRevoked {W} _ _.
Arguments verifyPayload {W} _ _ _ _.
Arguments recordEvent {W} _ _ _ _ _.
Arguments insertAttempt {W} _ _.

(** ** Guards *)

Definition sr_validateStateTransition (from to : SettlementRetryState) : res unit :=
  check (bool_decide ((from, to) ∈ SETTLEMENT_RETRY_STATE_TRANSITIONS)) "SR_STATE_TRANSITION_INVALID".

Definition mapErrorToFailureReason (err responseCode : option string) : RetryAttemptFailureReason :=
  let of_code c :=
    if String.eqb c "INSUFFICIENT_FUNDS" || String.eqb c "NSF" then SR_INSUFFICIENT_FUNDS
    else if String.eqb c "REGULATORY_BLOCK" || str_startsWith c "REG_" then SR_REGULATORY_REJECTED
    else if String.eqb c "DECLINED" then SR_PROVIDER_DECLINED
    else if String.eqb c "TIMEOUT" then SR_PROVIDER_TIMEOUT
    else if str_startsWith c "5" then SR_PROVIDER_TIMEOUT
    else SR_INTERNAL_ERROR in
  let by_code :=
    match responseCode with
    | Some c => if non_empty c then of_code c else SR_INTERNAL_ERROR
    | None => SR_INTERNAL_ERROR
    end in
  match err with
  | Some e =>
      if String.eqb e "SR_PROVIDER_UNAVAILABLE" then SR_PROVIDER_UNAVAILABLE
      else if String.eqb e "SR_PROVIDER_TIMEOUT" then SR_PROVIDER_TIMEOUT
      else if String.eqb e "SR_PROVIDER_DECLINED" then SR_PROVIDER_DECLINED
      else by_code
  | None => by_code
  end.

Definition bucketizeAmount (amount : num) : string :=
  if num_ltb amount (Fin 100) then "0-100"
  else if num_ltb amount (Fin 1000) then "100-1000"
  else if num_ltb amount (Fin 10000) then "1000-10000"
  else if num_ltb amount (Fin 100000) then "10000-100000"
  else if num_ltb amount (Fin 1000000) then "100000-1000000"
  else "1000000+".

(** [^[A-Z]{3}$] *)
Definition currency_code (s : string) : bool :=
  Nat.eqb (String.length s) 3
  && forallb (λ c, let n := N_of_ascii c in (65 <=? n)%N && (n <=? 90)%N) (chars s).

(** An integer between two bounds. *)
Definition int_between (lo hi : Z) (n : num) : bool :=
  match n with Fin z => (lo <=? z) && (z <=? hi) | _ => false end.

Section schemas.
Context `{Formats}.

Definition validateSettlementOperation (op : SettlementOperation) : bool :=
  format_uuid (op_id op) && semver_schema (op_srVersion op) && format_uuid (op_tenantId op)
  && hex64 (op_idempotencyKey op)
  && bool_decide (op_settlementType op ∈ ["fiat_transfer"; "digital_wallet"])
  && str_startsWith (op_principalDid op) "did:" && str_startsWith (op_counterpartyDid op) "did:"
  && is_finite (op_amount op) && num_leb (Fin 1) (op_amount op)
  && currency_code (op_currency op) && int_between 0 5 (op_attemptCount op).

Definition validateRetryAttempt (a : RetryAttempt) : bool :=
  format_uuid (ra_id a) && format_uuid (ra_operationId a) && int_between 1 5 (ra_attemptNumber a)
  && int_between 0 60000 (ra_backoffDelayMs a) && format_uuid (ra_auditEventId a).

Definition validateIdempotencyRecord (r : IdempotencyRecord) : bool :=
  hex64 (ir_key r) && format_uuid (ir_tenantId r) && format_uuid (ir_operationId r).
End schemas.

(** ** The algorithm *)

Section retry.
Context `{Primitives} `{Formats} {W : Type} (P : SrPorts W) (error_message : string → string).

(** The readings of the clock and the random UUID of one call. *)
Record RetryClock : Type := mkRetryClock {
  ck_createdAt : string;
  ck_nowMs : Z;
  ck_exhaustedAt : string;
  ck_attemptedAt : string;
  ck_completedAt : string;
  ck_attemptId : string }.

Definition key_json (op : SettlementOperation) : object :=
  [("amount", VNum (op_amount op)); ("cspVersion", VStr (sp_cspVersion (op_signedPayload op)));
   ("currency", VStr (op_currency op)); ("operationId", VStr (op_id op));
   ("principalDid", VStr (op_principalDid op)); ("settlementType", VStr (op_settlementType op))].

Definition computeIdempotencyKey (op : SettlementOperation) : res string :=
  canonical ← canonicalize jcs (VObj (key_json op));
  let hexDigest := hash (textEncode canonical) enc_hex in
  _ ← check (hex64 hexDigest) "Error";
  mret hexDigest.

Definition step1_key (op : SettlementOperation) : res unit :=
  expectedKey ← computeIdempotencyKey op;
  check (String.eqb (op_idempotencyKey op) expectedKey) "SR_CANONICAL_HASH_MISMATCH".

(** Step 2 answers [true] when the record of the key is terminal. *)
Definition step2_idempotency (ck : RetryClock) (op : SettlementOperation) : M W bool :=
  _ ← acquireAdvisoryLock P (op_tenantId op) (op_idempotencyKey op);
  existingRecord ← findByKey P (op_tenantId op) (op_idempotencyKey op);
  match existingRecord with
  | Some r =>
      if is_terminal (ir_currentState r) then mret true
      else if negb (String.eqb (ir_operationId r) (op_id op)) then throw "SR_IDEMPOTENCY_VIOLATION"
      else mret false
  | None =>
      let newRecord := mkIdempotencyRecord (op_idempotencyKey op) (op_tenantId op) (op_id op)
                         (op_currentState op) (ck_createdAt ck) None in
      _ ← lift_res (check (validateIdempotencyRecord newRecord) "SR_STATE_TRANSITION_INVALID");
      _ ← insertRecord P newRecord;
      mret false
  end.

Definition step3_fields (op : SettlementOperation) : res unit :=
  _ ← check (bool_decide (op_settlementType op ∈ ["fiat_transfer"; "digital_wallet"])) "SR_VERSION_UNSUPPORTED";
  _ ← check (bool_decide (op_srVersion op ∈ SR_SUPPORTED_VERSIONS)) "SR_VERSION_UNSUPPORTED";
  _ ← check (negb (num_leb (op_amount op) (Fin 0))) "SR_AMOUNT_INVALID";
  check (validateSettlementOperation op) "SR_VERSION_UNSUPPORTED".

Definition step4_payload (nowMs : Z) (op : SettlementOperation) (expectedSettlerDid : string) : res unit :=
  let sp := op_signedPayload op in
  _ ← check (non_empty (sp_challenge sp) && negb (blank (sp_challenge sp))) "SR_SIGNED_PAYLOAD_INVALID";
  _ ← check (String.eqb (sp_cspVersion sp) "1.0.0") "SR_VERSION_UNSUPPORTED";
  notAfterMs ← match iso_getTime (sp_notAfter sp) with Some t => Ok t | None => Throw "SR_FRESHNESS_INVALID" end;
  _ ← check (negb (notAfterMs <? nowMs)) "SR_FRESHNESS_INVALID";
  _ ← check (String.eqb (sp_audience sp) expectedSettlerDid) "SR_SIGNED_PAYLOAD_INVALID";
  valid ← verifyPayload P (sp_payloadSignature sp) sp expectedSettlerDid;
  check valid "SR_SIGNED_PAYLOAD_INVALID".

(** A lookup that fails counts as revoked. *)
Definition step5_revocation (op : SettlementOperation) : res unit :=
  isRevoked ← match isOperationRevoked P (op_id op) with
              | Ok b => Ok b
              | Throw _ => Throw "SR_OPERATION_REVOKED"
              end;
  _ ← check (negb isRevoked) "SR_OPERATION_REVOKED";
  check (negb (op_revoked op)) "SR_OPERATION_REVOKED".

Definition step6_enter (op : SettlementOperation) : M W unit :=
  _ ← lift_res (check (negb (is_terminal (op_currentState op))) "SR_STATE_TRANSITION_INVALID");
  if bool_decide (op_currentState op = IN_PROGRESS) then mret tt
  else
    _ ← lift_res (sr_validateStateTransition (op_currentState op) IN_PROGRESS);
    updateState P (op_tenantId op) (op_idempotencyKey op) IN_PROGRESS None.

(** [recordSettlementAuditEvent]; the audit class is the constant 'L2'. *)
Definition audit_payload (op : SettlementOperation) (attemptNumber : num) (to : SettlementRetryState) : object :=
  [("operationId", VStr (op_id op)); ("tenantId", VStr (op_tenantId op)); ("attemptNumber", VNum attemptNumber);
   ("fromState", VStr (state_text (op_currentState op))); ("toState", VStr (state_text to));
   ("settlementType", VStr (op_settlementType op)); ("amountBucket", VStr (bucketizeAmount (op_amount op)));
   ("currency", VStr (op_currency op))].

Definition recordSettlementAuditEvent (op : SettlementOperation) (attemptNumber : num)
    (to : SettlementRetryState) : M W string :=
  recordEvent P (op_tenantId op) (op_principalDid op) (op_id op) (audit_payload op attemptNumber to).

Definition persistRetryAttempt (a : RetryAttempt) : M W unit :=
  _ ← lift_res (check (validateRetryAttempt a) "SR_STATE_TRANSITION_INVALID");
  insertAttempt P a.

(** Step 8: the audit event, then the attempt that names it. *)
Definition step8_record (ck : RetryClock) (op : SettlementOperation) (attemptNumber backoffDelayMs : num)
    (to : SettlementRetryState) (summary : option string) (reason : option RetryAttemptFailureReason)
    : M W unit :=
  auditEventId ← recordSettlementAuditEvent op attemptNumber to;
  persistRetryAttempt (mkRetryAttempt (ck_attemptId ck) (op_id op) attemptNumber (op_currentState op) to
                         (ck_attemptedAt ck) (Some (ck_completedAt ck)) summary reason backoffDelayMs
                         auditEventId).

(** The [catch]: record the failed attempt, mark the record FAILED, throw. *)
Definition provider_failed (ck : RetryClock) (op : SettlementOperation) (attemptNumber backoffDelayMs : num)
    (code : string) : M W SettlementOperation :=
  let err := if bool_decide (code ∈ SrErrorCode) then code else "SR_PROVIDER_RESPONSE_INVALID" in
  _ ← step8_record ck op attemptNumber backoffDelayMs FAILED (Some (error_message err))
        (Some (mapErrorToFailureReason (Some err) None));
  _ ← lift_res (sr_validateStateTransition IN_PROGRESS FAILED);
  _ ← updateState P (op_tenantId op) (op_idempotencyKey op) FAILED None;
  throw err.

Definition with_state (op : SettlementOperation) (s : SettlementRetryState) (attemptCount : num)
    (updatedAt : string) (finalizedAt : option string) : SettlementOperation :=
  mkOperation (op_id op) (op_srVersion op) (op_tenantId op) (op_idempotencyKey op) (op_settlementType op)
    (op_principalDid op) (op_counterpartyDid op) (op_amount op) (op_currency op) (op_signedPayload op)
    s attemptCount (op_revoked op) (op_createdAt op) updatedAt finalizedAt.

(** Step 9: commit the state and return the operation. *)
Definition step9_commit (ck : RetryClock) (op : SettlementOperation) (attemptNumber : num)
    (to : SettlementRetryState) : M W SettlementOperation :=
  let upd := updateState P (op_tenantId op) (op_idempotencyKey op) in
  let completedAt := ck_completedAt ck in
  if bool_decide (to = SUCCEEDED) then
    _ ← lift_res (sr_validateStateTransition IN_PROGRESS SUCCEEDED);
    _ ← upd SUCCEEDED (Some completedAt);
    mret (with_state op SUCCEEDED attemptNumber completedAt (Some completedAt))
  else
    _ ← lift_res (sr_validateStateTransition IN_PROGRESS FAILED);
    if num_geb attemptNumber (Fin MAX_RETRY_ATTEMPTS) then
      _ ← lift_res (sr_validateStateTransition FAILED DEAD_LETTER);
      _ ← upd DEAD_LETTER (Some completedAt);
      mret (with_state op DEAD_LETTER attemptNumber completedAt (Some completedAt))
    else
      _ ← upd FAILED None;
      mret (with_state op FAILED attemptNumber completedAt (op_finalizedAt op)).

(** Steps 7 to 9. *)
Definition attempt_settlement (ck : RetryClock) (op : SettlementOperation) : M W SettlementOperation :=
  if num_geb (op_attemptCount op) (Fin MAX_RETRY_ATTEMPTS) then
    _ ← lift_res (sr_validateStateTransition IN_PROGRESS DEAD_LETTER);
    _ ← updateState P (op_tenantId op) (op_idempotencyKey op) DEAD_LETTER (Some (ck_exhaustedAt ck));
    throw "SR_RETRY_EXHAUSTED"
  else
    let attemptNumber := num_add (op_attemptCount op) (Fin 1) in
    let backoffDelayMs := computeBackoffDelay P (op_attemptCount op) in
    if num_ltb backoffDelayMs (Fin 0) || num_gtb backoffDelayMs (Fin 60000) then throw "SR_BACKOFF_INVALID"
    else λ w,
      match submitSettlement P op w with
      | (Throw code, w') => provider_failed ck op attemptNumber backoffDelayMs code w'
      | (Ok r, w') =>
          if String.eqb (pr_finalState r) "SUCCEEDED" then
            (_ ← step8_record ck op attemptNumber backoffDelayMs SUCCEEDED (pr_responseMessage r) None;
             step9_commit ck op attemptNumber SUCCEEDED) w'
          else if String.eqb (pr_finalState r) "FAILED" then
            (_ ← step8_record ck op attemptNumber backoffDelayMs FAILED (pr_responseMessage r)
                   (Some (mapErrorToFailureReason None (pr_responseCode r)));
             step9_commit ck op attemptNumber FAILED) w'
          else provider_failed ck op attemptNumber backoffDelayMs "SR_PROVIDER_RESPONSE_INVALID" w'
      end.

Definition executeSettlementRetry (ck : RetryClock) (expectedSettlerDid : string) (op : SettlementOperation)
    : M W SettlementOperation :=
  _ ← lift_res (step1_key op);
  finished ← step2_idempotency ck op;
  if finished : bool then mret op
  else
    _ ← lift_res (step3_fields op);
    _ ← lift_res (step4_payload (ck_nowMs ck) op expectedSettlerDid);
    _ ← lift_res (step5_revocation op);
    _ ← step6_enter op;
    attempt_settlement ck op.
End retry.

(** ** What the ports promise *)

(** The records of the idempotency store and, as a ghost, the operations that
    were submitted to the provider, in order. *)
Class SrView (W : Type) : Type := {
  record_of : string → string → W → option IdempotencyRecord;
  submissions : W → list SettlementOperation }.

Section laws.
Context {W : Type} `{SrView W}.

Definition same_records (w w' : W) : Prop := ∀ t k, record_of t k w' = record_of t k w.
Definition same (w w' : W) : Prop := same_records w w' ∧ submissions w' = submissions w.

(** [updateState] sets the state, and the time of finalization when it is given. *)
Definition updated (s : SettlementRetryState) (finalizedAt : option string) (r : IdempotencyRecord)
    : IdempotencyRecord :=
  mkIdempotencyRecord (ir_key r) (ir_tenantId r) (ir_operationId r) s (ir_createdAt r)
    (match finalizedAt with Some _ => finalizedAt | None => ir_finalizedAt r end).

(** Records of other keys are left alone. *)
Definition only_at (t k : string) (w w' : W) : Prop :=
  ∀ t' k', (t', k') ≠ (t, k) → record_of t' k' w' = record_of t' k' w.

(** The documented behaviour of ports.ts: a write that throws writes nothing. *)
Class SrLaws (P : SrPorts W) : Prop := {
  lock_spec t k w r w' : acquireAdvisoryLock P t k w = (r, w') → same w w';
  find_spec t k w r w' : findByKey P t k w = (r, w') → same w w' ∧ (∀ o, r = Ok o → o = record_of t k w);
  insert_spec rec w r w' : insertRecord P rec w = (r, w') →
    submissions w' = submissions w ∧ only_at (ir_tenantId rec) (ir_key rec) w w'
    ∧ record_of (ir_tenantId rec) (ir_key rec) w'
      = (if r then Some rec else record_of (ir_tenantId rec) (ir_key rec) w);
  update_spec t k s f w r w' : updateState P t k s f w = (r, w') →
    submissions w' = submissions w ∧ only_at t k w w'
    ∧ record_of t k w' = (if r then updated s f <$> record_of t k w else record_of t k w);
  submit_spec op w r w' : submitSettlement P op w = (r, w') →
    same_records w w' ∧ submissions w' = submissions w ++ [op];
  event_spec t a g p w r w' : recordEvent P t a g p w = (r, w') → same w w';
  attempt_spec a w r w' : insertAttempt P a w = (r, w') → same w w' }.

(** ** Frames *)

Lemma only_at_refl t k w : only_at t k w w.
Proof. by intros t' k' _. Qed.

Lemma only_at_trans t k w1 w2 w3 : only_at t k w1 w2 → only_at t k w2 w3 → only_at t k w1 w3.
Proof. intros H1 H2 t' k' Hne. by rewrite H2, H1. Qed.

Lemma same_only_at t k w w' : same_records w w' → only_at t k w w'.
Proof. intros Hs t' k' _. apply Hs. Qed.

(** From [w] to [w'] nothing was submitted, and the record of one key at most
    has changed, without disappearing. *)
Definition frame (t k : string) (w w' : W) : Prop :=
  submissions w' = submissions w ∧ only_at t k w w' ∧ (is_Some (record_of t k w) → is_Some (record_of t k w')).

Definition quiet {A} (t k : string) (m : M W A) : Prop := ∀ w r w', m w = (r, w') → frame t k w w'.

Lemma frame_refl t k w : frame t k w w.
Proof. split_and!; [done|apply only_at_refl|done]. Qed.

Lemma frame_trans t k w1 w2 w3 : frame t k w1 w2 → frame t k w2 w3 → frame t k w1 w3.
Proof.
  intros (S1 & O1 & E1) (S2 & O2 & E2). split_and!; [congruence|by eapply only_at_trans|auto].
Qed.

Lemma same_frame t k w w' : same w w' → frame t k w w'.
Proof. intros [Hs Hn]. split_and!; [done|by apply same_only_at|by rewrite Hs]. Qed.

Lemma quiet_bind {A B} t k (f : A → M W B) (m : M W A) :
  quiet t k m → (∀ a, quiet t k (f a)) → quiet t k (m ≫= f).
Proof.
  intros Hm Hf w r w' E. unfold mbind, M_bind in E. destruct (m w) as [[a|c] w1] eqn:Em.
  - eapply frame_trans; [by eapply Hm|by eapply Hf].
  - injection E as <- <-. by eapply Hm.
Qed.

Lemma quiet_ret {A} t k (a : A) : quiet t k (mret a).
Proof. intros w r w' [= _ <-]. apply frame_refl. Qed.
Lemma quiet_throw {A} t k c : quiet (A := A) t k (throw c).
Proof. intros w r w' [= _ <-]. apply frame_refl. Qed.
Lemma quiet_lift {A} t k (x : res A) : quiet t k (lift_res x).
Proof. intros w r w' [= _ <-]. apply frame_refl. Qed.
Lemma quiet_same {A} t k (m : M W A) : (∀ w r w', m w = (r, w') → same w w') → quiet t k m.
Proof. intros Hm w r w' Hs%Hm. by apply same_frame. Qed.
Lemma quiet_if {A} t k (b : bool) (m1 m2 : M W A) : quiet t k m1 → quiet t k m2 → quiet t k (if b then m1 else m2).
Proof. by destruct b. Qed.

Context (P : SrPorts W) `{!SrLaws P}.

Lemma quiet_update t k s f : quiet t k (updateState P t k s f).
Proof.
  intros w r w' (? & ? & E)%update_spec. split_and!; [done|done|].
  rewrite E. destruct r; [|done]. intros [x ->]. by eexists.
Qed.
Lemma quiet_lock t k t' k' : quiet t k (acquireAdvisoryLock P t' k').
Proof. apply quiet_same. intros w r w' ?%lock_spec. done. Qed.
Lemma quiet_find t k t' k' : quiet t k (findByKey P t' k').
Proof. apply quiet_same. intros w r w' [? _]%find_spec. done. Qed.
Lemma quiet_event t k a b c d : quiet t k (recordEvent P a b c d).
Proof. apply quiet_same. intros w r w' ?%event_spec. done. Qed.
Lemma quiet_attempt t k a : quiet t k (insertAttempt P a).
Proof. apply quiet_same. intros w r w' ?%attempt_spec. done. Qed.
End laws.

Create HintDb settlement.
#[export] Hint Resolve quiet_ret quiet_throw quiet_lift quiet_update quiet_lock quiet_find quiet_event
  quiet_attempt quiet_if : settlement.
#[export] Hint Resolve quiet_bind | 5 : settlement.

(** Walk through the binds of a computation. *)
Ltac quiet_step :=
  repeat (first [ apply quiet_bind; [|intros ?] | apply quiet_if ]); eauto with settlement.


Section runs.
Context `{Primitives} `{Fm : Formats} {W : Type} `{SrView W} (P : SrPorts W) `{!SrLaws P}.
Context (error_message : string → string).

Notation execute := (executeSettlementRetry P error_message).

(** The key of an operation, in the store. *)
Definition record_for (op : SettlementOperation) (w : W) : option IdempotencyRecord :=
  record_of (op_tenantId op) (op_idempotencyKey op) w.
Definition frame_of (op : SettlementOperation) : W → W → Prop := frame (op_tenantId op) (op_idempotencyKey op).

(** A key that may still be settled by the operation. *)
Definition open_for (op : SettlementOperation) (w : W) : Prop :=
  ∀ r, record_for op w = Some r → is_terminal (ir_currentState r) = false ∧ ir_operationId r = op_id op.

Definition settled (op : SettlementOperation) (w : W) : Prop :=
  ∃ r, record_for op w = Some r ∧ is_terminal (ir_currentState r) = true.

(** Step 2: a terminal record answers [true], an open key gets a record. *)
Lemma step2_spec ck op w r w' :
  step2_idempotency P ck op w = (r, w') →
  frame_of op w w' ∧
  match r with
  | Ok true => settled op w ∧ record_for op w' = record_for op w
  | Ok false => open_for op w ∧ is_Some (record_for op w')
  | Throw _ => record_for op w' = record_for op w
  end.
Proof.
  intros [(? & w1 & [S1 N1]%lock_spec & E)|(c & [S1 N1]%lock_spec & ->)]%M_bind_inv.
  2:{ split; [by apply same_frame|apply S1]. }
  apply M_bind_inv in E as [(o & w2 & [[S2 N2] Eo]%find_spec & E)|(c & [[S2 N2] _]%find_spec & ->)].
  2:{ split; [apply same_frame; split; [|congruence]; intros ??; by rewrite S2, S1|].
      unfold record_for. by rewrite S2, S1. }
  specialize (Eo o eq_refl). rewrite S1 in Eo.
  assert (same w w2) as Hs by (split; [|congruence]; intros ??; by rewrite S2, S1).
  assert (frame_of op w w2) as Hf by by apply same_frame.
  assert (record_for op w2 = record_for op w) as Hr by apply Hs.
  destruct o as [rec|].
  - destruct (is_terminal _) eqn:Ht; [injection E as <- <-; split; [done|]; split; [by exists rec|done]|].
    destruct (String.eqb_spec (ir_operationId rec) (op_id op)) as [Ei|]; simpl in E; injection E as <- <-.
    + split; [done|]. split; [|rewrite Hr; unfold record_for; rewrite <- Eo; by eexists].
      intros ? E'. unfold record_for in E'. rewrite <- Eo in E'. by injection E' as <-.
    + by split.
  - apply M_bind_inv in E as [([] & w3 & E3 & E)|(c & [= _ <-] & ->)]; [|by split]. injection E3 as _ <-.
    apply M_bind_inv in E as [([] & w3 & E3 & E)|(c & E3 & ->)]; apply insert_spec in E3 as (N3 & O3 & R3); simpl in *.
    + injection E as <- <-.
      split; [eapply frame_trans; [done|]; split_and!; [done|done|rewrite R3; by eexists]|].
      split; [|unfold record_for; rewrite R3; by eexists]. intros ? E'. unfold record_for in E'. congruence.
    + split; [eapply frame_trans; [done|]; split_and!; [done|done|by rewrite R3]|].
      unfold record_for in *. by rewrite R3.
Qed.
(** Step 8 and the failure path: at most the record of the key moves. *)
Lemma quiet_step8 t k ck op n d to sm rs : quiet t k (step8_record P ck op n d to sm rs).
Proof. unfold step8_record, recordSettlementAuditEvent, persistRetryAttempt. quiet_step. Qed.

Lemma quiet_failed ck op n d c :
  quiet (op_tenantId op) (op_idempotencyKey op) (provider_failed P error_message ck op n d c).
Proof. unfold provider_failed. quiet_step. Qed.

Lemma provider_failed_throws ck op n d c w r w' o :
  provider_failed P error_message ck op n d c w = (r, w') → r ≠ Ok o.
Proof.
  intros E ->. unfold provider_failed in E.
  apply M_bind_ok in E as (? & ? & _ & E). apply M_bind_ok in E as (? & ? & _ & E).
  by apply M_bind_ok in E as (? & ? & _ & [=]).
Qed.

Lemma quiet_step6 op : quiet (op_tenantId op) (op_idempotencyKey op) (step6_enter P op).
Proof. unfold step6_enter. quiet_step. Qed.

Lemma quiet_step9 ck op n to : quiet (op_tenantId op) (op_idempotencyKey op) (step9_commit P ck op n to).
Proof. unfold step9_commit. quiet_step. Qed.

(** The result of a provider answer: the next state, and the count. *)
Definition next_state (n : num) (succeeded : bool) : SettlementRetryState :=
  if succeeded then SUCCEEDED else if num_geb n (Fin MAX_RETRY_ATTEMPTS) then DEAD_LETTER else FAILED.

Lemma update_state_of op s f w w' :
  updateState P (op_tenantId op) (op_idempotencyKey op) s f w = (Ok tt, w') →
  is_Some (record_for op w) → ir_currentState <$> record_for op w' = Some s.
Proof. intros (_ & _ & E)%update_spec [x Ex]. unfold record_for in *. by rewrite E, Ex. Qed.

Lemma step9_spec ck op n (b : bool) w op' w' :
  step9_commit P ck op n (if b then SUCCEEDED else FAILED) w = (Ok op', w') → is_Some (record_for op w) →
  (∃ u f, op' = with_state op (next_state n b) n u f) ∧ ir_currentState <$> record_for op w' = Some (next_state n b).
Proof.
  unfold step9_commit, next_state. intros E Hr.
  destruct b; [rewrite bool_decide_true in E by done|rewrite bool_decide_false in E by done].
  - apply M_bind_ok in E as ([] & ? & [= <-] & E). apply M_bind_ok in E as ([] & ? & E & [= <- <-]).
    split; [by eexists _, _|by eapply update_state_of].
  - apply M_bind_ok in E as ([] & ? & [= <-] & E).
    destruct (num_geb n _); [apply M_bind_ok in E as ([] & ? & [= <-] & E)|];
      apply M_bind_ok in E as ([] & ? & E & [= <- <-]); (split; [by eexists _, _|by eapply update_state_of]).
Qed.

(** The provider answered the submission of [op] with success or failure. *)
Definition answered (op : SettlementOperation) (b : bool) : Prop :=
  ∃ a w1 w2, submitSettlement P op w1 = (Ok a, w2) ∧ pr_finalState a = (if b then "SUCCEEDED" else "FAILED").

(** What a run that reports the provider's answer returns and leaves behind. *)
Definition reported (op op' : SettlementOperation) (w' : W) : Prop :=
  let n := num_add (op_attemptCount op) (Fin 1) in
  ∃ b u f, op' = with_state op (next_state n b) n u f
           ∧ ir_currentState <$> record_for op w' = Some (next_state n b)
           ∧ answered op b.

Lemma finish_spec ck op d (b : bool) sm rs w r w' :
  let n := num_add (op_attemptCount op) (Fin 1) in
  let to := if b then SUCCEEDED else FAILED in
  answered op b →
  (step8_record P ck op n d to sm rs ≫= λ _, step9_commit P ck op n to) w = (r, w') →
  frame_of op w w' ∧ (is_Some (record_for op w) → ∀ op', r = Ok op' → reported op op' w').
Proof.
  intros n to Ha E. split.
  - eapply quiet_bind; [apply quiet_step8|intros; apply quiet_step9|exact E].
  - intros Hr op' ->. apply M_bind_ok in E as (? & w1 & E1 & E).
    destruct (step9_spec _ _ _ _ _ _ _ E) as [(u & f & ->) ?]; [|by exists b, u, f].
    by apply (quiet_step8 (op_tenantId op) (op_idempotencyKey op)) in E1 as (_ & _ & E1); apply E1.
Qed.

(** Steps 7 to 9: no submission and no result, or one submission within the
    limit of attempts. *)
Lemma attempt_settlement_spec ck op w r w' :
  attempt_settlement P error_message ck op w = (r, w') →
  only_at (op_tenantId op) (op_idempotencyKey op) w w' ∧
  ((submissions w' = submissions w ∧ ∀ o, r ≠ Ok o)
   ∨ (submissions w' = submissions w ++ [op] ∧ num_geb (op_attemptCount op) (Fin MAX_RETRY_ATTEMPTS) = false
      ∧ (is_Some (record_for op w) → ∀ op', r = Ok op' → reported op op' w'))).
Proof.
  unfold attempt_settlement. destruct (num_geb (op_attemptCount op) _) eqn:Hn.
  { intros E. assert (frame_of op w w') as (? & ? & _) 
      by (eapply quiet_bind; [| |exact E]; intros; quiet_step).
    split; [done|]. left. split; [done|]. intros o ->.
    apply M_bind_ok in E as (? & ? & _ & E). by apply M_bind_ok in E as (? & ? & _ & [=]). }
  case_match; [intros [= <- <-]; split; [apply only_at_refl|by left]|].
  assert (∀ c w1, only_at (op_tenantId op) (op_idempotencyKey op) w w1 → submissions w1 = submissions w ++ [op] →
    provider_failed P error_message ck op (num_add (op_attemptCount op) (Fin 1))
      (computeBackoffDelay P (op_attemptCount op)) c w1 = (r, w') →
    only_at (op_tenantId op) (op_idempotencyKey op) w w' ∧ submissions w' = submissions w ++ [op]
    ∧ ∀ o, r ≠ Ok o) as Hfail.
  { intros c w1 O1 S1 E. destruct (quiet_failed _ _ _ _ _ _ _ _ E) as (S2 & O2 & _).
    split_and!; [by eapply only_at_trans|congruence|eauto using provider_failed_throws]. }
  destruct (submitSettlement P op w) as [[a|c] w1] eqn:Es; pose proof (submit_spec _ _ _ _ Es) as [Rs Ss];
    pose proof (same_only_at (op_tenantId op) (op_idempotencyKey op) _ _ Rs) as O1.
  - assert (∀ b sm rs, let n := num_add (op_attemptCount op) (Fin 1) in
      let to := if b : bool then SUCCEEDED else FAILED in
      pr_finalState a = (if b then "SUCCEEDED" else "FAILED") →
      (step8_record P ck op n (computeBackoffDelay P (op_attemptCount op)) to sm rs
         ≫= λ _, step9_commit P ck op n to) w1 = (r, w') →
      only_at (op_tenantId op) (op_idempotencyKey op) w w' ∧ submissions w' = submissions w ++ [op]
      ∧ (is_Some (record_for op w) → ∀ op', r = Ok op' → reported op op' w')) as Hfin.
    { intros b sm rs n to Ha [(S2 & O2 & _) Hr]%finish_spec; [|by exists a, w, w1]. split_and!; [by eapply only_at_trans|congruence|].
      unfold record_for in *. by rewrite <- Rs. }
    destruct (String.eqb_spec (pr_finalState a) "SUCCEEDED") as [Ea|]; [intros (? & ? & ?)%(Hfin true); eauto|].
    destruct (String.eqb_spec (pr_finalState a) "FAILED") as [Ea|]; [intros (? & ? & ?)%(Hfin false); eauto|].
    intros (? & ? & Ho)%Hfail; [|done..]. split; [done|]. right. split_and!; [done..|]. intros _ ? ?. by edestruct Ho.
  - intros (? & ? & Ho)%Hfail; [|done..]. split; [done|]. right. split_and!; [done..|]. intros _ ? ?. by edestruct Ho.
Qed.
(** ** The gate in front of the provider *)

(** What has been established when an operation reaches the provider. *)
Record cleared (ck : RetryClock) (did : string) (op : SettlementOperation) (w : W) : Prop := mkCleared {
  cl_key : computeIdempotencyKey op = Ok (op_idempotencyKey op);
  cl_open : open_for op w;
  cl_version : op_srVersion op = "1.0.0" ∧ sp_cspVersion (op_signedPayload op) = "1.0.0";
  cl_amount : num_leb (op_amount op) (Fin 0) = false ∧ validateSettlementOperation op = true;
  cl_challenge : blank (sp_challenge (op_signedPayload op)) = false;
  cl_fresh : ∃ t, iso_getTime (sp_notAfter (op_signedPayload op)) = Some t ∧ ck_nowMs ck ≤ t;
  cl_audience : sp_audience (op_signedPayload op) = did;
  cl_signed : verifyPayload P (sp_payloadSignature (op_signedPayload op)) (op_signedPayload op) did = Ok true;
  cl_unrevoked : isOperationRevoked P (op_id op) = Ok false ∧ op_revoked op = false;
  cl_state : is_terminal (op_currentState op) = false;
  cl_count : ∃ n, op_attemptCount op = Fin n ∧ 0 ≤ n < MAX_RETRY_ATTEMPTS }.

Lemma run_step1_ok op : step1_key op = Ok tt → computeIdempotencyKey op = Ok (op_idempotencyKey op).
Proof. intros (k & -> & ->%check_ok%String.eqb_eq)%res_bind_ok. done. Qed.

Lemma run_step3_ok op : step3_fields op = Ok tt →
  op_srVersion op = "1.0.0" ∧ num_leb (op_amount op) (Fin 0) = false ∧ validateSettlementOperation op = true.
Proof.
  intros ([] & _ & ([] & Hv%check_ok%bool_decide_eq_true & ([] & Ha%check_ok%negb_true_iff &
    Hs%check_ok)%res_bind_ok)%res_bind_ok)%res_bind_ok.
  split_and!; [by apply list_elem_of_singleton in Hv|done..].
Qed.

Lemma run_step4_ok now op did : step4_payload P now op did = Ok tt →
  let sp := op_signedPayload op in
  blank (sp_challenge sp) = false ∧ sp_cspVersion sp = "1.0.0"
  ∧ (∃ t, iso_getTime (sp_notAfter sp) = Some t ∧ now ≤ t) ∧ sp_audience sp = did
  ∧ verifyPayload P (sp_payloadSignature sp) sp did = Ok true.
Proof.
  intros ([] & Hc%check_ok & ([] & Hv%check_ok%String.eqb_eq & E)%res_bind_ok)%res_bind_ok.
  apply res_bind_ok in E as (t & Ht & ([] & Hf%check_ok & ([] & Ha%check_ok%String.eqb_eq & E)%res_bind_ok)%res_bind_ok).
  apply res_bind_ok in E as (v & Hs & ->%check_ok). intros sp.
  apply andb_true_iff in Hc as [_ Hc%negb_true_iff]. split_and!; [done|done| |done|done].
  destruct (iso_getTime _) as [t'|]; [|done]. injection Ht as <-. exists t'. split; [done|].
  apply negb_true_iff, Z.ltb_ge in Hf. done.
Qed.

Lemma run_step5_ok op : step5_revocation P op = Ok tt →
  isOperationRevoked P (op_id op) = Ok false ∧ op_revoked op = false.
Proof.
  intros (b & Hr & ([] & Hb%check_ok%negb_true_iff & Ho%check_ok%negb_true_iff)%res_bind_ok)%res_bind_ok.
  destruct (isOperationRevoked P (op_id op)); naive_solver.
Qed.

Lemma count_in_range op :
  validateSettlementOperation op = true → num_geb (op_attemptCount op) (Fin MAX_RETRY_ATTEMPTS) = false →
  ∃ n, op_attemptCount op = Fin n ∧ 0 ≤ n < MAX_RETRY_ATTEMPTS.
Proof.
  intros [_ Hi]%andb_true_iff Hg. unfold int_between in Hi.
  destruct (op_attemptCount op) as [| |z|]; try done. exists z. split; [done|].
  unfold num_geb, MAX_RETRY_ATTEMPTS in *; simpl in Hg. lia.
Qed.

(** A run: nothing is submitted, or the operation is, once, behind the gate. *)
Lemma execute_spec ck did op w r w' :
  execute ck did op w = (r, w') →
  only_at (op_tenantId op) (op_idempotencyKey op) w w' ∧
  ((submissions w' = submissions w ∧ (∀ o, r = Ok o → o = op ∧ settled op w)
    ∧ (settled op w → record_for op w' = record_for op w))
   ∨ (submissions w' = submissions w ++ [op] ∧ cleared ck did op w ∧ ∀ op', r = Ok op' → reported op op' w')).
Proof.
  intros [([] & w1 & [= E1 <-] & E)|(c & [= E1 <-] & ->)]%M_bind_inv; [|split; [apply only_at_refl|by left]].
  apply M_bind_inv in E as [([] & w2 & [(N2 & O2 & X2) S2]%step2_spec & E)|(c & [(N2 & O2 & _) S2]%step2_spec & ->)].
  - injection E as <- <-. split; [done|]. left. destruct S2 as [Hs Hr]. naive_solver.
  - destruct S2 as [Ho Hr].
    assert (¬ settled op w) as Hns by (intros (y & Hy & ?); destruct (Ho y Hy); congruence).
    apply M_bind_inv in E as [([] & w3 & [= E3 <-] & E)|(c & [= E3 <-] & ->)]; [|split; [done|left; naive_solver]].
    apply M_bind_inv in E as [([] & w3 & [= E4 <-] & E)|(c & [= E4 <-] & ->)]; [|split; [done|left; naive_solver]].
    apply M_bind_inv in E as [([] & w3 & [= E5 <-] & E)|(c & [= E5 <-] & ->)]; [|split; [done|left; naive_solver]].
    apply M_bind_inv in E as [([] & w6 & E6 & E)|(c & (N6 & O6 & _)%quiet_step6 & ->)].
    2:{ split; [by eapply only_at_trans|]. left. split_and!; [congruence|done|naive_solver]. }
    pose proof (quiet_step6 _ _ _ _ E6) as (N6 & O6 & X6). unfold step6_enter in E6.
    apply M_bind_ok in E6 as ([] & ? & [= Ht%check_ok%negb_true_iff _] & _).
    apply attempt_settlement_spec in E as [O7 [[N7 Hr7]|(N7 & Hn & Hr7)]].
    all: split; [eauto using only_at_trans|].
    { left. split_and!; [congruence|naive_solver|naive_solver]. }
    right. split_and!; [congruence| |by apply Hr7, X6].
    apply run_step1_ok in E1. apply run_step3_ok in E3 as (Hv & Ha & Hs).
    apply run_step4_ok in E4 as (Hc & Hcv & Hf & Hau & Hsg). apply run_step5_ok in E5.
    constructor; try done. by apply count_in_range.
  - split; [done|]. left. naive_solver.
Qed.

(** The state a run comes back with, when it has submitted. *)
Lemma cleared_reported ck did op op' w w' :
  cleared ck did op w → reported op op' w' →
  ∃ n b u f, op_attemptCount op = Fin n ∧ 0 ≤ n < 3 ∧ answered op b ∧
    let s := if b then SUCCEEDED else if n <? 2 then FAILED else DEAD_LETTER in
    op' = with_state op s (Fin (n + 1)) u f ∧ ir_currentState <$> record_for op w' = Some s.
Proof.
  intros Hc (b & u & f & E & Hr & Ha). destruct (cl_count _ _ _ _ Hc) as (n & En & Hn).
  exists n, b, u, f. rewrite En in *. simpl in E, Hr. split_and!; [done|unfold MAX_RETRY_ATTEMPTS in *; lia..|done|].
  assert (next_state (Fin (n + 1)) b = if b then SUCCEEDED else if n <? 2 then FAILED else DEAD_LETTER) as <-; [|done].
  unfold next_state, num_geb, MAX_RETRY_ATTEMPTS. simpl. destruct b; [done|].
  destruct (Z.leb_spec 3 (n + 1)), (Z.ltb_spec n 2); try done; lia.
Qed.

(** ** Theorems *)

(** C23.  One run submits its operation at most once, and only when the
    idempotency key is the hash of the operation's own fields, the key is open
    (no terminal record, no other operation's), versions, amount and schema
    hold, the signed payload is fresh, made out to this settler and verified,
    the operation is not revoked nor in a terminal state, and fewer than three
    attempts were counted. *)
Theorem submission_guarded ck did op w r w' :
  execute ck did op w = (r, w') →
  submissions w' = submissions w ∨ (submissions w' = submissions w ++ [op] ∧ cleared ck did op w).
Proof. intros [_ [(? & _)|(? & ? & _)]]%execute_spec; auto. Qed.

(** A run that returns either found the key settled, and then gives the
    operation back unchanged, leaves the record alone and submits nothing; or
    it submitted the operation once, the provider answered, and the operation
    comes back with one more attempt and the state of that answer (SUCCEEDED,
    FAILED, or DEAD_LETTER on the third failure), which is also the state of
    the record. *)
Theorem run_outcome ck did op w op' w' :
  execute ck did op w = (Ok op', w') →
  (op' = op ∧ settled op w ∧ record_for op w' = record_for op w ∧ submissions w' = submissions w)
  ∨ (submissions w' = submissions w ++ [op] ∧
     ∃ n b u f, op_attemptCount op = Fin n ∧ 0 ≤ n < 3 ∧ answered op b ∧
       let s := if b then SUCCEEDED else if n <? 2 then FAILED else DEAD_LETTER in
       op' = with_state op s (Fin (n + 1)) u f ∧ ir_currentState <$> record_for op w' = Some s).
Proof.
  intros [_ [(Hs & Ho & Hr)|(Hs & Hc & Ho)]]%execute_spec; [left; naive_solver|right; split; [done|]].
  by apply (cleared_reported ck did _ _ w), Ho.
Qed.

(** Any sequence of runs, whatever each of them answers. *)
Definition run_all (calls : list (RetryClock * string * SettlementOperation)) (w : W) : W :=
  foldl (λ w '(ck, did, op), (execute ck did op w).2) w calls.

Definition submitted_for (t k : string) (w : W) : list SettlementOperation :=
  filter (λ op, op_tenantId op = t ∧ op_idempotencyKey op = k) (submissions w).

Lemma run_keeps_settled ck did op t k w r w' rec :
  execute ck did op w = (r, w') → record_of t k w = Some rec → is_terminal (ir_currentState rec) = true →
  record_of t k w' = Some rec ∧ submitted_for t k w' = submitted_for t k w.
Proof.
  intros [Ho Hk]%execute_spec Hr Ht. unfold submitted_for.
  destruct (decide ((t, k) = (op_tenantId op, op_idempotencyKey op))) as [[= -> ->]|Hne].
  - destruct Hk as [(-> & _ & Hs)|(_ & Hc & _)].
    + split; [|done]. unfold record_for in Hs. rewrite Hs; [done|by exists rec].
    + destruct (cl_open _ _ _ _ Hc rec Hr). congruence.
  - rewrite Ho, Hr by done. split; [done|]. destruct Hk as [(-> & _)|(-> & _)]; [done|].
    rewrite filter_app, (filter_cons_False _ op), app_nil_r; [done|naive_solver].
Qed.

(** A settled key stays settled: after any sequence of runs, by whatever
    operations, its record is what it was, and nothing more was submitted for
    it. *)
Theorem terminal_final calls t k w rec :
  record_of t k w = Some rec → is_terminal (ir_currentState rec) = true →
  record_of t k (run_all calls w) = Some rec ∧ submitted_for t k (run_all calls w) = submitted_for t k w.
Proof.
  unfold run_all. revert w. induction calls as [|[[ck did] op] calls IH]; intros w Hr Ht; [done|]. simpl.
  destruct (execute ck did op w) as [r w1] eqn:E. simpl.
  destruct (run_keeps_settled _ _ _ _ _ _ _ _ _ E Hr Ht) as [Hr1 <-]. by apply IH.
Qed.

(** A caller that runs an operation again for as long as it comes back FAILED. *)
Fixpoint retry_while_failed (clocks : list RetryClock) (did : string) (op : SettlementOperation)
    : M W SettlementOperation :=
  match clocks with
  | [] => mret op
  | ck :: rest =>
      op' ← execute ck did op;
      if bool_decide (op_currentState op' = FAILED) then retry_while_failed rest did op' else mret op'
  end.

(** C24.  Retrying ends: for an operation whose key is not settled and that counts
    fewer than three attempts, a caller that runs it again while it comes back
    FAILED gets an exception or an operation in a terminal state within three
    runs, less the attempts already counted, and the provider is reached at most
    as often.  On a settled key a run gives back its argument unchanged, so that
    a caller that holds a FAILED copy of a settled operation gets it back for
    ever. *)
Theorem retries_terminate clocks did n op w r w' :
  op_attemptCount op = Fin n → n < 3 → ¬ settled op w → 3 - n ≤ Z.of_nat (length clocks) →
  retry_while_failed clocks did op w = (r, w') →
  (∀ op', r = Ok op' → is_terminal (op_currentState op') = true)
  ∧ Z.of_nat (length (submissions w')) ≤ Z.of_nat (length (submissions w)) + (3 - n).
Proof.
  revert n op w. induction clocks as [|ck rest IH]; intros n op w En Hn Hs Hl; [simpl in Hl; lia|].
  simpl. intros [(op1 & w1 & [_ Hk]%execute_spec & E)|(c & [_ Hk]%execute_spec & ->)]%M_bind_inv.
  - destruct Hk as [(_ & Ho & _)|(Ss & Hc & Ho)]; [by destruct (Ho op1 eq_refl)|].
    destruct (cleared_reported _ _ _ _ _ _ Hc (Ho op1 eq_refl)) as (n' & b & u & f & En' & _ & _ & -> & Er).
    rewrite En in En'. injection En' as <-.
    destruct b; simpl in E.
    { injection E as <- <-. rewrite Ss, length_app. simpl. split; [by intros ? [= <-]|lia]. }
    destruct (Z.ltb_spec n 2); simpl in E.
    + apply (IH (n + 1)) in E; simpl; [|done|lia| |simpl in Hl; lia].
      * rewrite Ss, length_app in E. simpl in E. split; [apply E|lia].
      * intros (x & Ex & Hx). unfold record_for in Er, Ex; simpl in Ex. rewrite Ex in Er. simpl in Er.
        by injection Er as Er; rewrite Er in Hx.
    + injection E as <- <-. rewrite Ss, length_app. simpl. split; [by intros ? [= <-]|lia].
  - split; [done|]. destruct Hk as [(-> & _)|(-> & _)]; [|rewrite length_app; simpl]; lia.
Qed.
End runs.
