(* ===== verification/SettlementExamples.v ===== *)
(** * Concrete settlements

    Stores in memory, a provider and an audit recorder that follow a script:
    they keep the laws of SettlementRetry.v, whose theorems are applied here,
    and the runs that show three defects of the algorithm. *)
From S2P Require Import Prelude JsValue Time Encoding Crypto ToyPrimitives Authorization.
From S2P Require Import SignedPayload MultisigExamples SettlementRetry.

(** ** Ports in memory *)

Record SrWorld : Type := mkSrWorld {
  sw_records : gmap (string * string) IdempotencyRecord;
  sw_submitted : list SettlementOperation;
  sw_answers : list (res ProviderResult);
  sw_audit : list (res string) }.

#[export] Instance SrWorld_view : SrView SrWorld := {|
  record_of t k w := sw_records w !! (t, k);
  submissions := sw_submitted |}.

Definition set_records (f : gmap (string * string) IdempotencyRecord → gmap (string * string) IdempotencyRecord)
    (w : SrWorld) : SrWorld := mkSrWorld (f (sw_records w)) (sw_submitted w) (sw_answers w) (sw_audit w).

(** The provider and the recorder take the next answer of their script. *)
Definition settlement_ports : SrPorts SrWorld := {|
  submitSettlement op w :=
    (default (Throw "SR_PROVIDER_UNAVAILABLE") (head (sw_answers w)),
     mkSrWorld (sw_records w) (sw_submitted w ++ [op]) (tail (sw_answers w)) (sw_audit w));
  acquireAdvisoryLock _ _ := mret tt;
  findByKey t k w := (Ok (sw_records w !! (t, k)), w);
  insertRecord r w := (Ok tt, set_records <[(ir_tenantId r, ir_key r) := r]> w);
  updateState t k s f w := (Ok tt, set_records (alter (updated s f) (t, k)) w);
  computeBackoffDelay _ := Fin 1000;
  isOperationRevoked _ := Ok false;
  verifyPayload sig _ _ := Ok (String.eqb sig "signed");
  recordEvent _ _ _ _ w :=
    (default (Ok "event") (head (sw_audit w)),
     mkSrWorld (sw_records w) (sw_submitted w) (sw_answers w) (tail (sw_audit w)));
  insertAttempt _ := mret tt |}.

#[export] Instance memory_laws : SrLaws settlement_ports.
Proof.
  split.
  - by intros t k w r w' [= <- <-].
  - intros t k w r w' [= <- <-]. split; [done|]. by intros o [= <-].
  - intros rec w r w' [= <- <-]. split_and!; [done| |apply lookup_insert_eq].
    intros t' k' Hne. apply lookup_insert_ne. congruence.
  - intros t k s f w r w' [= <- <-]. split_and!; [done| |apply lookup_alter_eq].
    intros t' k' Hne. apply lookup_alter_ne. congruence.
  - intros op w r w' E. injection E as _ <-. done.
  - intros t a g p w r w' E. injection E as _ <-. done.
  - by intros a w r w' [= <- <-].
Qed.

(** ** Operations *)

Definition sr_payload (signature : string) : SettlementOperationSignedPayload :=
  mkSettlementPayload "1.0.0" "nonce" "2026-06-02T00:00:00.000Z" "did:agent:settler" signature [].

Definition operation_with (key signature : string) (s : SettlementRetryState) (n : Z) : SettlementOperation :=
  mkOperation "op-1" "1.0.0" "tenant" key "fiat_transfer" "did:agent:a" "did:agent:b" (Fin 2500) "EUR"
    (sr_payload signature) s (Fin n) false "" "" None.

Definition sr_key : string :=
  Eval vm_compute in ok_or "" (computeIdempotencyKey (operation_with "" "signed" PENDING 0)).

Definition sr_operation : SettlementRetryState → Z → SettlementOperation := operation_with sr_key "signed".

Definition sr_clock : RetryClock := mkRetryClock "t0" ms_now "t1" "t2" "t3" "attempt".

Definition sr_run : SettlementOperation → SrWorld → res SettlementOperation * SrWorld :=
  executeSettlementRetry settlement_ports id sr_clock "did:agent:settler".

Definition world_with (answers : list (res ProviderResult)) (audit : list (res string)) : SrWorld :=
  mkSrWorld ∅ [] answers audit.

Definition provider_says (s : string) : res ProviderResult := Ok (mkProviderResult "tx" s None None).

Definition state_in (w : SrWorld) : option SettlementRetryState :=
  ir_currentState <$> record_of "tenant" sr_key w.

(** The state the operation comes back in, its count, the state of the record
    and the number of submissions. *)
Definition summary (x : res SettlementOperation * SrWorld)
    : res (SettlementRetryState * num) * option SettlementRetryState * nat :=
  (match x.1 with Ok op => Ok (op_currentState op, op_attemptCount op) | Throw c => Throw c end,
   state_in x.2, length (submissions x.2)).

Example settles_once : summary (sr_run (sr_operation PENDING 0) (world_with [provider_says "SUCCEEDED"] []))
  = (Ok (SUCCEEDED, Fin 1), Some SUCCEEDED, 1%nat).
Proof. vm_compute. reflexivity. Qed.

Example third_failure_is_dead_letter :
  summary (retry_while_failed settlement_ports id [sr_clock; sr_clock; sr_clock] "did:agent:settler"
             (sr_operation PENDING 0) (world_with (replicate 3 (provider_says "FAILED")) []))
  = (Ok (DEAD_LETTER, Fin 3), Some DEAD_LETTER, 3%nat).
Proof. vm_compute. reflexivity. Qed.

Example unsigned_is_refused :
  summary (sr_run (operation_with sr_key "" PENDING 0) (world_with [provider_says "SUCCEEDED"] []))
  = (Throw "SR_SIGNED_PAYLOAD_INVALID", Some PENDING, 0%nat).
Proof. vm_compute. reflexivity. Qed.

(** ** Defects *)

(** An operation that claims to be SUCCEEDED and carries no signature is
    refused, but only after its state has become the record of the key: the
    signed operation is then taken for settled and never submitted. *)
Theorem unsigned_operation_settles_the_key :
  let forged := sr_run (operation_with sr_key "" SUCCEEDED 0) (world_with [provider_says "SUCCEEDED"] []) in
  summary forged = (Throw "SR_SIGNED_PAYLOAD_INVALID", Some SUCCEEDED, 0%nat)
  ∧ summary (sr_run (sr_operation PENDING 0) forged.2) = (Ok (PENDING, Fin 0), Some SUCCEEDED, 0%nat).
Proof. vm_compute. done. Qed.

(** The provider settles, the audit recorder fails, and the record stays
    IN_PROGRESS: running the operation again settles it a second time. *)
Theorem audit_failure_settles_twice :
  let first := sr_run (sr_operation PENDING 0)
                 (world_with [provider_says "SUCCEEDED"; provider_says "SUCCEEDED"] [Throw "ATP_CHAIN_BROKEN"]) in
  summary first = (Throw "ATP_CHAIN_BROKEN", Some IN_PROGRESS, 1%nat)
  ∧ summary (sr_run (sr_operation PENDING 0) first.2) = (Ok (SUCCEEDED, Fin 1), Some SUCCEEDED, 2%nat).
Proof. vm_compute. done. Qed.

(** An attempt whose provider throws is not counted in the operation, which is
    not returned: the same operation may be submitted any number of times. *)
Theorem exceptions_are_not_counted :
  let op := sr_operation PENDING 0 in
  let again x := sr_run op x.2 in
  summary (again (again (again (again (sr_run op (world_with [] []))))))
  = (Throw "SR_PROVIDER_UNAVAILABLE", Some FAILED, 5%nat).
Proof. vm_compute. reflexivity. Qed.

(** ** Witnesses *)

Lemma submission_guarded_witness :
  let op := sr_operation PENDING 0 in
  let w := world_with [provider_says "SUCCEEDED"] [] in
  let w' := (sr_run op w).2 in
  submissions w' = submissions w
  ∨ (submissions w' = submissions w ++ [op] ∧ cleared settlement_ports sr_clock "did:agent:settler" op w).
Proof.
  apply (submission_guarded settlement_ports id sr_clock "did:agent:settler" (sr_operation PENDING 0) _
           (sr_run (sr_operation PENDING 0) (world_with [provider_says "SUCCEEDED"] [])).1).
  vm_compute. reflexivity.
Defined.

Definition sr_done : res SettlementOperation * SrWorld :=
  sr_run (sr_operation PENDING 0) (world_with [provider_says "SUCCEEDED"] []).

Lemma run_outcome_witness :
  let op := sr_operation PENDING 0 in
  let w := world_with [provider_says "SUCCEEDED"] [] in
  let op' := ok_or op sr_done.1 in
  (op' = op ∧ settled op w ∧ record_for op sr_done.2 = record_for op w ∧ submissions sr_done.2 = submissions w)
  ∨ (submissions sr_done.2 = submissions w ++ [op] ∧
     ∃ n b u f, op_attemptCount op = Fin n ∧ 0 ≤ n < 3 ∧ answered settlement_ports op b ∧
       let s := if b : bool then SUCCEEDED else if n <? 2 then FAILED else DEAD_LETTER in
       op' = with_state op s (Fin (n + 1)) u f ∧ ir_currentState <$> record_for op sr_done.2 = Some s).
Proof.
  apply (run_outcome settlement_ports id sr_clock "did:agent:settler"). vm_compute. reflexivity.
Defined.

Lemma terminal_final_witness :
  let again := (sr_clock, "did:agent:settler", sr_operation FAILED 1) in
  let w := sr_done.2 in
  is_Some (record_of "tenant" sr_key (run_all settlement_ports id [again; again] w))
  ∧ submitted_for "tenant" sr_key (run_all settlement_ports id [again; again] w) = submitted_for "tenant" sr_key w.
Proof.
  destruct (record_of "tenant" sr_key sr_done.2) as [rec|] eqn:E; [|vm_compute in E; discriminate E].
  assert (is_terminal (ir_currentState rec) = true) as Ht by (vm_compute in E; injection E as <-; reflexivity).
  destruct (terminal_final settlement_ports id
    [(sr_clock, "did:agent:settler", sr_operation FAILED 1); (sr_clock, "did:agent:settler", sr_operation FAILED 1)]
    "tenant" sr_key sr_done.2 rec E Ht) as [Hr Hs].
  split; [rewrite Hr; eexists; reflexivity|exact Hs].
Defined.

Lemma retries_terminate_witness :
  let op := sr_operation PENDING 0 in
  let w := world_with (replicate 3 (provider_says "FAILED")) [] in
  let run := retry_while_failed settlement_ports id [sr_clock; sr_clock; sr_clock] "did:agent:settler" op w in
  (∀ op', run.1 = Ok op' → is_terminal (op_currentState op') = true)
  ∧ Z.of_nat (length (submissions run.2)) ≤ Z.of_nat (length (submissions w)) + (3 - 0).
Proof.
  apply (retries_terminate settlement_ports id [sr_clock; sr_clock; sr_clock] "did:agent:settler" 0
           (sr_operation PENDING 0) (world_with (replicate 3 (provider_says "FAILED")) [])).
  - reflexivity.
  - lia.
  - intros (r & E & _). vm_compute in E. discriminate E.
  - simpl. lia.
  - vm_compute. reflexivity.
Defined.
