(* ===== verification/TrustBoundary.v ===== *)
(** * Trust boundaries

    packages/communication/src/trust-boundary: the types and the allowlist of
    types.ts, the lifecycle manager over its storage interface, the storage in
    memory, and the handshake middleware.  The proof verifier is a parameter;
    the readings of the clock and the random UUID of a call are arguments. *)
From S2P Require Import Prelude JsValue Time Encoding Crypto Authorization SignedPayload.

(** ** Data *)

Inductive TrustBoundaryState : Type := pending | active | suspended | revoked | expired.
#[export] Instance TrustBoundaryState_eq_dec : EqDecision TrustBoundaryState.
Proof. solve_decision. Defined.

Inductive TbEvent : Type :=
| onTrustEstablished | onLeaseExtended | onSuspended | onResumed | onRevoked | onExpired
| onEmergencySuspended.
#[export] Instance TbEvent_eq_dec : EqDecision TbEvent.
Proof. solve_decision. Defined.

Inductive TransitionSource : Type := client | system | sweeper.
#[export] Instance TransitionSource_eq_dec : EqDecision TransitionSource.
Proof. solve_decision. Defined.

Inductive TransitionId : Type := T1 | T2 | T3 | T4 | T5 | T6 | T7 | T8.
#[export] Instance TransitionId_eq_dec : EqDecision TransitionId.
Proof. solve_decision. Defined.

(** A target state, [None] for 'emergency_suspended'. *)
Definition TbTarget : Type := option TrustBoundaryState.

Record LifecycleWindow : Type := mkWindow { notBefore : string; notAfter : string }.

Record TrustBoundary : Type := mkBoundary {
  tbVersion : string;
  tb_id : string;
  principalSide : string;
  boundedSide : string;
  boundaryScope : list string;
  lifecycleWindow : LifecycleWindow;
  tb_state : TrustBoundaryState;
  stateEnteredAt : string;
  bindingProofId : option string;
  boundedTokenId : option string;
  delegationChainHead : option string;
  emergencyAuthorizationId : option string }.

(** [BoundaryBindingProof] and [LeaseExtensionProof], two interfaces with the
    same fields. *)
Record BoundaryProof : Type := mkBoundaryProof {
  bp_cspVersion : string;
  bp_token : string;
  bp_disclosedClaims : list string;
  bp_challenge : string;
  bp_audience : string;
  bp_notAfter : string;
  bp_proofValue : string;
  bp_boundaryId : string }.

Record TrustBoundaryAuditEvent : Type := mkAuditEvent {
  ae_type : TbEvent;
  ae_boundaryId : string;
  transitionBefore : TrustBoundaryState;
  transitionAfter : TrustBoundaryState;
  ae_transitionSource : TransitionSource;
  ae_actorDID : string;
  ae_timestamp : string;
  ae_bindingProofId : option string }.

Definition LEGAL_TRANSITIONS : list (TransitionId * TrustBoundaryState * TbEvent * TbTarget) :=
  [(T1, pending, onTrustEstablished, Some active); (T2, active, onLeaseExtended, Some active);
   (T3, active, onSuspended, Some suspended); (T4, suspended, onResumed, Some active);
   (T5, active, onRevoked, Some revoked); (T5, suspended, onRevoked, Some revoked);
   (T6, active, onExpired, Some expired); (T6, suspended, onExpired, Some expired);
   (T7, active, onExpired, Some expired); (T7, suspended, onExpired, Some expired);
   (T8, active, onEmergencySuspended, None)].

(** [TB_DEFAULT_BOUNDS] *)
Definition default_minWindowMs : Z := 1000.
Definition default_maxLifecycleWindowMs : Z := 6 * 30 * 24 * 60 * 60 * 1000.

Definition toTrustBoundaryId (s : string) : res string := _ ← check (uuid_v4 s) "Error"; mret s.
Definition toUuidV4String (s : string) : res string := _ ← check (uuid_v4 s) "Error"; mret s.

(** ** Invariants *)

Definition isoToMs (ts : string) : res Z :=
  match iso_getTime ts with Some ms => Ok ms | None => Throw "TB_LIFECYCLE_INVALID" end.

Definition validStates : list TrustBoundaryState := [pending; active; suspended; revoked; expired].

Definition tb_assertInvariant (b : TrustBoundary) : res unit :=
  _ ← check (String.eqb (tbVersion b) "1.0.0") "TB_VERSION_UNSUPPORTED";
  _ ← check (negb (Nat.eqb (String.length (tb_id b)) 0)) "TB_ID_INVALID";
  _ ← check (negb (String.eqb (principalSide b) (boundedSide b))) "TB_PARTY_SELF_REFERENTIAL";
  _ ← check (bool_decide (tb_state b ∈ validStates)) "TB_STATE_INVALID";
  notBeforeMs ← isoToMs (notBefore (lifecycleWindow b));
  notAfterMs ← isoToMs (notAfter (lifecycleWindow b));
  _ ← check (negb (notAfterMs <=? notBeforeMs)) "TB_LIFECYCLE_INVALID";
  _ ← check (negb (bool_decide (tb_state b = pending) && bool_decide (is_Some (bindingProofId b))))
        "TB_BINDING_PROOF_UNEXPECTED";
  check (bool_decide (tb_state b = pending)
         || match bindingProofId b with Some p => negb (Nat.eqb (String.length p) 0) | None => false end)
    "TB_BINDING_PROOF_MISSING".

(** ** The allowlist *)

Definition findLegalTransition (from : TrustBoundaryState) (event : TbEvent) (to : TbTarget)
    (source : TransitionSource) : option TransitionId :=
  let candidates :=
    (λ t, t.1.1.1) <$> filter (λ t, t.1.1.2 = from ∧ t.1.2 = event ∧ t.2 = to) LEGAL_TRANSITIONS in
  match candidates with
  | [] => None
  | [t] => Some t
  | t0 :: _ =>
      if bool_decide (source = sweeper)
      then Some (default t0 (head (filter (λ t, t = T7) candidates)))
      else Some (default t0 (head (filter (λ t, t ≠ T7) candidates)))
  end.

Definition target_of (event : TbEvent) : option TrustBoundaryState :=
  match event with
  | onTrustEstablished | onLeaseExtended | onResumed => Some active
  | onSuspended => Some suspended
  | onRevoked => Some revoked
  | onExpired => Some expired
  | onEmergencySuspended => None
  end.

(** ** Storage *)

Record TrustBoundaryStorage (W : Type) : Type := mkTbStorage {
  tb_load : string → M W (option TrustBoundary);
  tb_save : TrustBoundary → M W unit;
  appendAuditEvent : TrustBoundaryAuditEvent → M W unit }.
Arguments tb_load {W} _ _.
Arguments tb_save {W} _ _.
Arguments appendAuditEvent {W} _ _.

Record TbMemory : Type := mkTbMemory {
  boundaries : gmap string TrustBoundary;
  auditEvents : list TrustBoundaryAuditEvent }.

Definition InMemoryTrustBoundaryStorage : TrustBoundaryStorage TbMemory := {|
  tb_load id w := (Ok (boundaries w !! id), w);
  tb_save b w := (Ok tt, mkTbMemory (<[tb_id b := b]> (boundaries w)) (auditEvents w));
  appendAuditEvent e w := (Ok tt, mkTbMemory (boundaries w) (auditEvents w ++ [e])) |}.

(** ** The manager *)

Record VerifyContext : Type := mkVerifyContext {
  expectedAudience : string; expectedChallenge : string; expectedNotAfter : string }.

(** A verdict: [None] accepts, [Some code] rejects. *)
Record BoundaryProofVerifier : Type := mkProofVerifier {
  verifyBindingProof : BoundaryProof → VerifyContext → res (option string);
  verifyLeaseExtensionProof : BoundaryProof → VerifyContext → res (option string) }.

Record TbManager (W : Type) : Type := mkTbManager {
  storage : TrustBoundaryStorage W;
  verifier : BoundaryProofVerifier;
  maxLifecycleWindowMs : Z;
  minWindowMs : Z }.
Arguments storage {W} _.
Arguments verifier {W} _.
Arguments maxLifecycleWindowMs {W} _.
Arguments minWindowMs {W} _.

(** The readings of [this.now()] in one call, in order, and the random UUID. *)
Record TbClock : Type := mkTbClock { tk_now : Z; tk_entered : Z; tk_logged : Z; tk_uuid : string }.

Record CreateOptions : Type := mkCreate {
  co_id : string;
  co_principalSide : string;
  co_boundedSide : string;
  co_boundaryScope : list string;
  co_requestedNotAfter : string }.

Record TransitionOptions : Type := mkTransition {
  to_id : string;
  to_event : TbEvent;
  to_actorDID : string;
  to_transitionSource : TransitionSource;
  to_bindingProof : option BoundaryProof;
  to_leaseExtensionProof : option BoundaryProof;
  to_requestedNotAfter : option string;
  to_verifyContext : option (string * string) }.

Section manager.
Context {W : Type} (m : TbManager W).

(** The expiry the server allows, for a request. *)
Definition server_enforced (nowMs : Z) (requested : string) : res Z :=
  requestedMs ← isoToMs requested;
  let serverEnforcedMs := Z.min requestedMs (nowMs + maxLifecycleWindowMs m) in
  _ ← check (negb (serverEnforcedMs <=? nowMs + minWindowMs m)) "TB_LIFECYCLE_INVALID";
  mret serverEnforcedMs.

Definition pending_boundary (ck : TbClock) (o : CreateOptions) : res TrustBoundary :=
  id ← toTrustBoundaryId (co_id o);
  _ ← check (negb (String.eqb (co_principalSide o) (co_boundedSide o))) "TB_PARTY_SELF_REFERENTIAL";
  serverEnforcedMs ← server_enforced (tk_now ck) (co_requestedNotAfter o);
  let nb := toISOString (tk_entered ck) in
  let b := mkBoundary "1.0.0" id (co_principalSide o) (co_boundedSide o) (co_boundaryScope o)
             (mkWindow nb (toISOString serverEnforcedMs)) pending nb None None None None in
  _ ← tb_assertInvariant b;
  mret b.

Definition createBoundary (ck : TbClock) (o : CreateOptions) : M W TrustBoundary :=
  b ← lift_res (pending_boundary ck o);
  _ ← tb_save (storage m) b;
  mret b.

Definition getCurrent (id : string) : M W (option TrustBoundary) := tb_load (storage m) id.

(** A parameter that must be given. *)
Definition need {A} (o : option A) (code : string) : res A :=
  match o with Some a => Ok a | None => Throw code end.

Definition accept (verdict : option string) : res unit :=
  match verdict with None => Ok tt | Some code => Throw code end.

(** The case of T1: the new binding proof id. *)
Definition case_T1 (ck : TbClock) (o : TransitionOptions) (b : TrustBoundary) : res (LifecycleWindow * option string) :=
  proof ← need (to_bindingProof o) "TB_PRINCIPAL_POP_MISSING";
  ctx ← need (to_verifyContext o) "TB_PAYLOAD_COVERAGE_INSUFFICIENT";
  _ ← check (String.eqb (bp_boundaryId proof) (tb_id b)) "TB_PAYLOAD_COVERAGE_INSUFFICIENT";
  _ ← check (String.eqb (bp_notAfter proof) (notAfter (lifecycleWindow b))) "TB_EXPIRY_CLIENT_CONTROLLED";
  verdict ← verifyBindingProof (verifier m) proof
              (mkVerifyContext ctx.1 ctx.2 (notAfter (lifecycleWindow b)));
  _ ← accept verdict;
  u ← toUuidV4String (tk_uuid ck);
  mret (lifecycleWindow b, Some u).

Definition case_T2 (ck : TbClock) (o : TransitionOptions) (b : TrustBoundary) : res (LifecycleWindow * option string) :=
  proof ← need (to_leaseExtensionProof o) "TB_PAYLOAD_COVERAGE_INSUFFICIENT";
  ctx ← need (to_verifyContext o) "TB_PAYLOAD_COVERAGE_INSUFFICIENT";
  requested ← need (to_requestedNotAfter o) "TB_LIFECYCLE_INVALID";
  _ ← check (non_empty requested) "TB_LIFECYCLE_INVALID";
  serverEnforcedMs ← server_enforced (tk_now ck) requested;
  let newNotAfter := toISOString serverEnforcedMs in
  _ ← check (String.eqb (bp_notAfter proof) newNotAfter) "TB_EXPIRY_CLIENT_CONTROLLED";
  _ ← check (String.eqb (bp_boundaryId proof) (tb_id b)) "TB_PAYLOAD_COVERAGE_INSUFFICIENT";
  verdict ← verifyLeaseExtensionProof (verifier m) proof (mkVerifyContext ctx.1 ctx.2 newNotAfter);
  _ ← accept verdict;
  u ← toUuidV4String (tk_uuid ck);
  mret (mkWindow (notBefore (lifecycleWindow b)) newNotAfter, Some u).

Definition case_T4 (ck : TbClock) (b : TrustBoundary) : res (LifecycleWindow * option string) :=
  notAfterMs ← isoToMs (notAfter (lifecycleWindow b));
  _ ← check (negb (notAfterMs <=? tk_now ck + minWindowMs m)) "TB_BOUNDARY_EXPIRED";
  u ← toUuidV4String (tk_uuid ck);
  mret (lifecycleWindow b, Some u).

(** The switch on the transition: the next window and binding proof id. *)
Definition dispatch (ck : TbClock) (o : TransitionOptions) (b : TrustBoundary) (legal : TransitionId)
    : res (LifecycleWindow * option string) :=
  match legal with
  | T1 => case_T1 ck o b
  | T2 => case_T2 ck o b
  | T3 | T5 => u ← toUuidV4String (tk_uuid ck); mret (lifecycleWindow b, Some u)
  | T4 => case_T4 ck b
  | T6 => mret (lifecycleWindow b, bindingProofId b)
  | T7 =>
      notAfterMs ← isoToMs (notAfter (lifecycleWindow b));
      _ ← check (negb (tk_now ck <? notAfterMs)) "TB_LIFECYCLE_INVALID";
      mret (lifecycleWindow b, bindingProofId b)
  | T8 => Throw "TB_INVALID_TRANSITION"
  end.

Definition moved (b : TrustBoundary) (s : TrustBoundaryState) (enteredAt : string)
    (next : LifecycleWindow * option string) : TrustBoundary :=
  mkBoundary (tbVersion b) (tb_id b) (principalSide b) (boundedSide b) (boundaryScope b) next.1 s enteredAt
    next.2 (boundedTokenId b) (delegationChainHead b) (emergencyAuthorizationId b).

(** Everything of [transitionState] between the load and the save. *)
Definition next_boundary (ck : TbClock) (o : TransitionOptions) (b : TrustBoundary)
    : res (TransitionId * TrustBoundary) :=
  toState ← need (target_of (to_event o)) "TB_EMERGENCY_NOT_IMPLEMENTED";
  legal ← need (findLegalTransition (tb_state b) (to_event o) (Some toState) (to_transitionSource o))
            "TB_INVALID_TRANSITION";
  _ ← check (negb (bool_decide (legal = T7) && negb (bool_decide (to_transitionSource o = sweeper))))
        "TB_AUDIT_TRANSITION_SOURCE_INVALID";
  _ ← check (negb (negb (bool_decide (legal = T7)) && bool_decide (to_transitionSource o = sweeper)))
        "TB_AUDIT_TRANSITION_SOURCE_INVALID";
  next ← dispatch ck o b legal;
  let b' := moved b toState (toISOString (tk_entered ck)) next in
  _ ← tb_assertInvariant b';
  mret (legal, b').

Definition transition_event (ck : TbClock) (o : TransitionOptions) (b b' : TrustBoundary)
    : TrustBoundaryAuditEvent :=
  mkAuditEvent (to_event o) (tb_id b) (tb_state b) (tb_state b') (to_transitionSource o) (to_actorDID o)
    (toISOString (tk_logged ck)) (bindingProofId b').

Definition transitionState (ck : TbClock) (o : TransitionOptions) : M W TrustBoundary :=
  loaded ← tb_load (storage m) (to_id o);
  b ← lift_res (need loaded "TB_BOUNDARY_NOT_FOUND");
  next ← lift_res (next_boundary ck o b);
  _ ← tb_save (storage m) next.2;
  _ ← appendAuditEvent (storage m) (transition_event ck o b next.2);
  mret next.2.

(** ** The handshake middleware *)

Record HandshakeBoundaryContext : Type := mkHandshakeContext {
  hc_expectedAudience : string;
  hc_expectedChallenge : string;
  hc_create : CreateOptions }.

Definition with_boundary_id (id : string) (p : BoundaryProof) : BoundaryProof :=
  mkBoundaryProof (bp_cspVersion p) (bp_token p) (bp_disclosedClaims p) (bp_challenge p) (bp_audience p)
    (bp_notAfter p) (bp_proofValue p) id.

Definition onHandshakeComplete (ck1 ck2 : TbClock) (ctx : HandshakeBoundaryContext) (proof : BoundaryProof)
    (actorDID : string) : M W TrustBoundary :=
  pending ← createBoundary ck1 (hc_create ctx);
  transitionState ck2
    (mkTransition (tb_id pending) onTrustEstablished actorDID client
       (Some (with_boundary_id (tb_id pending) proof)) None None
       (Some (hc_expectedAudience ctx, hc_expectedChallenge ctx))).

Definition assertBoundaryActive (boundaryId : string) : M W TrustBoundary :=
  loaded ← getCurrent boundaryId;
  b ← lift_res (need loaded "TB_BOUNDARY_NOT_FOUND");
  match tb_state b with
  | active => mret b
  | pending => throw "TB_STATE_INVALID"
  | suspended => throw "TB_SUSPENDED_OPERATION_DENIED"
  | revoked | expired => throw "TB_BOUNDARY_EXPIRED"
  end.

Definition onLeaseExtension (ck : TbClock) (boundaryId requestedNotAfter audience challenge : string)
    (proof : BoundaryProof) (actorDID : string) : M W TrustBoundary :=
  transitionState ck
    (mkTransition boundaryId onLeaseExtended actorDID client None
       (Some (with_boundary_id boundaryId proof)) (Some requestedNotAfter) (Some (audience, challenge))).
End manager.

(** ** What a storage promises *)

Class TbView (W : Type) : Type := {
  boundary_of : string → W → option TrustBoundary;
  audit_of : W → list TrustBoundaryAuditEvent }.

(** A save or an append that throws has written nothing. *)
Class TbLaws {W : Type} `{TbView W} (S : TrustBoundaryStorage W) : Prop := {
  load_spec id w r w' : tb_load S id w = (r, w') →
    (∀ i, boundary_of i w' = boundary_of i w) ∧ audit_of w' = audit_of w
    ∧ ∀ o, r = Ok o → o = boundary_of id w;
  save_spec b w r w' : tb_save S b w = (r, w') →
    audit_of w' = audit_of w
    ∧ ∀ i, boundary_of i w' = if r then (if decide (i = tb_id b) then Some b else boundary_of i w)
                              else boundary_of i w;
  append_spec e w r w' : appendAuditEvent S e w = (r, w') →
    (∀ i, boundary_of i w' = boundary_of i w)
    ∧ audit_of w' = if r then audit_of w ++ [e] else audit_of w }.

#[export] Instance TbMemory_view : TbView TbMemory := {|
  boundary_of id w := boundaries w !! id; audit_of := auditEvents |}.

#[export] Instance TbMemory_laws : TbLaws InMemoryTrustBoundaryStorage.
Proof.
  split.
  - intros id w r w' [= <- <-]. split_and!; [done|done|]. by intros o [= <-].
  - intros b w r w' [= <- <-]. split; [done|]. intros i. simpl.
    destruct (decide (i = tb_id b)) as [->|]; [apply lookup_insert_eq|by apply lookup_insert_ne].
  - by intros e w r w' [= <- <-].
Qed.

(** ** The declarative rules *)

(** The invariants I_tb_ver and I1 to I6, as a predicate. *)
Record tb_valid (b : TrustBoundary) : Prop := mkValid {
  tv_version : tbVersion b = "1.0.0";
  tv_id : tb_id b ≠ "";
  tv_sides : principalSide b ≠ boundedSide b;
  tv_window : ∃ t1 t2, iso_getTime (notBefore (lifecycleWindow b)) = Some t1
                       ∧ iso_getTime (notAfter (lifecycleWindow b)) = Some t2 ∧ t1 < t2;
  tv_proof : match bindingProofId b with None => tb_state b = pending | Some p => tb_state b ≠ pending ∧ p ≠ "" end }.

Lemma isoToMs_ok s t : isoToMs s = Ok t ↔ iso_getTime s = Some t.
Proof. unfold isoToMs. destruct (iso_getTime s); naive_solver. Qed.

Lemma length_zero s : negb (Nat.eqb (String.length s) 0) = true ↔ s ≠ "".
Proof. by destruct s; simpl. Qed.

Lemma assertInvariant_ok b : tb_assertInvariant b = Ok tt ↔ tb_valid b.
Proof.
  unfold tb_assertInvariant. split.
  - intros ([] & H1%check_ok%String.eqb_eq & ([] & H2%check_ok%length_zero & ([] & H3%check_ok &
      ([] & _ & E)%res_bind_ok)%res_bind_ok)%res_bind_ok)%res_bind_ok.
    apply res_bind_ok in E as (t1 & T1%isoToMs_ok & (t2 & T2%isoToMs_ok & ([] & H5%check_ok & E)%res_bind_ok)%res_bind_ok).
    apply res_bind_ok in E as ([] & H6%check_ok & H7%check_ok).
    apply negb_true_iff, String.eqb_neq in H3. apply negb_true_iff, Z.leb_gt in H5.
    split; [done..|by exists t1, t2|]. destruct (bindingProofId b) as [p|]; simpl in *.
    + rewrite andb_true_r in H6.
      apply negb_true_iff, bool_decide_eq_false in H6. rewrite bool_decide_false in H7 by done.
      split; [done|]. by apply length_zero.
    + rewrite orb_false_r in H7. by apply bool_decide_eq_true in H7.
  - intros [H1 H2 H3 (t1 & t2 & T1 & T2 & H5) H6].
    apply res_bind_ok. exists tt. rewrite check_ok, String.eqb_eq. split; [done|].
    apply res_bind_ok. exists tt. rewrite check_ok, length_zero. split; [done|].
    apply res_bind_ok. exists tt. rewrite check_ok, negb_true_iff, String.eqb_neq. split; [done|].
    apply res_bind_ok. exists tt. rewrite check_ok. split; [by destruct (tb_state b)|].
    apply res_bind_ok. exists t1. rewrite isoToMs_ok. split; [done|].
    apply res_bind_ok. exists t2. rewrite isoToMs_ok. split; [done|].
    apply res_bind_ok. exists tt. rewrite check_ok, negb_true_iff, Z.leb_gt. split; [done|].
    apply res_bind_ok. exists tt. rewrite !check_ok.
    destruct (bindingProofId b) as [p|]; [destruct H6 as [Hp ?%length_zero]|rewrite H6; by split].
    rewrite (bool_decide_false (tb_state b = pending)) by done. by split.
Qed.

Section rules.
Context {W : Type} (m : TbManager W).

(** The state machine: T1 to T7. *)
Inductive edge : TransitionId → TrustBoundaryState → TbEvent → TrustBoundaryState → Prop :=
| edge_T1 : edge T1 pending onTrustEstablished active
| edge_T2 : edge T2 active onLeaseExtended active
| edge_T3 : edge T3 active onSuspended suspended
| edge_T4 : edge T4 suspended onResumed active
| edge_T5 s : s = active ∨ s = suspended → edge T5 s onRevoked revoked
| edge_T6 s : s = active ∨ s = suspended → edge T6 s onExpired expired
| edge_T7 s : s = active ∨ s = suspended → edge T7 s onExpired expired.

(** The proof that T1 asks for. *)
Definition established (o : TransitionOptions) (b : TrustBoundary) : Prop :=
  ∃ p a c, to_bindingProof o = Some p ∧ to_verifyContext o = Some (a, c)
    ∧ bp_boundaryId p = tb_id b ∧ bp_notAfter p = notAfter (lifecycleWindow b)
    ∧ verifyBindingProof (verifier m) p (mkVerifyContext a c (notAfter (lifecycleWindow b))) = Ok None.

(** The instant a server that reads [now] allows for a request. *)
Definition allowed_until (now : Z) (requested : string) (t : Z) : Prop :=
  ∃ q, iso_getTime requested = Some q ∧ t = Z.min q (now + maxLifecycleWindowMs m) ∧ now + minWindowMs m < t.

Definition extended (now : Z) (o : TransitionOptions) (b : TrustBoundary) (t : Z) : Prop :=
  ∃ p a c q, to_leaseExtensionProof o = Some p ∧ to_verifyContext o = Some (a, c)
    ∧ to_requestedNotAfter o = Some q ∧ q ≠ "" ∧ allowed_until now q t
    ∧ bp_boundaryId p = tb_id b ∧ bp_notAfter p = toISOString t
    ∧ verifyLeaseExtensionProof (verifier m) p (mkVerifyContext a c (toISOString t)) = Ok None.

(** What each transition demands and changes: the window and the proof id. *)
Definition demands (ck : TbClock) (o : TransitionOptions) (b : TrustBoundary) (t : TransitionId)
    (next : LifecycleWindow * option string) : Prop :=
  let keep := lifecycleWindow b in
  let renew w := uuid_v4 (tk_uuid ck) = true ∧ next = (w, Some (tk_uuid ck)) in
  match t with
  | T1 => established o b ∧ renew keep
  | T2 => ∃ e, extended (tk_now ck) o b e ∧ renew (mkWindow (notBefore keep) (toISOString e))
  | T3 | T5 => renew keep
  | T4 => (∃ e, iso_getTime (notAfter keep) = Some e ∧ tk_now ck + minWindowMs m < e) ∧ renew keep
  | T6 => next = (keep, bindingProofId b)
  | T7 => (∃ e, iso_getTime (notAfter keep) = Some e ∧ e ≤ tk_now ck) ∧ next = (keep, bindingProofId b)
  | T8 => False
  end.

(** The rule of a transition. *)
Definition lawful (ck : TbClock) (o : TransitionOptions) (b : TrustBoundary) (t : TransitionId)
    (b' : TrustBoundary) : Prop :=
  edge t (tb_state b) (to_event o) (tb_state b')
  ∧ (t = T7 ↔ to_transitionSource o = sweeper)
  ∧ (∃ next, demands ck o b t next ∧ b' = moved b (tb_state b') (toISOString (tk_entered ck)) next)
  ∧ tb_valid b'.

Lemma need_ok {A} (x : option A) c a : need x c = Ok a ↔ x = Some a.
Proof. destruct x; simpl; naive_solver. Qed.
Lemma accept_ok v : accept v = Ok tt ↔ v = None.
Proof. destruct v; simpl; split; congruence. Qed.
Lemma uuid_ok s u : toUuidV4String s = Ok u ↔ uuid_v4 s = true ∧ u = s.
Proof. unfold toUuidV4String, check. destruct (uuid_v4 s); simpl; (split; [by intros [=]|by intros [? ->]]). Qed.
Lemma server_enforced_ok now q t : server_enforced m now q = Ok t ↔ allowed_until now q t.
Proof.
  unfold server_enforced, allowed_until. rewrite res_bind_ok. setoid_rewrite isoToMs_ok. split.
  - intros (r & Hr & ([] & Hc%check_ok & [= <-])%res_bind_ok).
    apply negb_true_iff, Z.leb_gt in Hc. eauto.
  - intros (r & Hr & -> & Hc). exists r. split; [done|]. apply res_bind_ok. exists tt.
    split; [|done]. apply check_ok, negb_true_iff, Z.leb_gt. done.
Qed.

Lemma renew_ok ck (w : LifecycleWindow) next :
  (u ← toUuidV4String (tk_uuid ck); mret (w, Some u)) = Ok next
  ↔ uuid_v4 (tk_uuid ck) = true ∧ next = (w, Some (tk_uuid ck)).
Proof.
  rewrite res_bind_ok. setoid_rewrite uuid_ok. split.
  - by intros (u & [? ->] & [= <-]).
  - intros [? ->]. by exists (tk_uuid ck).
Qed.

Lemma case_T1_ok ck o b next : case_T1 m ck o b = Ok next ↔ demands ck o b T1 next.
Proof.
  unfold case_T1, demands, established. split.
  - intros (p & Hp%need_ok & ([a c] & Hc%need_ok & ([] & H1%check_ok%String.eqb_eq &
      ([] & H2%check_ok%String.eqb_eq & (v & Hv & ([] & ->%accept_ok & E)%res_bind_ok)%res_bind_ok)%res_bind_ok)%res_bind_ok)%res_bind_ok)%res_bind_ok.
    apply renew_ok in E. split; [|done]. by exists p, a, c.
  - intros [(p & a & c & Hp & Hc & H1 & H2 & Hv) Hr].
    apply res_bind_ok. exists p. rewrite need_ok. split; [done|].
    apply res_bind_ok. exists (a, c). rewrite need_ok. split; [done|].
    apply res_bind_ok. exists tt. rewrite check_ok, String.eqb_eq. split; [done|].
    apply res_bind_ok. exists tt. rewrite check_ok, String.eqb_eq. split; [done|].
    apply res_bind_ok. exists None. split; [done|]. by apply renew_ok.
Qed.

Lemma case_T2_ok ck o b next : case_T2 m ck o b = Ok next ↔ demands ck o b T2 next.
Proof.
  unfold case_T2, demands, extended. split.
  - intros (p & Hp%need_ok & ([a c] & Hc%need_ok & (q & Hq%need_ok & ([] & Hne%check_ok & E)%res_bind_ok)%res_bind_ok)%res_bind_ok)%res_bind_ok.
    apply res_bind_ok in E as (t & Ht%server_enforced_ok & ([] & H1%check_ok%String.eqb_eq &
      ([] & H2%check_ok%String.eqb_eq & (v & Hv & ([] & ->%accept_ok & E)%res_bind_ok)%res_bind_ok)%res_bind_ok)%res_bind_ok).
    apply renew_ok in E. exists t. split; [|done]. exists p, a, c, q.
    apply negb_true_iff, String.eqb_neq in Hne. done.
  - intros (t & (p & a & c & q & Hp & Hc & Hq & Hne & Ht & H1 & H2 & Hv) & Hr).
    apply res_bind_ok. exists p. rewrite need_ok. split; [done|].
    apply res_bind_ok. exists (a, c). rewrite need_ok. split; [done|].
    apply res_bind_ok. exists q. rewrite need_ok. split; [done|].
    apply res_bind_ok. exists tt. split; [by apply check_ok, negb_true_iff, String.eqb_neq|].
    apply res_bind_ok. exists t. rewrite server_enforced_ok. split; [done|].
    apply res_bind_ok. exists tt. rewrite check_ok, String.eqb_eq. split; [done|].
    apply res_bind_ok. exists tt. rewrite check_ok, String.eqb_eq. split; [done|].
    apply res_bind_ok. exists None. split; [done|]. by apply renew_ok.
Qed.

(** A check on the instant at which the window ends. *)
Lemma window_check_ok {A} b (ok : Z → bool) code (k : res A) a :
  (e ← isoToMs (notAfter (lifecycleWindow b)); _ ← check (ok e) code; k) = Ok a
  ↔ (∃ e, iso_getTime (notAfter (lifecycleWindow b)) = Some e ∧ ok e = true) ∧ k = Ok a.
Proof.
  rewrite res_bind_ok. setoid_rewrite isoToMs_ok. split.
  - intros (e & He & ([] & Hc%check_ok & Hk)%res_bind_ok). eauto.
  - intros [(e & He & Hc) Hk]. exists e. split; [done|]. apply res_bind_ok. exists tt. by rewrite check_ok.
Qed.

Lemma dispatch_ok ck o b t next : dispatch m ck o b t = Ok next ↔ demands ck o b t next.
Proof.
  destruct t; unfold dispatch, case_T4.
  - apply case_T1_ok.
  - apply case_T2_ok.
  - apply renew_ok.
  - rewrite window_check_ok, renew_ok. setoid_rewrite negb_true_iff. setoid_rewrite Z.leb_gt. done.
  - apply renew_ok.
  - simpl. split; [by intros [= <-]|by intros ->].
  - rewrite window_check_ok. setoid_rewrite negb_true_iff. setoid_rewrite Z.ltb_ge. simpl.
    split; [by intros [? [= <-]]|by intros [? ->]].
  - by simpl.
Qed.

(** The allowlist is the state machine; only T6 and T7 share an edge. *)
Lemma find_legal from ev s src t :
  target_of ev = Some s →
  findLegalTransition from ev (Some s) src = Some t ∧ (t = T7 ↔ src = sweeper)
  ↔ edge t from ev s ∧ (t = T7 ↔ src = sweeper).
Proof.
  intros Ht. split; intros [H1 H2]; (split; [|done]).
  - destruct ev, from; try discriminate Ht; injection Ht as <-; vm_compute in H1;
      try discriminate H1; destruct src; simplify_eq; constructor; auto.
  - destruct H1 as [| | | |? [->| ->]|? [->| ->]|? [->| ->]]; destruct src; vm_compute; try done;
      naive_solver.
Qed.

Lemma edge_target t from ev s : edge t from ev s → target_of ev = Some s.
Proof. by destruct 1. Qed.

Lemma source_checks t src :
  check (negb (bool_decide (t = T7) && negb (bool_decide (src = sweeper)))) "TB_AUDIT_TRANSITION_SOURCE_INVALID" = Ok tt
  ∧ check (negb (negb (bool_decide (t = T7)) && bool_decide (src = sweeper))) "TB_AUDIT_TRANSITION_SOURCE_INVALID" = Ok tt
  ↔ (t = T7 ↔ src = sweeper).
Proof.
  rewrite !check_ok. destruct (bool_decide_reflect (t = T7)), (bool_decide_reflect (src = sweeper)); simpl; naive_solver.
Qed.

(** A transition is carried out exactly when the declarative rule allows it. *)
Lemma next_boundary_ok ck o b t b' : next_boundary m ck o b = Ok (t, b') ↔ lawful ck o b t b'.
Proof.
  unfold next_boundary, lawful. split.
  - intros (s & Hs%need_ok & (t' & Hl%need_ok & ([] & H1 & ([] & H2 & (next & Hn%dispatch_ok & E)%res_bind_ok)%res_bind_ok)%res_bind_ok)%res_bind_ok)%res_bind_ok.
    apply res_bind_ok in E as ([] & Hv%assertInvariant_ok & [= <- <-]).
    pose proof (proj1 (source_checks _ _) (conj H1 H2)) as Hsrc.
    destruct (proj1 (find_legal _ _ _ _ _ Hs) (conj Hl Hsrc)) as [He _].
    split_and!; [done|done| |done]. exists next. by split.
  - intros (He & Hsrc & (next & Hn & Eb) & Hv). pose proof (edge_target _ _ _ _ He) as Hs.
    destruct (proj2 (find_legal _ _ _ _ _ Hs) (conj He Hsrc)) as [Hl _].
    destruct (proj2 (source_checks _ _) Hsrc) as [H1 H2].
    apply res_bind_ok. exists (tb_state b'). rewrite need_ok. split; [done|].
    apply res_bind_ok. exists t. rewrite need_ok. split; [done|].
    apply res_bind_ok. exists tt. split; [done|]. apply res_bind_ok. exists tt. split; [done|].
    apply res_bind_ok. exists next. rewrite dispatch_ok. split; [done|]. rewrite <- Eb.
    apply res_bind_ok. exists tt. by rewrite assertInvariant_ok.
Qed.
End rules.

(** A storage whose operations do not fail, as the one in memory. *)
Class TbReliable {W : Type} (S : TrustBoundaryStorage W) : Prop := {
  load_ok id w : ∃ o w', tb_load S id w = (Ok o, w');
  save_ok b w : ∃ w', tb_save S b w = (Ok tt, w');
  append_ok e w : ∃ w', appendAuditEvent S e w = (Ok tt, w') }.

#[export] Instance TbMemory_reliable : TbReliable InMemoryTrustBoundaryStorage.
Proof. split; repeat eexists. Qed.

Section runs.
Context {W : Type} `{TbView W} (m : TbManager W) `{!TbLaws (storage m)}.

Definition same_boundaries (w w' : W) : Prop := ∀ i, boundary_of i w' = boundary_of i w.

(** The boundary [b] was written and no other. *)
Definition stored (b : TrustBoundary) (w w' : W) : Prop :=
  ∀ i, boundary_of i w' = if decide (i = tb_id b) then Some b else boundary_of i w.

Lemma pending_boundary_ok ck o b :
  pending_boundary m ck o = Ok b →
  tb_id b = co_id o ∧ tb_valid b ∧ tb_state b = pending
  ∧ ∃ t, allowed_until m (tk_now ck) (co_requestedNotAfter o) t ∧ notAfter (lifecycleWindow b) = toISOString t.
Proof.
  unfold pending_boundary, toTrustBoundaryId.
  intros (? & ([] & _ & [= <-])%res_bind_ok & ([] & _ & (t & Ht%server_enforced_ok & E)%res_bind_ok)%res_bind_ok)%res_bind_ok.
  apply res_bind_ok in E as ([] & Hv%assertInvariant_ok & [= <-]). eauto 10.
Qed.

Lemma create_effect ck o w r w' :
  createBoundary m ck o w = (r, w') →
  audit_of w' = audit_of w ∧
  ((same_boundaries w w' ∧ ∀ b, r ≠ Ok b)
   ∨ ∃ b, pending_boundary m ck o = Ok b ∧ r = Ok b ∧ stored b w w').
Proof.
  intros [(b & w1 & [= Hb <-] & E)|(c & [= Hb <-] & ->)]%M_bind_inv; [|by split; [|left]].
  apply M_bind_inv in E as [([] & w2 & [Ha Hs]%save_spec & [= <- <-])|(c & [Ha Hs]%save_spec & ->)]; (split; [done|]).
  - right. by exists b.
  - by left.
Qed.

Lemma transition_effect ck o w r w' :
  transitionState m ck o w = (r, w') →
  (same_boundaries w w' ∧ audit_of w' = audit_of w ∧ ∀ b, r ≠ Ok b)
  ∨ ∃ b t b', boundary_of (to_id o) w = Some b ∧ lawful m ck o b t b' ∧ stored b' w w'
      ∧ ((r = Ok b' ∧ audit_of w' = audit_of w ++ [transition_event ck o b b'])
         ∨ ((∃ c, r = Throw c) ∧ audit_of w' = audit_of w)).
Proof.
  intros [(l & w1 & (Hb1 & Ha1 & Hl)%load_spec & E)|(c & (Hb1 & Ha1 & _)%load_spec & ->)]%M_bind_inv; [|by left].
  apply M_bind_inv in E as [(b & ? & [= Hn%need_ok <-] & E)|(c & [= _ <-] & ->)]; [|by left].
  apply M_bind_inv in E as [([t b'] & ? & [= Hnext%next_boundary_ok <-] & E)|(c & [= _ <-] & ->)]; [|by left].
  rewrite (Hl l eq_refl) in Hn.
  apply M_bind_inv in E as [([] & w2 & [Ha2 Hs]%save_spec & E)|(c & [Ha2 Hs]%save_spec & ->)]; simpl in *.
  2:{ left. split_and!; [intros i; by rewrite Hs, Hb1|congruence|done]. }
  assert (stored b' w w2) as Hst by (intros i; rewrite Hs, Hb1; done).
  apply M_bind_inv in E as [([] & w3 & [Hb3 Ha3]%append_spec & [= <- <-])|(c & [Hb3 Ha3]%append_spec & ->)];
    right; exists b, t, b'; (split_and!; [done|done|intros i; by rewrite Hb3, Hst|]).
  - left. split; [done|]. by rewrite Ha3, Ha2, Ha1.
  - right. split; [by eexists|congruence].
Qed.

(** A lawful transition goes through on a storage that does not fail. *)
Lemma transition_succeeds ck o w b t b' :
  TbReliable (storage m) → boundary_of (to_id o) w = Some b → lawful m ck o b t b' →
  ∃ w', transitionState m ck o w = (Ok b', w').
Proof.
  intros Hrel Hb Hl%next_boundary_ok. unfold transitionState.
  destruct (load_ok (to_id o) w) as (l & w1 & El). 
  destruct (load_spec _ _ _ _ El) as (_ & _ & Hload). specialize (Hload l eq_refl). subst l.
  destruct (save_ok b' w1) as [w2 Es]. destruct (append_ok (transition_event ck o b b') w2) as [w3 Ea].
  exists w3. rewrite (M_bind_run _ _ _ _ _ El), Hb, (M_bind_run _ _ b _ w1) by done.
  rewrite (M_bind_run _ _ (t, b') _ w1) by (unfold lift_res; by rewrite Hl).
  by rewrite (M_bind_run _ _ _ _ _ Es), (M_bind_run _ _ _ _ _ Ea).
Qed.

(** ** Theorems *)

(** On a storage that does not fail, [transitionState] returns a boundary
    exactly when the boundary exists and the rule of one of T1 to T7 leads from
    it to the result: the edge is in the state machine, the source fits the
    transition, the proof of T1 or T2 is for this boundary and the server's
    expiry and was verified, T4 comes before and T7 after the end of the
    window, and the result keeps the invariants. *)
Theorem transition_exact ck o w b' :
  TbReliable (storage m) →
  (∃ w', transitionState m ck o w = (Ok b', w'))
  ↔ ∃ b t, boundary_of (to_id o) w = Some b ∧ lawful m ck o b t b'.
Proof.
  intros Hrel. split.
  - intros [w' [(_ & _ & Hn)|(b & t & b1 & Hb & Hl & _ & [[[= ->] _]|[[c [=]] _]])]%transition_effect];
      [by edestruct Hn|eauto].
  - intros (b & t & Hb & Hl). by eapply transition_succeeds.
Qed.

(** Calls in any order; a call that throws leaves the store as it left it. *)
Inductive TbCall : Type :=
| call_create (ck : TbClock) (o : CreateOptions)
| call_transition (ck : TbClock) (o : TransitionOptions).

Definition tb_call (w : W) (c : TbCall) : W :=
  match c with
  | call_create ck o => (createBoundary m ck o w).2
  | call_transition ck o => (transitionState m ck o w).2
  end.

Definition tb_run (calls : list TbCall) (w : W) : W := foldl tb_call w calls.

(** One call: nothing, a new pending boundary, or a lawful transition. *)
Lemma call_effect c w :
  same_boundaries w (tb_call w c)
  ∨ (∃ ck o b, c = call_create ck o ∧ pending_boundary m ck o = Ok b ∧ stored b w (tb_call w c))
  ∨ (∃ ck o b t b', c = call_transition ck o ∧ boundary_of (to_id o) w = Some b ∧ lawful m ck o b t b'
                    ∧ stored b' w (tb_call w c)).
Proof.
  destruct c as [ck o|ck o]; simpl.
  - destruct (createBoundary m ck o w) as [r w'] eqn:E. apply create_effect in E as [_ [[? _]|(b & ? & _ & ?)]]; eauto 10.
  - destruct (transitionState m ck o w) as [r w'] eqn:E.
    apply transition_effect in E as [(? & _)|(b & t & b' & ? & ? & ? & _)]; eauto 10. right; right. by exists ck, o, b, t, b'.
Qed.

(** A property of boundaries that creation establishes and lawful transitions
    keep holds of every stored boundary after any calls. *)
Lemma run_invariant (I : TrustBoundary → Prop) calls w :
  (∀ ck o b, call_create ck o ∈ calls → pending_boundary m ck o = Ok b → I b) →
  (∀ ck o b t b', call_transition ck o ∈ calls → I b → lawful m ck o b t b' → I b') →
  (∀ i b, boundary_of i w = Some b → I b) →
  ∀ i b, boundary_of i (tb_run calls w) = Some b → I b.
Proof.
  revert w. induction calls as [|c calls IH]; intros w Hc Ht Hw; [done|]. simpl.
  apply IH; [intros; eapply Hc; [by right|done]|intros; eapply Ht; [by right|done..]|].
  intros i b Hi. destruct (call_effect c w) as [Hs|[(ck & o & b1 & -> & Hp & Hs)|(ck & o & b1 & t & b' & -> & Hb & Hl & Hs)]];
    rewrite Hs in Hi.
  - eauto.
  - case_decide; [simplify_eq; eapply Hc; [by left|done]|eauto].
  - case_decide; [simplify_eq; eapply Ht; [by left|by eapply Hw|done]|eauto].
Qed.

(** After any sequence of calls, with any proofs, clocks and failures of the
    storage, every stored boundary has the supported version, an id, two
    different sides, an ordered window, and a binding proof exactly when it is
    no longer pending. *)
Theorem boundaries_valid calls w :
  (∀ i b, boundary_of i w = Some b → tb_valid b) →
  ∀ i b, boundary_of i (tb_run calls w) = Some b → tb_valid b.
Proof.
  apply run_invariant.
  - by intros ck o b _ (_ & ? & _)%pending_boundary_ok.
  - by intros ck o b t b' _ _ (_ & _ & _ & ?).
Qed.

Lemma edge_not_terminal t s ev s' : edge t s ev s' → s ≠ revoked ∧ s ≠ expired.
Proof. destruct 1; naive_solver. Qed.

Lemma moved_id b s e next : tb_id (moved b s e next) = tb_id b.
Proof. done. Qed.

Lemma lawful_id ck o b t b' : lawful m ck o b t b' → tb_id b' = tb_id b.
Proof. intros (_ & _ & (next & _ & ->) & _). done. Qed.

(** Each boundary is stored under its id. *)
Definition keyed (w : W) : Prop := ∀ i b, boundary_of i w = Some b → tb_id b = i.

Lemma call_keyed c w : keyed w → keyed (tb_call w c).
Proof.
  intros Hk i b Hi. destruct (call_effect c w) as [Hs|[(ck & o & b1 & _ & Hp & Hs)|(ck & o & b1 & t & b' & _ & Hb & Hl & Hs)]];
    rewrite Hs in Hi; [by apply Hk|case_decide; [congruence|by apply Hk]..].
Qed.

(** A revoked or expired boundary is final: no call changes it, as long as no
    boundary is created under its id. *)
Theorem terminal_boundaries_final calls w i b :
  keyed w → boundary_of i w = Some b → tb_state b = revoked ∨ tb_state b = expired →
  (∀ ck o, call_create ck o ∈ calls → co_id o ≠ i) →
  boundary_of i (tb_run calls w) = Some b.
Proof.
  revert w. induction calls as [|c calls IH]; intros w Hk Hi Ht Hnew; [done|]. simpl.
  apply IH; [by apply call_keyed| |done|intros; eapply Hnew; by right].
  destruct (call_effect c w) as [Hs|[(ck & o & b1 & -> & (E & _)%pending_boundary_ok & Hs)|(ck & o & b1 & t & b' & -> & Hb & Hl & Hs)]];
    rewrite Hs; [done|case_decide; [|done]..]; subst.
  - destruct (Hnew ck o); [by left|done].
  - rewrite (lawful_id _ _ _ _ _ Hl), (Hk _ _ Hb), Hb in Hi. simplify_eq.
    destruct Hl as [[]%edge_not_terminal _]. naive_solver.
Qed.

(** The calls hold a T1 with a verified binding proof for the boundary. *)
Definition proof_presented (calls : list TbCall) (i : string) : Prop :=
  ∃ ck o p a c n, call_transition ck o ∈ calls ∧ to_bindingProof o = Some p ∧ to_verifyContext o = Some (a, c)
    ∧ bp_boundaryId p = i ∧ bp_notAfter p = n
    ∧ verifyBindingProof (verifier m) p (mkVerifyContext a c n) = Ok None.

Lemma assertBoundaryActive_ok i w b w' :
  assertBoundaryActive m i w = (Ok b, w') → boundary_of i w = Some b ∧ tb_state b = active.
Proof.
  intros (l & w1 & (_ & _ & El)%load_spec & E)%M_bind_ok. rewrite (El l eq_refl) in E.
  apply M_bind_ok in E as (b1 & ? & [= Hn%need_ok <-] & E).
  destruct (tb_state b1) eqn:Es; try discriminate E. injection E as <- <-. done.
Qed.

(** Messages are received only across a boundary that was established: when
    [assertBoundaryActive] lets a boundary pass after any calls on a store that
    held no established boundary, one of the calls presented a binding proof
    for this boundary which the verifier accepted for its expiry. *)
Theorem active_was_established calls w i b w' :
  (∀ j x, boundary_of j w = Some x → tb_state x = pending) →
  assertBoundaryActive m i (tb_run calls w) = (Ok b, w') →
  boundary_of i (tb_run calls w) = Some b ∧ tb_state b = active ∧ proof_presented calls (tb_id b).
Proof.
  intros Hw [Hb Ha]%assertBoundaryActive_ok. split_and!; [done|done|].
  assert (tb_state b = pending ∨ proof_presented calls (tb_id b)) as [?|?]; [|congruence|done].
  revert Hb. apply (run_invariant (λ b, tb_state b = pending ∨ proof_presented calls (tb_id b))).
  - intros ck o x _ (_ & _ & ? & _)%pending_boundary_ok. by left.
  - intros ck o x t x' Hin HI Hl. right. rewrite (lawful_id _ _ _ _ _ Hl).
    destruct Hl as (He & _ & (next & Hd & _) & _). inversion He as [E1 E2| | | |? Hs|? Hs|? Hs]; subst.
    1: destruct Hd as [(p & a & c & Hp & Hc & Hid & Hn & Hv) _]; by exists ck, o, p, a, c, (notAfter (lifecycleWindow x)).
    all: destruct HI; [|done]; naive_solver congruence.
  - intros j x Hx. left. by eapply Hw.
Qed.

(** No boundary outlives the largest window by more than the server allows:
    when all calls read a clock that has not passed [now], every stored
    boundary ends at most [maxLifecycleWindowMs] after [now], whatever expiry
    was requested and however often the lease was extended. *)
Theorem lease_bounded calls w now :
  0 ≤ minWindowMs m → iso_range (now + maxLifecycleWindowMs m) →
  (∀ j, boundary_of j w = None) →
  (∀ ck o, call_create ck o ∈ calls → 0 ≤ tk_now ck ≤ now) →
  (∀ ck o, call_transition ck o ∈ calls → 0 ≤ tk_now ck ≤ now) →
  ∀ i b, boundary_of i (tb_run calls w) = Some b →
    ∃ t, iso_getTime (notAfter (lifecycleWindow b)) = Some t ∧ t ≤ now + maxLifecycleWindowMs m.
Proof.
  intros Hmin Hmax Hw Hc Ht.
  assert (∀ ck q t, 0 ≤ tk_now ck ≤ now → allowed_until m (tk_now ck) q t →
    iso_getTime (toISOString t) = Some t ∧ t ≤ now + maxLifecycleWindowMs m) as Hall.
  { intros ck q t Hck (r & _ & -> & Hlt). split; [apply iso_print_parse|]; unfold iso_range in *; lia. }
  apply (run_invariant (λ b, ∃ t, iso_getTime (notAfter (lifecycleWindow b)) = Some t ∧ t ≤ now + maxLifecycleWindowMs m)).
  - intros ck o b Hin (_ & _ & _ & t & Ha & ->)%pending_boundary_ok. exists t. eapply Hall; [by eapply Hc|done].
  - intros ck o b t b' Hin HI (He & _ & (next & Hd & ->) & _). simpl.
    destruct t; simpl in Hd; try (by destruct Hd as [_ [_ ->]] || destruct Hd as [_ ->] || destruct Hd); subst; simpl; try done.
    destruct Hd as (e & (? & ? & ? & q & _ & _ & _ & _ & Ha & _) & _ & ->). exists e. eapply Hall; [by eapply Ht|done].
  - intros i b Hi. by rewrite Hw in Hi.
Qed.

(** The state that the audit events of a boundary lead to. *)
Definition replay_event (i : string) (s : option TrustBoundaryState) (e : TrustBoundaryAuditEvent)
    : option TrustBoundaryState :=
  if decide (ae_boundaryId e = i)
  then (if decide (s = Some (transitionBefore e)) then Some (transitionAfter e) else None)
  else s.
Definition replay_log (i : string) (events : list TrustBoundaryAuditEvent) : option TrustBoundaryState :=
  foldl (replay_event i) (Some pending) events.

(** No boundary is created under the id of a stored one. *)
Fixpoint fresh_creations (calls : list TbCall) (w : W) : Prop :=
  match calls with
  | [] => True
  | c :: rest =>
      (∀ ck o, c = call_create ck o → boundary_of (co_id o) w = None) ∧ fresh_creations rest (tb_call w c)
  end.

(** The log agrees with the store, and is silent on boundaries not stored. *)
Definition log_agrees (w : W) : Prop :=
  keyed w ∧ ∀ i, replay_log i (audit_of w) = Some (match boundary_of i w with Some b => tb_state b | None => pending end).

Lemma call_log_agrees c w :
  TbReliable (storage m) → (∀ ck o, c = call_create ck o → boundary_of (co_id o) w = None) →
  log_agrees w → log_agrees (tb_call w c).
Proof.
  intros Hrel Hnew [Hk Hlog]. split; [by apply call_keyed|]. intros i. destruct c as [ck o|ck o]; simpl.
  - destruct (createBoundary m ck o w) as [r w'] eqn:E.
    apply create_effect in E as [Ha [[Hs _]|(b & (Eid & _ & Hp & _)%pending_boundary_ok & _ & Hs)]]; simpl;
      rewrite Ha, Hlog, Hs; [done|].
    case_decide; [|done]. subst i. by rewrite Eid, (Hnew ck o), Hp.
  - destruct (transitionState m ck o w) as [r w'] eqn:E. simpl.
    pose proof (transition_effect _ _ _ _ _ E) as [(Hs & Ha & _)|(b & t & b' & Hb & Hl & Hs & He)].
    { by rewrite Ha, Hlog, Hs. }
    assert (audit_of w' = audit_of w ++ [transition_event ck o b b']) as ->.
    { destruct He as [[_ ?]|[[c ->] _]]; [done|].
      destruct (transition_succeeds ck o w b t b') as [w2 E2]; [done..|congruence]. }
    unfold replay_log. rewrite foldl_app. fold (replay_log i (audit_of w)). rewrite Hlog, Hs. simpl.
    unfold replay_event, transition_event. simpl. rewrite (lawful_id _ _ _ _ _ Hl).
    destruct (decide (tb_id b = i)) as [<-|Hne]; [|by rewrite decide_False by done].
    rewrite (decide_True (P := tb_id b = tb_id b)) by done.
    rewrite (Hk _ _ Hb), Hb, decide_True by done. done.
Qed.

(** The audit log tells the state of every boundary: on a storage that does not
    fail, from an empty store and with fresh ids, replaying the events of a
    boundary from pending, each from the state the last one left, gives the
    stored state. *)
Theorem audit_log_replays calls w i b :
  TbReliable (storage m) → (∀ j, boundary_of j w = None) → audit_of w = [] → fresh_creations calls w →
  boundary_of i (tb_run calls w) = Some b → replay_log i (audit_of (tb_run calls w)) = Some (tb_state b).
Proof.
  intros Hrel Hw Ha Hf Hb.
  assert (log_agrees (tb_run calls w)) as [_ Hlog]; [|by rewrite Hlog, Hb].
  assert (log_agrees w) as Hl by (split; [intros j x Hx; by rewrite Hw in Hx|intros j; by rewrite Ha, Hw]).
  clear Hw Ha Hb. revert w Hf Hl. induction calls as [|c calls IH]; intros w Hf Hl; [done|].
  destruct Hf as [Hnew Hf]. simpl. apply IH; [done|]. by apply call_log_agrees.
Qed.
End runs.
