(* ===== verification/TrustBoundaryExamples.v ===== *)
(** * Concrete trust boundaries

    A manager over the storage in memory: the life of a boundary, the runs at
    which the theorems of TrustBoundary.v are applied, and the runs that show
    three defects. *)
From S2P Require Import Prelude JsValue Time Encoding Crypto Authorization SignedPayload TrustBoundary.

(** A verifier that accepts the proof value "signed". *)
Definition tbx_verdict (p : BoundaryProof) : res (option string) :=
  Ok (if String.eqb (bp_proofValue p) "signed" then None else Some "TB_BOUNDARY_PROOF_VERIFY_FAILED").

Definition tbx_manager : TbManager TbMemory :=
  mkTbManager _ InMemoryTrustBoundaryStorage
    (mkProofVerifier (λ p _, tbx_verdict p) (λ p _, tbx_verdict p))
    default_maxLifecycleWindowMs default_minWindowMs.

#[export] Instance tbx_laws : TbLaws (storage tbx_manager) := TbMemory_laws.
#[export] Instance tbx_reliable : TbReliable (storage tbx_manager) := TbMemory_reliable.

Definition tbx_id : string := "0a1b2c3d-0a1b-4c2d-8a1b-0a1b2c3d4e5f".
Definition tbx_end : string := "2026-06-02T00:00:00.000Z".

(** Noon of 2026-06-01, and a number of hours later. *)
Definition tbx_clock (h : Z) : TbClock :=
  let t := 1780315200000 + h * msPerHour in mkTbClock t t t "11111111-2222-4333-8444-555555555555".

Definition tbx_create : TbCall :=
  call_create (tbx_clock 0) (mkCreate tbx_id "did:agent:p" "did:agent:b" ["CONFIRM"] tbx_end).

Definition tbx_proof (value end_ : string) : BoundaryProof :=
  mkBoundaryProof "1.0.0" "token" [] "nonce" "registry" end_ value tbx_id.

Definition tbx_options (ev : TbEvent) (actor : string) : TransitionOptions :=
  mkTransition tbx_id ev actor client (Some (tbx_proof "signed" tbx_end))
    (Some (tbx_proof "signed" "2026-07-01T00:00:00.000Z")) (Some "2026-07-01T00:00:00.000Z")
    (Some ("registry", "nonce")).

(** An event raised by an actor that presents nothing. *)
Definition tbx_bare (ev : TbEvent) (actor : string) : TransitionOptions :=
  mkTransition tbx_id ev actor client None None None None.

Definition tbx_do (h : Z) (ev : TbEvent) : TbCall := call_transition (tbx_clock h) (tbx_options ev "did:agent:p").

Definition tbx_run (calls : list TbCall) : TbMemory := tb_run tbx_manager calls (mkTbMemory ∅ []).

Definition tbx_state (w : TbMemory) : option TrustBoundaryState := tb_state <$> boundary_of tbx_id w.

Example tbx_life :
  tbx_state (tbx_run [tbx_create]) = Some pending
  ∧ tbx_state (tbx_run [tbx_create; tbx_do 1 onTrustEstablished]) = Some active
  ∧ tbx_state (tbx_run [tbx_create; tbx_do 1 onTrustEstablished; tbx_do 2 onSuspended; tbx_do 3 onResumed]) = Some active
  ∧ length (auditEvents (tbx_run [tbx_create; tbx_do 1 onTrustEstablished; tbx_do 2 onSuspended])) = 2%nat.
Proof. vm_compute. done. Qed.

Example tbx_emergency :
  (transitionState tbx_manager (tbx_clock 2) (tbx_options onEmergencySuspended "did:agent:p")
     (tbx_run [tbx_create; tbx_do 1 onTrustEstablished])).1 = Throw "TB_EMERGENCY_NOT_IMPLEMENTED".
Proof. vm_compute. done. Qed.

(** ** Defects *)

(** A revoked boundary is called terminal and irreversible, but [createBoundary]
    does not look for a stored boundary: a second handshake under the same id
    overwrites the revoked one, and messages pass again. *)
Theorem revoked_boundary_reactivated :
  let w := tbx_run [tbx_create; tbx_do 1 onTrustEstablished; tbx_do 2 onRevoked] in
  let ctx := mkHandshakeContext "registry" "nonce" (mkCreate tbx_id "did:agent:p" "did:agent:b" ["CONFIRM"] tbx_end) in
  let w' := (onHandshakeComplete tbx_manager (tbx_clock 3) (tbx_clock 3) ctx (tbx_proof "signed" tbx_end) "did:agent:p" w).2 in
  (assertBoundaryActive tbx_manager tbx_id w).1 = Throw "TB_BOUNDARY_EXPIRED"
  ∧ tb_state <$> (match (assertBoundaryActive tbx_manager tbx_id w').1 with Ok b => Some b | Throw _ => None end)
    = Some active.
Proof. vm_compute. done. Qed.

(** [assertBoundaryActive] does not look at the window: five days after its end
    the boundary still lets messages pass, and can even be extended. *)
Theorem lapsed_boundary_still_active :
  let w := tbx_run [tbx_create; tbx_do 1 onTrustEstablished] in
  iso_getTime tbx_end = Some (tk_now (tbx_clock 12))
  ∧ tb_state <$> (match (assertBoundaryActive tbx_manager tbx_id w).1 with Ok b => Some b | Throw _ => None end) = Some active
  ∧ notAfter ∘ lifecycleWindow <$> boundary_of tbx_id (tb_call tbx_manager w (tbx_do 132 onLeaseExtended))
    = Some "2026-07-01T00:00:00.000Z".
Proof. vm_compute. done. Qed.

(** Suspension, resumption, revocation and expiry ask for no proof and do not
    compare the actor with the sides of the boundary. *)
Theorem anyone_may_revoke :
  let w := tbx_run [tbx_create; tbx_do 1 onTrustEstablished] in
  let bare ev := tbx_state (tb_call tbx_manager w (call_transition (tbx_clock 2) (tbx_bare ev "did:agent:stranger"))) in
  bare onSuspended = Some suspended ∧ bare onRevoked = Some revoked ∧ bare onExpired = Some expired.
Proof. vm_compute. done. Qed.

(** ** Witnesses *)

Lemma transition_exact_witness :
  let w := tbx_run [tbx_create; tbx_do 1 onTrustEstablished] in
  ∃ b' b t, boundary_of tbx_id w = Some b ∧ lawful tbx_manager (tbx_clock 2) (tbx_options onSuspended "did:agent:p") b t b'.
Proof.
  set (w := tbx_run [tbx_create; tbx_do 1 onTrustEstablished]). cbv zeta.
  destruct (transitionState tbx_manager (tbx_clock 2) (tbx_options onSuspended "did:agent:p") w) as [[b'|c] w'] eqn:E.
  - exists b'.
    apply (proj1 (transition_exact tbx_manager (tbx_clock 2) (tbx_options onSuspended "did:agent:p") w b' tbx_reliable)).
    exists w'. exact E.
  - vm_compute in E. discriminate E.
Defined.

Lemma no_boundary i : boundary_of i (mkTbMemory ∅ []) = None.
Proof. apply lookup_empty. Qed.

Definition tbx_calls : list TbCall := [tbx_create; tbx_do 1 onTrustEstablished; tbx_do 2 onSuspended].

Lemma boundaries_valid_witness : ∃ b, boundary_of tbx_id (tbx_run tbx_calls) = Some b ∧ tb_valid b.
Proof.
  destruct (boundary_of tbx_id (tbx_run tbx_calls)) as [b|] eqn:E.
  - exists b. split; [reflexivity|].
    apply (boundaries_valid tbx_manager tbx_calls (mkTbMemory ∅ [])) with (i := tbx_id); [|exact E].
    intros i b' Hb. rewrite no_boundary in Hb. discriminate Hb.
  - vm_compute in E. discriminate E.
Defined.

Definition tbx_revoked : TrustBoundary :=
  Eval vm_compute in
    default (mkBoundary "" "" "" "" [] (mkWindow "" "") pending "" None None None None)
      (boundary_of tbx_id (tbx_run [tbx_create; tbx_do 1 onTrustEstablished; tbx_do 2 onRevoked])).

Definition tbx_revoked_store : TbMemory := mkTbMemory {[ tbx_id := tbx_revoked ]} [].

Lemma terminal_boundaries_final_witness :
  boundary_of tbx_id (tb_run tbx_manager [tbx_do 3 onResumed; tbx_do 4 onLeaseExtended] tbx_revoked_store)
  = Some tbx_revoked.
Proof.
  apply (terminal_boundaries_final tbx_manager _ tbx_revoked_store).
  - intros i x Hx. change (({[tbx_id := tbx_revoked]} : gmap string TrustBoundary) !! i = Some x) in Hx.
    apply lookup_singleton_Some in Hx as [<- <-]. reflexivity.
  - reflexivity.
  - left. reflexivity.
  - intros ck o Hin. exfalso. rewrite !elem_of_cons in Hin. destruct Hin as [Hx|[Hx|Hx]];
      [discriminate Hx|discriminate Hx|]. inversion Hx.
Defined.

Lemma active_was_established_witness :
  let calls := [tbx_create; tbx_do 1 onTrustEstablished] in
  proof_presented tbx_manager calls tbx_id.
Proof.
  set (calls := [tbx_create; tbx_do 1 onTrustEstablished]). cbv zeta.
  destruct (assertBoundaryActive tbx_manager tbx_id (tbx_run calls)) as [[b|c] w'] eqn:E; [|vm_compute in E; discriminate E].
  destruct (active_was_established tbx_manager calls (mkTbMemory ∅ []) tbx_id b w') as (_ & _ & Hp).
  - intros j x Hx. rewrite no_boundary in Hx. discriminate Hx.
  - exact E.
  - vm_compute in E. injection E as <- _. exact Hp.
Defined.

Definition tbx_extended : list TbCall := [tbx_create; tbx_do 1 onTrustEstablished; tbx_do 2 onLeaseExtended].

Lemma lease_bounded_witness :
  ∃ b t, boundary_of tbx_id (tbx_run tbx_extended) = Some b ∧ iso_getTime (notAfter (lifecycleWindow b)) = Some t
         ∧ t ≤ tk_now (tbx_clock 2) + default_maxLifecycleWindowMs.
Proof.
  destruct (boundary_of tbx_id (tbx_run tbx_extended)) as [b|] eqn:E; [|vm_compute in E; discriminate E].
  exists b. destruct (lease_bounded tbx_manager tbx_extended (mkTbMemory ∅ []) (tk_now (tbx_clock 2))) with (i := tbx_id) (b := b)
    as (t & Ht & Hle).
  - vm_compute. discriminate.
  - split; vm_compute; discriminate.
  - intros j. apply no_boundary.
  - intros ck o Hin. unfold tbx_extended in Hin. rewrite !elem_of_cons in Hin. destruct Hin as [Hx|[Hx|[Hx|Hx]]];
      [injection Hx as -> ->; split; vm_compute; discriminate|discriminate Hx|discriminate Hx|inversion Hx].
  - intros ck o Hin. unfold tbx_extended in Hin. rewrite !elem_of_cons in Hin. destruct Hin as [Hx|[Hx|[Hx|Hx]]];
      [discriminate Hx|injection Hx as -> ->; split; vm_compute; discriminate..|inversion Hx].
  - exact E.
  - exists t. split; [reflexivity|]. split; [exact Ht|exact Hle].
Defined.

Definition tbx_empty : TbMemory := mkTbMemory ∅ [].

Lemma tbx_fresh : fresh_creations tbx_manager tbx_calls tbx_empty.
Proof.
  split; [intros ck o _; apply no_boundary|]. split; [intros ck o Hc; discriminate Hc|].
  split; [intros ck o Hc; discriminate Hc|exact I].
Qed.

Lemma audit_log_replays_witness :
  is_Some (replay_log tbx_id (audit_of (tb_run tbx_manager tbx_calls tbx_empty))).
Proof.
  destruct (boundary_of tbx_id (tb_run tbx_manager tbx_calls tbx_empty)) as [b|] eqn:E; [|vm_compute in E; discriminate E].
  exists (tb_state b).
  exact (audit_log_replays tbx_manager tbx_calls tbx_empty tbx_id b tbx_reliable no_boundary eq_refl tbx_fresh E).
Defined.
