(* ===== verification/AuditTamperProof.v ===== *)
(** * The tamper-proof audit log

    packages/policy/src/audit-tamper-proof: hash-chained audit events, one
    chain per tenant and audit class, with the writer, the verifier, the tenant
    guards and the store in memory; the data and the schema are those of
    packages/types/src/audit-tamper-proof.  Writes are modelled in their parts
    between two suspensions, so that writers overlap: under the advisory lock
    that the port of the store documents, one writer at a time per chain, and
    under the lock of the store in memory, which lets several in. *)
From S2P Require Import Prelude JsValue Time Encoding Crypto Authorization SignedPayload.

(** ** Data *)

Inductive AuditClass : Type := L1 | L2 | L3.
#[export] Instance AuditClass_eq_dec : EqDecision AuditClass.
Proof. solve_decision. Defined.
Definition AuditClass_text (c : AuditClass) : string :=
  match c with L1 => "L1" | L2 => "L2" | L3 => "L3" end.

Definition ATP_VERSION_CURRENT : string := "1.0.0".
Definition ATP_GENESIS_MARKER : string := str (replicate 64 "0"%char).
Definition ATP_AUDIT_ACTION_MAX_LENGTH : nat := 256.

Definition ATP_ERROR_CODES : list string :=
  ["AUDIT_VERSION_UNSUPPORTED"; "AUDIT_SCHEMA_VIOLATION"; "AUDIT_TENANT_SCOPE_VIOLATION";
   "AUDIT_CANONICALIZE_BYPASS_DETECTED"; "AUDIT_CANONICALIZE_MISMATCH"; "AUDIT_HASH_CHAIN_BROKEN";
   "AUDIT_TAMPER_DETECTED"; "AUDIT_FAIL_CLOSED"; "AUDIT_ATOMICITY_VIOLATED"; "AUDIT_GENESIS_VIOLATION";
   "AUDIT_TIMESTAMP_INVALID"; "AUDIT_EVENT_SIGNATURE_INVALID"; "AUDIT_ACTOR_DID_INVALID";
   "AUDIT_ACTION_INVALID"; "AUDIT_ADVISORY_LOCK_FAILED"; "AUDIT_FETCH_LAST_HASH_FAILED";
   "AUDIT_REVERSE_REPLAY_FAILED"].

(** The ten fields the hash covers. *)
Record AuditFields : Type := mkAuditFields {
  atpVersion : string;
  eventId : string;
  tenantId : string;
  auditClass : AuditClass;
  actorDid : string;
  action : string;
  target : string;
  canonicalPayload : string;
  previousHash : option string;
  timestamp : string }.

Record AuditEvent : Type := mkAuditEvent {
  ev_fields : AuditFields;
  tamperProofHash : string;
  ev_signature : option string }.

Record CallerPrincipal : Type := mkCaller {
  cp_actorDid : string;
  cp_sessionId : option string;
  cp_dbRole : option string }.

Record WriteAuditEventInput : Type := mkWriteInput {
  wi_atpVersion : option string;
  wi_tenantId : string;
  wi_auditClass : AuditClass;
  wi_actorDid : string;
  wi_action : string;
  wi_target : string;
  wi_payload : value;
  wi_signature : option string }.

(** An error that is no [AuditError] is wrapped. *)
Definition wrap_error (code : string) (c : string) : string :=
  if bool_decide (c ∈ ATP_ERROR_CODES) then c else code.

(** ** Tenant guards *)

Definition assertTenantScope (inputTenantId resolvedTenantId : string) : res unit :=
  check (String.eqb inputTenantId resolvedTenantId) "AUDIT_TENANT_SCOPE_VIOLATION".

Definition assertDbRoleMatchesAuditClass (dbRole : option string) (c : AuditClass) : res unit :=
  match dbRole with
  | None => Ok tt
  | Some r =>
      _ ← check (negb (String.eqb r "audit_writer_l1" && negb (bool_decide (c = L1)))) "AUDIT_TENANT_SCOPE_VIOLATION";
      check (negb (String.eqb r "audit_writer_l2" && bool_decide (c = L1))) "AUDIT_TENANT_SCOPE_VIOLATION"
  end.

(** ** Hash input *)

Section hashing.
Context `{Primitives}.

Definition canonicalizeAuditPayload (payload : value) : res string :=
  match payload with
  | VObj _ =>
      match canonicalize jcs payload with
      | Ok s => _ ← check (non_empty s) "AUDIT_CANONICALIZE_BYPASS_DETECTED"; mret s
      | Throw _ => Throw "AUDIT_CANONICALIZE_BYPASS_DETECTED"
      end
  | _ => Throw "AUDIT_CANONICALIZE_BYPASS_DETECTED"
  end.

Definition hash_fields (ev : AuditFields) : object :=
  [("action", VStr (action ev)); ("actorDid", VStr (actorDid ev)); ("atpVersion", VStr (atpVersion ev));
   ("auditClass", VStr (AuditClass_text (auditClass ev))); ("canonicalPayload", VStr (canonicalPayload ev));
   ("eventId", VStr (eventId ev)); ("previousHash", VStr (default ATP_GENESIS_MARKER (previousHash ev)));
   ("target", VStr (target ev)); ("tenantId", VStr (tenantId ev)); ("timestamp", VStr (timestamp ev))].

Definition buildTamperProofHashInput (ev : AuditFields) : res string :=
  canonicalizeAuditPayload (VObj (hash_fields ev)).

(** [hash(buildTamperProofHashInput(ev), 'hex')] *)
Definition event_hash (ev : AuditFields) : res string :=
  hashInput ← buildTamperProofHashInput ev;
  mret (hash (textEncode hashInput) enc_hex).
End hashing.

(** audit-event-v0.1.schema.json; the version is [const "1.0.0"]. *)
Definition validateAuditEvent `{Formats} (e : AuditEvent) : bool :=
  let f := ev_fields e in
  String.eqb (atpVersion f) "1.0.0"
  && format_uuid (eventId f) && uuid_v4 (eventId f) && format_uuid (tenantId f) && uuid_v4 (tenantId f)
  && str_startsWith (actorDid f) "did:"
  && non_empty (action f) && Nat.leb (String.length (action f)) ATP_AUDIT_ACTION_MAX_LENGTH
  && non_empty (canonicalPayload f) && hex64 (tamperProofHash e)
  && match previousHash f with Some h => hex64 h | None => true end
  && format_date_time (timestamp f)
  && match ev_signature e with Some s => base64url_padded s | None => true end.

(** ** The store *)

(** [as_lock] is the end of [acquireAdvisoryLock], when its wait is over. *)
Record AuditEventStore (W : Type) : Type := mkAuditStore {
  as_lock : string → AuditClass → M W unit;
  fetchLastTamperProofHash : string → AuditClass → M W (option string);
  insertEvent : AuditEvent → M W unit;
  fetchAllEvents : string → AuditClass → M W (list AuditEvent);
  fetchEventById : string → string → M W (option AuditEvent) }.
Arguments as_lock {W} _ _ _.
Arguments fetchLastTamperProofHash {W} _ _ _.
Arguments insertEvent {W} _ _.
Arguments fetchAllEvents {W} _ _ _.
Arguments fetchEventById {W} _ _ _.

(** in-memory-audit-event-store.ts.  The promises of the lock are numbered:
    [lockHolders] has the one of the holder of a key, [null] after its release,
    and [am_released] those that are resolved. *)
Record AuditMemory : Type := mkAuditMemory {
  am_events : gmap string AuditEvent;
  chainsByTenantClass : gmap string (list string);
  lockHolders : gmap string (option nat);
  am_released : list nat;
  am_promises : nat }.

Definition chain_key (t : string) (c : AuditClass) : string := t +:+ ":" +:+ AuditClass_text c.

Definition memory_chain (w : AuditMemory) (key : string) : list string := default [] (chainsByTenantClass w !! key).

Definition mem_fetchLast (t : string) (c : AuditClass) : M AuditMemory (option string) := λ w,
  (match last (memory_chain w (chain_key t c)) with
   | None => Ok None
   | Some lastEventId =>
       match am_events w !! lastEventId with
       | Some ev => Ok (Some (tamperProofHash ev))
       | None => Throw "AUDIT_FETCH_LAST_HASH_FAILED"
       end
   end, w).

Definition mem_insertEvent (e : AuditEvent) : M AuditMemory unit := λ w,
  let f := ev_fields e in
  match am_events w !! eventId f with
  | Some _ => (Throw "AUDIT_FAIL_CLOSED", w)
  | None =>
      let key := chain_key (tenantId f) (auditClass f) in
      (Ok tt, mkAuditMemory (<[eventId f := e]> (am_events w))
                (<[key := memory_chain w key ++ [eventId f]]> (chainsByTenantClass w))
                (lockHolders w) (am_released w) (am_promises w))
  end.

Fixpoint collect_events (events : gmap string AuditEvent) (chain : list string) : res (list AuditEvent) :=
  match chain with
  | [] => Ok []
  | i :: rest =>
      match events !! i with
      | None => Throw "AUDIT_REVERSE_REPLAY_FAILED"
      | Some ev => l ← collect_events events rest; mret (ev :: l)
      end
  end.

Definition mem_fetchAll (t : string) (c : AuditClass) : M AuditMemory (list AuditEvent) := λ w,
  (collect_events (am_events w) (memory_chain w (chain_key t c)), w).

Definition mem_fetchById (i t : string) : M AuditMemory (option AuditEvent) := λ w,
  (Ok (match am_events w !! i with
       | Some ev => if String.eqb (tenantId (ev_fields ev)) t then Some ev else None
       | None => None
       end), w).

(** The promise that a caller of [acquireAdvisoryLock] waits for, if any; when it
    is resolved the caller goes on, whoever else waited for it too. *)
Definition mem_existingHolder (t : string) (c : AuditClass) (w : AuditMemory) : option nat :=
  lockHolders w !! chain_key t c ≫= id.
Definition mem_takeLock (t : string) (c : AuditClass) : M AuditMemory unit := λ w,
  (Ok tt, mkAuditMemory (am_events w) (chainsByTenantClass w) (<[chain_key t c := Some (am_promises w)]> (lockHolders w))
            (am_released w) (S (am_promises w))).
Definition mem_releaseLock (t : string) (c : AuditClass) (w : AuditMemory) : AuditMemory :=
  match mem_existingHolder t c w with
  | Some holder => mkAuditMemory (am_events w) (chainsByTenantClass w) (<[chain_key t c := None]> (lockHolders w))
                     (holder :: am_released w) (am_promises w)
  | None => w
  end.

Definition InMemoryAuditEventStore : AuditEventStore AuditMemory :=
  mkAuditStore _ mem_takeLock mem_fetchLast mem_insertEvent mem_fetchAll mem_fetchById.

(** ** The writer *)

Section audit.
Context `{Primitives} `{Fm : Formats} {W : Type} (S : AuditEventStore W).
Context (resolveCallerTenant : CallerPrincipal → res string).

(** The event built in steps 6 to 10 from the previous hash, the generated id
    and the server's time. *)
Definition candidate (input : WriteAuditEventInput) (prev : option string) (newId now : string) : res AuditEvent :=
  payload ← canonicalizeAuditPayload (wi_payload input);
  let f := mkAuditFields (default ATP_VERSION_CURRENT (wi_atpVersion input)) newId (wi_tenantId input)
             (wi_auditClass input) (wi_actorDid input) (wi_action input) (wi_target input) payload prev now in
  h ← event_hash f;
  _ ← check (hex64 h) "Error";
  let event := mkAuditEvent f h (wi_signature input) in
  _ ← check (validateAuditEvent event) "AUDIT_SCHEMA_VIOLATION";
  mret event.

(** Rethrow an [AuditError], wrap anything else. *)
Definition catching {A} (code : string) (x : M W A) : M W A := λ w,
  match x w with
  | (Ok a, w') => (Ok a, w')
  | (Throw c, w') => (Throw (wrap_error code c), w')
  end.

(** Steps 1 to 3, step 5 and step 11. *)
Definition write_admit (input : WriteAuditEventInput) (caller : CallerPrincipal) : res unit :=
  resolvedTenant ← resolveCallerTenant caller;
  _ ← assertTenantScope (wi_tenantId input) resolvedTenant;
  assertDbRoleMatchesAuditClass (cp_dbRole caller) (wi_auditClass input).
Definition write_fetch (input : WriteAuditEventInput) : M W (option string) :=
  catching "AUDIT_FETCH_LAST_HASH_FAILED" (fetchLastTamperProofHash S (wi_tenantId input) (wi_auditClass input)).
Definition write_insert (event : AuditEvent) : M W unit := catching "AUDIT_FAIL_CLOSED" (insertEvent S event).

(** A whole write, of a caller that got the lock. *)
Definition writeAuditEvent (input : WriteAuditEventInput) (caller : CallerPrincipal) (newId now : string)
    : M W AuditEvent :=
  _ ← lift_res (write_admit input caller);
  _ ← as_lock S (wi_tenantId input) (wi_auditClass input);
  prev ← write_fetch input;
  event ← lift_res (candidate input prev newId now);
  _ ← write_insert event;
  mret event.

(** ** The verifier *)

(** The replay loop; [prev] is the hash of the event before, [None] at index 0. *)
Fixpoint replay_chain (prev : option string) (chain : list AuditEvent) : res unit :=
  match chain with
  | [] => Ok tt
  | ev :: rest =>
      let f := ev_fields ev in
      _ ← check (bool_decide (is_Some (previousHash f) ↔ is_Some prev)) "AUDIT_GENESIS_VIOLATION";
      recomputedHash ← event_hash f;
      _ ← check (String.eqb recomputedHash (tamperProofHash ev)) "AUDIT_TAMPER_DETECTED";
      _ ← check (bool_decide (prev = None ∨ previousHash f = prev)) "AUDIT_HASH_CHAIN_BROKEN";
      replay_chain (Some (tamperProofHash ev)) rest
  end.

Definition reverseHashChainReplay (targetEvent : AuditEvent) : M W unit :=
  chain ← catching "AUDIT_REVERSE_REPLAY_FAILED"
            (fetchAllEvents S (tenantId (ev_fields targetEvent)) (auditClass (ev_fields targetEvent)));
  _ ← lift_res (check (negb (Nat.eqb (length chain) 0)) "AUDIT_REVERSE_REPLAY_FAILED");
  _ ← lift_res (replay_chain None chain);
  lift_res (check (existsb (λ ev, String.eqb (eventId (ev_fields ev)) (eventId (ev_fields targetEvent))) chain)
              "AUDIT_REVERSE_REPLAY_FAILED").

Definition verify_steps (id t : string) (originalPayload : option value) : M W AuditEvent :=
  found ← fetchEventById S id t;
  event ← lift_res (match found with Some e => Ok e | None => Throw "AUDIT_TENANT_SCOPE_VIOLATION" end);
  _ ← lift_res (check (validateAuditEvent event) "AUDIT_SCHEMA_VIOLATION");
  _ ← reverseHashChainReplay event;
  _ ← lift_res (match originalPayload with
                | None => Ok tt
                | Some p =>
                    recomputed ← canonicalizeAuditPayload p;
                    check (String.eqb recomputed (canonicalPayload (ev_fields event))) "AUDIT_CANONICALIZE_MISMATCH"
                end);
  _ ← lift_res (check (bool_decide (ev_signature event = None)) "AUDIT_EVENT_SIGNATURE_INVALID");
  mret event.

(** [{ok: true, event}] or [{ok: false, error}]; it does not throw. *)
Definition verifyAuditEvent (id t : string) (originalPayload : option value) : M W (string + AuditEvent) := λ w,
  match verify_steps id t originalPayload w with
  | (Ok e, w') => (Ok (inr e), w')
  | (Throw c, w') => (Ok (inl (wrap_error "AUDIT_REVERSE_REPLAY_FAILED" c)), w')
  end.
End audit.

(** ** What a store promises *)

(** The rows of a tenant and class in the order of their insertion, with their
    [created_at], and the states the store keeps. *)
Class AuditView (W : Type) : Type := {
  rows_of : string → AuditClass → W → list (AuditEvent * Z);
  store_wf : W → Prop }.

(** An event with an earlier timestamp. *)
Definition earlier (a b : AuditEvent) : Prop :=
  num_ltb (dateNum (timestamp (ev_fields a))) (dateNum (timestamp (ev_fields b))) = true.

Section laws.
Context {W : Type} `{AuditView W}.

Definition events_of (t : string) (c : AuditClass) (w : W) : list AuditEvent := (rows_of t c w).*1.

Definition same_chains (w w' : W) : Prop := store_wf w' ∧ ∀ t c, rows_of t c w' = rows_of t c w.

(** Its place in the store. *)
Definition in_store (e : AuditEvent) (w : W) : Prop :=
  e ∈ events_of (tenantId (ev_fields e)) (auditClass (ev_fields e)) w.

Definition appended (e : AuditEvent) (w w' : W) : Prop :=
  store_wf w' ∧ ∃ created, ∀ t c, rows_of t c w' =
    if decide (t = tenantId (ev_fields e) ∧ c = auditClass (ev_fields e))
    then rows_of t c w ++ [(e, created)] else rows_of t c w.

(** Rows are younger than the rows of their chain that were inserted before
    them, by [created_at] and by their timestamps. *)
Definition created_in_order (t : string) (c : AuditClass) (w : W) : Prop := StronglySorted Z.lt (rows_of t c w).*2.
Definition stamped_in_order (t : string) (c : AuditClass) (w : W) : Prop := StronglySorted earlier (events_of t c w).
Definition rows_in_order (w : W) : Prop := ∀ t c, created_in_order t c w ∧ stamped_in_order t c w.

(** Reads change nothing; an insertion adds a row to one chain or changes
    nothing; event ids are unique and each chain holds the events of its key.
    The last hash is the one of the row with the greatest [created_at], and the
    events of a chain are given by ascending timestamp: what this says of rows
    that are in order. *)
Class AuditStoreLaws (S : AuditEventStore W) : Prop := {
  lock_law t c w r w' : store_wf w → as_lock S t c w = (r, w') → same_chains w w';
  last_law t c w r w' : store_wf w → fetchLastTamperProofHash S t c w = (r, w') →
    same_chains w w'
    ∧ ∀ h, r = Ok h → created_in_order t c w → h = tamperProofHash <$> last (events_of t c w);
  insert_law e w r w' : store_wf w → insertEvent S e w = (r, w') →
    (r = Ok tt ∧ appended e w w') ∨ ((∃ c, r = Throw c) ∧ same_chains w w');
  all_law t c w r w' : store_wf w → fetchAllEvents S t c w = (r, w') →
    same_chains w w' ∧ ∀ l, r = Ok l → stamped_in_order t c w → l = events_of t c w;
  find_law i t w r w' : store_wf w → fetchEventById S i t w = (r, w') →
    same_chains w w' ∧ ∀ o, r = Ok o →
      ∀ e, o = Some e ↔ in_store e w ∧ eventId (ev_fields e) = i ∧ tenantId (ev_fields e) = t;
  keyed_law t c w e : store_wf w → e ∈ events_of t c w →
    tenantId (ev_fields e) = t ∧ auditClass (ev_fields e) = c }.

(** A store whose reads do not fail. *)
Class AuditReliable (S : AuditEventStore W) : Prop := {
  all_ok t c w : store_wf w → ∃ l w', fetchAllEvents S t c w = (Ok l, w');
  find_ok i t w : store_wf w → ∃ o w', fetchEventById S i t w = (Ok o, w') }.
End laws.

(** ** The store in memory keeps the promises *)

Lemma chain_key_inj t c t' c' : chain_key t c = chain_key t' c' → t = t' ∧ c = c'.
Proof.
  unfold chain_key. intros E.
  assert (∀ c, ∃ x, chars ":" ++ chars (AuditClass_text c) = [":"%char; "L"%char; x]
                    ∧ ∀ c', chars (AuditClass_text c') = ["L"%char; x] → c' = c) as Hc.
  { by intros []; eexists; (split; [reflexivity|]); intros []. }
  apply (f_equal chars) in E. rewrite !chars_app in E.
  destruct (Hc c) as (x & E1 & H1), (Hc c') as (x' & E2 & _).
  rewrite E1, E2 in E. apply app_inj_2 in E as [Et [= <-]]; [|done].
  split; [by rewrite <- (str_chars t), Et, str_chars|]. symmetry. apply H1.
  apply (f_equal tail) in E2. done.
Qed.

(** The states the operations reach: every id of a chain names a stored event
    of that chain's key, every stored event is in its chain, ids are unique. *)
Definition memory_wf (w : AuditMemory) : Prop :=
  (∀ t c i, i ∈ memory_chain w (chain_key t c) →
     ∃ e, am_events w !! i = Some e ∧ tenantId (ev_fields e) = t ∧ auditClass (ev_fields e) = c)
  ∧ (∀ i e, am_events w !! i = Some e →
     eventId (ev_fields e) = i ∧ i ∈ memory_chain w (chain_key (tenantId (ev_fields e)) (auditClass (ev_fields e)))).

(** A row is as old as its place in the chain. *)
Definition mem_events (t : string) (c : AuditClass) (w : AuditMemory) : list AuditEvent :=
  omap (λ i, am_events w !! i) (memory_chain w (chain_key t c)).
#[export] Instance AuditMemory_view : AuditView AuditMemory := {|
  rows_of t c w := imap (λ i e, (e, Z.of_nat i)) (mem_events t c w);
  store_wf := memory_wf |}.

Lemma mem_events_of t c w : events_of t c w = mem_events t c w.
Proof.
  unfold events_of. cbn [rows_of AuditMemory_view]. rewrite fmap_imap.
  generalize (mem_events t c w) as l. intros l. induction l as [|x l IH]; [done|]. csimpl. f_equal. exact IH.
Qed.

Lemma collect_events_omap events l :
  (∀ i, i ∈ l → is_Some (events !! i)) → collect_events events l = Ok (omap (λ i, events !! i) l).
Proof.
  induction l as [|i l IH]; intros Hl; [done|]. simpl.
  destruct (Hl i) as [e ->]; [by left|]. rewrite IH by (intros j Hj; apply Hl; by right). done.
Qed.

Lemma last_omap {A B} (f : A → option B) l :
  (∀ i, i ∈ l → is_Some (f i)) → last (omap f l) = last l ≫= f.
Proof.
  induction l as [|x l IH] using rev_ind; intros Hl; [done|].
  rewrite omap_app, last_snoc. simpl. destruct (Hl x) as [y Ey]; [by apply elem_of_app; right; left|].
  rewrite Ey. by rewrite last_snoc.
Qed.

Lemma memory_chain_some w t c i : memory_wf w → i ∈ memory_chain w (chain_key t c) → is_Some (am_events w !! i).
Proof. intros [Hc _] (e & -> & _)%Hc. by eexists. Qed.

Lemma memory_chain_insert w key l events locks released n t c :
  memory_chain (mkAuditMemory events (<[key := l]> (chainsByTenantClass w)) locks released n) (chain_key t c)
  = if decide (chain_key t c = key) then l else memory_chain w (chain_key t c).
Proof.
  unfold memory_chain. simpl. case_decide as E; [by rewrite E, lookup_insert_eq|by rewrite lookup_insert_ne].
Qed.

Lemma mem_insert_spec e w r w' :
  memory_wf w → mem_insertEvent e w = (r, w') →
  (r = Ok tt ∧ appended e w w') ∨ ((∃ c, r = Throw c) ∧ same_chains w w').
Proof.
  intros Hwf. unfold mem_insertEvent. set (f := ev_fields e).
  destruct (am_events w !! eventId f) as [x|] eqn:Ef; intros [= <- <-]; [right; split; [by eexists|done]|].
  left. split; [done|]. pose proof Hwf as [Hc He].
  assert (∀ t c, eventId f ∉ memory_chain w (chain_key t c)) as Hfresh.
  { intros t c [y Hy]%memory_chain_some; [congruence|done]. }
  split.
  - split.
    + intros t c i. rewrite memory_chain_insert. simpl.
      case_decide as E; [apply chain_key_inj in E as [-> ->]; intros [Hi| ->%list_elem_of_singleton]%elem_of_app|].
      * destruct (Hc _ _ _ Hi) as (y & Hy & ?). exists y. rewrite lookup_insert_ne; [done|]. intros <-. congruence.
      * exists e. by rewrite lookup_insert_eq.
      * intros Hi. destruct (Hc _ _ _ Hi) as (y & Hy & ?). exists y. rewrite lookup_insert_ne; [done|]. intros <-. congruence.
    + intros i y. simpl. rewrite memory_chain_insert. rewrite lookup_insert_Some. intros [[<- <-]|[Hne Hy]].
      * split; [done|]. rewrite decide_True by done. apply elem_of_app. right. by left.
      * destruct (He _ _ Hy) as [? Hin]. split; [done|].
        case_decide as E; [|done]. apply elem_of_app. left. by rewrite <- E.
  - exists (Z.of_nat (length (mem_events (tenantId f) (auditClass f) w))). intros t c.
    cbn [rows_of AuditMemory_view]. fold f.
    set (w' := mkAuditMemory _ _ _ _ _).
    assert (mem_events t c w' = if decide (t = tenantId f ∧ c = auditClass f) then mem_events t c w ++ [e] else mem_events t c w) as ->;
      [|case_decide as D; [destruct D as [-> ->]; rewrite imap_app; cbn [imap compose]; by rewrite Nat.add_0_r|done]].
    unfold mem_events, w'. rewrite memory_chain_insert. simpl.
    assert (∀ l : list string, eventId f ∉ l → omap (λ i, <[eventId f:=e]> (am_events w) !! i) l = omap (λ i, am_events w !! i) l) as Hom.
    { intros l Hl. induction l as [|j l IH]; [done|]. apply not_elem_of_cons in Hl as [Hj Hl]. csimpl.
      rewrite lookup_insert_ne by done. by rewrite IH. }
    destruct (decide (chain_key t c = chain_key (tenantId f) (auditClass f))) as [E|E].
    + apply chain_key_inj in E as [-> ->]. rewrite decide_True by done.
      rewrite omap_app, Hom by apply Hfresh. simpl. by rewrite lookup_insert_eq.
    + rewrite decide_False by (intros [-> ->]; done). by apply Hom.
Qed.

#[export] Instance AuditMemory_laws : AuditStoreLaws InMemoryAuditEventStore.
Proof.
  split.
  - by intros t c w r w' Hwf [= <- <-].
  - intros t c w r w' Hwf [= <- <-]. split; [done|]. intros h Hh _. rewrite mem_events_of. unfold mem_events.
    rewrite last_omap by eauto using memory_chain_some. revert Hh.
    destruct (last (memory_chain w (chain_key t c))) as [i|]; simpl; [|by intros [= <-]].
    destruct (am_events w !! i); simpl; [by intros [= <-]|done].
  - intros e w r w'. apply mem_insert_spec.
  - intros t c w r w' Hwf [= <- <-]. split; [done|]. intros l E _. rewrite mem_events_of.
    rewrite collect_events_omap in E by eauto using memory_chain_some. by injection E as <-.
  - intros i t w r w' Hwf [= <- <-]. split; [done|]. intros o [= <-] e. destruct Hwf as [Hc He].
    unfold in_store. rewrite mem_events_of. unfold mem_events. split.
    + destruct (am_events w !! i) as [x|] eqn:Ei; [|done].
      destruct (String.eqb_spec (tenantId (ev_fields x)) t); [|done]. intros [= ->].
      destruct (He _ _ Ei) as [? Hin]. split_and!; [|done|done]. apply list_elem_of_omap. eauto.
    + intros ((j & Hj & Ej)%list_elem_of_omap & <- & <-). destruct (He _ _ Ej) as [-> _].
      by rewrite Ej, String.eqb_refl.
  - intros t c w e [Hc He]. rewrite mem_events_of. intros (i & Hi & Ei)%list_elem_of_omap.
    destruct (Hc _ _ _ Hi) as (x & Hx & ?). by simplify_eq.
Qed.

#[export] Instance AuditMemory_reliable : AuditReliable InMemoryAuditEventStore.
Proof.
  split.
  - intros t c w Hwf. simpl. unfold mem_fetchAll. rewrite collect_events_omap by eauto using memory_chain_some. eauto.
  - intros i t w _. by repeat eexists.
Qed.

Lemma empty_memory_wf : memory_wf (mkAuditMemory ∅ ∅ ∅ [] 0).
Proof. split; [intros t c i Hi; by apply not_elem_of_nil in Hi|done]. Qed.

(** ** Chains *)

Section chains.
Context `{PrimitiveLaws} `{Fm : Formats}.

(** The digest of the ten fields. *)
Definition event_digest (f : AuditFields) : string := hash (textEncode (jcs (VObj (hash_fields f)))) enc_hex.

Lemma event_hash_ok f : event_hash f = Ok (event_digest f).
Proof.
  unfold event_hash, buildTamperProofHashInput, canonicalizeAuditPayload, event_digest, canonicalize.
  change (assertSerializable (VObj (hash_fields f))) with true. cbn iota.
  destruct (jcs_brace (hash_fields f)) as [rest E]. by rewrite E.
Qed.

(** A chain that the replay accepts: each event carries the digest of its
    fields, and the hash of the event before it. *)
Lemma replay_cons prev e l :
  replay_chain prev (e :: l) = Ok tt
  ↔ previousHash (ev_fields e) = prev ∧ tamperProofHash e = event_digest (ev_fields e)
    ∧ replay_chain (Some (tamperProofHash e)) l = Ok tt.
Proof.
  cbn [replay_chain]. rewrite event_hash_ok. split.
  - intros ([] & H1%check_ok%bool_decide_eq_true & (h & [= <-] & ([] & H2%check_ok%String.eqb_eq &
      ([] & H3%check_ok%bool_decide_eq_true & Hl)%res_bind_ok)%res_bind_ok)%res_bind_ok)%res_bind_ok.
    split_and!; [|done|done]. destruct H3 as [->|?]; [|done].
    destruct (previousHash _); [|done]. destruct H1 as [[? [=]] _]. by eexists.
  - intros (H1 & H2 & Hl). apply res_bind_ok. exists tt. rewrite check_ok, bool_decide_eq_true.
    split; [by rewrite H1|]. apply res_bind_ok. eexists. split; [done|].
    apply res_bind_ok. exists tt. rewrite check_ok, String.eqb_eq. split; [done|].
    apply res_bind_ok. exists tt. rewrite check_ok, bool_decide_eq_true. auto.
Qed.

Lemma replay_snoc prev l e :
  replay_chain prev (l ++ [e]) = Ok tt
  ↔ replay_chain prev l = Ok tt ∧ tamperProofHash e = event_digest (ev_fields e)
    ∧ previousHash (ev_fields e) = match last l with Some x => Some (tamperProofHash x) | None => prev end.
Proof.
  revert prev. induction l as [|x l IH]; intros prev.
  - cbn [app last]. rewrite replay_cons. simpl. naive_solver.
  - rewrite <- app_comm_cons, !replay_cons, IH, last_cons. destruct (last l); naive_solver.
Qed.

(** The digest covers the ten fields; a missing previous hash is written as the
    genesis marker. *)
Lemma event_digest_inj f1 f2 :
  event_digest f1 = event_digest f2 →
  (f1 = f2 ∨ textEncode (jcs (VObj (hash_fields f1))) ≠ textEncode (jcs (VObj (hash_fields f2)))
             ∧ sha256 (textEncode (jcs (VObj (hash_fields f1)))) = sha256 (textEncode (jcs (VObj (hash_fields f2)))))
  ∨ previousHash f1 ≠ previousHash f2
    ∧ default ATP_GENESIS_MARKER (previousHash f1) = default ATP_GENESIS_MARKER (previousHash f2).
Proof.
  unfold event_digest. intros Ed%hash_digest.
  destruct (decide (textEncode (jcs (VObj (hash_fields f1))) = textEncode (jcs (VObj (hash_fields f2))))) as [E|]; [|by left; right].
  apply textEncode_inj, jcs_inj in E; [|done..]. injection E as E1 E2 E3 E4 E5 E6 E7 E8 E9 E10.
  destruct (decide (previousHash f1 = previousHash f2)) as [Ep|]; [|by right]. left. left.
  destruct f1, f2; simpl in *; subst. f_equal. by destruct auditClass0, auditClass1.
Qed.

(** A SHA-256 collision between the hash inputs of two chains. *)
Definition colliding_events (c1 c2 : list AuditEvent) : Prop :=
  ∃ e1 e2, e1 ∈ c1 ∧ e2 ∈ c2 ∧
    textEncode (jcs (VObj (hash_fields (ev_fields e1)))) ≠ textEncode (jcs (VObj (hash_fields (ev_fields e2))))
    ∧ sha256 (textEncode (jcs (VObj (hash_fields (ev_fields e1))))) = sha256 (textEncode (jcs (VObj (hash_fields (ev_fields e2))))).

(** An event whose hash is the genesis marker, 64 zeros. *)
Definition zero_hash (c1 c2 : list AuditEvent) : Prop :=
  ∃ e, (e ∈ c1 ∨ e ∈ c2) ∧ tamperProofHash e = ATP_GENESIS_MARKER.

(** Two chains that replay and end in the same hash are the same chain, field
    by field, or two of their events are a SHA-256 collision, or one of them
    hashes to the genesis marker: any later change of a field, a removed, an
    inserted or a reordered event is detected by whoever kept the last hash. *)
Theorem audit_head_commits (c1 c2 : list AuditEvent) :
  replay_chain None c1 = Ok tt → replay_chain None c2 = Ok tt →
  tamperProofHash <$> last c1 = tamperProofHash <$> last c2 →
  ev_fields <$> c1 = ev_fields <$> c2 ∨ colliding_events c1 c2 ∨ zero_hash c1 c2.
Proof.
  revert c2. induction c1 as [|e1 c1 IH] using rev_ind; intros c2 R1 R2 El.
  { destruct (last c2) as [|] eqn:E2; [done|]. apply last_None in E2 as ->. by left. }
  destruct c2 as [|e2 c2 _] using rev_ind; [by rewrite last_snoc in El|].
  rewrite !last_snoc in El. injection El as El.
  apply replay_snoc in R1 as (R1 & D1 & P1), R2 as (R2 & D2 & P2).
  rewrite D1, D2 in El.
  assert (∀ (e : AuditEvent) l x, e ∈ l → e ∈ l ++ [x]) as Hin by (intros; apply elem_of_app; by left).
  assert (∀ l (x : AuditEvent), x ∈ l ++ [x]) as Hlast by (intros; apply elem_of_app; right; by left).
  destruct (event_digest_inj _ _ El) as [[Ef|Hcol]|[Hne Hm]].
  - assert (tamperProofHash <$> last c1 = tamperProofHash <$> last c2) as El'
      by (rewrite Ef in P1; rewrite P1 in P2; destruct (last c1), (last c2); naive_solver).
    destruct (IH c2 R1 R2 El') as [E|[(x & y & ? & ? & ?)|(x & [?|?] & ?)]].
    + left. rewrite !fmap_app, E. simpl. by rewrite Ef.
    + right; left. exists x, y. eauto.
    + right; right. exists x. eauto.
    + right; right. exists x. eauto.
  - right; left. exists e1, e2. eauto.
  - right; right. rewrite P1, P2 in Hne, Hm.
    destruct (last c1) as [x1|] eqn:L1, (last c2) as [x2|] eqn:L2; simpl in *; [by destruct Hne; f_equal| | |done].
    + exists x1. split; [left; by apply Hin, last_Some_elem_of|done].
    + exists x2. split; [right; by apply Hin, last_Some_elem_of|done].
Qed.
End chains.

(** ** Theorems *)

Section runs.
Context `{PrimitiveLaws} `{Fm : Formats} {W : Type} `{AuditView W} (S : AuditEventStore W).
Context `{!AuditStoreLaws S} (resolveCallerTenant : CallerPrincipal → res string).

Notation write := (writeAuditEvent S resolveCallerTenant).

Lemma same_chains_trans w1 w2 w3 : same_chains w1 w2 → same_chains w2 w3 → same_chains w1 w3.
Proof. intros [_ E1] [? E2]. split; [done|]. intros t c. by rewrite E2, E1. Qed.

Lemma same_chain t c w w' : same_chains w w' → events_of t c w' = events_of t c w.
Proof. intros [_ E]. unfold events_of. by rewrite E. Qed.

Lemma same_rows_in_order w w' : same_chains w w' → rows_in_order w → rows_in_order w'.
Proof. intros Hs Ho t c. destruct (Ho t c). unfold stamped_in_order, created_in_order. rewrite (same_chain t c _ _ Hs). by destruct Hs as [_ ->]. Qed.

Lemma appended_chain e w w' t c :
  appended e w w' →
  events_of t c w' = if decide (t = tenantId (ev_fields e) ∧ c = auditClass (ev_fields e))
                    then events_of t c w ++ [e] else events_of t c w.
Proof. intros (_ & x & E). unfold events_of. rewrite E. case_decide; [|done]. by rewrite fmap_app. Qed.

Lemma same_appended e w1 w2 w3 : same_chains w1 w2 → appended e w2 w3 → appended e w1 w3.
Proof. intros [_ E1] (? & x & E2). split; [done|]. exists x. intros t c. by rewrite E2, !E1. Qed.

Lemma catching_inv {A} code (x : M W A) w r w' :
  catching code x w = (r, w') → ∃ r0, x w = (r0, w') ∧ r = match r0 with Ok a => Ok a | Throw c => Throw (wrap_error code c) end.
Proof. unfold catching. destruct (x w) as [[a|c] w1]; intros [= <- <-]; eauto. Qed.

(** The hash of the event that was inserted last into a chain. *)
Definition head_hash (t : string) (c : AuditClass) (w : W) : option string := tamperProofHash <$> last (events_of t c w).

Lemma head_hash_same t c w w' : same_chains w w' → head_hash t c w' = head_hash t c w.
Proof. intros Hs. unfold head_hash. by rewrite (same_chain t c _ _ Hs). Qed.

Lemma write_fetch_effect input w r w' :
  store_wf w → write_fetch S input w = (r, w') →
  same_chains w w' ∧ ∀ prev, r = Ok prev → rows_in_order w → prev = head_hash (wi_tenantId input) (wi_auditClass input) w.
Proof.
  intros Hwf (r0 & [Hs Hl]%last_law & ->)%catching_inv; [|done]. split; [done|].
  intros prev Hr Ho. destruct r0; simplify_eq. apply Hl; [done|apply Ho].
Qed.

Lemma write_insert_effect e w r w' :
  store_wf w → write_insert S e w = (r, w') → (r = Ok tt ∧ appended e w w') ∨ ((∃ c, r = Throw c) ∧ same_chains w w').
Proof. intros Hwf (r0 & [[-> ?]|[[c ->] ?]]%insert_law & ->)%catching_inv; [by left|right; eauto|done]. Qed.

(** What an admitted write has established. *)
Record admitted_write (input : WriteAuditEventInput) (caller : CallerPrincipal) (newId now : string)
    (e : AuditEvent) (w : W) : Prop := mkAdmitted {
  aw_admit : write_admit resolveCallerTenant input caller = Ok tt;
  aw_event : ∃ prev, candidate input prev newId now = Ok e
                     ∧ (rows_in_order w → prev = head_hash (wi_tenantId input) (wi_auditClass input) w) }.

Lemma write_effect input caller newId now w r w' :
  store_wf w → write input caller newId now w = (r, w') →
  (same_chains w w' ∧ ∀ e, r ≠ Ok e)
  ∨ ∃ e, r = Ok e ∧ admitted_write input caller newId now e w ∧ appended e w w'.
Proof.
  intros Hwf [([] & w1 & [= Ea <-] & E)|(c & [= _ <-] & ->)]%M_bind_inv; [|by left].
  apply M_bind_inv in E as [([] & w1 & S1%lock_law & E)|(c & S1%lock_law & ->)]; [|done|by left|done].
  apply M_bind_inv in E as [(h & w2 & [S2 Eh]%write_fetch_effect & E)|(c & [S2 _]%write_fetch_effect & ->)];
    [|apply S1|by left; split; [eapply same_chains_trans|]|apply S1].
  pose proof (same_chains_trans _ _ _ S1 S2) as S12.
  apply M_bind_inv in E as [(e & w3 & [= Ec <-] & E)|(c & [= _ <-] & ->)]; [|by left].
  apply M_bind_inv in E as [([] & w3 & Ei%write_insert_effect & [= <- <-])|(c & Ei%write_insert_effect & ->)];
    [|apply S12| |apply S12].
  - destruct Ei as [[_ Hap]|[[? ?] _]]; [|done]. right. exists e. split; [done|]. split; [|by eapply same_appended].
    split; [done|]. exists h. split; [done|]. intros Ho. rewrite <- (head_hash_same _ _ _ _ S1).
    apply Eh; [done|by eapply same_rows_in_order].
  - destruct Ei as [[? _]|[_ S3]]; [done|]. left. split; [by eapply same_chains_trans|done].
Qed.

(** The event of an admitted write. *)
Lemma candidate_ok input prev newId now e :
  candidate input prev newId now = Ok e →
  let f := ev_fields e in
  canonicalizeAuditPayload (wi_payload input) = Ok (canonicalPayload f)
  ∧ tenantId f = wi_tenantId input ∧ auditClass f = wi_auditClass input ∧ eventId f = newId
  ∧ previousHash f = prev ∧ tamperProofHash e = event_digest f ∧ ev_signature e = wi_signature input
  ∧ validateAuditEvent e = true.
Proof.
  unfold candidate. intros (p & Hp & (h & Hh & ([] & _ & ([] & Hv%check_ok & [= <-])%res_bind_ok)%res_bind_ok)%res_bind_ok)%res_bind_ok.
  rewrite event_hash_ok in Hh. injection Hh as <-. done.
Qed.

(** Rows in order, chains that replay, events that satisfy the schema. *)
Definition sound_store (w : W) : Prop :=
  store_wf w ∧ rows_in_order w
  ∧ ∀ t c, replay_chain None (events_of t c w) = Ok tt ∧ Forall (λ e, validateAuditEvent e = true) (events_of t c w).

Lemma same_sound w w' : same_chains w w' → sound_store w → sound_store w'.
Proof.
  intros Hs (_ & Ho & Hc). split_and!; [apply Hs|by eapply same_rows_in_order|].
  intros t c. by rewrite (same_chain t c _ _ Hs).
Qed.

(** A candidate on top of the head of its chain. *)
Lemma appended_sound input newId now e w w' :
  sound_store w → candidate input (head_hash (wi_tenantId input) (wi_auditClass input) w) newId now = Ok e →
  appended e w w' → rows_in_order w' → sound_store w'.
Proof.
  intros (Hwf & _ & Hs) Hc Hap Ho. split_and!; [apply Hap|done|]. intros t c.
  rewrite (appended_chain _ _ _ t c Hap). case_decide as D; [|done]. destruct D as [-> ->].
  destruct (candidate_ok _ _ _ _ _ Hc) as (_ & Et & Ec & _ & Ep & Eh & _ & Hv).
  destruct (Hs (wi_tenantId input) (wi_auditClass input)) as [Hr Hf]. rewrite Et, Ec. split.
  - apply replay_snoc. split_and!; [done|done|]. rewrite Ep. unfold head_hash. by destruct (last _).
  - apply Forall_app. by split; [|constructor].
Qed.

(** ** Overlapping writers *)

(** Where a call of [writeAuditEvent] stands: before its lock, between lock and
    fetch, between fetch and insert, at the end of its transaction. *)
Inductive Writer : Type :=
  | w_ready
  | w_locked
  | w_fetched (prev : option string)
  | w_done (r : res AuditEvent).

Record WriteCall : Type := mkCall { wc_input : WriteAuditEventInput; wc_caller : CallerPrincipal; wc_at : Writer }.

Definition advance (x : WriteCall) (y : Writer) : WriteCall := mkCall (wc_input x) (wc_caller x) y.

(** It holds the lock of a chain, from its acquisition to the end. *)
Definition holds (t : string) (c : AuditClass) (x : WriteCall) : Prop :=
  wi_tenantId (wc_input x) = t ∧ wi_auditClass (wc_input x) = c
  ∧ match wc_at x with w_locked | w_fetched _ => True | _ => False end.

(** The part of a call under its lock.  The id and the time are fresh values of
    the generators; any holder can be rolled back, and then no row is left. *)
Inductive section_step (input : WriteAuditEventInput) : Writer → W → Writer → W → Prop :=
  | section_fetch w r w' : write_fetch S input w = (r, w') →
      section_step input w_locked w (match r with Ok prev => w_fetched prev | Throw e => w_done (Throw e) end) w'
  | section_refused prev newId now e w : candidate input prev newId now = Throw e →
      section_step input (w_fetched prev) w (w_done (Throw e)) w
  | section_insert prev newId now event r w w' : candidate input prev newId now = Ok event →
      write_insert S event w = (r, w') →
      section_step input (w_fetched prev) w (w_done (_ ← r; mret event)) w'
  | section_rollback x e w : section_step input x w (w_done (Throw e)) w.

(** Calls arrive and take turns in any order.  The lock is the one of the port,
    [pg_advisory_xact_lock] on the tenant and the class: it is given to a call
    while no other one holds it, and held to the end of the transaction.  A row
    is inserted after the rows of its chain, in its [created_at] and in its
    timestamp. *)
Inductive audit_step : list WriteCall * W → list WriteCall * W → Prop :=
  | audit_arrives ws w input caller : audit_step (ws, w) (ws ++ [mkCall input caller w_ready], w)
  | audit_refused ws w n x e : ws !! n = Some x → wc_at x = w_ready →
      write_admit resolveCallerTenant (wc_input x) (wc_caller x) = Throw e →
      audit_step (ws, w) (<[n := advance x (w_done (Throw e))]> ws, w)
  | audit_locks ws w n x r w' : ws !! n = Some x → wc_at x = w_ready →
      write_admit resolveCallerTenant (wc_input x) (wc_caller x) = Ok tt →
      Forall (λ y, ¬ holds (wi_tenantId (wc_input x)) (wi_auditClass (wc_input x)) y) ws →
      as_lock S (wi_tenantId (wc_input x)) (wi_auditClass (wc_input x)) w = (r, w') →
      audit_step (ws, w) (<[n := advance x (match r with Ok _ => w_locked | Throw e => w_done (Throw e) end)]> ws, w')
  | audit_section ws w n x y w' : ws !! n = Some x →
      holds (wi_tenantId (wc_input x)) (wi_auditClass (wc_input x)) x →
      section_step (wc_input x) (wc_at x) w y w' → rows_in_order w' →
      audit_step (ws, w) (<[n := advance x y]> ws, w').

(** What a call knows: a fetched hash is the head of its chain, a written event
    is in the store. *)
Definition call_ok (w : W) (x : WriteCall) : Prop :=
  match wc_at x with
  | w_fetched prev => prev = head_hash (wi_tenantId (wc_input x)) (wi_auditClass (wc_input x)) w
  | w_done (Ok e) => in_store e w
  | _ => True
  end.

Definition exclusive (ws : list WriteCall) : Prop :=
  ∀ n m x y t c, ws !! n = Some x → ws !! m = Some y → holds t c x → holds t c y → n = m.

Definition audit_inv (s : list WriteCall * W) : Prop :=
  sound_store s.2 ∧ exclusive s.1 ∧ Forall (call_ok s.2) s.1.

Lemma call_ok_same w w' x : same_chains w w' → call_ok w x → call_ok w' x.
Proof.
  intros Hs. unfold call_ok, in_store. destruct (wc_at x) as [| |prev|[e|e]]; [done|done| | |done].
  - by rewrite (head_hash_same _ _ _ _ Hs).
  - by rewrite (same_chain _ _ _ _ Hs).
Qed.

Lemma insert_lookup_cases (ws : list WriteCall) n m x y : <[n := y]> ws !! m = Some x → (m = n ∧ x = y) ∨ (m ≠ n ∧ ws !! m = Some x).
Proof. intros [(-> & -> & _)|[? ?]]%list_lookup_insert_Some; [by left|right; split; [congruence|done]]. Qed.

(** A call that moves within its lock, or out of it, keeps the locks exclusive. *)
Lemma exclusive_advance ws n x y :
  ws !! n = Some x → exclusive ws → (∀ t c, holds t c (advance x y) → holds t c x) → exclusive (<[n := advance x y]> ws).
Proof.
  intros Hn He Hh i j a b t c [[-> ->]|[? Hi]]%insert_lookup_cases [[-> ->]|[? Hj]]%insert_lookup_cases Ha Hb.
  - done.
  - exact (He _ _ _ _ t c Hn Hj (Hh _ _ Ha) Hb).
  - exact (He _ _ _ _ t c Hi Hn Ha (Hh _ _ Hb)).
  - exact (He _ _ _ _ t c Hi Hj Ha Hb).
Qed.

Lemma exclusive_lock ws n x y :
  ws !! n = Some x → exclusive ws → Forall (λ y, ¬ holds (wi_tenantId (wc_input x)) (wi_auditClass (wc_input x)) y) ws →
  exclusive (<[n := advance x y]> ws).
Proof.
  intros Hn He Hf i j a b t c [[-> ->]|[? Hi]]%insert_lookup_cases [[-> ->]|[? Hj]]%insert_lookup_cases Ha Hb; [done| | |].
  - destruct Ha as (<- & <- & _). by destruct (Forall_lookup_1 _ _ _ _ Hf Hj).
  - destruct Hb as (<- & <- & _). by destruct (Forall_lookup_1 _ _ _ _ Hf Hi).
  - exact (He _ _ _ _ t c Hi Hj Ha Hb).
Qed.

Lemma exclusive_arrives ws input caller : exclusive ws → exclusive (ws ++ [mkCall input caller w_ready]).
Proof.
  intros He i j a b t c Hi Hj Ha Hb.
  assert (∀ k z, (ws ++ [mkCall input caller w_ready]) !! k = Some z → holds t c z → ws !! k = Some z) as Hk.
  { intros k z [?|(_ & [_ <-]%list_lookup_singleton_Some)]%lookup_app_Some; [done|].
    by intros (_ & _ & []). }
  exact (He _ _ _ _ t c (Hk _ _ Hi Ha) (Hk _ _ Hj Hb) Ha Hb).
Qed.

(** The other calls, when one inserts on the chain it has locked. *)
Lemma appended_call_ok ws n x e w w' t c :
  exclusive ws → ws !! n = Some x → holds t c x → tenantId (ev_fields e) = t → auditClass (ev_fields e) = c →
  appended e w w' → ∀ m y, m ≠ n → ws !! m = Some y → call_ok w y → call_ok w' y.
Proof.
  intros He Hn Hx Et Ec Hap m y Hm Hy. unfold call_ok. destruct (wc_at y) as [| |prev|[e'|c']] eqn:Ey; [done|done| | |done].
  - unfold head_hash. rewrite (appended_chain _ _ _ _ _ Hap). case_decide as D; [|done]. destruct D as [D1 D2].
    destruct Hm. apply (He _ _ _ _ t c Hy Hn); [|done]. split_and!; [congruence|congruence|by rewrite Ey].
  - unfold in_store. rewrite (appended_chain _ _ _ _ _ Hap). case_decide; [|done]. intros ?. apply elem_of_app. by left.
Qed.

Lemma audit_inv_advance ws n x y w w' :
  ws !! n = Some x → audit_inv (ws, w) → exclusive (<[n := advance x y]> ws) → sound_store w' →
  (∀ m z, m ≠ n → ws !! m = Some z → call_ok w z → call_ok w' z) → call_ok w' (advance x y) →
  audit_inv (<[n := advance x y]> ws, w').
Proof.
  intros Hn (_ & _ & Hc) He Hw Hothers Hx. split_and!; [done|done|]. apply Forall_lookup. simpl.
  intros m z [[-> ->]|[Hm Hz]]%insert_lookup_cases; [done|].
  by eapply Hothers, Forall_lookup_1.
Qed.

Lemma section_inv ws w n x y w' :
  ws !! n = Some x → holds (wi_tenantId (wc_input x)) (wi_auditClass (wc_input x)) x →
  section_step (wc_input x) (wc_at x) w y w' → rows_in_order w' → audit_inv (ws, w) → audit_inv (<[n := advance x y]> ws, w').
Proof.
  intros Hn Hh Hs Ho Hinv. pose proof Hinv as (Hw & He & Hc). simpl in *.
  assert (exclusive (<[n := advance x y]> ws)) as He'
    by (apply exclusive_advance; [done|done|]; intros t c (Ht & Hcl & _); split_and!; [done|done|apply Hh]).
  pose proof (Forall_lookup_1 _ _ _ _ Hc Hn) as Hx. unfold call_ok in Hx.
  inversion Hs as [w1 r w2 Ef Ex|prev newId now e w1 Ec Ex|prev newId now event r w1 w2 Ec Ei Ex|x1 e w1]; subst.
  - apply write_fetch_effect in Ef as [Hsame Hp]; [|apply Hw]. eapply audit_inv_advance; eauto using same_sound, call_ok_same.
    destruct r as [prev|e]; [|done]. unfold call_ok. simpl. rewrite (head_hash_same _ _ _ _ Hsame). apply Hp; [done|apply Hw].
  - by eapply audit_inv_advance; eauto.
  - rewrite <- Ex in Hx. subst prev. destruct (candidate_ok _ _ _ _ _ Ec) as (_ & Et & Ecl & _).
    apply write_insert_effect in Ei as [[-> Hap]|[[e ->] Hsame]]; [| |apply Hw].
    + eapply audit_inv_advance; eauto using appended_sound, appended_call_ok. unfold call_ok, in_store. simpl.
      rewrite (appended_chain _ _ _ _ _ Hap), decide_True by done. apply elem_of_app. right. by left.
    + by eapply audit_inv_advance; eauto using same_sound, call_ok_same.
  - by eapply audit_inv_advance; eauto.
Qed.

Lemma audit_step_inv s s' : audit_step s s' → audit_inv s → audit_inv s'.
Proof.
  intros Hs Hinv. pose proof Hinv as (Hw & He & Hc).
  destruct Hs as [ws w input caller|ws w n x e Hn _ _|ws w n x r w' Hn _ _ Hfree Hl|ws w n x y w' Hn Hh Hsec Ho]; simpl in *.
  - split_and!; [done|by apply exclusive_arrives|]. apply Forall_app. by split; [|constructor].
  - eapply audit_inv_advance; eauto; [|done]. apply exclusive_advance; [done|done|]. by intros t c (_ & _ & []).
  - apply lock_law in Hl as Hsame; [|apply Hw].
    eapply audit_inv_advance; eauto using same_sound, call_ok_same, exclusive_lock. by destruct r.
  - by eapply section_inv.
Qed.

(** C31.  Every chain verifies, whoever writes: calls of the writer arrive and
    overlap in any order, each being admitted, refused, failing or rolled back
    at any of its steps.  Whenever the events of a tenant and class are fetched,
    the replay of what the store returns succeeds from genesis on, all its
    events satisfy the schema, and every event of that chain that a call has
    reported as written is among them.  Conditions: the store is one of
    [AuditStoreLaws] and starts sound (the empty one is); its advisory lock
    admits one holder per tenant and class at a time, as the port documents;
    and a row is inserted with a [created_at] and a timestamp later than those
    of the rows already in its chain, the two columns the store's queries
    order by. *)
Theorem audit_chains_verify w0 ws w t c l w' :
  sound_store w0 → rtc audit_step ([], w0) (ws, w) → fetchAllEvents S t c w = (Ok l, w') →
  replay_chain None l = Ok tt ∧ Forall (λ e, validateAuditEvent e = true) l
  ∧ ∀ x e, x ∈ ws → wc_at x = w_done (Ok e) → tenantId (ev_fields e) = t → auditClass (ev_fields e) = c → e ∈ l.
Proof.
  intros Hw0 Hreach Hl. assert (audit_inv (ws, w)) as ((Hwf & Ho & Hs) & _ & Hc).
  { revert Hreach. generalize (ws, w). intros s Hreach.
    assert (audit_inv ([], w0)) as Hinv by (split_and!; [done|by intros n m x y ? ? ?|constructor]).
    induction Hreach; eauto using audit_step_inv. }
  apply all_law in Hl as [_ El]; [|done]. rewrite (El l eq_refl (proj2 (Ho t c))).
  split_and!; [apply Hs|apply Hs|]. intros x e Hx Hat <- <-.
  pose proof (proj1 (Forall_forall _ _) Hc x Hx) as Hk. unfold call_ok in Hk. by rewrite Hat in Hk.
Qed.

(** Tenants are isolated: a write appends at most one event, to a chain of the
    tenant its caller was resolved to, of a class that the caller's database
    role may write; all other chains stay as they were. *)
Theorem audit_tenant_isolated input caller newId now w r w' t c :
  store_wf w → writeAuditEvent S resolveCallerTenant input caller newId now w = (r, w') →
  events_of t c w' = events_of t c w
  ∨ (∃ e, r = Ok e ∧ events_of t c w' = events_of t c w ++ [e])
    ∧ resolveCallerTenant caller = Ok t ∧ c = wi_auditClass input
    ∧ (cp_dbRole caller = Some "audit_writer_l1" → c = L1) ∧ (cp_dbRole caller = Some "audit_writer_l2" → c ≠ L1).
Proof.
  intros Hwf [[Hs _]|(e & -> & [Ha (prev & Hc & _)] & Hap)]%write_effect; [left; by apply same_chain| |done].
  rewrite (appended_chain _ _ _ t c Hap). case_decide as D; [right|by left]. destruct D as [-> ->].
  destruct (candidate_ok _ _ _ _ _ Hc) as (_ & Et & Ec & _). simpl in *. rewrite Et, Ec.
  apply res_bind_ok in Ha as (rt & Ht & ([] & ->%check_ok%String.eqb_eq & Hr)%res_bind_ok).
  split_and!; [by eexists|done|done| |]; intros Hrole; rewrite Hrole in Hr.
  - apply res_bind_ok in Hr as ([] & Hl%check_ok & _). by destruct (wi_auditClass input).
  - apply res_bind_ok in Hr as ([] & _ & Hl%check_ok). by destruct (wi_auditClass input).
Qed.

(** ** Verification of one event *)

(** The payload that the caller kept, when given, is the one recorded. *)
Definition payload_matches (p : option value) (e : AuditEvent) : Prop :=
  ∀ v, p = Some v → canonicalizeAuditPayload v = Ok (canonicalPayload (ev_fields e)).

Definition verifiable (i t : string) (p : option value) (e : AuditEvent) (w : W) : Prop :=
  in_store e w ∧ eventId (ev_fields e) = i ∧ tenantId (ev_fields e) = t ∧ validateAuditEvent e = true
  ∧ replay_chain None (events_of t (auditClass (ev_fields e)) w) = Ok tt ∧ payload_matches p e ∧ ev_signature e = None.

Lemma replay_step_ok e w w' :
  store_wf w → rows_in_order w → reverseHashChainReplay S e w = (Ok tt, w') →
  same_chains w w' ∧ replay_chain None (events_of (tenantId (ev_fields e)) (auditClass (ev_fields e)) w) = Ok tt.
Proof.
  intros Hwf Ho (l & w1 & (r0 & Ea & Er)%catching_inv & E)%M_bind_ok. apply all_law in Ea as [S1 El]; [|done].
  destruct r0 as [l'|]; [|done]. injection Er as ->. rewrite (El l' eq_refl (proj2 (Ho _ _))) in E.
  apply M_bind_ok in E as ([] & ? & [= _ <-] & E). apply M_bind_ok in E as ([] & ? & [= Hr <-] & E).
  by injection E as _ <-.
Qed.

Lemma payload_step_ok p e :
  (match p with
   | None => Ok tt
   | Some v => recomputed ← canonicalizeAuditPayload v;
               check (String.eqb recomputed (canonicalPayload (ev_fields e))) "AUDIT_CANONICALIZE_MISMATCH"
   end) = Ok tt ↔ payload_matches p e.
Proof.
  unfold payload_matches. destruct p as [v|]; [|naive_solver]. rewrite res_bind_ok. split.
  - intros (x & Hx & ->%check_ok%String.eqb_eq) v' [= <-]. done.
  - intros Hv. eexists. split; [by apply Hv|]. by apply check_ok, String.eqb_eq.
Qed.

(** The verifier accepts an event exactly when it is stored under the id and
    the tenant asked for, satisfies the schema, its whole chain replays from
    genesis, the payload matches the one given, and it carries no signature;
    for a store whose rows are in order. *)
Lemma verifyAuditEvent_exact i t p e w :
  store_wf w → rows_in_order w → AuditReliable S →
  (∃ w', verifyAuditEvent S i t p w = (Ok (inr e), w')) ↔ verifiable i t p e w.
Proof.
  intros Hwf Hord Hrel. unfold verifyAuditEvent. split.
  - intros [w' E]. destruct (verify_steps S i t p w) as [[x|c] wx] eqn:V; [|done]. injection E as -> <-.
    apply M_bind_ok in V as (o & w1 & [S1 Ho]%find_law & V); [|done].
    apply M_bind_ok in V as (e1 & ? & [= Ee <-] & V). destruct o as [e2|]; [|done]. injection Ee as ->.
    destruct (proj1 (Ho (Some e1) eq_refl e1) eq_refl) as (Hin & Hi & Ht).
    apply M_bind_ok in V as ([] & ? & [= Hv%check_ok <-] & V).
    apply M_bind_ok in V as ([] & w2 & [S2 Hr]%replay_step_ok & V); [|apply S1|by eapply same_rows_in_order].
    apply M_bind_ok in V as ([] & ? & [= Hp%payload_step_ok <-] & V).
    apply M_bind_ok in V as ([] & ? & [= Hsig%check_ok%bool_decide_eq_true <-] & [= <- <-]).
    rewrite (same_chain _ _ _ _ S1), Ht in Hr. done.
  - intros (Hin & Hi & Ht & Hv & Hr & Hp & Hsig).
    destruct (find_ok i t w Hwf) as (o & w1 & Ef). pose proof (find_law _ _ _ _ _ Hwf Ef) as [S1 Ho].
    assert (o = Some e) as -> by by apply Ho.
    destruct (all_ok (tenantId (ev_fields e)) (auditClass (ev_fields e)) w1 (proj1 S1)) as (l & w2 & Ea).
    pose proof (all_law _ _ _ _ _ (proj1 S1) Ea) as [_ El]. pose proof (same_rows_in_order _ _ S1 Hord) as Hord1.
    specialize (El l eq_refl (proj2 (Hord1 _ _))). rewrite (same_chain _ _ _ _ S1) in El. subst l.
    exists w2. unfold verify_steps. rewrite (M_bind_run _ _ _ _ _ Ef).
    rewrite (M_bind_run _ _ e _ w1) by done. rewrite (M_bind_run _ _ tt _ w1) by (unfold lift_res, check; by rewrite Hv).
    rewrite (M_bind_run _ _ tt _ w2).
    + rewrite (M_bind_run _ _ tt _ w2) by (unfold lift_res; f_equal; by apply payload_step_ok).
      rewrite (M_bind_run _ _ tt _ w2) by (unfold lift_res, check; by rewrite bool_decide_true). done.
    + unfold reverseHashChainReplay. rewrite (M_bind_run _ _ _ _ w2) by (unfold catching; rewrite Ea; done).
      unfold in_store in Hin. rewrite Ht in *.
      rewrite (M_bind_run _ _ tt _ w2) by (destruct (events_of t _ w); [by apply not_elem_of_nil in Hin|done]).
      rewrite (M_bind_run _ _ tt _ w2) by (unfold lift_res; by rewrite Hr).
      unfold lift_res. f_equal. apply check_ok, existsb_exists. exists e.
      split; [by apply list_elem_of_In|by apply String.eqb_eq].
Qed.

(** Further writes, one after the other, whatever their results; rows come in
    order. *)
Definition later_write (w w' : W) : Prop :=
  ∃ input caller newId now r, write input caller newId now w = (r, w') ∧ rows_in_order w'.

Lemma write_sound input caller newId now w r w' :
  sound_store w → write input caller newId now w = (r, w') → rows_in_order w' → sound_store w'.
Proof.
  intros Hw [[Hs _]|(e & _ & [_ (prev & Hc & Hp)] & Hap)]%write_effect Ho; [by eapply same_sound| |apply Hw].
  rewrite Hp in Hc by apply Hw. by eapply appended_sound.
Qed.

Lemma later_keeps w w' e :
  rtc later_write w w' → sound_store w → in_store e w → sound_store w' ∧ in_store e w'.
Proof.
  induction 1 as [|w1 w2 w3 (i & p & n & d & r & E & Ho) _ IH]; [done|]. intros Hw Hin.
  apply IH; [by eapply write_sound|]. unfold in_store in *.
  apply write_effect in E as [[Hs _]|(x & _ & _ & Hap)]; [by rewrite (same_chain _ _ _ _ Hs)| |apply Hw].
  rewrite (appended_chain _ _ _ _ _ Hap). case_decide; [|done]. apply elem_of_app. by left.
Qed.

Lemma write_stored input caller newId now w e w' :
  sound_store w → write input caller newId now w = (Ok e, w') → rows_in_order w' →
  sound_store w' ∧ in_store e w' ∧ ∃ prev, candidate input prev newId now = Ok e.
Proof.
  intros Hw E Ho. split; [by eapply write_sound|].
  apply write_effect in E as [[_ Hn]|(x & [= <-] & [_ (prev & Hc & _)] & Hap)]; [by edestruct Hn| |apply Hw].
  split; [|by eexists]. unfold in_store. rewrite (appended_chain _ _ _ _ _ Hap), decide_True by done.
  apply elem_of_app. right. by left.
Qed.

(** A written event stays verifiable: without a signature, and after any
    further writes, the verifier accepts it under its id and tenant, with the
    payload that was handed in, as long as rows come in order. *)
Theorem audit_write_verify input caller newId now w e w1 w2 :
  sound_store w → AuditReliable S → write input caller newId now w = (Ok e, w1) → rows_in_order w1 →
  wi_signature input = None → rtc later_write w1 w2 →
  ∃ w3, verifyAuditEvent S newId (wi_tenantId input) (Some (wi_payload input)) w2 = (Ok (inr e), w3).
Proof.
  intros Hw Hrel Hwr Ho1 Hsig Hl. destruct (write_stored _ _ _ _ _ _ _ Hw Hwr Ho1) as (Hw1 & Hin & prev & Hc).
  destruct (later_keeps _ _ _ Hl Hw1 Hin) as [(Hwf & Ho & Hs) Hin2].
  destruct (candidate_ok _ _ _ _ _ Hc) as (Hp & Et & Ec & Ei & _ & _ & Es & Hv). simpl in *.
  apply verifyAuditEvent_exact; [done|done|done|].
  split_and!; [done|done|done|done|apply Hs|by intros v [= <-]|congruence].
Qed.

(** A signed event is written but never verified: the writer takes a signature,
    the verifier has no check for it and refuses every event that carries one. *)
Theorem signed_event_rejected input caller newId now w e w1 w2 p :
  sound_store w → AuditReliable S → write input caller newId now w = (Ok e, w1) → rows_in_order w1 →
  wi_signature input ≠ None → rtc later_write w1 w2 →
  ∀ x w3, verifyAuditEvent S newId (wi_tenantId input) p w2 ≠ (Ok (inr x), w3).
Proof.
  intros Hw Hrel Hwr Ho1 Hsig Hl x w3 E. destruct (write_stored _ _ _ _ _ _ _ Hw Hwr Ho1) as (Hw1 & Hin & prev & Hc).
  destruct (later_keeps _ _ _ Hl Hw1 Hin) as [(Hwf & Ho & Hs) Hin2].
  destruct (candidate_ok _ _ _ _ _ Hc) as (_ & Et & _ & Ei & _ & _ & Es & _). simpl in *.
  destruct (proj1 (verifyAuditEvent_exact newId (wi_tenantId input) p x _ Hwf Ho Hrel)) as (Hx & Ix & Tx & _ & _ & _ & Sx); [by eexists|].
  destruct (find_ok newId (wi_tenantId input) _ Hwf) as (o & w4 & Ef).
  destruct (find_law _ _ _ _ _ Hwf Ef) as [_ Hf].
  assert (o = Some x) as E1 by by apply Hf. assert (o = Some e) as E2 by by apply Hf. congruence.
Qed.
End runs.
