(* ===== verification/AuditExamples.v ===== *)
(** * Concrete audit logs

    Two tenants writing to the audit store in memory, and the logs at which the
    theorems of AuditTamperProof.v are applied; and three writers that the lock
    of the store in memory does not keep apart. *)
From S2P Require Import Prelude JsValue Time Encoding Crypto ToyPrimitives Authorization.
From S2P Require Import SignedPayload MultisigExamples AuditTamperProof.

Definition tenant_a : string := "aaaaaaaa-0a1b-4c2d-8a1b-0a1b2c3d4e5f".
Definition tenant_b : string := "bbbbbbbb-0a1b-4c2d-8a1b-0a1b2c3d4e5f".
Definition event_id (c : ascii) : string := String.String c "a1b2c3d-0a1b-4c2d-8a1b-0a1b2c3d4e5f".

Definition day (c : ascii) : string := "2026-03-0" +:+ String.String c "T08:00:00.000Z".

(** Agents a and b belong to the tenants of their names. *)
Definition resolve_tenant (c : CallerPrincipal) : res string :=
  if String.eqb (cp_actorDid c) "did:agent:a" then Ok tenant_a
  else if String.eqb (cp_actorDid c) "did:agent:b" then Ok tenant_b
  else Throw "AUDIT_TENANT_SCOPE_VIOLATION".

Definition caller (did : string) : CallerPrincipal := mkCaller did None (Some "audit_writer_l2").

Definition entry (t did act : string) (sg : option string) : WriteAuditEventInput :=
  mkWriteInput None t L2 did act "" (VObj [("note", VStr act)]) sg.

Definition no_events : AuditMemory := mkAuditMemory ∅ ∅ ∅ [] 0.

Definition audit_write : WriteAuditEventInput → CallerPrincipal → string → string → M AuditMemory AuditEvent :=
  writeAuditEvent InMemoryAuditEventStore resolve_tenant.

Definition first_event : AuditEvent := Eval vm_compute in
  ok_or (mkAuditEvent (mkAuditFields "" "" "" L1 "" "" "" "" None "") "" None)
    (audit_write (entry tenant_a "did:agent:a" "GRANT" None) (caller "did:agent:a") (event_id "1") (day "1") no_events).1.

Definition after_first : AuditMemory :=
  (audit_write (entry tenant_a "did:agent:a" "GRANT" None) (caller "did:agent:a") (event_id "1") (day "1") no_events).2.

(** One more by a, one by b, and one by b for a's tenant, which is refused. *)
Definition second_log : AuditMemory :=
  (audit_write (entry tenant_a "did:agent:a" "REVOKE" None) (caller "did:agent:a") (event_id "2") (day "2") after_first).2.
Definition third_log : AuditMemory :=
  (audit_write (entry tenant_b "did:agent:b" "REVOKE" None) (caller "did:agent:b") (event_id "3") (day "3") second_log).2.
Definition full_log : AuditMemory :=
  (audit_write (entry tenant_a "did:agent:a" "SETTLE" None) (caller "did:agent:b") (event_id "4") (day "4") third_log).2.

Example log_lengths :
  length (events_of tenant_a L2 full_log) = 2%nat ∧ length (events_of tenant_b L2 full_log) = 1%nat
  ∧ (audit_write (entry tenant_a "did:agent:a" "SETTLE" None) (caller "did:agent:b") (event_id "4") (day "4") full_log).1
    = Throw "AUDIT_TENANT_SCOPE_VIOLATION".
Proof. vm_compute. done. Qed.

(** A changed action is detected. *)
Example tampering_detected :
  let forged := mkAuditEvent (mkAuditFields "1.0.0" (event_id "1") tenant_a L2 "did:agent:a" "DENY" ""
                  (canonicalPayload (ev_fields first_event)) None (day "1")) (tamperProofHash first_event) None in
  replay_chain None [first_event] = Ok tt ∧ replay_chain None [forged] = Throw "AUDIT_TAMPER_DETECTED".
Proof. vm_compute. done. Qed.

(** ** Order *)

Lemma positions_sorted (l : list AuditEvent) (n : nat) :
  StronglySorted Z.lt (imap (λ i e, (e, Z.of_nat (n + i))) l).*2.
Proof.
  revert n. induction l as [|x l IH]; intros n; [constructor|]. csimpl. constructor.
  - replace (imap ((λ i e, (e, Z.of_nat (n + i))) ∘ Datatypes.S) l) with (imap (λ i (e : AuditEvent), (e, Z.of_nat (Datatypes.S n + i))) l); [apply IH|].
    apply imap_ext. intros i y _. unfold compose. by rewrite Nat.add_succ_r.
  - apply Forall_forall. intros z ([? ?] & -> & (i & y & [= _ ->] & _)%elem_of_lookup_imap)%list_elem_of_fmap. simpl. lia.
Qed.

#[export] Instance earlier_dec x y : Decision (earlier x y).
Proof. unfold earlier. apply _. Defined.

(** The chains of a store in memory, each by its ids. *)
Definition stamps_ascend (w : AuditMemory) : bool :=
  forallb (λ k, bool_decide (StronglySorted earlier (omap (λ i, am_events w !! i) k.2))) (map_to_list (chainsByTenantClass w)).

Lemma memory_in_order w :
  stamps_ascend w = true → rows_in_order w.
Proof.
  intros Hf t c. split; [exact (positions_sorted _ 0)|]. unfold stamped_in_order. rewrite mem_events_of.
  unfold mem_events, memory_chain. destruct (chainsByTenantClass w !! chain_key t c) as [ids|] eqn:E; [|constructor].
  apply elem_of_map_to_list, list_elem_of_In in E.
  exact (bool_decide_eq_true_1 _ (proj1 (forallb_forall _ _) Hf _ E)).
Qed.

Lemma no_events_sound : sound_store no_events.
Proof.
  split_and!; [apply empty_memory_wf|by apply memory_in_order|]. intros t c. split; [reflexivity|constructor].
Qed.

Lemma first_write :
  audit_write (entry tenant_a "did:agent:a" "GRANT" None) (caller "did:agent:a") (event_id "1") (day "1") no_events
  = (Ok first_event, after_first).
Proof. vm_compute. reflexivity. Qed.

(** ** Witnesses *)

(** Two calls on one chain: the second has arrived before the first writes, and
    gets the lock after it. *)
Definition grant_call : WriteCall := mkCall (entry tenant_a "did:agent:a" "GRANT" None) (caller "did:agent:a") w_ready.
Definition revoke_call : WriteCall := mkCall (entry tenant_a "did:agent:a" "REVOKE" None) (caller "did:agent:a") w_ready.
Definition second_event : AuditEvent := Eval vm_compute in
  ok_or first_event (candidate (wc_input revoke_call) (Some (tamperProofHash first_event)) (event_id "2") (day "2")).

Definition memory_at (events : list AuditEvent) (promises : nat) : AuditMemory :=
  mkAuditMemory (list_to_map ((λ e, (eventId (ev_fields e), e)) <$> events))
    (match events with [] => ∅ | _ => {[chain_key tenant_a L2 := (λ e, eventId (ev_fields e)) <$> events]} end)
    (match promises with O => ∅ | Datatypes.S n => {[chain_key tenant_a L2 := Some n]} end) [] promises.

Ltac in_step := first [apply memory_in_order; vm_compute; reflexivity | vm_compute; reflexivity].

Ltac lock_free := repeat (constructor; [intros (_ & _ & [])|]); constructor.

Ltac in_lock := split; [reflexivity|split; [reflexivity|exact I]].

Notation audit_run := (audit_step InMemoryAuditEventStore resolve_tenant).

(** A call alone on its chain gets the lock, fetches and inserts. *)
Lemma first_call :
  rtc audit_run ([grant_call; revoke_call], memory_at [] 0)
    ([advance grant_call (w_done (Ok first_event)); revoke_call], memory_at [first_event] 1).
Proof.
  eapply rtc_l; [eapply (audit_locks _ _ _ _ 0 grant_call (Ok tt) (memory_at [] 1));
    [in_step|in_step|in_step|lock_free|in_step]|].
  eapply rtc_l; [eapply (audit_section _ _ _ _ 0 (advance grant_call w_locked) (w_fetched None) (memory_at [] 1));
    [in_step|in_lock|apply (section_fetch _ _ _ (Ok None)); in_step|in_step]|].
  eapply rtc_l; [eapply (audit_section _ _ _ _ 0 (advance grant_call (w_fetched None)) (w_done (Ok first_event)) (memory_at [first_event] 1));
    [in_step|in_lock|apply (section_insert _ _ _ (event_id "1") (day "1") first_event (Ok tt)); in_step|in_step]|].
  apply rtc_refl.
Qed.

Lemma second_call :
  let first := advance grant_call (w_done (Ok first_event)) in
  let prev := Some (tamperProofHash first_event) in
  rtc audit_run ([first; revoke_call], memory_at [first_event] 1)
    ([first; advance revoke_call (w_done (Ok second_event))], memory_at [first_event; second_event] 2).
Proof.
  intros first prev.
  eapply rtc_l; [eapply (audit_locks _ _ _ _ 1 revoke_call (Ok tt) (memory_at [first_event] 2));
    [in_step|in_step|in_step|lock_free|in_step]|].
  eapply rtc_l; [eapply (audit_section _ _ _ _ 1 (advance revoke_call w_locked) (w_fetched prev) (memory_at [first_event] 2));
    [in_step|in_lock|apply (section_fetch _ _ _ (Ok prev)); in_step|in_step]|].
  eapply rtc_l; [eapply (audit_section _ _ _ _ 1 (advance revoke_call (w_fetched prev)) (w_done (Ok second_event))
                           (memory_at [first_event; second_event] 2));
    [in_step|in_lock|apply (section_insert _ _ _ (event_id "2") (day "2") second_event (Ok tt)); in_step|in_step]|].
  apply rtc_refl.
Qed.

Lemma two_calls :
  rtc audit_run ([], no_events)
    ([advance grant_call (w_done (Ok first_event)); advance revoke_call (w_done (Ok second_event))],
     memory_at [first_event; second_event] 2).
Proof.
  eapply rtc_l; [apply audit_arrives|]. eapply rtc_l; [apply audit_arrives|].
  etransitivity; [exact first_call|exact second_call].
Qed.

Lemma audit_chains_verify_witness :
  replay_chain None [first_event; second_event] = Ok tt
  ∧ Forall (λ e, validateAuditEvent e = true) [first_event; second_event]
  ∧ ∀ x e, x ∈ [advance grant_call (w_done (Ok first_event)); advance revoke_call (w_done (Ok second_event))] →
      wc_at x = w_done (Ok e) → tenantId (ev_fields e) = tenant_a → auditClass (ev_fields e) = L2 →
      e ∈ [first_event; second_event].
Proof.
  apply (audit_chains_verify InMemoryAuditEventStore resolve_tenant no_events _ _ tenant_a L2 [first_event; second_event]
           (memory_at [first_event; second_event] 2) no_events_sound two_calls).
  vm_compute. reflexivity.
Defined.

Lemma audit_head_commits_witness :
  ev_fields <$> [first_event] = ev_fields <$> [first_event]
  ∨ colliding_events [first_event] [first_event] ∨ zero_hash [first_event] [first_event].
Proof.
  apply (audit_head_commits [first_event] [first_event]); [vm_compute; reflexivity|vm_compute; reflexivity|reflexivity].
Defined.

Lemma audit_tenant_isolated_witness :
  events_of tenant_a L2 after_first = events_of tenant_a L2 no_events
  ∨ (∃ e, Ok first_event = Ok e ∧ events_of tenant_a L2 after_first = events_of tenant_a L2 no_events ++ [e])
    ∧ resolve_tenant (caller "did:agent:a") = Ok tenant_a ∧ L2 = L2
    ∧ (Some "audit_writer_l2" = Some "audit_writer_l1" → L2 = L1) ∧ (Some "audit_writer_l2" = Some "audit_writer_l2" → L2 ≠ L1).
Proof.
  exact (audit_tenant_isolated InMemoryAuditEventStore resolve_tenant (entry tenant_a "did:agent:a" "GRANT" None)
           (caller "did:agent:a") (event_id "1") (day "1") no_events (Ok first_event) after_first tenant_a L2
           empty_memory_wf first_write).
Defined.

Lemma later_log : rtc (later_write InMemoryAuditEventStore resolve_tenant) after_first full_log.
Proof.
  assert (∀ i p n d w, stamps_ascend (audit_write i p n d w).2 = true →
          later_write InMemoryAuditEventStore resolve_tenant w (audit_write i p n d w).2) as Hl.
  { intros i p n d w Ho. exists i, p, n, d, (audit_write i p n d w).1. split; [by apply surjective_pairing|by apply memory_in_order]. }
  apply (rtc_l _ _ second_log); [unfold second_log; apply Hl; vm_compute; reflexivity|].
  apply (rtc_l _ _ third_log); [unfold third_log; apply Hl; vm_compute; reflexivity|].
  apply rtc_once. unfold full_log. apply Hl. vm_compute. reflexivity.
Qed.

Lemma audit_write_verify_witness :
  ∃ w2, verifyAuditEvent InMemoryAuditEventStore (event_id "1") tenant_a (Some (VObj [("note", VStr "GRANT")])) full_log
        = (Ok (inr first_event), w2).
Proof.
  apply (audit_write_verify InMemoryAuditEventStore resolve_tenant (entry tenant_a "did:agent:a" "GRANT" None)
           (caller "did:agent:a") (event_id "1") (day "1") no_events first_event after_first full_log
           no_events_sound AuditMemory_reliable first_write); [apply memory_in_order; vm_compute; reflexivity|reflexivity|exact later_log].
Defined.

Definition signed_entry : WriteAuditEventInput := entry tenant_a "did:agent:a" "GRANT" (Some "c2ln").

Lemma signed_event_rejected_witness :
  ∃ e w1, audit_write signed_entry (caller "did:agent:a") (event_id "1") (day "1") no_events = (Ok e, w1)
    ∧ ∀ x w2, verifyAuditEvent InMemoryAuditEventStore (event_id "1") tenant_a None w1 ≠ (Ok (inr x), w2).
Proof.
  destruct (audit_write signed_entry (caller "did:agent:a") (event_id "1") (day "1") no_events) as [[e|c] w1] eqn:E;
    [|vm_compute in E; discriminate E].
  exists e, w1. split; [reflexivity|].
  apply (signed_event_rejected InMemoryAuditEventStore resolve_tenant signed_entry (caller "did:agent:a") (event_id "1") (day "1")
           no_events e w1 w1 None no_events_sound AuditMemory_reliable E); [|discriminate|apply rtc_refl].
  apply memory_in_order. vm_compute in E. injection E as _ <-. vm_compute. reflexivity.
Defined.

(** ** The lock in memory *)

(** A, B and C write to one chain: A has the lock, B and C wait for the promise
    of its release, which lets both go on; both take the lock, both fetch the
    hash of A's event, both insert. *)
Definition act (name : string) : WriteAuditEventInput := entry tenant_a "did:agent:a" name None.

Definition a_writes : M AuditMemory unit :=
  _ ← mem_takeLock tenant_a L2;
  prev ← write_fetch InMemoryAuditEventStore (act "A");
  event ← lift_res (candidate (act "A") prev (event_id "1") (day "1"));
  write_insert InMemoryAuditEventStore event.
Definition b_and_c_write : M AuditMemory (list AuditEvent) :=
  _ ← mem_takeLock tenant_a L2;
  _ ← mem_takeLock tenant_a L2;
  prev_b ← write_fetch InMemoryAuditEventStore (act "B");
  prev_c ← write_fetch InMemoryAuditEventStore (act "C");
  event_b ← lift_res (candidate (act "B") prev_b (event_id "2") (day "2"));
  event_c ← lift_res (candidate (act "C") prev_c (event_id "3") (day "3"));
  _ ← write_insert InMemoryAuditEventStore event_b;
  _ ← write_insert InMemoryAuditEventStore event_c;
  fetchAllEvents InMemoryAuditEventStore tenant_a L2.

(** Three writers fork the chain: what B and C found when they asked for the lock
    was the promise of A, resolved when A released the lock, and the chain they
    leave does not replay, although its rows are in order. *)
Theorem three_writers_fork :
  let held := (mem_takeLock tenant_a L2 no_events).2 in
  let written := (a_writes no_events).2 in
  let free := mem_releaseLock tenant_a L2 written in
  mem_existingHolder tenant_a L2 no_events = None
  ∧ mem_existingHolder tenant_a L2 held = Some 0%nat ∧ mem_existingHolder tenant_a L2 written = Some 0%nat
  ∧ am_released written = [] ∧ am_released free = [0%nat]
  ∧ ∃ chain w, b_and_c_write free = (Ok chain, w) ∧ rows_in_order w
      ∧ replay_chain None chain = Throw "AUDIT_HASH_CHAIN_BROKEN".
Proof.
  intros held written free.
  split_and!; [vm_compute; reflexivity..|]. destruct (b_and_c_write free) as [[chain|c] w] eqn:E;
    [|vm_compute in E; discriminate E].
  exists chain, w. split; [reflexivity|]. vm_compute in E. injection E as <- <-.
  split; [apply memory_in_order|]; vm_compute; reflexivity.
Qed.
