(* ===== verification/Sessions.v ===== *)
(** * Sessions

    packages/communication/src/session: the records and inputs of types.ts, the
    store in memory (in-memory-store.ts) with all its primitives, and the
    manager (session-manager.ts).  The store is the list of the entries of a
    JavaScript Map, in insertion order.  Readings of the clock, in milliseconds,
    are arguments. *)
From S2P Require Import Prelude JsValue Time Encoding Crypto Authorization SignedPayload.

(** ** Data *)

Inductive SessionState : Type := CREATED | ACTIVE | IDLE | CLOSED.
#[export] Instance SessionState_eq_dec : EqDecision SessionState.
Proof. solve_decision. Defined.

Inductive CloseReason : Type := IDLE_TIMEOUT | EXPLICIT_CLOSE | HANDSHAKE_REJECTED | ERROR | REVOKED_TOKEN.
Inductive EncryptionState : Type := OFF | REQUIRED.
#[export] Instance EncryptionState_eq_dec : EqDecision EncryptionState.
Proof. solve_decision. Defined.

(** The fields that are never written again after creation. *)
Record SessionIdentity : Type := mkIdentity {
  sessionId : string;
  initiatorDid : string;
  responderDid : string;
  principalDid : string;
  capabilityTokenId : option string;
  capabilityTokenFingerprint : option string;
  encryptionState : EncryptionState;
  supersedesSessionId : option string;
  didPairKey : string;
  createdAt : string }.

Record Session : Type := mkSession {
  identity : SessionIdentity;
  se_state : SessionState;
  negotiatedCapabilities : list string;
  sessionKeyFingerprint : option string;
  rekeyCount : Z;
  establishedAt : option string;
  lastSeenAt : string;
  lastAuthorizedAt : string;
  idleSince : option string;
  closedAt : option string;
  closeReason : option CloseReason;
  updatedAt : string;
  revision : string }.

Record SessionCreateInput : Type := mkSessionCreate {
  ci_sessionId : string;
  ci_initiatorDid : string;
  ci_responderDid : string;
  ci_principalDid : string;
  ci_capabilityTokenId : option string;
  ci_capabilityTokenFingerprint : option string;
  ci_negotiatedCapabilities : option (list string);
  ci_encryptionState : option EncryptionState;
  ci_sessionKeyFingerprint : option string;
  ci_initialState : option SessionState;
  ci_supersedesSessionId : option string }.

(** A property that is absent is [None]; [idleSince] and
    [sessionKeyFingerprint] may be given as null. *)
Record SessionUpdatePatch : Type := mkPatch {
  up_state : option SessionState;
  up_negotiatedCapabilities : option (list string);
  up_establishedAt : option string;
  up_lastSeenAt : option string;
  up_lastAuthorizedAt : option string;
  up_idleSince : option (option string);
  up_closedAt : option string;
  up_closeReason : option CloseReason;
  up_sessionKeyFingerprint : option (option string);
  up_rekeyCount : option Z }.

Definition empty_patch : SessionUpdatePatch := mkPatch None None None None None None None None None None.

Record SessionResumeInput : Type := mkResume {
  ri_sessionId : string;
  expectedInitiatorDid : string;
  expectedResponderDid : string;
  ri_expectedTokenId : option string;
  ri_expectedTokenFingerprint : option string;
  idleHardMs : Z;
  ri_negotiatedCapabilities : list string;
  ri_now : option string }.

Record ClaimParams : Type := mkClaim {
  cl_sessionId : string;
  cl_senderDid : string;
  cl_selfDid : string;
  cl_expectedTokenId : option string;
  cl_expectedTokenFingerprint : option string;
  cl_now : option string }.

Definition LIVE_STATES : list SessionState := [CREATED; ACTIVE; IDLE].

(** ** Revisions *)

(** [String(n)] for an integer, its digits first. *)
Fixpoint decimal_digits (fuel : nat) (n : Z) : list ascii :=
  match fuel with
  | O => []
  | S fuel' => if n <? 10 then [digit_ascii n] else decimal_digits fuel' (n / 10) ++ [digit_ascii (n mod 10)]
  end.
Definition print_decimal (n : Z) : string :=
  if n <? 0 then "-" +:+ str (decimal_digits (S (Z.to_nat (- n))) (- n)) else str (decimal_digits (S (Z.to_nat n)) n).

Fixpoint skip_spaces (l : list ascii) : list ascii :=
  match l with c :: l' => if is_space c then skip_spaces l' else l | [] => [] end.

(** [parseInt(s, 10)]: spaces, a sign, and the digits that follow. *)
Definition parseInt (s : string) : option Z :=
  let l := skip_spaces (chars s) in
  let '(sg, l) := match l with
                  | c :: l' => if Ascii.eqb c "-" then (-1, l') else if Ascii.eqb c "+" then (1, l') else (1, l)
                  | [] => (1, [])
                  end in
  match (span_digits l).1 with
  | [] => None
  | ds => (λ n, sg * n) <$> decimal_from 0 ds
  end.

(** Revisions count writes and stay within the exact integers. *)
Definition bumpRevision (rev : string) : res string :=
  match parseInt rev with
  | Some n => Ok (print_decimal (n + 1))
  | None => Throw "SESSION_STATE_INVALID"
  end.

(** ** The Map *)

Definition SessionMap : Type := list (string * Session).

Definition put (id : string) (s : Session) : M SessionMap unit := λ m, (Ok tt, map_set id s m).
Definition fetch (id : string) : M SessionMap Session := λ m,
  (match map_get id m with Some s => Ok s | None => Throw "SESSION_NOT_FOUND" end, m).

(** ** The store *)

Definition se_live (s : Session) : bool := bool_decide (se_state s ∈ LIVE_STATES).

(** The pair of DIDs in order, joined by a NUL. *)
Definition pair_key (a b : string) : string :=
  let '(x, y) := if String.leb a b then (a, b) else (b, a) in
  x +:+ String.String (ascii_of_N 0) y.

Definition new_session (input : SessionCreateInput) (now : string) : res Session :=
  let isActive := bool_decide (ci_initialState input = Some ACTIVE) in
  let encState := default OFF (ci_encryptionState input) in
  _ ← check (negb (bool_decide (encState = OFF) && bool_decide (is_Some (ci_sessionKeyFingerprint input))))
        "SESSION_STATE_INVALID";
  mret (mkSession
    (mkIdentity (ci_sessionId input) (ci_initiatorDid input) (ci_responderDid input) (ci_principalDid input)
       (ci_capabilityTokenId input) (ci_capabilityTokenFingerprint input) encState
       (ci_supersedesSessionId input) (pair_key (ci_initiatorDid input) (ci_responderDid input)) now)
    (if isActive then ACTIVE else CREATED) (default [] (ci_negotiatedCapabilities input))
    (if bool_decide (encState = REQUIRED) then ci_sessionKeyFingerprint input else None) 0
    (if isActive then Some now else None) now now None None None now "1").

Definition store_create (t : Z) (input : SessionCreateInput) : M SessionMap Session := λ m,
  match map_get (ci_sessionId input) m with
  | Some _ => (Throw "SESSION_STATE_INVALID", m)
  | None =>
      (s ← lift_res (new_session input (toISOString t));
       _ ← put (ci_sessionId input) s;
       mret s) m
  end.

Definition store_get (id : string) : M SessionMap (option Session) := λ m, (Ok (map_get id m), m).

(** The row after [...row, ...patch] with a new time and revision. *)
Definition patched (row : Session) (p : SessionUpdatePatch) (now rev : string) : Session :=
  mkSession (identity row) (default (se_state row) (up_state p))
    (default (negotiatedCapabilities row) (up_negotiatedCapabilities p))
    (default (sessionKeyFingerprint row) (up_sessionKeyFingerprint p)) (default (rekeyCount row) (up_rekeyCount p))
    (match up_establishedAt p with Some t => Some t | None => establishedAt row end)
    (default (lastSeenAt row) (up_lastSeenAt p)) (default (lastAuthorizedAt row) (up_lastAuthorizedAt p))
    (default (idleSince row) (up_idleSince p))
    (match up_closedAt p with Some t => Some t | None => closedAt row end)
    (match up_closeReason p with Some r => Some r | None => closeReason row end) now rev.

Definition store_update (t : Z) (id : string) (p : SessionUpdatePatch) : M SessionMap Session :=
  row ← fetch id;
  if bool_decide (se_state row = CLOSED) then throw "SESSION_CLOSED"
  else
    rev ← lift_res (bumpRevision (revision row));
    let updated := patched row p (toISOString t) rev in
    _ ← put id updated;
    mret updated.

(** The row closed at [now]; [idleSince] is cleared by all closes but the one
    of stale handshakes. *)
Definition closed_row (row : Session) (now : string) (reason : CloseReason) (clear : bool) (rev : string) : Session :=
  patched row
    (mkPatch (Some CLOSED) None None None None (if clear then Some None else None) (Some now) (Some reason) None None)
    now rev.

Definition store_close_row (id : string) (row : Session) (now : string) (reason : CloseReason) (clear : bool)
    : M SessionMap unit :=
  rev ← lift_res (bumpRevision (revision row));
  put id (closed_row row now reason clear rev).

(** [now - new Date(ts).getTime() > limit], false when either is NaN. *)
Definition elapsed_over (now : option Z) (ts : string) (limit : Z) : bool :=
  match now, iso_getTime ts with Some n, Some t => limit <? n - t | _, _ => false end.

(** [input.now ? new Date(input.now).getTime() : Date.now()] *)
Definition now_ms (t : Z) (given : option string) : option Z :=
  match given with
  | Some s => if non_empty s then iso_getTime s else Some t
  | None => Some t
  end.

(** [new Date(ms).toISOString()], which throws on an invalid date. *)
Definition iso_of (ms : option Z) : res string :=
  match ms with Some t => Ok (toISOString t) | None => Throw "RangeError" end.

(** [row.capabilityTokenFingerprint === input.expectedCapabilityTokenFingerprint]:
    the null of a row is not the undefined of an input. *)
Definition same_fingerprint (have want : option string) : bool :=
  match have, want with Some a, Some b => String.eqb a b | _, _ => false end.

Definition store_resume (t : Z) (input : SessionResumeInput) : M SessionMap Session :=
  row ← fetch (ri_sessionId input);
  let i := identity row in
  if bool_decide (se_state row = CLOSED) then throw "SESSION_CLOSED"
  else if negb (bool_decide (se_state row = IDLE)) then throw "SESSION_STATE_INVALID"
  else if negb (String.eqb (initiatorDid i) (expectedInitiatorDid input)
                && String.eqb (responderDid i) (expectedResponderDid input)) then throw "SESSION_DID_MISMATCH"
  else if match ri_expectedTokenId input with
          | Some tok => negb (bool_decide (capabilityTokenId i = Some tok)
                              && same_fingerprint (capabilityTokenFingerprint i) (ri_expectedTokenFingerprint input))
          | None => false
          end then throw "SESSION_TOKEN_MISMATCH"
  else
    let nowMs := now_ms t (ri_now input) in
    if match idleSince row with
       | Some since => non_empty since && elapsed_over nowMs since (idleHardMs input)
       | None => false
       end
    then
      nowTs ← lift_res (iso_of nowMs);
      _ ← store_close_row (ri_sessionId input) row nowTs IDLE_TIMEOUT true;
      throw "SESSION_IDLE_EXPIRED"
    else
      now ← lift_res (iso_of nowMs);
      rev ← lift_res (bumpRevision (revision row));
      let updated := patched row
        (mkPatch (Some ACTIVE) (Some (ri_negotiatedCapabilities input))
           (Some (default now (establishedAt row))) (Some now) (Some now) (Some None) None None None None) now rev in
      _ ← put (ri_sessionId input) updated;
      mret updated.

Definition with_supersedes (input : SessionCreateInput) (old : string) : SessionCreateInput :=
  mkSessionCreate (ci_sessionId input) (ci_initiatorDid input) (ci_responderDid input) (ci_principalDid input)
    (ci_capabilityTokenId input) (ci_capabilityTokenFingerprint input) (ci_negotiatedCapabilities input)
    (ci_encryptionState input) (ci_sessionKeyFingerprint input) (ci_initialState input) (Some old).

Definition supersedeAndCreate (t : Z) (oldSessionId : string) (fallback : CloseReason)
    (input : SessionCreateInput) (given : option string) : M SessionMap Session :=
  old ← fetch oldSessionId;
  _ ← (if bool_decide (se_state old = CLOSED) then mret tt
       else store_close_row oldSessionId old (default (toISOString t) given) fallback true);
  store_create t (with_supersedes input oldSessionId).

Definition claimForDispatch (t : Z) (p : ClaimParams) : M SessionMap Session :=
  row ← fetch (cl_sessionId p);
  let i := identity row in
  if bool_decide (se_state row = CLOSED) then throw "SESSION_CLOSED"
  else if negb (bool_decide (se_state row = ACTIVE)) then throw "SESSION_STATE_INVALID"
  else if negb ((String.eqb (initiatorDid i) (cl_senderDid p) && String.eqb (responderDid i) (cl_selfDid p))
                || (String.eqb (responderDid i) (cl_senderDid p) && String.eqb (initiatorDid i) (cl_selfDid p)))
  then throw "SESSION_DID_MISMATCH"
  else if negb (bool_decide (capabilityTokenId i = cl_expectedTokenId p)
                && bool_decide (capabilityTokenFingerprint i = cl_expectedTokenFingerprint p))
  then throw "SESSION_TOKEN_MISMATCH"
  else
    let now := default (toISOString t) (cl_now p) in
    rev ← lift_res (bumpRevision (revision row));
    let updated := patched row (mkPatch None None None (Some now) None None None None None None) now rev in
    _ ← put (cl_sessionId p) updated;
    mret updated.

Definition store_markAuthorized (t : Z) (id expectedRevision : string) (given : option string) : M SessionMap Session :=
  row ← fetch id;
  if bool_decide (se_state row = CLOSED) then throw "SESSION_CLOSED"
  else if negb (bool_decide (se_state row = ACTIVE)) then throw "SESSION_STATE_INVALID"
  else if negb (String.eqb (revision row) expectedRevision) then throw "SESSION_STATE_INVALID"
  else
    let now := default (toISOString t) given in
    rev ← lift_res (bumpRevision (revision row));
    let updated := patched row (mkPatch None None None None (Some now) None None None None None) now rev in
    _ ← put id updated;
    mret updated.

(** [for (const [id, row] of this.sessions)]: the body only sets keys that are
    there, so the loop runs over the entries at its start. *)
Definition over_entries {A} (body : SessionMap → M SessionMap A) : M SessionMap A := λ m, body m m.

(** The loop that closes the rows chosen. *)
Fixpoint close_where (sel : Session → bool) (now : string) (reason : CloseReason) (clear : bool)
    (entries : SessionMap) : M SessionMap (list string) :=
  match entries with
  | [] => mret []
  | (id, row) :: rest =>
      if sel row then
        _ ← store_close_row id row now reason clear;
        closed ← close_where sel now reason clear rest;
        mret (id :: closed)
      else close_where sel now reason clear rest
  end.

Definition store_closeByToken (t : Z) (tokenId : string) (reason : option CloseReason) (given : option string)
    : M SessionMap (list string) :=
  over_entries (close_where (λ row, bool_decide (capabilityTokenId (identity row) = Some tokenId) && se_live row)
    (default (toISOString t) given) (default REVOKED_TOKEN reason) true).

Definition store_closeByPrincipal (t : Z) (did : string) (reason : option CloseReason) (given : option string)
    : M SessionMap (list string) :=
  over_entries (close_where (λ row, String.eqb (principalDid (identity row)) did && se_live row)
    (default (toISOString t) given) (default REVOKED_TOKEN reason) true).

(** Pass 2 of [_cleanExpired]. *)
Fixpoint idle_where (sel : Session → bool) (now : string) (entries : SessionMap) : M SessionMap Z :=
  match entries with
  | [] => mret 0
  | (id, row) :: rest =>
      if sel row then
        rev ← lift_res (bumpRevision (revision row));
        _ ← put id (patched row (mkPatch (Some IDLE) None None None None (Some (Some now)) None None None None) now rev);
        n ← idle_where sel now rest;
        mret (n + 1)
      else idle_where sel now rest
  end.

Record SessionCleanResult : Type := mkCleanResult { markedStale : Z; markedIdle : Z; markedClosed : Z }.

Definition stale_handshake (now : option Z) (createdTimeoutMs : Z) (row : Session) : bool :=
  bool_decide (se_state row = CREATED) && elapsed_over now (createdAt (identity row)) createdTimeoutMs.
Definition unauthorized_long (now : option Z) (idleSoftMs : Z) (row : Session) : bool :=
  bool_decide (se_state row = ACTIVE) && elapsed_over now (lastAuthorizedAt row) idleSoftMs.
Definition idle_expired (now : option Z) (hardMs : Z) (row : Session) : bool :=
  bool_decide (se_state row = IDLE)
  && match idleSince row with Some since => non_empty since && elapsed_over now since hardMs | None => false end.

Definition cleanExpired (t : Z) (createdTimeoutMs idleSoftMs hardMs : Z) (given : option string)
    : M SessionMap SessionCleanResult :=
  let now := now_ms t given in
  nowTs ← lift_res (iso_of now);
  stale ← over_entries (close_where (stale_handshake now createdTimeoutMs) nowTs HANDSHAKE_REJECTED false);
  idle ← over_entries (idle_where (unauthorized_long now idleSoftMs) nowTs);
  closed ← over_entries (close_where (idle_expired now hardMs) nowTs IDLE_TIMEOUT true);
  mret (mkCleanResult (Z.of_nat (length stale)) idle (Z.of_nat (length closed))).

(** ** listActive *)

Record SessionListActiveFilter : Type := mkListFilter {
  lf_initiatorDid : option string;
  lf_responderDid : option string;
  lf_states : option (list SessionState);
  lf_limit : option Z }.

(** A stable sort, latest first; timestamps of one format compare as strings. *)
Fixpoint insert_latest (s : Session) (l : list Session) : list Session :=
  match l with
  | [] => [s]
  | x :: l' => if String.leb (lastSeenAt s) (lastSeenAt x) && negb (String.eqb (lastSeenAt s) (lastSeenAt x))
               then x :: insert_latest s l' else s :: l
  end.
Definition sort_latest (l : list Session) : list Session := foldr insert_latest [] l.

(** A filter that is absent or empty does not filter. *)
Definition keep_did (want : option string) (have : string) : bool :=
  match want with Some d => negb (non_empty d) || String.eqb have d | None => true end.

Definition listActive (f : SessionListActiveFilter) (m : SessionMap) : list Session :=
  let states := default [ACTIVE] (lf_states f) in
  let results := filter (λ s, se_state s ∈ states
                              ∧ keep_did (lf_initiatorDid f) (initiatorDid (identity s)) = true
                              ∧ keep_did (lf_responderDid f) (responderDid (identity s)) = true) (snd <$> m) in
  let sorted := sort_latest results in
  match lf_limit f with
  | Some n => if n =? 0 then sorted
              else if n <? 0 then take (Z.to_nat (Z.of_nat (length sorted) + n)) sorted
              else take (Z.to_nat n) sorted
  | None => sorted
  end.

(** ** The manager *)

Definition default_createdTimeoutMs : Z := 60000.
Definition default_idleSoftMs : Z := 300000.
Definition default_idleHardMs : Z := 1800000.

Definition activate (t : Z) (id : string) (caps : list string) : M SessionMap Session :=
  _ ← fetch id;
  store_update t id (mkPatch (Some ACTIVE) (Some caps) (Some (toISOString t)) None None None None None None None).

Definition touch (t : Z) (id : string) : M SessionMap unit := λ m,
  match map_get id m with
  | Some s =>
      if bool_decide (se_state s = ACTIVE) then
        (_ ← store_update t id (mkPatch None None None (Some (toISOString t)) None None None None None None); mret tt) m
      else (Ok tt, m)
  | None => (Ok tt, m)
  end.

Definition close_session (t : Z) (id : string) (reason : CloseReason) : M SessionMap unit :=
  s ← fetch id;
  if bool_decide (se_state s = CLOSED) then mret tt
  else
    _ ← store_update t id
          (mkPatch (Some CLOSED) None None None None None (Some (toISOString t)) (Some reason) None None);
    mret tt.

Definition sweep (t createdTimeoutMs idleSoftMs hardMs : Z) : M SessionMap SessionCleanResult :=
  cleanExpired t createdTimeoutMs idleSoftMs hardMs None.

(** ** Revisions are numbers *)

Lemma decimal_from_app acc l1 l2 :
  decimal_from acc (l1 ++ l2) = decimal_from acc l1 ≫= λ a, decimal_from a l2.
Proof. revert acc. induction l1 as [|c l1 IH]; intros acc; [done|]. simpl. destruct (is_digit c); [apply IH|done]. Qed.

Lemma decimal_digits_spec fuel n :
  0 ≤ n → (Z.to_nat n < fuel)%nat →
  decimal_digits fuel n ≠ [] ∧ forallb is_digit (decimal_digits fuel n) = true ∧ decimal_from 0 (decimal_digits fuel n) = Some n.
Proof.
  revert n. induction fuel as [|fuel IH]; intros n Hn Hf; [lia|]. cbn [decimal_digits].
  destruct (Z.ltb_spec n 10).
  - destruct (digit_ascii_digit n) as [Hd Hv]; [lia|]. split_and!; [done|simpl; by rewrite Hd|].
    cbn [decimal_from]. rewrite Hd. f_equal. rewrite Hv. lia.
  - destruct (digit_ascii_digit (n mod 10)) as [Hd Hv]; [Z.div_mod_to_equations; lia|].
    destruct (IH (n / 10)) as (H1 & H2 & H3); [Z.div_mod_to_equations; lia|Z.div_mod_to_equations; lia|].
    split_and!.
    + by destruct (decimal_digits fuel (n / 10)).
    + rewrite forallb_app, H2. simpl. by rewrite Hd.
    + rewrite decimal_from_app, H3. cbn [mbind option_bind decimal_from]. rewrite Hd. f_equal. rewrite Hv.
      Z.div_mod_to_equations; lia.
Qed.

Lemma span_all_digits l : forallb is_digit l = true → span_digits l = (l, []).
Proof. induction l as [|c l IH]; [done|]. simpl. intros [-> Hl]%andb_true_iff. by rewrite IH. Qed.

Lemma parseInt_print n : 0 ≤ n → parseInt (print_decimal n) = Some n.
Proof.
  intros Hn. destruct (decimal_digits_spec (S (Z.to_nat n)) n Hn) as (H1 & H2 & H3); [lia|].
  unfold parseInt, print_decimal. rewrite (proj2 (Z.ltb_ge n 0)) by lia. rewrite chars_str. set (l := decimal_digits _ _) in *. clearbody l.
  destruct l as [|c l]; [done|]. pose proof H2 as [Hc _]%andb_true_iff.
  assert (is_space c = false ∧ Ascii.eqb c "-" = false ∧ Ascii.eqb c "+" = false) as (E1 & E2 & E3).
  { clear -Hc. unfold is_digit, is_space in *. rewrite <- (ascii_N_embedding c).
    pose proof (N_ascii_bounded c). revert Hc. generalize (N_of_ascii c). intros k Hk.
    apply andb_true_iff in Hk as [?%N.leb_le ?%N.leb_le].
    assert (k ∈ ([48; 49; 50; 51; 52; 53; 54; 55; 56; 57]%N)) as Hin.
    { rewrite !elem_of_cons. lia. }
    repeat (apply elem_of_cons in Hin as [->|Hin]; [vm_compute; done|]). by apply not_elem_of_nil in Hin. }
  cbn [skip_spaces]. rewrite E1, E2, E3, span_all_digits by done. cbn [fst].
  rewrite H3. simpl. f_equal. lia.
Qed.

(** The number of a revision written by the store. *)
Definition rev_is (r : string) (n : Z) : Prop := 1 ≤ n ∧ r = print_decimal n.

Lemma bump_rev r n : rev_is r n → bumpRevision r = Ok (print_decimal (n + 1)) ∧ rev_is (print_decimal (n + 1)) (n + 1).
Proof. intros [Hn ->]. unfold bumpRevision. rewrite parseInt_print by lia. split; [done|]. split; [lia|done]. Qed.

Lemma rev_is_inj r n1 n2 : rev_is r n1 → rev_is r n2 → n1 = n2.
Proof.
  intros [H1 E1] [H2 E2]. rewrite E1 in E2. apply (f_equal parseInt) in E2.
  rewrite !parseInt_print in E2 by lia. by injection E2.
Qed.

Lemma rev_one : rev_is "1" 1.
Proof. split; [lia|]. by vm_compute. Qed.

(** ** The Map *)

Lemma session_get_set id' id (s : Session) m :
  map_get id' (map_set id s m) = if decide (id' = id) then Some s else map_get id' m.
Proof. rewrite map_get_set. destruct (String.eqb_spec id id'); case_decide; naive_solver. Qed.

Lemma map_set_split id (s row : Session) pre post :
  id ∉ pre.*1 → map_set id s (pre ++ (id, row) :: post) = pre ++ (id, s) :: post.
Proof.
  induction pre as [|[k x] pre IH]; simpl; [by rewrite String.eqb_refl|].
  rewrite not_elem_of_cons. intros [Hk Hp]. destruct (String.eqb_spec k id); [congruence|]. by rewrite IH.
Qed.

(** ** Steps *)

Definition next_rev (r : string) : string := match bumpRevision r with Ok x => x | Throw _ => r end.

(** The patches that the primitives and the manager write, with the states
    they write them in. *)
Inductive session_patch (row : Session) : SessionUpdatePatch → Prop :=
| sp_activate caps now :
    session_patch row (mkPatch (Some ACTIVE) (Some caps) (Some now) None None None None None None None)
| sp_seen now : se_state row = ACTIVE →
    session_patch row (mkPatch None None None (Some now) None None None None None None)
| sp_authorized now : se_state row = ACTIVE →
    session_patch row (mkPatch None None None None (Some now) None None None None None)
| sp_resume caps now : se_state row = IDLE →
    session_patch row (mkPatch (Some ACTIVE) (Some caps) (Some (default now (establishedAt row))) (Some now)
                         (Some now) (Some None) None None None None)
| sp_close now reason (clear : bool) :
    session_patch row (mkPatch (Some CLOSED) None None None None (if clear then Some None else None)
                         (Some now) (Some reason) None None)
| sp_idle now : se_state row = ACTIVE →
    session_patch row (mkPatch (Some IDLE) None None None None (Some (Some now)) None None None None).

(** A row is written: a new one, of an input that satisfies [N], or a patch of
    a row that is not closed. *)
Inductive store_step (N : SessionCreateInput → Prop) (m : SessionMap) : SessionMap → Prop :=
| step_new input now s :
    N input → map_get (ci_sessionId input) m = None → new_session input now = Ok s →
    store_step N m (map_set (ci_sessionId input) s m)
| step_write id row p now :
    map_get id m = Some row → se_state row ≠ CLOSED → session_patch row p →
    store_step N m (map_set id (patched row p now (next_rev (revision row))) m).

Section steps.
Context (N : SessionCreateInput → Prop).
Notation steps := (rtc (store_step N)).

(** Ids are unique, rows stand under their id, and revisions are numbers. *)
Definition good (m : SessionMap) : Prop :=
  NoDup m.*1 ∧ ∀ id row, map_get id m = Some row → sessionId (identity row) = id ∧ ∃ n, rev_is (revision row) n.

Lemma new_session_ok input now s :
  new_session input now = Ok s →
  sessionId (identity s) = ci_sessionId input ∧ capabilityTokenId (identity s) = ci_capabilityTokenId input
  ∧ revision s = "1" ∧ (se_state s = ACTIVE ∧ establishedAt s = Some now ∨ se_state s = CREATED ∧ establishedAt s = None)
  ∧ idleSince s = None ∧ closedAt s = None ∧ closeReason s = None ∧ rekeyCount s = 0
  ∧ (encryptionState (identity s) = OFF → sessionKeyFingerprint s = None).
Proof.
  unfold new_session. intros ([] & _ & [= <-])%res_bind_ok. simpl.
  destruct (bool_decide (ci_initialState input = Some ACTIVE)); split_and!; try done; try (by left); try (by right);
    by intros ->.
Qed.

Lemma next_rev_is r n : rev_is r n → rev_is (next_rev r) (n + 1).
Proof. intros [E H]%bump_rev. unfold next_rev. by rewrite E. Qed.

Lemma step_good m m' : store_step N m m' → good m → good m'.
Proof.
  intros Hs [Hd Hg]. split; [by destruct Hs; apply map_set_NoDup|]. intros id' row'.
  destruct Hs as [input now s _ Hn (E1 & _ & E2 & _)%new_session_ok|id row p now Hr Hc Hp]; rewrite session_get_set; case_decide as D; try apply Hg.
  - intros [= <-]. subst. split; [done|]. exists 1. rewrite E2. apply rev_one.
  - intros [= <-]. subst. destruct (Hg _ _ Hr) as [E [n Hrev]]. split; [done|]. exists (n + 1). by apply next_rev_is.
Qed.

Lemma steps_good m m' : steps m m' → good m → good m'.
Proof. induction 1; eauto using step_good. Qed.

(** What happens to the row of one id along steps: it stays, or it moves on
    under the same identity with a greater revision; a closed row stays. *)
Definition row_follows (row row' : Session) : Prop :=
  row' = row ∨
  se_state row ≠ CLOSED ∧ identity row' = identity row
  ∧ ∃ n n', rev_is (revision row) n ∧ rev_is (revision row') n' ∧ n < n'.

Lemma row_follows_trans r1 r2 r3 : row_follows r1 r2 → row_follows r2 r3 → row_follows r1 r3.
Proof.
  intros [->|(H1 & E1 & n1 & n1' & R1 & R1' & L1)] [->|(H2 & E2 & n2 & n2' & R2 & R2' & L2)];
    [by left|right; eauto 10|right; eauto 10|]. right. split_and!; [done|congruence|].
  exists n1, n2'. split_and!; [done|done|]. rewrite (rev_is_inj _ _ _ R1' R2) in L1. lia.
Qed.

Lemma steps_follow m m' id row :
  good m → steps m m' → map_get id m = Some row → ∃ row', map_get id m' = Some row' ∧ row_follows row row'.
Proof.
  intros Hg Hs. revert row Hg. induction Hs as [m|m m1 m' Hstep Hs IH]; intros row Hg Hr; [by exists row; split; [|left]|].
  assert (∃ row1, map_get id m1 = Some row1 ∧ row_follows row row1) as (row1 & Hr1 & F1).
  { destruct Hstep as [input now s _ Hn _|id' row0 p now Hr0 Hc Hp]; rewrite session_get_set; case_decide as D; subst.
    - congruence.
    - exists row. by split; [|left].
    - rewrite Hr0 in Hr. injection Hr as ->. eexists. split; [done|]. right. split_and!; [done|done|].
      destruct Hg as [_ Hg]. destruct (Hg _ _ Hr0) as [_ [n Hn]]. exists n, (n + 1).
      split_and!; [done|by apply next_rev_is|lia].
    - exists row. by split; [|left]. }
  destruct (IH row1) as (row' & Hr' & F'); [by eapply step_good|done|].
  exists row'. split; [done|]. by eapply row_follows_trans.
Qed.

(** ** The primitives are sequences of steps *)

Lemma good_bump m id row : good m → map_get id m = Some row → bumpRevision (revision row) = Ok (next_rev (revision row)).
Proof. intros [_ Hg] Hr. destruct (Hg _ _ Hr) as [_ [n [E _]%bump_rev]]. unfold next_rev. by rewrite E. Qed.

Lemma fetch_inv id m r m1 : fetch id m = (r, m1) → m1 = m ∧ ∀ row, r = Ok row → map_get id m = Some row.
Proof. unfold fetch. intros [= <- <-]. split; [done|]. destruct (map_get id m); naive_solver. Qed.

(** The write that ends most primitives. *)
Definition write_row (id : string) (row : Session) (p : SessionUpdatePatch) (now : string) : M SessionMap Session :=
  rev ← lift_res (bumpRevision (revision row));
  let updated := patched row p now rev in
  _ ← put id updated;
  mret updated.

Lemma write_row_run m id row p now :
  good m → map_get id m = Some row →
  write_row id row p now m = let s := patched row p now (next_rev (revision row)) in (Ok s, map_set id s m).
Proof. intros Hg Hr. unfold write_row. by rewrite (good_bump m id row Hg Hr). Qed.

Lemma write_row_steps m id row p now r m' :
  good m → map_get id m = Some row → se_state row ≠ CLOSED → session_patch row p →
  write_row id row p now m = (r, m') → steps m m'.
Proof. intros Hg Hr Hc Hp. rewrite write_row_run by done. intros [= _ <-]. by apply rtc_once, step_write. Qed.

Lemma close_row_run m id row now reason clear :
  good m → map_get id m = Some row →
  store_close_row id row now reason clear m
  = (Ok tt, map_set id (closed_row row now reason clear (next_rev (revision row))) m).
Proof. intros Hg Hr. unfold store_close_row. by rewrite (good_bump m id row Hg Hr). Qed.

Lemma close_row_step m id row now reason clear :
  map_get id m = Some row → se_state row ≠ CLOSED →
  store_step N m (map_set id (closed_row row now reason clear (next_rev (revision row))) m).
Proof. intros Hr Hc. apply step_write; [done|done|]. apply sp_close. Qed.

Lemma create_steps t input m r m' : N input → store_create t input m = (r, m') → steps m m'.
Proof.
  intros HN. unfold store_create. destruct (map_get _ m) eqn:E; [by intros [= _ <-]|].
  intros [(s & ? & [= Hs <-] & [= _ <-])|(c & [= _ <-] & _)]%M_bind_inv; [|done]. by eapply rtc_once, step_new.
Qed.

Lemma update_steps t id p m r m' :
  good m → (∀ row, map_get id m = Some row → session_patch row p) → store_update t id p m = (r, m') → steps m m'.
Proof.
  intros Hg Hp [(row & ? & [-> Hr]%fetch_inv & E)|(c & [-> _]%fetch_inv & ->)]%M_bind_inv; [|done].
  specialize (Hr row eq_refl). case_bool_decide; [by injection E as _ <-|].
  change (write_row id row p (toISOString t) m = (r, m')) in E. eauto using write_row_steps.
Qed.

Lemma resume_steps t input m r m' : good m → store_resume t input m = (r, m') → steps m m'.
Proof.
  intros Hg [(row & ? & [-> Hr]%fetch_inv & E)|(c & [-> _]%fetch_inv & ->)]%M_bind_inv; [|done].
  specialize (Hr row eq_refl). case_bool_decide as Hc; [by injection E as _ <-|].
  destruct (bool_decide_reflect (se_state row = IDLE)) as [Hi|]; [simpl in E|by injection E as _ <-].
  destruct (negb _); [by injection E as _ <-|].
  destruct (match ri_expectedTokenId input with Some _ => _ | None => _ end); [by injection E as _ <-|].
  destruct (match idleSince row with Some _ => _ | None => _ end).
  - apply M_bind_inv in E as [(now & ? & [= _ <-] & E)|(c & [= _ <-] & ->)]; [|done].
    rewrite (M_bind_run _ _ _ _ _ (close_row_run m _ row now IDLE_TIMEOUT true Hg Hr)) in E.
    injection E as _ <-. by apply rtc_once, close_row_step.
  - apply M_bind_inv in E as [(now & ? & [= _ <-] & E)|(c & [= _ <-] & ->)]; [|done].
    eapply write_row_steps; [done|done|done| |exact E]. by apply sp_resume.
Qed.

Lemma supersede_steps t old fb input given m r m' :
  good m → N (with_supersedes input old) → supersedeAndCreate t old fb input given m = (r, m') → steps m m'.
Proof.
  intros Hg HN [(row & ? & [-> Hr]%fetch_inv & E)|(c & [-> _]%fetch_inv & ->)]%M_bind_inv; [|done].
  specialize (Hr row eq_refl). case_bool_decide as Hc.
  - rewrite (M_bind_run _ _ tt _ m) in E by done. by eapply create_steps.
  - rewrite (M_bind_run _ _ _ _ _ (close_row_run m _ row (default (toISOString t) given) fb true Hg Hr)) in E.
    eapply rtc_l; [by apply close_row_step|]. by eapply create_steps.
Qed.

(** Who may dispatch: the session is active, the pair is the session's in one
    direction or the other, and the token binding is the session's. *)
Definition may_dispatch (p : ClaimParams) (row : Session) : Prop :=
  let i := identity row in
  se_state row = ACTIVE
  ∧ (initiatorDid i = cl_senderDid p ∧ responderDid i = cl_selfDid p
     ∨ responderDid i = cl_senderDid p ∧ initiatorDid i = cl_selfDid p)
  ∧ capabilityTokenId i = cl_expectedTokenId p ∧ capabilityTokenFingerprint i = cl_expectedTokenFingerprint p.

Definition claimed (t : Z) (p : ClaimParams) (row : Session) : Session :=
  let now := default (toISOString t) (cl_now p) in
  patched row (mkPatch None None None (Some now) None None None None None None) now (next_rev (revision row)).

Lemma claim_spec t p m r m' :
  good m → claimForDispatch t p m = (r, m') →
  (∃ row, map_get (cl_sessionId p) m = Some row ∧ may_dispatch p row ∧ r = Ok (claimed t p row)
          ∧ m' = map_set (cl_sessionId p) (claimed t p row) m)
  ∨ (m' = m ∧ (∃ c, r = Throw c) ∧ ∀ row, map_get (cl_sessionId p) m = Some row → ¬ may_dispatch p row).
Proof.
  intros Hg [(row & ? & [-> Hr]%fetch_inv & E)|(c & Ef & ->)]%M_bind_inv.
  2:{ right. unfold fetch in Ef. destruct (map_get _ m); [done|]. injection Ef as <- <-. split_and!; [done|eauto|done]. }
  specialize (Hr row eq_refl). unfold may_dispatch. rewrite Hr.
  case_bool_decide as Hc. { injection E as <- <-. right. split_and!; [done|eauto|]. intros ? [= <-] [? _]. congruence. }
  destruct (bool_decide_reflect (se_state row = ACTIVE)) as [Ha|Ha]; simpl in E.
  2:{ injection E as <- <-. right. split_and!; [done|eauto|]. by intros ? [= <-] [? _]. }
  repeat match type of E with context [String.eqb ?a ?b] => destruct (String.eqb_spec a b) end; simpl in E;
    try (injection E as <- <-; right; split_and!; [done|eauto|]; intros ? [= <-]; naive_solver).
  all: case_bool_decide as H1; simpl in E; [case_bool_decide as H2; simpl in E|].
  all: try (injection E as <- <-; right; split_and!; [done|eauto|]; intros ? [= <-]; naive_solver).
  all: left; exists row; unfold claimed; change (write_row (cl_sessionId p) row
         (mkPatch None None None (Some (default (toISOString t) (cl_now p))) None None None None None None)
         (default (toISOString t) (cl_now p)) m = (r, m')) in E; rewrite write_row_run in E by done;
       injection E as <- <-; split_and!; auto.
Qed.

(** A successful authorization needs an active session at the revision given. *)
Lemma mark_spec t id rev given m r m' :
  good m → store_markAuthorized t id rev given m = (r, m') →
  (∃ row s, map_get id m = Some row ∧ se_state row = ACTIVE ∧ revision row = rev ∧ r = Ok s ∧ steps m m')
  ∨ (m' = m ∧ ∃ c, r = Throw c).
Proof.
  intros Hg [(row & ? & [-> Hr]%fetch_inv & E)|(c & [-> _]%fetch_inv & ->)]%M_bind_inv; [|eauto].
  specialize (Hr row eq_refl).
  case_bool_decide as Hc; [injection E as <- <-; eauto|].
  destruct (bool_decide_reflect (se_state row = ACTIVE)) as [Ha|Ha]; simpl in E; [|injection E as <- <-; eauto].
  destruct (String.eqb_spec (revision row) rev) as [Hv|]; simpl in E; [|injection E as <- <-; eauto].
  change (write_row id row (mkPatch None None None None (Some (default (toISOString t) given)) None None None None None)
            (default (toISOString t) given) m = (r, m')) in E.
  pose proof E as E'. rewrite write_row_run in E' by done. injection E' as <- _.
  left. exists row. eexists. split_and!; [done|done|done|done|].
  eapply write_row_steps; [done|done|done| |exact E]. by apply sp_authorized.
Qed.

(** ** The loops *)

(** The entry a loop leaves for an entry it meets. *)
Definition rewrite_entry (sel : Session → bool) (f : Session → Session) (kv : string * Session) : string * Session :=
  if sel kv.2 then (kv.1, f kv.2) else kv.

Lemma loop_write pre id row rest p now :
  let m := pre ++ (id, row) :: rest in
  let new := patched row p now (next_rev (revision row)) in
  good m → se_state row ≠ CLOSED → session_patch row p →
  map_get id m = Some row ∧ map_set id new m = (pre ++ [(id, new)]) ++ rest
  ∧ store_step N m ((pre ++ [(id, new)]) ++ rest) ∧ good ((pre ++ [(id, new)]) ++ rest).
Proof.
  intros m new Hg Hc Hp.
  assert (map_get id m = Some row) as Hr by (apply map_elem_get; [apply Hg|apply elem_of_app; right; by left]).
  assert (map_set id new m = (pre ++ [(id, new)]) ++ rest) as E.
  { unfold m. rewrite map_set_split, <- app_assoc; [done|]. destruct Hg as [Hd _]. unfold m in Hd.
    rewrite fmap_app in Hd. apply NoDup_app in Hd as (_ & Hx & _). intros Hin. apply (Hx _ Hin). by left. }
  assert (store_step N m ((pre ++ [(id, new)]) ++ rest)) as Hs by (rewrite <- E; by apply step_write).
  split_and!; [done|done|done|by eapply step_good].
Qed.

Lemma close_where_run sel now reason clear pre entries :
  good (pre ++ entries) → (∀ row, sel row = true → se_state row ≠ CLOSED) →
  let out := rewrite_entry sel (λ row, closed_row row now reason clear (next_rev (revision row))) <$> entries in
  close_where sel now reason clear entries (pre ++ entries)
  = (Ok (fst <$> filter (λ kv, sel kv.2 = true) entries), pre ++ out) ∧ steps (pre ++ entries) (pre ++ out).
Proof.
  intros Hg Hsel. revert pre Hg. induction entries as [|[id row] rest IH]; intros pre Hg; simpl; [by split|].
  unfold rewrite_entry at 1 3. cbn [fst snd]. destruct (sel row) eqn:Es.
  - destruct (loop_write pre id row rest _ now Hg (Hsel row Es) (sp_close row now reason clear)) as (Hr & Em & Hstep & Hg').
    rewrite (M_bind_run _ _ _ _ _ (close_row_run _ _ _ _ _ _ Hg Hr)). unfold closed_row at 1. rewrite Em.
    destruct (IH _ Hg') as [E Hs]. rewrite (M_bind_run _ _ _ _ _ E), filter_cons_True by done.
    rewrite <- !app_assoc in Hstep. rewrite <- !app_assoc in Hs. rewrite <- !app_assoc.
    split; [done|]. by eapply rtc_l.
  - rewrite filter_cons_False by (simpl; congruence).
    destruct (IH (pre ++ [(id, row)])) as [E Hs]; [by rewrite <- app_assoc|].
    rewrite <- !app_assoc in E. rewrite <- !app_assoc in Hs. by split.
Qed.

Lemma idle_where_run sel now pre entries :
  good (pre ++ entries) → (∀ row, sel row = true → se_state row = ACTIVE) →
  let idle := λ row, patched row (mkPatch (Some IDLE) None None None None (Some (Some now)) None None None None) now
                       (next_rev (revision row)) in
  let out := rewrite_entry sel idle <$> entries in
  (∃ n, idle_where sel now entries (pre ++ entries) = (Ok n, pre ++ out)) ∧ steps (pre ++ entries) (pre ++ out).
Proof.
  intros Hg Hsel. revert pre Hg. induction entries as [|[id row] rest IH]; intros pre Hg; simpl; [by split; [eexists|]|].
  unfold rewrite_entry at 1 3. cbn [fst snd]. destruct (sel row) eqn:Es.
  - pose proof (Hsel row Es) as Ha.
    destruct (loop_write pre id row rest _ now Hg ltac:(congruence) (sp_idle row now Ha)) as (Hr & Em & Hstep & Hg').
    rewrite (M_bind_run _ _ (next_rev (revision row)) _ (pre ++ (id, row) :: rest))
      by (unfold lift_res; by rewrite (good_bump _ _ _ Hg Hr)).
    rewrite (M_bind_run _ _ tt _ ((pre ++ [(id, _)]) ++ rest)) by (unfold put; by rewrite Em).
    destruct (IH _ Hg') as [[n E] Hs]. rewrite (M_bind_run _ _ _ _ _ E).
    rewrite <- !app_assoc in Hstep. rewrite <- !app_assoc in Hs. rewrite <- !app_assoc.
    split; [by eexists|]. by eapply rtc_l.
  - destruct (IH (pre ++ [(id, row)])) as [[n E] Hs]; [by rewrite <- app_assoc|].
    rewrite <- !app_assoc in E. rewrite <- !app_assoc in Hs. split; [by eexists|done].
Qed.

Lemma map_get_rewrite sel f m id :
  map_get id (rewrite_entry sel f <$> m) = (λ row, if sel row then f row else row) <$> map_get id m.
Proof.
  induction m as [|[k row] m IH]; [done|]. simpl.
  assert (rewrite_entry sel f (k, row) = (k, if sel row then f row else row)) as ->
    by (unfold rewrite_entry; simpl; by destruct (sel row)).
  cbn [fst]. destruct (String.eqb k id); [done|exact IH].
Qed.

Definition live_sel (sel : Session → bool) : Prop := ∀ row, sel row = true → se_state row ≠ CLOSED.

Lemma over_close_run sel now reason clear m :
  good m → live_sel sel →
  ∃ m', over_entries (close_where sel now reason clear) m = (Ok (fst <$> filter (λ kv, sel kv.2 = true) m), m')
  ∧ steps m m'
  ∧ ∀ id, map_get id m' = (λ row, if sel row then closed_row row now reason clear (next_rev (revision row)) else row) <$> map_get id m.
Proof.
  intros Hg Hsel. destruct (close_where_run sel now reason clear [] m Hg Hsel) as [E Hs].
  eexists. split_and!; [exact E|exact Hs|]. intros id. apply map_get_rewrite.
Qed.

Lemma over_idle_run sel now m :
  good m → (∀ row, sel row = true → se_state row = ACTIVE) →
  ∃ n m', over_entries (idle_where sel now) m = (Ok n, m') ∧ steps m m'
  ∧ ∀ id, map_get id m' = (λ row, if sel row
       then patched row (mkPatch (Some IDLE) None None None None (Some (Some now)) None None None None) now (next_rev (revision row))
       else row) <$> map_get id m.
Proof.
  intros Hg Hsel. destruct (idle_where_run sel now [] m Hg Hsel) as [[n E] Hs].
  exists n. eexists. split_and!; [exact E|exact Hs|]. intros id. apply map_get_rewrite.
Qed.

Lemma live_token tok : live_sel (λ row, bool_decide (capabilityTokenId (identity row) = Some tok) && se_live row).
Proof. intros row [_ Hl%bool_decide_eq_true]%andb_true_iff Hc. rewrite Hc in Hl. by vm_compute in Hl; set_solver. Qed.

Lemma live_principal did : live_sel (λ row, String.eqb (principalDid (identity row)) did && se_live row).
Proof. intros row [_ Hl%bool_decide_eq_true]%andb_true_iff Hc. rewrite Hc in Hl. by vm_compute in Hl; set_solver. Qed.

Lemma live_stale now d : live_sel (stale_handshake now d).
Proof. intros row [->%bool_decide_eq_true _]%andb_true_iff. done. Qed.

Lemma live_expired now d : live_sel (idle_expired now d).
Proof. intros row [->%bool_decide_eq_true _]%andb_true_iff. done. Qed.

Lemma sel_unauthorized now d row : unauthorized_long now d row = true → se_state row = ACTIVE.
Proof. by intros [?%bool_decide_eq_true _]%andb_true_iff. Qed.

(** The three passes of a sweep, row by row. *)
Definition swept_row (now : Z) (created soft hard : Z) (row : Session) : Session :=
  let ts := toISOString now in
  let r1 := if stale_handshake (Some now) created row
            then closed_row row ts HANDSHAKE_REJECTED false (next_rev (revision row)) else row in
  let r2 := if unauthorized_long (Some now) soft r1
            then patched r1 (mkPatch (Some IDLE) None None None None (Some (Some ts)) None None None None) ts
                   (next_rev (revision r1))
            else r1 in
  if idle_expired (Some now) hard r2 then closed_row r2 ts IDLE_TIMEOUT true (next_rev (revision r2)) else r2.

Lemma sweep_run t created soft hard m :
  good m → ∃ res m', sweep t created soft hard m = (Ok res, m') ∧ steps m m'
  ∧ ∀ id, map_get id m' = swept_row t created soft hard <$> map_get id m.
Proof.
  intros Hg. unfold sweep, cleanExpired. cbn [now_ms]. rewrite (M_bind_run _ _ (toISOString t) _ m) by done.
  destruct (over_close_run (stale_handshake (Some t) created) (toISOString t) HANDSHAKE_REJECTED false m) as (m1 & E1 & S1 & G1);
    [done|apply live_stale|]. rewrite (M_bind_run _ _ _ _ _ E1).
  assert (good m1) as Hg1 by by eapply steps_good.
  destruct (over_idle_run (unauthorized_long (Some t) soft) (toISOString t) m1) as (n & m2 & E2 & S2 & G2);
    [done|apply sel_unauthorized|]. rewrite (M_bind_run _ _ _ _ _ E2).
  assert (good m2) as Hg2 by by eapply steps_good.
  destruct (over_close_run (idle_expired (Some t) hard) (toISOString t) IDLE_TIMEOUT true m2) as (m3 & E3 & S3 & G3);
    [done|apply live_expired|]. rewrite (M_bind_run _ _ _ _ _ E3).
  eexists _, m3. split_and!; [done|etrans; [exact S1|etrans; [exact S2|exact S3]]|].
  intros id. rewrite G3, G2, G1, <- !option_fmap_compose. by destruct (map_get id m).
Qed.

(** ** Calls *)

Inductive SessionCall : Type :=
| call_create (t : Z) (input : SessionCreateInput)
| call_activate (t : Z) (id : string) (caps : list string)
| call_resume (t : Z) (input : SessionResumeInput)
| call_touch (t : Z) (id : string)
| call_close (t : Z) (id : string) (reason : CloseReason)
| call_supersede (t : Z) (old : string) (fallback : CloseReason) (input : SessionCreateInput) (now : option string)
| call_claim (t : Z) (p : ClaimParams)
| call_authorize (t : Z) (id rev : string) (now : option string)
| call_closeByToken (t : Z) (tok : string) (reason : option CloseReason) (now : option string)
| call_closeByPrincipal (t : Z) (did : string) (reason : option CloseReason) (now : option string)
| call_sweep (t created soft hard : Z).

(** The store after a call, whether it returns or throws. *)
Definition session_call (m : SessionMap) (c : SessionCall) : SessionMap :=
  match c with
  | call_create t input => (store_create t input m).2
  | call_activate t id caps => (activate t id caps m).2
  | call_resume t input => (store_resume t input m).2
  | call_touch t id => (touch t id m).2
  | call_close t id reason => (close_session t id reason m).2
  | call_supersede t old fb input now => (supersedeAndCreate t old fb input now m).2
  | call_claim t p => (claimForDispatch t p m).2
  | call_authorize t id rev now => (store_markAuthorized t id rev now m).2
  | call_closeByToken t tok reason now => (store_closeByToken t tok reason now m).2
  | call_closeByPrincipal t did reason now => (store_closeByPrincipal t did reason now m).2
  | call_sweep t created soft hard => (sweep t created soft hard m).2
  end.

Definition session_run (calls : list SessionCall) (m : SessionMap) : SessionMap := foldl session_call m calls.

Lemma activate_steps t id caps m r m' : good m → activate t id caps m = (r, m') → steps m m'.
Proof.
  intros Hg [(row & ? & [-> Hr]%fetch_inv & E)|(c & [-> _]%fetch_inv & ->)]%M_bind_inv; [|done].
  eapply update_steps; [done| |exact E]. intros ? _. apply sp_activate.
Qed.

Lemma touch_steps t id m r m' : good m → touch t id m = (r, m') → steps m m'.
Proof.
  intros Hg. unfold touch. destruct (map_get id m) as [row|] eqn:Hr; [|by intros [= _ <-]].
  case_bool_decide; [|by intros [= _ <-]].
  intros [(s & m1 & E & [= _ <-])|(c & E & _)]%M_bind_inv; (eapply update_steps; [done| |exact E]);
    intros ? Hx; rewrite Hr in Hx; injection Hx as <-; by apply sp_seen.
Qed.

Lemma close_steps t id reason m r m' : good m → close_session t id reason m = (r, m') → steps m m'.
Proof.
  intros Hg [(row & ? & [-> Hr]%fetch_inv & E)|(c & [-> _]%fetch_inv & ->)]%M_bind_inv; [|done].
  case_bool_decide; [by injection E as _ <-|].
  apply M_bind_inv in E as [(s & m1 & E & [= _ <-])|(c & E & _)]; (eapply update_steps; [done| |exact E]);
    intros ? _; apply (sp_close _ _ _ false).
Qed.

(** The input of the session a call may create. *)
Definition creates (c : SessionCall) : option SessionCreateInput :=
  match c with
  | call_create _ input => Some input
  | call_supersede _ old _ input _ => Some (with_supersedes input old)
  | _ => None
  end.

Lemma call_steps c m : good m → (∀ i, creates c = Some i → N i) → steps m (session_call m c).
Proof.
  intros Hg HN. destruct c; simpl;
    match goal with |- steps m (?x).2 => destruct x as [r m'] eqn:E; simpl end.
  - eapply create_steps; [by apply HN|done].
  - by eapply activate_steps.
  - by eapply resume_steps.
  - by eapply touch_steps.
  - by eapply close_steps.
  - eapply supersede_steps; [done|by apply HN|done].
  - apply claim_spec in E as [(row & Hr & Hd & _ & ->)|(-> & _)]; [|done|done].
    apply rtc_once, step_write; [done| |apply sp_seen]; destruct Hd; congruence.
  - apply mark_spec in E as [(? & ? & _ & _ & _ & _ & ?)|[-> _]]; done.
  - unfold store_closeByToken in E. destruct (over_close_run _ (default (toISOString t) now) (default REVOKED_TOKEN reason) true m Hg (live_token tok)) as (? & E' & ? & _).
    rewrite E' in E. by injection E as _ <-.
  - unfold store_closeByPrincipal in E. destruct (over_close_run _ (default (toISOString t) now) (default REVOKED_TOKEN reason) true m Hg (live_principal did)) as (? & E' & ? & _).
    rewrite E' in E. by injection E as _ <-.
  - destruct (sweep_run t created soft hard m Hg) as (? & ? & E' & ? & _). rewrite E' in E. by injection E as _ <-.
Qed.

Lemma run_steps calls m :
  good m → (∀ c i, c ∈ calls → creates c = Some i → N i) → steps m (session_run calls m).
Proof.
  unfold session_run. revert m. induction calls as [|c calls IH]; intros m Hg HN; [done|]. simpl.
  assert (steps m (session_call m c)) as Hs by (apply call_steps; [done|]; intros i; apply HN; by left).
  etrans; [exact Hs|]. apply IH; [by eapply steps_good|]. intros c' i Hin. apply HN. by right.
Qed.
End steps.

Lemma empty_good : good [].
Proof. split; [apply NoDup_nil_2|done]. Qed.

(** ** Theorems *)

Definition any_input (_ : SessionCreateInput) : Prop := True.

Lemma run_follow calls m id row :
  good m → map_get id m = Some row → ∃ row', map_get id (session_run calls m) = Some row' ∧ row_follows row row'.
Proof. intros Hg. eapply (steps_follow any_input); [done|]. by apply run_steps. Qed.

(** A closed session is final: no sequence of calls changes its row. *)
Theorem closed_sessions_final calls m id row :
  good m → map_get id m = Some row → se_state row = CLOSED → map_get id (session_run calls m) = Some row.
Proof. intros Hg Hr Hc. destruct (run_follow calls m id row Hg Hr) as (row' & -> & [->|[Hn _]]); done. Qed.

(** The revision fences authorizations: when an authorization succeeds with the
    revision that a claim returned, the session is, after whatever calls came
    in between, the very row the claim returned: still active, with the same
    parties and token, and written by nobody since. *)
Theorem authorization_fenced t p m s m1 calls t' given s' m2 :
  good m → claimForDispatch t p m = (Ok s, m1) →
  store_markAuthorized t' (cl_sessionId p) (revision s) given (session_run calls m1) = (Ok s', m2) →
  map_get (cl_sessionId p) (session_run calls m1) = Some s ∧ may_dispatch p s.
Proof.
  intros Hg Hclaim Hm. pose proof (call_steps any_input (call_claim t p) m Hg ltac:(done)) as S1. simpl in S1. rewrite Hclaim in S1.
  simpl in S1. assert (good m1) as Hg1 by by eapply steps_good.
  assert (good (session_run calls m1)) as Hg2 by (eapply (steps_good any_input); [by apply run_steps|done]).
  apply claim_spec in Hclaim as [(row & Hr & Hd & [= ->] & ->)|(_ & [? [=]] & _)]; [|done].
  set (s := claimed t p row) in *.
  assert (may_dispatch p s) as Hds by (unfold may_dispatch, s, claimed in *; exact Hd).
  apply (mark_spec any_input) in Hm as [(x & ? & Hx & _ & Hrev & _)|[_ [? [=]]]]; [|done].
  destruct (run_follow calls _ (cl_sessionId p) s Hg1) as (x' & Hx' & F); [rewrite session_get_set; by rewrite decide_True|].
  rewrite Hx in Hx'. injection Hx' as <-. destruct F as [->|(_ & _ & n & n' & R1 & R2 & Hlt)]; [done|].
  rewrite Hrev in R2. pose proof (rev_is_inj _ _ _ R1 R2). lia.
Qed.

(** Messages are dispatched exactly on active sessions of the two parties, in
    either direction, with the token binding of the session. *)
Theorem dispatch_exact t p m :
  good m →
  (∃ s m', claimForDispatch t p m = (Ok s, m')) ↔ ∃ row, map_get (cl_sessionId p) m = Some row ∧ may_dispatch p row.
Proof.
  intros Hg. destruct (claimForDispatch t p m) as [r m'] eqn:E.
  apply claim_spec in E as [(row & Hr & Hd & -> & _)|(_ & [c ->] & Hn)]; [| |done].
  - split; intros _; eauto.
  - split; [by intros (? & ? & [=])|]. intros (row & Hr & Hd). by destruct (Hn row Hr).
Qed.

(** The rows of a token, all of them closed. *)
Definition token_closed (tok : string) (m : SessionMap) : Prop :=
  ∀ id row, map_get id m = Some row → capabilityTokenId (identity row) = Some tok → se_state row = CLOSED.

Lemma steps_token_closed tok m m' :
  rtc (store_step (λ i, ci_capabilityTokenId i ≠ Some tok)) m m' → token_closed tok m → token_closed tok m'.
Proof.
  induction 1 as [|m m1 m' Hstep Hs IH]; [done|]. intros Hm. apply IH. intros id row.
  destruct Hstep as [input now s HN Hn (_ & Et & _)%new_session_ok|id' row0 p now Hr0 Hc Hp];
    rewrite session_get_set; case_decide as D; subst; try apply Hm.
  - intros [= <-] Ht. congruence.
  - intros [= <-] Ht. simpl in *. destruct Hc. by apply (Hm id').
Qed.

(** Revoking a token ends its sessions: once [closeByToken] has run, no later
    call sequence in which no new session is bound to the token lets a message
    with this token be dispatched. *)
Theorem revocation_cascades t tok reason given m r m1 calls p t' r' m2 :
  good m → store_closeByToken t tok reason given m = (r, m1) →
  (∀ c i, c ∈ calls → creates c = Some i → ci_capabilityTokenId i ≠ Some tok) →
  cl_expectedTokenId p = Some tok → claimForDispatch t' p (session_run calls m1) = (r', m2) →
  ∃ code, r' = Throw code.
Proof.
  intros Hg Hclose Hnew Htok Hclaim.
  destruct (over_close_run any_input _ (default (toISOString t) given) (default REVOKED_TOKEN reason) true m Hg (live_token tok))
    as (x & E & S1 & G1). unfold store_closeByToken in Hclose. rewrite E in Hclose. injection Hclose as _ <-.
  assert (good x) as Hg1 by by eapply steps_good.
  pose proof (run_steps (λ i, ci_capabilityTokenId i ≠ Some tok) calls x Hg1 Hnew) as S2.
  assert (token_closed tok x) as Hx.
  { intros id row. rewrite G1. destruct (map_get id m) as [row0|]; [|done]. cbn [fmap option_fmap option_map]. intros [= <-].
    destruct (bool_decide_reflect (capabilityTokenId (identity row0) = Some tok)); simpl; [|congruence].
    destruct (se_live row0) eqn:Hl; [done|]. intros _. unfold se_live in Hl. apply bool_decide_eq_false in Hl.
    destruct (se_state row0); [..|done]; destruct Hl; unfold LIVE_STATES; rewrite !elem_of_cons; auto. }
  apply claim_spec in Hclaim as [(row & Hr & (Ha & _ & Et & _) & _)|(_ & ? & _)]; [|done|by eapply steps_good].
  exfalso. pose proof (steps_token_closed tok _ _ S2 Hx _ _ Hr ltac:(congruence)). congruence.
Qed.

(** A sweep leaves nothing overdue: afterwards no handshake is older than its
    timeout, no session has been without authorization for longer than the soft
    limit, and none has been idle for longer than the hard limit. *)
Theorem sweep_clears_overdue t created soft hard m id row :
  good m → map_get id (sweep t created soft hard m).2 = Some row →
  stale_handshake (Some t) created row = false ∧ unauthorized_long (Some t) soft row = false
  ∧ idle_expired (Some t) hard row = false.
Proof.
  intros Hg. destruct (sweep_run any_input t created soft hard m Hg) as (? & m' & -> & _ & Hs). simpl. rewrite Hs.
  destruct (map_get id m) as [row0|]; [|done]. intros [= <-]. unfold swept_row.
  destruct (stale_handshake (Some t) created row0) eqn:E1; [done|].
  destruct (unauthorized_long (Some t) soft row0) eqn:E2.
  - match goal with |- context [idle_expired _ _ ?r] => destruct (idle_expired (Some t) hard r) eqn:E3; [done|set (r2 := r) in *] end.
    split_and!; [done|done|exact E3].
  - destruct (idle_expired (Some t) hard row0) eqn:E3; [done|]. done.
Qed.

(** The CHECK constraints of sql/001-create-sessions.sql and
    004-add-encryption-state.sql: [chk_sessions_idle_consistency] is
    [idle_consistent], the others are [row_consistent]. *)
Definition idle_consistent (row : Session) : Prop := se_state row = IDLE ↔ is_Some (idleSince row).

Record row_consistent (row : Session) : Prop := mkRowConsistent {
  rc_closed : se_state row = CLOSED ↔ is_Some (closedAt row) ∧ is_Some (closeReason row);
  rc_open : se_state row ≠ CLOSED → closedAt row = None ∧ closeReason row = None;
  rc_idle : se_state row = IDLE → is_Some (idleSince row);
  rc_established : se_state row = CREATED → establishedAt row = None;
  rc_encryption : encryptionState (identity row) = OFF → sessionKeyFingerprint row = None ∧ rekeyCount row = 0 }.

Lemma patch_consistent row p now rev :
  se_state row ≠ CLOSED → session_patch row p → row_consistent row → row_consistent (patched row p now rev).
Proof.
  intros Hc Hp [H1 H2 H3 H4 H5]. destruct (H2 Hc) as [E1 E2].
  destruct Hp as [caps n|n Ha|n Ha|caps n Hi|n reason clear|n Ha]; split; simpl; rewrite ?E1, ?E2, ?Ha;
    try done; naive_solver (eauto using is_Some_None).
Qed.

(** Rows are well typed: after any calls of the manager and the primitives,
    every row satisfies the constraints of the database on closing, on
    establishment and on encryption, and an idle row says since when. *)
Theorem session_rows_consistent calls m id row :
  good m → (∀ i r, map_get i m = Some r → row_consistent r) →
  map_get id (session_run calls m) = Some row → row_consistent row.
Proof.
  intros Hg Hm. pose proof (run_steps any_input calls m Hg ltac:(done)) as Hs. clear Hg. revert id row.
  generalize dependent (session_run calls m). intros m' Hs. revert Hm.
  induction Hs as [|m m1 m' Hstep Hs IH]; intros Hm; [apply Hm|]. apply IH. intros i r.
  destruct Hstep as [input now s _ Hn Es%new_session_ok|id' row0 p now Hr0 Hc Hp];
    rewrite session_get_set; case_decide as D; subst; try apply Hm; intros [= <-].
  - destruct Es as (_ & _ & _ & Est & Ei & Ec & Er & Ek & Ef).
    split; rewrite ?Ec, ?Er, ?Ei; try by intros Hoff; split; [apply Ef|].
    all: destruct Est as [[E1 E2]|[E1 E2]]; rewrite ?E1, ?E2; naive_solver (eauto using is_Some_None).
  - eapply patch_consistent; [done|done|by eapply Hm].
Qed.

(** Closing an idle session through the manager leaves [idleSince] set: the row
    breaks the constraint on idle sessions, so that the database refuses the
    same write and an idle session cannot be closed explicitly. *)
Theorem closing_idle_breaks_constraint t id reason m row since :
  good m → map_get id m = Some row → se_state row = IDLE → idleSince row = Some since →
  ∃ row', map_get id (session_call m (call_close t id reason)) = Some row'
          ∧ se_state row' = CLOSED ∧ idleSince row' = Some since ∧ ¬ idle_consistent row'.
Proof.
  intros Hg Hr Hi Hs. simpl. unfold close_session.
  rewrite (M_bind_run _ _ row _ m) by (unfold fetch; by rewrite Hr). rewrite bool_decide_false by congruence.
  unfold store_update. rewrite (M_bind_run _ _ (patched row (mkPatch (Some CLOSED) None None None None None
    (Some (toISOString t)) (Some reason) None None) (toISOString t) (next_rev (revision row))) _
    (map_set id (patched row (mkPatch (Some CLOSED) None None None None None
    (Some (toISOString t)) (Some reason) None None) (toISOString t) (next_rev (revision row))) m)).
  2:{ rewrite (M_bind_run _ _ row _ m) by (unfold fetch; by rewrite Hr). rewrite bool_decide_false by congruence.
      exact (write_row_run m id row _ _ Hg Hr). }
  simpl. rewrite session_get_set, decide_True by done. eexists. split_and!; [done|done|done|].
  unfold idle_consistent. simpl. rewrite Hs. intros [_ Hx]. specialize (Hx ltac:(by eexists)). done.
Qed.

(** [supersedeAndCreate] is called atomic, but in memory the old session is
    closed before the new one is tried: when the new id is taken, the call
    throws and the old session is gone. *)
Theorem supersede_not_atomic t old fb input given m row :
  good m → map_get old m = Some row → se_state row ≠ CLOSED → is_Some (map_get (ci_sessionId input) m) →
  ∃ row', (supersedeAndCreate t old fb input given m).1 = Throw "SESSION_STATE_INVALID"
          ∧ map_get old (supersedeAndCreate t old fb input given m).2 = Some row' ∧ se_state row' = CLOSED.
Proof.
  intros Hg Hr Hc [x Hx]. unfold supersedeAndCreate.
  rewrite (M_bind_run _ _ row _ m) by (unfold fetch; by rewrite Hr). rewrite bool_decide_false by done.
  rewrite (M_bind_run _ _ _ _ _ (close_row_run m old row (default (toISOString t) given) fb true Hg Hr)).
  unfold store_create. cbn [ci_sessionId with_supersedes]. rewrite session_get_set.
  assert (∃ y, (if decide (ci_sessionId input = old)
                then Some (closed_row row (default (toISOString t) given) fb true (next_rev (revision row)))
                else map_get (ci_sessionId input) m) = Some y) as [y ->] by (case_decide; eauto).
  simpl. eexists. split; [done|]. rewrite session_get_set, decide_True by done. done.
Qed.
