(* ===== verification/SessionExamples.v ===== *)
(** * Concrete sessions

    A session between two agents from its handshake to its end, the stores at
    which the theorems of Sessions.v are applied, and a run that shows how
    [activate] goes around the checks of [resume]. *)
From S2P Require Import Prelude JsValue Time Encoding Crypto Authorization SignedPayload Sessions.

(** Noon of 2026-06-01 and some minutes. *)
Definition minutes (n : Z) : Z := 1780315200000 + n * msPerMinute.

Definition sx_input (id : string) (tok : string) : SessionCreateInput :=
  mkSessionCreate id "did:agent:a" "did:agent:b" "did:agent:p" (Some tok) (Some "fp") (Some ["CONFIRM"]) None None None None.

Definition sx_claim : ClaimParams := mkClaim "s1" "did:agent:b" "did:agent:a" (Some "tok") (Some "fp") None.

Definition sx_opened : SessionMap :=
  Eval vm_compute in session_run [call_create (minutes 0) (sx_input "s1" "tok"); call_activate (minutes 1) "s1" ["CONFIRM"]] [].

Definition sx_idle : SessionMap := Eval vm_compute in session_call sx_opened (call_sweep (minutes 10) 60000 300000 1800000).

Definition state_of (id : string) (m : SessionMap) : option SessionState := se_state <$> map_get id m.

Example sx_life :
  state_of "s1" sx_opened = Some ACTIVE ∧ state_of "s1" sx_idle = Some IDLE
  ∧ state_of "s1" (session_call sx_idle (call_sweep (minutes 60) 60000 300000 1800000)) = Some CLOSED
  ∧ revision <$> map_get "s1" sx_idle = Some "3".
Proof. vm_compute. done. Qed.

(** An hour later the idle session is past its hard limit: [resume] closes it,
    but [activate], which asks for no parties and no token, makes it active. *)
Theorem activate_skips_resume_checks :
  let resume := mkResume "s1" "did:agent:a" "did:agent:b" (Some "tok") (Some "fp") default_idleHardMs ["CONFIRM"] None in
  (store_resume (minutes 70) resume sx_idle).1 = Throw "SESSION_IDLE_EXPIRED"
  ∧ state_of "s1" (activate (minutes 70) "s1" ["CONFIRM"] sx_idle).2 = Some ACTIVE.
Proof. vm_compute. done. Qed.

Lemma sx_opened_good : good sx_opened.
Proof.
  apply (steps_good any_input []); [|apply empty_good].
  exact (run_steps any_input [call_create (minutes 0) (sx_input "s1" "tok"); call_activate (minutes 1) "s1" ["CONFIRM"]] []
           empty_good (λ _ _ _ _, I)).
Qed.

Lemma sx_idle_good : good sx_idle.
Proof.
  apply (steps_good any_input sx_opened); [|apply sx_opened_good].
  exact (call_steps any_input (call_sweep (minutes 10) 60000 300000 1800000) sx_opened sx_opened_good (λ _ _, I)).
Qed.

(** ** Witnesses *)

Definition sx_closed : SessionMap := Eval vm_compute in session_call sx_opened (call_close (minutes 2) "s1" EXPLICIT_CLOSE).

Lemma sx_closed_good : good sx_closed.
Proof.
  apply (steps_good any_input sx_opened); [|apply sx_opened_good].
  exact (call_steps any_input (call_close (minutes 2) "s1" EXPLICIT_CLOSE) sx_opened sx_opened_good (λ _ _, I)).
Qed.

Lemma closed_sessions_final_witness :
  map_get "s1" (session_run [call_touch (minutes 3) "s1"; call_sweep (minutes 90) 0 0 0] sx_closed) = map_get "s1" sx_closed.
Proof.
  destruct (map_get "s1" sx_closed) as [row|] eqn:E; [|vm_compute in E; discriminate E].
  apply (closed_sessions_final [call_touch (minutes 3) "s1"; call_sweep (minutes 90) 0 0 0] sx_closed "s1" row sx_closed_good E).
  vm_compute in E. injection E as <-. reflexivity.
Defined.

Lemma authorization_fenced_witness :
  ∃ s, map_get "s1" (session_run [] (claimForDispatch (minutes 2) sx_claim sx_opened).2) = Some s ∧ may_dispatch sx_claim s.
Proof.
  destruct (claimForDispatch (minutes 2) sx_claim sx_opened) as [[s|c] m1] eqn:E; [|vm_compute in E; discriminate E].
  destruct (store_markAuthorized (minutes 3) "s1" (revision s) None m1) as [[s'|c] m2] eqn:E2.
  - exists s. exact (authorization_fenced (minutes 2) sx_claim sx_opened s m1 [] (minutes 3) None s' m2 sx_opened_good E E2).
  - exfalso. vm_compute in E. injection E as <- <-. vm_compute in E2. discriminate E2.
Defined.

Lemma dispatch_exact_witness : ∃ row, map_get "s1" sx_opened = Some row ∧ may_dispatch sx_claim row.
Proof.
  apply (proj1 (dispatch_exact (minutes 2) sx_claim sx_opened sx_opened_good)).
  destruct (claimForDispatch (minutes 2) sx_claim sx_opened) as [[s|c] m1] eqn:E; [|vm_compute in E; discriminate E].
  exists s, m1. reflexivity.
Defined.

Definition sx_later : list SessionCall := [call_create (minutes 4) (sx_input "s2" "other"); call_touch (minutes 5) "s1"].

Lemma revocation_cascades_witness :
  ∃ code, (claimForDispatch (minutes 6) sx_claim
             (session_run sx_later (store_closeByToken (minutes 3) "tok" None None sx_opened).2)).1 = Throw code.
Proof.
  destruct (store_closeByToken (minutes 3) "tok" None None sx_opened) as [r m1] eqn:E1.
  destruct (claimForDispatch (minutes 6) sx_claim (session_run sx_later m1)) as [r' m2] eqn:E2.
  cbv [fst snd]. rewrite E2.
  apply (revocation_cascades (minutes 3) "tok" None None sx_opened r m1 sx_later sx_claim (minutes 6) r' m2 sx_opened_good E1).
  - intros c i Hin Hc. unfold sx_later in Hin. rewrite !elem_of_cons in Hin. destruct Hin as [->|[->|Hin]]; [|discriminate Hc|inversion Hin].
    injection Hc as <-. discriminate.
  - reflexivity.
  - exact E2.
Defined.

Lemma sweep_clears_overdue_witness :
  ∃ row, map_get "s1" (sweep (minutes 20) 60000 300000 1800000 sx_idle).2 = Some row
         ∧ idle_expired (Some (minutes 20)) 1800000 row = false.
Proof.
  destruct (map_get "s1" (sweep (minutes 20) 60000 300000 1800000 sx_idle).2) as [row|] eqn:E; [|vm_compute in E; discriminate E].
  exists row. split; [reflexivity|].
  exact (proj2 (proj2 (sweep_clears_overdue (minutes 20) 60000 300000 1800000 sx_idle "s1" row sx_idle_good E))).
Defined.

Lemma session_rows_consistent_witness :
  ∃ row, map_get "s1" (session_run [call_create (minutes 0) (sx_input "s1" "tok")] []) = Some row ∧ row_consistent row.
Proof.
  destruct (map_get "s1" (session_run [call_create (minutes 0) (sx_input "s1" "tok")] [])) as [row|] eqn:E; [|vm_compute in E; discriminate E].
  exists row. split; [reflexivity|].
  apply (session_rows_consistent [call_create (minutes 0) (sx_input "s1" "tok")] [] "s1" row empty_good); [|exact E].
  intros i r Hr. vm_compute in Hr. discriminate Hr.
Defined.

Lemma closing_idle_breaks_constraint_witness :
  ∃ row', map_get "s1" (session_call sx_idle (call_close (minutes 20) "s1" EXPLICIT_CLOSE)) = Some row' ∧ ¬ idle_consistent row'.
Proof.
  destruct (map_get "s1" sx_idle) as [row|] eqn:E; [|vm_compute in E; discriminate E].
  destruct (idleSince row) as [since|] eqn:Es; [|vm_compute in E; injection E as <-; discriminate Es].
  destruct (closing_idle_breaks_constraint (minutes 20) "s1" EXPLICIT_CLOSE sx_idle row since sx_idle_good E) as (row' & H1 & _ & _ & H2).
  - vm_compute in E. injection E as <-. reflexivity.
  - exact Es.
  - exists row'. split; [exact H1|exact H2].
Defined.

Lemma supersede_not_atomic_witness :
  ∃ row', (supersedeAndCreate (minutes 2) "s1" ERROR (sx_input "s1" "tok") None sx_opened).1 = Throw "SESSION_STATE_INVALID"
          ∧ map_get "s1" (supersedeAndCreate (minutes 2) "s1" ERROR (sx_input "s1" "tok") None sx_opened).2 = Some row'
          ∧ se_state row' = CLOSED.
Proof.
  destruct (map_get "s1" sx_opened) as [row|] eqn:E; [|vm_compute in E; discriminate E].
  apply (supersede_not_atomic (minutes 2) "s1" ERROR (sx_input "s1" "tok") None sx_opened row sx_opened_good E).
  - vm_compute in E. injection E as <-. discriminate.
  - exists row. exact E.
Defined.
