(* ===== verification/LruCache.v ===== *)
(** * LRU caches with a time to live

    Models the class [LruTtlCache] of packages/policy/src/revocation/
    revocation-cache.ts, a doubly linked list threaded through the entries of a
    Map, and the class [RevocationLruCache] of packages/sdk/src/revocation/
    revocation-list-client.ts, which uses the insertion order of a Map.  Both
    refine one abstract cache, a list of keys from the most to the least
    recently used.  The readings of [Date.now()] are arguments. *)
From S2P Require Import Prelude.

(** The entries whose key does not start with [prefix]. *)
Definition map_clear {V} (prefix : string) (m : list (string * V)) : list (string * V) :=
  filter (λ kv, String.prefix prefix kv.1 = false) m.

(** The test [if (p)] of a key or null: the empty key is falsy too. *)
Definition truthy (p : option string) : option string :=
  match p with Some s => if String.eqb s "" then None else Some s | None => None end.

(** ** The linked cache *)

Section linked.
Context {V : Type}.

Record CacheEntry : Type := mkEntry {
  ce_value : V;
  expiresAt : Z;
  ce_prev : option string;
  ce_next : option string }.

Record LruTtlCache : Type := mkCache {
  maxSize : Z;
  ttlMs : Z;
  ce_store : list (string * CacheEntry);
  ce_head : option string;
  ce_tail : option string }.

Definition new_cache (size ttl : Z) : res LruTtlCache :=
  if size <? 1 then Throw "Error"
  else if ttl <? 0 then Throw "Error"
  else Ok (mkCache size ttl [] None None).

Definition with_store (f : list (string * CacheEntry) → list (string * CacheEntry)) (c : LruTtlCache) : LruTtlCache :=
  mkCache (maxSize c) (ttlMs c) (f (ce_store c)) (ce_head c) (ce_tail c).
Definition with_head (h : option string) (c : LruTtlCache) : LruTtlCache :=
  mkCache (maxSize c) (ttlMs c) (ce_store c) h (ce_tail c).
Definition with_tail (t : option string) (c : LruTtlCache) : LruTtlCache :=
  mkCache (maxSize c) (ttlMs c) (ce_store c) (ce_head c) t.

(** Writing fields of the entry object that the Map holds under [k], if any. *)
Definition upd (k : string) (f : CacheEntry → CacheEntry) (c : LruTtlCache) : LruTtlCache :=
  match map_get k (ce_store c) with
  | Some e => with_store (map_set k (f e)) c
  | None => c
  end.

Definition set_prev (p : option string) (e : CacheEntry) : CacheEntry :=
  mkEntry (ce_value e) (expiresAt e) p (ce_next e).
Definition set_next (n : option string) (e : CacheEntry) : CacheEntry :=
  mkEntry (ce_value e) (expiresAt e) (ce_prev e) n.
Definition set_links (p n : option string) (e : CacheEntry) : CacheEntry :=
  mkEntry (ce_value e) (expiresAt e) p n.

(** [_unlink(key, entry)], where [entry] is the object under [key]. *)
Definition unlink (k : string) (entry : CacheEntry) (c : LruTtlCache) : LruTtlCache :=
  let c1 := match truthy (ce_prev entry) with
            | Some p => upd p (set_next (ce_next entry)) c
            | None => with_head (ce_next entry) c
            end in
  let c2 := match truthy (ce_next entry) with
            | Some n => upd n (set_prev (ce_prev entry)) c1
            | None => with_tail (ce_prev entry) c1
            end in
  upd k (set_links None None) c2.

(** The head entry, if any, points back to the key put before it. *)
Definition point_back (k : string) (c : LruTtlCache) : LruTtlCache :=
  match truthy (ce_head c) with
  | Some h => upd h (set_prev (Some k)) c
  | None => c
  end.

(** [this.head = key; if (this.tail === null) this.tail = key;] *)
Definition put_first (k : string) (c : LruTtlCache) : LruTtlCache :=
  let c1 := with_head (Some k) c in
  match ce_tail c1 with None => with_tail (Some k) c1 | Some _ => c1 end.

Definition moveToHead (k : string) (entry : CacheEntry) (c : LruTtlCache) : LruTtlCache :=
  if bool_decide (ce_head c = Some k) then c
  else
    let c1 := unlink k entry c in
    let c2 := upd k (set_links None (ce_head c1)) c1 in
    put_first k (point_back k c2).

Definition cache_delete (k : string) (c : LruTtlCache) : bool * LruTtlCache :=
  match map_get k (ce_store c) with
  | Some entry => (true, with_store (map_delete k) (unlink k entry c))
  | None => (false, c)
  end.

Definition evictTail (c : LruTtlCache) : LruTtlCache :=
  match truthy (ce_tail c) with
  | Some t =>
      let c1 := match map_get t (ce_store c) with Some e => unlink t e c | None => c end in
      with_store (map_delete t) c1
  | None => c
  end.

Definition cache_get (now : Z) (k : string) (c : LruTtlCache) : option V * LruTtlCache :=
  match map_get k (ce_store c) with
  | Some entry =>
      if expiresAt entry <? now then (None, (cache_delete k c).2)
      else (Some (ce_value entry), moveToHead k entry c)
  | None => (None, c)
  end.

Definition cache_set (now : Z) (k : string) (v : V) (c : LruTtlCache) : LruTtlCache :=
  match map_get k (ce_store c) with
  | Some existing =>
      let fresh := mkEntry v (now + ttlMs c) (ce_prev existing) (ce_next existing) in
      moveToHead k fresh (upd k (λ _, fresh) c)
  | None =>
      let c1 := if maxSize c <=? Z.of_nat (length (ce_store c)) then evictTail c else c in
      let entry := mkEntry v (now + ttlMs c) None (ce_head c1) in
      with_store (map_set k entry) (put_first k (point_back k c1))
  end.

(** The loop of [clear] over the keys, in insertion order. *)
Definition clear_prefix (prefix : string) (c : LruTtlCache) : LruTtlCache :=
  foldl (λ c k, if String.prefix prefix k then (cache_delete k c).2 else c) c (ce_store c).*1.

Definition cache_clear (prefix : option string) (c : LruTtlCache) : LruTtlCache :=
  match prefix with
  | None => mkCache (maxSize c) (ttlMs c) [] None None
  | Some p => clear_prefix p c
  end.

Definition cache_size (c : LruTtlCache) : nat := length (ce_store c).

End linked.
Arguments CacheEntry V : clear implicits.
Arguments LruTtlCache V : clear implicits.

(** ** The cache in insertion order *)

Record MapCache : Type := mkMapCache {
  mc_maxSize : Z;
  mc_ttlMs : Z;
  mc_cache : list (string * (bool * Z)) }.

Definition with_map (m : list (string * (bool * Z))) (c : MapCache) : MapCache :=
  mkMapCache (mc_maxSize c) (mc_ttlMs c) m.

Definition mc_get (now : Z) (k : string) (c : MapCache) : option bool * MapCache :=
  match map_get k (mc_cache c) with
  | None => (None, c)
  | Some (revoked, e) =>
      if e <? now then (None, with_map (map_delete k (mc_cache c)) c)
      else (Some revoked, with_map (map_set k (revoked, e) (map_delete k (mc_cache c))) c)
  end.

Definition mc_set (now : Z) (k : string) (revoked : bool) (c : MapCache) : MapCache :=
  if mc_maxSize c <=? 0 then c
  else
    let m := match map_get k (mc_cache c) with
             | Some _ => map_delete k (mc_cache c)
             | None =>
                 if mc_maxSize c <=? Z.of_nat (length (mc_cache c)) then
                   match mc_cache c with (oldest, _) :: _ => map_delete oldest (mc_cache c) | [] => [] end
                 else mc_cache c
             end in
    with_map (map_set k (revoked, now + mc_ttlMs c) m) c.

Definition mc_invalidate (k : string) (c : MapCache) : MapCache := with_map (map_delete k (mc_cache c)) c.

Definition mc_invalidate_prefix (prefix : string) (c : MapCache) : MapCache :=
  foldl (λ c k, if String.prefix prefix k then mc_invalidate k c else c) c (mc_cache c).*1.

(** ** The abstract cache *)

Section spec.
Context {V : Type}.

Definition Lru : Type := list (string * (V * Z)).

Definition lru_remove (k : string) (l : Lru) : Lru := map_delete k l.

Definition lru_get (now : Z) (k : string) (l : Lru) : option V * Lru :=
  match map_get k l with
  | Some (v, e) => if e <? now then (None, lru_remove k l) else (Some v, (k, (v, e)) :: lru_remove k l)
  | None => (None, l)
  end.

(** At capacity the least recently used entry makes room for a new key. *)
Definition lru_set (size ttl now : Z) (k : string) (v : V) (l : Lru) : Lru :=
  match map_get k l with
  | Some _ => (k, (v, now + ttl)) :: lru_remove k l
  | None => (k, (v, now + ttl)) :: (if size <=? Z.of_nat (length l) then take (pred (length l)) l else l)
  end.

Definition lru_clear (prefix : string) (l : Lru) : Lru := map_clear prefix l.

End spec.
Arguments Lru V : clear implicits.

(** ** Lemmas on Maps *)

Section maps.
Context {V : Type}.
Implicit Types m l : list (string * V).

Lemma map_get_None k m : map_get k m = None ↔ k ∉ m.*1.
Proof.
  induction m as [|[k0 v0] m IH]; cbn [map_get fmap list_fmap fst].
  - split; [intros _; apply not_elem_of_nil|done].
  - rewrite not_elem_of_cons, <- IH. destruct (String.eqb_spec k0 k) as [->|Hk]; [by split; [|intros []]|].
    split; [intros ->|]; [split; congruence|by intros []].
Qed.

Lemma map_get_split k v m : map_get k m = Some v → ∃ m1 m2, m = m1 ++ (k, v) :: m2 ∧ k ∉ m1.*1.
Proof.
  induction m as [|[k0 v0] m IH]; [done|]. cbn [map_get]. destruct (String.eqb_spec k0 k) as [->|Hk].
  - intros [= ->]. exists [], m. split; [done|]. apply not_elem_of_nil.
  - intros (m1 & m2 & -> & H)%IH. exists ((k0, v0) :: m1), m2. split; [done|]. cbn. apply not_elem_of_cons. naive_solver.
Qed.

Lemma map_delete_notin k m : k ∉ m.*1 → map_delete k m = m.
Proof.
  unfold map_delete. induction m as [|[k0 v0] m IH]; [done|]. cbn [fmap list_fmap fst].
  rewrite not_elem_of_cons. intros [H1 H2]. rewrite filter_cons_True by (cbn; congruence). by rewrite IH.
Qed.

Lemma map_delete_middle k v m1 m2 :
  NoDup (m1 ++ (k, v) :: m2).*1 → map_delete k (m1 ++ (k, v) :: m2) = m1 ++ m2.
Proof.
  rewrite fmap_app, fmap_cons, NoDup_app, NoDup_cons. intros (_ & H1 & H2 & _).
  unfold map_delete. rewrite filter_app, filter_cons_False by (cbn; naive_solver). f_equal.
  - apply map_delete_notin. intros Hin. apply (H1 k Hin). by left.
  - by apply map_delete_notin.
Qed.

Lemma map_delete_keys k m j : j ∈ (map_delete k m).*1 ↔ j ≠ k ∧ j ∈ m.*1.
Proof.
  unfold map_delete. rewrite !list_elem_of_fmap. split.
  - intros (kv & -> & [H1 H2]%list_elem_of_filter). split; [exact H1|]. by exists kv.
  - intros (H & kv & -> & Hin). exists kv. split; [done|]. by apply list_elem_of_filter.
Qed.

Lemma map_delete_NoDup k m : NoDup m.*1 → NoDup (map_delete k m).*1.
Proof.
  unfold map_delete. induction m as [|[k0 v0] m IH]; [done|]. rewrite fmap_cons, NoDup_cons. intros [H1 H2].
  rewrite filter_cons. case_decide; [|by apply IH]. cbn. apply NoDup_cons. split; [|by apply IH].
  rewrite (map_delete_keys k m). naive_solver.
Qed.

Lemma map_set_absent k v m : k ∉ m.*1 → map_set k v m = m ++ [(k, v)].
Proof.
  induction m as [|[k0 v0] m IH]; [done|]. cbn [fmap list_fmap fst]. rewrite not_elem_of_cons. intros [H1 H2].
  cbn [map_set]. destruct (String.eqb_spec k0 k); [congruence|]. by rewrite IH.
Qed.

Lemma map_set_same_keys k v m x : map_get k m = Some x → (map_set k v m).*1 = m.*1.
Proof.
  induction m as [|[k0 v0] m IH]; [done|]. cbn [map_get map_set].
  destruct (String.eqb_spec k0 k) as [->|]; [done|]. intros Hx. cbn. by rewrite IH.
Qed.

Lemma filter_same {A} (P Q : A → Prop) `{∀ x, Decision (P x), ∀ x, Decision (Q x)} (l : list A) :
  (∀ x, x ∈ l → P x ↔ Q x) → filter P l = filter Q l.
Proof.
  induction l as [|x l IH]; intros Hx; [done|]. rewrite !filter_cons, IH by (intros; apply Hx; by right).
  pose proof (Hx x ltac:(by left)). repeat case_decide; tauto.
Qed.

(** Deleting the keys with a prefix one by one. *)
Lemma remove_all_clears prefix (ks : list string) m :
  (∀ k, k ∈ m.*1 → k ∈ ks) →
  foldl (λ m k, if String.prefix prefix k then map_delete k m else m) m ks
  = map_clear prefix m.
Proof.
  intros Hks. unfold map_clear. transitivity (filter (λ kv, String.prefix prefix kv.1 = false ∨ kv.1 ∉ ks) m).
  2:{ apply filter_same. intros kv Hkv. split; [|tauto]. intros [?|Hn]; [done|].
      destruct Hn. apply Hks, list_elem_of_fmap. by exists kv. }
  clear Hks. revert m. induction ks as [|k ks IH]; intros m; cbn [foldl].
  - symmetry. rewrite <- (list_filter_filter_r (λ _, True) _ m) by done.
    induction m as [|kv m IH]; [done|]. rewrite filter_cons_True by (right; apply not_elem_of_nil).
    rewrite filter_cons_True by done. f_equal. apply IH.
  - destruct (String.prefix prefix k) eqn:Ek; rewrite IH.
    + unfold map_delete. rewrite list_filter_filter. apply filter_same. intros [j y] _. cbn. rewrite not_elem_of_cons.
      split; [naive_solver|]. intros [Hp|[? ?]]; [|naive_solver]. split; [by left|congruence].
    + apply filter_same. intros [j y] _. cbn. rewrite not_elem_of_cons. split; [|naive_solver].
      intros [?|?]; [by left|]. destruct (decide (j = k)) as [->|]; [by left|by right].
Qed.

End maps.

(** ** The linked representation of a list *)

Section rep.
Context {V : Type}.
Implicit Types (l : Lru V) (c : LruTtlCache V) (e : CacheEntry V).

Definition first_key (l : Lru V) (n : option string) : option string :=
  match l with (k, _) :: _ => Some k | [] => n end.
Definition last_key (p : option string) (l : Lru V) : option string :=
  match last l with Some (k, _) => Some k | None => p end.

(** The entry of [j] in a segment between [p] and [n]. *)
Fixpoint look (p : option string) (l : Lru V) (n : option string) (j : string) : option (CacheEntry V) :=
  match l with
  | [] => None
  | (k, (v, x)) :: l' =>
      if String.eqb k j then Some (mkEntry v x p (first_key l' n)) else look (Some k) l' n j
  end.

Record linked (c : LruTtlCache V) (l : Lru V) : Prop := mkLinked {
  li_NoDup : NoDup l.*1;
  li_keys : NoDup (ce_store c).*1;
  li_named : "" ∉ l.*1;
  li_look j : map_get j (ce_store c) = look None l None j;
  li_head : ce_head c = first_key l None;
  li_tail : ce_tail c = last_key None l }.

Lemma last_key_snoc p l k x : last_key p (l ++ [(k, x)]) = Some k.
Proof. unfold last_key. by rewrite last_snoc. Qed.
Lemma last_key_cons p l k x : last_key p ((k, x) :: l) = last_key (Some k) l.
Proof. unfold last_key. destruct l as [|y l]; [done|]. rewrite last_cons_cons. by destruct (last (y :: l)) eqn:E; [|apply last_None in E]. Qed.
Lemma first_key_app l1 l2 n : first_key (l1 ++ l2) n = first_key l1 (first_key l2 n).
Proof. by destruct l1 as [|[]]. Qed.
Lemma last_key_app p l1 l2 : last_key p (l1 ++ l2) = last_key (last_key p l1) l2.
Proof.
  revert p. induction l1 as [|[k x] l1 IH]; intros p; [done|].
  rewrite <- app_comm_cons, !last_key_cons. apply IH.
Qed.

Lemma look_app p l1 l2 n j :
  look p (l1 ++ l2) n j
  = match look p l1 (first_key l2 n) j with Some e => Some e | None => look (last_key p l1) l2 n j end.
Proof.
  revert p. induction l1 as [|[k [v x]] l1 IH]; intros p; [done|].
  cbn [look app]. rewrite last_key_cons, first_key_app. by destruct (String.eqb k j).
Qed.

Lemma look_None p l n j : look p l n j = None ↔ j ∉ l.*1.
Proof.
  revert p. induction l as [|[k [v x]] l IH]; intros p; cbn [look fmap list_fmap fst].
  - split; [intros _; apply not_elem_of_nil|done].
  - rewrite not_elem_of_cons. destruct (String.eqb_spec k j) as [->|Hk]; [by split; [|intros []]|].
    rewrite IH. split; [by split; [congruence|]|by intros []].
Qed.

(** The value under a key does not depend on the links around it. *)
Lemma look_value p l n j : (λ e, (ce_value e, expiresAt e)) <$> look p l n j = map_get j l.
Proof.
  revert p. induction l as [|[k [v x]] l IH]; intros p; [done|]. cbn [look map_get].
  by destruct (String.eqb k j); [|apply IH].
Qed.

Lemma linked_keys c l j : linked c l → j ∈ (ce_store c).*1 ↔ j ∈ l.*1.
Proof.
  intros H. pose proof (li_look _ _ H j) as E.
  destruct (decide (j ∈ l.*1)) as [Hj|Hj], (decide (j ∈ (ce_store c).*1)) as [Hs|Hs]; try done.
  - rewrite (proj2 (map_get_None _ _) Hs) in E. symmetry in E. apply look_None in E. done.
  - apply (look_None None l None) in Hj. rewrite Hj in E. apply map_get_None in E. done.
Qed.

Lemma linked_size c l : linked c l → length (ce_store c) = length l.
Proof.
  intros H. rewrite <- (length_fmap fst), <- (length_fmap fst l). apply Permutation_length.
  apply NoDup_Permutation; [apply H|apply H|]. intros j. by apply linked_keys.
Qed.

(** ** Writing entries *)

Lemma upd_get k f c j :
  map_get j (ce_store (upd k f c))
  = if String.eqb k j then f <$> map_get k (ce_store c) else map_get j (ce_store c).
Proof.
  unfold upd. destruct (map_get k (ce_store c)) as [e|] eqn:E; cbn.
  - by rewrite map_get_set.
  - destruct (String.eqb_spec k j) as [<-|]; [by rewrite E|done].
Qed.

Lemma upd_keys k f c : (ce_store (upd k f c)).*1 = (ce_store c).*1.
Proof.
  unfold upd. destruct (map_get k (ce_store c)) as [e|] eqn:E; [|done]. by eapply map_set_same_keys.
Qed.

Lemma upd_head k f c : ce_head (upd k f c) = ce_head c.
Proof. unfold upd. by destruct (map_get _ _). Qed.
Lemma upd_tail k f c : ce_tail (upd k f c) = ce_tail c.
Proof. unfold upd. by destruct (map_get _ _). Qed.

Lemma truthy_named k : k ≠ "" → truthy (Some k) = Some k.
Proof. intros H. cbn. by destruct (String.eqb_spec k ""). Qed.

(** ** Unlinking *)

(** The list without [k], whose entry is still in the Map. *)
Record detached (c : LruTtlCache V) (k : string) (v : V) (x : Z) (l : Lru V) : Prop := mkDetached {
  de_keys : NoDup (ce_store c).*1;
  de_look j : map_get j (ce_store c) = if String.eqb k j then Some (mkEntry v x None None) else look None l None j;
  de_head : ce_head c = first_key l None;
  de_tail : ce_tail c = last_key None l }.

Lemma look_middle p l1 k v x l2 n :
  k ∉ l1.*1 → look p (l1 ++ (k, (v, x)) :: l2) n k = Some (mkEntry v x (last_key p l1) (first_key l2 n)).
Proof.
  intros Hk. rewrite look_app, (proj2 (look_None _ _ _ _) Hk). cbn [look]. by rewrite String.eqb_refl.
Qed.

(** The links of the other keys change at the two ends of the gap only. *)
Lemma look_gap l1 k y l2 j :
  NoDup (l1 ++ (k, y) :: l2).*1 → k ≠ j → last_key None l1 ≠ Some j → first_key l2 None ≠ Some j →
  look None (l1 ++ (k, y) :: l2) None j = look None (l1 ++ l2) None j.
Proof.
  intros Hd Hk Hl Hf. rewrite !look_app. destruct y as [v x].
  assert (look None l1 (first_key ((k, (v, x)) :: l2) None) j = look None l1 (first_key l2 None) j) as ->.
  { clear Hd Hf. destruct l1 as [|[a [va xa]] l1 _] using rev_ind; [done|]. rewrite last_key_snoc in Hl.
    rewrite !look_app. cbn [look first_key]. destruct (String.eqb_spec a j); [congruence|done]. }
  destruct (look None l1 (first_key l2 None) j); [done|]. cbn [look].
  destruct (String.eqb_spec k j); [done|]. destruct l2 as [|[b [vb xb]] l2]; [done|]. cbn [look first_key] in *.
  destruct (String.eqb_spec b j); [congruence|done].
Qed.

Lemma look_before l1 a va xa k y l2 :
  NoDup (l1 ++ [(a, (va, xa))] ++ (k, y) :: l2).*1 →
  look None (l1 ++ [(a, (va, xa))] ++ (k, y) :: l2) None a = Some (mkEntry va xa (last_key None l1) (Some k))
  ∧ look None (l1 ++ [(a, (va, xa))] ++ l2) None a = Some (mkEntry va xa (last_key None l1) (first_key l2 None)).
Proof.
  rewrite !fmap_app, NoDup_app. intros (_ & H & _).
  assert (a ∉ l1.*1) as Ha by (intros Hin; apply (H a Hin); by left).
  cbn [app]. by rewrite !look_middle by done.
Qed.

Lemma look_after l1 k y b vb xb l2 :
  NoDup (l1 ++ (k, y) :: (b, (vb, xb)) :: l2).*1 →
  look None (l1 ++ (k, y) :: (b, (vb, xb)) :: l2) None b = Some (mkEntry vb xb (Some k) (first_key l2 None))
  ∧ look None (l1 ++ (b, (vb, xb)) :: l2) None b = Some (mkEntry vb xb (last_key None l1) (first_key l2 None)).
Proof.
  rewrite !fmap_app, NoDup_app. intros (_ & H & H2).
  assert (b ∉ l1.*1) as Hb by (intros Hin; apply (H b Hin); right; by left).
  split; [|by rewrite look_middle].
  cbn [fmap list_fmap fst] in H2. apply NoDup_cons in H2 as [H2 _].
  change (l1 ++ (k, y) :: (b, (vb, xb)) :: l2) with (l1 ++ [(k, y)] ++ (b, (vb, xb)) :: l2).
  rewrite (app_assoc l1 [(k, y)]), look_middle.
  - by destruct y; rewrite last_key_snoc.
  - rewrite fmap_app, elem_of_app. cbn. rewrite list_elem_of_singleton. intros [?| ->]; [done|]. destruct H2. by left.
Qed.

Lemma unlink_get c k e j :
  ce_prev e ≠ Some "" → ce_next e ≠ Some "" → ce_prev e ≠ Some k → ce_next e ≠ Some k →
  (ce_prev e = ce_next e → ce_prev e = None) →
  map_get j (ce_store (unlink k e c))
  = (if String.eqb k j then set_links None None
     else if bool_decide (ce_prev e = Some j) then set_next (ce_next e)
     else if bool_decide (ce_next e = Some j) then set_prev (ce_prev e) else id) <$> map_get j (ce_store c).
Proof.
  intros Hp Hn Hpk Hnk Hpn. unfold unlink. rewrite upd_get.
  set (c1 := match truthy (ce_prev e) with Some p => _ | None => _ end).
  set (c2 := match truthy (ce_next e) with Some n => _ | None => _ end).
  assert (∀ i, map_get i (ce_store c1)
    = (if bool_decide (ce_prev e = Some i) then set_next (ce_next e) else id) <$> map_get i (ce_store c)) as H1.
  { intros i. unfold c1. destruct (ce_prev e) as [p|] eqn:E; cbn [truthy].
    - destruct (String.eqb_spec p ""); [congruence|]. rewrite upd_get.
      destruct (String.eqb_spec p i) as [->|]; [by rewrite bool_decide_true|].
      rewrite bool_decide_false by congruence. by rewrite option_fmap_id.
    - rewrite bool_decide_false by done. by rewrite option_fmap_id. }
  assert (∀ i, map_get i (ce_store c2)
    = (if bool_decide (ce_next e = Some i) then set_prev (ce_prev e) else id) <$> map_get i (ce_store c1)) as H2.
  { intros i. unfold c2. clearbody c1. destruct (ce_next e) as [n|] eqn:E; cbn [truthy].
    - destruct (String.eqb_spec n ""); [congruence|]. rewrite upd_get.
      destruct (String.eqb_spec n i) as [->|]; [by rewrite bool_decide_true|].
      rewrite bool_decide_false by congruence. by rewrite option_fmap_id.
    - rewrite bool_decide_false by done. by rewrite option_fmap_id. }
  clearbody c1 c2. rewrite !H2, !H1. rewrite !(bool_decide_false (_ = Some k)) by done. rewrite !option_fmap_id.
  destruct (String.eqb_spec k j) as [->|]; [done|].
  destruct (decide (ce_prev e = Some j)) as [Ep|Ep].
  - rewrite !(bool_decide_true (ce_prev e = Some j)) by done.
    rewrite (bool_decide_false (ce_next e = Some j)) by (intros En; rewrite Hpn in Ep; congruence). by rewrite option_fmap_id.
  - rewrite !(bool_decide_false (ce_prev e = Some j)) by done. by rewrite option_fmap_id.
Qed.

Lemma unlink_ends c k e :
  ce_prev e ≠ Some "" → ce_next e ≠ Some "" →
  ce_head (unlink k e c) = match ce_prev e with Some _ => ce_head c | None => ce_next e end
  ∧ ce_tail (unlink k e c) = match ce_next e with Some _ => ce_tail c | None => ce_prev e end
  ∧ (ce_store (unlink k e c)).*1 = (ce_store c).*1.
Proof.
  intros Hp Hn. unfold unlink. rewrite upd_head, upd_tail, upd_keys.
  destruct (ce_prev e) as [p|]; [rewrite truthy_named by congruence|];
    (destruct (ce_next e) as [n|]; [rewrite truthy_named by congruence|]); cbn [truthy];
    rewrite ?upd_head, ?upd_tail, ?upd_keys; cbn [with_head with_tail ce_head ce_tail ce_store];
    rewrite ?upd_head, ?upd_tail, ?upd_keys; done.
Qed.

Lemma first_key_in l k n : first_key l n = Some k → n ≠ Some k → k ∈ l.*1.
Proof. destruct l as [|[a y] l]; cbn; [congruence|]. intros [= ->] _. by left. Qed.
Lemma last_key_in p l k : last_key p l = Some k → p ≠ Some k → k ∈ l.*1.
Proof.
  destruct l as [|[a y] l _] using rev_ind; [done|]. rewrite last_key_snoc. intros [= ->] _.
  rewrite fmap_app, elem_of_app. right. by left.
Qed.

Lemma unlink_detached c l1 k v x l2 :
  linked c (l1 ++ (k, (v, x)) :: l2) →
  detached (unlink k (mkEntry v x (last_key None l1) (first_key l2 None)) c) k v x (l1 ++ l2).
Proof.
  intros [Hd Hs Hn Hl Hh Ht].
  assert (∀ j, last_key None l1 = Some j → j ∈ l1.*1) as Hin1 by (intros j E; by eapply last_key_in).
  assert (∀ j, first_key l2 None = Some j → j ∈ l2.*1) as Hin2 by (intros j E; by eapply first_key_in).
  pose proof Hd as Hd'. rewrite fmap_app, fmap_cons, NoDup_app, NoDup_cons in Hd'. destruct Hd' as (_ & D1 & D2 & _).
  assert (∀ j, j ∈ l1.*1 → j ∉ l2.*1 ∧ j ≠ k) as D3.
  { intros j Hj. specialize (D1 j Hj). rewrite not_elem_of_cons in D1. naive_solver. }
  assert ("" ∉ l1.*1 ∧ "" ∉ l2.*1) as [N1 N2].
  { rewrite fmap_app, fmap_cons, not_elem_of_app, not_elem_of_cons in Hn. naive_solver. }
  set (e := mkEntry v x (last_key None l1) (first_key l2 None)).
  assert (ce_prev e ≠ Some "" ∧ ce_next e ≠ Some "") as [P1 P2] by (split; [by intros E%Hin1|by intros E%Hin2]).
  destruct (unlink_ends c k e P1 P2) as (U1 & U2 & U3). split.
  - by rewrite U3.
  - assert (ce_prev e ≠ Some k) as P3 by (intros E%Hin1; by destruct (D3 k E)).
    assert (ce_next e ≠ Some k) as P4 by (by intros E%Hin2).
    assert (ce_prev e = ce_next e → ce_prev e = None) as P5.
    { cbn. destruct (last_key None l1) as [j|]; [|done]. intros E. symmetry in E.
      apply Hin2 in E. by destruct (D3 j (Hin1 j eq_refl)). }
    intros j. rewrite unlink_get by done.
    rewrite Hl. destruct (String.eqb_spec k j) as [<-|Hk].
    { rewrite look_middle; [done|]. intros Hk. by apply D3 in Hk as [_ ?]. }
    destruct (decide (ce_prev e = Some j)) as [Ep|Ep]; [rewrite bool_decide_true by done|rewrite bool_decide_false by done].
    { destruct l1 as [|[a [va xa]] l1 _] using rev_ind; [done|]. unfold e in Ep. cbn in Ep. rewrite last_key_snoc in Ep.
      injection Ep as <-. rewrite <- !app_assoc in *. destruct (look_before l1 a va xa k (v, x) l2 Hd) as [-> ->]. done. }
    destruct (decide (ce_next e = Some j)) as [En|En]; [rewrite bool_decide_true by done|rewrite bool_decide_false by done].
    { destruct l2 as [|[b [vb xb]] l2]; [done|]. unfold e in En. cbn in En. injection En as <-.
      destruct (look_after l1 k (v, x) b vb xb l2 Hd) as [-> ->]. done. }
    rewrite option_fmap_id. by apply look_gap.
  - rewrite U1, Hh. unfold e. cbn [ce_prev ce_next]. clear.
    destruct l1 as [|[a ya] l1 _] using rev_ind; [done|]. by rewrite last_key_snoc, <- !app_assoc, !first_key_app.
  - rewrite U2, Ht, !last_key_app, last_key_cons. unfold e. cbn [ce_prev ce_next]. clear.
    destruct l2 as [|[b yb] l2]; [done|]. by rewrite !last_key_cons.
Qed.

(** ** Putting a key first *)

Lemma look_pred q p l n j :
  look q l n j = (if bool_decide (first_key l None = Some j) then set_prev q else id) <$> look p l n j.
Proof.
  destruct l as [|[a [v x]] l]; [done|]. cbn [look first_key].
  destruct (String.eqb_spec a j) as [->|]; [by rewrite bool_decide_true|].
  rewrite bool_decide_false by congruence. by rewrite option_fmap_id.
Qed.

Lemma point_back_get k c j :
  ce_head c ≠ Some "" →
  map_get j (ce_store (point_back k c))
  = (if bool_decide (ce_head c = Some j) then set_prev (Some k) else id) <$> map_get j (ce_store c).
Proof.
  intros Hh. unfold point_back. destruct (ce_head c) as [h|] eqn:E; cbn [truthy].
  - destruct (String.eqb_spec h ""); [congruence|]. rewrite upd_get.
    destruct (String.eqb_spec h j) as [->|]; [by rewrite bool_decide_true|].
    rewrite bool_decide_false by congruence. by rewrite option_fmap_id.
  - rewrite bool_decide_false by done. by rewrite option_fmap_id.
Qed.

Lemma point_back_rest k c :
  (ce_store (point_back k c)).*1 = (ce_store c).*1 ∧ ce_head (point_back k c) = ce_head c
  ∧ ce_tail (point_back k c) = ce_tail c.
Proof. unfold point_back. destruct (truthy _); [|done]. by rewrite upd_keys, upd_head, upd_tail. Qed.

Lemma put_first_rest k c :
  ce_store (put_first k c) = ce_store c ∧ ce_head (put_first k c) = Some k
  ∧ ce_tail (put_first k c) = match ce_tail c with Some t => Some t | None => Some k end.
Proof. unfold put_first. by destruct c as [m t s h [tl|]]. Qed.

(** The Map, the head and the tail once [k] stands before [l], but for the
    entry of [k]. *)
Lemma push_get k c l j :
  (∀ j, k ≠ j → map_get j (ce_store c) = look None l None j) → "" ∉ l.*1 →
  ce_head c = first_key l None → k ≠ j →
  map_get j (ce_store (put_first k (point_back k c))) = look (Some k) l None j.
Proof.
  intros Hl Hn Hh Hj. destruct (put_first_rest k (point_back k c)) as (-> & _ & _).
  rewrite point_back_get.
  - rewrite Hl by done. rewrite (look_pred (Some k) None l None j), Hh. done.
  - rewrite Hh. intros E. destruct Hn. by eapply first_key_in.
Qed.

Lemma push_ends k c l y :
  ce_tail c = last_key None l →
  ce_head (put_first k (point_back k c)) = Some k
  ∧ ce_tail (put_first k (point_back k c)) = last_key None ((k, y) :: l).
Proof.
  intros Ht. destruct (put_first_rest k (point_back k c)) as (_ & -> & ->). split; [done|].
  destruct (point_back_rest k c) as (_ & _ & ->). rewrite Ht, last_key_cons. unfold last_key. by destruct (last l) as [[]|].
Qed.

Lemma insert_linked c l k v x :
  linked c l → k ∉ l.*1 → k ≠ "" →
  linked (with_store (map_set k (mkEntry v x None (ce_head c))) (put_first k (point_back k c))) ((k, (v, x)) :: l).
Proof.
  intros [Hd Hs Hn Hl Hh Ht] Hk Hk0.
  destruct (push_ends k c l (v, x) Ht) as [E1 E2]. split.
  - cbn. by apply NoDup_cons.
  - cbn. apply map_set_NoDup. destruct (put_first_rest k (point_back k c)) as (-> & _ & _).
    destruct (point_back_rest k c) as (-> & _ & _). done.
  - cbn. apply not_elem_of_cons. done.
  - intros j. cbn [with_store ce_store]. rewrite map_get_set. cbn [look].
    destruct (String.eqb_spec k j) as [->|Hj]; [by rewrite Hh|]. apply push_get; auto.
  - done.
  - done.
Qed.

Lemma moveToHead_linked c l1 k v x l2 :
  linked c (l1 ++ (k, (v, x)) :: l2) →
  linked (moveToHead k (mkEntry v x (last_key None l1) (first_key l2 None)) c) ((k, (v, x)) :: l1 ++ l2).
Proof.
  intros H. pose proof H as [Hd Hs Hn Hl Hh Ht]. unfold moveToHead.
  assert (NoDup ((k, (v, x)) :: l1 ++ l2).*1 ∧ "" ∉ ((k, (v, x)) :: l1 ++ l2).*1) as [Hd' Hn'].
  { rewrite (Permutation_middle l1 l2 (k, (v, x))). done. }
  case_bool_decide as E.
  { rewrite Hh, first_key_app in E. destruct l1 as [|[a ya] l1]; [done|]. cbn in E. injection E as ->.
    rewrite fmap_app in Hd. cbn in Hd. apply NoDup_cons in Hd as [Hd _]. destruct Hd.
    apply elem_of_app. right. by left. }
  destruct (unlink_detached _ _ _ _ _ _ H) as [Ds Dl Dh Dt].
  set (c1 := unlink k _ c) in *. set (c2 := upd k _ c1).
  assert (ce_tail c2 = last_key None (l1 ++ l2)) as Ht2 by (by unfold c2; rewrite upd_tail).
  assert (ce_head c2 = first_key (l1 ++ l2) None) as Hh2 by (by unfold c2; rewrite upd_head).
  destruct (push_ends k c2 _ (v, x) Ht2) as [E1 E2].
  assert ("" ∉ (l1 ++ l2).*1) as Hn2 by (cbn in Hn'; apply not_elem_of_cons in Hn'; tauto).
  assert (ce_head c2 ≠ Some "" ∧ ce_head c2 ≠ Some k) as [Hne Hnk].
  { rewrite Hh2. cbn in Hd'. apply NoDup_cons in Hd' as [Hk _].
    split; intros X; apply first_key_in in X; done. }
  split; try done.
  - destruct (put_first_rest k (point_back k c2)) as (-> & _ & _). destruct (point_back_rest k c2) as (-> & _ & _).
    unfold c2. by rewrite upd_keys.
  - intros j. cbn [look]. destruct (String.eqb_spec k j) as [<-|Hj].
    + destruct (put_first_rest k (point_back k c2)) as (-> & _ & _). rewrite point_back_get by done.
      rewrite bool_decide_false, option_fmap_id by done. unfold c2. rewrite upd_get, String.eqb_refl, Dl, String.eqb_refl.
      cbn. by rewrite Dh.
    + apply push_get; try done. intros i Hi. unfold c2. rewrite upd_get. destruct (String.eqb_spec k i); [done|].
      rewrite Dl. by destruct (String.eqb_spec k i).
Qed.

(** ** The operations on a linked list *)

Lemma linked_entry c l k e :
  linked c l → map_get k (ce_store c) = Some e →
  ∃ l1 v x l2, l = l1 ++ (k, (v, x)) :: l2 ∧ e = mkEntry v x (last_key None l1) (first_key l2 None)
    ∧ map_get k l = Some (v, x) ∧ lru_remove k l = l1 ++ l2.
Proof.
  intros H E. rewrite (li_look _ _ H) in E. destruct (map_get k l) as [[v x]|] eqn:Ek.
  2:{ apply map_get_None in Ek. apply (look_None None l None) in Ek. congruence. }
  destruct (map_get_split _ _ _ Ek) as (l1 & l2 & -> & Hk). rewrite look_middle in E by done. injection E as <-.
  exists l1, v, x, l2. split_and!; try done. apply map_delete_middle. apply H.
Qed.

Lemma linked_missing c l k : linked c l → map_get k (ce_store c) = None → map_get k l = None.
Proof. intros H. rewrite (li_look _ _ H). intros E%look_None. by apply map_get_None. Qed.

Lemma linked_without c k v x l :
  detached c k v x l → NoDup l.*1 → "" ∉ l.*1 → k ∉ l.*1 → linked (with_store (map_delete k) c) l.
Proof.
  intros [Ds Dl Dh Dt] Hd Hn Hk. split; try done; cbn.
  - by apply map_delete_NoDup.
  - intros j. rewrite map_get_delete, Dl. destruct (String.eqb_spec k j) as [<-|]; [|done].
    symmetry. by apply look_None.
Qed.

Lemma unlinked c l1 k v x l2 :
  linked c (l1 ++ (k, (v, x)) :: l2) →
  linked (with_store (map_delete k) (unlink k (mkEntry v x (last_key None l1) (first_key l2 None)) c)) (l1 ++ l2).
Proof.
  intros H. eapply linked_without; [by apply unlink_detached|..].
  all: destruct H as [Hd _ Hn _ _ _]; rewrite <- (Permutation_middle l1 l2 (k, (v, x))) in Hd, Hn; cbn in Hd, Hn.
  - by apply NoDup_cons in Hd as [_ ?].
  - by apply not_elem_of_cons in Hn as [_ ?].
  - by apply NoDup_cons in Hd as [? _].
Qed.

Lemma delete_linked c l k :
  linked c l →
  (cache_delete k c).1 = bool_decide (is_Some (map_get k l)) ∧ linked (cache_delete k c).2 (lru_remove k l).
Proof.
  intros H. unfold cache_delete. destruct (map_get k (ce_store c)) as [e|] eqn:E.
  - destruct (linked_entry _ _ _ _ H E) as (l1 & v & x & l2 & -> & -> & Hk & ->). split; [by rewrite Hk|]. by apply unlinked.
  - apply (linked_missing _ _ _ H) in E. split; [by rewrite E|].
    unfold lru_remove. rewrite map_delete_notin; [done|]. by apply map_get_None.
Qed.

Lemma evict_linked c l : linked c l → linked (evictTail c) (take (pred (length l)) l).
Proof.
  intros H. unfold evictTail. rewrite (li_tail _ _ H). destruct l as [|[k [v x]] l _] using rev_ind; [done|].
  rewrite last_key_snoc, truthy_named.
  2:{ intros ->. destruct (li_named _ _ H). rewrite fmap_app, elem_of_app. right. by left. }
  rewrite (li_look _ _ H), look_middle.
  2:{ pose proof (li_NoDup _ _ H) as Hd. rewrite fmap_app, NoDup_app in Hd. destruct Hd as (_ & Hd & _).
      intros Hk. apply (Hd k Hk). by left. }
  rewrite length_app, Nat.add_comm. cbn [length pred Nat.add]. rewrite take_app_length.
  pose proof (unlinked _ _ _ _ _ _ H) as H'. by rewrite app_nil_r in H'.
Qed.

Lemma rewrite_linked c l1 k y v x l2 :
  linked c (l1 ++ (k, y) :: l2) →
  linked (upd k (λ _, mkEntry v x (last_key None l1) (first_key l2 None)) c) (l1 ++ (k, (v, x)) :: l2).
Proof.
  intros [Hd Hs Hn Hl Hh Ht].
  assert ((l1 ++ (k, (v, x)) :: l2).*1 = (l1 ++ (k, y) :: l2).*1) as Ek by (by rewrite !fmap_app).
  split; rewrite ?Ek, ?upd_keys, ?upd_head, ?upd_tail; try done.
  - intros j. rewrite upd_get, !Hl. destruct y as [v' x'].
    assert (k ∉ l1.*1) as Hk.
    { rewrite fmap_app, NoDup_app in Hd. destruct Hd as (_ & Hd & _). intros Hk. apply (Hd k Hk). by left. }
    destruct (String.eqb_spec k j) as [<-|Hj]; [by rewrite !look_middle|].
    rewrite !look_app. cbn [look first_key]. by destruct (String.eqb_spec k j).
  - rewrite Hh, !first_key_app. done.
  - rewrite Ht, !last_key_app, !last_key_cons. done.
Qed.

Lemma get_linked now k c l :
  linked c l → (cache_get now k c).1 = (lru_get now k l).1 ∧ linked (cache_get now k c).2 (lru_get now k l).2.
Proof.
  intros H. unfold cache_get, lru_get. destruct (map_get k (ce_store c)) as [e|] eqn:E.
  - destruct (linked_entry _ _ _ _ H E) as (l1 & v & x & l2 & El & -> & Hk & Hr). rewrite Hk. cbn [expiresAt ce_value].
    destruct (x <? now); cbn [fst snd]; (split; [done|]); [by apply delete_linked|]. rewrite Hr.
    apply moveToHead_linked. by rewrite <- El.
  - by rewrite (linked_missing _ _ _ H E).
Qed.

Lemma set_linked now k v c l :
  linked c l → k ≠ "" → linked (cache_set now k v c) (lru_set (maxSize c) (ttlMs c) now k v l).
Proof.
  intros H Hk0. unfold cache_set, lru_set. destruct (map_get k (ce_store c)) as [e|] eqn:E.
  - destruct (linked_entry _ _ _ _ H E) as (l1 & v' & x & l2 & El & -> & -> & ->). cbn [ce_prev ce_next].
    apply moveToHead_linked. rewrite El in H. by eapply rewrite_linked.
  - apply (linked_missing _ _ _ H) in E. rewrite E, (linked_size _ _ H).
    assert (k ∉ l.*1) as Hk by (by apply map_get_None).
    destruct (maxSize c <=? Z.of_nat (length l)); apply insert_linked; auto using evict_linked.
    rewrite fmap_take. intros (i & Hi & _)%elem_of_take. destruct Hk. by eapply list_elem_of_lookup_2.
Qed.

Lemma clear_linked prefix c l : linked c l → linked (clear_prefix prefix c) (lru_clear prefix l).
Proof.
  intros H. unfold clear_prefix.
  assert (∀ k, k ∈ l.*1 → k ∈ (ce_store c).*1) as Hk by (intros k; by rewrite linked_keys).
  unfold lru_clear. rewrite <- (remove_all_clears prefix (ce_store c).*1 l Hk). clear Hk.
  generalize (ce_store c).*1 as ks. intros ks. revert c l H.
  induction ks as [|k ks IH]; intros c l H; [done|]. cbn [foldl]. apply IH.
  destruct (String.prefix prefix k); [|done]. by apply delete_linked.
Qed.

End rep.

(** ** Sequences of operations *)

Inductive CacheOp (V : Type) : Type :=
| op_get (now : Z) (k : string)
| op_set (now : Z) (k : string) (v : V)
| op_delete (k : string)
| op_clear (prefix : string).
Arguments op_get {V} now k.
Arguments op_set {V} now k v.
Arguments op_delete {V} k.
Arguments op_clear {V} prefix.

(** What the operations answer, [None] for those that answer nothing. *)
Fixpoint run_ops {V S : Type} (step : CacheOp V → S → option V * S) (ops : list (CacheOp V)) (s : S)
    : list (option V) * S :=
  match ops with
  | [] => ([], s)
  | o :: ops' => let '(out, s') := step o s in let '(outs, s'') := run_ops step ops' s' in (out :: outs, s'')
  end.

Definition linked_step {V} (o : CacheOp V) (c : LruTtlCache V) : option V * LruTtlCache V :=
  match o with
  | op_get now k => cache_get now k c
  | op_set now k v => (None, cache_set now k v c)
  | op_delete k => (None, (cache_delete k c).2)
  | op_clear p => (None, cache_clear (Some p) c)
  end.

Definition lru_step {V} (size ttl : Z) (o : CacheOp V) (l : Lru V) : option V * Lru V :=
  match o with
  | op_get now k => lru_get now k l
  | op_set now k v => (None, lru_set size ttl now k v l)
  | op_delete k => (None, lru_remove k l)
  | op_clear p => (None, lru_clear p l)
  end.

Definition map_step (o : CacheOp bool) (c : MapCache) : option bool * MapCache :=
  match o with
  | op_get now k => mc_get now k c
  | op_set now k v => (None, mc_set now k v c)
  | op_delete k => (None, mc_invalidate k c)
  | op_clear p => (None, mc_invalidate_prefix p c)
  end.

(** A relation that every step keeps, with equal answers, is kept by runs. *)
Lemma run_simulates {V S T} (R : S → T → Prop) (f : CacheOp V → S → option V * S) (g : CacheOp V → T → option V * T)
    (ops : list (CacheOp V)) s t :
  (∀ o s t, o ∈ ops → R s t → (f o s).1 = (g o t).1 ∧ R (f o s).2 (g o t).2) →
  R s t → (run_ops f ops s).1 = (run_ops g ops t).1 ∧ R (run_ops f ops s).2 (run_ops g ops t).2.
Proof.
  intros Hstep. revert s t. induction ops as [|o ops IH]; intros s t HR; [done|]. cbn [run_ops].
  destruct (Hstep o s t ltac:(by left) HR) as [E HR']. destruct (f o s) as [a s'], (g o t) as [b t']. cbn in E, HR'. subst b.
  destruct (IH (λ o s t Ho, Hstep o s t ltac:(by right)) s' t' HR') as [E1 E2].
  destruct (run_ops f ops s'), (run_ops g ops t'). cbn in *. by subst.
Qed.

(** ** Refinement *)

Section refine.
Context {V : Type}.
Implicit Types (l : Lru V) (c : LruTtlCache V).

Lemma map_delete_le k l : (length (map_delete k l) ≤ length l)%nat.
Proof. apply length_filter. Qed.
Lemma lru_clear_le p l : (length (lru_clear p l) ≤ length l)%nat.
Proof. apply length_filter. Qed.

Lemma map_delete_length k l v : map_get k l = Some v → (S (length (map_delete k l)) ≤ length l)%nat.
Proof.
  intros (m1 & m2 & -> & _)%map_get_split. unfold map_delete.
  rewrite filter_app, filter_cons_False by (cbn; naive_solver). rewrite !length_app. cbn [length].
  pose proof (map_delete_le k m1). pose proof (map_delete_le k m2). unfold map_delete in *. lia.
Qed.

Lemma lru_step_size size ttl (o : CacheOp V) l :
  1 ≤ size → Z.of_nat (length l) ≤ size → Z.of_nat (length (lru_step size ttl o l).2) ≤ size.
Proof.
  intros Hs Hl. destruct o as [now k|now k v|k|p]; cbn [lru_step snd].
  - unfold lru_get, lru_remove. destruct (map_get k l) as [[v x]|] eqn:E; [|done].
    pose proof (map_delete_length k l _ E). destruct (x <? now); cbn [snd length]; lia.
  - unfold lru_set, lru_remove. destruct (map_get k l) as [y|] eqn:E; cbn [length].
    + pose proof (map_delete_length k l _ E). lia.
    + destruct (Z.leb_spec size (Z.of_nat (length l))); rewrite ?length_take; lia.
  - pose proof (map_delete_le k l). unfold lru_remove. lia.
  - pose proof (lru_clear_le p l). lia.
Qed.

(** The size and the time to live never change. *)
Definition configured (size ttl : Z) (c : LruTtlCache V) : Prop := maxSize c = size ∧ ttlMs c = ttl.

Lemma upd_configured size ttl k f c : configured size ttl c → configured size ttl (upd k f c).
Proof. unfold upd. by destruct (map_get _ _). Qed.
Lemma unlink_configured size ttl k e c : configured size ttl c → configured size ttl (unlink k e c).
Proof.
  intros H. unfold unlink. apply upd_configured.
  assert (configured size ttl (match truthy (ce_prev e) with
    Some p => upd p (set_next (ce_next e)) c | None => with_head (ce_next e) c end)) as H1.
  { by destruct (truthy (ce_prev e)); [apply upd_configured|]. }
  by destruct (truthy (ce_next e)); [apply upd_configured|].
Qed.
Lemma point_back_configured size ttl k c : configured size ttl c → configured size ttl (point_back k c).
Proof. unfold point_back. destruct (truthy _); [apply upd_configured|done]. Qed.
Lemma put_first_configured size ttl k c : configured size ttl c → configured size ttl (put_first k c).
Proof. unfold put_first. by destruct (ce_tail _). Qed.
Lemma moveToHead_configured size ttl k e c : configured size ttl c → configured size ttl (moveToHead k e c).
Proof.
  intros H. unfold moveToHead. case_bool_decide; [done|].
  by apply put_first_configured, point_back_configured, upd_configured, unlink_configured.
Qed.
Lemma delete_configured size ttl k c : configured size ttl c → configured size ttl (cache_delete k c).2.
Proof.
  intros H. unfold cache_delete. destruct (map_get _ _) as [e|]; [|done].
  exact (unlink_configured size ttl k e c H).
Qed.

Lemma step_configured size ttl (o : CacheOp V) c : configured size ttl c → configured size ttl (linked_step o c).2.
Proof.
  intros H. destruct o as [now k|now k v|k|p]; cbn [linked_step snd].
  - unfold cache_get. destruct (map_get _ _); [|done].
    destruct (_ <? _); [by apply delete_configured|by apply moveToHead_configured].
  - unfold cache_set. destruct (map_get _ _); [by apply moveToHead_configured, upd_configured|].
    assert (configured size ttl (evictTail c)) as He.
    { unfold evictTail. destruct (truthy _) as [t|]; [|done].
      destruct (map_get t _) as [e|]; [|done]. exact (unlink_configured size ttl t e c H). }
    destruct (_ <=? _); cbn; by apply put_first_configured, point_back_configured.
  - by apply delete_configured.
  - cbn [cache_clear]. unfold clear_prefix. generalize (ce_store c).*1 as ks. intros ks. revert c H.
    induction ks as [|k ks IH]; intros c H; [done|]. cbn [foldl]. apply IH.
    destruct (String.prefix p k); [by apply delete_configured|done].
Qed.

(** The keys that are set are not empty. *)
Definition named_ops (ops : list (CacheOp V)) : Prop := ∀ now v, op_set now "" v ∉ ops.

Lemma linked_step_sim (o : CacheOp V) c l :
  linked c l → (∀ now v, o ≠ op_set now "" v) →
  (linked_step o c).1 = (lru_step (maxSize c) (ttlMs c) o l).1
  ∧ linked (linked_step o c).2 (lru_step (maxSize c) (ttlMs c) o l).2.
Proof.
  intros HL Ho. destruct o as [now k|now k v|k|p]; cbn [linked_step lru_step fst snd].
  - by apply get_linked.
  - split; [done|]. apply set_linked; [done|]. intros ->. by destruct (Ho now v).
  - split; [done|]. by apply delete_linked.
  - split; [done|]. by apply clear_linked.
Qed.

(** C20.  The linked cache answers every sequence of operations as the abstract
    cache does, holds the abstract list in its links, and never holds more
    than [maxSize] entries. *)
Theorem linked_cache_refines_lru size ttl c ops :
  new_cache size ttl = Ok c → named_ops ops →
  (run_ops linked_step ops c).1 = (run_ops (lru_step size ttl) ops []).1
  ∧ linked (run_ops linked_step ops c).2 (run_ops (lru_step size ttl) ops []).2
  ∧ Z.of_nat (cache_size (run_ops linked_step ops c).2) ≤ size.
Proof.
  unfold new_cache. destruct (Z.ltb_spec size 1); [done|]. destruct (ttl <? 0); [done|]. intros [= <-] Hn.
  destruct (run_simulates (λ c l, linked c l ∧ configured size ttl c ∧ Z.of_nat (length l) ≤ size)
    linked_step (lru_step size ttl) ops (mkCache size ttl [] None None) []) as (E & HR & _ & Hl).
  - intros o c l Ho (HL & HC & Hs). pose proof (step_configured size ttl o c HC). pose proof (lru_step_size size ttl o l).
    destruct HC as [E1 E2]. destruct (linked_step_sim o c l HL) as [? ?]; [intros now v ->; by destruct (Hn now v)|]. subst.
    split_and!; try done. lia.
  - split_and!; try done; cbn; [|lia]. split; try done; cbn; [apply NoDup_nil_2|apply NoDup_nil_2|apply not_elem_of_nil].
  - split_and!; try done. unfold cache_size. by rewrite (linked_size _ _ HR).
Qed.

End refine.

Section map_refine.
Context {V : Type}.
Implicit Types l : Lru V.

Lemma map_get_reverse k l : NoDup l.*1 → map_get k (reverse l) = map_get k l.
Proof.
  intros Hd. destruct (map_get k l) as [y|] eqn:E.
  - apply map_elem_get; [by rewrite fmap_reverse, reverse_Permutation|]. apply elem_of_reverse. by apply map_get_Some_elem.
  - apply map_get_None. rewrite fmap_reverse, elem_of_reverse. by apply map_get_None.
Qed.

Lemma filter_reverse {A} (P : A → Prop) `{∀ x, Decision (P x)} (m : list A) : filter P (reverse m) = reverse (filter P m).
Proof.
  induction m as [|x m IH]; [done|]. rewrite reverse_cons, filter_app, IH, !filter_cons, filter_nil.
  case_decide; [by rewrite reverse_cons|by rewrite app_nil_r].
Qed.

Lemma remove_keys k l : k ∉ (lru_remove k l).*1.
Proof. unfold lru_remove. rewrite map_delete_keys. naive_solver. Qed.

Lemma lru_step_NoDup size ttl (o : CacheOp V) l : NoDup l.*1 → NoDup (lru_step size ttl o l).2.*1.
Proof.
  intros Hd. assert (∀ k y, NoDup ((k, y) :: lru_remove k l).*1) as Hc.
  { intros k y. cbn. apply NoDup_cons. split; [apply remove_keys|by apply map_delete_NoDup]. }
  destruct o as [now k|now k v|k|p]; cbn [lru_step snd].
  - unfold lru_get. destruct (map_get k l) as [[v x]|] eqn:E; [|done].
    destruct (x <? now); cbn [snd]; [by apply map_delete_NoDup|done].
  - unfold lru_set. destruct (map_get k l) as [y|] eqn:E; [done|]. apply map_get_None in E.
    assert (NoDup ((k, (v, now + ttl)) :: l).*1) as Hk by (cbn; by apply NoDup_cons).
    destruct (size <=? _); [|done]. cbn in *. apply NoDup_cons in Hk as [H1 H2]. apply NoDup_cons. rewrite fmap_take. split.
    + intros (i & Hi & _)%elem_of_take. destruct H1. by eapply list_elem_of_lookup_2.
    + rewrite <- (take_drop (pred (length l)) l.*1) in H2. by apply NoDup_app in H2 as (? & _).
  - by apply map_delete_NoDup.
  - unfold lru_clear, map_clear. clear Hc. induction l as [|[k y] l IH]; [done|]. cbn in Hd. apply NoDup_cons in Hd as [H1 H2].
    rewrite filter_cons. case_decide; [|by apply IH]. cbn. apply NoDup_cons. split; [|by apply IH].
    rewrite list_elem_of_fmap. intros (kv & -> & [_ Hin]%list_elem_of_filter). destruct H1. apply list_elem_of_fmap. by exists kv.
Qed.

End map_refine.

(** The Map holds the abstract list from the oldest to the newest entry. *)
Definition ordered (size ttl : Z) (c : MapCache) (l : Lru bool) : Prop :=
  c = mkMapCache size ttl (reverse l) ∧ NoDup l.*1.

Lemma map_set_removed k (y : bool * Z) l :
  k ∉ l.*1 → map_set k y (reverse l) = reverse ((k, y) :: l).
Proof. intros Hk. rewrite map_set_absent, reverse_cons; [done|]. by rewrite fmap_reverse, elem_of_reverse. Qed.

Lemma map_delete_reverse k (l : Lru bool) : map_delete k (reverse l) = reverse (lru_remove k l).
Proof. unfold map_delete, lru_remove. apply filter_reverse. Qed.

Lemma mc_get_ordered size ttl now k c l :
  ordered size ttl c l → (mc_get now k c).1 = (lru_get now k l).1 ∧ (mc_get now k c).2 = mkMapCache size ttl (reverse (lru_get now k l).2).
Proof.
  intros [-> Hd]. unfold mc_get, lru_get. cbn [mc_cache]. rewrite map_get_reverse by done.
  destruct (map_get k l) as [[v x]|]; [|done]. rewrite map_delete_reverse.
  destruct (x <? now); cbn [fst snd]; (split; [done|]); [done|]. rewrite map_set_removed by apply remove_keys. done.
Qed.

Lemma mc_set_ordered size ttl now k v c l :
  1 ≤ size → ordered size ttl c l → mc_set now k v c = mkMapCache size ttl (reverse (lru_set size ttl now k v l)).
Proof.
  intros Hs [-> Hd]. unfold mc_set, lru_set. cbn [mc_cache mc_maxSize mc_ttlMs with_map].
  destruct (Z.leb_spec size 0); [lia|]. rewrite map_get_reverse, length_reverse by done.
  destruct (map_get k l) as [y|] eqn:E.
  - rewrite map_delete_reverse. cbn [with_map]. rewrite map_set_removed by apply remove_keys. done.
  - apply map_get_None in E. destruct (Z.leb_spec size (Z.of_nat (length l))); [|by rewrite map_set_removed].
    destruct l as [|[a y] l _] using rev_ind; [cbn in *; lia|].
    rewrite reverse_snoc, <- (reverse_snoc l (a, y)), map_delete_reverse.
    unfold lru_remove. rewrite map_delete_middle by done. rewrite app_nil_r.
    rewrite length_app, Nat.add_comm. cbn [length pred Nat.add]. rewrite take_app_length.
    rewrite map_set_removed; [done|]. rewrite fmap_app, elem_of_app in E. tauto.
Qed.

Lemma mc_clear_ordered size ttl p c l :
  ordered size ttl c l → mc_invalidate_prefix p c = mkMapCache size ttl (reverse (lru_clear p l)).
Proof.
  intros [-> Hd]. unfold mc_invalidate_prefix. cbn [mc_cache].
  assert (∀ ks m, foldl (λ c k, if String.prefix p k then mc_invalidate k c else c) (mkMapCache size ttl m) ks
    = mkMapCache size ttl (foldl (λ m k, if String.prefix p k then map_delete k m else m) m ks)) as ->.
  { induction ks as [|k ks IH]; intros m; [done|]. cbn [foldl]. rewrite <- IH. by destruct (String.prefix p k). }
  f_equal. rewrite (remove_all_clears p _ (reverse l)) by done. apply filter_reverse.
Qed.

Lemma map_step_sim size ttl (o : CacheOp bool) c l :
  1 ≤ size → ordered size ttl c l →
  (map_step o c).1 = (lru_step size ttl o l).1 ∧ ordered size ttl (map_step o c).2 (lru_step size ttl o l).2.
Proof.
  intros Hs HO. pose proof (lru_step_NoDup size ttl o l (proj2 HO)). unfold ordered.
  destruct o as [now k|now k v|k|p]; cbn [map_step lru_step fst snd] in *.
  - destruct (mc_get_ordered size ttl now k c l HO) as [-> ->]. done.
  - by rewrite (mc_set_ordered size ttl now k v c l).
  - destruct HO as [-> Hd]. unfold mc_invalidate. cbn [mc_cache with_map]. by rewrite map_delete_reverse.
  - by rewrite (mc_clear_ordered size ttl p c l).
Qed.

(** The Map in insertion order answers every sequence of operations as the
    same abstract cache does, and never holds more than [maxSize] entries. *)
Theorem map_cache_refines_lru size ttl ops :
  1 ≤ size →
  (run_ops map_step ops (mkMapCache size ttl [])).1 = (run_ops (lru_step size ttl) ops []).1
  ∧ mc_cache (run_ops map_step ops (mkMapCache size ttl [])).2 = reverse (run_ops (lru_step size ttl) ops []).2
  ∧ Z.of_nat (length (mc_cache (run_ops map_step ops (mkMapCache size ttl [])).2)) ≤ size.
Proof.
  intros Hs. destruct (run_simulates (λ c l, ordered size ttl c l ∧ Z.of_nat (length l) ≤ size)
    map_step (lru_step size ttl) ops (mkMapCache size ttl []) []) as (E & [-> _] & Hl).
  - intros o c l _ [HO Hl]. pose proof (lru_step_size size ttl o l Hs Hl).
    destruct (map_step_sim size ttl o c l Hs HO). done.
  - split; [|cbn; lia]. split; [done|apply NoDup_nil_2].
  - split_and!; try done. cbn. by rewrite length_reverse.
Qed.

(** ** The interface to clients *)

(** A cache of booleans that acts as an abstract LRU cache does. *)
Class LruImpl (C : Type) : Type := {
  lc_step : CacheOp bool → C → option bool * C;
  lc_rep : Z → C → Lru bool → Prop;
  lc_empty : Z → C → Prop }.

Class LruLaws (C : Type) `{LruImpl C} : Prop := {
  lc_new ttl c : lc_empty ttl c → lc_rep ttl c [];
  lc_sim ttl o c l : (∀ now v, o ≠ op_set now "" v) → lc_rep ttl c l →
    ∃ size, (lc_step o c).1 = (lru_step size ttl o l).1 ∧ lc_rep ttl (lc_step o c).2 (lru_step size ttl o l).2 }.

#[export] Instance linked_impl : LruImpl (LruTtlCache bool) := {|
  lc_step := linked_step;
  lc_rep ttl c l := linked c l ∧ ttlMs c = ttl;
  lc_empty ttl c := ∃ size, new_cache size ttl = Ok c |}.

#[export] Instance linked_laws : LruLaws (LruTtlCache bool).
Proof.
  split.
  - intros ttl c [size E]. unfold new_cache in E. destruct (size <? 1), (ttl <? 0); try done. injection E as <-.
    split; [|done]. split; try done; cbn; [apply NoDup_nil_2|apply NoDup_nil_2|apply not_elem_of_nil].
  - intros ttl o c l Ho [HL <-]. exists (maxSize c).
    pose proof (step_configured (maxSize c) (ttlMs c) o c (conj eq_refl eq_refl)) as [_ Ht].
    destruct (linked_step_sim o c l HL Ho). done.
Qed.

#[export] Instance map_impl : LruImpl MapCache := {|
  lc_step := map_step;
  lc_rep ttl c l := ∃ size, 1 ≤ size ∧ ordered size ttl c l;
  lc_empty ttl c := ∃ size, 1 ≤ size ∧ c = mkMapCache size ttl [] |}.

#[export] Instance map_laws : LruLaws MapCache.
Proof.
  split.
  - intros ttl c (size & Hs & ->). exists size. split; [done|]. split; [done|]. apply NoDup_nil_2.
  - intros ttl o c l _ (size & Hs & HO). exists size. destruct (map_step_sim size ttl o c l Hs HO) as [E HO'].
    split; [exact E|]. exists size. done.
Qed.

(** ** What a cache may answer *)

Section lossy.
Context {C : Type} `{LruLaws C}.
Implicit Types (c : C) (k j : string) (Q : string → bool → Z → Prop).

(** Every entry of the cache satisfies [Q]. *)
Definition all_cached (ttl : Z) (Q : string → bool → Z → Prop) (c : C) : Prop :=
  ∃ l, lc_rep ttl c l ∧ ∀ k b e, (k, (b, e)) ∈ l → Q k b e.

Lemma cached_new ttl Q c : lc_empty ttl c → all_cached ttl Q c.
Proof. intros Hc. exists []. split; [by apply lc_new|]. by intros k b e ?%elem_of_nil. Qed.

Lemma cached_mono ttl Q Q' c : (∀ k b e, Q k b e → Q' k b e) → all_cached ttl Q c → all_cached ttl Q' c.
Proof. intros HQ (l & Hl & Hq). exists l. eauto. Qed.

Lemma removed_in k j (b : bool) e l : (j, (b, e)) ∈ lru_remove k l → j ≠ k ∧ (j, (b, e)) ∈ l.
Proof. unfold lru_remove, map_delete. by intros ?%list_elem_of_filter. Qed.

Lemma cached_get ttl Q now k c :
  all_cached ttl Q c →
  all_cached ttl Q (lc_step (op_get now k) c).2
  ∧ ∀ b, (lc_step (op_get now k) c).1 = Some b → ∃ e, Q k b e ∧ now ≤ e.
Proof.
  intros (l & Hl & Hq). destruct (lc_sim ttl (op_get now k) c l) as (size & -> & Hl'); [done|done|].
  cbn [lru_step] in *. unfold lru_get in *. destruct (map_get k l) as [[b e]|] eqn:E; [|split; [by exists l|done]].
  apply map_get_Some_elem in E. destruct (Z.ltb_spec e now); cbn [fst snd] in *.
  - split; [|done]. eexists. split; [exact Hl'|]. intros j b' e' [_ Hin]%removed_in. eauto.
  - split; [|intros b' [= <-]; eauto]. eexists. split; [exact Hl'|].
    intros j b' e' [[= -> -> ->]|[_ Hin]%removed_in]%elem_of_cons; eauto.
Qed.

Lemma cached_set ttl Q now k b c :
  all_cached ttl Q c → k ≠ "" → Q k b (now + ttl) → all_cached ttl Q (lc_step (op_set now k b) c).2.
Proof.
  intros (l & Hl & Hq) Hk HQ. destruct (lc_sim ttl (op_set now k b) c l) as (size & _ & Hl'); [naive_solver|done|].
  exists (lru_step size ttl (op_set now k b) l).2. split; [done|]. cbn [lru_step snd]. unfold lru_set.
  intros j b' e'. destruct (map_get k l).
  - intros [[= -> -> ->]|[_ Hin]%removed_in]%elem_of_cons; eauto.
  - intros [[= -> -> ->]|Hin]%elem_of_cons; [done|]. apply Hq. destruct (size <=? _); [|done].
    apply elem_of_take in Hin as (i & Hi & _). by eapply list_elem_of_lookup_2.
Qed.

Lemma cached_delete ttl Q k c :
  all_cached ttl Q c → all_cached ttl (λ j b e, j ≠ k ∧ Q j b e) (lc_step (op_delete k) c).2.
Proof.
  intros (l & Hl & Hq). destruct (lc_sim ttl (op_delete k) c l) as (size & _ & Hl'); [done|done|].
  eexists. split; [exact Hl'|]. cbn [lru_step snd]. intros j b e [? ?]%removed_in. eauto.
Qed.

Lemma cached_clear ttl Q p c : all_cached ttl Q c → all_cached ttl Q (lc_step (op_clear p) c).2.
Proof.
  intros (l & Hl & Hq). destruct (lc_sim ttl (op_clear p) c l) as (size & _ & Hl'); [done|done|].
  eexists. split; [exact Hl'|]. cbn [lru_step snd]. intros j b e. unfold lru_clear, map_clear.
  intros [_ Hin]%list_elem_of_filter. eauto.
Qed.

End lossy.
