(* ===== verification/Revocation.v ===== *)
(** * Revocation lists

    Models packages/policy/src/revocation: the records (revocation-record.ts),
    the Postgres store (revocation-list-store.ts) over the table of
    packages/policy/sql/023_revocation_records.sql, the cache
    (revocation-cache.ts) and the API that puts them together
    (revocation-api.ts); and the SDK client over the API
    (packages/sdk/src/revocation).  The cache is reached through the interface
    [LruImpl], which both caches of LruCache.v implement.  Clock readings and
    identifiers are arguments. *)
From S2P Require Import Prelude JsValue Time Encoding Crypto Authorization SignedPayload LruCache.
From S2P Require Import ScopeEvaluator RuntimeGuard.

(** ** Records *)

Definition REVOCATION_REASONS : list string :=
  ["KEY_COMPROMISE"; "AFFILIATION_CHANGED"; "SUPERSEDED"; "CESSATION_OF_OPERATION"; "PRIVILEGE_WITHDRAWN"; "UNSPECIFIED"].

Definition isRevocationReason (s : string) : bool := bool_decide (s ∈ REVOCATION_REASONS).
Definition parseRevocationReason (s : string) : res string := if isRevocationReason s then Ok s else Throw "Error".

Record IssuerSignaturePayload : Type := mkIssuerPayload {
  is_issuerDid : string;
  is_listId : string;
  is_listVersion : Z;
  is_tenantId : string;
  is_issuedAt : string }.

(** A property that is a non-empty string. *)
Definition need_text (k : string) (o : object) : res string :=
  match prop k o with
  | Some (VStr s) => if non_empty s then Ok s else Throw "Error"
  | _ => Throw "Error"
  end.

Definition validateIssuerSignaturePayload (raw : value) : res IssuerSignaturePayload :=
  match raw with
  | VObj obj =>
      did ← need_text "issuerDid" obj;
      listId ← need_text "listId" obj;
      version ← match prop "listVersion" obj with
                | Some (VNum (Fin n)) => if n <? 1 then Throw "Error" else Ok n
                | _ => Throw "Error"
                end;
      tenantId ← need_text "tenantId" obj;
      issuedAt ← need_text "issuedAt" obj;
      mret (mkIssuerPayload did listId version tenantId issuedAt)
  | _ => Throw "Error"
  end.

Record RevocationRecord : Type := mkRevocationRecord {
  rr_id : string;
  rr_tenantId : string;
  rr_tokenId : string;
  rr_revokedBy : string;
  rr_revokedAt : Z;
  rr_reason : string;
  rr_listId : string;
  rr_listVersion : Z;
  rr_payload : option IssuerSignaturePayload }.

(** The payload is the JSON value that its text reads back as. *)
Record RevocationWriteInput : Type := mkRevokeInput {
  wr_tenantId : string;
  wr_tokenId : string;
  wr_revokedBy : string;
  wr_reason : option string;
  wr_listId : string;
  wr_payload : option value }.

Inductive RevocationErrorCode : Type :=
| REVOCATION_DUPLICATE | REVOCATION_INVALID_PARAMS | REVOCATION_LIST_VERSION_CONFLICT
| REVOCATION_STORE_ERROR | REVOCATION_CACHE_ERROR.

Inductive RevocationWriteResult : Type :=
| write_ok (record : RevocationRecord)
| write_failed (code : RevocationErrorCode).

(** ** The table *)

Record RevocationRow : Type := mkRevocationRow {
  rv_id : string;
  rv_tenant : string;
  rv_token : string;
  rv_by : string;
  rv_at : Z;
  rv_reason : string;
  rv_list : string;
  rv_version : Z;
  rv_payload : option value }.

Abbreviation RevTable := (list RevocationRow).

Definition rowToRecord (row : RevocationRow) : res RevocationRecord :=
  reason ← parseRevocationReason (rv_reason row);
  payload ← match rv_payload row with
            | Some VNull | None => Ok None
            | Some v => p ← validateIssuerSignaturePayload v; Ok (Some p)
            end;
  mret (mkRevocationRecord (rv_id row) (rv_tenant row) (rv_token row) (rv_by row) (rv_at row) reason
          (rv_list row) (rv_version row) payload).

Definition of_list (t l : string) (row : RevocationRow) : Prop := rv_tenant row = t ∧ rv_list row = l.
Definition of_token (t k : string) (row : RevocationRow) : Prop := rv_tenant row = t ∧ rv_token row = k.
#[export] Instance of_list_dec t l row : Decision (of_list t l row).
Proof. unfold of_list. apply _. Defined.
#[export] Instance of_token_dec t k row : Decision (of_token t k row).
Proof. unfold of_token. apply _. Defined.

(** [COALESCE(MAX(list_version), 0) + 1] over the rows of a list. *)
Definition next_version (t l : string) (w : RevTable) : Z :=
  foldr Z.max 0 (rv_version <$> filter (of_list t l) w) + 1.

(** [EXISTS(SELECT 1 ... WHERE tenant_id = $1 AND token_id = $2)] *)
Definition revoked_in (t k : string) (w : RevTable) : bool := negb (bool_decide (filter (of_token t k) w = [])).

Definition INT_MAX : Z := 2 ^ 31 - 1.

(** INSERT: the range of the INT column and the CHECK constraints, then the
    primary key and the unique indexes.  An error carries the constraint. *)
Definition insert_revocation (row : RevocationRow) (w : RevTable) : res RevTable :=
  if INT_MAX <? rv_version row then Throw "integer out of range"
  else if negb (isRevocationReason (rv_reason row)) then Throw "revocation_records_reason_check"
  else if rv_version row <? 1 then Throw "revocation_records_list_version_check"
  else if existsb (λ r, String.eqb (rv_id r) (rv_id row)) w then Throw "revocation_records_pkey"
  else if existsb (λ r, bool_decide (of_token (rv_tenant row) (rv_token row) r)) w
       then Throw "uniq_revocation_records_tenant_token"
  else if existsb (λ r, bool_decide (of_list (rv_tenant row) (rv_list row) r) && (rv_version r =? rv_version row)) w
       then Throw "uniq_revocation_records_list_version"
  else Ok (w ++ [row]).

(** The code of the SQLSTATE 23505, a unique violation. *)
Definition unique_violation (constraint : string) : bool :=
  bool_decide (constraint ∈ ["revocation_records_pkey"; "uniq_revocation_records_tenant_token";
                             "uniq_revocation_records_list_version"]).

(** ** The store *)

(** What the database does during a call: it may be out of reach when the
    client connects, or fail a statement. *)
Inductive DbHealth : Type := healthy | unreachable | failing.
#[export] Instance DbHealth_eq_dec : EqDecision DbHealth.
Proof. solve_decision. Defined.

(** The statements read what is committed when they run: [seen1] and [seen2]
    are the tables that the version and the duplicate query see, and the row is
    inserted in the table of then.  [lock] says whether the server accepts
    [FOR UPDATE] on a query with an aggregate. *)
Definition revokeWithClient (lock : bool) (h : DbHealth) (seen1 seen2 : RevTable) (id : string) (now : Z)
    (input : RevocationWriteInput) (reason : string) : M RevTable RevocationWriteResult := λ w,
  if bool_decide (h = failing) || negb lock then (Ok (write_failed REVOCATION_STORE_ERROR), w)
  else
    let listVersion := next_version (wr_tenantId input) (wr_listId input) seen1 in
    if revoked_in (wr_tenantId input) (wr_tokenId input) seen2 then (Ok (write_failed REVOCATION_DUPLICATE), w)
    else
      let row := mkRevocationRow id (wr_tenantId input) (wr_tokenId input) (wr_revokedBy input) now reason
                   (wr_listId input) listVersion (wr_payload input) in
      match insert_revocation row w with
      | Throw constraint =>
          (Ok (write_failed (if unique_violation constraint && str_includes constraint "list_version"
                             then REVOCATION_LIST_VERSION_CONFLICT else REVOCATION_STORE_ERROR)), w)
      | Ok w' =>
          (match rowToRecord row with
           | Ok record => Ok (write_ok record)
           | Throw _ => Ok (write_failed REVOCATION_STORE_ERROR)
           end, w')
      end.

(** [revoke], with the tables its queries see. *)
Definition revoke_seeing (lock : bool) (h : DbHealth) (seen1 seen2 : RevTable) (id : string) (now : Z)
    (input : RevocationWriteInput) : M RevTable RevocationWriteResult :=
  let reason := default "UNSPECIFIED" (wr_reason input) in
  if negb (non_empty (wr_tenantId input) && non_empty (wr_tokenId input)
           && non_empty (wr_revokedBy input) && non_empty (wr_listId input))
  then mret (write_failed REVOCATION_INVALID_PARAMS)
  else if negb (isRevocationReason reason) then mret (write_failed REVOCATION_INVALID_PARAMS)
  else if bool_decide (h = unreachable) then throw "Error"
  else revokeWithClient lock h seen1 seen2 id now input reason.

(** Without other writers. *)
Definition store_revoke (lock : bool) (h : DbHealth) (id : string) (now : Z) (input : RevocationWriteInput)
    : M RevTable RevocationWriteResult := λ w, revoke_seeing lock h w w id now input w.

Definition store_isRevoked (h : DbHealth) (t k : string) : M RevTable bool := λ w,
  if bool_decide (h = healthy) then (Ok (revoked_in t k w), w) else (Throw "Error", w).

Definition getRevocation (h : DbHealth) (t k : string) : M RevTable (option RevocationRecord) := λ w,
  if bool_decide (h = healthy) then
    match filter (of_token t k) w with
    | [] => (Ok None, w)
    | row :: _ => (record ← rowToRecord row; Ok (Some record), w)
    end
  else (Throw "Error", w).

Definition getNextListVersion (h : DbHealth) (t l : string) : M RevTable Z := λ w,
  if bool_decide (h = healthy) then (Ok (next_version t l w), w) else (Throw "Error", w).

Record RevocationQueryFilters : Type := mkRevFilters {
  qf_tenantId : string;
  qf_tokenId : option string;
  qf_listId : option string;
  qf_revokedAfter : option Z;
  qf_revokedBefore : option Z;
  qf_limit : option Z;
  qf_offset : option Z }.

Definition given {A} (o : option A) (P : A → bool) : bool := match o with Some a => P a | None => true end.

Definition query_row (f : RevocationQueryFilters) (r : RevocationRow) : bool :=
  String.eqb (rv_tenant r) (qf_tenantId f)
  && given (qf_tokenId f) (String.eqb (rv_token r)) && given (qf_listId f) (String.eqb (rv_list r))
  && given (qf_revokedAfter f) (λ a, a <=? rv_at r) && given (qf_revokedBefore f) (λ b, rv_at r <=? b).

(** [ORDER BY revoked_at DESC] *)
Definition later_first (a b : RevocationRow) : Prop := rv_at b ≤ rv_at a.
#[export] Instance later_first_dec a b : Decision (later_first a b).
Proof. unfold later_first. apply _. Defined.

Fixpoint each_record (rows : list RevocationRow) : res (list RevocationRecord) :=
  match rows with
  | [] => mret []
  | row :: rows' => r ← rowToRecord row; rs ← each_record rows'; mret (r :: rs)
  end.

(** A negative LIMIT or OFFSET is an error of the query. *)
Definition getRevocations (h : DbHealth) (f : RevocationQueryFilters) : M RevTable (list RevocationRecord) := λ w,
  let limit := Z.min (default 100 (qf_limit f)) 1000 in
  let offset := default 0 (qf_offset f) in
  if negb (bool_decide (h = healthy)) || (limit <? 0) || (offset <? 0) then (Throw "Error", w)
  else
    let rows := merge_sort later_first (filter (λ r, query_row f r = true) w) in
    (each_record (take (Z.to_nat limit) (drop (Z.to_nat offset) rows)), w).

(** ** The cache and the API *)

Definition cacheKey (tenantId tokenId : string) : string := tenantId +:+ ":" +:+ tokenId.

Section api.
Context {C : Type} `{LruImpl C}.

Record RevApi : Type := mkRevApi { ra_table : RevTable; ra_cache : C }.

Definition on_table {A} (x : M RevTable A) : M RevApi A := λ s,
  let '(r, w') := x (ra_table s) in (r, mkRevApi w' (ra_cache s)).
Definition on_cache (o : CacheOp bool) : M RevApi (option bool) := λ s,
  let '(r, c') := lc_step o (ra_cache s) in (Ok r, mkRevApi (ra_table s) c').

(** The parts of [revoke] between two suspensions: the cached answer is dropped,
    the store writes, and a success is cached. *)
Definition revoke_drop (input : RevocationWriteInput) : M RevApi unit :=
  _ ← on_cache (op_delete (cacheKey (wr_tenantId input) (wr_tokenId input))); mret tt.
Definition revoke_finish (now : Z) (input : RevocationWriteInput) (result : RevocationWriteResult)
    : M RevApi RevocationWriteResult :=
  match result with
  | write_ok _ => _ ← on_cache (op_set now (cacheKey (wr_tenantId input) (wr_tokenId input)) true); mret result
  | write_failed _ => mret result
  end.

Definition api_revoke (lock : bool) (h : DbHealth) (id : string) (dbNow now : Z) (input : RevocationWriteInput)
    : M RevApi RevocationWriteResult :=
  _ ← revoke_drop input;
  result ← on_table (store_revoke lock h id dbNow input);
  revoke_finish now input result.

(** The parts of [isRevoked]: the cache is asked, else the database, whose answer
    is then cached. *)
Definition check_cache (now : Z) (t k : string) : M RevApi (option bool) := on_cache (op_get now (cacheKey t k)).
Definition check_query (h : DbHealth) (t k : string) : M RevApi bool := on_table (store_isRevoked h t k).
Definition check_fill (now : Z) (t k : string) (revoked : bool) : M RevApi bool :=
  _ ← on_cache (op_set now (cacheKey t k) revoked); mret revoked.

Definition api_isRevoked (h : DbHealth) (now1 now2 : Z) (t k : string) : M RevApi bool :=
  cached ← check_cache now1 t k;
  match cached with
  | Some b => mret b
  | None => revoked ← check_query h t k; check_fill now2 t k revoked
  end.

Definition invalidateCacheToken (t k : string) : M RevApi unit := _ ← on_cache (op_delete (cacheKey t k)); mret tt.
Definition invalidateCacheTenant (t : string) : M RevApi unit := _ ← on_cache (op_clear (t +:+ ":")); mret tt.

End api.
Arguments RevApi C : clear implicits.

(** ** The SDK client *)

Record RevocationListPort (W : Type) : Type := mkRevPort {
  port_isRevoked : string → string → M W bool;
  port_revoke : RevocationWriteInput → M W RevocationWriteResult;
  port_getRevocations : RevocationQueryFilters → M W (list RevocationRecord) }.
Arguments mkRevPort {W}.
Arguments port_isRevoked {W}.
Arguments port_revoke {W}.
Arguments port_getRevocations {W}.

Record RevokeCredentialRequest : Type := mkRevokeRequest {
  rq_tenantId : string;
  rq_tokenId : string;
  rq_revokedBy : string;
  rq_reason : option string;
  rq_listId : string }.

Inductive RevokeCredentialResult : Type :=
| revoke_created (record : RevocationRecord)
| revoke_duplicate.

Section client.
Context {W C : Type} `{LruImpl C}.

Record RevClient : Type := mkRevClient { rl_world : W; rl_cache : C }.

(** A call of the port; its rejection becomes an error of the client. *)
Definition on_port {A} (code : string) (x : M W A) : M RevClient A := λ s,
  let '(r, w') := x (rl_world s) in
  (match r with Ok a => Ok a | Throw _ => Throw code end, mkRevClient w' (rl_cache s)).
Definition on_local (o : CacheOp bool) : M RevClient (option bool) := λ s,
  let '(r, c') := lc_step o (rl_cache s) in (Ok r, mkRevClient (rl_world s) c').

Definition validateTenant (t : string) : res unit := check (negb (blank t)) "REVOCATION_CLIENT_INVALID_TENANT".
Definition validateTokenId (k : string) : res unit := check (negb (blank k)) "REVOCATION_CLIENT_INVALID_TOKEN_ID".

(** The answer and whether it came from the cache. *)
Definition checkRevoked (P : RevocationListPort W) (now1 now2 : Z) (t k : string) : M RevClient (bool * bool) :=
  _ ← lift_res (validateTenant t);
  _ ← lift_res (validateTokenId k);
  cached ← on_local (op_get now1 (cacheKey t k));
  match cached with
  | Some b => mret (b, true)
  | None =>
      revoked ← on_port "REVOCATION_CLIENT_CHECK_FAILED" (port_isRevoked P t k);
      _ ← on_local (op_set now2 (cacheKey t k) revoked);
      mret (revoked, false)
  end.

Definition revokeCredential (P : RevocationListPort W) (now : Z) (req : RevokeCredentialRequest)
    : M RevClient RevokeCredentialResult :=
  let key := cacheKey (rq_tenantId req) (rq_tokenId req) in
  _ ← lift_res (validateTenant (rq_tenantId req));
  _ ← lift_res (validateTokenId (rq_tokenId req));
  _ ← on_local (op_delete key);
  let reason := match rq_reason req with
                | Some r => if isRevocationReason r then r else "UNSPECIFIED"
                | None => "UNSPECIFIED"
                end in
  result ← on_port "REVOCATION_CLIENT_REVOKE_FAILED"
             (port_revoke P (mkRevokeInput (rq_tenantId req) (rq_tokenId req) (rq_revokedBy req) (Some reason)
                               (rq_listId req) None));
  match result with
  | write_ok record => _ ← on_local (op_set now key true); mret (revoke_created record)
  | write_failed REVOCATION_DUPLICATE => _ ← on_local (op_set now key true); mret revoke_duplicate
  | write_failed _ => throw "REVOCATION_CLIENT_REVOKE_FAILED"
  end.

Definition listRevocations (P : RevocationListPort W) (t : string) (k l : option string) (limit offset : option Z)
    : M RevClient (list RevocationRecord * nat) :=
  _ ← lift_res (validateTenant t);
  records ← on_port "REVOCATION_CLIENT_LIST_FAILED" (port_getRevocations P (mkRevFilters t k l None None limit offset));
  mret (records, length records).

End client.
Arguments RevClient W C : clear implicits.

(** ** Keys *)

(** Tenant identifiers without a colon make keys unambiguous. *)
Definition plain (t : string) : Prop := ":"%char ∉ chars t.

Lemma cacheKey_plain t k t' k' : plain t → plain t' → cacheKey t k = cacheKey t' k' → t = t' ∧ k = k'.
Proof.
  unfold plain, cacheKey. revert t'. induction t as [|a t IH]; intros [|a' t'] Ht Ht' E; cbn in *.
  - by injection E.
  - injection E as <- _. destruct Ht'. by left.
  - injection E as -> _. destruct Ht. by left.
  - rewrite not_elem_of_cons in Ht, Ht'. injection E as -> E. destruct (IH t') as [-> ->]; naive_solver.
Qed.

Lemma cacheKey_named t k : cacheKey t k ≠ "".
Proof. unfold cacheKey. by destruct t. Qed.

(** ** The table *)

Definition rows_of (t k : string) (w : RevTable) : list RevocationRow := filter (of_token t k) w.

Lemma revoked_in_true t k w : revoked_in t k w = true ↔ ∃ row, row ∈ w ∧ of_token t k row.
Proof.
  unfold revoked_in. rewrite negb_true_iff, bool_decide_eq_false. split.
  - intros Hne. destruct (filter (of_token t k) w) as [|row rows] eqn:E; [done|]. exists row.
    assert (row ∈ filter (of_token t k) w) as []%list_elem_of_filter by (rewrite E; by left). done.
  - intros (row & Hin & Hr) E. apply (not_elem_of_nil row). rewrite <- E. by apply list_elem_of_filter.
Qed.

Lemma revoked_in_app t k w row :
  revoked_in t k (w ++ [row]) = revoked_in t k w || bool_decide (of_token t k row).
Proof.
  apply eq_true_iff_eq. rewrite orb_true_iff, !revoked_in_true, bool_decide_eq_true. split.
  - intros (r & Hr & Ho). apply elem_of_app in Hr as [Hr|Hr%list_elem_of_singleton]; [left; eauto|right; by subst].
  - intros [(r & Hr & Ho)|Ho]; [exists r|exists row]; (split; [apply elem_of_app|done]); [by left|right; by left].
Qed.

Lemma insert_ok row w w' :
  insert_revocation row w = Ok w' →
  w' = w ++ [row] ∧ 1 ≤ rv_version row ≤ INT_MAX ∧ isRevocationReason (rv_reason row) = true
  ∧ (∀ r, r ∈ w → rv_id r ≠ rv_id row) ∧ revoked_in (rv_tenant row) (rv_token row) w = false
  ∧ ∀ r, r ∈ w → of_list (rv_tenant row) (rv_list row) r → rv_version r ≠ rv_version row.
Proof.
  unfold insert_revocation. intros E. repeat break_match_hyp E. injection E as <-. reflect_bools.
  assert (∀ (f : RevocationRow → bool), existsb f w = false → ∀ r, r ∈ w → f r = false) as Hex.
  { intros f Hf r Hr%list_elem_of_In. destruct (f r) eqn:Er; [|done].
    by rewrite (proj2 (existsb_exists f w) (ex_intro _ r (conj Hr Er))) in Hf. }
  split_and!; try done; try lia.
  - intros r Hr. apply String.eqb_neq.
    match goal with X : existsb (λ r, String.eqb _ _) w = false |- _ => exact (Hex _ X r Hr) end.
  - apply not_true_iff_false. rewrite revoked_in_true. intros (r & Hr & Ho).
    match goal with X : existsb (λ r, bool_decide (of_token _ _ _)) w = false |- _ =>
      specialize (Hex _ X r Hr); by apply bool_decide_eq_false in Hex end.
  - intros r Hr Ho. match goal with X : existsb (λ r, bool_decide (of_list _ _ _) && _) w = false |- _ =>
      specialize (Hex _ X r Hr) end. cbv beta in Hex.
    rewrite bool_decide_true in Hex by done. by apply Z.eqb_neq in Hex.
Qed.

Lemma insert_fresh row w :
  revoked_in (rv_tenant row) (rv_token row) w = false → isRevocationReason (rv_reason row) = true →
  (∀ r, r ∈ w → rv_id r ≠ rv_id row) → 1 ≤ rv_version row ≤ INT_MAX →
  (∀ r, r ∈ w → of_list (rv_tenant row) (rv_list row) r → rv_version r ≠ rv_version row) →
  insert_revocation row w = Ok (w ++ [row]).
Proof.
  intros Hrev Hreason Hid Hv Hl. unfold insert_revocation. rewrite Hreason. cbn [negb].
  destruct (Z.ltb_spec INT_MAX (rv_version row)); [lia|]. destruct (Z.ltb_spec (rv_version row) 1); [lia|].
  assert (∀ (f : RevocationRow → bool), (∀ r, r ∈ w → f r = false) → existsb f w = false) as Hex.
  { intros f Hf. apply not_true_iff_false. intros (r & Hr%list_elem_of_In & Er)%existsb_exists. by rewrite Hf in Er. }
  rewrite !Hex; [done|..].
  - intros r Hr. destruct (Z.eqb_spec (rv_version r) (rv_version row)) as [E|]; [|by rewrite andb_false_r].
    rewrite bool_decide_false; [done|]. intros Ho. by apply (Hl r Hr Ho).
  - intros r Hr. apply bool_decide_eq_false. intros Ho. apply not_true_iff_false in Hrev. apply Hrev, revoked_in_true. eauto.
  - intros r Hr. by apply String.eqb_neq, Hid.
Qed.

(** The row that a call of [revoke] writes. *)
Definition revocation_row (seen1 : RevTable) (id : string) (now : Z) (input : RevocationWriteInput) : RevocationRow :=
  mkRevocationRow id (wr_tenantId input) (wr_tokenId input) (wr_revokedBy input) now
    (default "UNSPECIFIED" (wr_reason input)) (wr_listId input)
    (next_version (wr_tenantId input) (wr_listId input) seen1) (wr_payload input).

(** A call leaves the table alone, or inserts its row. *)
Lemma revoke_inv lock h seen1 seen2 id now input w r w' :
  revoke_seeing lock h seen1 seen2 id now input w = (r, w') →
  (w' = w ∧ ∀ record, r ≠ Ok (write_ok record))
  ∨ (lock = true ∧ h = healthy ∧ insert_revocation (revocation_row seen1 id now input) w = Ok w'
     ∧ r = Ok (match rowToRecord (revocation_row seen1 id now input) with
               | Ok record => write_ok record | Throw _ => write_failed REVOCATION_STORE_ERROR end)).
Proof.
  unfold revoke_seeing, revokeWithClient. intros E.
  destruct (negb (_ && _)); [injection E as <- <-; by left|].
  destruct (negb _); [injection E as <- <-; by left|].
  case_bool_decide as Hu; [injection E as <- <-; by left|].
  destruct (bool_decide (h = failing) || negb lock) eqn:Hl; [injection E as <- <-; by left|].
  apply orb_false_iff in Hl as [Hf%bool_decide_eq_false Hl%negb_false_iff].
  destruct (revoked_in _ _ seen2); [injection E as <- <-; by left|].
  fold (revocation_row seen1 id now input) in E.
  destruct (insert_revocation _ w) as [w1|constraint] eqn:Ei; [|injection E as <- <-; by left].
  right. split_and!; [done|by destruct h|..].
  - by destruct (rowToRecord _); injection E as <- <-.
  - by destruct (rowToRecord _); injection E as <- <-.
Qed.

Lemma revoke_duplicate_inv lock h seen1 seen2 id now input w w' :
  revoke_seeing lock h seen1 seen2 id now input w = (Ok (write_failed REVOCATION_DUPLICATE), w') →
  revoked_in (wr_tenantId input) (wr_tokenId input) seen2 = true.
Proof.
  unfold revoke_seeing, revokeWithClient. intros E.
  destruct (negb (_ && _)); [done|]. destruct (negb _); [done|]. case_bool_decide; [done|].
  destruct (bool_decide (h = failing) || negb lock); [done|]. destruct (revoked_in _ _ seen2); [done|].
  destruct (insert_revocation _ w); [by destruct (rowToRecord _)|]. by destruct (unique_violation _ && _).
Qed.

(** ** Versions *)

Lemma max_seqZ n : foldr Z.max 0 (seqZ 1 (Z.of_nat n)) = Z.of_nat n.
Proof.
  induction n as [|n IH]; [done|]. replace (Z.of_nat (S n)) with (Z.of_nat n + 1) by lia.
  rewrite seqZ_app, foldr_app by lia. replace (seqZ (1 + Z.of_nat n) 1) with [1 + Z.of_nat n] by (by rewrite seqZ_cons by lia).
  cbn. clear IH. assert (∀ l x, (∀ y, y ∈ l → y ≤ x) → 0 ≤ x → foldr Z.max x l = x) as Hmax.
  { induction l as [|y l IH]; intros x Hy Hx; [done|]. cbn. rewrite IH by (try done; intros; apply Hy; by right).
    pose proof (Hy y ltac:(by left)). lia. }
  rewrite Hmax; [lia|intros y [? ?]%elem_of_seqZ; lia|lia].
Qed.

(** The versions of a list are 1, 2, 3, ... in the order of the rows. *)
Definition consecutive (w : RevTable) : Prop :=
  ∀ t l, let vs := rv_version <$> filter (of_list t l) w in vs = seqZ 1 (Z.of_nat (length vs)).

Lemma filter_take {A} (P : A → Prop) `{∀ x, Decision (P x)} n (l : list A) :
  filter P (take n l) = take (length (filter P (take n l))) (filter P l).
Proof.
  rewrite <- (take_drop n l) at 3. by rewrite filter_app, take_app_length.
Qed.

Lemma next_version_prefix t l n w :
  consecutive w → next_version t l (take n w) = Z.of_nat (length (filter (of_list t l) (take n w))) + 1.
Proof.
  intros Hw. unfold next_version. f_equal. rewrite filter_take, fmap_take.
  set (m := length (filter (of_list t l) (take n w))).
  assert (m ≤ length (filter (of_list t l) w))%nat as Hm.
  { unfold m. rewrite filter_take, length_take. lia. }
  rewrite (Hw t l), length_fmap. replace (take m _) with (seqZ 1 (Z.of_nat m)); [by rewrite max_seqZ, length_take_le|].
  rewrite <- (Nat.sub_add m (length (filter (of_list t l) w))), Nat.add_comm, Nat2Z.inj_add, seqZ_app by lia.
  rewrite take_app_le by (rewrite length_seqZ; lia). rewrite take_ge; [done|]. rewrite length_seqZ. lia.
Qed.

Lemma insert_consecutive n id now input w w' :
  consecutive w → insert_revocation (revocation_row (take n w) id now input) w = Ok w' → consecutive w'.
Proof.
  intros Hw (-> & _ & _ & _ & _ & Hv)%insert_ok t l. cbn zeta. rewrite filter_app, fmap_app, length_app.
  rewrite filter_cons, filter_nil. case_decide as Ho.
  2:{ cbn [fmap list_fmap length]. rewrite app_nil_r, Nat.add_0_r. apply (Hw t l). }
  destruct Ho as [Ht Hl]. cbn in Ht, Hl. subst t l. cbn [fmap list_fmap length revocation_row rv_version].
  cbn [revocation_row rv_tenant rv_list rv_version] in Hv.
  set (t := wr_tenantId input) in *. set (l := wr_listId input) in *.
  rewrite (next_version_prefix t l n w Hw) in *. set (m := length (filter (of_list t l) (take n w))) in *.
  set (vs := rv_version <$> filter (of_list t l) w) in *.
  assert (vs = seqZ 1 (Z.of_nat (length vs))) as Evs by apply (Hw t l).
  assert (m ≤ length vs)%nat as Hm by (unfold m, vs; rewrite filter_take, length_take, length_fmap; lia).
  assert (Z.of_nat m + 1 ∉ vs) as Hn.
  { intros (r & Er & [Ho Hr]%list_elem_of_filter)%list_elem_of_fmap. by apply (Hv r Hr Ho). }
  assert (m = length vs) as ->.
  { destruct (decide (m = length vs)) as [|Hne]; [done|]. destruct Hn. rewrite Evs. apply elem_of_seqZ. lia. }
  rewrite Nat2Z.inj_add, seqZ_app by lia. rewrite <- Evs. f_equal. rewrite seqZ_cons by lia. f_equal. lia.
Qed.

(** Calls of any writers: each sees the table as it stood at earlier commits. *)
Record StoreCall : Type := mkStoreCall {
  sc_health : DbHealth;
  sc_seen1 : nat;
  sc_seen2 : nat;
  sc_id : string;
  sc_now : Z;
  sc_input : RevocationWriteInput }.

Definition store_call (lock : bool) (w : RevTable) (c : StoreCall) : RevTable :=
  (revoke_seeing lock (sc_health c) (take (sc_seen1 c) w) (take (sc_seen2 c) w) (sc_id c) (sc_now c) (sc_input c) w).2.
Definition store_calls (lock : bool) (calls : list StoreCall) (w : RevTable) : RevTable := foldl (store_call lock) w calls.

Lemma store_call_inv lock w c :
  store_call lock w c = w
  ∨ insert_revocation (revocation_row (take (sc_seen1 c) w) (sc_id c) (sc_now c) (sc_input c)) w = Ok (store_call lock w c).
Proof.
  unfold store_call. destruct (revoke_seeing _ _ _ _ _ _ _ w) as [r w'] eqn:E. cbn.
  destruct (revoke_inv _ _ _ _ _ _ _ _ _ _ E) as [[-> _]|(_ & _ & Hi & _)]; [by left|by right].
Qed.

Lemma store_call_consecutive lock w c : consecutive w → consecutive (store_call lock w c).
Proof. intros Hw. destruct (store_call_inv lock w c) as [->|Hi]; [done|]. by eapply insert_consecutive. Qed.

Lemma store_call_unique lock w c :
  NoDup ((λ r, (rv_tenant r, rv_token r)) <$> w) → NoDup (rv_id <$> w) →
  NoDup ((λ r, (rv_tenant r, rv_token r)) <$> store_call lock w c) ∧ NoDup (rv_id <$> store_call lock w c).
Proof.
  intros H1 H2. destruct (store_call_inv lock w c) as [->|(-> & _ & _ & Hid & Hrev & _)%insert_ok]; [done|].
  rewrite !fmap_app. split; apply NoDup_app; (split_and!; [done| |apply NoDup_singleton]); intros x Hx ->%list_elem_of_singleton.
  - apply list_elem_of_fmap in Hx as (r & [= E1 E2] & Hr). rewrite <- not_true_iff_false in Hrev. apply Hrev, revoked_in_true.
    exists r. done.
  - apply list_elem_of_fmap in Hx as (r & E & Hr). by apply (Hid r Hr).
Qed.

(** The version numbers of every list count its records from one, in the order
    of their commits, no token is revoked twice in a tenant and no identifier is
    used twice, however the statements of concurrent revocations interleave. *)
Theorem revocation_table_consistent lock calls :
  let w := store_calls lock calls [] in
  consecutive w ∧ NoDup ((λ r, (rv_tenant r, rv_token r)) <$> w) ∧ NoDup (rv_id <$> w).
Proof.
  unfold store_calls. induction calls as [|c calls (H1 & H2 & H3)] using rev_ind; cbn zeta.
  - split_and!; [by intros t l|apply NoDup_nil_2|apply NoDup_nil_2].
  - rewrite foldl_app. cbn [foldl]. split; [by apply store_call_consecutive|by apply store_call_unique].
Qed.

(** ** Outcomes *)

Definition valid_input (input : RevocationWriteInput) : Prop :=
  wr_tenantId input ≠ "" ∧ wr_tokenId input ≠ "" ∧ wr_revokedBy input ≠ "" ∧ wr_listId input ≠ ""
  ∧ isRevocationReason (default "UNSPECIFIED" (wr_reason input)) = true.

#[export] Instance valid_input_dec input : Decision (valid_input input).
Proof. unfold valid_input. apply _. Defined.

Definition valid_payload (input : RevocationWriteInput) : Prop :=
  match wr_payload input with
  | None | Some VNull => True
  | Some v => ∃ p, validateIssuerSignaturePayload v = Ok p
  end.

Lemma valid_input_spec input :
  negb (non_empty (wr_tenantId input) && non_empty (wr_tokenId input)
        && non_empty (wr_revokedBy input) && non_empty (wr_listId input))
  || negb (isRevocationReason (default "UNSPECIFIED" (wr_reason input))) = false ↔ valid_input input.
Proof.
  unfold valid_input, non_empty. rewrite orb_false_iff, !negb_false_iff, !andb_true_iff, !negb_true_iff, !String.eqb_neq. tauto.
Qed.

Lemma revoke_invalid lock h seen1 seen2 id now input w :
  ¬ valid_input input → revoke_seeing lock h seen1 seen2 id now input w = (Ok (write_failed REVOCATION_INVALID_PARAMS), w).
Proof.
  intros Hv. rewrite <- valid_input_spec, orb_false_iff in Hv. unfold revoke_seeing.
  destruct (negb (_ && _)); [done|]. destruct (negb _); [done|]. by destruct Hv.
Qed.

Lemma revoke_valid lock h seen1 seen2 id now input w :
  valid_input input →
  revoke_seeing lock h seen1 seen2 id now input w
  = if bool_decide (h = unreachable) then (Throw "Error", w)
    else revokeWithClient lock h seen1 seen2 id now input (default "UNSPECIFIED" (wr_reason input)) w.
Proof.
  intros Hv. apply valid_input_spec, orb_false_iff in Hv as [E1 E2]. unfold revoke_seeing. rewrite E1, E2.
  by case_bool_decide.
Qed.

Lemma rowToRecord_spec seen1 id now input :
  isRevocationReason (default "UNSPECIFIED" (wr_reason input)) = true →
  (∃ p, rowToRecord (revocation_row seen1 id now input)
        = Ok (mkRevocationRecord id (wr_tenantId input) (wr_tokenId input) (wr_revokedBy input) now
                (default "UNSPECIFIED" (wr_reason input)) (wr_listId input)
                (next_version (wr_tenantId input) (wr_listId input) seen1) p) ∧ valid_payload input)
  ∨ (∃ c, rowToRecord (revocation_row seen1 id now input) = Throw c) ∧ ¬ valid_payload input.
Proof.
  intros Hr. unfold rowToRecord, parseRevocationReason, valid_payload. cbn [revocation_row rv_reason rv_payload].
  rewrite Hr. cbn [mbind res_bind]. destruct (wr_payload input) as [v|]; [|left; by eexists].
  destruct (validateIssuerSignaturePayload v) as [p|c] eqn:Ev.
  - destruct v; left; first [by eexists; split | rewrite ?Ev; eexists; split; [done|by exists p]].
  - destruct v; first [by left; eexists; split | right; rewrite ?Ev; split; [by eexists|by intros [? ?]]].
Qed.

(** A revocation on a database that is up, alone and accepts the version query:
    bad parameters and tokens already revoked are reported and change nothing;
    otherwise the token is revoked with the next version of its list.  When the
    signature payload is malformed the record is committed all the same, and the
    call reports a store error. *)
Theorem revoke_outcome id now input w :
  let t := wr_tenantId input in let k := wr_tokenId input in let l := wr_listId input in
  let n := Z.of_nat (length (filter (of_list t l) w)) + 1 in
  consecutive w → (∀ r, r ∈ w → rv_id r ≠ id) → n ≤ INT_MAX →
  ∃ r w', store_revoke true healthy id now input w = (Ok r, w') ∧
    ((¬ valid_input input ∧ r = write_failed REVOCATION_INVALID_PARAMS ∧ w' = w)
     ∨ (valid_input input ∧ revoked_in t k w = true ∧ r = write_failed REVOCATION_DUPLICATE ∧ w' = w)
     ∨ (valid_input input ∧ revoked_in t k w = false ∧ revoked_in t k w' = true
        ∧ (∃ row, w' = w ++ [row] ∧ rv_version row = n)
        ∧ ((valid_payload input ∧ ∃ record, r = write_ok record ∧ rr_listVersion record = n)
           ∨ (¬ valid_payload input ∧ r = write_failed REVOCATION_STORE_ERROR)))).
Proof.
  intros t k l n Hw Hid Hn. unfold store_revoke.
  assert (next_version t l w = n) as En.
  { rewrite <- (firstn_all w) at 1. rewrite (next_version_prefix t l (length w) w Hw). unfold n. by rewrite firstn_all. }
  destruct (decide (valid_input input)) as [Hv|Hv].
  2:{ rewrite revoke_invalid by done. do 2 eexists. split; [done|]. by left. }
  rewrite revoke_valid by done. rewrite bool_decide_false by done. unfold revokeWithClient.
  rewrite bool_decide_false by done. cbn [orb negb].
  destruct (revoked_in (wr_tenantId input) (wr_tokenId input) w) eqn:Hr.
  { do 2 eexists. split; [done|]. right. by left. }
  fold (revocation_row w id now input). pose proof Hv as (_ & _ & _ & _ & Hreason).
  rewrite (insert_fresh (revocation_row w id now input) w); [|exact Hr|exact Hreason|exact Hid|..].
  2:{ cbn [revocation_row rv_version]. fold t l. rewrite En. split; [unfold n|]; lia. }
  2:{ cbn [revocation_row rv_version rv_tenant rv_list]. fold t l. rewrite En. intros r Hin Ho. 
      assert (rv_version r ∈ rv_version <$> filter (of_list t l) w) as Hv' by (apply list_elem_of_fmap_2, list_elem_of_filter; done).
      rewrite (Hw t l), length_fmap in Hv'. apply elem_of_seqZ in Hv'. unfold n. lia. }
  assert (revoked_in t k (w ++ [revocation_row w id now input]) = true) as Hr'.
  { rewrite revoked_in_app. cbn. rewrite (bool_decide_true (of_token _ _ _)) by done. by rewrite orb_true_r. }
  destruct (rowToRecord_spec w id now input Hreason) as [(p & -> & Hp)|[[c ->] Hp]];
    do 2 eexists; (split; [done|]); right; right; split_and!; try done; try (by eexists).
  - left. split; [done|]. eexists. split; [done|]. exact En.
  - by right.
Qed.

(** A server that refuses [FOR UPDATE] on a query with an aggregate, as
    PostgreSQL documents that it does, fails the version query of every
    revocation: valid requests are answered with a store error, and no token is
    ever revoked. *)
Theorem revocations_refused calls h seen1 seen2 id now input w :
  (valid_input input → h ≠ unreachable →
   revoke_seeing false h seen1 seen2 id now input w = (Ok (write_failed REVOCATION_STORE_ERROR), w))
  ∧ store_calls false calls [] = [].
Proof.
  split.
  - intros Hv Hh. rewrite revoke_valid by done. rewrite bool_decide_false by done. unfold revokeWithClient.
    by rewrite orb_true_r.
  - unfold store_calls. induction calls as [|c calls IH] using rev_ind; [done|]. rewrite foldl_app, IH. cbn [foldl].
    unfold store_call. destruct (revoke_seeing _ _ _ _ _ _ _ []) as [r w'] eqn:E. cbn.
    by destruct (revoke_inv _ _ _ _ _ _ _ _ _ _ E) as [[-> _]|(? & _)].
Qed.

(** ** The API run one call at a time *)

Inductive ApiCall : Type :=
| call_revoke (h : DbHealth) (id : string) (dbNow now : Z) (input : RevocationWriteInput)
| call_check (h : DbHealth) (now1 now2 : Z) (t k : string)
| call_drop (t k : string)
| call_drop_tenant (t : string).

Section api_laws.
Context {C : Type} `{LruLaws C}.
Variable lock : bool.
Variable ttl : Z.

Definition api_call (s : RevApi C) (c : ApiCall) : RevApi C :=
  match c with
  | call_revoke h id dbNow now input => (api_revoke lock h id dbNow now input s).2
  | call_check h now1 now2 t k => (api_isRevoked h now1 now2 t k s).2
  | call_drop t k => (invalidateCacheToken t k s).2
  | call_drop_tenant t => (invalidateCacheTenant t s).2
  end.
Definition api_run (calls : list ApiCall) (s : RevApi C) : RevApi C := foldl api_call s calls.

(** The tenants of the calls have plain names. *)
Definition plain_call (c : ApiCall) : Prop :=
  match c with
  | call_revoke _ _ _ _ input => plain (wr_tenantId input)
  | call_check _ _ _ t _ | call_drop t _ | call_drop_tenant t => plain t
  end.

(** Every cached answer agrees with the table. *)
Definition agrees (w : RevTable) (c : C) : Prop :=
  all_cached ttl (λ key b _, ∃ t k, key = cacheKey t k ∧ plain t ∧ b = revoked_in t k w) c.

Lemma agrees_set w c now t k : agrees w c → plain t → agrees w (lc_step (op_set now (cacheKey t k) (revoked_in t k w)) c).2.
Proof. intros Hc Ht. apply cached_set; [done|apply cacheKey_named|]. by exists t, k. Qed.

(** After the key of a token is dropped, revoking the token is not noticed. *)
Lemma agrees_insert w c row :
  agrees w c → plain (rv_tenant row) → agrees (w ++ [row]) (lc_step (op_delete (cacheKey (rv_tenant row) (rv_token row))) c).2.
Proof.
  intros Hc Ht. eapply cached_mono; [|by apply cached_delete]. intros key b e (Hk & t & k & -> & Hp & ->).
  exists t, k. split_and!; [done|done|]. rewrite revoked_in_app, bool_decide_false; [by rewrite orb_false_r|].
  intros [<- <-]. by apply Hk.
Qed.

Lemma agrees_delete w c key : agrees w c → agrees w (lc_step (op_delete key) c).2.
Proof. intros Hc. eapply cached_mono; [|by apply cached_delete]. naive_solver. Qed.

Lemma isRevoked_spec h now1 now2 t k s r s' :
  agrees (ra_table s) (ra_cache s) → plain t → api_isRevoked h now1 now2 t k s = (r, s') →
  ra_table s' = ra_table s ∧ agrees (ra_table s') (ra_cache s')
  ∧ (r = Ok (revoked_in t k (ra_table s)) ∨ h ≠ healthy ∧ ∃ c, r = Throw c).
Proof.
  intros Hc Ht. unfold api_isRevoked, check_cache, check_query, check_fill, on_cache, mbind, M_bind.
  destruct (cached_get ttl _ now1 (cacheKey t k) (ra_cache s) Hc) as [Hc' Hhit].
  destruct (lc_step (op_get now1 (cacheKey t k)) (ra_cache s)) as [[b|] c']; cbn in Hc', Hhit.
  - intros [= <- <-]. destruct (Hhit b eq_refl) as (e & (t' & k' & Hk & Hp & ->) & _).
    apply cacheKey_plain in Hk as [<- <-]; [|done|done]. split_and!; [done|done|by left].
  - unfold on_table, store_isRevoked. cbn [ra_table ra_cache]. case_bool_decide as Hh.
    + pose proof (agrees_set _ _ now2 t k Hc' Ht) as Hc''.
      cbn. destruct (lc_step (op_set now2 _ _) c') as [x c''] eqn:E. cbn. intros [= <- <-]. split_and!; [done|done|by left].
    + intros [= <- <-]. split_and!; [done|done|]. right. split; [done|by eexists].
Qed.

Lemma revoke_spec h id dbNow now input s r s' :
  agrees (ra_table s) (ra_cache s) → plain (wr_tenantId input) → api_revoke lock h id dbNow now input s = (r, s') →
  agrees (ra_table s') (ra_cache s')
  ∧ (ra_table s' = ra_table s
     ∨ ∃ row, ra_table s' = ra_table s ++ [row] ∧ of_token (wr_tenantId input) (wr_tokenId input) row)
  ∧ ((∃ record, r = Ok (write_ok record)) ∨ r = Ok (write_failed REVOCATION_DUPLICATE) →
     revoked_in (wr_tenantId input) (wr_tokenId input) (ra_table s') = true).
Proof.
  intros Hc Ht. unfold api_revoke, revoke_drop, revoke_finish, on_cache, on_table, mbind, M_bind.
  set (key := cacheKey (wr_tenantId input) (wr_tokenId input)).
  pose proof (agrees_delete _ _ key Hc) as Hd. pose proof (agrees_insert (ra_table s) (ra_cache s)) as Hi.
  destruct (lc_step (op_delete key) (ra_cache s)) as [x c'] eqn:E. unfold mret, M_ret. cbn [ra_table ra_cache] in *. unfold store_revoke.
  destruct (revoke_seeing _ _ _ _ _ _ _ (ra_table s)) as [r0 w'] eqn:Er.
  destruct (revoke_inv _ _ _ _ _ _ _ _ _ _ Er) as [[-> Hno]|(_ & _ & (-> & _)%insert_ok & ->)].
  - assert (r0 = Ok (write_failed REVOCATION_DUPLICATE) →
            revoked_in (wr_tenantId input) (wr_tokenId input) (ra_table s) = true) as Hdup
      by (intros ->; by apply revoke_duplicate_inv in Er).
    destruct r0 as [[record|code]|c0]; [by destruct (Hno record)|..]; intros [= <- <-]; cbn; split_and!; try done; try by left.
    + intros [[record [=]]|?]; auto.
    + intros [[record [=]]|[=]].
  - specialize (Hi (revocation_row (ra_table s) id dbNow input) Hc Ht). cbn [revocation_row rv_tenant rv_token] in Hi.
    fold key in Hi. rewrite E in Hi. cbn in Hi.
    assert (revoked_in (wr_tenantId input) (wr_tokenId input) (ra_table s ++ [revocation_row (ra_table s) id dbNow input]) = true) as Hr.
    { rewrite revoked_in_app. cbn. rewrite (bool_decide_true (of_token _ _ _)) by done. by rewrite orb_true_r. }
    destruct (rowToRecord _) as [record|c]; cbn.
    + pose proof (agrees_set _ _ now (wr_tenantId input) (wr_tokenId input) Hi Ht) as Hs. rewrite Hr in Hs. fold key in Hs.
      destruct (lc_step (op_set now key true) c') as [y c'']. intros [= <- <-]. cbn. split_and!; [done|right; by eexists|done].
    + intros [= <- <-]. cbn. split_and!; [done|right; by eexists|done].
Qed.

Lemma call_agrees s c :
  plain_call c → agrees (ra_table s) (ra_cache s) →
  agrees (ra_table (api_call s c)) (ra_cache (api_call s c))
  ∧ ∃ rows, ra_table (api_call s c) = ra_table s ++ rows.
Proof.
  intros Hp Hc. destruct c as [h id dbNow now input|h now1 now2 t k|t k|t]; cbn [api_call plain_call] in *.
  - destruct (api_revoke _ _ _ _ _ _ s) as [r s'] eqn:E. cbn.
    destruct (revoke_spec _ _ _ _ _ _ _ _ Hc Hp E) as (Hc' & [Et|(row & Et & _)] & _); (split; [done|]); rewrite Et.
    + exists []. by rewrite app_nil_r.
    + by eexists.
  - destruct (api_isRevoked _ _ _ _ _ s) as [r s'] eqn:E. cbn.
    destruct (isRevoked_spec _ _ _ _ _ _ _ _ Hc Hp E) as (Et & Hc' & _). split; [done|]. exists []. by rewrite Et, app_nil_r.
  - unfold invalidateCacheToken, on_cache, mbind, M_bind.
    pose proof (agrees_delete _ _ (cacheKey t k) Hc) as Hd. destruct (lc_step _ (ra_cache s)) as [x c'].
    split; [done|]. exists []. by rewrite app_nil_r.
  - unfold invalidateCacheTenant, on_cache, mbind, M_bind.
    pose proof (cached_clear ttl _ (t +:+ ":") _ Hc) as Hd. destruct (lc_step _ (ra_cache s)) as [x c'].
    split; [exact Hd|]. exists []. by rewrite app_nil_r.
Qed.

Lemma run_agrees calls s :
  Forall plain_call calls → agrees (ra_table s) (ra_cache s) →
  agrees (ra_table (api_run calls s)) (ra_cache (api_run calls s))
  ∧ ∃ rows, ra_table (api_run calls s) = ra_table s ++ rows.
Proof.
  intros Hp. revert s. induction Hp as [|c calls Hc _ IH]; intros s Hs; cbn.
  - split; [done|]. exists []. by rewrite app_nil_r.
  - destruct (call_agrees s c Hc Hs) as (Hs' & rows & Er). destruct (IH _ Hs') as (Hs'' & rows' & Er').
    split; [done|]. exists (rows ++ rows'). by rewrite app_assoc, <- Er.
Qed.

Lemma revoked_in_grows t k w rows : revoked_in t k w = true → revoked_in t k (w ++ rows) = true.
Proof. rewrite !revoked_in_true. intros (r & Hr & Ho). exists r. split; [apply elem_of_app; by left|done]. Qed.

(** Over one process whose calls do not overlap the cache is invisible: the API
    answers exactly whether the table holds a revocation of the token, or fails
    because the database does. *)
Theorem isRevoked_exact calls w c h now1 now2 t k r s' :
  lc_empty ttl c → Forall plain_call calls → plain t →
  api_isRevoked h now1 now2 t k (api_run calls (mkRevApi w c)) = (r, s') →
  r = Ok (revoked_in t k (ra_table (api_run calls (mkRevApi w c)))) ∨ (h ≠ healthy ∧ ∃ code, r = Throw code).
Proof.
  intros Hc Hp Ht E. destruct (run_agrees calls (mkRevApi w c) Hp) as [Hs _]; [by apply cached_new|].
  by destruct (isRevoked_spec _ _ _ _ _ _ _ _ Hs Ht E) as (_ & _ & ?).
Qed.

(** After a revocation succeeded, and whatever calls follow, its token is
    reported revoked. *)
Lemma revoked_reported calls1 calls2 w c h1 id dbNow now input record s1 h now1 now2 b s' :
  lc_empty ttl c → Forall plain_call calls1 → Forall plain_call calls2 → plain (wr_tenantId input) →
  api_revoke lock h1 id dbNow now input (api_run calls1 (mkRevApi w c)) = (Ok (write_ok record), s1) →
  api_isRevoked h now1 now2 (wr_tenantId input) (wr_tokenId input) (api_run calls2 s1) = (Ok b, s') → b = true.
Proof.
  intros Hc Hp1 Hp2 Ht E1 E2. destruct (run_agrees calls1 (mkRevApi w c) Hp1) as [Hs _]; [by apply cached_new|].
  destruct (revoke_spec _ _ _ _ _ _ _ _ Hs Ht E1) as (Hs1 & _ & Hr). specialize (Hr (or_introl (ex_intro _ record eq_refl))).
  destruct (run_agrees calls2 s1 Hp2 Hs1) as (Hs2 & rows & Er).
  destruct (isRevoked_spec _ _ _ _ _ _ _ _ Hs2 Ht E2) as (_ & _ & [[= ->]|(_ & c' & [=])]).
  rewrite Er. by apply revoked_in_grows.
Qed.

End api_laws.

(** ** Overlapping calls and several processes *)

Section concurrent.
Context {C : Type} `{LruLaws C}.
Variable lock : bool.
(** The time to live, and the longest time between the database answering a
    check and the backfill of the cache. *)
Variables ttl delay : Z.

(** A call of the API that is suspended: a check that found nothing in the cache,
    or that has the answer of the database, read at the given time; a revocation
    that dropped the cached answer, or that has the result of the store. *)
Inductive Suspended : Type :=
| asked (t k : string)
| answered (t k : string) (b : bool) (at_ : Z)
| dropped (input : RevocationWriteInput)
| written (input : RevocationWriteInput) (result : RevocationWriteResult).

(** One process with its API and its suspended calls.  [rp_log] records when each
    row of the table was committed, which the table does not: [revoked_at] is the
    start of the transaction, by the clock of the database. *)
Record RevProcess : Type := mkRevProcess {
  rp_now : Z;
  rp_api : RevApi C;
  rp_calls : list Suspended;
  rp_log : list (RevocationRow * Z) }.

Definition stamp (now : Z) (rows : RevTable) : list (RevocationRow * Z) := (λ row, (row, now)) <$> rows.

(** The process after one part of a call: the rows that the table gained are
    logged with the time. *)
Definition after (s : RevProcess) (api : RevApi C) (calls : list Suspended) : RevProcess :=
  mkRevProcess (rp_now s) api calls
    (rp_log s ++ stamp (rp_now s) (drop (length (ra_table (rp_api s))) (ra_table api))).

(** The parts of the calls of a process, in any order, and the commits of other
    processes; the label is an answer that a check gives.  The table that the
    queries of a revocation see, the id and the [revoked_at] of its row are
    arbitrary. *)
Inductive rev_step : RevProcess → option (string * string * bool) → RevProcess → Prop :=
| rs_tick now' s : rp_now s ≤ now' →
    rev_step s None (mkRevProcess now' (rp_api s) (rp_calls s) (rp_log s))
| rs_hit t k b api' s : plain t → check_cache (rp_now s) t k (rp_api s) = (Ok (Some b), api') →
    rev_step s (Some (t, k, b)) (after s api' (rp_calls s))
| rs_miss t k api' s : plain t → check_cache (rp_now s) t k (rp_api s) = (Ok None, api') →
    rev_step s None (after s api' (asked t k :: rp_calls s))
| rs_query h t k r api' cs1 cs2 s : rp_calls s = cs1 ++ asked t k :: cs2 → check_query h t k (rp_api s) = (r, api') →
    rev_step s None (after s api' (cs1 ++ match r with Ok b => [answered t k b (rp_now s)] | Throw _ => [] end ++ cs2))
| rs_fill t k b b' at_ api' cs1 cs2 s : rp_calls s = cs1 ++ answered t k b at_ :: cs2 → rp_now s ≤ at_ + delay →
    check_fill (rp_now s) t k b (rp_api s) = (Ok b', api') →
    rev_step s (Some (t, k, b')) (after s api' (cs1 ++ cs2))
| rs_drop input u api' s : plain (wr_tenantId input) → revoke_drop input (rp_api s) = (u, api') →
    rev_step s None (after s api' (dropped input :: rp_calls s))
| rs_write h seen1 seen2 id dbNow input r api' cs1 cs2 s : rp_calls s = cs1 ++ dropped input :: cs2 →
    on_table (revoke_seeing lock h seen1 seen2 id dbNow input) (rp_api s) = (r, api') →
    rev_step s None (after s api' (cs1 ++ match r with Ok result => [written input result] | Throw _ => [] end ++ cs2))
| rs_finish input result r api' cs1 cs2 s : rp_calls s = cs1 ++ written input result :: cs2 →
    revoke_finish (rp_now s) input result (rp_api s) = (r, api') →
    rev_step s None (after s api' (cs1 ++ cs2))
| rs_elsewhere h seen1 seen2 id dbNow input r api' s :
    on_table (revoke_seeing lock h seen1 seen2 id dbNow input) (rp_api s) = (r, api') →
    rev_step s None (after s api' (rp_calls s))
| rs_invalidate t k u api' s :
    invalidateCacheToken t k (rp_api s) = (u, api') ∨ invalidateCacheTenant t (rp_api s) = (u, api') →
    rev_step s None (after s api' (rp_calls s)).

(** From the start of the process; what is in the table by then counts as
    committed then. *)
Inductive rev_reach (w : RevTable) (c : C) (now : Z) : RevProcess → Prop :=
| rr_start : rev_reach w c now (mkRevProcess now (mkRevApi w c) [] (stamp now w))
| rr_step s a s' : rev_reach w c now s → rev_step s a s' → rev_reach w c now s'.

(** [b] was true of the token, or no revocation of it was committed before
    [from]. *)
Definition was (log : list (RevocationRow * Z)) (t k : string) (b : bool) (from : Z) : Prop :=
  if b then revoked_in t k log.*1 = true else ∀ row at_, (row, at_) ∈ log → of_token t k row → from ≤ at_.

Definition call_inv (now : Z) (log : list (RevocationRow * Z)) (x : Suspended) : Prop :=
  match x with
  | asked t _ => plain t
  | answered t k b at_ => plain t ∧ at_ ≤ now ∧ was log t k b at_
  | dropped input => plain (wr_tenantId input)
  | written input result => plain (wr_tenantId input)
      ∧ ∀ record, result = write_ok record → revoked_in (wr_tenantId input) (wr_tokenId input) log.*1 = true
  end.

Definition cache_inv (now : Z) (log : list (RevocationRow * Z)) (c : C) : Prop :=
  all_cached ttl (λ key b e, ∃ t k, key = cacheKey t k ∧ plain t ∧ e ≤ now + ttl ∧ was log t k b (e - ttl - delay)) c.

Record rev_inv (s : RevProcess) : Prop := mkRevInv {
  ri_table : (rp_log s).*1 = ra_table (rp_api s);
  ri_past : ∀ row at_, (row, at_) ∈ rp_log s → at_ ≤ rp_now s;
  ri_calls : Forall (call_inv (rp_now s) (rp_log s)) (rp_calls s);
  ri_cached : cache_inv (rp_now s) (rp_log s) (ra_cache (rp_api s)) }.

Lemma was_app log t k b from now rows : was log t k b from → from ≤ now → was (log ++ stamp now rows) t k b from.
Proof.
  unfold was, stamp. destruct b; [intros ? _; rewrite fmap_app; by apply revoked_in_grows|].
  intros Hw Hr row at_ [Hin|Hin]%elem_of_app Ho; [by eapply Hw|].
  apply list_elem_of_fmap in Hin as (? & [= -> ->] & _). done.
Qed.

Lemma was_read (log : list (RevocationRow * Z)) t k now : was log t k (revoked_in t k log.*1) now.
Proof.
  unfold was. pose proof (revoked_in_true t k log.*1) as Hk. destruct (revoked_in t k log.*1); [done|].
  intros row at_ Hin Ho. enough (false = true) by done. apply Hk. exists row. split; [|done].
  apply list_elem_of_fmap. by exists (row, at_).
Qed.

(** Time passes and rows are committed. *)
Lemma call_inv_later now now' log rows x :
  now ≤ now' → call_inv now log x → call_inv now' (log ++ stamp now rows) x.
Proof.
  intros Hn. destruct x as [t k|t k b at_|input|input result]; cbn [call_inv]; try done.
  - intros (? & ? & ?). split_and!; [done|lia|]. by apply was_app.
  - intros [? Hr]. split; [done|]. intros record E. rewrite fmap_app. by eapply revoked_in_grows, Hr.
Qed.
Lemma cache_inv_later now now' log rows c :
  0 ≤ delay → now ≤ now' → cache_inv now log c → cache_inv now' (log ++ stamp now rows) c.
Proof.
  intros Hd Hn Hc. eapply cached_mono; [|exact Hc]. intros key b e (t & k & ? & ? & ? & ?).
  exists t, k. split_and!; [done|done|lia|]. apply was_app; [done|lia].
Qed.
Lemma stamp_nil (now : Z) (w : RevTable) log : log ++ stamp now (drop (length w) w) = log.
Proof. rewrite drop_all. apply app_nil_r. Qed.

(** A part of a call that only works on the cache. *)
Lemma after_cache s c' cs' :
  rev_inv s → Forall (call_inv (rp_now s) (rp_log s)) cs' → cache_inv (rp_now s) (rp_log s) c' →
  rev_inv (after s (mkRevApi (ra_table (rp_api s)) c') cs').
Proof.
  intros [Ht Hp _ _] Hcs Hc. unfold after. cbn [ra_table]. rewrite stamp_nil. by split.
Qed.

(** A commit, of this process or of another. *)
Lemma after_commit h seen1 seen2 id dbNow input r api' cs' s :
  0 ≤ delay → rev_inv s → on_table (revoke_seeing lock h seen1 seen2 id dbNow input) (rp_api s) = (r, api') →
  (∀ log, (log).*1 = ra_table api' → (∀ x, x ∈ rp_calls s → call_inv (rp_now s) log x) →
     (∀ record, r = Ok (write_ok record) → revoked_in (wr_tenantId input) (wr_tokenId input) log.*1 = true) →
     Forall (call_inv (rp_now s) log) cs') →
  rev_inv (after s api' cs').
Proof.
  intros Hd [Ht Hp Hcs Hc] E Hnew. unfold on_table in E.
  destruct (revoke_seeing _ _ _ _ _ _ _ (ra_table (rp_api s))) as [r0 w'] eqn:Er. injection E as -> <-.
  assert (∃ rows, w' = ra_table (rp_api s) ++ rows
    ∧ (∀ record, r = Ok (write_ok record) → revoked_in (wr_tenantId input) (wr_tokenId input) w' = true)) as (rows & -> & Hrev).
  { destruct (revoke_inv _ _ _ _ _ _ _ _ _ _ Er) as [[-> Hno]|(_ & _ & (-> & _)%insert_ok & _)].
    - exists []. split; [by rewrite app_nil_r|]. intros record Hr. by destruct (Hno record).
    - eexists. split; [done|]. intros _ _. rewrite revoked_in_app. cbn.
      rewrite (bool_decide_true (of_token _ _ _)) by done. by rewrite orb_true_r. }
  unfold after. cbn [ra_table]. rewrite drop_app_length.
  assert ((rp_log s ++ stamp (rp_now s) rows).*1 = ra_table (rp_api s) ++ rows) as Hlog.
  { rewrite fmap_app, Ht. f_equal. unfold stamp. rewrite <- list_fmap_compose. apply list_fmap_id. }
  split; cbn [rp_log rp_api rp_now rp_calls ra_table ra_cache].
  - done.
  - intros row at_ [Hin|Hin]%elem_of_app; [by eapply Hp|]. apply list_elem_of_fmap in Hin as (? & [= -> ->] & _). done.
  - apply Hnew; [done| |by rewrite Hlog]. intros x Hx. apply call_inv_later; [done|]. rewrite Forall_forall in Hcs. by apply Hcs.
  - by apply cache_inv_later.
Qed.

Lemma query_keeps h t k (a a' : RevApi C) r : check_query h t k a = (r, a') →
  a' = a ∧ ∀ b, r = Ok b → b = revoked_in t k (ra_table a).
Proof.
  unfold check_query, on_table, store_isRevoked. destruct a as [w c]. cbn.
  case_bool_decide; intros [= <- <-]; split; try done. by intros b [= <-].
Qed.

Lemma rev_step_inv s a s' : 0 ≤ delay → rev_inv s → rev_step s a s' → rev_inv s'.
Proof.
  intros Hd Hs Hstep. pose proof Hs as [Ht Hp Hcs Hc].
  destruct Hstep as [now' s Hn|t k b api' s Hpl E|t k api' s Hpl E|h t k r api' cs1 cs2 s Ecs E|t k b b' at_ api' cs1 cs2 s Ecs Hn E
    |input u api' s Hpl E|h seen1 seen2 id dbNow input r api' cs1 cs2 s Ecs E|input result r api' cs1 cs2 s Ecs E
    |h seen1 seen2 id dbNow input r api' s E|t k u api' s E].
  - split; cbn [rp_now rp_api rp_calls rp_log].
    + done.
    + intros row at_ Hin. specialize (Hp row at_ Hin). lia.
    + eapply Forall_impl; [exact Hcs|]. intros x Hx. apply (call_inv_later _ now' _ []) in Hx; [|done].
      unfold stamp in Hx. cbn in Hx. by rewrite app_nil_r in Hx.
    + apply (cache_inv_later _ now' _ []) in Hc; [|done|done]. unfold stamp in Hc. cbn in Hc. by rewrite app_nil_r in Hc.
  - unfold check_cache, on_cache in E. destruct (cached_get ttl _ (rp_now s) (cacheKey t k) _ Hc) as [Hc' _].
    destruct (lc_step _ _) as [o c'] eqn:El. injection E as -> <-. by apply after_cache.
  - unfold check_cache, on_cache in E. destruct (cached_get ttl _ (rp_now s) (cacheKey t k) _ Hc) as [Hc' _].
    destruct (lc_step _ _) as [o c'] eqn:El. injection E as -> <-. apply after_cache; [done|by constructor|done].
  - rewrite Ecs in Hcs. apply Forall_app in Hcs as [H1 [Hpl H2]%Forall_cons]. apply query_keeps in E as [-> Hr].
    destruct (rp_api s) as [w c] eqn:Ea. rewrite <- Ea in *. replace (rp_api s) with (mkRevApi (ra_table (rp_api s)) (ra_cache (rp_api s))) at 1 by (by destruct (rp_api s)).
    apply after_cache; [done| |done]. apply Forall_app. split; [done|]. destruct r as [b|]; [|done]. constructor; [|done].
    cbn [call_inv]. split_and!; [done|lia|]. rewrite (Hr b eq_refl), <- Ht. apply was_read.
  - rewrite Ecs in Hcs. apply Forall_app in Hcs as [H1 [(Hpl & Ha & Hb) H2]%Forall_cons].
    unfold check_fill, on_cache, mbind, M_bind in E.
    assert (cache_inv (rp_now s) (rp_log s) (lc_step (op_set (rp_now s) (cacheKey t k) b) (ra_cache (rp_api s))).2) as Hc'.
    { apply cached_set; [done|apply cacheKey_named|]. exists t, k. split_and!; [done|done|lia|].
      unfold was in *. destruct b; [done|]. intros row at' Hrow Ho. specialize (Hb row at' Hrow Ho). lia. }
    destruct (lc_step _ _) as [o c']. injection E as _ <-. apply after_cache; [done|by apply Forall_app|done].
  - unfold revoke_drop, on_cache, mbind, M_bind in E.
    assert (cache_inv (rp_now s) (rp_log s)
      (lc_step (op_delete (cacheKey (wr_tenantId input) (wr_tokenId input))) (ra_cache (rp_api s))).2) as Hc'
      by (eapply cached_mono; [|by apply cached_delete]; naive_solver).
    destruct (lc_step _ _) as [o c']. injection E as _ <-. apply after_cache; [done|by constructor|done].
  - eapply after_commit; [done|done|exact E|]. intros log _ Hall Hrev.
    assert (Forall (call_inv (rp_now s) log) (cs1 ++ dropped input :: cs2)) as [H1 [Hpl H2]%Forall_cons]%Forall_app
      by (rewrite <- Ecs; by apply Forall_forall).
    apply Forall_app. split; [done|]. destruct r as [result|]; [|done]. constructor; [|done]. split; [done|].
    intros record ->. by eapply Hrev.
  - rewrite Ecs in Hcs. apply Forall_app in Hcs as [H1 [[Hpl Hrev] H2]%Forall_cons].
    unfold revoke_finish, on_cache, mbind, M_bind in E. destruct result as [record|code].
    + assert (cache_inv (rp_now s) (rp_log s)
        (lc_step (op_set (rp_now s) (cacheKey (wr_tenantId input) (wr_tokenId input)) true) (ra_cache (rp_api s))).2) as Hc'.
      { apply cached_set; [done|apply cacheKey_named|]. do 2 eexists. split_and!; [done|done|lia|]. by eapply Hrev. }
      destruct (lc_step _ _) as [o c']. injection E as _ <-. apply after_cache; [done|by apply Forall_app|done].
    + injection E as _ <-. replace (rp_api s) with (mkRevApi (ra_table (rp_api s)) (ra_cache (rp_api s))) at 1 by (by destruct (rp_api s)).
      apply after_cache; [done|by apply Forall_app|done].
  - eapply after_commit; [done|done|exact E|]. intros log _ Hall _. by apply Forall_forall.
  - unfold invalidateCacheToken, invalidateCacheTenant, on_cache, mbind, M_bind in E.
    destruct E as [E|E]; [assert (cache_inv (rp_now s) (rp_log s) (lc_step (op_delete (cacheKey t k)) (ra_cache (rp_api s))).2) as Hc'
      by (eapply cached_mono; [|by apply cached_delete]; naive_solver)
      |assert (cache_inv (rp_now s) (rp_log s) (lc_step (op_clear (t +:+ ":")) (ra_cache (rp_api s))).2) as Hc' by (by apply cached_clear)];
      destruct (lc_step _ _) as [o c']; injection E as _ <-; by apply after_cache.
Qed.

(** C9.  However the parts of the calls of a process are interleaved with each
    other and with commits of other processes: a check reports a token revoked
    only if it is, and one that reports it valid does so at most [ttl] and
    [delay] after any revocation of it was committed (what was in the table when
    the process started counts as committed then).  Here [delay] bounds the time
    from the reading of the database by a check to its filling of the cache,
    time does not go back, the cache starts empty, and the tenants have names
    without a colon (with one, keys collide and the claim fails:
    [cross_tenant_collision]). *)
Theorem revocation_takes_effect w c now s t k b s' :
  0 ≤ ttl → 0 ≤ delay → lc_empty ttl c → rev_reach w c now s → rev_step s (Some (t, k, b)) s' →
  if b then revoked_in t k (ra_table (rp_api s)) = true
  else ∀ i row, ra_table (rp_api s) !! i = Some row → of_token t k row →
         ∃ committed, rp_log s !! i = Some (row, committed) ∧ rp_now s ≤ committed + ttl + delay.
Proof.
  intros Htl Hd Hc Hreach Hstep.
  assert (rev_inv s) as [Ht _ Hcs Hcache].
  { clear Hstep. induction Hreach as [|s0 a s1 _ IH Hs]; [|by eapply rev_step_inv].
    split; cbn [rp_now rp_api rp_calls rp_log ra_table ra_cache]; [|..|by apply cached_new].
    - unfold stamp. rewrite <- list_fmap_compose. apply list_fmap_id.
    - intros row at_ Hin. apply list_elem_of_fmap in Hin as (? & [= -> ->] & _). done.
    - constructor. }
  assert (∀ from, rp_now s ≤ from + ttl + delay → was (rp_log s) t k b from →
    if b then revoked_in t k (ra_table (rp_api s)) = true
    else ∀ i row, ra_table (rp_api s) !! i = Some row → of_token t k row →
           ∃ committed, rp_log s !! i = Some (row, committed) ∧ rp_now s ≤ committed + ttl + delay) as Hgoal.
  { intros from Hf Hb. unfold was in Hb. rewrite <- Ht. destruct b; [done|]. intros i row Hi Ho.
    rewrite list_lookup_fmap in Hi. destruct (rp_log s !! i) as [[row' at_]|] eqn:Ei; [|done]. injection Hi as ->.
    exists at_. split; [done|]. specialize (Hb row at_ (list_elem_of_lookup_2 _ _ _ Ei) Ho). lia. }
  inversion Hstep as [|? ? ? ? ? Hpl E| | |? ? b0 ? at_ ? cs1 cs2 ? Ecs Hn E| | | | |]; subst.
  - unfold check_cache, on_cache in E. destruct (cached_get ttl _ (rp_now s) (cacheKey t k) _ Hcache) as [_ Hhit].
    destruct (lc_step _ _) as [o c']. injection E as -> _.
    destruct (Hhit b eq_refl) as (e & (t' & k' & Hk & Hp & _ & Hb) & He).
    apply cacheKey_plain in Hk as [<- <-]; [|done|done]. apply (Hgoal (e - ttl - delay)); [lia|done].
  - rewrite Ecs in Hcs. apply Forall_app in Hcs as [_ [(_ & _ & Hb) _]%Forall_cons].
    unfold check_fill, on_cache, mbind, M_bind in E. destruct (lc_step _ _) as [o c']. injection E as <- _.
    apply (Hgoal at_); [lia|done].
Qed.

End concurrent.

(** ** The client over the API *)

Section client_laws.
Context {C1 C2 : Type} {I1 : LruImpl C1} {L1 : LruLaws C1} {I2 : LruImpl C2} {L2 : LruLaws C2}.
Variable lock : bool.
Variables ttl1 ttl2 : Z.

(** The API as the port of a client, with the readings of one call. *)
Definition api_port (h : DbHealth) (id : string) (dbNow now1 now2 : Z) : RevocationListPort (RevApi C1) :=
  mkRevPort (api_isRevoked h now1 now2) (api_revoke lock h id dbNow now2) (λ f, on_table (getRevocations h f)).

Inductive ClientCall : Type :=
| client_check (h : DbHealth) (a1 a2 now1 now2 : Z) (t k : string)
| client_revoke (h : DbHealth) (id : string) (dbNow a2 now : Z) (req : RevokeCredentialRequest)
| client_drop (t k : string)
| client_drop_tenant (t : string).

Definition client_call (s : RevClient (RevApi C1) C2) (c : ClientCall) : RevClient (RevApi C1) C2 :=
  match c with
  | client_check h a1 a2 now1 now2 t k => (checkRevoked (api_port h "" 0 a1 a2) now1 now2 t k s).2
  | client_revoke h id dbNow a2 now req => (revokeCredential (api_port h id dbNow 0 a2) now req s).2
  | client_drop t k => (on_local (op_delete (cacheKey t k)) s).2
  | client_drop_tenant t => (on_local (op_clear (t +:+ ":")) s).2
  end.
Definition client_run (calls : list ClientCall) (s : RevClient (RevApi C1) C2) : RevClient (RevApi C1) C2 :=
  foldl client_call s calls.

Definition plain_client_call (c : ClientCall) : Prop :=
  match c with
  | client_check _ _ _ _ _ t _ | client_drop t _ | client_drop_tenant t => plain t
  | client_revoke _ _ _ _ _ req => plain (rq_tenantId req)
  end.

Definition client_agrees (s : RevClient (RevApi C1) C2) : Prop :=
  agrees ttl1 (ra_table (rl_world s)) (ra_cache (rl_world s)) ∧ agrees ttl2 (ra_table (rl_world s)) (rl_cache s).

Lemma checkRevoked_spec h a1 a2 now1 now2 t k s r s' :
  client_agrees s → plain t → checkRevoked (api_port h "" 0 a1 a2) now1 now2 t k s = (r, s') →
  client_agrees s' ∧ ra_table (rl_world s') = ra_table (rl_world s)
  ∧ ((∃ hit, r = Ok (revoked_in t k (ra_table (rl_world s)), hit))
     ∨ ∃ code, r = Throw code ∧ (blank t = true ∨ blank k = true ∨ h ≠ healthy)).
Proof.
  intros [H1 H2] Ht. unfold checkRevoked, validateTenant, validateTokenId, check, lift_res, on_local, on_port, mbind, M_bind.
  destruct (blank t) eqn:Eb; cbn [negb].
  { intros [= <- <-]. split_and!; [done|done|]. right. eexists. eauto. }
  destruct (blank k) eqn:Ek; cbn [negb mret res_ret].
  { intros [= <- <-]. split_and!; [done|done|]. right. eexists. eauto. }
  destruct (cached_get ttl2 _ now1 (cacheKey t k) (rl_cache s) H2) as [Hc' Hhit].
  destruct (lc_step (op_get now1 (cacheKey t k)) (rl_cache s)) as [[b|] c']; cbn in Hc', Hhit |- *.
  - intros [= <- <-]. destruct (Hhit b eq_refl) as (e & (t' & k' & Hk & Hp & ->) & _).
    apply cacheKey_plain in Hk as [<- <-]; [|done|done]. split_and!; [done|done|left; by eexists].
  - cbn [api_port port_isRevoked rl_world rl_cache].
    destruct (api_isRevoked h a1 a2 t k (rl_world s)) as [r0 s0] eqn:E.
    destruct (isRevoked_spec ttl1 _ _ _ _ _ _ _ _ H1 Ht E) as (Et & H1' & Hr).
    destruct Hr as [->|(Hh & c & ->)].
    + cbn [rl_world rl_cache].
      pose proof (agrees_set ttl2 (ra_table (rl_world s)) c' now2 t k Hc' Ht) as H2'.
      destruct (lc_step (op_set now2 _ _) c') as [x c'']. intros [= <- <-]. cbn [rl_world rl_cache] in *.
      split_and!; [split; cbn; [done|by rewrite Et]|done|left; by eexists].
    + intros [= <- <-]. split_and!; [split; cbn; [done|by rewrite Et]|done|]. right. eexists. eauto.
Qed.

Lemma client_insert (w w' : RevTable) (c : C2) t k :
  agrees ttl2 w c → plain t → (w' = w ∨ ∃ row, w' = w ++ [row] ∧ of_token t k row) →
  agrees ttl2 w' (lc_step (op_delete (cacheKey t k)) c).2.
Proof.
  intros Hc Ht [->|(row & -> & [<- <-])]; [by apply agrees_delete|by apply agrees_insert].
Qed.

Lemma revokeCredential_spec h id dbNow a2 now req s r s' :
  client_agrees s → plain (rq_tenantId req) → revokeCredential (api_port h id dbNow 0 a2) now req s = (r, s') →
  client_agrees s'
  ∧ ∀ x, r = Ok x → revoked_in (rq_tenantId req) (rq_tokenId req) (ra_table (rl_world s')) = true.
Proof.
  intros [H1 H2] Ht. unfold revokeCredential, validateTenant, validateTokenId, check, lift_res, on_local, on_port, mbind, M_bind.
  destruct (blank (rq_tenantId req)); cbn [negb]; [by intros [= <- <-]|].
  destruct (blank (rq_tokenId req)); cbn [negb mret res_ret]; [by intros [= <- <-]|].
  set (key := cacheKey _ _).
  pose proof (client_insert (ra_table (rl_world s))) as Hins.
  destruct (lc_step (op_delete key) (rl_cache s)) as [x c'] eqn:Ec. cbn [api_port port_revoke rl_world rl_cache]. set (input := mkRevokeInput _ _ _ _ _ _).
  destruct (api_revoke lock h id dbNow a2 input (rl_world s)) as [r0 s0] eqn:E.
  destruct (revoke_spec lock ttl1 h id dbNow a2 input _ _ _ H1 Ht E) as (H1' & Hrow & Hrev).
  specialize (Hins (ra_table s0) (rl_cache s) (rq_tenantId req) (rq_tokenId req) H2 Ht Hrow).
  fold key in Hins. rewrite Ec in Hins. cbn in Hins.
  assert (∀ c0 y, revoked_in (rq_tenantId req) (rq_tokenId req) (ra_table s0) = true →
    lc_step (op_set now key true) c' = (y, c0) → client_agrees (mkRevClient s0 c0)) as Hset.
  { intros c0 y Hk E0. split; cbn; [done|].
    pose proof (agrees_set ttl2 (ra_table s0) c' now (rq_tenantId req) (rq_tokenId req) Hins Ht) as Hs.
    rewrite Hk in Hs. fold key in Hs. by rewrite E0 in Hs. }
  destruct r0 as [[record|code]|c0]; cbn.
  - specialize (Hrev (or_introl (ex_intro _ record eq_refl))). destruct (lc_step (op_set now key true) c') as [y c0] eqn:E0.
    intros [= <- <-]. split; [by eapply Hset|done].
  - destruct code; cbn; try (intros [= <- <-]; by split).
    specialize (Hrev (or_intror eq_refl)). destruct (lc_step (op_set now key true) c') as [y c0] eqn:E0.
    intros [= <- <-]. split; [by eapply Hset|done].
  - intros [= <- <-]. by split.
Qed.

Lemma client_call_agrees s c : plain_client_call c → client_agrees s → client_agrees (client_call s c).
Proof.
  intros Hp Hs. destruct c as [h a1 a2 now1 now2 t k|h id dbNow a2 now req|t k|t]; cbn [client_call plain_client_call] in *.
  - destruct (checkRevoked _ _ _ _ _ s) as [r s'] eqn:E. exact (proj1 (checkRevoked_spec _ _ _ _ _ _ _ _ _ _ Hs Hp E)).
  - destruct (revokeCredential _ _ _ s) as [r s'] eqn:E. exact (proj1 (revokeCredential_spec _ _ _ _ _ _ _ _ _ Hs Hp E)).
  - destruct Hs as [H1 H2]. unfold on_local. pose proof (agrees_delete ttl2 _ _ (cacheKey t k) H2).
    by destruct (lc_step _ (rl_cache s)).
  - destruct Hs as [H1 H2]. unfold on_local. pose proof (cached_clear ttl2 _ (t +:+ ":") _ H2).
    by destruct (lc_step _ (rl_cache s)).
Qed.

(** A client over the API that makes all the revocations and whose calls do not
    overlap answers exactly what the table says; when it cannot, because the
    request is malformed or the database failed, it throws and never reports a
    token valid. *)
Theorem checkRevoked_exact calls w c1 c2 h a1 a2 now1 now2 t k r s' :
  lc_empty ttl1 c1 → lc_empty ttl2 c2 → Forall plain_client_call calls → plain t →
  let s := client_run calls (mkRevClient (mkRevApi w c1) c2) in
  checkRevoked (api_port h "" 0 a1 a2) now1 now2 t k s = (r, s') →
  (∃ hit, r = Ok (revoked_in t k (ra_table (rl_world s)), hit))
  ∨ ∃ code, r = Throw code ∧ (blank t = true ∨ blank k = true ∨ h ≠ healthy).
Proof.
  intros H1 H2 Hp Ht s E.
  assert (client_agrees s) as Hs.
  { assert (client_agrees (mkRevClient (mkRevApi w c1) c2)) as H0 by (by split; apply cached_new).
    unfold s. clear E. revert H0. generalize (mkRevClient (mkRevApi w c1) c2) as s0.
    induction Hp as [|c calls Hc _ IH]; intros s0 H0; [done|]. by apply IH, client_call_agrees. }
  by destruct (checkRevoked_spec _ _ _ _ _ _ _ _ _ _ Hs Ht E) as (_ & _ & ?).
Qed.

End client_laws.

(** ** The guard over the API *)

(** Once a revocation through the API has succeeded, a guard whose revocation
    checker is the API, in any later state of it, never grants an action on the
    authority of that token. *)
Theorem revoked_token_denied {C : Type} `{LruLaws C} `{Primitives} `{Intl} {W : Type} (g : RuntimeGuard W)
    lock ttl calls1 calls2 w0 c0 h1 id dbNow now input record s1 h now1 now2 uuids action p agentDid requested w r w' :
  lc_empty ttl c0 → Forall plain_call calls1 → Forall plain_call calls2 → plain (wr_tenantId input) →
  api_revoke lock h1 id dbNow now input (api_run lock calls1 (mkRevApi w0 c0)) = (Ok (write_ok record), s1) →
  (∀ tok, (api_isRevoked h now1 now2 (wr_tenantId input) tok (api_run lock calls2 s1)).1 = Ok (revocationChecker g tok)) →
  guard_check g uuids action p agentDid requested w = (Ok r, w') → g_allowed r = true →
  g_tokenId r ≠ Some (wr_tokenId input).
Proof.
  intros Hc Hp1 Hp2 Ht Erev Hchk Eg Ha Etok.
  destruct (guard_check_allowed _ _ _ _ _ _ _ _ _ Eg Ha) as (tok & depth & wt & _ & _ & Hg & Htok & _).
  rewrite Htok in Etok. injection Etok as Eid. pose proof (grants_live _ _ _ _ _ _ _ _ _ Hg) as Hlive. rewrite Eid in Hlive.
  specialize (Hchk (wr_tokenId input)). rewrite Hlive in Hchk.
  destruct (api_isRevoked h now1 now2 _ _ _) as [r0 s'] eqn:E. cbn in Hchk. subst r0.
  pose proof (revoked_reported lock ttl _ _ _ _ _ _ _ _ _ _ _ _ _ _ _ _ Hc Hp1 Hp2 Ht Erev E). done.
Qed.
