(* ===== verification/RevocationExamples.v ===== *)
(** * Concrete revocations

    The caches at work, revocations over the table and the API with a linked
    cache, a client with a Map cache over it, and a guard that asks the API: the
    values at which the theorems of LruCache.v and Revocation.v are applied, and
    the runs that show three defects. *)
From S2P Require Import Prelude JsValue Time Encoding Crypto ToyPrimitives Authorization SignedPayload LruCache.
From S2P Require Import ScopeEvaluator Attenuation CapabilityToken Delegation Examples ActionRecords ActionRecorder LedgerExamples.
From S2P Require Import RuntimeGuard PolicyExamples Revocation.

(** ** Caches *)

(** Two entries fit: "a" is used again, so that "c" drives out "b"; at time 31
    what was set at 0 has expired. *)
Definition sample_ops : list (CacheOp bool) :=
  [op_set 0 "a" true; op_set 0 "b" false; op_get 1 "a"; op_set 2 "c" true; op_get 3 "b"; op_get 4 "a";
   op_get 31 "a"; op_get 32 "c"; op_clear "c"; op_get 32 "c"].

Definition small_cache : LruTtlCache bool := mkCache 2 30 [] None None.

Example linked_answers :
  (run_ops linked_step sample_ops small_cache).1
  = [None; None; Some true; None; None; Some true; None; Some true; None; None].
Proof. vm_compute. reflexivity. Qed.

Lemma linked_cache_refines_lru_witness :
  (run_ops linked_step sample_ops small_cache).1 = (run_ops (lru_step 2 30) sample_ops []).1
  ∧ linked (run_ops linked_step sample_ops small_cache).2 (run_ops (lru_step 2 30) sample_ops []).2
  ∧ Z.of_nat (cache_size (run_ops linked_step sample_ops small_cache).2) ≤ 2.
Proof.
  apply (linked_cache_refines_lru 2 30 small_cache sample_ops); [reflexivity|].
  intros now v. unfold sample_ops. rewrite !not_elem_of_cons. split_and!; try discriminate. apply not_elem_of_nil.
Defined.

Lemma map_cache_refines_lru_witness :
  (run_ops map_step sample_ops (mkMapCache 2 30 [])).1 = (run_ops (lru_step 2 30) sample_ops []).1
  ∧ mc_cache (run_ops map_step sample_ops (mkMapCache 2 30 [])).2 = reverse (run_ops (lru_step 2 30) sample_ops []).2
  ∧ Z.of_nat (length (mc_cache (run_ops map_step sample_ops (mkMapCache 2 30 [])).2)) ≤ 2.
Proof. apply (map_cache_refines_lru 2 30 sample_ops). lia. Defined.

(** ** The store *)

Definition rx_input (t k : string) (payload : option value) : RevocationWriteInput :=
  mkRevokeInput t k "did:agent:admin" (Some "KEY_COMPROMISE") "list" payload.

Definition rx_table : RevTable := Eval vm_compute in (store_revoke true healthy "id-1" 5 (rx_input "t" "k1" None) []).2.

Lemma rx_table_consecutive : consecutive rx_table.
Proof.
  apply (store_call_consecutive true [] (mkStoreCall healthy 0 0 "id-1" 5 (rx_input "t" "k1" None))). by intros t l.
Qed.

Lemma revoke_outcome_witness :
  ∃ r w', store_revoke true healthy "id-2" 9 (rx_input "t" "k2" None) rx_table = (Ok r, w')
          ∧ revoked_in "t" "k2" w' = true ∧ ∃ record, r = write_ok record ∧ rr_listVersion record = 2.
Proof.
  destruct (revoke_outcome "id-2" 9 (rx_input "t" "k2" None) rx_table rx_table_consecutive) as (r & w' & E & H).
  - intros r Hr. apply list_elem_of_singleton in Hr as ->. discriminate.
  - vm_compute. discriminate.
  - exists r, w'. split; [exact E|]. destruct H as [(Hv & _)|[(_ & Hr & _)|(_ & _ & Hr & _ & H)]].
    + exfalso. apply Hv. split_and!; try discriminate. vm_compute. reflexivity.
    + vm_compute in Hr. discriminate Hr.
    + split; [exact Hr|]. destruct H as [[_ H]|[Hp _]]; [exact H|]. exfalso. apply Hp. exact I.
Defined.

Lemma revocations_refused_witness :
  revoke_seeing false healthy rx_table rx_table "id-2" 9 (rx_input "t" "k2" None) rx_table
  = (Ok (write_failed REVOCATION_STORE_ERROR), rx_table).
Proof.
  apply (revocations_refused [] healthy rx_table rx_table "id-2" 9 (rx_input "t" "k2" None) rx_table).
  - split_and!; try discriminate. vm_compute. reflexivity.
  - discriminate.
Defined.

(** A record whose payload is malformed is committed, while the call reports
    that the store failed; the record can then not be read back. *)
Theorem malformed_payload_committed :
  let '(r, w) := store_revoke true healthy "id-3" 9 (rx_input "t" "k3" (Some (VObj [("listVersion", VNum (Fin 0))]))) [] in
  r = Ok (write_failed REVOCATION_STORE_ERROR) ∧ revoked_in "t" "k3" w = true
  ∧ (getRevocation healthy "t" "k3" w).1 = Throw "Error".
Proof. vm_compute. done. Qed.

(** ** The API *)

Definition rx_cache : LruTtlCache bool := mkCache 10000 30000 [] None None.

Lemma rx_cache_empty : lc_empty 30000 rx_cache.
Proof. exists 10000. reflexivity. Qed.

Lemma plain_t : plain "t".
Proof. unfold plain. cbn. rewrite not_elem_of_cons. split; [discriminate|apply not_elem_of_nil]. Qed.

Definition rx_calls : list ApiCall :=
  [call_check healthy 10 11 "t" "k1"; call_revoke healthy "id-1" 12 12 (rx_input "t" "k1" None); call_check healthy 13 13 "t" "k2"].

Lemma rx_calls_plain : Forall plain_call rx_calls.
Proof. repeat constructor; exact plain_t. Qed.

Lemma isRevoked_exact_witness :
  (api_isRevoked unreachable 20 20 "t" "k1" (api_run true rx_calls (mkRevApi [] rx_cache))).1 = Ok true.
Proof.
  destruct (api_isRevoked unreachable 20 20 "t" "k1" (api_run true rx_calls (mkRevApi [] rx_cache))) as [r s'] eqn:E.
  destruct (isRevoked_exact true 30000 rx_calls [] rx_cache unreachable 20 20 "t" "k1" r s' rx_cache_empty rx_calls_plain plain_t E)
    as [->|[_ [code ->]]].
  - vm_compute. reflexivity.
  - vm_compute in E. discriminate E.
Defined.

(** ** Overlapping calls *)

(** A check reads the database before a revocation and fills the cache after it.
    The transaction of the revocation started at 2, by the clock of the database. *)
Definition rx_k1 : RevocationWriteInput := rx_input "t" "k1" None.
Definition race0 : RevProcess (C := LruTtlCache bool) := mkRevProcess 5 (mkRevApi [] rx_cache) [] [].
Definition race1 : RevProcess := after race0 (mkRevApi [] rx_cache) [asked "t" "k1"].
Definition race2 : RevProcess := after race1 (mkRevApi [] rx_cache) [answered "t" "k1" false 5].
Definition race3 : RevProcess := after race2 (mkRevApi [] rx_cache) [dropped rx_k1; answered "t" "k1" false 5].
Definition race_wrote : res RevocationWriteResult * RevApi (LruTtlCache bool) :=
  Eval vm_compute in on_table (revoke_seeing true healthy [] [] "id-1" 2 rx_k1) (rp_api race3).
Definition race_result : RevocationWriteResult :=
  Eval vm_compute in match race_wrote.1 with Ok r => r | Throw _ => write_failed REVOCATION_STORE_ERROR end.
Definition race4 : RevProcess := after race3 race_wrote.2 [written rx_k1 race_result; answered "t" "k1" false 5].
Definition race5 : RevProcess := after race4 (revoke_finish 5 rx_k1 race_result (rp_api race4)).2 [answered "t" "k1" false 5].
Definition race6 : RevProcess := after race5 (check_fill 5 "t" "k1" false (rp_api race5)).2 [].
Definition race7 : RevProcess := mkRevProcess 29000 (rp_api race6) [] (rp_log race6).
Definition race8 : RevProcess := after race7 (check_cache 29000 "t" "k1" (rp_api race7)).2 [].

Lemma race_reached : rev_reach true 0 [] rx_cache 5 race7.
Proof.
  eapply rr_step; [|apply (rs_tick true 0 29000 race6); vm_compute; discriminate].
  eapply rr_step; [|apply (rs_fill true 0 "t" "k1" false false 5 _ [] [] race5); [reflexivity|vm_compute; discriminate|vm_compute; reflexivity]].
  eapply rr_step; [|apply (rs_finish true 0 rx_k1 race_result (Ok race_result) _ [] [answered "t" "k1" false 5] race4);
                    [reflexivity|vm_compute; reflexivity]].
  eapply rr_step; [|apply (rs_write true 0 healthy [] [] "id-1" 2 rx_k1 (Ok race_result) _ [] [answered "t" "k1" false 5] race3);
                    [reflexivity|vm_compute; reflexivity]].
  eapply rr_step; [|apply (rs_drop true 0 rx_k1 (Ok tt) _ race2); [exact plain_t|vm_compute; reflexivity]].
  eapply rr_step; [|apply (rs_query true 0 healthy "t" "k1" (Ok false) _ [] [] race1); [reflexivity|vm_compute; reflexivity]].
  eapply rr_step; [|apply (rs_miss true 0 "t" "k1" _ race0); [exact plain_t|vm_compute; reflexivity]].
  apply rr_start.
Qed.

Lemma race_answer : rev_step true 0 race7 (Some ("t", "k1", false)) race8.
Proof. apply (rs_hit true 0 "t" "k1" false _ race7); [exact plain_t|vm_compute; reflexivity]. Qed.

(** The revoked token is then reported valid for as long as the entry lives. *)
Theorem stale_answer_after_revocation :
  ∃ s s', rev_reach true 0 [] rx_cache 5 s ∧ revoked_in "t" "k1" (ra_table (rp_api s)) = true
          ∧ rev_step true 0 s (Some ("t", "k1", false)) s'.
Proof. exists race7, race8. split; [exact race_reached|]. split; [vm_compute; reflexivity|exact race_answer]. Qed.

(** The row says 2, it was committed at 5, and the answer comes at 29000. *)
Lemma revocation_takes_effect_witness :
  ∃ row, ra_table (rp_api race7) = [row] ∧ rv_at row = 2
    ∧ ∃ committed, rp_log race7 !! 0%nat = Some (row, committed) ∧ 29000 ≤ committed + 30000 + 0.
Proof.
  destruct (ra_table (rp_api race7)) as [|row rows] eqn:E; [vm_compute in E; discriminate E|].
  assert (rows = [] ∧ rv_at row = 2 ∧ of_token "t" "k1" row) as (-> & Ha & Ht)
    by (vm_compute in E; injection E as <- <-; split; [reflexivity|]; split; [reflexivity|split; reflexivity]).
  exists row. split; [reflexivity|]. split; [exact Ha|].
  apply (revocation_takes_effect true 30000 0 [] rx_cache 5 race7 "t" "k1" false race8).
  - lia.
  - lia.
  - exact rx_cache_empty.
  - exact race_reached.
  - exact race_answer.
  - rewrite E. reflexivity.
  - exact Ht.
Defined.

(** ** Colliding keys *)

(** The token "b:c" of the tenant "a" and the token "c" of the tenant "a:b" share
    a key: a check of one answers for the other, here that a revoked token is
    valid. *)
Theorem cross_tenant_collision :
  let s := api_run true [call_revoke healthy "id-1" 0 0 (rx_input "a:b" "c" None); call_drop "a:b" "c";
                         call_check healthy 1 1 "a" "b:c"] (mkRevApi [] rx_cache) in
  revoked_in "a:b" "c" (ra_table s) = true ∧ (api_isRevoked healthy 2 2 "a:b" "c" s).1 = Ok false.
Proof. vm_compute. done. Qed.

(** ** The client and the guard *)

Definition rx_client : RevClient (RevApi (LruTtlCache bool)) MapCache :=
  mkRevClient (mkRevApi [] rx_cache) (mkMapCache 100 60000 []).

Definition rx_client_calls : list ClientCall :=
  [client_check healthy 1 1 1 1 "t" "k1";
   client_revoke healthy "id-1" 2 2 2 (mkRevokeRequest "t" "k1" "did:agent:admin" None "list")].

Lemma checkRevoked_exact_witness :
  (checkRevoked (api_port true healthy "" 0 3 3) 3 3 "t" "k1" (client_run true rx_client_calls rx_client)).1 = Ok (true, true).
Proof.
  destruct (checkRevoked (api_port true healthy "" 0 3 3) 3 3 "t" "k1" (client_run true rx_client_calls rx_client)) as [r s'] eqn:E.
  destruct (checkRevoked_exact true 30000 60000 rx_client_calls [] rx_cache (mkMapCache 100 60000 []) healthy 3 3 3 3
    "t" "k1" r s' rx_cache_empty) as [[hit ->]|(code & -> & _)].
  - exists 100. split; [lia|reflexivity].
  - repeat constructor; exact plain_t.
  - exact plain_t.
  - exact E.
  - vm_compute in E. injection E as <- _. reflexivity.
  - vm_compute in E. discriminate E.
Defined.

Definition rx_revoked : RevApi (LruTtlCache bool) :=
  (api_revoke true healthy "id-9" 7 7 (rx_input "t" "urn:cap:other" None) (mkRevApi [] rx_cache)).2.

(** The guard of PolicyExamples.v, asking the API. *)
Definition rx_guard : RuntimeGuard Db :=
  mkRuntimeGuard (getTokensForAgent example_guard) (getToken example_guard)
    (λ tok, match (api_isRevoked healthy 8 8 "t" tok rx_revoked).1 with Ok b => b | Throw _ => true end)
    (rg_scopeEvaluator example_guard) (rg_now example_guard) (delegationChainValidator example_guard)
    (rg_resolvePublicKeys example_guard).

Lemma healthy_answers {C} `{LruImpl C} now1 now2 t k (s : RevApi C) :
  ∃ b, (api_isRevoked healthy now1 now2 t k s).1 = Ok b.
Proof.
  unfold api_isRevoked, check_cache, check_query, check_fill, on_cache, on_table, store_isRevoked, mbind, M_bind. destruct (lc_step _ (ra_cache s)) as [[b|] c'].
  - by exists b.
  - rewrite bool_decide_true by done. cbn. destruct (lc_step _ c'). by eexists.
Qed.

Lemma revoked_token_denied_witness : is_Some (g_tokenId allowed_run) ∧ g_tokenId allowed_run ≠ Some "urn:cap:other".
Proof.
  split; [vm_compute; eexists; reflexivity|].
  destruct (api_revoke true healthy "id-9" 7 7 (rx_input "t" "urn:cap:other" None) (mkRevApi [] rx_cache)) as [r1 s1] eqn:E.
  destruct r1 as [[record|code]|code]; [|vm_compute in E; discriminate E|vm_compute in E; discriminate E].
  apply (revoked_token_denied rx_guard true 30000 [] [] [] rx_cache healthy "id-9" 7 7 (rx_input "t" "urn:cap:other" None)
           record s1 healthy 8 8 no_uuid "CONFIRM" sample_request (agent "c") (Some (ct_id hop2_token)) ledger0 allowed_run ledger0
           rx_cache_empty).
  - constructor.
  - constructor.
  - exact plain_t.
  - exact E.
  - intros tok. cbn [api_run foldl rx_guard revocationChecker wr_tenantId rx_input]. unfold rx_revoked. rewrite E.
    destruct (healthy_answers 8 8 "t" tok s1) as [b Hb]. cbn [snd]. rewrite Hb. reflexivity.
  - vm_compute. reflexivity.
  - reflexivity.
Defined.
