(* ===== verification/HashChain.v ===== *)
(** * Canonical hash chains

    Models packages/crypto/src/hash-chain-canonicalize: the canonical form of
    payloads and chain identities, the preimage of an entry, appending and
    verifying, with the factories of packages/types/src/hash-chain-canonicalize
    and the schema hash-chain-entry-v0.2.schema.json.  Entries and options are
    values of their TypeScript types, so the checks against null and other types
    are not branches of the model.  The parser of JSON is a parameter. *)
From S2P Require Import Prelude JsValue Time Encoding Crypto Authorization SignedPayload Multisig.

(** ** Data *)

Record ChainIdentity : Type := mkChainIdentity {
  chainNamespace : string;
  id_tenantId : option string;
  id_auditClass : option string }.

Record HashChainEntry : Type := mkHashChainEntry {
  entryId : string;
  canonicalPayload : string;
  canonicalPayloadHash : string;
  previousHash : string;
  chainPosition : Z;
  chainIdentity : ChainIdentity;
  he_timestamp : string;
  hccVersion : string }.

Definition GENESIS_PREVIOUS_HASH : string := str (replicate 64 "0"%char).
Definition HCC_SUPPORTED_VERSIONS : list string := ["2.0.0"].
Definition HCC_VERSION_CURRENT : string := "2.0.0".

(** ** Factories *)

Definition toChainIdentityJcs (s : string) : res string :=
  _ ← check (negb (Nat.ltb (String.length s) 2)) "HC_SCHEMA_VIOLATION";
  _ ← check (negb (String.eqb s "__NULL__")) "HC_CHAIN_IDENTITY_PREIMAGE_FAILED";
  mret s.

Definition lower (s : string) : string := str (to_lower <$> chars s).

Definition toHashChainEntryId (s : string) : res string :=
  _ ← check (UUID_V4_PATTERN s) "HC_SCHEMA_VIOLATION"; mret (lower s).

Definition toCanonicalPayloadHash (s : string) : res string := _ ← check (hex64 s) "HC_SCHEMA_VIOLATION"; mret s.
Definition toPreviousHash (s : string) : res string :=
  _ ← check (hex64 (lower s)) "HC_SCHEMA_VIOLATION"; mret (lower s).

Definition toChainPosition (n : Z) : res Z :=
  _ ← check ((0 <=? n) && (n <=? MAX_SAFE_INTEGER)) "HC_SCHEMA_VIOLATION"; mret n.

Definition toHccVersionString (s : string) : res string :=
  _ ← check (semver_schema s) "HC_SCHEMA_VIOLATION";
  _ ← check (bool_decide (s ∈ HCC_SUPPORTED_VERSIONS)) "HC_SCHEMA_VIOLATION";
  mret s.

(** ** The schema *)

Definition validateHashChainEntrySchema `{Formats} (e : HashChainEntry) : bool :=
  format_uuid (entryId e) && uuid_v4 (entryId e)
  && Nat.leb 2 (String.length (canonicalPayload e))
  && hex64 (canonicalPayloadHash e) && hex64 (previousHash e)
  && (0 <=? chainPosition e)
  && non_empty (chainNamespace (chainIdentity e))
  && match id_tenantId (chainIdentity e) with Some t => format_uuid t | None => true end
  && match id_auditClass (chainIdentity e) with Some c => bool_decide (c ∈ ["L1"; "L2"; "L3"]) | None => true end
  && format_date_time (he_timestamp e) && String.eqb (hccVersion e) "2.0.0".

(** ** Canonical form *)

(** [JSON.parse], and [None] when it throws. *)
Class JsonText : Type := { parse_json : string → option value }.

(** The members that are given; the serializer sorts them. *)
Definition identity_fields (i : ChainIdentity) : object :=
  match id_auditClass i with Some c => [("auditClass", VStr c)] | None => [] end
  ++ [("chainNamespace", VStr (chainNamespace i))]
  ++ match id_tenantId i with Some t => [("tenantId", VStr t)] | None => [] end.

Section chain.
Context `{Primitives} `{Formats} `{JsonText}.

Definition canonicalizeChainIdentity (i : ChainIdentity) : res string :=
  _ ← check (non_empty (chainNamespace i)) "HC_SCHEMA_VIOLATION";
  _ ← check (negb (String.eqb (chainNamespace i) "__NULL__")) "HC_SCHEMA_VIOLATION";
  _ ← when_given (id_tenantId i) (λ t, check (non_empty t) "HC_SCHEMA_VIOLATION");
  _ ← when_given (id_auditClass i) (λ c, check (non_empty c) "HC_SCHEMA_VIOLATION");
  mret (jcs (VObj (identity_fields i))).

Definition canonicalizeHashChainEntryToString (payload : object) : res string :=
  _ ← check (assertSerializable (VObj payload)) "HC_CANONICALIZE_FAILED";
  mret (jcs (VObj payload)).

Definition canonicalizeHashChainEntry (payload : object) : res bytes :=
  s ← canonicalizeHashChainEntryToString payload; mret (textEncode s).

Definition concatPreimage (payload identityJcs : string) : bytes := textEncode payload ++ textEncode identityJcs.

Definition computeCanonicalPayloadHashHex (preimage : bytes) : res string :=
  let digest := sha256 preimage in
  _ ← check (Nat.eqb (length digest) 32) "HC_HASH_MISMATCH";
  mret (toHex digest).

Definition recomputeCanonicalPayloadHash (e : HashChainEntry) : res string :=
  identityJcs ← canonicalizeChainIdentity (chainIdentity e);
  computeCanonicalPayloadHashHex (concatPreimage (canonicalPayload e) identityJcs).

Definition assertCanonicalPayloadIsCanonical (e : HashChainEntry) : res unit :=
  match parse_json (canonicalPayload e) with
  | None => Throw "HC_CANONICALIZE_FAILED"
  | Some parsed => check (String.eqb (jcs parsed) (canonicalPayload e)) "HC_CHAIN_IDENTITY_PREIMAGE_FAILED"
  end.

Definition assertCanonicalPayloadHashConsistent (e : HashChainEntry) : res unit :=
  _ ← assertCanonicalPayloadIsCanonical e;
  expectedHashHex ← recomputeCanonicalPayloadHash e;
  check (String.eqb (canonicalPayloadHash e) expectedHashHex) "HC_CHAIN_IDENTITY_PREIMAGE_FAILED".

(** ** Appending *)

Definition appendHashChainEntry (payload : object) (identity : ChainIdentity) (lastEntry : option HashChainEntry)
    (uuid now : string) : res HashChainEntry :=
  _ ← match lastEntry with
      | Some last =>
          lastJcs ← canonicalizeChainIdentity (chainIdentity last);
          newJcs ← canonicalizeChainIdentity identity;
          check (String.eqb lastJcs newJcs) "HC_SCHEMA_VIOLATION"
      | None => mret tt
      end;
  canonicalPayload ← canonicalizeHashChainEntryToString payload;
  identityRaw ← canonicalizeChainIdentity identity;
  identityJcs ← toChainIdentityJcs identityRaw;
  hashHex ← computeCanonicalPayloadHashHex (concatPreimage canonicalPayload identityJcs);
  payloadHash ← toCanonicalPayloadHash hashHex;
  previous ← match lastEntry with
             | None => toPreviousHash GENESIS_PREVIOUS_HASH
             | Some last =>
                 _ ← check (non_empty (canonicalPayloadHash last)) "HC_SCHEMA_VIOLATION";
                 toPreviousHash (canonicalPayloadHash last)
             end;
  nextPosition ← match lastEntry with
                 | None => mret 0
                 | Some last =>
                     _ ← check (Z.abs (chainPosition last + 1) <=? MAX_SAFE_INTEGER) "HC_SCHEMA_VIOLATION";
                     mret (chainPosition last + 1)
                 end;
  position ← toChainPosition nextPosition;
  id ← toHashChainEntryId uuid;
  version ← toHccVersionString HCC_VERSION_CURRENT;
  let entry := mkHashChainEntry id canonicalPayload payloadHash previous position identity now version in
  _ ← check (validateHashChainEntrySchema entry) "HC_SCHEMA_VIOLATION";
  mret entry.

(** ** Verifying *)

Record Checkpoint : Type := mkCheckpoint {
  requireNonEmpty : bool;
  expectedEntryCount : option nat;
  expectedLastChainPosition : option Z;
  expectedLastCanonicalPayloadHash : option string }.

Record VerifyHashChainOptions : Type := mkHccOptions {
  expectedChainIdentity : option ChainIdentity;
  checkpoint : option Checkpoint }.

Definition check_genesis (genesis : HashChainEntry) : res unit :=
  _ ← check (validateHashChainEntrySchema genesis) "HC_SCHEMA_VIOLATION";
  _ ← check (chainPosition genesis =? 0) "HC_CHAIN_POSITION_NONMONOTONIC";
  _ ← check (String.eqb (previousHash genesis) GENESIS_PREVIOUS_HASH) "HC_PREVIOUS_HASH_BROKEN";
  check (String.eqb (hccVersion genesis) HCC_VERSION_CURRENT) "HC_CHAIN_IDENTITY_SCHEMA_BREAKING".

(** Step 2: the loop over neighbours. *)
Fixpoint check_links (previous : HashChainEntry) (entries : list HashChainEntry) : res unit :=
  match entries with
  | [] => mret tt
  | current :: rest =>
      _ ← check (validateHashChainEntrySchema current) "HC_SCHEMA_VIOLATION";
      _ ← check (chainPosition current =? chainPosition previous + 1) "HC_CHAIN_POSITION_NONMONOTONIC";
      _ ← check (String.eqb (previousHash current) (canonicalPayloadHash previous)) "HC_PREVIOUS_HASH_BROKEN";
      _ ← check (String.eqb (hccVersion current) HCC_VERSION_CURRENT) "HC_CHAIN_IDENTITY_SCHEMA_BREAKING";
      check_links current rest
  end.

(** Step 3: the loop over hashes and identities. *)
Fixpoint check_preimages (expectedJcs first : option string) (entries : list HashChainEntry) : res unit :=
  match entries with
  | [] => mret tt
  | e :: rest =>
      _ ← assertCanonicalPayloadHashConsistent e;
      thisJcs ← canonicalizeChainIdentity (chainIdentity e);
      _ ← when_given first (λ f, check (String.eqb thisJcs f) "HC_CHAIN_IDENTITY_PREIMAGE_FAILED");
      _ ← when_given expectedJcs (λ x, check (String.eqb thisJcs x) "HC_CHAIN_IDENTITY_PREIMAGE_FAILED");
      check_preimages expectedJcs (Some (default thisJcs first)) rest
  end.

Definition check_tail (c : Checkpoint) (last : HashChainEntry) : res unit :=
  _ ← when_given (expectedLastChainPosition c) (λ p, check (chainPosition last =? p) "HC_PREVIOUS_HASH_BROKEN");
  when_given (expectedLastCanonicalPayloadHash c)
    (λ h, check (String.eqb (canonicalPayloadHash last) h) "HC_PREVIOUS_HASH_BROKEN").

Definition check_counts (c : Checkpoint) (n : nat) : res unit :=
  _ ← check (negb (requireNonEmpty c && Nat.eqb n 0)) "HC_PREVIOUS_HASH_BROKEN";
  when_given (expectedEntryCount c) (λ k, check (Nat.eqb n k) "HC_PREVIOUS_HASH_BROKEN").

Definition verifyHashChain (entries : list HashChainEntry) (options : VerifyHashChainOptions) : res unit :=
  _ ← when_given (checkpoint options) (λ c, check_counts c (length entries));
  match entries with
  | [] => mret tt
  | genesis :: rest =>
      _ ← check_genesis genesis;
      _ ← check_links genesis rest;
      expectedJcs ← match expectedChainIdentity options with
                    | Some i => s ← canonicalizeChainIdentity i; mret (Some s)
                    | None => mret None
                    end;
      _ ← check_preimages expectedJcs None entries;
      when_given (checkpoint options) (λ c, check_tail c (default genesis (last rest)))
  end.

End chain.

(** ** What an accepted chain is *)

Section accepted.
Context `{PrimitiveLaws} `{Formats} `{JsonText}.

(** The hash the entry at [i] must point back to. *)
Definition previous_of (entries : list HashChainEntry) (i : nat) : option string :=
  match i with
  | O => Some GENESIS_PREVIOUS_HASH
  | S j => canonicalPayloadHash <$> entries !! j
  end.

Record entry_accepted (J : string) (entries : list HashChainEntry) (i : nat) (e : HashChainEntry) : Prop := mkAccepted {
  ea_schema : validateHashChainEntrySchema e = true;
  ea_position : chainPosition e = Z.of_nat i;
  ea_previous : previous_of entries i = Some (previousHash e);
  ea_identity : canonicalizeChainIdentity (chainIdentity e) = Ok J;
  ea_canonical : ∃ v, parse_json (canonicalPayload e) = Some v ∧ jcs v = canonicalPayload e;
  ea_hash : canonicalPayloadHash e = toHex (sha256 (concatPreimage (canonicalPayload e) J)) }.

Definition counts_match (c : Checkpoint) (n : nat) : Prop :=
  (requireNonEmpty c = true → n ≠ 0%nat) ∧ ∀ k, expectedEntryCount c = Some k → n = k.
Definition tail_matches (c : Checkpoint) (e : HashChainEntry) : Prop :=
  (∀ p, expectedLastChainPosition c = Some p → chainPosition e = p)
  ∧ ∀ h, expectedLastCanonicalPayloadHash c = Some h → canonicalPayloadHash e = h.

Record chain_accepted (entries : list HashChainEntry) (options : VerifyHashChainOptions) : Prop := mkChainAccepted {
  ca_counts : ∀ c, checkpoint options = Some c → counts_match c (length entries);
  ca_entries : entries ≠ [] → ∃ J,
    (∀ i e, entries !! i = Some e → entry_accepted J entries i e)
    ∧ (∀ i, expectedChainIdentity options = Some i → canonicalizeChainIdentity i = Ok J);
  ca_tail : ∀ c e, checkpoint options = Some c → last entries = Some e → tail_matches c e }.

Lemma unit_bind_ok {A} (m : res unit) (k : unit → res A) x : (m ≫= k) = Ok x ↔ m = Ok tt ∧ k tt = Ok x.
Proof. rewrite res_bind_ok. split; [intros ([] & ? & ?); done|intros [? ?]; by exists tt]. Qed.

Lemma check_counts_ok c n : check_counts c n = Ok tt ↔ counts_match c n.
Proof.
  unfold check_counts, counts_match. rewrite unit_bind_ok, check_ok, negb_true_iff, andb_false_iff, when_given_ok.
  assert ((∀ k, expectedEntryCount c = Some k → check (Nat.eqb n k) "HC_PREVIOUS_HASH_BROKEN" = Ok tt)
          ↔ ∀ k, expectedEntryCount c = Some k → n = k) as ->.
  { split; intros Hk k Ek; specialize (Hk k Ek); [by apply check_ok, Nat.eqb_eq in Hk|by apply check_ok, Nat.eqb_eq]. }
  rewrite Nat.eqb_neq. destruct (requireNonEmpty c); naive_solver.
Qed.

Lemma check_tail_ok c e : check_tail c e = Ok tt ↔ tail_matches c e.
Proof.
  unfold check_tail, tail_matches. rewrite unit_bind_ok, !when_given_ok. split; intros [H1' H2']; split; intros x Ex.
  - apply H1' in Ex. by apply check_ok, Z.eqb_eq in Ex.
  - apply H2' in Ex. by apply check_ok, String.eqb_eq in Ex.
  - apply H1' in Ex. by apply check_ok, Z.eqb_eq.
  - apply H2' in Ex. by apply check_ok, String.eqb_eq.
Qed.

Lemma recompute_ok e h J :
  canonicalizeChainIdentity (chainIdentity e) = Ok J →
  recomputeCanonicalPayloadHash e = Ok h ↔ h = toHex (sha256 (concatPreimage (canonicalPayload e) J)).
Proof.
  intros EJ. unfold recomputeCanonicalPayloadHash, computeCanonicalPayloadHashHex. rewrite EJ. cbn [mbind res_bind].
  rewrite unit_bind_ok, check_ok, Nat.eqb_eq. destruct (sha256_bytes (concatPreimage (canonicalPayload e) J)) as [_ ->].
  unfold mret, res_ret. naive_solver.
Qed.

Lemma consistent_ok e J :
  canonicalizeChainIdentity (chainIdentity e) = Ok J →
  assertCanonicalPayloadHashConsistent e = Ok tt
  ↔ (∃ v, parse_json (canonicalPayload e) = Some v ∧ jcs v = canonicalPayload e)
    ∧ canonicalPayloadHash e = toHex (sha256 (concatPreimage (canonicalPayload e) J)).
Proof.
  intros EJ. unfold assertCanonicalPayloadHashConsistent. rewrite unit_bind_ok, res_bind_ok.
  assert (assertCanonicalPayloadIsCanonical e = Ok tt
          ↔ ∃ v, parse_json (canonicalPayload e) = Some v ∧ jcs v = canonicalPayload e) as ->.
  { unfold assertCanonicalPayloadIsCanonical. destruct (parse_json (canonicalPayload e)) as [v|].
    - rewrite check_ok, String.eqb_eq. naive_solver.
    - naive_solver. }
  apply and_iff_compat_l. split.
  - intros (h & Eh & Ec). apply (recompute_ok e h J EJ) in Eh as ->. by apply check_ok, String.eqb_eq in Ec.
  - intros Eh. eexists. split; [by apply (recompute_ok e _ J EJ)|]. by apply check_ok, String.eqb_eq.
Qed.

Lemma consistent_identity e :
  assertCanonicalPayloadHashConsistent e = Ok tt → ∃ J, canonicalizeChainIdentity (chainIdentity e) = Ok J.
Proof.
  unfold assertCanonicalPayloadHashConsistent, recomputeCanonicalPayloadHash.
  rewrite unit_bind_ok. intros [_ (h & (J & EJ & _)%res_bind_ok & _)%res_bind_ok]. eauto.
Qed.

Lemma check_links_ok prev rest :
  check_links prev rest = Ok tt ↔
  ∀ i e, rest !! i = Some e →
    validateHashChainEntrySchema e = true ∧ chainPosition e = chainPosition prev + 1 + Z.of_nat i
    ∧ canonicalPayloadHash <$> (prev :: rest) !! i = Some (previousHash e).
Proof.
  revert prev. induction rest as [|x rest IH]; intros prev; cbn [check_links].
  { split; [by intros _ i e|done]. }
  rewrite !unit_bind_ok, !check_ok, Z.eqb_eq, !String.eqb_eq, IH. split.
  - intros (Hs & Hp & Hh & Hv & Hr) [|i] e He.
    + injection He as <-. split_and!; [done|lia|]. cbn. by rewrite Hh.
    + destruct (Hr i e He) as (? & ? & ?). split_and!; [done|lia|done].
  - intros Hall. destruct (Hall O x eq_refl) as (Hs & Hp & Hh). cbn in Hh. injection Hh as Hh. split_and!; [done|lia|done|..].
    + unfold validateHashChainEntrySchema in Hs. by apply andb_true_iff in Hs as [_ ?%String.eqb_eq].
    + intros i e He. destruct (Hall (S i) e He) as (? & ? & ?). split_and!; [done|lia|done].
Qed.

Lemma check_preimages_ok X first entries :
  check_preimages X first entries = Ok tt ↔
  entries = [] ∨ ∃ J, (∀ f, first = Some f → f = J) ∧ (∀ x, X = Some x → x = J)
    ∧ ∀ e, e ∈ entries → canonicalizeChainIdentity (chainIdentity e) = Ok J
                         ∧ assertCanonicalPayloadHashConsistent e = Ok tt.
Proof.
  revert first. induction entries as [|e entries IH]; intros first; cbn [check_preimages].
  { split; [by left|done]. }
  rewrite unit_bind_ok, res_bind_ok. split.
  - intros (Hc & J & EJ & Hk). rewrite !unit_bind_ok, !when_given_ok, IH in Hk. destruct Hk as (Hf & Hx & Hr). right.
    assert (∀ f, first = Some f → f = J) as Hf' by (intros f Ef; apply Hf in Ef; by apply check_ok, String.eqb_eq in Ef).
    exists J. split_and!; [done|intros x Ex; apply Hx in Ex; by apply check_ok, String.eqb_eq in Ex|].
    intros e' [->|Hin]%elem_of_cons; [done|]. destruct Hr as [->|(J' & HJ & _ & Hr)]; [by apply elem_of_nil in Hin|].
    assert (J' = J) as ->.
    { destruct first as [f|]; cbn in HJ; symmetry; [|by apply HJ]. rewrite <- (Hf' f eq_refl). by apply HJ. }
    by apply Hr.
  - intros [?|(J & Hf & Hx & Hr)]; [done|]. destruct (Hr e ltac:(by left)) as [EJ Hc]. split; [done|]. exists J. split; [done|].
    rewrite !unit_bind_ok, !when_given_ok, IH. split_and!.
    + intros f Ef. apply check_ok, String.eqb_eq. symmetry. by apply Hf.
    + intros x Ex. apply check_ok, String.eqb_eq. symmetry. by apply Hx.
    + right. exists J. split_and!; [|done|intros e' He'; apply Hr; by right].
      intros f [= <-]. destruct first as [f|]; [by apply Hf|done].
Qed.

Lemma check_genesis_ok e :
  check_genesis e = Ok tt ↔
  validateHashChainEntrySchema e = true ∧ chainPosition e = 0 ∧ previousHash e = GENESIS_PREVIOUS_HASH.
Proof.
  unfold check_genesis. rewrite !unit_bind_ok, !check_ok, Z.eqb_eq, !String.eqb_eq. split; [tauto|].
  intros (Hs & ? & ?). split_and!; try done.
  unfold validateHashChainEntrySchema in Hs. by apply andb_true_iff in Hs as [_ ?%String.eqb_eq].
Qed.

Lemma last_cons_default {A} (x : A) l : last (x :: l) = Some (default x (last l)).
Proof. rewrite last_cons. by destruct (last l). Qed.

Lemma expected_ok (options : VerifyHashChainOptions) X :
  match expectedChainIdentity options with
  | Some i => s ← canonicalizeChainIdentity i; mret (Some s)
  | None => mret None
  end = Ok X ↔
  match expectedChainIdentity options with Some i => ∃ s, canonicalizeChainIdentity i = Ok s ∧ X = Some s | None => X = None end.
Proof.
  destruct (expectedChainIdentity options) as [i|]; [|unfold mret, res_ret; naive_solver].
  rewrite res_bind_ok. unfold mret, res_ret. naive_solver.
Qed.

Lemma verify_iff entries options :
  verifyHashChain entries options = Ok tt ↔ chain_accepted entries options.
Proof.
  unfold verifyHashChain. rewrite unit_bind_ok, when_given_ok. destruct entries as [|g rest].
  { split.
    - intros [Hc _]. split; [|done|done]. intros c Ec. by apply check_counts_ok, Hc.
    - intros [Hc _ _]. split; [|done]. intros c Ec. by apply check_counts_ok, Hc. }
  rewrite !unit_bind_ok, check_genesis_ok, check_links_ok, res_bind_ok. split.
  - intros (Hc & (Hs & Hp & Hh) & Hl & X & HX%expected_ok & Hk). rewrite unit_bind_ok, check_preimages_ok, when_given_ok in Hk.
    destruct Hk as [[?|(J & _ & HJ & Hr)] Ht]; [done|]. split.
    + intros c Ec. by apply check_counts_ok, Hc.
    + intros _. exists J. split.
      * intros i e He. destruct (Hr e) as [EJ Hcon]; [by eapply list_elem_of_lookup_2|].
        apply (consistent_ok e J EJ) in Hcon as [? ?]. destruct i as [|i]; cbn in He.
        -- injection He as <-. split; try done. cbn. by rewrite Hh.
        -- destruct (Hl i e He) as (? & ? & ?). split; try done. lia.
      * intros i Ei. rewrite Ei in HX. destruct HX as (s & Es & ->). by rewrite <- (HJ s eq_refl).
    + intros c e Ec. rewrite last_cons_default. intros [= <-]. by apply check_tail_ok, Ht.
  - intros [Hc He Ht]. destruct (He ltac:(done)) as (J & Hall & HJ).
    destruct (Hall O g eq_refl) as [Hs Hp Hh _ _ _]. cbn in Hh. injection Hh as Hh. split_and!; try done.
    + intros c Ec. by apply check_counts_ok, Hc.
    + intros i e Hi. destruct (Hall (S i) e Hi) as [? Hpos ? _ _ _]. split_and!; [done|lia|done].
    + exists (match expectedChainIdentity options with Some _ => Some J | None => None end). split.
      { apply expected_ok. destruct (expectedChainIdentity options) as [i|]; [|done]. exists J. split; [by apply HJ|done]. }
      rewrite unit_bind_ok, check_preimages_ok, when_given_ok. split.
      * right. exists J. split_and!; [done|by destruct (expectedChainIdentity options); intros x [=]|].
        intros e [i Hi]%list_elem_of_lookup_1. destruct (Hall i e Hi) as [_ _ _ EJ ? ?]. split; [done|]. by apply (consistent_ok e J EJ).
      * intros c Ec. apply check_tail_ok. apply (Ht c _ Ec). apply last_cons_default.
Qed.

Lemma verify_accepted entries options : verifyHashChain entries options = Ok tt → chain_accepted entries options.
Proof. apply verify_iff. Qed.
Lemma accepted_verify entries options : chain_accepted entries options → verifyHashChain entries options = Ok tt.
Proof. apply verify_iff. Qed.

(** The verifier accepts exactly the chains whose entries are well formed, stand
    at their positions, point back to the hash of their predecessor, share one
    identity (the expected one), hold canonical payloads and carry the hash of
    their payload and identity, and whose length and end agree with the
    checkpoint. *)
Theorem verifyHashChain_exact entries options :
  verifyHashChain entries options = Ok tt ↔ chain_accepted entries options.
Proof. apply verify_iff. Qed.

(** ** Appending *)

(** The text of a payload reads back as the same document. *)
Definition reads_back (payload : object) : Prop :=
  ∃ v, parse_json (jcs (VObj payload)) = Some v ∧ jcs v = jcs (VObj payload).

Lemma lower_hex64 s : hex64 s = true → lower s = s.
Proof.
  unfold hex64, lower. intros [_ Hs]%andb_true_iff. rewrite <- (str_chars s) at 2. f_equal.
  induction (chars s) as [|c l IH]; [done|]. cbn in Hs |- *. apply andb_true_iff in Hs as [Hc Hl]. rewrite IH by done. f_equal.
  unfold to_lower. destruct ((65 <=? N_of_ascii c)%N && (N_of_ascii c <=? 90)%N) eqn:E; [|done].
  apply andb_true_iff in E as [E1%N.leb_le E2%N.leb_le]. exfalso. revert Hc. unfold is_lower_hex, is_digit.
  destruct (N.leb_spec 48 (N_of_ascii c)), (N.leb_spec (N_of_ascii c) 57),
    (N.leb_spec 97 (N_of_ascii c)), (N.leb_spec (N_of_ascii c) 102); cbn; try done; lia.
Qed.

Lemma GENESIS_hex64 : hex64 GENESIS_PREVIOUS_HASH = true.
Proof. by vm_compute. Qed.

Lemma toPreviousHash_ok s h : hex64 s = true → toPreviousHash s = Ok h → h = s.
Proof. intros Hs. unfold toPreviousHash. rewrite lower_hex64, Hs by done. by intros [= <-]. Qed.

Lemma append_ok payload identity lastEntry uuid now e :
  (∀ l, lastEntry = Some l → hex64 (canonicalPayloadHash l) = true) →
  appendHashChainEntry payload identity lastEntry uuid now = Ok e →
  ∃ J, canonicalizeChainIdentity identity = Ok J ∧ chainIdentity e = identity
    ∧ canonicalPayload e = jcs (VObj payload)
    ∧ canonicalPayloadHash e = toHex (sha256 (concatPreimage (jcs (VObj payload)) J))
    ∧ validateHashChainEntrySchema e = true
    ∧ match lastEntry with
      | None => chainPosition e = 0 ∧ previousHash e = GENESIS_PREVIOUS_HASH
      | Some l => chainPosition e = chainPosition l + 1 ∧ previousHash e = canonicalPayloadHash l
                  ∧ canonicalizeChainIdentity (chainIdentity l) = Ok J
      end.
Proof.
  intros Hhex. unfold appendHashChainEntry. rewrite unit_bind_ok, res_bind_ok. intros (Hid & cp & Hcp & E).
  unfold canonicalizeHashChainEntryToString in Hcp. rewrite unit_bind_ok in Hcp. destruct Hcp as [_ [= <-]].
  apply res_bind_ok in E as (J & EJ & E). apply res_bind_ok in E as (J' & EJ' & E).
  unfold toChainIdentityJcs in EJ'. rewrite !unit_bind_ok in EJ'. destruct EJ' as (_ & _ & [= <-]).
  apply res_bind_ok in E as (hh & Eh & E). unfold computeCanonicalPayloadHashHex in Eh. rewrite unit_bind_ok in Eh.
  destruct Eh as [_ [= <-]]. apply res_bind_ok in E as (ph & Eph & E). unfold toCanonicalPayloadHash in Eph.
  rewrite unit_bind_ok in Eph. destruct Eph as [_ [= <-]]. apply res_bind_ok in E as (prev & Eprev & E).
  apply res_bind_ok in E as (np & Enp & E). apply res_bind_ok in E as (pos & Epos & E). unfold toChainPosition in Epos.
  rewrite unit_bind_ok in Epos. destruct Epos as [_ [= <-]]. apply res_bind_ok in E as (id & _ & E).
  apply res_bind_ok in E as (ver & _ & E). rewrite unit_bind_ok, check_ok in E. destruct E as [Hs [= <-]].
  exists J. cbn. split_and!; try done. destruct lastEntry as [l|].
  - rewrite unit_bind_ok in Eprev. destruct Eprev as [_ Eprev]. apply toPreviousHash_ok in Eprev; [|by apply Hhex].
    rewrite unit_bind_ok in Enp. destruct Enp as [_ [= <-]]. split_and!; [done|done|].
    apply res_bind_ok in Hid as (J1 & EJ1 & Hid). apply res_bind_ok in Hid as (J2 & EJ2 & Hid).
    apply check_ok, String.eqb_eq in Hid as ->. congruence.
  - injection Enp as <-. split; [done|]. apply toPreviousHash_ok in Eprev; [done|]. apply GENESIS_hex64.
Qed.

Lemma schema_hash e : validateHashChainEntrySchema e = true → hex64 (canonicalPayloadHash e) = true.
Proof. unfold validateHashChainEntrySchema. rewrite !andb_true_iff. tauto. Qed.

Lemma entry_accepted_app J entries x i e : entries !! i = Some e → entry_accepted J entries i e → entry_accepted J (entries ++ [x]) i e.
Proof.
  intros Hi [H1' H2' Hp H3' H4' H5']. split; try done. destruct i as [|i]; [done|]. cbn in Hp |- *.
  rewrite lookup_app_l; [done|]. apply lookup_lt_Some in Hi. lia.
Qed.

(** Appending to a chain that verifies, with a payload whose text reads back,
    gives a chain that verifies, for the identity it was appended under. *)
Theorem append_extends_chain payload identity entries uuid now e :
  verifyHashChain entries (mkHccOptions None None) = Ok tt → reads_back payload →
  appendHashChainEntry payload identity (last entries) uuid now = Ok e →
  verifyHashChain (entries ++ [e]) (mkHccOptions (Some identity) None) = Ok tt.
Proof.
  intros [_ He _]%verify_accepted Hb E. apply accepted_verify.
  destruct (decide (entries = [])) as [->|Hne].
  - destruct (append_ok payload identity None uuid now e ltac:(done) E) as (J & EJ & Ei & Ep & Eh & Hs & Hpos & Hprev). cbn.
    split; [done| |done]. intros _. exists J. split; [|by intros i [= <-]].
    intros [|i] e' He'; [|by destruct i]. injection He' as <-. split; try done; cbn; [by rewrite Hprev|by rewrite Ei|by rewrite Ep|by rewrite Ep].
  - destruct (He Hne) as (J & Hall & _). destruct (last entries) as [l|] eqn:El; [|by apply last_None in El].
    assert (entries !! pred (length entries) = Some l) as Hl by (by rewrite <- last_lookup).
    destruct (Hall _ _ Hl) as [Hls Hlp _ HlJ _ _].
    destruct (append_ok payload identity (Some l) uuid now e ltac:(by intros ? [= <-]; apply schema_hash) E)
      as (J' & EJ & Ei & Ep & Eh & Hs & Hpos & Hprev & HJ). rewrite HlJ in HJ. injection HJ as <-.
    split; [done| |done]. intros _. exists J. split; [|by intros i [= <-]].
    intros i x Hi. destruct (decide (i < length entries)%nat) as [Hlt|Hge].
    { rewrite lookup_app_l in Hi by done. by apply entry_accepted_app, Hall. }
    assert (0 < length entries)%nat as Hlen by (destruct entries; [done|cbn; lia]).
    assert (i = length entries) as ->.
    { apply lookup_lt_Some in Hi. rewrite length_app in Hi. cbn in Hi. lia. }
    rewrite list_lookup_middle in Hi by done. injection Hi as <-. split; try done.
    + rewrite Hpos, Hlp. lia.
    + destruct (length entries) as [|n] eqn:En; [lia|]. cbn in Hl |- *. rewrite lookup_app_l by lia. rewrite Hl. cbn. by rewrite Hprev.
    + by rewrite Ei.
    + by rewrite Ep.
    + by rewrite Ep.
Qed.

(** ** What the hashes commit to *)

Lemma hex_digit_lower n : 0 <= n < 16 → is_lower_hex (hex_digit n) = true.
Proof.
  intros Hn. revert n Hn. assert (∀ n, 0 <= n < Z.of_nat 16 → is_lower_hex (hex_digit n) = true) as Hall
    by (apply forallb_range; reflexivity). exact Hall.
Qed.

Lemma hex64_digest m : hex64 (toHex (sha256 m)) = true.
Proof.
  destruct (sha256_bytes m) as [Hb Hl]. unfold hex64, toHex. rewrite str_length, chars_str, hex_length, Hl. cbn [Nat.eqb Nat.mul Nat.add andb].
  clear Hl. induction Hb as [|b bs Hb _ IH]; [done|]. cbn [fmap list_fmap concat hex_byte app forallb]. unfold is_byte in Hb.
  rewrite !hex_digit_lower, IH by (Z.div_mod_to_equations; lia). done.
Qed.

(** The text of an object is self-delimiting. *)
Definition delimited : Prop :=
  ∀ o1 o2 r1 r2, jcs (VObj o1) +:+ r1 = jcs (VObj o2) +:+ r2 → jcs (VObj o1) = jcs (VObj o2).

Lemma identity_inj i1 i2 J :
  canonicalizeChainIdentity i1 = Ok J → canonicalizeChainIdentity i2 = Ok J → i1 = i2.
Proof.
  unfold canonicalizeChainIdentity. rewrite !unit_bind_ok. intros (_ & _ & _ & _ & [= <-]) (_ & _ & _ & _ & [= E]).
  apply jcs_inj in E; [|destruct i2 as [n [t|] [c|]]; by vm_compute|destruct i1 as [n [t|] [c|]]; by vm_compute].
  destruct i1 as [n1 [t1|] [c1|]], i2 as [n2 [t2|] [c2|]]; cbn in E; by simplify_eq.
Qed.

Lemma append_cancel a b c : a +:+ b = a +:+ c → b = c.
Proof. induction a as [|x a IH]; [done|]. intros [= E]. auto. Qed.

Lemma textEncode_app a b : textEncode (a +:+ b) = textEncode a ++ textEncode b.
Proof.
  unfold textEncode. rewrite <- fmap_app. f_equal. induction a as [|c a IH]; [done|]. cbn. by rewrite <- IH.
Qed.

Lemma toHex_digest_inj m1 m2 : toHex (sha256 m1) = toHex (sha256 m2) → sha256 m1 = sha256 m2.
Proof.
  intros E. destruct (sha256_bytes m1) as [B1 _], (sha256_bytes m2) as [B2 _].
  apply (f_equal fromHex) in E. rewrite !toHex_fromHex in E by done. by injection E.
Qed.

Lemma accepted_hash c opts e J :
  chain_accepted c opts → e ∈ c → canonicalizeChainIdentity (chainIdentity e) = Ok J →
  canonicalPayloadHash e = toHex (sha256 (concatPreimage (canonicalPayload e) J)).
Proof.
  intros [_ Hc _] [i Hi]%list_elem_of_lookup_1 EJ. destruct Hc as (J0 & Hall & _); [by intros ->|].
  destruct (Hall i e Hi) as [_ _ _ E _ Eh]. rewrite Eh. congruence.
Qed.

(** The hash of an entry commits to its payload and to the identity of its
    chain: entries of accepted chains with one hash, whose payloads are objects,
    have the same payload and the same identity, unless their preimages collide. *)
Theorem entry_hash_commits c1 c2 opts1 opts2 e1 e2 o1 o2 J1 J2 :
  delimited →
  verifyHashChain c1 opts1 = Ok tt → verifyHashChain c2 opts2 = Ok tt → e1 ∈ c1 → e2 ∈ c2 →
  canonicalPayload e1 = jcs (VObj o1) → canonicalPayload e2 = jcs (VObj o2) →
  canonicalizeChainIdentity (chainIdentity e1) = Ok J1 → canonicalizeChainIdentity (chainIdentity e2) = Ok J2 →
  canonicalPayloadHash e1 = canonicalPayloadHash e2 →
  (canonicalPayload e1 = canonicalPayload e2 ∧ chainIdentity e1 = chainIdentity e2)
  ∨ (concatPreimage (canonicalPayload e1) J1 ≠ concatPreimage (canonicalPayload e2) J2
     ∧ sha256 (concatPreimage (canonicalPayload e1) J1) = sha256 (concatPreimage (canonicalPayload e2) J2)).
Proof.
  intros Hd A1%verify_accepted A2%verify_accepted Hin1 Hin2 P1 P2 EJ1 EJ2 Eh.
  rewrite (accepted_hash _ _ _ _ A1 Hin1 EJ1), (accepted_hash _ _ _ _ A2 Hin2 EJ2) in Eh. apply toHex_digest_inj in Eh.
  destruct (decide (concatPreimage (canonicalPayload e1) J1 = concatPreimage (canonicalPayload e2) J2)) as [E|]; [left|by right].
  unfold concatPreimage in E. rewrite <- !textEncode_app in E. apply textEncode_inj in E. rewrite P1, P2 in E |- *.
  pose proof (Hd _ _ _ _ E) as Ep. split; [done|]. rewrite Ep in E.
  assert (J1 = J2) as <- by (by eapply append_cancel). by eapply identity_inj.
Qed.

(** ** What they do not commit to *)

Definition rewritten (e : HashChainEntry) (payload : object) (J : string) : HashChainEntry :=
  mkHashChainEntry (entryId e) (jcs (VObj payload)) (toHex (sha256 (concatPreimage (jcs (VObj payload)) J)))
    (previousHash e) (chainPosition e) (chainIdentity e) (he_timestamp e) (hccVersion e).
Definition relinked (e : HashChainEntry) (h : string) : HashChainEntry :=
  mkHashChainEntry (entryId e) (canonicalPayload e) (canonicalPayloadHash e) h
    (chainPosition e) (chainIdentity e) (he_timestamp e) (hccVersion e).

Lemma rewritten_schema e payload J :
  validateHashChainEntrySchema e = true → (2 ≤ String.length (jcs (VObj payload)))%nat →
  validateHashChainEntrySchema (rewritten e payload J) = true.
Proof.
  unfold validateHashChainEntrySchema, rewritten.
  cbn [entryId canonicalPayload canonicalPayloadHash previousHash chainPosition chainIdentity he_timestamp hccVersion].
  intros Hs Hl. reflect_bools. rewrite !andb_true_iff.
  rewrite hex64_digest, (proj2 (Nat.leb_le _ _) Hl). split_and!; try done; by apply Z.leb_le || by apply String.eqb_eq.
Qed.

Lemma relinked_schema e m :
  validateHashChainEntrySchema e = true → validateHashChainEntrySchema (relinked e (toHex (sha256 m))) = true.
Proof.
  unfold validateHashChainEntrySchema, relinked.
  cbn [entryId canonicalPayload canonicalPayloadHash previousHash chainPosition chainIdentity he_timestamp hccVersion].
  intros Hs. rewrite hex64_digest. reflect_bools. rewrite !andb_true_iff.
  split_and!; try done; by apply Z.leb_le || by apply String.eqb_eq.
Qed.

Lemma last_relinked (entries : list HashChainEntry) i e e' e2 h x :
  entries !! i = Some e → entries !! S i = Some e2 →
  last (<[i := e']> (<[S i := relinked e2 h]> entries)) = Some x →
  ∃ y, last entries = Some y ∧ chainPosition x = chainPosition y ∧ canonicalPayloadHash x = canonicalPayloadHash y.
Proof.
  intros Hi Hi2. rewrite !last_lookup, !length_insert. set (n := pred (length entries)).
  assert (S i < length entries)%nat as Hlt by (by eapply lookup_lt_Some).
  assert (i ≠ n) as Hin by (unfold n; lia). rewrite list_lookup_insert_ne by done.
  destruct (decide (S i = n)) as [<-|Hn].
  - rewrite list_lookup_insert_eq by done. intros [= <-]. by exists e2.
  - rewrite list_lookup_insert_ne by done. intros Hx. by exists x.
Qed.

(** The hash of an entry does not cover the link to its predecessor.  In any
    chain that verifies, the payload of any entry but the last can be replaced:
    with its own hash recomputed and the link of its successor updated the chain
    verifies again, under the same expected identity and the same checkpoint of
    length, last position and last hash. *)
Theorem history_not_committed entries options i e e2 J payload :
  verifyHashChain entries options = Ok tt →
  entries !! i = Some e → entries !! S i = Some e2 → canonicalizeChainIdentity (chainIdentity e) = Ok J →
  reads_back payload → (2 ≤ String.length (jcs (VObj payload)))%nat →
  let e' := rewritten e payload J in
  verifyHashChain (<[i := e']> (<[S i := relinked e2 (canonicalPayloadHash e')]> entries)) options = Ok tt.
Proof.
  intros [Hc He Ht]%verify_accepted Hi Hi2 EJ Hb Hl e'. apply accepted_verify.
  destruct He as (J0 & Hall & HJ); [by intros ->|].
  assert (J0 = J) as -> by (destruct (Hall i e Hi); congruence).
  set (entries' := <[i := e']> _). assert (S i < length entries)%nat as Hlt by (by eapply lookup_lt_Some).
  assert (∀ j, j ≠ i → canonicalPayloadHash <$> entries' !! j = canonicalPayloadHash <$> entries !! j) as Hsame.
  { intros j Hj. unfold entries'. rewrite list_lookup_insert_ne by done. destruct (decide (j = S i)) as [->|Hj2].
    - rewrite list_lookup_insert_eq by done. by rewrite Hi2.
    - by rewrite list_lookup_insert_ne. }
  split.
  - intros c Ec. unfold entries'. rewrite !length_insert. by apply Hc.
  - intros _. exists J. split; [|done]. intros j x Hx. unfold entries' in Hx.
    destruct (decide (j = i)) as [->|Hj].
    { rewrite list_lookup_insert_eq in Hx by (rewrite length_insert; lia). injection Hx as <-.
      destruct (Hall i e Hi) as [Hs Hp Hprev EJ' _ _]. split; try done; [by apply rewritten_schema|].
      destruct i as [|i]; [done|]. cbn in Hprev |- *. rewrite Hsame by lia. done. }
    rewrite list_lookup_insert_ne in Hx by done. destruct (decide (j = S i)) as [->|Hj2].
    { rewrite list_lookup_insert_eq in Hx by done. injection Hx as <-.
      destruct (Hall _ _ Hi2) as [Hs Hp _ EJ' Hcan Hh]. split; try done; [by apply relinked_schema|].
      cbn [previous_of relinked previousHash]. unfold entries'. by rewrite list_lookup_insert_eq by (rewrite length_insert; lia). }
    rewrite list_lookup_insert_ne in Hx by done. destruct (Hall j x Hx) as [Hs Hp Hprev EJ' Hcan Hh]. split; try done.
    destruct j as [|j]; [done|]. cbn in Hprev |- *. rewrite Hsame; [done|congruence].
  - intros c x Ec Hx. destruct (last_relinked _ _ _ _ _ _ _ Hi Hi2 Hx) as (y & Hy & Ep & Eh).
    destruct (Ht c y Ec Hy) as [T1 T2]. split; [rewrite Ep; apply T1|rewrite Eh; apply T2].
Qed.

End accepted.
