(* ===== verification/HashChainExamples.v ===== *)
(** * Concrete hash chains

    Chains of three entries over the primitives of ToyPrimitives.v and a parser
    that reads their payloads: the values at which the theorems of HashChain.v
    are applied. *)
From S2P Require Import Prelude JsValue Time Encoding Crypto ToyPrimitives Authorization SignedPayload Multisig.
From S2P Require Import MultisigExamples HashChain.

Definition hx_payload (n : Z) : object := [("amount", VNum (Fin n))].

(** It reads the texts of the sample payloads. *)
#[export] Instance sample_json : JsonText := {|
  parse_json s := VObj <$> find (λ o, String.eqb (jcs (VObj o)) s) (hx_payload <$> [1; 2; 3; 100]) |}.

Definition hx_identity : ChainIdentity := mkChainIdentity "atp" None (Some "L1").

Definition hx_uuid (c : ascii) : string := str (chars "0000000" ++ c :: chars "-0000-4000-8000-000000000000").

Definition hx_append (c : ascii) (n : Z) (chain : list HashChainEntry) : list HashChainEntry :=
  match appendHashChainEntry (hx_payload n) hx_identity (last chain) (hx_uuid c) "2026-06-01T00:00:00.000Z" with
  | Ok e => chain ++ [e]
  | Throw _ => chain
  end.

Definition hx_two : list HashChainEntry := Eval vm_compute in hx_append "2" 2 (hx_append "1" 1 []).
Definition hx_chain : list HashChainEntry := Eval vm_compute in hx_append "3" 3 hx_two.

Definition hx_last : string := default "" (canonicalPayloadHash <$> last hx_chain).

(** The expected identity and a full checkpoint. *)
Definition hx_options : VerifyHashChainOptions :=
  mkHccOptions (Some hx_identity) (Some (mkCheckpoint true (Some 3%nat) (Some 2) (Some hx_last))).

Example hx_verifies : verifyHashChain hx_chain hx_options = Ok tt.
Proof. vm_compute. reflexivity. Qed.

Example hx_truncated : verifyHashChain hx_two hx_options = Throw "HC_PREVIOUS_HASH_BROKEN".
Proof. vm_compute. reflexivity. Qed.

Lemma verifyHashChain_exact_witness : chain_accepted hx_chain hx_options.
Proof. apply verifyHashChain_exact. vm_compute. reflexivity. Defined.

Lemma append_extends_chain_witness : ∃ e, verifyHashChain (hx_two ++ [e]) (mkHccOptions (Some hx_identity) None) = Ok tt.
Proof.
  destruct (appendHashChainEntry (hx_payload 3) hx_identity (last hx_two) (hx_uuid "3") "2026-06-01T00:00:00.000Z") as [e|c] eqn:E.
  - exists e. apply (append_extends_chain (hx_payload 3) hx_identity hx_two (hx_uuid "3") "2026-06-01T00:00:00.000Z" e).
    + vm_compute. reflexivity.
    + exists (VObj (hx_payload 3)). split; vm_compute; reflexivity.
    + exact E.
  - vm_compute in E. discriminate E.
Defined.

(** ** Self-delimiting texts *)

Lemma show_pos_app p k : show_pos p k = show_pos p [] ++ k.
Proof. induction p as [p IH|p IH|]; cbn; [by rewrite IH|by rewrite IH|done]. Qed.
Lemma show_chars_app s k : show_chars s k = show_chars s [] ++ k.
Proof. induction s as [|c s IH]; cbn; [done|by rewrite IH]. Qed.
Lemma show_num_app n k : show_num n k = show_num n [] ++ k.
Proof. destruct n as [| | |[|p|p]]; try done; cbn; by rewrite show_pos_app. Qed.

Lemma show_app v k : show v k = show v [] ++ k.
Proof.
  revert k. induction v as [| |b|n|s|l IH|o IH] using value_nested_ind; intros k.
  - done.
  - done.
  - by destruct b.
  - cbn. by rewrite show_num_app.
  - cbn. by rewrite show_chars_app.
  - cbn. f_equal. induction IH as [|x l Hx _ IHl]; [done|]. cbn. f_equal.
    rewrite Hx, IHl, (Hx ((fix go l := match l with [] => "]"%char :: [] | x :: l' => ","%char :: show x (go l') end) l)).
    by rewrite app_assoc.
  - cbn. f_equal. induction IH as [|[key x] o Hx _ IHo]; [done|]. cbn in Hx |- *. f_equal.
    rewrite show_chars_app, Hx, IHo.
    rewrite (show_chars_app (chars key) (show x _)), (Hx ((fix go o := match o with [] => "}"%char :: [] | (key, x) :: o' => ":"%char :: show_chars (chars key) (show x (go o')) end) o)).
    by rewrite !app_assoc.
Qed.

Lemma toy_delimited : delimited.
Proof.
  intros o1 o2 r1 r2 E. cbn [jcs toy_primitives] in *.
  assert (∀ a b, chars (a +:+ b) = chars a ++ chars b) as Happ.
  { intros a b. induction a as [|c a IH]; [done|]. cbn. by rewrite <- IH. }
  apply (f_equal chars) in E. rewrite !Happ, !chars_str in E.
  rewrite <- (show_app (VObj o1)), <- (show_app (VObj o2)) in E. by destruct (show_inj _ _ _ _ E) as [[= ->] _].
Qed.

Definition hx_first : HashChainEntry := Eval vm_compute in default (mkHashChainEntry "" "" "" "" 0 hx_identity "" "") (head hx_chain).

Lemma entry_hash_commits_witness :
  ∃ e1 e2, e1 ∈ hx_chain ∧ e2 ∈ hx_two ∧ canonicalPayload e1 = canonicalPayload e2 ∧ chainIdentity e1 = chainIdentity e2.
Proof.
  exists hx_first, hx_first. assert (hx_first ∈ hx_chain) as H1 by (by left). assert (hx_first ∈ hx_two) as H2 by (by left).
  split; [exact H1|]. split; [exact H2|].
  destruct (canonicalizeChainIdentity (chainIdentity hx_first)) as [J|c] eqn:EJ; [|vm_compute in EJ; discriminate EJ].
  destruct (entry_hash_commits hx_chain hx_two hx_options (mkHccOptions None None) hx_first hx_first
              (hx_payload 1) (hx_payload 1) J J toy_delimited) as [Hsame|[Hn _]].
  - vm_compute. reflexivity.
  - vm_compute. reflexivity.
  - exact H1.
  - exact H2.
  - vm_compute. reflexivity.
  - vm_compute. reflexivity.
  - exact EJ.
  - exact EJ.
  - reflexivity.
  - exact Hsame.
  - exfalso. apply Hn. reflexivity.
Defined.

(** The amount of the first entry is 100 after all, under the same checkpoint. *)
Lemma history_not_committed_witness :
  ∃ entries, verifyHashChain entries hx_options = Ok tt
             ∧ canonicalPayload <$> head entries = Some (jcs (VObj (hx_payload 100))).
Proof.
  destruct (hx_chain !! 0%nat) as [e|] eqn:E; [|discriminate E]. destruct (hx_chain !! 1%nat) as [e2|] eqn:E2; [|discriminate E2].
  destruct (canonicalizeChainIdentity (chainIdentity e)) as [J|c] eqn:EJ.
  - eexists. split.
    + apply (history_not_committed hx_chain hx_options 0 e e2 J (hx_payload 100)).
      * vm_compute. reflexivity.
      * exact E.
      * exact E2.
      * exact EJ.
      * exists (VObj (hx_payload 100)). split; vm_compute; reflexivity.
      * vm_compute. repeat constructor.
    + reflexivity.
  - exfalso. injection E as <-. vm_compute in EJ. discriminate EJ.
Defined.
