(* ===== verification/EnvelopeLedger.v ===== *)
(** * The envelope ledger

    Models packages/policy/src/envelope-ledger: claims of an envelope with a
    lease, their end in COMMITTED, REJECTED or EXPIRED, and the table
    policy.envelope_ledger of sql/006-create-envelope-ledger.sql with its
    partial unique indexes.  Instants are microseconds of the database clock,
    read once per statement.  An error of the database is thrown with its
    SQLSTATE.

    A transaction locks the rows it selects, so that two of them on one pending
    row run one after the other and each is one step here.  A claim that finds no
    row locks nothing: its two statements are kept apart, and the section on
    overlapping claims lets other transactions commit between them. *)
From S2P Require Import Prelude JsValue.

(** ** Data *)

Definition LEDGER_CLAIM_STATUSES : list string := ["PENDING"; "COMMITTED"; "REJECTED"; "EXPIRED"].

Definition isLedgerClaimStatus (s : string) : bool := bool_decide (s ∈ LEDGER_CLAIM_STATUSES).
Definition parseLedgerClaimStatus (s : string) : res string :=
  if isLedgerClaimStatus s then Ok s else Throw "Error".

(** A row of the table ([DbRow]). *)
Record EnvelopeRow : Type := mkEnvelopeRow {
  er_id : Z;
  er_envelope : string;
  er_status : string;
  er_ttl : Z;
  er_claimer : option string;
  er_claimedAt : Z;
  er_finalizedAt : option Z;
  er_summary : option value;
  er_createdAt : Z }.

Record EnvelopeLedgerEntry : Type := mkEntry {
  le_id : Z;
  le_envelopeId : string;
  le_status : string;
  le_ttlSeconds : Z;
  le_claimerId : option string;
  le_claimedAt : Z;
  le_finalizedAt : option Z;
  le_resultSummary : option value;
  le_createdAt : Z }.

Definition mapRow (row : EnvelopeRow) : res EnvelopeLedgerEntry :=
  status ← parseLedgerClaimStatus (er_status row);
  mret (mkEntry (er_id row) (er_envelope row) status (er_ttl row) (er_claimer row) (er_claimedAt row)
          (er_finalizedAt row) (er_summary row) (er_createdAt row)).

Inductive ClaimConflictReason : Type := ALREADY_PENDING | ALREADY_TERMINAL.
Inductive ClaimResult : Type :=
| claim_success (id : Z) (envelopeId : string) (claimedAt ttlSeconds : Z)
| claim_conflict (reason : ClaimConflictReason) (envelopeId : string).

Inductive FinalizeFailureReason : Type := NOT_FOUND | ALREADY_FINAL | LEASE_EXPIRED.
Inductive FinalizeResult : Type :=
| finalize_success (envelopeId : string) (finalizedAt : Z)
| finalize_failure (reason : FinalizeFailureReason) (envelopeId : string).

Inductive RejectFailureReason : Type := REJECT_NOT_FOUND | REJECT_ALREADY_FINAL.
Inductive RejectResult : Type :=
| reject_success (envelopeId : string) (finalizedAt : Z)
| reject_failure (reason : RejectFailureReason) (envelopeId : string).

(** ** The table *)

(** The rows in the order of insertion, and the sequence of the primary key. *)
Record EnvelopeTable : Type := mkEnvelopeTable { et_rows : list EnvelopeRow; et_next : Z }.

Definition with_rows (f : list EnvelopeRow → list EnvelopeRow) (w : EnvelopeTable) : EnvelopeTable :=
  mkEnvelopeTable (f (et_rows w)) (et_next w).

Definition row_is (s : string) (row : EnvelopeRow) : bool := String.eqb (er_status row) s.
Definition of_envelope (e : string) (row : EnvelopeRow) : bool := String.eqb (er_envelope row) e.

(** [status IN ('COMMITTED', 'REJECTED')] and with PENDING. *)
Definition row_final (row : EnvelopeRow) : bool := row_is "COMMITTED" row || row_is "REJECTED" row.
Definition row_active (row : EnvelopeRow) : bool := row_is "PENDING" row || row_final row.

(** [claimed_at + ttl_seconds * interval '1 second'] *)
Definition lease_end (row : EnvelopeRow) : Z := er_claimedAt row + er_ttl row * 1000000.

(** [claimer_id IS NULL OR claimer_id = $n], present when a claimer is given. *)
Definition owned (claimerId : option string) (row : EnvelopeRow) : bool :=
  match claimerId, er_claimer row with
  | Some c, Some owner => String.eqb owner c
  | _, _ => true
  end.

Definition set_status (s : string) (t : Z) (summary : option value) (row : EnvelopeRow) : EnvelopeRow :=
  mkEnvelopeRow (er_id row) (er_envelope row) s (er_ttl row) (er_claimer row) (er_claimedAt row) (Some t) summary
    (er_createdAt row).

(** A status that a partial unique index covers. *)
Definition indexed (s : string) : bool := bool_decide (s ∈ ["PENDING"; "COMMITTED"; "REJECTED"]).

(** The partial unique indexes admit one more row of the envelope in [s]. *)
Definition index_free (e s : string) (rows : list EnvelopeRow) : bool :=
  negb (indexed s && existsb (λ r, of_envelope e r && row_is s r) rows).

(** The INSERT of a claim: the column type and the CHECK of the lease, then the
    index.  The sequence moves on also when the row is refused by the index. *)
Definition insert_pending (e : string) (ttl : Z) (claimerId : option string) (t : Z) : M EnvelopeTable EnvelopeRow :=
  λ w,
  if 2 ^ 31 - 1 <? Z.abs ttl then (Throw "22003", w)
  else
    let row := mkEnvelopeRow (et_next w) e "PENDING" ttl claimerId t None None t in
    let w1 := mkEnvelopeTable (et_rows w) (et_next w + 1) in
    if ttl <? 1 then (Throw "23514", w1)
    else if index_free e "PENDING" (et_rows w) then (Ok row, with_rows (λ rows, rows ++ [row]) w1)
    else (Throw "23505", w1).

(** [UPDATE ... SET status WHERE ... RETURNING]: the updated rows.  The indexes
    are checked row by row. *)
Definition update_rows (s : string) (t : Z) (summary : EnvelopeRow → option value) (P : EnvelopeRow → bool)
    : M EnvelopeTable (list EnvelopeRow) := λ w,
  let hit := filter (λ r, P r = true) (et_rows w) in
  let rest := filter (λ r, P r = false) (et_rows w) in
  if forallb (λ r, index_free (er_envelope r) s rest) hit && (negb (indexed s) || Nat.leb (length hit) 1)
  then (Ok ((λ r, set_status s t (summary r) r) <$> hit),
        with_rows (fmap (λ r, if P r then set_status s t (summary r) r else r)) w)
  else (Throw "23505", w).

(** [withTransaction]: an exception restores the rows; a sequence does not go
    back. *)
Definition ledger_transaction {A} (body : M EnvelopeTable A) : M EnvelopeTable A := λ w,
  match body w with
  | (Ok a, w') => (Ok a, w')
  | (Throw c, w') => (Throw c, mkEnvelopeTable (et_rows w) (et_next w'))
  end.

(** ** Operations *)

Definition isPgUniqueViolation (code : string) : bool := String.eqb code "23505".

Record EnvelopeLedger : Type := mkEnvelopeLedger { defaultTtlSeconds : Z }.
Definition new_ledger (ttl : option Z) : EnvelopeLedger := mkEnvelopeLedger (default 30 ttl).

(** The SELECT FOR UPDATE of [claim] over the rows it sees: the conflict, or
    [None] when there is no active row (and then nothing is locked). *)
Definition claim_check (e : string) (rows : list EnvelopeRow) : option ClaimResult :=
  match filter (λ r, (of_envelope e r && row_active r) = true) rows with
  | [] => None
  | r :: _ => Some (claim_conflict (if row_final r then ALREADY_TERMINAL else ALREADY_PENDING) e)
  end.

(** The INSERT of [claim] with its catch. *)
Definition claim_insert (e : string) (ttl : Z) (claimerId : option string) (t : Z) : M EnvelopeTable ClaimResult :=
  λ w,
  match insert_pending e ttl claimerId t w with
  | (Throw code, w') =>
      (if isPgUniqueViolation code then Ok (claim_conflict ALREADY_PENDING e) else Throw code, w')
  | (Ok row, w') =>
      (entry ← mapRow row;
       mret (claim_success (le_id entry) (le_envelopeId entry) (le_claimedAt entry) (le_ttlSeconds entry)), w')
  end.

Definition claim (L : EnvelopeLedger) (e : string) (ttlSeconds : option Z) (claimerId : option string) (t : Z)
    : M EnvelopeTable ClaimResult :=
  ledger_transaction (λ w,
    match claim_check e (et_rows w) with
    | Some conflict => (Ok conflict, w)
    | None => claim_insert e (default (defaultTtlSeconds L) ttlSeconds) claimerId t w
    end).

(** The condition of the SELECT and the UPDATE of [finalize] at an instant. *)
Definition finalizable (e : string) (claimerId : option string) (t : Z) (r : EnvelopeRow) : bool :=
  of_envelope e r && row_is "PENDING" r && (t <=? lease_end r) && owned claimerId r.
Definition lapsed (t : Z) (r : EnvelopeRow) : bool := row_is "PENDING" r && (lease_end r <? t).

Definition has_final (e : string) (rows : list EnvelopeRow) : bool :=
  existsb (λ r, of_envelope e r && row_final r) rows.

(** [t1] and [t2] are the clock at the SELECT and at the UPDATE. *)
Definition finalizeWithinTransaction (e : string) (resultSummary : option value) (claimerId : option string)
    (t1 t2 : Z) : M EnvelopeTable FinalizeResult := λ w,
  if negb (existsb (finalizable e claimerId t1) (et_rows w)) then
    match update_rows "EXPIRED" t2 er_summary (λ r, of_envelope e r && lapsed t2 r) w with
    | (Throw code, w') => (Throw code, w')
    | (Ok (_ :: _), w') => (Ok (finalize_failure LEASE_EXPIRED e), w')
    | (Ok [], w') =>
        (Ok (finalize_failure (if has_final e (et_rows w') then ALREADY_FINAL else NOT_FOUND) e), w')
    end
  else
    match update_rows "COMMITTED" t2 (λ _, resultSummary) (finalizable e claimerId t2) w with
    | (Throw code, w') => (Throw code, w')
    | (Ok [], w') => (Throw "Error", w')
    | (Ok (_ :: _), w') => (Ok (finalize_success e t2), w')
    end.

Definition finalize (e : string) (resultSummary : option value) (claimerId : option string) (t1 t2 : Z)
    : M EnvelopeTable FinalizeResult :=
  ledger_transaction (finalizeWithinTransaction e resultSummary claimerId t1 t2).

Definition rejectable (e : string) (claimerId : option string) (r : EnvelopeRow) : bool :=
  of_envelope e r && row_is "PENDING" r && owned claimerId r.

Definition rejectWithinTransaction (e : string) (claimerId : option string) (t : Z) : M EnvelopeTable RejectResult :=
  λ w,
  if negb (existsb (rejectable e claimerId) (et_rows w)) then
    (Ok (reject_failure (if has_final e (et_rows w) then REJECT_ALREADY_FINAL else REJECT_NOT_FOUND) e), w)
  else
    match update_rows "REJECTED" t er_summary (rejectable e claimerId) w with
    | (Throw code, w') => (Throw code, w')
    | (Ok [], w') => (Throw "Error", w')
    | (Ok (_ :: _), w') => (Ok (reject_success e t), w')
    end.

Definition reject (e : string) (claimerId : option string) (t : Z) : M EnvelopeTable RejectResult :=
  ledger_transaction (rejectWithinTransaction e claimerId t).

(** [ORDER BY claimed_at ASC] *)
Definition earlier_claim (a b : EnvelopeRow) : Prop := er_claimedAt a ≤ er_claimedAt b.
#[export] Instance earlier_claim_dec a b : Decision (earlier_claim a b).
Proof. unfold earlier_claim. apply _. Defined.

(** The ids that [expireStalePending] takes; rows locked by others are skipped. *)
Definition to_expire (t limit : Z) (locked : list Z) (rows : list EnvelopeRow) : list Z :=
  er_id <$> take (Z.to_nat limit)
    (merge_sort earlier_claim (filter (λ r, (lapsed t r && negb (bool_decide (er_id r ∈ locked))) = true) rows)).

Definition expireStalePending (limit : Z) (locked : list Z) (t : Z) : M EnvelopeTable nat := λ w,
  if limit <? 0 then (Throw "2201W", w)
  else
    let ids := to_expire t limit locked (et_rows w) in
    match update_rows "EXPIRED" t er_summary (λ r, bool_decide (er_id r ∈ ids)) w with
    | (Throw code, w') => (Throw code, w')
    | (Ok expired, w') => (Ok (length expired), w')
    end.

(** [ORDER BY id DESC LIMIT 1] *)
Definition later_row (best : option EnvelopeRow) (r : EnvelopeRow) : option EnvelopeRow :=
  match best with
  | Some b => if er_id b <? er_id r then Some r else best
  | None => Some r
  end.
Definition latest (P : EnvelopeRow → bool) (rows : list EnvelopeRow) : option EnvelopeRow :=
  foldl later_row None (filter (λ r, P r = true) rows).

Definition read_entry (row : option EnvelopeRow) : res (option EnvelopeLedgerEntry) :=
  match row with
  | None => mret None
  | Some r => entry ← mapRow r; mret (Some entry)
  end.

Definition getEntry (e : string) (w : EnvelopeTable) : res (option EnvelopeLedgerEntry) :=
  read_entry (latest (λ r, of_envelope e r && negb (row_is "EXPIRED" r)) (et_rows w)).
Definition getLatestRow (e : string) (w : EnvelopeTable) : res (option EnvelopeLedgerEntry) :=
  read_entry (latest (of_envelope e) (et_rows w)).

(** ** What a step does to the table *)

Definition count (e : string) (Q : EnvelopeRow → bool) (rows : list EnvelopeRow) : nat :=
  length (filter (λ r, (of_envelope e r && Q r) = true) rows).

Lemma count_app e Q l1 l2 : count e Q (l1 ++ l2) = (count e Q l1 + count e Q l2)%nat.
Proof. unfold count. by rewrite filter_app, length_app. Qed.
Lemma count_cons e Q r l : count e Q (r :: l) = ((if of_envelope e r && Q r then 1 else 0) + count e Q l)%nat.
Proof. unfold count. rewrite filter_cons. by destruct (of_envelope e r && Q r); [rewrite decide_True|rewrite decide_False]. Qed.

Lemma count_mono e e' Q Q' (u : EnvelopeRow → EnvelopeRow) rows :
  (∀ r, r ∈ rows → of_envelope e (u r) && Q (u r) = true → of_envelope e' r && Q' r = true) →
  (count e Q (u <$> rows) ≤ count e' Q' rows)%nat.
Proof.
  induction rows as [|r rows IH]; intros Hu; [done|].
  rewrite fmap_cons, !count_cons. specialize (IH (λ x Hx, Hu x (list_elem_of_further _ _ _ Hx))).
  specialize (Hu r (list_elem_of_here _ _)). destruct (of_envelope e (u r) && Q (u r)); [rewrite Hu by done|]; lia.
Qed.

Lemma count_zero e Q rows : count e Q rows = O ↔ ∀ r, r ∈ rows → of_envelope e r && Q r = false.
Proof.
  induction rows as [|r rows IH]; [split; [intros _ x Hx; inversion Hx|done]|].
  rewrite count_cons. setoid_rewrite elem_of_cons. destruct (of_envelope e r && Q r) eqn:E; cbn; split.
  - intros ?. lia.
  - intros Hx. rewrite (Hx r (or_introl eq_refl)) in E. discriminate E.
  - intros H0 x [->|Hx]; [done|by apply IH].
  - intros Hx. apply IH. auto.
Qed.

Lemma existsb_count e Q rows : existsb (λ r, of_envelope e r && Q r) rows = negb (Nat.eqb (count e Q rows) 0).
Proof. induction rows as [|r rows IH]; [done|]. rewrite count_cons. cbn. by destruct (of_envelope e r && Q r). Qed.

(** Of two rows that count once each there is one. *)
Lemma count_unique e Q rows i j a b :
  (count e Q rows ≤ 1)%nat → rows !! i = Some a → rows !! j = Some b →
  of_envelope e a && Q a = true → of_envelope e b && Q b = true → i = j.
Proof.
  revert i j. induction rows as [|r rows IH]; intros i j Hc Ha Hb Qa Qb; [done|]. rewrite count_cons in Hc.
  assert (∀ k x, rows !! k = Some x → of_envelope e x && Q x = true → of_envelope e r && Q r = false) as Hr.
  { intros k x Hx Qx. destruct (of_envelope e r && Q r) eqn:E; [|done].
    assert (count e Q rows = O) as H0 by (destruct (of_envelope e r && Q r); lia).
    rewrite count_zero in H0. rewrite (H0 x) in Qx; [done|]. by eapply list_elem_of_lookup_2. }
  destruct i as [|i], j as [|j]; cbn in Ha, Hb.
  - done.
  - injection Ha as ->. rewrite (Hr j b Hb Qb) in Qa. done.
  - injection Hb as ->. rewrite (Hr i a Ha Qa) in Qb. done.
  - f_equal. apply IH; [|done..]. lia.
Qed.

(** The update of the rows in [P]. *)
Definition updated (s : string) (t : Z) (summary : EnvelopeRow → option value) (P : EnvelopeRow → bool) (r : EnvelopeRow)
    : EnvelopeRow := if P r then set_status s t (summary r) r else r.

(** [hit] and [rest] of an update. *)
Lemma count_updated e s t f P rows :
  count e (row_is s) (updated s t f P <$> rows)
  = (count e (row_is s) (filter (λ r, P r = false) rows) + count e (λ _, true) (filter (λ r, P r = true) rows))%nat.
Proof.
  induction rows as [|r rows IH]; [done|]. rewrite fmap_cons, count_cons, IH. rewrite !filter_cons. unfold updated.
  destruct (P r) eqn:E.
  - rewrite decide_False, decide_True by done. rewrite count_cons. unfold of_envelope, row_is. cbn. rewrite String.eqb_refl. lia.
  - rewrite decide_True, decide_False by done. rewrite count_cons. lia.
Qed.

(** What every transaction does: nothing to the rows, a new claim of an envelope
    in [C], or the end of pending rows in [D]. *)
Inductive table_step (C : string → Prop) (D : EnvelopeRow → Prop) (w w' : EnvelopeTable) : Prop :=
| ts_same : et_rows w' = et_rows w → et_next w ≤ et_next w' → table_step C D w w'
| ts_claim e ttl claimer t : C e → 1 ≤ ttl → count e (row_is "PENDING") (et_rows w) = O →
    et_rows w' = et_rows w ++ [mkEnvelopeRow (et_next w) e "PENDING" ttl claimer t None None t] →
    et_next w' = et_next w + 1 → table_step C D w w'
| ts_end s t f P : s ∈ ["COMMITTED"; "REJECTED"; "EXPIRED"] →
    (∀ r, r ∈ et_rows w → P r = true →
       row_is "PENDING" r = true ∧ D r ∧ (s ≠ "COMMITTED" → f r = er_summary r)) →
    (indexed s = true → ∀ e, (count e (row_is s) (updated s t f P <$> et_rows w) ≤ 1)%nat) →
    et_rows w' = updated s t f P <$> et_rows w → et_next w' = et_next w → table_step C D w w'.

(** ** The type of the table *)

Record row_typed (r : EnvelopeRow) : Prop := mkRowTyped {
  rt_status : er_status r ∈ LEDGER_CLAIM_STATUSES;
  rt_lease : 1 ≤ er_ttl r;
  rt_final : er_finalizedAt r = None ↔ er_status r = "PENDING";
  rt_summary : er_status r ≠ "COMMITTED" → er_summary r = None }.

Record table_typed (w : EnvelopeTable) : Prop := mkTableTyped {
  tt_rows : Forall row_typed (et_rows w);
  tt_ids : NoDup (er_id <$> et_rows w);
  tt_next : Forall (λ r, er_id r < et_next w) (et_rows w);
  tt_index : ∀ e s, indexed s = true → (count e (row_is s) (et_rows w) ≤ 1)%nat }.

Lemma indexed_cases s : s ∈ ["COMMITTED"; "REJECTED"; "EXPIRED"] → s ≠ "PENDING" ∧ s ∈ LEDGER_CLAIM_STATUSES.
Proof.
  rewrite !elem_of_cons, elem_of_nil. intros [->|[->|[->|[]]]]; (split; [done|unfold LEDGER_CLAIM_STATUSES; rewrite !elem_of_cons; auto]).
Qed.

Lemma updated_id s t f P (rows : list EnvelopeRow) : er_id <$> (updated s t f P <$> rows) = er_id <$> rows.
Proof. rewrite <- list_fmap_compose. apply list_fmap_ext. intros i r _. unfold updated. cbn. by destruct (P r). Qed.

Lemma updated_typed s t f P r :
  s ∈ ["COMMITTED"; "REJECTED"; "EXPIRED"] → row_typed r →
  (P r = true → row_is "PENDING" r = true ∧ (s ≠ "COMMITTED" → f r = er_summary r)) → row_typed (updated s t f P r).
Proof.
  intros [Hs Hin]%indexed_cases Hr HP. unfold updated. destruct (P r); [|done]. destruct HP as [HP Hf]; [done|].
  apply String.eqb_eq in HP. destruct Hr as [_ Hl _ Hsum]. split; cbn; [done|done|by split|].
  intros Hc. rewrite (Hf Hc). apply Hsum. by rewrite HP.
Qed.

Lemma updated_old s t f P e s' r :
  s' ≠ s → of_envelope e (updated s t f P r) && row_is s' (updated s t f P r) = true → of_envelope e r && row_is s' r = true.
Proof.
  intros Hs. unfold updated. destruct (P r); [|done]. unfold row_is. cbn. intros [_ H]%andb_true_iff.
  apply String.eqb_eq in H. congruence.
Qed.

Lemma step_typed C D w w' : table_step C D w w' → table_typed w → table_typed w'.
Proof.
  intros [Hr Hn|e ttl claimer t _ Hl H0 Hr Hn|s t f P Hs HP Hi Hr Hn] [T1 T2 T3 T4]; split; rewrite Hr.
  - done.
  - done.
  - eapply Forall_impl; [exact T3|]. cbn. lia.
  - done.
  - apply Forall_app. split; [done|]. apply Forall_singleton. split; cbn; [by left|done|done|done].
  - rewrite fmap_app, NoDup_app. split_and!; [done| |apply NoDup_singleton].
    intros x Hx Hy. apply list_elem_of_singleton in Hy as ->. apply list_elem_of_fmap in Hx as (r & Hid & Hx).
    rewrite Forall_forall in T3. specialize (T3 r Hx). cbn in Hid. lia.
  - apply Forall_app. rewrite Hn. split; [eapply Forall_impl; [exact T3|]; cbn; lia|]. apply Forall_singleton. cbn. lia.
  - intros e' s Hs. rewrite count_app, count_cons. unfold count at 2. cbn [filter length]. specialize (T4 e' s Hs).
    destruct (of_envelope e' _ && row_is s _) eqn:E; [|cbn; lia].
    apply andb_true_iff in E as [Ee%String.eqb_eq Es%String.eqb_eq]. cbn in Ee, Es. subst e' s. rewrite H0. cbn. lia.
  - apply Forall_fmap, Forall_forall. intros r Hin. rewrite Forall_forall in T1. cbn. apply updated_typed; [done|auto|].
    intros Hp. by destruct (HP r Hin Hp) as (? & _ & ?).
  - by rewrite updated_id.
  - apply Forall_fmap. rewrite Hn. eapply Forall_impl; [exact T3|]. intros r. cbn. unfold updated. by destruct (P r).
  - intros e s' Hs'. destruct (decide (s' = s)) as [->|Hne]; [by apply Hi|]. etrans; [|apply (T4 e s' Hs')].
    apply count_mono. intros r _. by apply updated_old.
Qed.

(** ** Every transaction is such a step *)

Lemma count_filter e Q P rows : (count e Q (filter (λ r : EnvelopeRow, P r = false) rows) ≤ count e Q rows)%nat.
Proof.
  induction rows as [|r rows IH]; [done|]. rewrite filter_cons, (count_cons e Q r rows).
  destruct (decide (P r = false)); [rewrite count_cons|]; lia.
Qed.

Lemma update_index s t f P w :
  forallb (λ r, index_free (er_envelope r) s (filter (λ r, P r = false) (et_rows w))) (filter (λ r, P r = true) (et_rows w))
    = true →
  (negb (indexed s) || Nat.leb (length (filter (λ r, P r = true) (et_rows w))) 1) = true →
  indexed s = true → table_typed w →
  ∀ e, (count e (row_is s) (updated s t f P <$> et_rows w) ≤ 1)%nat.
Proof.
  intros Hf Hl Hs [_ _ _ Ht] e. rewrite Hs in Hl. cbn in Hl. apply Nat.leb_le in Hl. rewrite count_updated.
  pose proof (count_filter e (row_is s) P (et_rows w)) as Hc. specialize (Ht e s Hs).
  destruct (filter (λ r, P r = true) (et_rows w)) as [|r [|]]; [|clear Hl|cbn in Hl; lia].
  - change (count e (λ _, true) []) with O. lia.
  - cbn in Hf. rewrite andb_true_r in Hf. unfold index_free in Hf. rewrite Hs, existsb_count in Hf. cbn in Hf.
    rewrite count_cons. change (count e (λ _, true) []) with O. destruct (of_envelope e r) eqn:E; cbn; [|lia].
    apply String.eqb_eq in E as <-. apply negb_true_iff, negb_false_iff, Nat.eqb_eq in Hf. rewrite Hf. lia.
Qed.

(** An update of pending rows ends them, or the indexes refuse it. *)
Lemma update_rows_step C (D : EnvelopeRow → Prop) s t f P w r w' :
  table_typed w → s ∈ ["COMMITTED"; "REJECTED"; "EXPIRED"] →
  (∀ r, r ∈ et_rows w → P r = true → row_is "PENDING" r = true ∧ D r ∧ (s ≠ "COMMITTED" → f r = er_summary r)) →
  update_rows s t f P w = (r, w') →
  (r = Throw "23505" ∧ w' = w)
  ∨ ((∃ l, r = Ok l) ∧ table_step C D w w' ∧ et_next w' = et_next w).
Proof.
  intros Ht Hs HP. unfold update_rows. destruct (_ && _) eqn:E; intros [= <- <-]; [right|by left].
  apply andb_true_iff in E as [E1 E2]. split; [by eexists|]. split; [|done].
  eapply (ts_end _ _ _ _ s t f P); [done|done| |done|done]. intros Hi. by apply update_index.
Qed.

Lemma transaction_step {A} C D (body : M EnvelopeTable A) w r w' :
  ledger_transaction body w = (r, w') → table_typed w →
  (∀ r0 w0, body w = (r0, w0) → table_step C D w w0 ∨ ((∃ c, r0 = Throw c) ∧ et_next w ≤ et_next w0)) →
  table_step C D w w'.
Proof.
  unfold ledger_transaction. intros E Ht Hb. destruct (body w) as [[a|c] w0]; injection E as <- <-.
  - destruct (Hb _ _ eq_refl) as [?|[[c ?] _]]; done.
  - apply ts_same; [done|]. cbn. destruct (Hb _ _ eq_refl) as [Hs|[_ ?]]; [destruct Hs; lia|lia].
Qed.

Lemma claim_insert_step (C : string → Prop) D e ttl c t w r w' :
  C e → claim_insert e ttl c t w = (r, w') →
  table_step C D w w' ∨ ((∃ c, r = Throw c) ∧ et_next w ≤ et_next w').
Proof.
  intros HC. unfold claim_insert, insert_pending. destruct (2 ^ 31 - 1 <? _).
  { intros [= <- <-]. right. split; [by eexists|lia]. }
  destruct (_ <? 1) eqn:E1; cbn; [intros [= <- <-]; right; cbn; split; [by eexists|lia]|].
  unfold index_free. rewrite existsb_count. cbn. destruct (Nat.eqb _ 0) eqn:E0; cbn; intros [= <- <-]; left.
  - eapply ts_claim; [exact HC| | |cbn; reflexivity|done]; [apply Z.ltb_ge in E1; exact E1|by apply Nat.eqb_eq].
  - apply ts_same; cbn; [done|lia].
Qed.

Lemma claim_check_None e rows : claim_check e rows = None ↔ count e row_active rows = O.
Proof.
  unfold claim_check, count. destruct (filter _ rows); cbn; split; try done.
Qed.

Lemma claim_step D L e ttl c t w r w' :
  claim L e ttl c t w = (r, w') → table_typed w →
  table_step (λ x, x = e ∧ count e row_active (et_rows w) = O) D w w'.
Proof.
  unfold claim. intros E Ht. eapply transaction_step; [exact E|done|]. clear E. intros r0 w0. cbv beta.
  destruct (claim_check e (et_rows w)) eqn:Ec; [intros [= <- <-]; left; by apply ts_same|].
  apply claim_check_None in Ec. by apply claim_insert_step.
Qed.

(** The statuses that end a claim. *)
Lemma ends_committed : "COMMITTED" ∈ ["COMMITTED"; "REJECTED"; "EXPIRED"].
Proof. apply list_elem_of_here. Qed.
Lemma ends_rejected : "REJECTED" ∈ ["COMMITTED"; "REJECTED"; "EXPIRED"].
Proof. apply list_elem_of_further, list_elem_of_here. Qed.
Lemma ends_expired : "EXPIRED" ∈ ["COMMITTED"; "REJECTED"; "EXPIRED"].
Proof. do 2 apply list_elem_of_further. apply list_elem_of_here. Qed.
#[local] Hint Resolve ends_committed ends_rejected ends_expired : core.

Lemma finalize_step C e s c t1 t2 w r w' :
  finalize e s c t1 t2 w = (r, w') → table_typed w →
  table_step C (λ r, of_envelope e r = true ∧ (owned c r = true ∨ lease_end r < t2)) w w'.
Proof.
  unfold finalize. intros E Ht. eapply transaction_step; [exact E|done|]. clear E. intros r0 w0.
  unfold finalizeWithinTransaction. destruct (negb _); destruct (update_rows _ _ _ _ w) as [ru wu] eqn:Eu.
  - eapply (update_rows_step C) in Eu; [destruct Eu as [[-> ->]|([l ->] & Hs & _)]|done|done|].
    + intros [= <- <-]. right. split; [by eexists|lia].
    + intros Heq. left. destruct l; injection Heq as <- <-; exact Hs.
    + intros x _ Hx. apply andb_true_iff in Hx as [? [Hp Hl]%andb_true_iff]. apply Z.ltb_lt in Hl. auto.
  - eapply (update_rows_step C) in Eu; [destruct Eu as [[-> ->]|([l ->] & Hs & Hn)]|done|done|].
    + intros [= <- <-]. right. split; [by eexists|lia].
    + destruct l; intros [= <- <-]; [right; split; [by eexists|lia]|left; exact Hs].
    + intros x _ Hx. unfold finalizable in Hx. rewrite !andb_true_iff in Hx. split; [tauto|]. split; [tauto|done].
Qed.

Lemma reject_step C e c t w r w' :
  reject e c t w = (r, w') → table_typed w →
  table_step C (λ r, of_envelope e r = true ∧ owned c r = true) w w'.
Proof.
  unfold reject. intros E Ht. eapply transaction_step; [exact E|done|]. clear E. intros r0 w0.
  unfold rejectWithinTransaction. destruct (negb _); [intros [= <- <-]; left; by apply ts_same|].
  destruct (update_rows _ _ _ _ w) as [ru wu] eqn:Eu.
  eapply (update_rows_step C) in Eu; [destruct Eu as [[-> ->]|([l ->] & Hs & Hn)]|done|done|].
  - intros [= <- <-]. right. split; [by eexists|lia].
  - destruct l; intros [= <- <-]; [right; split; [by eexists|lia]|left; exact Hs].
  - intros x _ Hx. unfold rejectable in Hx. rewrite !andb_true_iff in Hx. split; [tauto|]. split; [tauto|done].
Qed.

Lemma elem_of_expiring t limit locked rows x :
  x ∈ to_expire t limit locked rows → ∃ r, r ∈ rows ∧ er_id r = x ∧ lapsed t r = true.
Proof.
  unfold to_expire. intros (r & -> & Hr%elem_of_take)%list_elem_of_fmap. destruct Hr as (i & Hr & _).
  apply list_elem_of_lookup_2 in Hr. rewrite merge_sort_Permutation in Hr. apply list_elem_of_filter in Hr as [Hr Hin].
  apply andb_true_iff in Hr as [Hr _]. by exists r.
Qed.

(** Ids are unique, so the row of a chosen id is the chosen one. *)
Lemma same_id w a b : table_typed w → a ∈ et_rows w → b ∈ et_rows w → er_id a = er_id b → a = b.
Proof.
  intros [_ Hn _ _] [i Hi]%list_elem_of_lookup_1 [j Hj]%list_elem_of_lookup_1 Hid.
  assert (i = j) as ->; [|congruence]. eapply NoDup_lookup; [exact Hn| |]; rewrite list_lookup_fmap;
    [rewrite Hi|rewrite Hj]; cbn; [reflexivity|by rewrite Hid].
Qed.

Lemma expire_step C limit locked t w r w' :
  expireStalePending limit locked t w = (r, w') → table_typed w → table_step C (λ r, lease_end r < t) w w'.
Proof.
  unfold expireStalePending. intros E Ht. destruct (limit <? 0); [injection E as <- <-; by apply ts_same|].
  destruct (update_rows _ _ _ _ w) as [ru wu] eqn:Eu.
  eapply (update_rows_step C) in Eu; [destruct Eu as [[-> ->]|([l ->] & Hs & _)]|done|done|].
  - injection E as <- <-. by apply ts_same.
  - injection E as <- <-. exact Hs.
  - intros x Hx Hin%bool_decide_eq_true. apply elem_of_expiring in Hin as (y & Hy & Hid & Hl).
    rewrite (same_id w y x Ht Hy Hx Hid) in Hl. apply andb_true_iff in Hl as [? Hl%Z.ltb_lt]. auto.
Qed.

(** ** Runs *)

(** Whole transactions, one after the other. *)
Inductive ElCall : Type :=
| call_claim (L : EnvelopeLedger) (e : string) (ttl : option Z) (claimer : option string) (t : Z)
| call_finalize (e : string) (summary : option value) (claimer : option string) (t1 t2 : Z)
| call_reject (e : string) (claimer : option string) (t : Z)
| call_expire (limit : Z) (locked : list Z) (t : Z).

Definition el_call (w : EnvelopeTable) (c : ElCall) : EnvelopeTable :=
  match c with
  | call_claim L e ttl c t => (claim L e ttl c t w).2
  | call_finalize e s c t1 t2 => (finalize e s c t1 t2 w).2
  | call_reject e c t => (reject e c t w).2
  | call_expire limit locked t => (expireStalePending limit locked t w).2
  end.

Definition el_run (calls : list ElCall) (w : EnvelopeTable) : EnvelopeTable := foldl el_call w calls.

(** The pending rows that a call may end. *)
Definition may_end (c : ElCall) (r : EnvelopeRow) : Prop :=
  match c with
  | call_claim _ _ _ _ _ => False
  | call_finalize e _ c _ t2 => of_envelope e r = true ∧ (owned c r = true ∨ lease_end r < t2)
  | call_reject e c _ => of_envelope e r = true ∧ owned c r = true
  | call_expire _ _ t => lease_end r < t
  end.

Lemma el_call_step w c :
  table_typed w → table_step (λ e, count e row_active (et_rows w) = O) (may_end c) w (el_call w c).
Proof.
  intros Ht. destruct c as [L e ttl c t|e s c t1 t2|e c t|limit locked t]; cbn [el_call].
  - destruct (claim L e ttl c t w) as [r w'] eqn:E. eapply (claim_step (λ _, False)) in E; [|done].
    destruct E as [? ?|e' ? ? ? [-> ?] ? ? ? ?|? ? ? ? ? HP ? ? ?]; [by apply ts_same|by eapply ts_claim|by eapply ts_end].
  - destruct (finalize e s c t1 t2 w) as [r w'] eqn:E. by eapply finalize_step in E.
  - destruct (reject e c t w) as [r w'] eqn:E. by eapply reject_step in E.
  - destruct (expireStalePending limit locked t w) as [r w'] eqn:E. by eapply expire_step in E.
Qed.

(** One row of an envelope at most is not EXPIRED. *)
Record exclusive (w : EnvelopeTable) : Prop := mkExclusive {
  ex_typed : table_typed w;
  ex_active : ∀ e, (count e row_active (et_rows w) ≤ 1)%nat }.

Lemma pending_active r : row_is "PENDING" r = true → row_active r = true.
Proof. unfold row_active. by intros ->. Qed.

Lemma call_exclusive w c : exclusive w → exclusive (el_call w c).
Proof.
  intros [Ht Ha]. pose proof (el_call_step w c Ht) as Hs. split; [by eapply step_typed|].
  destruct Hs as [Hr _|e ttl claimer t HC _ _ Hr _|s t f P _ HP _ Hr _]; rewrite Hr; intros e'; [done| |].
  - rewrite count_app, count_cons. change (count e' row_active []) with O. specialize (Ha e').
    destruct (of_envelope e' _ && _) eqn:E; [|cbn; lia]. apply andb_true_iff in E as [E%String.eqb_eq _]. cbn in E. subst e'.
    rewrite HC. cbn. lia.
  - etrans; [|apply (Ha e')]. apply count_mono. intros r Hin. unfold updated. destruct (P r) eqn:E; [|done].
    destruct (HP r Hin E) as [Hp _]. intros [He _]%andb_true_iff. unfold of_envelope in *. cbn in He. rewrite He.
    by rewrite (pending_active r Hp).
Qed.

Lemma run_exclusive calls w : exclusive w → exclusive (el_run calls w).
Proof. revert w. induction calls as [|c calls IH]; [done|]. intros w Hw. cbn. apply IH. by apply call_exclusive. Qed.

Lemma empty_exclusive n : exclusive (mkEnvelopeTable [] n).
Proof. split; [split; [constructor|constructor|constructor|]|]; intros; cbn; lia. Qed.

(** A row that no call may end stays at its place. *)
Lemma call_keeps_row w c i r :
  exclusive w → et_rows w !! i = Some r → (row_is "PENDING" r = true → ¬ may_end c r) → et_rows (el_call w c) !! i = Some r.
Proof.
  intros [Ht _] Hi Hm. destruct (el_call_step w c Ht) as [Hr _|e ttl claimer t _ _ _ Hr _|s t f P _ HP _ Hr _]; rewrite Hr.
  - done.
  - by apply lookup_app_l_Some.
  - rewrite list_lookup_fmap, Hi. cbn. unfold updated. destruct (P r) eqn:E; [|done].
    destruct (HP r) as (Hp & Hd & _); [by eapply list_elem_of_lookup_2|done|]. by destruct (Hm Hp).
Qed.

Lemma run_keeps_row calls w i r :
  exclusive w → et_rows w !! i = Some r → (row_is "PENDING" r = true → Forall (λ c, ¬ may_end c r) calls) →
  et_rows (el_run calls w) !! i = Some r.
Proof.
  revert w. induction calls as [|c calls IH]; intros w Hw Hi Hm; [done|]. cbn. apply IH; [by apply call_exclusive| |].
  - apply call_keeps_row; [done..|]. intros Hp. by apply Hm in Hp as [? _]%Forall_cons.
  - intros Hp. by apply Hm in Hp as [_ ?]%Forall_cons.
Qed.

(** ** The row of an envelope *)

(** The pending row of an envelope; there is one at most. *)
Definition pending_of (e : string) (rows : list EnvelopeRow) : option EnvelopeRow :=
  find (λ r, of_envelope e r && row_is "PENDING" r) rows.

(** The row with the id of [r] ends in [s]. *)
Definition end_claim (r : EnvelopeRow) (s : string) (t : Z) (summary : option value) (w : EnvelopeTable) : EnvelopeTable :=
  with_rows (fmap (λ x, if er_id x =? er_id r then set_status s t summary x else x)) w.

Lemma active_unique w e a b :
  exclusive w → a ∈ et_rows w → b ∈ et_rows w →
  of_envelope e a && row_active a = true → of_envelope e b && row_active b = true → a = b.
Proof.
  intros [_ Ha] [i Hi]%list_elem_of_lookup_1 [j Hj]%list_elem_of_lookup_1 Qa Qb.
  pose proof (count_unique e row_active _ i j a b (Ha e) Hi Hj Qa Qb) as ->. congruence.
Qed.

Lemma pending_of_Some e w r :
  pending_of e (et_rows w) = Some r → r ∈ et_rows w ∧ of_envelope e r = true ∧ row_is "PENDING" r = true.
Proof.
  intros [Hin Hr]%find_some. apply andb_true_iff in Hr. by rewrite list_elem_of_In.
Qed.
Lemma pending_of_None e w x :
  pending_of e (et_rows w) = None → x ∈ et_rows w → of_envelope e x && row_is "PENDING" x = false.
Proof. intros Hn Hx. rewrite list_elem_of_In in Hx. exact (find_none _ _ Hn x Hx). Qed.

Lemma pending_only w e r x :
  exclusive w → pending_of e (et_rows w) = Some r → x ∈ et_rows w →
  of_envelope e x && row_is "PENDING" x = true ↔ x = r.
Proof.
  intros Hw (Hr & He & Hp)%pending_of_Some Hx. split; [|intros ->; by rewrite He, Hp].
  intros [Ex Px]%andb_true_iff. apply (active_unique w e); [done|done|done|by rewrite Ex, pending_active|].
  by rewrite He, pending_active.
Qed.

Lemma filter_one (P : EnvelopeRow → bool) l r :
  NoDup l → r ∈ l → (∀ x, x ∈ l → P x = true ↔ x = r) → filter (λ x, P x = true) l = [r].
Proof.
  induction l as [|y l IH]; intros Hn Hr HP; [inversion Hr|]. apply NoDup_cons in Hn as [Hy Hn].
  rewrite filter_cons. destruct (P y) eqn:E.
  - rewrite decide_True by done. apply HP in E as ->; [|left]. f_equal.
    destruct (filter (λ x, P x = true) l) as [|z l'] eqn:E; [done|].
    assert (z ∈ filter (λ x, P x = true) l) as Hz by (rewrite E; left). apply list_elem_of_filter in Hz as [Pz Hz].
    apply HP in Pz; [subst z; done|by right].
  - rewrite decide_False by done. apply elem_of_cons in Hr as [->|Hr].
    { rewrite (proj2 (HP y (list_elem_of_here _ _)) eq_refl) in E. done. }
    apply IH; [done..|]. intros x Hx. apply HP. by right.
Qed.

Lemma rows_NoDup w : table_typed w → NoDup (et_rows w).
Proof. intros Ht. eapply NoDup_fmap_1, (tt_ids w Ht). Qed.

(** Ending the one active row of an envelope is not refused. *)
Lemma update_one s t f P w e r :
  exclusive w → pending_of e (et_rows w) = Some r → s ∈ ["COMMITTED"; "REJECTED"; "EXPIRED"] →
  (∀ x, x ∈ et_rows w → P x = true ↔ x = r) →
  update_rows s t f P w = (Ok [set_status s t (f r) r], end_claim r s t (f r) w).
Proof.
  intros Hw Hp Hs HP. pose proof Hp as (Hr & He & Hpend)%pending_of_Some. unfold update_rows.
  rewrite (filter_one P _ r (rows_NoDup w (ex_typed w Hw)) Hr HP). cbn [forallb length fmap list_fmap].
  assert (index_free (er_envelope r) s (filter (λ x, P x = false) (et_rows w)) = true) as ->.
  { unfold index_free. rewrite existsb_count. destruct (indexed s) eqn:Ei; [|done]. cbn. rewrite negb_involutive. apply Nat.eqb_eq.
    apply count_zero. intros x [Px Hx]%list_elem_of_filter. apply not_true_is_false. intros [Ex Sx]%andb_true_iff.
    assert (row_active x = true) as Ax.
    { unfold row_active, row_final, row_is in *. apply String.eqb_eq in Sx. rewrite Sx. unfold indexed in Ei.
      apply bool_decide_eq_true in Ei. rewrite !elem_of_cons, elem_of_nil in Ei. by destruct Ei as [->|[->|[->|[]]]]. }
    assert (x = r) as ->; [|by rewrite (proj2 (HP r Hr) eq_refl) in Px].
    apply (active_unique w (er_envelope r)); [done|done|done|by rewrite Ex, Ax|].
    unfold of_envelope. by rewrite String.eqb_refl, pending_active. }
  rewrite orb_true_r. cbn. do 2 f_equal. unfold end_claim, with_rows. f_equal. apply list_fmap_ext. intros i x Hx%list_elem_of_lookup_2.
  destruct (Z.eqb_spec (er_id x) (er_id r)) as [Hid|Hid].
  - rewrite (same_id w x r (ex_typed w Hw) Hx Hr Hid). by rewrite (proj2 (HP r Hr) eq_refl).
  - destruct (P x) eqn:Px; [|done]. apply HP in Px as ->; [done|exact Hx].
Qed.

Lemma update_none s t f P w :
  (∀ x, x ∈ et_rows w → P x = false) → update_rows s t f P w = (Ok [], w).
Proof.
  intros HP. unfold update_rows. assert (filter (λ r, P r = true) (et_rows w) = []) as ->.
  { destruct (filter _ _) as [|z l] eqn:E; [done|].
    assert (z ∈ filter (λ r, P r = true) (et_rows w)) as Hz by (rewrite E; left).
    apply list_elem_of_filter in Hz as [Pz Hz]. by rewrite HP in Pz. }
  cbn. rewrite orb_true_r. do 2 f_equal. destruct w as [rows n]. unfold with_rows. cbn in *. f_equal.
  rewrite <- (list_fmap_id rows) at 2. apply list_fmap_ext. intros i x Hx%list_elem_of_lookup_2. by rewrite HP.
Qed.

Lemma existsb_elem (P : EnvelopeRow → bool) l : existsb P l = true ↔ ∃ x, x ∈ l ∧ P x = true.
Proof. rewrite existsb_exists. by setoid_rewrite list_elem_of_In. Qed.

(** ** Theorems *)

Lemma pending_summary w e r : exclusive w → pending_of e (et_rows w) = Some r → er_summary r = None.
Proof.
  intros [[Ht _ _ _] _] (Hr & _ & Hp%String.eqb_eq)%pending_of_Some. rewrite Forall_forall in Ht.
  destruct (Ht r Hr) as [_ _ _ Hs]. apply Hs. by rewrite Hp.
Qed.

Lemma pending_not_final w e r :
  exclusive w → pending_of e (et_rows w) = Some r → has_final e (et_rows w) = false.
Proof.
  intros Hw Hp. apply not_true_is_false. intros (x & Hx & Fx)%existsb_elem. apply andb_true_iff in Fx as [Ex Fx].
  pose proof Hp as (Hr & He & Hpend)%pending_of_Some.
  assert (x = r) as ->.
  { apply (active_unique w e); [done..| |by rewrite He, pending_active]. unfold row_active. by rewrite Ex, Fx, orb_true_r. }
  unfold row_final, row_is in *. apply String.eqb_eq in Hpend. rewrite Hpend in Fx. done.
Qed.

Section pending_row.
Context (w : EnvelopeTable) (e : string) (r : EnvelopeRow).
Context (Hw : exclusive w) (Hp : pending_of e (et_rows w) = Some r).

Lemma finalizable_at c t x :
  x ∈ et_rows w → finalizable e c t x = true ↔ x = r ∧ (t <=? lease_end r) && owned c r = true.
Proof.
  intros Hx. pose proof (pending_only w e r x Hw Hp Hx) as Ho. unfold finalizable. split.
  - intros [[Px%Ho Tx]%andb_true_iff Ox]%andb_true_iff. subst x. by rewrite Tx, Ox.
  - intros [Ex H]. rewrite <- andb_assoc, (proj2 Ho Ex), Ex. exact H.
Qed.

Lemma finalizable_exists c t : existsb (finalizable e c t) (et_rows w) = (t <=? lease_end r) && owned c r.
Proof.
  pose proof Hp as (Hr & _)%pending_of_Some. apply eq_bool_prop_intro. rewrite !Is_true_true, existsb_elem. split.
  - intros (x & Hx & [_ H]%finalizable_at); done.
  - intros H. exists r. split; [done|]. by apply finalizable_at.
Qed.

Lemma lapsed_at t x : x ∈ et_rows w → of_envelope e x && lapsed t x = true ↔ x = r ∧ lease_end r < t.
Proof.
  intros Hx. pose proof (pending_only w e r x Hw Hp Hx) as Ho. unfold lapsed. rewrite andb_assoc, andb_true_iff, Z.ltb_lt, Ho.
  naive_solver.
Qed.

Lemma rejectable_at c x : x ∈ et_rows w → rejectable e c x = true ↔ x = r ∧ owned c r = true.
Proof.
  intros Hx. pose proof (pending_only w e r x Hw Hp Hx) as Ho. unfold rejectable. rewrite andb_true_iff, Ho. naive_solver.
Qed.

Lemma commit_pending s c t :
  (t <=? lease_end r) && owned c r = true →
  update_rows "COMMITTED" t (λ _, s) (finalizable e c t) w = (Ok [set_status "COMMITTED" t s r], end_claim r "COMMITTED" t s w).
Proof.
  intros H. apply (update_one _ _ _ _ _ e r Hw Hp); [done|]. intros x Hx. rewrite finalizable_at by done. naive_solver.
Qed.

Lemma expire_pending t :
  lease_end r < t →
  update_rows "EXPIRED" t er_summary (λ x, of_envelope e x && lapsed t x) w
  = (Ok [set_status "EXPIRED" t None r], end_claim r "EXPIRED" t None w).
Proof.
  intros H. rewrite (update_one _ _ _ _ _ e r Hw Hp); [by rewrite (pending_summary w e r Hw Hp)|done|].
  intros x Hx. rewrite lapsed_at by done. naive_solver.
Qed.

Lemma expire_live t :
  t ≤ lease_end r → update_rows "EXPIRED" t er_summary (λ x, of_envelope e x && lapsed t x) w = (Ok [], w).
Proof.
  intros H. apply update_none. intros x Hx. apply not_true_is_false. rewrite lapsed_at by done. lia.
Qed.

End pending_row.

(** [finalize] in full: with no pending claim it says whether the envelope is
    done; a live claim of the caller (or of nobody in particular) is committed;
    a live claim of somebody else is not found; a lapsed claim is marked
    EXPIRED, whoever asks, and when it lapses between the two statements the
    call throws and changes nothing. *)
Lemma finalize_full e s c t1 t2 w :
  exclusive w → t1 ≤ t2 →
  finalize e s c t1 t2 w =
  match pending_of e (et_rows w) with
  | None => (Ok (finalize_failure (if has_final e (et_rows w) then ALREADY_FINAL else NOT_FOUND) e), w)
  | Some r =>
      if t2 <=? lease_end r then
        if owned c r then (Ok (finalize_success e t2), end_claim r "COMMITTED" t2 s w)
        else (Ok (finalize_failure NOT_FOUND e), w)
      else if owned c r && (t1 <=? lease_end r) then (Throw "Error", w)
      else (Ok (finalize_failure LEASE_EXPIRED e), end_claim r "EXPIRED" t2 None w)
  end.
Proof.
  intros Hw Hle. unfold finalize, ledger_transaction, finalizeWithinTransaction.
  destruct (pending_of e (et_rows w)) as [r|] eqn:Hp.
  - rewrite (finalizable_exists w e r Hw Hp). destruct (Z.leb_spec t2 (lease_end r)) as [H2|H2].
    + rewrite (proj2 (Z.leb_le t1 (lease_end r))) by lia. destruct (owned c r) eqn:Ho; cbn [andb negb].
      * rewrite (commit_pending w e r Hw Hp); [done|]. by rewrite Ho, andb_true_r, Z.leb_le.
      * by rewrite (expire_live w e r Hw Hp), (pending_not_final w e r Hw Hp).
    + rewrite (andb_comm (owned c r)). destruct ((t1 <=? lease_end r) && owned c r); cbn [negb].
      * rewrite update_none; [by destruct w|]. intros x Hx. apply not_true_is_false. rewrite (finalizable_at w e r Hw Hp) by done.
        rewrite andb_true_iff, Z.leb_le. lia.
      * by rewrite (expire_pending w e r Hw Hp).
  - assert (∀ x, x ∈ et_rows w → of_envelope e x && row_is "PENDING" x = false) as Hn by (intros x; by apply pending_of_None).
    assert (existsb (finalizable e c t1) (et_rows w) = false) as ->.
    { apply not_true_is_false. intros (x & Hx & Fx)%existsb_elem. unfold finalizable in Fx. by rewrite Hn in Fx. }
    cbn [negb]. rewrite update_none; [done|]. intros x Hx. unfold lapsed. by rewrite andb_assoc, Hn.
Qed.

Lemma final_not_pending w e r :
  exclusive w → r ∈ et_rows w → of_envelope e r = true → row_final r = true → pending_of e (et_rows w) = None.
Proof.
  intros Hw Hr He Hf. destruct (pending_of e (et_rows w)) as [p|] eqn:Hp; [|done].
  pose proof (pending_not_final w e p Hw Hp) as Hn. unfold has_final in Hn.
  assert (existsb (λ r, of_envelope e r && row_final r) (et_rows w) = true); [|congruence].
  apply existsb_elem. exists r. by rewrite He, Hf.
Qed.

Lemma final_has_final w e r : r ∈ et_rows w → of_envelope e r = true → row_final r = true → has_final e (et_rows w) = true.
Proof. intros Hr He Hf. apply existsb_elem. exists r. by rewrite He, Hf. Qed.

Lemma final_active r : row_final r = true → row_active r = true.
Proof. unfold row_active. intros ->. apply orb_true_r. Qed.

Lemma only_active w e r :
  exclusive w → r ∈ et_rows w → of_envelope e r = true → row_active r = true →
  filter (λ x, (of_envelope e x && row_active x) = true) (et_rows w) = [r].
Proof.
  intros Hw Hr He Ha. apply filter_one; [by apply rows_NoDup, ex_typed|done|]. intros x Hx. split.
  - intros H. apply (active_unique w e); [done..|]. by rewrite He, Ha.
  - intros ->. by rewrite He, Ha.
Qed.

Definition entry_of (r : EnvelopeRow) : EnvelopeLedgerEntry :=
  mkEntry (er_id r) (er_envelope r) (er_status r) (er_ttl r) (er_claimer r) (er_claimedAt r) (er_finalizedAt r) (er_summary r)
    (er_createdAt r).

Lemma mapRow_typed r : row_typed r → mapRow r = Ok (entry_of r).
Proof. intros [Hs _ _ _]. unfold mapRow, parseLedgerClaimStatus, isLedgerClaimStatus. by rewrite bool_decide_true. Qed.

Lemma typed_active r : row_typed r → negb (row_is "EXPIRED" r) = row_active r.
Proof.
  intros [Hs _ _ _]. unfold LEDGER_CLAIM_STATUSES in Hs. rewrite !elem_of_cons, elem_of_nil in Hs.
  unfold row_active, row_final, row_is. by destruct Hs as [->|[->|[->|[->|[]]]]].
Qed.

Lemma getEntry_active w e r :
  exclusive w → r ∈ et_rows w → of_envelope e r = true → row_active r = true → getEntry e w = Ok (Some (entry_of r)).
Proof.
  intros Hw Hr He Ha. pose proof (ex_typed w Hw) as [Ht _ _ _]. rewrite Forall_forall in Ht. unfold getEntry, latest.
  rewrite (filter_one _ _ r); [cbn; by rewrite mapRow_typed by auto|by apply rows_NoDup, ex_typed|done|].
  intros x Hx. rewrite (typed_active x) by auto. split.
  - intros H. apply (active_unique w e); [done..|]. by rewrite He, Ha.
  - intros ->. by rewrite He, Ha.
Qed.

(** An outcome is final: once an envelope is COMMITTED or REJECTED, no sequence
    of transactions changes its row, [getEntry] shows it, and every later claim,
    finalize or reject of the envelope, by anybody and at any time, is refused
    as done. *)
Theorem outcome_final w calls e r :
  exclusive w → r ∈ et_rows w → of_envelope e r = true → row_final r = true →
  let w' := el_run calls w in
  getEntry e w' = Ok (Some (entry_of r))
  ∧ (∀ L ttl c t, claim L e ttl c t w' = (Ok (claim_conflict ALREADY_TERMINAL e), w'))
  ∧ (∀ s c t1 t2, t1 ≤ t2 → finalize e s c t1 t2 w' = (Ok (finalize_failure ALREADY_FINAL e), w'))
  ∧ (∀ c t, reject e c t w' = (Ok (reject_failure REJECT_ALREADY_FINAL e), w')).
Proof.
  intros Hw [i Hi]%list_elem_of_lookup_1 He Hf w'. assert (exclusive w') as Hw' by by apply run_exclusive.
  assert (r ∈ et_rows w') as Hr.
  { apply (list_elem_of_lookup_2 _ i), run_keeps_row; [done..|]. intros Hp%String.eqb_eq.
    unfold row_final, row_is in Hf. by rewrite Hp in Hf. }
  pose proof (final_not_pending w' e r Hw' Hr He Hf) as Hn. split_and!.
  - apply getEntry_active; [done..|]. by apply final_active.
  - intros L ttl c t. unfold claim, ledger_transaction, claim_check.
    by rewrite (only_active w' e r Hw' Hr He (final_active r Hf)), Hf.
  - intros s c t1 t2 Hle. rewrite finalize_full by done. by rewrite Hn, (final_has_final w' e r Hr He Hf).
  - intros c t. unfold reject, ledger_transaction, rejectWithinTransaction.
    assert (existsb (rejectable e c) (et_rows w') = false) as ->.
    { apply not_true_is_false. intros (x & Hx & Rx)%existsb_elem. unfold rejectable in Rx.
      by rewrite (pending_of_None e w' x Hn Hx) in Rx. }
    cbn [negb]. by rewrite (final_has_final w' e r Hr He Hf).
Qed.

(** ** Leases *)

(** Calls that keep to the rules while [c] holds the lease: the clock has not
    passed its end, and nobody finalizes or rejects the envelope under the name
    [c] or under no name. *)
Definition foreign_call (e c : string) (deadline : Z) (call : ElCall) : Prop :=
  match call with
  | call_claim _ _ _ _ _ => True
  | call_finalize e' _ c' _ t2 => t2 ≤ deadline ∧ (e' = e → ∃ other, c' = Some other ∧ other ≠ c)
  | call_reject e' c' _ => e' = e → ∃ other, c' = Some other ∧ other ≠ c
  | call_expire _ _ t => t ≤ deadline
  end.

Lemma foreign_cannot_end e c call r :
  er_envelope r = e → er_claimer r = Some c → foreign_call e c (lease_end r) call → ¬ may_end call r.
Proof.
  intros He Hc. destruct call as [| e' s c' t1 t2| e' c' t|]; cbn; unfold of_envelope, owned; rewrite ?String.eqb_eq, ?He, ?Hc.
  - tauto.
  - intros [Ht Ho] [<- [H|H]]; [|lia]. destruct (Ho eq_refl) as (o & -> & Hne). apply String.eqb_eq in H. congruence.
  - intros Ho [<- H]. destruct (Ho eq_refl) as (o & -> & Hne). apply String.eqb_eq in H. congruence.
  - lia.
Qed.

Lemma claim_success_inv L e ttl c t w id e' at' ttl' w1 :
  claim L e ttl c t w = (Ok (claim_success id e' at' ttl'), w1) →
  et_rows w1 = et_rows w ++ [mkEnvelopeRow (et_next w) e "PENDING" ttl' c t None None t] ∧ e' = e ∧ at' = t.
Proof.
  unfold claim, ledger_transaction, claim_insert, insert_pending.
  destruct (claim_check e (et_rows w)) as [conflict|] eqn:Ec; [intros [= -> ->]; unfold claim_check in Ec; by destruct (filter _ _)|].
  destruct (2 ^ 31 - 1 <? _); [done|]. destruct (_ <? 1); [done|]. destruct (index_free _ _ _); [|done].
  unfold mapRow, parseLedgerClaimStatus. cbn. by intros [= <- <- <- <- <-].
Qed.

(** A lease protects its holder: after a successful claim by [c], whatever
    transactions others run while the lease lasts, the holder's finalize within
    the lease succeeds. *)
Theorem lease_protects L e ttl c t w id e' at' ttl' w1 calls s t1 t2 :
  exclusive w → claim L e ttl (Some c) t w = (Ok (claim_success id e' at' ttl'), w1) →
  Forall (foreign_call e c (t + ttl' * 1000000)) calls → t1 ≤ t2 ≤ t + ttl' * 1000000 →
  (finalize e s (Some c) t1 t2 (el_run calls w1)).1 = Ok (finalize_success e t2).
Proof.
  intros Hw Hc Hf Ht. assert (exclusive w1) as Hw1.
  { replace w1 with (el_call w (call_claim L e ttl (Some c) t)) by (cbn; by rewrite Hc). by apply call_exclusive. }
  apply claim_success_inv in Hc as (Hr & _ & _).
  pose (row := mkEnvelopeRow (et_next w) e "PENDING" ttl' (Some c) t None None t).
  assert (et_rows w1 !! length (et_rows w) = Some row) as Hi by (rewrite Hr; by apply list_lookup_middle).
  apply (run_keeps_row calls) in Hi; [|done|].
  - pose proof (run_exclusive calls w1 Hw1) as Hw'. rewrite finalize_full by (done || lia).
    apply list_elem_of_lookup_2 in Hi.
    assert (of_envelope e row && row_is "PENDING" row = true) as Hrow by (unfold of_envelope; cbn; by rewrite String.eqb_refl).
    destruct (pending_of e _) as [r|] eqn:Hp; [|by rewrite (pending_of_None e _ row Hp Hi) in Hrow].
    apply (pending_only _ e r row Hw' Hp Hi) in Hrow as <-. unfold lease_end, owned. cbn.
    rewrite (proj2 (Z.leb_le _ _)) by lia. by rewrite String.eqb_refl.
  - intros _. eapply Forall_impl; [exact Hf|]. intros call. by apply (foreign_cannot_end e c call row).
Qed.

(** ** Recovery *)

Lemma to_expire_all t limit rows :
  Z.of_nat (length (filter (λ r, lapsed t r = true) rows)) ≤ limit →
  ∀ x, x ∈ rows → lapsed t x = true → er_id x ∈ to_expire t limit [] rows.
Proof.
  intros Hl x Hx Hp. unfold to_expire. apply list_elem_of_fmap. exists x. split; [done|].
  assert (x ∈ filter (λ r, (lapsed t r && negb (bool_decide (er_id r ∈ []))) = true) rows) as Hin.
  { apply list_elem_of_filter. split; [|done]. rewrite Hp, bool_decide_false; [done|apply not_elem_of_nil]. }
  rewrite take_ge; [by rewrite merge_sort_Permutation|]. rewrite merge_sort_Permutation.
  rewrite (list_filter_iff _ (λ r, lapsed t r = true)); [lia|].
  intros r. rewrite bool_decide_false by apply not_elem_of_nil. by rewrite andb_true_r.
Qed.

Lemma expire_runs limit locked t w :
  0 ≤ limit →
  expireStalePending limit locked t w
  = (Ok (length (filter (λ r, bool_decide (er_id r ∈ to_expire t limit locked (et_rows w)) = true) (et_rows w))),
     with_rows (fmap (updated "EXPIRED" t er_summary (λ r, bool_decide (er_id r ∈ to_expire t limit locked (et_rows w))))) w).
Proof.
  intros Hl. unfold expireStalePending. rewrite (proj2 (Z.ltb_ge limit 0)) by lia. unfold update_rows.
  rewrite (proj2 (forallb_forall _ _)) by done. cbn [andb]. by rewrite orb_true_l, length_fmap.
Qed.

(** A sweep recovers from crashed claimers: it never throws, and when its batch
    is large enough no lapsed claim is left, and every envelope whose claim had
    lapsed can be claimed again. *)
Theorem lapsed_claims_recovered L w limit t r ttl c t' :
  exclusive w → Z.of_nat (length (filter (λ r, lapsed t r = true) (et_rows w))) ≤ limit →
  r ∈ et_rows w → lapsed t r = true → 1 ≤ ttl < 2 ^ 31 →
  let '(n, w') := expireStalePending limit [] t w in
  (∃ k, n = Ok k) ∧ (∀ x, x ∈ et_rows w' → lapsed t x = false)
  ∧ ∃ id, (claim L (er_envelope r) (Some ttl) c t' w').1 = Ok (claim_success id (er_envelope r) t' ttl).
Proof.
  intros Hw Hl Hr Hlap Httl. pose proof (to_expire_all t limit (et_rows w) Hl) as Hall.
  rewrite expire_runs by lia. set (w' := with_rows _ w). split; [by eexists|].
  assert (∀ x, x ∈ et_rows w' → lapsed t x = false) as Hnone.
  { intros x. unfold w'. cbn. intros (y & -> & Hy)%list_elem_of_fmap. unfold updated. case_bool_decide as Hin; [done|].
    apply not_true_is_false. auto. }
  split; [done|]. assert (exclusive w') as Hw'.
  { replace w' with (el_call w (call_expire limit [] t)) by (cbn; by rewrite expire_runs by lia). by apply call_exclusive. }
  assert (count (er_envelope r) row_active (et_rows w') = O) as H0.
  { apply count_zero. intros x. unfold w'. cbn. intros (y & -> & Hy)%list_elem_of_fmap. apply not_true_is_false. unfold updated.
    case_bool_decide as Hin; [cbn; by rewrite andb_false_r|]. intros Hx.
    apply Hin, Hall; [done|]. rewrite (active_unique w (er_envelope r) y r); [done|done|done|done|done|].
    unfold of_envelope. rewrite String.eqb_refl. apply andb_true_iff in Hlap as [Hp _]. by apply pending_active. }
  assert (count (er_envelope r) (row_is "PENDING") (et_rows w') = O) as Hp.
  { apply count_zero. intros x Hx. rewrite count_zero in H0. specialize (H0 x Hx).
    destruct (of_envelope _ x); [|done]. cbn in *. destruct (row_is "PENDING" x) eqn:E; [|done]. by rewrite pending_active in H0. }
  eexists. unfold claim, ledger_transaction. rewrite (proj2 (claim_check_None _ _) H0). unfold claim_insert, insert_pending, default.
  change (id ttl) with ttl.
    rewrite (proj2 (Z.ltb_ge (2 ^ 31 - 1) (Z.abs ttl))) by lia. rewrite (proj2 (Z.ltb_ge ttl 1)) by lia.
  unfold index_free. rewrite existsb_count, Hp. cbn. reflexivity.
Qed.

(** ** Overlapping claims *)

(** A claim that found no row has locked nothing; other transactions may commit
    before its INSERT.  [es_open] holds the claims between their statements. *)
Record ElProcess : Type := mkElProcess { es_table : EnvelopeTable; es_open : list string }.

Inductive el_step : ElProcess → ElProcess → Prop :=
| es_call c s : el_step s (mkElProcess (el_call (es_table s) c) (es_open s))
| es_select e s : claim_check e (et_rows (es_table s)) = None →
    el_step s (mkElProcess (es_table s) (e :: es_open s))
| es_insert e ttl c t o1 o2 s : es_open s = o1 ++ e :: o2 →
    el_step s (mkElProcess (ledger_transaction (claim_insert e ttl c t) (es_table s)).2 (o1 ++ o2)).

(** The table is well typed under every interleaving: statuses are valid, so
    that rows can be read, leases are positive, a row has an end exactly when it
    is no longer pending, ids are unique, and no envelope has two rows that are
    PENDING, COMMITTED or REJECTED. *)
Theorem envelope_table_typed s n :
  rtc el_step (mkElProcess (mkEnvelopeTable [] n) []) s → table_typed (es_table s).
Proof.
  intros Hs. assert (∀ a b, rtc el_step a b → table_typed (es_table a) → table_typed (es_table b)) as Hpres.
  { induction 1 as [|a b d Hab _ IH]; [done|]. intros Ha. apply IH. destruct Hab as [c s0|e s0|e ttl c t o1 o2 s0 Ho]; cbn.
    - eapply step_typed; [by apply el_call_step|done].
    - done.
    - destruct (ledger_transaction _ _) as [r w'] eqn:E. eapply step_typed; [|exact Ha].
      eapply (transaction_step (λ _, True) (λ _, False)); [exact E|done|]. intros r0 w0 H0. by eapply claim_insert_step. }
  apply (Hpres _ _ Hs). apply empty_exclusive.
Qed.
