(* ===== verification/EnvelopeExamples.v ===== *)
(** * Concrete envelope ledgers

    Runs on an empty table: the values at which the theorems of EnvelopeLedger.v
    are applied, and an interleaving of two claims that ends an envelope twice. *)
From S2P Require Import Prelude JsValue EnvelopeLedger.

Definition ex_ledger : EnvelopeLedger := new_ledger None.
Definition ex_empty : EnvelopeTable := mkEnvelopeTable [] 1.

(** "e1" is claimed by "a" for 30 seconds and committed after one. *)
Definition ex_claimed : EnvelopeTable := el_run [call_claim ex_ledger "e1" None (Some "a") 0] ex_empty.
Definition ex_committed : EnvelopeTable := el_run [call_finalize "e1" None (Some "a") 1000000 1000001] ex_claimed.

Definition ex_row (w : EnvelopeTable) : EnvelopeRow :=
  default (mkEnvelopeRow 0 "" "" 0 None 0 None None 0) (head (et_rows w)).

Example committed_entry : getEntry "e1" ex_committed = Ok (Some (entry_of (ex_row ex_committed))).
Proof. vm_compute. reflexivity. Qed.

Lemma outcome_final_witness :
  (claim ex_ledger "e1" None (Some "b") 3 (el_run [call_expire 10 [] 99000000] ex_committed)).1
  = Ok (claim_conflict ALREADY_TERMINAL "e1").
Proof.
  destruct (outcome_final ex_committed [call_expire 10 [] 99000000] "e1" (ex_row ex_committed)) as (_ & H & _).
  - unfold ex_committed, ex_claimed. do 2 apply run_exclusive. apply empty_exclusive.
  - vm_compute. left.
  - vm_compute. reflexivity.
  - vm_compute. reflexivity.
  - rewrite H. reflexivity.
Defined.

(** Another claimer tries to claim, to finalize and to sweep; the holder
    finalizes at the end of the lease. *)
Lemma lease_protects_witness :
  (finalize "e1" None (Some "a") 30000000 30000000
     (el_run [call_claim ex_ledger "e1" None (Some "b") 2; call_finalize "e1" None (Some "b") 3 4; call_expire 10 [] 30000000]
        ex_claimed)).1
  = Ok (finalize_success "e1" 30000000).
Proof.
  apply (lease_protects ex_ledger "e1" None "a" 0 ex_empty 1 "e1" 0 30 ex_claimed).
  - apply empty_exclusive.
  - vm_compute. reflexivity.
  - repeat apply Forall_cons_2; [exact I| |cbn; lia|constructor].
    split; [lia|]. intros _. exists "b". split; [reflexivity|discriminate].
  - lia.
Defined.

Lemma lapsed_claims_recovered_witness :
  ∃ id, (claim ex_ledger "e1" (Some 5) (Some "b") 40000001 (expireStalePending 10 [] 40000000 ex_claimed).2).1
        = Ok (claim_success id "e1" 40000001 5).
Proof.
  pose proof (lapsed_claims_recovered ex_ledger ex_claimed 10 40000000 (ex_row ex_claimed) 5 (Some "b") 40000001) as H.
  destruct (expireStalePending 10 [] 40000000 ex_claimed) as [n w']. destruct H as (_ & _ & H).
  - unfold ex_claimed. apply run_exclusive, empty_exclusive.
  - vm_compute. discriminate.
  - vm_compute. left.
  - vm_compute. reflexivity.
  - lia.
  - exact H.
Defined.

(** ** Overlapping claims *)

(** "b" looks for a row before "a" has claimed, and inserts its claim after "a"
    has committed. *)
Definition overlap : ElProcess :=
  mkElProcess
    (el_call
       (ledger_transaction (claim_insert "e1" 30 (Some "b") 2)
          (el_call (el_call ex_empty (call_claim ex_ledger "e1" None (Some "a") 0)) (call_finalize "e1" None (Some "a") 1 1))).2
       (call_reject "e1" (Some "b") 3)) [].

Lemma overlap_reached : rtc el_step (mkElProcess ex_empty []) overlap.
Proof.
  eapply rtc_l; [apply (es_select "e1"); vm_compute; reflexivity|].
  eapply rtc_l; [apply (es_call (call_claim ex_ledger "e1" None (Some "a") 0))|].
  eapply rtc_l; [apply (es_call (call_finalize "e1" None (Some "a") 1 1))|].
  eapply rtc_l; [apply (es_insert "e1" 30 (Some "b") 2 [] []); reflexivity|].
  eapply rtc_l; [apply (es_call (call_reject "e1" (Some "b") 3))|].
  apply rtc_refl.
Qed.

Lemma envelope_table_typed_witness : table_typed (es_table overlap).
Proof. apply (envelope_table_typed overlap 1). exact overlap_reached. Defined.

(** Two overlapping claims of one envelope both succeed, one after the other has
    been committed, and the envelope ends COMMITTED and REJECTED. *)
Theorem overlapping_claims_two_outcomes :
  ∃ s a b, rtc el_step (mkElProcess ex_empty []) s ∧ et_rows (es_table s) = [a; b]
    ∧ er_envelope a = er_envelope b ∧ er_status a = "COMMITTED" ∧ er_status b = "REJECTED".
Proof.
  exists overlap. do 2 eexists. split; [exact overlap_reached|]. split; [vm_compute; reflexivity|]. done.
Qed.
