(* ===== verification/CrossSettle.v ===== *)
(** * Settlement across trust domains

    Models packages/policy/src/cross-domain-settle: the recipient's append,
    confirmation and reaping of settle records, and the sender's requests and
    pull reconciliation with its composite cursor.  The tables settle_records
    and reconciliation_cursors hold instants in microseconds; the text of a
    timestamp is read by the database, a parameter.  Ids are ordered by their
    bytes. *)
From S2P Require Import Prelude JsValue Time Encoding Crypto Authorization ActionRecords SignedPayload.

(** ** Data *)

Record SettleProtocolConfig : Type := mkSettleConfig {
  pendingTtlMs : Z;
  reapIntervalMs : Z;
  reconcileBatchSize : Z }.
Definition DEFAULT_CONFIG : SettleProtocolConfig := mkSettleConfig (5 * 60 * 1000) (30 * 1000) 100.

(** The argument of [buildSettlePayload]. *)
Record SettleFields : Type := mkSettleFields {
  settleId : string;
  senderDomain : string;
  recipientDomain : string;
  sf_agentDid : string;
  sf_metric : string;
  sf_amount : num;
  sf_window : string;
  windowStart : string }.

Record SettleRequest : Type := mkSettleRequest {
  sq_fields : SettleFields;
  sq_senderSignature : string;
  sq_createdAt : string }.

Record SettleRecord : Type := mkSettleRecord {
  sc_fields : SettleFields;
  sc_senderSignature : string;
  sc_recipientSignature : string;
  sc_state : string;
  sc_createdAt : string;
  sc_settledAt : option string;
  sc_expiresAt : string }.

Record ReconciliationResult : Type := mkReconciliation {
  rr_settleId : string;
  rr_state : string;
  rr_signature : string;
  rr_verified : bool }.

Record SettleRow : Type := mkSettleRow {
  w_settleId : string;
  w_senderDomain : string;
  w_recipientDomain : string;
  w_agentDid : string;
  w_metric : string;
  w_amount : num;
  w_window : string;
  w_windowStart : Z;
  w_senderSignature : string;
  w_recipientSignature : string;
  w_state : string;
  w_createdAt : Z;
  w_settledAt : option Z;
  w_expiresAt : Z }.

(** A cursor with its primary key: sender, recipient, agent and metric. *)
Record CursorRow : Type := mkCursorRow {
  cu_key : string * string * string * string;
  cu_createdAt : option Z;
  cu_settleId : option string;
  cu_reconciledAt : option Z }.

Record ReconciliationCursor : Type := mkCursor {
  lastCreatedAt : option string;
  lastSettleId : option string;
  lastReconciledAt : option string }.

(** The text of a TIMESTAMPTZ as the database reads it, in microseconds. *)
Class PgTime : Type := { pg_timestamptz : string → option Z }.
(** What [toISOString] writes is read back. *)
Class PgTimeLaws `{PgTime} : Prop := {
  pg_iso t : iso_range t → pg_timestamptz (toISOString t) = Some (t * 1000) }.

Definition timestamptz `{PgTime} (s : string) : res Z :=
  match pg_timestamptz s with Some t => Ok t | None => Throw "22007" end.

(** [toISOString] of a column: the driver gives a Date, in milliseconds. *)
Definition column_iso (t : Z) : string := toISOString (t / 1000).

Section settle.
Context `{Primitives} `{PgTime}.

(** The keys are in ASCII order, so that [JSON.stringify] writes what the
    canonical serializer writes. *)
Definition settle_json (f : SettleFields) : object :=
  [("agentDid", VStr (sf_agentDid f)); ("amount", json_num (sf_amount f)); ("metric", VStr (sf_metric f));
   ("recipientDomain", VStr (recipientDomain f)); ("senderDomain", VStr (senderDomain f));
   ("settleId", VStr (settleId f)); ("window", VStr (sf_window f)); ("windowStart", VStr (windowStart f))].
Definition buildSettlePayload (f : SettleFields) : string := jcs (VObj (settle_json f)).

(** ** The recipient *)

Record RecipientSettleHandler : Type := mkHandler {
  recipientPrivateKey : string;
  rh_config : SettleProtocolConfig }.

Definition row_fields (row : SettleRow) : SettleFields :=
  mkSettleFields (w_settleId row) (w_senderDomain row) (w_recipientDomain row) (w_agentDid row) (w_metric row)
    (w_amount row) (w_window row) (column_iso (w_windowStart row)).

Definition settle_mapRow (row : SettleRow) : SettleRecord :=
  mkSettleRecord (row_fields row) (w_senderSignature row) (w_recipientSignature row) (w_state row)
    (column_iso (w_createdAt row)) (column_iso <$> w_settledAt row) (column_iso (w_expiresAt row)).

Definition find_settle (id : string) (rows : list SettleRow) : option SettleRow :=
  find (λ r, String.eqb (w_settleId r) id) rows.

(** The INSERT with ON CONFLICT DO NOTHING: the row when it was inserted. *)
Definition insert_settle (row : SettleRow) : M (list SettleRow) (option SettleRow) := λ rows,
  match find_settle (w_settleId row) rows with
  | Some _ => (Ok None, rows)
  | None => (Ok (Some row), rows ++ [row])
  end.

(** [missed] says that the first SELECT ran before a concurrent call inserted
    the record.  [now] is the clock of the host in milliseconds. *)
Definition appendSettle (H : RecipientSettleHandler) (req : SettleRequest) (senderPublicKey : string)
    (missed : bool) (now : Z) : M (list SettleRow) SettleRecord := λ rows0,
  (let f := sq_fields req in
  let payloadBytes := textEncode (buildSettlePayload f) in
  valid ← lift_res (verify payloadBytes (sq_senderSignature req) senderPublicKey);
  if negb valid then throw "Error"
  else match (if missed then None else find_settle (settleId f) rows0) with
  | Some existing => mret (settle_mapRow existing)
  | None =>
      recipientSig ← lift_res (sign payloadBytes (recipientPrivateKey H) enc_hex);
      start ← lift_res (timestamptz (windowStart f));
      createdAt ← lift_res (timestamptz (toISOString now));
      expiresAt ← lift_res (timestamptz (toISOString (now + pendingTtlMs (rh_config H))));
      inserted ← insert_settle
        (mkSettleRow (settleId f) (senderDomain f) (recipientDomain f) (sf_agentDid f) (sf_metric f) (sf_amount f)
           (sf_window f) start (sq_senderSignature req) recipientSig "PENDING" createdAt None expiresAt);
      match inserted with
      | Some row => mret (settle_mapRow row)
      | None => λ rows,
          (match find_settle (settleId f) rows with Some row => Ok (settle_mapRow row) | None => Throw "TypeError" end, rows)
      end
  end) rows0.

Definition confirmable (ids : list string) (now : Z) (r : SettleRow) : bool :=
  bool_decide (w_settleId r ∈ ids) && String.eqb (w_state r) "PENDING" && (now <? w_expiresAt r).

Definition with_settle_state (s : string) (at_ : option Z) (r : SettleRow) : SettleRow :=
  mkSettleRow (w_settleId r) (w_senderDomain r) (w_recipientDomain r) (w_agentDid r) (w_metric r) (w_amount r) (w_window r)
    (w_windowStart r) (w_senderSignature r) (w_recipientSignature r) s (w_createdAt r) at_ (w_expiresAt r).

(** [now] is the database clock in microseconds. *)
Definition confirmSettle (ids : list string) (now : Z) : M (list SettleRow) unit := λ rows,
  (Ok tt, if bool_decide (ids = []) then rows
          else (λ r, if confirmable ids now r then with_settle_state "SETTLED" (Some now) r else r) <$> rows).

Definition reapable (now : Z) (r : SettleRow) : bool := String.eqb (w_state r) "PENDING" && (w_expiresAt r <? now).

Definition reapExpiredPending (now : Z) : M (list SettleRow) nat := λ rows,
  (Ok (length (filter (λ r, reapable now r = true) rows)),
   (λ r, if reapable now r then with_settle_state "RELEASED" (w_settledAt r) r else r) <$> rows).

(** The composite key of the cursor and its order. *)
Definition settle_key (r : SettleRow) : Z * string := (w_createdAt r, w_settleId r).
Definition cursor_le (a b : Z * string) : Prop := a.1 < b.1 ∨ (a.1 = b.1 ∧ String.le a.2 b.2).
#[export] Instance cursor_le_dec a b : Decision (cursor_le a b).
Proof. unfold cursor_le. apply _. Defined.

Definition row_le (a b : SettleRow) : Prop := cursor_le (settle_key a) (settle_key b).
#[export] Instance row_le_dec a b : Decision (row_le a b).
Proof. unfold row_le. apply _. Defined.

(** [(created_at, settle_id) > (c, i)] *)
Definition after_key (c : Z * string) (r : SettleRow) : bool := negb (bool_decide (cursor_le (settle_key r) c)).

Definition concerns (sender agent metric : string) (r : SettleRow) : bool :=
  String.eqb (w_senderDomain r) sender && String.eqb (w_agentDid r) agent && String.eqb (w_metric r) metric.

Definition querySettles (sender agent metric : string) (afterCreatedAt afterSettleId : option string) (limit : Z)
    : M (list SettleRow) (list SettleRecord) := λ rows,
  match match afterCreatedAt, afterSettleId with
        | Some c, Some i => if non_empty c && non_empty i then t ← timestamptz c; mret (Some (t, i)) else mret None
        | _, _ => mret None
        end with
  | Throw code => (Throw code, rows)
  | Ok cursor =>
      if limit <? 0 then (Throw "2201W", rows)
      else
        let hits := filter (λ r, (concerns sender agent metric r
                                  && match cursor with Some c => after_key c r | None => true end) = true) rows in
        (Ok (settle_mapRow <$> take (Z.to_nat limit) (merge_sort row_le hits)), rows)
  end.

(** ** The sender *)

Record SenderSettleTracker : Type := mkTracker {
  senderPrivateKey : string;
  senderPublicKey : string;
  st_domain : string;
  st_config : SettleProtocolConfig }.

Definition createSettleRequest (T : SenderSettleTracker) (recipient agent metric : string) (amount : num)
    (window windowStart id : string) (now : Z) : res SettleRequest :=
  let f := mkSettleFields id (st_domain T) recipient agent metric amount window windowStart in
  signature ← sign (textEncode (buildSettlePayload f)) (senderPrivateKey T) enc_hex;
  mret (mkSettleRequest f signature (toISOString now)).

(** The recipient's rows and the sender's cursors. *)
Record SettleWorld : Type := mkSettleWorld { sw_rows : list SettleRow; sw_cursors : list CursorRow }.

Definition on_recipient {A} (x : M (list SettleRow) A) : M SettleWorld A := λ w,
  let '(r, rows) := x (sw_rows w) in (r, mkSettleWorld rows (sw_cursors w)).

Definition find_cursor (k : string * string * string * string) (cursors : list CursorRow) : option CursorRow :=
  find (λ c, bool_decide (cu_key c = k)) cursors.

Definition getCursor (T : SenderSettleTracker) (agent metric recipient : string) : M SettleWorld ReconciliationCursor := λ w,
  (Ok match find_cursor (st_domain T, recipient, agent, metric) (sw_cursors w) with
      | None => mkCursor None None None
      | Some row => mkCursor (column_iso <$> cu_createdAt row) (cu_settleId row) (column_iso <$> cu_reconciledAt row)
      end, w).

Definition put_cursor (row : CursorRow) (cursors : list CursorRow) : list CursorRow :=
  match find_cursor (cu_key row) cursors with
  | None => cursors ++ [row]
  | Some _ => (λ c, if bool_decide (cu_key c = cu_key row) then row else c) <$> cursors
  end.

Definition updateCursor (T : SenderSettleTracker) (agent metric recipient createdAt id : string) (now : Z)
    : M SettleWorld unit := λ w,
  match timestamptz createdAt with
  | Throw code => (Throw code, w)
  | Ok t => (Ok tt, mkSettleWorld (sw_rows w)
                      (put_cursor (mkCursorRow (st_domain T, recipient, agent, metric) (Some t) (Some id) (Some now))
                         (sw_cursors w)))
  end.

(** The loop over the records: the results and the ids to confirm. *)
Fixpoint verify_records (recipientPublicKey : string) (records : list SettleRecord)
    : res (list ReconciliationResult * list string) :=
  match records with
  | [] => mret ([], [])
  | r :: rest =>
      verified ← verify (textEncode (buildSettlePayload (sc_fields r))) (sc_recipientSignature r) recipientPublicKey;
      '(results, ids) ← verify_records recipientPublicKey rest;
      let id := settleId (sc_fields r) in
      mret (mkReconciliation id (sc_state r) (sc_recipientSignature r) verified :: results,
            if verified && String.eqb (sc_state r) "PENDING" then id :: ids else ids)
  end.

(** [now1] and [now2] are the database clocks of the two domains. *)
Definition reconcile (T : SenderSettleTracker) (recipientPublicKey agent metric recipient : string) (now1 now2 : Z)
    : M SettleWorld (list ReconciliationResult) :=
  cursor ← getCursor T agent metric recipient;
  records ← on_recipient (querySettles (st_domain T) agent metric (lastCreatedAt cursor) (lastSettleId cursor)
                            (reconcileBatchSize (st_config T)));
  match last records with
  | None => mret []
  | Some lastRecord =>
      '(results, confirmedIds) ← lift_res (verify_records recipientPublicKey records);
      _ ← on_recipient (confirmSettle confirmedIds now1);
      _ ← updateCursor T agent metric recipient (sc_createdAt lastRecord) (settleId (sc_fields lastRecord)) now2;
      mret results
  end.

End settle.

(** ** The order of the cursor *)

#[export] Instance cursor_le_po : PartialOrder cursor_le.
Proof.
  split; [split|].
  - intros [t i]. right. split; [done|]. cbn. reflexivity.
  - intros [t1 i1] [t2 i2] [t3 i3] [H1|[H1 L1]] [H2|[H2 L2]]; cbn in *; [left; cbn; lia..|].
    right. split; [cbn; lia|]. cbn. by etrans.
  - intros [t1 i1] [t2 i2] [H1|[H1 L1]] [H2|[H2 L2]]; cbn in *; [lia..|]. f_equal; [lia|]. by apply (anti_symm String.le).
Qed.
#[export] Instance cursor_le_total : Total cursor_le.
Proof.
  intros [t1 i1] [t2 i2]. unfold cursor_le. cbn. destruct (Z.lt_trichotomy t1 t2) as [?|[->|?]]; [auto| |auto].
  destruct (total String.le i1 i2); auto.
Qed.
#[export] Instance row_le_trans : Transitive row_le.
Proof. intros a b c. unfold row_le. apply transitivity. Qed.
#[export] Instance row_le_total : Total row_le.
Proof. intros a b. unfold row_le. apply (total cursor_le). Qed.

(** Sorting rows sorts their keys. *)
Lemma sorted_keys l : settle_key <$> merge_sort row_le l = merge_sort cursor_le (settle_key <$> l).
Proof.
  apply (StronglySorted_unique cursor_le).
  - pose proof (StronglySorted_merge_sort row_le l) as Hs. induction Hs as [|r rs _ IH Hr]; [constructor|].
    rewrite fmap_cons. constructor; [done|]. apply Forall_fmap. eapply Forall_impl; [exact Hr|]. done.
  - apply (StronglySorted_merge_sort cursor_le).
  - by rewrite !merge_sort_Permutation.
Qed.

Lemma sorted_filter (P : Z * string → bool) (l : list (Z * string)) :
  merge_sort cursor_le (filter (λ k, P k = true) l) = filter (λ k, P k = true) (merge_sort cursor_le l).
Proof.
  apply (StronglySorted_unique cursor_le).
  - apply (StronglySorted_merge_sort cursor_le).
  - pose proof (StronglySorted_merge_sort cursor_le l) as Hs. induction Hs as [|k ks _ IH Hk]; [constructor|].
    rewrite filter_cons. destruct (decide (P k = true)); [|done]. constructor; [done|].
    rewrite Forall_forall in Hk |- *. intros x [_ Hx]%list_elem_of_filter. auto.
  - by rewrite !merge_sort_Permutation.
Qed.

Lemma filter_key (P : Z * string → bool) (l : list SettleRow) :
  settle_key <$> filter (λ r, P (settle_key r) = true) l = filter (λ k, P k = true) (settle_key <$> l).
Proof.
  induction l as [|r l IH]; [done|]. rewrite fmap_cons, !filter_cons. destruct (decide (P (settle_key r) = true)); cbn; by rewrite IH.
Qed.

(** What follows a key in a strictly sorted list. *)
Lemma after_in_sorted l1 c l2 :
  StronglySorted cursor_le (l1 ++ c :: l2) → NoDup (l1 ++ c :: l2) →
  filter (λ k, negb (bool_decide (cursor_le k c)) = true) (l1 ++ c :: l2) = l2.
Proof.
  rewrite StronglySorted_app, StronglySorted_cons, NoDup_app, NoDup_cons. intros (H12 & _ & H2 & _) (_ & H1c & Hc & _).
  rewrite filter_app, filter_cons, decide_False by (rewrite bool_decide_true by reflexivity; done).
  assert (filter (λ k, negb (bool_decide (cursor_le k c)) = true) l1 = []) as ->.
  { induction l1 as [|k l1 IH]; [done|].
    rewrite filter_cons, decide_False; [apply IH; set_solver|]. rewrite bool_decide_true; [done|]. apply H12; set_solver. }
  cbn. induction l2 as [|k l2 IH]; [done|]. apply Forall_cons in H2 as [Hk H2].
  rewrite filter_cons, decide_True.
  - f_equal. apply IH; set_solver.
  - rewrite bool_decide_false; [done|]. intros Hle. apply Hc. rewrite (anti_symm cursor_le c k Hk Hle). left.
Qed.

(** ** Reconciliation *)

(** All but the state is the same. *)
Definition same_record (a b : SettleRow) : Prop := with_settle_state "" None a = with_settle_state "" None b.

#[export] Instance same_record_refl : Reflexive same_record.
Proof. done. Qed.
#[export] Instance same_record_trans : Transitive same_record.
Proof. intros a b c. unfold same_record. apply transitivity. Qed.

Section same.
Context `{Primitives}.

Lemma same_record_eqs a b :
  same_record a b →
  settle_key a = settle_key b ∧ row_fields a = row_fields b ∧ w_recipientSignature a = w_recipientSignature b
  ∧ ∀ s g m, concerns s g m a = concerns s g m b.
Proof.
  unfold same_record, with_settle_state, settle_key, row_fields, concerns. destruct a, b. cbn. by intros [= <- <- <- <- <- <- <- <- <- <- <- <-].
Qed.

Lemma with_state_same s t r : same_record r (with_settle_state s t r).
Proof. done. Qed.

Definition keys_of (sender agent metric : string) (rows : list SettleRow) : list (Z * string) :=
  settle_key <$> filter (λ r, concerns sender agent metric r = true) rows.

Lemma same_keys sender agent metric rows rows' :
  Forall2 same_record rows rows' → keys_of sender agent metric rows = keys_of sender agent metric rows'.
Proof.
  unfold keys_of. induction 1 as [|a b rows rows' (Hk & _ & _ & Hc)%same_record_eqs _ IH]; [done|].
  rewrite !filter_cons, Hc. destruct (decide (concerns sender agent metric b = true)); cbn; [|done]. by rewrite Hk, IH.
Qed.

Lemma confirm_same ids now rows : Forall2 same_record rows (confirmSettle ids now rows).2.
Proof.
  unfold confirmSettle. cbn. destruct (bool_decide (ids = [])).
  - reflexivity.
  - induction rows as [|r rows IH]; cbn; constructor; [|done]. by destruct (confirmable ids now r).
Qed.

End same.

Section reconciliation.
Context `{Primitives} `{PgTimeLaws}.

(** The text of an instant that the clock of a host gives. *)
Definition clock_instant (t : Z) : Prop := ∃ ms, t = ms * 1000 ∧ iso_range ms.

Lemma column_iso_back t : clock_instant t → timestamptz (column_iso t) = Ok t ∧ non_empty (column_iso t) = true.
Proof.
  intros (ms & -> & Hr). unfold column_iso, timestamptz. rewrite Z.div_mul by done. by rewrite pg_iso by done.
Qed.

(** The cursor as a key. *)
Definition cursor_at (c : option (Z * string)) (cursor : ReconciliationCursor) : Prop :=
  match c with
  | None => lastCreatedAt cursor = None ∧ lastSettleId cursor = None
  | Some (t, i) => lastCreatedAt cursor = Some (column_iso t) ∧ lastSettleId cursor = Some i
                   ∧ clock_instant t ∧ non_empty i = true
  end.

Definition after_cursor (c : option (Z * string)) (k : Z * string) : bool :=
  match c with Some c => negb (bool_decide (cursor_le k c)) | None => true end.

(** A page holds the keys after the cursor, in order. *)
Lemma query_page sender agent metric c cursor limit rows :
  cursor_at c cursor → 0 ≤ limit →
  ∃ page, querySettles sender agent metric (lastCreatedAt cursor) (lastSettleId cursor) limit rows = (Ok (settle_mapRow <$> page), rows)
    ∧ settle_key <$> page = take (Z.to_nat limit)
        (filter (λ k, after_cursor c k = true) (merge_sort cursor_le (keys_of sender agent metric rows)))
    ∧ ∀ r, r ∈ page → r ∈ rows ∧ concerns sender agent metric r = true.
Proof.
  intros Hc Hl. exists (take (Z.to_nat limit) (merge_sort row_le
    (filter (λ r, (concerns sender agent metric r && after_cursor c (settle_key r)) = true) rows))).
  split_and!.
  - unfold querySettles. destruct c as [[t i]|].
    + destruct Hc as (-> & -> & [Ht Hne]%column_iso_back & Hi). rewrite Hne, Hi. cbn [andb]. rewrite Ht. cbn.
      by rewrite (proj2 (Z.ltb_ge limit 0)) by lia.
    + destruct Hc as [-> _]. cbn. by rewrite (proj2 (Z.ltb_ge limit 0)) by lia.
  - rewrite fmap_take, sorted_keys. f_equal. rewrite <- sorted_filter. f_equal. unfold keys_of. rewrite <- filter_key. f_equal.
    rewrite list_filter_filter. apply list_filter_iff. intros r. rewrite andb_true_iff. tauto.
  - intros r (i & Hr & _)%elem_of_take. apply list_elem_of_lookup_2 in Hr. rewrite merge_sort_Permutation in Hr.
    apply list_elem_of_filter in Hr as [Hr Hin]. by apply andb_true_iff in Hr as [? _].
Qed.

Lemma put_cursor_find row cursors : find_cursor (cu_key row) (put_cursor row cursors) = Some row.
Proof.
  unfold put_cursor. destruct (find_cursor (cu_key row) cursors) as [c|] eqn:E; unfold find_cursor in *.
  - induction cursors as [|c' cs IH]; cbn in *; [done|]. destruct (bool_decide (cu_key c' = cu_key row)) eqn:Hk; cbn.
    + by rewrite bool_decide_true.
    + rewrite Hk. by apply IH.
  - induction cursors as [|c cs IH]; cbn in *; [by rewrite bool_decide_true|].
    case_bool_decide as Hk; [done|]. by apply IH.
Qed.

Lemma verify_records_ok pk page :
  (∀ r, r ∈ page → ∃ v, verify (textEncode (buildSettlePayload (row_fields r))) (w_recipientSignature r) pk = Ok v) →
  ∃ results ids, verify_records pk (settle_mapRow <$> page) = Ok (results, ids)
                 ∧ rr_settleId <$> results = w_settleId <$> page.
Proof.
  induction page as [|r page IH]; intros Hv; [by exists [], []|].
  destruct (Hv r) as [v Hr]; [left|]. destruct IH as (results & ids & E & Hid); [intros x Hx; apply Hv; by right|].
  rewrite fmap_cons. cbn [verify_records]. cbn [settle_mapRow sc_fields sc_recipientSignature]. rewrite Hr. cbn. rewrite E. cbn.
  do 2 eexists. split; [reflexivity|]. cbn. by rewrite Hid.
Qed.

Section pages.
Context (T : SenderSettleTracker) (pk agent metric recipient : string) (w0 : SettleWorld).

Definition batch : nat := Z.to_nat (reconcileBatchSize (st_config T)).
(** The records to reconcile, in the order of the cursor. *)
Definition order : list (Z * string) := merge_sort cursor_le (keys_of (st_domain T) agent metric (sw_rows w0)).

Definition cursor_key : string * string * string * string := (st_domain T, recipient, agent, metric).

(** The ids are unique and not empty, and the recipient's clock set the times. *)
Definition orderly : Prop :=
  NoDup (keys_of (st_domain T) agent metric (sw_rows w0))
  ∧ ∀ t i, (t, i) ∈ keys_of (st_domain T) agent metric (sw_rows w0) → clock_instant t ∧ non_empty i = true.

(** The signatures are well formed, valid or not. *)
Definition checkable (r : SettleRow) : Prop :=
  concerns (st_domain T) agent metric r = true →
  ∃ v, verify (textEncode (buildSettlePayload (row_fields r))) (w_recipientSignature r) pk = Ok v.

(** After [k] rounds. *)
Record reconciled (k : nat) (w : SettleWorld) : Prop := mkReconciled {
  rd_rows : Forall2 same_record (sw_rows w0) (sw_rows w);
  rd_cursor : match last (take (k * batch) order) with
              | None => find_cursor cursor_key (sw_cursors w) = None
              | Some (t, i) => ∃ n, find_cursor cursor_key (sw_cursors w) = Some (mkCursorRow cursor_key (Some t) (Some i) (Some n))
              end }.

Context (Ho : orderly) (Hc : Forall checkable (sw_rows w0)).

Lemma order_key t i : (t, i) ∈ order → clock_instant t ∧ non_empty i = true.
Proof. unfold order. rewrite merge_sort_Permutation. apply Ho. Qed.

Lemma rest_of_order k :
  filter (λ x, after_cursor (last (take (k * batch) order)) x = true) order = drop (k * batch) order.
Proof.
  destruct (last (take (k * batch) order)) as [c|] eqn:E.
  - apply last_Some in E as [l1 E]. pose proof (take_drop (k * batch) order) as Ht. rewrite E, <- app_assoc in Ht. cbn in Ht.
    rewrite <- Ht at 1. apply after_in_sorted; rewrite Ht.
    + apply (StronglySorted_merge_sort cursor_le).
    + unfold order. rewrite merge_sort_Permutation. apply Ho.
  - apply last_None in E. rewrite <- (take_drop (k * batch) order) at 1. rewrite E. cbn.
    generalize (drop (k * batch) order). induction l as [|x l IH]; [done|]. by rewrite filter_cons_True, IH.
Qed.

Lemma same_checkable w r : Forall2 same_record (sw_rows w0) (sw_rows w) → r ∈ sw_rows w → checkable r.
Proof.
  intros Hs [i Hi]%list_elem_of_lookup_1. destruct (Forall2_lookup_r _ _ _ _ _ Hs Hi) as (r0 & Hr0 & (_ & Hf & Hg & Hcon)%same_record_eqs).
  rewrite Forall_forall in Hc. specialize (Hc r0 (list_elem_of_lookup_2 _ _ _ Hr0)). unfold checkable in *. by rewrite <- Hcon, <- Hf, <- Hg.
Qed.

Lemma cursor_read k w :
  reconciled k w →
  ∃ cursor, getCursor T agent metric recipient w = (Ok cursor, w) ∧ cursor_at (last (take (k * batch) order)) cursor.
Proof.
  intros [_ Hcur]. unfold getCursor. eexists. split; [reflexivity|]. fold cursor_key.
  destruct (last (take (k * batch) order)) as [[t i]|] eqn:E; [|by rewrite Hcur].
  destruct Hcur as [n ->]. cbn. apply last_Some_elem_of, elem_of_take in E as (j & Hj & _).
  destruct (order_key t i); [by eapply list_elem_of_lookup_2|]. done.
Qed.

(** The keys of the next page. *)
Lemma page_read k w :
  0 ≤ reconcileBatchSize (st_config T) → reconciled k w →
  ∃ page cursor, getCursor T agent metric recipient w = (Ok cursor, w)
    ∧ on_recipient (querySettles (st_domain T) agent metric (lastCreatedAt cursor) (lastSettleId cursor)
                      (reconcileBatchSize (st_config T))) w = (Ok (settle_mapRow <$> page), w)
    ∧ settle_key <$> page = take batch (drop (k * batch) order)
    ∧ (∀ r, r ∈ page → ∃ v, verify (textEncode (buildSettlePayload (row_fields r))) (w_recipientSignature r) pk = Ok v).
Proof.
  intros Hb Hk. destruct (cursor_read k w Hk) as (cursor & Eg & Hat). destruct Hk as [Hrows _].
  destruct (query_page (st_domain T) agent metric _ cursor (reconcileBatchSize (st_config T)) (sw_rows w) Hat Hb)
    as (page & Eq & Hkeys & Hin).
  rewrite <- (same_keys _ _ _ _ _ Hrows) in Hkeys. fold order in Hkeys. rewrite rest_of_order in Hkeys. fold batch in Hkeys.
  exists page, cursor. split_and!; [done| |done|].
  - unfold on_recipient. rewrite Eq. by destruct w.
  - intros r [Hr Hcon]%Hin. by apply (same_checkable w r Hrows Hr).
Qed.

Lemma reconcile_page k w now1 now2 :
  0 ≤ reconcileBatchSize (st_config T) → reconciled k w →
  ∃ results w', reconcile T pk agent metric recipient now1 now2 w = (Ok results, w')
    ∧ rr_settleId <$> results = (take batch (drop (k * batch) order)).*2 ∧ reconciled (S k) w'.
Proof.
  intros Hb Hk. destruct (page_read k w Hb Hk) as (page & cursor & Eg & Eq & Hkeys & Hver). destruct Hk as [Hrows Hcur].
  assert (take (S k * batch) order = take (k * batch) order ++ (settle_key <$> page)) as Htake.
  { rewrite Hkeys, take_take_drop. f_equal. lia. }
  unfold reconcile. rewrite (M_bind_run _ _ _ _ _ Eg), (M_bind_run _ _ _ _ _ Eq), fmap_last.
  destruct (last page) as [r|] eqn:Elast; cbn [fmap option_fmap option_map].
  - destruct (verify_records_ok pk page Hver) as (results & ids & Ev & Hid).
    rewrite (M_bind_run _ _ (results, ids) w w) by (unfold lift_res; by rewrite Ev). cbv beta iota.
    pose proof (confirm_same ids now1 (sw_rows w)) as Hsame. destruct (confirmSettle ids now1 (sw_rows w)) as [u rows'] eqn:Ec.
    assert (u = Ok tt) as -> by (unfold confirmSettle in Ec; by injection Ec as <- _).
    rewrite (M_bind_run _ _ tt w (mkSettleWorld rows' (sw_cursors w))) by (unfold on_recipient; by rewrite Ec).
    assert ((w_createdAt r, w_settleId r) ∈ order) as Hr.
    { apply last_Some_elem_of in Elast. apply (list_elem_of_fmap_2 settle_key) in Elast. rewrite Hkeys in Elast.
      apply elem_of_take in Elast as (j & Hj & _). rewrite lookup_drop in Hj. by eapply list_elem_of_lookup_2. }
    destruct (order_key _ _ Hr) as [[Ht _]%column_iso_back _].
    cbn [settle_mapRow sc_createdAt sc_fields row_fields settleId].
    eexists _, _. split; [unfold mbind, M_bind, updateCursor; rewrite Ht; reflexivity|]. split.
    + by rewrite Hid, <- Hkeys, <- list_fmap_compose.
    + split; cbn [sw_rows sw_cursors]; [by etrans; [exact Hrows|exact Hsame]|].
      rewrite Htake, last_app, fmap_last, Elast. cbn. exists now2.
      exact (put_cursor_find (mkCursorRow cursor_key (Some (w_createdAt r)) (Some (w_settleId r)) (Some now2)) _).
  - apply last_None in Elast as ->. eexists [], w. split; [done|]. rewrite <- Hkeys. split; [done|].
    rewrite app_nil_r in Htake. split; [done|]. by rewrite Htake.
Qed.

(** Rounds of reconciliation, with their clocks; the results of all of them. *)
Fixpoint rounds (clocks : list (Z * Z)) : M SettleWorld (list ReconciliationResult) :=
  match clocks with
  | [] => mret []
  | (now1, now2) :: rest =>
      results ← reconcile T pk agent metric recipient now1 now2;
      more ← rounds rest;
      mret (results ++ more)
  end.

Lemma rounds_from clocks k w :
  0 ≤ reconcileBatchSize (st_config T) → reconciled k w →
  ∃ results w', rounds clocks w = (Ok results, w')
    ∧ rr_settleId <$> results = (take (length clocks * batch) (drop (k * batch) order)).*2.
Proof.
  intros Hb. revert k w. induction clocks as [|[now1 now2] clocks IH]; intros k w Hk; [by eexists [], w|].
  destruct (reconcile_page k w now1 now2 Hb Hk) as (results & w1 & E & Hid & Hk1).
  destruct (IH (S k) w1 Hk1) as (more & w2 & E2 & Hid2). exists (results ++ more), w2. cbn [rounds].
  rewrite (M_bind_run _ _ _ _ _ E), (M_bind_run _ _ _ _ _ E2). split; [done|].
  rewrite fmap_app, Hid, Hid2, <- fmap_app. f_equal. cbn [length].
  replace (S k * batch)%nat with (k * batch + batch)%nat by lia. rewrite <- drop_drop, take_take_drop. f_equal.
Qed.

End pages.

(** Reconciliation is complete: on records with well-formed signatures, rounds
    of reconciliation from no cursor return the records of the sender, agent and
    metric in the order of creation, a batch per round, each exactly once,
    whether their signatures verify or not. *)
Theorem reconciliation_complete T pk agent metric recipient w clocks :
  orderly T agent metric w → Forall (checkable T pk agent metric) (sw_rows w) → 0 ≤ reconcileBatchSize (st_config T) →
  find_cursor (cursor_key T agent metric recipient) (sw_cursors w) = None →
  ∃ results w', rounds T pk agent metric recipient clocks w = (Ok results, w')
    ∧ rr_settleId <$> results = take (length clocks * batch T) (order T agent metric w).*2.
Proof.
  intros Ho Hc Hb Hn. destruct (rounds_from T pk agent metric recipient w Ho Hc clocks 0 w Hb) as (results & w' & E & Hid).
  - split; [reflexivity|done].
  - exists results, w'. split; [done|]. by rewrite Hid, fmap_take.
Qed.

End reconciliation.

(** ** The recipient's records *)

Section records.
Context `{Primitives} `{PgTime}.

Inductive SettleCall : Type :=
| call_append (h : RecipientSettleHandler) (req : SettleRequest) (pk : string) (missed : bool) (now : Z)
| call_confirm (ids : list string) (now : Z)
| call_reap (now : Z).

Definition settle_call (rows : list SettleRow) (c : SettleCall) : list SettleRow :=
  match c with
  | call_append h req pk missed now => (appendSettle h req pk missed now rows).2
  | call_confirm ids now => (confirmSettle ids now rows).2
  | call_reap now => (reapExpiredPending now rows).2
  end.
Definition settle_run (calls : list SettleCall) (rows : list SettleRow) : list SettleRow := foldl settle_call rows calls.

Lemma find_settle_None id rows : find_settle id rows = None → id ∉ w_settleId <$> rows.
Proof.
  intros Hf (r & -> & Hr)%list_elem_of_fmap. rewrite list_elem_of_In in Hr. pose proof (find_none _ _ Hf r Hr) as E.
  cbn in E. by rewrite String.eqb_refl in E.
Qed.

(** An append leaves the rows alone or adds one PENDING record under a new id. *)
Lemma append_rows h req pk missed now rows r rows' :
  appendSettle h req pk missed now rows = (r, rows') →
  rows' = rows ∨ ∃ row, rows' = rows ++ [row] ∧ w_state row = "PENDING" ∧ w_settledAt row = None
                        ∧ w_settleId row ∉ w_settleId <$> rows.
Proof.
  unfold appendSettle, lift_res, throw, mbind, M_bind, mret, M_ret, insert_settle.
  destruct (verify _ _ _) as [[]|c]; cbn [negb]; [|intros [= _ <-]; auto..].
  destruct (if missed then None else _); [intros [= _ <-]; auto|].
  destruct (sign _ _ _); [|intros [= _ <-]; auto]. do 3 (destruct (timestamptz _); [|intros [= _ <-]; auto]).
  cbn [w_settleId]. destruct (find_settle _ rows) as [row|] eqn:Ef; [destruct (find_settle _ _); intros [= _ <-]; auto|].
  intros [= _ <-]. right. eexists. split; [reflexivity|]. cbn. split_and!; [done|done|by apply find_settle_None].
Qed.

Record settle_row_typed (r : SettleRow) : Prop := mkSettleRowTyped {
  sy_state : w_state r = "PENDING" ∨ w_state r = "SETTLED" ∨ w_state r = "RELEASED";
  sy_open : w_state r ≠ "SETTLED" → w_settledAt r = None;
  sy_settled : w_state r = "SETTLED" → ∃ t, w_settledAt r = Some t ∧ t < w_expiresAt r }.

Lemma call_typed rows c :
  NoDup (w_settleId <$> rows) ∧ Forall settle_row_typed rows →
  NoDup (w_settleId <$> settle_call rows c) ∧ Forall settle_row_typed (settle_call rows c).
Proof.
  intros [Hn Ht]. destruct c as [h req pk missed now|ids now|now]; cbn [settle_call].
  - destruct (appendSettle h req pk missed now rows) as [r rows'] eqn:E. apply append_rows in E as [->|(row & -> & Hs & Hd & Hi)]; [done|].
    cbn. rewrite fmap_app, NoDup_app. split.
    + split_and!; [done| |apply NoDup_singleton]. intros x Hx ->%list_elem_of_singleton. done.
    + apply Forall_app. split; [done|]. apply Forall_singleton. split; rewrite Hs; [auto|done|done].
  - unfold confirmSettle. cbn. destruct (bool_decide _); [done|]. rewrite <- list_fmap_compose, Forall_fmap. split.
    + erewrite list_fmap_ext; [exact Hn|]. intros i r _. cbn. by destruct (confirmable ids now r).
    + eapply Forall_impl; [exact Ht|]. intros r Hr. cbn. destruct (confirmable ids now r) eqn:E; [|done].
      apply andb_true_iff in E as [_ E%Z.ltb_lt]. split; cbn; [auto|done|]. eauto.
  - unfold reapExpiredPending. cbn. rewrite <- list_fmap_compose, Forall_fmap. split.
    + erewrite list_fmap_ext; [exact Hn|]. intros i r _. cbn. by destruct (reapable now r).
    + eapply Forall_impl; [exact Ht|]. intros r [Hs Ho Hd]. cbn. destruct (reapable now r) eqn:E; [|done].
      apply andb_true_iff in E as [E%String.eqb_eq _]. split; cbn; [auto| |done]. intros _. apply Ho. by rewrite E.
Qed.

(** Whatever is appended, confirmed and reaped, in any order and with any races:
    a settle id is recorded once, and a settled record was settled before its
    time to live ended. *)
Theorem settle_records_typed calls :
  NoDup (w_settleId <$> settle_run calls []) ∧ Forall settle_row_typed (settle_run calls []).
Proof.
  unfold settle_run. assert (NoDup (w_settleId <$> []) ∧ Forall settle_row_typed []) as Hstart by (split; constructor).
  revert Hstart. generalize (@nil SettleRow). induction calls as [|c calls IH]; [done|]. intros rows Hr. cbn. apply IH. by apply call_typed.
Qed.

Lemma call_final rows c i r :
  rows !! i = Some r → w_state r ≠ "PENDING" → settle_call rows c !! i = Some r.
Proof.
  intros Hi Hs. destruct c as [h req pk missed now|ids now|now]; cbn [settle_call].
  - destruct (appendSettle h req pk missed now rows) as [x rows'] eqn:E. apply append_rows in E as [->|(row & -> & _)]; [done|].
    by apply lookup_app_l_Some.
  - unfold confirmSettle. cbn. destruct (bool_decide _); [done|]. rewrite list_lookup_fmap, Hi. cbn. unfold confirmable.
    by rewrite (proj2 (String.eqb_neq _ _) Hs), andb_false_r.
  - unfold reapExpiredPending. cbn. rewrite list_lookup_fmap, Hi. cbn. unfold reapable. by rewrite (proj2 (String.eqb_neq _ _) Hs).
Qed.

(** A settled or released record never changes again. *)
Theorem settle_outcome_final calls rows i r :
  rows !! i = Some r → w_state r ≠ "PENDING" → settle_run calls rows !! i = Some r.
Proof.
  revert rows. induction calls as [|c calls IH]; [done|]. intros rows Hi Hs. cbn. apply IH; [|done]. by apply call_final.
Qed.

(** A record with a malformed signature stops reconciliation for good: the
    verification throws instead of answering false, so the cursor stays before
    it and every later round throws again. *)
Theorem malformed_signature_stalls T pk agent metric recipient w cursor records r code now1 now2 :
  getCursor T agent metric recipient w = (Ok cursor, w) →
  querySettles (st_domain T) agent metric (lastCreatedAt cursor) (lastSettleId cursor) (reconcileBatchSize (st_config T)) (sw_rows w)
    = (Ok records, sw_rows w) →
  r ∈ records → verify (textEncode (buildSettlePayload (sc_fields r))) (sc_recipientSignature r) pk = Throw code →
  ∃ c, reconcile T pk agent metric recipient now1 now2 w = (Throw c, w).
Proof.
  intros Eg Eq Hr Hv. assert (∃ c, verify_records pk records = Throw c) as [c Ev].
  { clear Eq. induction records as [|x records IH]; [inversion Hr|]. apply elem_of_cons in Hr as [->|Hr]; cbn [verify_records].
    - rewrite Hv. eexists. reflexivity.
    - destruct (verify (textEncode (buildSettlePayload (sc_fields x))) _ _) as [v|c]; [|eexists; reflexivity]. destruct (IH Hr) as [c ->]. eexists. reflexivity. }
  exists c. unfold reconcile. rewrite (M_bind_run _ _ _ _ _ Eg).
  rewrite (M_bind_run _ _ records w w) by (unfold on_recipient; rewrite Eq; by destruct w).
  destruct (last records) as [x|] eqn:El; [|apply last_None in El as ->; inversion Hr].
  apply M_bind_run_throw. unfold lift_res. by rewrite Ev.
Qed.

End records.

Section countersignature.
Context `{PrimitiveLaws} `{PgTimeLaws}.

(** The recipient's record of a request is the request, and its countersignature
    verifies, as long as the request writes its window start the way
    [toISOString] does. *)
Theorem countersigned_record_verifies h seed enc req pk missed now rows rec rows' start :
  Forall is_byte seed → length seed = 32%nat →
  recipientPrivateKey h = match enc with enc_hex => toHex seed | enc_base64url => toBase64Url seed end →
  windowStart (sq_fields req) = toISOString start → iso_range start →
  find_settle (settleId (sq_fields req)) rows = None →
  appendSettle h req pk missed now rows = (Ok rec, rows') →
  sc_fields rec = sq_fields req ∧ sc_state rec = "PENDING"
  ∧ verify (textEncode (buildSettlePayload (sc_fields rec))) (sc_recipientSignature rec) (toHex (ed25519_pub seed)) = Ok true.
Proof.
  intros Hb Hl Hk Hw Hr Hf. unfold appendSettle, lift_res, throw, mbind, M_bind, mret, M_ret, insert_settle.
  destruct (verify _ _ _) as [[]|c]; cbn [negb]; [|done..]. rewrite Hf.
  replace (if missed then None else None) with (@None SettleRow) by (by destruct missed).
  destruct (sign _ _ _) as [sig|] eqn:Es; [|done]. unfold timestamptz at 1. rewrite Hw, pg_iso by done.
  do 2 (destruct (timestamptz _); [|done]). cbn [w_settleId]. rewrite Hf. intros [= <- _].
  assert (sc_fields (settle_mapRow (mkSettleRow (settleId (sq_fields req)) (senderDomain (sq_fields req)) (recipientDomain (sq_fields req))
      (sf_agentDid (sq_fields req)) (sf_metric (sq_fields req)) (sf_amount (sq_fields req)) (sf_window (sq_fields req)) (start * 1000)
      (sq_senderSignature req) sig "PENDING" a None a0)) = sq_fields req) as Heq.
  { assert (column_iso (start * 1000) = windowStart (sq_fields req)) as Hs by (unfold column_iso; by rewrite Z.div_mul).
    unfold settle_mapRow, row_fields. cbn [sc_fields w_windowStart]. rewrite Hs. by destruct (sq_fields req). }
  split; [done|]. split; [done|]. rewrite Heq. cbn [settle_mapRow sc_recipientSignature w_recipientSignature].
  apply (sign_verify_encodings _ seed enc enc_hex enc_hex (recipientPrivateKey h) sig); done.
Qed.

End countersignature.
