(* ===== verification/CrossSettleExamples.v ===== *)
(** * Concrete settlements across domains

    Records over the toy primitives of ToyPrimitives.v and a database that reads
    ISO timestamps: the values at which the theorems of CrossSettle.v are
    applied, and runs that show where reconciliation misses its intent. *)
From S2P Require Import Prelude JsValue Time Encoding Crypto ToyPrimitives Authorization ActionRecords SignedPayload.
From S2P Require Import CrossSettle.

#[export] Instance iso_time : PgTime := {| pg_timestamptz s := (λ t, t * 1000) <$> iso_getTime s |}.
#[export] Instance iso_time_laws : PgTimeLaws.
Proof. split. intros t Ht. cbn [pg_timestamptz iso_time]. by rewrite iso_print_parse. Qed.

Definition cx_key (n : Z) : string := toHex (replicate 32 n).
Definition cx_pub (n : Z) : string := toHex (ed25519_pub (replicate 32 n)).

Definition cx_tracker : SenderSettleTracker := mkTracker (cx_key 1) (cx_pub 1) "north" (mkSettleConfig 300000 30000 2).
Definition cx_handler : RecipientSettleHandler := mkHandler (cx_key 2) DEFAULT_CONFIG.

Definition cx_start : string := "2026-06-01T00:00:00.000Z".
Definition cx_now : Z := 1780315200000.

Definition cx_request (id start : string) (now : Z) : SettleRequest :=
  match createSettleRequest cx_tracker "south" "did:agent:x" "calls" (Fin 7) "day" start id now with
  | Ok r => r
  | Throw _ => mkSettleRequest (mkSettleFields "" "" "" "" "" NaN "" "") "" ""
  end.

Definition cx_append (id start : string) (now : Z) (rows : list SettleRow) : list SettleRow :=
  (appendSettle cx_handler (cx_request id start now) (cx_pub 1) false now rows).2.

(** Three records, two of them of the same instant. *)
Definition cx_rows : list SettleRow :=
  Eval vm_compute in
    cx_append "s3" cx_start (cx_now + 5) (cx_append "s2" cx_start cx_now (cx_append "s1" cx_start cx_now [])).
Definition cx_world : SettleWorld := mkSettleWorld cx_rows [].

Definition cx_rounds (clocks : list (Z * Z)) (w : SettleWorld) : res (list ReconciliationResult) * SettleWorld :=
  rounds cx_tracker (cx_pub 2) "did:agent:x" "calls" "south" clocks w.

(** All of them verify and are settled in two rounds of two; a third finds
    nothing. *)
Definition cx_clock : Z * Z := (cx_now * 1000 + 60000000, 0).
Example cx_two_rounds :
  let '(r, w) := cx_rounds [cx_clock; cx_clock; cx_clock] cx_world in
  (match r with Ok rs => (λ x, (rr_settleId x, rr_verified x)) <$> rs | Throw _ => [] end, w_state <$> sw_rows w)
  = ([("s1", true); ("s2", true); ("s3", true)], ["SETTLED"; "SETTLED"; "SETTLED"]).
Proof. vm_compute. reflexivity. Qed.

Lemma cx_keys :
  keys_of "north" "did:agent:x" "calls" cx_rows
  = [(cx_now * 1000, "s1"); (cx_now * 1000, "s2"); ((cx_now + 5) * 1000, "s3")].
Proof. vm_compute. reflexivity. Qed.

Lemma reconciliation_complete_witness :
  ∃ results w', cx_rounds [cx_clock; cx_clock] cx_world = (Ok results, w') ∧ rr_settleId <$> results = ["s1"; "s2"; "s3"].
Proof.
  destruct (reconciliation_complete cx_tracker (cx_pub 2) "did:agent:x" "calls" "south" cx_world [cx_clock; cx_clock])
    as (results & w' & E & Hid).
  - unfold orderly. cbn [st_domain cx_tracker sw_rows cx_world]. rewrite cx_keys. split.
    + apply (bool_decide_eq_true_1 _). vm_compute. reflexivity.
    + intros t i Hin. rewrite !elem_of_cons, elem_of_nil in Hin.
      destruct Hin as [Hx|[Hx|[Hx|[]]]]; injection Hx as -> ->; (split; [|reflexivity]); eexists; (split; [reflexivity|]);
        split; vm_compute; discriminate.
  - repeat constructor; intros _; exists true; vm_compute; reflexivity.
  - vm_compute. discriminate.
  - reflexivity.
  - exists results, w'. split; [exact E|]. rewrite Hid. vm_compute. reflexivity.
Defined.

Lemma settle_outcome_final_witness :
  w_state <$> settle_run [call_reap (cx_now * 1000 + 900000000)]
                (settle_run [call_confirm ["s1"] (cx_now * 1000)] cx_rows) !! 0%nat = Some "SETTLED".
Proof.
  destruct (settle_run [call_confirm ["s1"] (cx_now * 1000)] cx_rows !! 0%nat) as [r|] eqn:E; [|vm_compute in E; discriminate E].
  rewrite (settle_outcome_final [call_reap (cx_now * 1000 + 900000000)] _ 0%nat r E).
  - vm_compute in E. injection E as <-. reflexivity.
  - vm_compute in E. injection E as <-. discriminate.
Defined.

Lemma countersigned_record_verifies_witness :
  ∃ rec, (appendSettle cx_handler (cx_request "s9" cx_start cx_now) (cx_pub 1) false cx_now cx_rows).1 = Ok rec
    ∧ verify (textEncode (buildSettlePayload (sc_fields rec))) (sc_recipientSignature rec) (cx_pub 2) = Ok true.
Proof.
  destruct (appendSettle cx_handler (cx_request "s9" cx_start cx_now) (cx_pub 1) false cx_now cx_rows) as [r rows'] eqn:E.
  destruct r as [rec|c]; [|vm_compute in E; discriminate E]. exists rec. split; [reflexivity|].
  apply (countersigned_record_verifies cx_handler (replicate 32 2) enc_hex (cx_request "s9" cx_start cx_now) (cx_pub 1) false
           cx_now cx_rows rec rows' 1780272000000).
  - apply Forall_replicate. vm_compute. split; congruence.
  - reflexivity.
  - reflexivity.
  - vm_compute. reflexivity.
  - split; vm_compute; discriminate.
  - vm_compute. reflexivity.
  - exact E.
Defined.

(** ** Defects *)

(** A window start without milliseconds is signed as it is written, but read
    back with them: the honest record fails its own verification and is never
    settled. *)
Theorem short_timestamp_never_verifies :
  let rows := cx_append "s1" "2026-06-01T00:00:00Z" cx_now [] in
  let '(r, w) := cx_rounds [cx_clock] (mkSettleWorld rows []) in
  (match r with Ok rs => (λ x, (rr_settleId x, rr_verified x)) <$> rs | Throw _ => [] end, w_state <$> sw_rows w)
  = ([("s1", false)], ["PENDING"]).
Proof. vm_compute. reflexivity. Qed.

(** A record stamped by a host whose clock is behind is inserted before the
    cursor and is never pulled. *)
Theorem late_record_skipped :
  let w1 := (cx_rounds [cx_clock] (mkSettleWorld (cx_append "s1" cx_start cx_now []) [])).2 in
  let w2 := mkSettleWorld (cx_append "s2" cx_start (cx_now - 1) (sw_rows w1)) (sw_cursors w1) in
  (cx_rounds [cx_clock; cx_clock; cx_clock] w2).1 = Ok [].
Proof. vm_compute. reflexivity. Qed.

Definition cx_cut (r : SettleRow) : SettleRow :=
  mkSettleRow (w_settleId r) (w_senderDomain r) (w_recipientDomain r) (w_agentDid r) (w_metric r) (w_amount r) (w_window r)
    (w_windowStart r) (w_senderSignature r) "ab" (w_state r) (w_createdAt r) (w_settledAt r) (w_expiresAt r).

Definition cx_tampered : SettleWorld := mkSettleWorld (cx_cut <$> cx_rows) [].

Lemma malformed_signature_stalls_witness :
  ∃ c, reconcile cx_tracker (cx_pub 2) "did:agent:x" "calls" "south" 0 0 cx_tampered = (Throw c, cx_tampered).
Proof.
  destruct (querySettles "north" "did:agent:x" "calls" None None 2 (cx_cut <$> cx_rows)) as [q rows] eqn:Eq.
  destruct q as [[|r records]|c]; [vm_compute in Eq; discriminate Eq| |vm_compute in Eq; discriminate Eq].
  apply (malformed_signature_stalls cx_tracker (cx_pub 2) "did:agent:x" "calls" "south" cx_tampered
           (mkCursor None None None) (r :: records) r "INVALID_SIGNATURE_FORMAT" 0 0).
  - reflexivity.
  - change (querySettles "north" "did:agent:x" "calls" None None 2 (cx_cut <$> cx_rows) = (Ok (r :: records), cx_cut <$> cx_rows)).
    rewrite Eq. vm_compute in Eq. injection Eq as _ _ <-. reflexivity.
  - left.
  - vm_compute in Eq. injection Eq as <- _ _. vm_compute. reflexivity.
Defined.
