(* ===== verification/ControllerChain.v ===== *)
(** * Controller chains

    Models packages/identity/src/controller-chain-resolution: the nine steps
    that resolve the chain of controllers of a DID, the integrity proof of the
    result and its verification, with the types of
    packages/types/src/controller-chain-resolution.  The three ports are
    functions whose answers are fixed during one call; a port that throws is a
    [Throw].  A DID document is a JSON object whose controller is a string,
    [null] or absent.  The readings of the clock and the random ids are
    arguments. *)
From S2P Require Import Prelude JsValue Time Encoding Crypto Authorization SignedPayload.
From stdpp Require Import pretty.
Open Scope Z_scope.

(** ** Data *)

Definition MAX_CHAIN_DEPTH : Z := 5.
Definition CCR_VERSION_1_0_0 : string := "1.0.0".
Definition toChainNodeId (s : string) : res string := csp_toUuidV4String s.

Record FreshnessProofSummary : Type := mkFreshness {
  freshnessWindowMs : num;
  asOfTime : string;
  fp_verified : bool }.

Record ControllerChainNode : Type := mkChainNode {
  nodeId : string;
  controllerDid : string;
  parentControllerDid : option string;
  cn_resolvedAt : string;
  freshnessProof : FreshnessProofSummary;
  documentVersion : string;
  isRoot : bool;
  depth : nat;
  cachedDocument : object }.

Record ChainBinding : Type := mkChainBinding {
  rootBindingValid : bool;
  verificationMethodBindingValid : bool;
  leafBindingValid : bool }.

Record ChainIntegrityProof : Type := mkChainProof {
  ci_token : string;
  disclosedClaims : list string;
  ci_challenge : string;
  ci_audience : string;
  ci_notAfter : string;
  ci_cspVersion : string;
  chainSignature : string;
  ci_resolverDid : string }.

Record ControllerChainResolutionRequest : Type := mkCcrRequest {
  targetDid : string;
  cr_challenge : string;
  verifierDid : string;
  maxChainDepth : option Z;
  maxFreshnessWindowMs : option num }.

Record ControllerChainResolution : Type := mkCcrResolution {
  ccrVersion : string;
  rootControllerDid : string;
  chain : list ControllerChainNode;
  chainDepth : nat;
  freshnessVerified : bool;
  integrityProof : ChainIntegrityProof;
  controllerSwitchImmediate : bool;
  cz_resolvedAt : string;
  cycleAbsent : bool;
  chainBinding : ChainBinding }.

(** The three ports. *)
Record CcrPorts : Type := mkCcrPorts {
  did_resolve : string → res (option object);
  verifyDocumentSignature : object → res bool;
  getResolverFreshnessProof : string → res FreshnessProofSummary;
  isControllerRevoked : string → res bool }.

Record CcrResolverOptions : Type := mkCcrOptions {
  co_resolverDid : option string;
  co_signFn : option (bytes → res string);
  allowPlaceholderSignature : bool }.

(** Clock readings, in milliseconds, and random ids, by the depth of the node. *)
Record CcrClock : Type := mkCcrClock {
  ck_load : nat → Z;
  ck_fresh : nat → Z;
  ck_proof : Z;
  ck_done : Z;
  ck_uuid : nat → string }.

(** A member that is a string; [null] and an absent member are [None]. *)
Definition doc_string (doc : object) (k : string) : option string :=
  match map_get k doc with Some (VStr s) => Some s | _ => None end.
Definition doc_controller (doc : object) : option string := doc_string doc "controller".

(** [doc['verificationMethod']?.[0]?.['controller']] *)
Definition vm_controller (doc : object) : option string :=
  match map_get "verificationMethod" doc with
  | Some (VArr (VObj vm :: _)) => doc_string vm "controller"
  | _ => None
  end.

(** ** The nine steps *)

Section resolve.
Context `{Primitives}.
Context (P : CcrPorts) (ck : CcrClock).

(** Step 3.  [fuel] is the number of iterations that the bound of the loop
    leaves; [nodes] are the nodes loaded so far. *)
Fixpoint load_chain (fuel : nat) (nodes : list ControllerChainNode) (currentDid : option string)
    : res (list ControllerChainNode) :=
  match fuel, currentDid with
  | O, _ | _, None => mret nodes
  | S fuel', Some did =>
      _ ← check (negb (bool_decide (did ∈ controllerDid <$> nodes))) "CCR_CHAIN_CYCLE";
      answer ← did_resolve P did;
      match answer with
      | None => Throw "CCR_RESOLVER_UNAVAILABLE"
      | Some doc =>
          let d := length nodes in
          id ← toChainNodeId (ck_uuid ck d);
          let resolvedAt := toISOString (ck_load ck d) in
          let node := mkChainNode id did (if Nat.eqb d 0 then None else controllerDid <$> last nodes) resolvedAt
                        (mkFreshness (Fin 0) resolvedAt false) (default "1" (doc_string doc "versionId"))
                        (Nat.eqb d 0) d doc in
          load_chain fuel' (nodes ++ [node]) (doc_controller doc)
      end
  end.

(** [nowMs - new Date(asOfTime).getTime()] *)
Definition proof_age (now : Z) (asOf : string) : num :=
  match iso_getTime asOf with Some t => Fin (now - t) | None => NaN end.

(** Step 4 for one node: the proof to write back, or [None] when it is stale,
    too wide or unavailable. *)
Definition check_freshness (request : ControllerChainResolutionRequest) (node : ControllerChainNode)
    : option FreshnessProofSummary :=
  match getResolverFreshnessProof P (controllerDid node) with
  | Throw _ => None
  | Ok rfp =>
      let maxFw := default (freshnessWindowMs rfp) (maxFreshnessWindowMs request) in
      if num_gtb (freshnessWindowMs rfp) maxFw then None
      else if num_gtb (proof_age (ck_fresh ck (depth node)) (asOfTime rfp)) (freshnessWindowMs rfp) then None
      else Some (mkFreshness (freshnessWindowMs rfp) (asOfTime rfp) true)
  end.

Definition with_freshness (f : FreshnessProofSummary) (n : ControllerChainNode) : ControllerChainNode :=
  mkChainNode (nodeId n) (controllerDid n) (parentControllerDid n) (cn_resolvedAt n) f (documentVersion n) (isRoot n)
    (depth n) (cachedDocument n).

Fixpoint step4_freshness (request : ControllerChainResolutionRequest) (nodes : list ControllerChainNode)
    : res (list ControllerChainNode) :=
  match nodes with
  | [] => mret []
  | n :: rest =>
      match check_freshness request n with
      | None => Throw "CCR_FRESHNESS_INVALID"
      | Some f => rest' ← step4_freshness request rest; mret (with_freshness f n :: rest')
      end
  end.

Fixpoint step5_documents (nodes : list ControllerChainNode) : res unit :=
  match nodes with
  | [] => mret tt
  | n :: rest =>
      valid ← verifyDocumentSignature P (cachedDocument n);
      _ ← check valid "CCR_CHAIN_SIGNATURE_INVALID";
      step5_documents rest
  end.

Fixpoint step6_revocation (nodes : list ControllerChainNode) : res unit :=
  match nodes with
  | [] => mret tt
  | n :: rest =>
      match isControllerRevoked P (controllerDid n) with
      | Throw _ => Throw "CCR_CONTROLLER_REVOKED"
      | Ok revoked => _ ← check (negb revoked) "CCR_CONTROLLER_REVOKED"; step6_revocation rest
      end
  end.

(** Step 8. *)
Fixpoint step8_cycle (seen : list string) (nodes : list ControllerChainNode) : res unit :=
  match nodes with
  | [] => mret tt
  | n :: rest =>
      _ ← check (negb (bool_decide (controllerDid n ∈ seen))) "CCR_CHAIN_CYCLE";
      step8_cycle (controllerDid n :: seen) rest
  end.

(** Step 9: the three constraints. *)
Definition chain_binding (rootDoc : object) (nodes : list ControllerChainNode) : ChainBinding :=
  mkChainBinding
    (match nodes with n :: _ => isRoot n && bool_decide (parentControllerDid n = None) | [] => false end)
    (forallb (λ n, bool_decide (vm_controller (cachedDocument n) = Some (controllerDid n))) nodes)
    (match nodes with n :: _ => bool_decide (doc_controller rootDoc = Some (controllerDid n)) | [] => false end).

(** ** The integrity proof *)

Definition claim_of (n : ControllerChainNode) : string := pretty (Z.of_nat (depth n)) +:+ ":" +:+ controllerDid n.

(** [Math.min] over the windows of the nodes. *)
Definition min_freshness (nodes : list ControllerChainNode) : num :=
  foldr num_min PInf ((λ n, freshnessWindowMs (freshnessProof n)) <$> nodes).

(** The signed members, in the order of the keys. *)
Definition proof_json (audience challenge cspVersion : string) (claims : list string) (notAfter token : string) : value :=
  VObj [("audience", VStr audience); ("challenge", VStr challenge); ("cspVersion", VStr cspVersion);
        ("disclosedClaims", VArr (VStr <$> claims)); ("notAfter", VStr notAfter); ("token", VStr token)].

(** [new Date(ms).toISOString()], which throws outside the range of dates. *)
Definition MAX_DATE : Z := 8640000000000000.
Definition date_text (ms : num) : res string :=
  match ms with
  | Fin t => if Z.abs t <=? MAX_DATE then Ok (toISOString t) else Throw "RangeError"
  | _ => Throw "RangeError"
  end.

Definition buildChainIntegrityProof (nodes : list ControllerChainNode) (request : ControllerChainResolutionRequest)
    (options : CcrResolverOptions) : res ChainIntegrityProof :=
  let claims := claim_of <$> nodes in
  let root := match nodes with n :: _ => controllerDid n | [] => "" end in
  let token := "ccr:" +:+ root +:+ ":depth=" +:+ pretty (Z.of_nat (length nodes)) in
  notAfter ← date_text (num_add (Fin (ck_proof ck)) (min_freshness nodes));
  canonical ← match canonicalize jcs (proof_json (verifierDid request) (cr_challenge request) "1.0.0" claims notAfter token) with
              | Ok s => Ok s
              | Throw _ => Throw "CCR_CHAIN_SIGNATURE_INVALID"
              end;
  let given := match co_resolverDid options with Some d => non_empty d | None => false end in
  _ ← check (bool_decide (is_Some (co_signFn options)) || allowPlaceholderSignature options) "CCR_CHAIN_SIGNATURE_INVALID";
  _ ← check (given || allowPlaceholderSignature options) "CCR_CHAIN_SIGNATURE_INVALID";
  signature ← match co_signFn options with
              | Some f => f (textEncode canonical)
              | None => mret "PLACEHOLDER_SIGNATURE_NO_SIGN_FN"
              end;
  mret (mkChainProof token claims (cr_challenge request) (verifierDid request) notAfter "1.0.0" signature
          (default "did:placeholder:ccr-resolver" (co_resolverDid options))).

(** [runChainResolution9Steps] *)
Definition resolveControllerChain (request : ControllerChainResolutionRequest) (options : CcrResolverOptions)
    : res ControllerChainResolution :=
  let maxDepth := default MAX_CHAIN_DEPTH (maxChainDepth request) in
  root ← did_resolve P (targetDid request);
  match root with
  | None => Throw "CCR_RESOLVER_UNAVAILABLE"
  | Some rootDoc =>
      match doc_controller rootDoc with
      | None => Throw "CCR_CHAIN_BROKEN"
      | Some rootController =>
          _ ← check (non_empty rootController) "CCR_CHAIN_BROKEN";
          loaded ← load_chain (Z.to_nat (maxDepth + 1)) [] (Some rootController);
          _ ← check (negb (maxDepth <? Z.of_nat (length loaded))) "CCR_CHAIN_DEPTH_EXCEEDED";
          _ ← check (negb (Nat.eqb (length loaded) 0)) "CCR_CHAIN_BROKEN";
          nodes ← step4_freshness request loaded;
          _ ← step5_documents nodes;
          _ ← step6_revocation nodes;
          _ ← check (bool_decide (controllerDid <$> head nodes = Some rootController)) "CCR_CHAIN_BINDING_INVALID";
          _ ← step8_cycle [] nodes;
          let b := chain_binding rootDoc nodes in
          _ ← check (rootBindingValid b && verificationMethodBindingValid b && leafBindingValid b) "CCR_CHAIN_BINDING_INVALID";
          proof ← buildChainIntegrityProof nodes request options;
          mret (mkCcrResolution CCR_VERSION_1_0_0 rootController nodes (length nodes) true proof true
                  (toISOString (ck_done ck)) true b)
      end
  end.

(** [now] is compared with the time of [notAfter], [NaN] when it is no date. *)
Definition verifyChainIntegrityProof (proof : ChainIntegrityProof) (resolverPublicKey : bytes)
    (expectedChallenge verifier : string) (now : Z) : res unit :=
  _ ← check (String.eqb (ci_cspVersion proof) "1.0.0") "CCR_VERSION_UNSUPPORTED";
  _ ← check (negb (num_gtb (Fin now) (num_of_date (iso_getTime (ci_notAfter proof))))) "CCR_FRESHNESS_INVALID";
  _ ← check (String.eqb (ci_challenge proof) expectedChallenge) "CCR_CHALLENGE_EXPIRED";
  _ ← check (String.eqb (ci_audience proof) verifier) "CCR_AUDIENCE_MISMATCH";
  canonical ← match canonicalize jcs (proof_json (ci_audience proof) (ci_challenge proof) (ci_cspVersion proof)
                                        (disclosedClaims proof) (ci_notAfter proof) (ci_token proof)) with
              | Ok s => Ok s
              | Throw _ => Throw "CCR_CHAIN_SIGNATURE_INVALID"
              end;
  let sigValid := match verify (textEncode canonical) (chainSignature proof) (toBase64Url resolverPublicKey) with
                  | Ok v => v
                  | Throw _ => false
                  end in
  check sigValid "CCR_CHAIN_SIGNATURE_INVALID".

End resolve.

(** ** The chain of controllers *)

Definition link (n : ControllerChainNode) : string * object := (controllerDid n, cachedDocument n).

(** The documents from a controller on, to one without controller. *)
Inductive controllers (P : CcrPorts) : option string → list (string * object) → Prop :=
| co_end : controllers P None []
| co_next did doc rest : did_resolve P did = Ok (Some doc) → controllers P (doc_controller doc) rest →
    controllers P (Some did) ((did, doc) :: rest).

(** A freshness proof that is neither too wide for the request nor too old. *)
Definition fresh (P : CcrPorts) (request : ControllerChainResolutionRequest) (now : Z) (did : string) : Prop :=
  ∃ rfp, getResolverFreshnessProof P did = Ok rfp
    ∧ num_gtb (freshnessWindowMs rfp) (default (freshnessWindowMs rfp) (maxFreshnessWindowMs request)) = false
    ∧ num_gtb (proof_age now (asOfTime rfp)) (freshnessWindowMs rfp) = false.

(** The chain that a request is about, with everything checked. *)
Record lawful_chain (P : CcrPorts) (ck : CcrClock) (request : ControllerChainResolutionRequest)
    (links : list (string * object)) : Prop := mkLawful {
  lc_root : ∃ rootDoc did, did_resolve P (targetDid request) = Ok (Some rootDoc) ∧ doc_controller rootDoc = Some did
              ∧ non_empty did = true ∧ controllers P (Some did) links;
  lc_depth : Z.of_nat (length links) ≤ default MAX_CHAIN_DEPTH (maxChainDepth request);
  lc_acyclic : NoDup links.*1;
  lc_fresh : ∀ i did doc, links !! i = Some (did, doc) → fresh P request (ck_fresh ck i) did;
  lc_signed : Forall (λ l, verifyDocumentSignature P l.2 = Ok true) links;
  lc_unrevoked : Forall (λ l, isControllerRevoked P l.1 = Ok false) links;
  lc_bound : Forall (λ l, vm_controller l.2 = Some l.1) links }.

Section chains.
Context (P : CcrPorts) (ck : CcrClock).

(** A node knows its place. *)
Definition placed (i : nat) (n : ControllerChainNode) : Prop :=
  depth n = i ∧ isRoot n = Nat.eqb i 0 ∧ (i = O → parentControllerDid n = None).

Lemma load_inv fuel nodes cur out :
  load_chain P ck fuel nodes cur = Ok out →
  ∃ new, out = nodes ++ new ∧ (NoDup (controllerDid <$> nodes) → NoDup (controllerDid <$> out))
    ∧ (∀ i n, new !! i = Some n → placed (length nodes + i) n)
    ∧ (length new = fuel ∨ controllers P cur (link <$> new)).
Proof.
  revert nodes cur. induction fuel as [|fuel IH]; intros nodes cur.
  { cbn. intros [= <-]. exists []. rewrite app_nil_r. split_and!; auto. intros i n Hi. done. }
  destruct cur as [did|]; cbn [load_chain].
  2: { intros [= <-]. exists []. rewrite app_nil_r. split_and!; auto; [intros i n Hi; done|]. right. constructor. }
  intros ([] & Hcyc%check_ok & Hd)%res_bind_ok. apply negb_true_iff, bool_decide_eq_false in Hcyc.
  apply res_bind_ok in Hd as ([doc|] & Er & Hd); [|done]. apply res_bind_ok in Hd as (id & _ & Hd).
  apply IH in Hd as (new & -> & Hn & Hp & Hc). eexists (_ :: new). rewrite <- app_assoc. cbn [app]. split; [reflexivity|]. split_and!.
  - intros Hnodup. rewrite <- app_assoc in Hn. cbn [app] in Hn. apply Hn. rewrite fmap_app. apply NoDup_app. split_and!; [done| |apply NoDup_singleton].
    intros x Hx ->%list_elem_of_singleton. done.
  - intros [|i] n; cbn.
    + intros [= <-]. rewrite Nat.add_0_r. split_and!; [done|done|]. cbn. intros ->. done.
    + intros Hi%Hp. rewrite length_app in Hi. cbn in Hi. by rewrite Nat.add_succ_r, <- Nat.add_succ_l, <- Nat.add_1_r.
  - cbn [length]. destruct Hc as [->|Hc]; [by left|]. right. rewrite fmap_cons. cbn. by constructor.
Qed.

Lemma load_intro fuel nodes cur links :
  controllers P cur links → NoDup ((controllerDid <$> nodes) ++ links.*1) → (length links ≤ fuel)%nat →
  (∀ i, UUID_V4_PATTERN (ck_uuid ck i) = true) →
  ∃ new, load_chain P ck fuel nodes cur = Ok (nodes ++ new) ∧ link <$> new = links.
Proof.
  intros Hc. revert fuel nodes. induction Hc as [|did doc rest Hr Hc IH]; intros fuel nodes Hn Hl Hu.
  { exists []. rewrite app_nil_r. by destruct fuel. }
  destruct fuel as [|fuel]; [cbn in Hl; lia|]. cbn [load_chain]. rewrite Hr.
  assert (did ∉ controllerDid <$> nodes) as Hnot.
  { intros Hin. apply NoDup_app in Hn as (_ & Hn & _). apply (Hn did Hin). left. }
  rewrite bool_decide_false by done. cbn. unfold toChainNodeId, csp_toUuidV4String. rewrite Hu. cbn.
  match goal with |- context [load_chain P ck fuel (nodes ++ [?n])] => destruct (IH fuel (nodes ++ [n])) as (new & E & Hlinks) end.
  - rewrite fmap_app, <- app_assoc. exact Hn.
  - cbn in Hl. lia.
  - done.
  - rewrite E, <- app_assoc. eexists. split; [reflexivity|]. cbn. by rewrite Hlinks.
Qed.

(** ** The checks of the steps *)

Lemma freshness_step_ok request nodes out :
  step4_freshness P ck request nodes = Ok out ↔
  Forall2 (λ n m, ∃ f, check_freshness P ck request n = Some f ∧ m = with_freshness f n) nodes out.
Proof.
  revert out. induction nodes as [|n nodes IH]; intros out; cbn [step4_freshness].
  { split; [intros [= <-]; constructor|]. by inversion 1. }
  destruct (check_freshness P ck request n) as [f|] eqn:E.
  - rewrite res_bind_ok. setoid_rewrite IH. split.
    + intros (rest & Hr & [= <-]). constructor; [by exists f|done].
    + inversion 1 as [|? m ? rest (f' & Hf & ->) Hr]; subst. rewrite E in Hf. injection Hf as <-. by exists rest.
  - split; [done|]. inversion 1 as [|? m ? rest (f & Hf & _) Hr]; subst. by rewrite E in Hf.
Qed.

Lemma check_freshness_Some request n :
  is_Some (check_freshness P ck request n) ↔ fresh P request (ck_fresh ck (depth n)) (controllerDid n).
Proof.
  unfold check_freshness, fresh. destruct (getResolverFreshnessProof P (controllerDid n)) as [rfp|c]; [|split; [by intros []|naive_solver]].
  destruct (num_gtb (freshnessWindowMs rfp) _) eqn:E1; [split; [by intros []|intros (r & [= <-] & ? & _); congruence]|].
  destruct (num_gtb (proof_age _ _) _) eqn:E2; [split; [by intros []|intros (r & [= <-] & _ & ?); congruence]|].
  split; [|by eexists]. intros _. by exists rfp.
Qed.

Lemma documents_step_ok nodes :
  step5_documents P nodes = Ok tt ↔ Forall (λ n, verifyDocumentSignature P (cachedDocument n) = Ok true) nodes.
Proof.
  induction nodes as [|n nodes IH]; cbn [step5_documents]; [by split|]. rewrite Forall_cons, <- IH.
  destruct (verifyDocumentSignature P (cachedDocument n)) as [[]|c]; cbn; naive_solver.
Qed.

Lemma step6_ok nodes :
  step6_revocation P nodes = Ok tt ↔ Forall (λ n, isControllerRevoked P (controllerDid n) = Ok false) nodes.
Proof.
  induction nodes as [|n nodes IH]; cbn [step6_revocation]; [by split|]. rewrite Forall_cons, <- IH.
  destruct (isControllerRevoked P (controllerDid n)) as [[]|c]; cbn; naive_solver.
Qed.

Lemma step8_ok seen nodes :
  NoDup (controllerDid <$> nodes) → (∀ n, n ∈ nodes → controllerDid n ∉ seen) → step8_cycle seen nodes = Ok tt.
Proof.
  revert seen. induction nodes as [|n nodes IH]; intros seen Hn Hs; [done|]. cbn [step8_cycle].
  rewrite fmap_cons, NoDup_cons in Hn. destruct Hn as [Hn1 Hn2].
  rewrite bool_decide_false by (apply Hs; left). cbn. apply IH; [done|]. intros m Hm. rewrite not_elem_of_cons. split.
  - intros E. apply Hn1. rewrite <- E. by apply list_elem_of_fmap_2.
  - apply Hs. by right.
Qed.

(** Freshness leaves the links and the places as they are. *)
Lemma step4_links request nodes out :
  step4_freshness P ck request nodes = Ok out → link <$> out = link <$> nodes ∧ length out = length nodes.
Proof.
  rewrite freshness_step_ok. induction 1 as [|n m nodes out (f & _ & ->) _ [IH1 IH2]]; [done|].
  split; [by rewrite !fmap_cons, IH1|cbn; by rewrite IH2].
Qed.
Lemma step4_dids request nodes out : step4_freshness P ck request nodes = Ok out → controllerDid <$> out = controllerDid <$> nodes.
Proof. intros [Hl _]%step4_links. apply (f_equal (fmap fst)) in Hl. by rewrite <- !list_fmap_compose in Hl. Qed.

Lemma step4_placed request nodes out i m :
  step4_freshness P ck request nodes = Ok out → (∀ j n, nodes !! j = Some n → placed j n) → out !! i = Some m → placed i m.
Proof.
  rewrite freshness_step_ok. intros H2 Hp Hi. destruct (Forall2_lookup_r _ _ _ _ _ H2 Hi) as (n & Hn & f & _ & ->).
  destruct (Hp i n Hn) as (? & ? & ?). by split.
Qed.
End chains.

Section resolution.
Context `{PrimitiveLaws} (P : CcrPorts) (ck : CcrClock).

Lemma links_fst (nodes : list ControllerChainNode) : (link <$> nodes).*1 = controllerDid <$> nodes.
Proof. by rewrite <- list_fmap_compose. Qed.

(** What a resolution is made of. *)
Lemma resolve_inv request options r :
  resolveControllerChain P ck request options = Ok r →
  lawful_chain P ck request (link <$> chain r)
  ∧ (∀ i n, chain r !! i = Some n → placed i n)
  ∧ buildChainIntegrityProof ck (chain r) request options = Ok (integrityProof r).
Proof.
  unfold resolveControllerChain. intros ([rootDoc|] & Eroot & Hd)%res_bind_ok; [|done].
  destruct (doc_controller rootDoc) as [did|] eqn:Ed; [|done].
  apply res_bind_ok in Hd as ([] & Hne%check_ok & Hd). apply res_bind_ok in Hd as (loaded & Hload & Hd).
  apply res_bind_ok in Hd as ([] & Hmax%check_ok & Hd). apply negb_true_iff, Z.ltb_ge in Hmax.
  apply res_bind_ok in Hd as ([] & Hlen%check_ok & Hd). apply negb_true_iff, Nat.eqb_neq in Hlen.
  apply res_bind_ok in Hd as (nodes & H4 & Hd). apply res_bind_ok in Hd as ([] & H5%documents_step_ok & Hd).
  apply res_bind_ok in Hd as ([] & H6%step6_ok & Hd). apply res_bind_ok in Hd as ([] & _ & Hd).
  apply res_bind_ok in Hd as ([] & _ & Hd). apply res_bind_ok in Hd as ([] & H9%check_ok & Hd).
  apply res_bind_ok in Hd as (proof & Hproof & [= <-]). cbn [chain integrityProof].
  apply load_inv in Hload as (new & -> & Hn & Hp & Hc). cbn [app] in *. specialize (Hn (NoDup_nil_2)).
  destruct Hc as [Hc|Hc]; [rewrite Hc in Hmax, Hlen; lia|].
  pose proof (step4_links P ck request new nodes H4) as [Hlinks Hlength]. split_and!; [|intros i n; by apply (step4_placed P ck request new nodes i n H4)|done].
  apply andb_true_iff in H9 as [[_ H9]%andb_true_iff _]. split.
  - exists rootDoc, did. by rewrite Hlinks.
  - by rewrite Hlinks, length_fmap.
  - rewrite links_fst. by rewrite (step4_dids P ck request new nodes H4).
  - intros i d doc. rewrite list_lookup_fmap. destruct (nodes !! i) as [m|] eqn:Em; [|done]. cbn. intros [= <- <-].
    pose proof H4 as H2%freshness_step_ok. destruct (Forall2_lookup_r _ _ _ _ _ H2 Em) as (n & En & f & Hf & ->).
    destruct (Hp i n En) as [Hdep _]. cbn. replace i with (depth n) by (rewrite Hdep; done). apply check_freshness_Some. by eexists.
  - apply Forall_fmap. exact H5.
  - apply Forall_fmap. exact H6.
  - apply Forall_fmap, Forall_forall. intros n Hin. cbn in H9. rewrite forallb_forall in H9. rewrite list_elem_of_In in Hin.
    by apply H9, bool_decide_eq_true in Hin.
Qed.

Lemma resolve_root request options r :
  resolveControllerChain P ck request options = Ok r →
  Some (rootControllerDid r) = controllerDid <$> head (chain r) ∧ chainDepth r = length (chain r).
Proof.
  unfold resolveControllerChain. intros ([rootDoc|] & Eroot & Hd)%res_bind_ok; [|done].
  destruct (doc_controller rootDoc) as [did|] eqn:Ed; [|done].
  do 3 apply res_bind_ok in Hd as (? & _ & Hd). apply res_bind_ok in Hd as ([] & _ & Hd).
  do 3 apply res_bind_ok in Hd as (? & _ & Hd). apply res_bind_ok in Hd as ([] & H7%check_ok & Hd).
  apply bool_decide_eq_true in H7. do 3 apply res_bind_ok in Hd as (? & _ & Hd).
  injection Hd as <-. cbn. by rewrite H7.
Qed.

(** ** The integrity proof *)

(** The text that is signed. *)
Definition proof_text (p : ChainIntegrityProof) : string :=
  jcs (proof_json (ci_audience p) (ci_challenge p) (ci_cspVersion p) (disclosedClaims p) (ci_notAfter p) (ci_token p)).

Lemma proof_json_serializable a c v claims n t :
  assertSerializable (proof_json a c v claims n t) = true ∧ canonical_value (proof_json a c v claims n t) = true.
Proof.
  assert (forallb assertSerializable (VStr <$> claims) = true ∧ forallb canonical_value (VStr <$> claims) = true) as [H1 H2]
    by (induction claims; [done|cbn; done]).
  cbn. rewrite H1, H2. done.
Qed.

Lemma build_inv nodes request options p :
  buildChainIntegrityProof ck nodes request options = Ok p →
  disclosedClaims p = claim_of <$> nodes ∧ ci_audience p = verifierDid request ∧ ci_challenge p = cr_challenge request
  ∧ ci_cspVersion p = "1.0.0"
  ∧ (∃ t, num_add (Fin (ck_proof ck)) (min_freshness nodes) = Fin t
      ∧ ci_notAfter p = toISOString t)
  ∧ match co_signFn options with Some f => f (textEncode (proof_text p)) = Ok (chainSignature p) | None => True end.
Proof.
  unfold buildChainIntegrityProof. intros (na & Hna & Hd)%res_bind_ok.
  unfold canonicalize in Hd. rewrite (proj1 (proof_json_serializable _ _ _ _ _ _)) in Hd. cbn [mbind res_bind] in Hd.
  do 2 apply res_bind_ok in Hd as ([] & _ & Hd). apply res_bind_ok in Hd as (sig & Hs & [= <-]). cbn.
  split_and!; try done; [|by destruct (co_signFn options)].
  unfold date_text in Hna. destruct (num_add _ _) as [| | |t] eqn:Et in Hna; try done. exists t. split; [exact Et|].
  destruct (Z.abs t <=? MAX_DATE); by simplify_eq.
Qed.

(** A signer and windows with which the proof can always be made. *)
Definition can_sign (options : CcrResolverOptions) : Prop :=
  (∃ d, co_resolverDid options = Some d ∧ non_empty d = true)
  ∧ ∃ f, co_signFn options = Some f ∧ ∀ m, ∃ sig, f m = Ok sig.
Definition dated_windows : Prop :=
  ∀ did rfp, getResolverFreshnessProof P did = Ok rfp →
    ∃ w, freshnessWindowMs rfp = Fin w ∧ Z.abs (ck_proof ck + w) ≤ MAX_DATE.

Lemma min_window nodes :
  nodes ≠ [] → Forall (λ n, ∃ w, freshnessWindowMs (freshnessProof n) = Fin w ∧ Z.abs (ck_proof ck + w) ≤ MAX_DATE) nodes →
  ∃ w, min_freshness nodes = Fin w ∧ Z.abs (ck_proof ck + w) ≤ MAX_DATE.
Proof.
  induction nodes as [|n nodes IH]; [done|]. intros _ ((w & Hw & Hwr) & Hr)%Forall_cons.
  unfold min_freshness in *. rewrite fmap_cons. cbn [foldr]. rewrite Hw. destruct nodes as [|m nodes]; [by exists w|].
  destruct IH as (v & -> & Hv); [done|done|]. unfold num_min. cbn. destruct (v <? w); eauto.
Qed.

Lemma build_intro nodes request options :
  can_sign options → nodes ≠ [] →
  Forall (λ n, ∃ w, freshnessWindowMs (freshnessProof n) = Fin w ∧ Z.abs (ck_proof ck + w) ≤ MAX_DATE) nodes →
  ∃ p, buildChainIntegrityProof ck nodes request options = Ok p.
Proof.
  intros [(d & Hd & Hne) (f & Hf & Ht)] Hn (w & Hw & Hwr)%min_window; [|done].
  unfold buildChainIntegrityProof. rewrite Hw. cbn [num_add date_text]. rewrite (proj2 (Z.leb_le _ _) Hwr). cbn [mbind res_bind].
  unfold canonicalize. rewrite (proj1 (proof_json_serializable _ _ _ _ _ _)). cbn [mbind res_bind].
  rewrite Hf, Hd, Hne, bool_decide_true by done. cbn.
  match goal with |- context [f ?m] => destruct (Ht m) as [sig ->] end. cbn. by eexists.
Qed.

Lemma step4_intro request nodes :
  (∀ n, n ∈ nodes → fresh P request (ck_fresh ck (depth n)) (controllerDid n)) → dated_windows →
  ∃ out, step4_freshness P ck request nodes = Ok out
    ∧ Forall (λ n, ∃ w, freshnessWindowMs (freshnessProof n) = Fin w ∧ Z.abs (ck_proof ck + w) ≤ MAX_DATE) out.
Proof.
  intros Hf Hw. induction nodes as [|n nodes IH]; [by exists []|].
  destruct IH as (out & E & Ho); [intros m Hm; apply Hf; by right|]. cbn [step4_freshness].
  pose proof (Hf n ltac:(left)) as Hn. destruct (proj2 (check_freshness_Some P ck request n) Hn) as [f Ef]. rewrite Ef, E.
  eexists. split; [reflexivity|]. constructor; [|done]. cbn. unfold check_freshness in Ef.
  destruct (getResolverFreshnessProof P (controllerDid n)) as [rfp|c] eqn:Er; [|done].
  do 2 (destruct (num_gtb _ _); [done|]). injection Ef as <-. exact (Hw _ _ Er).
Qed.

(** C19.  A request is resolved exactly to the lawful chain of controllers of its
    target: the resolver answers with these links if and only if they follow the
    [controller] member from the target's document to a document without one,
    are at most the allowed number, never repeat a DID, are fresh, signed and
    unrevoked, and carry verification methods bound to them. *)
Theorem chain_resolution_exact request options links :
  (∀ i, UUID_V4_PATTERN (ck_uuid ck i) = true) → can_sign options → dated_windows →
  (∃ r, resolveControllerChain P ck request options = Ok r ∧ link <$> chain r = links) ↔ lawful_chain P ck request links.
Proof.
  intros Hu Hs Hw. split; [by intros (r & (? & _)%resolve_inv & <-)|].
  intros [(rootDoc & did & Eroot & Ed & Hne & Hc) Hdepth Hn Hf Hsig Hrev Hb].
  destruct (load_intro P ck (Z.to_nat (default MAX_CHAIN_DEPTH (maxChainDepth request) + 1)) [] (Some did) links)
    as (new & Eload & Hlinks); [done|done|lia|done|]. cbn [app] in Eload.
  assert (length new = length links) as Hlen by (by rewrite <- Hlinks, length_fmap).
  pose proof (load_inv P ck _ _ _ _ Eload) as (new' & -> & _ & Hp & _). cbn [app length] in *.
  destruct (step4_intro request new') as (nodes & E4 & Hwin); [|done|].
  { intros n (i & Hi)%list_elem_of_lookup. destruct (Hp i n Hi) as [-> _]. apply (Hf i _ (cachedDocument n)).
    by rewrite <- Hlinks, list_lookup_fmap, Hi. }
  pose proof (step4_links P ck request new' nodes E4) as [Hl4 Hlen4]. rewrite Hlinks in Hl4.
  pose proof (step4_placed P ck request new' nodes 0%nat) as Hplace.
  assert (links ≠ []) as Hne0 by (by inversion Hc).
  destruct nodes as [|n0 nodes]; [by rewrite <- Hl4 in Hne0|].
  destruct (Hplace n0 E4 Hp eq_refl) as (Hd0 & Hroot & Hpar).
  assert (controllerDid n0 = did) as Hdid0
    by (inversion Hc as [|? doc rest ? ? Eq1 Eq2]; rewrite <- Eq2 in Hl4; by injection Hl4).
  destruct (build_intro (n0 :: nodes) request options Hs) as [proof Hproof]; [done|done|].
  unfold resolveControllerChain. rewrite Eroot. cbn [mbind res_bind]. rewrite Ed, Hne. cbn [check mbind res_bind].
  rewrite Eload. cbn [mbind res_bind]. rewrite Hlen, (proj2 (Z.ltb_ge _ _) Hdepth). cbn [negb check mbind res_bind].
  rewrite (proj2 (Nat.eqb_neq _ _)) by (by destruct links). cbn [negb check mbind res_bind]. rewrite E4. cbn [mbind res_bind].
  rewrite <- Hl4 in Hsig, Hrev, Hb, Hn. rewrite links_fst in Hn.
  rewrite (proj2 (documents_step_ok P (n0 :: nodes))) by (by apply Forall_fmap in Hsig). cbn [mbind res_bind].
  rewrite (proj2 (step6_ok P (n0 :: nodes))) by (by apply Forall_fmap in Hrev). cbn [mbind res_bind].
  rewrite bool_decide_true by (cbn; by rewrite Hdid0). cbn [check mbind res_bind].
  rewrite step8_ok by (done || set_solver). cbn [mbind res_bind].
  assert (chain_binding rootDoc (n0 :: nodes) = mkChainBinding true true true) as ->.
  { unfold chain_binding. rewrite Hroot, Hpar, Ed, Hdid0, !bool_decide_true by done. cbn [Nat.eqb andb].
    f_equal. apply forallb_forall. intros n Hin%list_elem_of_In. apply Forall_fmap in Hb. rewrite Forall_forall in Hb.
    apply bool_decide_eq_true. exact (Hb n Hin). }
  cbn [rootBindingValid verificationMethodBindingValid leafBindingValid andb check mbind res_bind]. rewrite Hproof.
  eexists. split; [reflexivity|]. exact Hl4.
Qed.

(** ** The integrity proof binds its audience *)

(** The proof of a resolution that was signed with a seed is accepted by the
    verifier who asked, with the challenge of the request, up to the end of the
    narrowest freshness window, and refused as stale after it. *)
Theorem integrity_proof_verifies request options r seed skey senc key window now :
  Forall is_byte seed → length seed = 32%nat →
  key = match skey with enc_hex => toHex seed | enc_base64url => toBase64Url seed end →
  co_signFn options = Some (λ m, sign m key senc) →
  resolveControllerChain P ck request options = Ok r →
  (senc = enc_base64url → detectEncoding (chainSignature (integrityProof r)) = enc_base64url) →
  min_freshness (chain r) = Fin window → iso_range (ck_proof ck + window) →
  verifyChainIntegrityProof (integrityProof r) (ed25519_pub seed) (cr_challenge request) (verifierDid request) now
  = if now <=? ck_proof ck + window then Ok tt else Throw "CCR_FRESHNESS_INVALID".
Proof.
  intros Hb Hl Hk Hf Hr Hdet Hw Hrange. apply resolve_inv in Hr as (_ & _ & Hr).
  apply build_inv in Hr as (_ & Ha & Hc & Hv & (t & Et & Ht) & Hs). rewrite Hf in Hs. rewrite Hw in Et. injection Et as <-.
  unfold verifyChainIntegrityProof. rewrite Hv, Ha, Hc, Ht, iso_print_parse, !String.eqb_refl by done.
  cbn [check mbind res_bind num_of_date num_gtb num_ltb]. rewrite Z.leb_antisym. destruct (ck_proof ck + window <? now); cbn [negb check mbind res_bind]; [done|].
  unfold canonicalize. rewrite (proj1 (proof_json_serializable _ _ _ _ _ _)). cbn [mbind res_bind].
  unfold proof_text in Hs. rewrite Hv, Ha, Hc, Ht in Hs.
  by rewrite (sign_verify_encodings _ seed skey enc_base64url senc key _ Hb Hl Hk Hs Hdet).
Qed.

(** What passes verification is bound: version, challenge and audience are the
    verifier's, it is not past its end, and the signature is valid over all
    signed members. *)
Theorem verified_proof_bound p pk challenge verifier now :
  verifyChainIntegrityProof p pk challenge verifier now = Ok tt ↔
  ci_cspVersion p = "1.0.0" ∧ ci_challenge p = challenge ∧ ci_audience p = verifier
  ∧ num_gtb (Fin now) (num_of_date (iso_getTime (ci_notAfter p))) = false
  ∧ verify (textEncode (proof_text p)) (chainSignature p) (toBase64Url pk) = Ok true.
Proof.
  unfold verifyChainIntegrityProof, canonicalize. rewrite (proj1 (proof_json_serializable _ _ _ _ _ _)).
  unfold proof_text. rewrite !res_bind_ok. setoid_rewrite check_ok.
  split.
  - intros ([] & Hv%String.eqb_eq & Hd). apply res_bind_ok in Hd as ([] & Hn%check_ok & Hd).
    apply res_bind_ok in Hd as ([] & Hc%check_ok%String.eqb_eq & Hd). apply res_bind_ok in Hd as ([] & Ha%check_ok%String.eqb_eq & Hd).
    cbn in Hd. apply check_ok in Hd. apply negb_true_iff in Hn. split_and!; try done.
    destruct (verify _ _ _) as [v|]; [by rewrite Hd|done].
  - intros (Hv & Hc & Ha & Hn & Hs). exists tt. rewrite Hv, Hc, Ha, Hn. rewrite Hv, Hc, Ha in Hs. rewrite !String.eqb_refl. split; [done|].
    cbn. by rewrite Hs.
Qed.

End resolution.

(** Two resolutions whose signed texts are equal went through the same
    controllers in the same order, for the same verifier and challenge. *)
Theorem proof_determines_chain `{PrimitiveLaws} P1 ck1 request1 options1 r1 P2 ck2 request2 options2 r2 :
  resolveControllerChain P1 ck1 request1 options1 = Ok r1 → resolveControllerChain P2 ck2 request2 options2 = Ok r2 →
  proof_text (integrityProof r1) = proof_text (integrityProof r2) →
  controllerDid <$> chain r1 = controllerDid <$> chain r2
  ∧ verifierDid request1 = verifierDid request2 ∧ cr_challenge request1 = cr_challenge request2.
Proof.
  intros (_ & Hp1 & Hb1)%resolve_inv (_ & Hp2 & Hb2)%resolve_inv.
  apply build_inv in Hb1 as (Hc1 & <- & <- & _). apply build_inv in Hb2 as (Hc2 & <- & <- & _).
  unfold proof_text. intros E%jcs_inj; [|apply proof_json_serializable..]. injection E as Ea Ec _ Ecl _ _. split; [|done].
  apply (inj (fmap VStr)) in Ecl. rewrite Hc1, Hc2 in Ecl. apply list_eq. intros i.
  pose proof (f_equal (.!! i) Ecl) as Ei. cbn in Ei. rewrite !list_lookup_fmap in Ei |- *.
  destruct (chain r1 !! i) as [n1|] eqn:E1, (chain r2 !! i) as [n2|] eqn:E2; try done. cbn in Ei |- *.
  destruct (Hp1 i n1 E1) as [Hd1 _], (Hp2 i n2 E2) as [Hd2 _]. injection Ei as Ei. unfold claim_of in Ei. rewrite Hd1, Hd2 in Ei.
  f_equal. by do 2 apply (inj (String.append _)) in Ei.
Qed.

(** ** What the resolution leaves out *)

Lemma step4_ext P P' ck ck' request request' nodes :
  (∀ n, check_freshness P ck request n = check_freshness P' ck' request' n) →
  step4_freshness P ck request nodes = step4_freshness P' ck' request' nodes.
Proof. intros E. induction nodes as [|n nodes IH]; [done|]. cbn [step4_freshness]. by rewrite E, IH. Qed.

(** The proof says nothing of the target: two targets whose documents name the
    same controller have the same resolution, with the same proof. *)
Theorem resolution_not_bound_to_target `{Primitives} P ck request options other doc doc' :
  let request' := mkCcrRequest other (cr_challenge request) (verifierDid request) (maxChainDepth request)
                    (maxFreshnessWindowMs request) in
  did_resolve P (targetDid request) = Ok (Some doc) → did_resolve P other = Ok (Some doc') →
  doc_controller doc = doc_controller doc' →
  resolveControllerChain P ck request options = resolveControllerChain P ck request' options.
Proof.
  intros request' E1 E2 Ed. unfold resolveControllerChain. cbn [targetDid request']. rewrite E1, E2. cbn [mbind res_bind].
  unfold chain_binding. rewrite Ed. destruct (doc_controller doc') as [did|]; [|done].
  destruct (check _ _); [|done]. cbn [mbind res_bind maxChainDepth request']. destruct (load_chain _ _ _ _ _) as [loaded|]; [|done].
  cbn [mbind res_bind]. by rewrite (step4_ext P P ck ck request request').
Qed.

(** The answers of the freshness port with other [verified] flags. *)
Definition with_flags (flag : string → bool) (P : CcrPorts) : CcrPorts :=
  mkCcrPorts (did_resolve P) (verifyDocumentSignature P)
    (λ did, f ← getResolverFreshnessProof P did; mret (mkFreshness (freshnessWindowMs f) (asOfTime f) (flag did)))
    (isControllerRevoked P).

(** The [verified] flag of a freshness proof is never read: a proof that its own
    verifier marks as failed is accepted and reported as verified. *)
Theorem freshness_flag_ignored `{Primitives} P ck request options flag :
  resolveControllerChain (with_flags flag P) ck request options = resolveControllerChain P ck request options.
Proof.
  assert (∀ fuel nodes cur, load_chain (with_flags flag P) ck fuel nodes cur = load_chain P ck fuel nodes cur) as Hl.
  { induction fuel as [|fuel IH]; intros nodes cur; [done|]. cbn [load_chain]. destruct cur as [did|]; [|done].
    cbn [did_resolve with_flags]. destruct (check _ _); [|done]. cbn [mbind res_bind].
    destruct (did_resolve P did) as [[doc|]|]; [|done..]. cbn [mbind res_bind]. destruct (toChainNodeId _); [|done]. cbn. apply IH. }
  assert (∀ nodes, step4_freshness (with_flags flag P) ck request nodes = step4_freshness P ck request nodes) as H4.
  { intros nodes. apply step4_ext. intros n. unfold check_freshness. cbn [getResolverFreshnessProof with_flags].
    by destruct (getResolverFreshnessProof P (controllerDid n)). }
  assert (∀ nodes, step5_documents (with_flags flag P) nodes = step5_documents P nodes) as H5 by (by induction nodes).
  assert (∀ nodes, step6_revocation (with_flags flag P) nodes = step6_revocation P nodes) as H6 by (by induction nodes).
  unfold resolveControllerChain. cbn [did_resolve with_flags]. destruct (did_resolve P (targetDid request)) as [[doc|]|]; [|done..].
  cbn [mbind res_bind]. destruct (doc_controller doc) as [did|]; [|done]. rewrite Hl.
  destruct (check _ _); [|done]. cbn [mbind res_bind]. destruct (load_chain _ _ _ _ _) as [loaded|]; [|done]. cbn [mbind res_bind].
  rewrite H4. do 2 (destruct (check _ _); [|done]; cbn [mbind res_bind]).
  destruct (step4_freshness _ _ _ _) as [nodes|]; [|done]. cbn [mbind res_bind]. by rewrite H5, H6.
Qed.
