(* ===== verification/ControllerChainExamples.v ===== *)
(** * Concrete controller chains

    A target controlled by [did:b], which [did:c] controls, over the toy
    primitives of ToyPrimitives.v: the values at which the theorems of
    ControllerChain.v are applied, and runs of the error paths. *)
From S2P Require Import Prelude JsValue Time Encoding Crypto ToyPrimitives Authorization SignedPayload.
From S2P Require Import ControllerChain.

Definition cc_doc (did : string) (controller : option string) : object :=
  [("id", VStr did); ("verificationMethod", VArr [VObj [("controller", VStr did)]])]
  ++ match controller with Some c => [("controller", VStr c)] | None => [] end.

Definition cc_docs : list (string * object) :=
  [("did:a", cc_doc "did:a" (Some "did:b")); ("did:a2", cc_doc "did:a2" (Some "did:b"));
   ("did:b", cc_doc "did:b" (Some "did:c")); ("did:c", cc_doc "did:c" None);
   ("did:x", cc_doc "did:x" (Some "did:y")); ("did:y", cc_doc "did:y" (Some "did:x"));
   ("did:orphan", cc_doc "did:orphan" None)].

Definition cc_asof : string := "2026-06-01T00:00:00.000Z".
Definition cc_now : Z := 1780272060000.

Definition cc_ports : CcrPorts :=
  mkCcrPorts (λ did, Ok (map_get did cc_docs)) (λ _, Ok true)
    (λ _, Ok (mkFreshness (Fin 300000) cc_asof true)) (λ _, Ok false).
Definition cc_ck : CcrClock :=
  mkCcrClock (λ _, cc_now) (λ _, cc_now) cc_now cc_now (λ _, "123e4567-e89b-42d3-a456-426614174000").
Definition cc_seed : bytes := replicate 32 7.
Definition cc_options : CcrResolverOptions :=
  mkCcrOptions (Some "did:resolver") (Some (λ m, sign m (toHex cc_seed) enc_hex)) false.
Definition cc_request (target : string) : ControllerChainResolutionRequest :=
  mkCcrRequest target "nonce-1" "did:verifier" None (Some (Fin 300000)).

Definition cc_links (target : string) : res (list string) :=
  r ← resolveControllerChain cc_ports cc_ck (cc_request target) cc_options; mret (controllerDid <$> chain r).

Example cc_runs :
  cc_links <$> ["did:a"; "did:x"; "did:orphan"; "did:none"]
  = [Ok ["did:b"; "did:c"]; Throw "CCR_CHAIN_CYCLE"; Throw "CCR_CHAIN_BROKEN"; Throw "CCR_RESOLVER_UNAVAILABLE"].
Proof. vm_compute. reflexivity. Qed.

Lemma cc_lawful :
  lawful_chain cc_ports cc_ck (cc_request "did:a") [("did:b", cc_doc "did:b" (Some "did:c")); ("did:c", cc_doc "did:c" None)].
Proof.
  split.
  - exists (cc_doc "did:a" (Some "did:b")), "did:b". split_and!; try reflexivity. do 2 (constructor; [reflexivity|]). constructor.
  - vm_compute. discriminate.
  - apply (bool_decide_eq_true_1 _). vm_compute. reflexivity.
  - intros i did doc _. eexists. split; [reflexivity|]. split; vm_compute; reflexivity.
  - repeat constructor.
  - repeat constructor.
  - repeat constructor.
Qed.

Lemma cc_can_sign : can_sign cc_options.
Proof. split; [by exists "did:resolver"|]. eexists. split; [reflexivity|]. intros m. eexists. reflexivity. Qed.

Lemma chain_resolution_exact_witness :
  ∃ r, resolveControllerChain cc_ports cc_ck (cc_request "did:a") cc_options = Ok r
    ∧ link <$> chain r = [("did:b", cc_doc "did:b" (Some "did:c")); ("did:c", cc_doc "did:c" None)].
Proof.
  apply (chain_resolution_exact cc_ports cc_ck (cc_request "did:a") cc_options).
  - intros i. vm_compute. reflexivity.
  - apply cc_can_sign.
  - intros did rfp [= <-]. exists 300000. split; [reflexivity|]. vm_compute. discriminate.
  - apply cc_lawful.
Defined.

Definition cc_result (target : string) : res ControllerChainResolution :=
  resolveControllerChain cc_ports cc_ck (cc_request target) cc_options.

Lemma integrity_proof_verifies_witness :
  ∃ r, cc_result "did:a" = Ok r
    ∧ verifyChainIntegrityProof (integrityProof r) (ed25519_pub cc_seed) "nonce-1" "did:verifier" (cc_now + 300000) = Ok tt
    ∧ verifyChainIntegrityProof (integrityProof r) (ed25519_pub cc_seed) "nonce-1" "did:verifier" (cc_now + 300001)
      = Throw "CCR_FRESHNESS_INVALID".
Proof.
  destruct (cc_result "did:a") as [r|] eqn:E; [|vm_compute in E; discriminate E]. exists r. split; [reflexivity|].
  pose proof (λ now, integrity_proof_verifies cc_ports cc_ck (cc_request "did:a") cc_options r cc_seed enc_hex enc_hex (toHex cc_seed)
                300000 now) as Hv.
  split.
  all: rewrite Hv; [vm_compute; reflexivity| | | | |exact E|discriminate| |split; vm_compute; discriminate].
  all: try reflexivity; try (apply Forall_replicate; vm_compute; split; congruence).
  all: vm_compute in E; injection E as <-; vm_compute; reflexivity.
Defined.

Lemma proof_determines_chain_witness :
  ∃ r1 r2, cc_result "did:a" = Ok r1 ∧ cc_result "did:a2" = Ok r2 ∧ controllerDid <$> chain r1 = controllerDid <$> chain r2.
Proof.
  destruct (cc_result "did:a") as [r1|] eqn:E1; [|vm_compute in E1; discriminate E1].
  destruct (cc_result "did:a2") as [r2|] eqn:E2; [|vm_compute in E2; discriminate E2].
  exists r1, r2. split; [reflexivity|]. split; [reflexivity|].
  apply (proof_determines_chain cc_ports cc_ck (cc_request "did:a") cc_options r1 cc_ports cc_ck (cc_request "did:a2") cc_options r2 E1 E2).
  vm_compute in E1. vm_compute in E2. injection E1 as <-. injection E2 as <-. reflexivity.
Defined.

Lemma resolution_not_bound_to_target_witness : cc_result "did:a" = cc_result "did:a2".
Proof.
  apply (resolution_not_bound_to_target cc_ports cc_ck (cc_request "did:a") cc_options "did:a2" (cc_doc "did:a" (Some "did:b"))
           (cc_doc "did:a2" (Some "did:b"))); reflexivity.
Defined.

(** ** Defects *)

(** A freshness proof whose time cannot be read is never stale. *)
Theorem unreadable_freshness_accepted :
  let ports := mkCcrPorts (did_resolve cc_ports) (verifyDocumentSignature cc_ports)
                 (λ _, Ok (mkFreshness (Fin 300000) "never" false)) (isControllerRevoked cc_ports) in
  (r ← resolveControllerChain ports cc_ck (cc_request "did:a") cc_options; mret (freshnessVerified r)) = Ok true.
Proof. vm_compute. reflexivity. Qed.

(** The signature and the revocation of the target's own document are never
    asked for. *)
Theorem target_document_unchecked :
  let ports := mkCcrPorts (did_resolve cc_ports) (λ doc, Ok (negb (bool_decide (doc_string doc "id" = Some "did:a"))))
                 (getResolverFreshnessProof cc_ports) (λ did, Ok (String.eqb did "did:a")) in
  (r ← resolveControllerChain ports cc_ck (cc_request "did:a") cc_options; mret (controllerDid <$> chain r)) = Ok ["did:b"; "did:c"].
Proof. vm_compute. reflexivity. Qed.
