(* ===== verification/Encryption.v ===== *)
(** * End-to-end encryption primitives

    Models packages/crypto/src/encryption.ts: key agreement, the transcript
    hash, key derivation, key ids, nonces and associated data.  X25519, HKDF and
    AES-256-GCM (@noble/curves, @noble/hashes, @noble/ciphers) are the operations
    of the class [E2EPrimitives], with the documented behaviour the code relies
    on in [E2ELaws].  Sequence numbers are the bigints of the source; the words
    that are written into a nonce or a key id are taken modulo 2^32, as
    [DataView.setUint32] does. *)
From S2P Require Import Prelude JsValue Time Encoding Crypto Authorization SignedPayload.
From stdpp Require Import pretty.
Open Scope Z_scope.

(** ** Third-party primitives *)

Class E2EPrimitives : Type := {
  x25519_pub : bytes → bytes;
  (** secret key, public key; [None] when the library refuses the point *)
  x25519_shared : bytes → bytes → option bytes;
  (** input key material, salt *)
  hkdf_extract : bytes → bytes → bytes;
  (** pseudorandom key, label, length *)
  hkdf_expand : bytes → bytes → nat → bytes;
  (** key, nonce, associated data, text; [None] when the library throws *)
  gcm_encrypt : bytes → bytes → bytes → bytes → option bytes;
  gcm_decrypt : bytes → bytes → bytes → bytes → option bytes }.

Class E2ELaws `{E2EPrimitives} : Prop := {
  x25519_pub_bytes sk : Forall is_byte (x25519_pub sk) ∧ length (x25519_pub sk) = 32%nat;
  (** Diffie and Hellman *)
  x25519_agree a b : x25519_shared a (x25519_pub b) = x25519_shared b (x25519_pub a);
  hkdf_expand_bytes prk info n : Forall is_byte (hkdf_expand prk info n) ∧ length (hkdf_expand prk info n) = n;
  (** with a 256-bit key and a 96-bit nonce, encryption succeeds and decryption
      undoes it *)
  gcm_roundtrip key nonce aad text : length key = 32%nat → length nonce = 12%nat → Forall is_byte text →
    ∃ c, gcm_encrypt key nonce aad text = Some c ∧ Forall is_byte c ∧ c ≠ [] ∧ gcm_decrypt key nonce aad c = Some text }.

(** ** Words *)

(** [DataView.setUint32(_, n, false)] *)
Definition be32 (n : Z) : bytes :=
  [Z.land (Z.shiftr n 24) 255; Z.land (Z.shiftr n 16) 255; Z.land (Z.shiftr n 8) 255; Z.land n 255].

(** [seq = (seq << 8n) | BigInt(b)], over the bytes. *)
Definition be_num (bs : bytes) : Z := fold_left (λ acc b, Z.lor (Z.shiftl acc 8) b) bs 0.

(** ** Directions and roles *)

Inductive direction : Type := init_to_resp | resp_to_init.
Inductive role : Type := initiator | responder.
#[export] Instance direction_eq_dec : EqDecision direction.
Proof. solve_decision. Defined.
#[export] Instance role_eq_dec : EqDecision role.
Proof. solve_decision. Defined.

Definition direction_name (d : direction) : string :=
  match d with init_to_resp => "init_to_resp" | resp_to_init => "resp_to_init" end.
Definition DIRECTION_BYTE (d : direction) : Z := match d with init_to_resp => 1 | resp_to_init => 2 end.
Definition ownDirection (r : role) : direction := match r with initiator => init_to_resp | responder => resp_to_init end.
Definition peerDirection (r : role) : direction := match r with initiator => resp_to_init | responder => init_to_resp end.

(** ** The transcript hash *)

Record TranscriptHashInput : Type := mkTranscript {
  tr_initiatorDid : string;
  tr_responderDid : string;
  tr_initiatorCapabilities : list string;
  tr_responderCapabilities : list string;
  tr_initiatorPreference : string;
  tr_responderPreference : string;
  tr_negotiatedEncryptionMode : string;
  tr_I_epk : string;
  tr_R_epk : string;
  tr_nonce : string;
  tr_initTimestamp : string;
  tr_responseTimestamp : string;
  tr_authorizedPrincipalDid : string;
  tr_authorizedTokenId : option string;
  tr_authorizedTokenFingerprint : string }.

Definition opt_str (o : option string) : value := match o with Some s => VStr s | None => VNull end.
Definition str_array (l : list string) : value := VArr (VStr <$> l).

(** The sixteen members, in the order of the keys. *)
Definition transcript_json (t : TranscriptHashInput) : value :=
  VObj [("I_epk", VStr (tr_I_epk t)); ("R_epk", VStr (tr_R_epk t));
        ("authorizedPrincipalDid", VStr (tr_authorizedPrincipalDid t));
        ("authorizedTokenFingerprint", VStr (tr_authorizedTokenFingerprint t));
        ("authorizedTokenId", opt_str (tr_authorizedTokenId t)); ("initTimestamp", VStr (tr_initTimestamp t));
        ("initiatorCapabilities", str_array (tr_initiatorCapabilities t)); ("initiatorDid", VStr (tr_initiatorDid t));
        ("initiatorPreference", VStr (tr_initiatorPreference t));
        ("negotiatedEncryptionMode", VStr (tr_negotiatedEncryptionMode t)); ("nonce", VStr (tr_nonce t));
        ("protocolVersion", VStr "ap/e2e/v1"); ("responderCapabilities", str_array (tr_responderCapabilities t));
        ("responderDid", VStr (tr_responderDid t)); ("responderPreference", VStr (tr_responderPreference t));
        ("responseTimestamp", VStr (tr_responseTimestamp t))].

(** ** HKDF labels *)

Definition INIT_TO_RESP_KEY : string := "ap/e2e/v1/traffic/init->resp/key".
Definition RESP_TO_INIT_KEY : string := "ap/e2e/v1/traffic/resp->init/key".
Definition SESSION_SALT : string := "ap/e2e/v1/nonce/session-salt".
Definition REKEY_CHAIN : string := "ap/e2e/v1/rekey/chain-key".

Record TrafficKeys : Type := mkTraffic { initToResp : bytes; respToInit : bytes }.

Record DerivedSessionKeys : Type := mkDerived {
  dk_traffic : TrafficKeys;
  dk_sessionSalt : bytes;
  dk_rekeyChainKey : bytes }.

Definition key_of (d : direction) (k : TrafficKeys) : bytes :=
  match d with init_to_resp => initToResp k | resp_to_init => respToInit k end.

Section encryption.
Context `{Primitives} `{E2EPrimitives}.

Definition computeTranscriptHash (t : TranscriptHashInput) : res bytes :=
  json ← canonicalize jcs (transcript_json t);
  mret (sha256 (textEncode json)).

Definition computeX25519SharedSecret (mySecretKey theirPublicKey : bytes) : res bytes :=
  match x25519_shared mySecretKey theirPublicKey with Some s => Ok s | None => Throw "Error" end.

Definition deriveSessionKeys (sharedSecret transcriptHash : bytes) : DerivedSessionKeys :=
  let prk := hkdf_extract sharedSecret transcriptHash in
  mkDerived (mkTraffic (hkdf_expand prk (textEncode INIT_TO_RESP_KEY) 32) (hkdf_expand prk (textEncode RESP_TO_INIT_KEY) 32))
    (hkdf_expand prk (textEncode SESSION_SALT) 4) (hkdf_expand prk (textEncode REKEY_CHAIN) 32).

(** The two traffic keys are not used; a chain rekey keeps the salt. *)
Definition deriveChainKeyRekeyKeys (prevRekeyChainKey : bytes) : TrafficKeys * bytes :=
  let prk := hkdf_extract prevRekeyChainKey prevRekeyChainKey in
  (mkTraffic (hkdf_expand prk (textEncode INIT_TO_RESP_KEY) 32) (hkdf_expand prk (textEncode RESP_TO_INIT_KEY) 32),
   hkdf_expand prk (textEncode REKEY_CHAIN) 32).

Definition computeKeyId (directionKey : bytes) (generation : Z) : string :=
  let genBytes := be32 (generation / 2 ^ 32) ++ be32 generation in
  toHex (take 16 (sha256 (directionKey ++ genBytes))).

(** ** Associated data *)

Record AeadAadFields : Type := mkAadFields {
  aad_envelopeId : string;
  aad_messageType : string;
  aad_summary : option object }.

Definition aad_json (f : AeadAadFields) (d : direction) (keyId : string) (seq : Z) (sessionId : string)
    (tokenId : option string) : value :=
  VObj [("aadSummary", match aad_summary f with Some o => VObj o | None => VNull end);
        ("direction", VStr (direction_name d)); ("envelopeId", VStr (aad_envelopeId f)); ("keyId", VStr keyId);
        ("messageType", VStr (aad_messageType f)); ("sequenceNumber", VStr (pretty seq)); ("sessionId", VStr sessionId);
        ("tokenId", opt_str tokenId)].

Definition buildAeadBytes (f : AeadAadFields) (d : direction) (keyId : string) (seq : Z) (sessionId : string)
    (tokenId : option string) : res bytes :=
  json ← canonicalize jcs (aad_json f d keyId seq sessionId tokenId);
  mret (textEncode json).

Definition aeadEncrypt (key nonce aad plaintext : bytes) : res bytes :=
  match gcm_encrypt key nonce aad plaintext with Some c => Ok c | None => Throw "Error" end.
Definition aeadDecrypt (key nonce aad ciphertext : bytes) : res bytes :=
  match gcm_decrypt key nonce aad ciphertext with Some p => Ok p | None => Throw "Error" end.

End encryption.

(** ** Nonces *)

Definition buildAeadNonce (d : direction) (sequenceNumber : Z) (sessionSalt : bytes) : bytes :=
  DIRECTION_BYTE d :: be32 (Z.shiftr sequenceNumber 32) ++ be32 (Z.land sequenceNumber 4294967295)
  ++ [nth 0 sessionSalt 0; nth 1 sessionSalt 0; nth 2 sessionSalt 0].

(** Bytes 1 to 8 of a nonce. *)
Definition nonce_seq (nonce : bytes) : Z := be_num (take 8 (drop 1 nonce)).

(** ** Lemmas *)

Lemma land_255 n : is_byte (Z.land n 255).
Proof. unfold is_byte. change 255 with (Z.ones 8). rewrite Z.land_ones by lia. apply Z.mod_pos_bound. lia. Qed.
#[export] Hint Resolve land_255 : coivitas.

Lemma be32_bytes n : Forall is_byte (be32 n) ∧ length (be32 n) = 4%nat.
Proof. split; [|done]. unfold be32. repeat first [apply Forall_nil_2 | apply Forall_cons_2; [apply land_255|]]. Qed.

Lemma byte_at n k : 0 <= k → Z.land (Z.shiftr n k) 255 = n / 2 ^ k mod 256.
Proof. intros Hk. change 255 with (Z.ones 8). by rewrite Z.land_ones, Z.shiftr_div_pow2 by lia. Qed.

(** Only the low 32 bits are written. *)
Lemma be32_mod n m : n mod 2 ^ 32 = m mod 2 ^ 32 → be32 n = be32 m.
Proof.
  intros E. unfold be32. rewrite <- (Z.shiftr_0_r n), <- (Z.shiftr_0_r m), !Z.shiftr_shiftr, !byte_at by lia.
  do 4 (apply f_equal2; [cbn [Z.add]; Z.div_mod_to_equations; lia|]). done.
Qed.

Lemma be32_fold n acc : fold_left (λ acc b, Z.lor (Z.shiftl acc 8) b) (be32 n) acc = acc * 2 ^ 32 + n mod 2 ^ 32.
Proof.
  unfold be32. cbn [fold_left]. rewrite !lor_shiftl_add by (lia || apply land_255).
  change (Z.land n 255) with (Z.land (Z.shiftr n 0) 255). rewrite !byte_at by lia.
  change (2 ^ 0) with 1. rewrite Z.div_1_r. Z.div_mod_to_equations. lia.
Qed.

(** A nonce carries its sequence number modulo 2^64. *)
Lemma nonce_seq_build d seq salt : 0 <= seq → nonce_seq (buildAeadNonce d seq salt) = seq mod 2 ^ 64.
Proof.
  intros Hs. unfold nonce_seq, buildAeadNonce. cbn [drop be32 app take]. unfold be_num.
  change (fold_left (λ acc b, Z.lor (Z.shiftl acc 8) b) (be32 (Z.shiftr seq 32) ++ be32 (Z.land seq 4294967295)) 0 = seq mod 2 ^ 64).
  rewrite fold_left_app, !be32_fold. change 4294967295 with (Z.ones 32). rewrite Z.land_ones, Z.shiftr_div_pow2 by lia.
  Z.div_mod_to_equations. lia.
Qed.

Lemma nonce_bytes d seq salt :
  Forall is_byte salt → Forall is_byte (buildAeadNonce d seq salt) ∧ length (buildAeadNonce d seq salt) = 12%nat.
Proof.
  intros Hs. split; [|done]. unfold buildAeadNonce. constructor; [by destruct d; split|].
  assert (∀ i, is_byte (nth i salt 0)) as Hn.
  { intros i. destruct (nth_in_or_default i salt 0) as [Hi| ->]; [|by split]. rewrite Forall_forall in Hs. apply Hs. by apply list_elem_of_In. }
  repeat apply Forall_app_2; try apply be32_bytes. repeat first [apply Forall_nil_2 | apply Forall_cons_2; [apply Hn|]].
Qed.

(** Below 2^64 two nonces of one salt are equal only for the same direction and
    sequence number. *)
Lemma nonce_inj d1 d2 seq1 seq2 salt :
  0 <= seq1 < 2 ^ 64 → 0 <= seq2 < 2 ^ 64 →
  buildAeadNonce d1 seq1 salt = buildAeadNonce d2 seq2 salt → d1 = d2 ∧ seq1 = seq2.
Proof.
  intros H1 H2 E. split.
  - apply (f_equal head) in E. cbn in E. by destruct d1, d2.
  - apply (f_equal nonce_seq) in E. rewrite !nonce_seq_build, !Z.mod_small in E by lia. done.
Qed.

(** ** Serialization never fails on the transcript *)

Lemma str_array_ok l : assertSerializable (str_array l) = true ∧ canonical_value (str_array l) = true.
Proof. unfold str_array. cbn. by induction l. Qed.

Lemma transcript_ok t : assertSerializable (transcript_json t) = true ∧ canonical_value (transcript_json t) = true.
Proof.
  unfold transcript_json. cbn [assertSerializable canonical_value forallb snd fst fmap list_fmap].
  rewrite !(proj1 (str_array_ok _)), !(proj2 (str_array_ok _)).
  split; (destruct (tr_authorizedTokenId t); reflexivity).
Qed.

Lemma str_array_inj l1 l2 : str_array l1 = str_array l2 → l1 = l2.
Proof. intros [= E]. by apply (inj (fmap VStr)) in E. Qed.
Lemma opt_str_inj o1 o2 : opt_str o1 = opt_str o2 → o1 = o2.
Proof. by destruct o1, o2; intros [=]; subst. Qed.

Lemma transcript_inj t1 t2 : transcript_json t1 = transcript_json t2 → t1 = t2.
Proof.
  unfold transcript_json. intros [= ? ? ? ? E1 ? E2 ? ? ? ? E3 ? ? ?].
  apply opt_str_inj in E1. apply (inj (fmap VStr)) in E2. apply (inj (fmap VStr)) in E3.
  destruct t1, t2; cbn in *; by subst.
Qed.

Section transcript.
Context `{PrimitiveLaws}.

Lemma transcript_hash_ok t : computeTranscriptHash t = Ok (sha256 (textEncode (jcs (transcript_json t)))).
Proof. unfold computeTranscriptHash, canonicalize. by rewrite (proj1 (transcript_ok t)). Qed.

(** The text that is hashed determines all sixteen members. *)
Lemma transcript_text_inj t1 t2 : jcs (transcript_json t1) = jcs (transcript_json t2) → t1 = t2.
Proof. intros E%jcs_inj; [by apply transcript_inj|apply transcript_ok..]. Qed.
End transcript.
