(* ===== verification/SecureChannel.v ===== *)
(** * Encrypted sessions

    Models packages/communication/src/session/crypto-state.ts (the handles that
    encrypt and decrypt), session-registry.ts (sessions, rekeying and the window
    in which two generations of keys are live) and the two functions of
    envelope.ts that encrypt and decrypt the body of an envelope, with the types
    of packages/types/src/encryption.ts.  A handle is an object that callers may
    keep, so handles live in a store and the registry holds their addresses.
    Timers are pending callbacks that fire in any order once they are due. *)
From S2P Require Import Prelude JsValue Time Encoding Crypto Authorization SignedPayload Encryption.
From stdpp Require Import pretty.
Open Scope Z_scope.

(** ** Handles *)

Inductive SessionHandleState : Type := ACTIVE | PENDING_REKEY | CLOSED | REVOKED.
#[export] Instance SessionHandleState_eq_dec : EqDecision SessionHandleState.
Proof. solve_decision. Defined.

Record SessionCryptoHandle : Type := mkHandle {
  h_sessionId : string;
  h_generation : Z;
  h_role : role;
  h_authorizedTokenId : option string;
  h_state : SessionHandleState;
  h_trafficKeys : TrafficKeys;
  h_sessionSalt : bytes;
  h_rekeyChainKey : bytes;
  h_sequenceNumber : Z;
  h_zeroized : bool;
  h_cachedOwnKeyId : option string }.

Record NewSessionData : Type := mkSessionData {
  nd_trafficKeys : TrafficKeys;
  nd_sessionSalt : bytes;
  nd_rekeyChainKey : bytes;
  nd_generation : Z }.

(** [new SessionCryptoHandleImpl(...)] *)
Definition new_handle (sessionId : string) (r : role) (token : option string) (data : NewSessionData)
    (state : SessionHandleState) : SessionCryptoHandle :=
  mkHandle sessionId (nd_generation data) r token state (nd_trafficKeys data) (nd_sessionSalt data) (nd_rekeyChainKey data)
    0 false None.

Definition set_state (st : SessionHandleState) (h : SessionCryptoHandle) : SessionCryptoHandle :=
  mkHandle (h_sessionId h) (h_generation h) (h_role h) (h_authorizedTokenId h) st (h_trafficKeys h) (h_sessionSalt h)
    (h_rekeyChainKey h) (h_sequenceNumber h) (h_zeroized h) (h_cachedOwnKeyId h).
Definition set_cached (k : string) (h : SessionCryptoHandle) : SessionCryptoHandle :=
  mkHandle (h_sessionId h) (h_generation h) (h_role h) (h_authorizedTokenId h) (h_state h) (h_trafficKeys h) (h_sessionSalt h)
    (h_rekeyChainKey h) (h_sequenceNumber h) (h_zeroized h) (Some k).
Definition set_seq (n : Z) (h : SessionCryptoHandle) : SessionCryptoHandle :=
  mkHandle (h_sessionId h) (h_generation h) (h_role h) (h_authorizedTokenId h) (h_state h) (h_trafficKeys h) (h_sessionSalt h)
    (h_rekeyChainKey h) n (h_zeroized h) (h_cachedOwnKeyId h).

(** [fill(0)] *)
Definition zeros (bs : bytes) : bytes := replicate (length bs) 0.

Definition zeroize (h : SessionCryptoHandle) : SessionCryptoHandle :=
  if h_zeroized h then h
  else mkHandle (h_sessionId h) (h_generation h) (h_role h) (h_authorizedTokenId h) CLOSED
         (mkTraffic (zeros (initToResp (h_trafficKeys h))) (zeros (respToInit (h_trafficKeys h)))) (zeros (h_sessionSalt h))
         (zeros (h_rekeyChainKey h)) (h_sequenceNumber h) true None.

Definition stopped (st : SessionHandleState) : bool := match st with CLOSED | REVOKED => true | _ => false end.

Definition rekey (h : SessionCryptoHandle) : res unit :=
  match h_state h with
  | CLOSED | REVOKED => Throw "SESSION_HANDLE_REVOKED"
  | PENDING_REKEY => Throw "REKEY_FAILED"
  | ACTIVE => mret tt
  end.

Record EncryptedBody : Type := mkEncryptedBody {
  eb_type : string;
  eb_ciphertext : string;
  eb_aeadNonce : string;
  eb_keyId : string;
  eb_aadSummary : option object }.

Section handles.
Context `{Primitives} `{E2EPrimitives}.

(** The getter [keyId], which caches its result. *)
Definition own_keyId (h : SessionCryptoHandle) : string * SessionCryptoHandle :=
  match h_cachedOwnKeyId h with
  | Some k => (k, h)
  | None =>
      let k := computeKeyId (key_of (ownDirection (h_role h)) (h_trafficKeys h)) (h_generation h) in (k, set_cached k h)
  end.

Definition peerKeyId (h : SessionCryptoHandle) : string :=
  computeKeyId (key_of (peerDirection (h_role h)) (h_trafficKeys h)) (h_generation h).

(** Ciphertext, nonce and key id.  The sequence number is taken before anything
    that may throw. *)
Definition encrypt (f : AeadAadFields) (plaintext : bytes) : M SessionCryptoHandle (bytes * bytes * string) := λ h,
  if stopped (h_state h) then (Throw "SESSION_HANDLE_REVOKED", h)
  else match h_authorizedTokenId h with
       | None => (Throw "SESSION_HANDLE_REVOKED", h)
       | Some token =>
           let dir := ownDirection (h_role h) in
           let key := key_of dir (h_trafficKeys h) in
           let seq := h_sequenceNumber h in
           let nonce := buildAeadNonce dir seq (h_sessionSalt h) in
           let '(keyId, h') := own_keyId (set_seq (seq + 1) h) in
           (aad ← buildAeadBytes f dir keyId seq (h_sessionId h) (Some token);
            ciphertext ← aeadEncrypt key nonce aad plaintext;
            mret (ciphertext, nonce, keyId), h')
       end.

Definition decrypt (h : SessionCryptoHandle) (f : AeadAadFields) (ciphertext nonce : bytes) : res bytes :=
  if stopped (h_state h) then Throw "SESSION_HANDLE_REVOKED"
  else
    let dir := peerDirection (h_role h) in
    aad ← buildAeadBytes f dir (peerKeyId h) (nonce_seq nonce) (h_sessionId h) (h_authorizedTokenId h);
    match aeadDecrypt (key_of dir (h_trafficKeys h)) nonce aad ciphertext with
    | Ok text => Ok text
    | Throw _ => Throw "DECRYPTION_FAILED"
    end.

End handles.

(** ** The registry *)

Record RegistryEntry : Type := mkRegEntry {
  currentHandle : nat;
  previousHandle : option nat;
  dualKeyTimer : option nat }.

(** A pending [setTimeout]: its id, its session and when it is due. *)
Record Timer : Type := mkTimer { t_id : nat; t_session : string; t_due : Z }.

Record SessionRegistry : Type := mkRegistry {
  g_handles : list SessionCryptoHandle;
  g_entries : list (string * RegistryEntry);
  g_timers : list Timer;
  g_nextTimer : nat;
  dualKeyFallbackMs : Z }.

Definition with_handles (f : list SessionCryptoHandle → list SessionCryptoHandle) (g : SessionRegistry) : SessionRegistry :=
  mkRegistry (f (g_handles g)) (g_entries g) (g_timers g) (g_nextTimer g) (dualKeyFallbackMs g).
Definition with_entries (f : list (string * RegistryEntry) → list (string * RegistryEntry)) (g : SessionRegistry) : SessionRegistry :=
  mkRegistry (g_handles g) (f (g_entries g)) (g_timers g) (g_nextTimer g) (dualKeyFallbackMs g).
Definition with_timers (f : list Timer → list Timer) (g : SessionRegistry) : SessionRegistry :=
  mkRegistry (g_handles g) (g_entries g) (f (g_timers g)) (g_nextTimer g) (dualKeyFallbackMs g).

Definition update (i : nat) (f : SessionCryptoHandle → SessionCryptoHandle) : SessionRegistry → SessionRegistry := with_handles (alter f i).
Definition update_opt (o : option nat) (f : SessionCryptoHandle → SessionCryptoHandle) (g : SessionRegistry) : SessionRegistry :=
  match o with Some i => update i f g | None => g end.

Definition createSession (sessionId : string) (r : role) (token : option string) (data : NewSessionData)
    : M SessionRegistry unit := λ g,
  match map_get sessionId (g_entries g) with
  | Some _ => (Throw "INTERNAL_ERROR", g)
  | None =>
      (Ok tt, with_entries (map_set sessionId (mkRegEntry (length (g_handles g)) None None))
                (with_handles (.++ [new_handle sessionId r token data ACTIVE]) g))
  end.

Definition lookupHandle (sessionId : string) (g : SessionRegistry) : option nat :=
  currentHandle <$> map_get sessionId (g_entries g).

Section registry.
Context `{Primitives} `{E2EPrimitives}.

Definition has_keyId (g : SessionRegistry) (keyId : string) (i : nat) : bool :=
  match g_handles g !! i with Some h => String.eqb (peerKeyId h) keyId | None => false end.

Definition lookupHandleForDecrypt (sessionId keyId : string) (g : SessionRegistry) : option nat :=
  match map_get sessionId (g_entries g) with
  | None => None
  | Some e =>
      if has_keyId g keyId (currentHandle e) then Some (currentHandle e)
      else match previousHandle e with
           | Some i => if has_keyId g keyId i then Some i else None
           | None => None
           end
  end.

Definition swapForDualKey (sessionId : string) (data : NewSessionData) (now : Z) : M SessionRegistry unit := λ g,
  match map_get sessionId (g_entries g) with
  | None => (Throw "INTERNAL_ERROR", g)
  | Some e =>
      match g_handles g !! currentHandle e with
      | None => (Throw "TypeError", g)
      | Some old =>
          if decide (h_state old = PENDING_REKEY) then (Ok tt, g)
          else
            let fresh := new_handle sessionId (h_role old) (h_authorizedTokenId old) data PENDING_REKEY in
            let e' := mkRegEntry (length (g_handles g)) (Some (currentHandle e)) (Some (g_nextTimer g)) in
            (Ok tt, mkRegistry (g_handles g ++ [fresh]) (map_set sessionId e' (g_entries g))
                      (g_timers g ++ [mkTimer (g_nextTimer g) sessionId (now + dualKeyFallbackMs g)]) (S (g_nextTimer g))
                      (dualKeyFallbackMs g))
      end
  end.

Definition swapForDualKeyChainMode (sessionId : string) (now : Z) : M SessionRegistry unit := λ g,
  match map_get sessionId (g_entries g) with
  | None => (Throw "INTERNAL_ERROR", g)
  | Some e =>
      match g_handles g !! currentHandle e with
      | None => (Throw "TypeError", g)
      | Some old =>
          if decide (h_state old = PENDING_REKEY) then (Ok tt, g)
          else
            let '(keys, chain) := deriveChainKeyRekeyKeys (h_rekeyChainKey old) in
            swapForDualKey sessionId (mkSessionData keys (h_sessionSalt old) chain (h_generation old + 1)) now g
      end
  end.

End registry.

Definition closeSession (sessionId : string) (g : SessionRegistry) : SessionRegistry :=
  match map_get sessionId (g_entries g) with
  | None => g
  | Some e =>
      let g1 := match dualKeyTimer e with
                | Some t => with_timers (filter (λ x, t_id x ≠ t)) g
                | None => g
                end in
      let g2 := update_opt (previousHandle e) zeroize (update (currentHandle e) zeroize g1) in
      with_entries (map_delete sessionId) g2
  end.

Definition expireDualKeyWindow (sessionId : string) (g : SessionRegistry) : SessionRegistry :=
  match map_get sessionId (g_entries g) with
  | None => g
  | Some e =>
      let g1 := update_opt (previousHandle e) zeroize g in
      let g2 := update (currentHandle e) (λ h, if decide (h_state h = PENDING_REKEY) then set_state ACTIVE h else h) g1 in
      with_entries (map_set sessionId (mkRegEntry (currentHandle e) None None)) g2
  end.

(** A timer that is due runs its callback once. *)
Definition fire (id : nat) (now : Z) (g : SessionRegistry) : SessionRegistry :=
  match filter (λ t, t_id t = id ∧ t_due t <= now) (g_timers g) with
  | t :: _ => expireDualKeyWindow (t_session t) (with_timers (filter (λ x, t_id x ≠ id)) g)
  | [] => g
  end.

(** ** Encrypted bodies of envelopes *)

(** [Buffer.from(s, 'base64url')]: either alphabet, anything else is skipped. *)
Definition url_alphabet (c : ascii) : ascii :=
  if Ascii.eqb c "+" then "-"%char else if Ascii.eqb c "/" then "_"%char else c.
Definition buffer_base64url (s : string) : bytes := b64_decode (filter (λ c, is_b64 c = true) (url_alphabet <$> chars s)).

(** [/^[0-9a-f]{24}$/i] *)
Definition hex24 (s : string) : bool := Nat.eqb (String.length s) 24 && HEX_PATTERN s.

(** Sequence number and direction byte. *)
Definition extractSequenceNumber (aeadNonce : string) : res (Z * Z) :=
  bytes ← (if hex24 aeadNonce then mret (hex_pairs (chars aeadNonce))
           else let bin := buffer_base64url aeadNonce in
                _ ← check (Nat.eqb (length bin) 12) "INVALID_ENCRYPTED_BODY"; mret bin);
  mret (nonce_seq bytes, nth 0 bytes 0).

Definition decodeEncryptedField (v : string) : bytes :=
  if HEX_PATTERN v && Nat.eqb (String.length v mod 2) 0 then hex_pairs (chars v) else buffer_base64url v.

Definition replayKey (sessionId : string) (directionByte : Z) (keyId : string) : string :=
  sessionId +:+ ":" +:+ pretty directionByte +:+ ":" +:+ keyId.

(** A process: its registry and the highest sequence number seen by key. *)
Record Endpoint : Type := mkEndpoint {
  ep_registry : SessionRegistry;
  ep_seen : list (string * Z) }.

Definition with_registry (f : SessionRegistry → SessionRegistry) (p : Endpoint) : Endpoint := mkEndpoint (f (ep_registry p)) (ep_seen p).

Section envelopes.
Context `{Primitives} `{E2EPrimitives}.

Definition encryptEnvelopeBody (sessionId capabilityTokenRef : string) (f : AeadAadFields) (plaintext : bytes)
    (bodyType : string) : M Endpoint EncryptedBody := λ p,
  match lookupHandle sessionId (ep_registry p) with
  | None => (Throw "SESSION_NOT_FOUND", p)
  | Some i =>
      match g_handles (ep_registry p) !! i with
      | None => (Throw "TypeError", p)
      | Some h =>
          if decide (h_authorizedTokenId h = Some capabilityTokenRef) then
            let '(r, h') := encrypt f plaintext h in
            (x ← r;
             let '(ciphertext, nonce, keyId) := x in
             mret (mkEncryptedBody bodyType (toHex ciphertext) (toHex nonce) keyId (aad_summary f)),
             with_registry (update i (λ _, h')) p)
          else (Throw "SESSION_TOKEN_MISMATCH", p)
      end
  end.

Definition decryptEnvelopeBody (sessionId : string) (body : EncryptedBody) (f : AeadAadFields) (capabilityTokenRef : string)
    : M Endpoint bytes := λ p,
  if negb (non_empty (eb_type body)) then (Throw "INVALID_ENCRYPTED_BODY", p)
  else match extractSequenceNumber (eb_aeadNonce body) with
       | Throw c => (Throw c, p)
       | Ok (seq, directionByte) =>
           let rKey := replayKey sessionId directionByte (eb_keyId body) in
           let maxSeen := map_get rKey (ep_seen p) in
           if match maxSeen with Some m => seq <=? m | None => false end then (Throw "ENCRYPTED_REPLAY_DETECTED", p)
           else match lookupHandleForDecrypt sessionId (eb_keyId body) (ep_registry p) with
                | None => (Throw "DECRYPTION_FAILED", p)
                | Some i =>
                    match g_handles (ep_registry p) !! i with
                    | None => (Throw "TypeError", p)
                    | Some h =>
                        match decrypt h f (decodeEncryptedField (eb_ciphertext body)) (decodeEncryptedField (eb_aeadNonce body)) with
                        | Throw c => (Throw c, p)
                        | Ok plaintext =>
                            if decide (h_authorizedTokenId h = Some capabilityTokenRef) then
                              (Ok plaintext, mkEndpoint (ep_registry p) (map_set rKey seq (ep_seen p)))
                            else (Throw "SESSION_TOKEN_MISMATCH", p)
                        end
                    end
                end
       end.

End envelopes.

(** ** Runs of a process *)

(** What happens in a process, in any order: calls of the registry and of the
    two functions above, timers that fire, and [zeroize], which any holder of a
    handle may call. *)
Inductive chan_op : Type :=
| op_create (sessionId : string) (r : role) (token : option string) (data : NewSessionData)
| op_swap (sessionId : string) (data : NewSessionData) (now : Z)
| op_chain (sessionId : string) (now : Z)
| op_close (sessionId : string)
| op_fire (id : nat) (now : Z)
| op_zeroize (i : nat)
| op_encrypt (sessionId ref : string) (f : AeadAadFields) (plaintext : bytes) (bodyType : string)
| op_decrypt (sessionId : string) (body : EncryptedBody) (f : AeadAadFields) (ref : string).

Section runs.
Context `{Primitives} `{E2EPrimitives}.

Definition chan_step (op : chan_op) (p : Endpoint) : Endpoint :=
  match op with
  | op_create sid r token data => with_registry (λ g, (createSession sid r token data g).2) p
  | op_swap sid data now => with_registry (λ g, (swapForDualKey sid data now g).2) p
  | op_chain sid now => with_registry (λ g, (swapForDualKeyChainMode sid now g).2) p
  | op_close sid => with_registry (closeSession sid) p
  | op_fire id now => with_registry (fire id now) p
  | op_zeroize i => with_registry (update i zeroize) p
  | op_encrypt sid ref f text ty => (encryptEnvelopeBody sid ref f text ty p).2
  | op_decrypt sid body f ref => (decryptEnvelopeBody sid body f ref p).2
  end.

Definition chan_run (ops : list chan_op) (p : Endpoint) : Endpoint := fold_left (λ p op, chan_step op p) ops p.

(** The address of the handle and the nonce on the wire of a message. *)
Definition sent_by (op : chan_op) (p : Endpoint) : list (nat * string) :=
  match op with
  | op_encrypt sid ref f text ty =>
      match lookupHandle sid (ep_registry p), (encryptEnvelopeBody sid ref f text ty p).1 with
      | Some i, Ok body => [(i, eb_aeadNonce body)]
      | _, _ => []
      end
  | _ => []
  end.

Fixpoint sent (ops : list chan_op) (p : Endpoint) : list (nat * string) :=
  match ops with
  | [] => []
  | op :: rest => sent_by op p ++ sent rest (chan_step op p)
  end.

End runs.

(** ** Sequence numbers *)

(** The sequence number of a handle, zero before it exists. *)
Definition seq_in (hs : list SessionCryptoHandle) (i : nat) : Z := match hs !! i with Some h => h_sequenceNumber h | None => 0 end.
Definition seq_at (p : Endpoint) (i : nat) : Z := seq_in (g_handles (ep_registry p)) i.

Definition handle_sane (h : SessionCryptoHandle) : Prop := Forall is_byte (h_sessionSalt h) ∧ 0 <= h_sequenceNumber h.
Definition sane (p : Endpoint) : Prop := Forall handle_sane (g_handles (ep_registry p)).
Definition data_of (op : chan_op) : option NewSessionData :=
  match op with op_create _ _ _ d | op_swap _ d _ => Some d | _ => None end.
Definition op_sane (op : chan_op) : Prop := ∀ d, data_of op = Some d → Forall is_byte (nd_sessionSalt d).

Definition is_send (op : chan_op) : bool := match op with op_encrypt _ _ _ _ _ => true | _ => false end.

(** What an operation does to the store of handles: nothing but appending fresh
    handles and changing one in place. *)
Inductive store_step : list SessionCryptoHandle → list SessionCryptoHandle → Prop :=
| st_refl hs : store_step hs hs
| st_new hs h : h_sequenceNumber h = 0 → Forall is_byte (h_sessionSalt h) → store_step hs (hs ++ [h])
| st_change hs i f : (∀ h, handle_sane h → handle_sane (f h) ∧ h_sequenceNumber (f h) = h_sequenceNumber h) → store_step hs (alter f i hs)
| st_trans hs hs' hs'' : store_step hs hs' → store_step hs' hs'' → store_step hs hs''.

Lemma store_step_sane hs hs' : store_step hs hs' → Forall handle_sane hs → Forall handle_sane hs' ∧ ∀ i, seq_in hs' i = seq_in hs i.
Proof.
  induction 1 as [hs|hs h H0 Hb|hs i f Hf|hs hs' hs'' _ IH1 _ IH2]; intros Hs.
  - done.
  - split; [apply Forall_app_2; [done|]; constructor; [|done]; split; [done|lia]|].
    intros i. unfold seq_in. destruct (decide (i < length hs)%nat) as [Hi|Hi]; [by rewrite lookup_app_l|].
    rewrite (lookup_ge_None_2 hs i) by lia. rewrite lookup_app_r by lia. by destruct (i - length hs)%nat.
  - split.
    + apply Forall_lookup_2. intros j h. rewrite list_lookup_alter. destruct (decide (i = j)) as [->|].
      * intros (h' & E & ->)%fmap_Some. apply Hf. by apply (Forall_lookup_1 _ _ _ _ Hs E).
      * by apply Forall_lookup_1.
    + intros j. unfold seq_in. rewrite list_lookup_alter. destruct (decide (i = j)) as [->|]; [|done].
      destruct (hs !! j) as [h|] eqn:E; [|done]. cbn. apply Hf. by apply (Forall_lookup_1 _ _ _ _ Hs E).
  - destruct (IH1 Hs) as [Hs' E1]. destruct (IH2 Hs') as [Hs'' E2]. split; [done|]. intros i. by rewrite E2, E1.
Qed.

Lemma zeroize_sane h : handle_sane h → handle_sane (zeroize h) ∧ h_sequenceNumber (zeroize h) = h_sequenceNumber h.
Proof.
  intros [Hb Hn]. unfold zeroize. destruct (h_zeroized h); [done|]. split; [|done]. split; [|done]. cbn. apply Forall_replicate. by split.
Qed.
Lemma set_state_sane st h : handle_sane h → handle_sane (set_state st h) ∧ h_sequenceNumber (set_state st h) = h_sequenceNumber h.
Proof. done. Qed.

Lemma update_store i f g :
  (∀ h, handle_sane h → handle_sane (f h) ∧ h_sequenceNumber (f h) = h_sequenceNumber h) →
  store_step (g_handles g) (g_handles (update i f g)).
Proof. apply st_change. Qed.
Lemma update_opt_store o f g :
  (∀ h, handle_sane h → handle_sane (f h) ∧ h_sequenceNumber (f h) = h_sequenceNumber h) →
  store_step (g_handles g) (g_handles (update_opt o f g)).
Proof. destruct o; [apply update_store|constructor]. Qed.

Lemma expire_store sid g : store_step (g_handles g) (g_handles (expireDualKeyWindow sid g)).
Proof.
  unfold expireDualKeyWindow. destruct (map_get sid (g_entries g)) as [e|]; [|constructor]. cbn [g_handles with_entries].
  eapply st_trans; [apply (update_opt_store (previousHandle e) zeroize g), zeroize_sane|]. apply update_store.
  intros h Hh. by case_decide.
Qed.

Lemma close_store sid g : store_step (g_handles g) (g_handles (closeSession sid g)).
Proof.
  unfold closeSession. destruct (map_get sid (g_entries g)) as [e|]; [|constructor]. cbn [g_handles with_entries].
  eapply st_trans; [|apply update_opt_store, zeroize_sane].
  replace (g_handles g) with (g_handles (match dualKeyTimer e with Some t => with_timers (filter (λ x, t_id x ≠ t)) g | None => g end))
    by (by destruct (dualKeyTimer e)).
  apply update_store, zeroize_sane.
Qed.

Section sequence.
Context `{Primitives} `{E2EPrimitives}.

Lemma swap_store sid data now g :
  Forall is_byte (nd_sessionSalt data) → store_step (g_handles g) (g_handles (swapForDualKey sid data now g).2).
Proof.
  intros Hb. unfold swapForDualKey. destruct (map_get sid (g_entries g)) as [e|]; [|constructor].
  destruct (g_handles g !! currentHandle e) as [old|]; [|constructor]. case_decide; [constructor|]. cbn. by apply st_new.
Qed.

Lemma chain_store sid now g :
  Forall handle_sane (g_handles g) → store_step (g_handles g) (g_handles (swapForDualKeyChainMode sid now g).2).
Proof.
  intros Hs. unfold swapForDualKeyChainMode. destruct (map_get sid (g_entries g)) as [e|]; [|constructor].
  destruct (g_handles g !! currentHandle e) as [old|] eqn:E; [|constructor]. case_decide; [constructor|].
  destruct (deriveChainKeyRekeyKeys (h_rekeyChainKey old)) as [keys chain]. apply swap_store. cbn. apply (Forall_lookup_1 _ _ _ _ Hs E).
Qed.

(** Every operation but [encrypt] leaves the sequence numbers as they are. *)
Lemma quiet_store op p :
  sane p → op_sane op → is_send op = false →
  store_step (g_handles (ep_registry p)) (g_handles (ep_registry (chan_step op p))).
Proof.
  intros Hs Ho Hne. destruct op; cbn [chan_step with_registry ep_registry]; try done.
  - unfold createSession. destruct (map_get _ _); [constructor|]. cbn. apply st_new; [done|]. by apply Ho.
  - apply swap_store. by apply Ho.
  - by apply chain_store.
  - apply close_store.
  - unfold fire. destruct (filter _ _) as [|t ts]; [constructor|].
    apply (expire_store (t_session t) (with_timers (filter (λ x, t_id x ≠ id)) (ep_registry p))).
  - apply update_store, zeroize_sane.
  - unfold decryptEnvelopeBody. repeat case_match; constructor.
Qed.

Lemma own_keyId_fields h k h' :
  own_keyId h = (k, h') → h_sessionSalt h' = h_sessionSalt h ∧ h_sequenceNumber h' = h_sequenceNumber h.
Proof. unfold own_keyId. destruct (h_cachedOwnKeyId h); by intros [= <- <-]. Qed.

(** [encrypt] takes one number of its own handle, whether or not it answers. *)
Lemma encrypt_step f text h r h' :
  encrypt f text h = (r, h') → handle_sane h →
  handle_sane h' ∧ h_sequenceNumber h <= h_sequenceNumber h'
  ∧ ∀ c n k, r = Ok (c, n, k) → n = buildAeadNonce (ownDirection (h_role h)) (h_sequenceNumber h) (h_sessionSalt h)
      ∧ h_sequenceNumber h' = h_sequenceNumber h + 1.
Proof.
  intros E [Hb Hn]. unfold encrypt in E. destruct (stopped (h_state h)); [injection E as <- <-; by split_and!|].
  destruct (h_authorizedTokenId h) as [token|]; [|injection E as <- <-; by split_and!].
  destruct (own_keyId _) as [k0 h0] eqn:Ek. apply own_keyId_fields in Ek as [Es Eq]. cbn in Es, Eq. injection E as <- <-.
  unfold handle_sane. rewrite Es, Eq. split_and!; [done|lia|lia|].
  intros c n k Hr. apply res_bind_ok in Hr as (aad & _ & Hr). apply res_bind_ok in Hr as (ct & _ & [= <- <- <-]). done.
Qed.

Lemma encryptBody_step sid ref f text ty p :
  sane p →
  let p' := (encryptEnvelopeBody sid ref f text ty p).2 in
  sane p' ∧ (∀ i, seq_at p i <= seq_at p' i)
  ∧ ∀ i body, lookupHandle sid (ep_registry p) = Some i → (encryptEnvelopeBody sid ref f text ty p).1 = Ok body →
      ∃ d salt, Forall is_byte salt ∧ eb_aeadNonce body = toHex (buildAeadNonce d (seq_at p i) salt) ∧ seq_at p' i = seq_at p i + 1.
Proof.
  intros Hs. unfold encryptEnvelopeBody. destruct (lookupHandle sid (ep_registry p)) as [j|] eqn:El; [|done].
  destruct (g_handles (ep_registry p) !! j) as [h|] eqn:Eh; [|done]. case_decide; [|done].
  destruct (encrypt f text h) as [r h'] eqn:Ee. pose proof (Forall_lookup_1 _ _ _ _ Hs Eh) as Hh.
  apply encrypt_step in Ee as (Hs' & Hle & Hok); [|done]. cbn [fst snd]. unfold sane, seq_at, seq_in. cbn [with_registry ep_registry update with_handles g_handles].
  split_and!.
  - apply Forall_lookup_2. intros i x. rewrite list_lookup_alter. destruct (decide (j = i)) as [->|]; [|by apply Forall_lookup_1].
    rewrite Eh. by intros [= <-].
  - intros i. rewrite list_lookup_alter. destruct (decide (j = i)) as [->|]; [|done]. by rewrite Eh.
  - intros i body [= <-] Hr. apply res_bind_ok in Hr as ([[c n] k] & -> & [= <-]). destruct (Hok c n k eq_refl) as [-> Hseq].
    rewrite list_lookup_alter, decide_True by done. rewrite Eh. cbn. do 2 eexists. split; [apply Hh|]. done.
Qed.

Lemma toHex_inj b1 b2 : Forall is_byte b1 → Forall is_byte b2 → toHex b1 = toHex b2 → b1 = b2.
Proof. intros H1 H2 E. apply (f_equal fromHex) in E. rewrite !toHex_fromHex in E by done. by injection E. Qed.

(** One step: sequence numbers grow, and a message takes the number of its
    handle. *)
Lemma chan_step_seq op p :
  sane p → op_sane op →
  sane (chan_step op p) ∧ (∀ i, seq_at p i <= seq_at (chan_step op p) i)
  ∧ ∀ i n, (i, n) ∈ sent_by op p →
      ∃ d salt, Forall is_byte salt ∧ n = toHex (buildAeadNonce d (seq_at p i) salt) ∧ seq_at (chan_step op p) i = seq_at p i + 1.
Proof.
  intros Hs Ho. destruct (is_send op) eqn:Hq; [destruct op as [| | | | | |sid ref f text ty|]; try done; clear Hq|].
  2: { apply (quiet_store op p Hs Ho) in Hq as Hst. apply store_step_sane in Hst as [Hs' Hseq]; [|done]. split_and!; [done| |].
    + intros i. unfold seq_at. rewrite Hseq. done.
    + intros i n Hin. destruct op; try (by apply not_elem_of_nil in Hin). done. }
  destruct (encryptBody_step sid ref f text ty p Hs) as (? & ? & H3). split_and!; [done..|].
  intros i n Hin. cbn [sent_by] in Hin. destruct (lookupHandle sid (ep_registry p)) as [j|] eqn:El; [|by apply not_elem_of_nil in Hin].
    destruct ((encryptEnvelopeBody sid ref f text ty p).1) as [body|] eqn:Eb; [|by apply not_elem_of_nil in Hin].
    apply list_elem_of_singleton in Hin as [= -> ->]. by apply H3.
Qed.

Lemma sent_by_NoDup op p : NoDup (sent_by op p).
Proof. destruct op; try apply NoDup_nil_2. cbn. repeat case_match; try apply NoDup_nil_2. apply NoDup_singleton. Qed.

Lemma seq_at_nonneg p : sane p → ∀ i, 0 <= seq_at p i.
Proof. intros Hs i. unfold seq_at, seq_in. destruct (_ !! i) as [h|] eqn:E; [|done]. apply (Forall_lookup_1 _ _ _ _ Hs E). Qed.

(** The messages of a run carry numbers from those of its start to those of its
    end. *)
Lemma sent_range ops p :
  sane p → Forall op_sane ops →
  (∀ i, seq_at p i <= seq_at (chan_run ops p) i)
  ∧ ∀ i n, (i, n) ∈ sent ops p → ∃ d s salt, Forall is_byte salt ∧ n = toHex (buildAeadNonce d s salt)
      ∧ 0 <= seq_at p i <= s ∧ s < seq_at (chan_run ops p) i.
Proof.
  revert p. induction ops as [|op ops IH]; intros p Hs Ho; [split; [done|]; intros i n Hin; by apply not_elem_of_nil in Hin|].
  apply Forall_cons in Ho as [Ho Hos]. destruct (chan_step_seq op p Hs Ho) as (Hs' & Hle & Hsent).
  destruct (IH (chan_step op p) Hs' Hos) as [IH1 IH2]. unfold chan_run in *. cbn [fold_left]. split.
  - intros i. etrans; [apply Hle|apply IH1].
  - pose proof (seq_at_nonneg p Hs) as Hpos. intros i n. cbn [sent]. rewrite elem_of_app. intros [Hin|Hin].
    + destruct (Hsent i n Hin) as (d & salt & Hb & -> & Hn). exists d, (seq_at p i), salt. specialize (IH1 i). specialize (Hpos i). split_and!; try done; lia.
    + destruct (IH2 i n Hin) as (d & s & salt & Hb & -> & Hr & Hlt). exists d, s, salt. specialize (Hle i). specialize (Hpos i). split_and!; try done; lia.
Qed.

(** C16.  A process never sends two messages with the same nonce from one handle,
    whatever else it does in between, as long as no handle has used up its 2^64
    sequence numbers. *)
Theorem nonces_never_repeat p ops :
  sane p → Forall op_sane ops → (∀ i, seq_at (chan_run ops p) i <= 2 ^ 64) → NoDup (sent ops p).
Proof.
  revert p. induction ops as [|op ops IH]; intros p Hs Ho Hmax; [apply NoDup_nil_2|].
  apply Forall_cons in Ho as [Ho Hos]. destruct (chan_step_seq op p Hs Ho) as (Hs' & Hle & Hsent). cbn [sent].
  apply NoDup_app. split_and!; [apply sent_by_NoDup| |by apply IH].
  intros [i n] Hin Hin'. destruct (Hsent i n Hin) as (d & salt & Hb & -> & Hn).
  destruct (sent_range ops (chan_step op p) Hs' Hos) as [_ Hr]. destruct (Hr i _ Hin') as (d' & s & salt' & Hb' & E & Hlo & Hhi).
  apply toHex_inj in E; [|by apply nonce_bytes..]. apply (f_equal nonce_seq) in E.
  specialize (Hmax i). pose proof (seq_at_nonneg p Hs i). unfold chan_run in Hmax, Hhi. cbn [fold_left] in Hmax. rewrite !nonce_seq_build, !Z.mod_small in E by lia. lia.
Qed.

End sequence.

(** ** Replays *)

Section replay.
Context `{Primitives} `{E2EPrimitives}.

(** The highest number seen for a key never goes down. *)
Lemma seen_grows op p k m :
  map_get k (ep_seen p) = Some m → ∃ m', map_get k (ep_seen (chan_step op p)) = Some m' ∧ m <= m'.
Proof.
  intros Hm. destruct op; cbn [chan_step with_registry ep_seen]; try by exists m.
  - unfold encryptEnvelopeBody. repeat case_match; by exists m.
  - unfold decryptEnvelopeBody. destruct (negb _); [by exists m|].
    destruct (extractSequenceNumber _) as [[seq dir]|]; [|by exists m].
    set (rKey := replayKey _ _ _). destruct (map_get rKey (ep_seen p)) as [x|] eqn:Ex.
    + destruct (Z.leb_spec seq x) as [|Hlt]; [by exists m|].
      repeat case_match; try by exists m. cbn [snd ep_seen]. rewrite map_get_set.
      destruct (String.eqb_spec rKey k) as [<-|]; [|by exists m]. exists seq. split; [done|]. rewrite Ex in Hm. injection Hm as <-. lia.
    + repeat case_match; try by exists m. cbn [snd ep_seen]. rewrite map_get_set.
      destruct (String.eqb_spec rKey k) as [<-|]; [|by exists m]. congruence.
Qed.

Lemma seen_grows_run ops p k m :
  map_get k (ep_seen p) = Some m → ∃ m', map_get k (ep_seen (chan_run ops p)) = Some m' ∧ m <= m'.
Proof.
  revert p m. induction ops as [|op ops IH]; intros p m Hm; [by exists m|].
  destruct (seen_grows op p k m Hm) as (m1 & H1 & Hle1). destruct (IH _ _ H1) as (m2 & H2 & Hle2).
  exists m2. split; [done|]. lia.
Qed.

Lemma decrypt_seen sid body f ref p text p' seq dir :
  extractSequenceNumber (eb_aeadNonce body) = Ok (seq, dir) →
  decryptEnvelopeBody sid body f ref p = (Ok text, p') → map_get (replayKey sid dir (eb_keyId body)) (ep_seen p') = Some seq.
Proof.
  intros Es. unfold decryptEnvelopeBody. rewrite Es. repeat case_match; intros [= <- <-]; cbn [ep_seen]; by rewrite map_get_set, String.eqb_refl.
Qed.

(** Once a message was accepted, no message of the same session, direction and
    key whose number is not higher is accepted again, by whatever the process
    does in between and however its nonce is written. *)
Theorem replay_rejected sid body f ref p text p' seq dir ops body' f' ref' seq' :
  decryptEnvelopeBody sid body f ref p = (Ok text, p') →
  extractSequenceNumber (eb_aeadNonce body) = Ok (seq, dir) →
  extractSequenceNumber (eb_aeadNonce body') = Ok (seq', dir) → seq' <= seq →
  eb_keyId body' = eb_keyId body → eb_type body' ≠ "" →
  decryptEnvelopeBody sid body' f' ref' (chan_run ops p') = (Throw "ENCRYPTED_REPLAY_DETECTED", chan_run ops p').
Proof.
  intros Hd Es Es' Hle Hk Ht. pose proof (decrypt_seen _ _ _ _ _ _ _ _ _ Es Hd) as Hseen.
  destruct (seen_grows_run ops _ _ _ Hseen) as (m & Hm & Hge). unfold decryptEnvelopeBody, non_empty.
  rewrite (proj2 (String.eqb_neq _ _) Ht), Es', Hk. cbn [negb]. rewrite Hm. by rewrite (proj2 (Z.leb_le _ _)) by lia.
Qed.
End replay.

(** ** Delivery *)

Lemma toHex_HEX bs : Forall is_byte bs → bs ≠ [] → HEX_PATTERN (toHex bs) = true ∧ String.length (toHex bs) = (2 * length bs)%nat
  ∧ hex_pairs (chars (toHex bs)) = bs.
Proof.
  intros Hb Hn. destruct (hex_pairs_concat bs Hb) as [H1 H2]. unfold toHex, HEX_PATTERN. rewrite str_length, chars_str, hex_length.
  split_and!; [|done|done]. by destruct bs; [|destruct (concat _) eqn:E; [|rewrite H2]].
Qed.

Lemma decode_toHex bs : Forall is_byte bs → bs ≠ [] → decodeEncryptedField (toHex bs) = bs.
Proof.
  intros Hb Hn. destruct (toHex_HEX bs Hb Hn) as (H1 & H2 & H3). unfold decodeEncryptedField.
  by rewrite H1, H2, Nat.mul_comm, Nat.Div0.mod_mul.
Qed.

Lemma extract_nonce d seq salt :
  Forall is_byte salt → 0 <= seq < 2 ^ 64 → extractSequenceNumber (toHex (buildAeadNonce d seq salt)) = Ok (seq, DIRECTION_BYTE d).
Proof.
  intros Hs Hq. destruct (nonce_bytes d seq salt Hs) as [Hb Hl]. destruct (toHex_HEX _ Hb) as (H1 & H2 & H3); [done|].
  unfold extractSequenceNumber, hex24. rewrite H1, H2, Hl. cbn [Nat.mul Nat.eqb andb Nat.add]. cbn [mbind res_bind mret res_ret].
  rewrite H3, nonce_seq_build, Z.mod_small by lia. done.
Qed.

(** Two handles for the two ends of a session. *)
Record mirrored `{Primitives} (a b : SessionCryptoHandle) : Prop := mkMirrored {
  mi_session : h_sessionId b = h_sessionId a;
  mi_generation : h_generation b = h_generation a;
  mi_token : h_authorizedTokenId b = h_authorizedTokenId a;
  mi_keys : h_trafficKeys b = h_trafficKeys a;
  mi_roles : peerDirection (h_role b) = ownDirection (h_role a);
  mi_live : stopped (h_state a) = false ∧ stopped (h_state b) = false;
  mi_length : length (key_of (ownDirection (h_role a)) (h_trafficKeys a)) = 32%nat;
  mi_sane : handle_sane a;
  mi_cache : h_cachedOwnKeyId a = None
    ∨ h_cachedOwnKeyId a = Some (computeKeyId (key_of (ownDirection (h_role a)) (h_trafficKeys a)) (h_generation a)) }.

Definition summary_ok (f : AeadAadFields) : Prop := ∀ o, aad_summary f = Some o → assertSerializable (VObj o) = true.

Section delivery.
Context `{Primitives} `{E2ELaws}.

Lemma aad_ok f d k n sid tok : summary_ok f → buildAeadBytes f d k n sid tok = Ok (textEncode (jcs (aad_json f d k n sid tok))).
Proof.
  intros Hf. unfold buildAeadBytes, canonicalize. cbn [aad_json assertSerializable forallb snd].
  replace (assertSerializable (match aad_summary f with Some o => VObj o | None => VNull end)) with true
    by (destruct (aad_summary f) eqn:Eo; [by rewrite (Hf _ Eo)|done]).
  by destruct tok.
Qed.

Lemma own_keyId_mirrored a b : mirrored a b → (own_keyId a).1 = peerKeyId b.
Proof. intros [_ Hg _ Hk Hr _ _ _ Hc]. unfold own_keyId, peerKeyId. rewrite Hg, Hk, Hr. by destruct Hc as [->| ->]. Qed.

(** A message encrypted by one end is decrypted by the other. *)
Lemma encrypt_decrypt a b f text :
  mirrored a b → summary_ok f → Forall is_byte text → is_Some (h_authorizedTokenId a) → h_sequenceNumber a < 2 ^ 64 →
  ∃ c a', encrypt f text a
      = (Ok (c, buildAeadNonce (ownDirection (h_role a)) (h_sequenceNumber a) (h_sessionSalt a), peerKeyId b), a')
    ∧ h_sequenceNumber a' = h_sequenceNumber a + 1 ∧ mirrored a' b ∧ Forall is_byte c ∧ c ≠ []
    ∧ decrypt b f c (buildAeadNonce (ownDirection (h_role a)) (h_sequenceNumber a) (h_sessionSalt a)) = Ok text.
Proof.
  intros Hm Hf Htext [tok Htok] Hlt. pose proof Hm as [Hses Hgen Ht Hk Hr [Hla Hlb] Hlen [Hsb Hs0] Hc].
  destruct (nonce_bytes (ownDirection (h_role a)) (h_sequenceNumber a) (h_sessionSalt a) Hsb) as [_ Hnl].
  set (aad := textEncode (jcs (aad_json f (ownDirection (h_role a)) (peerKeyId b) (h_sequenceNumber a) (h_sessionId a) (Some tok)))).
  destruct (gcm_roundtrip _ _ aad text Hlen Hnl Htext) as (c & Hc1 & Hcb & Hcn & Hc2).
  assert (mirrored (set_seq (h_sequenceNumber a + 1) a) b) as Hm1 by (split; try done; split; [done|cbn; lia]).
  exists c, (own_keyId (set_seq (h_sequenceNumber a + 1) a)).2.
  unfold encrypt. rewrite Hla, Htok. pose proof (own_keyId_mirrored _ b Hm1) as Hid.
  destruct (own_keyId _) as [k a'] eqn:Ek. cbn [fst snd] in Hid |- *. subst k. rewrite aad_ok by done. cbn [mbind res_bind].
  unfold aeadEncrypt. fold aad. rewrite Hc1. cbn [mbind res_bind]. split; [done|].
  assert (h_sequenceNumber a' = h_sequenceNumber a + 1 ∧ mirrored a' b) as [Hs' Hm'].
  { unfold own_keyId in Ek. destruct (h_cachedOwnKeyId _) eqn:Eca in Ek; injection Ek as _ <-; [by split|].
    split; [done|]. destruct Hm1 as [? ? ? ? ? ? ? ? ?]. split; try done. by right. }
  split_and!; [done..|]. unfold decrypt. rewrite Hlb, Hr, nonce_seq_build, Z.mod_small by lia. rewrite aad_ok by done. cbn [mbind res_bind].
  rewrite Hses, Ht, Htok, Hk. fold aad. unfold aeadDecrypt. by rewrite Hc2.
Qed.

(** Messages with their associated data, sent one after the other. *)
Fixpoint send_all (sid ref ty : string) (msgs : list (AeadAadFields * bytes)) : M Endpoint (list EncryptedBody) :=
  match msgs with
  | [] => mret []
  | (f, text) :: rest =>
      body ← encryptEnvelopeBody sid ref f text ty;
      bodies ← send_all sid ref ty rest;
      mret (body :: bodies)
  end.

Fixpoint receive_all (sid ref : string) (msgs : list (AeadAadFields * EncryptedBody)) : M Endpoint (list bytes) :=
  match msgs with
  | [] => mret []
  | (f, body) :: rest =>
      text ← decryptEnvelopeBody sid body f ref;
      texts ← receive_all sid ref rest;
      mret (text :: texts)
  end.

(** [a] is the handle that [p] encrypts the session with; [b] is one that it
    decrypts the session with. *)
Definition sender (sid ref : string) (p : Endpoint) (a : SessionCryptoHandle) : Prop :=
  h_sessionId a = sid ∧ h_authorizedTokenId a = Some ref
  ∧ ∃ i, lookupHandle sid (ep_registry p) = Some i ∧ g_handles (ep_registry p) !! i = Some a.
Definition receiver (sid ref : string) (p : Endpoint) (b : SessionCryptoHandle) : Prop :=
  h_authorizedTokenId b = Some ref
  ∧ ∃ j, lookupHandleForDecrypt sid (peerKeyId b) (ep_registry p) = Some j ∧ g_handles (ep_registry p) !! j = Some b.

(** Nothing from number [n] on was seen of the peer of [b]. *)
Definition unseen (sid : string) (p : Endpoint) (b : SessionCryptoHandle) (n : Z) : Prop :=
  ∀ m, map_get (replayKey sid (DIRECTION_BYTE (peerDirection (h_role b))) (peerKeyId b)) (ep_seen p) = Some m → m < n.

Lemma send_one sid ref ty f text p a b :
  sender sid ref p a → mirrored a b → summary_ok f → Forall is_byte text → h_sequenceNumber a < 2 ^ 64 →
  ∃ c p' a',
    encryptEnvelopeBody sid ref f text ty p
      = (Ok (mkEncryptedBody ty (toHex c) (toHex (buildAeadNonce (ownDirection (h_role a)) (h_sequenceNumber a) (h_sessionSalt a)))
               (peerKeyId b) (aad_summary f)), p')
    ∧ sender sid ref p' a' ∧ mirrored a' b ∧ h_sequenceNumber a' = h_sequenceNumber a + 1 ∧ Forall is_byte c ∧ c ≠ []
    ∧ decrypt b f c (buildAeadNonce (ownDirection (h_role a)) (h_sequenceNumber a) (h_sessionSalt a)) = Ok text.
Proof.
  intros (Hsid & Ht & i & El & Eh) Hm Hf Htext Hlt.
  destruct (encrypt_decrypt a b f text Hm Hf Htext) as (c & a' & Ee & Hs & Hm' & Hcb & Hcn & Hd); [by rewrite Ht|done|].
  exists c, (with_registry (update i (λ _, a')) p), a'. unfold encryptEnvelopeBody. rewrite El, Eh, decide_True, Ee by done. split; [done|].
  split_and!; try done. destruct Hm as [Hs1 _ Ht1 _ _ _ _ _ _], Hm' as [Hs2 _ Ht2 _ _ _ _ _ _]. split_and!; [congruence..|].
  exists i. split; [done|]. cbn. rewrite list_lookup_alter, decide_True, Eh by done. done.
Qed.

Lemma receive_one sid ref ty f text p b c n salt d k sm :
  receiver sid ref p b → ty ≠ "" → k = peerKeyId b → d = peerDirection (h_role b) → Forall is_byte salt → 0 <= n < 2 ^ 64 →
  Forall is_byte c → c ≠ [] → unseen sid p b n → decrypt b f c (buildAeadNonce d n salt) = Ok text →
  ∃ p', decryptEnvelopeBody sid (mkEncryptedBody ty (toHex c) (toHex (buildAeadNonce d n salt)) k sm) f ref p = (Ok text, p')
    ∧ receiver sid ref p' b ∧ unseen sid p' b (n + 1).
Proof.
  intros (Ht & j & El & Eh) Hty -> -> Hsb Hn Hcb Hcn Hu Hd. destruct (nonce_bytes (peerDirection (h_role b)) n salt Hsb) as [Hnb Hnl].
  unfold decryptEnvelopeBody, non_empty. cbn [eb_type eb_aeadNonce eb_keyId eb_ciphertext].
  rewrite (proj2 (String.eqb_neq _ _) Hty), extract_nonce by done. cbn [negb].
  set (rKey := replayKey _ _ _). unfold unseen in Hu. fold rKey in Hu.
  replace (match map_get rKey (ep_seen p) with Some m => n <=? m | None => false end) with false.
  2: { destruct (map_get rKey (ep_seen p)) as [m|]; [|done]. symmetry. apply Z.leb_gt. by apply Hu. }
  rewrite El, Eh, !decode_toHex, Hd, decide_True by done.
  eexists. split; [reflexivity|]. split; [by split; [done|]; exists j|]. unfold unseen. fold rKey. cbn [ep_seen].
  intros m. rewrite map_get_set, String.eqb_refl. intros [= <-]. lia.
Qed.

(** C15.  The session is a channel that may lose messages but keeps their order and
    content: whatever part of the sent messages arrives, in the order it was
    sent, is read as it was written. *)
Theorem lossy_delivery sid ref ty msgs pa a b :
  sender sid ref pa a → mirrored a b → ty ≠ "" → Forall (λ m, summary_ok m.1 ∧ Forall is_byte m.2) msgs →
  h_sequenceNumber a + Z.of_nat (length msgs) <= 2 ^ 64 →
  ∃ bodies pa', send_all sid ref ty msgs pa = (Ok bodies, pa') ∧ length bodies = length msgs
    ∧ ∀ pb arrived, receiver sid ref pb b → unseen sid pb b (h_sequenceNumber a) → sublist arrived (zip msgs bodies) →
        ∃ pb', receive_all sid ref ((λ x, (x.1.1, x.2)) <$> arrived) pb = (Ok ((λ x, x.1.2) <$> arrived), pb').
Proof.
  intros Hs Hm Hty. revert pa a Hs Hm. induction msgs as [|[f text] msgs IH]; intros pa a Hs Hm Hf Hn.
  { exists [], pa. split_and!; [done|done|]. intros pb arrived _ _ ->%sublist_nil_r. by exists pb. }
  apply Forall_cons in Hf as [[Hf Htext] Hfs]. cbn [length] in Hn. cbn [fst snd] in Hf, Htext.
  destruct (send_one sid ref ty f text pa a b Hs Hm Hf Htext) as (c & p1 & a1 & E1 & Hs1 & Hm1 & Hq1 & Hcb & Hcn & Hd); [lia|].
  destruct (IH p1 a1 Hs1 Hm1 Hfs) as (bodies & p2 & E2 & Hl & Hrec); [lia|].
  eexists (_ :: bodies), p2. split_and!.
  - cbn [send_all]. rewrite (M_bind_run _ _ _ _ _ E1), (M_bind_run _ _ _ _ _ E2). done.
  - cbn. by rewrite Hl.
  - intros pb arrived Hr Hu Hsub. cbn [zip_with] in Hsub. apply sublist_cons_r in Hsub as [Hsub|(rest & -> & Hsub)].
    + apply Hrec; [done| |done]. intros m Hmm. specialize (Hu m Hmm). lia.
    + destruct (receive_one sid ref ty f text pb b c (h_sequenceNumber a) (h_sessionSalt a) (ownDirection (h_role a)) (peerKeyId b)
                  (aad_summary f)) as (pb1 & E3 & Hr1 & Hu1); try done.
      * symmetry. apply Hm.
      * apply Hm.
      * split; [apply Hm|lia].
      * rewrite <- Hq1 in Hu1. destruct (Hrec pb1 rest Hr1 Hu1 Hsub) as (pb2 & E4). exists pb2. rewrite !fmap_cons. cbn [receive_all fst snd].
        rewrite (M_bind_run _ _ _ _ _ E3), (M_bind_run _ _ _ _ _ E4). done.
Qed.

End delivery.

(** ** The registry between calls *)

(** A session has one live generation, or two and a timer that will retire the
    older one. *)
Definition entry_inv (g : SessionRegistry) (sid : string) (e : RegistryEntry) : Prop :=
  ∃ c, g_handles g !! currentHandle e = Some c ∧ h_sessionId c = sid ∧ h_zeroized c = false ∧
    match previousHandle e, dualKeyTimer e with
    | None, None => h_state c = ACTIVE
    | Some i, Some t =>
        h_state c = PENDING_REKEY ∧ i ≠ currentHandle e ∧ (∃ due, mkTimer t sid due ∈ g_timers g)
        ∧ ∃ o, g_handles g !! i = Some o ∧ h_sessionId o = sid ∧ h_zeroized o = false ∧ h_state o = ACTIVE
    | _, _ => False
    end.

Record registry_inv (g : SessionRegistry) : Prop := mkRegistryInv {
  ri_entries : ∀ sid e, map_get sid (g_entries g) = Some e → entry_inv g sid e;
  ri_timers : NoDup (t_id <$> g_timers g);
  ri_pending : ∀ t, t ∈ g_timers g →
    (t_id t < g_nextTimer g)%nat ∧ ∃ e, map_get (t_session t) (g_entries g) = Some e ∧ dualKeyTimer e = Some (t_id t) }.

(** Two handles in the same place of the life of the same session. *)
Definition alike (h h' : SessionCryptoHandle) : Prop :=
  h_sessionId h' = h_sessionId h ∧ h_state h' = h_state h ∧ h_zeroized h' = h_zeroized h.

Lemma entry_frame g g' sid e :
  entry_inv g sid e →
  (∀ i h, g_handles g !! i = Some h → h_sessionId h = sid → ∃ h', g_handles g' !! i = Some h' ∧ alike h h') →
  (∀ t, t ∈ g_timers g → t_session t = sid → t ∈ g_timers g') → entry_inv g' sid e.
Proof.
  intros (c & Ec & Hc & Hz & Hrest) Hh Ht. destruct (Hh _ _ Ec Hc) as (c' & Ec' & A1 & A2 & A3).
  exists c'. split_and!; [done|congruence|congruence|].
  destruct (previousHandle e) as [i|], (dualKeyTimer e) as [t|]; try done; [|congruence].
  destruct Hrest as (Hst & Hne & (due & Hin) & o & Eo & Ho1 & Ho2 & Ho3). destruct (Hh _ _ Eo Ho1) as (o' & Eo' & B1 & B2 & B3).
  split_and!; [congruence|done|exists due; by apply Ht|]. exists o'. split_and!; [done|congruence..].
Qed.

(** A change in place of handles of other sessions. *)
Lemma alter_other (hs : list SessionCryptoHandle) (i : nat) f sid (j : nat) h :
  (∀ x, hs !! i = Some x → h_sessionId x ≠ sid) → hs !! j = Some h → h_sessionId h = sid → alter f i hs !! j = Some h.
Proof.
  intros Hi Hj Hs. rewrite list_lookup_alter. destruct (decide (i = j)) as [->|]; [|done]. by destruct (Hi h Hj).
Qed.

Lemma create_inv sid r token data g : registry_inv g → registry_inv (createSession sid r token data g).2.
Proof.
  intros [He Ht Hp]. unfold createSession. destruct (map_get sid (g_entries g)) eqn:Es; [done|]. split; cbn [g_entries g_timers g_nextTimer g_handles with_entries with_handles snd].
  - intros sid' e. rewrite map_get_set. destruct (String.eqb_spec sid sid') as [<-|Hne].
    + intros [= <-]. eexists. cbn. rewrite lookup_app_r, Nat.sub_diag by done. split; [reflexivity|]. done.
    + intros Hg. apply (entry_frame g); [by apply He| |done]. intros i h Hi _. exists h. cbn. split; [by apply lookup_app_l_Some|done].
  - done.
  - intros t Hin. destruct (Hp t Hin) as (Hlt & e & Hg & Hd). split; [done|]. exists e. rewrite map_get_set.
    destruct (String.eqb_spec sid (t_session t)) as [->|]; [congruence|done].
Qed.

Lemma swap_inv `{Primitives} `{E2EPrimitives} sid data now g : registry_inv g → registry_inv (swapForDualKey sid data now g).2.
Proof.
  intros Hinv. pose proof Hinv as [He Ht Hp]. unfold swapForDualKey. destruct (map_get sid (g_entries g)) as [e|] eqn:Es; [|done].
  destruct (He sid e Es) as (c & Ec & Hc & Hz & Hrest). rewrite Ec. case_decide as Hst; [done|].
  destruct (previousHandle e) as [i|], (dualKeyTimer e) as [t|] eqn:Ed; try done; [by destruct Hrest|].
  assert (Forall (λ x, (t_id x < g_nextTimer g)%nat) (g_timers g)) as Hlt by (apply Forall_forall; intros x Hx; by apply Hp).
  split; cbn [g_entries g_timers g_nextTimer g_handles snd].
  - intros sid' e'. rewrite map_get_set. destruct (String.eqb_spec sid sid') as [<-|Hne].
    + intros [= <-]. eexists. cbn. rewrite lookup_app_r, Nat.sub_diag by done. split; [reflexivity|]. split_and!; try done.
      * intros Heq. apply lookup_lt_Some in Ec. lia.
      * eexists. apply elem_of_app. right. by apply list_elem_of_singleton.
      * exists c. split; [by apply lookup_app_l_Some|done].
    + intros Hg. apply (entry_frame g); [by apply He| |].
      * intros i h Hi _. exists h. cbn. split; [by apply lookup_app_l_Some|done].
      * intros t Hin _. cbn. apply elem_of_app. by left.
  - rewrite fmap_app. apply NoDup_app. split_and!; [done| |apply NoDup_singleton].
    intros x (y & -> & Hy)%list_elem_of_fmap Hx%list_elem_of_singleton. rewrite Forall_forall in Hlt. specialize (Hlt y Hy). cbn in Hlt, Hx. lia.
  - intros t [Hin| ->%list_elem_of_singleton]%elem_of_app; cbn [t_id t_session].
    + destruct (Hp t Hin) as (Hl & e' & Hg & Hd). split; [lia|]. rewrite map_get_set.
      destruct (String.eqb_spec sid (t_session t)) as [->|]; [|by exists e']. rewrite Es in Hg. injection Hg as <-. congruence.
    + split; [lia|]. rewrite map_get_set, String.eqb_refl. by eexists.
Qed.

Lemma timer_session g t t' :
  registry_inv g → t ∈ g_timers g → t' ∈ g_timers g → t_id t = t_id t' → t = t'.
Proof.
  intros [_ Hn _] H1 H2 E. apply list_elem_of_lookup in H1 as (i & Hi). apply list_elem_of_lookup in H2 as (j & Hj).
  assert (i = j) as ->; [|congruence].
  apply (NoDup_lookup _ i j (t_id t) Hn); rewrite list_lookup_fmap; [by rewrite Hi|by rewrite Hj, E].
Qed.

(** Changing handles of [sid] in place and dropping its timer leaves the other
    sessions alone. *)
Lemma other_session_inv g g' sid sid' e :
  registry_inv g → entry_inv g sid' e → sid ≠ sid' →
  (∀ i h, g_handles g !! i = Some h → h_sessionId h ≠ sid → g_handles g' !! i = Some h) →
  (∀ t, t ∈ g_timers g → t_session t ≠ sid → t ∈ g_timers g') → entry_inv g' sid' e.
Proof.
  intros _ He Hne Hh Ht. apply (entry_frame g); [done| |].
  - intros i h Hi Hs. exists h. split; [|done]. apply Hh; [done|congruence].
  - intros t Hin Hs. apply Ht; [done|congruence].
Qed.

Lemma update_other g i f sid j h :
  (∀ x, g_handles g !! i = Some x → h_sessionId x = sid) → h_sessionId h ≠ sid → g_handles g !! j = Some h →
  g_handles (update i f g) !! j = Some h.
Proof. intros Hi Hn Hj. cbn. eapply alter_other; [|exact Hj|reflexivity]. intros x Hx E. apply Hn. rewrite <- E. by apply Hi. Qed.

Lemma update_session g i f sid j x :
  (∀ x, h_sessionId (f x) = h_sessionId x) → (∀ x, g_handles g !! j = Some x → h_sessionId x = sid) →
  g_handles (update i f g) !! j = Some x → h_sessionId x = sid.
Proof.
  intros Hf Hi. cbn. rewrite list_lookup_alter. destruct (decide (i = j)) as [->|]; [|apply Hi].
  intros (y & Hy & ->)%fmap_Some. rewrite Hf. by apply Hi.
Qed.

Lemma zeroize_session h : h_sessionId (zeroize h) = h_sessionId h.
Proof. unfold zeroize. by destruct (h_zeroized h). Qed.

(** The handles that a session's entry names belong to the session. *)
Lemma entry_handles g sid e :
  entry_inv g sid e → (∀ x, g_handles g !! currentHandle e = Some x → h_sessionId x = sid)
  ∧ (∀ i x, previousHandle e = Some i → g_handles g !! i = Some x → h_sessionId x = sid).
Proof.
  intros (c & Ec & Hc & _ & Hr). split; [intros x Hx; congruence|].
  intros i x Hp Hx. rewrite Hp in Hr. destruct (dualKeyTimer e); [|done]. destruct Hr as (_ & _ & _ & o & Eo & Ho & _). congruence.
Qed.

Lemma close_inv sid g : registry_inv g → registry_inv (closeSession sid g).
Proof.
  intros Hinv. pose proof Hinv as [He Ht Hp]. unfold closeSession. destruct (map_get sid (g_entries g)) as [e|] eqn:Es; [|done].
  set (g1 := match dualKeyTimer e with Some t => _ | None => g end).
  assert (g_handles g1 = g_handles g ∧ g_entries g1 = g_entries g ∧ g_nextTimer g1 = g_nextTimer g) as (Hh1 & He1 & Hn1)
    by (unfold g1; by destruct (dualKeyTimer e)).
  assert (∀ t, t ∈ g_timers g1 ↔ t ∈ g_timers g ∧ t_session t ≠ sid) as Ht1.
  { intros t. unfold g1. destruct (He sid e Es) as (c & _ & _ & _ & Hr). destruct (dualKeyTimer e) as [k|] eqn:Ed.
    - cbn. rewrite list_elem_of_filter. split.
      + intros [Hne Hin]. split; [done|]. intros Hs. destruct (Hp t Hin) as (_ & e' & Hg & Hd). rewrite Hs, Es in Hg. congruence.
      + intros [Hin Hne]. split; [|done]. intros Hid. apply Hne. destruct (previousHandle e); [|done].
        destruct Hr as (_ & _ & (due & Hin') & _). by rewrite (timer_session g t (mkTimer k sid due)).
    - split; [|by intros []]. intros Hin. split; [done|]. intros Hs. destruct (Hp t Hin) as (_ & e' & Hg & Hd). rewrite Hs, Es in Hg. congruence. }
  destruct (entry_handles g sid e (He sid e Es)) as [Hcur Hprev].
  set (g2 := update_opt _ _ _).
  assert (g_entries g2 = g_entries g ∧ g_timers g2 = g_timers g1 ∧ g_nextTimer g2 = g_nextTimer g) as (He2 & Ht2 & Hn2)
    by (unfold g2, update_opt; destruct (previousHandle e); by cbn).
  assert (∀ i h, g_handles g !! i = Some h → h_sessionId h ≠ sid → g_handles g2 !! i = Some h) as Hh2.
  { intros i h Hi Hne. unfold g2. assert (g_handles (update (currentHandle e) zeroize g1) !! i = Some h) as Hi1
      by (apply (update_other g1 _ _ sid); rewrite ?Hh1; done).
    destruct (previousHandle e) as [j|] eqn:Ep; [|done]. apply (update_other _ _ _ sid); [|done..].
    intros x. apply update_session; [apply zeroize_session|]. rewrite Hh1. intros y. by apply (Hprev j). }
  split; cbn [g_entries g_timers g_nextTimer g_handles with_entries]; rewrite ?He2, ?Ht2, ?Hn2.
  - intros sid' e'. rewrite map_get_delete. destruct (String.eqb_spec sid sid') as [|Hne]; [done|]. intros Hg.
    apply (other_session_inv g _ sid); try done; [by apply He|]. cbn. rewrite Ht2. intros t Hin Hs. by apply Ht1.
  - unfold g1. destruct (dualKeyTimer e); [|done]. cbn. eapply sublist_NoDup; [exact Ht|]. apply fmap_sublist, sublist_filter.
  - intros t [Hin Hs]%Ht1. destruct (Hp t Hin) as (Hl & e' & Hg & Hd). split; [done|]. exists e'. rewrite map_get_delete.
    by destruct (String.eqb_spec sid (t_session t)); [congruence|].
Qed.

Lemma fire_inv id now g : registry_inv g → registry_inv (fire id now g).
Proof.
  intros Hinv. pose proof Hinv as [He Ht Hp]. unfold fire. destruct (filter _ (g_timers g)) as [|t ts] eqn:Ef; [done|].
  assert (t_id t = id ∧ t ∈ g_timers g) as [<- Hin].
  { assert (t ∈ filter (λ t, t_id t = id ∧ t_due t <= now) (g_timers g)) as [[? _] ?]%list_elem_of_filter by (rewrite Ef; left). done. }
  destruct (Hp t Hin) as (Hl & e & Es & Ed). set (sid := t_session t) in *. unfold expireDualKeyWindow. cbn [g_entries with_timers]. rewrite Es.
  destruct (He sid e Es) as (c & Ec & Hc & Hz & Hr). rewrite Ed in Hr. destruct (previousHandle e) as [j|] eqn:Ep; [|done].
  destruct Hr as (Hst & Hne & _ & o & Eo & Ho & _).
  set (g1 := with_timers (filter (λ x, t_id x ≠ t_id t)) g).
  assert (∀ x, x ∈ g_timers g1 ↔ x ∈ g_timers g ∧ t_session x ≠ sid) as Ht1.
  { intros x. cbn. rewrite list_elem_of_filter. split.
    - intros [Hid Hx]. split; [done|]. intros Hs. destruct (Hp x Hx) as (_ & e' & Hg & Hd). rewrite Hs, Es in Hg. injection Hg as <-. congruence.
    - intros [Hx Hs]. split; [|done]. intros Hid. apply Hs. by rewrite (timer_session g x t). }
  set (act := λ h, if decide (h_state h = PENDING_REKEY) then set_state ACTIVE h else h).
  assert (∀ x, h_sessionId (act x) = h_sessionId x) as Hact by (intros x; unfold act; by case_decide).
  split; cbn [update_opt update with_handles with_entries g_entries g_timers g_nextTimer g_handles].
  - intros sid' e'. rewrite map_get_set. destruct (String.eqb_spec sid sid') as [<-|Hns].
    + intros [= <-]. exists (set_state ACTIVE c). cbn. rewrite list_lookup_alter, decide_True by done.
      rewrite list_lookup_alter, decide_False, Ec by done. cbn. unfold act. by rewrite decide_True.
    + intros Hg. apply (other_session_inv g _ sid); try done; [by apply He| |].
      * intros i h Hi Hs. apply (update_other (update j zeroize g1) _ act sid); [|done|].
        -- intros x. apply update_session; [apply zeroize_session|]. cbn. congruence.
        -- apply (update_other g1 _ _ sid); [cbn; congruence|done|done].
      * intros x Hx Hs. by apply Ht1.
  - eapply sublist_NoDup; [exact Ht|]. apply fmap_sublist, sublist_filter.
  - intros x [Hx Hs]%Ht1. destruct (Hp x Hx) as (Hlx & e' & Hg & Hd). split; [done|]. exists e'. rewrite map_get_set.
    by destruct (String.eqb_spec sid (t_session x)); [congruence|].
Qed.

(** Replacing a handle by one in the same place of its life. *)
Lemma alike_inv g i h h' : registry_inv g → g_handles g !! i = Some h → alike h h' → registry_inv (update i (λ _, h') g).
Proof.
  intros [He Ht Hp] Hi Ha. split; [|done|done]. intros sid e Hg. apply (entry_frame g); [by apply He| |done].
  intros j x Hj _. cbn. rewrite list_lookup_alter. destruct (decide (i = j)) as [->|]; [|by exists x].
  rewrite Hj. exists h'. split; [done|]. congruence.
Qed.

Lemma encrypt_alike `{Primitives} `{E2EPrimitives} f text h : alike h (encrypt f text h).2.
Proof.
  unfold encrypt. destruct (stopped _); [done|]. destruct (h_authorizedTokenId h); [|done].
  destruct (own_keyId _) as [k h'] eqn:E. unfold own_keyId in E. destruct (h_cachedOwnKeyId _); injection E as _ <-; done.
Qed.

(** Between calls a session has one live generation of keys, or two and a
    pending timer that retires the older one; timers belong to the sessions that
    started them.  It stays so whatever the process calls, as long as no holder
    of a handle zeroizes it behind the registry's back. *)
Theorem registry_consistent `{Primitives} `{E2EPrimitives} ops p :
  registry_inv (ep_registry p) → Forall (λ op, match op with op_zeroize _ => False | _ => True end) ops →
  registry_inv (ep_registry (chan_run ops p)).
Proof.
  revert p. induction ops as [|op ops IH]; intros p Hp Ho; [done|]. apply Forall_cons in Ho as [Ho Hos].
  apply (IH (chan_step op p)); [|done]. destruct op; cbn [chan_step with_registry ep_registry]; try done.
  - by apply create_inv.
  - by apply swap_inv.
  - unfold swapForDualKeyChainMode. repeat case_match; try done. by apply swap_inv.
  - by apply close_inv.
  - by apply fire_inv.
  - unfold encryptEnvelopeBody. destruct (lookupHandle _ _) as [i|]; [|done].
    destruct (g_handles (ep_registry p) !! i) as [h|] eqn:Eh; [|done]. case_decide; [|done].
    pose proof (encrypt_alike f plaintext h) as Ha. destruct (encrypt f plaintext h) as [r h']. by apply (alike_inv _ i h).
  - unfold decryptEnvelopeBody. by repeat case_match.
Qed.

(** ** Closing a session *)

(** A handle without keys that refuses to work. *)
Definition dead (h : SessionCryptoHandle) : Prop :=
  h_zeroized h = true ∧ h_state h = CLOSED
  ∧ Forall (λ b, b = 0) (initToResp (h_trafficKeys h) ++ respToInit (h_trafficKeys h) ++ h_sessionSalt h ++ h_rekeyChainKey h).

Lemma zeroize_dead h : h_zeroized h = false → dead (zeroize h).
Proof.
  intros Hz. unfold zeroize. rewrite Hz. split_and!; [done|done|]. cbn. repeat apply Forall_app_2; by apply Forall_replicate.
Qed.
Lemma zeroize_dead_id h : dead h → zeroize h = h.
Proof. intros (Hz & _). unfold zeroize. by rewrite Hz. Qed.

Lemma update_dead g i f j h :
  (∀ x, dead x → f x = x) → g_handles g !! j = Some h → dead h → g_handles (update i f g) !! j = Some h.
Proof.
  intros Hf Hj Hd. cbn. rewrite list_lookup_alter. destruct (decide (i = j)) as [->|]; [|done]. rewrite Hj. cbn. by rewrite Hf.
Qed.
Lemma update_opt_dead g o f j h :
  (∀ x, dead x → f x = x) → g_handles g !! j = Some h → dead h → g_handles (update_opt o f g) !! j = Some h.
Proof. destruct o; [apply update_dead|done]. Qed.

Section closing.
Context `{Primitives} `{E2EPrimitives}.

Lemma dead_refuses h : dead h →
  (∀ f text, encrypt f text h = (Throw "SESSION_HANDLE_REVOKED", h)) ∧ ∀ f c n, decrypt h f c n = Throw "SESSION_HANDLE_REVOKED".
Proof. intros (_ & Hs & _). unfold encrypt, decrypt. by rewrite Hs. Qed.

Lemma swap_dead sid data now g i h :
  g_handles g !! i = Some h → g_handles (swapForDualKey sid data now g).2 !! i = Some h.
Proof. intros Hi. unfold swapForDualKey. repeat case_match; try done. cbn. by apply lookup_app_l_Some. Qed.

Lemma step_dead op p i h :
  g_handles (ep_registry p) !! i = Some h → dead h → g_handles (ep_registry (chan_step op p)) !! i = Some h.
Proof.
  intros Hi Hd. destruct op; cbn [chan_step with_registry ep_registry].
  - unfold createSession. case_match; [done|]. cbn. by apply lookup_app_l_Some.
  - by apply swap_dead.
  - unfold swapForDualKeyChainMode. repeat case_match; try done. by apply swap_dead.
  - unfold closeSession. case_match; [|done]. cbn [with_entries g_handles].
    apply update_opt_dead; [apply zeroize_dead_id| |done]. apply update_dead; [apply zeroize_dead_id| |done]. by case_match.
  - unfold fire. case_match; [done|]. unfold expireDualKeyWindow. case_match; [|done]. cbn [with_entries g_handles].
    apply update_dead; [|apply update_opt_dead; [apply zeroize_dead_id|done|done]|done].
    intros x (_ & Hs & _). by rewrite decide_False by (rewrite Hs; done).
  - apply update_dead; [apply zeroize_dead_id|done|done].
  - unfold encryptEnvelopeBody. destruct (lookupHandle _ _) as [j|]; [|done].
    destruct (g_handles (ep_registry p) !! j) as [x|] eqn:Ex; [|done]. case_decide; [|done].
    destruct (decide (i = j)) as [->|Hne].
    + rewrite Hi in Ex. injection Ex as <-. rewrite (proj1 (dead_refuses h Hd)). cbn. rewrite list_lookup_alter, decide_True by done. by rewrite Hi.
    + destruct (encrypt _ _ _). cbn. by rewrite list_lookup_alter, decide_False.
  - unfold decryptEnvelopeBody. by repeat case_match.
Qed.

(** Closing a session takes effect at once and for good: the session is not
    found, and the handles it had, which callers may have kept, hold no key and
    refuse to encrypt and to decrypt after whatever the process does next. *)
Theorem closed_session_dead sid p e i ops :
  registry_inv (ep_registry p) → map_get sid (g_entries (ep_registry p)) = Some e →
  i = currentHandle e ∨ previousHandle e = Some i →
  let closed := with_registry (closeSession sid) p in
  lookupHandle sid (ep_registry closed) = None ∧ (∀ k, lookupHandleForDecrypt sid k (ep_registry closed) = None)
  ∧ ∃ h, g_handles (ep_registry (chan_run ops closed)) !! i = Some h ∧ dead h
      ∧ (∀ f text, encrypt f text h = (Throw "SESSION_HANDLE_REVOKED", h))
      ∧ ∀ f c n, decrypt h f c n = Throw "SESSION_HANDLE_REVOKED".
Proof.
  intros Hinv Es Hi closed. assert (map_get sid (g_entries (ep_registry closed)) = None) as Hgone.
  { cbn. unfold closeSession. rewrite Es. cbn. by rewrite map_get_delete, String.eqb_refl. }
  split; [unfold lookupHandle; by rewrite Hgone|]. split; [intros k; unfold lookupHandleForDecrypt; by rewrite Hgone|].
  assert (∃ h, g_handles (ep_registry closed) !! i = Some h ∧ dead h) as (h & Hh & Hd).
  { destruct (ri_entries _ Hinv sid e Es) as (c & Ec & _ & Hz & Hr). cbn. unfold closeSession. rewrite Es. cbn [with_entries g_handles].
    set (g1 := match dualKeyTimer e with Some t => _ | None => _ end).
    assert (g_handles g1 = g_handles (ep_registry p)) as Hg1 by (unfold g1; by destruct (dualKeyTimer e)).
    destruct Hi as [->|Hp].
    - exists (zeroize c). split; [|by apply zeroize_dead]. apply update_opt_dead; [apply zeroize_dead_id| |by apply zeroize_dead].
      cbn [update with_handles g_handles]. by rewrite Hg1, list_lookup_alter, decide_True, Ec.
    - rewrite Hp in Hr |- *. destruct (dualKeyTimer e) as [t|]; [|done]. destruct Hr as (_ & Hne & _ & o & Eo & _ & Hzo & _).
      exists (zeroize o). split; [|by apply zeroize_dead].
      cbn [update_opt update with_handles g_handles]. rewrite Hg1, list_lookup_alter, decide_True by done.
      by rewrite list_lookup_alter, decide_False, Eo. }
  exists h. split; [|by split; [|apply dead_refuses]]. clear -Hh Hd. revert Hh. generalize closed. induction ops as [|op ops IH]; intros q Hq; [done|].
  apply IH. by apply step_dead.
Qed.

(** ** Rekeying *)

(** After a rekey the session encrypts with the new generation and decrypts both,
    until its timer is due; then the old generation is gone. *)
Theorem dual_key_window sid data now g e c t :
  registry_inv g → map_get sid (g_entries g) = Some e → g_handles g !! currentHandle e = Some c → h_state c = ACTIVE →
  let fresh := new_handle sid (h_role c) (h_authorizedTokenId c) data PENDING_REKEY in
  let g' := (swapForDualKey sid data now g).2 in
  peerKeyId fresh ≠ peerKeyId c →
  g_handles g' !! length (g_handles g) = Some fresh
  ∧ lookupHandle sid g' = Some (length (g_handles g))
  ∧ lookupHandleForDecrypt sid (peerKeyId fresh) g' = Some (length (g_handles g))
  ∧ lookupHandleForDecrypt sid (peerKeyId c) g' = Some (currentHandle e)
  ∧ (t < now + dualKeyFallbackMs g → fire (g_nextTimer g) t g' = g')
  ∧ (now + dualKeyFallbackMs g <= t →
      lookupHandleForDecrypt sid (peerKeyId fresh) (fire (g_nextTimer g) t g') = Some (length (g_handles g))
      ∧ lookupHandleForDecrypt sid (peerKeyId c) (fire (g_nextTimer g) t g') = None).
Proof.
  intros Hinv Es Ec Hst fresh g' Hk. unfold g', swapForDualKey. rewrite Es, Ec, decide_False by (rewrite Hst; done). cbn [snd]. fold fresh.
  assert (currentHandle e < length (g_handles g))%nat as Hlt by (by eapply lookup_lt_Some).
  assert ((g_handles g ++ [fresh]) !! length (g_handles g) = Some fresh) as Hnew by (by rewrite lookup_app_r, Nat.sub_diag by done).
  assert ((g_handles g ++ [fresh]) !! currentHandle e = Some c) as Hold by (by apply lookup_app_l_Some).
  assert (filter (λ x, t_id x = g_nextTimer g ∧ t_due x <= t) (g_timers g) = []) as Hf.
  { apply elem_of_nil_inv. intros x [[Hid _] Hx]%list_elem_of_filter. destruct (ri_pending _ Hinv x Hx) as [Hl _]. lia. }
  unfold lookupHandle, lookupHandleForDecrypt, has_keyId. cbn [g_handles g_entries].
  rewrite map_get_set, String.eqb_refl. cbn [currentHandle previousHandle fmap option_fmap option_map].
  rewrite Hnew, Hold, !String.eqb_refl, (proj2 (String.eqb_neq _ _) Hk). split_and!; try done.
  - intros Ht. unfold fire. cbn [g_timers]. rewrite filter_app, Hf, filter_cons_False by (cbn; lia). done.
  - intros Ht. unfold fire. cbn [g_timers]. rewrite filter_app.
    rewrite Hf. rewrite filter_cons_True by done. cbn [app t_session]. unfold expireDualKeyWindow. cbn [g_entries with_timers].
    rewrite map_get_set, String.eqb_refl. cbn [previousHandle update_opt currentHandle update with_handles with_entries with_timers g_handles g_entries].
    rewrite map_get_set, String.eqb_refl. cbn [currentHandle previousHandle].
    rewrite list_lookup_alter, decide_True by done. rewrite list_lookup_alter, decide_False, Hnew by lia. cbn [fmap option_fmap option_map].
    rewrite decide_True by done.
    replace (peerKeyId (set_state ACTIVE fresh)) with (peerKeyId fresh) by done. by rewrite String.eqb_refl, (proj2 (String.eqb_neq _ _) Hk).
Qed.

(** ** Where the code misses its intent *)

(** A session whose handle was zeroized is brought back to life by a chain rekey,
    with keys that depend on no secret: they are derived from zeros. *)
Theorem zeroized_session_revived sid now p e c :
  map_get sid (g_entries (ep_registry p)) = Some e → g_handles (ep_registry p) !! currentHandle e = Some c → h_zeroized c = false →
  let q := chan_run [op_zeroize (currentHandle e); op_chain sid now] p in
  ∃ h, lookupHandle sid (ep_registry q) = Some (length (g_handles (ep_registry p)))
    ∧ g_handles (ep_registry q) !! length (g_handles (ep_registry p)) = Some h
    ∧ h_state h = PENDING_REKEY ∧ h_authorizedTokenId h = h_authorizedTokenId c
    ∧ h_trafficKeys h = (deriveChainKeyRekeyKeys (zeros (h_rekeyChainKey c))).1 ∧ h_sessionSalt h = zeros (h_sessionSalt c).
Proof.
  intros Es Ec Hz q. unfold q, chan_run. cbn [fold_left chan_step with_registry ep_registry].
  unfold swapForDualKeyChainMode, swapForDualKey. cbn [update with_handles g_entries g_handles]. rewrite Es.
  rewrite list_lookup_alter, decide_True, Ec by done. cbn [fmap option_fmap option_map].
  assert (h_state (zeroize c) = CLOSED ∧ h_rekeyChainKey (zeroize c) = zeros (h_rekeyChainKey c)
    ∧ h_sessionSalt (zeroize c) = zeros (h_sessionSalt c) ∧ h_authorizedTokenId (zeroize c) = h_authorizedTokenId c) as (Hs & Hch & Hsalt & Htok)
    by (unfold zeroize; by rewrite Hz).
  rewrite !decide_False by (rewrite Hs; done). rewrite Hch, Hsalt, Htok. destruct (deriveChainKeyRekeyKeys _) as [keys ch].
  rewrite ?decide_False by (rewrite Hs; done). cbn [snd].
  eexists. unfold lookupHandle. cbn. rewrite map_get_set, String.eqb_refl, length_alter. split; [done|].
  rewrite lookup_app_r, length_alter, Nat.sub_diag by (by rewrite length_alter). done.
Qed.

End closing.

(** After 2^64 messages a handle starts again with its first nonce: nothing stops
    it. *)
Theorem nonce_wraps d seq salt : 0 <= seq → buildAeadNonce d (seq + 2 ^ 64) salt = buildAeadNonce d seq salt.
Proof.
  intros Hs. unfold buildAeadNonce. change 4294967295 with (Z.ones 32). rewrite !Z.land_ones, !Z.shiftr_div_pow2 by lia.
  rewrite (be32_mod ((seq + 2 ^ 64) / 2 ^ 32) (seq / 2 ^ 32)), (be32_mod ((seq + 2 ^ 64) mod 2 ^ 32) (seq mod 2 ^ 32));
    [done|Z.div_mod_to_equations; lia..].
Qed.
