(* ===== verification/SecureChannelExamples.v ===== *)
(** * Concrete encrypted sessions

    An instance of the encryption primitives, which shows that their laws are
    consistent and is no cryptography, and two processes that share a session:
    the values at which the theorems of SecureChannel.v are applied. *)
From S2P Require Import Prelude JsValue Time Encoding Crypto ToyPrimitives Authorization SignedPayload.
From S2P Require Import Encryption SecureChannel.

Definition toy_sum (bs : bytes) : Z := foldr (λ b acc, (b + 3 * acc) mod 251) 7 bs.

#[export] Instance toy_e2e : E2EPrimitives := {|
  x25519_pub sk := toy_sum sk :: replicate 31 0;
  x25519_shared sk pk := Some (replicate 32 (toy_sum sk * nth 0 pk 0 mod 251));
  hkdf_extract ikm salt := [toy_sum (ikm ++ salt)];
  hkdf_expand prk info n := replicate n (toy_sum (prk ++ info));
  gcm_encrypt key nonce aad text := Some (toy_sum (key ++ nonce ++ aad ++ text) :: text);
  gcm_decrypt key nonce aad c :=
    match c with
    | tag :: text => if tag =? toy_sum (key ++ nonce ++ aad ++ text) then Some text else None
    | [] => None
    end |}.

Lemma toy_sum_byte bs : is_byte (toy_sum bs).
Proof. unfold is_byte. destruct bs as [|b bs]; [by split|]. cbn. Z.div_mod_to_equations. lia. Qed.

#[export] Instance toy_e2e_laws : E2ELaws.
Proof.
  split.
  - intros sk. split; [|done]. constructor; [apply toy_sum_byte|]. apply Forall_replicate. by split.
  - intros a b. cbn [x25519_shared x25519_pub toy_e2e nth]. by rewrite Z.mul_comm.
  - intros prk info n. cbn [hkdf_expand toy_e2e]. split; [apply Forall_replicate, toy_sum_byte|apply length_replicate].
  - intros key nonce aad text _ _ Ht. exists (toy_sum (key ++ nonce ++ aad ++ text) :: text). cbn [gcm_encrypt gcm_decrypt toy_e2e].
    split_and!; [done|constructor; [apply toy_sum_byte|done]|done|by rewrite Z.eqb_refl].
Qed.

(** ** Two processes *)

Definition sx_keys : DerivedSessionKeys := deriveSessionKeys (replicate 32 5) (replicate 32 9).
Definition sx_data : NewSessionData := mkSessionData (dk_traffic sx_keys) (dk_sessionSalt sx_keys) (dk_rekeyChainKey sx_keys) 0.
Definition sx_empty : Endpoint := mkEndpoint (mkRegistry [] [] [] 0 30000) [].
Definition sx_alice : Endpoint := chan_step (op_create "s" initiator (Some "tok") sx_data) sx_empty.
Definition sx_bob : Endpoint := chan_step (op_create "s" responder (Some "tok") sx_data) sx_empty.
Definition sx_a : SessionCryptoHandle := new_handle "s" initiator (Some "tok") sx_data ACTIVE.
Definition sx_b : SessionCryptoHandle := new_handle "s" responder (Some "tok") sx_data ACTIVE.

Definition sx_f (n : string) : AeadAadFields := mkAadFields n "REQUEST" None.
Definition sx_msgs : list (AeadAadFields * bytes) := [(sx_f "e1", [1; 2]); (sx_f "e2", [3]); (sx_f "e3", [4; 5; 6])].

Lemma sx_mirrored : mirrored sx_a sx_b.
Proof. split; try reflexivity; [by split| |by left]. split; [|done]. vm_compute. repeat constructor; discriminate. Qed.

Definition sx_bodies : list EncryptedBody :=
  match send_all "s" "tok" "BUSINESS" sx_msgs sx_alice with (Ok l, _) => l | _ => [] end.

(** The second message is lost. *)
Lemma lossy_delivery_witness :
  ∃ b1 b2 b3 pa' pb', send_all "s" "tok" "BUSINESS" sx_msgs sx_alice = (Ok [b1; b2; b3], pa')
    ∧ receive_all "s" "tok" [(sx_f "e1", b1); (sx_f "e3", b3)] sx_bob = (Ok [[1; 2]; [4; 5; 6]], pb').
Proof.
  destruct (lossy_delivery "s" "tok" "BUSINESS" sx_msgs sx_alice sx_a sx_b) as (bodies & pa' & E & Hl & Hr).
  - split_and!; [reflexivity..|]. exists 0%nat. by split.
  - apply sx_mirrored.
  - discriminate.
  - assert (∀ n, summary_ok (sx_f n)) as Hf by (intros n o [=]).
    repeat constructor; try apply Hf; cbn; repeat constructor; try apply Hf; try (cbn; lia).
  - vm_compute. discriminate.
  - destruct bodies as [|b1 [|b2 [|b3 []]]]; try discriminate Hl.
    destruct (Hr sx_bob [((sx_f "e1", [1; 2]), b1); ((sx_f "e3", [4; 5; 6]), b3)]) as (pb' & E').
    + split; [reflexivity|]. exists 0%nat. split; vm_compute; reflexivity.
    + intros m [=].
    + cbn. constructor. apply sublist_cons. constructor. constructor.
    + exists b1, b2, b3, pa', pb'. split; [exact E|exact E'].
Defined.

(** ** Replays *)

Definition sx_body1 : EncryptedBody := nth 0 sx_bodies (mkEncryptedBody "" "" "" "" None).
Definition sx_received : res bytes * Endpoint := decryptEnvelopeBody "s" sx_body1 (sx_f "e1") "tok" sx_bob.

(** The same nonce in base64url is recognized too. *)
Definition sx_base64 : EncryptedBody :=
  mkEncryptedBody "BUSINESS" (eb_ciphertext sx_body1) (toBase64Url (hex_pairs (chars (eb_aeadNonce sx_body1)))) (eb_keyId sx_body1) None.

Lemma replay_rejected_witness :
  let ops := [op_chain "s" 0; op_fire 0 30000; op_close "s"] in
  sx_received.1 = Ok [1; 2]
  ∧ (decryptEnvelopeBody "s" sx_base64 (sx_f "e1") "tok" (chan_run ops sx_received.2)).1 = Throw "ENCRYPTED_REPLAY_DETECTED".
Proof.
  intros ops. split; [vm_compute; reflexivity|].
  assert (decryptEnvelopeBody "s" sx_body1 (sx_f "e1") "tok" sx_bob = (Ok [1; 2], sx_received.2)) as E by (vm_compute; reflexivity).
  rewrite (replay_rejected "s" sx_body1 (sx_f "e1") "tok" sx_bob [1; 2] sx_received.2 0 1 ops sx_base64 (sx_f "e1") "tok" 0).
  - reflexivity.
  - exact E.
  - vm_compute. reflexivity.
  - vm_compute. reflexivity.
  - lia.
  - reflexivity.
  - discriminate.
Defined.

Lemma nonces_never_repeat_witness :
  let ops := [op_encrypt "s" "tok" (sx_f "e1") [1] "BUSINESS"; op_chain "s" 0; op_encrypt "s" "tok" (sx_f "e2") [2] "BUSINESS";
              op_encrypt "s" "tok" (sx_f "e3") [3] "BUSINESS"] in
  NoDup (sent ops sx_alice) ∧ length (sent ops sx_alice) = 3%nat.
Proof.
  intros ops. split; [|vm_compute; reflexivity]. apply nonces_never_repeat.
  - repeat constructor; vm_compute; discriminate.
  - repeat constructor; intros d [=].
  - intros i. do 2 (destruct i as [|i]; [vm_compute; discriminate|]). vm_compute. discriminate.
Defined.

Lemma sx_alice_inv : registry_inv (ep_registry sx_alice).
Proof.
  split.
  - intros sid e. change (g_entries (ep_registry sx_alice)) with [("s", mkRegEntry 0 None None)]. cbn [map_get].
    destruct (String.eqb_spec "s" sid) as [<-|]; [|done]. intros [= <-]. exists sx_a. repeat split.
  - apply NoDup_nil_2.
  - intros t Ht. by apply not_elem_of_nil in Ht.
Qed.

Lemma registry_consistent_witness :
  registry_inv (ep_registry (chan_run [op_chain "s" 0; op_encrypt "s" "tok" (sx_f "e1") [1] "BUSINESS"; op_fire 0 30000] sx_alice)).
Proof. apply registry_consistent; [apply sx_alice_inv|repeat constructor]. Defined.

Lemma closed_session_dead_witness :
  ∃ h, g_handles (ep_registry (chan_run [op_create "s" initiator (Some "tok") sx_data] (with_registry (closeSession "s") sx_alice))) !! 0%nat = Some h
    ∧ encrypt (sx_f "e1") [1] h = (Throw "SESSION_HANDLE_REVOKED", h).
Proof.
  destruct (closed_session_dead "s" sx_alice (mkRegEntry 0 None None) 0%nat [op_create "s" initiator (Some "tok") sx_data])
    as (_ & _ & h & Hh & _ & He & _).
  - apply sx_alice_inv.
  - reflexivity.
  - by left.
  - exists h. split; [exact Hh|apply He].
Defined.

Definition sx_chain : NewSessionData :=
  let '(keys, chain) := deriveChainKeyRekeyKeys (dk_rekeyChainKey sx_keys) in mkSessionData keys (dk_sessionSalt sx_keys) chain 1.
Definition sx_rekeyed : SessionRegistry := (swapForDualKey "s" sx_chain 0 (ep_registry sx_alice)).2.

Lemma dual_key_window_witness :
  lookupHandleForDecrypt "s" (peerKeyId sx_a) sx_rekeyed = Some 0%nat ∧ fire 0 29999 sx_rekeyed = sx_rekeyed
  ∧ lookupHandleForDecrypt "s" (peerKeyId sx_a) (fire 0 30000 sx_rekeyed) = None.
Proof.
  pose proof (λ t, dual_key_window "s" sx_chain 0 (ep_registry sx_alice) (mkRegEntry 0 None None) sx_a t sx_alice_inv eq_refl eq_refl eq_refl) as D.
  assert (peerKeyId (new_handle "s" initiator (Some "tok") sx_chain PENDING_REKEY) ≠ peerKeyId sx_a) as Hk by (vm_compute; discriminate).
  destruct (D 29999 Hk) as (_ & _ & _ & H1 & H2 & _). destruct (D 30000 Hk) as (_ & _ & _ & _ & _ & H3).
  split; [exact H1|]. split; [apply H2; vm_compute; reflexivity|]. apply H3. vm_compute. discriminate.
Defined.

Lemma zeroized_session_revived_witness :
  ∃ h, g_handles (ep_registry (chan_run [op_zeroize 0; op_chain "s" 0] sx_alice)) !! 1%nat = Some h ∧ h_state h = PENDING_REKEY
    ∧ h_trafficKeys h = (deriveChainKeyRekeyKeys (replicate 32 0)).1.
Proof.
  destruct (zeroized_session_revived "s" 0 sx_alice (mkRegEntry 0 None None) sx_a) as (h & _ & Hh & Hs & _ & Hk & _); try reflexivity.
  exists h. split_and!; [exact Hh|exact Hs|exact Hk].
Defined.

Lemma nonce_wraps_witness : buildAeadNonce init_to_resp (3 + 2 ^ 64) [1; 2; 3; 4] = buildAeadNonce init_to_resp 3 [1; 2; 3; 4].
Proof. apply nonce_wraps. lia. Defined.

(** ** Edges *)

(** A peer that has not rekeyed yet cannot read what the other end sends after
    its rekey: the window is for old messages only. *)
Theorem early_rekey_undeliverable :
  let alice := chan_run [op_chain "s" 0] sx_alice in
  match encryptEnvelopeBody "s" "tok" (sx_f "e1") [1] "BUSINESS" alice with
  | (Ok body, _) => (decryptEnvelopeBody "s" body (sx_f "e1") "tok" sx_bob).1
  | _ => Throw ""
  end = Throw "DECRYPTION_FAILED".
Proof. vm_compute. reflexivity. Qed.

(** A nonce in base64url whose sixteen characters are hex digits is read as twelve
    bytes when its sequence number is taken and as eight when it is used. *)
Theorem nonce_read_twice :
  extractSequenceNumber "0123456789abcdef" = Ok (nonce_seq (buffer_base64url "0123456789abcdef"), nth 0 (buffer_base64url "0123456789abcdef") 0)
  ∧ length (buffer_base64url "0123456789abcdef") = 12%nat ∧ length (decodeEncryptedField "0123456789abcdef") = 8%nat.
Proof. vm_compute. done. Qed.

(** Messages that overtake each other are refused as replays. *)
Theorem reordered_message_refused :
  match send_all "s" "tok" "BUSINESS" sx_msgs sx_alice with
  | (Ok [b1; b2; _], _) => (receive_all "s" "tok" [(sx_f "e2", b2); (sx_f "e1", b1)] sx_bob).1
  | _ => Throw ""
  end = Throw "ENCRYPTED_REPLAY_DETECTED".
Proof. vm_compute. reflexivity. Qed.
