(* ===== verification/Envelope.v ===== *)
(** * Signed envelopes

    Models the functions of packages/communication/src/envelope.ts that build,
    parse and verify a [NegotiationEnvelope], and the error envelopes of
    error-envelope.ts.  [parseEnvelope] reads an arbitrary JSON value; the record
    is what its answer is used as.  Random ids and the clock are arguments.  The
    encryption of bodies is in SecureChannel.v. *)
From S2P Require Import Prelude JsValue Time Encoding Crypto Authorization SignedPayload.
Open Scope Z_scope.

(** ** Data *)

Definition SPEC_VERSION_0_1_0 : string := "0.1.0".
Definition SPEC_VERSION_0_3_0 : string := "0.3.0".
Definition SUPPORTED_SPEC_VERSIONS : list string := [SPEC_VERSION_0_1_0; SPEC_VERSION_0_2_0; SPEC_VERSION_0_3_0].
Definition MESSAGE_TYPES : list string :=
  ["HANDSHAKE_INIT"; "HANDSHAKE_ACK"; "NEGOTIATION_REQUEST"; "NEGOTIATION_RESPONSE"; "NEGOTIATION_CONFIRM"; "ERROR";
   "DISCOVERY_REQUEST"; "DISCOVERY_RESPONSE"].
Definition ENVELOPE_ENCODING : encoding := enc_base64url.

Record EnvelopeHeader : Type := mkHeader {
  eh_senderDid : string;
  eh_recipientDid : string;
  eh_sessionId : option string;
  eh_sequenceNumber : option num;
  eh_capabilityTokenRef : option string }.

Record NegotiationEnvelope : Type := mkEnvelope {
  ne_id : string;
  ne_specVersion : string;
  ne_header : EnvelopeHeader;
  ne_messageType : string;
  ne_body : object;
  ne_signature : string;
  ne_timestamp : string }.

Record BuildEnvelopeParams : Type := mkBuildParams {
  be_senderDid : string;
  be_senderPrivateKey : string;
  be_recipientDid : string;
  be_sessionId : option string;
  be_messageType : string;
  be_body : object;
  be_sequenceNumber : option num;
  be_capabilityTokenRef : option string;
  be_signatureEncoding : option encoding;
  be_specVersion : option string }.

(** A member that is present only when its value is. *)
Definition member (k : string) (v : option value) : object := match v with Some x => [(k, x)] | None => [] end.
Definition null_or_str (o : option string) : value := match o with Some s => VStr s | None => VNull end.

Definition header_json (h : EnvelopeHeader) : value :=
  VObj (member "capabilityTokenRef" (VStr <$> eh_capabilityTokenRef h)
        ++ [("recipientDid", VStr (eh_recipientDid h)); ("senderDid", VStr (eh_senderDid h))]
        ++ member "sequenceNumber" (VNum <$> eh_sequenceNumber h) ++ [("sessionId", null_or_str (eh_sessionId h))]).

(** The signed members, in the order of the keys. *)
Definition envelope_payload (id specVersion : string) (h : EnvelopeHeader) (messageType : string) (body : object)
    (timestamp : string) : value :=
  VObj [("body", VObj body); ("header", header_json h); ("id", VStr id); ("messageType", VStr messageType);
        ("specVersion", VStr specVersion); ("timestamp", VStr timestamp)].
Definition payload_of (e : NegotiationEnvelope) : value :=
  envelope_payload (ne_id e) (ne_specVersion e) (ne_header e) (ne_messageType e) (ne_body e) (ne_timestamp e).

(** The envelope on the wire. *)
Definition envelope_json (e : NegotiationEnvelope) : object :=
  [("body", VObj (ne_body e)); ("header", header_json (ne_header e)); ("id", VStr (ne_id e));
   ("messageType", VStr (ne_messageType e)); ("signature", VStr (ne_signature e)); ("specVersion", VStr (ne_specVersion e));
   ("timestamp", VStr (ne_timestamp e))].

(** ** Operations *)

(** [/^\d+\.\d+\.\d+$/] *)
Definition is_number_text (l : list ascii) : bool := match l with [] => false | _ => forallb is_digit l end.
Fixpoint split_dots (acc l : list ascii) : list (list ascii) :=
  match l with
  | [] => [acc]
  | c :: l' => if Ascii.eqb c "." then acc :: split_dots [] l' else split_dots (acc ++ [c]) l'
  end.
Definition version_format (s : string) : bool :=
  match split_dots [] (chars s) with [a; b; c] => is_number_text a && is_number_text b && is_number_text c | _ => false end.

(** A member that is a non-empty string. *)
Definition text_member (k : string) (o : object) : option string :=
  match map_get k o with Some (VStr s) => if non_empty s then Some s else None | _ => None end.
(** [!obj[k] || typeof obj[k] !== 'object']: arrays pass. *)
Definition is_object_member (k : string) (o : object) : option object :=
  match map_get k o with Some (VObj x) => Some x | Some (VArr _) => Some [] | _ => None end.

Definition demand {A} (o : option A) (code : string) : res A := match o with Some a => Ok a | None => Throw code end.

Definition parseEnvelope (raw : value) : res value :=
  obj ← demand (match raw with VObj o => Some o | VArr _ => Some [] | _ => None end) "INVALID_MESSAGE";
  _ ← demand (text_member "id" obj) "INVALID_MESSAGE";
  specVersion ← demand (text_member "specVersion" obj) "INVALID_MESSAGE";
  _ ← check (version_format specVersion) "SPEC_VERSION_MISMATCH";
  header ← demand (is_object_member "header" obj) "INVALID_MESSAGE";
  sender ← demand (text_member "senderDid" header) "INVALID_MESSAGE";
  _ ← check (isDidAgent sender || isDidKey sender) "INVALID_MESSAGE";
  recipient ← demand (text_member "recipientDid" header) "INVALID_MESSAGE";
  _ ← check (isDidAgent recipient || isDidKey recipient) "INVALID_MESSAGE";
  _ ← check (match map_get "messageType" obj with Some (VStr t) => bool_decide (t ∈ MESSAGE_TYPES) | _ => false end) "INVALID_MESSAGE";
  _ ← demand (is_object_member "body" obj) "INVALID_MESSAGE";
  _ ← demand (text_member "signature" obj) "INVALID_MESSAGE";
  _ ← demand (text_member "timestamp" obj) "INVALID_MESSAGE";
  _ ← check (negb (bool_decide (is_Some (prop "capabilityTokenRef" header))) || String.eqb specVersion SPEC_VERSION_0_2_0)
        "SPEC_VERSION_MISMATCH";
  mret raw.

Section envelopes.
Context `{Primitives}.

(** The version and the encoding of the signature. *)
Definition effectiveSpecVersion (ps : BuildEnvelopeParams) : string :=
  default (match be_capabilityTokenRef ps with Some _ => SPEC_VERSION_0_2_0 | None => SPEC_VERSION_0_1_0 end) (be_specVersion ps).
Definition effectiveEncoding (ps : BuildEnvelopeParams) : encoding :=
  let v := effectiveSpecVersion ps in
  default (if String.eqb v SPEC_VERSION_0_3_0 || String.eqb v SPEC_VERSION_0_2_0 then ENVELOPE_ENCODING else enc_hex)
    (be_signatureEncoding ps).

(** [uuid] and [now] are the random id and the clock. *)
Definition buildEnvelope (ps : BuildEnvelopeParams) (uuid : string) (now : Z) : res NegotiationEnvelope :=
  let timestamp := toISOString now in
  let header := mkHeader (be_senderDid ps) (be_recipientDid ps) (be_sessionId ps) (be_sequenceNumber ps) (be_capabilityTokenRef ps) in
  let version := effectiveSpecVersion ps in
  let signature :=
    canonical ← canonicalize jcs (envelope_payload uuid version header (be_messageType ps) (be_body ps) timestamp);
    sign (textEncode canonical) (be_senderPrivateKey ps) (effectiveEncoding ps) in
  match signature with
  | Throw _ => Throw "INTERNAL_ERROR"
  | Ok s => Ok (mkEnvelope uuid version header (be_messageType ps) (be_body ps) s timestamp)
  end.

(** The port [resolvePublicKey], and the answer of a verification: [None] when
    it is valid, or the reason. *)
Definition KeyPort : Type := string → res (option string).

Definition verifyEnvelope (e : NegotiationEnvelope) (resolvePublicKey : KeyPort) (clockSkewMs now : Z) : res (option string) :=
  if negb (non_empty (ne_specVersion e)) then Ok (Some "specVersion missing")
  else if negb (bool_decide (ne_specVersion e ∈ SUPPORTED_SPEC_VERSIONS)) then Ok (Some "specVersion incompatible")
  else if match iso_getTime (ne_timestamp e) with Some t => clockSkewMs <? Z.abs (t - now) | None => true end
  then Ok (Some "clock skew")
  else
    key ← resolvePublicKey (eh_senderDid (ne_header e));
    match key with
    | None => Ok (Some "public key")
    | Some publicKey =>
        if negb (non_empty publicKey) then Ok (Some "public key")
        else match (canonical ← canonicalize jcs (payload_of e); verify (textEncode canonical) (ne_signature e) publicKey) with
             | Ok true => Ok None
             | Ok false => Ok (Some "signature")
             | Throw _ => Ok (Some "signature error")
             end
    end.

(** ** Error envelopes *)

Inductive StandardErrorCode : Type :=
| AUTHORIZATION_INSUFFICIENT | IDENTITY_VERIFICATION_FAILED | SESSION_NOT_FOUND | INVALID_ENVELOPE | INTERNAL_ERROR.

Definition code_name (c : StandardErrorCode) : string :=
  match c with
  | AUTHORIZATION_INSUFFICIENT => "AUTHORIZATION_INSUFFICIENT"
  | IDENTITY_VERIFICATION_FAILED => "IDENTITY_VERIFICATION_FAILED"
  | SESSION_NOT_FOUND => "SESSION_NOT_FOUND"
  | INVALID_ENVELOPE => "INVALID_ENVELOPE"
  | INTERNAL_ERROR => "INTERNAL_ERROR"
  end.
Definition defaultMessages (c : StandardErrorCode) : string :=
  match c with
  | AUTHORIZATION_INSUFFICIENT => "Authorization insufficient for the requested action."
  | IDENTITY_VERIFICATION_FAILED => "Identity verification failed."
  | SESSION_NOT_FOUND => "The requested session was not found."
  | INVALID_ENVELOPE => "The received envelope is invalid."
  | INTERNAL_ERROR => "Internal server error."
  end.

Definition error_body (code : StandardErrorCode) (message relatedEnvelopeId : option string) : object :=
  [("code", VStr (code_name code)); ("message", VStr (default (defaultMessages code) message))]
  ++ member "relatedEnvelopeId" (match relatedEnvelopeId with Some s => if non_empty s then Some (VStr s) else None | None => None end).

Definition buildErrorEnvelope (senderDid senderPrivateKey recipientDid : string) (sessionId : option string)
    (code : StandardErrorCode) (message relatedEnvelopeId : option string) (sequenceNumber : option num) (uuid : string) (now : Z)
    : res NegotiationEnvelope :=
  buildEnvelope (mkBuildParams senderDid senderPrivateKey recipientDid sessionId "ERROR" (error_body code message relatedEnvelopeId)
                   sequenceNumber None None None) uuid now.

Definition buildAuthorizationInsufficientEnvelope (senderDid senderPrivateKey recipientDid : string) (sessionId : option string) :=
  buildErrorEnvelope senderDid senderPrivateKey recipientDid sessionId AUTHORIZATION_INSUFFICIENT.
Definition buildIdentityVerificationFailedEnvelope (senderDid senderPrivateKey recipientDid : string) (sessionId : option string) :=
  buildErrorEnvelope senderDid senderPrivateKey recipientDid sessionId IDENTITY_VERIFICATION_FAILED.
Definition buildSessionNotFoundEnvelope (senderDid senderPrivateKey recipientDid : string) (sessionId : option string) :=
  buildErrorEnvelope senderDid senderPrivateKey recipientDid sessionId SESSION_NOT_FOUND.
Definition buildInvalidEnvelopeEnvelope (senderDid senderPrivateKey recipientDid : string) (sessionId : option string) :=
  buildErrorEnvelope senderDid senderPrivateKey recipientDid sessionId INVALID_ENVELOPE.
Definition buildInternalErrorEnvelope (senderDid senderPrivateKey recipientDid : string) (sessionId : option string) :=
  buildErrorEnvelope senderDid senderPrivateKey recipientDid sessionId INTERNAL_ERROR.

End envelopes.

(** ** Lemmas *)

Definition finite_opt (o : option num) : bool := match o with Some n => is_finite n | None => true end.

Lemma header_json_ok h : finite_opt (eh_sequenceNumber h) = true → assertSerializable (header_json h) = true ∧ canonical_value (header_json h) = true.
Proof.
  destruct h as [s r sid [n|] [c|]]; cbn; intros Hn; rewrite ?Hn; by destruct sid.
Qed.

Lemma header_json_inj h1 h2 : header_json h1 = header_json h2 → h1 = h2.
Proof.
  destruct h1 as [s1 r1 sid1 n1 c1], h2 as [s2 r2 sid2 n2 c2]. unfold header_json. cbn.
  assert (∀ a b, null_or_str a = null_or_str b → a = b) as Hi by (by intros [] []; intros [=]; subst).
  destruct c1, c2, n1, n2; cbn; intros [= ]; subst; try done; repeat f_equal; by apply Hi.
Qed.

Lemma payload_ok e :
  finite_opt (eh_sequenceNumber (ne_header e)) = true → assertSerializable (VObj (ne_body e)) = true → assertSerializable (payload_of e) = true.
Proof.
  intros Hn Hb. unfold payload_of, envelope_payload. cbn [assertSerializable forallb snd]. cbn [assertSerializable] in Hb.
  by rewrite Hb, (proj1 (header_json_ok _ Hn)).
Qed.
Lemma payload_canonical e :
  finite_opt (eh_sequenceNumber (ne_header e)) = true → canonical_value (VObj (ne_body e)) = true → canonical_value (payload_of e) = true.
Proof.
  intros Hn Hb. unfold payload_of, envelope_payload. cbn [canonical_value forallb snd fst fmap list_fmap keys_sorted]. cbn [canonical_value] in Hb.
  by rewrite Hb, (proj2 (header_json_ok _ Hn)).
Qed.

(** The signed text determines everything in the envelope but its signature. *)
Lemma payload_inj e1 e2 : payload_of e1 = payload_of e2 →
  ne_id e1 = ne_id e2 ∧ ne_specVersion e1 = ne_specVersion e2 ∧ ne_header e1 = ne_header e2 ∧ ne_messageType e1 = ne_messageType e2
  ∧ ne_body e1 = ne_body e2 ∧ ne_timestamp e1 = ne_timestamp e2.
Proof. unfold payload_of, envelope_payload. intros [= ? Hh ? ? ? ?]. apply (f_equal VObj), header_json_inj in Hh. done. Qed.

Section laws.
Context `{PrimitiveLaws}.

(** The keys of the header of an envelope. *)
Lemma header_members h :
  match header_json h with VObj o =>
    map_get "senderDid" o = Some (VStr (eh_senderDid h)) ∧ map_get "recipientDid" o = Some (VStr (eh_recipientDid h))
    ∧ (is_Some (prop "capabilityTokenRef" o) ↔ is_Some (eh_capabilityTokenRef h))
  | _ => False end.
Proof.
  destruct h as [s r sid [n|] [c|]]; cbn; (split_and!; [done..|]); (split; [|]); intros Hs; try done; by eapply mk_is_Some || (by destruct Hs).
Qed.

(** When [parseEnvelope] accepts an envelope. *)
Lemma parse_envelope_ok e :
  non_empty (ne_id e) = true → version_format (ne_specVersion e) = true →
  isDidAgent (eh_senderDid (ne_header e)) || isDidKey (eh_senderDid (ne_header e)) = true →
  isDidAgent (eh_recipientDid (ne_header e)) || isDidKey (eh_recipientDid (ne_header e)) = true →
  ne_messageType e ∈ MESSAGE_TYPES → non_empty (ne_signature e) = true → non_empty (ne_timestamp e) = true →
  (is_Some (eh_capabilityTokenRef (ne_header e)) → ne_specVersion e = SPEC_VERSION_0_2_0) →
  parseEnvelope (VObj (envelope_json e)) = Ok (VObj (envelope_json e)).
Proof.
  intros Hid Hv Hs Hr Ht Hsig Hts Hgate. pose proof (header_members (ne_header e)) as Hh.
  assert (∀ f : string → bool, f "" = false → ∀ x, f x = true → non_empty x = true) as Hne.
  { intros f Hf0 x Hx. unfold non_empty. destruct (String.eqb_spec x ""); [congruence|done]. }
  pose proof (Hne version_format eq_refl _ Hv) as Hv0.
  pose proof (Hne (λ x, isDidAgent x || isDidKey x) eq_refl _ Hs) as Hs0. pose proof (Hne (λ x, isDidAgent x || isDidKey x) eq_refl _ Hr) as Hr0.
  unfold header_json in Hh. set (ho := _ ++ _) in Hh. destruct Hh as (H1 & H2 & H3).
  assert (header_json (ne_header e) = VObj ho) as Eh by done. clearbody ho.
  unfold parseEnvelope, text_member, is_object_member, envelope_json. rewrite Eh. cbn [demand mbind res_bind map_get String.eqb Ascii.eqb Bool.eqb].
  rewrite Hid, Hv0. cbn [demand mbind res_bind]. rewrite Hv. cbn [check mbind res_bind mret res_ret].
  rewrite H1, Hs0. cbn [demand mbind res_bind]. rewrite Hs. cbn [check mbind res_bind mret res_ret]. rewrite H2, Hr0. cbn [demand mbind res_bind]. rewrite Hr.
  cbn [check mbind res_bind mret res_ret]. rewrite (bool_decide_eq_true_2 _ Ht). cbn [check mbind res_bind mret res_ret].
  rewrite Hsig, Hts. cbn [demand mbind res_bind check mret res_ret].
  destruct (decide (is_Some (eh_capabilityTokenRef (ne_header e)))) as [Ht'|Ht'].
  - rewrite (Hgate Ht'), String.eqb_refl, orb_true_r. done.
  - rewrite bool_decide_false by (by rewrite H3). done.
Qed.

(** What a verified envelope guarantees: a supported version, a fresh timestamp,
    and a signature over all its members by the key the sender's DID resolves to. *)
Theorem verified_envelope_signed e port skew now :
  verifyEnvelope e port skew now = Ok None ↔
  ne_specVersion e ∈ SUPPORTED_SPEC_VERSIONS
  ∧ (∃ t, iso_getTime (ne_timestamp e) = Some t ∧ Z.abs (t - now) <= skew)
  ∧ ∃ key, port (eh_senderDid (ne_header e)) = Ok (Some key) ∧ key ≠ ""
      ∧ assertSerializable (payload_of e) = true ∧ verify (textEncode (jcs (payload_of e))) (ne_signature e) key = Ok true.
Proof.
  unfold verifyEnvelope, non_empty. destruct (String.eqb_spec (ne_specVersion e) "") as [E|E]; cbn [negb].
  { split; [done|]. rewrite E. intros [Hin _]. unfold SUPPORTED_SPEC_VERSIONS in Hin. rewrite !elem_of_cons, elem_of_nil in Hin. naive_solver. }
  case_bool_decide as Hv; cbn [negb]; [|split; [done|naive_solver]].
  destruct (iso_getTime (ne_timestamp e)) as [t|]; [|split; [done|naive_solver]].
  destruct (Z.ltb_spec skew (Z.abs (t - now))); [split; [done|intros (_ & (t' & [= <-] & ?) & _); lia]|].
  rewrite res_bind_ok. split.
  - intros ([key|] & Hk & Hd); [|done]. split; [done|]. split; [by exists t|]. exists key. split; [done|].
    destruct (String.eqb_spec key ""); [done|]. cbn [negb] in Hd. split; [done|]. unfold canonicalize in Hd.
    destruct (assertSerializable (payload_of e)); [|done]. cbn [mbind res_bind] in Hd. split; [done|].
    by destruct (verify _ _ _) as [[]|].
  - intros (_ & _ & key & Hk & Hne & Hs & Hsig). exists (Some key). split; [done|]. destruct (String.eqb_spec key ""); [done|]. cbn [negb].
    unfold canonicalize. rewrite Hs. cbn [mbind res_bind]. by rewrite Hsig.
Qed.

(** Parameters with which an envelope is well formed. *)
Record good_params (ps : BuildEnvelopeParams) : Prop := mkGoodParams {
  gp_version : effectiveSpecVersion ps ∈ SUPPORTED_SPEC_VERSIONS;
  gp_gate : is_Some (be_capabilityTokenRef ps) → effectiveSpecVersion ps = SPEC_VERSION_0_2_0;
  gp_sender : isDidAgent (be_senderDid ps) || isDidKey (be_senderDid ps) = true;
  gp_recipient : isDidAgent (be_recipientDid ps) || isDidKey (be_recipientDid ps) = true;
  gp_type : be_messageType ps ∈ MESSAGE_TYPES }.

Lemma build_envelope_inv ps uuid now e :
  buildEnvelope ps uuid now = Ok e →
  e = mkEnvelope uuid (effectiveSpecVersion ps) (mkHeader (be_senderDid ps) (be_recipientDid ps) (be_sessionId ps) (be_sequenceNumber ps)
        (be_capabilityTokenRef ps)) (be_messageType ps) (be_body ps) (ne_signature e) (toISOString now)
  ∧ assertSerializable (payload_of e) = true
  ∧ sign (textEncode (jcs (payload_of e))) (be_senderPrivateKey ps) (effectiveEncoding ps) = Ok (ne_signature e).
Proof.
  unfold buildEnvelope, canonicalize. destruct (assertSerializable _) eqn:Es; [|done]. cbn [mbind res_bind].
  destruct (sign _ _ _) as [sig|] eqn:Esig; [|done]. intros [= <-]. done.
Qed.

Lemma toISOString_non_empty t : non_empty (toISOString t) = true.
Proof. done. Qed.

Lemma supported_format v : v ∈ SUPPORTED_SPEC_VERSIONS → version_format v = true.
Proof. unfold SUPPORTED_SPEC_VERSIONS. rewrite !elem_of_cons, elem_of_nil. by intros [->|[->|[->|[]]]]. Qed.

Lemma sign_non_empty m key enc sig : sign m key enc = Ok sig → non_empty sig = true.
Proof.
  unfold sign. intros (k & _ & [= <-])%res_bind_ok. destruct (ed25519_sign_bytes m (take 32 k)) as [_ Hl]. unfold non_empty.
  set (sg := ed25519_sign m (take 32 k)) in *. apply negb_true_iff, String.eqb_neq. intros E. apply (f_equal String.length) in E.
  destruct enc; unfold toHex, toBase64Url in E; rewrite str_length in E; [rewrite hex_length, Hl in E|rewrite b64_length, Hl in E]; done.
Qed.

(** An envelope that was built is parsed and verified by whoever resolves the
    sender's DID to the sender's key, while its timestamp is within the skew. *)
Theorem envelope_roundtrip ps uuid now e seed skey port skew now' :
  Forall is_byte seed → length seed = 32%nat →
  be_senderPrivateKey ps = match skey with enc_hex => toHex seed | enc_base64url => toBase64Url seed end →
  good_params ps → non_empty uuid = true → buildEnvelope ps uuid now = Ok e →
  (effectiveEncoding ps = enc_base64url → detectEncoding (ne_signature e) = enc_base64url) →
  port (be_senderDid ps) = Ok (Some (toHex (ed25519_pub seed))) → iso_range now → Z.abs (now - now') <= skew →
  parseEnvelope (VObj (envelope_json e)) = Ok (VObj (envelope_json e)) ∧ verifyEnvelope e port skew now' = Ok None.
Proof.
  intros Hb Hl Hk [Hver Hgate Hsd Hrd Hmt] Hu He Hdet Hport Hr Hskew.
  apply build_envelope_inv in He as (E & Hser & Hsig). split.
  - apply parse_envelope_ok; rewrite E; cbn; try done; [by apply supported_format|by eapply sign_non_empty].
  - apply verified_envelope_signed. split; [by rewrite E|]. split; [exists now; split; [rewrite E; by apply iso_print_parse|done]|].
    exists (toHex (ed25519_pub seed)). split; [by rewrite E|]. split.
    { intros E0. apply (f_equal String.length) in E0. unfold toHex in E0. rewrite str_length, hex_length in E0.
      destruct (ed25519_pub_bytes seed) as [_ Hpl]. rewrite Hpl in E0. done. }
    split; [done|]. by apply (sign_verify_encodings _ seed skey enc_hex (effectiveEncoding ps) (be_senderPrivateKey ps) (ne_signature e)).
Qed.

(** The signature is over everything but itself: two envelopes with the same
    signed text differ at most in their signatures. *)
Theorem envelope_text_determines e1 e2 :
  finite_opt (eh_sequenceNumber (ne_header e1)) = true → canonical_value (VObj (ne_body e1)) = true →
  finite_opt (eh_sequenceNumber (ne_header e2)) = true → canonical_value (VObj (ne_body e2)) = true →
  jcs (payload_of e1) = jcs (payload_of e2) → ne_signature e1 = ne_signature e2 → e1 = e2.
Proof.
  intros Hn1 Hb1 Hn2 Hb2 E%jcs_inj Hs; [|by apply payload_canonical..]. apply payload_inj in E as (? & ? & ? & ? & ? & ?).
  destruct e1, e2; cbn in *; by subst.
Qed.
End laws.
