(* ===== verification/Handshake.v ===== *)
(** * The handshake

    Models packages/communication/src/handshake: the initiator and the responder
    with the negotiation of encryption, over the envelopes of Envelope.v, the key
    agreement of Encryption.v and the session store of Sessions.v, with the
    schemas of the two bodies (packages/types/src/schemas.ts).  Bodies travel as
    JSON.  Randomness and clock readings are arguments; the ports
    [resolvePublicKey], [verifyInitiator] and the authorization validator are
    functions, and the nonce store is the one in memory.  The map of pending
    challenges of the initiator holds the challenge of a call only while the call
    runs, so it is not part of the state. *)
From S2P Require Import Prelude JsValue Time Encoding Crypto Authorization SignedPayload Encryption Envelope.
From S2P Require Sessions SecureChannel.
Open Scope Z_scope.

(** ** Data *)

Inductive EncryptionPreference : Type := OFF | OPT_IN | REQUIRED.
#[export] Instance EncryptionPreference_eq_dec : EqDecision EncryptionPreference.
Proof. solve_decision. Defined.
Definition pref_name (p : EncryptionPreference) : string :=
  match p with OFF => "OFF" | OPT_IN => "OPT_IN" | REQUIRED => "REQUIRED" end.
Definition pref_of (s : string) : EncryptionPreference :=
  if String.eqb s "REQUIRED" then REQUIRED else if String.eqb s "OPT_IN" then OPT_IN else OFF.

Record HandshakeChallengeEncryption : Type := mkOffer {
  of_preference : EncryptionPreference;
  of_publicKey : string }.

Record HandshakeChallenge : Type := mkChallenge {
  hc_challengeId : string;
  hc_initiatorDid : string;
  hc_responderDid : string;
  hc_nonce : string;
  hc_timestamp : string;
  hc_expiresAt : string;
  hc_initiatorCapabilities : list string;
  hc_principalDid : option string;
  hc_capabilityTokenId : option string;
  hc_resumeSessionId : option string;
  hc_encryption : option HandshakeChallengeEncryption }.

Record HandshakeResponseEncryption : Type := mkAnswer {
  an_negotiatedMode : EncryptionPreference;
  an_responderPreference : EncryptionPreference;
  an_publicKey : option string;
  an_confirmation : string;
  an_fingerprint : option string }.

Record HandshakeResponse : Type := mkResponse {
  hr_challengeId : string;
  hr_sessionId : string;
  hr_responderDid : string;
  hr_responderCapabilities : list string;
  hr_nonce : string;
  hr_timestamp : string;
  hr_encryption : option HandshakeResponseEncryption }.

Record HandshakeAckBody : Type := mkAck {
  ack_response : HandshakeResponse;
  ack_accepted : bool;
  ack_reason : option string }.

(** What the two ends know after an encrypted handshake. *)
Record HandshakeKeys : Type := mkKeys {
  hk_initiatorPublicKey : string;
  hk_responderPublicKey : string;
  hk_transcriptHash : bytes }.

Record HandshakeResult : Type := mkResult {
  hs_sessionId : string;
  hs_negotiatedCapabilities : list string;
  hs_encryption : option (EncryptionPreference * option HandshakeKeys) }.

(** ** Bodies as JSON *)

Definition offer_json (o : HandshakeChallengeEncryption) : value :=
  VObj [("encryptionProtocolVersion", VStr "ap/e2e/v1"); ("initiatorEphemeralPublicKey", VStr (of_publicKey o));
        ("preference", VStr (pref_name (of_preference o)))].

Definition challenge_json (c : HandshakeChallenge) : object :=
  member "capabilityTokenId" (VStr <$> hc_capabilityTokenId c) ++ [("challengeId", VStr (hc_challengeId c))]
  ++ member "encryption" (offer_json <$> hc_encryption c)
  ++ [("expiresAt", VStr (hc_expiresAt c)); ("initiatorCapabilities", str_array (hc_initiatorCapabilities c));
      ("initiatorDid", VStr (hc_initiatorDid c)); ("nonce", VStr (hc_nonce c))]
  ++ member "principalDid" (VStr <$> hc_principalDid c) ++ [("responderDid", VStr (hc_responderDid c))]
  ++ member "resumeSessionId" (VStr <$> hc_resumeSessionId c) ++ [("timestamp", VStr (hc_timestamp c))].

Definition answer_json (a : HandshakeResponseEncryption) : value :=
  VObj (member "authorizedTokenFingerprint" (VStr <$> an_fingerprint a) ++ [("encryptionProtocolVersion", VStr "ap/e2e/v1");
        ("negotiatedMode", VStr (pref_name (an_negotiatedMode a)))]
        ++ member "responderEphemeralPublicKey" (VStr <$> an_publicKey a)
        ++ [("responderPreference", VStr (pref_name (an_responderPreference a)));
            ("transcriptHashConfirmation", VStr (an_confirmation a))]).

Definition response_json (r : HandshakeResponse) : object :=
  [("challengeId", VStr (hr_challengeId r))] ++ member "encryption" (answer_json <$> hr_encryption r)
  ++ [("nonce", VStr (hr_nonce r)); ("responderCapabilities", str_array (hr_responderCapabilities r));
      ("responderDid", VStr (hr_responderDid r)); ("sessionId", VStr (hr_sessionId r)); ("timestamp", VStr (hr_timestamp r))].

Definition ack_json (a : HandshakeAckBody) : object :=
  [("accepted", VBool (ack_accepted a))] ++ member "reason" (VStr <$> ack_reason a) ++ [("response", VObj (response_json (ack_response a)))].

(** Reading a member that the schema has checked. *)
Definition get_str (k : string) (o : object) : string := match map_get k o with Some (VStr s) => s | _ => "" end.
Definition opt_get (k : string) (o : object) : option string := match map_get k o with Some (VStr s) => Some s | _ => None end.
Definition strings_of (v : option value) : list string :=
  match v with Some (VArr l) => (λ x, match x with VStr s => s | _ => "" end) <$> l | _ => [] end.

Definition read_offer (v : value) : HandshakeChallengeEncryption :=
  match v with
  | VObj o => mkOffer (pref_of (get_str "preference" o)) (get_str "initiatorEphemeralPublicKey" o)
  | _ => mkOffer OFF ""
  end.
Definition read_challenge (o : object) : HandshakeChallenge :=
  mkChallenge (get_str "challengeId" o) (get_str "initiatorDid" o) (get_str "responderDid" o) (get_str "nonce" o)
    (get_str "timestamp" o) (get_str "expiresAt" o) (strings_of (map_get "initiatorCapabilities" o)) (opt_get "principalDid" o)
    (opt_get "capabilityTokenId" o) (opt_get "resumeSessionId" o) (read_offer <$> prop "encryption" o).

Definition read_answer (v : value) : HandshakeResponseEncryption :=
  match v with
  | VObj o => mkAnswer (pref_of (get_str "negotiatedMode" o)) (pref_of (get_str "responderPreference" o))
                (opt_get "responderEphemeralPublicKey" o) (get_str "transcriptHashConfirmation" o)
                (opt_get "authorizedTokenFingerprint" o)
  | _ => mkAnswer OFF OFF None "" None
  end.
Definition read_response (o : object) : HandshakeResponse :=
  mkResponse (get_str "challengeId" o) (get_str "sessionId" o) (get_str "responderDid" o)
    (strings_of (map_get "responderCapabilities" o)) (get_str "nonce" o) (get_str "timestamp" o) (read_answer <$> prop "encryption" o).
Definition read_ack (o : object) : HandshakeAckBody :=
  mkAck (match map_get "response" o with Some (VObj r) => read_response r | _ => read_response [] end)
    (match map_get "accepted" o with Some (VBool b) => b | _ => false end) (opt_get "reason" o).

(** ** Schemas *)

Definition HANDSHAKE_CAPABILITY_VOCABULARY : list string := ["INQUIRY"; "QUOTE"; "CONFIRM"; "PUBLISH"; "RECORD"].

Definition uuid_any (s : string) : bool := matches_template (chars "xxxxxxxx-xxxx-Vxxx-Rxxx-xxxxxxxxxxxx") (chars s).
(** [hex64Pattern] or [base64url43Pattern] *)
Definition hash_schema (s : string) : bool := hex64 s || (Nat.eqb (String.length s) 43 && forallb is_b64 (chars s)).
Definition one_of (l : list string) (s : string) : bool := bool_decide (s ∈ l).
Definition capability_names : value → bool := array_of (string_where (one_of HANDSHAKE_CAPABILITY_VOCABULARY)).

Definition offer_schema : value → bool := object_where (λ o,
  required ["preference"; "initiatorEphemeralPublicKey"; "encryptionProtocolVersion"] o
  && only ["preference"; "initiatorEphemeralPublicKey"; "encryptionProtocolVersion"] o
  && property "preference" (string_where (one_of ["OPT_IN"; "REQUIRED"])) o
  && property "initiatorEphemeralPublicKey" (string_where non_empty) o
  && property "encryptionProtocolVersion" (string_where (String.eqb "ap/e2e/v1")) o).

Definition challenge_required : list string :=
  ["challengeId"; "initiatorDid"; "responderDid"; "nonce"; "timestamp"; "expiresAt"; "initiatorCapabilities"].
Definition handshakeChallenge_schema : value → bool := object_where (λ o,
  required challenge_required o
  && only (challenge_required ++ ["principalDid"; "resumeSessionId"; "capabilityTokenId"; "encryption"]) o
  && property "challengeId" (string_where uuid_any) o && property "initiatorDid" (string_where isDidAgent) o
  && property "responderDid" (string_where isDidAgent) o && property "principalDid" (string_where didKeyPattern) o
  && property "nonce" (string_where hash_schema) o && property "timestamp" (string_where timestampPattern) o
  && property "expiresAt" (string_where timestampPattern) o && property "initiatorCapabilities" capability_names o
  && property "resumeSessionId" (string_where non_empty) o
  && property "capabilityTokenId" (string_where capabilityTokenIdPattern) o && property "encryption" offer_schema o).

Definition answer_required : list string :=
  ["negotiatedMode"; "responderPreference"; "encryptionProtocolVersion"; "transcriptHashConfirmation"].
Definition answer_schema : value → bool := object_where (λ o,
  required answer_required o && only (answer_required ++ ["responderEphemeralPublicKey"; "authorizedTokenFingerprint"]) o
  && property "negotiatedMode" (string_where (one_of ["OFF"; "REQUIRED"])) o
  && property "responderPreference" (string_where (one_of ["OFF"; "OPT_IN"; "REQUIRED"])) o
  && property "responderEphemeralPublicKey" (string_where non_empty) o
  && property "encryptionProtocolVersion" (string_where (String.eqb "ap/e2e/v1")) o
  && property "transcriptHashConfirmation" (string_where (λ _, true)) o
  && property "authorizedTokenFingerprint" (string_where non_empty) o).

Definition response_required : list string :=
  ["challengeId"; "sessionId"; "responderDid"; "responderCapabilities"; "nonce"; "timestamp"].
Definition handshakeResponse_schema : value → bool := object_where (λ o,
  required response_required o && only (response_required ++ ["capabilityTokenId"; "encryption"]) o
  && property "challengeId" (string_where uuid_any) o && property "sessionId" (string_where (λ _, true)) o
  && property "responderDid" (string_where isDidAgent) o && property "responderCapabilities" capability_names o
  && property "nonce" (string_where hash_schema) o && property "timestamp" (string_where timestampPattern) o
  && property "capabilityTokenId" (string_where capabilityTokenIdPattern) o && property "encryption" answer_schema o).

(** The last conjunct is the if/then: an accepted answer names a session. *)
Definition handshakeAckBody_schema : value → bool := object_where (λ o,
  required ["accepted"; "response"] o && only ["accepted"; "response"; "reason"] o
  && property "accepted" (λ v, match v with VBool _ => true | _ => false end) o
  && property "response" handshakeResponse_schema o && property "reason" (string_where (λ _, true)) o
  && match map_get "accepted" o, map_get "response" o with
     | Some (VBool true), Some (VObj r) => non_empty (get_str "sessionId" r)
     | _, _ => true
     end).

(** ** The responder *)

Definition DEFAULT_SKEW : Z := 300000.

Record HavResult : Type := mkHav {
  hav_accepted : bool;
  hav_principalDid : string;
  hav_capabilityTokenId : option string;
  hav_fingerprint : option string }.

Record HandshakeResponder : Type := mkResponder {
  hp_responderDid : string;
  hp_privateKey : string;
  hp_verifyInitiator : string → res bool;
  hp_resolvePublicKey : KeyPort;
  hp_capabilities : list string;
  hp_hasStore : bool;
  (** initiator, principal, token *)
  hp_validator : option (string → string → option string → res HavResult);
  hp_preference : EncryptionPreference }.

(** Nonces that were claimed, sessions, and the last result. *)
Record ResponderState : Type := mkResponderState {
  rs_nonces : list string;
  rs_sessions : Sessions.SessionMap;
  rs_last : option HandshakeResult }.

(** Clock readings and randomness of one call. *)
Record ResponderInput : Type := mkResponderInput {
  in_verifyNow : Z;
  in_now : Z;
  in_responseNow : Z;
  in_createNow : Z;
  in_ackNow : Z;
  in_sessionId : string;
  in_secretKey : bytes;
  in_uuid : string }.

(** The compatibility matrix. *)
Definition negotiate (pi pr : EncryptionPreference) : option EncryptionPreference :=
  match pi, pr with
  | OFF, REQUIRED | REQUIRED, OFF => None
  | REQUIRED, _ | _, REQUIRED => Some REQUIRED
  | _, _ => Some OFF
  end.

Definition negotiated (theirs : list string) (own : list string) : list string := filter (λ c, c ∈ own) theirs.

(** An unreadable time compares as false. *)
Definition challenge_expired (c : HandshakeChallenge) (now : Z) : bool :=
  match iso_getTime (hc_expiresAt c) with Some t => t <=? now | None => false end.

Section handshake.
Context `{Primitives} `{E2EPrimitives}.

Definition buildAck (h : HandshakeResponder) (recipient : string) (c : HandshakeChallenge) (reason : string) (i : ResponderInput)
    : res NegotiationEnvelope :=
  let response := mkResponse (hc_challengeId c) "" (hp_responderDid h) [] (hc_nonce c) (toISOString (in_responseNow i)) None in
  buildEnvelope (mkBuildParams (hp_responderDid h) (hp_privateKey h) recipient None "HANDSHAKE_ACK"
                   (ack_json (mkAck response false (if non_empty reason then Some reason else None))) None None None None)
    (in_uuid i) (in_ackNow i).

(** The validated principal, token and fingerprint, or the reason of a refusal. *)
Definition run_validator (h : HandshakeResponder) (c : HandshakeChallenge) : res ((string * option string * option string) + string) :=
  let principal := default (hc_initiatorDid c) (hc_principalDid c) in
  match hp_validator h with
  | None => mret (inl (principal, hc_capabilityTokenId c, None))
  | Some validate =>
      r ← validate (hc_initiatorDid c) principal (hc_capabilityTokenId c);
      mret (if negb (hav_accepted r) then inr "Authorization validation failed"
            else if bool_decide (hav_principalDid r = principal) && bool_decide (hav_capabilityTokenId r = hc_capabilityTokenId c)
            then inl (hav_principalDid r, hav_capabilityTokenId r, hav_fingerprint r)
            else inr "Authorization fields inconsistent with the challenge")
  end.

Definition truthy_str (o : option string) : option string := match o with Some s => if non_empty s then Some s else None | None => None end.

(** The transcript as the responder sees it. *)
Definition responder_transcript (h : HandshakeResponder) (c : HandshakeChallenge) (principal : string) (token fingerprint : option string)
    (caps : list string) (offer : HandshakeChallengeEncryption) (R_epk : string) (responseTimestamp : string) : TranscriptHashInput :=
  mkTranscript (hc_initiatorDid c) (hp_responderDid h) (hc_initiatorCapabilities c) caps (pref_name (of_preference offer))
    (pref_name (hp_preference h)) "REQUIRED" (of_publicKey offer) R_epk (hc_nonce c) (hc_timestamp c) responseTimestamp principal token
    (default "" fingerprint).

(** The keys of an encrypted session; [deriveSessionKeys] is called but its result
    is dropped. *)
Definition responder_keys (h : HandshakeResponder) (c : HandshakeChallenge) (principal : string) (token fingerprint : option string)
    (caps : list string) (offer : HandshakeChallengeEncryption) (i : ResponderInput) : res HandshakeKeys :=
  let R_epk := toHex (x25519_pub (in_secretKey i)) in
  peer ← fromHex (of_publicKey offer);
  _ ← check (negb (forallb (λ b, b =? 0) peer)) "INVALID_ENCRYPTION_OFFER";
  _ ← computeX25519SharedSecret (in_secretKey i) peer;
  transcriptHash ← computeTranscriptHash (responder_transcript h c principal token fingerprint caps offer R_epk (toISOString (in_responseNow i)));
  mret (mkKeys (of_publicKey offer) R_epk transcriptHash).

Definition answer_for (h : HandshakeResponder) (pi : EncryptionPreference) (keys : option HandshakeKeys) (fingerprint : option string)
    : option HandshakeResponseEncryption :=
  match keys with
  | Some k => Some (mkAnswer REQUIRED (hp_preference h) (Some (hk_responderPublicKey k)) (toHex (take 16 (hk_transcriptHash k)))
                      (truthy_str fingerprint))
  | None => if decide (pi = OFF) then None else Some (mkAnswer OFF (hp_preference h) None "" None)
  end.

(** From the nonce on: validation, negotiation, the session and the answer. *)
Definition accept_challenge (h : HandshakeResponder) (c : HandshakeChallenge) (i : ResponderInput) : M ResponderState NegotiationEnvelope := λ w,
  let caps := negotiated (hc_initiatorCapabilities c) (hp_capabilities h) in
  match run_validator h c with
  | Throw e => (Throw e, w)
  | Ok (inr reason) => (buildAck h (hc_initiatorDid c) c reason i, w)
  | Ok (inl (principal, token, fingerprint)) =>
      let pi := match hc_encryption c with Some o => of_preference o | None => OFF end in
      match negotiate pi (hp_preference h) with
      | None => (Throw "ENCRYPTION_REQUIRED", w)
      | Some mode =>
          if bool_decide (mode = REQUIRED) && (bool_decide (token = None) || bool_decide (truthy_str fingerprint = None))
          then (Throw "ENCRYPTION_REQUIRES_CAPABILITY_TOKEN", w)
          else
            match (if decide (mode = REQUIRED) then
                     match hc_encryption c with
                     | Some offer => k ← responder_keys h c principal token fingerprint caps offer i; mret (Some k)
                     | None => Throw "TypeError"
                     end
                   else mret None) with
            | Throw e => (Throw e, w)
            | Ok keys =>
                let input := Sessions.mkSessionCreate (in_sessionId i) (hc_initiatorDid c) (hp_responderDid h) principal token fingerprint
                               (Some caps) (Some (if decide (mode = REQUIRED) then Sessions.REQUIRED else Sessions.OFF)) None
                               (Some Sessions.ACTIVE) None in
                let '(created, sessions) :=
                  if hp_hasStore h then Sessions.store_create (in_createNow i) input (rs_sessions w)
                  else (Throw "", rs_sessions w) in
                if hp_hasStore h && match created with Ok _ => false | Throw _ => true end
                then (buildAck h (hc_initiatorDid c) c "Session persistence failed" i, mkResponderState (rs_nonces w) sessions (rs_last w))
                else
                  let result := mkResult (in_sessionId i) caps ((λ k, (REQUIRED, Some k)) <$> keys) in
                  let response := mkResponse (hc_challengeId c) (in_sessionId i) (hp_responderDid h) caps (hc_nonce c)
                                    (toISOString (in_responseNow i)) (answer_for h pi keys fingerprint) in
                  (buildEnvelope (mkBuildParams (hp_responderDid h) (hp_privateKey h) (hc_initiatorDid c) (Some (in_sessionId i))
                                    "HANDSHAKE_ACK" (ack_json (mkAck response true None)) None None None None) (in_uuid i) (in_ackNow i),
                   mkResponderState (rs_nonces w) sessions (Some result))
            end
      end
  end.

Definition respond (h : HandshakeResponder) (e : NegotiationEnvelope) (i : ResponderInput) : M ResponderState NegotiationEnvelope := λ w,
  if negb (String.eqb (ne_messageType e) "HANDSHAKE_INIT") then (Throw "INVALID_HANDSHAKE", w)
  else match parseEnvelope (VObj (envelope_json e)) with
  | Throw code => (Throw code, w)
  | Ok _ =>
      match map_get "challenge" (ne_body e) with
      | Some (VObj o) =>
          if negb (handshakeChallenge_schema (VObj o)) then (Throw "INVALID_HANDSHAKE", w)
          else
            let c := read_challenge o in
            match verifyEnvelope e (hp_resolvePublicKey h) DEFAULT_SKEW (in_verifyNow i) with
            | Throw code => (Throw code, w)
            | Ok (Some _) => (Throw "SIGNATURE_INVALID", w)
            | Ok None =>
                if negb (String.eqb (hc_initiatorDid c) (eh_senderDid (ne_header e))) then (Throw "INVALID_HANDSHAKE", w)
                else if negb (String.eqb (hc_responderDid c) (hp_responderDid h)) then (Throw "INVALID_HANDSHAKE", w)
                else if challenge_expired c (in_now i)
                then (buildAck h (hc_initiatorDid c) c "Challenge expired" i, w)
                else match hp_verifyInitiator h (hc_initiatorDid c) with
                     | Throw code => (Throw code, w)
                     | Ok false => (buildAck h (hc_initiatorDid c) c "Initiator not authorized" i, w)
                     | Ok true =>
                         if bool_decide (hc_nonce c ∈ rs_nonces w)
                         then (buildAck h (hc_initiatorDid c) c "Duplicate nonce (suspected replay attack)" i, w)
                         else accept_challenge h c i (mkResponderState (hc_nonce c :: rs_nonces w) (rs_sessions w) (rs_last w))
                     end
            end
      | _ => (Throw "INVALID_HANDSHAKE", w)
      end
  end.

(** ** The initiator *)

Record HandshakeInitiator : Type := mkInitiator {
  hi_initiatorDid : string;
  hi_privateKey : string;
  hi_resolvePublicKey : KeyPort;
  hi_challengeExpiryMs : Z;
  hi_capabilities : list string;
  hi_maxRetries : nat;
  hi_preference : EncryptionPreference }.

Record InitiateParams : Type := mkInitiate {
  pa_responderDid : string;
  pa_principalDid : option string;
  pa_capabilityTokenId : option string }.

Record InitiatorInput : Type := mkInitiatorInput {
  ii_nonce : string;
  ii_now : Z;
  ii_challengeId : string;
  ii_secretKey : bytes;
  ii_uuid : string;
  ii_envelopeNow : Z;
  ii_verifyNow : Z }.

(** What the transport or the timer delivers. *)
Inductive TransportOutcome : Type :=
| answered (e : option NegotiationEnvelope)
| protocol_error (code : string)
| other_error
| timed_out.

Definition make_challenge (n : HandshakeInitiator) (ps : InitiateParams) (i : InitiatorInput) : HandshakeChallenge :=
  mkChallenge (ii_challengeId i) (hi_initiatorDid n) (pa_responderDid ps) (ii_nonce i) (toISOString (ii_now i))
    (toISOString (ii_now i + hi_challengeExpiryMs n)) (hi_capabilities n) (pa_principalDid ps) (pa_capabilityTokenId ps) None
    (if decide (hi_preference n = OFF) then None else Some (mkOffer (hi_preference n) (toHex (x25519_pub (ii_secretKey i))))).

Definition init_envelope (n : HandshakeInitiator) (ps : InitiateParams) (i : InitiatorInput) : res NegotiationEnvelope :=
  buildEnvelope (mkBuildParams (hi_initiatorDid n) (hi_privateKey n) (pa_responderDid ps) None "HANDSHAKE_INIT"
                   [("challenge", VObj (challenge_json (make_challenge n ps i)))] None None None None) (ii_uuid i) (ii_envelopeNow i).

(** The transcript as the initiator rebuilds it. *)
Definition initiator_transcript (n : HandshakeInitiator) (ps : InitiateParams) (c : HandshakeChallenge) (caps : list string)
    (a : HandshakeResponseEncryption) (I_epk R_epk responseTimestamp : string) : TranscriptHashInput :=
  mkTranscript (hi_initiatorDid n) (pa_responderDid ps) (hi_capabilities n) caps (pref_name (hi_preference n))
    (pref_name (an_responderPreference a)) "REQUIRED" I_epk R_epk (hc_nonce c) (hc_timestamp c) responseTimestamp
    (default (hi_initiatorDid n) (hc_principalDid c)) (hc_capabilityTokenId c) (default "" (an_fingerprint a)).

(** The check of the negotiated encryption. *)
Definition check_encryption (n : HandshakeInitiator) (ps : InitiateParams) (i : InitiatorInput) (c : HandshakeChallenge)
    (r : HandshakeResponse) (caps : list string) : res (option (EncryptionPreference * option HandshakeKeys)) :=
  if decide (hi_preference n = OFF) then mret None
  else
    let I_epk := toHex (x25519_pub (ii_secretKey i)) in
    match hr_encryption r with
    | Some a =>
        if decide (an_negotiatedMode a = REQUIRED) then
          R_epk ← demand (truthy_str (an_publicKey a)) "INVALID_HANDSHAKE";
          _ ← check (non_empty (an_confirmation a)) "INVALID_HANDSHAKE";
          _ ← check (negb (bool_decide (is_Some (hc_capabilityTokenId c))) || bool_decide (is_Some (truthy_str (an_fingerprint a))))
                "INVALID_HANDSHAKE";
          peer ← fromHex R_epk;
          _ ← computeX25519SharedSecret (ii_secretKey i) peer;
          transcriptHash ← computeTranscriptHash (initiator_transcript n ps c caps a I_epk R_epk (hr_timestamp r));
          _ ← check (String.eqb (toHex (take 16 transcriptHash)) (an_confirmation a)) "ENCRYPTION_DOWNGRADE_DETECTED";
          mret (Some (REQUIRED, Some (mkKeys I_epk R_epk transcriptHash)))
        else _ ← check (negb (bool_decide (hi_preference n = REQUIRED))) "ENCRYPTION_REQUIRED"; mret (Some (OFF, None))
    | None => _ ← check (negb (bool_decide (hi_preference n = REQUIRED))) "ENCRYPTION_REQUIRED"; mret (Some (OFF, None))
    end.

(** What the initiator does with an answer. *)
Definition check_ack (n : HandshakeInitiator) (ps : InitiateParams) (i : InitiatorInput) (e : NegotiationEnvelope) : res HandshakeResult :=
  let c := make_challenge n ps i in
  _ ← parseEnvelope (VObj (envelope_json e));
  verification ← verifyEnvelope e (hi_resolvePublicKey n) DEFAULT_SKEW (ii_verifyNow i);
  _ ← check (String.eqb (ne_messageType e) "HANDSHAKE_ACK") "INVALID_HANDSHAKE";
  _ ← check (bool_decide (verification = None)) "SIGNATURE_INVALID";
  _ ← check (String.eqb (eh_senderDid (ne_header e)) (pa_responderDid ps)) "INVALID_HANDSHAKE";
  _ ← check (handshakeAckBody_schema (VObj (ne_body e))) "INVALID_HANDSHAKE";
  let ack := read_ack (ne_body e) in
  let r := ack_response ack in
  _ ← check (ack_accepted ack) "HANDSHAKE_REJECTED";
  _ ← check (String.eqb (hr_nonce r) (ii_nonce i)) "INVALID_HANDSHAKE";
  _ ← check (String.eqb (hr_challengeId r) (ii_challengeId i)) "INVALID_HANDSHAKE";
  _ ← check (String.eqb (hr_responderDid r) (pa_responderDid ps)) "INVALID_HANDSHAKE";
  let caps := negotiated (hr_responderCapabilities r) (hi_capabilities n) in
  encryption ← check_encryption n ps i c r caps;
  mret (mkResult (hr_sessionId r) caps encryption).

Definition attemptHandshake (n : HandshakeInitiator) (ps : InitiateParams) (i : InitiatorInput) (outcome : NegotiationEnvelope → TransportOutcome)
    : res HandshakeResult :=
  e ← init_envelope n ps i;
  match outcome e with
  | timed_out | other_error => Throw "HANDSHAKE_TIMEOUT"
  | protocol_error code => Throw code
  | answered None => Throw "INVALID_HANDSHAKE"
  | answered (Some ack) => check_ack n ps i ack
  end.

(** The loop of [initiate] over the inputs and transport outcomes of its attempts;
    the number of attempts made is part of the answer. *)
Fixpoint attempts (n : HandshakeInitiator) (ps : InitiateParams) (left : nat)
    (input : nat → InitiatorInput) (net : nat → NegotiationEnvelope → TransportOutcome) (attempt : nat) : res HandshakeResult * nat :=
  match attemptHandshake n ps (input attempt) (net attempt) with
  | Ok r => (Ok r, S attempt)
  | Throw code =>
      match left with
      | O => (Throw code, S attempt)
      | S left' => if String.eqb code "HANDSHAKE_TIMEOUT" then attempts n ps left' input net (S attempt) else (Throw code, S attempt)
      end
  end.

Definition initiate (n : HandshakeInitiator) (ps : InitiateParams) (input : nat → InitiatorInput)
    (net : nat → NegotiationEnvelope → TransportOutcome) : res HandshakeResult := (attempts n ps (hi_maxRetries n) input net 0).1.

End handshake.

(** ** Lemmas: bodies *)

Lemma pref_of_name p : pref_of (pref_name p) = p.
Proof. by destruct p. Qed.

Lemma strings_of_array l : strings_of (Some (str_array l)) = l.
Proof. cbn. rewrite <- list_fmap_compose. by apply list_fmap_id. Qed.

Lemma read_challenge_json c : read_challenge (challenge_json c) = c.
Proof.
  destruct c as [? ? ? ? ? ? caps [?|] [?|] [?|] [[p k]|]]; unfold read_challenge, challenge_json, get_str, opt_get, prop; cbn -[str_array strings_of];
    rewrite strings_of_array; cbn; by rewrite ?pref_of_name.
Qed.

Lemma read_response_json r : read_response (response_json r) = r.
Proof.
  destruct r as [? ? ? caps ? ? [[m p [?|] ? [?|]]|]]; unfold read_response, response_json, get_str, prop; cbn -[str_array strings_of];
    rewrite strings_of_array; unfold get_str, opt_get; cbn; by rewrite ?pref_of_name.
Qed.

Lemma read_ack_json a : read_ack (ack_json a) = a.
Proof. destruct a as [r b [?|]]; unfold read_ack, ack_json, opt_get; cbn -[response_json]; by rewrite read_response_json. Qed.

(** Filtering by the other side's list twice changes nothing. *)
Lemma negotiated_twice theirs own : negotiated (negotiated theirs own) theirs = negotiated theirs own.
Proof.
  unfold negotiated. assert (Forall (λ c, c ∈ theirs) (filter (λ c, c ∈ own) theirs)) as Hf.
  { apply Forall_forall. intros c Hc. by apply list_elem_of_filter in Hc as [_ ?]. }
  induction Hf as [|c l Hc Hf IH]; [done|]. by rewrite filter_cons_True, IH by done.
Qed.

Lemma negotiate_modes pi pr mode : negotiate pi pr = Some mode → mode = OFF ∨ mode = REQUIRED ∧ pi ≠ OFF ∧ pr ≠ OFF.
Proof. destruct pi, pr; intros [= <-]; auto. Qed.

(** ** The responder's decisions *)

Definition accepts (a : NegotiationEnvelope) : bool := ack_accepted (read_ack (ne_body a)).

Section decisions.
Context `{Primitives} `{E2EPrimitives}.

Lemma buildAck_refuses h r c reason i a : buildAck h r c reason i = Ok a → accepts a = false.
Proof. unfold buildAck. intros (E & _)%build_envelope_inv. unfold accepts. rewrite E. cbn [ne_body be_body]. by rewrite read_ack_json. Qed.

Definition offered (c : HandshakeChallenge) : EncryptionPreference := match hc_encryption c with Some o => of_preference o | None => OFF end.

(** The encryption part of the responder: what it agrees on. *)
Definition agreed (h : HandshakeResponder) (c : HandshakeChallenge) (principal : string) (token fingerprint : option string)
    (i : ResponderInput) (keys : option HandshakeKeys) : Prop :=
  match negotiate (offered c) (hp_preference h), keys with
  | Some REQUIRED, Some k =>
      is_Some token ∧ is_Some (truthy_str fingerprint) ∧ ∃ offer, hc_encryption c = Some offer
        ∧ responder_keys h c principal token fingerprint (negotiated (hc_initiatorCapabilities c) (hp_capabilities h)) offer i = Ok k
  | Some OFF, None => True
  | _, _ => False
  end.

Definition session_input (h : HandshakeResponder) (c : HandshakeChallenge) (principal : string) (token fingerprint : option string)
    (i : ResponderInput) (encrypted : bool) : Sessions.SessionCreateInput :=
  Sessions.mkSessionCreate (in_sessionId i) (hc_initiatorDid c) (hp_responderDid h) principal token fingerprint
    (Some (negotiated (hc_initiatorCapabilities c) (hp_capabilities h))) (Some (if encrypted then Sessions.REQUIRED else Sessions.OFF)) None
    (Some Sessions.ACTIVE) None.

Definition accepted_response (h : HandshakeResponder) (c : HandshakeChallenge) (fingerprint : option string) (i : ResponderInput)
    (keys : option HandshakeKeys) : HandshakeResponse :=
  mkResponse (hc_challengeId c) (in_sessionId i) (hp_responderDid h) (negotiated (hc_initiatorCapabilities c) (hp_capabilities h)) (hc_nonce c)
    (toISOString (in_responseNow i)) (answer_for h (offered c) keys fingerprint).
Definition accepted_params (h : HandshakeResponder) (c : HandshakeChallenge) (fingerprint : option string) (i : ResponderInput)
    (keys : option HandshakeKeys) : BuildEnvelopeParams :=
  mkBuildParams (hp_responderDid h) (hp_privateKey h) (hc_initiatorDid c) (Some (in_sessionId i)) "HANDSHAKE_ACK"
    (ack_json (mkAck (accepted_response h c fingerprint i keys) true None)) None None None None.
Definition responder_result (h : HandshakeResponder) (c : HandshakeChallenge) (i : ResponderInput) (keys : option HandshakeKeys) : HandshakeResult :=
  mkResult (in_sessionId i) (negotiated (hc_initiatorCapabilities c) (hp_capabilities h)) ((λ k, (REQUIRED, Some k)) <$> keys).

(** When a challenge is accepted. *)
Definition accepted_as (h : HandshakeResponder) (c : HandshakeChallenge) (i : ResponderInput) (w w' : ResponderState)
    (principal : string) (token fingerprint : option string) (keys : option HandshakeKeys) : Prop :=
  run_validator h c = Ok (inl (principal, token, fingerprint)) ∧ agreed h c principal token fingerprint i keys
  ∧ (if hp_hasStore h
     then ∃ s, Sessions.store_create (in_createNow i) (session_input h c principal token fingerprint i (bool_decide (is_Some keys)))
                 (rs_sessions w) = (Ok s, rs_sessions w')
     else rs_sessions w' = rs_sessions w)
  ∧ rs_nonces w' = rs_nonces w ∧ rs_last w' = Some (responder_result h c i keys).

Lemma accept_challenge_spec h c i w w' a :
  accept_challenge h c i w = (Ok a, w') ∧ accepts a = true ↔
  ∃ principal token fingerprint keys, accepted_as h c i w w' principal token fingerprint keys
    ∧ buildEnvelope (accepted_params h c fingerprint i keys) (in_uuid i) (in_ackNow i) = Ok a.
Proof.
  unfold accept_challenge, accepted_as, agreed. fold (offered c). set (caps := negotiated _ _). split.
  - intros [Hr Ha]. assert (∀ r reason x, (buildAck h r c reason i, x) = (Ok a, w') → False) as Hno.
    { intros r reason x [= E%buildAck_refuses]. by rewrite Ha in E. }
    destruct (run_validator h c) as [[[[principal token] fingerprint]|reason]|] eqn:Ev; [|by apply Hno in Hr|done].
    exists principal, token, fingerprint. destruct (negotiate (offered c) (hp_preference h)) as [mode|] eqn:En; [|done].
    destruct (negotiate_modes _ _ _ En) as [->|(-> & _)].
    + exists None. cbn [bool_decide andb] in Hr. rewrite bool_decide_false in Hr by done. cbn [andb] in Hr.
      destruct (decide (OFF = REQUIRED)) as [[=]|_]. cbn [mret res_ret] in Hr. destruct (hp_hasStore h).
      * destruct (Sessions.store_create _ _ _) as [[s|] m] eqn:Es; cbn [andb] in Hr; [|by apply Hno in Hr].
        injection Hr as Hb <-. split; [|exact Hb]. split_and!; try done. by exists s.
      * cbn [andb] in Hr. injection Hr as Hb <-. by split.
    + rewrite bool_decide_true in Hr by done. cbn [andb] in Hr.
      destruct (bool_decide (token = None) || _) eqn:Et; [done|]. reflect_bools. destruct (decide (REQUIRED = REQUIRED)); [|done].
      destruct (hc_encryption c) as [offer|] eqn:Ee; [|done].
      destruct (responder_keys h c principal token fingerprint caps offer i) as [k|] eqn:Ek; [|done]. cbn [mbind res_bind mret res_ret] in Hr.
      exists (Some k).
      assert (is_Some token ∧ is_Some (truthy_str fingerprint)) as [Ht Hf] by (by rewrite !not_eq_None_Some in *; auto).
      destruct (hp_hasStore h).
      * destruct (Sessions.store_create _ _ _) as [[s|] m] eqn:Es; cbn [andb] in Hr; [|by apply Hno in Hr].
        injection Hr as Hb <-. split; [|exact Hb]. split_and!; try done; [by exists offer|by exists s].
      * cbn [andb] in Hr. injection Hr as Hb <-. split; [|exact Hb]. split_and!; try done. by exists offer.
  - intros (principal & token & fingerprint & keys & (Ev & Hag & Hst & Hn & Hl) & Hb). rewrite Ev.
    assert (accepts a = true) as Ha.
    { apply build_envelope_inv in Hb as (E & _). unfold accepts. rewrite E. cbn [ne_body accepted_params be_body]. by rewrite read_ack_json. }
    split; [|done]. destruct (negotiate (offered c) (hp_preference h)) as [mode|] eqn:En; [|done].
    destruct w' as [nonces' sessions' last']. cbn in Hst, Hn, Hl. subst nonces' last'.
    destruct (negotiate_modes _ _ _ En) as [->|(-> & _)].
    + destruct keys as [k|]; [done|]. rewrite bool_decide_false by done. cbn [andb]. destruct (decide (OFF = REQUIRED)) as [[=]|_].
      cbn [mret res_ret]. destruct (hp_hasStore h).
      * destruct Hst as [s Es]. unfold session_input in Es. fold caps in Es. cbn in Es |- *. rewrite Es.
        cbn [andb]. by f_equal.
      * subst. cbn [andb]. by f_equal.
    + destruct keys as [k|]; [|done]. destruct Hag as ((tk & ->) & (fp & Hf) & offer & Eo & Ek). rewrite Hf, Eo.
      fold caps in Ek. rewrite (bool_decide_false (Some tk = None)), (bool_decide_false (Some fp = None)) by done.
      rewrite bool_decide_true by done. cbn [andb orb]. destruct (decide (REQUIRED = REQUIRED)); [|done]. rewrite Ek. cbn [mbind res_bind mret res_ret].
      destruct (hp_hasStore h).
      * destruct Hst as [s Es]. unfold session_input in Es. fold caps in Es. cbn in Es |- *. rewrite Es.
        cbn [andb]. by f_equal.
      * subst. cbn [andb]. by f_equal.
Qed.

(** What the responder checks before it looks at the nonce. *)
Record vetted (h : HandshakeResponder) (e : NegotiationEnvelope) (i : ResponderInput) (o : object) : Prop := mkVetted {
  vt_type : ne_messageType e = "HANDSHAKE_INIT";
  vt_parsed : parseEnvelope (VObj (envelope_json e)) = Ok (VObj (envelope_json e));
  vt_challenge : map_get "challenge" (ne_body e) = Some (VObj o);
  vt_schema : handshakeChallenge_schema (VObj o) = true;
  vt_signed : verifyEnvelope e (hp_resolvePublicKey h) DEFAULT_SKEW (in_verifyNow i) = Ok None;
  vt_sender : hc_initiatorDid (read_challenge o) = eh_senderDid (ne_header e);
  vt_addressee : hc_responderDid (read_challenge o) = hp_responderDid h;
  vt_live : challenge_expired (read_challenge o) (in_now i) = false;
  vt_authorized : hp_verifyInitiator h (hc_initiatorDid (read_challenge o)) = Ok true }.

Lemma parse_envelope_self v v' : parseEnvelope v = Ok v' → v' = v.
Proof. unfold parseEnvelope. repeat (intros (? & _ & H1)%res_bind_ok; revert H1). by intros [= <-]. Qed.

Lemma respond_accepts h e i w w' a :
  respond h e i w = (Ok a, w') ∧ accepts a = true ↔
  ∃ o, vetted h e i o ∧ hc_nonce (read_challenge o) ∉ rs_nonces w
    ∧ accept_challenge h (read_challenge o) i (mkResponderState (hc_nonce (read_challenge o) :: rs_nonces w) (rs_sessions w) (rs_last w)) = (Ok a, w')
    ∧ accepts a = true.
Proof.
  unfold respond. split.
  - intros [Hr Ha]. assert (∀ c r reason x, (buildAck h r c reason i, x) = (Ok a, w') → False) as Hno.
    { intros c r reason x [= E%buildAck_refuses]. by rewrite Ha in E. }
    destruct (String.eqb_spec (ne_messageType e) "HANDSHAKE_INIT") as [Et|]; [|done]. cbn [negb] in Hr.
    destruct (parseEnvelope _) as [v|] eqn:Ep; [|done]. pose proof (parse_envelope_self _ _ Ep) as ->.
    destruct (map_get "challenge" (ne_body e)) as [[| | | | | |o]|] eqn:Eo; try done. exists o.
    destruct (handshakeChallenge_schema (VObj o)) eqn:Es; [|done]. cbn [negb] in Hr.
    destruct (verifyEnvelope _ _ _ _) as [[|]|] eqn:Ev; try done.
    destruct (String.eqb_spec (hc_initiatorDid (read_challenge o)) (eh_senderDid (ne_header e))) as [Ei|]; [|done].
    destruct (String.eqb_spec (hc_responderDid (read_challenge o)) (hp_responderDid h)) as [Er|]; [|done]. cbn [negb] in Hr.
    destruct (challenge_expired _ _) eqn:Ex; [by apply Hno in Hr|].
    destruct (hp_verifyInitiator _ _) as [[]|] eqn:Eh; [|by apply Hno in Hr|done].
    case_bool_decide as Hn; [by apply Hno in Hr|]. by split_and!.
  - intros (o & [-> -> -> -> -> -> -> -> ->] & Hn & Hr & Ha). rewrite !String.eqb_refl. cbn [negb String.eqb Ascii.eqb Bool.eqb].
    by rewrite bool_decide_false by done.
Qed.

(** Nonces are only ever added. *)
Lemma accept_challenge_nonces h c i w : rs_nonces (accept_challenge h c i w).2 = rs_nonces w.
Proof.
  unfold accept_challenge. destruct (run_validator h c) as [[[[? ?] ?]|]|]; try done.
  destruct (negotiate _ _) as [mode|]; [|done]. destruct (bool_decide (mode = REQUIRED) && _); [done|].
  destruct (if decide _ then _ else _); [|done]. destruct (if hp_hasStore h then _ else _) as [created sessions].
  by destruct (hp_hasStore h && _).
Qed.

Lemma respond_nonces h e i w : rs_nonces w ⊆ rs_nonces (respond h e i w).2.
Proof.
  unfold respond. repeat case_match; try done. rewrite accept_challenge_nonces. intros x Hx. by apply list_elem_of_further.
Qed.

(** ** One nonce, one session *)

(** The answers of a responder to a sequence of envelopes. *)
Fixpoint serve (h : HandshakeResponder) (reqs : list (NegotiationEnvelope * ResponderInput)) (w : ResponderState) : list NegotiationEnvelope :=
  match reqs with
  | [] => []
  | (e, i) :: reqs' =>
      let '(r, w') := respond h e i w in
      match r with Ok a => [a] | Throw _ => [] end ++ serve h reqs' w'
  end.
(** The nonces of the accepted handshakes. *)
Definition ack_nonce (a : NegotiationEnvelope) : string := hr_nonce (ack_response (read_ack (ne_body a))).
Definition accepted_nonces (l : list NegotiationEnvelope) : list string := ack_nonce <$> filter (λ a, accepts a = true) l.

Lemma accepted_nonce h c fingerprint i keys a :
  buildEnvelope (accepted_params h c fingerprint i keys) (in_uuid i) (in_ackNow i) = Ok a → ack_nonce a = hc_nonce c.
Proof. intros (E & _)%build_envelope_inv. unfold ack_nonce. rewrite E. cbn [ne_body accepted_params be_body]. by rewrite read_ack_json. Qed.

Lemma respond_accepts_nonce h e i w w' a :
  respond h e i w = (Ok a, w') → accepts a = true → ack_nonce a ∉ rs_nonces w ∧ ack_nonce a ∈ rs_nonces w'.
Proof.
  intros Hr Ha. destruct (proj1 (respond_accepts h e i w w' a) (conj Hr Ha)) as (o & _ & Hn & Hacc & _).
  destruct (proj1 (accept_challenge_spec _ _ _ _ _ _) (conj Hacc Ha)) as (? & ? & fp & keys & (_ & _ & _ & En & _) & Hb).
  rewrite (accepted_nonce _ _ _ _ _ _ Hb). split; [done|]. rewrite En. cbn. apply list_elem_of_here.
Qed.

Lemma serve_nonces h reqs w : Forall (λ x, x ∉ rs_nonces w) (accepted_nonces (serve h reqs w)).
Proof.
  unfold accepted_nonces. revert w. induction reqs as [|[e i] reqs IH]; intros w; [constructor|]. cbn [serve].
  pose proof (respond_nonces h e i w) as Hsub. destruct (respond h e i w) as [r w'] eqn:Hr. cbn in Hsub.
  assert (Forall (λ x, x ∉ rs_nonces w) (ack_nonce <$> filter (λ a, accepts a = true) (serve h reqs w'))) as Hrest.
  { eapply Forall_impl; [apply IH|]. cbn. intros x Hx Hin. apply Hx. by apply Hsub. }
  destruct r as [a|]; [|done]. cbn [app]. destruct (decide (accepts a = true)) as [Ha|Ha]; [|by rewrite filter_cons_False].
  rewrite filter_cons_True by done. cbn. constructor; [|done]. by apply (respond_accepts_nonce h e i w w' a).
Qed.

(** However often and in whatever order envelopes are delivered, at most one
    handshake is accepted per nonce. *)
Theorem nonce_accepted_once h reqs w : NoDup (accepted_nonces (serve h reqs w)).
Proof.
  revert w. induction reqs as [|[e i] reqs IH]; intros w; [constructor|]. cbn [serve].
  destruct (respond h e i w) as [r w'] eqn:Hr. destruct r as [a|]; [|apply IH]. cbn [app]. unfold accepted_nonces.
  destruct (decide (accepts a = true)) as [Ha|Ha]; [|rewrite filter_cons_False by done; apply IH].
  rewrite filter_cons_True by done. cbn. apply NoDup_cons. split; [|apply IH].
  intros Hin. pose proof (serve_nonces h reqs w') as Hf. rewrite Forall_forall in Hf.
  apply (Hf (ack_nonce a)); [done|]. by apply (respond_accepts_nonce h e i w w' a).
Qed.

(** ** What an accepted handshake has passed *)

Lemma run_validator_inl h c principal token fingerprint :
  run_validator h c = Ok (inl (principal, token, fingerprint)) →
  principal = default (hc_initiatorDid c) (hc_principalDid c) ∧ token = hc_capabilityTokenId c
  ∧ (∀ validate, hp_validator h = Some validate →
       ∃ v, validate (hc_initiatorDid c) principal token = Ok v ∧ hav_accepted v = true ∧ hav_principalDid v = principal
         ∧ hav_capabilityTokenId v = token ∧ hav_fingerprint v = fingerprint).
Proof.
  unfold run_validator. destruct (hp_validator h) as [validate|]; [|by intros [= <- <- <-]].
  intros (v & Hv & Hd)%res_bind_ok. destruct (hav_accepted v) eqn:Ea; [|done]. cbn [negb] in Hd.
  case_bool_decide as Hp; [|done]. case_bool_decide as Ht; [|done]. injection Hd as <- <- <-. split_and!; try done.
  intros validate' [= <-]. exists v. by rewrite Hp, Ht.
Qed.

Lemma store_create_row t input m s m' :
  Sessions.store_create t input m = (Ok s, m') →
  map_get (Sessions.ci_sessionId input) m = None ∧ map_get (Sessions.ci_sessionId input) m' = Some s
  ∧ Sessions.new_session input (toISOString t) = Ok s.
Proof.
  unfold Sessions.store_create. destruct (map_get _ m) eqn:Eg; [done|]. unfold lift_res, mbind, M_bind. destruct (Sessions.new_session _ _) as [s0|]; [|done]. cbn. intros [= <- <-]. split; [done|]. split; [|done].
  by rewrite map_get_set, String.eqb_refl.
Qed.

(** C12.  A responder answers that it accepts only after every check: a signed and live
    challenge for it by an authorized initiator, a nonce never seen, the validator's
    approval of the principal and token in the challenge, the session stored, and
    keys agreed on whenever one side insists on encryption. *)
Theorem accepted_challenge_checked h e i w a w' :
  respond h e i w = (Ok a, w') → accepts a = true →
  ∃ o, vetted h e i o ∧
    let c := read_challenge o in
    hc_nonce c ∉ rs_nonces w ∧ rs_nonces w' = hc_nonce c :: rs_nonces w
    ∧ (∀ validate, hp_validator h = Some validate →
         ∃ v, validate (hc_initiatorDid c) (default (hc_initiatorDid c) (hc_principalDid c)) (hc_capabilityTokenId c) = Ok v
           ∧ hav_accepted v = true)
    ∧ (hp_hasStore h = true →
         map_get (in_sessionId i) (rs_sessions w) = None
         ∧ ∃ s, map_get (in_sessionId i) (rs_sessions w') = Some s ∧ Sessions.se_state s = Sessions.ACTIVE)
    ∧ (offered c = REQUIRED ∨ hp_preference h = REQUIRED →
         is_Some (hc_capabilityTokenId c)
         ∧ ∃ k caps, rs_last w' = Some (mkResult (in_sessionId i) caps (Some (REQUIRED, Some k)))).
Proof.
  intros Hr Ha. destruct (proj1 (respond_accepts h e i w w' a) (conj Hr Ha)) as (o & Hv & Hn & Hacc & _). exists o. split; [done|].
  intros c. destruct (proj1 (accept_challenge_spec _ _ _ _ _ _) (conj Hacc Ha)) as (pr & tk & fp & keys & (Er & Hag & Hst & En & El) & _).
  fold c in Er, Hag, Hst, El, En. apply run_validator_inl in Er as (-> & -> & Hval). split_and!; try done.
  - intros validate Hd. destruct (Hval _ Hd) as (v & ? & ? & _). by exists v.
  - intros Hs. rewrite Hs in Hst. destruct Hst as [s (H1 & H2 & H3)%store_create_row]. split; [exact H1|]. exists s. split; [exact H2|].
    unfold Sessions.new_session in H3. apply res_bind_ok in H3 as (? & _ & [= <-]). done.
  - intros Hreq. unfold agreed in Hag. assert (negotiate (offered c) (hp_preference h) ≠ Some OFF) as Hm.
    { destruct (offered c), (hp_preference h), Hreq; done. }
    destruct (negotiate _ _) as [[]|], keys as [k|]; try done. destruct Hag as (? & _). split; [done|]. eexists k, _. exact El.
Qed.
End decisions.

(** ** The initiator's decisions *)

Section initiator_laws.
Context `{PrimitiveLaws} `{E2EPrimitives}.

Lemma check_passed (b : bool) code u : check b code = Ok u ↔ b = true ∧ u = tt.
Proof. destruct b, u; cbn; naive_solver. Qed.

(** An answer that the initiator has accepted. *)
Record trusted_ack (n : HandshakeInitiator) (ps : InitiateParams) (i : InitiatorInput) (e : NegotiationEnvelope) (r : HandshakeResult) : Prop := mkTrusted {
  ta_signed : verifyEnvelope e (hi_resolvePublicKey n) DEFAULT_SKEW (ii_verifyNow i) = Ok None;
  ta_type : ne_messageType e = "HANDSHAKE_ACK";
  ta_sender : eh_senderDid (ne_header e) = pa_responderDid ps;
  ta_schema : handshakeAckBody_schema (VObj (ne_body e)) = true;
  ta_accepted : accepts e = true;
  ta_nonce : ack_nonce e = ii_nonce i;
  ta_challenge : hr_challengeId (ack_response (read_ack (ne_body e))) = ii_challengeId i;
  ta_session : hs_sessionId r = hr_sessionId (ack_response (read_ack (ne_body e)));
  ta_capabilities : hs_negotiatedCapabilities r = negotiated (hr_responderCapabilities (ack_response (read_ack (ne_body e)))) (hi_capabilities n);
  ta_encryption : check_encryption n ps i (make_challenge n ps i) (ack_response (read_ack (ne_body e)))
                    (negotiated (hr_responderCapabilities (ack_response (read_ack (ne_body e)))) (hi_capabilities n)) = Ok (hs_encryption r) }.

Lemma check_ack_trusted n ps i e r : check_ack n ps i e = Ok r → trusted_ack n ps i e r.
Proof.
  unfold check_ack. intros (? & _ & (v & Hv & (? & (Et%String.eqb_eq & _)%check_passed & (? & (Hs & _)%check_passed & (? & (Esd%String.eqb_eq & _)%check_passed &
    (? & (Hsch & _)%check_passed & Hd)%res_bind_ok)%res_bind_ok)%res_bind_ok)%res_bind_ok)%res_bind_ok)%res_bind_ok.
  apply bool_decide_eq_true in Hs as ->.
  apply res_bind_ok in Hd as (? & (Hacc & _)%check_passed & (? & (En%String.eqb_eq & _)%check_passed & (? & (Ec%String.eqb_eq & _)%check_passed &
    (? & (Er%String.eqb_eq & _)%check_passed & (enc & He & [= <-])%res_bind_ok)%res_bind_ok)%res_bind_ok)%res_bind_ok). done.
Qed.

(** The transcript both sides must agree on, when encryption was negotiated. *)
Definition agreed_transcript (n : HandshakeInitiator) (ps : InitiateParams) (i : InitiatorInput) (e : NegotiationEnvelope)
    (a : HandshakeResponseEncryption) (R_epk : string) : TranscriptHashInput :=
  let r := ack_response (read_ack (ne_body e)) in
  initiator_transcript n ps (make_challenge n ps i) (negotiated (hr_responderCapabilities r) (hi_capabilities n)) a
    (toHex (x25519_pub (ii_secretKey i))) R_epk (hr_timestamp r).

Lemma required_encryption n ps i e r :
  trusted_ack n ps i e r → hi_preference n = REQUIRED →
  ∃ a k, hr_encryption (ack_response (read_ack (ne_body e))) = Some a ∧ hs_encryption r = Some (REQUIRED, Some k)
    ∧ an_publicKey a = Some (hk_responderPublicKey k) ∧ hk_initiatorPublicKey k = toHex (x25519_pub (ii_secretKey i))
    ∧ hk_transcriptHash k = sha256 (textEncode (jcs (transcript_json (agreed_transcript n ps i e a (hk_responderPublicKey k)))))
    ∧ an_confirmation a = toHex (take 16 (hk_transcriptHash k)).
Proof.
  intros [_ _ _ _ _ _ _ _ _ He] Hp. revert He. unfold check_encryption. rewrite Hp. destruct (decide (REQUIRED = OFF)) as [[=]|_].
  rewrite !(bool_decide_true (REQUIRED = REQUIRED)) by done. destruct (hr_encryption _) as [a|]; [|by intros (? & [[=] _]%check_passed & _)%res_bind_ok].
  destruct (decide _); [|by intros (? & [[=] _]%check_passed & _)%res_bind_ok].
  intros (R_epk & HR & (? & _ & (? & _ & (peer & _ & (? & _ & (th & Hth & (? & (Hc%String.eqb_eq & _)%check_passed & [= <-])%res_bind_ok
    )%res_bind_ok)%res_bind_ok)%res_bind_ok)%res_bind_ok)%res_bind_ok)%res_bind_ok.
  rewrite transcript_hash_ok in Hth. injection Hth as <-. exists a. eexists. split; [done|]. split; [done|]. cbn [hk_responderPublicKey hk_initiatorPublicKey hk_transcriptHash].
  split_and!; try done. unfold truthy_str in HR. destruct (an_publicKey a) as [pk|]; [|done]. destruct (non_empty pk); [|done]. by injection HR as ->.
Qed.

(** The attempts that were made: all but the last timed out. *)
Lemma attempts_spec n ps left input net k :
  let '(r, used) := attempts n ps left input net k in
  ∃ last, used = S last ∧ (k <= last <= k + left)%nat ∧ r = attemptHandshake n ps (input last) (net last)
    ∧ ∀ j, (k <= j < last)%nat → attemptHandshake n ps (input j) (net j) = Throw "HANDSHAKE_TIMEOUT".
Proof.
  revert k. induction left as [|left IH]; intros k; cbn [attempts].
  { destruct (attemptHandshake _ _ _ _) eqn:E; exists k; (split_and!; [done|lia..|by rewrite E|intros; lia]). }
  destruct (attemptHandshake _ _ _ _) as [r|code] eqn:E; [exists k; split_and!; [done|lia..|by rewrite E|intros; lia]|].
  destruct (String.eqb_spec code "HANDSHAKE_TIMEOUT") as [->|]; [|exists k; split_and!; [done|lia..|by rewrite E|intros; lia]].
  specialize (IH (S k)). destruct (attempts _ _ _ _ _ _) as [r used]. destruct IH as (last & -> & ? & -> & Hj). exists last. split; [done|]. split; [lia|]. split; [done|].
  intros j Hjk. destruct (decide (j = k)) as [->|]; [done|]. apply Hj. lia.
Qed.

(** C11.  An initiator that requires encryption never ends up without it: whatever the
    network does, a successful call has an acknowledgement that is signed by the
    key of the DID it called, for its own nonce, and whose confirmation is of the
    transcript the initiator itself rebuilds; and it took at most one attempt more
    than the retries, each failed one a timeout. *)
Theorem required_never_downgraded n ps input net r :
  hi_preference n = REQUIRED → initiate n ps input net = Ok r →
  ∃ last e0 e a k, (last <= hi_maxRetries n)%nat
    ∧ (∀ j, (j < last)%nat → attemptHandshake n ps (input j) (net j) = Throw "HANDSHAKE_TIMEOUT")
    ∧ init_envelope n ps (input last) = Ok e0 ∧ net last e0 = answered (Some e) ∧ trusted_ack n ps (input last) e r
    ∧ hs_encryption r = Some (REQUIRED, Some k)
    ∧ hr_encryption (ack_response (read_ack (ne_body e))) = Some a
    ∧ hk_transcriptHash k = sha256 (textEncode (jcs (transcript_json (agreed_transcript n ps (input last) e a (hk_responderPublicKey k)))))
    ∧ an_confirmation a = toHex (take 16 (hk_transcriptHash k)).
Proof.
  intros Hp Hi. unfold initiate in Hi. pose proof (attempts_spec n ps (hi_maxRetries n) input net 0) as Hs.
  destruct (attempts _ _ _ _ _ _) as [r' used]. cbn in Hi. destruct Hs as (last & _ & Hle & -> & Hj).
  unfold attemptHandshake in Hi. apply res_bind_ok in Hi as (e0 & He0 & Hi). destruct (net last e0) as [[e|]| | |] eqn:Hn; try done.
  apply check_ack_trusted in Hi. destruct (required_encryption n ps (input last) e r Hi Hp) as (a & k & Ea & Ek & _ & _ & Eth & Ecf).
  exists last, e0, e, a, k. split_and!; try done; [lia|]. intros j Hlt. apply Hj. lia.
Qed.
End initiator_laws.

(** ** An honest run *)

(** What the schema of a challenge says of its members. *)
Lemma challenge_schema_inv c :
  handshakeChallenge_schema (VObj (challenge_json c)) = true →
  uuid_any (hc_challengeId c) = true ∧ isDidAgent (hc_initiatorDid c) = true ∧ isDidAgent (hc_responderDid c) = true
  ∧ hash_schema (hc_nonce c) = true ∧ capability_names (str_array (hc_initiatorCapabilities c)) = true.
Proof.
  destruct c as [? ? ? ? ? ? caps op otk ors oenc]. unfold handshakeChallenge_schema, object_where, property, prop. intros Hs. reflect_bools.
  destruct op, otk, ors, oenc as [[]|]; cbn in *; by split_and!.
Qed.

Lemma answer_schema_ok a :
  an_negotiatedMode a ≠ OPT_IN → (∀ k, an_publicKey a = Some k → non_empty k = true) → (∀ f, an_fingerprint a = Some f → non_empty f = true) →
  answer_schema (answer_json a) = true.
Proof.
  destruct a as [m p pk cf fp]. cbn. intros Hm Hk Hf.
  destruct m, p, pk as [pk|], fp as [fp|]; try done; unfold answer_schema, property, prop; cbn -[non_empty];
    rewrite ?(Hk _ eq_refl), ?(Hf _ eq_refl); done.
Qed.

Lemma ack_schema_ok r :
  uuid_any (hr_challengeId r) = true → non_empty (hr_sessionId r) = true → isDidAgent (hr_responderDid r) = true →
  capability_names (str_array (hr_responderCapabilities r)) = true → hash_schema (hr_nonce r) = true → timestampPattern (hr_timestamp r) = true →
  (∀ a, hr_encryption r = Some a → answer_schema (answer_json a) = true) →
  handshakeAckBody_schema (VObj (ack_json (mkAck r true None))) = true.
Proof.
  destruct r as [cid sid did caps nonce ts enc].
  cbn [hr_challengeId hr_sessionId hr_responderDid hr_responderCapabilities hr_nonce hr_timestamp hr_encryption]. intros Hc Hs Hd Hcap Hn Ht He.
  unfold handshakeAckBody_schema, handshakeResponse_schema, property, prop, get_str.
  assert (∀ v, answer_json v ≠ VUndefined) as Hu by done.
  destruct enc as [a|]; cbn -[capability_names uuid_any isDidAgent hash_schema timestampPattern non_empty answer_schema str_array answer_json].
  - rewrite Hc, Hs, Hd, Hn, Ht. destruct (str_array caps) eqn:Ea; try done. rewrite Hcap. specialize (He a eq_refl). cbn [answer_json] in *. by rewrite He.
  - rewrite Hc, Hs, Hd, Hn, Ht. destruct (str_array caps) eqn:Ea; try done. by rewrite Hcap.
Qed.

Lemma negotiated_names theirs own : capability_names (str_array theirs) = true → capability_names (str_array (negotiated theirs own)) = true.
Proof.
  unfold capability_names, str_array, negotiated, array_of. induction theirs as [|c l IH]; [done|]. cbn [fmap list_fmap forallb].
  intros [Hc Hl]%andb_true_iff. destruct (decide (c ∈ own)); [rewrite filter_cons_True by done|rewrite filter_cons_False by done; by apply IH].
  cbn [fmap list_fmap forallb]. by rewrite Hc, IH.
Qed.

Section honest.
Context `{PrimitiveLaws} `{E2ELaws}.

Lemma build_envelope_total ps uuid now seed :
  Forall is_byte seed → length seed = 32%nat → be_senderPrivateKey ps = toHex seed →
  finite_opt (be_sequenceNumber ps) = true → assertSerializable (VObj (be_body ps)) = true →
  ∃ e, buildEnvelope ps uuid now = Ok e.
Proof.
  intros Hb Hl Hk Hn Hs. unfold buildEnvelope, canonicalize.
  pose proof (payload_ok (mkEnvelope uuid (effectiveSpecVersion ps) (mkHeader (be_senderDid ps) (be_recipientDid ps) (be_sessionId ps)
    (be_sequenceNumber ps) (be_capabilityTokenRef ps)) (be_messageType ps) (be_body ps) "" (toISOString now)) Hn Hs) as Hp.
  unfold payload_of in Hp. cbn [ne_id ne_specVersion ne_header ne_messageType ne_body ne_timestamp] in Hp. rewrite Hp. cbn [mbind res_bind].
  unfold sign, assertPrivateKey, assertDecoded. rewrite Hk, normalizeKey_toHex, Hl by done. cbn [Nat.eqb orb]. eexists. reflexivity.
Qed.

Lemma challenge_serializable c : assertSerializable (VObj (challenge_json c)) = true.
Proof.
  destruct c as [? ? ? ? ? ? caps op otk ors oenc]. unfold challenge_json.
  destruct op, otk, ors, oenc as [[]|]; cbn -[str_array]; by rewrite (proj1 (str_array_ok caps)).
Qed.
Lemma ack_serializable a : assertSerializable (VObj (ack_json a)) = true.
Proof.
  destruct a as [[? ? ? caps ? ? enc] b rs]. unfold ack_json, response_json.
  destruct rs, enc as [[m p [?|] ? [?|]]|]; cbn -[str_array]; by rewrite (proj1 (str_array_ok caps)).
Qed.

Lemma hex_non_empty bs : length bs ≠ 0%nat → non_empty (toHex bs) = true.
Proof.
  intros Hl. unfold non_empty. apply negb_true_iff, String.eqb_neq. intros E.
  apply (f_equal String.length) in E. unfold toHex in E. rewrite str_length, hex_length in E. cbn in E. lia.
Qed.
Lemma toHex_key_non_empty sk : non_empty (toHex (x25519_pub sk)) = true.
Proof. apply hex_non_empty. by rewrite (proj2 (x25519_pub_bytes sk)). Qed.

(** The envelopes of a handshake are of version 0.1.0 and carry no token. *)
Lemma handshake_params sd key rd sid ty body :
  isDidAgent sd = true → isDidAgent rd = true → ty = "HANDSHAKE_INIT" ∨ ty = "HANDSHAKE_ACK" →
  good_params (mkBuildParams sd key rd sid ty body None None None None).
Proof.
  intros Hs Hr Ht. split; cbn [be_senderDid be_recipientDid be_messageType be_capabilityTokenRef].
  - apply list_elem_of_here.
  - by intros [].
  - by rewrite Hs.
  - by rewrite Hr.
  - destruct Ht as [->| ->]; [apply list_elem_of_here|apply list_elem_of_further, list_elem_of_here].
Qed.

(** Two parties that know each other's keys, with clocks within the skew, a
    nonce and a session id never used, and a validator that approves. *)
Record compatible (n : HandshakeInitiator) (ps : InitiateParams) (i : InitiatorInput) (h : HandshakeResponder) (j : ResponderInput)
    (w : ResponderState) (mode : EncryptionPreference) (fingerprint : option string) (iseed rseed : bytes) : Prop := mkCompatible {
  cp_called : pa_responderDid ps = hp_responderDid h;
  cp_iseed : Forall is_byte iseed ∧ length iseed = 32%nat ∧ hi_privateKey n = toHex iseed;
  cp_rseed : Forall is_byte rseed ∧ length rseed = 32%nat ∧ hp_privateKey h = toHex rseed;
  cp_ikey : hp_resolvePublicKey h (hi_initiatorDid n) = Ok (Some (toHex (ed25519_pub iseed)));
  cp_rkey : hi_resolvePublicKey n (hp_responderDid h) = Ok (Some (toHex (ed25519_pub rseed)));
  cp_challenge : handshakeChallenge_schema (VObj (challenge_json (make_challenge n ps i))) = true;
  cp_authorized : hp_verifyInitiator h (hi_initiatorDid n) = Ok true;
  cp_validated : run_validator h (make_challenge n ps i)
    = Ok (inl (default (hi_initiatorDid n) (pa_principalDid ps), pa_capabilityTokenId ps, fingerprint));
  cp_mode : negotiate (hi_preference n) (hp_preference h) = Some mode;
  cp_encrypted : mode = REQUIRED → is_Some (pa_capabilityTokenId ps) ∧ is_Some (truthy_str fingerprint)
    ∧ forallb (λ b, b =? 0) (x25519_pub (ii_secretKey i)) = false
    ∧ is_Some (x25519_shared (in_secretKey j) (x25519_pub (ii_secretKey i)));
  cp_nonce : ii_nonce i ∉ rs_nonces w;
  cp_session : non_empty (in_sessionId j) = true ∧ map_get (in_sessionId j) (rs_sessions w) = None;
  cp_uuids : non_empty (ii_uuid i) = true ∧ non_empty (in_uuid j) = true;
  cp_sent : iso_range (ii_envelopeNow i) ∧ Z.abs (ii_envelopeNow i - in_verifyNow j) <= DEFAULT_SKEW;
  cp_live : iso_range (ii_now i + hi_challengeExpiryMs n) ∧ in_now j < ii_now i + hi_challengeExpiryMs n;
  cp_answered : iso_range (in_responseNow j) ∧ iso_range (in_ackNow j) ∧ Z.abs (in_ackNow j - ii_verifyNow i) <= DEFAULT_SKEW }.

Lemma offered_challenge n ps i : offered (make_challenge n ps i) = hi_preference n.
Proof. unfold offered, make_challenge. cbn. by destruct (decide (hi_preference n = OFF)) as [->|]. Qed.

(** The initiator's envelope passes the responder's checks. *)
Lemma init_vetted n ps i h j w mode fp iseed rseed :
  compatible n ps i h j w mode fp iseed rseed →
  ∃ e, init_envelope n ps i = Ok e ∧ vetted h e j (challenge_json (make_challenge n ps i)).
Proof.
  intros [Hcalled (Hib & Hil & Hik) _ Hikey _ Hch Hauth _ _ _ _ _ [Hu _] [Hsent Hskew] [Hex Hlive] _].
  destruct (challenge_schema_inv _ Hch) as (_ & Hd1 & Hd2 & _). cbn in Hd1, Hd2.
  unfold init_envelope. set (bp := mkBuildParams _ _ _ _ _ _ _ _ _ _).
  destruct (build_envelope_total bp (ii_uuid i) (ii_envelopeNow i) iseed) as [e He]; try done.
  { pose proof (challenge_serializable (make_challenge n ps i)) as Hs. cbn -[challenge_json make_challenge] in Hs |- *. by rewrite Hs. }
  exists e. split; [done|].
  destruct (envelope_roundtrip bp (ii_uuid i) (ii_envelopeNow i) e iseed enc_hex (hp_resolvePublicKey h) DEFAULT_SKEW (in_verifyNow j)) as [Hp Hv]; try done.
  { apply handshake_params; auto. }
  apply build_envelope_inv in He as (E & _). split; try done; try (rewrite E; done).
  - rewrite read_challenge_json. by rewrite E.
  - by rewrite read_challenge_json.
  - rewrite read_challenge_json. unfold challenge_expired. cbn [hc_expiresAt make_challenge]. rewrite iso_print_parse by done. apply Z.leb_gt. lia.
  - by rewrite read_challenge_json.
Qed.

(** The keys of an encrypted run. *)
Definition run_keys (n : HandshakeInitiator) (ps : InitiateParams) (i : InitiatorInput) (h : HandshakeResponder) (j : ResponderInput)
    (fingerprint : option string) : HandshakeKeys :=
  let c := make_challenge n ps i in
  let I_epk := toHex (x25519_pub (ii_secretKey i)) in
  let R_epk := toHex (x25519_pub (in_secretKey j)) in
  mkKeys I_epk R_epk (sha256 (textEncode (jcs (transcript_json (responder_transcript h c (default (hi_initiatorDid n) (pa_principalDid ps))
    (pa_capabilityTokenId ps) fingerprint (negotiated (hi_capabilities n) (hp_capabilities h)) (mkOffer (hi_preference n) I_epk) R_epk
    (toISOString (in_responseNow j))))))).
Definition run_outcome (n : HandshakeInitiator) (ps : InitiateParams) (i : InitiatorInput) (h : HandshakeResponder) (j : ResponderInput)
    (mode : EncryptionPreference) (fingerprint : option string) : option HandshakeKeys :=
  if decide (mode = REQUIRED) then Some (run_keys n ps i h j fingerprint) else None.

Lemma key_bytes sk : fromHex (toHex (x25519_pub sk)) = Ok (x25519_pub sk).
Proof. apply toHex_fromHex, x25519_pub_bytes. Qed.

Lemma run_agreed n ps i h j w mode fp iseed rseed :
  compatible n ps i h j w mode fp iseed rseed →
  agreed h (make_challenge n ps i) (default (hi_initiatorDid n) (pa_principalDid ps)) (pa_capabilityTokenId ps) fp j (run_outcome n ps i h j mode fp).
Proof.
  intros Hc. pose proof (cp_mode _ _ _ _ _ _ _ _ _ _ Hc) as Hm. pose proof (cp_encrypted _ _ _ _ _ _ _ _ _ _ Hc) as He. unfold agreed, run_outcome.
  rewrite offered_challenge, Hm. destruct (negotiate_modes _ _ _ Hm) as [->|(-> & Hpi & _)]; [done|].
  destruct (decide (REQUIRED = REQUIRED)); [|done]. destruct (He eq_refl) as (Ht & Hf & Hz & s & Hsh). split; [done|]. split; [done|].
  exists (mkOffer (hi_preference n) (toHex (x25519_pub (ii_secretKey i)))). split.
  { unfold make_challenge. cbn [hc_encryption]. by destruct (decide (hi_preference n = OFF)). }
  unfold responder_keys, computeX25519SharedSecret. cbn [of_publicKey]. rewrite key_bytes. cbn [mbind res_bind]. rewrite Hz. cbn [negb check mbind res_bind mret res_ret].
  rewrite Hsh. cbn [mbind res_bind]. rewrite transcript_hash_ok. done.
Qed.

(** The body of the responder's answer satisfies its schema. *)
Lemma run_ack_schema n ps i h j w mode fp iseed rseed :
  compatible n ps i h j w mode fp iseed rseed →
  handshakeAckBody_schema (VObj (ack_json (mkAck (accepted_response h (make_challenge n ps i) fp j (run_outcome n ps i h j mode fp)) true None))) = true.
Proof.
  intros Hc. destruct (challenge_schema_inv _ (cp_challenge _ _ _ _ _ _ _ _ _ _ Hc)) as (H1' & _ & Hd & Hn & Hcap).
  apply ack_schema_ok; try done; cbn [accepted_response hr_sessionId hr_responderDid hr_responderCapabilities hr_timestamp hr_encryption].
  - apply (cp_session _ _ _ _ _ _ _ _ _ _ Hc).
  - cbn in Hd. by rewrite (cp_called _ _ _ _ _ _ _ _ _ _ Hc) in Hd.
  - by apply negotiated_names.
  - apply getTime_print, iso_range_year, (cp_answered _ _ _ _ _ _ _ _ _ _ Hc).
  - intros a. unfold answer_for, run_outcome. destruct (decide (mode = REQUIRED)).
    + intros [= <-]. apply answer_schema_ok; cbn [an_negotiatedMode an_publicKey an_fingerprint]; [done| |].
      * intros k [= <-]. apply toHex_key_non_empty.
      * intros f. unfold truthy_str. destruct fp as [x0|]; [|done]. destruct (non_empty x0) eqn:E; [|done]. by intros [= <-].
    + destruct (decide _); [done|]. intros [= <-]. by apply answer_schema_ok.
Qed.

Lemma truthy_some s : non_empty s = true → truthy_str (Some s) = Some s.
Proof. intros E. cbn. by rewrite E. Qed.

(** What the initiator makes of the answer. *)
Definition initiator_encryption (n : HandshakeInitiator) (keys : option HandshakeKeys) : option (EncryptionPreference * option HandshakeKeys) :=
  match keys with
  | Some k => Some (REQUIRED, Some k)
  | None => if decide (hi_preference n = OFF) then None else Some (OFF, None)
  end.

Lemma run_encryption n ps i h j w mode fp iseed rseed :
  compatible n ps i h j w mode fp iseed rseed →
  check_encryption n ps i (make_challenge n ps i) (accepted_response h (make_challenge n ps i) fp j (run_outcome n ps i h j mode fp))
    (negotiated (hi_capabilities n) (hp_capabilities h)) = Ok (initiator_encryption n (run_outcome n ps i h j mode fp)).
Proof.
  intros Hc. pose proof (cp_mode _ _ _ _ _ _ _ _ _ _ Hc) as Hm. pose proof (cp_encrypted _ _ _ _ _ _ _ _ _ _ Hc) as He.
  unfold check_encryption, initiator_encryption, run_outcome. cbn [accepted_response hr_encryption hr_timestamp]. rewrite offered_challenge.
  destruct (negotiate_modes _ _ _ Hm) as [->|(-> & Hpi & _)].
  - destruct (decide (OFF = REQUIRED)) as [[=]|_]. destruct (decide (hi_preference n = OFF)) as [E|E]; [done|]. cbn [answer_for].
    destruct (decide (hi_preference n = OFF)); [done|]. cbn [an_negotiatedMode]. destruct (decide (OFF = REQUIRED)) as [[=]|_].
    rewrite bool_decide_false; [done|]. intros E'. rewrite E' in Hm. by destruct (hp_preference h).
  - destruct (decide (REQUIRED = REQUIRED)); [|done]. destruct (decide (hi_preference n = OFF)); [done|]. cbn [answer_for an_negotiatedMode].
    destruct (decide (REQUIRED = REQUIRED)); [|done]. destruct (He eq_refl) as (Ht & (f & Hf) & _ & s & Hsh).
    cbn [an_publicKey run_keys hk_responderPublicKey]. rewrite (truthy_some (toHex _)) by apply toHex_key_non_empty. cbn [demand mbind res_bind an_confirmation hk_transcriptHash].
    cbv beta zeta delta [run_keys]. cbn [hk_transcriptHash]. rewrite (hex_non_empty (take 16 (sha256 _))) by (rewrite length_take, (proj2 (sha256_bytes _)); done). cbn [check mbind res_bind mret res_ret].
    cbn [an_fingerprint]. rewrite Hf. assert (non_empty f = true) as Hne.
    { unfold truthy_str in Hf. destruct fp as [x0|]; [|done]. destruct (non_empty x0) eqn:E; [|done]. by injection Hf as ->. }
    rewrite (truthy_some f Hne), (bool_decide_true (is_Some (Some f))), orb_true_r by done. cbn [check mbind res_bind mret res_ret]. rewrite key_bytes. cbn [mbind res_bind].
    unfold computeX25519SharedSecret. rewrite x25519_agree, Hsh. cbn [mbind res_bind]. rewrite transcript_hash_ok. cbn [mbind res_bind].
    assert (fp = Some f) as -> by (unfold truthy_str in Hf; destruct fp as [x0|]; [|done]; by destruct (non_empty x0)).
    unfold initiator_transcript, responder_transcript. cbn. rewrite (cp_called _ _ _ _ _ _ _ _ _ _ Hc). 
    rewrite String.eqb_refl. done.
Qed.

Lemma run_session h c principal token fp j encrypted m :
  map_get (in_sessionId j) m = None →
  ∃ s m', Sessions.store_create (in_createNow j) (session_input h c principal token fp j encrypted) m = (Ok s, m').
Proof.
  intros Hs. unfold Sessions.store_create. cbn [Sessions.ci_sessionId session_input]. rewrite Hs. unfold lift_res, mbind, M_bind, Sessions.new_session.
  cbn [Sessions.ci_sessionKeyFingerprint session_input]. rewrite (bool_decide_false (is_Some None)) by (by intros []). rewrite andb_false_r.
  eexists. eexists. reflexivity.
Qed.

(** When the initiator accepts an answer. *)
Lemma check_ack_read n ps i e r caps enc :
  parseEnvelope (VObj (envelope_json e)) = Ok (VObj (envelope_json e)) →
  verifyEnvelope e (hi_resolvePublicKey n) DEFAULT_SKEW (ii_verifyNow i) = Ok None →
  ne_messageType e = "HANDSHAKE_ACK" → eh_senderDid (ne_header e) = pa_responderDid ps → ne_body e = ack_json (mkAck r true None) →
  handshakeAckBody_schema (VObj (ack_json (mkAck r true None))) = true → hr_nonce r = ii_nonce i → hr_challengeId r = ii_challengeId i →
  hr_responderDid r = pa_responderDid ps → negotiated (hr_responderCapabilities r) (hi_capabilities n) = caps →
  check_encryption n ps i (make_challenge n ps i) r caps = Ok enc → check_ack n ps i e = Ok (mkResult (hr_sessionId r) caps enc).
Proof.
  intros Hp Hv Ht Hs Hb Hsch Hn Hid Hr <- He. unfold check_ack. rewrite Hp. cbn [mbind res_bind]. rewrite Hv. cbn [mbind res_bind].
  rewrite Ht, Hs, Hb, Hsch, read_ack_json. cbn [ack_response ack_accepted]. rewrite Hn, Hid, Hr, !String.eqb_refl, (bool_decide_true (None = None)) by done.
  cbn [check mbind res_bind mret res_ret String.eqb Ascii.eqb Bool.eqb]. by rewrite He.
Qed.

(** C10.  Between compatible parties the handshake succeeds: the responder answers the
    initiator's envelope, the initiator accepts the answer, and the two hold the
    same session id, capabilities and, exactly when the matrix says so, the same
    keys and transcript. *)
Theorem handshake_completes n ps i h j w mode fp iseed rseed :
  compatible n ps i h j w mode fp iseed rseed →
  ∃ e a w', init_envelope n ps i = Ok e ∧ respond h e j w = (Ok a, w')
    ∧ rs_last w' = Some (responder_result h (make_challenge n ps i) j (run_outcome n ps i h j mode fp))
    ∧ ∀ net, net e = answered (Some a) →
        attemptHandshake n ps i net
        = Ok (mkResult (in_sessionId j) (negotiated (hi_capabilities n) (hp_capabilities h))
                (initiator_encryption n (run_outcome n ps i h j mode fp))).
Proof.
  intros Hc. destruct (init_vetted _ _ _ _ _ _ _ _ _ _ Hc) as (e & He & Hv). pose proof (run_agreed _ _ _ _ _ _ _ _ _ _ Hc) as Hag.
  pose proof (run_ack_schema _ _ _ _ _ _ _ _ _ _ Hc) as Hsch. pose proof (run_encryption _ _ _ _ _ _ _ _ _ _ Hc) as Henc.
  destruct (challenge_schema_inv _ (cp_challenge _ _ _ _ _ _ _ _ _ _ Hc)) as (_ & Hd1 & Hd2 & _). cbn [hc_initiatorDid hc_responderDid make_challenge] in Hd1, Hd2.
  destruct Hc as [Hcalled _ (Hrb & Hrl & Hrk) _ Hrkey _ _ Hval Hmode _ Hnonce [_ Hsid] [_ Hu] _ _ (_ & Hack & Hskew)].
  set (c := make_challenge n ps i) in *. set (keys := run_outcome n ps i h j mode fp) in *.
  destruct (build_envelope_total (accepted_params h c fp j keys) (in_uuid j) (in_ackNow j) rseed) as [a Ha]; try done; [apply ack_serializable|].
  destruct (run_session h c (default (hi_initiatorDid n) (pa_principalDid ps)) (pa_capabilityTokenId ps) fp j (bool_decide (is_Some keys)) (rs_sessions w) Hsid) as (s & m' & Hst).
  set (w' := mkResponderState (ii_nonce i :: rs_nonces w) (if hp_hasStore h then m' else rs_sessions w) (Some (responder_result h c j keys))).
  assert (respond h e j w = (Ok a, w') ∧ accepts a = true) as [Hr Hacc].
  { apply respond_accepts. exists (challenge_json c). split; [done|]. rewrite read_challenge_json. split; [done|]. apply accept_challenge_spec.
    exists (default (hi_initiatorDid n) (pa_principalDid ps)), (pa_capabilityTokenId ps), fp, keys. split; [|done]. split_and!; try done.
    cbn [rs_sessions w']. destruct (hp_hasStore h); [by exists s|done]. }
  exists e, a, w'. split_and!; try done. intros net Hnet. unfold attemptHandshake. rewrite He. cbn [mbind res_bind]. rewrite Hnet.
  destruct (envelope_roundtrip (accepted_params h c fp j keys) (in_uuid j) (in_ackNow j) a rseed enc_hex (hi_resolvePublicKey n) DEFAULT_SKEW (ii_verifyNow i))
    as [Hp Hve]; try done.
  { apply handshake_params; [by rewrite <- Hcalled|done|by right]. }
  apply build_envelope_inv in Ha as (E & _). apply (check_ack_read n ps i a (accepted_response h c fp j keys)); try done.
  - by rewrite E.
  - by rewrite E, Hcalled.
  - by rewrite E.
  - cbn [accepted_response hr_responderCapabilities hc_initiatorCapabilities c make_challenge]. by rewrite negotiated_twice.
Qed.

(** The keys that either end can derive after an encrypted handshake are the same,
    and the two handles made of them mirror each other, which is what delivery over
    the encrypted session needs. *)
Theorem handshake_opens_channel n ps i h j w fp iseed rseed :
  compatible n ps i h j w REQUIRED fp iseed rseed →
  ∃ s, computeX25519SharedSecret (ii_secretKey i) (x25519_pub (in_secretKey j)) = Ok s
    ∧ computeX25519SharedSecret (in_secretKey j) (x25519_pub (ii_secretKey i)) = Ok s
    ∧ let d := deriveSessionKeys s (hk_transcriptHash (run_keys n ps i h j fp)) in
      let data := SecureChannel.mkSessionData (dk_traffic d) (dk_sessionSalt d) (dk_rekeyChainKey d) 0 in
      SecureChannel.mirrored (SecureChannel.new_handle (in_sessionId j) initiator (pa_capabilityTokenId ps) data SecureChannel.ACTIVE)
        (SecureChannel.new_handle (in_sessionId j) responder (pa_capabilityTokenId ps) data SecureChannel.ACTIVE).
Proof.
  intros Hc. destruct (cp_encrypted _ _ _ _ _ _ _ _ _ _ Hc eq_refl) as (_ & _ & _ & s & Hs). exists s. unfold computeX25519SharedSecret.
  rewrite x25519_agree, Hs. split; [done|]. split; [done|]. split; try done; [|split; [|done]|by left].
  - apply hkdf_expand_bytes.
  - apply hkdf_expand_bytes.
Qed.
End honest.
