(* ===== verification/HandshakeExamples.v ===== *)
(** * Concrete handshakes

    An initiator and a responder over the toy primitives of ToyPrimitives.v and
    SecureChannelExamples.v: the values at which the theorems of Envelope.v and
    Handshake.v are applied, and runs of every row of the compatibility matrix. *)
From S2P Require Import Prelude JsValue Time Encoding Crypto ToyPrimitives Authorization SignedPayload.
From S2P Require Import Encryption SecureChannelExamples Envelope Handshake.
From S2P Require Sessions SecureChannel.
Open Scope Z_scope.

Definition hx_idid : string := "did:agent:1111111111111111111111111111111111111111".
Definition hx_rdid : string := "did:agent:2222222222222222222222222222222222222222".
Definition hx_iseed : bytes := replicate 32 7.
Definition hx_rseed : bytes := replicate 32 9.
Definition hx_port : KeyPort := λ did,
  Ok (if String.eqb did hx_idid then Some (toHex (ed25519_pub hx_iseed))
      else if String.eqb did hx_rdid then Some (toHex (ed25519_pub hx_rseed)) else None).
Definition hx_now : Z := 1780272000000.

Definition hx_initiator (p : EncryptionPreference) : HandshakeInitiator :=
  mkInitiator hx_idid (toHex hx_iseed) hx_port 300000 ["INQUIRY"; "QUOTE"; "CONFIRM"] 2 p.
Definition hx_responder (p : EncryptionPreference) : HandshakeResponder :=
  mkResponder hx_rdid (toHex hx_rseed) (λ _, Ok true) hx_port ["CONFIRM"; "QUOTE"; "RECORD"] true
    (Some (λ _ principal token, Ok (mkHav true principal token (Some "fp-1")))) p.
Definition hx_token : string := "urn:cap:123e4567-e89b-42d3-a456-426614174000".
Definition hx_params : InitiateParams := mkInitiate hx_rdid None (Some hx_token).
Definition hx_nonce (d : string) : string := String.concat "" (replicate 32 d).
Definition hx_i : InitiatorInput :=
  mkInitiatorInput (hx_nonce "a1") hx_now "123e4567-e89b-42d3-a456-426614174000" (replicate 32 3) "env-1" (hx_now + 1) (hx_now + 90).
Definition hx_j : ResponderInput :=
  mkResponderInput (hx_now + 20) (hx_now + 30) (hx_now + 40) (hx_now + 50) (hx_now + 60) "session-1" (replicate 32 5) "env-2".
Definition hx_w : ResponderState := mkResponderState [] [] None.

(** The network that delivers to the responder. *)
Definition hx_net (h : HandshakeResponder) (j : ResponderInput) (w : ResponderState) : NegotiationEnvelope → TransportOutcome := λ e,
  match (respond h e j w).1 with Ok a => answered (Some a) | Throw code => protocol_error code end.

Definition hx_mode (pi pr : EncryptionPreference) : res (option EncryptionPreference) :=
  r ← attemptHandshake (hx_initiator pi) hx_params hx_i (hx_net (hx_responder pr) hx_j hx_w);
  mret (fst <$> hs_encryption r).

(** The matrix, for every pair of preferences. *)
Example hx_matrix :
  (λ pi, hx_mode pi <$> [OFF; OPT_IN; REQUIRED]) <$> [OFF; OPT_IN; REQUIRED]
  = [[Ok None; Ok None; Throw "ENCRYPTION_REQUIRED"];
     [Ok (Some OFF); Ok (Some OFF); Ok (Some REQUIRED)];
     [Throw "ENCRYPTION_REQUIRED"; Ok (Some REQUIRED); Ok (Some REQUIRED)]].
Proof. vm_compute. reflexivity. Qed.

Lemma hx_seeds : Forall is_byte hx_iseed ∧ Forall is_byte hx_rseed.
Proof. split; apply Forall_replicate; by split. Qed.

Lemma hx_compatible :
  compatible (hx_initiator REQUIRED) hx_params hx_i (hx_responder OPT_IN) hx_j hx_w REQUIRED (Some "fp-1") hx_iseed hx_rseed.
Proof.
  split; try (vm_compute; reflexivity); try (split_and!; [apply hx_seeds|reflexivity..]).
  - intros _. split_and!; first [vm_compute; reflexivity | eexists; vm_compute; reflexivity].
  - apply not_elem_of_nil.
  - split; reflexivity.
  - split; reflexivity.
  - vm_compute. split; [split|]; discriminate.
  - vm_compute. split; [split; discriminate|reflexivity].
  - vm_compute. repeat split; discriminate.
Qed.

Lemma handshake_completes_witness :
  ∃ e a w', init_envelope (hx_initiator REQUIRED) hx_params hx_i = Ok e ∧ respond (hx_responder OPT_IN) e hx_j hx_w = (Ok a, w')
    ∧ ∃ k r, rs_last w' = Some (mkResult "session-1" ["QUOTE"; "CONFIRM"] (Some (REQUIRED, Some k)))
        ∧ attemptHandshake (hx_initiator REQUIRED) hx_params hx_i (λ _, answered (Some a)) = Ok r ∧ hs_encryption r = Some (REQUIRED, Some k).
Proof.
  destruct (handshake_completes _ _ _ _ _ _ _ _ _ _ hx_compatible) as (e & a & w' & He & Hr & Hl & Hn).
  exists e, a, w'. split; [exact He|]. split; [exact Hr|].
  exists (run_keys (hx_initiator REQUIRED) hx_params hx_i (hx_responder OPT_IN) hx_j (Some "fp-1")). eexists.
  split; [exact Hl|]. split; [apply (Hn (λ _, answered (Some a)) eq_refl)|reflexivity].
Defined.

Lemma handshake_opens_channel_witness :
  ∃ s, computeX25519SharedSecret (ii_secretKey hx_i) (x25519_pub (in_secretKey hx_j)) = Ok s
    ∧ computeX25519SharedSecret (in_secretKey hx_j) (x25519_pub (ii_secretKey hx_i)) = Ok s.
Proof.
  destruct (handshake_opens_channel _ _ _ _ _ _ _ _ _ hx_compatible) as (s & H1 & H2 & _). exists s. split; [exact H1|exact H2].
Defined.

(** A run with one timeout before the answer. *)
Definition hx_flaky (k : nat) : NegotiationEnvelope → TransportOutcome :=
  match k with O => λ _, timed_out | S _ => hx_net (hx_responder OPT_IN) hx_j hx_w end.

Lemma hx_result_ok : ∃ r, initiate (hx_initiator REQUIRED) hx_params (λ _, hx_i) hx_flaky = Ok r.
Proof. eexists. vm_compute. reflexivity. Qed.

Lemma required_never_downgraded_witness :
  ∃ r k, initiate (hx_initiator REQUIRED) hx_params (λ _, hx_i) hx_flaky = Ok r ∧ hs_encryption r = Some (REQUIRED, Some k).
Proof.
  destruct hx_result_ok as [r E].
  destruct (required_never_downgraded (hx_initiator REQUIRED) hx_params (λ _, hx_i) hx_flaky r eq_refl E) as (_ & _ & _ & _ & k & _ & _ & _ & _ & _ & Hk & _).
  exists r, k. split; [exact E|exact Hk].
Defined.

Definition hx_init : NegotiationEnvelope :=
  match init_envelope (hx_initiator REQUIRED) hx_params hx_i with Ok e => e | Throw _ => mkEnvelope "" "" (mkHeader "" "" None None None) "" [] "" "" end.

Lemma hx_answer_ok : ∃ a w', respond (hx_responder REQUIRED) hx_init hx_j hx_w = (Ok a, w') ∧ accepts a = true.
Proof. eexists _, _. split; vm_compute; reflexivity. Qed.

Lemma accepted_challenge_checked_witness :
  ∃ a w' s, respond (hx_responder REQUIRED) hx_init hx_j hx_w = (Ok a, w') ∧ map_get "session-1" (rs_sessions w') = Some s ∧ Sessions.se_state s = Sessions.ACTIVE.
Proof.
  destruct hx_answer_ok as (a & w' & E & Ha).
  destruct (accepted_challenge_checked (hx_responder REQUIRED) hx_init hx_j hx_w a w' E Ha) as (o & _ & _ & _ & _ & Hs & _).
  destruct (Hs eq_refl) as [_ (s & H1 & H2)]. exists a, w', s. split; [exact E|]. split; [exact H1|exact H2].
Defined.

(** ** Envelopes *)

Definition hx_build : BuildEnvelopeParams :=
  mkBuildParams hx_idid (toHex hx_iseed) hx_rdid (Some "session-1") "NEGOTIATION_REQUEST" [("price", VNum (Fin 12))] (Some (Fin 4)) (Some hx_token) None None.

Lemma hx_build_ok : ∃ e, buildEnvelope hx_build "env-3" hx_now = Ok e ∧ detectEncoding (ne_signature e) = enc_base64url.
Proof. eexists. split; vm_compute; reflexivity. Qed.

Lemma envelope_roundtrip_witness :
  ∃ e, buildEnvelope hx_build "env-3" hx_now = Ok e ∧ verifyEnvelope e hx_port 300000 (hx_now + 299999) = Ok None.
Proof.
  destruct hx_build_ok as (e & He & Hd). exists e. split; [exact He|].
  apply (envelope_roundtrip hx_build "env-3" hx_now e hx_iseed enc_hex hx_port 300000 (hx_now + 299999)).
  - apply hx_seeds.
  - reflexivity.
  - reflexivity.
  - split; cbn [hx_build be_senderDid be_recipientDid be_messageType be_capabilityTokenRef]; try (vm_compute; reflexivity).
    + apply list_elem_of_further, list_elem_of_here.
    + do 2 apply list_elem_of_further. apply list_elem_of_here.
  - reflexivity.
  - exact He.
  - intros _. exact Hd.
  - reflexivity.
  - vm_compute. split; discriminate.
  - vm_compute. discriminate.
Defined.

Lemma envelope_text_determines_witness :
  let e := mkEnvelope "env-4" "0.1.0" (mkHeader hx_idid hx_rdid None None None) "ERROR" (error_body SESSION_NOT_FOUND None (Some "env-3")) "sig" (toISOString hx_now) in
  let e' := mkEnvelope "env-4" "0.1.0" (mkHeader hx_idid hx_rdid None None None) "ERROR"
              [("code", VStr "SESSION_NOT_FOUND"); ("message", VStr "The requested session was not found."); ("relatedEnvelopeId", VStr "env-3")] "sig" (toISOString hx_now) in
  e = e'.
Proof. intros e e'. apply envelope_text_determines; vm_compute; reflexivity. Defined.

(** ** Edges *)

Definition hx_serve (h : HandshakeResponder) (e : NegotiationEnvelope) (w : ResponderState) : res (option string) * ResponderState :=
  let '(r, w') := respond h e hx_j w in (a ← r; mret (ack_reason (read_ack (ne_body a))), w').

(** The nonce is spent as soon as the initiator is authorized: the initiator that
    sends its challenge again, after a negotiation that failed, is told that it
    replays. *)
Theorem failed_negotiation_spends_nonce :
  let '(first, w) := hx_serve (hx_responder OFF) hx_init hx_w in
  first = Throw "ENCRYPTION_REQUIRED"
  ∧ (hx_serve (hx_responder OPT_IN) hx_init w).1 = Ok (Some "Duplicate nonce (suspected replay attack)")
  ∧ (hx_serve (hx_responder OPT_IN) hx_init hx_w).1 = Ok None.
Proof. vm_compute. done. Qed.

(** The version gate of a token reference lets only 0.2.0 through, so an envelope
    of version 0.3.0 with a token is built but never parsed. *)
Theorem newest_version_refused_with_token :
  let ps := mkBuildParams hx_idid (toHex hx_iseed) hx_rdid None "NEGOTIATION_REQUEST" [] None (Some hx_token) None (Some "0.3.0") in
  match buildEnvelope ps "env-5" hx_now with
  | Ok e => parseEnvelope (VObj (envelope_json e)) = Throw "SPEC_VERSION_MISMATCH" ∧ verifyEnvelope e hx_port 300000 hx_now = Ok None
  | Throw _ => False
  end.
Proof. vm_compute. done. Qed.
