(* ===== verification/BridgeScope.v ===== *)
(** * The scope validator of the MCP bridge

    Models packages/communication/src/bridge/scope-validator.ts over the four
    tables of packages/communication/sql/028 to 031: the counters of calls per
    token and day and of value per token and currency, and the two tables of
    idempotency keys.  A SERIALIZABLE transaction is one step; what other
    transactions commit before an attempt, and whether Postgres aborts the
    attempt with SQLSTATE 40001, are arguments.

    A column of type UUID compares without regard to case, so that the keys of
    the tables hold the token in lower case.  A day is its ISO text.  Counts are
    integers of 32 bits; the total is NUMERIC(20, 2), kept in hundredths, while
    the amounts of calls and claims are in thousandths, a unit that shows the
    rounding of the column. *)
From S2P Require Import Prelude JsValue Time Encoding Crypto Authorization SignedPayload.
Open Scope Z_scope.

(** ** Data *)

Record ScopeClaim : Type := mkScopeClaim {
  sc_dim : string;
  sc_value : num;
  sc_currency : option string }.

Record MCPCallArguments : Type := mkCallArguments {
  ca_numeric_limit : option num;
  ca_value : option num;
  ca_currency : option string }.

Record ValidateScopeInput : Type := mkScopeInput {
  vs_arguments : MCPCallArguments;
  vs_disclosedClaims : list ScopeClaim;
  vs_tokenId : string;
  vs_requestIdempotencyKey : string }.

Inductive ValidateScopeResult : Type :=
| scope_ok
| scope_reject (code mcp_code : string).
#[export] Instance ValidateScopeResult_eq_dec : EqDecision ValidateScopeResult.
Proof. solve_decision. Defined.

(** A row of either table of idempotency keys. *)
Record IdempotencyRow : Type := mkIdem {
  id_result : string;
  id_code : option string;
  id_mcp_code : option string }.

Record ScopeTables : Type := mkScopeTables {
  t_quotaIdem : gmap (string * string) IdempotencyRow;
  t_quota : gmap (string * string) Z;
  t_valueIdem : gmap (string * string * string) IdempotencyRow;
  t_value : gmap (string * string) num }.

(** ** Before the transaction *)

(** [/^[0-9a-f]{8}-[0-9a-f]{4}-[0-9a-f]{4}-[0-9a-f]{4}-[0-9a-f]{12}$/i] *)
Definition isUuidFormat (s : string) : bool :=
  matches_template (chars "xxxxxxxx-xxxx-xxxx-xxxx-xxxxxxxxxxxx") (to_lower <$> chars s).
Definition pg_uuid (s : string) : string := str (to_lower <$> chars s).

Definition find_claim (dim : string) (claims : list ScopeClaim) : option ScopeClaim := find (λ c, String.eqb (sc_dim c) dim) claims.

(** The claims a call is checked against; those on the value only when there is
    one. *)
Definition perDayClaim (i : ValidateScopeInput) : option ScopeClaim := find_claim "max_per_day" (vs_disclosedClaims i).
Definition perCallClaim (i : ValidateScopeInput) : option ScopeClaim :=
  match ca_value (vs_arguments i) with Some _ => find_claim "max_value_per_call" (vs_disclosedClaims i) | None => None end.
Definition totalClaim (i : ValidateScopeInput) : option ScopeClaim :=
  match ca_value (vs_arguments i) with Some _ => find_claim "max_total_value" (vs_disclosedClaims i) | None => None end.

(** Steps 0 to 2: the rejection, if there is one. *)
Definition pre_check (i : ValidateScopeInput) : option ValidateScopeResult :=
  let args := vs_arguments i in
  if negb (isUuidFormat (vs_tokenId i)) then Some (scope_reject "TOKEN_ID_INVALID_FORMAT" "mcp_error_token_id_invalid_format")
  else
  let step1 :=
    match ca_numeric_limit args with
    | None => None
    | Some n =>
        match find_claim "max_per_call" (vs_disclosedClaims i) with
        | None => Some (scope_reject "AP_CLAIM_MISSING" "mcp_error_no_per_call_scope")
        | Some c => if num_gtb n (sc_value c) then Some (scope_reject "SCOPE_INFLATION_PER_CALL" "mcp_error_scope_inflation") else None
        end
    end in
  match step1 with
  | Some r => Some r
  | None =>
      let enforced := match perCallClaim i with Some c => Some c | None => totalClaim i end in
      let step2 :=
        match enforced with
        | None => None
        | Some c =>
            match ca_currency args with
            | None => Some (scope_reject "CURRENCY_MISSING" "mcp_error_currency_missing")
            | Some cur =>
                if negb (bool_decide (sc_currency c = Some cur)) then Some (scope_reject "CURRENCY_MISMATCH" "mcp_error_currency_mismatch")
                else match perCallClaim i, totalClaim i with
                     | Some p, Some t =>
                         if bool_decide (sc_currency p = sc_currency t) then None
                         else Some (scope_reject "CURRENCY_CLAIM_INCONSISTENT" "mcp_error_scope_inflation")
                     | _, _ => None
                     end
            end
        end in
      match step2 with
      | Some r => Some r
      | None =>
          match perCallClaim i, ca_value args with
          | Some p, Some v => if num_gtb v (sc_value p) then Some (scope_reject "SCOPE_INFLATION_VALUE" "mcp_error_scope_inflation") else None
          | _, _ => None
          end
      end
  end.

(** ** Postgres arithmetic *)

Definition INT4_MAX : Z := 2 ^ 31 - 1.

(** The text of a number as a parameter of type integer. *)
Definition pg_int4 (n : num) : res Z :=
  match n with
  | Fin z => if (- 2 ^ 31 <=? z) && (z <=? INT4_MAX) then Ok z else Throw "22003"
  | _ => Throw "22P02"
  end.

(** Rounding thousandths to hundredths, half away from zero. *)
Definition round2 (z : Z) : Z := Z.sgn z * ((Z.abs z + 5) / 10).

(** The value of the column for a number of thousandths: NaN is a value of the
    type, an infinity does not fit a declared precision. *)
Definition pg_total (n : num) : res num :=
  match n with
  | Fin z => if Z.abs (round2 z) <? 10 ^ 20 then Ok (Fin (round2 z)) else Throw "22003"
  | NaN => Ok NaN
  | _ => Throw "22003"
  end.

(** The total in thousandths. *)
Definition thousandths (total : num) : num := match total with Fin z => Fin (10 * z) | n => n end.

(** NUMERIC is totally ordered, with NaN above everything. *)
Definition pg_leb (a b : num) : bool :=
  match a, b with
  | _, NaN => true
  | NaN, _ => false
  | _, _ => num_leb a b
  end.

(** ** The transaction *)

Inductive ScopeTxBodyResult : Type :=
| tx_commit (outcome : ValidateScopeResult)
| tx_rollback (outcome : ValidateScopeResult).

Definition pending : IdempotencyRow := mkIdem "pending" None None.
Definition set_ok (r : IdempotencyRow) : IdempotencyRow := mkIdem "ok" (id_code r) (id_mcp_code r).

(** What a row that was already there says: go on, an answer, or a race. *)
Definition cached_answer (r : IdempotencyRow) (mcp race : string) : res (option ValidateScopeResult) :=
  if String.eqb (id_result r) "ok" then Ok None
  else if String.eqb (id_result r) "fail"
  then Ok (Some (scope_reject (default "CACHED_FAIL" (id_code r)) (default mcp (id_mcp_code r))))
  else Throw race.

(** INSERT of one call, or UPDATE within the limit; no row is returned when the
    limit is reached. *)
Definition quota_increment (token day : string) (limit : Z) (w : ScopeTables) : res (option ScopeTables) :=
  match t_quota w !! (token, day) with
  | None => Ok (Some (mkScopeTables (t_quotaIdem w) (<[(token, day) := 1]> (t_quota w)) (t_valueIdem w) (t_value w)))
  | Some n =>
      if INT4_MAX <? n + 1 then Throw "22003"
      else if n + 1 <=? limit
      then Ok (Some (mkScopeTables (t_quotaIdem w) (<[(token, day) := n + 1]> (t_quota w)) (t_valueIdem w) (t_value w)))
      else Ok None
  end.

(** The row to insert is formed first, so that an amount that does not fit the
    column fails also where a row is there; the sum of the UPDATE takes the
    amount as it was passed. *)
Definition value_increment (token currency : string) (value limit : num) (w : ScopeTables) : res (option ScopeTables) :=
  total_value ← pg_total value;
  match t_value w !! (token, currency) with
  | None =>
      mret (Some (mkScopeTables (t_quotaIdem w) (t_quota w) (t_valueIdem w) (<[(token, currency) := total_value]> (t_value w))))
  | Some n =>
      let sum := num_add (thousandths n) value in
      if pg_leb sum limit
      then total ← pg_total sum;
           mret (Some (mkScopeTables (t_quotaIdem w) (t_quota w) (t_valueIdem w) (<[(token, currency) := total]> (t_value w))))
      else Ok None
  end.

Definition with_quotaIdem (k : string * string) (r : IdempotencyRow) (w : ScopeTables) : ScopeTables :=
  mkScopeTables (<[k := r]> (t_quotaIdem w)) (t_quota w) (t_valueIdem w) (t_value w).
Definition with_valueIdem (k : string * string * string) (r : IdempotencyRow) (w : ScopeTables) : ScopeTables :=
  mkScopeTables (t_quotaIdem w) (t_quota w) (<[k := r]> (t_valueIdem w)) (t_value w).

(** Steps 3.1 to 3.3: an answer ends the transaction. *)
Definition quota_part (key token day : string) (claim : ScopeClaim) : M ScopeTables (option ScopeTxBodyResult) := λ w,
  match t_quotaIdem w !! (key, token) with
  | Some row =>
      match cached_answer row "mcp_error_quota_exhausted" "IDEMPOTENCY_PENDING_RACE" with
      | Throw c => (Throw c, w)
      | Ok a => (Ok (tx_commit <$> a), w)
      end
  | None =>
      let w1 := with_quotaIdem (key, token) pending w in
      let incremented : res (option ScopeTables) := limit ← pg_int4 (sc_value claim); quota_increment token day limit w1 in
      match incremented with
      | Throw c => (Throw c, w1)
      | Ok None => (Ok (Some (tx_rollback (scope_reject "QUOTA_EXHAUSTED_PER_DAY" "mcp_error_quota_exhausted"))), w1)
      | Ok (Some w2) => (Ok None, with_quotaIdem (key, token) (set_ok pending) w2)
      end
  end.

(** Steps 3.4 to 3.6. *)
Definition value_part (key token : string) (claim : ScopeClaim) (value : option num) : M ScopeTables (option ScopeTxBodyResult) := λ w,
  match sc_currency claim with
  | None => (Throw "23502", w)
  | Some currency =>
      match t_valueIdem w !! (key, token, currency) with
      | Some row =>
          match cached_answer row "mcp_error_scope_inflation" "VALUE_IDEMPOTENCY_PENDING_RACE" with
          | Throw c => (Throw c, w)
          | Ok a => (Ok (Some (tx_commit (default scope_ok a))), w)
          end
      | None =>
          let w1 := with_valueIdem (key, token, currency) pending w in
          match value with
          | None => (Ok (Some (tx_rollback (scope_reject "INTERNAL_VALUE_MISSING" "mcp_error_scope_inflation"))), w1)
          | Some v =>
              match value_increment token currency v (sc_value claim) w1 with
              | Throw c => (Throw c, w1)
              | Ok None => (Ok (Some (tx_rollback (scope_reject "TOTAL_VALUE_EXHAUSTED" "mcp_error_scope_inflation"))), w1)
              | Ok (Some w2) => (Ok None, with_valueIdem (key, token, currency) (set_ok pending) w2)
              end
          end
      end
  end.

Definition if_perDay (i : ValidateScopeInput) (day : string) : M ScopeTables (option ScopeTxBodyResult) :=
  match perDayClaim i with Some c => quota_part (vs_requestIdempotencyKey i) (pg_uuid (vs_tokenId i)) day c | None => mret None end.
Definition if_total (i : ValidateScopeInput) : M ScopeTables (option ScopeTxBodyResult) :=
  match totalClaim i with
  | Some c => value_part (vs_requestIdempotencyKey i) (pg_uuid (vs_tokenId i)) c (ca_value (vs_arguments i))
  | None => mret None
  end.

Definition runScopeTxBody (i : ValidateScopeInput) (day : string) : M ScopeTables ScopeTxBodyResult :=
  q ← if_perDay i day;
  match q with
  | Some r => mret r
  | None => v ← if_total i; mret (default (tx_commit scope_ok) v)
  end.

(** ** The operation *)

Definition DEFAULT_SERIALIZABLE_RETRY_MAX : nat := 3.

(** An error whose message holds one of the tokens. *)
Definition isSerializableRetryError (code : string) : bool :=
  bool_decide (code ∈ ["40001"; "IDEMPOTENCY_PENDING_RACE"; "VALUE_IDEMPOTENCY_PENDING_RACE"]).

(** What happens outside before an attempt: the tables after the commits of
    others, and whether the attempt is aborted. *)
Definition Weather : Type := ScopeTables → ScopeTables * bool.

Definition scope_attempt (i : ValidateScopeInput) (day : string) (env : Weather) : M ScopeTables ValidateScopeResult := λ w0,
  let '(w, aborted) := env w0 in
  if aborted : bool then (Throw "40001", w)
  else
    match runScopeTxBody i day w with
    | (Throw c, _) => (Throw c, w)
    | (Ok (tx_rollback o), _) => (Ok o, w)
    | (Ok (tx_commit o), w') => (Ok o, w')
    end.

Fixpoint scope_attempts (n : nat) (i : ValidateScopeInput) (day : string) (env : nat → Weather) (w : ScopeTables)
    : res ValidateScopeResult * ScopeTables :=
  match n with
  | O => (Throw "Error", w)
  | S n' =>
      match scope_attempt i day (env n') w with
      | (Throw c, w') => if isSerializableRetryError c then scope_attempts n' i day env w' else (Throw c, w')
      | r => r
      end
  end.

Definition validateScope (i : ValidateScopeInput) (day : string) (env : nat → Weather) : M ScopeTables ValidateScopeResult := λ w,
  match pre_check i with
  | Some r => (Ok r, w)
  | None =>
      match perDayClaim i, totalClaim i with
      | None, None => (Ok scope_ok, w)
      | _, _ => scope_attempts DEFAULT_SERIALIZABLE_RETRY_MAX i day env w
      end
  end.

(** ** The ledger it implements *)

(** The charges in the order they were made: (key, token, day), and (key, token,
    currency) with an amount. *)
Record Ledger : Type := mkLedger {
  lg_calls : list (string * string * string);
  lg_amounts : list (string * string * string * num) }.

Definition calls_of (token day : string) (l : Ledger) : nat := length (filter (λ c, c.1.2 = token ∧ c.2 = day) (lg_calls l)).

(** The total after one more amount. *)
Definition next_total (acc : option num) (v : num) : res num :=
  pg_total (match acc with Some n => num_add (thousandths n) v | None => v end).
Definition add_amount (acc : option num) (v : num) : option num := match next_total acc v with Ok n => Some n | Throw _ => acc end.
Definition total_of (token currency : string) (l : Ledger) : option num :=
  foldl add_amount None (snd <$> filter (λ c, c.1.1.2 = token ∧ c.1.2 = currency) (lg_amounts l)).

Definition called (key token : string) (l : Ledger) : Prop := Exists (λ c, c.1 = (key, token)) (lg_calls l).
Definition spent (key token currency : string) (l : Ledger) : Prop := Exists (λ c, c.1 = (key, token, currency)) (lg_amounts l).
#[export] Instance called_dec key token l : Decision (called key token l) := _.
#[export] Instance spent_dec key token currency l : Decision (spent key token currency l) := _.

(** A charge of a call: once per key, the first of a day always, and otherwise
    within the limit. *)
Definition charge_call (key token day : string) (limit : num) (l : Ledger) : res (ValidateScopeResult * Ledger) :=
  if decide (called key token l) then Ok (scope_ok, l)
  else
    z ← pg_int4 limit;
    let n := Z.of_nat (calls_of token day l) in
    if (0 <? n) && (INT4_MAX <? n + 1) then Throw "22003"
    else if (n =? 0) || (n + 1 <=? z) then Ok (scope_ok, mkLedger (lg_calls l ++ [(key, token, day)]) (lg_amounts l))
    else Ok (scope_reject "QUOTA_EXHAUSTED_PER_DAY" "mcp_error_quota_exhausted", l).

Definition charge_amount (key token currency : string) (value limit : num) (l : Ledger) : res (ValidateScopeResult * Ledger) :=
  if decide (spent key token currency l) then Ok (scope_ok, l)
  else
    _ ← pg_total value;
    if match total_of token currency l with Some n => pg_leb (num_add (thousandths n) value) limit | None => true end
    then _ ← next_total (total_of token currency l) value;
         Ok (scope_ok, mkLedger (lg_calls l) (lg_amounts l ++ [(key, token, currency, value)]))
    else Ok (scope_reject "TOTAL_VALUE_EXHAUSTED" "mcp_error_scope_inflation", l).

Definition charge_day (i : ValidateScopeInput) (day : string) (l : Ledger) : res (ValidateScopeResult * Ledger) :=
  match perDayClaim i with
  | Some c => charge_call (vs_requestIdempotencyKey i) (pg_uuid (vs_tokenId i)) day (sc_value c) l
  | None => Ok (scope_ok, l)
  end.
Definition charge_total (i : ValidateScopeInput) (l : Ledger) : res (ValidateScopeResult * Ledger) :=
  match totalClaim i, ca_value (vs_arguments i) with
  | Some c, Some v => charge_amount (vs_requestIdempotencyKey i) (pg_uuid (vs_tokenId i)) (default "" (sc_currency c)) v (sc_value c) l
  | _, _ => Ok (scope_ok, l)
  end.

(** One request: both charges or none. *)
Definition ledger_validate (i : ValidateScopeInput) (day : string) (l : Ledger) : res ValidateScopeResult * Ledger :=
  match pre_check i with
  | Some r => (Ok r, l)
  | None =>
      match charge_day i day l with
      | Throw c => (Throw c, l)
      | Ok (scope_reject c m, _) => (Ok (scope_reject c m), l)
      | Ok (scope_ok, l1) =>
          match charge_total i l1 with
          | Throw c => (Throw c, l)
          | Ok (scope_reject c m, _) => (Ok (scope_reject c m), l)
          | Ok (scope_ok, l2) => (Ok scope_ok, l2)
          end
      end
  end.

Definition ok_row : IdempotencyRow := set_ok pending.

(** The tables hold exactly the ledger. *)
Record represents (l : Ledger) (w : ScopeTables) : Prop := mkRepresents {
  rp_quotaIdem k t : t_quotaIdem w !! (k, t) = if decide (called k t l) then Some ok_row else None;
  rp_quota t d : t_quota w !! (t, d) = if decide (calls_of t d l = 0%nat) then None else Some (Z.of_nat (calls_of t d l));
  rp_valueIdem k t c : t_valueIdem w !! (k, t, c) = if decide (spent k t c l) then Some ok_row else None;
  rp_value t c : t_value w !! (t, c) = total_of t c l }.

Lemma called_snoc k t key token day l :
  called k t (mkLedger (lg_calls l ++ [(key, token, day)]) (lg_amounts l)) ↔ called k t l ∨ (k, t) = (key, token).
Proof. unfold called. cbn. rewrite Exists_app, Exists_cons, Exists_nil. naive_solver. Qed.
Lemma spent_snoc k t c key token currency v l :
  spent k t c (mkLedger (lg_calls l) (lg_amounts l ++ [(key, token, currency, v)])) ↔ spent k t c l ∨ (k, t, c) = (key, token, currency).
Proof. unfold spent. cbn. rewrite Exists_app, Exists_cons, Exists_nil. naive_solver. Qed.

Lemma calls_snoc t d key token day l :
  calls_of t d (mkLedger (lg_calls l ++ [(key, token, day)]) (lg_amounts l))
  = (calls_of t d l + if decide (token = t ∧ day = d) then 1 else 0)%nat.
Proof.
  unfold calls_of. cbn. rewrite filter_app, length_app. f_equal. destruct (decide (token = t ∧ day = d)).
  - by rewrite filter_cons_True.
  - by rewrite filter_cons_False.
Qed.
Lemma total_snoc t c key token currency v l :
  total_of t c (mkLedger (lg_calls l) (lg_amounts l ++ [(key, token, currency, v)]))
  = if decide (token = t ∧ currency = c) then add_amount (total_of t c l) v else total_of t c l.
Proof.
  unfold total_of. cbn. rewrite filter_app, fmap_app, foldl_app. destruct (decide (token = t ∧ currency = c)).
  - by rewrite filter_cons_True.
  - by rewrite filter_cons_False.
Qed.

(** The counter of calls implements the charge of a call. *)
Lemma quota_part_refines key token day claim l w :
  represents l w →
  match charge_call key token day (sc_value claim) l with
  | Throw c => (quota_part key token day claim w).1 = Throw c
  | Ok (scope_reject c m, _) => (quota_part key token day claim w).1 = Ok (Some (tx_rollback (scope_reject c m)))
  | Ok (scope_ok, l') => ∃ w', quota_part key token day claim w = (Ok None, w') ∧ represents l' w'
  end.
Proof.
  intros [Hqi Hq Hvi Hv]. unfold charge_call, quota_part. rewrite Hqi. destruct (decide (called key token l)) as [Hc|Hc].
  { exists w. by split. }
  destruct (pg_int4 (sc_value claim)) as [z|c]; [|done]. cbn [mbind res_bind]. unfold quota_increment. cbn [t_quota with_quotaIdem]. rewrite Hq.
  set (n := calls_of token day l). assert (∀ n', n' = Z.of_nat n + 1 →
    represents (mkLedger (lg_calls l ++ [(key, token, day)]) (lg_amounts l))
      (with_quotaIdem (key, token) ok_row (mkScopeTables (<[(key, token) := pending]> (t_quotaIdem w)) (<[(token, day) := n']> (t_quota w)) (t_valueIdem w) (t_value w)))) as Hrep.
  { intros n' ->. split; cbn [with_quotaIdem t_quotaIdem t_quota t_valueIdem t_value]; try done.
    - intros k t. destruct (decide ((k, t) = (key, token))) as [[= -> ->]|Hne].
      + rewrite lookup_insert_eq. rewrite decide_True; [done|]. apply called_snoc. by right.
      + rewrite !lookup_insert_ne, Hqi by congruence. apply decide_ext. rewrite called_snoc. naive_solver.
    - intros t d. rewrite calls_snoc. destruct (decide (token = t ∧ day = d)) as [[<- <-]|Hne].
      + rewrite lookup_insert_eq, decide_False by lia. f_equal. unfold n. lia.
      + rewrite lookup_insert_ne, Hq, Nat.add_0_r by naive_solver. done. }
  destruct (decide (n = 0%nat)) as [E0|E0].
  { rewrite E0 in *. cbn. eexists. split; [done|]. by apply Hrep. }
  rewrite (proj2 (Z.ltb_lt 0 (Z.of_nat n))), (proj2 (Z.eqb_neq (Z.of_nat n) 0)) by lia. cbn [andb orb].
  destruct (INT4_MAX <? Z.of_nat n + 1); [done|]. destruct (Z.of_nat n + 1 <=? z); [|done]. eexists. split; [done|]. by apply Hrep.
Qed.

(** The counter of value implements the charge of an amount. *)
Lemma value_part_refines key token currency claim v l w :
  represents l w → sc_currency claim = Some currency →
  match charge_amount key token currency v (sc_value claim) l with
  | Throw c => (value_part key token claim (Some v) w).1 = Throw c
  | Ok (scope_reject c m, _) => (value_part key token claim (Some v) w).1 = Ok (Some (tx_rollback (scope_reject c m)))
  | Ok (scope_ok, l') =>
      ∃ o w', value_part key token claim (Some v) w = (Ok o, w') ∧ default (tx_commit scope_ok) o = tx_commit scope_ok ∧ represents l' w'
  end.
Proof.
  intros [Hqi Hq Hvi Hv] Ecur. unfold charge_amount, value_part. rewrite Ecur, Hvi. destruct (decide (spent key token currency l)) as [Hs|Hs].
  { exists (Some (tx_commit scope_ok)), w. by split. }
  unfold value_increment, next_total. cbn [t_value with_valueIdem]. rewrite Hv.
  assert (∀ total, next_total (total_of token currency l) v = Ok total →
    represents (mkLedger (lg_calls l) (lg_amounts l ++ [(key, token, currency, v)]))
      (with_valueIdem (key, token, currency) ok_row (mkScopeTables (t_quotaIdem w) (t_quota w) (<[(key, token, currency) := pending]> (t_valueIdem w))
         (<[(token, currency) := total]> (t_value w))))) as Hrep.
  { intros total Et. split; cbn [with_valueIdem t_quotaIdem t_quota t_valueIdem t_value]; try done.
    - intros k t c. destruct (decide ((k, t, c) = (key, token, currency))) as [[= -> -> ->]|Hne].
      + rewrite lookup_insert_eq. rewrite decide_True; [done|]. apply spent_snoc. by right.
      + rewrite !lookup_insert_ne, Hvi by congruence. apply decide_ext. rewrite spent_snoc. naive_solver.
    - intros t c. rewrite total_snoc. destruct (decide (token = t ∧ currency = c)) as [[<- <-]|Hne].
      + rewrite lookup_insert_eq. unfold add_amount. by rewrite Et.
      + by rewrite lookup_insert_ne, Hv by naive_solver. }
  unfold next_total in Hrep. destruct (pg_total v) as [tv|c] eqn:Ev; [|done]. cbn [mbind res_bind].
  destruct (total_of token currency l) as [n|].
  - destruct (pg_leb _ _); [|done]. destruct (pg_total _) as [total|] eqn:Et; [|done]. cbn [mbind res_bind mret res_ret].
    exists None. eexists. split; [done|]. split; [done|]. by apply Hrep.
  - rewrite Ev. cbn [mbind res_bind mret res_ret]. exists None. eexists. split; [done|]. split; [done|]. by apply Hrep.
Qed.

(** A cumulative claim on the value is only reached with a value in the currency
    of the claim. *)
Lemma pre_check_currency i c :
  pre_check i = None → totalClaim i = Some c → is_Some (ca_value (vs_arguments i)) ∧ is_Some (sc_currency c).
Proof.
  intros Hp Ht. assert (is_Some (ca_value (vs_arguments i))) as Hv by (unfold totalClaim in Ht; destruct (ca_value _); [done|discriminate]).
  split; [done|]. revert Hp. unfold pre_check. destruct (isUuidFormat _); [|done]. cbn [negb].
  destruct (match ca_numeric_limit _ with Some _ => _ | None => _ end); [done|]. rewrite Ht. destruct (perCallClaim i) as [p|].
  - destruct (ca_currency _) as [cur|]; [|done]. case_bool_decide as E; [|done]. cbn [negb]. case_bool_decide as E'; [|done]. rewrite <- E', E. done.
  - destruct (ca_currency _) as [cur|]; [|done]. case_bool_decide as E; [|done]. by rewrite E.
Qed.

(** How a part of the transaction implements a charge. *)
Definition implements (part : M ScopeTables (option ScopeTxBodyResult)) (charge : Ledger → res (ValidateScopeResult * Ledger)) : Prop :=
  ∀ l w, represents l w →
  match charge l with
  | Throw c => ∃ w', part w = (Throw c, w')
  | Ok (scope_reject c m, _) => ∃ w', part w = (Ok (Some (tx_rollback (scope_reject c m))), w')
  | Ok (scope_ok, l') => ∃ o w', part w = (Ok o, w') ∧ default (tx_commit scope_ok) o = tx_commit scope_ok ∧ represents l' w'
  end.

Lemma if_total_implements i : pre_check i = None → implements (if_total i) (charge_total i).
Proof.
  intros Hp l w Hr. unfold if_total, charge_total. destruct (totalClaim i) as [c|] eqn:Et; [|by exists None, w].
  destruct (pre_check_currency i c Hp Et) as [(v & Ev) (cur & Ec)]. rewrite Ev, Ec. change (default "" (Some cur)) with cur.
  pose proof (value_part_refines (vs_requestIdempotencyKey i) (pg_uuid (vs_tokenId i)) cur c v l w Hr Ec) as Hv.
  destruct (charge_amount _ _ _ _ _ _) as [[[|co m] l2]|co]; [exact Hv|..];
    destruct (value_part _ _ _ _ _) as [r w2]; cbn in Hv; subst r; by exists w2.
Qed.

(** One transaction implements one request of the ledger, whatever was committed
    before it. *)
Lemma scope_attempt_refines i day env w0 w l :
  pre_check i = None → env w0 = (w, false) → represents l w →
  ∃ w', scope_attempt i day env w0 = ((ledger_validate i day l).1, w') ∧ represents (ledger_validate i day l).2 w'.
Proof.
  intros Hp He Hr. unfold scope_attempt, ledger_validate, runScopeTxBody. rewrite He, Hp. unfold mbind, M_bind.
  assert (match charge_day i day l with
          | Throw c => (if_perDay i day w).1 = Throw c
          | Ok (scope_reject c m, _) => (if_perDay i day w).1 = Ok (Some (tx_rollback (scope_reject c m)))
          | Ok (scope_ok, l') => ∃ w', if_perDay i day w = (Ok None, w') ∧ represents l' w'
          end) as Hq.
  { unfold charge_day, if_perDay. destruct (perDayClaim i); [by apply quota_part_refines|by exists w]. }
  destruct (charge_day i day l) as [[[|co m] l1]|co]; [|destruct (if_perDay i day w) as [r w1]; cbn in Hq; subst r; by exists w..].
  destruct Hq as (w1 & -> & Hr1). pose proof (if_total_implements i Hp l1 w1 Hr1) as Hv. destruct (charge_total i l1) as [[[|co m] l2]|co].
  - destruct Hv as (o & w2 & -> & Eo & Hr2). cbn. rewrite Eo. by exists w2.
  - destruct Hv as (w2 & ->). by exists w.
  - destruct Hv as (w2 & ->). by exists w.
Qed.

(** ** Theorems *)

(** No other transaction. *)
Definition calm : nat → Weather := λ _ w, (w, false).

Lemma charge_day_throws i day l c : charge_day i day l = Throw c → c = "22003" ∨ c = "22P02".
Proof.
  unfold charge_day, charge_call. destruct (perDayClaim i) as [cl|]; [|done]. destruct (decide _); [done|].
  unfold pg_int4. destruct (sc_value cl) as [| | |z]; cbn [mbind res_bind]; try (intros [= <-]; auto).
  destruct ((- 2 ^ 31 <=? z) && _); cbn [mbind res_bind]; [|intros [= <-]; auto].
  destruct (_ && _); [intros [= <-]; auto|]. by destruct (_ || _).
Qed.
Lemma charge_total_throws i l c : charge_total i l = Throw c → c = "22003".
Proof.
  unfold charge_total, charge_amount. destruct (totalClaim i), (ca_value (vs_arguments i)); try done. destruct (decide _); [done|].
  intros Ht. assert (∀ x c', pg_total x = Throw c' → c' = "22003") as Hp
    by (intros x c'; unfold pg_total; destruct x; [done|naive_solver..|]; destruct (_ <? _); naive_solver).
  revert Ht. destruct (pg_total _) eqn:E; cbn [mbind res_bind]; [|intros [= <-]; by eapply Hp].
  destruct (match total_of _ _ _ with Some _ => _ | None => _ end); [|done].
  destruct (next_total _ _) eqn:En; cbn [mbind res_bind]; [done|]. intros [= <-]. by eapply Hp.
Qed.

Lemma ledger_throws i day l c : (ledger_validate i day l).1 = Throw c → c = "22003" ∨ c = "22P02".
Proof.
  unfold ledger_validate. destruct (pre_check i); [done|]. destruct (charge_day i day l) as [[[|] l1]|c1] eqn:E; [|done|].
  - destruct (charge_total i l1) as [[[|] l2]|c2] eqn:E2; [done..|]. intros [= <-]. left. by eapply charge_total_throws.
  - intros [= <-]. by eapply charge_day_throws.
Qed.

(** One request on tables that hold a ledger. *)
Lemma validateScope_refines i day l w :
  represents l w →
  ∃ w', validateScope i day calm w = ((ledger_validate i day l).1, w') ∧ represents (ledger_validate i day l).2 w'.
Proof.
  intros Hr. unfold validateScope. destruct (pre_check i) as [r|] eqn:Hp.
  { unfold ledger_validate. rewrite Hp. by exists w. }
  assert (∃ w', scope_attempts DEFAULT_SERIALIZABLE_RETRY_MAX i day calm w = ((ledger_validate i day l).1, w') ∧ represents (ledger_validate i day l).2 w') as Ht.
  { destruct (scope_attempt_refines i day (calm 2) w w l Hp eq_refl Hr) as (w' & Ha & Hr'). exists w'. split; [|done].
    unfold DEFAULT_SERIALIZABLE_RETRY_MAX. cbn [scope_attempts]. rewrite Ha. destruct (ledger_validate i day l).1 as [|c] eqn:E; [done|].
    by destruct (ledger_throws _ _ _ _ E) as [->| ->]. }
  destruct (perDayClaim i) eqn:Ed, (totalClaim i) eqn:Et; try exact Ht.
  unfold ledger_validate, charge_day, charge_total. rewrite Hp, Ed, Et. by exists w.
Qed.

Definition no_rows : ScopeTables := mkScopeTables ∅ ∅ ∅ ∅.
Definition no_charges : Ledger := mkLedger [] [].
Lemma no_rows_represent : represents no_charges no_rows.
Proof.
  by split; cbn; intros; rewrite lookup_empty.
Qed.

(** A sequence of requests. *)
Definition scope_run (reqs : list (ValidateScopeInput * string)) (w : ScopeTables) : ScopeTables :=
  foldl (λ w r, (validateScope r.1 r.2 calm w).2) w reqs.
Definition ledger_run (reqs : list (ValidateScopeInput * string)) (l : Ledger) : Ledger :=
  foldl (λ l r, (ledger_validate r.1 r.2 l).2) l reqs.

(** The answers of a sequence, in order. *)
Fixpoint scope_answers (reqs : list (ValidateScopeInput * string)) (w : ScopeTables) : list (res ValidateScopeResult) :=
  match reqs with
  | [] => []
  | r :: reqs => (validateScope r.1 r.2 calm w).1 :: scope_answers reqs (validateScope r.1 r.2 calm w).2
  end.
Fixpoint ledger_answers (reqs : list (ValidateScopeInput * string)) (l : Ledger) : list (res ValidateScopeResult) :=
  match reqs with
  | [] => []
  | r :: reqs => (ledger_validate r.1 r.2 l).1 :: ledger_answers reqs (ledger_validate r.1 r.2 l).2
  end.

Lemma scope_run_represents reqs l w : represents l w → represents (ledger_run reqs l) (scope_run reqs w).
Proof.
  revert l w. induction reqs as [|[i d] reqs IH]; intros l w Hr; [done|]. cbn [scope_run ledger_run foldl fst snd]. apply IH.
  destruct (validateScope_refines i d l w Hr) as (w' & -> & Hr'). done.
Qed.

(** C13.  The tables implement the ledger: on tables that hold one, a sequence of
    requests is answered as the ledger answers it, and leaves tables that hold the
    new ledger: each key is charged once, the counts are the numbers of distinct
    keys and the totals the sums of their amounts, and a refusal charges nothing. *)
Theorem scope_ledger_refined reqs l w :
  represents l w →
  scope_answers reqs w = ledger_answers reqs l ∧ represents (ledger_run reqs l) (scope_run reqs w).
Proof.
  intros Hr. split; [|by apply scope_run_represents]. revert l w Hr. induction reqs as [|[i d] reqs IH]; intros l w Hr; [done|].
  cbn [scope_answers ledger_answers fst snd]. destruct (validateScope_refines i d l w Hr) as (w' & E & Hr'). rewrite E. cbn. f_equal. by apply IH.
Qed.

(** Limits of one token, day and currency that every request keeps to: claims no
    larger than the limits, and amounts between zero and the limit. *)
Definition within (token currency : string) (calls amount : Z) (i : ValidateScopeInput) : Prop :=
  pg_uuid (vs_tokenId i) = token →
  (∀ c, perDayClaim i = Some c → ∃ z, sc_value c = Fin z ∧ z <= calls)
  ∧ (∀ c, totalClaim i = Some c → sc_currency c = Some currency →
       ∃ v z, ca_value (vs_arguments i) = Some (Fin v) ∧ 0 <= v <= 10 * amount ∧ sc_value c = Fin z ∧ z <= 10 * amount).

Definition ledger_inv (token day currency : string) (calls amount : Z) (l : Ledger) : Prop :=
  Z.of_nat (calls_of token day l) <= calls
  ∧ (∀ n, total_of token currency l = Some n → ∃ z, n = Fin z ∧ 0 <= z <= amount).

Lemma round2_within v amount : 0 <= v <= 10 * amount → 0 <= round2 v <= amount.
Proof. intros Hv. unfold round2. destruct (Z.eq_dec v 0) as [->|]; [cbn; lia|]. rewrite (Z.sgn_pos v), Z.abs_eq by lia. Z.div_mod_to_equations. lia. Qed.

Lemma charge_day_inv token day currency calls amount i d l r l' :
  1 <= calls → within token currency calls amount i → ledger_inv token day currency calls amount l →
  charge_day i d l = Ok (r, l') → ledger_inv token day currency calls amount l'.
Proof.
  intros H1 Hw [Hc Ht]. unfold charge_day, charge_call. destruct (perDayClaim i) as [c|] eqn:Ed; [|intros [= <- <-]; done].
  destruct (decide _); [intros [= <- <-]; done|]. intros (z & Hz & Hd)%res_bind_ok. destruct (_ && _); [done|].
  destruct ((_ =? 0) || _) eqn:Eb; injection Hd as <- <-; [|done]. split; [|done]. rewrite calls_snoc.
  destruct (decide (pg_uuid (vs_tokenId i) = token ∧ d = day)) as [[E <-]|]; [|lia]. rewrite E in Eb.
  destruct (Hw E) as [Hlim _]. destruct (Hlim c Ed) as (y & Ey & Hle). rewrite Ey in Hz. unfold pg_int4 in Hz. destruct (_ && _); [|done].
  injection Hz as <-. apply orb_true_iff in Eb as [Eb|Eb]; [apply Z.eqb_eq in Eb|apply Z.leb_le in Eb]; lia.
Qed.

Lemma charge_total_inv token day currency calls amount i l r l' :
  pre_check i = None → within token currency calls amount i → ledger_inv token day currency calls amount l →
  charge_total i l = Ok (r, l') → ledger_inv token day currency calls amount l'.
Proof.
  intros Hp Hw [Hc Ht]. unfold charge_total, charge_amount. destruct (totalClaim i) as [c|] eqn:Et; [|intros [= <- <-]; done].
  destruct (pre_check_currency i c Hp Et) as [(v & Ev) (cur & Ec)]. rewrite Ev, Ec. change (default "" (Some cur)) with cur.
  destruct (decide _); [intros [= <- <-]; done|]. intros (tv & _ & Hrest)%res_bind_ok. revert Hrest.
  destruct (match total_of _ _ _ with Some _ => _ | None => _ end) eqn:Eg; [|intros [= <- <-]; done].
  intros (tot & Hn & [= <- <-])%res_bind_ok. split; [exact Hc|]. intros m. rewrite total_snoc.
  destruct (decide (pg_uuid (vs_tokenId i) = token ∧ cur = currency)) as [[E ->]|]; [|apply Ht]. rewrite E in *. unfold add_amount. rewrite Hn. intros [= <-].
  destruct (Hw E) as [_ Hlim]. destruct (Hlim c Et Ec) as (v' & z & Ev' & Hv & Ez & Hz). rewrite Ev in Ev'. injection Ev' as ->. rewrite Ez in Eg.
  unfold next_total, pg_total in Hn. destruct (total_of token currency l) as [t|].
  - destruct (Ht t eq_refl) as (y & -> & Hy). cbn in Hn, Eg. apply Z.leb_le in Eg. destruct (_ <? _); [|done]. injection Hn as <-.
    eexists. split; [done|]. apply round2_within. lia.
  - destruct (_ <? _); [|done]. injection Hn as <-. eexists. split; [done|]. by apply round2_within.
Qed.

Lemma ledger_validate_inv token day currency calls amount i d l :
  1 <= calls → within token currency calls amount i → ledger_inv token day currency calls amount l →
  ledger_inv token day currency calls amount (ledger_validate i d l).2.
Proof.
  intros H1 Hw Hi. unfold ledger_validate. destruct (pre_check i) eqn:Hp; [done|].
  destruct (charge_day i d l) as [[[|] l1]|] eqn:E1; [|done..]. pose proof (charge_day_inv _ _ _ _ _ _ _ _ _ _ H1 Hw Hi E1) as Hi1.
  destruct (charge_total i l1) as [[[|] l2]|] eqn:E2; [|done..]. by eapply charge_total_inv.
Qed.

(** C14.  Requests that keep to the limits of a token cannot exceed them
    together: over any sequence of requests from empty tables the count of its
    day stays within the calls and the total of its currency, as the counter
    keeps it, rounded to hundredths after each amount, within the amount.
    Conditions ([within], for the requests of the token): the limit on the calls
    is at least one and no daily claim is above it; and where a request has a
    claim on the total in this currency, the claim is not above the amount and
    the value of the request is by itself between zero and the amount.  The
    requests follow each other without a concurrent transaction.  Each condition
    is needed: [first_call_unlimited], [first_amount_unlimited],
    [amounts_unchecked]. *)
Theorem limits_respected token day currency calls amount reqs :
  1 <= calls → Forall (λ r, within token currency calls amount r.1) reqs →
  (∀ n, t_quota (scope_run reqs no_rows) !! (token, day) = Some n → 0 < n <= calls)
  ∧ (∀ n, t_value (scope_run reqs no_rows) !! (token, currency) = Some n → ∃ z, n = Fin z ∧ 0 <= z <= amount).
Proof.
  intros H1 Hall. pose proof (scope_run_represents reqs _ _ no_rows_represent) as [_ Hq _ Hv].
  assert (ledger_inv token day currency calls amount (ledger_run reqs no_charges)) as [Hc Ht].
  { assert (ledger_inv token day currency calls amount no_charges) as Hi0 by (split; [cbn; lia|done]). clear Hq Hv. revert Hi0. generalize no_charges.
    induction Hall as [|[i d] reqs Hw Hall IH]; intros l Hi; [done|]. cbn [ledger_run foldl fst snd]. apply IH. by apply ledger_validate_inv. }
  split; intros n; [rewrite Hq|rewrite Hv].
  - destruct (decide _); [done|]. intros [= <-]. lia.
  - apply Ht.
Qed.

(** A ledger has one representation. *)
Lemma represents_inj l w w' : represents l w → represents l w' → w = w'.
Proof.
  intros [H1 H2 H3 H4] [H1' H2' H3' H4']. destruct w, w'; cbn in *. f_equal; apply map_eq.
  - intros [k t]. by rewrite H1, H1'.
  - intros [t d]. by rewrite H2, H2'.
  - intros [[k t] c]. by rewrite H3, H3'.
  - intros [t c]. by rewrite H4, H4'.
Qed.

Lemma ledger_refusal i day l : (ledger_validate i day l).1 ≠ Ok scope_ok → (ledger_validate i day l).2 = l.
Proof.
  unfold ledger_validate. destruct (pre_check i); [done|]. destruct (charge_day i day l) as [[[|] l1]|]; [|done..].
  by destruct (charge_total i l1) as [[[|] l2]|].
Qed.

(** A request that is refused, or that fails, changes no table. *)
Theorem refusal_charges_nothing i day l w r w' :
  represents l w → validateScope i day calm w = (r, w') → r ≠ Ok scope_ok → w' = w.
Proof.
  intros Hr Hv Hne. destruct (validateScope_refines i day l w Hr) as (w1 & Hv' & Hr1). rewrite Hv in Hv'. injection Hv' as -> ->.
  rewrite ledger_refusal in Hr1 by done. by eapply represents_inj.
Qed.

(** ** Keys *)

(** After a request was accepted, a request with its key and token and under the
    same claims is accepted on any day and charges nothing.  The amount need not
    be the same. *)
Lemma charge_day_done i day l l1 : charge_day i day l = Ok (scope_ok, l1) →
  (is_Some (perDayClaim i) → called (vs_requestIdempotencyKey i) (pg_uuid (vs_tokenId i)) l1)
  ∧ lg_amounts l1 = lg_amounts l.
Proof.
  unfold charge_day, charge_call. destruct (perDayClaim i) as [c|]; [|by intros [= <-]; split; [intros [? [=]]|]].
  destruct (decide _) as [Hc|Hc]; [by intros [= <-]|]. intros (z & _ & Hd)%res_bind_ok. destruct (_ && _); [done|].
  destruct (_ || _); [|done]. injection Hd as <-. split; [|done]. intros _. apply called_snoc. by right.
Qed.
Lemma charge_total_done i l l2 c v : totalClaim i = Some c → ca_value (vs_arguments i) = Some v → charge_total i l = Ok (scope_ok, l2) →
  spent (vs_requestIdempotencyKey i) (pg_uuid (vs_tokenId i)) (default "" (sc_currency c)) l2 ∧ lg_calls l2 = lg_calls l.
Proof.
  intros Et Ev. unfold charge_total, charge_amount. rewrite Et, Ev.
  destruct (decide _) as [Hs|Hs]; [by intros [= <-]|]. intros (tv & _ & Hrest)%res_bind_ok. revert Hrest.
  destruct (match total_of _ _ _ with Some _ => _ | None => _ end); [|done].
  intros (z & _ & [= <-])%res_bind_ok. split; [|done]. apply spent_snoc. by right.
Qed.

Theorem reused_key_free i i' day day' l w w' :
  represents l w → validateScope i day calm w = (Ok scope_ok, w') →
  vs_requestIdempotencyKey i' = vs_requestIdempotencyKey i → pg_uuid (vs_tokenId i') = pg_uuid (vs_tokenId i) →
  perDayClaim i' = perDayClaim i → totalClaim i' = totalClaim i → pre_check i = None → pre_check i' = None →
  validateScope i' day' calm w' = (Ok scope_ok, w').
Proof.
  intros Hr Hv Ek Etk Ed Et Hp Hp'. destruct (validateScope_refines i day l w Hr) as (w1 & Hv' & Hr1). rewrite Hv in Hv'. injection Hv' as Hok ->.
  set (l2 := (ledger_validate i day l).2) in *. destruct (validateScope_refines i' day' l2 w1 Hr1) as (w2 & Hv2 & Hr2). rewrite Hv2.
  assert (ledger_validate i' day' l2 = (Ok scope_ok, l2)) as El; [|rewrite El in Hr2 |- *; f_equal; by eapply represents_inj].
  unfold l2 in *. clear Hr1 Hv Hv2 Hr2. revert Hok. unfold ledger_validate. rewrite Hp, Hp'. destruct (charge_day i day l) as [[[|] l1]|] eqn:E1; [|done..].
  destruct (charge_total i l1) as [[[|] l3]|] eqn:E2; [|done..]. intros _. cbn [snd].
  destruct (charge_day_done _ _ _ _ E1) as [Hc _].
  assert (charge_day i' day' l3 = Ok (scope_ok, l3)) as ->.
  { unfold charge_day, charge_call. rewrite Ed. destruct (perDayClaim i) as [c|] eqn:Ed0; [|done]. rewrite Ek, Etk. rewrite decide_True; [done|].
    unfold called. destruct (totalClaim i) as [t|] eqn:Et0.
    - destruct (pre_check_currency i t Hp Et0) as [(v & Ev) _]. destruct (charge_total_done _ _ _ _ _ Et0 Ev E2) as [_ ->]. by apply Hc.
    - unfold charge_total in E2. rewrite Et0 in E2. injection E2 as <-. by apply Hc. }
  unfold charge_total, charge_amount. rewrite Et. destruct (totalClaim i) as [t|] eqn:Et0; [|done].
  destruct (pre_check_currency i t Hp Et0) as [(v & Ev) _]. destruct (charge_total_done _ _ _ _ _ Et0 Ev E2) as [Hs _].
  destruct (ca_value (vs_arguments i')); [|done]. rewrite Ek, Etk. by rewrite decide_True.
Qed.

(** ** What the limits do not bound *)

(** The limits are in the UPDATE of a counter only: the first amount of a token in
    a currency is accepted however far it exceeds the limit on the total. *)
Theorem first_amount_unlimited i day l w c cur v :
  represents l w → pre_check i = None → perDayClaim i = None → totalClaim i = Some c → sc_currency c = Some cur →
  ca_value (vs_arguments i) = Some (Fin v) → Z.abs (round2 v) < 10 ^ 20 →
  ¬ spent (vs_requestIdempotencyKey i) (pg_uuid (vs_tokenId i)) cur l → total_of (pg_uuid (vs_tokenId i)) cur l = None →
  ∃ w', validateScope i day calm w = (Ok scope_ok, w') ∧ t_value w' !! (pg_uuid (vs_tokenId i), cur) = Some (Fin (round2 v)).
Proof.
  intros Hr Hp Ed Et Ec Ev Hfit Hs Htot. destruct (validateScope_refines i day l w Hr) as (w' & -> & Hr'). exists w'.
  assert (ledger_validate i day l = (Ok scope_ok, mkLedger (lg_calls l) (lg_amounts l ++ [(vs_requestIdempotencyKey i, pg_uuid (vs_tokenId i), cur, Fin v)]))) as El.
  { unfold ledger_validate, charge_day, charge_total, charge_amount, next_total, pg_total. rewrite Hp, Ed, Et, Ec, Ev. change (default "" (Some cur)) with cur.
    rewrite decide_False, Htot by done. by rewrite (proj2 (Z.ltb_lt _ _) Hfit). }
  rewrite El in Hr' |- *. cbn [fst snd] in Hr' |- *. split; [done|]. rewrite (rp_value _ _ Hr'), total_snoc, decide_True by done. unfold add_amount, next_total, pg_total.
  by rewrite Htot, (proj2 (Z.ltb_lt _ _) Hfit).
Qed.

(** Likewise the first call of a day, also under a limit of zero calls. *)
Theorem first_call_unlimited i day l w c z :
  represents l w → pre_check i = None → perDayClaim i = Some c → sc_value c = Fin z → - 2 ^ 31 <= z <= INT4_MAX → totalClaim i = None →
  ¬ called (vs_requestIdempotencyKey i) (pg_uuid (vs_tokenId i)) l → calls_of (pg_uuid (vs_tokenId i)) day l = 0%nat →
  ∃ w', validateScope i day calm w = (Ok scope_ok, w') ∧ t_quota w' !! (pg_uuid (vs_tokenId i), day) = Some 1.
Proof.
  intros Hr Hp Ed Ez Hfit Et Hc Hn. destruct (validateScope_refines i day l w Hr) as (w' & -> & Hr'). exists w'.
  assert (ledger_validate i day l = (Ok scope_ok, mkLedger (lg_calls l ++ [(vs_requestIdempotencyKey i, pg_uuid (vs_tokenId i), day)]) (lg_amounts l))) as El.
  { unfold ledger_validate, charge_day, charge_total, charge_call, pg_int4. rewrite Hp, Ed, Et, Ez. rewrite decide_False by done.
    rewrite (proj2 (Z.leb_le _ _)), (proj2 (Z.leb_le _ _)) by lia. cbn [andb mbind res_bind]. rewrite Hn. done. }
  rewrite El in Hr' |- *. cbn [fst snd] in Hr' |- *. split; [done|]. rewrite (rp_quota _ _ Hr'), calls_snoc, Hn. rewrite (decide_True (P := _ ∧ _)) by done. done.
Qed.
