(* ===== verification/Bridge.v ===== *)
(** * The MCP bridge

    Models packages/communication/src/bridge except the scope validator, which is
    in BridgeScope.v: the resolution of a sender through its holder binding, the
    conversion between MCP messages and envelopes with the guard against other
    hops, the outbox with its ownership check, and the life cycle of the server.

    Ports are functions with a result; a resolver that throws and one that is
    stopped by the timer are both [Throw].  The SDK, the sockets and the parsing
    of request bodies are not modelled: starting the transport is an event with an
    outcome.  The server is asynchronous, so that [start] and [stop] are split
    where they await, and every interleaving is a sequence of events. *)
From S2P Require Import Prelude JsValue Time Encoding Crypto Authorization SignedPayload Envelope.
From S2P Require CrossSettle BridgeScope.
Open Scope Z_scope.

(** ** Errors *)

(** The messages are left out. *)
Record MCPBridgeError : Type := makeMcpError {
  mb_mcp_code : string;
  mb_internal_code : string }.
Definition bridge (A : Type) : Type := A + MCPBridgeError.

(** [if (!x)] of a JSON value *)
Definition truthy (v : option value) : bool :=
  match v with
  | None | Some VUndefined | Some VNull | Some (VBool false) => false
  | Some (VStr s) => non_empty s
  | Some (VNum n) => negb (is_nan n) && negb (bool_decide (n = Fin 0))
  | _ => true
  end.

(** A property of a value that is not null or undefined. *)
Definition prop_of (k : string) (v : value) : value :=
  match v with VObj o => default VUndefined (map_get k o) | _ => VUndefined end.

(** [===] of identifiers; two objects are never the same one. *)
Definition strict_eq (a b : value) : bool :=
  match a, b with
  | VStr x, VStr y => String.eqb x y
  | VNum x, VNum y => negb (is_nan x) && bool_decide (x = y)
  | VBool x, VBool y => Bool.eqb x y
  | VNull, VNull | VUndefined, VUndefined => true
  | _, _ => false
  end.

(** ** Holder bindings *)

Module HolderBinding.

Record MCPClientBinding : Type := mkBinding {
  mcpClientId : string;
  agentDid : string;
  issuedAt : num;
  notAfter : num;
  principalSignature : string }.

Inductive RevocationKind : Type := tombstone | revocation_pending.
Record RevocationStatus : Type := mkRevocation {
  rv_kind : RevocationKind;
  rv_timestamp : string;
  rv_signature : string }.

Inductive MCPSenderResolutionError : Type :=
| MCP_BINDING_EXPIRED_OR_MISSING
| BINDING_REVOCATION_UNREACHABLE
| BINDING_REVOKED
| MCP_AGENT_DID_UNRESOLVED.

Record MCPSenderResolution : Type := mkResolution { rz_agentDid : string; rz_verificationKey : string }.

(** The ports: the registry, the resolver of DIDs, and the revocation resolver
    under its timer. *)
Record BindingPorts : Type := mkBindingPorts {
  bindings_lookup : string → res (option MCPClientBinding);
  didResolver : string → res (option string);
  bindingRevocationResolver : string → res (option RevocationStatus) }.

Definition resolveSenderForMCPCall (p : BindingPorts) (clientId : string) (now : Z) : res (MCPSenderResolution + MCPSenderResolutionError) :=
  binding ← bindings_lookup p clientId;
  match binding with
  | None => mret (inr MCP_BINDING_EXPIRED_OR_MISSING)
  | Some b =>
      if num_gtb (Fin now) (notAfter b) then mret (inr MCP_BINDING_EXPIRED_OR_MISSING)
      else
        match bindingRevocationResolver p clientId with
        | Throw _ => mret (inr BINDING_REVOCATION_UNREACHABLE)
        | Ok (Some _) => mret (inr BINDING_REVOKED)
        | Ok None =>
            match didResolver p (agentDid b) with
            | Throw _ | Ok None => mret (inr MCP_AGENT_DID_UNRESOLVED)
            | Ok (Some key) => mret (inl (mkResolution (agentDid b) key))
            end
        end
  end.

Definition resolutionErrorToMcpError (e : MCPSenderResolutionError) : MCPBridgeError :=
  match e with
  | MCP_BINDING_EXPIRED_OR_MISSING => makeMcpError "mcp_error_binding_missing" "MCP_BINDING_EXPIRED_OR_MISSING"
  | BINDING_REVOKED => makeMcpError "mcp_error_binding_revoked" "mcp_error_binding_revoked"
  | BINDING_REVOCATION_UNREACHABLE =>
      makeMcpError "mcp_error_binding_revocation_unreachable" "mcp_error_binding_revocation_unreachable"
  | MCP_AGENT_DID_UNRESOLVED => makeMcpError "mcp_error_agent_did_unresolved" "MCP_AGENT_DID_UNRESOLVED"
  end.

(** A sender is resolved exactly when its binding is there and not past, the
    revocation resolver has answered that it is not revoked, and its DID has a key;
    every failure of the last two ports is a refusal. *)
Theorem sender_resolved_exact p clientId now r :
  resolveSenderForMCPCall p clientId now = Ok (inl r) ↔
  ∃ b, bindings_lookup p clientId = Ok (Some b) ∧ num_gtb (Fin now) (notAfter b) = false
    ∧ bindingRevocationResolver p clientId = Ok None ∧ rz_agentDid r = agentDid b
    ∧ didResolver p (agentDid b) = Ok (Some (rz_verificationKey r)).
Proof.
  unfold resolveSenderForMCPCall. rewrite res_bind_ok. split.
  - intros ([b|] & Hb & Hd); [|done]. destruct (num_gtb _ _) eqn:Ex; [done|].
    destruct (bindingRevocationResolver p clientId) as [[|]|] eqn:Er; try done.
    destruct (didResolver p (agentDid b)) as [[key|]|] eqn:Ek; try done. injection Hd as <-. by exists b.
  - intros (b & Hb & Hx & Hr & Ea & Hk). exists (Some b). rewrite Hx, Hr, Hk, <- Ea. split; [done|]. by destruct r.
Qed.
End HolderBinding.

(** ** Envelopes *)

Module Adapter.

(** [assertSameHop] with its catch, and [checkSameHop]. *)
Definition checkSameHop (thisServerId nextHopMcpServer : string) : bridge unit :=
  if String.eqb nextHopMcpServer thisServerId then inl tt
  else inr (makeMcpError "mcp_error_cross_hop_deferred" "CROSS_HOP_DEFERRED_PHASE6").

Record IncomingMCPCallContext : Type := mkIncoming {
  ic_mcpMessage : value;
  ic_incomingEnvelope : option NegotiationEnvelope;
  ic_senderAgentDid : string;
  ic_mcpClientId : string;
  ic_recipientDid : string;
  ic_envelopeId : string;
  ic_timestamp : string;
  ic_signature : string;
  ic_specVersion : string }.

Definition failed (internal : string) : MCPBridgeError := makeMcpError "mcp_error_settlement_failed" internal.

Definition incomingMCPCallToEnvelope (c : IncomingMCPCallContext) : bridge NegotiationEnvelope :=
  if negb (truthy (Some (ic_mcpMessage c)) && strict_eq (prop_of "jsonrpc" (ic_mcpMessage c)) (VStr "2.0"))
  then inr (failed "MCP_MESSAGE_INVALID_JSONRPC")
  else if negb (match prop_of "method" (ic_mcpMessage c) with VStr s => non_empty s | _ => false end)
  then inr (failed "MCP_MESSAGE_INVALID_METHOD")
  else if negb (non_empty (ic_mcpClientId c)) then inr (makeMcpError "mcp_error_binding_missing" "MCP_CLIENT_ID_EMPTY")
  else if negb (non_empty (ic_senderAgentDid c)) then inr (makeMcpError "mcp_error_agent_did_unresolved" "SENDER_AGENT_DID_EMPTY")
  else if negb (non_empty (ic_recipientDid c)) then inr (failed "RECIPIENT_DID_EMPTY")
  else
    let claim := match ic_incomingEnvelope c with Some e => prop "capabilityClaim" (ne_body e) | None => None end in
    let body := [("mcpMessage", ic_mcpMessage c); ("mcpClientId", VStr (ic_mcpClientId c))] ++ member "capabilityClaim" claim in
    inl (mkEnvelope (ic_envelopeId c) (ic_specVersion c) (mkHeader (ic_senderAgentDid c) (ic_recipientDid c) None None None)
           "NEGOTIATION_REQUEST" body (ic_signature c) (ic_timestamp c)).

(** The message of a body, when it is one, for the expected client. *)
Definition mcp_body (missing : string) (e : NegotiationEnvelope) (expectedMcpClientId : string) : bridge value :=
  match map_get "mcpMessage" (ne_body e) with
  | Some m =>
      if truthy (Some m)
      then if strict_eq (default VUndefined (map_get "mcpClientId" (ne_body e))) (VStr expectedMcpClientId) then inl m
           else inr (makeMcpError "mcp_error_binding_missing" "MCP_CLIENT_ID_MISMATCH")
      else inr (failed missing)
  | None => inr (failed missing)
  end.

(** [x ?? null] *)
Definition or_null (v : value) : value := match v with VUndefined => VNull | _ => v end.

Definition outgoingEnvelopeToMCPResponse (e : NegotiationEnvelope) (expectedMcpClientId : string) : bridge object :=
  match mcp_body "ENVELOPE_BODY_MISSING_MCP_MESSAGE" e expectedMcpClientId with
  | inr err => inr err
  | inl m =>
      inl [("jsonrpc", VStr "2.0"); ("id", prop_of "id" m);
           ("result", VObj [("method", prop_of "method" m); ("params", or_null (prop_of "params" m))])]
  end.

Definition processSingleHopMCPCall (thisServerId nextHopMcpServer : string) (e : NegotiationEnvelope) (expectedMcpClientId : string)
    : bridge NegotiationEnvelope :=
  match mcp_body "INCOMING_ENVELOPE_BODY_MISSING_MCP_MESSAGE" e expectedMcpClientId with
  | inr err => inr err
  | inl _ => match checkSameHop thisServerId nextHopMcpServer with inr err => inr err | inl _ => inl e end
  end.

Definition adaptIncoming (mcpMessage : value) (e : NegotiationEnvelope) : bridge NegotiationEnvelope :=
  let m := default VUndefined (map_get "mcpMessage" (ne_body e)) in
  if truthy (Some m) && strict_eq (prop_of "id" m) (prop_of "id" mcpMessage) && strict_eq (prop_of "method" m) (prop_of "method" mcpMessage)
  then inl e else inr (failed "MCP_MESSAGE_ENVELOPE_BODY_MISMATCH").

Definition extractMCPCallParams (e : NegotiationEnvelope) : option value :=
  let m := default VUndefined (map_get "mcpMessage" (ne_body e)) in
  if truthy (Some m) && truthy (Some (prop_of "params" m)) then Some (prop_of "params" m) else None.

(** A call that becomes an envelope comes back out of it: the local hop forwards
    the envelope unchanged, the answer carries the id and the method of the call,
    and the validator sees its parameters; any other hop is refused. *)
Theorem call_roundtrip c e :
  incomingMCPCallToEnvelope c = inl e →
  (∀ next, processSingleHopMCPCall next next e (ic_mcpClientId c) = inl e)
  ∧ (∀ this next, this ≠ next → ∃ err, processSingleHopMCPCall this next e (ic_mcpClientId c) = inr err
       ∧ mb_mcp_code err = "mcp_error_cross_hop_deferred")
  ∧ (∀ other, other ≠ ic_mcpClientId c → ∃ err, outgoingEnvelopeToMCPResponse e other = inr err ∧ mb_internal_code err = "MCP_CLIENT_ID_MISMATCH")
  ∧ ∃ r, outgoingEnvelopeToMCPResponse e (ic_mcpClientId c) = inl r ∧ map_get "id" r = Some (prop_of "id" (ic_mcpMessage c))
      ∧ ∃ result, map_get "result" r = Some (VObj result) ∧ map_get "method" result = Some (prop_of "method" (ic_mcpMessage c)).
Proof.
  unfold incomingMCPCallToEnvelope. destruct (truthy (Some (ic_mcpMessage c))) eqn:Et; [|done]. cbn [andb].
  destruct (strict_eq _ _); [|done]. cbn [negb]. destruct (match prop_of "method" _ with VStr _ => _ | _ => _ end); [|done]. cbn [negb].
  destruct (non_empty (ic_mcpClientId c)), (non_empty (ic_senderAgentDid c)), (non_empty (ic_recipientDid c)); try done. cbn [negb]. intros [= <-].
  unfold processSingleHopMCPCall, outgoingEnvelopeToMCPResponse, mcp_body, checkSameHop. cbn [ne_body map_get app String.eqb Ascii.eqb Bool.eqb]. rewrite Et.
  cbn [default from_option id strict_eq]. rewrite String.eqb_refl. split_and!.
  - intros next. by rewrite String.eqb_refl.
  - intros this next Hne. destruct (String.eqb_spec next this); [congruence|]. eexists. by split.
  - intros other Hne. destruct (String.eqb_spec (ic_mcpClientId c) other); [congruence|]. eexists. by split.
  - eexists. split; [done|]. cbn. split; [done|]. eexists. by split.
Qed.
End Adapter.

(** ** The outbox *)

Module Outbox.

Inductive OutboxStatus : Type := pending | settled | error.
Inductive MCPCallerSubjectKind : Type := kind_agentDid | kind_mcpClientId.
#[export] Instance MCPCallerSubjectKind_eq_dec : EqDecision MCPCallerSubjectKind.
Proof. solve_decision. Defined.

(** A subject as a caller gives it: the kind is any string. *)
Record MCPCallerSubject : Type := mkSubject { sj_kind : string; sj_value : string }.

Definition read_kind (s : string) : option MCPCallerSubjectKind :=
  if String.eqb s "agentDid" then Some kind_agentDid else if String.eqb s "mcpClientId" then Some kind_mcpClientId else None.
Definition kind_name (k : MCPCallerSubjectKind) : string :=
  match k with kind_agentDid => "agentDid" | kind_mcpClientId => "mcpClientId" end.

Record OutboxRow : Type := mkOutboxRow {
  ox_outboxId : string;
  ox_envelopeId : string;
  ox_status : OutboxStatus;
  ox_settlementReceipt : option value;
  ox_errorObject : option value;
  ox_createdAt : string;
  ox_completedAt : option string;
  ox_ownerSubjectKind : MCPCallerSubjectKind;
  ox_ownerSubjectValue : string;
  ox_ownerTokenId : string }.

Record CreateOutboxRowInput : Type := mkCreateOutbox {
  co_outboxId : string;
  co_envelopeId : string;
  co_status : option OutboxStatus;
  co_settlementReceipt : option value;
  co_errorObject : option value;
  co_createdAt : option string;
  co_completedAt : option string;
  co_ownerSubject : MCPCallerSubject;
  co_ownerTokenId : string }.

(** [OutboxStore] over a state. *)
Record OutboxStore (W : Type) : Type := mkOutboxStore {
  store_insert : OutboxRow → M W unit;
  store_lookup : string → M W (option OutboxRow) }.
Arguments store_insert {W} _ _ _.
Arguments store_lookup {W} _ _ _.

(** [now] is the clock, read when no time is given. *)
Definition outbox_row (i : CreateOutboxRowInput) (now : Z) : res OutboxRow :=
  kind ← match read_kind (sj_kind (co_ownerSubject i)) with Some k => Ok k | None => Throw "Error" end;
  mret (mkOutboxRow (co_outboxId i) (co_envelopeId i) (default pending (co_status i)) (co_settlementReceipt i) (co_errorObject i)
          (default (toISOString now) (co_createdAt i)) (co_completedAt i) kind (sj_value (co_ownerSubject i)) (co_ownerTokenId i)).

Definition createOutboxRow {W} (st : OutboxStore W) (i : CreateOutboxRowInput) (now : Z) : M W OutboxRow :=
  row ← lift_res (outbox_row i now);
  _ ← store_insert st row;
  mret row.

(** The ports of a read: the challenge, the key of a subject, and the check of a
    signature, each of which may throw. *)
Record PopPorts : Type := mkPopPorts {
  challengeResolver : string → res bytes;
  subjectKeyResolver : MCPCallerSubject → res (option bytes);
  (** signature, challenge, key *)
  verifyPop : bytes → bytes → bytes → res bool }.

Definition unauthorized : MCPBridgeError := makeMcpError "mcp_error_outbox_unauthorized" "mcp_error_outbox_unauthorized".

Definition getOutboxByID {W} (st : OutboxStore W) (p : PopPorts) (outboxId : string) (caller : MCPCallerSubject) (popSignature : bytes)
    : M W (bridge OutboxRow) :=
  row ← store_lookup st outboxId;
  match row with
  | None => mret (inr (makeMcpError "mcp_error_outbox_not_found" "mcp_error_outbox_not_found"))
  | Some row =>
      match read_kind (sj_kind caller) with
      | None => mret (inr unauthorized)
      | Some kind =>
          match challengeResolver p outboxId, subjectKeyResolver p caller with
          | Throw _, _ | _, Throw _ | Ok _, Ok None => mret (inr unauthorized)
          | Ok challenge, Ok (Some subjectKey) =>
              popOk ← lift_res (verifyPop p popSignature challenge subjectKey);
              mret (if negb popOk then inr unauthorized
                    else if bool_decide (kind = ox_ownerSubjectKind row) && String.eqb (sj_value caller) (ox_ownerSubjectValue row)
                    then inl row else inr unauthorized)
          end
      end
  end.

(** [defaultMockChallengeResolver] *)
Definition defaultMockChallengeResolver `{Primitives} (outboxId : string) : res bytes :=
  Ok (sha256 (textEncode ("mcp-outbox-challenge:" +:+ outboxId))).

(** ** The table communication.mcp_outbox *)

(** A row of the table: times in microseconds, identifiers in lower case. *)
Record DbOutboxRow : Type := mkDbOutbox {
  dx_outbox_id : string;
  dx_envelope_id : string;
  dx_status : string;
  dx_settlement_receipt : option value;
  dx_error_object : option value;
  dx_created_at : Z;
  dx_completed_at : option Z;
  dx_owner_subject_kind : string;
  dx_owner_subject_value : string;
  dx_owner_token_id : string }.

Definition OutboxTable : Type := list (string * DbOutboxRow).

(** The text of a UUID in its standard form. *)
Definition uuid_column (s : string) : res string := if BridgeScope.isUuidFormat s then Ok (BridgeScope.pg_uuid s) else Throw "22P02".

Definition status_name (s : OutboxStatus) : string := match s with pending => "pending" | settled => "settled" | error => "error" end.
Definition read_status (s : string) : option OutboxStatus :=
  if String.eqb s "pending" then Some pending else if String.eqb s "settled" then Some settled
  else if String.eqb s "error" then Some error else None.

Section postgres.
Context `{CrossSettle.PgTime}.

Definition db_row (row : OutboxRow) : res DbOutboxRow :=
  id ← uuid_column (ox_outboxId row);
  envelope ← uuid_column (ox_envelopeId row);
  created ← CrossSettle.timestamptz (ox_createdAt row);
  completed ← match ox_completedAt row with Some t => ms ← CrossSettle.timestamptz t; mret (Some ms) | None => Ok None end;
  token ← uuid_column (ox_ownerTokenId row);
  mret (mkDbOutbox id envelope (status_name (ox_status row)) (ox_settlementReceipt row) (ox_errorObject row) created completed
          (kind_name (ox_ownerSubjectKind row)) (ox_ownerSubjectValue row) token).

Definition pg_insert (row : OutboxRow) : M OutboxTable unit := λ w,
  match db_row row with
  | Throw c => (Throw c, w)
  | Ok d =>
      match map_get (dx_outbox_id d) w with
      | Some _ => (Throw "23505", w)
      | None => (Ok tt, map_set (dx_outbox_id d) d w)
      end
  end.

Definition rowToOutboxRow (d : DbOutboxRow) : res OutboxRow :=
  status ← match read_status (dx_status d) with Some s => Ok s | None => Throw "Error" end;
  kind ← match read_kind (dx_owner_subject_kind d) with Some k => Ok k | None => Throw "Error" end;
  mret (mkOutboxRow (dx_outbox_id d) (dx_envelope_id d) status (dx_settlement_receipt d) (dx_error_object d)
          (CrossSettle.column_iso (dx_created_at d)) (CrossSettle.column_iso <$> dx_completed_at d) kind (dx_owner_subject_value d)
          (dx_owner_token_id d)).

Definition pg_lookup (outboxId : string) : M OutboxTable (option OutboxRow) := λ w,
  match uuid_column outboxId with
  | Throw c => (Throw c, w)
  | Ok id =>
      match map_get id w with
      | None => (Ok None, w)
      | Some d => (match rowToOutboxRow d with Ok r => Ok (Some r) | Throw c => Throw c end, w)
      end
  end.

Definition PostgresOutboxStore : OutboxStore OutboxTable := mkOutboxStore _ pg_insert pg_lookup.
End postgres.

(** ** Theorems *)

(** A row is returned exactly to who names the owner of the row and has signed the
    challenge of this outbox with the key of the owner.  The token of the row plays
    no part. *)
Theorem outbox_owner_only {W} (st : OutboxStore W) p outboxId caller sig w row w' :
  getOutboxByID st p outboxId caller sig w = (Ok (inl row), w') ↔
  store_lookup st outboxId w = (Ok (Some row), w')
  ∧ sj_kind caller = kind_name (ox_ownerSubjectKind row) ∧ sj_value caller = ox_ownerSubjectValue row
  ∧ ∃ challenge key, challengeResolver p outboxId = Ok challenge ∧ subjectKeyResolver p caller = Ok (Some key)
      ∧ verifyPop p sig challenge key = Ok true.
Proof.
  assert (∀ s k, read_kind s = Some k ↔ s = kind_name k) as Hk.
  { intros s k. unfold read_kind. destruct (String.eqb_spec s "agentDid") as [->|]; [by destruct k; split|].
    destruct (String.eqb_spec s "mcpClientId") as [->|]; [by destruct k; split|]. split; [done|]. destruct k; cbn; congruence. }
  unfold getOutboxByID. rewrite M_bind_ok. split.
  - intros ([row0|] & w1 & Hl & Hd); [|done]. destruct (read_kind (sj_kind caller)) as [kind|] eqn:Ek; [|done]. apply Hk in Ek.
    destruct (challengeResolver p outboxId) as [challenge|] eqn:Ec; [|done]. destruct (subjectKeyResolver p caller) as [[key|]|] eqn:Es; try done.
    apply M_bind_ok in Hd as (popOk & w2 & [= Hv <-] & Hd). destruct popOk; [|done]. cbn [negb] in Hd.
    case_bool_decide as Ekk; [|done]. destruct (String.eqb_spec (sj_value caller) (ox_ownerSubjectValue row0)); [|done]. injection Hd as <- <-.
    subst kind. split_and!; try done. by exists challenge, key.
  - intros (Hl & Ek & Ev & challenge & key & Hc & Hs & Hv). exists (Some row), w'. split; [done|].
    rewrite (proj2 (Hk _ _) Ek), Hc, Hs. unfold mbind, M_bind, lift_res. rewrite Hv. cbn [negb]. rewrite bool_decide_true, Ev, String.eqb_refl by done. done.
Qed.

(** What a caller reads back after a row was created. *)
Definition normal_row (row : OutboxRow) : OutboxRow :=
  mkOutboxRow (BridgeScope.pg_uuid (ox_outboxId row)) (BridgeScope.pg_uuid (ox_envelopeId row)) (ox_status row) (ox_settlementReceipt row)
    (ox_errorObject row) (ox_createdAt row) (ox_completedAt row) (ox_ownerSubjectKind row) (ox_ownerSubjectValue row)
    (BridgeScope.pg_uuid (ox_ownerTokenId row)).

Section laws.
Context `{CrossSettle.PgTimeLaws}.

Lemma read_kind_name k : read_kind (kind_name k) = Some k.
Proof. by destruct k. Qed.
Lemma read_status_name s : read_status (status_name s) = Some s.
Proof. by destruct s. Qed.

(** A row with a new identifier is created, and what is read back is that row with
    its identifiers in lower case; other rows stay as they are. *)
Theorem outbox_roundtrip i now w kind created completed :
  read_kind (sj_kind (co_ownerSubject i)) = Some kind →
  BridgeScope.isUuidFormat (co_outboxId i) = true → BridgeScope.isUuidFormat (co_envelopeId i) = true →
  BridgeScope.isUuidFormat (co_ownerTokenId i) = true →
  default (toISOString now) (co_createdAt i) = toISOString created → iso_range created →
  co_completedAt i = toISOString <$> completed → (∀ t, completed = Some t → iso_range t) →
  map_get (BridgeScope.pg_uuid (co_outboxId i)) w = None →
  ∃ row w', createOutboxRow PostgresOutboxStore i now w = (Ok row, w')
    ∧ ox_ownerSubjectKind row = kind
    ∧ pg_lookup (co_outboxId i) w' = (Ok (Some (normal_row row)), w')
    ∧ ∀ id, BridgeScope.pg_uuid id ≠ BridgeScope.pg_uuid (co_outboxId i) → (pg_lookup id w').1 = (pg_lookup id w).1.
Proof.
  intros Hk Hid Hen Htk Hc Hr Hf Hfr Hnew.
  set (row := mkOutboxRow (co_outboxId i) (co_envelopeId i) (default pending (co_status i)) (co_settlementReceipt i) (co_errorObject i)
                (toISOString created) (toISOString <$> completed) kind (sj_value (co_ownerSubject i)) (co_ownerTokenId i)).
  assert (outbox_row i now = Ok row) as Erow by (unfold outbox_row; by rewrite Hk, Hc, Hf).
  set (d := mkDbOutbox (BridgeScope.pg_uuid (co_outboxId i)) (BridgeScope.pg_uuid (co_envelopeId i)) (status_name (ox_status row)) (co_settlementReceipt i)
              (co_errorObject i) (created * 1000) ((λ t, t * 1000) <$> completed) (kind_name kind) (sj_value (co_ownerSubject i)) (BridgeScope.pg_uuid (co_ownerTokenId i))).
  assert (db_row row = Ok d) as Ed.
  { unfold db_row, uuid_column, CrossSettle.timestamptz. cbn [row ox_outboxId ox_envelopeId ox_createdAt ox_completedAt ox_ownerTokenId].
    rewrite Hid, Hen, Htk, CrossSettle.pg_iso by done. cbn [mbind res_bind].
    destruct completed as [t|]; [|done]. cbn [fmap option_fmap option_map]. by rewrite CrossSettle.pg_iso by auto. }
  exists row, (map_set (BridgeScope.pg_uuid (co_outboxId i)) d w). split.
  { unfold createOutboxRow, mbind, M_bind, lift_res. rewrite Erow. cbn [PostgresOutboxStore store_insert]. unfold pg_insert. rewrite Ed.
    cbn [d dx_outbox_id]. by rewrite Hnew. }
  split; [done|]. split.
  - unfold pg_lookup, uuid_column. rewrite Hid, map_get_set, String.eqb_refl. unfold rowToOutboxRow.
    cbn [d dx_status dx_owner_subject_kind]. rewrite read_status_name, read_kind_name. cbn [mbind res_bind mret res_ret].
    unfold d, row. cbn [dx_outbox_id dx_envelope_id dx_settlement_receipt dx_error_object dx_created_at dx_completed_at dx_owner_subject_value dx_owner_token_id].
    unfold CrossSettle.column_iso, normal_row. rewrite Z.div_mul by lia.
    assert ((λ t, toISOString (t / 1000)) <$> ((λ t, t * 1000) <$> completed) = toISOString <$> completed) as ->; [|done].
    destruct completed as [t|]; [|done]. cbn [fmap option_fmap option_map]. by rewrite Z.div_mul by lia.
  - intros id Hne. unfold pg_lookup, uuid_column. destruct (BridgeScope.isUuidFormat id); [|done]. rewrite map_get_set.
    destruct (String.eqb_spec (BridgeScope.pg_uuid (co_outboxId i)) (BridgeScope.pg_uuid id)); [congruence|]. destruct (map_get (BridgeScope.pg_uuid id) w) as [x|]; reflexivity.
Qed.
End laws.
End Outbox.

(** ** The server *)

Module Server.

Inductive MCPServerLifecycleState : Type := created | starting | running | stopping | stopped | state_error.
#[export] Instance state_eq_dec : EqDecision MCPServerLifecycleState.
Proof. solve_decision. Defined.

Record MCPServerConfig : Type := mkServerConfig {
  sc_serverId : string;
  sc_serverDid : string;
  sc_transport : string;
  sc_port : option num }.

Definition is_port (n : num) : bool := match n with Fin z => (0 <=? z) && (z <=? 65535) | _ => false end.

(** [validateConfig]; a number that is not finite is not an integer. *)
Definition validateConfig (c : MCPServerConfig) : res unit :=
  _ ← check (non_empty (sc_serverId c)) "Error";
  _ ← check (non_empty (sc_serverDid c)) "Error";
  _ ← check (String.eqb (sc_transport c) "http" || String.eqb (sc_transport c) "stdio") "Error";
  check (negb (String.eqb (sc_transport c) "http") || match sc_port c with Some n => is_port n | None => false end) "Error".

(** What a handler answers: a result, an error of the bridge, or an exception. *)
Definition MCPToolHandler : Type := value → res (bridge value).

(** The adapter, with the continuations that are still to run: a [start] that
    awaits its transport, and the [stop]s that await the cleanup. *)
Record MCPServerAdapter : Type := mkServer {
  sv_config : MCPServerConfig;
  sv_state : MCPServerLifecycleState;
  sv_tools : list (string * MCPToolHandler);
  sv_mcpServer : bool;
  sv_httpServer : bool;
  sv_resolvedPort : option num;
  sv_startPending : bool;
  sv_stopsPending : nat }.

Definition new_server (c : MCPServerConfig) : res MCPServerAdapter :=
  _ ← validateConfig c; mret (mkServer c created [] false false None false 0).

Definition registerTool (name : string) (handler : MCPToolHandler) : M MCPServerAdapter unit := λ s,
  if negb (bool_decide (sv_state s = created)) then (Throw "Error", s)
  else if negb (non_empty name) then (Throw "Error", s)
  else match map_get name (sv_tools s) with
       | Some _ => (Throw "Error", s)
       | None => (Ok tt, mkServer (sv_config s) (sv_state s) (map_set name handler (sv_tools s)) (sv_mcpServer s) (sv_httpServer s)
                           (sv_resolvedPort s) (sv_startPending s) (sv_stopsPending s))
       end.

(** [start], up to the point where it awaits the transport. *)
Definition start_call : M MCPServerAdapter unit := λ s,
  match sv_state s with
  | running => (Ok tt, s)
  | created =>
      (Ok tt, mkServer (sv_config s) starting (sv_tools s) true (sv_httpServer s) (sv_resolvedPort s) true (sv_stopsPending s))
  | _ => (Throw "Error", s)
  end.

(** The rest of [start]: the transport is up, with its port when it is HTTP, or
    has failed, which cleans up. *)
Definition start_done (outcome : res (option num)) : M MCPServerAdapter unit := λ s,
  if negb (sv_startPending s) then (Ok tt, s)
  else match outcome with
       | Ok port =>
           let http := String.eqb (sc_transport (sv_config s)) "http" in
           (Ok tt, mkServer (sv_config s) running (sv_tools s) (sv_mcpServer s) (if http then true else sv_httpServer s)
                     (if http then match port with Some _ => port | None => sv_resolvedPort s end else sv_resolvedPort s) false (sv_stopsPending s))
       | Throw c => (Throw c, mkServer (sv_config s) state_error (sv_tools s) false false None false (sv_stopsPending s))
       end.

(** [stop], up to the point where it awaits the cleanup, and its end. *)
Definition stop_call : M MCPServerAdapter unit := λ s,
  match sv_state s with
  | stopped | created | state_error => (Ok tt, s)
  | _ => (Ok tt, mkServer (sv_config s) stopping (sv_tools s) (sv_mcpServer s) (sv_httpServer s) (sv_resolvedPort s) (sv_startPending s)
                   (S (sv_stopsPending s)))
  end.
Definition stop_done : M MCPServerAdapter unit := λ s,
  match sv_stopsPending s with
  | O => (Ok tt, s)
  | S n => (Ok tt, mkServer (sv_config s) stopped (sv_tools s) false false None (sv_startPending s) n)
  end.

(** *** Calls of tools *)

Record CallToolResult : Type := mkCallResult {
  cr_text : value;
  cr_isError : bool }.

(** The text of an error is the JSON of all its members. *)
Definition errorToCallToolResult (e : MCPBridgeError) : CallToolResult :=
  mkCallResult (VObj [("mcp_code", VStr (mb_mcp_code e)); ("internal_code", VStr (mb_internal_code e))]) true.

Definition dispatchTool (s : MCPServerAdapter) (name : string) (arguments : option value) : CallToolResult :=
  match map_get name (sv_tools s) with
  | None => errorToCallToolResult (makeMcpError "mcp_error_settlement_failed" "TOOL_NOT_FOUND")
  | Some handler =>
      match handler (VObj [("tool", VStr name); ("arguments", default (VObj []) arguments)]) with
      | Throw _ => errorToCallToolResult (makeMcpError "mcp_error_settlement_failed" "HANDLER_THREW")
      | Ok (inl result) => mkCallResult result false
      | Ok (inr e) => errorToCallToolResult e
      end
  end.

(** *** Events *)

Inductive ServerEvent : Type :=
| ev_register (name : string) (handler : MCPToolHandler)
| ev_start
| ev_started (outcome : res (option num))
| ev_stop
| ev_stopped.

Definition server_op (e : ServerEvent) : M MCPServerAdapter unit :=
  match e with
  | ev_register name handler => registerTool name handler
  | ev_start => start_call
  | ev_started outcome => start_done outcome
  | ev_stop => stop_call
  | ev_stopped => stop_done
  end.
Definition server_step (s : MCPServerAdapter) (e : ServerEvent) : MCPServerAdapter := (server_op e s).2.
Definition server_run : MCPServerAdapter → list ServerEvent → MCPServerAdapter := foldl server_step.

(** A [stop] waits for the end of [start]. *)
Inductive disciplined : MCPServerAdapter → list ServerEvent → Prop :=
| disc_nil s : disciplined s []
| disc_cons s e es : (e = ev_stop → sv_startPending s = false) → disciplined (server_step s e) es → disciplined s (e :: es).

(** What the fields say in each state, when stops wait for starts. *)
Record lifecycle_inv (s : MCPServerAdapter) : Prop := mkLifecycle {
  lc_created : sv_state s = created → sv_mcpServer s = false ∧ sv_httpServer s = false ∧ sv_startPending s = false ∧ sv_stopsPending s = 0%nat;
  lc_pending : sv_startPending s = true ↔ sv_state s = starting;
  lc_starting : sv_state s = starting → sv_mcpServer s = true ∧ sv_stopsPending s = 0%nat;
  lc_stops : sv_stopsPending s ≠ 0%nat → sv_state s = stopping ∨ sv_state s = stopped;
  lc_stopping : sv_state s = stopping → sv_stopsPending s ≠ 0%nat;
  lc_running : sv_state s = running → sv_mcpServer s = true ∧ (sc_transport (sv_config s) = "http" → sv_httpServer s = true);
  lc_ended : sv_state s = stopped ∨ sv_state s = state_error → sv_mcpServer s = false ∧ sv_httpServer s = false ∧ sv_resolvedPort s = None }.

Ltac by_state := split; cbn; try done; try (by intros [|]); try (by split); auto.

Lemma server_step_inv s e : lifecycle_inv s → (e = ev_stop → sv_startPending s = false) → lifecycle_inv (server_step s e).
Proof.
  destruct s as [cfg st tools mcp http port sp stops]. intros [H1 H2 H3 H4 H5 H6 H7] Hd. cbn in *.
  destruct e as [name handler| |[p|c]| |]; unfold server_step, server_op; cbn.
  - unfold registerTool. cbn. destruct st; cbn; try (split; cbn; done). destruct (non_empty name); [|split; cbn; done]. cbn.
    destruct (map_get name tools); split; cbn; done.
  - destruct st; cbn; try (split; cbn; done). destruct (H1 eq_refl) as (-> & -> & -> & ->). by_state.
  - unfold start_done. cbn. destruct sp; [|split; cbn; done]. cbn. assert (st = starting) as -> by (by apply H2).
    destruct (H3 eq_refl) as [-> ->]. by_state. intros _. split; [done|]. by intros ->.
  - unfold start_done. cbn. destruct sp; [|split; cbn; done]. cbn. assert (st = starting) as -> by (by apply H2).
    destruct (H3 eq_refl) as [-> ->]. by_state.
  - specialize (Hd eq_refl) as ->. unfold stop_call. cbn. destruct st; cbn; by_state.
  - unfold stop_done. cbn. destruct stops as [|n]; [split; cbn; done|]. destruct (H4 ltac:(done)) as [->| ->]; by_state.
    split; [|done]. intros ->. by destruct H2 as [H2 _]; specialize (H2 eq_refl).
Qed.

Lemma new_server_inv c s : new_server c = Ok s → lifecycle_inv s.
Proof. unfold new_server. intros (? & _ & [= <-])%res_bind_ok. by_state. Qed.

(** When every stop waits for the start before it, the handles agree with the
    state: a running server has its transport, and one that has stopped or failed
    has released everything. *)
Theorem lifecycle_consistent s es : lifecycle_inv s → disciplined s es → lifecycle_inv (server_run s es).
Proof.
  intros Hi Hd. induction Hd as [|s e es He Hd IH]; [done|]. cbn. apply IH. by apply server_step_inv.
Qed.

(** The tools are those registered before the start, and a server that was started
    is never new again. *)
Theorem tools_frozen s es :
  sv_state s ≠ created → sv_tools (server_run s es) = sv_tools s ∧ sv_state (server_run s es) ≠ created.
Proof.
  revert s. induction es as [|e es IH]; intros s Hs; [done|]. cbn [server_run foldl].
  assert (sv_tools (server_step s e) = sv_tools s ∧ sv_state (server_step s e) ≠ created) as [Et Hs'].
  { unfold server_step. destruct e as [name handler| |[p|c]| |]; cbn.
    - unfold registerTool. by rewrite bool_decide_false.
    - unfold start_call. destruct (sv_state s) eqn:E; cbn; by rewrite ?E.
    - unfold start_done. by destruct (sv_startPending s).
    - unfold start_done. by destruct (sv_startPending s).
    - unfold stop_call. destruct (sv_state s) eqn:E; cbn; by rewrite ?E.
    - unfold stop_done. by destruct (sv_stopsPending s). }
  rewrite <- Et. by apply IH.
Qed.

(** A stop that does not wait is undone: the start that was under way ends after it,
    and the server runs, listens and has no protocol server behind it. *)
Theorem stop_during_start_undone c s port :
  new_server c = Ok s → sc_transport c = "http" →
  let s1 := server_run s [ev_start; ev_stop; ev_stopped] in
  let s2 := server_step s1 (ev_started (Ok port)) in
  sv_state s1 = stopped ∧ sv_state s2 = running ∧ sv_httpServer s2 = true ∧ sv_mcpServer s2 = false.
Proof. unfold new_server. intros (? & _ & [= <-])%res_bind_ok Eh. cbn. rewrite Eh. done. Qed.
End Server.
