(* ===== verification/BridgeExamples.v ===== *)
(** * Concrete bridge calls

    A token with limits on calls and value, an outbox and a server: the values at
    which the theorems of Bridge.v and BridgeScope.v are applied, and runs of the
    edges. *)
From S2P Require Import Prelude JsValue Time Encoding Crypto ToyPrimitives Authorization SignedPayload Envelope.
From S2P Require CrossSettle CrossSettleExamples.
From S2P Require Import BridgeScope Bridge.
Open Scope Z_scope.

(** ** The scope validator *)

Definition bx_token : string := "123e4567-e89b-42d3-a456-426614174000".
Definition bx_claims (perDay total : Z) : list ScopeClaim :=
  [mkScopeClaim "max_per_day" (Fin perDay) None; mkScopeClaim "max_total_value" (Fin total) (Some "USD")].
Definition bx_input (key : string) (claims : list ScopeClaim) (v : option Z) : ValidateScopeInput :=
  mkScopeInput (mkCallArguments None (Fin <$> v) (Some "USD")) claims bx_token key.
Definition bx_day : string := "2026-06-01".

Definition bx_answers (l : list ValidateScopeInput) : list (res ValidateScopeResult) :=
  (foldl (λ acc i, let '(out, w) := acc in let '(r, w') := validateScope i bx_day calm w in (out ++ [r], w')) ([], no_rows) l).1.

Definition bx_exhausted : ValidateScopeResult := scope_reject "TOTAL_VALUE_EXHAUSTED" "mcp_error_scope_inflation".
Definition bx_quota : ValidateScopeResult := scope_reject "QUOTA_EXHAUSTED_PER_DAY" "mcp_error_quota_exhausted".

(** Amounts are in thousandths: 60, then 50 over the total of 100, then 40. *)
Example bx_run :
  bx_answers [bx_input "k1" (bx_claims 2 100000) (Some 60000); bx_input "k2" (bx_claims 2 100000) (Some 50000);
              bx_input "k1" (bx_claims 2 100000) (Some 60000); bx_input "k3" (bx_claims 2 100000) (Some 40000);
              bx_input "k4" (bx_claims 2 100000) None]
  = [Ok scope_ok; Ok bx_exhausted; Ok scope_ok; Ok scope_ok; Ok bx_quota].
Proof. vm_compute. reflexivity. Qed.

Lemma scope_ledger_refined_witness :
  let reqs := [(bx_input "k1" (bx_claims 2 100000) (Some 60000), bx_day); (bx_input "k2" (bx_claims 2 100000) (Some 50000), bx_day);
               (bx_input "k1" (bx_claims 2 100000) (Some 60000), bx_day)] in
  scope_answers reqs no_rows = [Ok scope_ok; Ok bx_exhausted; Ok scope_ok]
  ∧ represents (mkLedger [("k1", bx_token, bx_day)] [("k1", bx_token, "USD", Fin 60000)]) (scope_run reqs no_rows).
Proof. intros reqs. apply (scope_ledger_refined reqs no_charges no_rows no_rows_represent). Defined.

Lemma limits_respected_witness :
  let reqs := [(bx_input "k1" (bx_claims 2 100000) (Some 60000), bx_day); (bx_input "k2" (bx_claims 2 100000) (Some 50000), bx_day);
               (bx_input "k3" (bx_claims 2 100000) (Some 40000), bx_day)] in
  (∀ n, t_quota (scope_run reqs no_rows) !! (bx_token, bx_day) = Some n → 0 < n <= 2)
  ∧ (∀ n, t_value (scope_run reqs no_rows) !! (bx_token, "USD") = Some n → ∃ z, n = Fin z ∧ 0 <= z <= 10000).
Proof.
  intros reqs. apply limits_respected; [lia|].
  assert (∀ key v, 0 <= v <= 100000 → within bx_token "USD" 2 10000 (bx_input key (bx_claims 2 100000) (Some v))) as Hw.
  { intros key v Hv _. split.
    - intros c [= <-]. exists 2. split; [reflexivity|lia].
    - intros c [= <-] _. exists v, 100000. split; [reflexivity|]. split; [lia|]. split; [reflexivity|lia]. }
  repeat first [apply Forall_nil_2 | apply Forall_cons_2; [apply Hw; lia|]].
Defined.

Lemma bx_run_represents reqs : represents (ledger_run reqs no_charges) (scope_run reqs no_rows).
Proof. apply scope_run_represents, no_rows_represent. Qed.

Lemma answered {A B} (p : A * B) a : p.1 = a → p = (a, p.2).
Proof. destruct p. by intros <-. Qed.

Lemma refusal_charges_nothing_witness :
  let w := scope_run [(bx_input "k1" (bx_claims 2 100000) (Some 60000), bx_day)] no_rows in
  ∃ w', validateScope (bx_input "k2" (bx_claims 2 100000) (Some 50000)) bx_day calm w = (Ok bx_exhausted, w') ∧ w' = w.
Proof.
  intros w. pose proof (answered (validateScope (bx_input "k2" (bx_claims 2 100000) (Some 50000)) bx_day calm w) (Ok bx_exhausted)
    ltac:(vm_compute; reflexivity)) as E. eexists. split; [exact E|].
  refine (refusal_charges_nothing _ _ _ w _ _ (bx_run_represents _) E _). discriminate.
Defined.

(** The key was used for 1; the same key passes with 1000. *)
Lemma reused_key_free_witness :
  let claims := [mkScopeClaim "max_total_value" (Fin 5000) (Some "USD")] in
  ∃ w', validateScope (bx_input "k1" claims (Some 1000)) bx_day calm no_rows = (Ok scope_ok, w')
    ∧ validateScope (bx_input "k1" claims (Some 1000000)) "2026-06-02" calm w' = (Ok scope_ok, w').
Proof.
  intros claims. pose proof (answered (validateScope (bx_input "k1" claims (Some 1000)) bx_day calm no_rows) (Ok scope_ok)
    ltac:(vm_compute; reflexivity)) as E. eexists. split; [exact E|].
  apply (reused_key_free (bx_input "k1" claims (Some 1000)) _ bx_day _ no_charges no_rows _ no_rows_represent E); reflexivity.
Defined.

Lemma first_amount_unlimited_witness :
  let i := bx_input "k1" [mkScopeClaim "max_total_value" (Fin 5000) (Some "USD")] (Some 1000000) in
  ∃ w', validateScope i bx_day calm no_rows = (Ok scope_ok, w') ∧ t_value w' !! (pg_uuid (vs_tokenId i), "USD") = Some (Fin 100000).
Proof.
  intros i. apply (first_amount_unlimited i bx_day no_charges no_rows (mkScopeClaim "max_total_value" (Fin 5000) (Some "USD")) "USD" 1000000);
    try (vm_compute; reflexivity); [apply no_rows_represent|]. intros Hs. inversion Hs.
Defined.

Lemma first_call_unlimited_witness :
  let i := bx_input "k1" [mkScopeClaim "max_per_day" (Fin 0) None] None in
  ∃ w', validateScope i bx_day calm no_rows = (Ok scope_ok, w') ∧ t_quota w' !! (pg_uuid (vs_tokenId i), bx_day) = Some 1.
Proof.
  intros i. apply (first_call_unlimited i bx_day no_charges no_rows (mkScopeClaim "max_per_day" (Fin 0) None) 0);
    try (vm_compute; reflexivity); [apply no_rows_represent|vm_compute; split; discriminate|]. intros Hs. inversion Hs.
Defined.

(** A negative amount gives back what was spent, and amounts below half a cent
    never add up. *)
Theorem amounts_unchecked :
  let claims := [mkScopeClaim "max_total_value" (Fin 100000) (Some "USD")] in
  bx_answers [bx_input "k1" claims (Some 100000); bx_input "k2" claims (Some 1000); bx_input "k3" claims (Some (-100000));
              bx_input "k4" claims (Some 100000)]
  = [Ok scope_ok; Ok bx_exhausted; Ok scope_ok; Ok scope_ok]
  ∧ t_value (scope_run [(bx_input "k1" claims (Some 4), bx_day); (bx_input "k2" claims (Some 4), bx_day); (bx_input "k3" claims (Some 4), bx_day)] no_rows)
      !! (bx_token, "USD") = Some (Fin 0).
Proof. vm_compute. done. Qed.

(** Aborted attempts are tried again, three times in all. *)
Theorem aborted_attempts :
  let i := bx_input "k1" (bx_claims 2 100000) (Some 60000) in
  (validateScope i bx_day (λ k w, (w, Nat.leb 1 k)) no_rows).1 = Ok scope_ok
  ∧ (validateScope i bx_day (λ k w, (w, true)) no_rows).1 = Throw "Error".
Proof. vm_compute. done. Qed.

(** ** The bridge *)

Definition bx_call : Adapter.IncomingMCPCallContext :=
  Adapter.mkIncoming (VObj [("jsonrpc", VStr "2.0"); ("id", VNum (Fin 7)); ("method", VStr "tools/call"); ("params", VObj [("tool", VStr "echo")])])
    None "did:agent:a" "client-1" "did:agent:b" "env-1" "2026-06-01T00:00:00.000Z" "sig" "0.1.0".

Lemma call_roundtrip_witness :
  ∃ e r, Adapter.incomingMCPCallToEnvelope bx_call = inl e ∧ Adapter.outgoingEnvelopeToMCPResponse e "client-1" = inl r
    ∧ map_get "id" r = Some (VNum (Fin 7)).
Proof.
  destruct (Adapter.incomingMCPCallToEnvelope bx_call) as [e|] eqn:E; [|discriminate].
  destruct (Adapter.call_roundtrip bx_call e E) as (_ & _ & _ & r & Hr & Hid & _). exists e, r. split; [reflexivity|]. split; [exact Hr|exact Hid].
Defined.

Import Outbox.
#[local] Existing Instances CrossSettleExamples.iso_time CrossSettleExamples.iso_time_laws.

Definition bx_create : CreateOutboxRowInput :=
  mkCreateOutbox "AAAAAAAA-0000-0000-0000-000000000001" "aaaaaaaa-0000-0000-0000-000000000002" None None None None None
    (mkSubject "agentDid" "did:agent:a") bx_token.

Lemma outbox_roundtrip_witness :
  ∃ row w', createOutboxRow PostgresOutboxStore bx_create 1780272000000 [] = (Ok row, w')
    ∧ pg_lookup (co_outboxId bx_create) w' = (Ok (Some (normal_row row)), w').
Proof.
  destruct (outbox_roundtrip bx_create 1780272000000 [] kind_agentDid 1780272000000 None eq_refl eq_refl eq_refl eq_refl eq_refl)
    as (row & w' & Hc & _ & Hl & _).
  - split; discriminate.
  - reflexivity.
  - discriminate.
  - reflexivity.
  - exists row, w'. split; [exact Hc|exact Hl].
Defined.

(** A port that throws on a malformed signature makes the read throw instead of
    being refused. *)
Theorem malformed_proof_throws :
  let row := mkOutboxRow "o" "e" settled None None "" None kind_agentDid "did:agent:a" "t" in
  let st := mkOutboxStore unit (λ _ w, (Ok tt, w)) (λ _ w, (Ok (Some row), w)) in
  let p := mkPopPorts (λ _, Ok [1]) (λ _, Ok (Some [2])) (λ sig _ _, if Nat.eqb (length sig) 64 then Ok false else Throw "INVALID_SIGNATURE_FORMAT") in
  getOutboxByID st p "o" (mkSubject "agentDid" "did:agent:a") [1; 2; 3] tt = (Throw "INVALID_SIGNATURE_FORMAT", tt)
  ∧ getOutboxByID st p "o" (mkSubject "agentDid" "did:agent:a") (replicate 64 0) tt = (Ok (inr unauthorized), tt).
Proof. by split. Qed.

(** A binding is still good at the instant of its end. *)
Theorem binding_end_inclusive :
  let b := HolderBinding.mkBinding "client-1" "did:agent:a" (Fin 0) (Fin 1000) "sig" in
  let p := HolderBinding.mkBindingPorts (λ _, Ok (Some b)) (λ _, Ok (Some "key")) (λ _, Ok None) in
  HolderBinding.resolveSenderForMCPCall p "client-1" 1000 = Ok (inl (HolderBinding.mkResolution "did:agent:a" "key"))
  ∧ HolderBinding.resolveSenderForMCPCall p "client-1" 1001 = Ok (inr HolderBinding.MCP_BINDING_EXPIRED_OR_MISSING).
Proof. by split. Qed.

Import Server.

Definition bx_config : MCPServerConfig := mkServerConfig "srv-1" "did:agent:b" "http" (Some (Fin 0)).
Definition bx_server : MCPServerAdapter := mkServer bx_config created [] false false None false 0.

Lemma lifecycle_consistent_witness :
  lifecycle_inv (server_run bx_server [ev_register "echo" (λ v, Ok (inl v)); ev_start; ev_started (Ok (Some (Fin 8080))); ev_stop; ev_stopped]).
Proof.
  apply lifecycle_consistent; [apply (new_server_inv bx_config); reflexivity|].
  repeat (constructor; [intros [=]; try reflexivity|]). constructor.
Defined.

Lemma tools_frozen_witness :
  sv_tools (server_run (server_step bx_server ev_start) [ev_register "echo" (λ v, Ok (inl v)); ev_started (Ok None)]) = [].
Proof. apply (tools_frozen (server_step bx_server ev_start) [ev_register "echo" (λ v, Ok (inl v)); ev_started (Ok None)]). discriminate. Defined.

Lemma stop_during_start_undone_witness :
  sv_state (server_run bx_server [ev_start; ev_stop; ev_stopped; ev_started (Ok (Some (Fin 8080)))]) = running.
Proof. apply (stop_during_start_undone bx_config bx_server (Some (Fin 8080)) eq_refl eq_refl). Defined.

(** The caller of a tool is shown the internal code of an error. *)
Theorem internal_code_shown :
  prop_of "internal_code" (cr_text (dispatchTool bx_server "missing" None)) = VStr "TOOL_NOT_FOUND".
Proof. reflexivity. Qed.
