(* ===== verification/Freshness.v ===== *)
(** * Resolver freshness proofs

    Models packages/identity/src/resolver-freshness-proof.ts with the schema
    and the factories of packages/types/src/rfp.ts: a resolver node signs a
    statement of when it was up to date and for how long the statement holds;
    a consumer checks eight invariants of one proof, or a quorum of proofs.
    The public-key resolver is a function whose answers are fixed during one
    call; an exception counts as an [RfpError] when its code is one of the
    eleven of the union. *)
From S2P Require Import Prelude JsValue Time Encoding Crypto Authorization SignedPayload.
Open Scope Z_scope.

(** ** Errors *)

Inductive RfpErrorCode : Type :=
| RFP_PROOF_INCOMPLETE
| RFP_VERSION_UNSUPPORTED
| RFP_CSP_VERSION_MISMATCH
| RFP_RESOLVER_DID_INVALID
| RFP_FRESHNESS_WINDOW_INVALID
| RFP_FRESHNESS_WINDOW_EXCESSIVE
| RFP_ASOF_FUTURE
| RFP_SIGNATURE_INVALID
| RFP_FRESHNESS_EXPIRED
| RFP_RESOLVER_UNREACHABLE
| RFP_QUORUM_FRESHNESS_UNMET.

Definition rfp_name (c : RfpErrorCode) : string :=
  match c with
  | RFP_PROOF_INCOMPLETE => "RFP_PROOF_INCOMPLETE"
  | RFP_VERSION_UNSUPPORTED => "RFP_VERSION_UNSUPPORTED"
  | RFP_CSP_VERSION_MISMATCH => "RFP_CSP_VERSION_MISMATCH"
  | RFP_RESOLVER_DID_INVALID => "RFP_RESOLVER_DID_INVALID"
  | RFP_FRESHNESS_WINDOW_INVALID => "RFP_FRESHNESS_WINDOW_INVALID"
  | RFP_FRESHNESS_WINDOW_EXCESSIVE => "RFP_FRESHNESS_WINDOW_EXCESSIVE"
  | RFP_ASOF_FUTURE => "RFP_ASOF_FUTURE"
  | RFP_SIGNATURE_INVALID => "RFP_SIGNATURE_INVALID"
  | RFP_FRESHNESS_EXPIRED => "RFP_FRESHNESS_EXPIRED"
  | RFP_RESOLVER_UNREACHABLE => "RFP_RESOLVER_UNREACHABLE"
  | RFP_QUORUM_FRESHNESS_UNMET => "RFP_QUORUM_FRESHNESS_UNMET"
  end.

Definition rfp_codes : list RfpErrorCode :=
  [RFP_PROOF_INCOMPLETE; RFP_VERSION_UNSUPPORTED; RFP_CSP_VERSION_MISMATCH; RFP_RESOLVER_DID_INVALID;
   RFP_FRESHNESS_WINDOW_INVALID; RFP_FRESHNESS_WINDOW_EXCESSIVE; RFP_ASOF_FUTURE; RFP_SIGNATURE_INVALID;
   RFP_FRESHNESS_EXPIRED; RFP_RESOLVER_UNREACHABLE; RFP_QUORUM_FRESHNESS_UNMET].

(** [new RfpError(code, ...)], thrown, and [err instanceof RfpError]. *)
Definition rfp_throw {A} (c : RfpErrorCode) : res A := Throw (rfp_name c).
Definition rfp_check (ok : bool) (c : RfpErrorCode) : res unit := check ok (rfp_name c).
Definition is_rfp_error (code : string) : bool := bool_decide (code ∈ rfp_name <$> rfp_codes).

Definition RFP_HTTP_STATUS (c : RfpErrorCode) : Z :=
  match c with
  | RFP_PROOF_INCOMPLETE | RFP_VERSION_UNSUPPORTED | RFP_CSP_VERSION_MISMATCH | RFP_RESOLVER_DID_INVALID
  | RFP_FRESHNESS_WINDOW_INVALID | RFP_FRESHNESS_WINDOW_EXCESSIVE | RFP_ASOF_FUTURE => 422
  | RFP_SIGNATURE_INVALID => 401
  | RFP_FRESHNESS_EXPIRED | RFP_RESOLVER_UNREACHABLE | RFP_QUORUM_FRESHNESS_UNMET => 503
  end.
Definition getRfpHttpStatus (code : RfpErrorCode) : Z := RFP_HTTP_STATUS code.

(** ** Data, schema and factories *)

Record ResolverFreshnessProof : Type := mkRfp {
  rp_rfpVersion : string;
  rp_cspVersion : string;
  rp_resolverDid : string;
  rp_asOfTime : string;
  rp_freshnessWindow : num;
  rp_signature : string }.

Definition toRfpVersionString (s : string) : res string :=
  _ ← rfp_check (semver_schema s) RFP_VERSION_UNSUPPORTED; mret s.
Definition toCspVersionString (s : string) : res string :=
  _ ← check (semver_schema s) "Error";
  _ ← check (String.eqb s "1.0.0") "Error"; mret s.

(** [Number.isInteger(fw) && fw >= 1_000 && fw <= 3_600_000] *)
Definition window_range (n : num) : bool :=
  is_finite n && negb (num_ltb n (Fin 1000)) && negb (num_gtb n (Fin 3600000)).
Definition toFreshnessWindowMs (n : num) : res num :=
  _ ← rfp_check (window_range n) RFP_FRESHNESS_WINDOW_INVALID; mret n.

(** [^[A-Za-z0-9_-]+$] *)
Definition b64_text (s : string) : bool := non_empty s && forallb is_b64 (chars s).
Definition toSignature (s : string) : res string :=
  _ ← rfp_check (b64_text s) RFP_SIGNATURE_INVALID; mret s.

(** [^\d{4}-\d{2}-\d{2}T\d{2}:\d{2}:\d{2}(\.\d+)?Z$] *)
Fixpoint digit_template (tmpl l : list ascii) : bool :=
  match tmpl, l with
  | [], [] => true
  | t :: tmpl', c :: l' => (if Ascii.eqb t "d" then is_digit c else Ascii.eqb c t) && digit_template tmpl' l'
  | _, _ => false
  end.
Definition fraction_Z (l : list ascii) : bool :=
  match l with
  | c :: l' =>
      if Ascii.eqb c "." then let '(ds, z) := span_digits l' in negb (Nat.eqb (length ds) 0) && bool_decide (z = ["Z"%char])
      else bool_decide (l = ["Z"%char])
  | [] => false
  end.
Definition utc_time (s : string) : bool :=
  let l := chars s in digit_template (chars "dddd-dd-ddTdd:dd:dd") (take 19 l) && fraction_Z (drop 19 l).

Definition rfp_fields : list string :=
  ["rfpVersion"; "cspVersion"; "resolverDid"; "asOfTime"; "freshnessWindow"; "signature"].

Definition version_schema : value → bool := string_where (λ s, semver_schema s && String.eqb s "1.0.0").
Definition window_schema (v : value) : bool := match v with VNum n => window_range n | _ => false end.

Definition RFP_SCHEMA : value → bool := object_where (λ o,
  required rfp_fields o && only rfp_fields o
  && property "rfpVersion" version_schema o
  && property "cspVersion" version_schema o
  && property "resolverDid" (string_where (λ s, str_startsWith s "did:")) o
  && property "asOfTime" (string_where utc_time) o
  && property "freshnessWindow" window_schema o
  && property "signature" (string_where b64_text) o).

(** The members of an accepted document. *)
Definition str_member (o : object) (k : string) : string :=
  match map_get k o with Some (VStr s) => s | _ => "" end.
Definition rfp_of_object (o : object) : ResolverFreshnessProof :=
  mkRfp (str_member o "rfpVersion") (str_member o "cspVersion") (str_member o "resolverDid") (str_member o "asOfTime")
    (match map_get "freshnessWindow" o with Some (VNum n) => n | _ => NaN end) (str_member o "signature").

Definition validateRfpSchema (rfp : value) : res ResolverFreshnessProof :=
  match rfp with
  | VObj o => if RFP_SCHEMA rfp then mret (rfp_of_object o) else rfp_throw RFP_PROOF_INCOMPLETE
  | _ => rfp_throw RFP_PROOF_INCOMPLETE
  end.

(** The document a resolver sends for a proof. *)
Definition rfp_document (p : ResolverFreshnessProof) : value :=
  VObj [("rfpVersion", VStr (rp_rfpVersion p)); ("cspVersion", VStr (rp_cspVersion p));
        ("resolverDid", VStr (rp_resolverDid p)); ("asOfTime", VStr (rp_asOfTime p));
        ("freshnessWindow", VNum (rp_freshnessWindow p)); ("signature", VStr (rp_signature p))].

(** ** Verification *)

Section freshness.
Context `{Primitives}.

(** The five signed members, in the order of their keys. *)
Definition sign_payload (rfpVersion cspVersion resolverDid asOf : string) (w : num) : value :=
  VObj [("asOfTime", VStr asOf); ("cspVersion", VStr cspVersion); ("freshnessWindow", VNum w);
        ("resolverDid", VStr resolverDid); ("rfpVersion", VStr rfpVersion)].

Definition CLOCK_SKEW_TOLERANCE_MS : Z := 5000.

Definition verifyResolverFreshness (resolvePublicKey : string → res (option bytes)) (rfp : value) (nowMs : Z)
    : res ResolverFreshnessProof :=
  validated ← validateRfpSchema rfp;
  _ ← rfp_check (String.eqb (rp_rfpVersion validated) "1.0.0") RFP_VERSION_UNSUPPORTED;
  _ ← rfp_check (String.eqb (rp_cspVersion validated) "1.0.0") RFP_CSP_VERSION_MISMATCH;
  _ ← rfp_check (str_startsWith (rp_resolverDid validated) "did:") RFP_RESOLVER_DID_INVALID;
  let fw := rp_freshnessWindow validated in
  _ ← rfp_check (window_range fw)
        (if num_gtb fw (Fin 3600000) then RFP_FRESHNESS_WINDOW_EXCESSIVE else RFP_FRESHNESS_WINDOW_INVALID);
  match iso_getTime (rp_asOfTime validated) with
  | None => rfp_throw RFP_PROOF_INCOMPLETE
  | Some asOfMs =>
      _ ← rfp_check (negb (nowMs + CLOCK_SKEW_TOLERANCE_MS <? asOfMs)) RFP_ASOF_FUTURE;
      key ← resolvePublicKey (rp_resolverDid validated);
      match key with
      | None => rfp_throw RFP_RESOLVER_UNREACHABLE
      | Some resolverPublicKey =>
          canonicalJson ← canonicalize jcs (sign_payload (rp_rfpVersion validated) (rp_cspVersion validated)
                                              (rp_resolverDid validated) (rp_asOfTime validated) fw);
          let sigValid := match verify (textEncode canonicalJson) (rp_signature validated) (toBase64Url resolverPublicKey) with
                          | Ok b => b
                          | Throw _ => false
                          end in
          _ ← rfp_check sigValid RFP_SIGNATURE_INVALID;
          _ ← rfp_check (negb (num_gtb (Fin (nowMs - asOfMs)) fw)) RFP_FRESHNESS_EXPIRED;
          mret validated
      end
  end.

Record CreateRfpParams : Type := mkCreateRfp {
  cf_resolverDid : string;
  cf_freshnessWindowMs : option num;
  cf_asOfTime : option string;
  cf_sign : bytes → res string }.

Definition createResolverFreshnessProof (p : CreateRfpParams) (now : Z) : res ResolverFreshnessProof :=
  let asOf := default (toISOString now) (cf_asOfTime p) in
  _ ← rfp_check (str_startsWith (cf_resolverDid p) "did:") RFP_RESOLVER_DID_INVALID;
  w ← toFreshnessWindowMs (default (Fin 300000) (cf_freshnessWindowMs p));
  canonicalJson ← canonicalize jcs (sign_payload "1.0.0" "1.0.0" (cf_resolverDid p) asOf w);
  signatureRaw ← cf_sign p (textEncode canonicalJson);
  signature ← toSignature signatureRaw;
  rv ← toRfpVersionString "1.0.0";
  cv ← toCspVersionString "1.0.0";
  mret (mkRfp rv cv (cf_resolverDid p) asOf w signature).

Record RfpConsumerOptions : Type := mkConsumerOptions {
  requireRfp : option bool;
  maxAllowedFreshnessWindowMs : option num }.

Definition verifyRfpForConsumer (resolvePublicKey : string → res (option bytes)) (options : RfpConsumerOptions)
    (rfpPayload : value) (nowMs : Z) : res (option ResolverFreshnessProof) :=
  match rfpPayload with
  | VNull | VUndefined =>
      _ ← rfp_check (negb (default false (requireRfp options))) RFP_PROOF_INCOMPLETE; mret None
  | _ =>
      verified ← verifyResolverFreshness resolvePublicKey rfpPayload nowMs;
      _ ← rfp_check (negb (num_gtb (rp_freshnessWindow verified) (default (Fin 3600000) (maxAllowedFreshnessWindowMs options))))
            RFP_FRESHNESS_WINDOW_EXCESSIVE;
      mret (Some verified)
  end.

Record QuorumNode : Type := mkQuorumNode { qn_nodeId : string; qn_resolverDid : string; qn_rfpPayload : value }.

Record NodeRfpResult : Type := mkNodeRfp {
  nr_nodeId : string;
  nr_resolverDid : string;
  rfpVerified : option ResolverFreshnessProof;
  rfpError : option string }.

Definition node_result (resolvePublicKey : string → res (option bytes)) (options : RfpConsumerOptions) (nowMs : Z)
    (n : QuorumNode) : NodeRfpResult :=
  match verifyRfpForConsumer resolvePublicKey options (qn_rfpPayload n) nowMs with
  | Ok r => mkNodeRfp (qn_nodeId n) (qn_resolverDid n) r None
  | Throw code =>
      mkNodeRfp (qn_nodeId n) (qn_resolverDid n) None
        (Some (if is_rfp_error code then code else rfp_name RFP_RESOLVER_UNREACHABLE))
  end.

Definition validCount (results : list NodeRfpResult) : nat :=
  length (filter (λ r, is_Some (rfpVerified r)) results).

Definition verifyQuorumFreshness (resolvePublicKey : string → res (option bytes)) (nodes : list QuorumNode)
    (quorumThreshold : num) (options : RfpConsumerOptions) (nowMs : Z) : res (list NodeRfpResult) :=
  let results := node_result resolvePublicKey options nowMs <$> nodes in
  _ ← rfp_check (negb (num_ltb (Fin (Z.of_nat (validCount results))) quorumThreshold)) RFP_QUORUM_FRESHNESS_UNMET;
  mret results.

End freshness.

(** ** What a verified proof says *)

(** The two conditions on the clock. *)
Definition in_date (p : ResolverFreshnessProof) (nowMs : Z) : Prop :=
  ∃ t w, iso_getTime (rp_asOfTime p) = Some t ∧ rp_freshnessWindow p = Fin w
    ∧ t <= nowMs + CLOCK_SKEW_TOLERANCE_MS ∧ nowMs <= t + w.

Section verified.
Context `{Primitives}.
Implicit Types (R : string → res (option bytes)) (p : ResolverFreshnessProof).

Definition rfp_text p : bytes :=
  textEncode (jcs (sign_payload (rp_rfpVersion p) (rp_cspVersion p) (rp_resolverDid p) (rp_asOfTime p) (rp_freshnessWindow p))).

(** The signature is the resolver's, over the five members. *)
Definition rfp_signed R p : Prop :=
  ∃ key, R (rp_resolverDid p) = Ok (Some key) ∧ verify (rfp_text p) (rp_signature p) (toBase64Url key) = Ok true.

Lemma window_range_ok n : window_range n = true ↔ ∃ w, n = Fin w ∧ 1000 <= w <= 3600000.
Proof.
  unfold window_range. destruct n as [| | |w]; cbn; try (split; [done|by intros (? & [=] & _)]).
  rewrite andb_true_iff, !negb_true_iff, !Z.ltb_ge. split; [intros []; exists w; split; [done|lia]|intros (? & [= <-] & ?); lia].
Qed.

(** What the schema admits. *)
Record rfp_shape p : Prop := mkShape {
  sh_rfp : rp_rfpVersion p = "1.0.0";
  sh_csp : rp_cspVersion p = "1.0.0";
  sh_did : str_startsWith (rp_resolverDid p) "did:" = true;
  sh_time : utc_time (rp_asOfTime p) = true;
  sh_window : window_range (rp_freshnessWindow p) = true;
  sh_signature : b64_text (rp_signature p) = true }.

Lemma string_member o k ok :
  bool_decide (is_Some (prop k o)) = true → property k (string_where ok) o = true → ok (str_member o k) = true.
Proof.
  intros [v E]%bool_decide_eq_true. unfold property, str_member. rewrite E. unfold prop in E.
  destruct (map_get k o) as [[]|]; try discriminate E; injection E as <-; cbn; done.
Qed.

Lemma schema_shape v p : validateRfpSchema v = Ok p → rfp_shape p.
Proof.
  destruct v as [| | | | | |o]; try discriminate 1. unfold validateRfpSchema.
  destruct (RFP_SCHEMA (VObj o)) eqn:E; [|discriminate 1]. intros [= <-].
  cbn [RFP_SCHEMA object_where] in E. rewrite !andb_true_iff in E. destruct E as (((((((Hr & _) & H1) & H2) & H3) & H4) & H5) & H6).
  unfold required, rfp_fields in Hr. cbn [forallb] in Hr. rewrite !andb_true_iff in Hr.
  destruct Hr as (R1 & R2 & R3 & R4 & R5 & R6 & _).
  pose proof (string_member _ _ _ R1 H1) as V1. pose proof (string_member _ _ _ R2 H2) as V2.
  cbv beta in V1, V2. rewrite andb_true_iff, String.eqb_eq in V1, V2.
  split; cbn; try tauto; [by eapply (string_member _ _ (λ s, str_startsWith s "did:"))|by eapply (string_member _ _ utc_time)| |by eapply string_member].
  apply bool_decide_eq_true in R5 as [v5 E5]. unfold property in H5. rewrite E5 in H5. unfold prop in E5.
  destruct (map_get "freshnessWindow" o) as [[]|]; try discriminate E5; injection E5 as <-; try discriminate H5. done.
Qed.

Lemma schema_document p : rfp_shape p → validateRfpSchema (rfp_document p) = Ok p.
Proof.
  intros [H1 H2 H3 H4 H5 H6]. destruct p as [v c d a w s]. cbn in *. subst v c.
  assert (RFP_SCHEMA (rfp_document (mkRfp "1.0.0" "1.0.0" d a w s)) = true) as E.
  { unfold RFP_SCHEMA, object_where, rfp_document.
    rewrite !andb_true_iff. split_and!; try reflexivity; unfold property, prop; cbn; done. }
  transitivity (if RFP_SCHEMA (rfp_document (mkRfp "1.0.0" "1.0.0" d a w s)) then Ok (mkRfp "1.0.0" "1.0.0" d a w s)
                else rfp_throw RFP_PROOF_INCOMPLETE); [reflexivity|].
  by rewrite E.
Qed.

Lemma rfp_check_ok ok c u : rfp_check ok c = Ok u ↔ ok = true.
Proof. unfold rfp_check. by rewrite check_ok. Qed.

(** The stages that follow the schema, on a document of the right shape. *)
Lemma verify_shaped R v p nowMs : validateRfpSchema v = Ok p →
  verifyResolverFreshness R v nowMs =
  match iso_getTime (rp_asOfTime p) with
  | None => rfp_throw RFP_PROOF_INCOMPLETE
  | Some t =>
      if nowMs + CLOCK_SKEW_TOLERANCE_MS <? t then rfp_throw RFP_ASOF_FUTURE
      else key ← R (rp_resolverDid p);
           match key with
           | None => rfp_throw RFP_RESOLVER_UNREACHABLE
           | Some k =>
               if bool_decide (verify (rfp_text p) (rp_signature p) (toBase64Url k) = Ok true) then
                 if num_gtb (Fin (nowMs - t)) (rp_freshnessWindow p) then rfp_throw RFP_FRESHNESS_EXPIRED else mret p
               else rfp_throw RFP_SIGNATURE_INVALID
           end
  end.
Proof.
  intros E. destruct (schema_shape v p E) as [H1 H2 H3 _ H5 _]. unfold verifyResolverFreshness. rewrite E.
  cbn [mbind res_bind]. rewrite H3, H5. unfold rfp_text. rewrite H1, H2. cbn [mbind res_bind rfp_check check].
  rewrite !String.eqb_refl. cbn [mbind res_bind rfp_check check].
  apply window_range_ok in H5 as (w & Ew & _). rewrite Ew.
  destruct (iso_getTime (rp_asOfTime p)) as [t|]; [|done].
  destruct (_ <? t); cbn [negb mbind res_bind rfp_check check]; [done|].
  destruct (R (rp_resolverDid p)) as [[k|]|]; [|done|done]. cbn [mbind res_bind].
  unfold canonicalize. cbn [assertSerializable sign_payload forallb andb is_finite mbind res_bind snd].
  destruct (verify _ _ _) as [[]|]; [rewrite bool_decide_eq_true_2 by done|rewrite bool_decide_eq_false_2 by done|rewrite bool_decide_eq_false_2 by done].
  all: cbn [negb mbind res_bind rfp_check check]; try done.
  by destruct (num_gtb _ _).
Qed.

Lemma verify_needs_schema R v p nowMs : verifyResolverFreshness R v nowMs = Ok p → validateRfpSchema v = Ok p.
Proof.
  intros Hv. destruct (validateRfpSchema v) as [q|c] eqn:E; [|unfold verifyResolverFreshness in Hv; by rewrite E in Hv].
  rewrite (verify_shaped R v q) in Hv by done. f_equal.
  destruct (iso_getTime _); [|done]. destruct (_ <? _); [done|]. destruct (R _) as [[k|]|]; try done. cbn in Hv.
  destruct (bool_decide _); [|done]. destruct (num_gtb _ _); [done|]. by injection Hv.
Qed.

(** The eight invariants decide exactly this: a document is accepted, at a
    moment, when it has the shape of the schema, its time is readable and at
    most five seconds ahead of the clock, its window is not yet over, and the
    key on file for the resolver that it names verifies the signature over
    all its other members. *)
Theorem freshness_exact R v p nowMs :
  verifyResolverFreshness R v nowMs = Ok p ↔ validateRfpSchema v = Ok p ∧ in_date p nowMs ∧ rfp_signed R p.
Proof.
  split.
  - intros Hv. pose proof (verify_needs_schema _ _ _ _ Hv) as E. split; [done|]. rewrite (verify_shaped R v p) in Hv by done.
    pose proof (sh_window _ (schema_shape _ _ E)) as (w & Ew & _)%window_range_ok. rewrite Ew in Hv. unfold in_date, rfp_signed.
    destruct (iso_getTime _) as [t|] eqn:Et; [|done]. destruct (Z.ltb_spec (nowMs + CLOCK_SKEW_TOLERANCE_MS) t) as [|Hle]; [done|].
    destruct (R _) as [[k|]|] eqn:Ek; try done. cbn in Hv. destruct (bool_decide _) eqn:Es; [|done].
    apply bool_decide_eq_true in Es. destruct (Z.ltb_spec w (nowMs - t)); [done|].
    split; [exists t, w; split_and!; [done..|lia]|by exists k].
  - intros (E & (t & w & Et & Ew & H1 & H2) & (k & Ek & Es)). rewrite (verify_shaped R v p) by done.
    rewrite Et, Ek, Ew. cbn [mbind res_bind num_gtb num_ltb].
    rewrite (proj2 (Z.ltb_ge _ _)) by done. rewrite bool_decide_eq_true_2 by done. by rewrite (proj2 (Z.ltb_ge _ _)) by lia.
Qed.

(** Five of the codes are never thrown by the verification itself: the schema
    refuses such a document first, as incomplete. *)
Theorem shadowed_codes R v nowMs c :
  (∀ did code, R did = Throw code → is_rfp_error code = false) →
  verifyResolverFreshness R v nowMs = Throw (rfp_name c) →
  c ∈ [RFP_PROOF_INCOMPLETE; RFP_ASOF_FUTURE; RFP_RESOLVER_UNREACHABLE; RFP_SIGNATURE_INVALID; RFP_FRESHNESS_EXPIRED].
Proof.
  intros HR Hv. destruct (validateRfpSchema v) as [p|code] eqn:E.
  2: { assert (Throw (A := ResolverFreshnessProof) code = rfp_throw RFP_PROOF_INCOMPLETE) as [= ->].
       { rewrite <- E. destruct v; try done. unfold validateRfpSchema in *. by destruct (RFP_SCHEMA _). }
       unfold verifyResolverFreshness in Hv. rewrite E in Hv. cbn in Hv. destruct c; try discriminate Hv. left. }
  rewrite (verify_shaped R v p) in Hv by done. destruct (iso_getTime _) as [t|]; [|destruct c; try discriminate Hv; left].
  destruct (_ <? _); [destruct c; try discriminate Hv; right; left|].
  destruct (R _) as [[k|]|code] eqn:Ek; cbn in Hv.
  - destruct (bool_decide _); [destruct (num_gtb _ _); [|done]|]; destruct c; try discriminate Hv; repeat constructor.
  - destruct c; try discriminate Hv; repeat constructor.
  - injection Hv as ->. apply HR in Ek. destruct c; vm_compute in Ek; discriminate Ek.
Qed.

(** ** Quorums *)

Definition payload_ok R options nowMs (n : QuorumNode) : Prop :=
  ∃ p, verifyRfpForConsumer R options (qn_rfpPayload n) nowMs = Ok (Some p).

#[global] Instance payload_ok_dec R options nowMs n : Decision (payload_ok R options nowMs n).
Proof.
  unfold payload_ok. destruct (verifyRfpForConsumer _ _ _ _) as [[p|]|]; [left; by exists p|right; by intros [? [=]]..].
Defined.

Lemma node_result_ok R options nowMs n : is_Some (rfpVerified (node_result R options nowMs n)) ↔ payload_ok R options nowMs n.
Proof.
  unfold node_result, payload_ok. destruct (verifyRfpForConsumer _ _ _ _) as [[p|]|]; cbn.
  - split; [intros _; by exists p|done].
  - split; [by intros [? [=]]|by intros [? [=]]].
  - split; [by intros [? [=]]|by intros [? [=]]].
Qed.

(** A quorum is met exactly when enough nodes sent a proof that verifies; one
    result is reported per node, in their order, with the proof or the error
    of that node alone. *)
Theorem quorum_exact R nodes threshold options nowMs results :
  verifyQuorumFreshness R nodes (Fin threshold) options nowMs = Ok results ↔
  threshold <= Z.of_nat (length (filter (payload_ok R options nowMs) nodes))
  ∧ results = node_result R options nowMs <$> nodes.
Proof.
  assert (validCount (node_result R options nowMs <$> nodes) = length (filter (payload_ok R options nowMs) nodes)) as E.
  { unfold validCount. induction nodes as [|n ns IH]; [done|]. cbn [fmap list_fmap]. rewrite !filter_cons.
    destruct (decide (payload_ok R options nowMs n)) as [Hp|Hp].
    - rewrite decide_True by (by apply node_result_ok). cbn. f_equal. apply IH.
    - rewrite decide_False by (by rewrite node_result_ok). apply IH. }
  unfold verifyQuorumFreshness. rewrite E, res_bind_ok. cbn [num_ltb]. split.
  - intros (? & Hc%rfp_check_ok & [= <-]). by apply negb_true_iff, Z.ltb_ge in Hc.
  - intros [Hc ->]. exists tt. by rewrite rfp_check_ok, negb_true_iff, Z.ltb_ge.
Qed.

(** A proof is not tied to the node that presents it, nor counted once: a
    single resolver's proof, presented by [n] nodes under whatever DIDs, makes
    a quorum of [n]. *)
Theorem one_proof_makes_quorum R options nowMs v p (names : list (string * string)) :
  verifyRfpForConsumer R options v nowMs = Ok (Some p) →
  verifyQuorumFreshness R ((λ nd, mkQuorumNode nd.1 nd.2 v) <$> names) (Fin (Z.of_nat (length names))) options nowMs
  = Ok ((λ nd, mkNodeRfp nd.1 nd.2 (Some p) None) <$> names).
Proof.
  intros Hv. apply quorum_exact. split.
  - induction names as [|nd names IH]; [done|]. cbn [fmap list_fmap]. rewrite filter_cons, decide_True by (by exists p).
    cbn [length]. lia.
  - rewrite <- list_fmap_compose. apply list_fmap_ext. intros i nd _. unfold compose, node_result. cbn. by rewrite Hv.
Qed.

End verified.

(** ** Round trip *)

Section roundtrip.
Context `{PrimitiveLaws}.

(** A created proof has the shape of the schema when its time has. *)
Lemma created_inv params now p :
  createResolverFreshnessProof params now = Ok p → utc_time (default (toISOString now) (cf_asOfTime params)) = true →
  rfp_shape p ∧ rp_resolverDid p = cf_resolverDid params
  ∧ rp_asOfTime p = default (toISOString now) (cf_asOfTime params)
  ∧ rp_freshnessWindow p = default (Fin 300000) (cf_freshnessWindowMs params)
  ∧ cf_sign params (rfp_text p) = Ok (rp_signature p).
Proof.
  unfold createResolverFreshnessProof, toFreshnessWindowMs, toSignature. intros Hc Ht.
  apply res_bind_ok in Hc as (? & Hd%rfp_check_ok & Hc).
  apply res_bind_ok in Hc as (w & Hw & Hc). apply res_bind_ok in Hw as (? & Hw%rfp_check_ok & [= Ew]). subst w.
  apply res_bind_ok in Hc as (cj & [_ ->]%canonicalize_inv & Hc). apply res_bind_ok in Hc as (raw & Hs & Hc).
  apply res_bind_ok in Hc as (sg & Hsg & Hc). apply res_bind_ok in Hsg as (? & Hb%rfp_check_ok & [= ->]).
  cbn in Hc. injection Hc as <-. split; [by split|]. done.
Qed.

(** What a resolver node signs, a consumer that knows its key accepts from
    five seconds before the time in it to the end of its window, both ends
    included, and refuses outside that interval with the code of the side. *)
Theorem created_proof_lifetime R params now p seed skey t w nowMs :
  Forall is_byte seed → length seed = 32%nat →
  cf_sign params = (λ m, sign m (match skey with enc_hex => toHex seed | enc_base64url => toBase64Url seed end) enc_base64url) →
  createResolverFreshnessProof params now = Ok p →
  utc_time (rp_asOfTime p) = true → iso_getTime (rp_asOfTime p) = Some t → rp_freshnessWindow p = Fin w →
  detectEncoding (rp_signature p) = enc_base64url →
  R (cf_resolverDid params) = Ok (Some (ed25519_pub seed)) →
  verifyResolverFreshness R (rfp_document p) nowMs
  = if nowMs <? t - CLOCK_SKEW_TOLERANCE_MS then rfp_throw RFP_ASOF_FUTURE
    else if t + w <? nowMs then rfp_throw RFP_FRESHNESS_EXPIRED else Ok p.
Proof.
  intros Hb Hl Hf Hc Hu Ht Hw Hd HR.
  assert (rp_asOfTime p = default (toISOString now) (cf_asOfTime params)) as Ea.
  { unfold createResolverFreshnessProof in Hc. repeat (apply res_bind_ok in Hc as (? & ? & Hc)). by injection Hc as <-. }
  rewrite Ea in Hu. destruct (created_inv params now p Hc Hu) as (Hsh & Ed & _ & _ & Hs).
  rewrite Hf in Hs. rewrite (verify_shaped R _ p) by (by apply schema_document). rewrite Ht, Ed, HR, Hw.
  cbn [mbind res_bind num_gtb num_ltb].
  rewrite bool_decide_eq_true_2 by (by apply (sign_verify_encodings _ seed skey enc_base64url enc_base64url _ _ Hb Hl eq_refl Hs)).
  destruct (Z.ltb_spec (nowMs + CLOCK_SKEW_TOLERANCE_MS) t), (Z.ltb_spec nowMs (t - CLOCK_SKEW_TOLERANCE_MS)); try lia; [done|].
  destruct (Z.ltb_spec w (nowMs - t)), (Z.ltb_spec (t + w) nowMs); try lia; done.
Qed.

End roundtrip.
