(* ===== verification/Identity.v ===== *)
(** * Agent identities

    Models packages/identity/src: binding.ts (the principal's signature that
    binds an agent to it), did.ts ([createAgentDID]), did-agent.ts (identity
    documents, their verification, and the keys that a verifier may use) and
    key-rotation.ts (the proof of three signatures), with
    packages/crypto/src/key-generation.ts and the agentIdentityDocument schema
    of packages/types/src/schemas.ts.  A document is a record; a member that
    is optional on the wire is an [option], as is the binding proof, which the
    routes must check for.  The clock and the random seed are arguments. *)
From S2P Require Import Prelude JsValue Time Encoding Crypto Authorization CapabilityToken SignedPayload.
Open Scope Z_scope.

(** ** Data *)

Record BindingProof : Type := mkBinding {
  bp_principalDid : string;
  bp_agentDid : string;
  bp_issuedAt : string;
  bp_expiresAt : option string;
  bp_signature : string }.

Record RotationProof : Type := mkRotation {
  ro_oldPublicKey : string;
  ro_newPublicKey : string;
  ro_oldKeySignature : string;
  ro_newKeySignature : string;
  ro_principalSignature : string;
  ro_agentDid : string;
  ro_rotatedAt : string }.

Inductive KeyRotationState : Type := KR_ACTIVE | KR_ROTATING | KR_RETIRED.

Record ServiceEndpoint : Type := mkEndpoint { se_id : string; se_type : string; se_url : string }.

(** [_rotatingState] is the marker of a [RotatingDocument]. *)
Record AgentIdentityDocument : Type := mkDocument {
  ad_id : string;
  ad_specVersion : string;
  ad_principalDid : string;
  ad_publicKey : string;
  ad_bindingProof : option BindingProof;
  ad_capabilities : option (list string);
  ad_serviceEndpoints : option (list ServiceEndpoint);
  ad_createdAt : string;
  ad_updatedAt : string;
  ad_version : option Z;
  ad_previousPublicKey : option string;
  ad_rotationProof : option RotationProof;
  ad_rotatingState : bool }.

Record KeyPair : Type := mkKeyPair { kp_publicKey : string; kp_privateKey : string }.

#[export] Instance BindingProof_eq_dec : EqDecision BindingProof.
Proof. solve_decision. Defined.
#[export] Instance RotationProof_eq_dec : EqDecision RotationProof.
Proof. solve_decision. Defined.
#[export] Instance KeyRotationState_eq_dec : EqDecision KeyRotationState.
Proof. solve_decision. Defined.
#[export] Instance ServiceEndpoint_eq_dec : EqDecision ServiceEndpoint.
Proof. solve_decision. Defined.
#[export] Instance AgentIdentityDocument_eq_dec : EqDecision AgentIdentityDocument.
Proof. solve_decision. Defined.

(** ** Schema *)

Definition publicKey_schema (s : string) : bool :=
  hex64 s || (Nat.eqb (String.length s) 43 && forallb is_b64 (chars s)).

Definition bindingProof_schema (b : BindingProof) : bool :=
  didKeyPattern (bp_principalDid b) && isDidAgent (bp_agentDid b) && timestampPattern (bp_issuedAt b)
  && match bp_expiresAt b with Some t => timestampPattern t | None => true end
  && signature_schema (bp_signature b).

Definition rotationProof_schema (r : RotationProof) : bool :=
  publicKey_schema (ro_oldPublicKey r) && publicKey_schema (ro_newPublicKey r)
  && signature_schema (ro_oldKeySignature r) && signature_schema (ro_newKeySignature r)
  && signature_schema (ro_principalSignature r) && isDidAgent (ro_agentDid r) && timestampPattern (ro_rotatedAt r).

(** [^https://.+]: after the prefix, a character that ends no line *)
Definition endpoint_url (s : string) : bool :=
  str_startsWith s "https://"
  && match drop 8 (chars s) with c :: _ => negb (Ascii.eqb c "010") && negb (Ascii.eqb c "013") | [] => false end.
Definition serviceEndpoint_schema (e : ServiceEndpoint) : bool :=
  non_empty (se_id e) && non_empty (se_type e) && endpoint_url (se_url e).

Definition opt_schema {A} (ok : A → bool) (o : option A) : bool := match o with Some a => ok a | None => true end.

(** [additionalProperties: false] refuses the marker; a rotation proof requires
    the previous key. *)
Definition agentIdentityDocument_schema (d : AgentIdentityDocument) : bool :=
  isDidAgent (ad_id d) && specVersion_enum (ad_specVersion d) && didKeyPattern (ad_principalDid d)
  && publicKey_schema (ad_publicKey d)
  && match ad_bindingProof d with Some b => bindingProof_schema b | None => false end
  && opt_schema (λ l, forallb (λ a, bool_decide (a ∈ BUSINESS_ACTION_VOCABULARY)) l && Nat.leb (length l) 20
                      && bool_decide (NoDup l)) (ad_capabilities d)
  && opt_schema (forallb serviceEndpoint_schema) (ad_serviceEndpoints d)
  && timestampPattern (ad_createdAt d) && timestampPattern (ad_updatedAt d)
  && opt_schema (Z.leb 1) (ad_version d)
  && opt_schema publicKey_schema (ad_previousPublicKey d)
  && opt_schema rotationProof_schema (ad_rotationProof d)
  && (bool_decide (ad_rotationProof d = None) || bool_decide (is_Some (ad_previousPublicKey d)))
  && negb (ad_rotatingState d).

Section identity.
Context `{Primitives}.

(** ** Keys and DIDs *)

Definition createAgentDID (publicKeyInput : string) : res string :=
  bs ← match detectEncoding publicKeyInput with
       | enc_hex => fromHex publicKeyInput
       | enc_base64url => fromBase64Url publicKeyInput
       end;
  mret ("did:agent:" +:+ str (take 40 (chars (hash bs enc_hex)))).

(** [seed] is what [ed25519.utils.randomPrivateKey] returned. *)
Definition generateKeyPair (seed : bytes) : KeyPair :=
  mkKeyPair (toHex (ed25519_pub seed)) (toHex (seed ++ ed25519_pub seed)).

(** ** binding.ts *)

Definition bindingPayload (agentDid issuedAt principalDid : string) : res bytes :=
  s ← canonicalize jcs (VObj [("agentDid", VStr agentDid); ("issuedAt", VStr issuedAt); ("principalDid", VStr principalDid)]);
  mret (textEncode s).

Record CreateBindingParams : Type := mkCreateBinding {
  cb_principalDid : string;
  cb_agentDid : string;
  cb_principalPrivateKey : string;
  cb_issuedAt : option string;
  cb_expiresAt : option string }.

Definition createBinding (p : CreateBindingParams) (now : Z) : res BindingProof :=
  let issuedAt := default (toISOString now) (cb_issuedAt p) in
  _ ← check (isDidKey (cb_principalDid p)) "Error";
  _ ← check (isDidAgent (cb_agentDid p)) "Error";
  payload ← bindingPayload (cb_agentDid p) issuedAt (cb_principalDid p);
  signature ← sign payload (cb_principalPrivateKey p) IDENTITY_ENCODING;
  mret (mkBinding (cb_principalDid p) (cb_agentDid p) issuedAt (cb_expiresAt p) signature).

(** [try { ... } catch { return false; }] *)
Definition or_false (r : res bool) : bool := match r with Ok b => b | Throw _ => false end.

Definition verifyBinding (proof : BindingProof) (now : string) : bool :=
  or_false (
    if negb (isDidKey (bp_principalDid proof)) || negb (isDidAgent (bp_agentDid proof)) then mret false
    else if match bp_expiresAt proof with Some e => isTimestampExpired e now | None => false end then mret false
    else
      publicKey ← extractPublicKeyFromDIDKey (bp_principalDid proof);
      payload ← bindingPayload (bp_agentDid proof) (bp_issuedAt proof) (bp_principalDid proof);
      verify payload (bp_signature proof) publicKey).

(** ** key-rotation.ts *)

Definition isValidPublicKey (key : string) : bool := publicKey_schema key.

Definition buildSignedPayloadBytes (agentDid newPublicKey oldPublicKey rotatedAt : string) : res bytes :=
  s ← canonicalize jcs (VObj [("agentDid", VStr agentDid); ("newPublicKey", VStr newPublicKey);
                              ("oldPublicKey", VStr oldPublicKey); ("rotatedAt", VStr rotatedAt)]);
  mret (textEncode s).

Definition verifyRotationProof (proof : RotationProof) (principalDid : string) : bool :=
  or_false (
    if negb (isValidPublicKey (ro_oldPublicKey proof)) || negb (isValidPublicKey (ro_newPublicKey proof)) then mret false
    else if String.eqb (ro_oldPublicKey proof) (ro_newPublicKey proof) then mret false
    else if negb (isDidAgent (ro_agentDid proof)) then mret false
    else if negb (timestampPattern (ro_rotatedAt proof)) then mret false
    else
      payload ← buildSignedPayloadBytes (ro_agentDid proof) (ro_newPublicKey proof) (ro_oldPublicKey proof) (ro_rotatedAt proof);
      v1 ← verify payload (ro_oldKeySignature proof) (ro_oldPublicKey proof);
      if negb v1 then mret false else
      v2 ← verify payload (ro_newKeySignature proof) (ro_newPublicKey proof);
      if negb v2 then mret false else
      if negb (isDidKey principalDid) then mret false else
      principalPublicKey ← extractPublicKeyFromDIDKey principalDid;
      v3 ← verify payload (ro_principalSignature proof) principalPublicKey;
      mret v3).

Record RotationParams : Type := mkInitiate {
  in_currentDoc : AgentIdentityDocument;
  in_currentPrivateKey : string;
  in_newKeyPair : KeyPair;
  in_principalApproval : string;
  in_rotatedAt : option string;
  in_currentRotationState : option KeyRotationState }.

Definition rotated_document (doc : AgentIdentityDocument) (publicKey rotatedAt : string) (proof : RotationProof)
    : AgentIdentityDocument :=
  mkDocument (ad_id doc) "0.2.0" (ad_principalDid doc) publicKey (ad_bindingProof doc) (ad_capabilities doc)
    (ad_serviceEndpoints doc) (ad_createdAt doc) rotatedAt (Some (default 1 (ad_version doc) + 1))
    (Some (ad_publicKey doc)) (Some proof) true.

Definition initiateKeyRotation (p : RotationParams) (now : Z) : res AgentIdentityDocument :=
  let doc := in_currentDoc p in
  let newKey := kp_publicKey (in_newKeyPair p) in
  let rotationState := default (if ad_rotatingState doc then KR_ROTATING else KR_ACTIVE) (in_currentRotationState p) in
  _ ← check (negb (bool_decide (rotationState = KR_ROTATING))) "Error";
  _ ← check (isValidPublicKey newKey) "Error";
  _ ← check (Nat.eqb (String.length (kp_privateKey (in_newKeyPair p))) 128) "Error";
  _ ← check (negb (String.eqb newKey (ad_publicKey doc))) "Error";
  _ ← check (opt_schema timestampPattern (in_rotatedAt p)) "Error";
  let rotatedAt := default (toISOString now) (in_rotatedAt p) in
  payload ← buildSignedPayloadBytes (ad_id doc) newKey (ad_publicKey doc) rotatedAt;
  oldKeySignature ← sign payload (in_currentPrivateKey p) IDENTITY_ENCODING;
  newKeySignature ← sign payload (kp_privateKey (in_newKeyPair p)) IDENTITY_ENCODING;
  let proof := mkRotation (ad_publicKey doc) newKey oldKeySignature newKeySignature (in_principalApproval p) (ad_id doc) rotatedAt in
  _ ← check (verifyRotationProof proof (ad_principalDid doc)) "Error";
  mret (rotated_document doc newKey rotatedAt proof).

(** [const { _rotatingState, ...rest } = rotatingDoc] *)
Definition without_marker (d : AgentIdentityDocument) : AgentIdentityDocument :=
  mkDocument (ad_id d) (ad_specVersion d) (ad_principalDid d) (ad_publicKey d) (ad_bindingProof d) (ad_capabilities d)
    (ad_serviceEndpoints d) (ad_createdAt d) (ad_updatedAt d) (ad_version d) (ad_previousPublicKey d) (ad_rotationProof d) false.

Definition completeKeyRotation (rotatingDoc : AgentIdentityDocument) (currentRotationState : option KeyRotationState)
    : res AgentIdentityDocument :=
  _ ← check (ad_rotatingState rotatingDoc || bool_decide (currentRotationState = Some KR_ROTATING)) "Error";
  match ad_rotationProof rotatingDoc with
  | None => Throw "Error"
  | Some proof =>
      _ ← check (verifyRotationProof proof (ad_principalDid rotatingDoc)) "Error";
      mret (without_marker rotatingDoc)
  end.

(** ** did-agent.ts *)

Record BuildParams : Type := mkBuild {
  bd_agentDid : option string;
  bd_agentPublicKeyHex : string;
  bd_principalDid : string;
  bd_bindingProof : BindingProof;
  bd_capabilities : option (list string);
  bd_serviceEndpoints : option (list ServiceEndpoint);
  bd_createdAt : option string;
  bd_updatedAt : option string }.

Definition buildAgentIdentityDocument (p : BuildParams) (now : Z) : res AgentIdentityDocument :=
  let createdAt := default (toISOString now) (bd_createdAt p) in
  let updatedAt := default createdAt (bd_updatedAt p) in
  agentDid ← match bd_agentDid p with Some d => mret d | None => createAgentDID (bd_agentPublicKeyHex p) end;
  mret (mkDocument agentDid "0.1.0" (bd_principalDid p) (bd_agentPublicKeyHex p) (Some (bd_bindingProof p))
          (bd_capabilities p) (bd_serviceEndpoints p) createdAt updatedAt (Some 1) None None false).

Record CreateAgentIdentityParams : Type := mkCreateIdentity {
  ci_principalDid : string;
  ci_principalPrivateKey : string;
  ci_capabilities : option (list string);
  ci_serviceEndpoints : option (list ServiceEndpoint);
  ci_createdAt : option string }.

Definition createAgentIdentity (p : CreateAgentIdentityParams) (seed : bytes) (now : Z) : res (AgentIdentityDocument * string) :=
  let keyPair := generateKeyPair seed in
  agentDid ← createAgentDID (kp_publicKey keyPair);
  let createdAt := default (toISOString now) (ci_createdAt p) in
  bindingProof ← createBinding (mkCreateBinding (ci_principalDid p) agentDid (ci_principalPrivateKey p) (Some createdAt) None) now;
  document ← buildAgentIdentityDocument
               (mkBuild (Some agentDid) (kp_publicKey keyPair) (ci_principalDid p) bindingProof (ci_capabilities p)
                  (ci_serviceEndpoints p) (Some createdAt) (Some createdAt)) now;
  mret (document, kp_privateKey keyPair).

(** The fields of the errors of a rotated document. *)
Definition rotation_errors (d : AgentIdentityDocument) : list string :=
  match ad_rotationProof d with
  | None => ["rotationProof"]
  | Some proof =>
      (if String.eqb (ro_agentDid proof) (ad_id d) then [] else ["rotationProof.agentDid"])
      ++ (if String.eqb (ro_newPublicKey proof) (ad_publicKey d) then [] else ["rotationProof.newPublicKey"])
      ++ (match ad_previousPublicKey d with
          | Some k => if String.eqb (ro_oldPublicKey proof) k then [] else ["rotationProof.oldPublicKey"]
          | None => []
          end)
      ++ (if verifyRotationProof proof (ad_principalDid d) then [] else ["rotationProof"])
  end.

(** The fields of the errors, in order; the issues of the schema count as one.
    The document is valid when the list is empty. *)
Definition verifyAgentIdentityDocument (d : AgentIdentityDocument) (now : string) : res (list string) :=
  let e1 := if agentIdentityDocument_schema d then [] else ["schema"] in
  let e2 := if specVersion_enum (ad_specVersion d) then [] else ["specVersion"] in
  let e3 := if isDidAgent (ad_id d) then [] else ["id"] in
  let e4 := if isDidKey (ad_principalDid d) then [] else ["principalDid"] in
  e5 ← (if default 1 (ad_version d) =? 1 then
          did ← createAgentDID (ad_publicKey d);
          mret (if String.eqb did (ad_id d) then [] else ["publicKey"])
        else mret (rotation_errors d));
  match ad_bindingProof d with
  | None => Throw "TypeError"
  | Some b =>
      let e6 := if String.eqb (bp_agentDid b) (ad_id d) then [] else ["bindingProof.agentDid"] in
      let e7 := if String.eqb (bp_principalDid b) (ad_principalDid d) then [] else ["bindingProof.principalDid"] in
      let e8 := if verifyBinding b now then [] else ["bindingProof"] in
      mret (e1 ++ e2 ++ e3 ++ e4 ++ e5 ++ e6 ++ e7 ++ e8)
  end.

End identity.

(** *** The keys of an agent *)

Definition DEFAULT_GRACE_PERIOD_MS : Z := 24 * 60 * 60 * 1000.
Definition MAX_GRACE_PERIOD_MS : Z := 48 * 60 * 60 * 1000.

Record KeyRecord : Type := mkKeyRecord {
  kr_document : AgentIdentityDocument;
  kr_rotationState : KeyRotationState;
  kr_rotationStartedAt : option string }.

(** [a - b] for two readings that may be [NaN]. *)
Definition num_sub (a b : num) : num := match a, b with Fin x, Fin y => Fin (x - y) | _, _ => NaN end.
Definition grace_period (gracePeriodMs : option num) : num :=
  num_min (default (Fin DEFAULT_GRACE_PERIOD_MS) gracePeriodMs) (Fin MAX_GRACE_PERIOD_MS).

Definition resolvePublicKeys (r : KeyRecord) (gracePeriodMs : option num) (now : option string) (clock : Z) : ResolvedPublicKeys :=
  let d := kr_document r in
  let grace := grace_period gracePeriodMs in
  let nowMs := match now with Some s => if non_empty s then dateNum s else Fin clock | None => Fin clock end in
  let stable := mkResolvedPublicKeys (ad_publicKey d) None None STABLE in
  if negb (bool_decide (kr_rotationState r = KR_ROTATING)) then stable
  else match kr_rotationStartedAt r with
       | None => stable
       | Some started =>
           let gracePeriodExpired := num_geb (num_sub nowMs (dateNum started)) grace in
           match gracePeriodExpired, ad_previousPublicKey d with
           | false, Some previous => mkResolvedPublicKeys (ad_publicKey d) (Some previous) (Some started) ROTATING
           | _, _ => stable
           end
       end.

(** The [resolvedPublicKeys] schema. *)
Definition resolvedPublicKeys_schema (k : ResolvedPublicKeys) : bool :=
  publicKey_schema (rk_current k) && opt_schema publicKey_schema (rk_previous k)
  && opt_schema timestampPattern (rk_previousValidBefore k)
  && match rk_rotationState k with
     | ROTATING => bool_decide (is_Some (rk_previous k)) && bool_decide (is_Some (rk_previousValidBefore k))
     | STABLE | FROZEN => bool_decide (rk_previous k = None) && bool_decide (rk_previousValidBefore k = None)
     end.

(** ** What the two proofs say *)

Section proofs.
Context `{Primitives}.

Lemma or_false_true r : or_false r = true ↔ r = Ok true.
Proof. destruct r as [[]|]; naive_solver. Qed.

Definition binding_text (b : BindingProof) : bytes :=
  textEncode (jcs (VObj [("agentDid", VStr (bp_agentDid b)); ("issuedAt", VStr (bp_issuedAt b));
                         ("principalDid", VStr (bp_principalDid b))])).

Definition unexpired (expiresAt : option string) (now : string) : Prop :=
  ∀ e, expiresAt = Some e → isTimestampExpired e now = false.

(** A binding holds when the key in the principal's DID signed the agent, the
    principal and the time of issue, and the binding is not yet over. *)
Lemma verifyBinding_iff b now :
  verifyBinding b now = true ↔
  isDidKey (bp_principalDid b) = true ∧ isDidAgent (bp_agentDid b) = true ∧ unexpired (bp_expiresAt b) now
  ∧ ∃ pk, extractPublicKeyFromDIDKey (bp_principalDid b) = Ok pk ∧ verify (binding_text b) (bp_signature b) pk = Ok true.
Proof.
  unfold verifyBinding. rewrite or_false_true. unfold unexpired.
  destruct (isDidKey (bp_principalDid b)); cbn [negb orb]; [|split; [done|by intros (? & _)]].
  destruct (isDidAgent (bp_agentDid b)); cbn [negb]; [|split; [done|by intros (_ & ? & _)]].
  destruct (match bp_expiresAt b with Some e => isTimestampExpired e now | None => false end) eqn:Ee.
  { split; [done|]. intros (_ & _ & Hu & _). destruct (bp_expiresAt b); [by rewrite Hu in Ee|done]. }
  destruct (extractPublicKeyFromDIDKey (bp_principalDid b)) as [pk|]; cbn.
  - split; [|by intros (_ & _ & _ & ? & [= <-] & ?)]. intros Hv. split_and!; try done; [|by exists pk].
    by intros e He; rewrite He in Ee.
  - split; [done|by intros (_ & _ & _ & ? & [=] & _)].
Qed.

Definition rotation_text (r : RotationProof) : bytes :=
  textEncode (jcs (VObj [("agentDid", VStr (ro_agentDid r)); ("newPublicKey", VStr (ro_newPublicKey r));
                         ("oldPublicKey", VStr (ro_oldPublicKey r)); ("rotatedAt", VStr (ro_rotatedAt r))])).

(** A rotation is proved by three signatures over one text: the old key's, the
    new key's and the principal's. *)
Record rotation_holds (r : RotationProof) (principalDid : string) : Prop := mkRotationHolds {
  rh_old : isValidPublicKey (ro_oldPublicKey r) = true;
  rh_new : isValidPublicKey (ro_newPublicKey r) = true;
  rh_change : ro_oldPublicKey r ≠ ro_newPublicKey r;
  rh_agent : isDidAgent (ro_agentDid r) = true;
  rh_time : timestampPattern (ro_rotatedAt r) = true;
  rh_old_signed : verify (rotation_text r) (ro_oldKeySignature r) (ro_oldPublicKey r) = Ok true;
  rh_new_signed : verify (rotation_text r) (ro_newKeySignature r) (ro_newPublicKey r) = Ok true;
  rh_principal : isDidKey principalDid = true;
  rh_principal_signed : ∃ pk, extractPublicKeyFromDIDKey principalDid = Ok pk
                          ∧ verify (rotation_text r) (ro_principalSignature r) pk = Ok true }.

Lemma verifyRotationProof_iff r did : verifyRotationProof r did = true ↔ rotation_holds r did.
Proof.
  unfold verifyRotationProof. rewrite or_false_true. split.
  - destruct (isValidPublicKey (ro_oldPublicKey r)) eqn:E1; [|done]. destruct (isValidPublicKey (ro_newPublicKey r)) eqn:E2; [|done].
    cbn [negb orb]. destruct (String.eqb_spec (ro_oldPublicKey r) (ro_newPublicKey r)) as [|E3]; [done|].
    destruct (isDidAgent _) eqn:E4; [|done]. destruct (timestampPattern _) eqn:E5; [|done]. cbn [negb].
    unfold buildSignedPayloadBytes, canonicalize. cbn [assertSerializable forallb andb snd mbind res_bind mret res_ret].
    change (textEncode (jcs _)) with (rotation_text r).
    destruct (verify _ _ (ro_oldPublicKey r)) as [[]|] eqn:E6; try done. destruct (verify _ _ (ro_newPublicKey r)) as [[]|] eqn:E7; try done.
    cbn [mbind res_bind negb mret res_ret]. destruct (isDidKey did) eqn:E8; [|done].
    destruct (extractPublicKeyFromDIDKey did) as [pk|] eqn:E9; [|done]. cbn [mbind res_bind negb mret res_ret].
    destruct (verify _ _ pk) as [[]|] eqn:E10; try done. intros _. split; try done. by exists pk.
  - intros [H1 H2 H3 H4 H5 H6 H7 H8 (pk & H9 & H10)]. rewrite H1, H2, H4, H5. cbn [negb orb].
    rewrite (proj2 (String.eqb_neq _ _) H3). unfold buildSignedPayloadBytes, canonicalize.
    cbn [assertSerializable forallb andb snd mbind res_bind mret res_ret]. change (textEncode (jcs _)) with (rotation_text r).
    rewrite H6. cbn [mbind res_bind negb]. rewrite H7. cbn [mbind res_bind negb]. rewrite H8, H9. cbn [mbind res_bind negb]. by rewrite H10.
Qed.

(** The end of a binding is not signed: a binding that verified once verifies
    for ever after its end is struck out. *)
Theorem binding_end_unsigned b now now' :
  verifyBinding b now = true →
  verifyBinding (mkBinding (bp_principalDid b) (bp_agentDid b) (bp_issuedAt b) None (bp_signature b)) now' = true.
Proof. rewrite !verifyBinding_iff. intros (H1 & H2 & _ & H4). split_and!; try done. Qed.

(** Completing a rotation checks the proof, not the document that carries it:
    with another key, or another identifier, it completes as well. *)
Theorem completion_ignores_document d out st key id :
  completeKeyRotation d st = Ok out →
  completeKeyRotation (mkDocument id (ad_specVersion d) (ad_principalDid d) key (ad_bindingProof d) (ad_capabilities d)
    (ad_serviceEndpoints d) (ad_createdAt d) (ad_updatedAt d) (ad_version d) (ad_previousPublicKey d) (ad_rotationProof d)
    (ad_rotatingState d)) st
  = Ok (mkDocument id (ad_specVersion d) (ad_principalDid d) key (ad_bindingProof d) (ad_capabilities d)
    (ad_serviceEndpoints d) (ad_createdAt d) (ad_updatedAt d) (ad_version d) (ad_previousPublicKey d) (ad_rotationProof d) false).
Proof.
  unfold completeKeyRotation. cbn. intros Hc. apply res_bind_ok in Hc as (? & H1 & Hc). rewrite H1.
  destruct (ad_rotationProof d) as [r|]; [|done]. apply res_bind_ok in Hc as (? & H2 & _). cbn. by rewrite H2.
Qed.

(** ** Valid documents *)

(** What a document without errors satisfies. *)
Record valid_document (d : AgentIdentityDocument) (now : string) : Prop := mkValid {
  vd_schema : agentIdentityDocument_schema d = true;
  vd_principal : isDidKey (ad_principalDid d) = true;
  vd_first : default 1 (ad_version d) = 1 → createAgentDID (ad_publicKey d) = Ok (ad_id d);
  vd_rotated : default 1 (ad_version d) ≠ 1 → ∃ r, ad_rotationProof d = Some r ∧ ro_agentDid r = ad_id d
    ∧ ro_newPublicKey r = ad_publicKey d ∧ ad_previousPublicKey d = Some (ro_oldPublicKey r)
    ∧ rotation_holds r (ad_principalDid d);
  vd_binding : ∃ b, ad_bindingProof d = Some b ∧ bp_agentDid b = ad_id d ∧ bp_principalDid b = ad_principalDid d
    ∧ verifyBinding b now = true }.

Lemma schema_parts d : agentIdentityDocument_schema d = true →
  isDidAgent (ad_id d) = true ∧ specVersion_enum (ad_specVersion d) = true ∧ publicKey_schema (ad_publicKey d) = true
  ∧ opt_schema (Z.leb 1) (ad_version d) = true
  ∧ (ad_rotationProof d = None ∨ is_Some (ad_previousPublicKey d)) ∧ ad_rotatingState d = false.
Proof.
  unfold agentIdentityDocument_schema. rewrite !andb_true_iff, orb_true_iff, !bool_decide_eq_true, negb_true_iff. tauto.
Qed.

Lemma if_nil (b : bool) (s : string) : (if b then [] else [s]) = [] ↔ b = true.
Proof. by destruct b. Qed.

Lemma rotation_errors_nil d : ad_rotationProof d = None ∨ is_Some (ad_previousPublicKey d) →
  rotation_errors d = [] ↔ ∃ r, ad_rotationProof d = Some r ∧ ro_agentDid r = ad_id d
    ∧ ro_newPublicKey r = ad_publicKey d ∧ ad_previousPublicKey d = Some (ro_oldPublicKey r)
    ∧ rotation_holds r (ad_principalDid d).
Proof.
  intros Hp. unfold rotation_errors. destruct (ad_rotationProof d) as [r|]; [|split; [done|by intros (? & [=] & _)]].
  destruct Hp as [[=]|[k Ek]]. rewrite Ek. rewrite !app_nil, !if_nil, !String.eqb_eq, verifyRotationProof_iff. split.
  - intros (H1 & H2 & <- & H4). by exists r.
  - by intros (? & [= <-] & ? & ? & [= ->] & ?).
Qed.

Lemma verify_document_iff d now : verifyAgentIdentityDocument d now = Ok [] ↔ valid_document d now.
Proof.
  unfold verifyAgentIdentityDocument. split.
  - intros Hv. apply res_bind_ok in Hv as (e5 & H5 & Hv). destruct (ad_bindingProof d) as [b|] eqn:Eb; [|done].
    injection Hv as Hv. rewrite !app_nil, !if_nil, !String.eqb_eq in Hv. destruct Hv as (Hs & _ & _ & Hk & -> & H6 & H7 & H8).
    destruct (schema_parts d Hs) as (_ & _ & _ & _ & Hp & _). split; try done.
    + intros E. rewrite E in H5. cbn in H5. apply res_bind_ok in H5 as (did & Ed & [= H5]).
      rewrite if_nil, String.eqb_eq in H5. by subst.
    + intros E. rewrite (proj2 (Z.eqb_neq _ _) E) in H5. injection H5 as H5. by apply rotation_errors_nil.
    + by exists b.
  - intros [Hs Hk Hf Hr (b & Eb & H6 & H7 & H8)]. destruct (schema_parts d Hs) as (Ha & Hv & _ & _ & Hp & _).
    rewrite Hs, Hv, Ha, Hk, Eb, H6, H7, H8, !String.eqb_refl.
    destruct (Z.eqb_spec (default 1 (ad_version d)) 1) as [E|E].
    + rewrite (Hf E). cbn. by rewrite String.eqb_refl.
    + rewrite (proj2 (rotation_errors_nil d Hp) (Hr E)). done.
Qed.

End proofs.

(** ** Keys at work *)

Section keys.
Context `{PrimitiveLaws}.

Definition encoded (e : encoding) (bs : bytes) : string := match e with enc_hex => toHex bs | enc_base64url => toBase64Url bs end.

(** A seed of 32 bytes and the forms in which a private key is passed. *)
Definition is_seed (seed : bytes) : Prop := Forall is_byte seed ∧ length seed = 32%nat.
Definition private_key (seed : bytes) (k : string) : Prop :=
  (∃ e, k = encoded e seed) ∨ k = kp_privateKey (generateKeyPair seed).

Lemma sign_with seed k m e : is_seed seed → private_key seed k → sign m k e = Ok (encoded e (ed25519_sign m seed)).
Proof.
  intros [Hb Hl] Hk. destruct (ed25519_pub_bytes seed) as [Pb Pl]. unfold sign, assertPrivateKey, assertDecoded.
  assert (normalizeKey k = Ok seed ∨ normalizeKey k = Ok (seed ++ ed25519_pub seed)) as [E|E].
  { destruct Hk as [[[] ->]| ->]; cbn.
    - left. by apply normalizeKey_toHex.
    - left. apply normalizeKey_toBase64Url; [done|by apply toBase64Url_key_detect].
    - right. apply normalizeKey_toHex. by apply Forall_app. }
  - rewrite E, Hl. cbn. rewrite take_ge by lia. by destruct e.
  - rewrite E, length_app, Hl, Pl. cbn. rewrite take_app_length' by done. by destruct e.
Qed.

Lemma verify_with seed m e pe : is_seed seed →
  (e = enc_base64url → detectEncoding (toBase64Url (ed25519_sign m seed)) = enc_base64url) →
  verify m (encoded e (ed25519_sign m seed)) (encoded pe (ed25519_pub seed)) = Ok true.
Proof.
  intros [Hb Hl] Hd.
  apply (sign_verify_encodings m seed enc_hex pe e (toHex seed) (encoded e (ed25519_sign m seed)) Hb Hl eq_refl).
  - apply (sign_with seed); [done|left; by exists enc_hex].
  - intros ->. by apply Hd.
Qed.

Lemma is_seed_pub seed : is_seed (ed25519_pub seed).
Proof. by apply ed25519_pub_bytes. Qed.

Lemma hex_byte_lower b : is_byte b → forallb is_lower_hex (hex_byte b) = true.
Proof.
  intros Hb. apply hex_byte_range in Hb as [H1 H2]. unfold hex_byte. cbn [forallb].
  assert (∀ n, 0 <= n < 16 → is_lower_hex (hex_digit n) = true) as Hd.
  { intros n Hn. assert (forallb (λ n, is_lower_hex (hex_digit n)) (seqZ 0 16) = true) as Hf by done.
    rewrite forallb_forall in Hf. apply Hf. apply list_elem_of_In, elem_of_seqZ. lia. }
  by rewrite !Hd.
Qed.

Lemma toHex_lower bs : Forall is_byte bs → forallb is_lower_hex (chars (toHex bs)) = true.
Proof.
  intros Hb. unfold toHex. rewrite chars_str. induction Hb as [|b bs Hb _ IH]; [done|].
  cbn [fmap list_fmap concat]. by rewrite forallb_app, hex_byte_lower.
Qed.

Lemma toBase64Url_b64 bs : Forall is_byte bs → forallb is_b64 (chars (toBase64Url bs)) = true.
Proof.
  intros Hb. unfold toBase64Url. rewrite chars_str. pose proof (b64_encode_table bs Hb) as Ht.
  apply forallb_forall. intros c Hc. apply list_elem_of_In in Hc. rewrite Forall_forall in Ht.
  by destruct (Ht c Hc).
Qed.

(** A public key and a signature have the shapes of the schema. *)
Lemma publicKey_schema_encoded seed e : publicKey_schema (encoded e (ed25519_pub seed)) = true.
Proof.
  destruct (ed25519_pub_bytes seed) as [Pb Pl]. unfold publicKey_schema, hex64. destruct e; cbn [encoded].
  - rewrite toHex_lower by done. unfold toHex. by rewrite str_length, hex_length, Pl.
  - rewrite toBase64Url_b64 by done. unfold toBase64Url. rewrite str_length, b64_length, Pl. apply orb_true_r.
Qed.

Lemma signature_schema_encoded m seed e : signature_schema (encoded e (ed25519_sign m seed)) = true.
Proof.
  destruct (ed25519_sign_bytes m seed) as [Sb Sl]. unfold signature_schema. destruct e; cbn [encoded].
  - rewrite toHex_lower by done. unfold toHex. by rewrite str_length, hex_length, Sl.
  - rewrite toBase64Url_b64 by done. unfold toBase64Url. rewrite str_length, b64_length, Sl. apply orb_true_r.
Qed.

(** The did:agent of a key is well formed. *)
Lemma createAgentDID_key pk e : is_seed pk →
  createAgentDID (encoded e pk) = Ok ("did:agent:" +:+ str (take 40 (chars (hash pk enc_hex))))
  ∧ isDidAgent ("did:agent:" +:+ str (take 40 (chars (hash pk enc_hex)))) = true.
Proof.
  intros [Hb Hl]. split.
  - unfold createAgentDID. destruct e; cbn [encoded].
    + by rewrite toHex_detect, toHex_fromHex by done.
    + by rewrite toBase64Url_key_detect, toBase64Url_fromBase64Url by done.
  - destruct (sha256_bytes pk) as [Sb Sl]. unfold isDidAgent. rewrite prefix_app, chars_app, chars_str.
    rewrite (drop_app_length' (chars "did:agent:")) by done. cbn [andb].
    pose proof (toHex_lower _ Sb) as Hx. unfold hash. unfold toHex in *. rewrite chars_str in *.
    assert (length (concat (hex_byte <$> sha256 pk)) = 64%nat) as L by (by rewrite hex_length, Sl).
    rewrite length_take, L. cbn [Nat.min Nat.eqb andb].
    rewrite <- (take_drop 40 (concat _)), forallb_app in Hx. by apply andb_true_iff in Hx as [Hx _].
Qed.

Lemma split_colon_word l : forallb is_word l = true → split_colon l = [l].
Proof.
  induction l as [|c l IH]; [done|]. cbn [forallb split_colon]. intros [Hc Hl]%andb_true_iff. rewrite IH by done.
  destruct (Ascii.eqb_spec c ":") as [->|]; [by vm_compute in Hc|done].
Qed.

Lemma is_base58_word c : is_base58 c = true → is_word c = true.
Proof. destruct c as [[] [] [] [] [] [] [] []]; vm_compute; done. Qed.

Lemma isDidKey_pattern did : isDidKey did = true → didKeyPattern did = true.
Proof.
  unfold isDidKey, didKeyPattern. cbn zeta. rewrite !andb_true_iff. intros (-> & Hn & Hf). split; [done|].
  assert (forallb is_word (drop 8 (chars did)) = true) as Hw.
  { rewrite forallb_forall in *. intros c Hc. by apply is_base58_word, Hf. }
  unfold colon_words. rewrite split_colon_word by done. cbn [forallb]. by rewrite Hn, Hw.
Qed.

End keys.

(** ** Creation and rotation *)

Section lifecycle.
Context `{PrimitiveLaws}.

(** A binding that the principal signed verifies until its end. *)
Theorem binding_lifetime p now b seed now' :
  is_seed seed → cb_principalDid p = publicKeyToDidKey (ed25519_pub seed) → private_key seed (cb_principalPrivateKey p) →
  createBinding p now = Ok b → detectEncoding (bp_signature b) = enc_base64url →
  verifyBinding b now' = match cb_expiresAt p with Some e => negb (isTimestampExpired e now') | None => true end.
Proof.
  intros Hs Hp Hk Hc Hd. unfold createBinding in Hc. apply res_bind_ok in Hc as (? & Hdk%check_ok & Hc).
  apply res_bind_ok in Hc as (? & Hda%check_ok & Hc). unfold bindingPayload, canonicalize in Hc.
  cbn [assertSerializable forallb andb snd mbind res_bind mret res_ret] in Hc.
  rewrite (sign_with seed) in Hc by done. cbn in Hc. injection Hc as <-. cbn in Hd.
  destruct (extractPublicKey_didKey (ed25519_pub seed)) as [_ He]; [apply ed25519_pub_bytes..|].
  apply eq_true_iff_eq. rewrite verifyBinding_iff. cbn. rewrite Hp, He. unfold unexpired. split.
  - intros (_ & _ & Hu & _). destruct (cb_expiresAt p) as [e|]; [by rewrite Hu|done].
  - intros He'. split; [by rewrite <- Hp|]. split; [done|]. split.
    + intros e Ee. rewrite Ee in He'. by apply negb_true_iff in He'.
    + exists (toHex (ed25519_pub seed)). split; [done|]. rewrite <- Hp.
      by apply (verify_with seed _ enc_base64url enc_hex).
Qed.

(** Rotation keeps a document valid: when a rotation of a valid document is
    initiated, it completes, and the completed document is valid, names the
    old key as the previous one and has the next version. *)
Theorem rotation_keeps_valid p now r st now' :
  valid_document (in_currentDoc p) now' → signature_schema (in_principalApproval p) = true →
  initiateKeyRotation p now = Ok r →
  ∃ d, completeKeyRotation r st = Ok d ∧ valid_document d now'
    ∧ ad_publicKey d = kp_publicKey (in_newKeyPair p) ∧ ad_previousPublicKey d = Some (ad_publicKey (in_currentDoc p))
    ∧ ad_version d = Some (default 1 (ad_version (in_currentDoc p)) + 1) ∧ ad_id d = ad_id (in_currentDoc p).
Proof.
  intros Hv Hsig Hr. unfold initiateKeyRotation in Hr.
  apply res_bind_ok in Hr as (? & _ & Hr). apply res_bind_ok in Hr as (? & Hnk%check_ok & Hr).
  apply res_bind_ok in Hr as (? & _ & Hr). apply res_bind_ok in Hr as (? & _ & Hr). apply res_bind_ok in Hr as (? & _ & Hr).
  apply res_bind_ok in Hr as (pl & _ & Hr). apply res_bind_ok in Hr as (s1 & Hs1 & Hr). apply res_bind_ok in Hr as (s2 & Hs2 & Hr).
  apply res_bind_ok in Hr as (? & Hp%check_ok & Hr). injection Hr as <-.
  assert (signature_schema s1 = true ∧ signature_schema s2 = true) as [Hg1 Hg2].
  { unfold sign in Hs1, Hs2. apply res_bind_ok in Hs1 as (k1 & _ & [= <-]). apply res_bind_ok in Hs2 as (k2 & _ & [= <-]).
    split; by apply (signature_schema_encoded _ _ enc_base64url). }
  set (doc := in_currentDoc p) in *. set (t := default (toISOString now) (in_rotatedAt p)) in *.
  pose proof Hp as Hh. apply verifyRotationProof_iff in Hh. destruct Hh as [Ho Hn _ Ha Ht _ _ _ _]. cbn in Ho, Hn, Ha, Ht.
  eexists. split; [unfold completeKeyRotation; cbn; by rewrite Hp|]. split; [|done].
  destruct Hv as [Hs Hpk _ _ Hb]. destruct (schema_parts doc Hs) as (_ & _ & Hk & Hver & _).
  assert (1 <= default 1 (ad_version doc)) as Hle by (destruct (ad_version doc); cbn in *; [by apply Z.leb_le|lia]).
  split; cbn.
  - unfold agentIdentityDocument_schema in *. cbn. rewrite !andb_true_iff in Hs.
    destruct Hs as (((((((((((((Hi & _) & Hdk) & _) & Hbp) & Hcap) & Hse) & Hca) & _) & _) & _) & _) & _) & _).
    rewrite Hi, Hdk, Hbp, Hcap, Hse, Hca, Ht. unfold isValidPublicKey in *. rewrite Hn, Ho.
    unfold rotationProof_schema. cbn. rewrite Ho, Hn, Hg1, Hg2, Hsig, Ha, Ht.
    rewrite (proj2 (Z.leb_le 1 _)) by lia. done.
  - done.
  - lia.
  - intros _. eexists. split_and!; [reflexivity|done..|]. by apply verifyRotationProof_iff.
  - done.
Qed.

(** A created identity is valid, and its private key is that of the key in
    the document. *)
Theorem created_identity_valid p seed pseed now d sk now' :
  is_seed seed → is_seed pseed → ci_principalDid p = publicKeyToDidKey (ed25519_pub pseed) →
  private_key pseed (ci_principalPrivateKey p) →
  opt_schema (λ l, forallb (λ a, bool_decide (a ∈ BUSINESS_ACTION_VOCABULARY)) l && Nat.leb (length l) 20
                   && bool_decide (NoDup l)) (ci_capabilities p) = true →
  opt_schema (forallb serviceEndpoint_schema) (ci_serviceEndpoints p) = true →
  timestampPattern (default (toISOString now) (ci_createdAt p)) = true →
  createAgentIdentity p seed now = Ok (d, sk) →
  (∀ b, ad_bindingProof d = Some b → detectEncoding (bp_signature b) = enc_base64url) →
  valid_document d now' ∧ private_key seed sk ∧ createAgentDID (ad_publicKey d) = Ok (ad_id d).
Proof.
  intros Hs Hps Hp Hk Hcap Hse Ht Hc Hd. unfold createAgentIdentity in Hc.
  destruct (createAgentDID_key (ed25519_pub seed) enc_hex (is_seed_pub seed)) as [Ed Ha]. cbn [encoded] in Ed.
  cbn [generateKeyPair kp_publicKey kp_privateKey] in Hc. rewrite Ed in Hc. cbn [mbind res_bind] in Hc.
  apply res_bind_ok in Hc as (b & Hb & Hc). cbn in Hc. injection Hc as <- <-. cbn in *. specialize (Hd b eq_refl).
  assert (verifyBinding b now' = true) as Hvb.
  { etransitivity; [by eapply (binding_lifetime _ now b pseed now' Hps _ _ Hb)|done]. Unshelve. all: done. }
  unfold createBinding in Hb. apply res_bind_ok in Hb as (? & Hdk%check_ok & Hb). apply res_bind_ok in Hb as (? & _ & Hb).
  apply res_bind_ok in Hb as (pl & _ & Hb). apply res_bind_ok in Hb as (sg & Hsg & Hb). injection Hb as <-. cbn in *.
  assert (signature_schema sg = true) as Hss.
  { unfold sign in Hsg. apply res_bind_ok in Hsg as (k & _ & [= <-]). apply (signature_schema_encoded _ _ enc_base64url). }
  split; [|split; [right; done|done]]. split; cbn; try done.
  - unfold agentIdentityDocument_schema. cbn. rewrite Ha, (isDidKey_pattern _ Hdk), (publicKey_schema_encoded seed enc_hex), Hcap, Hse, Ht.
    unfold bindingProof_schema. cbn. by rewrite (isDidKey_pattern _ Hdk), Ha, Ht, Hss.
  - eexists. split; [reflexivity|]. done.
Qed.

(** A document says nothing about whose DID it takes: from its second version
    on, nothing ties the identifier to a key, so that anyone can make, with
    keys of his own, a valid document for any agent DID. *)
Theorem foreign_did_valid did pseed oseed nseed t now :
  isDidAgent did = true → is_seed pseed → is_seed oseed → is_seed nseed → ed25519_pub oseed ≠ ed25519_pub nseed →
  timestampPattern t = true →
  ∃ d, valid_document d now ∧ ad_id d = did ∧ ad_principalDid d = publicKeyToDidKey (ed25519_pub pseed)
    ∧ ad_publicKey d = toHex (ed25519_pub nseed) ∧ ad_version d = Some 2.
Proof.
  intros Hd Hp Ho Hn Hne Ht. set (pdid := publicKeyToDidKey (ed25519_pub pseed)).
  destruct (extractPublicKey_didKey (ed25519_pub pseed)) as [Hk He]; [apply ed25519_pub_bytes..|]. fold pdid in Hk, He.
  set (ok := toHex (ed25519_pub oseed)). set (nk := toHex (ed25519_pub nseed)).
  set (m := rotation_text (mkRotation ok nk "" "" "" did t)).
  set (r := mkRotation ok nk (toHex (ed25519_sign m oseed)) (toHex (ed25519_sign m nseed)) (toHex (ed25519_sign m pseed)) did t).
  set (bm := binding_text (mkBinding pdid did t None "")). set (b := mkBinding pdid did t None (toHex (ed25519_sign bm pseed))).
  assert (∀ m s, is_seed s → verify m (toHex (ed25519_sign m s)) (toHex (ed25519_pub s)) = Ok true) as Hvs.
  { intros m' s Hs. by apply (verify_with s m' enc_hex enc_hex). }
  assert (∀ m s, signature_schema (toHex (ed25519_sign m s)) = true) as Hss by (intros; apply (signature_schema_encoded _ _ enc_hex)).
  assert (∀ s, publicKey_schema (toHex (ed25519_pub s)) = true) as Hks by (intros; apply (publicKey_schema_encoded _ enc_hex)).
  assert (rotation_holds r pdid) as Hr.
  { split; try done; try apply Hks; try by apply Hvs.
    - unfold r, ok, nk. cbn. intros E. apply Hne. apply (f_equal fromHex) in E.
      destruct (ed25519_pub_bytes oseed) as [Ob _], (ed25519_pub_bytes nseed) as [Nb _].
      rewrite !toHex_fromHex in E by done. by injection E.
    - exists (toHex (ed25519_pub pseed)). split; [done|]. by apply Hvs. }
  exists (mkDocument did "0.2.0" pdid nk (Some b) None None t t (Some 2) (Some ok) (Some r) false).
  split; [|done]. split; cbn; try done.
  - unfold agentIdentityDocument_schema. cbn. unfold bindingProof_schema, rotationProof_schema. cbn.
    unfold ok, nk. by rewrite Hd, (isDidKey_pattern _ Hk), Ht, !Hks, !Hss.
  - intros _. by exists r.
  - exists b. split_and!; try done. apply verifyBinding_iff. split_and!; try done.
    exists (toHex (ed25519_pub pseed)). split; [done|]. by apply Hvs.
Qed.

End lifecycle.

(** ** The keys of an agent *)

(** The moment at which [resolvePublicKeys] looks. *)
Definition looking_at (now : option string) (clock : Z) : num :=
  match now with Some s => if non_empty s then dateNum s else Fin clock | None => Fin clock end.

Lemma grace_period_bound g : g ≠ Some NaN → ∃ m, m <= MAX_GRACE_PERIOD_MS
  ∧ (grace_period g = Fin m ∨ grace_period g = NInf).
Proof.
  intros Hg. unfold grace_period. destruct g as [[| | |z]|]; try done; cbn.
  - exists MAX_GRACE_PERIOD_MS. split; [lia|by left].
  - exists 0. split; [done|by right].
  - unfold num_min. cbn. destruct (Z.ltb_spec MAX_GRACE_PERIOD_MS z).
    + exists MAX_GRACE_PERIOD_MS. split; [lia|by left].
    + exists z. split; [lia|by left].
  - exists DEFAULT_GRACE_PERIOD_MS. split; [done|by left].
Qed.

(** The old key is offered only while a rotation is under way, with the start
    of the rotation as its cutoff, and for less than 48 hours after it,
    whatever period the caller asks for; what is offered always has the shape
    that the schema of resolved keys demands. *)
Theorem grace_window r g now clock k :
  publicKey_schema (ad_publicKey (kr_document r)) = true →
  opt_schema publicKey_schema (ad_previousPublicKey (kr_document r)) = true →
  opt_schema timestampPattern (kr_rotationStartedAt r) = true →
  g ≠ Some NaN → resolvePublicKeys r g now clock = k →
  rk_current k = ad_publicKey (kr_document r) ∧ resolvedPublicKeys_schema k = true
  ∧ (rk_rotationState k = ROTATING → kr_rotationState r = KR_ROTATING
       ∧ rk_previous k = ad_previousPublicKey (kr_document r) ∧ rk_previousValidBefore k = kr_rotationStartedAt r
       ∧ ∀ started t n, kr_rotationStartedAt r = Some started → dateNum started = Fin t → looking_at now clock = Fin n →
           n < t + MAX_GRACE_PERIOD_MS).
Proof.
  intros H1 H2 H3 Hg <-. unfold resolvePublicKeys. fold (looking_at now clock).
  assert (∀ P : Prop, rk_current (mkResolvedPublicKeys (ad_publicKey (kr_document r)) None None STABLE) = ad_publicKey (kr_document r)
    ∧ resolvedPublicKeys_schema (mkResolvedPublicKeys (ad_publicKey (kr_document r)) None None STABLE) = true
    ∧ (rk_rotationState (mkResolvedPublicKeys (ad_publicKey (kr_document r)) None None STABLE) = ROTATING → P)) as Hstable.
  { intros P. split; [done|]. split; [|done]. unfold resolvedPublicKeys_schema. cbn. by rewrite H1. }
  destruct (bool_decide (kr_rotationState r = KR_ROTATING)) eqn:Es; [|apply Hstable]. apply bool_decide_eq_true in Es. cbn [negb].
  destruct (kr_rotationStartedAt r) as [started|] eqn:Et; [|apply Hstable].
  destruct (num_geb _ _) eqn:Eg; [apply Hstable|]. destruct (ad_previousPublicKey (kr_document r)) as [o|] eqn:Eo; [|apply Hstable].
  split; [done|]. split; [unfold resolvedPublicKeys_schema; cbn in *; by rewrite H1, H2, H3|]. intros _. split_and!; try done.
  intros s t n [= <-] Ht Hn. rewrite Hn, Ht in Eg. cbn [num_sub] in Eg.
  destruct (grace_period_bound g Hg) as (m & Hm & [E|E]); rewrite E in Eg; cbn in Eg; [|done].
  apply Z.leb_gt in Eg. lia.
Qed.

(** The ceiling has a hole: with a grace period that is not a number, the old
    key is offered for ever. *)
Theorem grace_without_end r now clock started o :
  kr_rotationState r = KR_ROTATING → kr_rotationStartedAt r = Some started →
  ad_previousPublicKey (kr_document r) = Some o →
  rk_previous (resolvePublicKeys r (Some NaN) now clock) = Some o.
Proof.
  intros Hs Ht Ho. unfold resolvePublicKeys. rewrite Hs, Ht, Ho, bool_decide_eq_true_2 by done. cbn [negb grace_period default].
  assert (∀ a, num_geb a (grace_period (Some NaN)) = false) as E by (by intros []). by rewrite E.
Qed.
