(* ===== verification/Registry.v ===== *)
(** * The identity registry

    Models packages/identity/src/registry.ts ([IdentityRegistry] over the
    table identity.agents of packages/identity/sql) and routes.ts (the HTTP
    routes, the reception of documents pushed by other nodes, and the
    broadcast).  The table maps the column did, which is unique, to the other
    columns.  An operation runs in one transaction; [missed] says that the row
    of the same DID was committed between the SELECT and the INSERT of a
    registration.  The time is an argument: the caller's, as text, where a
    document is verified, and the server's for NOW(). *)
From S2P Require Import Prelude JsValue Time Encoding Crypto Authorization SignedPayload Identity.
From stdpp Require Import relations.
Open Scope Z_scope.

(** ** The table *)

Inductive agent_status : Type := st_active | st_suspended | st_deactivated.
#[export] Instance agent_status_eq_dec : EqDecision agent_status.
Proof. solve_decision. Defined.

(** [rotating] is [rotation_state = 'ROTATING']. *)
Record AgentRow : Type := mkAgentRow {
  ar_document : AgentIdentityDocument;
  ar_status : agent_status;
  ar_version : Z;
  ar_previous_document : option AgentIdentityDocument;
  ar_rotating : bool;
  ar_rotation_started_at : option Z }.

Abbreviation agents := (gmap string AgentRow).

(** A value outside the range of the type INTEGER is refused by the server. *)
Definition PG_INT_MAX : Z := 2147483647.
Definition pg_integer (z : Z) : res unit := check ((-2147483648 <=? z) && (z <=? PG_INT_MAX)) "22003".

(** [{ ...document, version }] *)
Definition with_version (d : AgentIdentityDocument) (v : Z) : AgentIdentityDocument :=
  mkDocument (ad_id d) (ad_specVersion d) (ad_principalDid d) (ad_publicKey d) (ad_bindingProof d) (ad_capabilities d)
    (ad_serviceEndpoints d) (ad_createdAt d) (ad_updatedAt d) (Some v) (ad_previousPublicKey d) (ad_rotationProof d)
    (ad_rotatingState d).

Section registry.
Context `{Primitives}.

(** [verification.valid], or the exception. *)
Definition assert_valid (d : AgentIdentityDocument) (now : string) : res unit :=
  errors ← verifyAgentIdentityDocument d now;
  check (bool_decide (errors = [])) "BINDING_PROOF_INVALID".

Definition register (missed : bool) (d : AgentIdentityDocument) (now : string) : M agents unit :=
  _ ← lift_res (assert_valid d now);
  withTransaction (λ w,
    match w !! ad_id d with
    | Some _ => (Throw (if missed then "23505" else "IDENTITY_ALREADY_EXISTS"), w)
    | None => (Ok tt, <[ad_id d := mkAgentRow d st_active 1 None false None]> w)
    end).

Definition query (did : string) (w : agents) : option AgentIdentityDocument :=
  match w !! did with
  | Some row => if bool_decide (ar_status row = st_active) then Some (with_version (ar_document row) (ar_version row)) else None
  | None => None
  end.

(** The UPDATE of one row, with the condition on its version. *)
Definition update_row (did : string) (expected : Z) (f : AgentRow → AgentRow) : M agents unit := λ w,
  match w !! did with
  | Some row => if ar_version row =? expected then (Ok tt, <[did := f row]> w) else (Throw "VERSION_CONFLICT", w)
  | None => (Throw "VERSION_CONFLICT", w)
  end.

Definition rotation_continues (d : AgentIdentityDocument) (row : AgentRow) : res unit :=
  match ad_rotationProof d with
  | None => Throw "BINDING_PROOF_INVALID"
  | Some r => check (String.eqb (ro_oldPublicKey r) (ad_publicKey (ar_document row))) "BINDING_PROOF_INVALID"
  end.

Definition update (d : AgentIdentityDocument) (expectedVersion serverNow : Z) : M agents unit :=
  let newVersion := default (expectedVersion + 1) (ad_version d) in
  _ ← lift_res (check (newVersion =? expectedVersion + 1) "VERSION_CONFLICT");
  withTransaction (λ w,
    match w !! ad_id d with
    | None => (Throw "IDENTITY_NOT_FOUND", w)
    | Some row =>
        if bool_decide (ar_status row = st_deactivated) then (Throw "IDENTITY_DEACTIVATED", w)
        else if negb (String.eqb (ad_publicKey d) (ad_publicKey (ar_document row))) then
          (_ ← lift_res (rotation_continues d row);
           _ ← lift_res (pg_integer newVersion);
           update_row (ad_id d) expectedVersion (λ row',
             mkAgentRow d (ar_status row') newVersion (Some (ar_document row)) true (Some serverNow))) w
        else
          (_ ← lift_res (pg_integer newVersion);
           update_row (ad_id d) expectedVersion (λ row',
             mkAgentRow d (ar_status row') newVersion (Some (ar_document row)) (ar_rotating row') (ar_rotation_started_at row'))) w
    end).

(** The sort is by descending version; there are at most two entries. *)
Definition getDocumentHistory (did : string) (w : agents) : list AgentIdentityDocument :=
  match w !! did with
  | None => []
  | Some row =>
      with_version (ar_document row) (ar_version row)
      :: match ar_previous_document row with Some d => [with_version d (ar_version row - 1)] | None => [] end
  end.

Definition deactivate (did : string) : M agents unit := withTransaction (λ w,
  match w !! did with
  | None => (Throw "IDENTITY_NOT_FOUND", w)
  | Some row =>
      if bool_decide (ar_status row = st_deactivated) then (Ok tt, w)
      else (Ok tt, <[did := mkAgentRow (ar_document row) st_deactivated (ar_version row) (ar_previous_document row)
                              (ar_rotating row) (ar_rotation_started_at row)]> w)
  end).

Definition queryForAudit (did : string) (now : string) (w : agents) : res (option (AgentIdentityDocument * agent_status)) :=
  match w !! did with
  | None => mret None
  | Some row =>
      _ ← check (String.eqb did (ad_id (ar_document row))) "BINDING_PROOF_INVALID";
      _ ← assert_valid (ar_document row) now;
      mret (Some (with_version (ar_document row) (ar_version row), ar_status row))
  end.

(** ** routes.ts *)

(** [lastSyncAt] lives as long as the application. *)
Record Node : Type := mkNode { nd_agents : agents; nd_lastSyncAt : option string }.

Definition on_agents {A} (m : M agents A) : M Node A := λ n,
  let '(r, w) := m (nd_agents n) in (r, mkNode w (nd_lastSyncAt n)).

Inductive Response : Type :=
| R_created (did : string)
| R_document (d : AgentIdentityDocument)
| R_no_content
| R_bad_request (code : string)
| R_ok.

Definition post_identities (missed : bool) (d : AgentIdentityDocument) (now : string) : M Node Response :=
  _ ← on_agents (register missed d now); mret (R_created (ad_id d)).

Definition get_identity (did : string) : M Node Response := λ n,
  match query did (nd_agents n) with
  | Some d => (Ok (R_document d), n)
  | None => (Throw "IDENTITY_NOT_FOUND", n)
  end.

Definition delete_identity (did : string) : M Node Response :=
  _ ← on_agents (deactivate did); mret R_no_content.

(** What the route checks before it stores; [None] when all is well. *)
Definition sync_refusal (d : AgentIdentityDocument) (now : string) : res (option string) :=
  if negb (non_empty (ad_id d)) || negb (non_empty (ad_publicKey d)) then mret (Some "INVALID_DOCUMENT")
  else match ad_bindingProof d with
       | None => mret (Some "INVALID_DOCUMENT")
       | Some b =>
           if negb (String.eqb (bp_agentDid b) (ad_id d)) then mret (Some "SIGNATURE_INVALID")
           else
             self ← (if match ad_version d with None => true | Some v => (v =? 0) || (v =? 1) end
                     then did ← createAgentDID (ad_publicKey d); mret (String.eqb did (ad_id d))
                     else mret true);
             mret (if negb self then Some "SIGNATURE_INVALID"
                   else if verifyBinding b now then None else Some "SIGNATURE_INVALID")
       end.

Definition set_synced (now : string) : M Node Response := λ n, (Ok R_ok, mkNode (nd_agents n) (Some now)).

Definition federation_sync (missed : bool) (d : AgentIdentityDocument) (now : string) : M Node Response :=
  refusal ← lift_res (sync_refusal d now);
  match refusal with
  | Some code => mret (R_bad_request code)
  | None => λ n,
      match on_agents (register missed d now) n with
      | (Throw c, n') => if String.eqb c "IDENTITY_ALREADY_EXISTS" then set_synced now n' else (Throw c, n')
      | (Ok _, n') => set_synced now n'
      end
  end.

Record FederationHealth : Type := mkHealth { fh_status : string; fh_version : string; fh_knownNodes : Z; fh_lastSyncAt : option string }.
Definition federation_health (npm_package_version : option string) (nodes : option (list (string * string))) (n : Node)
    : FederationHealth :=
  mkHealth "ok" (default "0.0.0" npm_package_version) (default 0 (Z.of_nat ∘ length <$> nodes)) (nd_lastSyncAt n).

(** [post url] is the answer to the POST: whether the status is a success, or
    the message of the exception. *)
Record BroadcastResult : Type := mkBroadcast { br_nodeId : string; br_ok : bool; br_error : option string }.
Definition broadcastToNodes (post : string → bool + string) (nodes : list (string * string)) : list BroadcastResult :=
  (λ node, match post (node.2 +:+ "/federation/sync") with
           | inl ok => mkBroadcast node.1 ok None
           | inr e => mkBroadcast node.1 false (Some e)
           end) <$> nodes.

End registry.

(** ** Histories of the table *)

Inductive registry_op : Type :=
| OpRegister (missed : bool) (d : AgentIdentityDocument) (now : string)
| OpUpdate (d : AgentIdentityDocument) (expectedVersion serverNow : Z)
| OpDeactivate (did : string).

Section histories.
Context `{Primitives}.

Definition run_op (op : registry_op) : M agents unit :=
  match op with
  | OpRegister missed d now => register missed d now
  | OpUpdate d v now => update d v now
  | OpDeactivate did => deactivate did
  end.
Definition after (ops : list registry_op) (w : agents) : agents := foldl (λ w op, (run_op op w).2) w ops.

(** How one operation changes the row of a DID: not at all, by registering,
    by an update, or by deactivating. *)
Inductive row_step (op : registry_op) (did : string) : option AgentRow → option AgentRow → Prop :=
| rs_same r : row_step op did r r
| rs_register missed d now : op = OpRegister missed d now → ad_id d = did → valid_document d now →
    row_step op did None (Some (mkAgentRow d st_active 1 None false None))
| rs_update d v now row rotating started :
    op = OpUpdate d v now → ad_id d = did → ar_status row ≠ st_deactivated → ar_version row = v → v + 1 <= PG_INT_MAX →
    default (v + 1) (ad_version d) = v + 1 →
    (ad_publicKey d = ad_publicKey (ar_document row) ∧ rotating = ar_rotating row ∧ started = ar_rotation_started_at row
     ∨ (∃ r, ad_rotationProof d = Some r ∧ ro_oldPublicKey r = ad_publicKey (ar_document row)) ∧ rotating = true ∧ started = Some now) →
    row_step op did (Some row) (Some (mkAgentRow d (ar_status row) (v + 1) (Some (ar_document row)) rotating started))
| rs_deactivate row : op = OpDeactivate did →
    row_step op did (Some row)
      (Some (mkAgentRow (ar_document row) st_deactivated (ar_version row) (ar_previous_document row) (ar_rotating row) (ar_rotation_started_at row))).

Lemma assert_valid_ok d now u : assert_valid d now = Ok u ↔ valid_document d now.
Proof.
  unfold assert_valid. rewrite <- verify_document_iff, res_bind_ok. split.
  - intros (es & He & ->%check_ok%bool_decide_eq_true). done.
  - intros E. exists []. split; [done|]. by rewrite check_ok.
Qed.

Lemma register_cases missed d now w r w' :
  register missed d now w = (r, w') →
  (w' = w ∧ ∃ c, r = Throw c) ∨ (r = Ok tt ∧ valid_document d now ∧ w !! ad_id d = None
                                  ∧ w' = <[ad_id d := mkAgentRow d st_active 1 None false None]> w).
Proof.
  unfold register. unfold mbind, M_bind, lift_res. destruct (assert_valid d now) as [[]|c] eqn:E; [|intros [= <- <-]; left; eauto].
  apply assert_valid_ok in E. unfold withTransaction. destruct (w !! ad_id d) eqn:El; intros [= <- <-]; [left; eauto|by right].
Qed.

Lemma update_cases d v now w r w' :
  update d v now w = (r, w') →
  (w' = w ∧ ∃ c, r = Throw c)
  ∨ (r = Ok tt ∧ ∃ row rotating started, w !! ad_id d = Some row ∧ ar_status row ≠ st_deactivated ∧ ar_version row = v
       ∧ v + 1 <= PG_INT_MAX ∧ default (v + 1) (ad_version d) = v + 1
       ∧ (ad_publicKey d = ad_publicKey (ar_document row) ∧ rotating = ar_rotating row ∧ started = ar_rotation_started_at row
          ∨ (∃ p, ad_rotationProof d = Some p ∧ ro_oldPublicKey p = ad_publicKey (ar_document row)) ∧ rotating = true ∧ started = Some now)
       ∧ w' = <[ad_id d := mkAgentRow d (ar_status row) (v + 1) (Some (ar_document row)) rotating started]> w).
Proof.
  unfold update. unfold mbind at 1. unfold M_bind at 1, lift_res at 1.
  destruct (Z.eqb_spec (default (v + 1) (ad_version d)) (v + 1)) as [Ev|]; cbn [check mret res_ret]; [|intros [= <- <-]; left; eauto].
  rewrite Ev. unfold withTransaction. destruct (w !! ad_id d) as [row|] eqn:El; [|intros [= <- <-]; left; eauto].
  case_bool_decide as Hs; [intros [= <- <-]; left; eauto|].
  destruct (String.eqb_spec (ad_publicKey d) (ad_publicKey (ar_document row))) as [Ek|Ek]; cbn [negb].
  - unfold mbind, M_bind, lift_res, pg_integer, check. destruct (_ && _) eqn:Ei; [|intros [= <- <-]; left; eauto].
    apply andb_true_iff in Ei as [_ Ei%Z.leb_le]. cbn [mret res_ret]. unfold update_row. rewrite El.
    destruct (Z.eqb_spec (ar_version row) v); intros [= <- <-]; [|left; eauto]. right. split; [done|]. naive_solver.
  - unfold mbind, M_bind, lift_res, rotation_continues. destruct (ad_rotationProof d) as [p|] eqn:Ep; [|intros [= <- <-]; left; eauto].
    unfold check at 1. destruct (String.eqb_spec (ro_oldPublicKey p) (ad_publicKey (ar_document row))); [|intros [= <- <-]; left; eauto].
    cbn [mret res_ret]. unfold pg_integer, check. destruct (_ && _) eqn:Ei; [|intros [= <- <-]; left; eauto].
    apply andb_true_iff in Ei as [_ Ei%Z.leb_le]. cbn [mret res_ret]. unfold update_row. rewrite El.
    destruct (Z.eqb_spec (ar_version row) v); intros [= <- <-]; [|left; eauto]. right. split; [done|].
    exists row, true, (Some now). split_and!; try done. right. by split; [exists p|].
Qed.

Lemma run_op_step op did w : row_step op did (w !! did) ((run_op op w).2 !! did).
Proof.
  destruct op as [missed d now|d v now|did']; cbn [run_op].
  - destruct (register missed d now w) as [r w'] eqn:E. cbn. apply register_cases in E as [[-> _]|(_ & Hv & Hn & ->)]; [constructor|].
    destruct (decide (ad_id d = did)) as [<-|]; [|rewrite lookup_insert_ne by done; constructor].
    rewrite lookup_insert_eq, Hn. by econstructor.
  - destruct (update d v now w) as [r w'] eqn:E. cbn. apply update_cases in E as [[-> _]|(_ & row & ro & st & El & Hs & Hv & Hm & Hd & Hk & ->)]; [constructor|].
    destruct (decide (ad_id d = did)) as [<-|]; [|rewrite lookup_insert_ne by done; constructor].
    rewrite lookup_insert_eq, El. by eapply rs_update.
  - unfold deactivate, withTransaction. destruct (w !! did') as [row|] eqn:El; cbn; [|constructor].
    case_bool_decide; cbn; [constructor|]. destruct (decide (did' = did)) as [<-|]; [|rewrite lookup_insert_ne by done; constructor].
    rewrite lookup_insert_eq, El. by econstructor.
Qed.

(** A property of one row that every step keeps holds after every history. *)
Lemma after_induction (P : option AgentRow → Prop) ops did w :
  (∀ op r r', op ∈ ops → row_step op did r r' → P r → P r') → P (w !! did) → P (after ops w !! did).
Proof.
  revert w. induction ops as [|op ops IH]; intros w Hp Hw; [done|]. cbn. apply IH.
  - intros op' r r' Hin. apply Hp. by right.
  - apply (Hp op (w !! did)); [left|apply run_op_step|done].
Qed.

(** The rows of a table that registrations, updates and deactivations made. *)
Record row_ok (did : string) (row : AgentRow) : Prop := mkRowOk {
  ok_did : ad_id (ar_document row) = did;
  ok_version : 1 <= ar_version row <= PG_INT_MAX;
  ok_previous : ar_previous_document row = None ↔ ar_version row = 1;
  ok_previous_did : ∀ d, ar_previous_document row = Some d → ad_id d = did;
  ok_rotating : ar_rotating row = true ↔ is_Some (ar_rotation_started_at row) }.

(** The updates of an identity in a history that succeeded. *)
Definition updates_now (did : string) (op : registry_op) (r : res unit) : nat :=
  match op, r with
  | OpUpdate d _ _, Ok _ => if String.eqb (ad_id d) did then 1 else 0
  | _, _ => 0
  end.
Fixpoint updates_ok (did : string) (ops : list registry_op) (w : agents) : nat :=
  match ops with
  | [] => 0
  | op :: ops => updates_now did op (run_op op w).1 + updates_ok did ops (run_op op w).2
  end.

Definition version_from (r : option AgentRow) : Z := match r with Some row => ar_version row | None => 1 end.

Lemma run_op_version op did w :
  version_from ((run_op op w).2 !! did) = version_from (w !! did) + Z.of_nat (updates_now did op (run_op op w).1).
Proof.
  destruct op as [missed d now|d v now|did']; cbn [run_op updates_now].
  - destruct (register missed d now w) as [r w'] eqn:E. cbn. apply register_cases in E as [[-> _]|(_ & _ & Hn & ->)]; [lia|].
    destruct (decide (ad_id d = did)) as [<-|]; [rewrite lookup_insert_eq, Hn; cbn; lia|rewrite lookup_insert_ne by done; lia].
  - destruct (update d v now w) as [r w'] eqn:E. cbn.
    apply update_cases in E as [[-> [c ->]]|(-> & row & ro & st & El & _ & Hv & _ & _ & _ & ->)]; [lia|].
    destruct (String.eqb_spec (ad_id d) did) as [<-|]; [rewrite lookup_insert_eq, El; cbn; lia|rewrite lookup_insert_ne by done; lia].
  - unfold deactivate, withTransaction. destruct (w !! did') as [row|] eqn:El; cbn; [|lia].
    case_bool_decide; cbn; [lia|]. destruct (decide (did' = did)) as [<-|]; [rewrite lookup_insert_eq, El; cbn; lia|rewrite lookup_insert_ne by done; lia].
Qed.

Lemma after_version ops did w :
  version_from (after ops w !! did) = version_from (w !! did) + Z.of_nat (updates_ok did ops w).
Proof.
  revert w. induction ops as [|op ops IH]; intros w; cbn [updates_ok]; [cbn; lia|].
  change (after (op :: ops) w) with (after ops (run_op op w).2). rewrite IH, run_op_version. lia.
Qed.

(** C36.  After any registrations, updates and deactivations of an empty table
    every row holds a document of its own DID and of the one before, its version
    is one more than the number of updates of the identity that succeeded and is
    within the range of the column, and it has a start of rotation exactly when
    it is rotating. *)
Theorem registry_rows_ok ops did row :
  after ops ∅ !! did = Some row → row_ok did row ∧ ar_version row = 1 + Z.of_nat (updates_ok did ops ∅).
Proof.
  intros Hrow. split; [|pose proof (after_version ops did ∅) as Hv; rewrite Hrow, lookup_empty in Hv; exact Hv].
  revert row Hrow. apply (after_induction (λ r, ∀ row, r = Some row → row_ok did row)); [|done].
  intros op r r' _ Hs Hp row ->. inversion Hs as [| missed d now -> Hd Hv E|d v now row0 ro st -> Hd Hst Hv Hm Hdv Hk E|row0 -> E]; subst.
  - by apply Hp.
  - split; cbn; done.
  - destruct (Hp row0 eq_refl) as [H1 H2 H3 H4 H5]. split; cbn; try done; try lia.
    + split; [done|lia].
    + by intros d0 [= <-].
    + destruct Hk as [(_ & -> & ->)|(_ & -> & ->)]; [done|]. split; [by eexists|done].
  - destruct (Hp row0 eq_refl) as [H1 H2 H3 H4 H5]. by split.
Qed.

(** *** What an identity can become *)

(** One update of the history that hands the key [k1] over to [k2]. *)
Definition handed_over (ops : list registry_op) (did k1 k2 : string) : Prop :=
  ∃ d v now r, OpUpdate d v now ∈ ops ∧ ad_id d = did ∧ ad_publicKey d = k2 ∧ ad_rotationProof d = Some r ∧ ro_oldPublicKey r = k1.

Record evolved (ops : list registry_op) (did : string) (row row' : AgentRow) : Prop := mkEvolved {
  ev_version : ar_version row <= ar_version row';
  ev_same : ar_version row = ar_version row' → ar_document row' = ar_document row;
  ev_keys : rtc (handed_over ops did) (ad_publicKey (ar_document row)) (ad_publicKey (ar_document row'));
  ev_dead : ar_status row = st_deactivated → row' = row;
  ev_rotating : ar_rotating row = true → ar_rotating row' = true }.

(** An identity is never removed and its version never goes back; the same
    version is the same document; its key changes only by an update whose
    rotation proof names the key before; once deactivated its row is final. *)
Theorem identity_evolution ops did w row :
  w !! did = Some row → ∃ row', after ops w !! did = Some row' ∧ evolved ops did row row'.
Proof.
  intros Hw. apply (after_induction (λ r, ∃ row', r = Some row' ∧ evolved ops did row row')).
  - intros op r r' Hin Hs (row1 & -> & [H1 H2 H3 H4 H5]).
    inversion Hs as [|missed d now E1 Hd Hv E2|d v now row0 ro st -> Hd Hst Hv Hm Hdv Hk E|row0 -> E]; subst.
    + exists row1. done.
    + eexists. split; [reflexivity|]. split; cbn.
      * lia.
      * lia.
      * etrans; [exact H3|]. destruct Hk as [(-> & _ & _)|((p & Ep & Eo) & _)]; [done|].
        apply rtc_once. by exists d, (ar_version row1), now, p.
      * intros Hd. by rewrite (H4 Hd) in Hst.
      * intros Hr. destruct Hk as [(_ & -> & _)|(_ & -> & _)]; auto.
    + eexists. split; [reflexivity|]. split; cbn; try done. intros Hd. rewrite (H4 Hd) in *. rewrite <- Hd. by destruct row.
  - exists row. split; [done|]. split; done.
Qed.

(** C21.  No update is lost: when one succeeded on a version, no other on the same
    version of that identity succeeds afterwards, whatever happens between. *)
Theorem one_update_per_version d1 d2 v now1 now2 w w1 ops :
  update d1 v now1 w = (Ok tt, w1) → ad_id d2 = ad_id d1 →
  ∃ c, (update d2 v now2 (after ops w1)).1 = Throw c ∧ (update d2 v now2 (after ops w1)).2 = after ops w1.
Proof.
  intros Hu Eid. apply update_cases in Hu as [[_ [? [=]]]|(_ & row & ro & st & _ & _ & _ & _ & _ & _ & ->)].
  set (row1 := mkAgentRow d1 (ar_status row) (v + 1) (Some (ar_document row)) ro st).
  destruct (identity_evolution ops (ad_id d1) (<[ad_id d1 := row1]> w) row1) as (row2 & E2 & [Hv _ _ _ _]);
    [by rewrite lookup_insert_eq|]. cbn in Hv.
  destruct (update d2 v now2 _) as [r w'] eqn:E. apply update_cases in E as [[-> [c ->]]|(_ & row3 & ? & ? & E3 & _ & Hv3 & _)].
  - by exists c.
  - rewrite Eid, E2 in E3. injection E3 as <-. lia.
Qed.

(** A deactivated identity stays so: it is not found, not updated and not
    registered again. *)
Theorem deactivation_final ops did w row d v now missed t :
  w !! did = Some row → ar_status row = st_deactivated → ad_id d = did →
  let w' := after ops w in
  query did w' = None ∧ update d v now w' ≠ (Ok tt, w') ∧ (∃ c, (update d v now w').1 = Throw c)
  ∧ (∃ c, register missed d t w' = (Throw c, w')).
Proof.
  intros Hw Hd Eid w'. destruct (identity_evolution ops did w row Hw) as (row' & E & [_ _ _ Hdead _]). fold w' in E.
  rewrite (Hdead Hd) in E. split; [unfold query; by rewrite E, Hd|].
  assert (∃ c, (update d v now w').1 = Throw c) as Hu.
  { destruct (update d v now w') as [r w2] eqn:Eu. apply update_cases in Eu as [[-> [c ->]]|(_ & row3 & ? & ? & E3 & Hs & _)]; [by exists c|].
    rewrite Eid, E in E3. injection E3 as <-. done. }
  split; [intros Eu; rewrite Eu in Hu; by destruct Hu as [? [=]]|]. split; [done|].
  destruct (register missed d t w') as [r w2] eqn:Er. apply register_cases in Er as [[-> [c ->]]|(_ & _ & E3 & _)]; [by exists c|].
  by rewrite Eid, E in E3.
Qed.

(** ** Defects *)

(** Nothing takes an identity out of rotation: after its first rotation the
    registry calls it rotating for ever, so that a second rotation that asks
    the registry, as the documentation wants, is refused. *)
Theorem rotation_never_ends ops did w row p now :
  w !! did = Some row → ar_rotating row = true →
  ∃ row', after ops w !! did = Some row' ∧ ar_rotating row' = true
    ∧ initiateKeyRotation (mkInitiate (ar_document row') (in_currentPrivateKey p) (in_newKeyPair p) (in_principalApproval p)
                             (in_rotatedAt p) (if ar_rotating row' then Some KR_ROTATING else Some KR_ACTIVE)) now = Throw "Error".
Proof.
  intros Hw Hr. destruct (identity_evolution ops did w row Hw) as (row' & E & [_ _ _ _ Hro]).
  exists row'. split; [done|]. rewrite (Hro Hr). split; [done|]. unfold initiateKeyRotation. cbn. by rewrite bool_decide_eq_true_2.
Qed.

(** An identity whose fields were updated, and whose key was not, can no
    longer be read by the audit: its version is above 1 and it has no
    rotation proof. *)
Theorem field_update_unauditable d v now w w' t b :
  update d v now w = (Ok tt, w') → 1 <= v → ad_version d = Some (v + 1) → ad_rotationProof d = None → ad_bindingProof d = Some b →
  queryForAudit (ad_id d) t w' = Throw "BINDING_PROOF_INVALID".
Proof.
  intros Hu Hv Ed Er Eb. apply update_cases in Hu as [[_ [? [=]]]|(_ & row & ro & st & _ & _ & _ & _ & _ & _ & ->)].
  unfold queryForAudit. rewrite lookup_insert_eq. cbn [ar_document]. rewrite String.eqb_refl. cbn [check mbind res_bind mret res_ret].
  unfold assert_valid, verifyAgentIdentityDocument. rewrite Ed. change (default 1 (Some (v + 1))) with (v + 1). rewrite (proj2 (Z.eqb_neq (v + 1) 1)) by lia.
  unfold rotation_errors. rewrite Er, Eb. cbn [mbind res_bind mret res_ret].
  unfold check. rewrite bool_decide_eq_false_2; [done|]. intros E. apply app_nil in E as [_ E]. apply app_nil in E as [_ E].
  apply app_nil in E as [_ E]. apply app_nil in E as [_ E]. by apply app_nil in E as [? _].
Qed.

(** A push about an identity that is on file answers success and stores
    nothing: updates and rotations do not spread. *)
Theorem sync_stores_no_update n d now row :
  valid_document d now → sync_refusal d now = Ok None → nd_agents n !! ad_id d = Some row →
  federation_sync false d now n = (Ok R_ok, mkNode (nd_agents n) (Some now)).
Proof.
  intros Hv Hs El. unfold federation_sync, mbind, M_bind, lift_res. rewrite Hs. unfold on_agents, register, mbind, M_bind, lift_res.
  rewrite (proj2 (assert_valid_ok d now tt) Hv). unfold withTransaction. by rewrite El.
Qed.

End histories.

(** Anyone can take a DID that is not on file yet: a document made with keys
    of his own is registered under it, is served as its first version, though
    the identifier is not derived from its key, and the owner of the DID is
    then refused. *)
Theorem foreign_did_registered `{PrimitiveLaws} did pseed oseed nseed t now w :
  isDidAgent did = true → is_seed pseed → is_seed oseed → is_seed nseed → ed25519_pub oseed ≠ ed25519_pub nseed →
  timestampPattern t = true → w !! did = None →
  ∃ d w', register false d now w = (Ok tt, w')
    ∧ (∃ d', query did w' = Some d' ∧ ad_publicKey d' = toHex (ed25519_pub nseed) ∧ ad_version d' = Some 1)
    ∧ ∀ own now', ad_id own = did → valid_document own now' → register false own now' w' = (Throw "IDENTITY_ALREADY_EXISTS", w').
Proof.
  intros Hd Hp Ho Hn Hne Ht Hw. destruct (foreign_did_valid did pseed oseed nseed t now Hd Hp Ho Hn Hne Ht) as (d & Hv & Eid & _ & Ek & _).
  exists d, (<[ad_id d := mkAgentRow d st_active 1 None false None]> w).
  split; [unfold register, mbind, M_bind, lift_res; rewrite (proj2 (assert_valid_ok d now tt) Hv); unfold withTransaction; by rewrite Eid, Hw|].
  split.
  - exists (with_version d 1). unfold query. by rewrite Eid, lookup_insert_eq.
  - intros own now' Eo Hvo. unfold register, mbind, M_bind, lift_res. rewrite (proj2 (assert_valid_ok own now' tt) Hvo).
    unfold withTransaction. by rewrite Eo, Eid, lookup_insert_eq.
Qed.
