(* ===== verification/RegistryExamples.v ===== *)
(** * Concrete identities, rotations and freshness proofs

    Values at which the theorems of Freshness.v, Identity.v and Registry.v are
    applied, over the toy primitives of ToyPrimitives.v, and runs of the error
    paths. *)
From S2P Require Import Prelude JsValue Time Encoding Crypto ToyPrimitives Authorization SignedPayload.
From S2P Require Import Freshness Identity Registry.
Open Scope Z_scope.

(** ** Keys *)

Definition ix_seed (b : Z) : bytes := replicate 32 b.
Lemma ix_seed_ok b : is_byte b → is_seed (ix_seed b).
Proof. intros Hb. split; [by apply Forall_replicate|done]. Qed.

Definition ix_t0 : string := "2026-06-01T00:00:00.000Z".
Definition ix_t1 : string := "2026-06-02T00:00:00.000Z".
Definition ix_now : Z := 1780272000000.
Definition ix_principal : string := Eval vm_compute in publicKeyToDidKey (ed25519_pub (ix_seed 9)).

(** ** Freshness proofs *)

Definition rx_params : CreateRfpParams :=
  mkCreateRfp "did:web:resolver" (Some (Fin 60000)) (Some ix_t0) (λ m, sign m (toHex (ix_seed 5)) enc_base64url).
Definition rx_keys (did : string) : res (option bytes) :=
  Ok (if String.eqb did "did:web:resolver" then Some (ed25519_pub (ix_seed 5)) else None).
Definition rx_proof : ResolverFreshnessProof := Eval vm_compute in
  match createResolverFreshnessProof rx_params ix_now with Ok p => p | Throw _ => mkRfp "" "" "" "" NaN "" end.

Lemma rx_created : createResolverFreshnessProof rx_params ix_now = Ok rx_proof.
Proof. vm_compute. reflexivity. Qed.

Example rx_runs :
  (λ v, verifyResolverFreshness rx_keys v ix_now) <$>
    [rfp_document rx_proof; VNull;
     rfp_document (mkRfp "2.0.0" "1.0.0" "did:web:resolver" ix_t0 (Fin 60000) "x");
     rfp_document (mkRfp "1.0.0" "1.0.0" "did:web:other" ix_t0 (Fin 60000) "x");
     rfp_document (mkRfp "1.0.0" "1.0.0" "did:web:resolver" ix_t0 (Fin 60000) "x");
     rfp_document (mkRfp "1.0.0" "1.0.0" "did:web:resolver" "2026-13-01T00:00:00Z" (Fin 60000) "x")]
  = [Ok rx_proof; Throw "RFP_PROOF_INCOMPLETE"; Throw "RFP_PROOF_INCOMPLETE"; Throw "RFP_RESOLVER_UNREACHABLE";
     Throw "RFP_SIGNATURE_INVALID"; Throw "RFP_PROOF_INCOMPLETE"].
Proof. vm_compute. reflexivity. Qed.

Lemma created_proof_lifetime_witness :
  verifyResolverFreshness rx_keys (rfp_document rx_proof) (ix_now + 60000) = Ok rx_proof
  ∧ verifyResolverFreshness rx_keys (rfp_document rx_proof) (ix_now + 60001) = Throw "RFP_FRESHNESS_EXPIRED".
Proof.
  pose proof (λ n, created_proof_lifetime rx_keys rx_params ix_now rx_proof (ix_seed 5) enc_hex ix_now 60000 n) as Hv.
  split.
  all: rewrite Hv; [vm_compute; reflexivity|by apply Forall_replicate|reflexivity|reflexivity|apply rx_created|reflexivity|reflexivity|reflexivity| |reflexivity].
  all: vm_compute; reflexivity.
Defined.

Lemma shadowed_codes_witness :
  verifyResolverFreshness rx_keys (rfp_document (mkRfp "1.0.0" "1.0.0" "did:web:other" ix_t0 (Fin 60000) "x")) ix_now
    = Throw (rfp_name RFP_RESOLVER_UNREACHABLE)
  ∧ RFP_RESOLVER_UNREACHABLE ∈ [RFP_PROOF_INCOMPLETE; RFP_ASOF_FUTURE; RFP_RESOLVER_UNREACHABLE; RFP_SIGNATURE_INVALID; RFP_FRESHNESS_EXPIRED].
Proof.
  assert (verifyResolverFreshness rx_keys (rfp_document (mkRfp "1.0.0" "1.0.0" "did:web:other" ix_t0 (Fin 60000) "x")) ix_now
    = Throw (rfp_name RFP_RESOLVER_UNREACHABLE)) as E by (vm_compute; reflexivity).
  split; [exact E|]. refine (shadowed_codes rx_keys _ ix_now RFP_RESOLVER_UNREACHABLE _ E). by intros did code [=].
Defined.

Definition rx_options : RfpConsumerOptions := mkConsumerOptions None None.

(** One proof, presented by three nodes under three names. *)
Lemma one_proof_makes_quorum_witness :
  verifyQuorumFreshness rx_keys ((λ nd, mkQuorumNode nd.1 nd.2 (rfp_document rx_proof)) <$>
    [("n1", "did:web:a"); ("n2", "did:web:b"); ("n3", "did:web:c")]) (Fin 3) rx_options ix_now
  = Ok ((λ nd, mkNodeRfp nd.1 nd.2 (Some rx_proof) None) <$> [("n1", "did:web:a"); ("n2", "did:web:b"); ("n3", "did:web:c")]).
Proof.
  apply (one_proof_makes_quorum rx_keys rx_options ix_now (rfp_document rx_proof) rx_proof
           [("n1", "did:web:a"); ("n2", "did:web:b"); ("n3", "did:web:c")]).
  vm_compute. reflexivity.
Defined.

(** A threshold below one is met without any proof. *)
Theorem zero_quorum_met : verifyQuorumFreshness rx_keys [] (Fin 0) rx_options ix_now = Ok [].
Proof. reflexivity. Qed.

(** ** Identities *)

Definition ix_create : CreateAgentIdentityParams :=
  mkCreateIdentity ix_principal (toHex (ix_seed 9)) (Some ["INQUIRY"]) (Some [mkEndpoint "e" "rest" "https://a.example"]) (Some ix_t0).
Definition ix_created : AgentIdentityDocument * string := Eval vm_compute in
  match createAgentIdentity ix_create (ix_seed 1) ix_now with
  | Ok r => r
  | Throw _ => (mkDocument "" "" "" "" None None None "" "" None None None false, "")
  end.
Definition ix_doc : AgentIdentityDocument := Eval vm_compute in ix_created.1.
Definition ix_binding : BindingProof := Eval vm_compute in default (mkBinding "" "" "" None "") (ad_bindingProof ix_doc).

Lemma ix_creates : createAgentIdentity ix_create (ix_seed 1) ix_now = Ok ix_created.
Proof. vm_compute. reflexivity. Qed.
Lemma ix_byte b : 0 <= b < 256 → is_byte b.
Proof. done. Qed.
Lemma ix_valid : valid_document ix_doc ix_t1.
Proof. apply verify_document_iff. vm_compute. reflexivity. Qed.

Lemma created_identity_valid_witness : valid_document ix_doc ix_t1.
Proof.
  apply (created_identity_valid ix_create (ix_seed 1) (ix_seed 9) ix_now ix_doc (snd ix_created) ix_t1).
  - apply ix_seed_ok, ix_byte. lia.
  - apply ix_seed_ok, ix_byte. lia.
  - vm_compute. reflexivity.
  - left. by exists enc_hex.
  - vm_compute. reflexivity.
  - vm_compute. reflexivity.
  - vm_compute. reflexivity.
  - exact ix_creates.
  - intros b [= <-]. vm_compute. reflexivity.
Defined.

Definition ix_bind : CreateBindingParams := mkCreateBinding ix_principal (ad_id ix_doc) (toHex (ix_seed 9)) (Some ix_t0) (Some ix_t1).
Definition ix_bound : BindingProof := Eval vm_compute in
  match createBinding ix_bind ix_now with Ok b => b | Throw _ => mkBinding "" "" "" None "" end.
Lemma ix_binds : createBinding ix_bind ix_now = Ok ix_bound.
Proof. vm_compute. reflexivity. Qed.

(** It verifies until its last millisecond. *)
Lemma binding_lifetime_witness :
  verifyBinding ix_bound "2026-06-01T23:59:59.999Z" = true ∧ verifyBinding ix_bound ix_t1 = false.
Proof.
  pose proof (λ t, binding_lifetime ix_bind ix_now ix_bound (ix_seed 9) t) as Hv.
  split.
  all: rewrite Hv; [vm_compute; reflexivity|apply ix_seed_ok, ix_byte; lia|vm_compute; reflexivity|left; by exists enc_hex|exact ix_binds|vm_compute; reflexivity].
Defined.

Lemma binding_end_unsigned_witness :
  verifyBinding ix_bound ix_t1 = false
  ∧ verifyBinding (mkBinding (bp_principalDid ix_bound) (bp_agentDid ix_bound) (bp_issuedAt ix_bound) None (bp_signature ix_bound)) ix_t1 = true.
Proof. split; [vm_compute; reflexivity|]. apply (binding_end_unsigned ix_bound ix_t0). vm_compute. reflexivity. Defined.

(** A rotation. *)
Definition ix_new : KeyPair := Eval vm_compute in generateKeyPair (ix_seed 2).
Definition ix_approval : string := Eval vm_compute in
  match (payload ← buildSignedPayloadBytes (ad_id ix_doc) (kp_publicKey ix_new) (ad_publicKey ix_doc) ix_t1;
         sign payload (toHex (ix_seed 9)) enc_base64url) with Ok s => s | Throw _ => "" end.
Definition ix_initiate : RotationParams := mkInitiate ix_doc (toHex (ix_seed 1)) ix_new ix_approval (Some ix_t1) None.
Definition ix_rotating : AgentIdentityDocument := Eval vm_compute in
  match initiateKeyRotation ix_initiate ix_now with Ok d => d | Throw _ => ix_doc end.
Definition ix_rotated : AgentIdentityDocument := Eval vm_compute in without_marker ix_rotating.

Lemma ix_initiates : initiateKeyRotation ix_initiate ix_now = Ok ix_rotating.
Proof. vm_compute. reflexivity. Qed.

Lemma rotation_keeps_valid_witness :
  ∃ d, completeKeyRotation ix_rotating None = Ok d ∧ valid_document d ix_t1 ∧ ad_version d = Some 2.
Proof.
  destruct (rotation_keeps_valid ix_initiate ix_now ix_rotating None ix_t1 ix_valid eq_refl ix_initiates) as (d & H1 & H2 & _ & _ & H5 & _).
  exists d. split; [exact H1|]. split; [exact H2|]. exact H5.
Defined.

Definition ix_grafted : AgentIdentityDocument :=
  mkDocument "did:agent:x" (ad_specVersion ix_rotating) (ad_principalDid ix_rotating) "deadbeef" (ad_bindingProof ix_rotating)
    (ad_capabilities ix_rotating) (ad_serviceEndpoints ix_rotating) (ad_createdAt ix_rotating) (ad_updatedAt ix_rotating)
    (ad_version ix_rotating) (ad_previousPublicKey ix_rotating) (ad_rotationProof ix_rotating) false.
Lemma completion_ignores_document_witness :
  completeKeyRotation (mkDocument "did:agent:x" (ad_specVersion ix_rotating) (ad_principalDid ix_rotating) "deadbeef"
    (ad_bindingProof ix_rotating) (ad_capabilities ix_rotating) (ad_serviceEndpoints ix_rotating) (ad_createdAt ix_rotating)
    (ad_updatedAt ix_rotating) (ad_version ix_rotating) (ad_previousPublicKey ix_rotating) (ad_rotationProof ix_rotating)
    (ad_rotatingState ix_rotating)) None = Ok ix_grafted.
Proof. apply (completion_ignores_document ix_rotating ix_rotated None "deadbeef" "did:agent:x"). vm_compute. reflexivity. Defined.

Definition ix_victim : string := "did:agent:0123456789012345678901234567890123456789".

Lemma foreign_did_valid_witness :
  ∃ d, valid_document d ix_t1 ∧ ad_id d = ix_victim.
Proof.
  destruct (foreign_did_valid ix_victim (ix_seed 9) (ix_seed 1) (ix_seed 2) ix_t0 ix_t1) as (d & H1 & H2 & _).
  - reflexivity.
  - apply ix_seed_ok, ix_byte. lia.
  - apply ix_seed_ok, ix_byte. lia.
  - apply ix_seed_ok, ix_byte. lia.
  - vm_compute. discriminate.
  - reflexivity.
  - exists d. split; [exact H1|exact H2].
Defined.

(** The keys that a verifier is offered during and after the rotation. *)
Definition ix_record : KeyRecord := mkKeyRecord ix_rotated KR_ROTATING (Some ix_t1).

Example ix_keys :
  (λ ms, rk_previous (resolvePublicKeys ix_record (Some (Fin 999999999999)) None (ix_now + 86400000 + ms)))
    <$> [0; 172799999; 172800000] = [Some (ad_publicKey ix_doc); Some (ad_publicKey ix_doc); None].
Proof. vm_compute. reflexivity. Qed.

Lemma grace_window_witness :
  let k := resolvePublicKeys ix_record None None (ix_now + 86400000) in
  rk_rotationState k = ROTATING ∧ resolvedPublicKeys_schema k = true.
Proof.
  intros k. split; [vm_compute; reflexivity|].
  apply (grace_window ix_record None None (ix_now + 86400000) k); [vm_compute; reflexivity|vm_compute; reflexivity|vm_compute; reflexivity|discriminate|reflexivity].
Defined.

Lemma grace_without_end_witness :
  rk_previous (resolvePublicKeys ix_record (Some NaN) None (ix_now + 10 ^ 12)) = Some (ad_publicKey ix_doc).
Proof. apply (grace_without_end ix_record None (ix_now + 10 ^ 12) ix_t1); reflexivity. Defined.

(** ** The registry *)

Definition ix_ops : list registry_op :=
  [OpRegister false ix_doc ix_t1; OpUpdate ix_rotated 1 (ix_now + 86400000)].
Definition ix_row : AgentRow := mkAgentRow ix_rotated st_active 2 (Some ix_doc) true (Some (ix_now + 86400000)).
Definition ix_row1 : AgentRow := mkAgentRow ix_doc st_active 1 None false None.

(** A document with other endpoints, and no rotation. *)
Definition ix_edited : AgentIdentityDocument :=
  mkDocument (ad_id ix_doc) "0.1.0" (ad_principalDid ix_doc) (ad_publicKey ix_doc) (ad_bindingProof ix_doc) None None ix_t0 ix_t1
    (Some 2) None None false.

Lemma ix_registers w : w !! ad_id ix_doc = None → register false ix_doc ix_t1 w = (Ok tt, <[ad_id ix_doc := ix_row1]> w).
Proof.
  intros Hw. unfold register, mbind, M_bind, lift_res. rewrite (proj2 (assert_valid_ok ix_doc ix_t1 tt) ix_valid).
  unfold withTransaction. by rewrite Hw.
Qed.

Lemma ix_after : after ix_ops ∅ = {[ad_id ix_doc := ix_row]}.
Proof.
  cbn [after ix_ops foldl run_op]. rewrite ix_registers by done. vm_cast_no_check (eq_refl ({[ad_id ix_doc := ix_row]} : agents)).
Qed.

Lemma registry_rows_ok_witness :
  row_ok (ad_id ix_doc) ix_row ∧ ar_version ix_row = 1 + Z.of_nat (updates_ok (ad_id ix_doc) ix_ops ∅).
Proof. apply (registry_rows_ok ix_ops). rewrite ix_after. apply lookup_singleton_eq. Defined.

Lemma identity_evolution_witness :
  ∃ row', after [OpUpdate ix_rotated 1 0; OpDeactivate (ad_id ix_doc)] {[ad_id ix_doc := ix_row1]} !! ad_id ix_doc = Some row'
    ∧ evolved [OpUpdate ix_rotated 1 0; OpDeactivate (ad_id ix_doc)] (ad_id ix_doc) ix_row1 row'.
Proof.
  apply (identity_evolution [OpUpdate ix_rotated 1 0; OpDeactivate (ad_id ix_doc)] (ad_id ix_doc) {[ad_id ix_doc := ix_row1]} ix_row1).
  apply lookup_singleton_eq.
Defined.

Lemma ix_field_update : update ix_edited 1 0 {[ad_id ix_doc := ix_row1]}
  = (Ok tt, {[ad_id ix_doc := mkAgentRow ix_edited st_active 2 (Some ix_doc) false None]}).
Proof.
  vm_cast_no_check (eq_refl (Ok tt, {[ad_id ix_doc := mkAgentRow ix_edited st_active 2 (Some ix_doc) false None]} : agents)).
Qed.

Lemma one_update_per_version_witness :
  ∃ c, (update ix_rotated 1 5 {[ad_id ix_doc := mkAgentRow ix_edited st_active 2 (Some ix_doc) false None]}).1 = Throw c.
Proof.
  destruct (one_update_per_version ix_edited ix_rotated 1 0 5 _ _ [] ix_field_update eq_refl) as (c & Hc & _).
  exists c. exact Hc.
Defined.

Definition ix_dead : AgentRow := mkAgentRow ix_doc st_deactivated 1 None false None.
Lemma deactivation_final_witness :
  query (ad_id ix_doc) (after [OpUpdate ix_edited 1 0] {[ad_id ix_doc := ix_dead]}) = None.
Proof.
  apply (deactivation_final [OpUpdate ix_edited 1 0] (ad_id ix_doc) {[ad_id ix_doc := ix_dead]} ix_dead ix_edited 1 0 false ix_t1);
    [apply lookup_singleton_eq|reflexivity|reflexivity].
Defined.

Lemma rotation_never_ends_witness :
  ∃ row', after [OpUpdate ix_edited 2 0] {[ad_id ix_doc := ix_row]} !! ad_id ix_doc = Some row' ∧ ar_rotating row' = true.
Proof.
  destruct (rotation_never_ends [OpUpdate ix_edited 2 0] (ad_id ix_doc) {[ad_id ix_doc := ix_row]} ix_row ix_initiate ix_now)
    as (row' & H1 & H2 & _); [apply lookup_singleton_eq|reflexivity|]. exists row'. split; [exact H1|exact H2].
Defined.

Lemma field_update_unauditable_witness :
  queryForAudit (ad_id ix_doc) ix_t1 {[ad_id ix_doc := mkAgentRow ix_edited st_active 2 (Some ix_doc) false None]}
  = Throw "BINDING_PROOF_INVALID".
Proof.
  apply (field_update_unauditable ix_edited 1 0 _ _ ix_t1 ix_binding ix_field_update); [lia|reflexivity|reflexivity|].
  vm_compute. reflexivity.
Defined.

Lemma ix_rotated_valid : valid_document ix_rotated ix_t1.
Proof. apply verify_document_iff. vm_compute. reflexivity. Qed.

Definition ix_node : Node := mkNode {[ad_id ix_doc := ix_row1]} None.
Lemma ix_node_row : nd_agents ix_node !! ad_id ix_rotated = Some ix_row1.
Proof. vm_compute. reflexivity. Qed.
Lemma ix_no_refusal : sync_refusal ix_rotated ix_t1 = Ok None.
Proof. vm_compute. reflexivity. Qed.

Lemma sync_stores_no_update_witness :
  federation_sync false ix_rotated ix_t1 ix_node = (Ok R_ok, mkNode (nd_agents ix_node) (Some ix_t1)).
Proof. exact (sync_stores_no_update ix_node ix_rotated ix_t1 ix_row1 ix_rotated_valid ix_no_refusal ix_node_row). Defined.

Lemma foreign_did_registered_witness :
  ∃ d w', register false d ix_t1 ∅ = (Ok tt, w') ∧ ∃ d', query ix_victim w' = Some d' ∧ ad_version d' = Some 1.
Proof.
  destruct (foreign_did_registered ix_victim (ix_seed 9) (ix_seed 1) (ix_seed 2) ix_t0 ix_t1 ∅) as (d & w' & H1 & (d' & H2 & _ & H3) & _).
  - reflexivity.
  - apply ix_seed_ok, ix_byte. lia.
  - apply ix_seed_ok, ix_byte. lia.
  - apply ix_seed_ok, ix_byte. lia.
  - vm_compute. discriminate.
  - reflexivity.
  - reflexivity.
  - exists d, w'. split; [exact H1|]. exists d'. split; [exact H2|exact H3].
Defined.

(** A registry takes a rotation whose proof carries no valid signature: only
    the old key is compared. *)
Theorem unsigned_rotation_stored :
  let forged := mkDocument (ad_id ix_doc) "0.2.0" (ad_principalDid ix_doc) "00" None None None ix_t0 ix_t1 (Some 2) (Some (ad_publicKey ix_doc))
                  (Some (mkRotation (ad_publicKey ix_doc) "00" "" "" "" (ad_id ix_doc) ix_t1)) false in
  (update forged 1 0 {[ad_id ix_doc := ix_row1]}).1 = Ok tt.
Proof. vm_compute. reflexivity. Qed.
