(* ===== verification/FederationNodes.v ===== *)
(** * The nodes of a federation

    Models the part of packages/identity/src/federated-resolver.ts that deals
    with one node: the check of addresses against DNS rebinding, the query of
    a node with its outcomes, and the state machine of a node's health, fed by
    queries and by probes, with the types of packages/types/src/federation.ts.
    The answers of DNS and of the HTTP client are arguments, as is the URL
    parser; alerts are appended to a list.  [ad_version] counts thousandths
    here, so that a fraction, which a node may send, can be written. *)
From S2P Require Import Prelude JsValue Time Encoding Crypto Authorization SignedPayload Identity.
Open Scope Z_scope.

(** ** Addresses *)

(** [s.replace(/^\[/, '')] and [s.replace(/\]$/, '')] *)
Definition strip_open (l : list ascii) : list ascii := match l with c :: l' => if Ascii.eqb c "[" then l' else l | [] => [] end.
Definition strip_close (l : list ascii) : list ascii := reverse (match reverse l with c :: l' => if Ascii.eqb c "]" then l' else reverse l | [] => [] end).
Definition strip_brackets (l : list ascii) : list ascii := strip_close (strip_open l).

(** [.replace(/%.*$/, '')]: up to the first per cent sign that no line break follows *)
Definition line_break (c : ascii) : bool := Ascii.eqb c "010" || Ascii.eqb c "013".
Fixpoint strip_zone (l : list ascii) : list ascii :=
  match l with
  | [] => []
  | c :: l' => if Ascii.eqb c "%" && forallb (negb ∘ line_break) l' then [] else c :: strip_zone l'
  end.

(** [/^\d{1,3}(\.\d{1,3}){3}$/] *)
Definition ipv4_text (l : list ascii) : bool :=
  let ws := dotted l in
  Nat.eqb (length ws) 4 && forallb (λ w, Nat.leb 1 (length w) && Nat.leb (length w) 3 && forallb is_digit w) ws.

(** [/^172\.(1[6-9]|2\d|3[01])\./] *)
Definition private_172 (l : list ascii) : bool :=
  match drop 4 l with
  | a :: b :: c :: _ =>
      str_startsWith (str l) "172." && is_digit a && is_digit b && Ascii.eqb c "."
      && (16 <=? num2 a b) && (num2 a b <=? 31)
  | _ => false
  end.

(** [/^fe[89ab][0-9a-f]/] *)
Definition link_local6 (l : list ascii) : bool :=
  match l with
  | f :: e :: a :: b :: _ =>
      Ascii.eqb f "f" && Ascii.eqb e "e"
      && (Ascii.eqb a "8" || Ascii.eqb a "9" || Ascii.eqb a "a" || Ascii.eqb a "b") && is_lower_hex b
  | _ => false
  end.

Definition isPrivateIP (ip : string) : bool :=
  let l := to_lower <$> strip_zone (strip_brackets (chars ip)) in
  let n := str l in
  if ipv4_text l then
    str_startsWith n "127." || String.eqb n "0.0.0.0" || str_startsWith n "10." || private_172 l
    || str_startsWith n "192.168." || str_startsWith n "169.254."
  else
    String.eqb n "::1" || String.eqb n "0000:0000:0000:0000:0000:0000:0000:0001"
    || String.eqb n "::" || String.eqb n "0000:0000:0000:0000:0000:0000:0000:0000"
    || str_startsWith n "fc" || str_startsWith n "fd" || link_local6 l.

Definition has_colon (s : string) : bool := str_includes s ":".

(** [createDefaultDnsRebindingGuard]; [None] is a lookup that failed. *)
Definition resolveAndValidate (resolve4 resolve6 : string → option (list string)) (hostname : string) : res string :=
  let bare := str (strip_brackets (chars hostname)) in
  if ipv4_text (chars bare) || has_colon bare then
    if isPrivateIP bare then Throw "Error" else mret bare
  else
    let all := default [] (resolve4 bare) ++ default [] (resolve6 bare) in
    match all with
    | [] => Throw "Error"
    | first :: _ => if existsb isPrivateIP all then Throw "Error" else mret first
    end.

Definition createNullDnsRebindingGuard (hostname : string) : res string := mret (str (strip_brackets (chars hostname))).

(** ** Health *)

Inductive HealthState : Type := HEALTHY | DEGRADED | UNHEALTHY.
#[export] Instance HealthState_eq_dec : EqDecision HealthState.
Proof. solve_decision. Defined.

Record HealthCheckConfig : Type := mkHealthCheck {
  probeIntervalMs : num;
  failureThreshold : num;
  recoveryThreshold : num;
  probePath : string }.

Definition PASSIVE_HEALTH_CFG : HealthCheckConfig := mkHealthCheck (Fin 0) (Fin 3) (Fin 2) "".
Definition HEALTH_RATE_WINDOW : nat := 20.
Definition DEFAULT_MAX_RESPONSE_BYTES : Z := 64 * 1024.
Definition BLOCKED_PORTS : list Z := [21; 22; 23; 25; 110; 143; 3306; 5432; 6379; 27017].

Record FederatedNode : Type := mkFedNode { fn_id : string; fn_url : string; fn_weight : option num }.

(** The availability is kept as the fraction it was computed as. *)
Record NodeMetrics : Type := mkNodeMetrics {
  nm_requestTotal : Z;
  nm_success : Z;
  nm_timeout : Z;
  nm_signatureInvalid : Z;
  nm_otherFailure : Z;
  nm_availability : Z * Z;
  nm_healthState : HealthState }.

Record NodeState : Type := mkNodeState {
  ns_node : FederatedNode;
  ns_health : HealthState;
  ns_consecutiveFailures : Z;
  ns_consecutiveSuccesses : Z;
  ns_recentResults : list bool;
  ns_metrics : NodeMetrics }.

Inductive Alert : Type :=
| SIGNATURE_INVALID_ALERT (nodeId did reason : string)
| VERSION_CONFLICT (did : string) (versionsByNode : list (string * Z)) (conflictType : string) (chosenVersion : option Z)
| QUORUM_UNMET (did : string) (respondedNodes validCandidates required : Z)
| VERSION_ROLLBACK (did : string) (incomingVersion cachedVersion : Z)
| NODE_ABUSE (nodeId reason : string)
| NODE_HEALTH_CHANGED (nodeId : string) (from to : HealthState)
| EPOCH_MISMATCH (did : string) (startEpoch endEpoch : Z)
| DNS_REBINDING_BLOCKED (nodeId hostname : string).

(** A computation on one node that may raise alerts. *)
Definition NodeM (A : Type) : Type := NodeState → A * NodeState * list Alert.

Definition set_counts (cf cs : Z) (w : list bool) (s : NodeState) : NodeState :=
  mkNodeState (ns_node s) (ns_health s) cf cs w (ns_metrics s).
Definition set_metrics (m : NodeMetrics) (s : NodeState) : NodeState :=
  mkNodeState (ns_node s) (ns_health s) (ns_consecutiveFailures s) (ns_consecutiveSuccesses s) (ns_recentResults s) m.

Definition with_success (m : NodeMetrics) : NodeMetrics :=
  mkNodeMetrics (nm_requestTotal m) (nm_success m + 1) (nm_timeout m) (nm_signatureInvalid m) (nm_otherFailure m) (nm_availability m) (nm_healthState m).
Definition with_timeout (m : NodeMetrics) : NodeMetrics :=
  mkNodeMetrics (nm_requestTotal m) (nm_success m) (nm_timeout m + 1) (nm_signatureInvalid m) (nm_otherFailure m) (nm_availability m) (nm_healthState m).
Definition with_failure (m : NodeMetrics) : NodeMetrics :=
  mkNodeMetrics (nm_requestTotal m) (nm_success m) (nm_timeout m) (nm_signatureInvalid m) (nm_otherFailure m + 1) (nm_availability m) (nm_healthState m).
Definition with_invalid (m : NodeMetrics) : NodeMetrics :=
  mkNodeMetrics (nm_requestTotal m) (nm_success m) (nm_timeout m) (nm_signatureInvalid m + 1) (nm_otherFailure m) (nm_availability m) (nm_healthState m).
Definition with_request (m : NodeMetrics) : NodeMetrics :=
  mkNodeMetrics (nm_requestTotal m + 1) (nm_success m) (nm_timeout m) (nm_signatureInvalid m) (nm_otherFailure m) (nm_availability m) (nm_healthState m).

Definition changeHealth (to : HealthState) (s : NodeState) : NodeState * list Alert :=
  let m := ns_metrics s in
  (mkNodeState (ns_node s) to (ns_consecutiveFailures s) (ns_consecutiveSuccesses s) (ns_recentResults s)
     (mkNodeMetrics (nm_requestTotal m) (nm_success m) (nm_timeout m) (nm_signatureInvalid m) (nm_otherFailure m) (nm_availability m) to),
   [NODE_HEALTH_CHANGED (fn_id (ns_node s)) (ns_health s) to]).

Definition calcAvailability (m : NodeMetrics) : Z * Z :=
  let total := nm_success m + nm_timeout m + nm_otherFailure m + nm_signatureInvalid m in
  if total =? 0 then (1, 1) else (nm_success m, total).

Definition updateAvailability (s : NodeState) : NodeState :=
  let m := ns_metrics s in
  set_metrics (mkNodeMetrics (nm_requestTotal m) (nm_success m) (nm_timeout m) (nm_signatureInvalid m) (nm_otherFailure m)
                 (calcAvailability m) (nm_healthState m)) s.

(** [push], and [shift] when there are more than 20. *)
Definition push_result (b : bool) (w : list bool) : list bool :=
  let w' := w ++ [b] in if Nat.ltb HEALTH_RATE_WINDOW (length w') then tail w' else w'.

Definition failures (w : list bool) : Z := Z.of_nat (length (filter (λ b, b = false) w)).

(** [failures / window.length < 0.1] and [>= 0.2] *)
Definition rate_below_10 (w : list bool) : bool := 10 * failures w <? Z.of_nat (length w).
Definition rate_at_least_20 (w : list bool) : bool := Z.of_nat (length w) <=? 5 * failures w.
Definition window_full (w : list bool) : bool := Nat.leb HEALTH_RATE_WINDOW (length w).

(** After a success, active or passive. *)
Definition recover (cfg : HealthCheckConfig) (s : NodeState) : NodeState * list Alert :=
  match ns_health s with
  | UNHEALTHY => if num_geb (Fin (ns_consecutiveSuccesses s)) (recoveryThreshold cfg) then changeHealth HEALTHY s else (s, [])
  | DEGRADED => if window_full (ns_recentResults s) && rate_below_10 (ns_recentResults s) then changeHealth HEALTHY s else (s, [])
  | HEALTHY => (s, [])
  end.

(** [window_rule]: a passive failure degrades a full window only at 20 %. *)
Definition degrade (cfg : HealthCheckConfig) (window_rule : bool) (s : NodeState) : NodeState * list Alert :=
  if num_geb (Fin (ns_consecutiveFailures s)) (failureThreshold cfg) then
    match ns_health s with UNHEALTHY => (s, []) | _ => changeHealth UNHEALTHY s end
  else match ns_health s with
       | HEALTHY =>
           if window_rule && window_full (ns_recentResults s) && negb (rate_at_least_20 (ns_recentResults s)) then (s, [])
           else changeHealth DEGRADED s
       | _ => (s, [])
       end.

Definition drivePassiveHealth (healthCheck : option HealthCheckConfig) (success : bool) (s : NodeState) : NodeState * list Alert :=
  let cfg := default PASSIVE_HEALTH_CFG healthCheck in
  let w := push_result success (ns_recentResults s) in
  let '(s', al) :=
    if success then recover cfg (set_counts 0 (ns_consecutiveSuccesses s + 1) w s)
    else degrade cfg true (set_counts (ns_consecutiveFailures s + 1) 0 w s) in
  (updateAvailability s', al).

Definition recordNodeSuccess (cfg : HealthCheckConfig) (s : NodeState) : NodeState * list Alert :=
  let s1 := set_counts 0 (ns_consecutiveSuccesses s + 1) (push_result true (ns_recentResults s)) (set_metrics (with_success (ns_metrics s)) s) in
  let '(s', al) := recover cfg s1 in (updateAvailability s', al).

Definition recordNodeFailure (cfg : HealthCheckConfig) (s : NodeState) : NodeState * list Alert :=
  let s1 := set_counts (ns_consecutiveFailures s + 1) 0 (push_result false (ns_recentResults s)) (set_metrics (with_failure (ns_metrics s)) s) in
  let '(s', al) := degrade cfg false s1 in (updateAvailability s', al).

(** What a probe of a node saw. *)
Inductive ProbeOutcome : Type :=
| P_response (ok : bool) (body : option object)
| P_failed.

Definition probeNode (cfg : HealthCheckConfig) (o : ProbeOutcome) (s : NodeState) : NodeState * list Alert :=
  match o with
  | P_response true (Some body) =>
      match map_get "status" body with
      | Some (VStr st) => if String.eqb st "ok" then recordNodeSuccess cfg s else recordNodeFailure cfg s
      | _ => recordNodeFailure cfg s
      end
  | _ => recordNodeFailure cfg s
  end.

(** ** Queries *)

(** [encodeURIComponent]: strings are their UTF-8 bytes *)
Definition uri_unreserved (c : ascii) : bool :=
  is_alpha c || is_digit c || bool_decide (c ∈ chars "-_.!~*'()").
Definition upper_hex_digit (n : Z) : ascii := if n <? 10 then digit_ascii n else ascii_of_N (55 + Z.to_N n).
Definition encodeURIComponent (s : string) : string :=
  str (concat ((λ c, if uri_unreserved c then [c]
                     else let n := Z.of_N (N_of_ascii c) in ["%"%char; upper_hex_digit (n / 16); upper_hex_digit (n mod 16)]) <$> chars s)).

(** [parseInt(s, 10)]: spaces, a sign and the digits that follow *)
Fixpoint drop_spaces (l : list ascii) : list ascii :=
  match l with c :: l' => if is_space c then drop_spaces l' else l | [] => [] end.
Definition parseInt10 (s : string) : num :=
  let l := drop_spaces (chars s) in
  let '(sg, l') := match l with
                   | c :: r => if Ascii.eqb c "-" then (-1, r) else if Ascii.eqb c "+" then (1, r) else (1, l)
                   | [] => (1, [])
                   end in
  match (span_digits l').1 with
  | [] => NaN
  | ds => match decimal_from 0 ds with Some n => Fin (sg * n) | None => NaN end
  end.

Record ParsedUrl : Type := mkParsedUrl { pu_hostname : string; pu_port : string }.

(** The body is [None] when it is no JSON, and [Some None] when it is no
    object. *)
Inductive FetchOutcome : Type :=
| F_response (status : Z) (contentLength : option string) (body : option (option AgentIdentityDocument))
| F_aborted
| F_redirected
| F_failed.

Inductive RawResult : Type := R_doc (d : AgentIdentityDocument) | R_not_found | R_error.

(** What the world answers to one query: the parsed URL, the address that the
    guard lets through, and the response. *)
Record Wire : Type := mkWire {
  parseURL : string → option ParsedUrl;
  guard : string → res string;
  fetch : FetchOutcome }.

Definition fail_query (hc : option HealthCheckConfig) (alerts : list Alert) : NodeM RawResult := λ s,
  let '(s', al) := drivePassiveHealth hc false (set_metrics (with_failure (ns_metrics s)) s) in (R_error, s', alerts ++ al).
Definition pass_query (hc : option HealthCheckConfig) (r : RawResult) : NodeM RawResult := λ s,
  let '(s', al) := drivePassiveHealth hc true (set_metrics (with_success (ns_metrics s)) s) in (r, s', al).

Definition too_large (contentLength : option string) (maxResponseBytes : Z) : bool :=
  match contentLength with
  | Some s => non_empty s && num_gtb (parseInt10 s) (Fin maxResponseBytes)
  | None => false
  end.

Definition read_node_response (hc : option HealthCheckConfig) (maxResponseBytes : Z) (did : string) (o : FetchOutcome) : NodeM RawResult := λ s,
  let abuse reason := fail_query hc [NODE_ABUSE (fn_id (ns_node s)) reason] s in
  match o with
  | F_response status contentLength body =>
      if status =? 404 then pass_query hc R_not_found s
      else if negb ((200 <=? status) && (status <=? 299)) then fail_query hc [] s
      else if too_large contentLength maxResponseBytes then abuse "response_too_large"
      else match body with
           | None => abuse "malformed_json"
           | Some None => abuse "invalid_schema"
           | Some (Some doc) => if negb (String.eqb (ad_id doc) did) then abuse "invalid_schema" else pass_query hc (R_doc doc) s
           end
  | F_aborted =>
      let '(s', al) := drivePassiveHealth hc false (set_metrics (with_timeout (ns_metrics s)) s) in (R_error, s', al)
  | F_redirected => abuse "redirect_blocked"
  | F_failed => fail_query hc [] s
  end.

Definition blocked_port (port : string) : bool :=
  match parseInt10 port with Fin n => bool_decide (n ∈ BLOCKED_PORTS) | _ => false end.

Definition queryNode (hc : option HealthCheckConfig) (maxResponseBytes : Z) (w : Wire) (did : string) : NodeM RawResult := λ s0,
  let s := set_metrics (with_request (ns_metrics s0)) s0 in
  let policy := fail_query hc [NODE_ABUSE (fn_id (ns_node s)) "url_policy_violation"] s in
  match parseURL w (fn_url (ns_node s) +:+ "/api/v1/identities/" +:+ encodeURIComponent did) with
  | None => policy
  | Some u =>
      if ipv4_text (chars (pu_hostname u)) || has_colon (pu_hostname u) then policy
      else if blocked_port (pu_port u) then policy
      else match guard w (pu_hostname u) with
           | Throw _ => fail_query hc [DNS_REBINDING_BLOCKED (fn_id (ns_node s)) (pu_hostname u)] s
           | Ok pinIP => read_node_response hc maxResponseBytes did (fetch w) s
           end
  end.

(** ** Addresses that the guard lets through *)

(** A name passes exactly when it resolves and none of its addresses, of
    either family, is private; a literal address when it is not private. *)
Theorem guard_exact resolve4 resolve6 hostname ip :
  let bare := str (strip_brackets (chars hostname)) in
  let all := default [] (resolve4 bare) ++ default [] (resolve6 bare) in
  resolveAndValidate resolve4 resolve6 hostname = Ok ip ↔
  if ipv4_text (chars bare) || has_colon bare then ip = bare ∧ isPrivateIP bare = false
  else head all = Some ip ∧ Forall (λ a, isPrivateIP a = false) all.
Proof.
  cbn zeta. unfold resolveAndValidate. set (bare := str _). destruct (_ || _).
  - destruct (isPrivateIP bare); (split; [try discriminate 1; by intros [= <-]|by intros [-> ?]]).
  - destruct (default [] (resolve4 bare) ++ default [] (resolve6 bare)) as [|a all]; [by split; [|intros []]|].
    assert (existsb isPrivateIP (a :: all) = false ↔ Forall (λ a, isPrivateIP a = false) (a :: all)) as <-.
    { rewrite <- not_true_iff_false, existsb_exists, Forall_forall. setoid_rewrite <- list_elem_of_In. split.
      - intros Hn x Hx. destruct (isPrivateIP x) eqn:E; [|done]. destruct Hn. by exists x.
      - intros Hf (x & Hx & E). by rewrite Hf in E. }
    destruct (existsb _ _); cbn [head]; (split; [try discriminate 1; by intros [= <-]|by intros [[= ->] ?]]).
Qed.

(** An IPv4 address in its IPv6 form is not recognized: the loopback address
    passes as a literal and as an AAAA record. *)
Theorem mapped_address_passes :
  isPrivateIP "::ffff:127.0.0.1" = false ∧ isPrivateIP "::ffff:7f00:1" = false ∧ isPrivateIP "0:0:0:0:0:0:0:1" = false
  ∧ resolveAndValidate (λ _, None) (λ _, Some ["::ffff:127.0.0.1"]) "node.example" = Ok "::ffff:127.0.0.1".
Proof. vm_compute. done. Qed.

Example private_addresses :
  isPrivateIP <$> ["127.0.0.1"; "10.1.2.3"; "172.15.0.1"; "172.16.0.1"; "172.31.9.9"; "172.32.0.1"; "192.168.0.1"; "169.254.1.1";
                   "8.8.8.8"; "::1"; "fd00::1"; "FE80::1%eth0"; "[::1]"; "2001:db8::1"]
  = [true; true; false; true; true; false; true; true; false; true; true; true; true; false].
Proof. vm_compute. reflexivity. Qed.

(** ** The health of a node *)

(** A success or a failure, of a query ([active = false]) or of a probe. *)
Record health_event : Type := mkHealthEvent { he_active : bool; he_success : bool }.

Definition health_next (hc : option HealthCheckConfig) (e : health_event) (s : NodeState) : NodeState :=
  let cfg := default PASSIVE_HEALTH_CFG hc in
  if he_active e then (if he_success e then recordNodeSuccess cfg s else recordNodeFailure cfg s).1
  else (drivePassiveHealth hc (he_success e) s).1.
Definition health_run (hc : option HealthCheckConfig) (es : list health_event) (s : NodeState) : NodeState :=
  foldl (λ s e, health_next hc e s) s es.

Definition init_node (n : FederatedNode) : NodeState :=
  mkNodeState n HEALTHY 0 0 [] (mkNodeMetrics 0 0 0 0 0 (1, 1) HEALTHY).

Section health.
Context (hc : option HealthCheckConfig) (F R : Z).
Hypothesis HF : failureThreshold (default PASSIVE_HEALTH_CFG hc) = Fin F.
Hypothesis HR : recoveryThreshold (default PASSIVE_HEALTH_CFG hc) = Fin R.

(** The parts of the state that the machine reads. *)
Definition view (s : NodeState) : HealthState * Z * Z * list bool :=
  (ns_health s, ns_consecutiveFailures s, ns_consecutiveSuccesses s, ns_recentResults s).

Definition next_health (e : health_event) (h : HealthState) (cf cs : Z) (w : list bool) : HealthState :=
  if he_success e then
    match h with
    | UNHEALTHY => if R <=? cs then HEALTHY else UNHEALTHY
    | DEGRADED => if window_full w && rate_below_10 w then HEALTHY else DEGRADED
    | HEALTHY => HEALTHY
    end
  else if F <=? cf then UNHEALTHY
  else match h with
       | HEALTHY => if negb (he_active e) && window_full w && negb (rate_at_least_20 w) then HEALTHY else DEGRADED
       | h => h
       end.

Lemma health_next_view e s :
  let '(h, cf, cs, w) := view s in
  let w' := push_result (he_success e) w in
  let cf' := if he_success e then 0 else cf + 1 in
  let cs' := if he_success e then cs + 1 else 0 in
  view (health_next hc e s) = (next_health e h cf' cs' w', cf', cs', w')
  ∧ (nm_healthState (ns_metrics s) = ns_health s → nm_healthState (ns_metrics (health_next hc e s)) = ns_health (health_next hc e s)).
Proof.
  destruct s as [n h cf cs w m], e as [[] []]; cbn -[push_result window_full rate_below_10 rate_at_least_20];
    unfold health_next, recordNodeSuccess, recordNodeFailure, drivePassiveHealth, recover, degrade, next_health;
    cbn -[push_result window_full rate_below_10 rate_at_least_20]; rewrite ?HF, ?HR; cbn -[push_result window_full rate_below_10 rate_at_least_20].
  - destruct h; [done| |]; [destruct (_ && _)|destruct (R <=? _)]; done.
  - destruct (F <=? _); destruct h; done.
  - destruct h; [done| |]; [destruct (_ && _)|destruct (R <=? _)]; done.
  - destruct (F <=? _); destruct h; try done. destruct (_ && _); done.
Qed.

Record health_ok (s : NodeState) : Prop := mkHealthOk {
  ho_window : (length (ns_recentResults s) <= HEALTH_RATE_WINDOW)%nat;
  ho_counts : 0 <= ns_consecutiveFailures s ∧ 0 <= ns_consecutiveSuccesses s;
  ho_one_run : ns_consecutiveFailures s = 0 ∨ ns_consecutiveSuccesses s = 0;
  ho_failing : F <= ns_consecutiveFailures s → ns_health s = UNHEALTHY;
  ho_recovering : ns_health s = UNHEALTHY → ns_consecutiveSuccesses s < R;
  ho_metric : nm_healthState (ns_metrics s) = ns_health s }.

Lemma push_result_length b w : (length w <= HEALTH_RATE_WINDOW)%nat → (length (push_result b w) <= HEALTH_RATE_WINDOW)%nat.
Proof.
  intros Hw. unfold push_result. destruct (Nat.ltb_spec HEALTH_RATE_WINDOW (length (w ++ [b]))); [|done].
  destruct w as [|x w]; cbn [app tail length]; [cbn; lia|]. rewrite length_app. cbn [length] in *. lia.
Qed.

(** The machine keeps its bookkeeping: at most 20 results, one run at a time,
    a node is unhealthy once its failures reach the threshold, and is not kept
    unhealthy once its successes do. *)
Theorem health_invariant n es : 1 <= F → 1 <= R → health_ok (health_run hc es (init_node n)).
Proof.
  intros HF1 HR1. assert (health_ok (init_node n)) as Hi.
  { split; cbn; try done; try lia. }
  revert Hi. generalize (init_node n). unfold health_run. induction es as [|e es IH]; intros s Hs; [done|]. apply IH. clear IH.
  destruct Hs as [H1 H2 H3 H4 H5 H6]. pose proof (health_next_view e s) as Hv. cbn zeta in Hv.
  destruct (view s) as [[[h cf] cs] w] eqn:Ev. injection Ev as <- <- <- <-. destruct Hv as [Hv Hm]. unfold view in Hv. injection Hv as Eh Ecf Ecs Ew.
  split; [rewrite Ew; by apply push_result_length|..|auto].
  - rewrite Ecf, Ecs. destruct (he_success e); lia.
  - rewrite Ecf, Ecs. destruct (he_success e); auto.
  - rewrite Ecf, Eh. unfold next_health. destruct (he_success e); [lia|]. intros Hle. by rewrite (proj2 (Z.leb_le _ _) Hle).
  - rewrite Ecs, Eh. unfold next_health. destruct (he_success e); [|lia]. destruct (ns_health s); try done.
    + by destruct (_ && _).
    + destruct (Z.leb_spec R (ns_consecutiveSuccesses s + 1)); [done|]. lia.
Qed.

Lemma push_success_window k w : (length w <= HEALTH_RATE_WINDOW)%nat →
  ∃ pre, Nat.iter k (push_result true) w = pre ++ replicate (Nat.min k HEALTH_RATE_WINDOW) true
    ∧ (length (Nat.iter k (push_result true) w) = Nat.min (length w + k) HEALTH_RATE_WINDOW)%nat.
Proof.
  intros Hw. induction k as [|k (pre & E & L)].
  - exists w. cbn. rewrite app_nil_r. split; [done|]. unfold HEALTH_RATE_WINDOW in *. lia.
  - rewrite Nat.iter_succ. set (u := Nat.iter k (push_result true) w) in *. unfold push_result.
    rewrite length_app. cbn [length]. unfold HEALTH_RATE_WINDOW in *. destruct (Nat.ltb_spec 20 (length u + 1)) as [Hlt|Hle].
    + assert (length u = 20)%nat as Lu by lia. rewrite E in Lu |- *. rewrite length_app, length_replicate in Lu.
      destruct (decide (20 <= k)%nat) as [Hk|Hk].
      * replace (Nat.min k 20) with 20%nat in * by lia. replace (Nat.min (S k) 20) with 20%nat by lia.
        destruct pre; [|cbn in Lu; lia]. exists []. split; [reflexivity|]. transitivity 20%nat; [reflexivity|lia].
      * destruct pre as [|b pre]; [cbn in Lu; lia|]. exists pre. replace (Nat.min (S k) 20) with (S (Nat.min k 20)) by lia.
        rewrite replicate_S_end. cbn [app tail]. split; [by rewrite app_assoc|]. rewrite !length_app, length_replicate. cbn in *. lia.
    + exists pre. pose proof L as L'. rewrite E, length_app, length_replicate in L'. rewrite E.
      replace (Nat.min (S k) 20) with (S (Nat.min k 20)) by lia. rewrite replicate_S_end.
      split; [by rewrite app_assoc|]. rewrite !length_app, length_replicate. cbn [length]. lia.
Qed.

Lemma health_next_parts e s :
  let w' := push_result (he_success e) (ns_recentResults s) in
  let cf' := if he_success e then 0 else ns_consecutiveFailures s + 1 in
  let cs' := if he_success e then ns_consecutiveSuccesses s + 1 else 0 in
  let s' := health_next hc e s in
  ns_health s' = next_health e (ns_health s) cf' cs' w' ∧ ns_consecutiveFailures s' = cf' ∧ ns_consecutiveSuccesses s' = cs'
  ∧ ns_recentResults s' = w'.
Proof.
  cbn zeta. pose proof (health_next_view e s) as Hv. cbn zeta in Hv. destruct (view s) as [[[h cf] cs] w] eqn:Ev.
  injection Ev as <- <- <- <-. destruct Hv as [Hv _]. unfold view in Hv. by injection Hv as -> -> -> ->.
Qed.

(** A run of successes, or of failures. *)
Lemma run_of_same es s b : Forall (λ e, he_success e = b) es →
  ns_recentResults (health_run hc es s) = Nat.iter (length es) (push_result b) (ns_recentResults s)
  ∧ (if b then ns_consecutiveSuccesses (health_run hc es s) = ns_consecutiveSuccesses s + Z.of_nat (length es)
     else ns_consecutiveFailures (health_run hc es s) = ns_consecutiveFailures s + Z.of_nat (length es)).
Proof.
  revert s. induction es as [|e es IH]; intros s Hes; [cbn; destruct b; split; lia || done|].
  apply Forall_cons in Hes as [He Hes]. destruct (health_next_parts e s) as (_ & Hf & Hs & Hw). rewrite He in *.
  specialize (IH (health_next hc e s) Hes). unfold health_run in *. cbn [foldl length]. destruct IH as [IHw IHc].
  split; [rewrite IHw, Hw; by rewrite Nat.iter_succ_r|]. destruct b; rewrite IHc; [rewrite Hs|rewrite Hf]; lia.
Qed.

(** A node that answers becomes healthy: whatever its state, after as many
    successes in a row as the threshold of recovery and the window ask for. *)
Theorem health_recovers es s :
  health_ok s → Forall (λ e, he_success e = true) es → (HEALTH_RATE_WINDOW <= length es)%nat → R <= Z.of_nat (length es) →
  ns_health (health_run hc es s) = HEALTHY.
Proof.
  intros [H1 H2 _ _ _ _] Hes Hl HRl. destruct es as [|e es _] using rev_ind; [cbn in Hl; unfold HEALTH_RATE_WINDOW in Hl; lia|].
  apply Forall_app in Hes as [Hes [He _]%Forall_cons]. rewrite length_app in *. cbn [length] in *.
  destruct (run_of_same es s true Hes) as [Hw Hc]. unfold health_run in *. rewrite foldl_app. cbn [foldl].
  set (s1 := foldl _ s es) in *. destruct (health_next_parts e s1) as (-> & _). rewrite He. unfold next_health. rewrite He.
  destruct (ns_health s1); [done| |].
  - rewrite Hw, <- Nat.iter_succ. destruct (push_success_window (S (length es)) (ns_recentResults s) H1) as (pre & Ew & Lw).
    unfold HEALTH_RATE_WINDOW in *. replace (Nat.min (S (length es)) 20) with 20%nat in Ew by lia.
    assert (pre = []) as ->. { destruct pre; [done|]. rewrite Ew, length_app, length_replicate in Lw. cbn in Lw. lia. }
    by rewrite Ew.
  - by rewrite (proj2 (Z.leb_le _ _)) by lia.
Qed.

(** And one that does not becomes unhealthy, after as many failures in a row
    as the threshold of failure. *)
Theorem health_fails es s :
  health_ok s → Forall (λ e, he_success e = false) es → es ≠ [] → F <= Z.of_nat (length es) →
  ns_health (health_run hc es s) = UNHEALTHY.
Proof.
  intros [_ H2 _ _ _ _] Hes Hne HFl. destruct es as [|e es _] using rev_ind; [done|].
  apply Forall_app in Hes as [Hes [He _]%Forall_cons]. rewrite length_app in *. cbn [length] in *.
  destruct (run_of_same es s false Hes) as [_ Hc]. unfold health_run in *. rewrite foldl_app. cbn [foldl].
  set (s1 := foldl _ s es) in *. destruct (health_next_parts e s1) as (-> & _). rewrite He. unfold next_health. rewrite He.
  by rewrite (proj2 (Z.leb_le _ _)) by lia.
Qed.

End health.

(** ** Queries *)

Definition counted (m : NodeMetrics) : Z := nm_success m + nm_timeout m + nm_otherFailure m.

Lemma changeHealth_counts h s : counted (ns_metrics (changeHealth h s).1) = counted (ns_metrics s)
  ∧ nm_requestTotal (ns_metrics (changeHealth h s).1) = nm_requestTotal (ns_metrics s).
Proof. done. Qed.

Lemma passive_counts hc b s : counted (ns_metrics (drivePassiveHealth hc b s).1) = counted (ns_metrics s)
  ∧ nm_requestTotal (ns_metrics (drivePassiveHealth hc b s).1) = nm_requestTotal (ns_metrics s).
Proof.
  unfold drivePassiveHealth, recover, degrade. destruct b; cbn [ns_health set_counts].
  - destruct (ns_health s); [done|destruct (_ && _); done|destruct (num_geb _ _); done].
  - destruct (num_geb _ _), (ns_health s); try done. by destruct (_ && _).
Qed.

Lemma fail_query_counts hc al s : let '(_, s', _) := fail_query hc al s in
  counted (ns_metrics s') = counted (ns_metrics s) + 1 ∧ nm_requestTotal (ns_metrics s') = nm_requestTotal (ns_metrics s).
Proof.
  unfold fail_query. set (s1 := set_metrics _ s). pose proof (passive_counts hc false s1) as [H1 H2].
  destruct (drivePassiveHealth hc false s1) as [s' al']. cbn in *. rewrite H1, H2. unfold s1, counted. cbn. lia.
Qed.

Lemma pass_query_counts hc r s : let '(_, s', _) := pass_query hc r s in
  counted (ns_metrics s') = counted (ns_metrics s) + 1 ∧ nm_requestTotal (ns_metrics s') = nm_requestTotal (ns_metrics s).
Proof.
  unfold pass_query. set (s1 := set_metrics _ s). pose proof (passive_counts hc true s1) as [H1 H2].
  destruct (drivePassiveHealth hc true s1) as [s' al']. cbn in *. rewrite H1, H2. unfold s1, counted. cbn. lia.
Qed.

(** Every query is counted once, as a success, as a timeout or as a failure. *)
Theorem query_counted_once hc max w did s :
  let '(_, s', _) := queryNode hc max w did s in
  nm_requestTotal (ns_metrics s') - counted (ns_metrics s') = nm_requestTotal (ns_metrics s) - counted (ns_metrics s)
  ∧ nm_requestTotal (ns_metrics s') = nm_requestTotal (ns_metrics s) + 1.
Proof.
  assert (∀ q : RawResult * NodeState * list Alert, (let '(_, s', _) := q in
      counted (ns_metrics s') = counted (ns_metrics (set_metrics (with_request (ns_metrics s)) s)) + 1
      ∧ nm_requestTotal (ns_metrics s') = nm_requestTotal (ns_metrics (set_metrics (with_request (ns_metrics s)) s))) →
    let '(_, s', _) := q in
    nm_requestTotal (ns_metrics s') - counted (ns_metrics s') = nm_requestTotal (ns_metrics s) - counted (ns_metrics s)
    ∧ nm_requestTotal (ns_metrics s') = nm_requestTotal (ns_metrics s) + 1) as Hq.
  { intros [[r s'] al] [E1 E2]. rewrite E1, E2. unfold counted. cbn. lia. }
  unfold queryNode. apply Hq. destruct (parseURL w _) as [u|]; [|apply fail_query_counts].
  destruct (_ || _); [apply fail_query_counts|]. destruct (blocked_port _); [apply fail_query_counts|].
  destruct (guard w _); [|apply fail_query_counts]. unfold read_node_response. destruct (fetch w) as [st cl body| | |]; try apply fail_query_counts.
  - destruct (st =? 404); [apply pass_query_counts|]. destruct (negb _); [apply fail_query_counts|].
    destruct (too_large _ _); [apply fail_query_counts|]. destruct body as [[doc|]|]; try apply fail_query_counts.
    destruct (negb _); [apply fail_query_counts|apply pass_query_counts].
  - set (s1 := set_metrics (with_timeout _) _). pose proof (passive_counts hc false s1) as [H1 H2].
    destruct (drivePassiveHealth hc false s1) as [s' al']. cbn in *. rewrite H1, H2. unfold s1, counted. cbn. lia.
Qed.

Lemma fail_query_error hc al s : (fail_query hc al s).1.1 = R_error.
Proof. unfold fail_query. by destruct (drivePassiveHealth _ _ _). Qed.
Lemma pass_query_result hc r s : (pass_query hc r s).1.1 = r.
Proof. unfold pass_query. by destruct (drivePassiveHealth _ _ _). Qed.

(** A document is taken from a node only when the node's URL names a host, no
    literal address, at a port that is not blocked, the guard let an address
    of the host through, and the document is about the DID that was asked for. *)
Theorem query_document_checked hc max w did s d :
  (queryNode hc max w did s).1.1 = R_doc d →
  ad_id d = did ∧ ∃ u ip, parseURL w (fn_url (ns_node s) +:+ "/api/v1/identities/" +:+ encodeURIComponent did) = Some u
    ∧ ipv4_text (chars (pu_hostname u)) = false ∧ has_colon (pu_hostname u) = false ∧ blocked_port (pu_port u) = false
    ∧ guard w (pu_hostname u) = Ok ip.
Proof.
  unfold queryNode. cbn [ns_node set_metrics]. destruct (parseURL w _) as [u|]; [|by rewrite fail_query_error].
  destruct (ipv4_text (chars (pu_hostname u))) eqn:E1; cbn [orb]; [by rewrite fail_query_error|].
  destruct (has_colon (pu_hostname u)) eqn:E2; [by rewrite fail_query_error|].
  destruct (blocked_port _) eqn:E3; [by rewrite fail_query_error|]. destruct (guard w _) as [ip|] eqn:E4; [|by rewrite fail_query_error].
  intros Hr. split; [|by exists u, ip]. revert Hr. unfold read_node_response. destruct (fetch w) as [st cl body| | |]; try by rewrite fail_query_error.
  - destruct (st =? 404); [by rewrite pass_query_result|]. destruct (negb _); [by rewrite fail_query_error|].
    destruct (too_large _ _); [by rewrite fail_query_error|]. destruct body as [[doc|]|]; try by rewrite fail_query_error.
    destruct (String.eqb_spec (ad_id doc) did) as [E|]; cbn [negb]; [|by rewrite fail_query_error]. rewrite pass_query_result. by intros [= <-].
  - by destruct (drivePassiveHealth _ _ _).
Qed.
