(* ===== verification/Federation.v ===== *)
(** * The federated resolver

    Models [FederatedResolverImpl] of packages/identity/src/federated-resolver.ts
    over the nodes of FederationNodes.v: the validation of the configuration,
    the cache and its epochs, the coalescing of concurrent requests, the
    fan-out with its two deadlines, the verification of a node's document, the
    election by majority, and the guard against older versions.

    A request starts and ends at two events, between which other requests,
    invalidations, probes and a close may happen; the replies of its fan-out
    come with their times, in the order of their arrival, and are applied when
    it ends.  The verifier of rotation chains is an argument, and the store of
    version watermarks a class with the laws that its interface states.  As in
    FederationNodes.v, versions count thousandths.  The metrics exporter is
    left out. *)
From S2P Require Import Prelude JsValue Time Encoding Crypto Authorization SignedPayload Identity FederationNodes.
Open Scope Z_scope.

Definition ONE : Z := 1000.

(** ** Configuration *)

Record FederatedResolverConfig : Type := mkFedConfig {
  fc_nodes : list FederatedNode;
  fc_minResponses : Z;
  fc_timeoutMs : Z;
  fc_settleWindowMs : option Z;
  fc_cacheTtlMs : Z;
  fc_maxResponseBytes : option Z;
  fc_has_verifyDIDBinding : bool;
  fc_healthCheck : option HealthCheckConfig;
  fc_has_persistentWatermark : bool;
  fc_has_dnsRebindingGuard : bool }.

(** [!Number.isInteger(n) || n < 1] *)
Definition positive_integer (n : num) : bool := is_finite n && num_leb (Fin 1) n.

Definition validateConfig (cfg : FederatedResolverConfig) : res unit :=
  let n := Z.of_nat (length (fc_nodes cfg)) in
  _ ← check (1 <=? n) "INTERNAL_ERROR";
  _ ← check ((1 <=? fc_minResponses cfg) && (fc_minResponses cfg <=? n)) "INTERNAL_ERROR";
  _ ← check (negb ((n =? 2) && negb (fc_minResponses cfg =? 2))) "INTERNAL_ERROR";
  _ ← check (fc_has_verifyDIDBinding cfg) "INTERNAL_ERROR";
  _ ← match fc_healthCheck cfg with
      | Some hc =>
          _ ← check (positive_integer (probeIntervalMs hc)) "INTERNAL_ERROR";
          _ ← check (positive_integer (failureThreshold hc)) "INTERNAL_ERROR";
          check (positive_integer (recoveryThreshold hc)) "INTERNAL_ERROR"
      | None => mret tt
      end;
  _ ← check (fc_has_persistentWatermark cfg) "INTERNAL_ERROR";
  check (fc_has_dnsRebindingGuard cfg) "INTERNAL_ERROR".

Definition max_bytes (cfg : FederatedResolverConfig) : Z := default DEFAULT_MAX_RESPONSE_BYTES (fc_maxResponseBytes cfg).

(** [Math.min(timeoutMs / 4, 1000)] as the default: a clock of whole
    milliseconds passes a deadline when it passes its ceiling. *)
Definition settle_window (cfg : FederatedResolverConfig) : Z :=
  default (Z.min ((fc_timeoutMs cfg + 3) / 4) 1000) (fc_settleWindowMs cfg).

(** ** Documents *)

Definition version_of (d : AgentIdentityDocument) : Z := default ONE (ad_version d).

(** The JSON of a document, its members in the order of their keys. *)
Definition opt_member {A} (k : string) (f : A → value) (o : option A) : list (string * value) :=
  match o with Some a => [(k, f a)] | None => [] end.
Definition binding_json (b : BindingProof) : value :=
  VObj [("agentDid", VStr (bp_agentDid b)); ("expiresAt", match bp_expiresAt b with Some e => VStr e | None => VNull end);
        ("issuedAt", VStr (bp_issuedAt b)); ("principalDid", VStr (bp_principalDid b)); ("signature", VStr (bp_signature b))].
Definition rotation_json (r : RotationProof) : value :=
  VObj [("agentDid", VStr (ro_agentDid r)); ("newKeySignature", VStr (ro_newKeySignature r)); ("newPublicKey", VStr (ro_newPublicKey r));
        ("oldKeySignature", VStr (ro_oldKeySignature r)); ("oldPublicKey", VStr (ro_oldPublicKey r));
        ("principalSignature", VStr (ro_principalSignature r)); ("rotatedAt", VStr (ro_rotatedAt r))].
Definition endpoint_json (e : ServiceEndpoint) : value :=
  VObj [("id", VStr (se_id e)); ("type", VStr (se_type e)); ("url", VStr (se_url e))].
Definition document_json (d : AgentIdentityDocument) : value :=
  VObj ((if ad_rotatingState d then [("_rotatingState", VBool true)] else [])
        ++ opt_member "bindingProof" binding_json (ad_bindingProof d)
        ++ opt_member "capabilities" (λ l, VArr (VStr <$> l)) (ad_capabilities d)
        ++ [("createdAt", VStr (ad_createdAt d)); ("id", VStr (ad_id d))]
        ++ opt_member "previousPublicKey" VStr (ad_previousPublicKey d)
        ++ [("principalDid", VStr (ad_principalDid d)); ("publicKey", VStr (ad_publicKey d))]
        ++ opt_member "rotationProof" rotation_json (ad_rotationProof d)
        ++ opt_member "serviceEndpoints" (λ l, VArr (endpoint_json <$> l)) (ad_serviceEndpoints d)
        ++ [("specVersion", VStr (ad_specVersion d)); ("updatedAt", VStr (ad_updatedAt d))]
        ++ opt_member "version" (λ v, VNum (Fin v)) (ad_version d)).

Inductive verdict : Type := V_ok | V_bad (reason : string).

Section documents.
Context `{Primitives}.

(** [Buffer.from(hash(...)).toString('hex')] *)
Definition content_hash (d : AgentIdentityDocument) : string :=
  toHex (textEncode (hash (textEncode (jcs (document_json d))) enc_hex)).

(** [verify] is [verifyDIDBinding.verify]. *)
Definition verifyDocumentSignature (verify : AgentIdentityDocument → res bool) (doc : AgentIdentityDocument) (now : string)
    : res verdict :=
  match ad_bindingProof doc with
  | None => mret (V_bad "binding_proof_invalid")
  | Some b =>
      if negb (String.eqb (bp_agentDid b) (ad_id doc)) then mret (V_bad "binding_proof_invalid")
      else if negb (String.eqb (bp_principalDid b) (ad_principalDid doc)) then mret (V_bad "binding_proof_invalid")
      else if negb (verifyBinding b now) then mret (V_bad "binding_proof_invalid")
      else
        let above := match ad_version doc with Some v => ONE <? v | None => false end in
        if above && bool_decide (ad_rotationProof doc = None) then mret (V_bad "rotation_proof_malformed")
        else
          let self := match ad_version doc with
                      | None => true
                      | Some v => (v =? 0) || (v =? ONE)
                      end in
          match (if self then match createAgentDID (ad_publicKey doc) with
                              | Throw _ => Some "malformed_document"
                              | Ok did => if String.eqb did (ad_id doc) then None else Some "binding_proof_invalid"
                              end
                 else None) with
          | Some reason => mret (V_bad reason)
          | None =>
              if above then
                verified ← verify doc;
                mret (if negb verified then V_bad "rotation_proof_malformed" else V_ok)
              else mret V_ok
          end
  end.

(** ** The election *)

Record ResolutionCandidate : Type := mkCandidate { rc_nodeId : string; rc_document : AgentIdentityDocument }.

Definition computeQuorumThreshold (n : Z) : Z := n / 2 + 1.

(** The [Map] from a version to its candidates. *)
Fixpoint group_add (c : ResolutionCandidate) (groups : list (Z * list ResolutionCandidate)) : list (Z * list ResolutionCandidate) :=
  match groups with
  | [] => [(version_of (rc_document c), [c])]
  | (v, cs) :: rest => if v =? version_of (rc_document c) then (v, cs ++ [c]) :: rest else (v, cs) :: group_add c rest
  end.
Definition by_version (cs : list ResolutionCandidate) : list (Z * list ResolutionCandidate) := foldl (λ g c, group_add c g) [] cs.

Fixpoint group_get (v : Z) (groups : list (Z * list ResolutionCandidate)) : list ResolutionCandidate :=
  match groups with
  | [] => []
  | (v', cs) :: rest => if v' =? v then cs else group_get v rest
  end.

Definition versions_by_node (cs : list ResolutionCandidate) : list (string * Z) :=
  foldl (λ m c, map_set (rc_nodeId c) (version_of (rc_document c)) m) [] cs.

(** [new Set(hashes).size > 1] *)
Definition forked (winners : list ResolutionCandidate) : bool :=
  Nat.ltb 1 (length (remove_dups ((content_hash ∘ rc_document) <$> winners))).

(** [Math.max] of a list that is not empty *)
Definition max_of (v : Z) (vs : list Z) : Z := foldl Z.max v vs.

(** What an election leaves: the document, the alerts, and by how much the
    counts of unmet quorums and of conflicts grow. *)
Record Election : Type := mkElection {
  el_chosen : option AgentIdentityDocument;
  el_alerts : list Alert;
  el_unmet : Z;
  el_conflicts : Z }.

Definition selectHighestVersionFallback (did : string) (candidates : list ResolutionCandidate) : Election :=
  match (by_version candidates).*1 with
  | [] => mkElection None [] 0 0
  | v :: vs =>
      let maxVersion := max_of v vs in
      let winners := group_get maxVersion (by_version candidates) in
      if forked winners then
        mkElection None [VERSION_CONFLICT did (versions_by_node candidates) "same_version_divergent_content" None] 0 1
      else
        let several := negb (Nat.eqb (length vs) 0) in
        mkElection (rc_document <$> head winners)
          (if several then [VERSION_CONFLICT did (versions_by_node candidates) "different_versions" (Some maxVersion)] else [])
          0 (if several then 1 else 0)
  end.

Definition selectByQuorum (did : string) (candidates : list ResolutionCandidate) (totalConfiguredNodes : nat) : Election :=
  let n := Z.of_nat (length candidates) in
  if Nat.ltb totalConfiguredNodes 3 then
    let e := selectHighestVersionFallback did candidates in
    mkElection (el_chosen e)
      (QUORUM_UNMET did n n (computeQuorumThreshold (Z.of_nat totalConfiguredNodes)) :: el_alerts e) (el_unmet e + 1) (el_conflicts e)
  else
    let threshold := computeQuorumThreshold n in
    let groups := by_version candidates in
    match (filter (λ g, threshold <= Z.of_nat (length g.2)) groups).*1 with
    | [] => mkElection None [QUORUM_UNMET did n n threshold] 1 0
    | v :: vs =>
        let chosenVersion := max_of v vs in
        let winners := group_get chosenVersion groups in
        let hasMinority := existsb (λ g, negb (g.1 =? chosenVersion) && negb (Nat.eqb (length g.2) 0)) groups in
        let conflict := if hasMinority then [VERSION_CONFLICT did (versions_by_node candidates) "different_versions" (Some chosenVersion)] else [] in
        if forked winners then
          mkElection None (conflict ++ [VERSION_CONFLICT did (versions_by_node candidates) "same_version_divergent_content" None])
            0 ((if hasMinority then 1 else 0) + 1)
        else mkElection (rc_document <$> head winners) conflict 0 (if hasMinority then 1 else 0)
    end.

End documents.

(** ** What an election says *)

Section election.
Context `{Primitives}.
Implicit Types (c : ResolutionCandidate) (cs : list ResolutionCandidate) (d : AgentIdentityDocument).

Definition of_version (v : Z) cs : list ResolutionCandidate := filter (λ c, version_of (rc_document c) = v) cs.

Lemma group_get_add c g v :
  group_get v (group_add c g) = if version_of (rc_document c) =? v then group_get v g ++ [c] else group_get v g.
Proof.
  induction g as [|[v' l] g IH]; cbn [group_add group_get]; [done|].
  destruct (Z.eqb_spec v' (version_of (rc_document c))) as [->|Hn]; cbn [group_get].
  - by destruct (Z.eqb_spec (version_of (rc_document c)) v).
  - rewrite IH. destruct (Z.eqb_spec v' v) as [->|], (Z.eqb_spec (version_of (rc_document c)) v); try done; congruence.
Qed.

Lemma group_add_keys c g v : v ∈ (group_add c g).*1 ↔ v = version_of (rc_document c) ∨ v ∈ g.*1.
Proof.
  induction g as [|[v' l] g IH]; cbn [group_add]; [by rewrite fmap_cons, elem_of_cons|].
  destruct (Z.eqb_spec v' (version_of (rc_document c))) as [->|]; cbn [fmap list_fmap fst]; rewrite !elem_of_cons; rewrite ?IH; tauto.
Qed.

Lemma group_add_NoDup c g : NoDup g.*1 → NoDup (group_add c g).*1.
Proof.
  induction g as [|[v' l] g IH]; cbn [group_add]; [intros _; apply NoDup_singleton|]. cbn [fmap list_fmap fst]. rewrite NoDup_cons. intros [Hn Hd].
  destruct (Z.eqb_spec v' (version_of (rc_document c))) as [->|]; cbn [fmap list_fmap fst]; rewrite NoDup_cons; [done|].
  split; [|auto]. rewrite group_add_keys. intros [->|?]; done.
Qed.

Lemma group_get_elem g v l : NoDup g.*1 → (v, l) ∈ g → group_get v g = l.
Proof.
  induction g as [|[v' l'] g IH]; cbn [group_get]; [by intros _ ?%elem_of_nil|]. cbn [fmap list_fmap fst]. rewrite NoDup_cons. intros [Hn Hd].
  rewrite elem_of_cons. intros [[= -> ->]|Hin]; [by rewrite Z.eqb_refl|].
  destruct (Z.eqb_spec v' v) as [->|]; [|auto]. destruct Hn. apply list_elem_of_fmap. by exists (v, l).
Qed.

(** The map has one group per version, with the candidates of that version. *)
Lemma by_version_spec cs :
  (∀ v, group_get v (by_version cs) = of_version v cs) ∧ NoDup (by_version cs).*1
  ∧ (∀ v, v ∈ (by_version cs).*1 ↔ of_version v cs ≠ []).
Proof.
  unfold by_version. induction cs as [|c cs (H1 & H2 & H3)] using rev_ind.
  - split; [done|]. split; [constructor|]. intros v. split; [by intros ?%elem_of_nil|done].
  - rewrite foldl_app. cbn [foldl]. set (g := foldl _ [] cs) in *. unfold of_version in *. split_and!.
    + intros v. rewrite group_get_add, filter_app, H1, filter_cons, filter_nil.
      destruct (Z.eqb_spec (version_of (rc_document c)) v); [by rewrite decide_True|]. by rewrite decide_False, app_nil_r.
    + by apply group_add_NoDup.
    + intros v. rewrite group_add_keys, H3, filter_app, filter_cons, filter_nil.
      destruct (decide (version_of (rc_document c) = v)) as [<-|Hn].
      * split; [|tauto]. intros _ E%app_nil. by destruct E.
      * rewrite app_nil_r. split; [intros [->|]; done|tauto].
Qed.

Lemma forked_false l : forked l = false ↔ ∀ c1 c2, c1 ∈ l → c2 ∈ l → content_hash (rc_document c1) = content_hash (rc_document c2).
Proof.
  unfold forked. rewrite Nat.ltb_ge. set (hs := (content_hash ∘ rc_document) <$> l).
  assert ((length (remove_dups hs) <= 1)%nat ↔ ∀ x y, x ∈ hs → y ∈ hs → x = y) as ->.
  { setoid_rewrite <- elem_of_remove_dups. pose proof (NoDup_remove_dups hs) as Hd. destruct (remove_dups hs) as [|a [|b r]]; cbn.
    - split; [|lia]. intros _ x y []%elem_of_nil.
    - split; [|lia]. intros _ x y ->%list_elem_of_singleton ->%list_elem_of_singleton. done.
    - split; [lia|]. intros Hx. apply NoDup_cons in Hd as [Hn _]. destruct Hn. rewrite (Hx a b); [left|left|right; left]. }
  subst hs. setoid_rewrite list_elem_of_fmap. split.
  - intros Hx c1 c2 H1 H2. apply Hx; eauto.
  - intros Hx x y (c1 & -> & H1) (c2 & -> & H2). by apply Hx.
Qed.

(** At most one version has more than half of the votes. *)
Lemma majority_unique cs v1 v2 :
  (length cs < 2 * length (of_version v1 cs))%nat → (length cs < 2 * length (of_version v2 cs))%nat → v1 = v2.
Proof.
  intros H1 H2. destruct (decide (v1 = v2)) as [|Hn]; [done|].
  assert (length (of_version v1 cs) + length (of_version v2 cs) <= length cs)%nat; [|lia].
  clear H1 H2. unfold of_version. induction cs as [|c cs IH]; [done|]. rewrite !filter_cons.
  destruct (decide (version_of (rc_document c) = v1)), (decide (version_of (rc_document c) = v2)); cbn [length]; lia || congruence.
Qed.

Lemma max_of_single v : max_of v [] = v.
Proof. done. Qed.

(** The versions that reach the threshold: the majority's, or none. *)
Lemma qualified_versions cs vs :
  (filter (λ g, computeQuorumThreshold (Z.of_nat (length cs)) <= Z.of_nat (length g.2)) (by_version cs)).*1 = vs →
  (vs = [] ∧ ∀ v, ¬ (length cs < 2 * length (of_version v cs))%nat)
  ∨ ∃ v, vs = [v] ∧ (length cs < 2 * length (of_version v cs))%nat.
Proof.
  intros E. destruct (by_version_spec cs) as (Hg & Hd & Hk).
  assert (∀ n m : nat, computeQuorumThreshold (Z.of_nat n) <= Z.of_nat m ↔ (n < 2 * m)%nat) as Ht.
  { intros n m. unfold computeQuorumThreshold. pose proof (Z.div_mod (Z.of_nat n) 2). pose proof (Z.mod_pos_bound (Z.of_nat n) 2). lia. }
  assert (∀ v, v ∈ vs ↔ (length cs < 2 * length (of_version v cs))%nat) as Hv.
  { intros v. rewrite <- E, list_elem_of_fmap. split.
    - intros ([v' l] & -> & [Hl Hin]%list_elem_of_filter). cbn in *. apply Ht in Hl. by rewrite <- Hg, (group_get_elem _ v' l).
    - intros Hl. assert (v ∈ (by_version cs).*1) as Hin.
      { apply Hk. intros En. rewrite En in Hl. cbn in Hl. lia. }
      apply list_elem_of_fmap in Hin as ([v' l] & -> & Hin). exists (v', l). split; [done|]. apply list_elem_of_filter. split; [|done].
      cbn. apply Ht. by rewrite <- (group_get_elem _ v' l Hd Hin), Hg. }
  destruct vs as [|v vs]; [left|right].
  - split; [done|]. intros v Hl. by apply Hv, elem_of_nil in Hl.
  - exists v. assert (vs = []) as ->; [|split; [done|apply Hv; left]].
    assert (NoDup (v :: vs)) as [Hn _]%NoDup_cons.
    { rewrite <- E. clear -Hd. induction (by_version cs) as [|g gs IH]; [constructor|]. cbn [fmap list_fmap] in Hd. apply NoDup_cons in Hd as [Hn Hd].
      rewrite filter_cons. destruct (decide _); [|auto]. cbn [fmap list_fmap]. apply NoDup_cons. split; [|auto].
      intros Hin. destruct Hn. apply list_elem_of_fmap in Hin as (g' & -> & [_ Hin]%list_elem_of_filter). apply list_elem_of_fmap. by exists g'. }
    destruct vs as [|v2 vs]; [done|]. destruct Hn. rewrite (majority_unique cs v v2); [left|apply Hv; left|apply Hv; right; left].
Qed.

(** The election among three nodes or more chooses a document exactly when
    more than half of the valid candidates have its version and all of those
    have the same content; it is the first of them. *)
Theorem majority_exact did cs (total : nat) d :
  (3 <= total)%nat →
  el_chosen (selectByQuorum did cs total) = Some d ↔
  (length cs < 2 * length (of_version (version_of d) cs))%nat
  ∧ (∀ c, c ∈ of_version (version_of d) cs → content_hash (rc_document c) = content_hash d)
  ∧ rc_document <$> head (of_version (version_of d) cs) = Some d.
Proof.
  intros Ht. unfold selectByQuorum. rewrite (proj2 (Nat.ltb_ge total 3)) by lia.
  destruct (by_version_spec cs) as (Hg & _ & _).
  destruct (qualified_versions cs _ eq_refl) as [[-> Hno]|(v & -> & Hv)]; cbn [el_chosen].
  { split; [done|]. intros (Hl & _). by destruct (Hno (version_of d)). }
  rewrite max_of_single, Hg. destruct (forked (of_version v cs)) eqn:Ef; cbn [el_chosen].
  - split; [done|]. intros (Hl & Hs & _). rewrite (majority_unique cs v (version_of d) Hv Hl) in Ef.
    assert (forked (of_version (version_of d) cs) = false); [|congruence].
    apply forked_false. intros c1 c2 H1 H2. by rewrite (Hs c1 H1), (Hs c2 H2).
  - rewrite forked_false in Ef. split.
    + intros Eh. destruct (of_version v cs) as [|c0 w] eqn:Ew; [done|]. cbn in Eh. injection Eh as <-.
      assert (c0 ∈ of_version v cs) as Hin by (rewrite Ew; left).
      apply list_elem_of_filter in Hin as [Ev _]. rewrite Ev, Ew. split; [exact Hv|]. split; [|done].
      intros c Hc. apply Ef; [done|left].
    + intros (Hl & _ & Hh). by rewrite (majority_unique cs v (version_of d) Hv Hl).
Qed.

Lemma max_of_spec v vs : max_of v vs ∈ v :: vs ∧ ∀ x, x ∈ v :: vs → x <= max_of v vs.
Proof.
  unfold max_of. revert v. induction vs as [|y vs IH]; intros v; cbn [foldl].
  - split; [left|]. by intros x ->%list_elem_of_singleton.
  - destruct (IH (Z.max v y)) as [H1 H2]. split.
    + apply elem_of_cons in H1 as [-> |H1]; [|by do 2 right].
      destruct (Z.max_spec v y) as [[_ ->]|[_ ->]]; [right; left|left].
    + intros x Hx. assert (Z.max v y <= foldl Z.max (Z.max v y) vs) by (apply H2; left).
      apply elem_of_cons in Hx as [->|Hx]; [lia|]. apply elem_of_cons in Hx as [->|Hx]; [lia|]. apply H2. by right.
Qed.

(** Among fewer than three nodes the highest version is taken. *)
Lemma fallback_highest did cs (total : nat) d :
  (total < 3)%nat → el_chosen (selectByQuorum did cs total) = Some d →
  (∀ c, c ∈ cs → version_of (rc_document c) <= version_of d)
  ∧ (∀ c, c ∈ of_version (version_of d) cs → content_hash (rc_document c) = content_hash d)
  ∧ rc_document <$> head (of_version (version_of d) cs) = Some d.
Proof.
  intros Ht. unfold selectByQuorum. rewrite (proj2 (Nat.ltb_lt total 3)) by lia. cbn [el_chosen].
  unfold selectHighestVersionFallback. destruct (by_version_spec cs) as (Hg & _ & Hk).
  destruct (by_version cs).*1 as [|v vs] eqn:Ev; [done|]. destruct (max_of_spec v vs) as [_ Hmax].
  rewrite Hg. destruct (forked _) eqn:Ef; [done|]. cbn [el_chosen]. rewrite forked_false in Ef.
  destruct (of_version (max_of v vs) cs) as [|c0 w] eqn:Ew; [done|]. intros [= <-].
  assert (c0 ∈ of_version (max_of v vs) cs) as Hin by (rewrite Ew; left).
  apply list_elem_of_filter in Hin as [E0 _]. rewrite E0, Ew. split_and!; [|intros c Hc; apply Ef; [done|left]|done].
  intros c Hc. apply Hmax, Hk. intros En. assert (c ∈ of_version (version_of (rc_document c)) cs) as Hc'
    by (by apply list_elem_of_filter). rewrite En in Hc'. by apply elem_of_nil in Hc'.
Qed.

End election.

(** ** The resolver *)

(** The store of watermarks: what a read answers, and a write. *)
Class WatermarkStore (W : Type) : Type := {
  getWatermark : W → string → res (option Z);
  setWatermark : string → Z → M W unit }.

Record CacheEntry : Type := mkCacheEntry { ce_document : AgentIdentityDocument; ce_cachedAt : Z; ce_expiresAt : Z }.

Record Counters : Type := mkCounters {
  ct_resolveTotal : Z;
  ct_resolveSuccess : Z;
  ct_resolveNull : Z;
  ct_resolveInternalError : Z;
  ct_versionConflict : Z;
  ct_signatureInvalid : Z;
  ct_quorumUnmet : Z;
  ct_cacheHit : Z;
  ct_cacheMiss : Z }.

(** A fan-out under way: its DID, the epoch at its start, its targets and the
    global deadline. *)
Record Flight : Type := mkFlight { fl_did : string; fl_startEpoch : Z; fl_targets : list string; fl_deadline : Z }.

Record Resolver (W : Type) : Type := mkResolver {
  rs_nodes : list (string * NodeState);
  rs_cache : gmap string CacheEntry;
  rs_epoch : gmap string Z;
  rs_inflight : gmap string nat;
  rs_flights : gmap nat Flight;
  rs_nextFlight : nat;
  rs_counters : Counters;
  rs_alerts : list Alert;
  rs_watermarks : W }.
Arguments mkResolver {W}.
Arguments rs_nodes {W}. Arguments rs_cache {W}. Arguments rs_epoch {W}. Arguments rs_inflight {W}. Arguments rs_flights {W}.
Arguments rs_nextFlight {W}. Arguments rs_counters {W}. Arguments rs_alerts {W}. Arguments rs_watermarks {W}.

Section resolver.
Context `{Primitives} {W : Type} `{WatermarkStore W}.
Context (cfg : FederatedResolverConfig) (verify : AgentIdentityDocument → res bool).
Implicit Types st : Resolver W.

Definition createFederatedResolver (w : W) : res (Resolver W) :=
  _ ← validateConfig cfg;
  mret (mkResolver (foldl (λ m n, map_set (fn_id n) (init_node n) m) [] (fc_nodes cfg)) ∅ ∅ ∅ ∅ 0 (mkCounters 0 0 0 0 0 0 0 0 0) [] w).

(** Updates of one component each. *)
Definition with_nodes (ns : list (string * NodeState)) st : Resolver W :=
  mkResolver ns (rs_cache st) (rs_epoch st) (rs_inflight st) (rs_flights st) (rs_nextFlight st) (rs_counters st) (rs_alerts st) (rs_watermarks st).
Definition with_cache (c : gmap string CacheEntry) st : Resolver W :=
  mkResolver (rs_nodes st) c (rs_epoch st) (rs_inflight st) (rs_flights st) (rs_nextFlight st) (rs_counters st) (rs_alerts st) (rs_watermarks st).
Definition with_epoch (e : gmap string Z) st : Resolver W :=
  mkResolver (rs_nodes st) (rs_cache st) e (rs_inflight st) (rs_flights st) (rs_nextFlight st) (rs_counters st) (rs_alerts st) (rs_watermarks st).
Definition with_flights (i : gmap string nat) (f : gmap nat Flight) (n : nat) st : Resolver W :=
  mkResolver (rs_nodes st) (rs_cache st) (rs_epoch st) i f n (rs_counters st) (rs_alerts st) (rs_watermarks st).
Definition count (f : Counters → Counters) st : Resolver W :=
  mkResolver (rs_nodes st) (rs_cache st) (rs_epoch st) (rs_inflight st) (rs_flights st) (rs_nextFlight st) (f (rs_counters st)) (rs_alerts st) (rs_watermarks st).
Definition emit (al : list Alert) st : Resolver W :=
  mkResolver (rs_nodes st) (rs_cache st) (rs_epoch st) (rs_inflight st) (rs_flights st) (rs_nextFlight st) (rs_counters st) (rs_alerts st ++ al) (rs_watermarks st).
Definition with_watermarks (w : W) st : Resolver W :=
  mkResolver (rs_nodes st) (rs_cache st) (rs_epoch st) (rs_inflight st) (rs_flights st) (rs_nextFlight st) (rs_counters st) (rs_alerts st) w.

Definition inc_total (c : Counters) : Counters :=
  mkCounters (ct_resolveTotal c + 1) (ct_resolveSuccess c) (ct_resolveNull c) (ct_resolveInternalError c) (ct_versionConflict c)
    (ct_signatureInvalid c) (ct_quorumUnmet c) (ct_cacheHit c) (ct_cacheMiss c).
Definition inc_success (c : Counters) : Counters :=
  mkCounters (ct_resolveTotal c) (ct_resolveSuccess c + 1) (ct_resolveNull c) (ct_resolveInternalError c) (ct_versionConflict c)
    (ct_signatureInvalid c) (ct_quorumUnmet c) (ct_cacheHit c) (ct_cacheMiss c).
Definition inc_null (c : Counters) : Counters :=
  mkCounters (ct_resolveTotal c) (ct_resolveSuccess c) (ct_resolveNull c + 1) (ct_resolveInternalError c) (ct_versionConflict c)
    (ct_signatureInvalid c) (ct_quorumUnmet c) (ct_cacheHit c) (ct_cacheMiss c).
Definition inc_error (c : Counters) : Counters :=
  mkCounters (ct_resolveTotal c) (ct_resolveSuccess c) (ct_resolveNull c) (ct_resolveInternalError c + 1) (ct_versionConflict c)
    (ct_signatureInvalid c) (ct_quorumUnmet c) (ct_cacheHit c) (ct_cacheMiss c).
Definition add_conflicts (n : Z) (c : Counters) : Counters :=
  mkCounters (ct_resolveTotal c) (ct_resolveSuccess c) (ct_resolveNull c) (ct_resolveInternalError c) (ct_versionConflict c + n)
    (ct_signatureInvalid c) (ct_quorumUnmet c) (ct_cacheHit c) (ct_cacheMiss c).
Definition inc_invalid (c : Counters) : Counters :=
  mkCounters (ct_resolveTotal c) (ct_resolveSuccess c) (ct_resolveNull c) (ct_resolveInternalError c) (ct_versionConflict c)
    (ct_signatureInvalid c + 1) (ct_quorumUnmet c) (ct_cacheHit c) (ct_cacheMiss c).
Definition add_unmet (n : Z) (c : Counters) : Counters :=
  mkCounters (ct_resolveTotal c) (ct_resolveSuccess c) (ct_resolveNull c) (ct_resolveInternalError c) (ct_versionConflict c)
    (ct_signatureInvalid c) (ct_quorumUnmet c + n) (ct_cacheHit c) (ct_cacheMiss c).
Definition inc_hit (c : Counters) : Counters :=
  mkCounters (ct_resolveTotal c) (ct_resolveSuccess c) (ct_resolveNull c) (ct_resolveInternalError c) (ct_versionConflict c)
    (ct_signatureInvalid c) (ct_quorumUnmet c) (ct_cacheHit c + 1) (ct_cacheMiss c).
Definition inc_miss (c : Counters) : Counters :=
  mkCounters (ct_resolveTotal c) (ct_resolveSuccess c) (ct_resolveNull c) (ct_resolveInternalError c) (ct_versionConflict c)
    (ct_signatureInvalid c) (ct_quorumUnmet c) (ct_cacheHit c) (ct_cacheMiss c + 1).

(** *** The cache *)

Definition getCached (did : string) (now : Z) st : option AgentIdentityDocument * Resolver W :=
  match rs_cache st !! did with
  | None => (None, st)
  | Some e => if ce_expiresAt e <? now then (None, with_cache (delete did (rs_cache st)) st) else (Some (ce_document e), st)
  end.
Definition setCached (did : string) (d : AgentIdentityDocument) (now : Z) st : Resolver W :=
  with_cache (<[did := mkCacheEntry d now (now + fc_cacheTtlMs cfg)]> (rs_cache st)) st.

Definition epoch_of (did : string) st : Z := default 0 (rs_epoch st !! did).

Definition invalidateCache (did : string) st : Resolver W :=
  with_epoch (<[did := epoch_of did st + 1]> (rs_epoch st)) (with_cache (delete did (rs_cache st)) st).

(** [close()]: the fan-outs under way go on. *)
Definition close st : Resolver W := with_flights ∅ (rs_flights st) (rs_nextFlight st) (with_cache ∅ st).

(** *** The start of a request *)

Definition routable (s : NodeState) : bool :=
  negb (bool_decide (ns_health s = UNHEALTHY)) && num_gtb (default (Fin 1) (fn_weight (ns_node s))) (Fin 0).
Definition targets_of st : list string := (filter (λ kv, routable kv.2 = true) (rs_nodes st)).*1.

Inductive Begun : Type :=
| B_answer (d : option AgentIdentityDocument)
| B_joined (f : nat)
| B_started (f : nat).

(** [resolve] up to its first wait.  Nothing happens between the two looks at
    the cache. *)
Definition beginResolve (did : string) (now : Z) st0 : Begun * Resolver W :=
  let '(cached, st) := getCached did now (count inc_total st0) in
  match cached with
  | Some d => (B_answer (Some d), count inc_hit st)
  | None =>
      let st := count inc_miss st in
      match rs_inflight st !! did with
      | Some f => (B_joined f, st)
      | None =>
          let targets := targets_of st in
          if Z.of_nat (length targets) <? fc_minResponses cfg then
            (B_answer None, count inc_null (count (add_unmet 1) (emit [QUORUM_UNMET did 0 0 (fc_minResponses cfg)] st)))
          else
            let f := rs_nextFlight st in
            (B_started f, with_flights (<[did := f]> (rs_inflight st))
                            (<[f := mkFlight did (epoch_of did st) targets (now + fc_timeoutMs cfg)]> (rs_flights st)) (S f) st)
      end
  end.

(** *** The fan-out *)

(** The answer of a node: when it came, and when its document was checked. *)
Record Reply : Type := mkReply { re_node : string; re_wire : Wire; re_at : Z; re_checked : Z }.

Record Collected : Type := mkCollected {
  cl_pending : list string;
  cl_candidates : list ResolutionCandidate;
  cl_responded : Z;
  cl_all404 : bool;
  cl_settle : option Z;
  cl_deadline : Z }.

Definition on_node {A} (id : string) (m : NodeM A) (dflt : A) st : A * Resolver W :=
  match map_get id (rs_nodes st) with
  | Some s => let '(a, s', al) := m s in (a, emit al (with_nodes (map_set id s' (rs_nodes st)) st))
  | None => (dflt, st)
  end.

(** A candidate that verified. *)
Definition add_candidate (globalDeadline : Z) (r : Reply) (d : AgentIdentityDocument) (c : Collected) : Collected :=
  let cs := cl_candidates c ++ [mkCandidate (re_node r) d] in
  if (fc_minResponses cfg <=? Z.of_nat (length cs)) && bool_decide (cl_settle c = None) then
    let settle := Z.min (re_checked r + settle_window cfg) globalDeadline in
    mkCollected (cl_pending c) cs (cl_responded c) (cl_all404 c) (Some settle) settle
  else mkCollected (cl_pending c) cs (cl_responded c) (cl_all404 c) (cl_settle c) (cl_deadline c).

(** One turn of the loop: the next reply wins the race against the timer. *)
Definition take_reply (did : string) (globalDeadline : Z) (r : Reply) (c : Collected) st : res Collected * Resolver W :=
  let c1 := mkCollected (filter (λ id, id ≠ re_node r) (cl_pending c)) (cl_candidates c) (cl_responded c) (cl_all404 c) (cl_settle c) (cl_deadline c) in
  let '(raw, st1) := on_node (re_node r) (queryNode (fc_healthCheck cfg) (max_bytes cfg) (re_wire r) did) R_error st in
  match raw with
  | R_not_found => (Ok (mkCollected (cl_pending c1) (cl_candidates c1) (cl_responded c1 + 1) (cl_all404 c1) (cl_settle c1) (cl_deadline c1)), st1)
  | R_error => (Ok (mkCollected (cl_pending c1) (cl_candidates c1) (cl_responded c1) false (cl_settle c1) (cl_deadline c1)), st1)
  | R_doc d =>
      let c2 := mkCollected (cl_pending c1) (cl_candidates c1) (cl_responded c1 + 1) false (cl_settle c1) (cl_deadline c1) in
      match verifyDocumentSignature verify d (toISOString (re_checked r)) with
      | Throw code => (Throw code, st1)
      | Ok (V_bad reason) =>
          (Ok c2, (on_node (re_node r) (λ s, (tt, set_metrics (with_invalid (ns_metrics s)) s, [])) tt
                     (count inc_invalid (emit [SIGNATURE_INVALID_ALERT (re_node r) did reason] st1))).2)
      | Ok V_ok => (Ok (add_candidate globalDeadline r d c2), st1)
      end
  end.

Fixpoint collect (did : string) (globalDeadline : Z) (replies : list Reply) (c : Collected) st : res Collected * list string * Resolver W :=
  match replies with
  | [] => (Ok c, cl_pending c, st)
  | r :: rest =>
      if negb (bool_decide (re_node r ∈ cl_pending c)) then collect did globalDeadline rest c st
      else if re_at r <? cl_deadline c then
        match take_reply did globalDeadline r c st with
        | (Ok c', st') => collect did globalDeadline rest c' st'
        | (Throw code, st') => (Throw code, filter (λ id, id ≠ re_node r) (cl_pending c), st')
        end
      else (Ok c, cl_pending c, st)
  end.

(** [controller.abort()]: the queries that are still out end as aborted. *)
Definition abort_pending (late : string → Wire) (did : string) (pending : list string) st : Resolver W :=
  foldl (λ st id,
    (on_node id (queryNode (fc_healthCheck cfg) (max_bytes cfg) (mkWire (parseURL (late id)) (guard (late id)) F_aborted) did) R_error st).2)
    st pending.

(** After the election: older versions, then changed epochs are refused. *)
Definition commit (did : string) (startEpoch now : Z) (chosen : AgentIdentityDocument) st
    : res (option AgentIdentityDocument) * Resolver W :=
  let '(cachedDoc, st) := getCached did now st in
  let cacheVersion := match cachedDoc with Some d => default 0 (ad_version d) | None => 0 end in
  match getWatermark (rs_watermarks st) did with
  | Throw code => (Throw code, st)
  | Ok persist =>
      let watermark := Z.max cacheVersion (default 0 persist) in
      if version_of chosen <? watermark then (Ok None, emit [VERSION_ROLLBACK did (version_of chosen) watermark] st)
      else if negb (epoch_of did st =? startEpoch) then (Ok None, emit [EPOCH_MISMATCH did startEpoch (epoch_of did st)] st)
      else
        let st := setCached did chosen now st in
        match setWatermark did (version_of chosen) (rs_watermarks st) with
        | (Ok _, w) => (Ok (Some chosen), with_watermarks w st)
        | (Throw code, w) => (Throw code, with_watermarks w st)
        end
  end.

Definition fanOut (fl : Flight) (replies : list Reply) (late : string → Wire) (now : Z) st
    : res (option AgentIdentityDocument) * Resolver W :=
  let did := fl_did fl in
  let '(r, pending, st1) := collect did (fl_deadline fl) replies (mkCollected (fl_targets fl) [] 0 true None (fl_deadline fl)) st in
  let st2 := abort_pending late did pending st1 in
  match r with
  | Throw code => (Throw code, st2)
  | Ok c =>
      let cs := cl_candidates c in
      let n := Z.of_nat (length cs) in
      if (n =? 0) && cl_all404 c && (fc_minResponses cfg <=? cl_responded c) then (Ok None, st2)
      else if n <? fc_minResponses cfg then
        (Ok None, count (add_unmet 1) (emit [QUORUM_UNMET did (cl_responded c) n (fc_minResponses cfg)] st2))
      else
        let e := selectByQuorum did cs (length (fl_targets fl)) in
        let st3 := count (add_conflicts (el_conflicts e)) (count (add_unmet (el_unmet e)) (emit (el_alerts e) st2)) in
        match el_chosen e with
        | None => (Ok None, st3)
        | Some chosen => commit did (fl_startEpoch fl) now chosen st3
        end
  end.

(** The rest of [resolveInternal] and of [resolve], for the request that
    started the fan-out. *)
Definition endResolve (f : nat) (replies : list Reply) (late : string → Wire) (now : Z) st0 : option (res (option AgentIdentityDocument)) * Resolver W :=
  match rs_flights st0 !! f with
  | None => (None, st0)
  | Some fl =>
      let '(r, st) := fanOut fl replies late now st0 in
      let st := with_flights (delete (fl_did fl) (rs_inflight st)) (delete f (rs_flights st)) (rs_nextFlight st) st in
      match r with
      | Ok (Some d) => (Some r, count inc_success st)
      | Ok None => (Some r, count inc_null st)
      | Throw _ => (Some r, count inc_error st)
      end
  end.

(** A tick of the probe timer reaches one node. *)
Definition probe (id : string) (o : ProbeOutcome) st : Resolver W :=
  match fc_healthCheck cfg with
  | Some hc =>
      (on_node id (λ s, if bool_decide (default (Fin 1) (fn_weight (ns_node s)) = Fin 0) then (tt, s, [])
                        else let '(s', al) := probeNode hc o s in (tt, s', al)) tt st).2
  | None => st
  end.

(** [getMetrics]: the counters, and the metrics of the nodes. *)
Definition getMetrics st : Counters * list (string * NodeMetrics) :=
  (rs_counters st, (λ kv, (kv.1, ns_metrics kv.2)) <$> rs_nodes st).

End resolver.

Lemma election_winner `{Primitives} did cs (total : nat) d :
  el_chosen (selectByQuorum did cs total) = Some d →
  (∃ c, c ∈ cs ∧ rc_document c = d)
  ∧ (∀ c, c ∈ cs → version_of (rc_document c) = version_of d → content_hash (rc_document c) = content_hash d)
  ∧ ((3 <= total)%nat → (length cs < 2 * length (of_version (version_of d) cs))%nat)
  ∧ ((total < 3)%nat → ∀ c, c ∈ cs → version_of (rc_document c) <= version_of d).
Proof.
  intros He. assert ((∀ c, c ∈ of_version (version_of d) cs → content_hash (rc_document c) = content_hash d)
    ∧ rc_document <$> head (of_version (version_of d) cs) = Some d) as [Hs Hh].
  { destruct (decide (3 <= total)%nat); [by apply majority_exact in He as (_ & ? & ?)|].
    by apply fallback_highest in He as (_ & ? & ?); [|lia]. }
  split_and!.
  - destruct (of_version _ cs) as [|c w] eqn:E; [done|]. exists c. split; [|by injection Hh].
    assert (c ∈ of_version (version_of d) cs) as [_ ?]%list_elem_of_filter by (rewrite E; left). done.
  - intros c Hc Hv. apply Hs. by apply list_elem_of_filter.
  - intros Ht. by apply majority_exact in He as (? & _).
  - intros Ht. by apply fallback_highest in He as (? & _).
Qed.

(** ** What is behind an answer *)

Section backing.
Context `{Primitives} {W : Type} `{WatermarkStore W}.
Context (cfg : FederatedResolverConfig) (verify : AgentIdentityDocument → res bool).
Implicit Types st : Resolver W.

(** What a document that verifies has: a binding by its principal, a key that
    gives its DID when it is a first version, and a chain of rotations that
    the verifier accepts when it is a later one. *)
Record document_verified (d : AgentIdentityDocument) (now : string) : Prop := mkVerified {
  dv_binding : ∃ b, ad_bindingProof d = Some b ∧ bp_agentDid b = ad_id d ∧ bp_principalDid b = ad_principalDid d ∧ verifyBinding b now = true;
  dv_first : ad_version d = None ∨ ad_version d = Some 0 ∨ ad_version d = Some ONE → createAgentDID (ad_publicKey d) = Ok (ad_id d);
  dv_later : ∀ v, ad_version d = Some v → ONE < v → is_Some (ad_rotationProof d) ∧ verify d = Ok true }.

Lemma document_verified_iff d now : verifyDocumentSignature verify d now = Ok V_ok ↔ document_verified d now.
Proof.
  unfold verifyDocumentSignature. split.
  - destruct (ad_bindingProof d) as [b|] eqn:Eb; [|done]. destruct (String.eqb_spec (bp_agentDid b) (ad_id d)) as [E1|]; [|done]. cbn [negb].
    destruct (String.eqb_spec (bp_principalDid b) (ad_principalDid d)) as [E2|]; [|done]. cbn [negb]. destruct (verifyBinding b now) eqn:E3; [|done]. cbn [negb].
    destruct (_ && bool_decide _) eqn:E4; [done|]. destruct (if _ : bool then _ else None) eqn:E5; [done|]. intros E6. split.
    + by exists b.
    + intros Hv. assert (match ad_version d with None => true | Some v => (v =? 0) || (v =? ONE) end = true) as Hs
        by (by destruct Hv as [->|[->| ->]]). rewrite Hs in E5. destruct (createAgentDID _) as [did|]; [|done].
      destruct (String.eqb_spec did (ad_id d)) as [Ed|]; [by rewrite Ed|done].
    + intros v Hv Hlt. rewrite Hv, (proj2 (Z.ltb_lt _ _) Hlt) in E4, E6. cbn in E4. apply bool_decide_eq_false in E4.
      split; [by destruct (ad_rotationProof d)|]. apply res_bind_ok in E6 as ([] & Ev & E6); done.
  - intros [(b & -> & -> & -> & ->) Hf Hl]. rewrite !String.eqb_refl. cbn [negb].
    destruct (ad_version d) as [v|]; cbn [andb].
    + destruct (Z.ltb_spec ONE v) as [Hlt|Hle]; cbn [andb].
      * destruct (Hl v eq_refl Hlt) as [[r Er] Ev]. rewrite Er. rewrite bool_decide_eq_false_2 by done.
        unfold ONE in *. rewrite (proj2 (Z.eqb_neq v 0)), (proj2 (Z.eqb_neq v 1000)) by lia. cbn [orb]. by rewrite Ev.
      * destruct (Z.eqb_spec v 0) as [->|]; cbn [orb]; [rewrite Hf by auto; by rewrite String.eqb_refl|].
        destruct (Z.eqb_spec v ONE) as [->|]; [|done]. rewrite Hf by auto. by rewrite String.eqb_refl.
    + rewrite Hf by auto. by rewrite String.eqb_refl.
Qed.

(** The candidates of a fan-out: verified documents about the DID, of targets
    that are no longer pending, one for each. *)
Record candidates_ok (did : string) (targets : list string) (c : Collected) : Prop := mkCandidatesOk {
  co_pending : ∀ id, id ∈ cl_pending c → id ∈ targets;
  co_distinct : NoDup (rc_nodeId <$> cl_candidates c);
  co_each : ∀ x, x ∈ cl_candidates c → rc_nodeId x ∈ targets ∧ rc_nodeId x ∉ cl_pending c ∧ ad_id (rc_document x) = did
    ∧ ∃ now, document_verified (rc_document x) now }.

Lemma on_node_doc id did w st d st' :
  on_node id (queryNode (fc_healthCheck cfg) (max_bytes cfg) w did) R_error st = (R_doc d, st') → ad_id d = did.
Proof.
  unfold on_node. destruct (map_get id (rs_nodes st)) as [s|]; [|done].
  destruct (queryNode _ _ _ _ s) as [[raw s'] al] eqn:E. intros [= -> _].
  by apply (query_document_checked (fc_healthCheck cfg) (max_bytes cfg) w did s d); rewrite E.
Qed.

Lemma take_reply_ok did targets dl r c st c' st' :
  re_node r ∈ cl_pending c → take_reply cfg verify did dl r c st = (Ok c', st') → candidates_ok did targets c → candidates_ok did targets c'.
Proof.
  intros Hr Ht [H1 H2 H3]. unfold take_reply in Ht.
  destruct (on_node _ _ _ st) as [raw st1] eqn:Eq.
  set (p' := filter (λ id, id ≠ re_node r) (cl_pending c)) in *.
  assert (∀ id, id ∈ p' → id ∈ cl_pending c ∧ id ≠ re_node r) as Hp by (intros id [? ?]%list_elem_of_filter; done).
  assert (∀ resp a s dd, candidates_ok did targets (mkCollected p' (cl_candidates c) resp a s dd)) as Hsame.
  { intros. split; cbn; [intros id Hid; apply H1, Hp, Hid|done|]. intros x Hx. destruct (H3 x Hx) as (? & Hn & ? & ?). split_and!; try done.
    by intros [Hin _]%Hp. }
  destruct raw as [d| |]; [|injection Ht as <- <-; apply Hsame..]. destruct (verifyDocumentSignature _ _ _) as [[|reason]|] eqn:Ev; [| |done].
  - injection Ht as <- <-. apply document_verified_iff in Ev. apply on_node_doc in Eq.
    assert (∀ s dd, candidates_ok did targets (mkCollected p' (cl_candidates c ++ [mkCandidate (re_node r) d]) (cl_responded c + 1) false s dd)) as Hadd.
    { intros. split; cbn; [intros id Hid; apply H1, Hp, Hid| |].
      - rewrite fmap_app. apply NoDup_app. split; [done|]. split; [|apply NoDup_singleton].
        intros id (x & -> & Hx)%list_elem_of_fmap E%list_elem_of_singleton. cbn in E. destruct (H3 x Hx) as (_ & Hn & _). by rewrite E in Hn.
      - intros x [Hx| ->%list_elem_of_singleton]%elem_of_app; cbn.
        + destruct (H3 x Hx) as (? & Hn & ? & ?). split_and!; try done. by intros [Hin _]%Hp.
        + split_and!; [auto| |done|by eexists]. intros Hin. by apply Hp in Hin as [_ Hin]. }
    unfold add_candidate. cbn. destruct (_ && _); apply Hadd.
  - injection Ht as <- <-. apply Hsame.
Qed.

Lemma collect_ok did targets dl replies c st c' p st' :
  collect cfg verify did dl replies c st = (Ok c', p, st') → candidates_ok did targets c → candidates_ok did targets c'.
Proof.
  revert c st. induction replies as [|r replies IH]; intros c st; cbn [collect]; [by intros [= <- <- <-]|].
  case_bool_decide as Hr; cbn [negb]; [|apply IH]. destruct (_ <? _); [|by intros [= <- <- <-]].
  destruct (take_reply _ _ _ _ r c st) as [[c1|] st1] eqn:E; [|done]. intros Hc Ho. eapply IH; [done|]. by eapply take_reply_ok.
Qed.

(** The parts of the state that only the end of a request writes. *)
Definition core st : gmap string CacheEntry * gmap string Z * W := (rs_cache st, rs_epoch st, rs_watermarks st).
Definition flying st : gmap string nat * gmap nat Flight * nat := (rs_inflight st, rs_flights st, rs_nextFlight st).

Lemma on_node_core {A} id (m : NodeM A) a st : core (on_node id m a st).2 = core st ∧ flying (on_node id m a st).2 = flying st.
Proof. unfold on_node. destruct (map_get id (rs_nodes st)) as [s|]; [|done]. by destruct (m s) as [[? ?] ?]. Qed.

Lemma take_reply_core did dl r c st : core (take_reply cfg verify did dl r c st).2 = core st ∧ flying (take_reply cfg verify did dl r c st).2 = flying st.
Proof.
  unfold take_reply. pose proof (on_node_core (re_node r) (queryNode (fc_healthCheck cfg) (max_bytes cfg) (re_wire r) did) R_error st) as [E1 E2].
  destruct (on_node (re_node r) _ R_error st) as [raw st1]. cbn in E1, E2. destruct raw as [d| |]; [|done|done].
  destruct (verifyDocumentSignature _ _ _) as [[|reason]|]; [done| |done]. cbn [snd].
  match goal with |- context [on_node ?i ?m ?a ?s] => pose proof (on_node_core i m a s) as [E3 E4] end. rewrite E3, E4. done.
Qed.

Lemma collect_core did dl replies c st : core (collect cfg verify did dl replies c st).2 = core st ∧ flying (collect cfg verify did dl replies c st).2 = flying st.
Proof.
  revert c st. induction replies as [|r replies IH]; intros c st; [done|]. cbn [collect]. destruct (negb _); [apply IH|].
  destruct (_ <? _); [|done]. pose proof (take_reply_core did dl r c st) as [E1 E2].
  destruct (take_reply _ _ _ _ r c st) as [[c1|] st1]; cbn in E1, E2; [|done]. destruct (IH c1 st1) as [E3 E4]. by rewrite E3, E4.
Qed.

Lemma abort_core late did pending st : core (abort_pending cfg late did pending st) = core st ∧ flying (abort_pending cfg late did pending st) = flying st.
Proof.
  unfold abort_pending. revert st. induction pending as [|id pending IH]; intros st; [done|]. cbn [foldl].
  match goal with |- context [on_node ?i ?m ?a ?s] => pose proof (on_node_core i m a s) as [E1 E2] end. destruct (IH (on_node id
    (queryNode (fc_healthCheck cfg) (max_bytes cfg) (mkWire (parseURL (late id)) (guard (late id)) F_aborted) did) R_error st).2) as [E3 E4].
  by rewrite E3, E4.
Qed.


(** Candidates that stand behind an answer. *)
Record backed (did : string) (targets : list string) (cs : list ResolutionCandidate) : Prop := mkBacked {
  bk_enough : fc_minResponses cfg <= Z.of_nat (length cs);
  bk_distinct : NoDup (rc_nodeId <$> cs);
  bk_each : ∀ x, x ∈ cs → rc_nodeId x ∈ targets ∧ ad_id (rc_document x) = did ∧ ∃ now, document_verified (rc_document x) now }.

Lemma fanOut_cases fl replies late now st r st' :
  fanOut cfg verify fl replies late now st = (r, st') →
  (core st' = core st ∧ flying st' = flying st ∧ ∀ d, r ≠ Ok (Some d))
  ∨ ∃ cs chosen st1, core st1 = core st ∧ flying st1 = flying st ∧ backed (fl_did fl) (fl_targets fl) cs
      ∧ el_chosen (selectByQuorum (fl_did fl) cs (length (fl_targets fl))) = Some chosen
      ∧ commit cfg (fl_did fl) (fl_startEpoch fl) now chosen st1 = (r, st').
Proof.
  unfold fanOut. set (c0 := mkCollected (fl_targets fl) [] 0 true None (fl_deadline fl)).
  pose proof (collect_core (fl_did fl) (fl_deadline fl) replies c0 st) as [E1 E2].
  destruct (collect _ _ _ _ _ c0 st) as [[[c|code] p] st1] eqn:Ec; cbn in E1, E2.
  2: { intros [= <- <-]. left. destruct (abort_core late (fl_did fl) p st1) as [-> ->]. done. }
  pose proof (abort_core late (fl_did fl) p st1) as [E3 E4]. set (st2 := abort_pending _ _ _ _ _) in *.
  destruct (_ && _); [intros [= <- <-]; left; by rewrite E3, E4|].
  destruct (Z.ltb_spec (Z.of_nat (length (cl_candidates c))) (fc_minResponses cfg)) as [|Hn]; [intros [= <- <-]; left; by unfold core, flying in *; cbn; rewrite <- E1, <- E2, <- E3, <- E4|].
  assert (backed (fl_did fl) (fl_targets fl) (cl_candidates c)) as Hb.
  { assert (candidates_ok (fl_did fl) (fl_targets fl) c0) as Hc0 by (split; cbn; [done|constructor|intros x Hx; by apply elem_of_nil in Hx]).
    destruct (collect_ok _ _ _ _ _ _ _ _ _ Ec Hc0) as [_ H2 H3]. split; [done|done|]. intros x Hx. destruct (H3 x Hx) as (? & _ & ? & ?). done. }
  set (e := selectByQuorum _ _ _) in *. destruct (el_chosen e) as [chosen|] eqn:Ee.
  - intros Hc. right. eexists _, chosen, _. split_and!; [| |exact Hb|exact Ee|exact Hc].
    + unfold core in *. cbn. by rewrite <- E1, <- E3.
    + unfold flying in *. cbn. by rewrite <- E2, <- E4.
  - intros [= <- <-]. left. unfold core, flying in *. cbn. by rewrite <- E1, <- E2, <- E3, <- E4.
Qed.

(** C18.  An answer that comes from the nodes, and not from the cache, is backed by
    enough verified documents of distinct targets, one vote each: it is one of
    them, and all of them that have its version have its content.  With three
    targets or more, more than half of the documents have its version; with
    fewer targets there is no majority to ask for, and no document has a higher
    version.  It is not older than the watermark on file. *)
Theorem answer_backed f replies late now st d st' :
  endResolve cfg verify f replies late now st = (Some (Ok (Some d)), st') →
  ∃ fl cs, rs_flights st !! f = Some fl ∧ backed (fl_did fl) (fl_targets fl) cs
    ∧ (∃ c, c ∈ cs ∧ rc_document c = d)
    ∧ (∀ c, c ∈ cs → version_of (rc_document c) = version_of d → content_hash (rc_document c) = content_hash d)
    ∧ ((3 <= length (fl_targets fl))%nat → (length cs < 2 * length (of_version (version_of d) cs))%nat)
    ∧ ((length (fl_targets fl) < 3)%nat → ∀ c, c ∈ cs → version_of (rc_document c) <= version_of d)
    ∧ epoch_of (fl_did fl) st = fl_startEpoch fl
    ∧ ∃ w, getWatermark (rs_watermarks st) (fl_did fl) = Ok w ∧ default 0 w <= version_of d.
Proof.
  unfold endResolve. destruct (rs_flights st !! f) as [fl|]; [|done].
  destruct (fanOut _ _ _ _ _ _ _) as [r st1] eqn:Ef. apply fanOut_cases in Ef as [(_ & _ & Hr)|(cs & chosen & st2 & E1 & _ & Hb & He & Hc)].
  { destruct r as [[d'|]|]; [|done|done]. by destruct (Hr d'). }
  assert (r = Ok (Some chosen) → epoch_of (fl_did fl) st = fl_startEpoch fl
    ∧ ∃ w, getWatermark (rs_watermarks st) (fl_did fl) = Ok w ∧ default 0 w <= version_of chosen) as Hcommit.
  { intros ->. unfold commit in Hc. destruct (getCached (fl_did fl) now st2) as [cd st3] eqn:Eg.
    assert (rs_watermarks st3 = rs_watermarks st ∧ rs_epoch st3 = rs_epoch st) as [Ew Ee].
    { unfold getCached in Eg. injection E1 as _ E1e E1w. destruct (rs_cache st2 !! fl_did fl) as [en|]; [destruct (_ <? _)|]; by injection Eg as _ <-. }
    rewrite Ew in Hc. destruct (getWatermark _ _) as [w|] eqn:Egw; [|done]. destruct (Z.ltb_spec (version_of chosen) (Z.max (match cd with Some d => default 0 (ad_version d) | None => 0 end) (default 0 w))); [done|].
    unfold epoch_of in *. rewrite Ee in Hc. destruct (Z.eqb_spec (default 0 (rs_epoch st !! fl_did fl)) (fl_startEpoch fl)); [|done].
    split; [done|]. exists w. split; [done|]. lia. }
  assert (∀ x, r = Ok (Some x) → x = chosen) as Hch.
  { intros x ->. revert Hc. clear. unfold commit. destruct (getCached _ _ _) as [cd st3]. destruct (getWatermark _ _) as [w|]; [|done].
    destruct (_ <? _); [done|]. destruct (negb _); [done|]. destruct (setWatermark _ _ _) as [[u|code] w2]; [by intros [= -> _]|done]. }
  destruct r as [[x|]|]; [|done|done]. intros [= -> _]. rewrite (Hch d eq_refl) in *. destruct (Hcommit eq_refl) as [H1 H2].
  exists fl, cs. split; [done|]. split; [done|].
  destruct (election_winner (fl_did fl) cs _ _ He) as (H3 & H4 & H5 & H6). split_and!; done.
Qed.

End backing.
