(* ===== verification/FederationRuns.v ===== *)
(** * Histories of the federated resolver

    Runs of the resolver of Federation.v: sequences of the events at which its
    state changes, and what holds over all of them.  The versions that it
    answers for one DID never go back as long as its watermark can be written, on
    the contract that the interface of the watermark store states
    (packages/types/src/federation.ts); an invalidation
    wins over the fan-outs under way; a DID has one fan-out at a time.  Then
    the ways in which a resolver stops answering. *)
From S2P Require Import Prelude JsValue Time Encoding Crypto Authorization SignedPayload Identity FederationNodes Federation.
Open Scope Z_scope.

(** The contract of the store: a read answers the value on file, a write that
    succeeds raises it to the version and never lowers it, and a write that
    fails lowers nothing.  That writes succeed is not part of it. *)
Class WatermarkLaws (W : Type) `{WatermarkStore W} : Type := {
  wm_value : W → string → Z;
  wm_get w did o : getWatermark w did = Ok o → default 0 o = wm_value w did;
  wm_set w did v w' : setWatermark did v w = (Ok tt, w') → wm_value w' did = Z.max (wm_value w did) v;
  wm_keeps w did v k : wm_value w k <= wm_value (setWatermark did v w).2 k }.

(** [E_raise]: another process writes to the store. *)
Inductive fed_event (W : Type) : Type :=
| E_resolve (did : string) (now : Z)
| E_end (f : nat) (replies : list Reply) (late : string → Wire) (now : Z)
| E_invalidate (did : string)
| E_close
| E_probe (id : string) (o : ProbeOutcome)
| E_raise (did : string) (v : Z).
Arguments E_resolve {W}. Arguments E_end {W}. Arguments E_invalidate {W}. Arguments E_close {W}. Arguments E_probe {W}. Arguments E_raise {W}.

Section runs.
Context `{Primitives} {W : Type} `{WatermarkStore W}.
Context (cfg : FederatedResolverConfig) (verify : AgentIdentityDocument → res bool).
Implicit Types (st : Resolver W).

(** One event: the answer with a document that it gives, if any. *)
Definition fed_step (e : fed_event W) st : option (string * AgentIdentityDocument) * Resolver W :=
  match e with
  | E_resolve did now =>
      match beginResolve cfg did now st with
      | (B_answer (Some d), st') => (Some (did, d), st')
      | (_, st') => (None, st')
      end
  | E_end f replies late now =>
      match rs_flights st !! f, endResolve cfg verify f replies late now st with
      | Some fl, (Some (Ok (Some d)), st') => (Some (fl_did fl, d), st')
      | _, (_, st') => (None, st')
      end
  | E_invalidate did => (None, invalidateCache did st)
  | E_close => (None, close st)
  | E_probe id o => (None, probe cfg id o st)
  | E_raise did v => (None, with_watermarks (setWatermark did v (rs_watermarks st)).2 st)
  end.

Fixpoint fed_run (es : list (fed_event W)) st : list (string * AgentIdentityDocument) * Resolver W :=
  match es with
  | [] => ([], st)
  | e :: es =>
      let '(a, st1) := fed_step e st in
      let '(as_, st2) := fed_run es st1 in
      (match a with Some x => [x] | None => [] end ++ as_, st2)
  end.

(** *** What an event can do to the cache, the epochs and the watermarks *)

Definition cache_shrinks (c c' : gmap string CacheEntry) : Prop := ∀ (k : string) (en : CacheEntry), c' !! k = Some en → c !! k = Some en.

Lemma cache_shrinks_refl c : cache_shrinks c c.
Proof. by intros k en. Qed.
#[local] Hint Resolve cache_shrinks_refl : core.

Lemma getCached_core did now st o st' : getCached did now st = (o, st') →
  cache_shrinks (rs_cache st) (rs_cache st') ∧ rs_epoch st' = rs_epoch st ∧ rs_watermarks st' = rs_watermarks st
  ∧ flying st' = flying st ∧ (∀ d, o = Some d → ∃ e, rs_cache st' !! did = Some e ∧ ce_document e = d)
  ∧ (∀ k, k ≠ did → rs_cache st' !! k = rs_cache st !! k).
Proof.
  unfold getCached. destruct (rs_cache st !! did) as [e|] eqn:E; [destruct (_ <? _)|]; intros [= <- <-].
  - split_and!; try done; cbn.
    + intros k e'. rewrite lookup_delete_Some. tauto.
    + intros k Hk. by rewrite lookup_delete_ne.
  - split_and!; try done. intros d [= <-]. by exists e.
  - split_and!; done.
Qed.

Lemma begin_core did now st b st' : beginResolve cfg did now st = (b, st') →
  cache_shrinks (rs_cache st) (rs_cache st') ∧ rs_epoch st' = rs_epoch st ∧ rs_watermarks st' = rs_watermarks st
  ∧ (∀ d, b = B_answer (Some d) → ∃ e, rs_cache st' !! did = Some e ∧ ce_document e = d)
  ∧ (flying st' = flying st ∧ (∀ f, b ≠ B_started f)
     ∨ ∃ fl, b = B_started (rs_nextFlight st) ∧ rs_inflight st !! did = None ∧ fl_did fl = did ∧ fl_startEpoch fl = epoch_of did st
         ∧ flying st' = (<[did := rs_nextFlight st]> (rs_inflight st), <[rs_nextFlight st := fl]> (rs_flights st), S (rs_nextFlight st))).
Proof.
  unfold beginResolve. destruct (getCached did now (count inc_total st)) as [o st1] eqn:Eg.
  apply getCached_core in Eg as (H1 & H2 & H3 & H4 & H5 & _). cbn in H1, H2, H3. injection H4 as Hi Hf Hn. cbn in Hi, Hf, Hn.
  destruct o as [d|].
  { intros [= <- <-]. split_and!; try done; [|left; split; [unfold flying; cbn; congruence|done]]. intros d' [= <-]. by apply H5. }
  cbn. rewrite Hi, Hn. destruct (rs_inflight st !! did) as [f|] eqn:Ei; [intros [= <- <-]; split_and!; try done; left; split; [unfold flying; cbn; congruence|done]|].
  destruct (_ <? _); intros [= <- <-]; (split_and!; [done|done|done|done|]).
  - left. split; [unfold flying; cbn; congruence|done].
  - right. exists (mkFlight did (epoch_of did st1) (targets_of st1) (now + fc_timeoutMs cfg)). split_and!; try done.
    + unfold epoch_of. cbn. by rewrite H2.
    + unfold flying. cbn. by rewrite Hf.
Qed.

Lemma commit_core did ep now chosen st r st' : commit cfg did ep now chosen st = (r, st') →
  flying st' = flying st ∧ rs_epoch st' = rs_epoch st
  ∧ ((cache_shrinks (rs_cache st) (rs_cache st') ∧ rs_watermarks st' = rs_watermarks st ∧ ∀ d, r ≠ Ok (Some d))
     ∨ (epoch_of did st = ep ∧ (∃ o, getWatermark (rs_watermarks st) did = Ok o ∧ default 0 o <= version_of chosen)
        ∧ (∃ e, rs_cache st' !! did = Some e ∧ ce_document e = chosen) ∧ (∀ k, k ≠ did → rs_cache st' !! k = rs_cache st !! k)
        ∧ rs_watermarks st' = (setWatermark did (version_of chosen) (rs_watermarks st)).2
        ∧ r = match (setWatermark did (version_of chosen) (rs_watermarks st)).1 with Ok _ => Ok (Some chosen) | Throw c => Throw c end)).
Proof.
  unfold commit. destruct (getCached did now st) as [cd st1] eqn:Eg. apply getCached_core in Eg as (H1 & H2 & H3 & H4 & _ & H6).
  rewrite H3. destruct (getWatermark (rs_watermarks st) did) as [o|] eqn:Ew; [|intros [= <- <-]; split_and!; [done|done|left; done]].
  destruct (Z.ltb_spec (version_of chosen) (Z.max (match cd with Some d => default 0 (ad_version d) | None => 0 end) (default 0 o))).
  { intros [= <- <-]. split_and!; [done|done|left; done]. }
  unfold epoch_of. rewrite H2. destruct (Z.eqb_spec (default 0 (rs_epoch st !! did)) ep) as [Ee|]; cbn [negb].
  2: { intros [= <- <-]. split_and!; [done|done|left; done]. }
  cbn [rs_watermarks setCached with_cache]. rewrite H3. destruct (setWatermark did (version_of chosen) (rs_watermarks st)) as [[[]|code] w2] eqn:Es.
  all: intros [= <- <-]; split; [done|]; split; [done|]; right; split; [done|].
  all: split; [exists o; split; [done|lia]|]; split; [cbn; rewrite lookup_insert_eq; by eexists|].
  all: split; [intros k Hk; cbn; rewrite lookup_insert_ne by done; by apply H6|]; by split.
Qed.

(** The end of a request: nothing but an expired entry, or the commit of one
    document. *)
Lemma end_core f replies late now st r st' fl :
  rs_flights st !! f = Some fl → endResolve cfg verify f replies late now st = (r, st') →
  flying st' = (delete (fl_did fl) (rs_inflight st), delete f (rs_flights st), rs_nextFlight st) ∧ rs_epoch st' = rs_epoch st
  ∧ ((cache_shrinks (rs_cache st) (rs_cache st') ∧ rs_watermarks st' = rs_watermarks st ∧ ∀ d, r ≠ Some (Ok (Some d)))
     ∨ ∃ chosen, epoch_of (fl_did fl) st = fl_startEpoch fl
        ∧ (∃ o, getWatermark (rs_watermarks st) (fl_did fl) = Ok o ∧ default 0 o <= version_of chosen)
        ∧ (∃ e, rs_cache st' !! fl_did fl = Some e ∧ ce_document e = chosen) ∧ (∀ k, k ≠ fl_did fl → rs_cache st' !! k = rs_cache st !! k)
        ∧ rs_watermarks st' = (setWatermark (fl_did fl) (version_of chosen) (rs_watermarks st)).2
        ∧ r = Some (match (setWatermark (fl_did fl) (version_of chosen) (rs_watermarks st)).1 with Ok _ => Ok (Some chosen) | Throw c => Throw c end)).
Proof.
  intros Hfl. unfold endResolve. rewrite Hfl. destruct (fanOut cfg verify fl replies late now st) as [r1 st1] eqn:Ef. intros He.
  assert (r = Some r1 ∧ core st' = core st1 ∧ flying st' = (delete (fl_did fl) (rs_inflight st1), delete f (rs_flights st1), rs_nextFlight st1)) as (-> & Ec & Efl).
  { destruct r1 as [[d|]|]; injection He as <- <-; done. }
  clear He. injection Ec as Ec1 Ec2 Ec3. rewrite Efl, Ec1, Ec2, Ec3. clear Efl Ec1 Ec2 Ec3.
  apply fanOut_cases in Ef as [(E1 & E2 & Hr)|(cs & chosen & st2 & E1 & E2 & _ & _ & Hc)].
  - injection E1 as -> -> ->. injection E2 as -> -> ->. split; [done|]. split; [done|]. left. split; [done|]. split; [done|]. intros d [= Ed]. by destruct (Hr d).
  - apply commit_core in Hc as (F1 & F2 & Hc). unfold core in E1. unfold flying in E2, F1. injection E1 as E1a E1b E1c. injection E2 as E2a E2b E2c. injection F1 as -> -> ->.
    rewrite E2a, E2b, E2c, F2, E1b. split; [done|]. split; [done|]. destruct Hc as [(H1 & H2 & H3)|(H1 & H2 & H3 & H4 & H5 & H6)].
    + left. rewrite <- E1a, <- E1c. split; [done|]. split; [done|]. intros d [= Ed]. by destruct (H3 d).
    + right. exists chosen. rewrite <- E1a, <- E1c. unfold epoch_of in *. rewrite E1b in H1. split_and!; try done. by rewrite H6.
Qed.

(** *** Flights *)

(** A flight that is out keeps its data until it ends, and its number is not
    given again. *)
Lemma step_flight e st f fl : (f < rs_nextFlight st)%nat → rs_flights st !! f = Some fl →
  let st' := (fed_step e st).2 in
  (f < rs_nextFlight st')%nat ∧ (rs_flights st' !! f = Some fl ∨ rs_flights st' !! f = None).
Proof.
  intros Hlt Hf. cbn zeta. destruct e as [did now|g replies late now|did| |id o|did v]; cbn [fed_step].
  - destruct (beginResolve cfg did now st) as [b st'] eqn:Eb. apply begin_core in Eb as (_ & _ & _ & _ & [[E _]|(fl' & _ & _ & _ & _ & E)]);
      injection E as _ Ef En; destruct b as [[d|]|g|g]; cbn [snd]; rewrite Ef, En; (split; [lia|]); auto; left; rewrite lookup_insert_ne by lia; done.
  - destruct (rs_flights st !! g) as [fl'|] eqn:Eg.
    + destruct (endResolve cfg verify g replies late now st) as [r st'] eqn:Ee. apply (end_core g replies late now st r st' fl' Eg) in Ee as (E & _).
      injection E as _ Ef En. destruct r as [[[d|]|]|]; cbn [snd]; rewrite Ef, En; (split; [done|]);
        (destruct (decide (g = f)) as [->|]; [right; apply lookup_delete_eq|left; by rewrite lookup_delete_ne]).
    + unfold endResolve. rewrite Eg. cbn. auto.
  - cbn. auto.
  - cbn. auto.
  - cbn. unfold probe. destruct (fc_healthCheck cfg); [|auto]. match goal with |- context [on_node ?i ?m ?a ?s] => pose proof (on_node_core i m a s) as [_ E] end.
    injection E as _ -> ->. auto.
  - cbn. auto.
Qed.

Lemma step_no_flight e st f : (f < rs_nextFlight st)%nat → rs_flights st !! f = None →
  let st' := (fed_step e st).2 in (f < rs_nextFlight st')%nat ∧ rs_flights st' !! f = None.
Proof.
  intros Hlt Hf. cbn zeta. destruct e as [did now|g replies late now|did| |id o|did v]; cbn [fed_step].
  - destruct (beginResolve cfg did now st) as [b st'] eqn:Eb. apply begin_core in Eb as (_ & _ & _ & _ & [[E _]|(fl' & _ & _ & _ & _ & E)]);
      injection E as _ Ef En; destruct b as [[d|]|g|g]; cbn [snd]; rewrite Ef, En; (split; [lia|]); auto; rewrite lookup_insert_ne by lia; done.
  - destruct (rs_flights st !! g) as [fl'|] eqn:Eg.
    + destruct (endResolve cfg verify g replies late now st) as [r st'] eqn:Ee. apply (end_core g replies late now st r st' fl' Eg) in Ee as (E & _).
      injection E as _ Ef En. destruct r as [[[d|]|]|]; cbn [snd]; rewrite Ef, En; (split; [done|]); by apply lookup_delete_None; right.
    + unfold endResolve. rewrite Eg. cbn. auto.
  - cbn. auto.
  - cbn. auto.
  - cbn. unfold probe. destruct (fc_healthCheck cfg); [|auto]. match goal with |- context [on_node ?i ?m ?a ?s] => pose proof (on_node_core i m a s) as [_ E] end.
    injection E as _ -> ->. auto.
  - cbn. auto.
Qed.

(** Epochs only grow. *)
Lemma step_epoch e st did : epoch_of did st <= epoch_of did (fed_step e st).2.
Proof.
  unfold epoch_of. destruct e as [k now|g replies late now|k| |id o|k v]; cbn [fed_step].
  - destruct (beginResolve cfg k now st) as [b st'] eqn:Eb. apply begin_core in Eb as (_ & E & _). destruct b as [[d|]|g|g]; cbn [snd]; rewrite E; lia.
  - destruct (rs_flights st !! g) as [fl'|] eqn:Eg.
    + destruct (endResolve cfg verify g replies late now st) as [r st'] eqn:Ee. apply (end_core g replies late now st r st' fl' Eg) in Ee as (_ & E & _).
      destruct r as [[[d|]|]|]; cbn [snd]; rewrite E; lia.
    + unfold endResolve. rewrite Eg. cbn. lia.
  - cbn. destruct (decide (k = did)) as [->|]; [rewrite lookup_insert_eq; unfold epoch_of; cbn; lia|rewrite lookup_insert_ne by done; lia].
  - cbn. lia.
  - cbn. unfold probe. destruct (fc_healthCheck cfg); [|lia]. match goal with |- context [on_node ?i ?m ?a ?s] => pose proof (on_node_core i m a s) as [E _] end.
    injection E as _ -> _. lia.
  - cbn. lia.
Qed.

Lemma run_snd e es st : (fed_run (e :: es) st).2 = (fed_run es (fed_step e st).2).2.
Proof. cbn [fed_run]. destruct (fed_step e st) as [a st1]. cbn [snd]. by destruct (fed_run es st1). Qed.

Lemma run_flight es st f fl : (f < rs_nextFlight st)%nat → rs_flights st !! f = Some fl ∨ rs_flights st !! f = None →
  let st' := (fed_run es st).2 in
  (f < rs_nextFlight st')%nat ∧ (rs_flights st' !! f = Some fl ∨ rs_flights st' !! f = None).
Proof.
  cbn zeta. revert st. induction es as [|e es IH]; intros st Hlt Hf; [done|]. rewrite run_snd.
  destruct Hf as [Hf|Hf]; [destruct (step_flight e st f fl Hlt Hf)|destruct (step_no_flight e st f Hlt Hf)]; apply IH; auto.
Qed.

Lemma run_epoch es st did : epoch_of did st <= epoch_of did (fed_run es st).2.
Proof.
  revert st. induction es as [|e es IH]; intros st; [done|]. rewrite run_snd. etransitivity; [apply (step_epoch e)|apply IH].
Qed.

(** An invalidation wins over a request that is out: when the DID was
    invalidated after the request started, its end, whenever it comes and
    whatever the nodes replied, gives no document. *)
Theorem invalidation_wins did now st f st1 es1 es2 replies late now' d :
  beginResolve cfg did now st = (B_started f, st1) →
  (fed_step (E_end f replies late now') (fed_run es2 (invalidateCache did (fed_run es1 st1).2)).2).1 ≠ Some (did, d).
Proof.
  intros Hb. apply begin_core in Hb as (_ & He & _ & _ & [[_ Hn]|(fl & [= ->] & _ & Ed & Es & E)]); [by destruct (Hn f)|].
  unfold flying in E. injection E as _ Ef En. set (f := rs_nextFlight st) in *.
  assert (f < rs_nextFlight st1)%nat as Hlt by (rewrite En; lia).
  assert (rs_flights st1 !! f = Some fl ∨ rs_flights st1 !! f = None) as Hf by (left; rewrite Ef; apply lookup_insert_eq).
  assert (fl_startEpoch fl <= epoch_of did st1) as Hep by (rewrite Es; unfold epoch_of; rewrite He; lia).
  destruct (run_flight es1 st1 f fl Hlt Hf) as [Hlt1 Hf1]. pose proof (run_epoch es1 st1 did) as Hep1.
  set (sa := (fed_run es1 st1).2) in *. set (sb := invalidateCache did sa).
  assert (epoch_of did sb = epoch_of did sa + 1) as Hsb by (unfold sb, epoch_of; cbn; by rewrite lookup_insert_eq).
  destruct (run_flight es2 sb f fl Hlt1 Hf1) as [_ Hf2]. pose proof (run_epoch es2 sb did) as Hep2.
  set (sc := (fed_run es2 sb).2) in *. cbn [fed_step]. destruct Hf2 as [Hf2|Hf2]; rewrite Hf2.
  - destruct (endResolve cfg verify f replies late now' sc) as [r st'] eqn:Ee. pose proof Ee as Ee'.
    apply (end_core f replies late now' sc r st' fl Hf2) in Ee as (_ & _ & [(_ & _ & Hr)|(chosen & Hx & _)]).
    + destruct r as [[[x|]|]|]; try done. by destruct (Hr x).
    + rewrite Ed in Hx. lia.
  - unfold endResolve. by rewrite Hf2.
Qed.

(** *** Coalescing *)

(** Without a close, a DID has at most one fan-out at a time. *)
Definition coalesced st : Prop :=
  (∀ f fl, rs_flights st !! f = Some fl → rs_inflight st !! fl_did fl = Some f ∧ (f < rs_nextFlight st)%nat).

Lemma step_coalesced e st : e ≠ E_close → coalesced st → coalesced (fed_step e st).2.
Proof.
  intros He Hc. destruct e as [did now|g replies late now|did| |id o|did v]; cbn [fed_step].
  - destruct (beginResolve cfg did now st) as [b st'] eqn:Eb. apply begin_core in Eb as (_ & _ & _ & _ & [[E _]|(fl' & _ & Hi & Ed & _ & E)]);
      injection E as Ei Ef En; destruct b as [[d|]|g|g]; cbn [snd]; unfold coalesced; rewrite Ei, Ef, En; try done.
    all: intros f fl; rewrite lookup_insert_Some; intros [[<- <-]|[Hne Hf]]; [rewrite Ed, lookup_insert_eq; split; [done|lia]|].
    all: destruct (Hc f fl Hf) as [H1 H2]; split; [|lia]; rewrite lookup_insert_ne; [done|congruence].
  - destruct (rs_flights st !! g) as [fl'|] eqn:Eg.
    + destruct (endResolve cfg verify g replies late now st) as [r st'] eqn:Ee. apply (end_core g replies late now st r st' fl' Eg) in Ee as (E & _).
      injection E as Ei Ef En. destruct (Hc g fl' Eg) as [Hg _].
      destruct r as [[[d|]|]|]; cbn [snd]; unfold coalesced; rewrite Ei, Ef, En; intros f fl [Hne Hf]%lookup_delete_Some;
        destruct (Hc f fl Hf) as [H1 H2]; (split; [|done]); rewrite lookup_delete_ne; congruence.
    + unfold endResolve. by rewrite Eg.
  - done.
  - done.
  - cbn. unfold probe. destruct (fc_healthCheck cfg); [|done]. match goal with |- context [on_node ?i ?m ?a ?s] => pose proof (on_node_core i m a s) as [_ E] end.
    unfold coalesced. injection E as -> -> ->. done.
  - done.
Qed.

Theorem one_flight_per_did es st f1 f2 fl1 fl2 :
  E_close ∉ es → coalesced st →
  rs_flights (fed_run es st).2 !! f1 = Some fl1 → rs_flights (fed_run es st).2 !! f2 = Some fl2 → fl_did fl1 = fl_did fl2 → f1 = f2.
Proof.
  intros Hes Hc. assert (coalesced (fed_run es st).2) as Hr.
  { revert st Hc. induction es as [|e es IH]; intros st Hc; [done|]. rewrite run_snd. apply IH; [|apply step_coalesced; [|done]].
    - intros ?. apply Hes. by right.
    - intros ->. apply Hes. left. }
  intros H1 H2 E. apply Hr in H1 as [H1 _], H2 as [H2 _]. congruence.
Qed.

End runs.

(** ** Versions never go back *)

Section monotone.
Context `{Primitives} {W : Type} `{WatermarkStore W} `{!WatermarkLaws W}.
Context (cfg : FederatedResolverConfig) (verify : AgentIdentityDocument → res bool).
Context (did : string).
Implicit Types (st : Resolver W).

(** The event ends a request for [did] with the error of the store, after the
    elected document went into the cache. *)
Definition write_fails (e : fed_event W) st : Prop :=
  ∃ f replies late now fl en code, e = E_end f replies late now
    ∧ rs_flights st !! f = Some fl ∧ fl_did fl = did
    ∧ rs_cache (fed_step cfg verify e st).2 !! did = Some en
    ∧ (setWatermark did (version_of (ce_document en)) (rs_watermarks st)).1 = Throw code
    ∧ (endResolve cfg verify f replies late now st).1 = Some (Throw code).

(** [l] bounds the versions answered so far: it is on file, and what the
    cache holds lies between it and the file. *)
Definition guarded (l : Z) st : Prop :=
  l <= wm_value (rs_watermarks st) did
  ∧ ∀ en, rs_cache st !! did = Some en → l <= version_of (ce_document en) <= wm_value (rs_watermarks st) did.

(** The bound after an answer. *)
Definition raised (l : Z) (a : option (string * AgentIdentityDocument)) : Z :=
  match a with Some (k, d) => if bool_decide (k = did) then version_of d else l | None => l end.

Lemma guarded_kept l st st' :
  guarded l st → (∀ en, rs_cache st' !! did = Some en → rs_cache st !! did = Some en) →
  wm_value (rs_watermarks st) did <= wm_value (rs_watermarks st') did → guarded l st'.
Proof. intros [H1 H2] Hc Hw. split; [lia|]. intros en Hen. specialize (H2 en (Hc en Hen)). lia. Qed.

Lemma guarded_end l st f replies late now a st' :
  guarded l st → ¬ write_fails (E_end f replies late now) st →
  fed_step cfg verify (E_end f replies late now) st = (a, st') →
  (∀ d, a = Some (did, d) → l <= version_of d) ∧ guarded (raised l a) st'.
Proof.
  intros Hg Hnf Hstep. pose proof Hstep as Hs. cbn [fed_step] in Hs.
  destruct (rs_flights st !! f) as [fl|] eqn:Ef.
  2: { unfold endResolve in Hs. rewrite Ef in Hs. by injection Hs as <- <-. }
  destruct (endResolve cfg verify f replies late now st) as [r st1] eqn:Ee. pose proof Ee as Ee'.
  apply (end_core cfg verify f replies late now st r st1 fl Ef) in Ee
    as (_ & _ & [(Hc & Hw & Hr)|(chosen & _ & (o & Ho & Hov) & (en & Hen & Hd) & Hoth & Hw & Hr)]).
  { assert (a = None ∧ st' = st1) as [-> ->] by (destruct r as [[[d|]|]|]; [by destruct (Hr d)|by injection Hs as <- <-..]).
    split; [done|]. apply (guarded_kept l st); [done|intros ?; apply Hc|by rewrite Hw]. }
  assert (st' = st1) as -> by (by destruct r as [[[d|]|]|]; injection Hs as _ <-).
  destruct (decide (fl_did fl = did)) as [Efd|Hne].
  - rewrite Efd in *. destruct (setWatermark did (version_of chosen) (rs_watermarks st)) as [[[]|code] w'] eqn:Es.
    + cbn [fst snd] in *. subst r. injection Hs as <-. apply wm_set in Es. apply wm_get in Ho. rewrite Ho in Hov.
      destruct Hg as [H1 _]. split; [intros d [= <-]; lia|]. unfold raised. rewrite bool_decide_eq_true_2 by done.
      split; rewrite Hw, Es; [lia|]. intros en' Hen'. rewrite Hen in Hen'. injection Hen' as <-. rewrite Hd. lia.
    + destruct Hnf. exists f, replies, late, now, fl, en, code. rewrite Hstep, Hd, Es, Ee'. cbn [fst snd] in *. by subst r.
  - assert (a = None ∨ ∃ d, a = Some (fl_did fl, d)) as Ha
      by (destruct r as [[[d|]|]|]; injection Hs as <-; eauto).
    assert (raised l a = l) as ->
      by (destruct Ha as [->|(d & ->)]; [done|]; unfold raised; by rewrite bool_decide_eq_false_2).
    split; [intros d ->; destruct Ha as [|(? & [= ? ?])]; congruence|].
    apply (guarded_kept l st); [done|intros en'; by rewrite Hoth|]. rewrite Hw. apply wm_keeps.
Qed.

Lemma guarded_step l st e a st' :
  guarded l st → ¬ write_fails e st → fed_step cfg verify e st = (a, st') →
  (∀ d, a = Some (did, d) → l <= version_of d) ∧ guarded (raised l a) st'.
Proof.
  intros Hg Hnf. destruct e as [k now|f replies late now|k| |id o|k v]; [|by apply guarded_end|..]; cbn [fed_step].
  - destruct (beginResolve cfg k now st) as [b st1] eqn:Eb. apply begin_core in Eb as (Hc & _ & Hw & Hans & _).
    assert (guarded l st1) as Hg1 by (apply (guarded_kept l st); [done|intros ?; apply Hc|by rewrite Hw]).
    destruct b as [[d|]|g|g]; intros [= <- <-]; try done. destruct (Hans d eq_refl) as (en & Hen & <-).
    unfold raised. case_bool_decide as Ek; [|split; [naive_solver|done]]. subst k. destruct Hg1 as [H1 H2].
    specialize (H2 en Hen). split; [intros d [= <-]; lia|]. split; [lia|].
    intros en' Hen'. rewrite Hen in Hen'. injection Hen' as <-. lia.
  - intros [= <- <-]. split; [done|]. apply (guarded_kept l st); [done| |done]. intros en. cbn. rewrite lookup_delete_Some. tauto.
  - intros [= <- <-]. split; [done|]. apply (guarded_kept l st); [done| |done]. intros en. cbn. by rewrite lookup_empty.
  - intros [= <- <-]. split; [done|]. unfold probe. destruct (fc_healthCheck cfg); [|done].
    match goal with |- context [on_node ?i ?m ?a ?s] => pose proof (on_node_core i m a s) as [E _] end. injection E as E1 _ E3.
    apply (guarded_kept l st); [done|by rewrite E1|by rewrite E3].
  - intros [= <- <-]. split; [done|]. apply (guarded_kept l st); [done|done|apply wm_keeps].
Qed.

(** No write of [did] fails in a run. *)
Definition writes_succeed (es : list (fed_event W)) st : Prop :=
  ∀ pre e post, es = pre ++ e :: post → ¬ write_fails e (fed_run cfg verify pre st).2.

Lemma writes_succeed_cons e es st :
  writes_succeed (e :: es) st → ¬ write_fails e st ∧ writes_succeed es (fed_step cfg verify e st).2.
Proof.
  intros Hw. split; [exact (Hw [] e es eq_refl)|]. intros pre e' post ->.
  rewrite <- run_snd. by apply (Hw (e :: pre) e' post).
Qed.

Lemma guarded_run es l st d :
  guarded l st → writes_succeed es st → (did, d) ∈ (fed_run cfg verify es st).1 → l <= version_of d.
Proof.
  revert l st. induction es as [|e es IH]; intros l st Hg Hws; [by intros ?%elem_of_nil|].
  apply writes_succeed_cons in Hws as [Hnf Hws]. cbn [fed_run].
  destruct (fed_step cfg verify e st) as [a st1] eqn:Es. destruct (guarded_step l st e a st1 Hg Hnf Es) as [Ha Hg1].
  cbn [snd] in Hws. specialize (IH _ st1 Hg1 Hws). destruct (fed_run cfg verify es st1) as [as_ st2]. cbn [fst] in *.
  rewrite elem_of_app. intros [Hin|Hin].
  - destruct a as [x|]; [|by apply elem_of_nil in Hin]. apply list_elem_of_singleton in Hin as <-. by apply Ha.
  - specialize (IH Hin). destruct a as [[k d']|]; cbn [raised] in IH; [|done].
    case_bool_decide; [|done]. subst k. specialize (Ha d' eq_refl). lia.
Qed.

(** C17.  Of two answers for one DID, whichever mixture of the cache and of the
    nodes they come from, and whatever the nodes replied, was invalidated or
    written to the store by others in between, the later has no lower version.
    The resolver starts with an empty cache, the store keeps its contract
    ([WatermarkLaws]), and no request for the DID in the run failed in writing
    its watermark (after such a failure versions do go back,
    [failed_write_lets_versions_go_back]). *)
Theorem versions_never_go_back es st l1 l2 l3 d1 d2 :
  rs_cache st = ∅ → writes_succeed es st →
  (fed_run cfg verify es st).1 = l1 ++ (did, d1) :: l2 ++ (did, d2) :: l3 → version_of d1 <= version_of d2.
Proof.
  intros Hempty.
  assert (guarded (wm_value (rs_watermarks st) did) st) as Hg by (split; [done|]; rewrite Hempty; intros en; by rewrite lookup_empty).
  revert Hg. clear Hempty. generalize (wm_value (rs_watermarks st) did). revert st l1.
  induction es as [|e es IH]; intros st l1 l Hg Hws; cbn [fed_run]; [intros E; by destruct l1|].
  apply writes_succeed_cons in Hws as [Hnf Hws].
  destruct (fed_step cfg verify e st) as [a st1] eqn:Es. destruct (guarded_step l st e a st1 Hg Hnf Es) as [_ Hg1].
  cbn [snd] in Hws. specialize (IH st1). pose proof (guarded_run es (raised l a) st1 d2 Hg1 Hws) as Hrun.
  destruct (fed_run cfg verify es st1) as [as_ st2]. cbn [fst] in *. destruct a as [[k d]|]; cbn [app].
  - destruct l1 as [|x l1]; cbn [app]; [intros [= -> -> El]|intros [= _ El]].
    + cbn [raised] in Hrun. rewrite bool_decide_eq_true_2 in Hrun by done. apply Hrun. rewrite El. apply elem_of_app. right. left.
    + by apply (IH l1 _ Hg1).
  - intros E. by apply (IH l1 _ Hg1).
Qed.

End monotone.

(** ** Ways to stop answering *)

Section outage.
Context `{Primitives} {W : Type} `{WatermarkStore W}.
Context (cfg : FederatedResolverConfig) (verify : AgentIdentityDocument → res bool).
Implicit Types st : Resolver W.

(** No node is routed to, nothing is out and nothing is cached. *)
Definition cut_off st : Prop := targets_of st = [] ∧ rs_flights st = ∅ ∧ rs_cache st = ∅ ∧ rs_inflight st = ∅.

(** An outage lasts for ever when no health check is configured: once every
    node is unhealthy, no node is queried or probed again, so that nothing
    that happens afterwards brings an answer. *)
Theorem outage_permanent es st :
  fc_healthCheck cfg = None → 1 <= fc_minResponses cfg → cut_off st →
  (fed_run cfg verify es st).1 = [] ∧ cut_off (fed_run cfg verify es st).2.
Proof.
  intros Hhc Hmin. revert st. induction es as [|e es IH]; intros st Hst; [done|]. cbn [fed_run].
  destruct (fed_step cfg verify e st) as [a st1] eqn:Es. assert (a = None ∧ cut_off st1) as [-> Hst1].
  { destruct Hst as (Ht & Hf & Hc & Hi). destruct e as [did now|f replies late now|did| |id o|did v]; cbn [fed_step] in Es.
    - unfold beginResolve, getCached in Es. change (rs_cache (count inc_total st)) with (rs_cache st) in Es.
      rewrite Hc, lookup_empty in Es. cbv zeta in Es. change (rs_inflight (count inc_miss (count inc_total st))) with (rs_inflight st) in Es.
      rewrite Hi, lookup_empty in Es. change (targets_of (count inc_miss (count inc_total st))) with (targets_of st) in Es.
      rewrite Ht in Es. cbn [length] in Es. rewrite (proj2 (Z.ltb_lt _ _)) in Es by lia. injection Es as <- <-. done.
    - unfold endResolve in Es. rewrite Hf, lookup_empty in Es. by injection Es as <- <-.
    - injection Es as <- <-. split; [done|]. split_and!; try done. cbn. rewrite Hc. apply delete_empty.
    - by injection Es as <- <-.
    - injection Es as <- <-. unfold probe. by rewrite Hhc.
    - by injection Es as <- <-. }
  destruct (IH st1 Hst1) as [H1 H2]. by destruct (fed_run cfg verify es st1).
Qed.

End outage.

(** A version between 0 and 1 is certified by nothing: the DID need not come
    from the key and no chain of rotations is asked for, so that anyone's
    document for anyone's DID verifies. *)
Theorem fraction_uncertified `{PrimitiveLaws} verify did pseed key t now v :
  isDidAgent did = true → is_seed pseed → 0 < v < ONE →
  ∃ d, verifyDocumentSignature verify d now = Ok V_ok ∧ ad_id d = did ∧ ad_publicKey d = key ∧ ad_version d = Some v
    ∧ ad_principalDid d = publicKeyToDidKey (ed25519_pub pseed) ∧ ad_createdAt d = t.
Proof.
  intros Hd Hp Hv. set (pdid := publicKeyToDidKey (ed25519_pub pseed)).
  destruct (extractPublicKey_didKey (ed25519_pub pseed)) as [Hk He]; [apply ed25519_pub_bytes..|]. fold pdid in Hk, He.
  set (bm := binding_text (mkBinding pdid did t None "")). set (b := mkBinding pdid did t None (toHex (ed25519_sign bm pseed))).
  exists (mkDocument did "0.2.0" pdid key (Some b) None None t t (Some v) None None false). split_and!; try done.
  apply document_verified_iff. split; cbn.
  - exists b. split_and!; try done. apply verifyBinding_iff. split_and!; try done.
    exists (toHex (ed25519_pub pseed)). split; [done|]. by apply (verify_with pseed bm enc_hex enc_hex).
  - intros [[=]|[[=]|[=]]]; lia.
  - intros v' [= <-] ?. lia.
Qed.
