(* ===== verification/FederationExamples.v ===== *)
(** * Concrete federations

    Three nodes that serve one identity, over the toy primitives of
    ToyPrimitives.v and a store of watermarks in memory: the values at which
    the theorems on federated resolution are applied, and runs of its
    failures. *)
From S2P Require Import Prelude JsValue Time Encoding Crypto ToyPrimitives Authorization SignedPayload.
From S2P Require Import Identity FederationNodes Federation FederationRuns.
Open Scope Z_scope.

(** ** A store *)

#[export] Instance fx_store : WatermarkStore (gmap string Z) := {|
  getWatermark w did := Ok (w !! did);
  setWatermark did v w := (Ok tt, if default 0 (w !! did) <? v then <[did := v]> w else w) |}.

#[export] Instance fx_laws : WatermarkLaws (gmap string Z).
Proof.
  refine {| wm_value w did := default 0 (w !! did) |}.
  - by intros w did o [= <-].
  - intros w did v w' [= <-]. destruct (Z.ltb_spec (default 0 (w !! did)) v); [|lia].
    rewrite lookup_insert_eq. cbn. lia.
  - intros w did v k. cbn. destruct (Z.ltb_spec (default 0 (w !! did)) v); [|done].
    destruct (decide (k = did)) as [->|]; [rewrite lookup_insert_eq; cbn; lia|by rewrite lookup_insert_ne].
Defined.

(** ** Nodes and documents *)

Definition fx_seed (b : Z) : bytes := replicate 32 b.
Definition fx_t : string := "2026-06-01T00:00:00.000Z".
Definition fx_now : Z := 1780272000000.
Definition fx_create : CreateAgentIdentityParams :=
  mkCreateIdentity (publicKeyToDidKey (ed25519_pub (fx_seed 9))) (toHex (fx_seed 9)) None None (Some fx_t).
Definition fx_made : AgentIdentityDocument := Eval vm_compute in
  match createAgentIdentity fx_create (fx_seed 1) fx_now with
  | Ok (d, _) => d
  | Throw _ => mkDocument "" "" "" "" None None None "" "" None None None false
  end.
(** The served document, in thousandths, and a later version of it. *)
Definition fx_doc (v : Z) (t : string) : AgentIdentityDocument :=
  mkDocument (ad_id fx_made) (ad_specVersion fx_made) (ad_principalDid fx_made) (ad_publicKey fx_made) (ad_bindingProof fx_made)
    None None fx_t t (Some v) None (if 1000 <? v then Some (mkRotation "" "" "" "" "" "" "") else None) false.
Definition fx_did : string := Eval vm_compute in ad_id fx_made.

Definition fx_node (id : string) : FederatedNode := mkFedNode id ("https://" +:+ id +:+ ".example") None.
Definition fx_cfg (ids : list string) (min : Z) (hc : option HealthCheckConfig) : FederatedResolverConfig :=
  mkFedConfig (fx_node <$> ids) min 5000 None 60000 None true hc true true.
Definition fx_config : FederatedResolverConfig := fx_cfg ["a"; "b"; "c"] 2 None.
Definition fx_verify : AgentIdentityDocument → res bool := λ _, Ok true.

Definition fx_wire (o : FetchOutcome) : Wire :=
  mkWire (λ _, Some (mkParsedUrl "a.example" "")) (resolveAndValidate (λ _, Some ["93.184.216.34"]) (λ _, None)) o.
Definition fx_says (d : AgentIdentityDocument) : Wire := fx_wire (F_response 200 None (Some (Some d))).
Definition fx_late : string → Wire := λ _, fx_wire F_aborted.
Definition fx_reply (id : string) (w : Wire) (ms : Z) : Reply := mkReply id w (fx_now + ms) (fx_now + ms).

Definition fx_state (cfg : FederatedResolverConfig) : Resolver (gmap string Z) :=
  match createFederatedResolver cfg ∅ with Ok st => st | Throw _ => mkResolver [] ∅ ∅ ∅ ∅ 0 (mkCounters 0 0 0 0 0 0 0 0 0) [] ∅ end.

(** ** Runs *)

Definition fx_run (cfg : FederatedResolverConfig) (es : list (fed_event (gmap string Z))) : list (string * option Z) :=
  (λ a, (a.1, ad_version a.2)) <$> (fed_run cfg fx_verify es (fx_state cfg)).1.

(** Two nodes agree on the first version and the third is behind; the second
    request is answered from the cache; after the entry expired the nodes
    agree on the second version. *)
Definition fx_events : list (fed_event (gmap string Z)) :=
  [E_resolve fx_did fx_now;
   E_end 0 [fx_reply "a" (fx_says (fx_doc 1000 fx_t)) 10; fx_reply "b" (fx_says (fx_doc 1000 fx_t)) 20;
            fx_reply "c" (fx_says (fx_doc 0 fx_t)) 30] fx_late (fx_now + 40);
   E_resolve fx_did (fx_now + 1000);
   E_resolve fx_did (fx_now + 70000);
   E_end 1 [fx_reply "a" (fx_says (fx_doc 2000 fx_t)) 10; fx_reply "b" (fx_says (fx_doc 2000 fx_t)) 20;
            fx_reply "c" (fx_wire (F_response 404 None None)) 30] fx_late (fx_now + 70050)].

Example fx_answers : fx_run fx_config fx_events = [(fx_did, Some 1000); (fx_did, Some 1000); (fx_did, Some 2000)].
Proof. vm_compute. reflexivity. Qed.

(** A later fan-out of the old version alone is refused. *)
Example fx_rollback_refused :
  fx_run fx_config (fx_events ++ [E_resolve fx_did (fx_now + 200000);
    E_end 2 [fx_reply "a" (fx_says (fx_doc 1000 fx_t)) 10; fx_reply "b" (fx_says (fx_doc 1000 fx_t)) 20] fx_late (fx_now + 200050)])
  = [(fx_did, Some 1000); (fx_did, Some 1000); (fx_did, Some 2000)].
Proof. vm_compute. reflexivity. Qed.

(** *** Applications of the theorems *)

Definition fx_cands : list ResolutionCandidate :=
  [mkCandidate "a" (fx_doc 1000 fx_t); mkCandidate "b" (fx_doc 1000 fx_t); mkCandidate "c" (fx_doc 0 fx_t)].
Lemma majority_exact_witness :
  el_chosen (selectByQuorum fx_did fx_cands 3) = Some (fx_doc 1000 fx_t)
  ∧ (length fx_cands < 2 * length (of_version 1000 fx_cands))%nat.
Proof.
  assert (el_chosen (selectByQuorum fx_did fx_cands 3) = Some (fx_doc 1000 fx_t)) as E by (vm_compute; reflexivity).
  split; [exact E|]. apply (majority_exact fx_did fx_cands 3 (fx_doc 1000 fx_t)); [lia|exact E].
Defined.

Lemma versions_never_go_back_witness :
  ∃ d1 d2, (fed_run fx_config fx_verify fx_events (fx_state fx_config)).1 = [(fx_did, d1)] ++ (fx_did, d1) :: [] ++ [(fx_did, d2)]
    ∧ version_of d1 <= version_of d2.
Proof.
  exists (fx_doc 1000 fx_t), (fx_doc 2000 fx_t).
  assert ((fed_run fx_config fx_verify fx_events (fx_state fx_config)).1
    = [(fx_did, fx_doc 1000 fx_t)] ++ (fx_did, fx_doc 1000 fx_t) :: [] ++ [(fx_did, fx_doc 2000 fx_t)]) as E by (vm_compute; reflexivity).
  split; [exact E|]. refine (versions_never_go_back fx_config fx_verify fx_did fx_events (fx_state fx_config) _ _ _ _ _ _ _ E).
  - vm_compute. reflexivity.
  - intros pre e post _ (f & replies & late & now & fl & en & code & _ & _ & _ & _ & [=] & _).
Defined.

Definition fx_started : Begun * Resolver (gmap string Z) := beginResolve fx_config fx_did fx_now (fx_state fx_config).
Definition fx_replies : list Reply :=
  [fx_reply "a" (fx_says (fx_doc 1000 fx_t)) 10; fx_reply "b" (fx_says (fx_doc 1000 fx_t)) 20].
Lemma fx_starts : beginResolve fx_config fx_did fx_now (fx_state fx_config) = (B_started 0, fx_started.2).
Proof. vm_compute. reflexivity. Qed.

Lemma invalidation_wins_witness :
  (fed_step fx_config fx_verify (E_end 0 fx_replies fx_late (fx_now + 40)) (invalidateCache fx_did fx_started.2)).1
  ≠ Some (fx_did, fx_doc 1000 fx_t).
Proof.
  exact (invalidation_wins fx_config fx_verify fx_did fx_now (fx_state fx_config) 0 fx_started.2 [] [] fx_replies fx_late (fx_now + 40)
           (fx_doc 1000 fx_t) fx_starts).
Defined.

Definition fx_ended : option (res (option AgentIdentityDocument)) * Resolver (gmap string Z) :=
  endResolve fx_config fx_verify 0 fx_replies fx_late (fx_now + 40) fx_started.2.
Lemma fx_ends : endResolve fx_config fx_verify 0 fx_replies fx_late (fx_now + 40) fx_started.2
  = (Some (Ok (Some (fx_doc 1000 fx_t))), fx_ended.2).
Proof. apply pair_of_fst. vm_compute. reflexivity. Qed.

Lemma answer_backed_witness :
  ∃ fl cs, rs_flights fx_started.2 !! 0%nat = Some fl ∧ backed fx_config fx_verify (fl_did fl) (fl_targets fl) cs.
Proof.
  destruct (answer_backed fx_config fx_verify 0 fx_replies fx_late (fx_now + 40) fx_started.2 (fx_doc 1000 fx_t) fx_ended.2 fx_ends)
    as (fl & cs & H1 & H2 & _). exists fl, cs. split; [exact H1|exact H2].
Defined.

Lemma fx_not_close : E_close ∉ [E_resolve (W := gmap string Z) fx_did fx_now].
Proof. intros [=]%list_elem_of_singleton. Qed.
Lemma fx_coalesced : coalesced (fx_state fx_config).
Proof. intros f fl Hf. vm_compute in Hf. discriminate Hf. Qed.

Lemma one_flight_per_did_witness :
  ∃ fl, rs_flights (fed_run fx_config fx_verify [E_resolve fx_did fx_now] (fx_state fx_config)).2 !! 0%nat = Some fl
    ∧ ∀ f fl', rs_flights (fed_run fx_config fx_verify [E_resolve fx_did fx_now] (fx_state fx_config)).2 !! f = Some fl' →
        fl_did fl = fl_did fl' → 0%nat = f.
Proof.
  exists (mkFlight fx_did 0 ["a"; "b"; "c"] (fx_now + 5000)).
  assert (rs_flights (fed_run fx_config fx_verify [E_resolve fx_did fx_now] (fx_state fx_config)).2 !! 0%nat
    = Some (mkFlight fx_did 0 ["a"; "b"; "c"] (fx_now + 5000))) as E by (vm_compute; reflexivity).
  split; [exact E|]. intros f fl'.
  exact (one_flight_per_did fx_config fx_verify [E_resolve fx_did fx_now] (fx_state fx_config) 0 f _ fl' fx_not_close fx_coalesced E).
Defined.

Lemma fraction_uncertified_witness :
  ∃ d, verifyDocumentSignature fx_verify d fx_t = Ok V_ok ∧ ad_id d = fx_did ∧ ad_publicKey d = "00".
Proof.
  destruct (fraction_uncertified fx_verify fx_did (fx_seed 7) "00" fx_t fx_t 500) as (d & H1 & H2 & H3 & _).
  - vm_compute. reflexivity.
  - split; [by apply Forall_replicate|reflexivity].
  - unfold ONE. lia.
  - exists d. split; [exact H1|]. split; [exact H2|exact H3].
Defined.

(** *** An outage *)

(** Three requests during which no node is reached. *)
Definition fx_dead (f : nat) (ms : Z) : list (fed_event (gmap string Z)) :=
  [E_resolve fx_did (fx_now + ms);
   E_end f ((λ id, mkReply id (fx_wire F_failed) (fx_now + ms + 1) (fx_now + ms + 1)) <$> ["a"; "b"; "c"]) fx_late (fx_now + ms + 10)].
Definition fx_outage : list (fed_event (gmap string Z)) := fx_dead 0 0 ++ fx_dead 1 100 ++ fx_dead 2 200.
Definition fx_cut : Resolver (gmap string Z) := (fed_run fx_config fx_verify fx_outage (fx_state fx_config)).2.

Lemma fx_cut_off : cut_off fx_cut.
Proof. split_and!; vm_compute; reflexivity. Qed.

(** Afterwards the nodes are back, and no request reaches them. *)
Lemma outage_permanent_witness : (fed_run fx_config fx_verify fx_events fx_cut).1 = [].
Proof. apply (outage_permanent fx_config fx_verify fx_events fx_cut eq_refl); [cbn; lia|exact fx_cut_off]. Defined.

(** *** More runs *)

Definition fx_slow (f : nat) (ms : Z) : list (fed_event (gmap string Z)) :=
  [E_invalidate fx_did; E_resolve fx_did (fx_now + ms);
   E_end f [mkReply "a" (fx_says (fx_doc 1000 fx_t)) (fx_now + ms + 10) (fx_now + ms + 10);
            mkReply "b" (fx_says (fx_doc 1000 fx_t)) (fx_now + ms + 20) (fx_now + ms + 20);
            mkReply "c" (fx_says (fx_doc 1000 fx_t)) (fx_now + ms + 1500) (fx_now + ms + 1500)] fx_late (fx_now + ms + 1020)].

(** A node that answers correctly, after the settle window of the others, is
    counted as failing, and taken out of the federation for good. *)
Theorem slow_node_expelled :
  let st := (fed_run fx_config fx_verify (fx_slow 0 0 ++ fx_slow 1 2000 ++ fx_slow 2 4000) (fx_state fx_config)).2 in
  (ns_health <$> map_get "c" (rs_nodes st)) = Some UNHEALTHY ∧ targets_of st = ["a"; "b"].
Proof. vm_compute. done. Qed.

(** Nodes that share an id are one node: a configuration of three that is
    accepted never has two targets. *)
Theorem shared_id_never_resolves :
  let cfg := fx_cfg ["a"; "a"; "a"] 2 None in
  validateConfig cfg = Ok tt ∧ targets_of (fx_state cfg) = ["a"]
  ∧ (beginResolve cfg fx_did fx_now (fx_state cfg)).1 = B_answer None.
Proof. vm_compute. done. Qed.

(** The cache is filled before the watermark is written: with a store whose
    writes fail, a version is answered from the cache, and after it expired an
    older one is answered again. *)
Definition fx_broken : WatermarkStore (gmap string Z) := {|
  getWatermark w did := Ok (w !! did);
  setWatermark did v w := (Throw "Error", w) |}.
Theorem failed_write_lets_versions_go_back :
  let st : Resolver (gmap string Z) := fx_state fx_config in
  let es : list (fed_event (gmap string Z)) :=
    [E_resolve fx_did fx_now;
     E_end 0 [fx_reply "a" (fx_says (fx_doc 2000 fx_t)) 10; fx_reply "b" (fx_says (fx_doc 2000 fx_t)) 20] fx_late (fx_now + 40);
     E_resolve fx_did (fx_now + 50);
     E_resolve fx_did (fx_now + 70000);
     E_end 1 [fx_reply "a" (fx_says (fx_doc 1000 fx_t)) 10; fx_reply "b" (fx_says (fx_doc 1000 fx_t)) 20] fx_late (fx_now + 70040);
     E_resolve fx_did (fx_now + 70050)] in
  (λ a, ad_version a.2) <$> (@fed_run _ _ fx_broken fx_config fx_verify es st).1 = [Some 2000; Some 1000].
Proof. vm_compute. reflexivity. Qed.

(** ** One node *)

Definition fx_health : HealthCheckConfig := mkHealthCheck (Fin 1000) (Fin 3) (Fin 2) "/health".
Definition fx_bad : list health_event := replicate 3 (mkHealthEvent false false).

Lemma health_invariant_witness : health_ok 3 2 (health_run (Some fx_health) fx_bad (init_node (fx_node "a"))).
Proof. apply (health_invariant (Some fx_health) 3 2 eq_refl eq_refl (fx_node "a") fx_bad); lia. Defined.

Lemma fx_sick : health_ok 3 2 (health_run (Some fx_health) fx_bad (init_node (fx_node "a"))).
Proof. apply (health_invariant (Some fx_health) 3 2 eq_refl eq_refl); lia. Qed.

Lemma health_recovers_witness :
  ns_health (health_run (Some fx_health) (replicate 20 (mkHealthEvent true true)) (health_run (Some fx_health) fx_bad (init_node (fx_node "a")))) = HEALTHY.
Proof.
  apply (health_recovers (Some fx_health) 3 2 eq_refl eq_refl (replicate 20 (mkHealthEvent true true))
           (health_run (Some fx_health) fx_bad (init_node (fx_node "a"))) fx_sick).
  - by apply Forall_replicate.
  - rewrite length_replicate. unfold HEALTH_RATE_WINDOW. lia.
  - rewrite length_replicate. lia.
Defined.

Lemma fx_fresh : health_ok 3 2 (init_node (fx_node "a")).
Proof. apply (health_invariant (Some fx_health) 3 2 eq_refl eq_refl (fx_node "a") []); lia. Qed.

Lemma health_fails_witness : ns_health (health_run (Some fx_health) fx_bad (init_node (fx_node "a"))) = UNHEALTHY.
Proof.
  apply (health_fails (Some fx_health) 3 2 eq_refl eq_refl fx_bad (init_node (fx_node "a")) fx_fresh);
    [by apply Forall_replicate|discriminate|cbn; lia].
Defined.

Lemma query_document_checked_witness : ad_id (fx_doc 1000 fx_t) = fx_did.
Proof.
  apply (query_document_checked None 65536 (fx_says (fx_doc 1000 fx_t)) fx_did (init_node (fx_node "a")) (fx_doc 1000 fx_t)).
  vm_compute. reflexivity.
Defined.

(** The answers of a node and what becomes of them. *)
Example query_runs :
  (λ w, (queryNode None 65536 w fx_did (init_node (fx_node "a"))).1.1) <$>
    [fx_says (fx_doc 1000 fx_t); fx_wire (F_response 404 None None); fx_wire (F_response 500 None None);
     fx_wire (F_response 200 (Some "70000") (Some (Some (fx_doc 1000 fx_t)))); fx_wire (F_response 200 None None);
     mkWire (λ _, Some (mkParsedUrl "10.0.0.1" "")) (λ h, Ok h) (F_response 200 None (Some (Some (fx_doc 1000 fx_t))));
     mkWire (λ _, Some (mkParsedUrl "a.example" "6379")) (λ h, Ok h) (F_response 200 None (Some (Some (fx_doc 1000 fx_t))))]
  = [R_doc (fx_doc 1000 fx_t); R_not_found; R_error; R_error; R_error; R_error; R_error].
Proof. vm_compute. reflexivity. Qed.
