(* ===== verification/AuditQuery.v ===== *)
(** * Audit queries

    What the audit routes of packages/policy/src/recorder share: the data of
    packages/types/src/audit.ts, the parsing of query strings and cursors, the
    two access checkers and the row-level scope gate of
    action-record-routes.ts, and the nonce store of nonce-store.ts.

    A request has headers, each with the values it occurred with, the [id] of
    its path and the query string as the parser of Express 5 reads it: a value,
    or several.  A handler answers, goes on, or passes an exception to the
    framework. *)
From stdpp Require Import pretty.
From S2P Require Import Prelude JsValue Time Encoding Crypto Authorization SignedPayload ActionRecords ActionRecorder Identity Registry.
Open Scope Z_scope.

(** ** Requests and responses *)

Inductive QueryValue : Type := Q_one (s : string) | Q_many (l : list string).

Record Request : Type := mkRequest {
  rq_headers : list (string * list string);
  rq_id : option string;
  rq_query : list (string * QueryValue) }.

Record CheckResult : Type := mkCheck { ck_name : string; ck_valid : bool; ck_reason : option string }.

Record Head : Type := mkHead {
  hd_agentDid : string; hd_recordId : string; hd_createdAt : string; hd_recordHash : string }.

Inductive AuditResponse : Type :=
| AR_error (status : Z) (code : string)
| AR_list (records : list Row) (nextCursor : option string)
| AR_record (r : Row)
| AR_verify (valid : bool) (checks : list CheckResult)
| AR_chain_valid (recordCount : nat)
| AR_chain_broken (brokenAt : string) (reason : IntegrityReason) (recordCount : nat)
| AR_head (h : Head).

Inductive handled (A : Type) : Type :=
| proceed (a : A)
| answer (r : AuditResponse)
| fails (code : string).
Arguments proceed {A} a.
Arguments answer {A} r.
Arguments fails {A} code.

#[export] Instance handled_ret : MRet handled := λ A a, proceed a.
#[export] Instance handled_bind : MBind handled := λ A B f m,
  match m with proceed a => f a | answer r => answer r | fails c => fails c end.

Definition sendError {A} (status : Z) (code : string) : handled A := answer (AR_error status code).
Definition demand (ok : bool) (status : Z) (code : string) : handled unit := if ok then proceed tt else sendError status code.
(** An exception is passed on by [next(err)]. *)
Definition attempt {A} (r : res A) : handled A := match r with Ok a => proceed a | Throw c => fails c end.

Definition malformed {A} : handled A := sendError 400 "AUDIT_QUERY_MALFORMED".
Definition well_formed (ok : bool) : handled unit := demand ok 400 "AUDIT_QUERY_MALFORMED".

(** ** Formats *)

(** [isValidIso8601] *)
Definition isValidIso8601 (s : string) : bool :=
  timestampPattern s && match getTime s with Some t => String.eqb (toISOString t) s | None => false end.

(** [$n::timestamptz]: the database has no year 0. *)
Definition pg_instant (s : string) : res Z :=
  match getTime s with
  | Some t => if str_startsWith s "0000" then Throw "22008" else Ok t
  | None => Throw "22007"
  end.

Definition trim (l : list ascii) : list ascii :=
  let skip := fix skip l := match l with c :: l' => if is_space c then skip l' else l | [] => [] end in
  reverse (skip (reverse (skip l))).

Definition radix_digit (base : Z) (c : ascii) : option Z :=
  let d := if is_digit c then digit_val c
           else if is_hex c then hex_val c else 99 in
  if d <? base then Some d else None.
Fixpoint radix_from (base acc : Z) (l : list ascii) : option Z :=
  match l with
  | [] => Some acc
  | c :: l' => d ← radix_digit base c; radix_from base (base * acc + d) l'
  end.
Definition radix_value (base : Z) (l : list ascii) : option Z := match l with [] => None | _ => radix_from base 0 l end.

(** [0x], [0o] and [0b] literals *)
Definition prefixed_literal (l : list ascii) : option (option Z) :=
  match l with
  | c0 :: c :: ds =>
      if negb (Ascii.eqb c0 "0") then None
      else if Ascii.eqb (to_lower c) "x" then Some (radix_value 16 ds)
      else if Ascii.eqb (to_lower c) "o" then Some (radix_value 8 ds)
      else if Ascii.eqb (to_lower c) "b" then Some (radix_value 2 ds) else None
  | _ => None
  end.

Definition signed (l : list ascii) : Z * list ascii :=
  match l with
  | c :: r => if Ascii.eqb c "-" then (-1, r) else if Ascii.eqb c "+" then (1, r) else (1, l)
  | [] => (1, [])
  end.

(** [BigInt(s)]: [None] is the SyntaxError. *)
Definition BigInt_of (s : string) : option Z :=
  let l := trim (chars s) in
  match l with
  | [] => Some 0
  | _ => match prefixed_literal l with
         | Some r => r
         | None => let '(sg, ds) := signed l in Z.mul sg <$> radix_value 10 ds
         end
  end.

(** A decimal literal as mantissa and exponent of ten. *)
Definition decimal_literal (l : list ascii) : option (Z * Z) :=
  let '(sg, l) := signed l in
  let '(int, l) := span_digits l in
  let '(frac, l) := match l with c :: r => if Ascii.eqb c "." then span_digits r else ([], l) | [] => ([], []) end in
  match int ++ frac, l with
  | [], _ => None
  | ds, [] => m ← radix_value 10 ds; Some (sg * m, - Z.of_nat (length frac))
  | ds, c :: r =>
      if negb (Ascii.eqb (to_lower c) "e") then None
      else let '(es, er) := signed r in
           m ← radix_value 10 ds; e ← radix_value 10 er; Some (sg * m, es * e - Z.of_nat (length frac))
  end.

(** The value [num/den] is rounded to the double [n]: it is within half a unit
    in the last place, which is half as large below a power of two. *)
Definition rounds_to (num den n : Z) : bool :=
  let k := Z.log2 n in
  let below := if n =? 2 ^ k then 54 else 53 in
  (num * 2 ^ 53 <=? n * den * 2 ^ 53 + den * 2 ^ k) && (n * den * 2 ^ below <=? num * 2 ^ below + den * 2 ^ k).

(** [Number(s)], when it is an integer from 1 to 500. *)
Definition limit_of (s : string) : option Z :=
  let l := trim (chars s) in
  n ← match prefixed_literal l with
      | Some r => r
      | None =>
          me ← decimal_literal l;
          let '(m, e) := me in
          let num := m * 10 ^ Z.max e 0 in
          let den := 10 ^ Z.max (- e) 0 in
          let n := (2 * num + den) / (2 * den) in
          if (1 <=? n) && rounds_to num den n then Some n else None
      end;
  if (1 <=? n) && (n <=? 500) then Some n else None.

(** ** Cursors *)

Definition encodeCursor (timestamp : string) (id : Z) : string :=
  toBase64Url (textEncode (timestamp +:+ "|" +:+ pretty id)).

Definition text_of (bs : bytes) : string := str ((λ b, ascii_of_N (Z.to_N b)) <$> bs).

(** The parts before and after the first bar. *)
Fixpoint split_bar (l : list ascii) : option (list ascii * list ascii) :=
  match l with
  | [] => None
  | c :: l' => if Ascii.eqb c "|" then Some ([], l') else match split_bar l' with Some (a, b) => Some (c :: a, b) | None => None end
  end.

Definition decodeCursor (cursor : string) : option (string * string) :=
  if negb (hash_charset cursor) then None
  else match split_bar (chars (text_of (b64_decode (chars cursor)))) with
       | Some ((_ :: _) as ts, (_ :: _) as id) => Some (str ts, str id)
       | _ => None
       end.

(** ** Queries *)

Definition ACTION_VOCABULARY : list string := ["INQUIRY"; "QUOTE"; "CONFIRM"; "PUBLISH"; "RECORD"; "SESSION_SUPERSEDED"].

Record AuditQueryParams : Type := mkQueryParams {
  qp_agentDid : option string;
  qp_principalDid : option string;
  qp_action : option string;
  qp_sessionId : option string;
  qp_start : option string;
  qp_end : option string;
  qp_limit : option Z;
  qp_cursor : option string;
  qp_affectedAgentDid : option string;
  qp_affectedPrincipalDid : option string }.

Inductive Route : Type := records_list | records_get | records_verify | records_chain_verify | ledger_head.
#[export] Instance Route_eq_dec : EqDecision Route.
Proof. solve_decision. Defined.
Definition route_name (r : Route) : string :=
  match r with
  | records_list => "records.list" | records_get => "records.get" | records_verify => "records.verify"
  | records_chain_verify => "records.chain.verify" | ledger_head => "ledger.head"
  end.

Record AuditResourceBinding : Type := mkBinding { rb_route : Route; rb_recordId : option string }.

Record AuditSnapshotBoundary : Type := mkBoundary {
  sb_headCreatedAt : string; sb_headRecordId : string; sb_headRecordHash : option string }.

(** [delegatedAuditKeyId] may be [null]. *)
Record SignedAuditQuery : Type := mkSignedQuery {
  aq_requesterDid : string;
  aq_targetAgentDid : string;
  aq_resourceBinding : AuditResourceBinding;
  aq_queryParams : AuditQueryParams;
  aq_snapshotBoundary : option AuditSnapshotBoundary;
  aq_timestamp : string;
  aq_signature : string;
  aq_nonce : option string;
  aq_proofType : option string;
  aq_delegatedAuditKeyId : option (option string) }.

(** The payload that is signed: keys in ascending order. *)
Definition query_params_json (p : AuditQueryParams) : value :=
  VObj (opt_field "action" (VStr <$> qp_action p) ++ opt_field "affectedAgentDid" (VStr <$> qp_affectedAgentDid p)
        ++ opt_field "affectedPrincipalDid" (VStr <$> qp_affectedPrincipalDid p) ++ opt_field "agentDid" (VStr <$> qp_agentDid p)
        ++ opt_field "cursor" (VStr <$> qp_cursor p) ++ opt_field "end" (VStr <$> qp_end p)
        ++ opt_field "limit" (VNum ∘ Fin <$> qp_limit p) ++ opt_field "principalDid" (VStr <$> qp_principalDid p)
        ++ opt_field "sessionId" (VStr <$> qp_sessionId p) ++ opt_field "start" (VStr <$> qp_start p)).
Definition nullable_string (o : option string) : value := match o with Some s => VStr s | None => VNull end.
Definition resource_json (b : AuditResourceBinding) : value :=
  VObj [("recordId", nullable_string (rb_recordId b)); ("route", VStr (route_name (rb_route b)))].
Definition boundary_json (b : AuditSnapshotBoundary) : value :=
  VObj ([("headCreatedAt", VStr (sb_headCreatedAt b))] ++ opt_field "headRecordHash" (VStr <$> sb_headRecordHash b)
        ++ [("headRecordId", VStr (sb_headRecordId b))]).
Definition query_json (q : SignedAuditQuery) : value :=
  VObj (opt_field "delegatedAuditKeyId" (nullable_string <$> aq_delegatedAuditKeyId q) ++ [("httpMethod", VStr "GET")]
        ++ opt_field "nonce" (VStr <$> aq_nonce q) ++ opt_field "proofType" (VStr <$> aq_proofType q)
        ++ [("queryParams", query_params_json (aq_queryParams q)); ("requesterDid", VStr (aq_requesterDid q));
            ("resourceBinding", resource_json (aq_resourceBinding q))]
        ++ opt_field "snapshotBoundary" (boundary_json <$> aq_snapshotBoundary q)
        ++ [("targetAgentDid", VStr (aq_targetAgentDid q)); ("timestamp", VStr (aq_timestamp q))]).

(** ** [parseQueryParams] *)

Definition QUERY_PARAMETERS : list string :=
  ["agent_did"; "principal_did"; "action"; "session_id"; "start"; "end"; "limit"; "cursor"; "affected_agent_did"; "affected_principal_did"].

Definition one (raw : list (string * QueryValue)) (key : string) : option string :=
  match map_get key raw with Some (Q_one s) => Some s | _ => None end.

Definition param_present (v : QueryValue) : bool :=
  match v with Q_one s => negb (bool_decide (s ∈ [""; "null"; "undefined"])) | Q_many _ => false end.

Definition param_where (raw : list (string * QueryValue)) (key : string) (ok : string → bool) : handled (option string) :=
  match one raw key with
  | None => proceed None
  | Some v => if ok v then proceed (Some v) else malformed
  end.

Definition agent_or_governor (v : string) : bool := str_startsWith v "did:agent:" || String.eqb v SESSION_GOVERNOR_DID.

Definition parseQueryParams (raw : list (string * QueryValue)) : handled AuditQueryParams :=
  _ ← well_formed (forallb (λ e, bool_decide (e.1 ∈ QUERY_PARAMETERS)) raw);
  _ ← well_formed (forallb (λ e, param_present e.2) raw);
  agentDid ← param_where raw "agent_did" agent_or_governor;
  principalDid ← param_where raw "principal_did" (λ v, str_startsWith v "did:key:");
  action ← param_where raw "action" (λ v, bool_decide (v ∈ ACTION_VOCABULARY));
  sessionId ← param_where raw "session_id" UUID_V4_PATTERN;
  start ← param_where raw "start" isValidIso8601;
  end_ ← param_where raw "end" isValidIso8601;
  limit ← match one raw "limit" with
          | None => proceed None
          | Some v => match limit_of v with Some n => proceed (Some n) | None => malformed end
          end;
  affectedAgentDid ← param_where raw "affected_agent_did" (λ v, str_startsWith v "did:agent:");
  affectedPrincipalDid ← param_where raw "affected_principal_did" (λ v, str_startsWith v "did:key:");
  mret (mkQueryParams agentDid principalDid action sessionId start end_ limit (one raw "cursor") affectedAgentDid affectedPrincipalDid).

(** ** Access *)

(** The two lanes; the times of verification are left out. *)
Inductive VerifiedAuditRequest : Type :=
| V_business (q : SignedAuditQuery) (resolvedIdentity : AgentIdentityDocument) (identityStatus : agent_status)
| V_control (q : SignedAuditQuery) (metadata : value).
Definition va_query (v : VerifiedAuditRequest) : SignedAuditQuery := match v with V_business q _ _ => q | V_control q _ => q end.

(** [None] allows. *)
Definition AuditAccessDecision : Type := option string.
Definition AuditAccessChecker : Type := VerifiedAuditRequest → res AuditAccessDecision.

Definition forbidden_unless (ok : bool) : AuditAccessDecision := if ok then None else Some "AUDIT_FORBIDDEN".

Definition optional_equals (o : option string) (s : string) : bool := match o with Some x => String.eqb x s | None => true end.

Definition PrincipalAuditAccessChecker : AuditAccessChecker := λ request,
  Ok match request with
     | V_control _ _ => Some "AUDIT_FORBIDDEN"
     | V_business q identity _ =>
         forbidden_unless
           (String.eqb (ad_principalDid identity) (aq_requesterDid q)
            && optional_equals (qp_principalDid (aq_queryParams q)) (aq_requesterDid q)
            && optional_equals (qp_agentDid (aq_queryParams q)) (aq_targetAgentDid q))
     end.

Record ControlPlaneRequesterScope : Type := mkRequesterScope {
  allowedAffectedAgentDids : list string;
  allowedAffectedPrincipalDids : option (list string) }.

Definition ControlPlaneAuditAccessChecker (allowedRequesterScopes : list (string * ControlPlaneRequesterScope)) : AuditAccessChecker := λ request,
  Ok match request with
     | V_business _ _ _ => Some "AUDIT_FORBIDDEN"
     | V_control q _ =>
         match map_get (aq_requesterDid q) allowedRequesterScopes with
         | None => Some "AUDIT_FORBIDDEN"
         | Some scope =>
             forbidden_unless
               (optional_equals (qp_agentDid (aq_queryParams q)) (aq_targetAgentDid q)
                && match qp_affectedAgentDid (aq_queryParams q) with
                   | Some a => bool_decide (a ∈ allowedAffectedAgentDids scope)
                   | None => false
                   end
                && match allowedAffectedPrincipalDids scope with
                   | None => true
                   | Some ps => match qp_affectedPrincipalDid (aq_queryParams q) with
                                | Some p => bool_decide (p ∈ ps)
                                | None => false
                                end
                   end)
         end
     end.

(** A member of the summary that is a string. *)
Definition summary_member (parametersSummary : option value) (key : string) : option string :=
  match parametersSummary with
  | Some (VObj o) => match map_get key o with Some (VStr s) => Some s | _ => None end
  | _ => None
  end.

Definition recordVisibleToScope (parametersSummary : option value) (p : AuditQueryParams) : bool :=
  match qp_affectedAgentDid p, summary_member parametersSummary "affectedAgentDid" with
  | Some wanted, Some found =>
      String.eqb found wanted
      && match qp_affectedPrincipalDid p with
         | None => true
         | Some wanted' => match summary_member parametersSummary "affectedPrincipalDid" with
                           | Some found' => String.eqb found' wanted'
                           | None => false
                           end
         end
  | _, _ => false
  end.

(** ** Nonces *)

Definition NONCE_TTL_MS : Z := 300000.

Definition nonce_checkAndStore (ttlMs : Z) (nonce : string) (now : Z) (store : list (string * Z)) : bool * list (string * Z) :=
  match map_get nonce store with
  | Some existing => if now <? existing then (true, store) else (false, map_set nonce (now + ttlMs) store)
  | None => (false, map_set nonce (now + ttlMs) store)
  end.

Definition nonce_cleanup (now : Z) (store : list (string * Z)) : list (string * Z) := filter (λ e, now < e.2) store.

(** ** What a handler gives *)

Lemma handled_bind_proceed {A B} (f : A → handled B) (m : handled A) b :
  m ≫= f = proceed b ↔ ∃ a, m = proceed a ∧ f a = proceed b.
Proof. destruct m as [a|r|c]; cbn; split; [by exists a|by intros (? & [= ->] & ?)|done|by intros (? & [=] & _)|done|by intros (? & [=] & _)]. Qed.

Lemma demand_proceed b s c u : demand b s c = proceed u ↔ b = true.
Proof. unfold demand. destruct b, u; split; done. Qed.

Lemma attempt_proceed {A} (r : res A) a : attempt r = proceed a ↔ r = Ok a.
Proof. destruct r; cbn; split; congruence. Qed.

(** Early answers are refusals. *)
Definition refuses {A} (h : handled A) : Prop := ∀ r, h = answer r → ∃ status code, r = AR_error status code.

Lemma refuses_proceed {A} (a : A) : refuses (proceed a).
Proof. done. Qed.
Lemma refuses_fails {A} c : refuses (@fails A c).
Proof. done. Qed.
Lemma refuses_ret {A} (a : A) : refuses (mret a).
Proof. done. Qed.
Lemma refuses_error {A} s c : refuses (@sendError A s c).
Proof. intros r [= <-]. by eexists _, _. Qed.
Lemma refuses_malformed {A} : refuses (@malformed A).
Proof. apply refuses_error. Qed.
Lemma refuses_demand b s c : refuses (demand b s c).
Proof. destruct b; [done|apply refuses_error]. Qed.
Lemma refuses_attempt {A} (r : res A) : refuses (attempt r).
Proof. by destruct r. Qed.
Lemma refuses_bind {A B} (m : handled A) (f : A → handled B) : refuses m → (∀ a, refuses (f a)) → refuses (m ≫= f).
Proof. intros Hm Hf. destruct m as [a|r|c]; cbn; [apply Hf|intros r' [= <-]; by apply Hm|done]. Qed.

Create HintDb refusals.
#[export] Hint Resolve refuses_proceed refuses_fails refuses_ret refuses_error refuses_malformed refuses_demand refuses_attempt refuses_bind : refusals.
Ltac refusals :=
  repeat (first [ progress intros
                | apply refuses_bind
                | match goal with
                  | |- refuses (if ?b then _ else _) => destruct b
                  | |- refuses (match ?x with _ => _ end) => destruct x
                  | |- refuses (let '(_, _) := ?x in _) => destruct x
                  end
                | solve [eauto with refusals] ]).

(** ** Round trips *)

Lemma pretty_digit x : (x < 10)%N → radix_digit 10 (pretty_N_char x) = Some (Z.of_N x).
Proof.
  intros Hx. assert (x = 0 ∨ x = 1 ∨ x = 2 ∨ x = 3 ∨ x = 4 ∨ x = 5 ∨ x = 6 ∨ x = 7 ∨ x = 8 ∨ x = 9)%N as Hc by lia.
  repeat destruct Hc as [->|Hc]; [reflexivity..|]. by subst x.
Qed.

Lemma pretty_go x : ∃ k : Z, ∀ s acc, radix_from 10 acc (chars (pretty_N_go x s)) = radix_from 10 (acc * k + Z.of_N x) (chars s).
Proof.
  induction (N.lt_wf_0 x) as [x _ IH]. destruct (decide (x = 0%N)) as [->|Hx].
  - exists 1. intros s acc. rewrite pretty_N_go_0. f_equal. lia.
  - destruct (IH (x / 10)%N) as [k Hk]; [apply N.div_lt; lia|]. exists (10 * k). intros s acc.
    rewrite pretty_N_go_step by lia. rewrite Hk. cbn [chars]. cbn [radix_from]. rewrite pretty_digit by (apply N.mod_lt; lia). cbn [mbind option_bind].
    f_equal. rewrite N2Z.inj_div, N2Z.inj_mod. pose proof (Z.div_mod (Z.of_N x) (Z.of_N 10)). lia.
Qed.

Lemma pretty_radix n : 0 < n → radix_value 10 (chars (pretty n)) = Some n.
Proof.
  intros Hn. destruct n as [|p|p]; [lia| |lia]. change (pretty (Z.pos p)) with (pretty_N_go (N.pos p) "").
  destruct (pretty_go (N.pos p)) as [k Hk]. pose proof (Hk "" 0) as H0. unfold radix_value.
  destruct (chars (pretty_N_go (N.pos p) "")) as [|c l] eqn:E; [cbn in H0; injection H0; lia|]. exact H0.
Qed.

Lemma decimal_digit c d : radix_digit 10 c = Some d → is_digit c = true.
Proof. destruct c as [[] [] [] [] [] [] [] []]; vm_compute; done. Qed.

Lemma decimal_digits acc l n : radix_from 10 acc l = Some n → Forall (λ c, is_digit c = true) l.
Proof.
  revert acc. induction l as [|c l IH]; intros acc; cbn [radix_from]; [constructor|].
  destruct (radix_digit 10 c) as [d|] eqn:E; [|done]. cbn. intros Hl. constructor; [by apply decimal_digit in E|by eapply IH].
Qed.

Lemma digit_plain c : is_digit c = true →
  is_space c = false ∧ Ascii.eqb (to_lower c) "x" = false ∧ Ascii.eqb (to_lower c) "o" = false ∧ Ascii.eqb (to_lower c) "b" = false
  ∧ Ascii.eqb c "-" = false ∧ Ascii.eqb c "+" = false ∧ Ascii.eqb c "|" = false.
Proof. destruct c as [[] [] [] [] [] [] [] []]; vm_compute; done. Qed.

Lemma trim_digits l : Forall (λ c, is_digit c = true) l → trim l = l.
Proof.
  intros Hl. set (skip := fix skip l := match l with c :: l' => if is_space c then skip l' else l | [] => [] end).
  assert (∀ l, Forall (λ c, is_digit c = true) l → skip l = l) as Hs.
  { intros k Hk. destruct Hk as [|c k Hc _]; [done|]. cbn. by rewrite (proj1 (digit_plain c Hc)). }
  change (trim l) with (reverse (skip (reverse (skip l)))). rewrite (Hs l Hl), Hs, reverse_involutive; [done|]. by apply Forall_reverse.
Qed.

Lemma BigInt_pretty n : 0 < n → BigInt_of (pretty n) = Some n.
Proof.
  intros Hn. pose proof (pretty_radix n Hn) as Hr. unfold BigInt_of.
  assert (∃ c l, chars (pretty n) = c :: l) as (c & l & E) by (destruct (chars (pretty n)) as [|c l]; [done|by eexists _, _]).
  rewrite E in *. pose proof (decimal_digits _ _ _ Hr) as Hd. rewrite trim_digits by done. apply Forall_cons in Hd as [Hc Hl].
  destruct (digit_plain c Hc) as (_ & _ & _ & _ & Hm & Hp & _).
  assert (prefixed_literal (c :: l) = None) as ->.
  { unfold prefixed_literal. destruct l as [|c' l]; [done|]. destruct (negb _); [done|]. apply Forall_cons in Hl as [Hc' _].
    by destruct (digit_plain c' Hc') as (_ & -> & -> & -> & _). }
  unfold signed. rewrite Hm, Hp, Hr. cbn. f_equal. lia.
Qed.

Lemma split_bar_app a b : Forall (λ c, Ascii.eqb c "|" = false) a → split_bar (a ++ "|"%char :: b) = Some (a, b).
Proof. intros Ha. induction Ha as [|c a Hc _ IH]; [done|]. cbn. by rewrite Hc, IH. Qed.

Lemma text_of_encode s : text_of (textEncode s) = s.
Proof.
  unfold text_of, textEncode. rewrite <- list_fmap_compose. transitivity (str (chars s)); [|apply str_chars]. f_equal.
  rewrite <- (list_fmap_id (chars s)) at 2. apply list_fmap_ext. intros _ c _. cbn. by rewrite N2Z.id, ascii_N_embedding.
Qed.

Lemma textEncode_bytes s : Forall is_byte (textEncode s).
Proof. apply Forall_fmap, Forall_forall. intros c _. unfold is_byte. cbn. pose proof (N_ascii_bounded c). lia. Qed.

Lemma iso_no_bar t : iso_range t → Forall (λ c, Ascii.eqb c "|" = false) (chars (toISOString t)).
Proof.
  intros [Hp _]%iso_range_year%getTime_print. unfold timestampPattern in Hp. destruct (timestamp_fields _) as [f|] eqn:E; [|done].
  apply timestamp_template in E as [E _]. change (String.list_ascii_of_string (toISOString t)) with (chars (toISOString t)) in E.
  assert (Forall (λ c, Ascii.eqb c "|" = false) (String.list_ascii_of_string "0000-00-00T00:00:00.000Z")) as Ht by (repeat constructor).
  revert Ht. induction E as [|a b la lb Hab _ IH]; intros Ht; [constructor|]. apply Forall_cons in Ht as [Hb Ht]. constructor; [|by apply IH].
  destruct Hab as [[Ha _]|[-> _]]; [|done]. by destruct (digit_plain a Ha) as (_ & _ & _ & _ & _ & _ & ?).
Qed.

Lemma iso_valid t : iso_range t → isValidIso8601 (toISOString t) = true ∧ pg_instant (toISOString t) = Ok t.
Proof.
  intros Hr. pose proof (iso_range_year t Hr) as Hy. destruct (getTime_print t Hy) as [Hp Ht]. unfold isValidIso8601, pg_instant.
  rewrite Hp, Ht, String.eqb_refl. split; [done|].
  assert (str_startsWith (toISOString t) "0000" = false) as ->; [|done].
  assert (1970 <= f_year (fields_of_time t)) as Hy'.
  { unfold fields_of_time. cbn [f_year]. destruct (YearFromDay_spec (Day t)) as [_ H2]. set (y := YearFromDay (Day t)) in *.
    destruct (decide (y < 1970)); [|lia]. pose proof (DayFromYear_mono (y + 1) 1970 ltac:(lia)). vm_compute (DayFromYear 1970) in *.
    destruct Hr. unfold Day, msPerDay in *. Z.div_mod_to_equations. lia. }
  unfold toISOString, print4, print2. cbn [app String.string_of_list_ascii str_startsWith String.prefix].
  destruct (ascii_dec _ _) as [E|]; [|done]. exfalso. apply (f_equal digit_val) in E.
  destruct (digit_ascii_digit (f_year (fields_of_time t) / 100 / 10)) as [_ Ed]; [Z.div_mod_to_equations; lia|].
  rewrite Ed in E. vm_compute (digit_val "0") in E. Z.div_mod_to_equations. lia.
Qed.

(** A cursor is read back as the position it was made of. *)
Lemma cursor_roundtrip t id : iso_range t → 0 < id → decodeCursor (encodeCursor (toISOString t) id) = Some (toISOString t, pretty id).
Proof.
  intros Ht Hid. unfold encodeCursor, decodeCursor, toBase64Url. set (text := toISOString t +:+ "|" +:+ pretty id).
  pose proof (b64_encode_table (textEncode text) (textEncode_bytes _)) as Htab.
  assert (chars (toISOString t) ≠ [] ∧ chars (pretty id) ≠ []) as [Hn1 Hn2].
  { split; [by unfold toISOString; rewrite String.list_ascii_of_string_of_list_ascii|]. intros E. pose proof (pretty_radix id Hid) as Hr. by rewrite E in Hr. }
  assert (hash_charset (str (b64_encode (textEncode text))) = true) as ->.
  { unfold hash_charset. apply andb_true_iff. split.
    - apply negb_true_iff, String.eqb_neq. intros E. apply (f_equal String.length) in E. rewrite str_length in E. cbn in E.
      pose proof (b64_roundtrip (textEncode text) (textEncode_bytes _)) as Hb. destruct (b64_encode (textEncode text)); [|done].
      cbn in Hb. apply (f_equal length) in Hb. unfold textEncode in Hb. rewrite length_fmap, length_chars in Hb. unfold text in Hb.
      rewrite <- length_chars, chars_app in Hb. destruct (chars (toISOString t)); done.
    - induction Htab as [|c l [Hc _] _ IH]; [done|]. cbn. by rewrite Hc. }
  cbn [negb]. rewrite chars_str, b64_roundtrip by apply textEncode_bytes. rewrite text_of_encode. unfold text. rewrite !chars_app.
  change (chars "|" ++ chars (pretty id)) with ("|"%char :: chars (pretty id)). rewrite split_bar_app by by apply iso_no_bar.
  destruct (chars (toISOString t)) as [|a la] eqn:Ea; [done|]. destruct (chars (pretty id)) as [|b lb] eqn:Eb; [done|].
  rewrite <- Ea, <- Eb, !str_chars. done.
Qed.
