(* ===== verification/AuditRoutes.v ===== *)
(** * The audit routes

    Models packages/policy/src/recorder/action-record-routes.ts over the data of
    AuditQuery.v: the existence guard, the middleware that authenticates a
    query, the handlers of the five routes, and the two routes that give the
    head of a ledger.

    The table policy.action_records is the list of its rows by ascending id.
    Each statement of a request reads a table of its own, since rows are
    committed while the request runs.  The identity store and the checkers are
    those of the options. *)
From stdpp Require Import pretty.
From S2P Require Import Prelude JsValue Time Encoding Crypto Authorization SignedPayload ActionRecords ActionRecorder Identity Registry AuditQuery.
Open Scope Z_scope.

(** ** The table *)

Abbreviation entry := (Z * Row)%type.
Abbreviation table := (list entry).

Definition entry_le (a b : entry) : Prop := created_at a.2 < created_at b.2 ∨ (created_at a.2 = created_at b.2 ∧ a.1 <= b.1).
#[export] Instance entry_le_dec a b : Decision (entry_le a b).
Proof. unfold entry_le. apply _. Defined.

(** [WHERE ... ORDER BY created_at ASC, id ASC] *)
Definition in_order (where_ : entry → bool) (t : table) : table := merge_sort entry_le (filter (λ e, where_ e = true) t).

(** [column->>'key']: NULL for [null] and absent members, and the JSON text of
    anything that is not a string. *)
Section routes.
Context `{Primitives} (json_text : value → string).

Definition arrow_text (column : option value) (key : string) : option string :=
  match column with
  | Some (VObj o) =>
      match map_get key o with
      | Some (VStr s) => Some s
      | None | Some VNull | Some VUndefined => None
      | Some v => Some (json_text v)
      end
  | _ => None
  end.
Definition column_is (c : option string) (v : option string) : bool :=
  match v with Some s => match c with Some x => String.eqb x s | None => false end | None => true end.

(** ** The options of the routes *)

Record IdentityStoreForAudit : Type := mkIdentityStore {
  resolveForAudit : string → res (option (AgentIdentityDocument * agent_status));
  resolveControlPlaneForAudit : option (string → res (option value)) }.

Definition RegistryAuditStore (registry : agents) (now : string) (controlPlaneResolver : option (string → res (option value)))
    : IdentityStoreForAudit :=
  mkIdentityStore (λ did, queryForAudit did now registry) controlPlaneResolver.

Record RouteOptions : Type := mkRouteOptions {
  ro_identityStore : IdentityStoreForAudit;
  ro_ledgerPublicKey : string;
  ro_checker : option AuditAccessChecker;
  ro_controlPlaneChecker : option AuditAccessChecker;
  ro_resolveControlPlanePublicKey : option (string → res (option string));
  ro_documentHistory : string → res (list AgentIdentityDocument) }.

(** ** The existence guard *)

(** The flag [recordNotFound] is [None]. *)
Definition recordExistenceGuard (t : table) (rq : Request) : handled (option entry) :=
  let recordId := default "" (rq_id rq) in
  _ ← well_formed (UUID_V4_PATTERN recordId);
  mret (list_find (λ e : entry, record_id e.2 = recordId) t ≫= λ x, Some x.2).

(** ** The middleware *)

(** Headers of which a request has more than one value are refused. *)
Definition no_duplicates (names : list string) (rq : Request) : bool :=
  forallb (λ n, match map_get n (rq_headers rq) with Some (_ :: _ :: _) => false | _ => true end) names.
(** A header that is there and not empty. *)
Definition header (rq : Request) (name : string) : option string :=
  match map_get name (rq_headers rq) with Some [v] => if non_empty v then Some v else None | _ => None end.
Definition required_header (rq : Request) (name : string) : handled string :=
  match header rq name with Some v => proceed v | None => malformed end.

Definition AUDIT_HEADERS : list string :=
  ["x-audit-requester"; "x-audit-signature"; "x-audit-timestamp"; "x-audit-snapshot-headcreatedat";
   "x-audit-snapshot-headrecordid"; "x-audit-snapshot-headrecordhash"].

(** Step 5: the anchor among the rows of the target. *)
Definition find_anchor (headRecordId targetAgentDid : string) (createdAt : Z) (t : table) : option entry :=
  snd <$> list_find (λ e : entry, record_id e.2 = headRecordId ∧ agent_did e.2 = targetAgentDid ∧ created_at e.2 = createdAt) t.

Definition MAX_SKEW_MS : Z := 300000.
Definition within_skew (timestamp : string) (now : Z) : bool :=
  match getTime timestamp with Some t => Z.abs (now - t) <=? MAX_SKEW_MS | None => true end.

(** The status of a refusal by a checker. *)
Definition decision_status (code : string) : Z :=
  if String.eqb code "AUDIT_FORBIDDEN" then 403 else if String.eqb code "AUDIT_QUERY_MALFORMED" then 400 else 500.
Definition decide_access (checker : AuditAccessChecker) (v : VerifiedAuditRequest) : handled unit :=
  decision ← attempt (checker v);
  match decision with None => proceed tt | Some code => sendError (decision_status code) code end.

(** Steps 8 to 10: the window, the key and the signature. *)
Definition authenticate (q : SignedAuditQuery) (now : Z) : handled unit :=
  _ ← demand (within_skew (aq_timestamp q) now) 401 "AUDIT_TIMESTAMP_SKEW";
  publicKey ← match extractPublicKeyFromDIDKey (aq_requesterDid q) with
              | Ok k => proceed k
              | Throw _ => sendError 401 "AUDIT_REQUESTER_UNKNOWN"
              end;
  canonical ← attempt (canonicalize jcs (query_json q));
  sigValid ← attempt (verify (textEncode canonical) (aq_signature q) publicKey);
  demand sigValid 401 "AUDIT_SIGNATURE_INVALID".

(** The governor lane. *)
Definition control_lane (O : RouteOptions) (q : SignedAuditQuery) : handled VerifiedAuditRequest :=
  match resolveControlPlaneForAudit (ro_identityStore O), ro_controlPlaneChecker O with
  | Some resolve, Some checker =>
      cpResolution ← attempt (resolve (aq_targetAgentDid q));
      match cpResolution with
      | None => sendError 404 "IDENTITY_NOT_FOUND"
      | Some metadata =>
          let v := V_control q metadata in
          _ ← decide_access checker v; mret v
      end
  | _, _ => sendError 403 "AUDIT_FORBIDDEN"
  end.

(** Steps 11 to 13: the business lane. *)
Definition business_lane (store : IdentityStoreForAudit) (checker : AuditAccessChecker) (q : SignedAuditQuery) : handled VerifiedAuditRequest :=
  match resolveForAudit store (aq_targetAgentDid q) with
  | Throw code => if String.eqb code "BINDING_PROOF_INVALID" then sendError 401 "AUDIT_IDENTITY_UNVERIFIED" else fails code
  | Ok None => sendError 404 "IDENTITY_NOT_FOUND"
  | Ok (Some (document, status)) =>
      let v := V_business q document status in
      _ ← decide_access checker v; mret v
  end.

(** Step 3: the agent whose records are asked for.  [record] is what the guard
    found, when the route has one. *)
Definition target_agent (record : option (option entry)) (rq : Request) : handled string :=
  match record with
  | Some (Some e) => proceed (agent_did e.2)
  | _ => match one (rq_query rq) "agent_did" with
         | Some v => if agent_or_governor v then proceed v else malformed
         | None => malformed
         end
  end.

(** The verified request and [snapshotMaxId]. *)
Definition auditMiddleware (O : RouteOptions) (routeName : Route) (record : option (option entry)) (t : table) (now : Z) (rq : Request)
    : handled (VerifiedAuditRequest * Z) :=
  _ ← well_formed (no_duplicates AUDIT_HEADERS rq);
  requesterDid ← required_header rq "x-audit-requester";
  signature ← required_header rq "x-audit-signature";
  timestamp ← required_header rq "x-audit-timestamp";
  headCreatedAt ← required_header rq "x-audit-snapshot-headcreatedat";
  headRecordId ← required_header rq "x-audit-snapshot-headrecordid";
  _ ← well_formed (isValidIso8601 timestamp);
  _ ← well_formed (isValidIso8601 headCreatedAt);
  targetAgentDid ← target_agent record rq;
  queryParams ← parseQueryParams (rq_query rq);
  _ ← demand (UUID_V4_PATTERN headRecordId) 400 "AUDIT_SNAPSHOT_BOUNDARY_VIOLATED";
  createdAt ← attempt (pg_instant headCreatedAt);
  match find_anchor headRecordId targetAgentDid createdAt t with
  | None => sendError 400 "AUDIT_SNAPSHOT_BOUNDARY_VIOLATED"
  | Some anchor =>
      let headRecordHash := header rq "x-audit-snapshot-headrecordhash" in
      _ ← demand (optional_equals headRecordHash (record_hash anchor.2)) 400 "AUDIT_SNAPSHOT_BOUNDARY_VIOLATED";
      _ ← demand (negb (num_gtb (dateNum headCreatedAt) (dateNum timestamp))) 400 "AUDIT_SNAPSHOT_BOUNDARY_VIOLATED";
      let q := mkSignedQuery requesterDid targetAgentDid (mkBinding routeName (rq_id rq)) queryParams
                 (Some (mkBoundary headCreatedAt headRecordId headRecordHash)) timestamp signature None None None in
      _ ← authenticate q now;
      v ← (if String.eqb targetAgentDid SESSION_GOVERNOR_DID then control_lane O q
           else business_lane (ro_identityStore O) (default PrincipalAuditAccessChecker (ro_checker O)) q);
      mret (v, anchor.1)
  end.

(** ** GET /records *)

Definition filters (targetAgentDid : string) (snapshotMaxId : Z) (p : AuditQueryParams) (start end_ : option Z) (e : entry) : bool :=
  let r := e.2 in
  String.eqb (agent_did r) targetAgentDid && (e.1 <=? snapshotMaxId)
  && column_is (Some (principal_did r)) (qp_principalDid p) && column_is (Some (action_type r)) (qp_action p)
  && column_is (session_id r) (qp_sessionId p)
  && match start with Some x => x <=? created_at r | None => true end
  && match end_ with Some x => created_at r <=? x | None => true end
  && column_is (arrow_text (parameters_summary r) "affectedAgentDid") (qp_affectedAgentDid p)
  && column_is (arrow_text (parameters_summary r) "affectedPrincipalDid") (qp_affectedPrincipalDid p).

Definition opt_instant (o : option string) : res (option Z) := match o with Some s => t ← pg_instant s; mret (Some t) | None => mret None end.

(** [$n] of type bigint. *)
Definition pg_bigint (n : Z) : res Z := if (- 2 ^ 63 <=? n) && (n <? 2 ^ 63) then Ok n else Throw "22003".

(** The position after which a page starts. *)
Definition read_cursor (cursor : option string) : handled (option (Z * Z)) :=
  match cursor with
  | None => proceed None
  | Some c =>
      match decodeCursor c with
      | None => malformed
      | Some (ts, id) =>
          _ ← well_formed (isValidIso8601 ts);
          match BigInt_of id with
          | None => malformed
          | Some n => t ← attempt (pg_instant ts); n ← attempt (pg_bigint n); mret (Some (t, n))
          end
      end
  end.
Definition after_position (c : option (Z * Z)) (e : entry) : bool :=
  match c with
  | None => true
  | Some (t, n) => (t <? created_at e.2) || ((t =? created_at e.2) && (n <? e.1))
  end.

Definition DEFAULT_LIMIT : Z := 100.

Definition handleList (v : VerifiedAuditRequest) (snapshotMaxId : Z) (t : table) : handled AuditResponse :=
  let q := va_query v in
  let p := aq_queryParams q in
  position ← read_cursor (qp_cursor p);
  start ← attempt (opt_instant (qp_start p));
  end_ ← attempt (opt_instant (qp_end p));
  let limit := Z.to_nat (default DEFAULT_LIMIT (qp_limit p)) in
  let rows := take (S limit) (in_order (λ e, filters (aq_targetAgentDid q) snapshotMaxId p start end_ e && after_position position e) t) in
  let hasMore := Nat.ltb limit (length rows) in
  let pageRows := if hasMore then take limit rows else rows in
  let nextCursor := if hasMore then match last pageRows with
                                    | Some e => Some (encodeCursor (toISOString (created_at e.2)) e.1)
                                    | None => None
                                    end
                    else None in
  mret (AR_list (snd <$> pageRows) nextCursor).

(** ** GET /records/:id *)

Definition assertControlPlaneRowScope (v : VerifiedAuditRequest) (r : Row) : handled unit :=
  match v with
  | V_business _ _ _ => proceed tt
  | V_control q _ => demand (recordVisibleToScope (parameters_summary r) (aq_queryParams q)) 404 "NOT_FOUND"
  end.

(** The checks that both handlers of a record start with. *)
Definition found_record (v : VerifiedAuditRequest) (snapshotMaxId : Z) (record : option entry) : handled Row :=
  match record with
  | None => sendError 404 "NOT_FOUND"
  | Some (id, r) =>
      _ ← demand (String.eqb (agent_did r) (aq_targetAgentDid (va_query v))) 400 "AUDIT_RESOURCE_BINDING_MISMATCH";
      _ ← demand (id <=? snapshotMaxId) 404 "NOT_FOUND";
      mret r
  end.

Definition handleGet (v : VerifiedAuditRequest) (snapshotMaxId : Z) (record : option entry) : handled AuditResponse :=
  r ← found_record v snapshotMaxId record;
  _ ← assertControlPlaneRowScope v r;
  mret (AR_record r).

(** ** GET /records/:id/verify *)

Definition push_key (key : option string) (seen : list string) : list string :=
  match key with
  | Some k => if non_empty k && negb (bool_decide (k ∈ seen)) then seen ++ [k] else seen
  | None => seen
  end.
Definition push_keys (seen : list string) (doc : AgentIdentityDocument) : list string :=
  push_key (ad_previousPublicKey doc) (push_key (Some (ad_publicKey doc)) seen).
Definition collectActorPublicKeyCandidates (currentDoc : AgentIdentityDocument) (history : list AgentIdentityDocument) : list string :=
  foldl push_keys (push_keys [] currentDoc) history.

(** [candidates.some(...)] *)
Fixpoint some_key (payload : value) (signature : string) (candidates : list string) : res bool :=
  match candidates with
  | [] => mret false
  | k :: rest => ok ← verifyRecordSignature payload signature k; if ok : bool then mret true else some_key payload signature rest
  end.

Definition failing (name : string) (valid : bool) (reason : string) : CheckResult := mkCheck name valid (if valid then None else Some reason).

Definition check_hash (r : Row) : handled CheckResult :=
  if negb (hash_charset (record_hash r)) then fails "INTERNAL_ERROR"
  else
    expectedHash ← attempt (computeRecordHash (buildUnsignedRecordPayload r) (previous_record_hash r) (detectEncoding (record_hash r)));
    mret (failing "record_hash" (String.eqb (record_hash r) expectedHash) "computed hash does not match stored hash").

Definition check_ledger (ledgerPublicKey : string) (r : Row) : handled CheckResult :=
  valid ← attempt (verifyRecordSignature (buildUnsignedRecordPayload r) (ledger_signature r) ledgerPublicKey);
  mret (failing "ledger_signature" valid "ledger signature invalid").

Definition verdict_of (checks : list CheckResult) : AuditResponse := AR_verify (forallb ck_valid checks) checks.

Definition verifyControlPlaneRecord (r : Row) (ledgerPublicKey : string) (resolve : string → res (option string)) : handled AuditResponse :=
  hash ← check_hash r;
  controlPlanePublicKey ← attempt (resolve (agent_did r));
  actor ← match controlPlanePublicKey with
          | None | Some "" => proceed (mkCheck "actor_signature" false (Some "control-plane public key unavailable"))
          | Some k => valid ← attempt (verifyRecordSignature (buildUnsignedRecordPayload r) (actor_signature r) k);
                      mret (failing "actor_signature" valid "actor signature invalid")
          end;
  ledger ← check_ledger ledgerPublicKey r;
  mret (verdict_of [hash; actor; ledger]).

Definition verifyBusinessRecord (O : RouteOptions) (resolvedIdentity : AgentIdentityDocument) (r : Row) : handled AuditResponse :=
  hash ← check_hash r;
  history ← attempt (ro_documentHistory O (agent_did r));
  actor ← match collectActorPublicKeyCandidates resolvedIdentity history with
          | [] => proceed (mkCheck "actor_signature" false (Some "unable to resolve historical public key"))
          | candidates =>
              valid ← attempt (some_key (buildUnsignedRecordPayload r) (actor_signature r) candidates);
              mret (failing "actor_signature" valid
                      (if Nat.leb 2 (length history) then "historical_key_unavailable" else "actor signature invalid"))
          end;
  ledger ← check_ledger (ro_ledgerPublicKey O) r;
  mret (verdict_of [hash; actor; ledger]).

Definition handleVerify (O : RouteOptions) (v : VerifiedAuditRequest) (snapshotMaxId : Z) (record : option entry) : handled AuditResponse :=
  r ← found_record v snapshotMaxId record;
  match v with
  | V_business _ identity _ => verifyBusinessRecord O identity r
  | V_control _ _ =>
      match ro_resolveControlPlanePublicKey O with
      | None => sendError 403 "AUDIT_FORBIDDEN"
      | Some resolve => _ ← assertControlPlaneRowScope v r; verifyControlPlaneRecord r (ro_ledgerPublicKey O) resolve
      end
  end.

(** ** GET /records/chain/verify *)

Definition CHAIN_VERIFY_MAX_RECORDS : Z := 10000.

Fixpoint chain_links (count : nat) (expectedPrev : string) (rows : list Row) : handled AuditResponse :=
  match rows with
  | [] => mret (AR_chain_valid count)
  | r :: rest =>
      if negb (String.eqb (previous_record_hash r) expectedPrev)
      then mret (AR_chain_broken (record_id r) previous_record_hash_mismatch count)
      else if negb (hash_charset (record_hash r)) then fails "INTERNAL_ERROR"
      else
        expectedHash ← attempt (computeRecordHash (buildUnsignedRecordPayload r) (previous_record_hash r) (detectEncoding (record_hash r)));
        if negb (String.eqb (record_hash r) expectedHash) then mret (AR_chain_broken (record_id r) record_hash_mismatch count)
        else chain_links count (record_hash r) rest
  end.

(** The first row of the agent: the ids ascend. *)
Definition genesis (targetAgentDid : string) (snapshotMaxId : Z) (t : table) : option entry :=
  head (filter (λ e : entry, agent_did e.2 = targetAgentDid ∧ e.1 <= snapshotMaxId) t).

(** [t1] is read for the first record and [t2] for the window. *)
Definition handleChainVerify (v : VerifiedAuditRequest) (snapshotMaxId : Z) (t1 t2 : table) : handled AuditResponse :=
  match v with
  | V_control _ _ => sendError 403 "AUDIT_FORBIDDEN"
  | V_business q _ _ =>
      let p := aq_queryParams q in
      _ ← match qp_start p, genesis (aq_targetAgentDid q) snapshotMaxId t1 with
          | Some start, Some g => well_formed (negb (str_ltb (toISOString (created_at g.2)) start))
          | _, _ => proceed tt
          end;
      start ← attempt (opt_instant (qp_start p));
      end_ ← attempt (opt_instant (qp_end p));
      let window (e : entry) :=
        String.eqb (agent_did e.2) (aq_targetAgentDid q) && (e.1 <=? snapshotMaxId)
        && match start with Some x => x <=? created_at e.2 | None => true end
        && match end_ with Some x => created_at e.2 <=? x | None => true end in
      let rows := take (Z.to_nat (CHAIN_VERIFY_MAX_RECORDS + 1)) (in_order window t2) in
      _ ← well_formed (Z.of_nat (length rows) <=? CHAIN_VERIFY_MAX_RECORDS);
      chain_links (length rows) "" (snd <$> rows)
  end.

(** ** GET /ledger/head, which is not signed *)

Definition head_of (agentDid : string) (e : entry) : AuditResponse :=
  AR_head (mkHead agentDid (record_id e.2) (toISOString (created_at e.2)) (record_hash e.2)).

Definition ledgerHead (t : table) (rq : Request) : handled AuditResponse :=
  match one (rq_query rq) "agent_did" with
  | None => malformed
  | Some agentDid =>
      if String.eqb agentDid "" then malformed
      else if String.eqb agentDid SESSION_GOVERNOR_DID then sendError 403 "AUDIT_FORBIDDEN"
      else if negb (str_startsWith agentDid "did:agent:") then malformed
      else match last (filter (λ e : entry, agent_did e.2 = agentDid) t) with
           | None => sendError 404 "NOT_FOUND"
           | Some e => mret (head_of agentDid e)
           end
  end.

(** ** GET /audit/ledger/head *)

Definition HEAD_HEADERS : list string := ["x-audit-requester"; "x-audit-signature"; "x-audit-timestamp"].

Definition ledgerHeadMiddleware (O : RouteOptions) (now : Z) (rq : Request) : handled VerifiedAuditRequest :=
  _ ← well_formed (no_duplicates HEAD_HEADERS rq);
  requesterDid ← required_header rq "x-audit-requester";
  signature ← required_header rq "x-audit-signature";
  timestamp ← required_header rq "x-audit-timestamp";
  _ ← well_formed (isValidIso8601 timestamp);
  _ ← well_formed (match one (rq_query rq) "agent_did" with Some v => String.eqb v SESSION_GOVERNOR_DID | None => false end);
  queryParams ← parseQueryParams (rq_query rq);
  let q := mkSignedQuery requesterDid SESSION_GOVERNOR_DID (mkBinding ledger_head None) queryParams None timestamp signature None None None in
  _ ← authenticate q now;
  control_lane O q.

Definition BOOTSTRAP_TOKEN_TTL_MS : Z := 300000.

Record Anchor : Type := mkAnchor { an_id : Z; an_expiresAt : Z }.

Definition live_anchor (key : string) (now : Z) (c : list (string * Anchor)) : option Z :=
  match map_get key c with Some a => if now <? an_expiresAt a then Some (an_id a) else None | None => None end.

Definition getOrCacheAnchor (key : string) (fresh now : Z) (c : list (string * Anchor)) : Z * list (string * Anchor) :=
  match live_anchor key now c with
  | Some id => (id, c)
  | None =>
      let c := if Nat.ltb 100 (length c) then filter (λ e, now < an_expiresAt e.2) c else c in
      (fresh, map_set key (mkAnchor fresh (now + BOOTSTRAP_TOKEN_TTL_MS)) c)
  end.

Definition subject_rows (p : AuditQueryParams) (affectedAgentDid : string) (t : table) : table :=
  filter (λ e : entry, (String.eqb (agent_did e.2) SESSION_GOVERNOR_DID
                && column_is (arrow_text (parameters_summary e.2) "affectedAgentDid") (Some affectedAgentDid)
                && column_is (arrow_text (parameters_summary e.2) "affectedPrincipalDid") (qp_affectedPrincipalDid p)) = true) t.

Definition head_key (q : SignedAuditQuery) (affectedAgentDid : string) : string :=
  aq_requesterDid q +:+ "|" +:+ affectedAgentDid +:+ "|" +:+ default "" (qp_affectedPrincipalDid (aq_queryParams q)).

(** The cache is read, then, after the query of the greatest id in [t1], read
    and written again; [between] is what other requests do to it meanwhile. *)
Definition signedLedgerHead (v : VerifiedAuditRequest) (now now' : Z) (t1 t2 : table) (between : list (string * Anchor) → list (string * Anchor))
    (c : list (string * Anchor)) : handled AuditResponse * list (string * Anchor) :=
  match v with
  | V_business _ _ _ => (sendError 500 "INTERNAL_ERROR", c)
  | V_control q _ =>
      match qp_affectedAgentDid (aq_queryParams q) with
      | None => (sendError 403 "AUDIT_FORBIDDEN", c)
      | Some affectedAgentDid =>
          let key := head_key q affectedAgentDid in
          let subject := subject_rows (aq_queryParams q) affectedAgentDid in
          let '(anchor, c) :=
            match live_anchor key now c with
            | Some id => (Some id, c)
            | None => match last (subject t1) with
                      | None => (None, between c)
                      | Some e => let '(id, c) := getOrCacheAnchor key e.1 now' (between c) in (Some id, c)
                      end
            end in
          (match anchor with
           | None => sendError 404 "NOT_FOUND"
           | Some anchorId =>
               match last (filter (λ e : entry, e.1 <= anchorId) (subject t2)) with
               | None => sendError 404 "NOT_FOUND"
               | Some e => mret (head_of SESSION_GOVERNOR_DID e)
               end
           end, c)
      end
  end.

(** ** [registerActionRecordRoutes] *)

Definition to_response (h : handled AuditResponse) : res AuditResponse :=
  match h with proceed r => Ok r | answer r => Ok r | fails c => Throw c end.

Definition get_records (O : RouteOptions) (t1 t2 : table) (now : Z) (rq : Request) : res AuditResponse :=
  to_response ('(v, maxId) ← auditMiddleware O records_list None t1 now rq; handleList v maxId t2).

Definition get_chain_verify (O : RouteOptions) (t1 t2 t3 : table) (now : Z) (rq : Request) : res AuditResponse :=
  to_response ('(v, maxId) ← auditMiddleware O records_chain_verify None t1 now rq; handleChainVerify v maxId t2 t3).

Definition get_record_verify (O : RouteOptions) (t1 t2 : table) (now : Z) (rq : Request) : res AuditResponse :=
  to_response (record ← recordExistenceGuard t1 rq;
         '(v, maxId) ← auditMiddleware O records_verify (Some record) t2 now rq; handleVerify O v maxId record).

Definition get_record (O : RouteOptions) (t1 t2 : table) (now : Z) (rq : Request) : res AuditResponse :=
  to_response (record ← recordExistenceGuard t1 rq;
         '(v, maxId) ← auditMiddleware O records_get (Some record) t2 now rq; handleGet v maxId record).

Definition get_ledger_head (t : table) (rq : Request) : res AuditResponse := to_response (ledgerHead t rq).

Definition get_audit_head (O : RouteOptions) (now now' now'' : Z) (t1 t2 : table) (between : list (string * Anchor) → list (string * Anchor)) (rq : Request)
    : M (list (string * Anchor)) AuditResponse := λ c,
  match ledgerHeadMiddleware O now rq with
  | proceed v => let '(h, c') := signedLedgerHead v now' now'' t1 t2 between c in (to_response h, c')
  | answer r => (Ok r, c)
  | fails code => (Throw code, c)
  end.
End routes.

(** ** Order *)

#[export] Instance entry_le_trans : Transitive entry_le.
Proof. intros a b c. unfold entry_le. lia. Qed.
#[export] Instance entry_le_total : Total entry_le.
Proof. intros a b. unfold entry_le. lia. Qed.

(** Ids ascend. *)
Definition table_ok (t : table) : Prop := StronglySorted Z.lt t.*1.

Lemma table_NoDup t : table_ok t → NoDup t.*1.
Proof.
  unfold table_ok. induction t.*1 as [|i l IH]; [constructor|]. intros Hs. apply StronglySorted_cons in Hs as [Hi Hl]. constructor; [|by apply IH].
  intros Hin. rewrite Forall_forall in Hi. specialize (Hi i Hin). lia.
Qed.

Lemma table_unique t e1 e2 : table_ok t → e1 ∈ t → e2 ∈ t → e1.1 = e2.1 → e1 = e2.
Proof.
  intros Hn%table_NoDup H1 H2 E. apply list_elem_of_lookup in H1 as [i H1]. apply list_elem_of_lookup in H2 as [j H2].
  assert (i = j) as ->; [|congruence].
  apply (NoDup_lookup t.*1 i j e1.1 Hn); rewrite list_lookup_fmap; [by rewrite H1|by rewrite H2, E].
Qed.

Lemma in_order_elem P t e : e ∈ in_order P t ↔ P e = true ∧ e ∈ t.
Proof. unfold in_order. rewrite merge_sort_Permutation, list_elem_of_filter. done. Qed.

(** Filtering and ordering commute. *)
Lemma in_order_filter P Q t : table_ok t → in_order (λ e, P e && Q e) t = filter (λ e, Q e = true) (in_order P t).
Proof.
  intros Ht. apply (StronglySorted_unique_strong entry_le).
  - intros a b [_ Ha]%in_order_elem [_ [_ Hb]%in_order_elem]%list_elem_of_filter Hab Hba. apply (table_unique t); try done. unfold entry_le in *. lia.
  - apply (StronglySorted_merge_sort entry_le).
  - apply StronglySorted_filtered, (StronglySorted_merge_sort entry_le).
  - unfold in_order. rewrite !merge_sort_Permutation. rewrite list_filter_filter. 
    assert (∀ l : table, filter (λ e, P e && Q e = true) l = filter (λ e, Q e = true ∧ P e = true) l) as -> by (intros l; apply list_filter_iff; intros e; rewrite andb_true_iff; tauto). done.
Qed.

(** The rows up to an id do not depend on the rows added later. *)
Definition same_snapshot (maxId : Z) (t t' : table) : Prop := filter (λ e : entry, e.1 <= maxId) t' = filter (λ e : entry, e.1 <= maxId) t.

Lemma in_order_snapshot P maxId t t' :
  (∀ e, P e = true → e.1 <= maxId) → same_snapshot maxId t t' → in_order P t' = in_order P t.
Proof.
  intros HP Hs. unfold in_order. f_equal.
  assert (∀ u : table, filter (λ e, P e = true) u = filter (λ e, P e = true) (filter (λ e : entry, e.1 <= maxId) u)) as Hf.
  { intros u. rewrite list_filter_filter. apply list_filter_iff. intros e. specialize (HP e). tauto. }
  by rewrite (Hf t'), Hs, <- Hf.
Qed.

(** What comes after the position of an entry. *)
Lemma after_entry l1 e l2 :
  StronglySorted entry_le (l1 ++ e :: l2) → NoDup (l1 ++ e :: l2).*1 →
  filter (λ x, after_position (Some (created_at e.2, e.1)) x = true) (l1 ++ e :: l2) = l2.
Proof.
  intros Hs Hn. rewrite fmap_app, fmap_cons in Hn. apply NoDup_app in Hn as (_ & Hn1 & Hn2). apply NoDup_cons in Hn2 as [Hn2 _].
  apply StronglySorted_app in Hs as (Hs1 & _ & Hs2). apply StronglySorted_cons in Hs2 as [Hs2 _]. rewrite Forall_forall in Hs2.
  rewrite filter_app, filter_cons_False by (cbn; destruct (Z.ltb_spec (created_at e.2) (created_at e.2)), (Z.ltb_spec e.1 e.1); rewrite ?andb_false_r; try lia; done).
  assert (filter (λ x, after_position (Some (created_at e.2, e.1)) x = true) l1 = []) as ->.
  { apply filter_none, Forall_forall. intros x Hx. specialize (Hs1 x e Hx (list_elem_of_here _ _)). unfold entry_le in Hs1. cbn.
    rewrite not_true_iff_false, orb_false_iff, andb_false_iff. lia. }
  cbn [app]. apply filter_every, Forall_forall. intros x Hx. specialize (Hs2 x Hx).
  assert (x.1 ≠ e.1) as Hne by (intros E; apply Hn2; rewrite <- E; by apply list_elem_of_fmap_2). unfold entry_le in Hs2. cbn.
  rewrite orb_true_iff, andb_true_iff. lia.
Qed.

(** ** Pages *)

Section pages.
Context (json_text : value → string).

Definition with_cursor (c : option string) (p : AuditQueryParams) : AuditQueryParams :=
  mkQueryParams (qp_agentDid p) (qp_principalDid p) (qp_action p) (qp_sessionId p) (qp_start p) (qp_end p) (qp_limit p) c
    (qp_affectedAgentDid p) (qp_affectedPrincipalDid p).
Definition with_params (q : SignedAuditQuery) (p : AuditQueryParams) : SignedAuditQuery :=
  mkSignedQuery (aq_requesterDid q) (aq_targetAgentDid q) (aq_resourceBinding q) p (aq_snapshotBoundary q) (aq_timestamp q)
    (aq_signature q) (aq_nonce q) (aq_proofType q) (aq_delegatedAuditKeyId q).
Definition turn_page (c : option string) (v : VerifiedAuditRequest) : VerifiedAuditRequest :=
  match v with
  | V_business q d s => V_business (with_params q (with_cursor c (aq_queryParams q))) d s
  | V_control q m => V_control (with_params q (with_cursor c (aq_queryParams q))) m
  end.

(** The pages a client gets by following the cursors, each from the table of
    its time. *)
Fixpoint pages (v : VerifiedAuditRequest) (maxId : Z) (c : option string) (ts : list table) : list (list Row) :=
  match ts with
  | [] => []
  | t :: ts =>
      match handleList json_text (turn_page c v) maxId t with
      | proceed (AR_list rs next) => rs :: match next with Some c' => pages v maxId (Some c') ts | None => [] end
      | _ => []
      end
  end.

Definition page_size (v : VerifiedAuditRequest) : nat := Z.to_nat (default DEFAULT_LIMIT (qp_limit (aq_queryParams (va_query v)))).

(** The rows of a query, in order. *)
Definition wanted (v : VerifiedAuditRequest) (maxId : Z) (start end_ : option Z) (e : entry) : bool :=
  filters json_text (aq_targetAgentDid (va_query v)) maxId (aq_queryParams (va_query v)) start end_ e.

Lemma wanted_bounded v maxId start end_ e : wanted v maxId start end_ e = true → e.1 <= maxId.
Proof. unfold wanted, filters. intros Hw. do 7 apply andb_true_iff in Hw as [Hw _]. apply andb_true_iff in Hw as [_ Hw]. by apply Z.leb_le in Hw. Qed.

Lemma turn_page_query c v :
  aq_targetAgentDid (va_query (turn_page c v)) = aq_targetAgentDid (va_query v)
  ∧ aq_queryParams (va_query (turn_page c v)) = with_cursor c (aq_queryParams (va_query v)).
Proof. by destruct v. Qed.

(** Rows with the instants and ids of the table. *)
Definition addressable (t : table) : Prop := ∀ e, e ∈ t → iso_range (created_at e.2) ∧ 0 < e.1 < 2 ^ 63.

Definition cursor_of (e : entry) : string := encodeCursor (toISOString (created_at e.2)) e.1.

Lemma read_cursor_of e :
  iso_range (created_at e.2) → 0 < e.1 < 2 ^ 63 → read_cursor (Some (cursor_of e)) = proceed (Some (created_at e.2, e.1)).
Proof.
  intros Ht Hid. unfold read_cursor, cursor_of. rewrite cursor_roundtrip by (done || lia). destruct (iso_valid _ Ht) as [-> Hp].
  cbn [well_formed demand mbind handled_bind]. rewrite BigInt_pretty by lia. rewrite Hp. cbn [attempt mbind handled_bind].
  unfold pg_bigint. by rewrite (proj2 (Z.leb_le _ _)), (proj2 (Z.ltb_lt _ _)) by lia.
Qed.

(** One page. *)
Lemma handleList_page v maxId t c position start end_ :
  opt_instant (qp_start (aq_queryParams (va_query v))) = Ok start → opt_instant (qp_end (aq_queryParams (va_query v))) = Ok end_ →
  read_cursor c = proceed position →
  let rest := in_order (λ e, wanted v maxId start end_ e && after_position position e) t in
  let n := page_size v in
  handleList json_text (turn_page c v) maxId t
  = proceed (AR_list (snd <$> take n rest)
      (if Nat.ltb n (length rest) then match last (take n rest) with Some e => Some (cursor_of e) | None => None end else None)).
Proof.
  intros Hs He Hc rest n. unfold handleList. destruct (turn_page_query c v) as [-> ->]. cbn [with_cursor qp_cursor qp_start qp_end qp_limit].
  rewrite Hc, Hs, He. cbn [attempt mbind handled_bind]. fold (page_size v). fold n.
  change (in_order (λ e, filters json_text _ maxId (with_cursor c _) start end_ e && after_position position e) t) with rest.
  rewrite length_take. destruct (Nat.ltb_spec n (length rest)) as [Hlt|Hge].
  - rewrite Nat.min_l by lia. rewrite (proj2 (Nat.ltb_lt _ _)) by lia. rewrite take_take, Nat.min_l by lia. done.
  - rewrite Nat.min_r by lia. rewrite (proj2 (Nat.ltb_ge _ _)) by lia. by rewrite !take_ge by lia.
Qed.

Lemma pages_from v maxId t ts start end_ k position c :
  table_ok t → addressable t →
  opt_instant (qp_start (aq_queryParams (va_query v))) = Ok start → opt_instant (qp_end (aq_queryParams (va_query v))) = Ok end_ →
  (0 < page_size v)%nat → Forall (same_snapshot maxId t) ts →
  read_cursor c = proceed position →
  in_order (λ e, wanted v maxId start end_ e && after_position position e) t = drop k (in_order (wanted v maxId start end_) t) →
  concat (pages v maxId c ts) = snd <$> take (length ts * page_size v) (drop k (in_order (wanted v maxId start end_) t)).
Proof.
  intros Ht Ha Hs He Hn Hts. revert k position c. set (L := in_order (wanted v maxId start end_) t). set (n := page_size v).
  induction Hts as [|t' ts Hsn _ IH]; intros k position c Hc Hrest; [done|]. cbn [pages length Nat.mul].
  rewrite (handleList_page v maxId t' c position start end_ Hs He Hc).
  rewrite (in_order_snapshot _ maxId t t') by (done || (intros e [Hw _]%andb_true_iff; by eapply wanted_bounded)). rewrite Hrest. fold n.
  destruct (Nat.ltb_spec n (length (drop k L))) as [Hlt|Hge].
  2:{ cbn [concat]. by rewrite app_nil_r, !take_ge by lia. }
  destruct (last (take n (drop k L))) as [e|] eqn:El.
  2:{ apply last_None in El. apply (f_equal length) in El. rewrite length_take in El. cbn in El. lia. }
  rewrite length_drop in Hlt. rewrite last_lookup, length_take, length_drop, Nat.min_l, lookup_take_lt, lookup_drop in El by lia.
  assert (e ∈ L) as HeL by by eapply list_elem_of_lookup_2. pose proof HeL as [_ Het]%in_order_elem.
  destruct (Ha e Het) as [Hiso Hid]. cbn [concat]. erewrite (IH (k + n)%nat); [|by apply read_cursor_of|].
  - rewrite <- fmap_app. f_equal. replace (drop (k + n) L) with (drop n (drop k L)) by by rewrite drop_drop. apply take_take_drop.
  - rewrite in_order_filter by done. fold L. replace (k + n)%nat with (S (k + pred n)) by lia.
    assert (L = take (k + pred n) L ++ e :: drop (S (k + pred n)) L) as Hsplit by (symmetry; by apply take_drop_middle).
    rewrite Hsplit at 1. rewrite after_entry; [done| |]; rewrite <- Hsplit.
    + apply (StronglySorted_merge_sort entry_le).
    + unfold L, in_order. rewrite merge_sort_Permutation. apply (NoDup_fmap_fst (filter (λ e, wanted v maxId start end_ e = true) t)).
      * intros x y y' Hx Hy. apply list_elem_of_filter in Hx as [_ Hx], Hy as [_ Hy]. by injection (table_unique t (x, y) (x, y') Ht Hx Hy eq_refl).
      * apply NoDup_filter. by eapply NoDup_fmap_1, table_NoDup.
Qed.

(** C35.  Pagination is complete: following the cursors for as many pages as the
    rows of the query need at their size gives every row of the query up to the
    snapshot exactly once, in order, where the rows that are added between the
    pages have ids above the snapshot ([same_snapshot]).  The page size is not
    zero, the dates of the query are dates, ids ascend and are positive 64-bit
    numbers, and the times of the rows have four-digit years. *)
Theorem pages_complete v maxId t ts start end_ :
  table_ok t → addressable t →
  opt_instant (qp_start (aq_queryParams (va_query v))) = Ok start → opt_instant (qp_end (aq_queryParams (va_query v))) = Ok end_ →
  (0 < page_size v)%nat → Forall (same_snapshot maxId t) ts →
  (length (in_order (wanted v maxId start end_) t) <= length ts * page_size v)%nat →
  concat (pages v maxId None ts) = snd <$> in_order (wanted v maxId start end_) t.
Proof.
  intros Ht Ha Hs He Hn Hts Hl. rewrite (pages_from v maxId t ts start end_ 0 None None) by (done || (rewrite in_order_filter by done; by apply filter_every, Forall_true)).
  by rewrite drop_0, take_ge.
Qed.
End pages.

(** ** Disclosure *)

Section disclosure.
Context `{Primitives} (json_text : value → string).
(** The JSON text of a number, a boolean, an array or an object is no DID. *)
Context (json_text_no_did : ∀ v, match v with VStr _ => True | _ => str_startsWith (json_text v) "did:" = false end).

(** The requester signed the query, at most five minutes from now. *)
Definition authentic (q : SignedAuditQuery) (now : Z) : Prop :=
  ∃ k t, extractPublicKeyFromDIDKey (aq_requesterDid q) = Ok k ∧ verify (textEncode (jcs (query_json q))) (aq_signature q) k = Ok true
    ∧ getTime (aq_timestamp q) = Some t ∧ Z.abs (now - t) <= MAX_SKEW_MS.

(** It is the principal of the agent, or, for the governor, a requester whose
    scope holds the subject. *)
Definition entitled (O : RouteOptions) (scopes : list (string * ControlPlaneRequesterScope)) (q : SignedAuditQuery) : Prop :=
  if decide (aq_targetAgentDid q = SESSION_GOVERNOR_DID) then
    ∃ scope a, map_get (aq_requesterDid q) scopes = Some scope ∧ qp_affectedAgentDid (aq_queryParams q) = Some a
      ∧ a ∈ allowedAffectedAgentDids scope
      ∧ ∀ ps, allowedAffectedPrincipalDids scope = Some ps → ∃ p, qp_affectedPrincipalDid (aq_queryParams q) = Some p ∧ p ∈ ps
  else ∃ d s, resolveForAudit (ro_identityStore O) (aq_targetAgentDid q) = Ok (Some (d, s)) ∧ ad_principalDid d = aq_requesterDid q.

Lemma authenticate_spec q now u :
  isValidIso8601 (aq_timestamp q) = true → authenticate q now = proceed u → authentic q now.
Proof.
  intros Hv Ha. unfold authenticate in Ha. apply handled_bind_proceed in Ha as (? & Hs%demand_proceed & Ha).
  apply handled_bind_proceed in Ha as (k & Hk & Ha). apply handled_bind_proceed in Ha as (c & Hc%attempt_proceed & Ha).
  apply handled_bind_proceed in Ha as (b & Hb%attempt_proceed & ->%demand_proceed). apply canonicalize_inv in Hc as [_ ->].
  unfold isValidIso8601 in Hv. unfold within_skew in Hs. destruct (getTime (aq_timestamp q)) as [t|] eqn:Et; [|by rewrite andb_false_r in Hv].
  apply Z.leb_le in Hs. exists k, t. split_and!; try done. revert Hk. destruct (extractPublicKeyFromDIDKey _); [by intros [= ->]|done].
Qed.

Lemma decide_access_spec checker v u : decide_access checker v = proceed u → checker v = Ok None.
Proof. unfold decide_access. intros (d & Hd%attempt_proceed & Hu)%handled_bind_proceed. rewrite Hd. by destruct d. Qed.

(** The scope of a request is well formed. *)
Definition scoped (p : AuditQueryParams) : Prop :=
  (∀ a, qp_affectedAgentDid p = Some a → str_startsWith a "did:agent:" = true)
  ∧ (∀ a, qp_affectedPrincipalDid p = Some a → str_startsWith a "did:key:" = true).

Lemma param_where_spec raw key ok o : param_where raw key ok = proceed o → ∀ a, o = Some a → ok a = true.
Proof. unfold param_where. destruct (one raw key) as [v|]; [destruct (ok v) eqn:E|]; intros [= <-] a [= <-]; done. Qed.

Lemma parse_scoped raw p : parseQueryParams raw = proceed p → scoped p.
Proof.
  unfold parseQueryParams. intros Hp. do 9 apply handled_bind_proceed in Hp as (? & _ & Hp).
  apply handled_bind_proceed in Hp as (a & Ha & Hp). apply handled_bind_proceed in Hp as (b & Hb & [= <-]).
  split; cbn; [exact (param_where_spec _ _ _ _ Ha)|exact (param_where_spec _ _ _ _ Hb)].
Qed.

(** What passes the middleware. *)
Record admitted (O : RouteOptions) (route : Route) (record : option (option entry)) (t : table) (now : Z) (rq : Request)
    (scopes : list (string * ControlPlaneRequesterScope)) (v : VerifiedAuditRequest) (maxId : Z) : Prop := mkAdmitted {
  am_authentic : authentic (va_query v) now;
  am_entitled : entitled O scopes (va_query v);
  am_lane : match v with V_control q _ => aq_targetAgentDid q = SESSION_GOVERNOR_DID | V_business q _ _ => aq_targetAgentDid q ≠ SESSION_GOVERNOR_DID end;
  am_resource : aq_resourceBinding (va_query v) = mkBinding route (rq_id rq);
  am_target : target_agent record rq = proceed (aq_targetAgentDid (va_query v));
  am_params : parseQueryParams (rq_query rq) = proceed (aq_queryParams (va_query v));
  am_anchor : ∃ b a createdAt, aq_snapshotBoundary (va_query v) = Some b ∧ find_anchor (sb_headRecordId b) (aq_targetAgentDid (va_query v)) createdAt t = Some a
    ∧ pg_instant (sb_headCreatedAt b) = Ok createdAt ∧ a.1 = maxId }.

Lemma middleware_admits O route record t now rq scopes v maxId :
  ro_checker O = None → ro_controlPlaneChecker O = Some (ControlPlaneAuditAccessChecker scopes) →
  auditMiddleware O route record t now rq = proceed (v, maxId) → admitted O route record t now rq scopes v maxId.
Proof.
  intros Hc Hcp Hm. unfold auditMiddleware in Hm. apply handled_bind_proceed in Hm as (? & _ & Hm).
  apply handled_bind_proceed in Hm as (requester & _ & Hm). apply handled_bind_proceed in Hm as (sig & _ & Hm).
  apply handled_bind_proceed in Hm as (ts & _ & Hm). apply handled_bind_proceed in Hm as (hc & _ & Hm).
  apply handled_bind_proceed in Hm as (hr & _ & Hm). apply handled_bind_proceed in Hm as (? & Hts%demand_proceed & Hm).
  apply handled_bind_proceed in Hm as (? & _ & Hm). apply handled_bind_proceed in Hm as (target & Htgt & Hm).
  apply handled_bind_proceed in Hm as (p & Hp & Hm). apply handled_bind_proceed in Hm as (? & _ & Hm).
  apply handled_bind_proceed in Hm as (at_ & Hat%attempt_proceed & Hm). destruct (find_anchor hr target at_ t) as [a|] eqn:Ea; [|done].
  apply handled_bind_proceed in Hm as (? & _ & Hm). apply handled_bind_proceed in Hm as (? & _ & Hm).
  set (q := mkSignedQuery _ _ _ _ _ _ _ _ _ _) in Hm.
  apply handled_bind_proceed in Hm as (? & Hauth & Hm). apply handled_bind_proceed in Hm as (v' & Hv & [= -> <-]).
  assert (va_query v = q ∧ entitled O scopes q
    ∧ match v with V_control q _ => aq_targetAgentDid q = SESSION_GOVERNOR_DID | V_business q _ _ => aq_targetAgentDid q ≠ SESSION_GOVERNOR_DID end) as (Eq & Hent & Hlane).
  { unfold entitled. change (aq_targetAgentDid q) with target. destruct (String.eqb_spec target SESSION_GOVERNOR_DID) as [E|E].
    - rewrite decide_True by done. unfold control_lane in Hv. rewrite Hcp in Hv. destruct (resolveControlPlaneForAudit _) as [resolve|]; [|done].
      apply handled_bind_proceed in Hv as (o & _ & Hv). destruct o as [metadata|]; [|done].
      apply handled_bind_proceed in Hv as (? & Hd%decide_access_spec & [= <-]). split; [done|]. split; [|done]. injection Hd as Hd. change (aq_queryParams q) with p in *.
      change (aq_requesterDid q) with requester in *. destruct (map_get requester scopes) as [scope|] eqn:Em; [|done]. unfold forbidden_unless in Hd.
      destruct (_ && _) eqn:Eb; [|done]. apply andb_true_iff in Eb as [[_ Ha]%andb_true_iff Hps].
      destruct (qp_affectedAgentDid p) as [aff|] eqn:Eaff; [|done]. exists scope, aff. split_and!; [done|done|by apply bool_decide_eq_true in Ha|].
      intros ps Eps. rewrite Eps in Hps. cbn. destruct (qp_affectedPrincipalDid p) as [pd|] eqn:Epd; [|done]. exists pd. split; [done|]. by apply bool_decide_eq_true in Hps.
    - rewrite decide_False by done. unfold business_lane in Hv. change (aq_targetAgentDid q) with target in Hv.
      destruct (resolveForAudit _ target) as [[[d s]|]|code] eqn:Er; [|done|by destruct (String.eqb _ _)].
      apply handled_bind_proceed in Hv as (? & Hd%decide_access_spec & [= <-]). split; [done|]. split; [|done]. rewrite Hc in Hd. cbn in Hd.
      injection Hd as Hd. unfold forbidden_unless in Hd. destruct (_ && _) eqn:Eb; [|done]. apply andb_true_iff in Eb as [[Hpr _]%andb_true_iff _].
      apply String.eqb_eq in Hpr. by exists d, s. }
  split; rewrite ?Eq; try done.
  - by eapply authenticate_spec.
  - eexists _, a, at_. split_and!; try done.
Qed.

Lemma startsWith_app a p q : str_startsWith a (p +:+ q) = true → str_startsWith a p = true.
Proof.
  unfold str_startsWith. revert a. induction p as [|c p IH]; intros a; [by destruct a|]. change (String.String c p +:+ q) with (String.String c (p +:+ q)). destruct a as [|d a]; [done|]. cbn.
  destruct (ascii_dec c d); [apply IH|done].
Qed.

Lemma column_scope ps key did :
  str_startsWith did "did:" = true →
  column_is (arrow_text json_text ps key) (Some did) = match summary_member ps key with Some found => String.eqb found did | None => false end.
Proof.
  intros Hd. unfold arrow_text, summary_member, column_is. destruct ps as [[]|]; try done. destruct (map_get key o) as [v|]; [|done].
  assert (∀ v, str_startsWith (json_text v) "did:" = false → String.eqb (json_text v) did = false) as Hne.
  { intros w Hw. apply String.eqb_neq. intros E. by rewrite E, Hd in Hw. }
  pose proof (json_text_no_did v). destruct v; try done; by apply Hne.
Qed.

(** The database's predicate on the subject and the gate of the handlers are
    the same. *)
Lemma scope_columns ps p a :
  scoped p → qp_affectedAgentDid p = Some a →
  column_is (arrow_text json_text ps "affectedAgentDid") (qp_affectedAgentDid p)
    && column_is (arrow_text json_text ps "affectedPrincipalDid") (qp_affectedPrincipalDid p)
  = recordVisibleToScope ps p.
Proof.
  intros [Hs1 Hs2] Ea. unfold recordVisibleToScope. rewrite Ea, column_scope by (apply (startsWith_app _ "did:" "agent:"), Hs1, Ea).
  destruct (summary_member ps "affectedAgentDid") as [f|]; [|done]. f_equal. destruct (qp_affectedPrincipalDid p) as [b|] eqn:Eb; [|done].
  rewrite column_scope by (apply (startsWith_app _ "did:" "key:"), Hs2; done). done.
Qed.

(** The rows an answer contains. *)
Definition disclosed (r : AuditResponse) : list Row := match r with AR_list rs _ => rs | AR_record r => [r] | _ => [] end.

(** The id is not above that of the head of the snapshot that the query names,
    a row of the agent with the id and the time it gives. *)
Definition in_snapshot (q : SignedAuditQuery) (t : table) (id : Z) : Prop :=
  ∃ b headId head, aq_snapshotBoundary q = Some b ∧ (headId, head) ∈ t
    ∧ record_id head = sb_headRecordId b ∧ agent_did head = aq_targetAgentDid q
    ∧ pg_instant (sb_headCreatedAt b) = Ok (created_at head) ∧ id <= headId.

(** A row that a verified query may see. *)
Definition visible_row (v : VerifiedAuditRequest) (t : table) (r : Row) : Prop :=
  ∃ id, (id, r) ∈ t ∧ in_snapshot (va_query v) t id ∧ agent_did r = aq_targetAgentDid (va_query v)
    ∧ match v with V_control q _ => recordVisibleToScope (parameters_summary r) (aq_queryParams q) = true | _ => True end.

(** A row up to an id that the handlers give. *)
Definition handler_row (v : VerifiedAuditRequest) (maxId : Z) (t : table) (r : Row) : Prop :=
  ∃ id, (id, r) ∈ t ∧ id <= maxId ∧ agent_did r = aq_targetAgentDid (va_query v)
    ∧ match v with V_control q _ => recordVisibleToScope (parameters_summary r) (aq_queryParams q) = true | _ => True end.

Lemma handler_row_visible O route record t t' u now rq scopes v maxId r :
  admitted O route record t now rq scopes v maxId → handler_row v maxId t' r →
  (∀ e, e ∈ t → e ∈ u) → (∀ e, e ∈ t' → e ∈ u) → visible_row v u r.
Proof.
  intros [_ _ _ _ _ _ (b & [headId head] & at_ & Hb & Ha & Hat & <-)] (id & Hin & Hid & Hrest) Ht Ht'.
  unfold find_anchor in Ha. destruct (list_find _ t) as [[i x]|] eqn:E; [|done]. injection Ha as ->.
  apply list_find_Some in E as (Hi & (E1 & E2 & E3) & _). cbn [fst snd] in *.
  exists id. split; [by apply Ht'|]. split; [|done]. exists b, headId, head. split_and!; try done.
  - apply Ht. by eapply list_elem_of_lookup_2.
  - by rewrite E3.
Qed.

Lemma handleList_visible v maxId t resp r :
  scoped (aq_queryParams (va_query v)) →
  (match v with V_control q _ => is_Some (qp_affectedAgentDid (aq_queryParams q)) | _ => True end) →
  handleList json_text v maxId t = proceed resp → r ∈ disclosed resp → handler_row v maxId t r.
Proof.
  intros Hsc Hsub Hl. unfold handleList in Hl. apply handled_bind_proceed in Hl as (pos & _ & Hl).
  apply handled_bind_proceed in Hl as (start & _ & Hl). apply handled_bind_proceed in Hl as (end_ & _ & [= <-]). cbn [disclosed].
  set (n := Z.to_nat _). set (rows := in_order _ t). intros ([id r'] & -> & Hin)%list_elem_of_fmap.
  assert ((id, r') ∈ rows) as [Hw Ht]%in_order_elem.
  { eapply elem_of_sublist; [exact Hin|]. destruct (Nat.ltb _ _); [etrans; apply sublist_take|apply sublist_take]. }
  apply andb_true_iff in Hw as [Hw _]. unfold filters in Hw. rewrite !andb_true_iff in Hw.
  destruct Hw as ((((((((Ha & Hid) & _) & _) & _) & _) & _) & H1) & H2). exists id. split; [done|]. split; [by apply Z.leb_le|].
  split; [by apply String.eqb_eq|]. destruct v as [|q m]; [done|]. destruct Hsub as [a Ea]. cbn [va_query snd] in *. rewrite <- (scope_columns _ _ a Hsc Ea). by rewrite H1, H2.
Qed.

Lemma handleGet_visible v maxId t e resp r :
  e ∈ t → handleGet v maxId (Some e) = proceed resp → r ∈ disclosed resp → handler_row v maxId t r.
Proof.
  destruct e as [id r0]. intros He Hg. unfold handleGet, found_record in Hg. apply handled_bind_proceed in Hg as (r1 & Hf & Hg).
  apply handled_bind_proceed in Hf as (? & Ha%demand_proceed & Hf). apply handled_bind_proceed in Hf as (? & Hid%demand_proceed & [= <-]).
  apply handled_bind_proceed in Hg as (? & Hs & [= <-]). cbn [disclosed]. intros ->%list_elem_of_singleton.
  exists id. split; [done|]. split; [by apply Z.leb_le|]. split; [by apply String.eqb_eq|]. destruct v as [|q m]; [done|]. by apply demand_proceed in Hs.
Qed.

Lemma admitted_subject O route record t now rq scopes v maxId :
  admitted O route record t now rq scopes v maxId → match v with V_control q _ => is_Some (qp_affectedAgentDid (aq_queryParams q)) | _ => True end.
Proof.
  intros [_ He Hl _ _ _ _]. destruct v as [|q m]; [done|]. unfold entitled in He. cbn [va_query] in He. rewrite decide_True in He by done.
  destruct He as (_ & a & _ & Ea & _). by exists a.
Qed.

Lemma guard_found t rq e : recordExistenceGuard t rq = proceed (Some e) → e ∈ t ∧ rq_id rq = Some (record_id e.2).
Proof.
  unfold recordExistenceGuard. intros (? & Hu%demand_proceed & [= Hf])%handled_bind_proceed. destruct (list_find _ t) as [[i e']|] eqn:E; [|done].
  injection Hf as ->. apply list_find_Some in E as (Hi & Er & _). split; [by eapply list_elem_of_lookup_2|]. rewrite Er.
  destruct (rq_id rq) as [s|]; [done|]. by vm_compute in Hu.
Qed.

(** Answers of the two routes that give records. *)
Inductive record_route (O : RouteOptions) (t1 t2 : table) (now : Z) (rq : Request) : Route → res AuditResponse → Prop :=
| route_list : record_route O t1 t2 now rq records_list (get_records json_text O t1 t2 now rq)
| route_get : record_route O t1 t2 now rq records_get (get_record O t1 t2 now rq).

(** C25.  Records are given only to who may see them: whatever the request and the
    tables at its times, each record in an answer is one of the agent that the
    signed query names, not after the record that the query names as the head of
    its snapshot; the signature is the requester's, over this route, these
    parameters and this snapshot, and at most five minutes old; the requester is
    the principal in the agent's identity document, or, for the governor, has a
    scope that holds the subject of the query and of the record.  The business
    lane has its default checker and the governor's lane the checker of scopes;
    the JSON text of a value that is not a string does not read as a DID. *)
Theorem disclosure_authorized O scopes t1 t2 now rq route resp r :
  ro_checker O = None → ro_controlPlaneChecker O = Some (ControlPlaneAuditAccessChecker scopes) →
  record_route O t1 t2 now rq route (Ok resp) → r ∈ disclosed resp →
  ∃ v, authentic (va_query v) now ∧ entitled O scopes (va_query v)
    ∧ aq_resourceBinding (va_query v) = mkBinding route (rq_id rq)
    ∧ parseQueryParams (rq_query rq) = proceed (aq_queryParams (va_query v))
    ∧ visible_row v (t1 ++ t2) r.
Proof.
  intros Hc Hcp Hr Hin.
  assert (∀ (h : handled AuditResponse), refuses h → to_response h = Ok resp → h = proceed resp) as Hserve.
  { intros h Hh Hs. destruct h as [x|x|x]; [by injection Hs as ->| |done]. injection Hs as ->. destruct (Hh resp eq_refl) as (? & ? & ->). by apply not_elem_of_nil in Hin. }
  assert (∀ route' record t, refuses (auditMiddleware O route' record t now rq)) as Hmid.
  { intros. unfold auditMiddleware, required_header, target_agent, parseQueryParams, param_where, authenticate, control_lane, business_lane, decide_access, well_formed, malformed.
    refusals. }
  inversion Hr as [Er Hx|Er Hx]; subst route.
  - unfold get_records in Hx. apply Hserve in Hx; [|apply refuses_bind; [apply Hmid|]; intros [v m]; unfold handleList, read_cursor, well_formed, malformed; refusals].
    apply handled_bind_proceed in Hx as ([v maxId] & Hm & Hl). apply (middleware_admits _ _ _ _ _ _ scopes) in Hm; [|done..].
    exists v. pose proof (admitted_subject _ _ _ _ _ _ _ _ _ Hm) as Hsub. pose proof Hm as [H1 H2 H3 H4 H5 H6 H7]. split_and!; try done.
    eapply handler_row_visible; [exact Hm|exact (handleList_visible v maxId t2 resp r (parse_scoped _ _ H6) Hsub Hl Hin)|..];
      intros e; rewrite elem_of_app; tauto.
  - unfold get_record in Hx. apply Hserve in Hx; [|apply refuses_bind; [unfold recordExistenceGuard, well_formed; refusals|]; intros record; apply refuses_bind; [apply Hmid|];
      intros [v m]; unfold handleGet, found_record, assertControlPlaneRowScope; refusals].
    apply handled_bind_proceed in Hx as (record & Hg & Hx). apply handled_bind_proceed in Hx as ([v maxId] & Hm & Hl).
    apply (middleware_admits _ _ _ _ _ _ scopes) in Hm; [|done..]. exists v. pose proof Hm as [H1 H2 H3 H4 H5 H6 H7]. split_and!; try done.
    destruct record as [e|]; [|done]. apply guard_found in Hg as [He _].
    eapply handler_row_visible; [exact Hm|exact (handleGet_visible v maxId t1 e resp r He Hl Hin)|..];
      intros x; rewrite elem_of_app; tauto.
Qed.

(** The surfaces of the governor's lane agree: a record is given by its id
    exactly when the list for the same subject contains it and exactly when it
    may be the head of that subject. *)
Theorem surfaces_agree q m maxId t e a :
  let p := aq_queryParams q in
  let subject := mkQueryParams None None None None None None None None (qp_affectedAgentDid p) (qp_affectedPrincipalDid p) in
  aq_targetAgentDid q = SESSION_GOVERNOR_DID → scoped p → qp_affectedAgentDid p = Some a → e ∈ t → e.1 <= maxId →
  (handleGet (V_control q m) maxId (Some e) = proceed (AR_record e.2) ↔ filters json_text SESSION_GOVERNOR_DID maxId subject None None e = true)
  ∧ (handleGet (V_control q m) maxId (Some e) = proceed (AR_record e.2) ↔ e ∈ subject_rows json_text p a t).
Proof.
  intros p subject Hq Hs Ea He Hid. destruct e as [id r].
  assert (handleGet (V_control q m) maxId (Some (id, r)) = proceed (AR_record r)
          ↔ agent_did r = SESSION_GOVERNOR_DID ∧ recordVisibleToScope (parameters_summary r) p = true) as Hget.
  { unfold handleGet, found_record. cbn [va_query]. rewrite Hq, (proj2 (Z.leb_le id maxId)) by done.
    destruct (String.eqb_spec (agent_did r) SESSION_GOVERNOR_DID) as [E|E]; cbn [demand mbind handled_bind mret handled_ret assertControlPlaneRowScope].
    - split.
      + by intros (? & Hd%demand_proceed & _)%handled_bind_proceed.
      + intros [_ Hv]. apply handled_bind_proceed. exists tt. split; [by apply demand_proceed|done].
    - split; [done|by intros [? _]]. }
  assert (recordVisibleToScope (parameters_summary r) p
          = column_is (arrow_text json_text (parameters_summary r) "affectedAgentDid") (qp_affectedAgentDid p)
            && column_is (arrow_text json_text (parameters_summary r) "affectedPrincipalDid") (qp_affectedPrincipalDid p)) as Hvis
    by (symmetry; by eapply scope_columns).
  cbn [snd]. rewrite Hget, Hvis. split.
  - unfold filters. cbn [subject qp_principalDid qp_action qp_sessionId qp_affectedAgentDid qp_affectedPrincipalDid fst snd].
    rewrite (proj2 (Z.leb_le id maxId)) by done. cbn [column_is]. rewrite !andb_true_r, !andb_true_iff, String.eqb_eq. tauto.
  - unfold subject_rows. rewrite list_elem_of_filter. cbn [snd]. rewrite <- Ea, !andb_true_iff, String.eqb_eq. tauto.
Qed.

(** ** Single records *)

Lemma some_key_spec payload sig ks : some_key payload sig ks = Ok true → ∃ k, k ∈ ks ∧ verifyRecordSignature payload sig k = Ok true.
Proof.
  induction ks as [|k ks IH]; cbn; [done|]. intros (b & Hb & Hr)%res_bind_ok. destruct b.
  - exists k. split; [left|done].
  - destruct (IH Hr) as (k' & Hk & Hv). exists k'. split; [by right|done].
Qed.

Lemma push_key_in o seen k : k ∈ push_key o seen → k ∈ seen ∨ o = Some k.
Proof. unfold push_key. destruct o as [x|]; [|by left]. destruct (_ && _); [|by left]. intros [?| ->%list_elem_of_singleton]%elem_of_app; [by left|by right]. Qed.

Definition key_of_document (k : string) (d : AgentIdentityDocument) : Prop := k = ad_publicKey d ∨ ad_previousPublicKey d = Some k.

Lemma push_keys_in seen d k : k ∈ push_keys seen d → k ∈ seen ∨ key_of_document k d.
Proof.
  unfold push_keys, key_of_document. intros [[?|[= ->]]%push_key_in|?]%push_key_in; [by left|right; by left|right; by right].
Qed.

Lemma candidates_known cur history k : k ∈ collectActorPublicKeyCandidates cur history → ∃ d, d ∈ cur :: history ∧ key_of_document k d.
Proof.
  unfold collectActorPublicKeyCandidates.
  assert (∀ seen, (∀ k, k ∈ seen → ∃ d, d ∈ [cur] ∧ key_of_document k d) → ∀ hs k, k ∈ foldl push_keys seen hs → ∃ d, d ∈ cur :: hs ∧ key_of_document k d) as Hg.
  { intros seen Hseen hs. induction hs as [|h hs IH] using rev_ind; intros k'; [apply Hseen|]. rewrite foldl_snoc.
    intros [Hk|Hk]%push_keys_in; [|exists h; split; [apply elem_of_cons; right; apply elem_of_app; right; left|done]].
    destruct (IH k' Hk) as (d & Hd & Hkd). exists d. split; [|done]. apply elem_of_cons in Hd as [->|Hd]; [left|]. apply elem_of_cons. right. apply elem_of_app. by left. }
  apply Hg. intros k' [Hk|Hk]%push_keys_in; [by apply not_elem_of_nil in Hk|]. exists cur. split; [left|done].
Qed.

Definition intact_row (r : Row) : Prop :=
  computeRecordHash (buildUnsignedRecordPayload r) (previous_record_hash r) (detectEncoding (record_hash r)) = Ok (record_hash r).

Lemma check_hash_valid r c : check_hash r = proceed c → ck_valid c = true → intact_row r.
Proof.
  unfold check_hash. destruct (negb _); [done|]. intros (h & Hh%attempt_proceed & [= <-])%handled_bind_proceed E. cbn in E. apply String.eqb_eq in E.
  unfold intact_row. by rewrite E at 2.
Qed.
Lemma check_ledger_valid pk r c : check_ledger pk r = proceed c → ck_valid c = true → verifyRecordSignature (buildUnsignedRecordPayload r) (ledger_signature r) pk = Ok true.
Proof. unfold check_ledger. intros (b & Hb%attempt_proceed & [= <-])%handled_bind_proceed E. cbn in E. by subst b. Qed.

(** A record of an agent is reported valid only if its hash is the hash of its
    contents, its ledger signature is the ledger's, and its actor signature is
    of a key that the agent's identity documents name. *)
Theorem verified_record_genuine O v maxId e checks :
  handleVerify O v maxId (Some e) = proceed (AR_verify true checks) →
  let payload := buildUnsignedRecordPayload e.2 in
  intact_row e.2 ∧ verifyRecordSignature payload (ledger_signature e.2) (ro_ledgerPublicKey O) = Ok true
  ∧ ∃ k, verifyRecordSignature payload (actor_signature e.2) k = Ok true
      ∧ match v with
        | V_business _ identity _ => ∃ history d, ro_documentHistory O (agent_did e.2) = Ok history ∧ d ∈ identity :: history ∧ key_of_document k d
        | V_control _ _ => ∃ resolve, ro_resolveControlPlanePublicKey O = Some resolve ∧ resolve (agent_did e.2) = Ok (Some k)
        end.
Proof.
  destruct e as [id r]. intros Hv payload. unfold handleVerify in Hv. apply handled_bind_proceed in Hv as (r' & Hf & Hv). cbn [snd] in *.
  assert (r' = r) as ->.
  { unfold found_record in Hf. apply handled_bind_proceed in Hf as (? & _ & Hf). apply handled_bind_proceed in Hf as (? & _ & Hf). by injection Hf. }
  destruct v as [q identity st|q m].
  - unfold verifyBusinessRecord in Hv. apply handled_bind_proceed in Hv as (ch & Hch & Hv).
    apply handled_bind_proceed in Hv as (history & Hh%attempt_proceed & Hv). apply handled_bind_proceed in Hv as (ca & Hca & Hv).
    apply handled_bind_proceed in Hv as (cl & Hcl & [= Hall _]). apply andb_true_iff in Hall as [H1 [H2 [H3 _]%andb_true_iff]%andb_true_iff].
    split; [by eapply check_hash_valid|]. split; [by eapply check_ledger_valid|].
    assert (some_key payload (actor_signature r) (collectActorPublicKeyCandidates identity history) = Ok true) as Hk.
    { destruct (collectActorPublicKeyCandidates identity history) as [|k ks]; [by injection Hca as <-|].
      apply handled_bind_proceed in Hca as (b & Hb%attempt_proceed & [= <-]). cbn in H2. by subst b. }
    apply some_key_spec in Hk as (k & Hin & Hk). exists k. split; [done|]. apply candidates_known in Hin as (d & Hd & Hkd). by exists history, d.
  - destruct (ro_resolveControlPlanePublicKey O) as [resolve|]; [|done]. apply handled_bind_proceed in Hv as (? & _ & Hv).
    unfold verifyControlPlaneRecord in Hv. apply handled_bind_proceed in Hv as (ch & Hch & Hv).
    apply handled_bind_proceed in Hv as (o & Ho%attempt_proceed & Hv). apply handled_bind_proceed in Hv as (ca & Hca & Hv).
    apply handled_bind_proceed in Hv as (cl & Hcl & [= Hall _]). apply andb_true_iff in Hall as [H1 [H2 [H3 _]%andb_true_iff]%andb_true_iff].
    split; [by eapply check_hash_valid|]. split; [by eapply check_ledger_valid|].
    destruct o as [k|]; [|by injection Hca as <-]. assert (verifyRecordSignature payload (actor_signature r) k = Ok true) as Hk.
    { destruct k as [|c k]; [by injection Hca as <-|]. apply handled_bind_proceed in Hca as (b & Hb%attempt_proceed & [= <-]). cbn in H2. by subst b. }
    exists k. split; [done|]. by exists resolve.
Qed.

(** ** Chains *)

(** The order of the routes is the order in which the checker reads. *)
Fixpoint insert_entry (e : entry) (l : table) : table :=
  match l with
  | [] => [e]
  | x :: l' => if created_at e.2 <? created_at x.2 then e :: l else x :: insert_entry e l'
  end.

Lemma insert_entry_rows e l : (insert_entry e l).*2 = insert_by_time e.2 l.*2.
Proof. induction l as [|x l IH]; [done|]. cbn. destruct (_ <? _); [done|]. cbn. by rewrite IH. Qed.
Lemma insert_entry_perm e l : insert_entry e l ≡ₚ e :: l.
Proof. induction l as [|x l IH]; [done|]. cbn. destruct (_ <? _); [done|]. rewrite IH. apply Permutation_swap. Qed.
Lemma insert_entry_sorted e l : StronglySorted entry_le l → Forall (λ x, x.1 < e.1) l → StronglySorted entry_le (insert_entry e l).
Proof.
  intros Hs. induction Hs as [|x l Hs IH Hx]; intros Hlt; cbn; [repeat constructor|]. apply Forall_cons in Hlt as [Hxe Hlt].
  destruct (Z.ltb_spec (created_at e.2) (created_at x.2)) as [Hc|Hc].
  - constructor; [by constructor|]. constructor; [left; done|]. eapply Forall_impl; [exact Hx|]. intros y [?|[? ?]]; left; cbn in *; lia.
  - constructor; [by apply IH|]. rewrite Forall_forall in Hx |- *. intros y Hy. rewrite insert_entry_perm in Hy. apply elem_of_cons in Hy as [->|Hy]; [|by apply Hx].
    unfold entry_le. lia.
Qed.

Lemma table_ok_snoc t e : table_ok (t ++ [e]) → table_ok t ∧ Forall (λ x : entry, x.1 < e.1) t.
Proof.
  unfold table_ok. rewrite fmap_app. intros (H1 & H2 & _)%StronglySorted_app. split; [done|]. apply Forall_forall. intros x Hx.
  apply H1; [by apply list_elem_of_fmap_2|left].
Qed.

Lemma ordered_rows t : table_ok t → (merge_sort entry_le t).*2 = order_by_time t.*2.
Proof.
  intros Ht. unfold order_by_time.
  assert (StronglySorted entry_le (foldl (λ acc e, insert_entry e acc) [] t) ∧ foldl (λ acc e, insert_entry e acc) [] t ≡ₚ t
          ∧ (foldl (λ acc e, insert_entry e acc) [] t).*2 = foldl (λ acc r, insert_by_time r acc) [] t.*2) as (Hs & Hp & <-).
  { induction t as [|e t IH] using rev_ind; [by split; [constructor|]|]. apply table_ok_snoc in Ht as [Ht Hlt]. destruct (IH Ht) as (Hs & Hp & Hr).
    rewrite fmap_app, !foldl_app. cbn [foldl fmap list_fmap]. split_and!.
    - apply insert_entry_sorted; [done|]. by rewrite Hp.
    - rewrite insert_entry_perm, Hp. apply Permutation_cons_append.
    - by rewrite insert_entry_rows, Hr. }
  f_equal. apply (StronglySorted_unique_strong entry_le); [|apply (StronglySorted_merge_sort entry_le)|done|by rewrite merge_sort_Permutation, Hp].
  intros a b Ha Hb Hab Hba. rewrite merge_sort_Permutation in Ha. rewrite Hp in Hb. apply (table_unique t); try done. unfold entry_le in *. lia.
Qed.

Lemma chain_links_valid resolve lpk prev rows n :
  check_records resolve lpk prev rows = Ok integrity_valid → chain_links n prev rows = proceed (AR_chain_valid n).
Proof.
  revert prev. induction rows as [|r rows IH]; intros prev; cbn [check_records chain_links]; [done|].
  unfold check_record. intros (o & Hc & Hr)%res_bind_ok. destruct (negb (String.eqb (previous_record_hash r) prev)); [by injection Hc as <-|].
  destruct (negb (hash_charset _)); [done|]. apply res_bind_ok in Hc as (h & -> & Hc). cbn [attempt mbind handled_bind].
  destruct (negb (String.eqb (record_hash r) h)); [by injection Hc as <-|]. destruct o as [reason|]; [done|]. by apply IH.
Qed.

Lemma filter_ids_ok (P : entry → Prop) `{∀ e, Decision (P e)} t : table_ok t → table_ok (filter P t).
Proof.
  unfold table_ok. induction t as [|e t IH]; [done|]. rewrite fmap_cons. intros [Hf Hs]%StronglySorted_cons. rewrite filter_cons.
  destruct (decide (P e)); [|by apply IH]. rewrite fmap_cons. constructor; [by apply IH|]. rewrite Forall_forall in Hf |- *.
  intros i (x & -> & [_ Hx]%list_elem_of_filter)%list_elem_of_fmap. by apply Hf, list_elem_of_fmap_2.
Qed.

(** What the integrity checker accepts the route accepts: when the records of
    the agent up to the snapshot pass [verifyIntegrity], a query of the whole
    chain reports it valid, with the number of its records. *)
Theorem chain_verify_complete resolve lpk q d s maxId t1 t clock :
  let rows := filter (λ e : entry, agent_did e.2 = aq_targetAgentDid q ∧ e.1 <= maxId) t in
  table_ok t → qp_start (aq_queryParams q) = None → qp_end (aq_queryParams q) = None → Z.of_nat (length rows) <= CHAIN_VERIFY_MAX_RECORDS →
  verifyIntegrity resolve lpk (aq_targetAgentDid q) INTEGRITY_LIMIT (mkDb rows.*2 clock) = Ok integrity_valid →
  handleChainVerify (V_business q d s) maxId t1 t = proceed (AR_chain_valid (length rows)).
Proof.
  intros rows Ht Hs He Hn Hv. unfold handleChainVerify. rewrite Hs, He. cbn [opt_instant attempt mret res_ret mbind handled_bind].
  unfold in_order. set (f := filter _ t). assert (f = rows) as ->.
  { apply list_filter_iff. intros e. rewrite !andb_true_r, andb_true_iff, String.eqb_eq, Z.leb_le. done. }
  rewrite take_ge by (rewrite merge_sort_Permutation; unfold CHAIN_VERIFY_MAX_RECORDS in *; lia).
  assert (length (merge_sort entry_le rows) = length rows) as -> by by rewrite merge_sort_Permutation.
  unfold well_formed, demand. rewrite (proj2 (Z.leb_le _ _)) by done. cbn [mbind handled_bind].
  unfold verifyIntegrity, query_agent in Hv. cbn [db_rows] in Hv. rewrite (filter_every (λ r, agent_did r = _)) in Hv.
  2:{ apply Forall_fmap, Forall_forall. intros e [[? _] _]%list_elem_of_filter. done. }
  rewrite <- ordered_rows in Hv by by apply filter_ids_ok. rewrite take_ge in Hv.
  2:{ rewrite length_fmap, merge_sort_Permutation. unfold INTEGRITY_LIMIT, CHAIN_VERIFY_MAX_RECORDS in *. lia. }
  by eapply chain_links_valid.
Qed.

(** ** Heads *)

(** A row that was added later has a greater id. *)
Definition extends (t t' : table) : Prop := ∃ new, t' = t ++ new ∧ table_ok t'.

(** The head that anyone may ask for is an anchor: later requests that name it
    find it, and their snapshot ends with it. *)
Theorem head_is_anchor t t' rq h :
  get_ledger_head t rq = Ok (AR_head h) → extends t t' → (∀ e, e ∈ t → iso_range (created_at e.2)) → NoDup (record_id <$> t'.*2) →
  ∃ e createdAt, e ∈ t ∧ agent_did e.2 = hd_agentDid h ∧ (∀ x, x ∈ t → agent_did x.2 = hd_agentDid h → x.1 <= e.1)
    ∧ pg_instant (hd_createdAt h) = Ok createdAt ∧ find_anchor (hd_recordId h) (hd_agentDid h) createdAt t' = Some e ∧ record_hash e.2 = hd_recordHash h.
Proof.
  unfold get_ledger_head, ledgerHead. intros Hh (new & -> & Hok) Hiso Hnd. destruct (one _ _) as [a|]; [|done].
  destruct (String.eqb a ""); [done|]. destruct (String.eqb a SESSION_GOVERNOR_DID); [done|]. destruct (negb _); [done|].
  destruct (last _) as [e|] eqn:El; [|done]. injection Hh as <-. cbn [hd_agentDid hd_recordId hd_createdAt hd_recordHash].
  apply last_Some in El as [l El]. assert (e ∈ filter (λ e : entry, agent_did e.2 = a) t) as [Ha He]%list_elem_of_filter by (rewrite El; apply elem_of_app; right; left).
  exists e, (created_at e.2). split; [done|]. split; [done|]. split.
  { intros x Hx Hxa. assert (x ∈ l ++ [e]) as Hin by (rewrite <- El; by apply list_elem_of_filter). apply elem_of_app in Hin as [Hin|Hin%list_elem_of_singleton]; [|by subst x].
    assert (table_ok (l ++ [e])) as Hs. { rewrite <- El. apply filter_ids_ok. unfold table_ok in *. rewrite fmap_app in Hok. by apply StronglySorted_app in Hok as (_ & ? & _). }
    apply table_ok_snoc in Hs as [_ Hlt]. rewrite Forall_forall in Hlt. specialize (Hlt x Hin). lia. }
  split; [by apply iso_valid, Hiso|]. split; [|done]. unfold find_anchor.
  assert (e ∈ t ++ new) as He' by (apply elem_of_app; by left). apply list_elem_of_lookup in He' as [i Hi].
  assert (list_find (λ e0 : entry, record_id e0.2 = record_id e.2 ∧ agent_did e0.2 = a ∧ created_at e0.2 = created_at e.2) (t ++ new) = Some (i, e)) as ->; [|done].
  apply list_find_Some. split; [done|]. split; [done|]. intros j x Hj Hlt [Hid _].
  assert (j = i); [|lia]. rewrite <- list_fmap_compose in Hnd. apply (NoDup_lookup _ j i (record_id e.2) Hnd); rewrite list_lookup_fmap; [by rewrite Hj, <- Hid|by rewrite Hi].
Qed.

(** The head of a subject does not move while its anchor lives: after an answer
    at [now'], whatever rows are added, an equal request gets the same head for
    five minutes, when the cache has kept the entry. *)
Theorem signed_head_stable q m now now' t1 t2 t1' t2' between between' c r c1 c2 h later a :
  qp_affectedAgentDid (aq_queryParams q) = Some a →
  signedLedgerHead json_text (V_control q m) now now' t1 t2 between c = (proceed (AR_head h), c1) →
  live_anchor (head_key q a) now c = None →
  map_get (head_key q a) c2 = map_get (head_key q a) c1 → map_get (head_key q a) (between c) = map_get (head_key q a) c →
  extends t1 t2 → extends t2 t2' → now <= now' → later < now' + BOOTSTRAP_TOKEN_TTL_MS →
  signedLedgerHead json_text (V_control q m) later r t1' t2' between' c2 = (proceed (AR_head h), c2).
Proof.
  intros Ha Hh Hl Hc2 Hbc (n1 & -> & Hok2) (n2 & -> & Hok2') Hnow Hlater. unfold signedLedgerHead in *. rewrite Ha in *. rewrite Hl in Hh.
  destruct (last (subject_rows json_text (aq_queryParams q) a t1)) as [e|] eqn:El; [|by injection Hh].
  assert (live_anchor (head_key q a) now' (between c) = None) as Hl'.
  { unfold live_anchor in *. rewrite Hbc. destruct (map_get (head_key q a) c) as [x|]; [|done]. destruct (Z.ltb_spec now (an_expiresAt x)); [done|].
    by rewrite (proj2 (Z.ltb_ge _ _)) by lia. }
  unfold getOrCacheAnchor in Hh. rewrite Hl' in Hh. cbn zeta in Hh. set (cc := if Nat.ltb _ _ then _ else _) in Hh.
  assert (live_anchor (head_key q a) later c2 = Some e.1) as ->.
  { unfold live_anchor. rewrite Hc2. injection Hh as _ <-. rewrite map_get_set, String.eqb_refl. cbn. by rewrite (proj2 (Z.ltb_lt _ _)). }
  f_equal. injection Hh as Hh _. revert Hh.
  assert (∀ new, table_ok ((t1 ++ n1) ++ new) → filter (λ x : entry, x.1 <= e.1) (subject_rows json_text (aq_queryParams q) a ((t1 ++ n1) ++ new))
          = filter (λ x : entry, x.1 <= e.1) (subject_rows json_text (aq_queryParams q) a (t1 ++ n1))) as Hsame.
  { intros new Hok. unfold subject_rows at 1. rewrite filter_app, filter_app. rewrite (filter_none (λ x : entry, x.1 <= e.1) (filter _ new)), app_nil_r; [done|].
    apply last_Some in El as [l El]. assert (e ∈ subject_rows json_text (aq_queryParams q) a t1) as [_ He]%list_elem_of_filter by (rewrite El; apply elem_of_app; right; left).
    unfold table_ok in Hok. rewrite fmap_app in Hok. apply StronglySorted_app in Hok as (Hlt & _ & _). apply Forall_forall.
    intros x [_ Hx]%list_elem_of_filter Hle. specialize (Hlt e.1 x.1). assert (e.1 < x.1); [|lia]. apply Hlt; [|by apply list_elem_of_fmap_2].
    apply list_elem_of_fmap_2, elem_of_app. by left. }
  rewrite (Hsame n2 Hok2'). by destruct (last _).
Qed.
End disclosure.

(** ** Defects *)

(** A request for a record that names no agent, with headers in the right form
    and a signature that nobody made. *)
Definition probe_anchor : string := "00000000-0000-4000-8000-000000000000".
Definition probe_request (id : string) : Request :=
  mkRequest [("x-audit-requester", ["anyone"]); ("x-audit-signature", ["none"]); ("x-audit-timestamp", ["2026-01-01T00:00:00.000Z"]);
             ("x-audit-snapshot-headcreatedat", ["2026-01-01T00:00:00.000Z"]); ("x-audit-snapshot-headrecordid", [probe_anchor])] (Some id) [].

(** The existence of a record is visible to anyone: the answer to a request with
    a meaningless signature depends on whether the record exists, because the
    target is taken from the record, and the anchor is looked up, before the
    signature is checked. *)
Theorem existence_oracle `{Primitives} O t1 t2 now id :
  UUID_V4_PATTERN id = true → (∀ e, e ∈ t2 → record_id e.2 ≠ probe_anchor) →
  get_record O t1 t2 now (probe_request id)
  = Ok (AR_error 400 (if bool_decide (id ∈ record_id <$> t1.*2) then "AUDIT_SNAPSHOT_BOUNDARY_VIOLATED" else "AUDIT_QUERY_MALFORMED")).
Proof.
  intros Hu Hno. unfold get_record, recordExistenceGuard, well_formed, demand. change (default "" (rq_id (probe_request id))) with id. rewrite Hu. cbn [mbind handled_bind mret handled_ret].
  destruct (list_find (λ e : entry, record_id e.2 = id) t1) as [[i e]|] eqn:Ef; cbn [mbind option_bind snd].
  - apply list_find_Some in Ef as (Hi & Er & _). rewrite bool_decide_eq_true_2.
    2:{ rewrite <- Er, <- list_fmap_compose. apply (list_elem_of_fmap_2 (record_id ∘ snd)). by eapply list_elem_of_lookup_2. }
    cbn [mbind handled_bind to_response]. unfold auditMiddleware. cbn -[find_anchor isValidIso8601 UUID_V4_PATTERN pg_instant].
    replace (isValidIso8601 "2026-01-01T00:00:00.000Z") with true by (vm_compute; reflexivity).
    replace (UUID_V4_PATTERN probe_anchor) with true by (vm_compute; reflexivity).
    replace (pg_instant "2026-01-01T00:00:00.000Z") with (Ok 1767225600000) by (vm_compute; reflexivity).
    cbn -[find_anchor].
    assert (∀ c a, find_anchor probe_anchor a c t2 = None) as Hfa; [|by rewrite Hfa].
    intros c a. unfold find_anchor. destruct (list_find _ t2) as [[j x]|] eqn:Ea; [|done]. apply list_find_Some in Ea as (Hj & (Ex & _) & _).
    by destruct (Hno x (list_elem_of_lookup_2 _ _ _ Hj)).
  - apply list_find_None in Ef. rewrite bool_decide_eq_false_2; [done|].
    intros (r & Er & (e & -> & He)%list_elem_of_fmap)%list_elem_of_fmap. rewrite Forall_forall in Ef. by destruct (Ef e He).
Qed.
