(* ===== verification/AuditAccess.v ===== *)
(** * The audit middleware with nonces and delegated keys

    Models packages/policy/src/recorder/audit-access-routes.ts, with the nonce
    store (nonce-store.ts), the meta ledger (meta-ledger.ts) and the default
    key resolver (delegated-key-resolver.ts).  The reader of anchors, the
    identity store, the checker and the key resolver are options; the nonce
    store is the one in memory and the events of the meta ledger are kept in
    order. *)
From S2P Require Import Prelude JsValue Time Encoding Crypto Authorization SignedPayload ActionRecords ActionRecorder Identity Registry AuditQuery AuditRoutes SecureChannel.
Open Scope Z_scope.

(** ** Options and state *)

Record AuditKey : Type := mkAuditKey {
  dk_id : string;
  dk_principalDid : string;
  dk_delegatedTo : string;
  dk_scopeAgentDids : option (list string);
  dk_expiresAt : string;
  dk_signature : string }.

Record SnapshotAnchorResult : Type := mkSnapshotAnchor { sa_internalId : Z; sa_recordHash : string; sa_createdAt : string }.

Record AccessOptions : Type := mkAccessOptions {
  ao_checker : AuditAccessChecker;
  ao_identityStore : IdentityStoreForAudit;
  ao_findSnapshotAnchor : string → string → string → res (option SnapshotAnchorResult);
  ao_resolveKey : string → string → res (option AuditKey) }.

Definition NullDelegatedAuditKeyResolver : string → string → res (option AuditKey) := λ _ _, Ok None.

Record MetaEvent : Type := mkMetaEvent {
  me_requesterDid : string; me_targetAgentDid : string; me_route : Route; me_denied : option string; me_timestamp : string; me_nonce : option string }.

Record AccessState : Type := mkAccessState { as_nonces : list (string * Z); as_events : list MetaEvent }.

(** What the middleware leaves in [res.locals]. *)
Record Access : Type := mkAccess { ac_request : VerifiedAuditRequest; ac_snapshotMaxId : option Z; ac_clientVersion : string }.

Definition auditErrorToStatus (code : string) : Z :=
  if bool_decide (code ∈ ["AUDIT_FORBIDDEN"]) then 403
  else if bool_decide (code ∈ ["AUDIT_QUERY_MALFORMED"; "AUDIT_RESOURCE_BINDING_MISMATCH"; "AUDIT_SNAPSHOT_BOUNDARY_VIOLATED"]) then 400
  else if bool_decide (code ∈ ["AUDIT_SIGNATURE_INVALID"; "AUDIT_TIMESTAMP_SKEW"; "AUDIT_REQUESTER_UNKNOWN"; "AUDIT_IDENTITY_UNVERIFIED"; "AUDIT_NONCE_REPLAY"]) then 401
  else 500.

(** ** Reading a request *)

(** A header that is there, perhaps empty. *)
Definition raw_header (rq : Request) (name : string) : option string :=
  match map_get name (rq_headers rq) with Some [v] => Some v | _ => None end.

Definition ACCESS_HEADERS : list string := AUDIT_HEADERS ++ ["x-audit-nonce"; "x-audit-proof-type"; "x-audit-delegated-key-id"].

(** Step 4: values that are not well formed are left out. *)
Definition keep (ok : string → bool) (o : option string) : option string := match o with Some s => if ok s then Some s else None | None => None end.
Definition access_params (raw : list (string * QueryValue)) : AuditQueryParams :=
  mkQueryParams (one raw "agent_did") (one raw "principal_did") (one raw "action") (one raw "session_id")
    (keep isValidIso8601 (one raw "start")) (keep isValidIso8601 (one raw "end"))
    (match one raw "limit" with Some s => limit_of s | None => None end) (one raw "cursor") None None.

(** Steps 5 and 6 *)
Definition read_boundary (A : AccessOptions) (headCreatedAt headRecordId target timestamp : string) (headRecordHash : option string)
    : handled (AuditSnapshotBoundary * Z) :=
  _ ← demand (UUID_V4_PATTERN headRecordId) 400 "AUDIT_SNAPSHOT_BOUNDARY_VIOLATED";
  found ← attempt (ao_findSnapshotAnchor A headRecordId target headCreatedAt);
  match found with
  | None => sendError 400 "AUDIT_SNAPSHOT_BOUNDARY_VIOLATED"
  | Some anchor =>
      _ ← demand (optional_equals headRecordHash (sa_recordHash anchor)) 400 "AUDIT_SNAPSHOT_BOUNDARY_VIOLATED";
      _ ← demand (negb (num_gtb (dateNum headCreatedAt) (dateNum timestamp))) 400 "AUDIT_SNAPSHOT_BOUNDARY_VIOLATED";
      mret (mkBoundary headCreatedAt headRecordId headRecordHash, sa_internalId anchor)
  end.

Definition PROOF_TYPE : string := "Ed25519Signature2020".

Section access.
Context `{Primitives}.

(** Steps 1 to 7: the query and the snapshot. *)
Definition read_query (A : AccessOptions) (routeName : Route) (rq : Request) : handled (SignedAuditQuery * option Z) :=
  _ ← well_formed (no_duplicates ACCESS_HEADERS rq);
  let nonce := raw_header rq "x-audit-nonce" in
  let proofType := raw_header rq "x-audit-proof-type" in
  let keyId := raw_header rq "x-audit-delegated-key-id" in
  _ ← well_formed (bool_decide (is_Some nonce) || negb (bool_decide (is_Some proofType) || bool_decide (is_Some keyId)));
  requesterDid ← required_header rq "x-audit-requester";
  signature ← required_header rq "x-audit-signature";
  timestamp ← required_header rq "x-audit-timestamp";
  let needsSnapshot := negb (bool_decide (routeName = ledger_head)) in
  let headCreatedAt := header rq "x-audit-snapshot-headcreatedat" in
  let headRecordId := header rq "x-audit-snapshot-headrecordid" in
  _ ← well_formed (negb needsSnapshot || bool_decide (is_Some headCreatedAt) && bool_decide (is_Some headRecordId));
  _ ← well_formed (isValidIso8601 timestamp);
  _ ← well_formed (match headCreatedAt with Some s => isValidIso8601 s | None => true end);
  target ← match one (rq_query rq) "agent_did" with
           | Some v => if str_startsWith v "did:agent:" || str_startsWith v "did:key:" then proceed v else malformed
           | None => malformed
           end;
  boundary ← match needsSnapshot, headRecordId, headCreatedAt with
             | true, Some id, Some at_ =>
                 b ← read_boundary A at_ id target timestamp (header rq "x-audit-snapshot-headrecordhash"); mret (Some b)
             | _, _, _ => proceed None
             end;
  _ ← well_formed (match nonce with Some n => UUID_V4_PATTERN n | None => true end);
  _ ← well_formed (match proofType with Some p => String.eqb p PROOF_TYPE | None => true end);
  mret (mkSignedQuery requesterDid target (mkBinding routeName (rq_id rq)) (access_params (rq_query rq)) (fst <$> boundary) timestamp signature
          nonce proofType ((λ k, if non_empty k then Some k else None) <$> keyId), snd <$> boundary).

(** Step 9 *)
Definition decode_key (did : string) : handled string :=
  match extractPublicKeyFromDIDKey did with Ok k => proceed k | Throw _ => sendError 401 "AUDIT_REQUESTER_UNKNOWN" end.
Definition query_key (A : AccessOptions) (q : SignedAuditQuery) : handled string :=
  match aq_delegatedAuditKeyId q with
  | Some (Some keyId) =>
      found ← attempt (ao_resolveKey A keyId (aq_targetAgentDid q));
      match found with
      | None => sendError 401 "AUDIT_REQUESTER_UNKNOWN"
      | Some key =>
          _ ← demand (String.eqb (dk_principalDid key) (aq_requesterDid q)) 401 "AUDIT_REQUESTER_UNKNOWN";
          decode_key (dk_delegatedTo key)
      end
  | _ => decode_key (aq_requesterDid q)
  end.

Definition signature_bytes (s : string) : string := match detectEncoding s with enc_base64url => toHex (buffer_base64url s) | enc_hex => s end.

(** Steps 8 to 10 *)
Definition access_authenticate (A : AccessOptions) (q : SignedAuditQuery) (now : Z) : handled unit :=
  _ ← demand (within_skew (aq_timestamp q) now) 401 "AUDIT_TIMESTAMP_SKEW";
  publicKey ← query_key A q;
  canonical ← attempt (canonicalize jcs (query_json q));
  sigValid ← attempt (verify (textEncode canonical) (signature_bytes (aq_signature q)) publicKey);
  demand sigValid 401 "AUDIT_SIGNATURE_INVALID".

Definition meta_event (q : SignedAuditQuery) (denied : option string) : MetaEvent :=
  mkMetaEvent (aq_requesterDid q) (aq_targetAgentDid q) (rb_route (aq_resourceBinding q)) denied (aq_timestamp q) (aq_nonce q).
Definition with_event (e : MetaEvent) (s : AccessState) : AccessState := mkAccessState (as_nonces s) (as_events s ++ [e]).

(** Steps 11 to 14 *)
Definition access_identity (A : AccessOptions) (q : SignedAuditQuery) : handled VerifiedAuditRequest :=
  match resolveForAudit (ao_identityStore A) (aq_targetAgentDid q) with
  | Throw code => if String.eqb code "BINDING_PROOF_INVALID" then sendError 401 "AUDIT_IDENTITY_UNVERIFIED" else fails code
  | Ok None => sendError 404 "IDENTITY_NOT_FOUND"
  | Ok (Some (document, status)) => mret (V_business q document status)
  end.

Definition client_version (q : SignedAuditQuery) : string :=
  if bool_decide (is_Some (aq_nonce q)) || bool_decide (is_Some (aq_proofType q)) then "v0.2" else "v0.1-compat".

Definition access_decision (A : AccessOptions) (q : SignedAuditQuery) (maxId : option Z) (s : AccessState) : handled Access * AccessState :=
  match access_identity A q with
  | answer r => (answer r, s)
  | fails c => (fails c, s)
  | proceed v =>
      match ao_checker A v with
      | Throw c => (fails c, s)
      | Ok (Some code) => (sendError (auditErrorToStatus code) code, with_event (meta_event q (Some code)) s)
      | Ok None => (proceed (mkAccess v maxId (client_version q)), with_event (meta_event q None) s)
      end
  end.

(** Step 10.1 is between: [now] is the clock of the middleware and [storeNow]
    that of the nonce store. *)
Definition createAuditAccessMiddleware (A : AccessOptions) (routeName : Route) (now storeNow : Z) (rq : Request) (s : AccessState)
    : handled Access * AccessState :=
  match ('(q, maxId) ← read_query A routeName rq; _ ← access_authenticate A q now; mret (q, maxId)) with
  | answer r => (answer r, s)
  | fails c => (fails c, s)
  | proceed (q, maxId) =>
      match aq_nonce q with
      | None => access_decision A q maxId s
      | Some nonce =>
          let '(isReplay, nonces) := nonce_checkAndStore NONCE_TTL_MS nonce storeNow (as_nonces s) in
          let s := mkAccessState nonces (as_events s) in
          if isReplay : bool then (sendError 401 "AUDIT_NONCE_REPLAY", s) else access_decision A q maxId s
      end
  end.
End access.

(** ** Theorems *)

Section theorems.
Context `{Primitives}.

Lemma nonce_stored ttl n now ns : (nonce_checkAndStore ttl n now ns).1 = false → map_get n (nonce_checkAndStore ttl n now ns).2 = Some (now + ttl).
Proof.
  unfold nonce_checkAndStore. destruct (map_get n ns) as [x|]; [destruct (now <? x)|]; cbn; [done|..]; intros _; by rewrite map_get_set, String.eqb_refl.
Qed.

Lemma middleware_cases A route now storeNow rq s h s' :
  createAuditAccessMiddleware A route now storeNow rq s = (h, s') → ∀ a, h = proceed a →
  ∃ q maxId, read_query A route rq = proceed (q, maxId) ∧ access_authenticate A q now = proceed tt
    ∧ match aq_nonce q with
      | None => access_decision A q maxId s = (proceed a, s')
      | Some n => (nonce_checkAndStore NONCE_TTL_MS n storeNow (as_nonces s)).1 = false
                  ∧ access_decision A q maxId (mkAccessState (nonce_checkAndStore NONCE_TTL_MS n storeNow (as_nonces s)).2 (as_events s)) = (proceed a, s')
      end.
Proof.
  unfold createAuditAccessMiddleware. intros Hm a ->. destruct (_ ≫= _) as [[q maxId]|r|c] eqn:E; [|by injection Hm..].
  apply handled_bind_proceed in E as ([q' m'] & Hq & E). apply handled_bind_proceed in E as ([] & Ha & [= -> ->]). exists q, maxId.
  split; [done|]. split; [done|]. destruct (aq_nonce q) as [n|]; [|done]. destruct (nonce_checkAndStore _ _ _ _) as [[] ns]; [by injection Hm|]. done.
Qed.

Lemma decision_proceeds A q maxId s a s' :
  access_decision A q maxId s = (proceed a, s') →
  ∃ d st, resolveForAudit (ao_identityStore A) (aq_targetAgentDid q) = Ok (Some (d, st)) ∧ ac_request a = V_business q d st
    ∧ ao_checker A (V_business q d st) = Ok None ∧ s' = with_event (meta_event q None) s ∧ ac_snapshotMaxId a = maxId ∧ ac_clientVersion a = client_version q.
Proof.
  unfold access_decision, access_identity. destruct (resolveForAudit _ _) as [[[d st]|]|code]; [|by intros [=]|by destruct (String.eqb _ _); intros [=]].
  cbn [mret handled_ret]. destruct (ao_checker A _) as [[code|]|code] eqn:Ec; intros [= <- <-]. by exists d, st.
Qed.

(** Who is let in: a requester who is the principal of the target, with its own
    signature, or with that of the holder of an audit key of its own. *)
Theorem access_authorized A route now storeNow rq s a s' :
  ao_checker A = PrincipalAuditAccessChecker →
  createAuditAccessMiddleware A route now storeNow rq s = (proceed a, s') →
  ∃ q d st k signer, ac_request a = V_business q d st ∧ ad_principalDid d = aq_requesterDid q
    ∧ resolveForAudit (ao_identityStore A) (aq_targetAgentDid q) = Ok (Some (d, st))
    ∧ (∀ t, getTime (aq_timestamp q) = Some t → Z.abs (now - t) <= MAX_SKEW_MS)
    ∧ extractPublicKeyFromDIDKey signer = Ok k
    ∧ verify (textEncode (jcs (query_json q))) (signature_bytes (aq_signature q)) k = Ok true
    ∧ (signer = aq_requesterDid q
       ∨ ∃ keyId key, aq_delegatedAuditKeyId q = Some (Some keyId) ∧ ao_resolveKey A keyId (aq_targetAgentDid q) = Ok (Some key)
           ∧ dk_principalDid key = aq_requesterDid q ∧ dk_delegatedTo key = signer)
    ∧ as_events s' = as_events s ++ [meta_event q None].
Proof.
  intros Hc Hm. destruct (middleware_cases _ _ _ _ _ _ _ _ Hm a eq_refl) as (q & maxId & _ & Ha & Hd).
  assert (∃ s1, access_decision A q maxId s1 = (proceed a, s') ∧ as_events s1 = as_events s) as (s1 & Hd1 & Hev).
  { destruct (aq_nonce q); [destruct Hd as [_ Hd]; eexists; split; [exact Hd|done]|by exists s]. }
  apply decision_proceeds in Hd1 as (d & st & Hr & Hreq & Hok & -> & _). rewrite Hc in Hok. injection Hok as Hok. unfold forbidden_unless in Hok.
  destruct (_ && _) eqn:Eb; [|done]. apply andb_true_iff in Eb as [[Hp%String.eqb_eq _]%andb_true_iff _].
  unfold access_authenticate in Ha. apply handled_bind_proceed in Ha as (? & Hs%demand_proceed & Ha).
  apply handled_bind_proceed in Ha as (k & Hk & Ha). apply handled_bind_proceed in Ha as (c & Hcan%attempt_proceed & Ha).
  apply handled_bind_proceed in Ha as (b & Hb%attempt_proceed & ->%demand_proceed). apply canonicalize_inv in Hcan as [_ ->].
  assert (∃ signer, extractPublicKeyFromDIDKey signer = Ok k
    ∧ (signer = aq_requesterDid q
       ∨ ∃ keyId key, aq_delegatedAuditKeyId q = Some (Some keyId) ∧ ao_resolveKey A keyId (aq_targetAgentDid q) = Ok (Some key)
           ∧ dk_principalDid key = aq_requesterDid q ∧ dk_delegatedTo key = signer)) as (signer & Hsig & Hwho).
  { assert (∀ did, decode_key did = proceed k → extractPublicKeyFromDIDKey did = Ok k) as Hdec
      by (intros did; unfold decode_key; destruct (extractPublicKeyFromDIDKey did); [by intros [= ->]|done]).
    unfold query_key in Hk. destruct (aq_delegatedAuditKeyId q) as [[keyId|]|] eqn:Eid; [|exists (aq_requesterDid q); split; [by apply Hdec|by left]..].
    apply handled_bind_proceed in Hk as (o & Ho%attempt_proceed & Hk). destruct o as [key|]; [|done].
    apply handled_bind_proceed in Hk as (? & Hpk%demand_proceed%String.eqb_eq & Hk). exists (dk_delegatedTo key). split; [by apply Hdec|]. right. by exists keyId, key. }
  exists q, d, st, k, signer. split_and!; try done.
  - intros t Et. unfold within_skew in Hs. rewrite Et in Hs. by apply Z.leb_le in Hs.
  - cbn. by rewrite Hev.
Qed.

(** A nonce is good for one request in five minutes: after a request with it was
    let in, none with the same nonce is while the store keeps it. *)
Theorem nonce_replay_refused A route now storeNow rq s a s1 A' route' now' storeNow' rq' s2 h s3 q n maxId q' maxId' :
  createAuditAccessMiddleware A route now storeNow rq s = (proceed a, s1) → read_query A route rq = proceed (q, maxId) → aq_nonce q = Some n →
  map_get n (as_nonces s2) = map_get n (as_nonces s1) → storeNow' < storeNow + NONCE_TTL_MS →
  read_query A' route' rq' = proceed (q', maxId') → aq_nonce q' = Some n →
  createAuditAccessMiddleware A' route' now' storeNow' rq' s2 = (h, s3) → ∀ a', h ≠ proceed a'.
Proof.
  intros Hm Hq Hn Hs2 Hlt Hq' Hn' Hm' a' ->. destruct (middleware_cases _ _ _ _ _ _ _ _ Hm a eq_refl) as (q1 & m1 & Hq1 & _ & Hd).
  rewrite Hq in Hq1. injection Hq1 as <- <-. rewrite Hn in Hd. destruct Hd as [Hfresh Hd].
  apply decision_proceeds in Hd as (_ & _ & _ & _ & _ & -> & _). cbn [as_nonces with_event] in Hs2.
  destruct (middleware_cases _ _ _ _ _ _ _ _ Hm' a' eq_refl) as (q2 & m2 & Hq2 & _ & Hd'). rewrite Hq' in Hq2. injection Hq2 as <- <-.
  rewrite Hn' in Hd'. destruct Hd' as [Hfresh' _].
  apply nonce_stored in Hfresh as Hst.
  rewrite Hst in Hs2. unfold nonce_checkAndStore in Hfresh'. rewrite Hs2, (proj2 (Z.ltb_lt _ _)) in Hfresh' by done. done.
Qed.

(** The store forgets a nonce before the request expires: a request that was let
    in with a timestamp ahead of the clock is let in again, nonce and all, once
    its five minutes in the store are over. *)
Theorem nonce_forgotten_early A route now rq s a s1 q n maxId t now' :
  createAuditAccessMiddleware A route now now rq s = (proceed a, s1) → read_query A route rq = proceed (q, maxId) → aq_nonce q = Some n →
  getTime (aq_timestamp q) = Some t → now + NONCE_TTL_MS <= now' <= t + MAX_SKEW_MS → t - MAX_SKEW_MS <= now' →
  ∃ s2, createAuditAccessMiddleware A route now' now' rq s1 = (proceed a, s2).
Proof.
  intros Hm Hq Hn Ht Hnow Hlow. destruct (middleware_cases _ _ _ _ _ _ _ _ Hm a eq_refl) as (q1 & m1 & Hq1 & Ha & Hd).
  rewrite Hq in Hq1. injection Hq1 as <- <-. rewrite Hn in Hd. destruct Hd as [Hfresh Hd].
  pose proof Hd as (d & st & Hr & Hreq & Hok & -> & Hmax & Hver)%decision_proceeds.
  apply nonce_stored in Hfresh as Hst.
  unfold createAuditAccessMiddleware. rewrite Hq. cbn [mbind handled_bind].
  assert (access_authenticate A q now' = proceed tt) as ->.
  { unfold access_authenticate in Ha |- *. apply handled_bind_proceed in Ha as (? & _ & Ha). unfold within_skew. rewrite Ht.
    unfold demand at 1. by rewrite (proj2 (Z.leb_le _ _)) by (unfold MAX_SKEW_MS in *; lia). }
  cbn [mbind handled_bind mret handled_ret]. rewrite Hn. cbn [as_nonces with_event]. unfold nonce_checkAndStore at 1. rewrite Hst.
  rewrite (proj2 (Z.ltb_ge _ _)) by lia. unfold access_decision, access_identity. rewrite Hr. cbn [mret handled_ret]. rewrite Hok.
  eexists. f_equal. f_equal. destruct a as [? ? ?]. cbn in *. by rewrite Hreq, Hmax, Hver.
Qed.
End theorems.
