(* ===== verification/AuditRoutesExamples.v ===== *)
(** * Concrete audit queries

    The ledger of LedgerExamples.v with the queries of its principal, and the
    governor's ledger with those of a supervisor: the values at which the
    theorems on the audit routes are applied. *)
From S2P Require Import Prelude JsValue Time Encoding Crypto ToyPrimitives Authorization SignedPayload.
From S2P Require Import Examples ActionRecords ActionRecorder LedgerExamples Identity Registry AuditQuery AuditRoutes AuditAccess.
Open Scope Z_scope.

Definition qx_text : value → string := λ _, "(json)".
Lemma qx_text_no_did v : match v with VStr _ => True | _ => str_startsWith (qx_text v) "did:" = false end.
Proof. destruct v; done. Qed.

(** ** The principal and its agent *)

Definition qx_seed : bytes := seed_of 200.
Definition qx_principal : string := Eval vm_compute in publicKeyToDidKey (ed25519_pub qx_seed).
Definition qx_agent : string := Eval vm_compute in agent "a".
Definition qx_doc : AgentIdentityDocument :=
  mkDocument qx_agent "0.2.0" qx_principal (toHex (ed25519_pub (seed_of 11))) None None None "" "" None None None false.

Definition qx_table : table := Eval vm_compute in imap (λ i r, (Z.of_nat (S i), r)) (db_rows ledger2).
Definition qx_t : string := "2026-01-01T00:01:00.000Z".
Definition qx_now : Z := 1767225660000.

Definition qx_scopes : list (string * ControlPlaneRequesterScope) := [(qx_principal, mkRequesterScope ["did:agent:s"] None)].
Definition qx_store : IdentityStoreForAudit :=
  mkIdentityStore (λ did, if String.eqb did qx_agent then Ok (Some (qx_doc, st_active)) else Ok None) (Some (λ _, Ok (Some VNull))).
Definition qx_options : RouteOptions :=
  mkRouteOptions qx_store (rc_ledgerPublicKey ledger_rc) None (Some (ControlPlaneAuditAccessChecker qx_scopes)) None (λ _, Ok [qx_doc]).

(** ** Signed requests *)

Definition qx_head : AuditSnapshotBoundary := mkBoundary "2026-01-01T00:00:00.000Z" (uuid_of "2") None.
Definition qx_query (route : Route) (id : option string) (target : string) (p : AuditQueryParams) (b : option AuditSnapshotBoundary) (t : string)
    (nonce : option string) : SignedAuditQuery :=
  let q := mkSignedQuery qx_principal target (mkBinding route id) p b t "" nonce None None in
  let signature := match sign (textEncode (jcs (query_json q))) (toHex qx_seed) enc_hex with Ok s => s | Throw _ => "" end in
  mkSignedQuery qx_principal target (mkBinding route id) p b t signature nonce None None.
Definition qx_request (q : SignedAuditQuery) (raw : list (string * QueryValue)) : Request :=
  mkRequest ([("x-audit-requester", [aq_requesterDid q]); ("x-audit-signature", [aq_signature q]); ("x-audit-timestamp", [aq_timestamp q])]
             ++ match aq_snapshotBoundary q with
                | Some b => [("x-audit-snapshot-headcreatedat", [sb_headCreatedAt b]); ("x-audit-snapshot-headrecordid", [sb_headRecordId b])]
                | None => []
                end
             ++ match aq_nonce q with Some n => [("x-audit-nonce", [n])] | None => [] end)
    (rb_recordId (aq_resourceBinding q)) raw.

Definition qx_params (limit : option Z) (cursor : option string) : AuditQueryParams :=
  mkQueryParams (Some qx_agent) None None None None None limit cursor None None.
Definition qx_list : Request := Eval vm_compute in
  qx_request (qx_query records_list None qx_agent (qx_params (Some 1) None) (Some qx_head) qx_t None) [("agent_did", Q_one qx_agent); ("limit", Q_one "1")].
Definition qx_get : Request := Eval vm_compute in
  qx_request (qx_query records_get (Some (uuid_of "1")) qx_agent (mkQueryParams None None None None None None None None None None) (Some qx_head) qx_t None) [].

Definition qx_row1 : Row := Eval vm_compute in match qx_table with (_, r) :: _ => r | [] => mkRow "" "" "" "" None None None "" "" "" "" None None 0 end.

Example qx_listed : get_records qx_text qx_options qx_table qx_table qx_now qx_list
  = Ok (AR_list [qx_row1] (Some (encodeCursor "2026-01-01T00:00:00.000Z" 1))).
Proof. vm_compute. reflexivity. Qed.
Example qx_got : get_record qx_options qx_table qx_table qx_now qx_get = Ok (AR_record qx_row1).
Proof. vm_compute. reflexivity. Qed.
(** Six minutes later the signature is too old. *)
Example qx_late : get_record qx_options qx_table qx_table (qx_now + 360000) qx_get = Ok (AR_error 401 "AUDIT_TIMESTAMP_SKEW").
Proof. vm_compute. reflexivity. Qed.

Lemma disclosure_authorized_witness :
  ∃ v, authentic (va_query v) qx_now ∧ visible_row v (qx_table ++ qx_table) qx_row1.
Proof.
  destruct (disclosure_authorized qx_text qx_text_no_did qx_options qx_scopes qx_table qx_table qx_now qx_get records_get (AR_record qx_row1) qx_row1)
    as (v & H1 & _ & _ & _ & H2); [reflexivity|reflexivity| |left|by exists v].
  rewrite <- qx_got. constructor.
Defined.

(** *** Pages *)

Definition qx_verified : VerifiedAuditRequest :=
  V_business (qx_query records_list None qx_agent (qx_params (Some 1) None) (Some qx_head) qx_t None) qx_doc st_active.
(** A record that is added between the pages, after the snapshot. *)
Definition qx_later : table := qx_table ++ [(7, qx_row1)].

Lemma pages_complete_witness : concat (pages qx_text qx_verified 2 None [qx_table; qx_later]) = qx_table.*2.
Proof.
  rewrite (pages_complete qx_text qx_verified 2 qx_table [qx_table; qx_later] None None); [vm_compute; reflexivity| | |reflexivity|reflexivity| | |].
  - unfold table_ok, qx_table. cbn. repeat constructor.
  - intros e He. repeat (apply elem_of_cons in He as [->|He]; [unfold iso_range; cbn [fst snd created_at]; lia|]). by apply not_elem_of_nil in He.
  - vm_compute. lia.
  - repeat constructor.
  - vm_compute. lia.
Defined.

(** *** Nonces *)

Definition qx_access : AccessOptions :=
  mkAccessOptions PrincipalAuditAccessChecker qx_store
    (λ id target at_, Ok ((λ e : entry, mkSnapshotAnchor e.1 (record_hash e.2) at_) <$> find_anchor id target 1767225600000 qx_table)) NullDelegatedAuditKeyResolver.
(** Its timestamp is five minutes ahead. *)
Definition qx_signed : SignedAuditQuery := Eval vm_compute in
  qx_query records_list None qx_agent (qx_params None None) (Some qx_head) "2026-01-01T00:06:00.000Z" (Some (uuid_of "a")).
Definition qx_nonced : Request := Eval vm_compute in qx_request qx_signed [("agent_did", Q_one qx_agent)].
Definition qx_idle : AccessState := mkAccessState [] [].
Definition qx_granted : Access := mkAccess (V_business qx_signed qx_doc st_active) (Some 2) "v0.2".
Definition qx_used : AccessState := mkAccessState [(uuid_of "a", qx_now + 300000)] [meta_event qx_signed None].

Lemma qx_enters : createAuditAccessMiddleware qx_access records_list qx_now qx_now qx_nonced qx_idle = (proceed qx_granted, qx_used).
Proof. vm_compute. reflexivity. Qed.
Lemma qx_reads : read_query qx_access records_list qx_nonced = proceed (qx_signed, Some 2).
Proof. vm_compute. reflexivity. Qed.

Lemma access_authorized_witness : as_events qx_used = [meta_event qx_signed None] ∧ ∃ q d st, ac_request qx_granted = V_business q d st ∧ ad_principalDid d = aq_requesterDid q.
Proof.
  destruct (access_authorized qx_access records_list qx_now qx_now qx_nonced qx_idle qx_granted qx_used eq_refl qx_enters) as (q & d & st & k & sg & H1 & H2 & _).
  split; [reflexivity|]. by exists q, d, st.
Defined.

Lemma nonce_replay_refused_witness :
  (createAuditAccessMiddleware qx_access records_list (qx_now + 1000) (qx_now + 1000) qx_nonced qx_used).1 ≠ proceed qx_granted.
Proof.
  apply (nonce_replay_refused qx_access records_list qx_now qx_now qx_nonced qx_idle qx_granted qx_used qx_access records_list (qx_now + 1000)
           (qx_now + 1000) qx_nonced qx_used _ _ qx_signed (uuid_of "a") (Some 2) qx_signed (Some 2) qx_enters qx_reads eq_refl eq_refl ltac:(unfold NONCE_TTL_MS; lia)
           qx_reads eq_refl (surjective_pairing _)).
Defined.

Lemma nonce_forgotten_early_witness :
  ∃ s2, createAuditAccessMiddleware qx_access records_list (qx_now + 400000) (qx_now + 400000) qx_nonced qx_used = (proceed qx_granted, s2).
Proof.
  apply (nonce_forgotten_early qx_access records_list qx_now qx_nonced qx_idle qx_granted qx_used qx_signed (uuid_of "a") (Some 2) 1767225960000
           (qx_now + 400000) qx_enters qx_reads eq_refl).
  - vm_compute. reflexivity.
  - unfold NONCE_TTL_MS, MAX_SKEW_MS, qx_now. lia.
  - unfold MAX_SKEW_MS, qx_now. lia.
Defined.

(** *** Single records, chains and heads *)

Lemma existence_oracle_witness :
  get_record qx_options qx_table qx_table qx_now (probe_request (uuid_of "1")) = Ok (AR_error 400 "AUDIT_SNAPSHOT_BOUNDARY_VIOLATED")
  ∧ get_record qx_options qx_table qx_table qx_now (probe_request (uuid_of "3")) = Ok (AR_error 400 "AUDIT_QUERY_MALFORMED").
Proof.
  assert (∀ e, e ∈ qx_table → record_id e.2 ≠ probe_anchor) as Hno.
  { intros e He. repeat (apply elem_of_cons in He as [->|He]; [vm_compute; discriminate|]). by apply not_elem_of_nil in He. }
  split.
  - etrans; [apply (existence_oracle qx_options qx_table qx_table qx_now (uuid_of "1")); [reflexivity|exact Hno]|vm_compute; reflexivity].
  - etrans; [apply (existence_oracle qx_options qx_table qx_table qx_now (uuid_of "3")); [reflexivity|exact Hno]|vm_compute; reflexivity].
Defined.

Definition qx_checks : list CheckResult :=
  [mkCheck "record_hash" true None; mkCheck "actor_signature" true None; mkCheck "ledger_signature" true None].
Lemma qx_verifies : handleVerify qx_options qx_verified 2 (Some (1, qx_row1)) = proceed (AR_verify true qx_checks).
Proof. vm_compute. reflexivity. Qed.
Lemma verified_record_genuine_witness : intact_row qx_row1.
Proof. exact (proj1 (verified_record_genuine qx_options qx_verified 2 (1, qx_row1) qx_checks qx_verifies)). Defined.

Lemma qx_table_ok : table_ok qx_table.
Proof. unfold table_ok. cbn. repeat constructor. Qed.

Lemma chain_verify_complete_witness : handleChainVerify qx_verified 2 qx_table qx_table = proceed (AR_chain_valid 2).
Proof.
  apply (chain_verify_complete (checker_resolve false ledger_keys) (rc_ledgerPublicKey ledger_rc)
           (qx_query records_list None qx_agent (qx_params (Some 1) None) (Some qx_head) qx_t None) qx_doc st_active 2 qx_table qx_table 0 qx_table_ok eq_refl eq_refl).
  - vm_compute. discriminate.
  - vm_compute. reflexivity.
Defined.

Definition qx_anyone : Request := mkRequest [] None [("agent_did", Q_one qx_agent)].
Definition qx_ledger_head : Head := mkHead qx_agent (uuid_of "2") "2026-01-01T00:00:00.000Z" (default "" (record_hash ∘ snd <$> last qx_table)).
Lemma head_is_anchor_witness : ∃ e createdAt, find_anchor (uuid_of "2") qx_agent createdAt qx_table = Some e ∧ e ∈ qx_table.
Proof.
  destruct (head_is_anchor qx_table qx_table qx_anyone qx_ledger_head) as (e & t & He & _ & _ & _ & Hf & _).
  - vm_compute. reflexivity.
  - exists []. split; [by rewrite app_nil_r|exact qx_table_ok].
  - intros e He. repeat (apply elem_of_cons in He as [->|He]; [unfold iso_range; cbn [fst snd created_at]; lia|]). by apply not_elem_of_nil in He.
  - apply (bool_decide_eq_true_1 _). vm_compute. reflexivity.
  - exists e, t. split; [exact Hf|exact He].
Defined.

(** *** The governor's ledger *)

Definition qx_supersede (id subject : string) : Row :=
  mkRow id SESSION_GOVERNOR_DID SESSION_GOVERNOR_DID "SESSION_SUPERSEDED" (Some (VObj [("affectedAgentDid", VStr subject)])) None None "h" "" "" "" None None 0.
Definition qx_governor : table := [(1, qx_supersede (uuid_of "1") "did:agent:s"); (2, qx_supersede (uuid_of "2") "did:agent:other")].
Definition qx_subject : AuditQueryParams := mkQueryParams (Some SESSION_GOVERNOR_DID) None None None None None None None (Some "did:agent:s") None.
Definition qx_supervised : SignedAuditQuery := mkSignedQuery qx_principal SESSION_GOVERNOR_DID (mkBinding ledger_head None) qx_subject None qx_t "" None None None.

Lemma qx_scoped : scoped qx_subject.
Proof. by split; intros a [= <-]. Qed.

Lemma surfaces_agree_witness :
  handleGet (V_control qx_supervised VNull) 2 (Some (1, qx_supersede (uuid_of "1") "did:agent:s")) = proceed (AR_record (qx_supersede (uuid_of "1") "did:agent:s"))
  ↔ (1, qx_supersede (uuid_of "1") "did:agent:s") ∈ subject_rows qx_text qx_subject "did:agent:s" qx_governor.
Proof.
  apply (surfaces_agree qx_text qx_text_no_did qx_supervised VNull 2 qx_governor (1, qx_supersede (uuid_of "1") "did:agent:s") "did:agent:s" eq_refl qx_scoped eq_refl);
    [left|cbn; lia].
Defined.

(** The head of the subject is the first record, and stays so after a second one
    about the subject is written. *)
Definition qx_subject_head : Head := mkHead SESSION_GOVERNOR_DID (uuid_of "1") "1970-01-01T00:00:00.000Z" "h".
Definition qx_cache : list (string * Anchor) := [(head_key qx_supervised "did:agent:s", mkAnchor 1 (qx_now + 300000))].
Lemma signed_head_stable_witness :
  signedLedgerHead qx_text (V_control qx_supervised VNull) (qx_now + 60000) 0 [] (qx_governor ++ [(3, qx_supersede (uuid_of "3") "did:agent:s")]) id qx_cache
  = (proceed (AR_head qx_subject_head), qx_cache).
Proof.
  apply (signed_head_stable qx_text qx_supervised VNull qx_now qx_now qx_governor qx_governor [] (qx_governor ++ [(3, qx_supersede (uuid_of "3") "did:agent:s")])
           id id [] 0 qx_cache qx_cache qx_subject_head (qx_now + 60000) "did:agent:s" eq_refl); try reflexivity.
  - exists []. split; [by rewrite app_nil_r|]. unfold table_ok. cbn. repeat constructor.
  - exists [(3, qx_supersede (uuid_of "3") "did:agent:s")]. split; [reflexivity|]. unfold table_ok. cbn. repeat constructor.
Defined.
