(* ===== verification/TransportVerifier.v ===== *)
(** * Transport verifiers

    Models packages/identity/src/cryptographic-verifier: the three verifiers that
    derive a DID from the evidence of a transport (a client certificate, a JSON
    web token, an OAuth2 access token), with the cache, the circuit breaker and
    the rate limiter of the third, and the checks at the boundary where their
    result is used; with the data of packages/types/src/sdk/types.ts.

    The packages @peculiar/x509, jose and openid-client are parameters: the
    operations of certificates are the class [X509], the check of a token is
    [jwtVerify] of the class [Jose], and the answers of an issuer are arguments.
    Readings of the clock are arguments, in milliseconds. *)
From S2P Require Import Prelude JsValue Time Encoding Crypto Authorization SignedPayload Multisig HashChain SecureChannel AuditQuery.

(** ** Data *)

Inductive VerifierKind : Type := kind_mtls | kind_jwt | kind_oauth2.
#[export] Instance VerifierKind_eq_dec : EqDecision VerifierKind.
Proof. solve_decision. Defined.

Record VerifiedTransportContext : Type := mkTransport {
  trustedDid : string;
  verifierKind : VerifierKind;
  verifiedSubject : string;
  verifiedAt : string;
  sdkVersion : string }.

(** ** DIDs in names

    The regular expressions are matched on characters.  A run of a class is
    greedy; the characters that follow a run in the patterns are outside its
    class, so a shorter run never matches where the longest does not. *)

Definition is_lower_alnum (c : ascii) : bool := let n := N_of_ascii c in is_digit c || ((97 <=? n)%N && (n <=? 122)%N).
Definition is_did_char (c : ascii) : bool := is_alpha c || is_digit c || bool_decide (c ∈ chars "._%-").

Fixpoint span (f : ascii → bool) (l : list ascii) : list ascii * list ascii :=
  match l with
  | c :: l' => if f c then let '(a, b) := span f l' in (c :: a, b) else ([], l)
  | [] => ([], [])
  end.

Fixpoint strip (p l : list ascii) : option (list ascii) :=
  match p, l with
  | [], _ => Some l
  | a :: p', b :: l' => if Ascii.eqb a b then strip p' l' else None
  | _, [] => None
  end.

(** [did:[a-z0-9]+:[a-zA-Z0-9._%-]+] at the head: the match. *)
Definition did_token (l : list ascii) : option (list ascii) :=
  l1 ← strip (chars "did:") l;
  let '(method, l2) := span is_lower_alnum l1 in
  l3 ← strip [":"%char] l2;
  let '(name, _) := span is_did_char l3 in
  match method, name with
  | _ :: _, _ :: _ => Some (chars "did:" ++ method ++ [":"%char] ++ name)
  | _, _ => None
  end.

(** [s.match(/did:.../)] *)
Fixpoint find_did (l : list ascii) : option (list ascii) :=
  match did_token l with
  | Some t => Some t
  | None => match l with [] => None | _ :: l' => find_did l' end
  end.

(** [key\s*(did:...)] at the head, where [keys] are the alternatives of the key:
    the DID and the number of characters matched. *)
Definition keyed_did (keys : list (list ascii)) (l : list ascii) : option (list ascii * nat) :=
  first_some (λ key,
    l1 ← strip key l;
    let '(spaces, l2) := span is_space l1 in
    t ← did_token l2;
    Some (t, (length key + length spaces + length t)%nat)) keys.

(** With [(?:^|[\s,])] in front: at the start of the text, or after a space or a
    comma. *)
Definition separated (c : ascii) : bool := is_space c || Ascii.eqb c ",".
Definition field_did (keys : list (list ascii)) (start : bool) (l : list ascii) : option (list ascii * nat) :=
  match (if start then keyed_did keys l else None) with
  | Some m => Some m
  | None =>
      match l with
      | c :: l' => if separated c then '(t, n) ← keyed_did keys l'; Some (t, S n) else None
      | [] => None
      end
  end.

(** [text.matchAll(...)]: the search goes on where the last match ended. *)
Fixpoint field_dids (keys : list (list ascii)) (start : bool) (skip : nat) (l : list ascii) : list (list ascii) :=
  match l with
  | [] => []
  | _ :: l' =>
      match skip with
      | S k => field_dids keys false k l'
      | O => match field_did keys start l with
             | Some (t, n) => t :: field_dids keys false (n - 1) l'
             | None => field_dids keys false 0 l'
             end
      end
  end.

Definition URI_KEYS : list (list ascii) := [chars "URI="; chars "URI:"].
Definition CN_KEYS : list (list ascii) := [chars "CN="].

Definition uri_dids (subject : string) : list string := str <$> field_dids URI_KEYS true 0 (chars subject).
(** The first match is the first of all matches. *)
Definition cn_did (subject : string) : option string := str <$> head (field_dids CN_KEYS true 0 (chars subject)).

(** ** boundary-check.ts *)

Definition assertTrustedDidMatchesExpected (trusted expected : string) : res unit :=
  check (String.eqb trusted expected) "SDK_MAPPING_MISMATCH".

Definition assertTrustedDidIsKindAndFresh (ctx : VerifiedTransportContext) (did : string) (kinds : list VerifierKind)
    (toleranceSeconds : option Z) (now : Z) : res unit :=
  _ ← check (String.eqb (trustedDid ctx) did) "SDK_MAPPING_MISMATCH";
  _ ← check (bool_decide (verifierKind ctx ∈ kinds)) "SDK_MAPPING_MISMATCH";
  let toleranceMs := default 60 toleranceSeconds * 1000 in
  match iso_getTime (verifiedAt ctx) with
  | None => Throw "SDK_SCHEMA_VIOLATION"
  | Some verifiedAtMs =>
      let ageMs := now - verifiedAtMs in
      _ ← check (ageMs <=? toleranceMs) "SDK_SCHEMA_VIOLATION";
      _ ← check (- toleranceMs <=? ageMs) "SDK_SCHEMA_VIOLATION";
      check (String.eqb (sdkVersion ctx) "2.0.0") "SDK_SCHEMA_VIOLATION"
  end.

Definition extractDidFromCertSubjectDn (subject : string) : res string :=
  match uri_dids subject with
  | did :: more => _ ← check (forallb (String.eqb did) more) "SDK_SCHEMA_VIOLATION"; mret did
  | [] => match cn_did subject with Some did => mret did | None => Throw "SDK_SCHEMA_VIOLATION" end
  end.

Definition assertCrossCheckMappingConsistent (ctx : VerifiedTransportContext) : res unit :=
  match verifierKind ctx with
  | kind_mtls =>
      _ ← check (non_empty (verifiedSubject ctx)) "SDK_SCHEMA_VIOLATION";
      extractedDid ← extractDidFromCertSubjectDn (verifiedSubject ctx);
      check (String.eqb extractedDid (trustedDid ctx)) "SDK_MAPPING_MISMATCH"
  | kind_jwt | kind_oauth2 => check (String.eqb (verifiedSubject ctx) (trustedDid ctx)) "SDK_MAPPING_MISMATCH"
  end.

(** ** mtls-helpers.ts and verify-mtls.ts *)

(** The package @peculiar/x509. *)
Class X509 : Type := {
  Certificate : Type;
  (** what a certificate is given as: DER bytes or PEM text *)
  CertInput : Type;
  (** the constructor, [None] when it throws *)
  parse_certificate : CertInput → option Certificate;
  subject : Certificate → string;
  serialNumber : Certificate → string;
  (** times, as the numbers that dates are compared by *)
  notBefore : Certificate → num;
  notAfter : Certificate → num;
  (** the extensions: [ca] and [pathLength], the bits of the key usage, the
      extended usages, the text of the alternative names *)
  basicConstraints : Certificate → option (bool * option Z);
  keyUsages : Certificate → option Z;
  extendedKeyUsage : Certificate → option (list string);
  alternativeNames : Certificate → option string;
  (** [subjectName.toString()] *)
  subjectName : Certificate → string;
  (** [cert.verify] with the public key of the second, [None] when it throws *)
  signed_with_key_of : Certificate → Certificate → option bool;
  (** [X509ChainBuilder.build] over a pool, [None] when it throws *)
  build_chain : list Certificate → Certificate → option (list Certificate);
  digitalSignature : Z;
  keyCertSign : Z }.

Section mtls.
Context `{X509}.

Definition parseX509Cert (input : CertInput) : res Certificate :=
  match parse_certificate input with Some c => mret c | None => Throw "SDK_MTLS_VERIFY_FAILED" end.

(** [pathLength], when given, against the number of authorities the code counts
    for the certificate at [i] of [n]. *)
Definition path_length_ok (n i : nat) (pathLength : option Z) : bool :=
  match pathLength with
  | Some p => let remainingCaDepth := Z.of_nat n - 1 - Z.of_nat i - 1 in remainingCaDepth <=? p
  | None => true
  end.

(** The body of the loop over the chain, for the certificate at [i] of [n]. *)
Definition certificate_ok (now : Z) (n i : nat) (cert parent : Certificate) : bool :=
  let isLeaf := Nat.eqb i 0 in
  negb (num_ltb (Fin now) (notBefore cert) || num_gtb (Fin now) (notAfter cert))
  && match signed_with_key_of cert parent with Some ok => ok | None => false end
  && match basicConstraints cert with
     | Some (ca, pathLength) => if isLeaf then negb ca else ca && path_length_ok n i pathLength
     | None => isLeaf
     end
  && match keyUsages cert with
     | Some usages => negb (Z.land usages (if isLeaf then digitalSignature else keyCertSign) =? 0)
     | None => false
     end
  && (if isLeaf then
        match extendedKeyUsage cert with
        | Some usages => existsb (λ u, String.eqb u "1.3.6.1.5.5.7.3.2" || String.eqb u "clientAuth") usages
        | None => false
        end
      else true).

Fixpoint certificates_ok (now : Z) (n i : nat) (chain : list Certificate) : bool :=
  match chain with
  | [] => true
  | cert :: rest => certificate_ok now n i cert (default cert (head rest)) && certificates_ok now n (S i) rest
  end.

Definition same_name (c r : Certificate) : bool := String.eqb (subject r) (subject c) && String.eqb (serialNumber r) (serialNumber c).

Definition validateCertChain (chain trustedRoots : list Certificate) (now : Z) : bool :=
  match chain, trustedRoots with
  | leaf :: intermediates, _ :: _ =>
      match build_chain (trustedRoots ++ intermediates) leaf with
      | Some fullChain =>
          Nat.leb 2 (length fullChain) && certificates_ok now (length fullChain) 0 fullChain
          && match last fullChain with Some rootCandidate => existsb (same_name rootCandidate) trustedRoots | None => false end
      | None => false
      end
  | _, _ => false
  end.

Definition extractDidFromCertSubject (cert : Certificate) : res string :=
  match alternativeNames cert ≫= (λ text, find_did (chars text)) with
  | Some did => mret (str did)
  | None => match cn_did (subject cert) with Some did => mret did | None => Throw "SDK_MTLS_VERIFY_FAILED" end
  end.

Record MtlsVerifierContext : Type := mkMtlsContext {
  clientCert : CertInput;
  trustedRootCerts : list CertInput;
  intermediateChain : option (list CertInput);
  mtls_expectedDid : string }.

(** The name of the subject, with the DID when it is not in it. *)
Definition subject_with_did (rawSubjectDn certDid : string) : string :=
  if str_includes rawSubjectDn certDid then rawSubjectDn else rawSubjectDn +:+ ", URI=" +:+ certDid.

Definition verifyMtlsAndDeriveDid (ctx : MtlsVerifierContext) (chainNow now : Z) : res VerifiedTransportContext :=
  clientCertObj ← parseX509Cert (clientCert ctx);
  intermediates ← mapM parseX509Cert (default [] (intermediateChain ctx));
  trustedRoots ← mapM parseX509Cert (trustedRootCerts ctx);
  _ ← check (validateCertChain (clientCertObj :: intermediates) trustedRoots chainNow) "SDK_MTLS_VERIFY_FAILED";
  certDid ← extractDidFromCertSubject clientCertObj;
  let certSubjectDn := subject_with_did (subjectName clientCertObj) certDid in
  _ ← check (String.eqb certDid (mtls_expectedDid ctx)) "SDK_MAPPING_MISMATCH";
  mret (mkTransport (mtls_expectedDid ctx) kind_mtls certSubjectDn (toISOString now) "2.0.0").
End mtls.

(** ** jwt-helpers.ts and verify-jwt.ts *)

Definition JWT_ALG_ASYMMETRIC : list string := ["RS256"; "RS384"; "RS512"; "ES256"; "ES384"; "ES512"; "EdDSA"].
Definition JWT_ALG_SYMMETRIC_RESTRICTED : list string := ["HS256"; "HS384"; "HS512"].
Definition JWT_ALG_DENYLIST : list string := ["none"; "NONE"; "None"].

(** Where the keys of an issuer come from. *)
Inductive Jwks : Type := jwks_url (url : string) | jwks_keys (keys : list value).

Record JwtVerifierContext : Type := mkJwtContext {
  jwt : string;
  jwks : Jwks;
  expectedIssuer : string;
  jwt_expectedAudience : string;
  jwt_expectedDid : string;
  allowSymmetricAlg : option bool }.

(** The package jose: [jwtVerify] with the keys, the issuer, the audience and the
    algorithms, giving the claims of the payload or throwing; and whether a text
    is a URL. *)
Class Jose : Type := {
  jwtVerify : string → Jwks → string → string → list string → res object;
  is_url : string → bool }.

Section jwt.
Context `{JsonText} `{Jose}.

(** The value of [header.alg]; [null] has no properties. *)
Definition header_alg (header : value) : res value :=
  match header with
  | VNull => Throw "TypeError"
  | VObj o => mret (default VUndefined (map_get "alg" o))
  | _ => mret VUndefined
  end.

Definition verifyJwtAlgAllowed (token : string) (allowSymmetric : bool) : res unit :=
  let headerSeg := str_before "." token in
  _ ← check (non_empty headerSeg) "SDK_JWT_VERIFY_FAILED";
  match parse_json (text_of (buffer_base64url headerSeg)) with
  | None => Throw "SDK_JWT_VERIFY_FAILED"
  | Some header =>
      alg ← header_alg header;
      match alg with
      | VStr alg =>
          _ ← check (non_empty alg) "SDK_JWT_VERIFY_FAILED";
          _ ← check (negb (bool_decide (alg ∈ JWT_ALG_DENYLIST))) "SDK_JWT_VERIFY_FAILED";
          check (bool_decide (alg ∈ JWT_ALG_ASYMMETRIC) || allowSymmetric && bool_decide (alg ∈ JWT_ALG_SYMMETRIC_RESTRICTED))
            "SDK_JWT_VERIFY_FAILED"
      | _ => Throw "SDK_JWT_VERIFY_FAILED"
      end
  end.

Definition allowed_algorithms (symmetric : bool) : list string :=
  if symmetric then JWT_ALG_ASYMMETRIC ++ JWT_ALG_SYMMETRIC_RESTRICTED else JWT_ALG_ASYMMETRIC.

Definition verifyJwtAndDeriveDid (ctx : JwtVerifierContext) (now : Z) : res VerifiedTransportContext :=
  let symmetric := bool_decide (allowSymmetricAlg ctx = Some true) in
  _ ← verifyJwtAlgAllowed (jwt ctx) symmetric;
  _ ← match jwks ctx with jwks_url url => check (is_url url) "TypeError" | jwks_keys _ => mret tt end;
  match jwtVerify (jwt ctx) (jwks ctx) (expectedIssuer ctx) (jwt_expectedAudience ctx) (allowed_algorithms symmetric) with
  | Throw _ => Throw "SDK_JWT_VERIFY_FAILED"
  | Ok payload =>
      match map_get "exp" payload with
      | Some (VNum _) =>
          match map_get "sub" payload with
          | Some (VStr sub) =>
              _ ← check (non_empty sub) "SDK_JWT_VERIFY_FAILED";
              _ ← check (String.eqb sub (jwt_expectedDid ctx)) "SDK_MAPPING_MISMATCH";
              mret (mkTransport (jwt_expectedDid ctx) kind_jwt sub (toISOString now) "2.0.0")
          | _ => Throw "SDK_JWT_VERIFY_FAILED"
          end
      | _ => Throw "SDK_JWT_VERIFY_FAILED"
      end
  end.
End jwt.

(** ** oauth2-helpers.ts: the cache of introspections *)

Record OAuth2TrustAuthority : Type := mkAuthority {
  issuerUrl : string;
  introspectionEndpoint : string;
  introspectionClientId : string;
  oa_expectedAudience : string }.

(** An answer of the introspection endpoint.  [ir_exp] is [exp] in thousandths,
    that is, the number the code gets by [exp * 1000]. *)
Record IntrospectionResponse : Type := mkIntrospection {
  ir_active : value;
  ir_exp : option num;
  ir_aud : value;
  ir_client_id : value;
  ir_sub : value }.

(** Of a call to the issuer: an answer, or an exception. *)
Abbreviation Answer := (res IntrospectionResponse).

Section cache.
Context `{Primitives}.

Record IntrospectionEntry : Type := mkIntrospectionEntry { ce_response : IntrospectionResponse; ce_expiresAt : num }.
Abbreviation IntrospectionCache := (list (string * IntrospectionEntry)).

Definition SEP : string := str [ascii_of_nat 31].

Definition key_material (a : OAuth2TrustAuthority) (accessToken : string) : string :=
  issuerUrl a +:+ SEP +:+ introspectionEndpoint a +:+ SEP +:+ introspectionClientId a +:+ SEP +:+ oa_expectedAudience a
  +:+ SEP +:+ accessToken.

Definition computeCacheKey (a : OAuth2TrustAuthority) (accessToken : string) : string :=
  toHex (sha256 (textEncode (key_material a accessToken))).

Definition is_active (r : IntrospectionResponse) : bool := match ir_active r with VBool b => b | _ => false end.

(** [response.exp ? response.exp * 1000 : Infinity] *)
Definition response_expiry (r : IntrospectionResponse) : num :=
  match ir_exp r with
  | Some (Fin 0) | Some NaN | None => PInf
  | Some e => e
  end.

(** The cached response that is still good. *)
Definition cached_response (key : string) (now : Z) (cache : IntrospectionCache) : option IntrospectionResponse :=
  e ← map_get key cache; if num_gtb (ce_expiresAt e) (Fin now) then Some (ce_response e) else None.

(** What is stored of a response that arrived: the clock is read for the
    expiry and again for the test. *)
Definition store_response (cacheTtlMs : Z) (key : string) (response : IntrospectionResponse) (storedAt testedAt : Z)
    (cache : IntrospectionCache) : IntrospectionCache :=
  if is_active response then
    let expiresAt := num_min (Fin (storedAt + cacheTtlMs)) (response_expiry response) in
    if num_gtb expiresAt (Fin testedAt) then map_set key (mkIntrospectionEntry response expiresAt) cache else cache
  else cache.

Definition getOrIntrospect (cacheTtlMs : Z) (a : OAuth2TrustAuthority) (accessToken : string) (introspect : Answer)
    (lookedUpAt storedAt testedAt : Z) : M IntrospectionCache IntrospectionResponse := λ cache,
  let key := computeCacheKey a accessToken in
  match cached_response key lookedUpAt cache with
  | Some response => (Ok response, cache)
  | None =>
      match introspect with
      | Ok response => (Ok response, store_response cacheTtlMs key response storedAt testedAt cache)
      | Throw c => (Throw c, cache)
      end
  end.

Definition cache_invalidate (a : OAuth2TrustAuthority) (accessToken : string) (cache : IntrospectionCache) : IntrospectionCache :=
  map_delete (computeCacheKey a accessToken) cache.
End cache.
Abbreviation IntrospectionCache := (list (string * IntrospectionEntry)).

(** ** oauth2-helpers.ts: the circuit breaker *)

Inductive CircuitState : Type := CLOSED | OPEN | HALF_OPEN.

Record OAuth2CircuitBreaker : Type := mkBreaker {
  cb_state : CircuitState;
  failCount : Z;
  openedAt : Z }.

Section breaker.
Context (failureThreshold cooldownMs : Z).

(** [execute] before it runs the operation: whether it does, and the state. *)
Definition breaker_enter (now : Z) (b : OAuth2CircuitBreaker) : res unit * OAuth2CircuitBreaker :=
  match cb_state b with
  | OPEN =>
      if cooldownMs <=? now - openedAt b then (Ok tt, mkBreaker HALF_OPEN (failCount b) (openedAt b))
      else (Throw "SDK_OAUTH2_VERIFY_FAILED", b)
  | _ => (Ok tt, b)
  end.

(** [execute] when the operation has returned or thrown. *)
Definition breaker_success (b : OAuth2CircuitBreaker) : OAuth2CircuitBreaker := mkBreaker CLOSED 0 (openedAt b).

Definition breaker_failure (now : Z) (b : OAuth2CircuitBreaker) : OAuth2CircuitBreaker :=
  let n := failCount b + 1 in
  match cb_state b with
  | HALF_OPEN => mkBreaker OPEN n now
  | s => if failureThreshold <=? n then mkBreaker OPEN n now else mkBreaker s n (openedAt b)
  end.
End breaker.

(** ** oauth2-helpers.ts: the rate limiter

    Tokens are counted in thousandths: [refillPerSec] tokens a second are as many
    thousandths a millisecond. *)

Record OAuth2RateLimiter : Type := mkLimiter {
  milliTokens : Z;
  lastRefill : Z }.

Section limiter.
Context (capacity refillPerSec : Z).

Definition new_limiter (now : Z) : OAuth2RateLimiter := mkLimiter (capacity * 1000) now.

Definition limiter_consume (now : Z) (l : OAuth2RateLimiter) : res unit * OAuth2RateLimiter :=
  let tokens := Z.min (capacity * 1000) (milliTokens l + (now - lastRefill l) * refillPerSec) in
  if tokens <? 1000 then (Throw "SDK_OAUTH2_VERIFY_FAILED", mkLimiter tokens now) else (Ok tt, mkLimiter (tokens - 1000) now).
End limiter.

(** ** verify-oauth2.ts *)

Record OAuth2VerifierContext : Type := mkOAuth2Context {
  accessToken : string;
  ox_authority : OAuth2TrustAuthority;
  introspectionClientSecret : string;
  oauth2_expectedDid : string }.

(** The three instances of the module. *)
Record OAuth2State : Type := mkOAuth2State {
  os_cache : IntrospectionCache;
  os_breaker : OAuth2CircuitBreaker;
  os_limiter : OAuth2RateLimiter }.

Definition CACHE_TTL_MS : Z := 60 * 1000.
Definition FAILURE_THRESHOLD : Z := 5.
Definition COOLDOWN_MS : Z := 60 * 1000.
Definition RATE_CAPACITY : Z := 100.
Definition RATE_REFILL : Z := 100.

(** What the issuer answers during a call, and the readings of the clock in
    their order: [ob_discovery] is the introspection endpoint in its metadata. *)
Record OAuth2Answers : Type := mkOAuth2Answers {
  ob_discovery : res (option string);
  ob_introspection : Answer;
  ob_consumedAt : Z;
  ob_enteredAt : Z;
  ob_lookedUpAt : Z;
  ob_storedAt : Z;
  ob_testedAt : Z;
  ob_failedAt : Z;
  ob_checkedAt : Z;
  ob_verifiedAt : Z }.

Section oauth2.
Context `{Primitives} `{Jose}.

(** The operation that runs inside the breaker. *)
Definition introspect_token (ctx : OAuth2VerifierContext) (o : OAuth2Answers) : M IntrospectionCache IntrospectionResponse := λ cache,
  if is_url (issuerUrl (ox_authority ctx)) then
    match ob_discovery o with
    | Ok (Some endpoint) =>
        if String.eqb endpoint (introspectionEndpoint (ox_authority ctx)) then
          getOrIntrospect CACHE_TTL_MS (ox_authority ctx) (accessToken ctx)
            (match ob_introspection o with Ok r => Ok r | Throw _ => Throw "SDK_OAUTH2_VERIFY_FAILED" end)
            (ob_lookedUpAt o) (ob_storedAt o) (ob_testedAt o) cache
        else (Throw "SDK_OAUTH2_VERIFY_FAILED", cache)
    | _ => (Throw "SDK_OAUTH2_VERIFY_FAILED", cache)
    end
  else (Throw "SDK_OAUTH2_VERIFY_FAILED", cache).

(** [circuitBreaker.execute] around it. *)
Definition execute_introspection (ctx : OAuth2VerifierContext) (o : OAuth2Answers) : M OAuth2State IntrospectionResponse := λ s,
  match breaker_enter COOLDOWN_MS (ob_enteredAt o) (os_breaker s) with
  | (Throw c, b) => (Throw c, mkOAuth2State (os_cache s) b (os_limiter s))
  | (Ok _, b) =>
      match introspect_token ctx o (os_cache s) with
      | (Ok r, cache) => (Ok r, mkOAuth2State cache (breaker_success b) (os_limiter s))
      | (Throw c, cache) => (Throw c, mkOAuth2State cache (breaker_failure FAILURE_THRESHOLD (ob_failedAt o) b) (os_limiter s))
      end
  end.

Definition consume_token (now : Z) : M OAuth2State unit := λ s,
  let '(r, l) := limiter_consume RATE_CAPACITY RATE_REFILL now (os_limiter s) in (r, mkOAuth2State (os_cache s) (os_breaker s) l).

Definition audience_matches (aud : value) (expected : string) : bool :=
  match aud with
  | VStr a => String.eqb a expected
  | VArr l => forallb (λ a, match a with VStr _ => true | _ => false end) l
              && existsb (λ a, match a with VStr a => String.eqb a expected | _ => false end) l
  | _ => false
  end.

(** [client_id ?? sub] *)
Definition candidate_subject (r : IntrospectionResponse) : value :=
  match ir_client_id r with VNull | VUndefined => ir_sub r | v => v end.

(** Steps 4 to 8, on the response. *)
Definition derive_did (ctx : OAuth2VerifierContext) (o : OAuth2Answers) (r : IntrospectionResponse) : res VerifiedTransportContext :=
  _ ← check (is_active r) "SDK_OAUTH2_VERIFY_FAILED";
  _ ← check (audience_matches (ir_aud r) (oa_expectedAudience (ox_authority ctx))) "SDK_OAUTH2_VERIFY_FAILED";
  _ ← check (negb (match ir_exp r with Some e => num_ltb e (Fin (ob_checkedAt o)) | None => false end)) "SDK_OAUTH2_VERIFY_FAILED";
  match candidate_subject r with
  | VStr candidate =>
      _ ← check (String.eqb candidate (oauth2_expectedDid ctx)) "SDK_MAPPING_MISMATCH";
      mret (mkTransport (oauth2_expectedDid ctx) kind_oauth2 candidate (toISOString (ob_verifiedAt o)) "2.0.0")
  | _ => Throw "SDK_MAPPING_MISMATCH"
  end.

Definition verifyOAuth2AndDeriveDid (ctx : OAuth2VerifierContext) (o : OAuth2Answers) : M OAuth2State VerifiedTransportContext :=
  _ ← consume_token (ob_consumedAt o);
  r ← execute_introspection ctx o;
  lift_res (derive_did ctx o r).
End oauth2.

(** ** Matching DIDs in names *)

(** A comma ends whatever is matched. *)
Lemma strip_comma p a b : forallb (λ c, negb (Ascii.eqb c ",")) p = true →
  strip p (a ++ ","%char :: b) = (λ r, r ++ ","%char :: b) <$> strip p a.
Proof.
  revert a. induction p as [|c p IH]; intros a Hp; [done|]. cbn in Hp. apply andb_true_iff in Hp as [Hc Hp].
  destruct a as [|x a]; cbn; [by rewrite (negb_true_iff _ : Ascii.eqb c "," = false) || (apply negb_true_iff in Hc; by rewrite Hc)|].
  destruct (Ascii.eqb c x); [by apply IH|done].
Qed.

Lemma span_comma f a b : f ","%char = false → span f (a ++ ","%char :: b) = ((span f a).1, (span f a).2 ++ ","%char :: b).
Proof.
  intros Hf. induction a as [|c a IH]; cbn; [by rewrite Hf|]. destruct (f c); [|done]. rewrite IH. by destruct (span f a).
Qed.

Lemma did_token_comma a b : did_token (a ++ ","%char :: b) = did_token a.
Proof.
  unfold did_token. rewrite strip_comma by done. destruct (strip (chars "did:") a) as [l1|]; [|done]. cbn [fmap option_fmap option_map mbind option_bind].
  rewrite span_comma by done. destruct (span is_lower_alnum l1) as [method l2]. cbn [fst snd].
  rewrite strip_comma by done. destruct (strip [":"%char] l2) as [l3|]; [|done]. cbn [fmap option_fmap option_map mbind option_bind].
  rewrite span_comma by done. by destruct (span is_did_char l3).
Qed.

Definition comma_free (keys : list (list ascii)) : bool := forallb (forallb (λ c, negb (Ascii.eqb c ","))) keys.

Lemma keyed_did_comma keys a b : comma_free keys = true → keyed_did keys (a ++ ","%char :: b) = keyed_did keys a.
Proof.
  unfold keyed_did, comma_free. induction keys as [|key keys IH]; [done|]. cbn [forallb first_some]. intros [Hk Hks]%andb_true_iff.
  rewrite IH by done. rewrite strip_comma by done. destruct (strip key a) as [l1|]; [|done]. cbn [fmap option_fmap option_map mbind option_bind].
  rewrite span_comma by done. destruct (span is_space l1) as [sp l2]. cbn [fst snd]. by rewrite did_token_comma.
Qed.

Lemma keyed_did_nil keys : keyed_did keys [] = None.
Proof. unfold keyed_did. induction keys as [|[|c key] keys IH]; cbn; [done|exact IH|exact IH]. Qed.

Lemma field_did_comma keys start c a b : comma_free keys = true →
  field_did keys start (c :: a ++ ","%char :: b) = field_did keys start (c :: a).
Proof.
  intros Hk. unfold field_did. rewrite (keyed_did_comma keys a b Hk). pose proof (keyed_did_comma keys (c :: a) b Hk) as E.
  cbn [app] in E. by rewrite E.
Qed.

(** A text without a match contributes none to what follows its comma. *)
Lemma field_dids_comma keys start a b : comma_free keys = true → field_dids keys start 0 a = [] →
  field_dids keys start 0 (a ++ ","%char :: b) = field_dids keys false 0 (","%char :: b).
Proof.
  intros Hk. revert start. induction a as [|c a IH]; intros start Ha.
  - cbn [app field_dids]. unfold field_did. pose proof (keyed_did_comma keys [] b Hk) as E. cbn [app] in E. rewrite E, keyed_did_nil. by destruct start.
  - cbn [app field_dids] in *. rewrite field_did_comma by done. destruct (field_did keys start (c :: a)) as [[t n]|]; [done|by apply IH].
Qed.

Lemma strip_Some p l r : strip p l = Some r ↔ l = p ++ r.
Proof.
  revert l. induction p as [|c p IH]; intros l; cbn; [naive_solver|]. destruct l as [|x l]; [naive_solver|].
  destruct (Ascii.eqb_spec c x) as [->|Hne]; [rewrite IH; naive_solver|naive_solver].
Qed.

Lemma span_app f l : (span f l).1 ++ (span f l).2 = l ∧ Forall (λ c, f c = true) (span f l).1.
Proof. induction l as [|c l [IH1 IH2]]; cbn; [done|]. destruct (f c) eqn:E; [|done]. destruct (span f l). cbn in *. split; [by f_equal|by constructor]. Qed.

Lemma span_all f l : Forall (λ c, f c = true) l → span f l = (l, []).
Proof. induction 1 as [|c l Hc _ IH]; [done|]. cbn. by rewrite Hc, IH. Qed.

Lemma span_stop f a c b : Forall (λ c, f c = true) a → f c = false → span f (a ++ c :: b) = (a, c :: b).
Proof. intros Ha Hc. induction Ha as [|x a Hx _ IH]; cbn; [by rewrite Hc|]. by rewrite Hx, IH. Qed.

(** A match is itself a DID. *)
Lemma did_token_self l t : did_token l = Some t → did_token t = Some t ∧ t ≠ [].
Proof.
  unfold did_token. intros (l1 & -> %strip_Some & Hl)%bind_Some. pose proof (span_app is_lower_alnum l1) as [_ Hm].
  destruct (span is_lower_alnum l1) as [method l2]. apply bind_Some in Hl as (l3 & _ & Hl). pose proof (span_app is_did_char l3) as [_ Hn].
  destruct (span is_did_char l3) as [name l4]. cbn [fst snd] in *. destruct method as [|m method]; [done|]. destruct name as [|n name]; [done|].
  apply (inj Some) in Hl as <-. split; [|done].
  rewrite (proj2 (strip_Some (chars "did:") (chars "did:" ++ (m :: method) ++ [":"%char] ++ n :: name) ((m :: method) ++ ":"%char :: n :: name))) by done.
  change (@mbind option option_bind (list ascii) (list ascii) ?f (Some ?x)) with (f x). cbv beta.
  rewrite (span_stop _ (m :: method) ":"%char (n :: name) Hm) by done.
  rewrite (proj2 (strip_Some [":"%char] (":"%char :: n :: name) (n :: name))) by done.
  change (@mbind option option_bind (list ascii) (list ascii) ?f (Some ?x)) with (f x). cbv beta. by rewrite (span_all _ _ Hn).
Qed.

(** The DID appended to a name is the one found in it. *)
Lemma skipped_dids keys l k : (length l <= k)%nat → field_dids keys false k l = [].
Proof. revert k. induction l as [|c l IH]; intros [|k] Hk; cbn in *; [done|done|lia|apply IH; lia]. Qed.

Lemma keyed_uri did : did_token did = Some did → keyed_did URI_KEYS (chars "URI=" ++ did) = Some (did, (4 + length did)%nat).
Proof.
  intros Hd. unfold keyed_did, URI_KEYS. cbn [first_some]. rewrite (proj2 (strip_Some (chars "URI=") _ did)) by done. cbn [mbind option_bind].
  assert (span is_space did = ([], did)) as ->.
  { unfold did_token in Hd. apply bind_Some in Hd as (l & ->%strip_Some & _). done. }
  by rewrite Hd.
Qed.

Lemma appended_did raw did : uri_dids raw = [] → did_token (chars did) = Some (chars did) → uri_dids (raw +:+ ", URI=" +:+ did) = [did].
Proof.
  unfold uri_dids. intros Hr%fmap_nil_inv Hd. rewrite !chars_app. change (chars ", URI=") with (","%char :: " "%char :: chars "URI=").
  rewrite <- !app_comm_cons, field_dids_comma by done. set (u := chars "URI=" ++ chars did).
  assert (field_did URI_KEYS false (","%char :: " "%char :: u) = None) as E1 by done.
  assert (field_did URI_KEYS false (" "%char :: u) = Some (chars did, S (4 + length (chars did)))) as E2.
  { unfold field_did. cbn [separated is_space]. unfold u. by rewrite keyed_uri. }
  change (field_dids URI_KEYS false 0 (","%char :: " "%char :: u)) with
    (match field_did URI_KEYS false (","%char :: " "%char :: u) with Some (t, n) => t :: field_dids URI_KEYS false (n - 1) (" "%char :: u)
     | None => field_dids URI_KEYS false 0 (" "%char :: u) end).
  rewrite E1.
  change (field_dids URI_KEYS false 0 (" "%char :: u)) with
    (match field_did URI_KEYS false (" "%char :: u) with Some (t, n) => t :: field_dids URI_KEYS false (n - 1) u
     | None => field_dids URI_KEYS false 0 u end).
  rewrite E2, skipped_dids by (unfold u; rewrite length_app; cbn; lia). cbn. by rewrite str_chars.
Qed.

(** ** Certificates *)

Section mtls_theorems.
Context `{X509}.

Lemma certificates_ok_spec now n i chain :
  certificates_ok now n i chain = true ↔ ∀ j c, chain !! j = Some c → certificate_ok now n (i + j) c (default c (chain !! S j)) = true.
Proof.
  revert i. induction chain as [|c chain IH]; intros i; cbn [certificates_ok]; [split; [by intros _ j c|done]|].
  rewrite andb_true_iff, IH. split.
  - intros [Hc Hr] [|j] c' Hj; cbn in Hj; [injection Hj as <-; rewrite Nat.add_0_r; by destruct chain|].
    rewrite <- Nat.add_succ_comm. by apply Hr.
  - intros Ha. split; [specialize (Ha 0%nat c eq_refl); rewrite Nat.add_0_r in Ha; by destruct chain|].
    intros j c' Hj. specialize (Ha (S j) c' Hj). by rewrite <- Nat.add_succ_comm in Ha.
Qed.

(** What the loop demands of the certificate at [i] of [n], with its issuer. *)
Record certified (now : Z) (n i : nat) (cert parent : Certificate) : Prop := mkCertified {
  cd_begun : num_ltb (Fin now) (notBefore cert) = false;
  cd_running : num_ltb (notAfter cert) (Fin now) = false;
  cd_signed : signed_with_key_of cert parent = Some true;
  cd_leaf : i = 0%nat → (∀ ca p, basicConstraints cert = Some (ca, p) → ca = false)
    ∧ (∃ u, keyUsages cert = Some u ∧ Z.land u digitalSignature ≠ 0)
    ∧ ∃ us u, extendedKeyUsage cert = Some us ∧ u ∈ us ∧ (u = "1.3.6.1.5.5.7.3.2" ∨ u = "clientAuth");
  cd_authority : i ≠ 0%nat → (∃ p, basicConstraints cert = Some (true, p) ∧ path_length_ok n i p = true)
    ∧ ∃ u, keyUsages cert = Some u ∧ Z.land u keyCertSign ≠ 0 }.

Lemma client_usage us :
  existsb (λ u, String.eqb u "1.3.6.1.5.5.7.3.2" || String.eqb u "clientAuth") us = true
  ↔ ∃ u, u ∈ us ∧ (u = "1.3.6.1.5.5.7.3.2" ∨ u = "clientAuth").
Proof.
  rewrite existsb_exists. split; intros (u & Hu & Hc); exists u; [apply list_elem_of_In in Hu|apply list_elem_of_In in Hu]; split; try done.
  - apply orb_true_iff in Hc as [->%String.eqb_eq| ->%String.eqb_eq]; auto.
  - apply orb_true_iff. destruct Hc as [-> | ->]; [by left|by right].
Qed.

Lemma certificate_ok_spec now n i cert parent : certificate_ok now n i cert parent = true ↔ certified now n i cert parent.
Proof.
  unfold certificate_ok, num_gtb. rewrite !andb_true_iff, negb_true_iff, orb_false_iff. split.
  - intros [[[[[H1 H2] H3] H4] H5] H6]. split; [done|done|by destruct (signed_with_key_of cert parent) as [[]|]| |].
    + intros ->. cbn in *. split; [intros ca p E; rewrite E in H4; by destruct ca|].
      destruct (keyUsages cert) as [u|]; [|done]. apply negb_true_iff, Z.eqb_neq in H5. split; [by exists u|].
      destruct (extendedKeyUsage cert) as [us|]; [|done]. apply client_usage in H6 as (u' & ? & ?). by exists us, u'.
    + intros Hi. apply Nat.eqb_neq in Hi. rewrite Hi in *. destruct (basicConstraints cert) as [[ca p]|]; [|done].
      apply andb_true_iff in H4 as [-> H4]. destruct (keyUsages cert) as [u|]; [|done]. apply negb_true_iff, Z.eqb_neq in H5.
      split; [by exists p|by exists u].
  - intros [H1 H2 H3 H4 H5]. rewrite H3. destruct (Nat.eqb_spec i 0) as [->|Hi].
    + destruct (H4 eq_refl) as (Hb & (u & -> & Hu) & us & u' & -> & Hin). split_and!; try done.
      * destruct (basicConstraints cert) as [[ca p]|]; [|done]. by rewrite (Hb ca p eq_refl).
      * by apply negb_true_iff, Z.eqb_neq.
      * apply client_usage. by exists u'.
    + destruct (H5 Hi) as ((p & -> & Hp) & u & -> & Hu). split_and!; try done. by apply negb_true_iff, Z.eqb_neq.
Qed.

(** The chains that are accepted. *)
Definition lawful_chain (now : Z) (roots chain : list Certificate) : Prop :=
  (2 <= length chain)%nat
  ∧ (∀ i c, chain !! i = Some c → certified now (length chain) i c (default c (chain !! S i)))
  ∧ ∃ top r, last chain = Some top ∧ r ∈ roots ∧ subject r = subject top ∧ serialNumber r = serialNumber top.

(** Chain validation accepts exactly the lawful chains that the builder finds
    for the leaf among the roots and the intermediates. *)
Theorem chain_validation_exact leaf intermediates roots now :
  validateCertChain (leaf :: intermediates) roots now = true
  ↔ ∃ chain, build_chain (roots ++ intermediates) leaf = Some chain ∧ lawful_chain now roots chain.
Proof.
  unfold validateCertChain, lawful_chain. assert (∀ c, existsb (same_name c) [] = false) as Hnil by done.
  destruct roots as [|r roots]; [split; [done|intros (? & _ & _ & _ & ? & ? & _ & []%not_elem_of_nil & _)]|].
  destruct (build_chain ((r :: roots) ++ intermediates) leaf) as [chain|]; [|split; [done|by intros (? & [=] & _)]].
  rewrite !andb_true_iff, Nat.leb_le, certificates_ok_spec.
  assert (match last chain with Some top => existsb (same_name top) (r :: roots) | None => false end = true
    ↔ ∃ top r0, last chain = Some top ∧ r0 ∈ r :: roots ∧ subject r0 = subject top ∧ serialNumber r0 = serialNumber top) as ->.
  { destruct (last chain) as [top|]; [|split; [done|by intros (? & ? & [=] & _)]]. rewrite existsb_exists. unfold same_name. split.
    - intros (x & Hx%list_elem_of_In & [?%String.eqb_eq ?%String.eqb_eq]%andb_true_iff). by exists top, x.
    - intros (? & x & [= <-] & Hx & E1 & E2). exists x. split; [by apply list_elem_of_In|]. apply andb_true_iff. by rewrite !String.eqb_eq. }
  split.
  - intros [[Hl Hc] Ht]. exists chain. split_and!; try done. intros i c Hi. by apply certificate_ok_spec, (Hc i).
  - intros (? & [= <-] & Hl & Hc & Ht). split_and!; try done. intros j c Hj. by apply certificate_ok_spec, Hc.
Qed.

Lemma parseX509Cert_ok input c : parseX509Cert input = Ok c ↔ parse_certificate input = Some c.
Proof. unfold parseX509Cert. destruct (parse_certificate input); unfold mret, res_ret; naive_solver. Qed.

Lemma verifyMtls_ok ctx chainNow now v : verifyMtlsAndDeriveDid ctx chainNow now = Ok v ↔
  ∃ cert intermediates roots,
    parse_certificate (clientCert ctx) = Some cert ∧ mapM parseX509Cert (default [] (intermediateChain ctx)) = Ok intermediates
    ∧ mapM parseX509Cert (trustedRootCerts ctx) = Ok roots ∧ validateCertChain (cert :: intermediates) roots chainNow = true
    ∧ extractDidFromCertSubject cert = Ok (mtls_expectedDid ctx)
    ∧ v = mkTransport (mtls_expectedDid ctx) kind_mtls (subject_with_did (subjectName cert) (mtls_expectedDid ctx)) (toISOString now) "2.0.0".
Proof.
  unfold verifyMtlsAndDeriveDid. split.
  - intros (cert & Hc%parseX509Cert_ok & (ints & Hi & (roots & Hr & ([] & Hv%check_ok & (did & Hd & ([] & He%check_ok & Hx)%res_bind_ok)%res_bind_ok)%res_bind_ok)%res_bind_ok)%res_bind_ok)%res_bind_ok.
    apply String.eqb_eq in He as ->. injection Hx as <-. by exists cert, ints, roots.
  - intros (cert & ints & roots & Hc%parseX509Cert_ok & Hi & Hr & Hv & Hd & ->). rewrite Hc. cbn [mbind res_bind]. rewrite Hi. cbn [mbind res_bind].
    rewrite Hr. cbn [mbind res_bind]. rewrite Hv. cbn [check mbind res_bind mret res_ret]. rewrite Hd. cbn. by rewrite String.eqb_refl.
Qed.

(** A certificate found a DID: it is a DID on its own. *)
Lemma extracted_did cert did : extractDidFromCertSubject cert = Ok did → did_token (chars did) = Some (chars did) ∧ did ≠ "".
Proof.
  assert (∀ l t, find_did l = Some t → did_token t = Some t ∧ t ≠ []) as Hfind.
  { induction l as [|c l IH]; intros t; cbn [find_did]; destruct (did_token _) eqn:E; [..|by apply IH]; [|done|]; intros [= <-]; by apply did_token_self in E. }
  assert (∀ keys l s k t, t ∈ field_dids keys s k l → did_token t = Some t ∧ t ≠ []) as Hall.
  { induction l as [|c l IH]; intros s k t; cbn [field_dids]; [by intros []%not_elem_of_nil|]. destruct k as [|k]; [|by apply IH].
    destruct (field_did keys s (c :: l)) as [[t' n]|] eqn:E; [|by apply IH]. intros [->|Ht]%elem_of_cons; [|by apply (IH false (n - 1)%nat)].
    assert (∀ x m, keyed_did keys x = Some m → did_token m.1 = Some m.1 ∧ m.1 ≠ []) as Hk.
    { intros x m (key & _ & (l1 & _ & Hm)%bind_Some)%first_some_Some. destruct (span is_space l1) as [? l2].
      apply bind_Some in Hm as (t0 & Ht & [= <-]). by apply did_token_self in Ht. }
    unfold field_did in E. destruct (if s then keyed_did keys (c :: l) else None) as [m|] eqn:Em.
    - injection E as ->. destruct s; [|done]. by apply (Hk _ (t', n)) in Em.
    - destruct (separated c); [|done]. apply bind_Some in E as ([t0 n0] & Ek & [= <- _]). by apply (Hk _ (t0, n0)) in Ek. }
  intros He. assert (∃ t, did = str t ∧ did_token t = Some t ∧ t ≠ []) as (t & -> & Ht & Hn).
  { unfold extractDidFromCertSubject in He. destruct (alternativeNames cert ≫= _) as [t|] eqn:Ea.
    - injection He as <-. apply bind_Some in Ea as (text & _ & Hf). exists t. split; [done|]. by apply Hfind in Hf.
    - unfold cn_did in He. destruct (head _) as [t|] eqn:Eh; [|done]. injection He as <-. exists t. split; [done|].
      apply head_Some_elem_of in Eh. by eapply Hall. }
  rewrite chars_str. split; [done|]. intros E. apply Hn. rewrite <- (chars_str t), E. done.
Qed.

(** Of a certificate whose name gives no URI, the identity passes the check at
    the boundary exactly when its DID is nowhere in the name, or is the common
    name.  A certificate whose name has the DID elsewhere is refused. *)
Theorem mtls_cross_check_exact ctx chainNow now v cert :
  verifyMtlsAndDeriveDid ctx chainNow now = Ok v → parse_certificate (clientCert ctx) = Some cert → uri_dids (subjectName cert) = [] →
  assertCrossCheckMappingConsistent v = Ok tt
  ↔ str_includes (subjectName cert) (trustedDid v) = false ∨ cn_did (subjectName cert) = Some (trustedDid v).
Proof.
  intros (cert' & ints & roots & Hp & _ & _ & _ & Hd & ->)%verifyMtls_ok Hp' Hu. rewrite Hp' in Hp. injection Hp as <-.
  apply extracted_did in Hd as [Hd Hne]. cbn [trustedDid]. set (did := mtls_expectedDid ctx) in *.
  unfold assertCrossCheckMappingConsistent. cbn [verifierKind verifiedSubject trustedDid]. unfold subject_with_did.
  destruct (str_includes (subjectName cert) did) eqn:Ei.
  - assert (non_empty (subjectName cert) = true) as ->.
    { destruct (subjectName cert); [|done]. cbn in Ei. by destruct did. }
    cbn. unfold extractDidFromCertSubjectDn. rewrite Hu. destruct (cn_did (subjectName cert)) as [d|]; cbn; [|naive_solver].
    rewrite check_ok, String.eqb_eq. naive_solver.
  - assert (non_empty (subjectName cert +:+ ", URI=" +:+ did) = true) as -> by (by destruct (subjectName cert)).
    cbn. unfold extractDidFromCertSubjectDn. rewrite (appended_did _ _ Hu Hd). cbn. rewrite String.eqb_refl. cbn. naive_solver.
Qed.

(** C38.  A certificate authority of one's own: a certificate that has the subject and
    the serial number of a trusted root, sent along as an intermediate, is taken
    for the root when the builder finds it as issuer of the leaf. *)
Theorem forged_root_accepted ctx chainNow now leaf forged root f r did :
  parse_certificate (clientCert ctx) = Some leaf → intermediateChain ctx = Some [f] → parse_certificate f = Some forged →
  trustedRootCerts ctx = [r] → parse_certificate r = Some root →
  build_chain [root; forged] leaf = Some [leaf; forged] →
  certified chainNow 2 0 leaf forged → certified chainNow 2 1 forged forged →
  subject forged = subject root → serialNumber forged = serialNumber root →
  extractDidFromCertSubject leaf = Ok did → mtls_expectedDid ctx = did →
  ∃ v, verifyMtlsAndDeriveDid ctx chainNow now = Ok v ∧ trustedDid v = did.
Proof.
  intros Hl Hi Hf Ht Hr Hb H0 H1 Hs Hn He <-. eexists. split.
  - apply verifyMtls_ok. exists leaf, [forged], [root]. apply parseX509Cert_ok in Hf, Hr. rewrite Hi, Ht. cbn. rewrite Hf, Hr.
    split_and!; try done. apply (proj2 (chain_validation_exact leaf [forged] [root] chainNow)). exists [leaf; forged]. split; [done|]. split; [cbn; lia|]. split.
    + intros [|[|i]] c; cbn; intros [=]; by subst.
    + exists forged, root. split_and!; [done|left|done|done].
  - done.
Qed.
End mtls_theorems.

(** The length of a path is counted on the wrong side: the limit of the root is
    never applied, and an authority that issued the leaf itself needs a limit as
    large as the number of authorities above it but one. *)
Theorem path_length_wrong_side n p :
  (2 <= n)%nat → 0 <= p →
  path_length_ok n (n - 1) (Some p) = true ∧ path_length_ok n (n - 2) (Some p) = true
  ∧ (path_length_ok n 1 (Some p) = true ↔ Z.of_nat n - 3 <= p).
Proof. intros Hn Hp. unfold path_length_ok. rewrite !Z.leb_le. lia. Qed.

(** ** Tokens *)

(** A token is accepted only when jose verified it for the issuer and the
    audience under algorithms of the list, it expires, and its subject is the
    expected DID; and its header names an algorithm of the list. *)
Theorem jwt_accepted_verified `{JsonText} `{Jose} ctx now v :
  verifyJwtAndDeriveDid ctx now = Ok v →
  ∃ payload header o alg e,
    jwtVerify (jwt ctx) (jwks ctx) (expectedIssuer ctx) (jwt_expectedAudience ctx)
      (allowed_algorithms (bool_decide (allowSymmetricAlg ctx = Some true))) = Ok payload
    ∧ map_get "exp" payload = Some (VNum e) ∧ map_get "sub" payload = Some (VStr (trustedDid v)) ∧ trustedDid v = jwt_expectedDid ctx
    ∧ parse_json (text_of (buffer_base64url (str_before "." (jwt ctx)))) = Some header ∧ header = VObj o ∧ map_get "alg" o = Some (VStr alg)
    ∧ alg ∈ allowed_algorithms (bool_decide (allowSymmetricAlg ctx = Some true)) ∧ alg ∉ JWT_ALG_DENYLIST
    ∧ assertCrossCheckMappingConsistent v = Ok tt.
Proof.
  unfold verifyJwtAndDeriveDid. set (sym := bool_decide _). intros ([] & Ha & Hv)%res_bind_ok. apply res_bind_ok in Hv as (_ & _ & Hv).
  destruct (jwtVerify _ _ _ _ _) as [payload|] eqn:Ej; [|done]. destruct (map_get "exp" payload) as [[| | |e| | |]|] eqn:Ee; try done.
  destruct (map_get "sub" payload) as [[| | | |sub| |]|] eqn:Es; try done.
  apply res_bind_ok in Hv as ([] & Hs%check_ok & ([] & Hd%check_ok%String.eqb_eq & Hv)%res_bind_ok). injection Hv as <-. subst sub.
  unfold verifyJwtAlgAllowed in Ha. apply res_bind_ok in Ha as ([] & _ & Ha). destruct (parse_json _) as [header|] eqn:Eh; [|done].
  apply res_bind_ok in Ha as (a & Hg & Ha). destruct a as [| | | |alg| |]; try done.
  apply res_bind_ok in Ha as ([] & Hn & ([] & Hdeny%check_ok & Hok%check_ok)%res_bind_ok).
  destruct header as [| | | | | |o]; try done. exists payload, (VObj o), o, alg, e. cbn [trustedDid]. split_and!; try done.
  - injection Hg as Hg. by destruct (map_get "alg" o); cbn in Hg; subst.
  - unfold allowed_algorithms. apply orb_true_iff in Hok as [?%bool_decide_eq_true|[Hsym ?%bool_decide_eq_true]%andb_true_iff].
    + destruct sym; [apply elem_of_app; by left|done].
    + rewrite Hsym. apply elem_of_app. by right.
  - by apply negb_true_iff, bool_decide_eq_false in Hdeny.
  - unfold assertCrossCheckMappingConsistent. cbn. by rewrite String.eqb_refl.
Qed.

(** ** The rate limiter *)

Section limiter_theorems.
Context (capacity refillPerSec : Z).

(** The answers to calls at given times. *)
Fixpoint limiter_run (times : list Z) (l : OAuth2RateLimiter) : list bool :=
  match times with
  | [] => []
  | t :: times' => match limiter_consume capacity refillPerSec t l with
                   | (Ok _, l') => true :: limiter_run times' l'
                   | (Throw _, l') => false :: limiter_run times' l'
                   end
  end.

(** The calls let through in any period are at most what the bucket holds at its
    start and what flows in: in every run, however dense the calls are. *)
Theorem rate_bounded times l :
  0 <= refillPerSec → 0 <= milliTokens l <= capacity * 1000 → StronglySorted Z.le (lastRefill l :: times) →
  1000 * Z.of_nat (length (filter (λ b, b = true) (limiter_run times l)))
    <= milliTokens l + refillPerSec * (default (lastRefill l) (last times) - lastRefill l).
Proof.
  intros Hr. revert l. induction times as [|t times IH]; intros l Hl Hs; [cbn; lia|].
  inversion Hs as [|? ? Hs' Hall]; subst. apply Forall_cons_1 in Hall as [Ht _].
  replace (default (lastRefill l) (last (t :: times))) with (default t (last times)) by (rewrite last_cons; by destruct (last times)).
  set (d := default t (last times)). cbn [limiter_run]. unfold limiter_consume.
  set (tokens := Z.min (capacity * 1000) (milliTokens l + (t - lastRefill l) * refillPerSec)).
  assert (0 <= (t - lastRefill l) * refillPerSec) by nia.
  assert (0 <= tokens <= capacity * 1000 ∧ tokens <= milliTokens l + (t - lastRefill l) * refillPerSec) as [Hb Hle] by (unfold tokens; lia).
  assert (refillPerSec * (d - lastRefill l) = refillPerSec * (d - t) + (t - lastRefill l) * refillPerSec) as -> by ring.
  destruct (Z.ltb_spec tokens 1000).
  - specialize (IH (mkLimiter tokens t) Hb Hs'). cbn [milliTokens lastRefill] in IH. fold d in IH. rewrite filter_cons_False by (intros [=]). lia.
  - specialize (IH (mkLimiter (tokens - 1000) t)). cbn [milliTokens lastRefill] in IH. fold d in IH.
    specialize (IH ltac:(lia) Hs'). rewrite filter_cons_True by done. cbn [length]. lia.
Qed.

(** And calls that leave each other time for one token are all let through. *)
Theorem steady_rate_admitted times l :
  1 <= capacity → 0 <= milliTokens l → Forall (λ p, 1000 <= (p.2 - p.1) * refillPerSec) (zip (lastRefill l :: times) times) →
  Forall (λ b, b = true) (limiter_run times l).
Proof.
  intros Hc. revert l. induction times as [|t times IH]; intros l Hl Hz; [constructor|].
  cbn [zip zip_with] in Hz. apply Forall_cons_1 in Hz as [Ht Hz]. cbn in Ht. cbn [limiter_run]. unfold limiter_consume.
  destruct (Z.ltb_spec (Z.min (capacity * 1000) (milliTokens l + (t - lastRefill l) * refillPerSec)) 1000); [lia|].
  constructor; [done|]. apply IH; [cbn [milliTokens]; lia|done].
Qed.
End limiter_theorems.

(** ** The circuit breaker *)

Section breaker_theorems.
Context (failureThreshold cooldownMs : Z).

(** Calls overlap: each enters and later ends. *)
Inductive BreakerEvent : Type := B_enter (now : Z) | B_success | B_failure (now : Z).

Definition breaker_step (ev : BreakerEvent) (b : OAuth2CircuitBreaker) : OAuth2CircuitBreaker :=
  match ev with
  | B_enter now => (breaker_enter cooldownMs now b).2
  | B_success => breaker_success b
  | B_failure now => breaker_failure failureThreshold now b
  end.

Fixpoint breaker_run (evs : list BreakerEvent) (b : OAuth2CircuitBreaker) : OAuth2CircuitBreaker :=
  match evs with [] => b | ev :: evs' => breaker_run evs' (breaker_step ev b) end.

(** An event that is no success, at a time of the interval. *)
Definition unsuccessful (from to : Z) (ev : BreakerEvent) : Prop :=
  match ev with B_enter now | B_failure now => from <= now < to | B_success => False end.

(** While it is open, no call reaches the issuer: whatever calls end or try to
    enter in the meantime, as long as none of the running ones succeeds. *)
Theorem open_blocks evs b now :
  cb_state b = OPEN → Forall (unsuccessful (openedAt b) (openedAt b + cooldownMs)) evs → openedAt b <= now < openedAt b + cooldownMs →
  (breaker_enter cooldownMs now (breaker_run evs b)).1 = Throw "SDK_OAUTH2_VERIFY_FAILED".
Proof.
  intros Hb Hevs Hnow.
  assert (∀ c, cb_state c = OPEN ∧ openedAt b <= openedAt c < openedAt b + cooldownMs → Forall (unsuccessful (openedAt b) (openedAt b + cooldownMs)) evs →
    cb_state (breaker_run evs c) = OPEN ∧ openedAt b <= openedAt (breaker_run evs c) < openedAt b + cooldownMs) as Hrun.
  { clear Hevs. induction evs as [|ev evs IH]; intros c Hc Hevs; [done|]. apply Forall_cons_1 in Hevs as [Hev Hevs]. cbn [breaker_run]. apply IH; [|done].
    destruct Hc as [Hc Ho]. destruct ev as [t| |t]; cbn in Hev |- *; [|done|].
    - unfold breaker_enter. rewrite Hc. destruct (Z.leb_spec cooldownMs (t - openedAt c)); [lia|done].
    - unfold breaker_failure. rewrite Hc. destruct (_ <=? _); cbn; (split; [done|lia]). }
  destruct (Hrun b ltac:(lia || (split; [done|lia])) Hevs) as [Ho Ht]. unfold breaker_enter. rewrite Ho.
  by destruct (Z.leb_spec cooldownMs (now - openedAt (breaker_run evs b))); [lia|].
Qed.

Definition is_failure (ev : BreakerEvent) : bool := match ev with B_failure _ => true | _ => false end.

(** Enough failures without a success in between open it, however the calls
    overlap. *)
Theorem failures_open evs b now :
  0 <= failCount b → Forall (λ ev, ev ≠ B_success) evs →
  failureThreshold <= Z.of_nat (length (filter (λ ev, is_failure ev = true) (evs ++ [B_failure now]))) →
  cb_state (breaker_run (evs ++ [B_failure now]) b) = OPEN ∧ openedAt (breaker_run (evs ++ [B_failure now]) b) = now.
Proof.
  intros Hb Hevs Hn.
  assert (∀ evs1 evs2 c, breaker_run (evs1 ++ evs2) c = breaker_run evs2 (breaker_run evs1 c)) as Happ.
  { induction evs1 as [|ev evs1 IH]; intros; [done|]. cbn. apply IH. }
  assert (failCount (breaker_run evs b) = failCount b + Z.of_nat (length (filter (λ ev, is_failure ev = true) evs))) as Hc.
  { clear Hn Hb. revert b. induction evs as [|ev evs IH]; intros b; [cbn; lia|]. apply Forall_cons_1 in Hevs as [Hev Hevs]. cbn [breaker_run].
    rewrite (IH Hevs). destruct ev as [t| |t]; [|done|].
    - rewrite filter_cons_False by (intros [=]). f_equal. cbn. unfold breaker_enter. destruct (cb_state b); [done| |done]. by destruct (_ <=? _).
    - rewrite filter_cons_True by done. cbn. unfold breaker_failure. destruct (cb_state b), (failureThreshold <=? failCount b + 1); cbn; lia. }
  rewrite filter_app, length_app, filter_cons_True in Hn by done. cbn [length filter list_filter] in Hn. rewrite Happ. cbn [breaker_run breaker_step]. unfold breaker_failure.
  destruct (cb_state (breaker_run evs b)); [| |done]; by destruct (Z.leb_spec failureThreshold (failCount (breaker_run evs b) + 1)); [|lia].
Qed.

(** Entering only ever makes the first probe. *)
Lemma entered_state o times b : cb_state b = HALF_OPEN ∨ (cb_state b = OPEN ∧ openedAt b = o) →
  cb_state (breaker_run (B_enter <$> times) b) = HALF_OPEN
  ∨ (cb_state (breaker_run (B_enter <$> times) b) = OPEN ∧ openedAt (breaker_run (B_enter <$> times) b) = o).
Proof.
  revert b. induction times as [|x l IH]; intros b Hc; [done|]. cbn. apply IH. unfold breaker_enter.
  destruct Hc as [Hc|[Hc Ho]]; rewrite Hc; [by left|]. destruct (_ <=? _); [by left|by right].
Qed.

(** Any number of calls enter as the one probe after the cooldown. *)
Theorem many_probes times b :
  cb_state b = OPEN → Forall (λ t, cooldownMs <= t - openedAt b) times →
  ∀ k t, times !! k = Some t → (breaker_enter cooldownMs t (breaker_run (B_enter <$> take k times) b)).1 = Ok tt.
Proof.
  intros Hb Ht k t Hk. rewrite Forall_lookup in Ht. specialize (Ht k t Hk). unfold breaker_enter.
  destruct (entered_state (openedAt b) (take k times) b) as [->|[-> ->]]; [by right|done|].
  by destruct (Z.leb_spec cooldownMs (t - openedAt b)); [|lia].
Qed.
End breaker_theorems.

(** ** Cached introspections *)

Section cache_theorems.
Context `{Primitives} `{Jose}.

(** Calls and revocations, one after the other. *)
Inductive OAuth2Op : Type :=
| op_verify (ctx : OAuth2VerifierContext) (o : OAuth2Answers)
| op_revoke (a : OAuth2TrustAuthority) (token : string).

Definition oauth2_step (op : OAuth2Op) (s : OAuth2State) : OAuth2State :=
  match op with
  | op_verify ctx o => (verifyOAuth2AndDeriveDid ctx o s).2
  | op_revoke a token => mkOAuth2State (cache_invalidate a token (os_cache s)) (os_breaker s) (os_limiter s)
  end.

Definition oauth2_run (ops : list OAuth2Op) (s : OAuth2State) : OAuth2State := fold_left (λ s op, oauth2_step op s) ops s.

Definition ctx_key (ctx : OAuth2VerifierContext) : string := computeCacheKey (ox_authority ctx) (accessToken ctx).

(** The entry was given by the issuer in that call, and is kept no longer than a
    minute. *)
Definition given_by (key : string) (e : IntrospectionEntry) (ctx : OAuth2VerifierContext) (o : OAuth2Answers) : Prop :=
  ctx_key ctx = key ∧ ob_introspection o = Ok (ce_response e) ∧ is_active (ce_response e) = true
  ∧ ∀ t, num_gtb (ce_expiresAt e) (Fin t) = true → t < ob_storedAt o + CACHE_TTL_MS.

Definition backed (ops : list OAuth2Op) (cache : IntrospectionCache) : Prop :=
  ∀ key e, map_get key cache = Some e → ∃ ctx o, op_verify ctx o ∈ ops ∧ given_by key e ctx o.

Lemma min_below a x t : num_gtb (num_min (Fin a) x) (Fin t) = true → t < a.
Proof.
  unfold num_gtb, num_min. destruct x as [| | |z]; cbn; [done|by rewrite Z.ltb_lt|done|].
  destruct (Z.ltb_spec z a); cbn; rewrite Z.ltb_lt; lia.
Qed.

(** The call of the issuer, inside the breaker. *)
Lemma introspect_cases ctx o cache r cache' : introspect_token ctx o cache = (r, cache') →
  (cache' = cache ∨ ∃ response, ob_introspection o = Ok response
     ∧ cache' = store_response CACHE_TTL_MS (ctx_key ctx) response (ob_storedAt o) (ob_testedAt o) cache)
  ∧ ∀ response, r = Ok response → ob_introspection o = Ok response ∨ cached_response (ctx_key ctx) (ob_lookedUpAt o) cache = Some response.
Proof.
  unfold introspect_token, getOrIntrospect. destruct (is_url _); [|intros [= <- <-]; split; [by left|done]].
  destruct (ob_discovery o) as [[endpoint|]|]; [|intros [= <- <-]; split; [by left|done]..].
  destruct (String.eqb _ _); [|intros [= <- <-]; split; [by left|done]].
  fold (ctx_key ctx). destruct (cached_response (ctx_key ctx) (ob_lookedUpAt o) cache) as [cr|] eqn:Ec; [intros [= <- <-]; split; [by left|intros ? [= <-]; by right]|].
  destruct (ob_introspection o) as [resp|c] eqn:Eo; intros [= <- <-]; [split; [right; by exists resp|intros ? [= <-]; by left]|split; [by left|done]].
Qed.

Lemma verify_cache ctx o s : ∃ cache', os_cache (verifyOAuth2AndDeriveDid ctx o s).2 = cache'
  ∧ (cache' = os_cache s ∨ ∃ response, ob_introspection o = Ok response
     ∧ cache' = store_response CACHE_TTL_MS (ctx_key ctx) response (ob_storedAt o) (ob_testedAt o) (os_cache s)).
Proof.
  unfold verifyOAuth2AndDeriveDid, consume_token. eexists. split; [done|]. unfold mbind, M_bind.
  destruct (limiter_consume _ _ _ _) as [[[]|c] l]; [|by left]. unfold execute_introspection. cbn [os_breaker os_cache os_limiter].
  destruct (breaker_enter _ _ _) as [[[]|c] b]; [|by left]. destruct (introspect_token ctx o (os_cache s)) as [[r|c] cache'] eqn:Ei;
    apply introspect_cases in Ei as [Hc _]; exact Hc.
Qed.

Lemma store_backed ops ctx o response cache : backed ops cache → ob_introspection o = Ok response →
  backed (ops ++ [op_verify ctx o]) (store_response CACHE_TTL_MS (ctx_key ctx) response (ob_storedAt o) (ob_testedAt o) cache).
Proof.
  intros Hb Ho key e He. assert (∀ e', map_get key cache = Some e' → e' = e → ∃ ctx0 o0, op_verify ctx0 o0 ∈ ops ++ [op_verify ctx o] ∧ given_by key e ctx0 o0) as Hold.
  { intros e' He' ->. destruct (Hb key e He') as (c0 & o0 & Hin & Hg). exists c0, o0. split; [apply elem_of_app; by left|done]. }
  unfold store_response in He. destruct (is_active response) eqn:Ea; [|by eapply Hold].
  destruct (num_gtb _ (Fin (ob_testedAt o))) eqn:Et; [|by eapply Hold].
  rewrite map_get_set in He. destruct (String.eqb_spec (ctx_key ctx) key) as [<-|]; [|by eapply Hold].
  injection He as <-. exists ctx, o. split; [apply elem_of_app; right; by left|]. split_and!; try done.
  intros t Hg. by apply min_below in Hg.
Qed.

Lemma run_backed ops s : os_cache s = [] → backed ops (os_cache (oauth2_run ops s)).
Proof.
  intros Hs. induction ops as [|op ops IH] using rev_ind; [unfold oauth2_run; cbn; rewrite Hs; by intros key e|].
  unfold oauth2_run in *. rewrite fold_left_app. cbn [fold_left]. set (s1 := fold_left _ ops s) in *. destruct op as [ctx o|a token]; cbn [oauth2_step].
  - destruct (verify_cache ctx o s1) as (cache' & -> & [-> |(response & Ho & ->)]); [|by apply store_backed].
    intros key e He. destruct (IH key e He) as (c0 & o0 & Hin & Hg). exists c0, o0. split; [apply elem_of_app; by left|done].
  - cbn [os_cache]. intros key e He. unfold cache_invalidate in He. rewrite map_get_delete in He. destruct (String.eqb _ _); [done|].
    destruct (IH key e He) as (c0 & o0 & Hin & Hg). exists c0, o0. split; [apply elem_of_app; by left|done].
Qed.

(** The parts of the key before the token do not contain the separator. *)
Definition plain_text (s : string) : Prop := Forall (λ c, c ≠ ascii_of_nat 31) (chars s).
Definition plain_authority (a : OAuth2TrustAuthority) : Prop :=
  plain_text (issuerUrl a) ∧ plain_text (introspectionEndpoint a) ∧ plain_text (introspectionClientId a) ∧ plain_text (oa_expectedAudience a).

Lemma separated_inj a a' b b' : plain_text a → plain_text a' → a +:+ SEP +:+ b = a' +:+ SEP +:+ b' → a = a' ∧ b = b'.
Proof.
  intros Ha Ha' E. assert (∀ l l' m m' : list ascii, Forall (λ c, c ≠ ascii_of_nat 31) l → Forall (λ c, c ≠ ascii_of_nat 31) l' →
    l ++ ascii_of_nat 31 :: m = l' ++ ascii_of_nat 31 :: m' → l = l' ∧ m = m') as Hl.
  { induction l as [|c l IH]; intros [|c' l'] m m' Hl Hl' El; cbn in El.
    - by injection El as ->.
    - apply Forall_cons_1 in Hl' as [Hc _]. injection El as Ec _. by destruct Hc.
    - apply Forall_cons_1 in Hl as [Hc _]. injection El as Ec _. by destruct Hc.
    - apply Forall_cons_1 in Hl as [_ Hl], Hl' as [_ Hl']. injection El as -> El. by destruct (IH l' m m' Hl Hl' El) as [-> ->]. }
  apply (f_equal chars) in E. rewrite !chars_app in E. destruct (Hl _ _ _ _ Ha Ha' E) as [E1 E2].
  rewrite <- (str_chars a), <- (str_chars b), E1, E2, !str_chars. done.
Qed.

Lemma key_material_inj a a' token token' : plain_authority a → plain_authority a' → key_material a token = key_material a' token' → a = a' ∧ token = token'.
Proof.
  intros (P1 & P2 & P3 & P4) (Q1 & Q2 & Q3 & Q4) E. unfold key_material in E.
  apply separated_inj in E as [E1 E]; [|done..]. apply separated_inj in E as [E2 E]; [|done..].
  apply separated_inj in E as [E3 E]; [|done..]. apply separated_inj in E as [E4 E]; [|done..]. destruct a, a'. cbn in *. by subst.
Qed.
End cache_theorems.

(** C39.  A token that is accepted was reported active, in this call or in one of
    the calls before and less than a minute before the cache was asked, by the
    answer to the introspection of the same token at the same authority (issuer,
    endpoint, client and audience), unless the cache-key texts of these two calls
    are different and collide under SHA-256; and the answer names the audience
    and the DID.  The cache starts empty, and none of the four texts of an
    authority contains the separator of the key, U+001F ([plain_authority]). *)
Theorem accepted_token_was_active `{PrimitiveLaws} `{Jose} ops s ctx o v s' :
  os_cache s = [] → plain_authority (ox_authority ctx) → (∀ c o', op_verify c o' ∈ ops → plain_authority (ox_authority c)) →
  verifyOAuth2AndDeriveDid ctx o (oauth2_run ops s) = (Ok v, s') →
  ∃ ctx' o' r, ob_introspection o' = Ok r ∧ is_active r = true
    ∧ (ctx' = ctx ∧ o' = o ∨ op_verify ctx' o' ∈ ops ∧ ob_lookedUpAt o < ob_storedAt o' + CACHE_TTL_MS)
    ∧ audience_matches (ir_aud r) (oa_expectedAudience (ox_authority ctx)) = true
    ∧ candidate_subject r = VStr (trustedDid v) ∧ trustedDid v = oauth2_expectedDid ctx
    ∧ (ox_authority ctx' = ox_authority ctx ∧ accessToken ctx' = accessToken ctx
       ∨ key_material (ox_authority ctx') (accessToken ctx') ≠ key_material (ox_authority ctx) (accessToken ctx)
         ∧ sha256 (textEncode (key_material (ox_authority ctx') (accessToken ctx')))
           = sha256 (textEncode (key_material (ox_authority ctx) (accessToken ctx)))).
Proof.
  intros Hs Hp Hps Hv. apply M_bind_ok in Hv as ([] & s1 & Hc & (r & s2 & He & Hd)%M_bind_ok).
  assert (os_cache s1 = os_cache (oauth2_run ops s)) as Hc1.
  { unfold consume_token in Hc. destruct (limiter_consume _ _ _ _) as [x l]. by injection Hc as _ <-. }
  assert (ob_introspection o = Ok r ∨ cached_response (ctx_key ctx) (ob_lookedUpAt o) (os_cache s1) = Some r) as Hr.
  { unfold execute_introspection in He. destruct (breaker_enter _ _ _) as [[[]|c] b]; [|done].
    destruct (introspect_token ctx o (os_cache s1)) as [[r'|c] cache'] eqn:Ei; [|done]. injection He as <- <-. apply introspect_cases in Ei as [_ Hr]. by apply Hr. }
  injection Hd as Hd _. unfold derive_did in Hd. apply res_bind_ok in Hd as ([] & Ha%check_ok & ([] & Hm%check_ok & ([] & _ & Hx)%res_bind_ok)%res_bind_ok).
  assert (candidate_subject r = VStr (trustedDid v) ∧ trustedDid v = oauth2_expectedDid ctx) as [Hcand Hdid].
  { destruct (candidate_subject r); try done. apply res_bind_ok in Hx as ([] & Ex%check_ok%String.eqb_eq & Hx). injection Hx as <-. cbn. by subst. }
  destruct Hr as [Hr|Hr].
  - exists ctx, o, r. split_and!; try done; by left.
  - unfold cached_response in Hr. apply bind_Some in Hr as (e & Hg & Hr). destruct (num_gtb _ _) eqn:En; [|done]. injection Hr as <-.
    rewrite Hc1 in Hg. destruct (run_backed ops s Hs _ _ Hg) as (ctx' & o' & Hin & Hk & Ho & Hact & Ht).
    exists ctx', o', (ce_response e). split_and!; try done; [right; split; [done|by apply Ht]|].
    destruct (decide (key_material (ox_authority ctx') (accessToken ctx') = key_material (ox_authority ctx) (accessToken ctx))) as [E|E].
    + left. apply (key_material_inj _ _ _ _ (Hps _ _ Hin) Hp E).
    + right. split; [done|].
      unfold ctx_key, computeCacheKey in Hk. apply toHex_digest_inj in Hk. done.
Qed.
