(* ===== verification/AuditShare.v ===== *)
(** * Sharing audit events across domains

    Models packages/policy/src/audit-share: the eleven steps of
    [AuditShareManager.verifyAuditRequest] over its ports, the projection of
    events, and [verifyAuditRequestV03], which first derives the identity of the
    caller from the evidence of the transport and then verifies the hash chain
    itself; with packages/types/src/audit-share, the schema
    audit-share-v0.2.schema.json and the delegated keys of
    packages/identity/src/delegated-audit-key.ts.

    Requests are values of their TypeScript types, so the checks against null
    and other types are not branches of the model.  The ports are answered by
    their implementers: a verification is a program [prog] that stops at each
    call and goes on with the answer, so that calls of several requests
    interleave.  Any call may be answered by an exception. *)
From S2P Require Import Prelude JsValue Time Encoding Crypto Authorization SignedPayload Multisig HashChain TransportVerifier.

(** ** Data *)

Record AuditShareScope : Type := mkShareScope {
  sc_tenantId : string;
  sc_auditClass : string;
  sc_chainNamespace : option string }.

Definition AUDIT_EVENT_FIELDS : list string :=
  ["id"; "eventType"; "actorDid"; "targetAgentDid"; "timestamp"; "correlationId"; "outcome"; "denyReason"; "prevHash"; "signature";
   "tenantId"; "auditClass"; "chainNamespace"; "chainPosition"; "canonicalPayloadHash"].

Definition AUDIT_SHARE_SUPPORTED_VERSIONS : list string := ["1.0.0"].
Definition AUDIT_SHARE_VERSION_1_0_0 : string := "1.0.0".
Definition AUDIT_SHARE_MIN_VALIDITY_WINDOW_MS : Z := 1000.
Definition SENTINEL_VALUES : list string := [""; "_DELETED_"; "_PLACEHOLDER_"; "_SENTINEL_"; "_TBD_"; "_NULL_"; "TODO"; "FIXME"; "XXX"].

Record ShareRequest : Type := mkShareRequest {
  sq_auditShareVersion : string;
  sq_token : string;
  sq_disclosedClaims : list string;
  sq_challenge : string;
  sq_audience : string;
  sq_notAfter : string;
  sq_requestedScope : AuditShareScope;
  sq_requesterDid : string;
  sq_requesterSignature : string }.

(** ** Factories *)

Definition toAuditKeyId (s : string) : res string :=
  _ ← check (non_empty s) "AUDIT_SHARE_TOKEN_INVALID"; _ ← check (UUID_V4_PATTERN s) "AUDIT_SHARE_TOKEN_INVALID"; mret s.

Definition toAuditShareVersion (s : string) : res string :=
  _ ← check (semver_schema s) "AUDIT_SHARE_VERSION_UNSUPPORTED";
  _ ← check (bool_decide (s ∈ AUDIT_SHARE_SUPPORTED_VERSIONS)) "AUDIT_SHARE_VERSION_UNSUPPORTED"; mret s.

Definition toAuditShareScope (tenantId auditClass : string) (chainNamespace : option string) : res AuditShareScope :=
  _ ← check (negb (bool_decide (tenantId ∈ SENTINEL_VALUES))) "AUDIT_SHARE_SCOPE_INVALID";
  _ ← check (bool_decide (auditClass ∈ ["L1"; "L2"; "L3"])) "AUDIT_SHARE_SCOPE_INVALID";
  _ ← when_given chainNamespace (λ n, check (negb (bool_decide (n ∈ SENTINEL_VALUES))) "AUDIT_SHARE_SCOPE_INVALID");
  mret (mkShareScope tenantId auditClass chainNamespace).

(** The status for each code; every error is fatal. *)
Definition handleAuditShareError (code : string) : option (Z * bool) :=
  (λ status, (status, true)) <$> map_get code
    [("AUDIT_SHARE_TOKEN_INVALID", 401); ("AUDIT_SHARE_TOKEN_EXPIRED", 401); ("AUDIT_SHARE_AUDIENCE_MISMATCH", 403);
     ("AUDIT_SHARE_CHALLENGE_INVALID", 401); ("AUDIT_SHARE_NOT_AFTER_EXPIRED", 401); ("AUDIT_SHARE_REQUESTER_SIGNATURE_INVALID", 401);
     ("AUDIT_SHARE_DELEGATOR_SIGNATURE_INVALID", 401); ("AUDIT_SHARE_DELEGATOR_AUDIENCE_MISMATCH", 403); ("AUDIT_SHARE_SCOPE_INVALID", 400);
     ("AUDIT_SHARE_CROSS_TENANT_REJECT", 403); ("AUDIT_SHARE_HASH_CHAIN_INVALID", 401); ("AUDIT_SHARE_DISCLOSED_CLAIMS_INVALID", 400);
     ("AUDIT_SHARE_VERSION_UNSUPPORTED", 422); ("AUDIT_SHARE_SCHEMA_INVALID", 400); ("AUDIT_SHARE_VERIFIER_REQUIRED", 401);
     ("AUDIT_SHARE_BOUNDARY_CHECK_FAILED", 401); ("AUDIT_SHARE_CHAIN_IDENTITY_TAMPERED", 401)].

(** ** The schema *)

Definition did_schema (s : string) : bool := str_startsWith s "did:" && Nat.leb 5 (String.length s).

Definition validateAuditShareRequestSchema `{Formats} (q : ShareRequest) : bool :=
  semver_schema (sq_auditShareVersion q) && String.eqb (sq_auditShareVersion q) "1.0.0"
  && format_uuid (sq_token q) && uuid_v4 (sq_token q)
  && bool_decide (NoDup (sq_disclosedClaims q)) && forallb (λ f, bool_decide (f ∈ AUDIT_EVENT_FIELDS)) (sq_disclosedClaims q)
  && format_uuid (sq_challenge q) && uuid_v4 (sq_challenge q)
  && did_schema (sq_audience q) && format_date_time (sq_notAfter q)
  && non_empty (sc_tenantId (sq_requestedScope q)) && bool_decide (sc_auditClass (sq_requestedScope q) ∈ ["L1"; "L2"; "L3"])
  && match sc_chainNamespace (sq_requestedScope q) with Some n => non_empty n | None => true end
  && did_schema (sq_requesterDid q) && Nat.leb 64 (String.length (sq_requesterSignature q)).

(** ** Delegated keys *)

Record DelegatedAuditKeyProof : Type := mkKeyProof { kp_signature : string; kp_signedAt : string; kp_signedBy : string }.

Record AuditShareDelegatedKey : Type := mkShareKey {
  ak_auditKeyId : string;
  ak_delegatedFrom : string;
  ak_delegatedTo : string;
  ak_purpose : string;
  ak_validFrom : string;
  ak_validUntil : string;
  ak_scope : AuditShareScope;
  ak_revoked : option bool;
  ak_proof : DelegatedAuditKeyProof }.

Definition createDelegatedAuditKey (auditKeyId delegatedFrom delegatedTo validFrom validUntil : string) (scope : AuditShareScope)
    (revoked : option bool) (proof : DelegatedAuditKeyProof) : AuditShareDelegatedKey :=
  mkShareKey auditKeyId delegatedFrom delegatedTo "AUDIT" validFrom validUntil scope revoked proof.

(** The members that are signed; the serializer sorts them. *)
Definition key_payload (key : AuditShareDelegatedKey) : object :=
  [("auditKeyId", VStr (ak_auditKeyId key)); ("delegatedFrom", VStr (ak_delegatedFrom key)); ("delegatedTo", VStr (ak_delegatedTo key));
   ("purpose", VStr (ak_purpose key))]
  ++ match ak_revoked key with Some b => [("revoked", VBool b)] | None => [] end
  ++ [("validFrom", VStr (ak_validFrom key)); ("validUntil", VStr (ak_validUntil key))].

(** ** Programs over the ports *)

(** An audit event, as the object its fields are read from. *)
Abbreviation AuditEventObject := object.

Section programs.
Context {Entry : Type}.

Inductive prog (A : Type) : Type :=
| Ret (a : A)
| Raise (code : string)
| ResolvePublicKey (did : string) (k : option string → prog A)
| FetchKey (token : string) (k : option AuditShareDelegatedKey → prog A)
| IsAllowed (principalDid tenantId auditClass : string) (k : bool → prog A)
| FetchByChainIdentity (scope : AuditShareScope) (k : list Entry → prog A)
| VerifyChain (entries : list Entry) (k : bool → prog A)
| FetchAuditEvents (entries : list Entry) (k : list AuditEventObject → prog A)
| CheckChallenge (challenge : string) (k : bool → prog A)
| ConsumeChallenge (challenge : string) (k : bool → prog A).

Arguments Ret {A}.
Arguments Raise {A}.
Arguments ResolvePublicKey {A}.
Arguments FetchKey {A}.
Arguments IsAllowed {A}.
Arguments FetchByChainIdentity {A}.
Arguments VerifyChain {A}.
Arguments FetchAuditEvents {A}.
Arguments CheckChallenge {A}.
Arguments ConsumeChallenge {A}.

#[export] Instance prog_ret : MRet prog := @Ret.
#[export] Instance prog_bind : MBind prog := λ A B f, fix go p :=
  match p with
  | Ret a => f a
  | Raise c => Raise c
  | ResolvePublicKey did k => ResolvePublicKey did (λ x, go (k x))
  | FetchKey token k => FetchKey token (λ x, go (k x))
  | IsAllowed p t c k => IsAllowed p t c (λ x, go (k x))
  | FetchByChainIdentity s k => FetchByChainIdentity s (λ x, go (k x))
  | VerifyChain es k => VerifyChain es (λ x, go (k x))
  | FetchAuditEvents es k => FetchAuditEvents es (λ x, go (k x))
  | CheckChallenge c k => CheckChallenge c (λ x, go (k x))
  | ConsumeChallenge c k => ConsumeChallenge c (λ x, go (k x))
  end.

(** Code that calls no port. *)
Definition from_res {A} (r : res A) : prog A := match r with Ok a => Ret a | Throw c => Raise c end.

(** A call with its answer, or with an exception. *)
Inductive call : Type :=
| C_resolve (did : string) (x : option string)
| C_key (token : string) (x : option AuditShareDelegatedKey)
| C_allowed (principalDid tenantId auditClass : string) (x : bool)
| C_entries (scope : AuditShareScope) (x : list Entry)
| C_chain (entries : list Entry) (x : bool)
| C_events (entries : list Entry) (x : list AuditEventObject)
| C_check (challenge : string) (x : bool)
| C_consume (challenge : string) (x : bool)
| C_failed (code : string).

Inductive answer : Type :=
| A_resolve (x : option string)
| A_key (x : option AuditShareDelegatedKey)
| A_bool (x : bool)
| A_entries (x : list Entry)
| A_events (x : list AuditEventObject)
| A_failed (code : string).

(** One call. *)
Definition answer_call {A} (p : prog A) (a : answer) : option (call * prog A) :=
  match p, a with
  | Ret _, _ | Raise _, _ => None
  | _, A_failed c => Some (C_failed c, Raise c)
  | ResolvePublicKey did k, A_resolve x => Some (C_resolve did x, k x)
  | FetchKey token k, A_key x => Some (C_key token x, k x)
  | IsAllowed p t c k, A_bool x => Some (C_allowed p t c x, k x)
  | FetchByChainIdentity s k, A_entries x => Some (C_entries s x, k x)
  | VerifyChain es k, A_bool x => Some (C_chain es x, k x)
  | FetchAuditEvents es k, A_events x => Some (C_events es x, k x)
  | CheckChallenge c k, A_bool x => Some (C_check c x, k x)
  | ConsumeChallenge c k, A_bool x => Some (C_consume c x, k x)
  | _, _ => None
  end.

(** All calls, in order. *)
Fixpoint run {A} (p : prog A) (answers : list answer) : option (list call * prog A) :=
  match answers with
  | [] => Some ([], p)
  | a :: rest => '(c, p') ← answer_call p a; '(cs, q) ← run p' rest; Some (c :: cs, q)
  end.
End programs.
Arguments prog : clear implicits.
Arguments call : clear implicits.
Arguments answer : clear implicits.
Arguments Ret {Entry A}.
Arguments Raise {Entry A}.
Arguments ResolvePublicKey {Entry A}.
Arguments FetchKey {Entry A}.
Arguments IsAllowed {Entry A}.
Arguments FetchByChainIdentity {Entry A}.
Arguments VerifyChain {Entry A}.
Arguments FetchAuditEvents {Entry A}.
Arguments CheckChallenge {Entry A}.
Arguments ConsumeChallenge {Entry A}.

(** ** delegated-audit-key.ts *)

Section share.
Context `{Primitives} `{Formats} {Entry : Type}.

Definition buildCanonicalPayload (key : AuditShareDelegatedKey) : res string := canonicalize jcs (VObj (key_payload key)).

(** A signature check, with [code] for a failure and for an exception. *)
Definition require_signature (payload : string) (signature publicKey code : string) : res unit :=
  match verify (textEncode payload) signature publicKey with
  | Ok ok => check ok code
  | Throw _ => Throw code
  end.

(** The steps after the key of the delegator is known. *)
Definition check_delegated_key (key : AuditShareDelegatedKey) (publicKey now : string) : res unit :=
  payload ← buildCanonicalPayload key;
  _ ← require_signature payload (kp_signature (ak_proof key)) publicKey "AUDIT_SHARE_DELEGATOR_SIGNATURE_INVALID";
  _ ← check (String.eqb (kp_signedBy (ak_proof key)) (ak_delegatedFrom key)) "AUDIT_SHARE_DELEGATOR_SIGNATURE_INVALID";
  _ ← check (negb (str_ltb now (ak_validFrom key) || str_ltb (ak_validUntil key) now)) "AUDIT_SHARE_TOKEN_EXPIRED";
  check (negb (bool_decide (ak_revoked key = Some true))) "AUDIT_SHARE_TOKEN_INVALID".

(** The key that the resolver knows: not null and not empty. *)
Definition known_key (publicKey : option string) (code : string) : res string :=
  match publicKey with Some k => _ ← check (non_empty k) code; mret k | None => Throw code end.

Definition verifyDelegatedAuditKey (key : AuditShareDelegatedKey) (now : string) : prog Entry unit :=
  ResolvePublicKey (ak_delegatedFrom key) (λ publicKey,
    from_res (k ← known_key publicKey "AUDIT_SHARE_DELEGATOR_SIGNATURE_INVALID"; check_delegated_key key k now)).

(** ** audit-share-manager.ts *)

Record ShareResult : Type := mkShareResult { sr_entries : list Entry; sr_auditEvents : list AuditEventObject }.

(** The loop over the claims: a field of the event that is not [undefined]. *)
Definition project (event : AuditEventObject) (disclosedClaims : list string) : AuditEventObject :=
  foldl (λ projected field,
    match map_get field event with
    | Some VUndefined | None => projected
    | Some v => map_set field v projected
    end) [] disclosedClaims.

Definition canonicalScopeObject (scope : AuditShareScope) : value :=
  VObj ([("auditClass", VStr (sc_auditClass scope))]
        ++ match sc_chainNamespace scope with Some n => [("chainNamespace", VStr n)] | None => [] end
        ++ [("tenantId", VStr (sc_tenantId scope))]).

(** The members the requester signs; the serializer sorts them. *)
Definition request_payload (q : ShareRequest) : value :=
  VObj [("audience", VStr (sq_audience q)); ("auditShareVersion", VStr (sq_auditShareVersion q)); ("challenge", VStr (sq_challenge q));
        ("disclosedClaims", VArr (VStr <$> sq_disclosedClaims q)); ("notAfter", VStr (sq_notAfter q));
        ("requestedScope", canonicalScopeObject (sq_requestedScope q)); ("requesterDid", VStr (sq_requesterDid q));
        ("token", VStr (sq_token q))].

(** Steps 1 and 2, up to the challenge. *)
Definition step1_2 (q : ShareRequest) (expectedAudience now : string) : res unit :=
  _ ← check (validateAuditShareRequestSchema q) "AUDIT_SHARE_SCHEMA_INVALID";
  _ ← check (String.eqb (sq_auditShareVersion q) AUDIT_SHARE_VERSION_1_0_0) "AUDIT_SHARE_VERSION_UNSUPPORTED";
  _ ← check (forallb (λ f, bool_decide (f ∈ AUDIT_EVENT_FIELDS)) (sq_disclosedClaims q)) "AUDIT_SHARE_DISCLOSED_CLAIMS_INVALID";
  _ ← check (String.eqb (sq_audience q) expectedAudience) "AUDIT_SHARE_AUDIENCE_MISMATCH";
  match iso_getTime (sq_notAfter q), iso_getTime now with
  | Some notAfterMs, Some nowMs => check (nowMs + AUDIT_SHARE_MIN_VALIDITY_WINDOW_MS <? notAfterMs) "AUDIT_SHARE_NOT_AFTER_EXPIRED"
  | _, _ => Throw "AUDIT_SHARE_NOT_AFTER_EXPIRED"
  end.

(** Step 6, with the key of the requester. *)
Definition step6_signature (q : ShareRequest) (publicKey : option string) : res unit :=
  k ← known_key publicKey "AUDIT_SHARE_REQUESTER_SIGNATURE_INVALID";
  payload ← canonicalize jcs (request_payload q);
  require_signature payload (sq_requesterSignature q) k "AUDIT_SHARE_REQUESTER_SIGNATURE_INVALID".

Definition step7_scope (q : ShareRequest) : res AuditShareScope :=
  toAuditShareScope (sc_tenantId (sq_requestedScope q)) (sc_auditClass (sq_requestedScope q)) (sc_chainNamespace (sq_requestedScope q)).

(** Step 8 before the policy of the tenant is asked. *)
Definition step8_binding (keyScope scope : AuditShareScope) : res unit :=
  _ ← check (String.eqb (sc_tenantId keyScope) (sc_tenantId scope)) "AUDIT_SHARE_CROSS_TENANT_REJECT";
  _ ← check (String.eqb (sc_auditClass keyScope) (sc_auditClass scope)) "AUDIT_SHARE_CROSS_TENANT_REJECT";
  when_given (sc_chainNamespace keyScope) (λ n, check (bool_decide (sc_chainNamespace scope = Some n)) "AUDIT_SHARE_CROSS_TENANT_REJECT").

(** Steps 8 to 11, once the challenge is consumed. *)
Definition fetch_shared (q : ShareRequest) (key : AuditShareDelegatedKey) (scope : AuditShareScope) : prog Entry ShareResult :=
  IsAllowed (ak_delegatedFrom key) (sc_tenantId scope) (sc_auditClass scope) (λ allowed,
    if allowed then
      FetchByChainIdentity scope (λ entries,
        VerifyChain entries (λ valid,
          if valid then
            FetchAuditEvents entries (λ fullAuditEvents,
              Ret (mkShareResult entries ((λ event, project event (sq_disclosedClaims q)) <$> fullAuditEvents)))
          else Raise "AUDIT_SHARE_HASH_CHAIN_INVALID"))
    else Raise "AUDIT_SHARE_CROSS_TENANT_REJECT").

(** Steps 5 to 11, with a verified key. *)
Definition serve_request (q : ShareRequest) (key : AuditShareDelegatedKey) : prog Entry ShareResult :=
  _ ← from_res (check (String.eqb (ak_delegatedTo key) (sq_requesterDid q)) "AUDIT_SHARE_DELEGATOR_AUDIENCE_MISMATCH");
  ResolvePublicKey (sq_requesterDid q) (λ publicKey,
    _ ← from_res (step6_signature q publicKey);
    ConsumeChallenge (sq_challenge q) (λ consumed,
      if consumed then
        scope ← from_res (step7_scope q);
        _ ← from_res (step8_binding (ak_scope key) scope);
        fetch_shared q key scope
      else Raise "AUDIT_SHARE_CHALLENGE_INVALID")).

Definition verifyAuditRequest (q : ShareRequest) (expectedAudience now : string) : prog Entry ShareResult :=
  _ ← from_res (step1_2 q expectedAudience now);
  CheckChallenge (sq_challenge q) (λ challengeExists,
    if challengeExists then
      FetchKey (sq_token q) (λ delegatedAuditKey,
        match delegatedAuditKey with
        | Some key => _ ← verifyDelegatedAuditKey key now; serve_request q key
        | None => Raise "AUDIT_SHARE_TOKEN_INVALID"
        end)
    else Raise "AUDIT_SHARE_CHALLENGE_INVALID").

Record EntryWithWitness : Type := mkEntryWithWitness {
  ew_entry : Entry;
  ew_auditEvent : AuditEventObject;
  ew_disclosedFields : AuditEventObject }.

Definition buildEntriesWithWitness (entries : list Entry) (auditEvents : list AuditEventObject) (disclosedClaims : list string) : res (list EntryWithWitness) :=
  _ ← check (Nat.eqb (length entries) (length auditEvents)) "AUDIT_SHARE_HASH_CHAIN_INVALID";
  mret (zip_with (λ entry event, mkEntryWithWitness entry event (project event disclosedClaims)) entries auditEvents).
End share.
Arguments ShareResult : clear implicits.

(** ** verify-audit-request-v0.3.ts *)

Section v03.
Context `{Primitives} `{Formats} `{JsonText} `{X509} `{Jose}.

Inductive RawTransportEvidence : Type :=
| evidence_mtls (clientCert : CertInput) (intermediateChain : option (list CertInput))
| evidence_jwt (jwt : string)
| evidence_oauth2 (accessToken : string).

Inductive TrustedVerifierConfig : Type :=
| config_mtls (trustedRootCerts : list CertInput) (expectedDid : string)
| config_jwt (jwks : Jwks) (expectedIssuer expectedAudience expectedDid : string) (allowSymmetricAlg : option bool)
| config_oauth2 (authority : OAuth2TrustAuthority) (introspectionClientSecret expectedDid : string).

Record TrustedHashChainCheckpoint : Type := mkTrustedCheckpoint {
  tc_expectedEntryCount : option nat;
  tc_expectedLastChainPosition : option Z;
  tc_expectedLastCanonicalPayloadHash : option string }.

(** What the network answers and the clock reads during step 0. *)
Record TransportInputs : Type := mkTransportInputs {
  ti_chainNow : Z;
  ti_verifiedNow : Z;
  ti_boundaryNow : Z;
  ti_oauth2 : OAuth2Answers }.

(** Step 0.0: evidence from the caller, trust anchors from the deployment; other
    kinds are refused. *)
Definition verify_evidence (evidence : RawTransportEvidence) (config : TrustedVerifierConfig) (i : TransportInputs) : M OAuth2State VerifiedTransportContext :=
  match evidence, config with
  | evidence_mtls cert chain, config_mtls roots did => lift_res (verifyMtlsAndDeriveDid (mkMtlsContext cert roots chain did) (ti_chainNow i) (ti_verifiedNow i))
  | evidence_jwt token, config_jwt keys iss aud did sym => lift_res (verifyJwtAndDeriveDid (mkJwtContext token keys iss aud did sym) (ti_verifiedNow i))
  | evidence_oauth2 token, config_oauth2 authority secret did => verifyOAuth2AndDeriveDid (mkOAuth2Context token authority secret did) (ti_oauth2 i)
  | _, _ => throw "AUDIT_SHARE_VERIFIER_REQUIRED"
  end.

Definition rename_error {A} (r : res A) (code : string) : res A := match r with Ok a => Ok a | Throw _ => Throw code end.

(** Steps 0.1 to 0.3. *)
Definition check_boundary (q : ShareRequest) (ctx : VerifiedTransportContext) (now : Z) : res unit :=
  _ ← rename_error (assertTrustedDidIsKindAndFresh ctx (sq_requesterDid q) [kind_mtls; kind_jwt; kind_oauth2] (Some 60) now)
        "AUDIT_SHARE_BOUNDARY_CHECK_FAILED";
  _ ← rename_error (assertCrossCheckMappingConsistent ctx) "AUDIT_SHARE_BOUNDARY_CHECK_FAILED";
  check (String.eqb (trustedDid ctx) (sq_requesterDid q)) "AUDIT_SHARE_BOUNDARY_CHECK_FAILED".

Definition step0 (q : ShareRequest) (evidence : option RawTransportEvidence) (config : option TrustedVerifierConfig) (i : TransportInputs)
  : M OAuth2State VerifiedTransportContext := λ s,
  match evidence, config with
  | Some evidence, Some config =>
      let '(r, s') := verify_evidence evidence config i s in
      (ctx ← rename_error r "AUDIT_SHARE_VERIFIER_REQUIRED"; _ ← check_boundary q ctx (ti_boundaryNow i); mret ctx, s')
  | _, _ => (Throw "AUDIT_SHARE_VERIFIER_REQUIRED", s)
  end.

Definition has_tail_anchor (c : TrustedHashChainCheckpoint) : bool :=
  bool_decide (is_Some (tc_expectedEntryCount c)) || bool_decide (is_Some (tc_expectedLastChainPosition c))
  || bool_decide (is_Some (tc_expectedLastCanonicalPayloadHash c)).

Definition scope_identity (namespace : string) (scope : AuditShareScope) : ChainIdentity :=
  mkChainIdentity namespace (Some (sc_tenantId scope)) (Some (sc_auditClass scope)).

Definition chain_options (namespace : string) (scope : AuditShareScope) (c : TrustedHashChainCheckpoint) : VerifyHashChainOptions :=
  mkHccOptions (Some (scope_identity namespace scope))
    (Some (mkCheckpoint true (tc_expectedEntryCount c) (tc_expectedLastChainPosition c) (tc_expectedLastCanonicalPayloadHash c))).

(** The codes of the chain, as codes of this protocol. *)
Definition chain_error {A} (r : res A) : res A :=
  match r with
  | Ok a => Ok a
  | Throw c => if bool_decide (c ∈ ["HC_HASH_MISMATCH"; "HC_CHAIN_IDENTITY_PREIMAGE_FAILED"; "HC_CHAIN_IDENTITY_SCHEMA_BREAKING"])
               then Throw "AUDIT_SHARE_CHAIN_IDENTITY_TAMPERED" else Throw "AUDIT_SHARE_HASH_CHAIN_INVALID"
  end.

Definition step10 (q : ShareRequest) (entries : list HashChainEntry) (c : TrustedHashChainCheckpoint) : res unit :=
  let scope := sq_requestedScope q in
  chain_error match sc_chainNamespace scope with
    | Some namespace =>
        _ ← check (non_empty namespace) "AUDIT_SHARE_HASH_CHAIN_INVALID";
        _ ← check (has_tail_anchor c) "AUDIT_SHARE_HASH_CHAIN_INVALID";
        verifyHashChain entries (chain_options namespace scope c)
    | None => Throw "AUDIT_SHARE_HASH_CHAIN_INVALID"
    end.

Record AuditShareV3Result : Type := mkV3Result {
  v3_entries : list HashChainEntry;
  v3_auditEvents : list AuditEventObject;
  v3_kind : VerifierKind;
  v3_verifiedAt : string }.

(** The program, once the identity is known. *)
Definition verify_shared (q : ShareRequest) (expectedAudience : string) (verifiedCtx : VerifiedTransportContext) (now : string)
    (c : TrustedHashChainCheckpoint) : prog HashChainEntry AuditShareV3Result :=
  r ← verifyAuditRequest q expectedAudience now;
  _ ← from_res (step10 q (sr_entries r) c);
  mret (mkV3Result (sr_entries r) (sr_auditEvents r) (verifierKind verifiedCtx) (verifiedAt verifiedCtx)).

Definition verifyAuditRequestV03 (q : ShareRequest) (expectedAudience : string) (evidence : option RawTransportEvidence)
    (config : option TrustedVerifierConfig) (i : TransportInputs) (now : string) (c : TrustedHashChainCheckpoint)
    (s : OAuth2State) : prog HashChainEntry AuditShareV3Result * OAuth2State :=
  match step0 q evidence config i s with
  | (Ok verifiedCtx, s') => (verify_shared q expectedAudience verifiedCtx now c, s')
  | (Throw code, s') => (Raise code, s')
  end.
End v03.

(** ** Runs of programs *)

Section runs.
Context {Entry : Type}.

(** The program makes these calls and returns. *)
Definition returns {A} (p : prog Entry A) (calls : list (call Entry)) (x : A) : Prop := ∃ answers, run p answers = Some (calls, Ret x).

Lemma returns_ret {A} (a : A) calls x : returns (Ret a) calls x ↔ calls = [] ∧ x = a.
Proof.
  split; [|intros [-> ->]; by exists []]. intros [[|ans answers] E]; cbn in E; [by injection E as <- <-|done].
Qed.

Lemma returns_raise {A} c calls (x : A) : ¬ returns (Raise c) calls x.
Proof. intros [[|ans answers] E]; [by simplify_eq/=|done]. Qed.

(** A program that is at a call: the call is answered, and it goes on. *)
Ltac solve_returns :=
  split;
  [ intros [[|a answers] E]; [by simplify_eq/=|]; destruct a; cbn in E; try discriminate E;
    apply bind_Some in E as ([cs q] & E & E2); injection E2 as <- ->;
    first [exfalso; eapply returns_raise; exists answers; exact E | eexists _, _; split; [reflexivity|]; by exists answers]
  | intros (y & calls' & -> & answers & E) ].

Lemma returns_resolve {A} d k calls (x : A) :
  returns (ResolvePublicKey d k) calls x ↔ ∃ y calls', calls = C_resolve d y :: calls' ∧ returns (k y) calls' x.
Proof. solve_returns. exists (A_resolve y :: answers). cbn. by rewrite E. Qed.
Lemma returns_key {A} t k calls (x : A) :
  returns (FetchKey t k) calls x ↔ ∃ y calls', calls = C_key t y :: calls' ∧ returns (k y) calls' x.
Proof. solve_returns. exists (A_key y :: answers). cbn. by rewrite E. Qed.
Lemma returns_allowed {A} p t c k calls (x : A) :
  returns (IsAllowed p t c k) calls x ↔ ∃ y calls', calls = C_allowed p t c y :: calls' ∧ returns (k y) calls' x.
Proof. solve_returns. exists (A_bool y :: answers). cbn. by rewrite E. Qed.
Lemma returns_entries {A} s k calls (x : A) :
  returns (FetchByChainIdentity s k) calls x ↔ ∃ y calls', calls = C_entries s y :: calls' ∧ returns (k y) calls' x.
Proof. solve_returns. exists (A_entries y :: answers). cbn. by rewrite E. Qed.
Lemma returns_chain {A} es k calls (x : A) :
  returns (VerifyChain es k) calls x ↔ ∃ y calls', calls = C_chain es y :: calls' ∧ returns (k y) calls' x.
Proof. solve_returns. exists (A_bool y :: answers). cbn. by rewrite E. Qed.
Lemma returns_events {A} es k calls (x : A) :
  returns (FetchAuditEvents es k) calls x ↔ ∃ y calls', calls = C_events es y :: calls' ∧ returns (k y) calls' x.
Proof. solve_returns. exists (A_events y :: answers). cbn. by rewrite E. Qed.
Lemma returns_check {A} c k calls (x : A) :
  returns (CheckChallenge c k) calls x ↔ ∃ y calls', calls = C_check c y :: calls' ∧ returns (k y) calls' x.
Proof. solve_returns. exists (A_bool y :: answers). cbn. by rewrite E. Qed.
Lemma returns_consume {A} c k calls (x : A) :
  returns (ConsumeChallenge c k) calls x ↔ ∃ y calls', calls = C_consume c y :: calls' ∧ returns (k y) calls' x.
Proof. solve_returns. exists (A_bool y :: answers). cbn. by rewrite E. Qed.

Lemma returns_from_res {A} (r : res A) calls x : returns (from_res r) calls x ↔ calls = [] ∧ r = Ok x.
Proof.
  destruct r as [a|c]; cbn [from_res]; [rewrite returns_ret; naive_solver|]. split; [by intros ?%returns_raise|by intros [_ [=]]].
Qed.

Ltac solve_bind L IH :=
  rewrite L; split;
  [ intros (y & cs & -> & (z & c1 & c2 & -> & H1 & H2)%IH); eexists z, (_ :: c1), c2; split; [reflexivity|]; split; [apply L; by exists y, c1|done]
  | intros (z & c1 & c2 & -> & (y & cs & -> & H1)%L & H2); exists y, (cs ++ c2); split; [done|]; apply IH; by exists z, cs, c2 ].

Lemma returns_bind {A B} (p : prog Entry A) (f : A → prog Entry B) calls x :
  returns (p ≫= f) calls x ↔ ∃ y c1 c2, calls = c1 ++ c2 ∧ returns p c1 y ∧ returns (f y) c2 x.
Proof.
  revert calls. induction p as [a|c|d k IH|t k IH|p t c k IH|s k IH|es k IH|es k IH|c k IH|c k IH]; intros calls.
  - change (Ret a ≫= f) with (f a). split; [intros Hx; exists a, [], calls; by rewrite returns_ret|by intros (? & ? & ? & -> & [-> ->]%returns_ret & ?)].
  - change (Raise c ≫= f) with (@Raise Entry B c). split; [by intros ?%returns_raise|by intros (? & ? & ? & _ & ?%returns_raise & _)].
  - change (ResolvePublicKey d k ≫= f) with (ResolvePublicKey d (λ x, k x ≫= f)). solve_bind (@returns_resolve) IH.
  - change (FetchKey t k ≫= f) with (FetchKey t (λ x, k x ≫= f)). solve_bind (@returns_key) IH.
  - change (IsAllowed p t c k ≫= f) with (IsAllowed p t c (λ x, k x ≫= f)). solve_bind (@returns_allowed) IH.
  - change (FetchByChainIdentity s k ≫= f) with (FetchByChainIdentity s (λ x, k x ≫= f)). solve_bind (@returns_entries) IH.
  - change (VerifyChain es k ≫= f) with (VerifyChain es (λ x, k x ≫= f)). solve_bind (@returns_chain) IH.
  - change (FetchAuditEvents es k ≫= f) with (FetchAuditEvents es (λ x, k x ≫= f)). solve_bind (@returns_events) IH.
  - change (CheckChallenge c k ≫= f) with (CheckChallenge c (λ x, k x ≫= f)). solve_bind (@returns_check) IH.
  - change (ConsumeChallenge c k ≫= f) with (ConsumeChallenge c (λ x, k x ≫= f)). solve_bind (@returns_consume) IH.
Qed.

Lemma returns_after {A B} (r : res A) (f : A → prog Entry B) calls x :
  returns (from_res r ≫= f) calls x ↔ ∃ a, r = Ok a ∧ returns (f a) calls x.
Proof.
  rewrite returns_bind. split; [intros (a & c1 & c2 & -> & [-> Hr]%returns_from_res & Hf); by exists a|].
  intros (a & Hr & Hf). exists a, [], calls. by rewrite returns_from_res.
Qed.
End runs.

(** ** What a shared answer rests on *)

Section authorized.
Context `{Primitives} `{Formats} {Entry : Type}.

(** The key was signed by who delegates, is valid now and is not revoked. *)
Record key_in_force (key : AuditShareDelegatedKey) (publicKey now : string) : Prop := mkInForce {
  kf_signature : verify (textEncode (jcs (VObj (key_payload key)))) (kp_signature (ak_proof key)) publicKey = Ok true;
  kf_signer : kp_signedBy (ak_proof key) = ak_delegatedFrom key;
  kf_begun : str_ltb now (ak_validFrom key) = false;
  kf_running : str_ltb (ak_validUntil key) now = false;
  kf_unrevoked : ak_revoked key ≠ Some true }.

Lemma require_signature_ok payload sig k code u : require_signature payload sig k code = Ok u ↔ verify (textEncode payload) sig k = Ok true.
Proof. unfold require_signature. destruct u, (verify (textEncode payload) sig k) as [[]|]; cbn; naive_solver. Qed.

Lemma check_delegated_key_ok key k now u : check_delegated_key key k now = Ok u ↔ key_in_force key k now.
Proof.
  destruct u. unfold check_delegated_key, buildCanonicalPayload, canonicalize.
  assert (assertSerializable (VObj (key_payload key)) = true) as -> by (unfold key_payload; by destruct (ak_revoked key)).
  cbn [mbind res_bind]. rewrite unit_bind_ok, require_signature_ok, unit_bind_ok, check_ok, String.eqb_eq, unit_bind_ok, !check_ok.
  rewrite negb_true_iff, orb_false_iff, negb_true_iff, bool_decide_eq_false. split; [intros (? & ? & [? ?] & ?); by split|by intros []].
Qed.

Lemma known_key_ok o code k : known_key o code = Ok k ↔ o = Some k ∧ k ≠ "".
Proof.
  destruct o as [k'|]; cbn; [|naive_solver]. rewrite unit_bind_ok, check_ok. unfold non_empty, mret, res_ret. rewrite negb_true_iff, String.eqb_neq. naive_solver.
Qed.

Lemma request_serializable q : assertSerializable (request_payload q) = true.
Proof.
  unfold request_payload, canonicalScopeObject. cbn. rewrite !andb_true_r, andb_true_iff. split.
  - rewrite forallb_forall. intros v (s & -> & _)%list_elem_of_In%list_elem_of_fmap. done.
  - by destruct (sc_chainNamespace (sq_requestedScope q)).
Qed.

Lemma share_step6_ok q o u : step6_signature q o = Ok u ↔
  ∃ k, o = Some k ∧ k ≠ "" ∧ verify (textEncode (jcs (request_payload q))) (sq_requesterSignature q) k = Ok true.
Proof.
  unfold step6_signature, canonicalize. rewrite request_serializable, res_bind_ok. setoid_rewrite known_key_ok. cbn [mbind res_bind].
  setoid_rewrite require_signature_ok. naive_solver.
Qed.

(** The scope asked for is the one the key is for. *)
Definition within_scope (keyScope scope : AuditShareScope) : Prop :=
  sc_tenantId keyScope = sc_tenantId scope ∧ sc_auditClass keyScope = sc_auditClass scope
  ∧ ∀ n, sc_chainNamespace keyScope = Some n → sc_chainNamespace scope = Some n.

Lemma share_step8_ok ks s u : step8_binding ks s = Ok u ↔ within_scope ks s.
Proof.
  unfold step8_binding, within_scope. destruct u. rewrite !unit_bind_ok, !check_ok, !String.eqb_eq, when_given_ok.
  setoid_rewrite check_ok. setoid_rewrite bool_decide_eq_true. done.
Qed.

Lemma step7_ok q s : step7_scope q = Ok s → s = sq_requestedScope q.
Proof.
  unfold step7_scope, toAuditShareScope. intros ([] & _ & ([] & _ & ([] & _ & Hx)%res_bind_ok)%res_bind_ok)%res_bind_ok.
  injection Hx as <-. by destruct (sq_requestedScope q).
Qed.

(** The request is well formed, for this audience, and not about to expire. *)
Record request_in_force (q : ShareRequest) (expectedAudience now : string) : Prop := mkRequestInForce {
  rf_schema : validateAuditShareRequestSchema q = true;
  rf_audience : sq_audience q = expectedAudience;
  rf_time : ∃ notAfterMs nowMs, iso_getTime (sq_notAfter q) = Some notAfterMs ∧ iso_getTime now = Some nowMs ∧ nowMs + 1000 < notAfterMs }.

Lemma step1_2_ok q aud now : step1_2 q aud now = Ok tt → request_in_force q aud now.
Proof.
  unfold step1_2. intros ([] & Hs%check_ok & ([] & _ & ([] & _ & ([] & Ha%check_ok%String.eqb_eq & Ht)%res_bind_ok)%res_bind_ok)%res_bind_ok)%res_bind_ok.
  split; [done|done|]. destruct (iso_getTime (sq_notAfter q)) as [a|]; [|done]. destruct (iso_getTime now) as [b|]; [|done].
  apply check_ok, Z.ltb_lt in Ht. by exists a, b.
Qed.

(** The calls of a verification that returns. *)
Lemma request_calls q aud now calls (r : ShareResult Entry) : returns (verifyAuditRequest q aud now) calls r →
  ∃ key pk rpk events,
    calls = [C_check (sq_challenge q) true; C_key (sq_token q) (Some key); C_resolve (ak_delegatedFrom key) (Some pk);
             C_resolve (sq_requesterDid q) (Some rpk); C_consume (sq_challenge q) true;
             C_allowed (ak_delegatedFrom key) (sc_tenantId (sq_requestedScope q)) (sc_auditClass (sq_requestedScope q)) true;
             C_entries (sq_requestedScope q) (sr_entries r); C_chain (sr_entries r) true; C_events (sr_entries r) events]
    ∧ request_in_force q aud now ∧ key_in_force key pk now ∧ ak_delegatedTo key = sq_requesterDid q
    ∧ verify (textEncode (jcs (request_payload q))) (sq_requesterSignature q) rpk = Ok true
    ∧ within_scope (ak_scope key) (sq_requestedScope q)
    ∧ sr_auditEvents r = (λ event, project event (sq_disclosedClaims q)) <$> events.
Proof.
  unfold verifyAuditRequest. intros ([] & H12%step1_2_ok & (ex & c1 & -> & H1)%returns_check)%returns_after.
  destruct ex; [|by apply returns_raise in H1]. apply returns_key in H1 as ([key|] & c2 & -> & H1); [|by apply returns_raise in H1].
  apply returns_bind in H1 as ([] & c3 & c4 & -> & (pk & c5 & -> & Hk)%returns_resolve & H1).
  apply returns_from_res in Hk as [-> (k & [-> _]%known_key_ok & Hk%check_delegated_key_ok)%res_bind_ok].
  unfold serve_request in H1. apply returns_after in H1 as ([] & Hto%check_ok%String.eqb_eq & (o & c6 & -> & H1)%returns_resolve).
  apply returns_after in H1 as ([] & (rpk & -> & _ & Hsig)%share_step6_ok & (b & c7 & -> & H1)%returns_consume). destruct b; [|by apply returns_raise in H1].
  apply returns_after in H1 as (s & ->%step7_ok & ([] & H8%share_step8_ok & H1)%returns_after). unfold fetch_shared in H1.
  apply returns_allowed in H1 as (b & c8 & -> & H1). destruct b; [|by apply returns_raise in H1].
  apply returns_entries in H1 as (entries & c9 & -> & (b & c10 & -> & H1)%returns_chain). destruct b; [|by apply returns_raise in H1].
  apply returns_events in H1 as (events & c11 & -> & [-> ->]%returns_ret). by exists key, k, rpk, events.
Qed.

(** C30.  Who gets what: a verification that returns was asked with a challenge that
    was open and is consumed, for this audience; the requester signed all of the
    request; the key its token names was signed by the delegator, is in force
    and names the requester and the scope; the delegator may share the tenant's
    records; the entries are those of the scope with a verified chain, and the
    events those of the entries, cut down to the claims asked for. *)
Theorem share_authorized q aud now calls (r : ShareResult Entry) : returns (verifyAuditRequest q aud now) calls r →
  ∃ key pk rpk events,
    C_check (sq_challenge q) true ∈ calls ∧ C_consume (sq_challenge q) true ∈ calls
    ∧ C_key (sq_token q) (Some key) ∈ calls ∧ C_resolve (ak_delegatedFrom key) (Some pk) ∈ calls ∧ C_resolve (sq_requesterDid q) (Some rpk) ∈ calls
    ∧ C_allowed (ak_delegatedFrom key) (sc_tenantId (ak_scope key)) (sc_auditClass (ak_scope key)) true ∈ calls
    ∧ C_entries (sq_requestedScope q) (sr_entries r) ∈ calls ∧ C_chain (sr_entries r) true ∈ calls ∧ C_events (sr_entries r) events ∈ calls
    ∧ request_in_force q aud now ∧ key_in_force key pk now ∧ ak_delegatedTo key = sq_requesterDid q
    ∧ verify (textEncode (jcs (request_payload q))) (sq_requesterSignature q) rpk = Ok true
    ∧ within_scope (ak_scope key) (sq_requestedScope q)
    ∧ sr_auditEvents r = (λ event, project event (sq_disclosedClaims q)) <$> events.
Proof.
  intros (key & pk & rpk & events & -> & H1 & H2 & H3 & H4 & H5 & H6)%request_calls. exists key, pk, rpk, events.
  pose proof H5 as (-> & -> & _). split_and!; try done; repeat (left || right).
Qed.

(** The projection is exact: a field is given with its value exactly when it was
    asked for and the event has it. *)
Theorem projection_exact event claims field v :
  map_get field (project event claims) = Some v ↔ field ∈ claims ∧ map_get field event = Some v ∧ v ≠ VUndefined.
Proof.
  unfold project. induction claims as [|f claims IH] using rev_ind; [cbn; split; [done|by intros [[]%not_elem_of_nil _]]|].
  rewrite foldl_app. cbn [foldl]. set (acc := foldl _ [] claims) in *.
  rewrite elem_of_app, list_elem_of_singleton.
  destruct (map_get f event) as [w|] eqn:Ef; [|rewrite IH; split; [naive_solver|]; intros ([?| ->] & ? & ?); [done|congruence]].
  assert (w = VUndefined ∨ w ≠ VUndefined) as [->|Hw] by (destruct w; by auto).
  { rewrite IH. split; [naive_solver|]. intros ([?| ->] & ? & ?); [done|congruence]. }
  replace (match w with VUndefined => acc | _ => map_set f w acc end) with (map_set f w acc) by (by destruct w).
  rewrite map_get_set. destruct (String.eqb_spec f field) as [->|Hne]; [|rewrite IH; naive_solver].
  rewrite Ef. split; [intros [= <-]; naive_solver|naive_solver].
Qed.

(** The signature of a key says nothing of its scope: a key that a store gives
    with any other scope verifies as before. *)
Definition with_scope (scope : AuditShareScope) (key : AuditShareDelegatedKey) : AuditShareDelegatedKey :=
  mkShareKey (ak_auditKeyId key) (ak_delegatedFrom key) (ak_delegatedTo key) (ak_purpose key) (ak_validFrom key) (ak_validUntil key)
    scope (ak_revoked key) (ak_proof key).

Theorem key_scope_unsigned key now scope calls :
  returns (Entry := Entry) (verifyDelegatedAuditKey key now) calls tt ↔ returns (Entry := Entry) (verifyDelegatedAuditKey (with_scope scope key) now) calls tt.
Proof. done. Qed.
End authorized.

(** ** Challenges *)

Section challenges.
Context `{Primitives} `{Formats} {Entry : Type}.

(** Whenever the program asks to consume a challenge, [P] holds of the calls made
    so far and of the challenge. *)
Fixpoint consumes_when {A} (P : list (call Entry) → string → Prop) (seen : list (call Entry)) (p : prog Entry A) : Prop :=
  match p with
  | Ret _ | Raise _ => True
  | ResolvePublicKey d k => ∀ x, consumes_when P (seen ++ [C_resolve d x]) (k x)
  | FetchKey t k => ∀ x, consumes_when P (seen ++ [C_key t x]) (k x)
  | IsAllowed d t c k => ∀ x, consumes_when P (seen ++ [C_allowed d t c x]) (k x)
  | FetchByChainIdentity s k => ∀ x, consumes_when P (seen ++ [C_entries s x]) (k x)
  | VerifyChain es k => ∀ x, consumes_when P (seen ++ [C_chain es x]) (k x)
  | FetchAuditEvents es k => ∀ x, consumes_when P (seen ++ [C_events es x]) (k x)
  | CheckChallenge c k => ∀ x, consumes_when P (seen ++ [C_check c x]) (k x)
  | ConsumeChallenge c k => P seen c ∧ ∀ x, consumes_when P (seen ++ [C_consume c x]) (k x)
  end.

Lemma consumes_after {A B} P seen (r : res A) (f : A → prog Entry B) :
  (∀ a, r = Ok a → consumes_when P seen (f a)) → consumes_when P seen (from_res r ≫= f).
Proof. intros Hf. destruct r as [a|c]; [by apply Hf|done]. Qed.

(** So it holds of every run, wherever it stops. *)
Lemma consumes_run {A} P (p : prog Entry A) seen answers calls q c b :
  consumes_when P seen p → run p answers = Some (calls, q) → C_consume c b ∈ calls →
  ∃ before after, calls = before ++ after ∧ P (seen ++ before) c.
Proof.
  revert p seen calls. induction answers as [|a answers IH]; intros p seen calls Hp E Hin; cbn in E; [injection E as <- _; by apply not_elem_of_nil in Hin|].
  apply bind_Some in E as ([x p'] & Ea & E). apply bind_Some in E as ([cs q'] & E & [= <- <-]).
  assert ((∃ b', x = C_consume c b' ∧ P seen c) ∨ (C_consume c b ∈ cs ∧ consumes_when P (seen ++ [x]) p')) as [(b' & -> & Hc)|[Hcs Hp']].
  { apply elem_of_cons in Hin as [<-|Hin].
    - left. destruct p, a; try discriminate Ea. injection Ea as <- <- <-. destruct Hp as [Hp _]. by eexists.
    - right. split; [done|]. destruct p, a; try discriminate Ea; injection Ea as <- <-; cbn in Hp |- *; try done; apply Hp. }
  - exists [], (C_consume c b' :: cs). split; [done|]. by rewrite app_nil_r.
  - destruct (IH p' (seen ++ [x]) cs Hp' E Hcs) as (before & after & -> & Hc). exists (x :: before), after. split; [done|]. by rewrite <- app_assoc in Hc.
Qed.

(** The requester signed the request, and the key is in force and is its own. *)
Definition signed_so_far (q : ShareRequest) (now : string) (seen : list (call Entry)) (c : string) : Prop :=
  c = sq_challenge q
  ∧ ∃ key pk rpk, C_key (sq_token q) (Some key) ∈ seen ∧ C_resolve (ak_delegatedFrom key) (Some pk) ∈ seen
      ∧ C_resolve (sq_requesterDid q) (Some rpk) ∈ seen ∧ key_in_force key pk now ∧ ak_delegatedTo key = sq_requesterDid q
      ∧ verify (textEncode (jcs (request_payload q))) (sq_requesterSignature q) rpk = Ok true.

Lemma request_consumes q aud now : consumes_when (signed_so_far q now) [] (verifyAuditRequest q aud now).
Proof.
  unfold verifyAuditRequest. apply consumes_after. intros [] _. cbn [consumes_when]. intros [|]; [|done]. cbn [consumes_when]. intros [key|]; [|done].
  change (verifyDelegatedAuditKey key now ≫= λ _, serve_request q key) with (ResolvePublicKey (Entry := Entry) (ak_delegatedFrom key) (λ publicKey,
    from_res (k ← known_key publicKey "AUDIT_SHARE_DELEGATOR_SIGNATURE_INVALID"; check_delegated_key key k now) ≫= λ _, serve_request q key)).
  cbn [consumes_when]. intros pk. apply consumes_after. intros [] (k & [-> _]%known_key_ok & Hk%check_delegated_key_ok)%res_bind_ok.
  unfold serve_request. apply consumes_after. intros [] Hto%check_ok%String.eqb_eq. cbn [consumes_when]. intros o. apply consumes_after.
  intros [] (rpk & -> & _ & Hs)%share_step6_ok. cbn [consumes_when app]. split.
  - split; [done|]. exists key, k, rpk. split_and!; try done; repeat (left || right).
  - intros [|]; [|done]. apply consumes_after. intros s _. apply consumes_after. intros [] _. unfold fetch_shared. cbn [consumes_when].
    intros [|]; [|done]. cbn [consumes_when]. intros es [|]; [|done]. by cbn.
Qed.

(** No forged request burns a challenge: a verification asks to consume its own
    challenge only after it verified the signature of the requester and the key
    it names, however far it gets. *)
Theorem challenge_burn_signed q aud now answers calls p c b :
  run (verifyAuditRequest (Entry := Entry) q aud now) answers = Some (calls, p) → C_consume c b ∈ calls → signed_so_far q now calls c.
Proof.
  intros Hr Hin. destruct (consumes_run _ _ [] _ _ _ _ _ (request_consumes q aud now) Hr Hin) as (before & after & -> & Hc & key & pk & rpk & H1 & H2 & H3 & H4).
  split; [done|]. exists key, pk, rpk. cbn [app] in *. split_and!; try apply H4; apply elem_of_app; by left.
Qed.

(** Requests that are verified at the same time, over one store of challenges. *)
Record Pool : Type := mkPool {
  pl_threads : list (ShareRequest * prog Entry (ShareResult Entry));
  pl_issued : gset string;
  pl_log : list (nat * call Entry) }.

Inductive PoolEvent : Type :=
| P_issue (challenge : string)
| P_start (q : ShareRequest) (expectedAudience now : string)
| P_call (thread : nat) (a : answer Entry).

(** The store answers for itself; the other ports answer whatever they like. *)
Definition store_answer {A} (p : prog Entry A) (a : answer Entry) (issued : gset string) : answer Entry * gset string :=
  match p, a with
  | CheckChallenge c _, A_bool _ => (A_bool (bool_decide (c ∈ issued)), issued)
  | ConsumeChallenge c _, A_bool _ => (A_bool (bool_decide (c ∈ issued)), issued ∖ {[ c ]})
  | _, _ => (a, issued)
  end.

Definition pool_step (pl : Pool) (ev : PoolEvent) : option Pool :=
  match ev with
  | P_issue c => Some (mkPool (pl_threads pl) (pl_issued pl ∪ {[ c ]}) (pl_log pl))
  | P_start q aud now => Some (mkPool (pl_threads pl ++ [(q, verifyAuditRequest q aud now)]) (pl_issued pl) (pl_log pl))
  | P_call i a =>
      '(q, p) ← pl_threads pl !! i;
      let '(a', issued) := store_answer p a (pl_issued pl) in
      '(c, p') ← answer_call p a';
      Some (mkPool (<[i := (q, p')]> (pl_threads pl)) issued (pl_log pl ++ [(i, c)]))
  end.

Fixpoint pool_run (pl : Pool) (evs : list PoolEvent) : option Pool :=
  match evs with [] => Some pl | ev :: evs' => pl' ← pool_step pl ev; pool_run pl' evs' end.
End challenges.

(** *** One use for each issue *)

Section single_use.
Context `{Primitives} `{Formats} {Entry : Type}.
Notation Pool := (@Pool Entry).

Definition empty_pool : Pool := mkPool [] ∅ [].

Definition consumed_by (c : string) (e : nat * call Entry) : bool := match e.2 with C_consume c' true => String.eqb c' c | _ => false end.
Definition issues (c : string) (evs : list (@PoolEvent Entry)) : nat :=
  length (filter (λ ev, match ev with P_issue c' => String.eqb c' c | _ => false end = true) evs).
Definition uses (c : string) (pl : Pool) : nat :=
  (length (filter (λ e, consumed_by c e = true) (pl_log pl)) + (if bool_decide (c ∈ pl_issued pl) then 1 else 0))%nat.

Lemma run_snoc {A} (p q q' : prog Entry A) answers calls a x :
  run p answers = Some (calls, q) → answer_call q a = Some (x, q') → run p (answers ++ [a]) = Some (calls ++ [x], q').
Proof.
  revert p calls. induction answers as [|b answers IH]; intros p calls E Ea; cbn in E |- *; [injection E as <- ->; by rewrite Ea|].
  apply bind_Some in E as ([y p1] & E1 & E). apply bind_Some in E as ([cs q1] & E & [= <- <-]). rewrite E1. cbn. by rewrite (IH _ _ E Ea).
Qed.

(** The calls of each verification are those of its run. *)
Definition threads_ok (pl : Pool) : Prop :=
  (∀ i q p, pl_threads pl !! i = Some (q, p) → ∃ aud now answers,
     run (verifyAuditRequest q aud now) answers = Some (snd <$> filter (λ e, e.1 = i) (pl_log pl), p))
  ∧ ∀ e, e ∈ pl_log pl → (e.1 < length (pl_threads pl))%nat.

Lemma pool_step_threads pl ev pl' : pool_step pl ev = Some pl' → threads_ok pl → threads_ok pl'.
Proof.
  intros E [Ht Hl]. destruct ev as [c|q aud now|i a]; cbn in E; [by injection E as <-|injection E as <-|].
  - split; cbn [pl_threads pl_log].
    + intros i q' p [Hi|[Hi E]]%lookup_app_Some; [by apply Ht|]. apply list_lookup_singleton_Some in E as [E [= <- <-]].
      exists aud, now, []. cbn. rewrite filter_none; [done|]. apply Forall_forall. intros e He. specialize (Hl e He). lia.
    + intros e He. rewrite length_app. specialize (Hl e He). lia.
  - apply bind_Some in E as ([q p] & Hi & E). destruct (store_answer p a (pl_issued pl)) as [a' issued]. apply bind_Some in E as ([x p'] & Ex & [= <-]).
    split; cbn [pl_threads pl_log].
    + intros j q' p1 Hj. rewrite filter_app. destruct (decide (i = j)) as [<-|Hne].
      * rewrite list_lookup_insert_eq in Hj by (by eapply lookup_lt_Some). injection Hj as <- <-. destruct (Ht i q p Hi) as (aud & now & answers & Hr).
        exists aud, now, (answers ++ [a']). rewrite filter_cons_True by done. rewrite fmap_app. by apply (run_snoc _ p).
      * rewrite list_lookup_insert_ne in Hj by done. rewrite filter_cons_False by done. rewrite filter_nil, app_nil_r. by apply Ht.
    + intros e [He| ->%list_elem_of_singleton]%elem_of_app; rewrite length_insert; [by apply Hl|by eapply lookup_lt_Some].
Qed.

Lemma pool_step_uses pl ev pl' c : pool_step pl ev = Some pl' → (uses c pl' <= uses c pl + issues c [ev])%nat.
Proof.
  unfold uses, issues. intros E. destruct ev as [c'|q aud now|i a]; cbn in E; [injection E as <-|injection E as <-|].
  - cbn [pl_log pl_issued]. destruct (String.eqb_spec c' c) as [->|Hne].
    + rewrite filter_cons_True by (by apply String.eqb_refl). cbn. repeat case_bool_decide; lia.
    + rewrite filter_cons_False by (intros ?%String.eqb_eq; done). cbn. repeat case_bool_decide; set_solver by lia.
  - cbn. lia.
  - apply bind_Some in E as ([q p] & Hi & E). destruct (store_answer p a (pl_issued pl)) as [a' issued] eqn:Es. apply bind_Some in E as ([x p'] & Ex & [= <-]).
    cbn [pl_log pl_issued]. rewrite filter_app, length_app.
    assert ((issued = pl_issued pl ∧ consumed_by c (i, x) = false)
            ∨ ∃ c', issued = pl_issued pl ∖ {[ c' ]} ∧ x = C_consume c' (bool_decide (c' ∈ pl_issued pl))) as [[-> Hx]|(c' & -> & ->)].
    { destruct p, a; cbn in Es; injection Es as <- <-; try discriminate Ex; injection Ex as <- <-; try (by left); right; by eexists. }
    + rewrite filter_cons_False by (by rewrite Hx). cbn. lia.
    + destruct (decide (c' = c)) as [->|Hne].
      * rewrite (bool_decide_eq_false_2 (c ∈ _ ∖ _)) by set_solver. case_bool_decide.
        -- rewrite filter_cons_True by (cbn; by apply String.eqb_refl). cbn. lia.
        -- rewrite filter_cons_False by (by intros [=]). cbn. lia.
      * rewrite filter_cons_False by (cbn; destruct (bool_decide _); [intros ?%String.eqb_eq; done|done]).
        rewrite (bool_decide_ext (c ∈ pl_issued pl ∖ {[c']}) (c ∈ pl_issued pl)) by set_solver. cbn. lia.
Qed.

(** C29.  However verifications interleave, and whatever the other ports answer: the
    verifications that return for a challenge are no more than the times it was
    issued. *)
Theorem challenge_single_use evs pl c winners :
  pool_run empty_pool evs = Some pl → NoDup winners →
  (∀ i, i ∈ winners → ∃ q r, pl_threads pl !! i = Some (q, Ret r) ∧ sq_challenge q = c) →
  (length winners <= issues c evs)%nat.
Proof.
  intros Hrun Hnd His.
  assert (∀ evs pl0, pool_run pl0 evs = Some pl → threads_ok pl0 → threads_ok pl ∧ (uses c pl <= uses c pl0 + issues c evs)%nat) as Hinv.
  { clear. induction evs as [|ev evs IH]; intros pl0 E Hok; cbn in E; [injection E as ->; split; [done|unfold issues; cbn; lia]|].
    apply bind_Some in E as (pl1 & E1 & E). destruct (IH pl1 E (pool_step_threads _ _ _ E1 Hok)) as [Hpl Hu].
    split; [done|]. apply (pool_step_uses _ _ _ c) in E1. unfold issues in *. change (ev :: evs) with ([ev] ++ evs). rewrite filter_app, length_app. lia. }
  destruct (Hinv evs empty_pool Hrun) as [[Ht _] Hu]; [split; [done|by intros e []%not_elem_of_nil]|].
  assert (length winners <= length (filter (λ e, consumed_by c e = true) (pl_log pl)))%nat; [|unfold uses in Hu; cbn [empty_pool pl_log pl_issued] in Hu; rewrite (bool_decide_eq_false_2 (c ∈ ∅)) in Hu by set_solver; cbn in Hu |- *; lia].
  rewrite <- (length_fmap fst). apply submseteq_length, NoDup_submseteq; [done|]. intros i Hi.
  destruct (His i Hi) as (q & r & Hq & <-). destruct (Ht i q _ Hq) as (aud & now & answers & Hr).
  destruct (request_calls q aud now _ r (ex_intro _ answers Hr)) as (key & pk & rpk & events & Hc & _).
  assert (C_consume (sq_challenge q) true ∈ snd <$> filter (λ e, e.1 = i) (pl_log pl)) as Hin by (rewrite Hc; do 4 right; left).
  apply list_elem_of_fmap in Hin as ([j x] & Hx & [Hj Hin]%list_elem_of_filter). cbn in Hx, Hj. subst.
  apply list_elem_of_fmap. exists (i, C_consume (sq_challenge q) true). split; [done|]. apply list_elem_of_filter. split; [|done]. cbn. apply String.eqb_refl.
Qed.
End single_use.

(** ** Version 0.3 *)

Section v03_theorems.
Context `{PrimitiveLaws} `{Formats} `{JsonText} `{X509} `{Jose}.

(** The DID that the deployment expects, and the kind of its evidence. *)
Definition configured_did (c : TrustedVerifierConfig) : string :=
  match c with config_mtls _ did | config_jwt _ _ _ did _ | config_oauth2 _ _ did => did end.
Definition configured_kind (c : TrustedVerifierConfig) : VerifierKind :=
  match c with config_mtls _ _ => kind_mtls | config_jwt _ _ _ _ _ => kind_jwt | config_oauth2 _ _ _ => kind_oauth2 end.

Lemma evidence_verified evidence config i s ctx s' : verify_evidence evidence config i s = (Ok ctx, s') →
  trustedDid ctx = configured_did config ∧ verifierKind ctx = configured_kind config.
Proof.
  destruct evidence as [cert chain|token|token], config as [roots did|keys iss aud did sym|authority secret did]; cbn; intros E; try done.
  - injection E as E _. by apply verifyMtls_ok in E as (? & ? & ? & _ & _ & _ & _ & _ & ->).
  - injection E as E _. unfold verifyJwtAndDeriveDid in E. apply res_bind_ok in E as (_ & _ & (_ & _ & E)%res_bind_ok).
    destruct (jwtVerify _ _ _ _ _) as [payload|]; [|done]. destruct (map_get "exp" payload) as [[]|]; try done.
    destruct (map_get "sub" payload) as [[]|]; try done. apply res_bind_ok in E as (_ & _ & (_ & _ & E)%res_bind_ok). by injection E as <-.
  - apply M_bind_ok in E as (_ & ? & _ & (r & ? & _ & E)%M_bind_ok). injection E as E _. unfold derive_did in E.
    apply res_bind_ok in E as (_ & _ & (_ & _ & (_ & _ & E)%res_bind_ok)%res_bind_ok). destruct (candidate_subject r); try done.
    apply res_bind_ok in E as (_ & _ & E). by injection E as <-.
Qed.

Lemma rename_error_ok {A} (r : res A) code a : rename_error r code = Ok a ↔ r = Ok a.
Proof. by destruct r; cbn. Qed.
Lemma chain_error_ok {A} (r : res A) a : chain_error r = Ok a ↔ r = Ok a.
Proof. destruct r as [|c]; cbn; [done|]. by destruct (bool_decide _). Qed.

Lemma step10_ok q entries c : step10 q entries c = Ok tt ↔
  ∃ ns, sc_chainNamespace (sq_requestedScope q) = Some ns ∧ ns ≠ "" ∧ has_tail_anchor c = true
    ∧ verifyHashChain entries (chain_options ns (sq_requestedScope q) c) = Ok tt.
Proof.
  unfold step10. rewrite chain_error_ok. destruct (sc_chainNamespace (sq_requestedScope q)) as [ns|]; [|naive_solver].
  rewrite !unit_bind_ok, !check_ok. unfold non_empty. rewrite negb_true_iff, String.eqb_neq. naive_solver.
Qed.

Lemma v03_returns q aud evidence config i now c s p s' calls r :
  verifyAuditRequestV03 q aud evidence config i now c s = (p, s') → returns p calls r →
  ∃ ev cfg ctx, evidence = Some ev ∧ config = Some cfg ∧ verify_evidence ev cfg i s = (Ok ctx, s')
    ∧ check_boundary q ctx (ti_boundaryNow i) = Ok tt
    ∧ returns (verifyAuditRequest q aud now) calls (mkShareResult (v3_entries r) (v3_auditEvents r)) ∧ step10 q (v3_entries r) c = Ok tt
    ∧ v3_kind r = verifierKind ctx ∧ v3_verifiedAt r = verifiedAt ctx.
Proof.
  unfold verifyAuditRequestV03, step0. intros E Hr. destruct evidence as [ev|]; [|injection E as <- <-; by apply returns_raise in Hr].
  destruct config as [cfg|]; [|injection E as <- <-; by apply returns_raise in Hr].
  destruct (verify_evidence ev cfg i s) as [r0 s0] eqn:Ev. destruct (rename_error r0 _ ≫= _) as [ctx|code] eqn:Eb; injection E as <- <-; [|by apply returns_raise in Hr].
  apply res_bind_ok in Eb as (ctx' & ->%rename_error_ok & ([] & Hb & Ex)%res_bind_ok). injection Ex as ->.
  unfold verify_shared in Hr. apply returns_bind in Hr as (r1 & c1 & c2 & -> & Hr1 & ([] & H10 & [-> ->]%returns_ret)%returns_after).
  rewrite app_nil_r. exists ev, cfg, ctx. destruct r1. by split_and!.
Qed.

(** A verification of version 0.3 that returns knows its caller from the
    transport: the verifier of the configured kind derived the DID that the
    deployment expects, not more than a minute ago, and it is the requester that
    the request names, for which all of version 0.2 was verified; and the entries
    are a chain of this scope that agrees with the trusted end. *)
Theorem v03_authorized q aud evidence config i now c s p s' calls r :
  verifyAuditRequestV03 q aud evidence config i now c s = (p, s') → returns p calls r →
  ∃ ev cfg ctx t,
    evidence = Some ev ∧ config = Some cfg ∧ verify_evidence ev cfg i s = (Ok ctx, s')
    ∧ sq_requesterDid q = configured_did cfg ∧ v3_kind r = configured_kind cfg
    ∧ iso_getTime (v3_verifiedAt r) = Some t ∧ Z.abs (ti_boundaryNow i - t) <= 60000
    ∧ returns (verifyAuditRequest q aud now) calls (mkShareResult (v3_entries r) (v3_auditEvents r))
    ∧ v3_entries r ≠ [] ∧ has_tail_anchor c = true
    ∧ ∃ ns J, sc_chainNamespace (sq_requestedScope q) = Some ns ∧ canonicalizeChainIdentity (scope_identity ns (sq_requestedScope q)) = Ok J
        ∧ (∀ k e, v3_entries r !! k = Some e → entry_accepted J (v3_entries r) k e)
        ∧ ∀ e, last (v3_entries r) = Some e →
            tail_matches (mkCheckpoint true (tc_expectedEntryCount c) (tc_expectedLastChainPosition c) (tc_expectedLastCanonicalPayloadHash c)) e.
Proof.
  intros E Hr. destruct (v03_returns _ _ _ _ _ _ _ _ _ _ _ _ E Hr) as (ev & cfg & ctx & -> & -> & Hv & Hb & Hr2 & (ns & Hns & _ & Ha & Hch)%step10_ok & Hk & Ht).
  destruct (evidence_verified _ _ _ _ _ _ Hv) as [Hd Hkd]. unfold check_boundary in Hb.
  apply res_bind_ok in Hb as ([] & Hf%rename_error_ok & ([] & _ & Hq%check_ok%String.eqb_eq)%res_bind_ok).
  unfold assertTrustedDidIsKindAndFresh in Hf. apply res_bind_ok in Hf as ([] & _ & ([] & _ & Hf)%res_bind_ok).
  destruct (iso_getTime (verifiedAt ctx)) as [t|] eqn:Et; [|done]. cbn [default from_option id] in Hf.
  apply res_bind_ok in Hf as ([] & Hl%check_ok%Z.leb_le & ([] & Hu%check_ok%Z.leb_le & _)%res_bind_ok).
  apply verify_accepted in Hch as [Hcount Hent Htail].
  assert (v3_entries r ≠ []) as Hne.
  { specialize (Hcount _ eq_refl) as [Hn _]. intros Enil. rewrite Enil in Hn. by apply (Hn eq_refl). }
  destruct (Hent Hne) as (J & Hacc & Hid). exists ev, cfg, ctx, t. rewrite Hk, Ht. split_and!; try done; [by rewrite <- Hd|cbn in *; lia|].
  exists ns, J. split_and!; [done|by apply Hid|done|]. intros e He. by apply (Htail _ e eq_refl).
Qed.

(** The projection does not keep the rest back: with no claims asked for, the
    events are empty, and the entries in the same answer hold their payloads,
    which read as the values that were recorded. *)
Theorem v03_payloads_disclosed q aud evidence config i now c s p s' calls r entries :
  verifyAuditRequestV03 q aud evidence config i now c s = (p, s') → returns p calls r →
  sq_disclosedClaims q = [] → C_entries (sq_requestedScope q) entries ∈ calls →
  Forall (λ event, event = []) (v3_auditEvents r)
  ∧ v3_entries r = entries ∧ entries ≠ [] ∧ ∀ e, e ∈ entries → ∃ v, parse_json (canonicalPayload e) = Some v ∧ jcs v = canonicalPayload e.
Proof.
  intros E Hr Hd Hin. destruct (v03_returns _ _ _ _ _ _ _ _ _ _ _ _ E Hr) as (ev & cfg & ctx & _ & _ & _ & _ & Hr2 & (ns & _ & _ & _ & Hch)%step10_ok & _).
  destruct (request_calls _ _ _ _ _ Hr2) as (key & pk & rpk & events & -> & _ & _ & _ & _ & _ & Hp). cbn [sr_entries sr_auditEvents] in *.
  assert (entries = v3_entries r) as -> by (repeat (apply elem_of_cons in Hin as [Hx|Hin]; [first [discriminate Hx|by injection Hx]|]); by apply not_elem_of_nil in Hin).
  apply verify_accepted in Hch as [Hcount Hent _]. split; [|split; [done|]].
  - rewrite Hp, Hd. apply Forall_forall. by intros x (event & -> & _)%list_elem_of_fmap.
  - assert (v3_entries r ≠ []) as Hne.
    { specialize (Hcount _ eq_refl) as [Hn _]. intros Enil. rewrite Enil in Hn. by apply (Hn eq_refl). }
    split; [done|]. destruct (Hent Hne) as (J & Hacc & _). intros e [k Hk]%list_elem_of_lookup. apply (ea_canonical _ _ _ _ (Hacc k e Hk)).
Qed.
End v03_theorems.
