(* ===== verification/AuditShareExamples.v ===== *)
(** * Concrete transports and shared audits

    Certificates with a chain builder that looks for issuers as the package
    does, tokens, an issuer, and a request for the events of a tenant over the
    primitives of ToyPrimitives.v: the values at which the theorems of
    TransportVerifier.v and AuditShare.v are applied. *)
From S2P Require Import Prelude JsValue Time Encoding Crypto ToyPrimitives Authorization SignedPayload Multisig MultisigExamples.
From S2P Require Import HashChain HashChainExamples Examples TransportVerifier AuditShare.
Open Scope Z_scope.

(** ** Certificates *)

Record toy_cert : Type := mkToyCert {
  tc_subject : string;
  tc_serial : string;
  tc_issuer : string;
  tc_key : Z;
  (** the key it is signed with *)
  tc_signer : Z;
  tc_constraints : option (bool * option Z);
  tc_usage : Z;
  tc_extended : option (list string);
  tc_names : option string }.

(** The issuer of a certificate in a pool: its subject is the issuer's name and
    its key verifies the signature. *)
Definition toy_issuer (pool : list toy_cert) (c : toy_cert) : option toy_cert :=
  if String.eqb (tc_issuer c) (tc_subject c) && (tc_signer c =? tc_key c) then None
  else find (λ p, String.eqb (tc_subject p) (tc_issuer c) && (tc_key p =? tc_signer c)) pool.
Fixpoint toy_chain (fuel : nat) (pool : list toy_cert) (c : toy_cert) : list toy_cert :=
  c :: match fuel, toy_issuer pool c with S n, Some p => toy_chain n pool p | _, _ => [] end.

#[export] Instance toy_x509 : X509 := {|
  Certificate := toy_cert;
  CertInput := toy_cert;
  parse_certificate := Some;
  subject := tc_subject;
  serialNumber := tc_serial;
  notBefore _ := Fin 0;
  notAfter _ := Fin 4102444800000;
  basicConstraints := tc_constraints;
  keyUsages c := Some (tc_usage c);
  extendedKeyUsage := tc_extended;
  alternativeNames := tc_names;
  subjectName := tc_subject;
  signed_with_key_of c p := Some (tc_signer c =? tc_key p);
  build_chain pool c := Some (toy_chain (length pool) pool c);
  digitalSignature := 1;
  keyCertSign := 32 |}.

Definition vx_now : Z := 1780272000000.
Definition vx_did : string := Eval vm_compute in agent "a".
Definition vx_root : toy_cert := mkToyCert "CN=Root" "01" "CN=Root" 1 1 (Some (true, Some 0)) 32 None None.
Definition vx_leaf (name : string) (names : option string) : toy_cert := mkToyCert name "0a" "CN=Root" 5 1 None 1 (Some ["clientAuth"]) names.
Definition vx_ctx (leaf : toy_cert) (chain : list toy_cert) : MtlsVerifierContext := mkMtlsContext leaf [vx_root] (Some chain) vx_did.

Definition vx_named : toy_cert := vx_leaf "CN=client" (Some ("URI:" +:+ vx_did)).

Example vx_verified : verifyMtlsAndDeriveDid (vx_ctx vx_named []) vx_now vx_now
  = Ok (mkTransport vx_did kind_mtls ("CN=client, URI=" +:+ vx_did) "2026-06-01T00:00:00.000Z" "2.0.0").
Proof. vm_compute. reflexivity. Qed.

Lemma mtls_cross_check_exact_witness :
  assertCrossCheckMappingConsistent (mkTransport vx_did kind_mtls ("CN=client, URI=" +:+ vx_did) "2026-06-01T00:00:00.000Z" "2.0.0") = Ok tt.
Proof.
  apply (mtls_cross_check_exact (vx_ctx vx_named []) vx_now vx_now _ vx_named vx_verified eq_refl).
  - vm_compute. reflexivity.
  - left. vm_compute. reflexivity.
Defined.

(** The DID in another attribute of the name: verified, and refused at the
    boundary. *)
Example vx_mentioned :
  let v := verifyMtlsAndDeriveDid (vx_ctx (vx_leaf ("CN=client, OU=" +:+ vx_did) (Some ("URI:" +:+ vx_did))) []) vx_now vx_now in
  v = Ok (mkTransport vx_did kind_mtls ("CN=client, OU=" +:+ vx_did) "2026-06-01T00:00:00.000Z" "2.0.0")
  ∧ (v ≫= assertCrossCheckMappingConsistent) = Throw "SDK_SCHEMA_VIOLATION".
Proof. vm_compute. split; reflexivity. Qed.

(** A text that looks like a common name inside another attribute is taken for
    the common name. *)
Example vx_attribute_confused : extractDidFromCertSubject (vx_leaf "O=Acme CN=did:agent:victim, CN=did:agent:attacker" None) = Ok "did:agent:victim".
Proof. vm_compute. reflexivity. Qed.

(** A certificate authority of the client's own, named like the root. *)
Definition vx_forged_root : toy_cert := mkToyCert "CN=Root" "01" "CN=Root" 66 66 (Some (true, None)) 32 None None.
Definition vx_forged_leaf : toy_cert := mkToyCert "CN=client" "0a" "CN=Root" 67 66 None 1 (Some ["clientAuth"]) (Some ("URI:" +:+ vx_did)).

Lemma forged_root_accepted_witness : ∃ v, verifyMtlsAndDeriveDid (vx_ctx vx_forged_leaf [vx_forged_root]) vx_now vx_now = Ok v ∧ trustedDid v = vx_did.
Proof.
  apply (forged_root_accepted (vx_ctx vx_forged_leaf [vx_forged_root]) vx_now vx_now vx_forged_leaf vx_forged_root vx_root vx_forged_root vx_root vx_did);
    try (vm_compute; reflexivity).
  - apply certificate_ok_spec. vm_compute. reflexivity.
  - apply certificate_ok_spec. vm_compute. reflexivity.
Defined.

(** The root allows no authority below it, and there are two. *)
Definition vx_ca : toy_cert := mkToyCert "CN=CA" "02" "CN=Root" 2 1 (Some (true, Some 0)) 32 None None.
Definition vx_sub : toy_cert := mkToyCert "CN=Sub" "03" "CN=CA" 3 2 (Some (true, Some 1)) 32 None None.
Example vx_path_length_ignored :
  validateCertChain [mkToyCert "CN=client" "0a" "CN=Sub" 5 3 None 1 (Some ["clientAuth"]) None; vx_sub; vx_ca] [vx_root] vx_now = true.
Proof. vm_compute. reflexivity. Qed.
Lemma path_length_wrong_side_witness : path_length_ok 4 3 (Some 0) = true ∧ path_length_ok 4 2 (Some 0) = true ∧ (path_length_ok 4 1 (Some 0) = true ↔ Z.of_nat 4 - 3 <= 0).
Proof. apply (path_length_wrong_side 4 0); lia. Defined.

(** ** Tokens *)

Definition vx_header : value := VObj [("alg", VStr "EdDSA")].
Definition vx_token : string := Eval vm_compute in toBase64Url (textEncode (jcs vx_header)) +:+ ".payload.signature".
Definition vx_json : JsonText := {| parse_json s := if String.eqb s (jcs vx_header) then Some vx_header else None |}.

#[export] Instance toy_jose : Jose := {|
  jwtVerify token keys iss aud algs := if String.eqb token vx_token && String.eqb iss "https://issuer" && String.eqb aud "share"
    then Ok [("exp", VNum (Fin 1780272600)); ("sub", VStr vx_did)] else Throw "ERR_JWT";
  is_url s := str_startsWith s "https://" |}.

Definition vx_jwt : JwtVerifierContext := mkJwtContext vx_token (jwks_url "https://issuer/keys") "https://issuer" "share" vx_did None.

Lemma jwt_accepted_verified_witness :
  assertCrossCheckMappingConsistent (mkTransport vx_did kind_jwt vx_did "2026-06-01T00:00:00.000Z" "2.0.0") = Ok tt.
Proof.
  assert (@verifyJwtAndDeriveDid vx_json _ vx_jwt vx_now = Ok (mkTransport vx_did kind_jwt vx_did "2026-06-01T00:00:00.000Z" "2.0.0")) as E by (vm_compute; reflexivity).
  destruct (@jwt_accepted_verified vx_json _ vx_jwt vx_now _ E) as (? & ? & ? & ? & ? & _ & _ & _ & _ & _ & _ & _ & _ & _ & Hx). exact Hx.
Defined.

(** ** The issuer of access tokens *)

Definition vx_authority : OAuth2TrustAuthority := mkAuthority "https://issuer" "https://issuer/introspect" "client" "share".
Definition vx_oauth2 : OAuth2VerifierContext := mkOAuth2Context "token-1" vx_authority "secret" vx_did.
Definition vx_response : IntrospectionResponse := mkIntrospection (VBool true) (Some (Fin (vx_now + 600000))) (VArr [VStr "share"]) (VStr vx_did) VUndefined.
Definition vx_answers (intro : Answer) (t : Z) : OAuth2Answers := mkOAuth2Answers (Ok (Some "https://issuer/introspect")) intro t t t t t t t t.
Definition vx_state : OAuth2State := mkOAuth2State [] (mkBreaker CLOSED 0 0) (new_limiter RATE_CAPACITY vx_now).
Definition vx_ops : list OAuth2Op := [op_verify vx_oauth2 (vx_answers (Ok vx_response) vx_now)].

(** Thirty seconds later the issuer is asked nothing: the cache answers. *)
Lemma accepted_token_was_active_witness : ∃ ctx' o' r, ob_introspection o' = Ok r ∧ is_active r = true ∧ op_verify ctx' o' ∈ vx_ops
  ∧ vx_now + 30000 < ob_storedAt o' + CACHE_TTL_MS.
Proof.
  destruct (verifyOAuth2AndDeriveDid vx_oauth2 (vx_answers (Throw "down") (vx_now + 30000)) (oauth2_run vx_ops vx_state)) as [[v|c] s'] eqn:E.
  - assert (plain_authority vx_authority) as Hp by (unfold plain_authority, plain_text; cbn; split_and!; repeat constructor; discriminate).
    destruct (accepted_token_was_active vx_ops vx_state vx_oauth2 (vx_answers (Throw "down") (vx_now + 30000)) v s') as (ctx' & o' & r & Ho & Ha & Hor & _).
    + reflexivity.
    + exact Hp.
    + intros c o' Hin. apply list_elem_of_singleton in Hin. injection Hin as -> ->. exact Hp.
    + exact E.
    + exists ctx', o', r. destruct Hor as [[-> ->]|[Hin Hlt]]; [discriminate Ho|]. split_and!; [exact Ho|exact Ha|exact Hin|exact Hlt].
  - apply (f_equal fst) in E. vm_compute in E. discriminate E.
Defined.

(** *** The limiter and the breaker *)

Definition vx_burst : list Z := replicate 101 vx_now.
Lemma replicate_sorted n (t : Z) : StronglySorted Z.le (replicate n t).
Proof.
  induction n as [|n IH]; cbn; constructor; [exact IH|]. apply Forall_forall. intros x Hx. apply elem_of_replicate in Hx as [-> _]. lia.
Qed.
Lemma rate_bounded_witness :
  1000 * Z.of_nat (length (filter (λ b, b = true) (limiter_run RATE_CAPACITY RATE_REFILL vx_burst (new_limiter RATE_CAPACITY vx_now)))) <= 100 * 1000 + 100 * 0.
Proof.
  apply (rate_bounded RATE_CAPACITY RATE_REFILL vx_burst (new_limiter RATE_CAPACITY vx_now)).
  - vm_compute. discriminate.
  - vm_compute. split; discriminate.
  - exact (replicate_sorted 102 vx_now).
Defined.

Lemma steady_rate_admitted_witness : Forall (λ b, b = true) (limiter_run 1 100 [10; 20; 30] (mkLimiter 0 0)).
Proof. apply (steady_rate_admitted 1 100 [10; 20; 30] (mkLimiter 0 0)); [lia|cbn; lia|repeat constructor; cbn; lia]. Defined.

Ltac each := repeat (apply Forall_cons_2; [cbn; unfold COOLDOWN_MS; (lia || done)|]); apply Forall_nil_2.

Definition vx_open : OAuth2CircuitBreaker := mkBreaker OPEN 5 1000.
Lemma open_blocks_witness : (breaker_enter COOLDOWN_MS 50000 (breaker_run FAILURE_THRESHOLD COOLDOWN_MS [B_enter 2000; B_failure 3000] vx_open)).1 = Throw "SDK_OAUTH2_VERIFY_FAILED".
Proof.
  apply (open_blocks FAILURE_THRESHOLD COOLDOWN_MS [B_enter 2000; B_failure 3000] vx_open 50000); [done|each|cbn; unfold COOLDOWN_MS; lia].
Defined.
Lemma failures_open_witness :
  cb_state (breaker_run FAILURE_THRESHOLD COOLDOWN_MS ([B_failure 1; B_failure 2; B_failure 3; B_failure 4] ++ [B_failure 5]) (mkBreaker CLOSED 0 0)) = OPEN
  ∧ openedAt (breaker_run FAILURE_THRESHOLD COOLDOWN_MS ([B_failure 1; B_failure 2; B_failure 3; B_failure 4] ++ [B_failure 5]) (mkBreaker CLOSED 0 0)) = 5.
Proof.
  apply (failures_open FAILURE_THRESHOLD COOLDOWN_MS); [done|each|vm_compute; discriminate].
Defined.
Lemma many_probes_witness : (breaker_enter COOLDOWN_MS 70000 (breaker_run FAILURE_THRESHOLD COOLDOWN_MS (B_enter <$> take 1 [61000; 70000]) vx_open)).1 = Ok tt.
Proof. apply (many_probes FAILURE_THRESHOLD COOLDOWN_MS [61000; 70000] vx_open); [done|each|done]. Defined.

(** ** A shared audit *)

Definition sx_sign (text : string) (seed : bytes) : string := match sign (textEncode text) (toHex seed) enc_hex with Ok s => s | Throw _ => "" end.
Definition sx_delegator : string := "did:agent:delegator".
Definition sx_scope : AuditShareScope := mkShareScope (hx_uuid "7") "L1" (Some "atp").
Definition sx_key_with (proof : DelegatedAuditKeyProof) : AuditShareDelegatedKey :=
  createDelegatedAuditKey (hx_uuid "8") sx_delegator vx_did "2026-01-01T00:00:00.000Z" "2026-12-31T00:00:00.000Z" sx_scope None proof.
Definition sx_key : AuditShareDelegatedKey := Eval vm_compute in
  sx_key_with (mkKeyProof (sx_sign (jcs (VObj (key_payload (sx_key_with (mkKeyProof "" "" ""))))) (seed_of 21)) "2026-01-01T00:00:00.000Z" sx_delegator).

Definition sx_request_with (claims : list string) (signature : string) : ShareRequest :=
  mkShareRequest "1.0.0" (hx_uuid "8") claims (hx_uuid "9") "did:agent:verifier" "2026-06-01T00:05:00.000Z" sx_scope vx_did signature.
Definition sx_request (claims : list string) : ShareRequest := sx_request_with claims (sx_sign (jcs (request_payload (sx_request_with claims ""))) (seed_of 22)).
Definition sx_q : ShareRequest := Eval vm_compute in sx_request ["id"; "outcome"].
Definition sx_silent : ShareRequest := Eval vm_compute in sx_request [].
Definition sx_time : string := "2026-06-01T00:00:00.000Z".

Definition sx_append (c : ascii) (n : Z) (chain : list HashChainEntry) : list HashChainEntry :=
  match appendHashChainEntry (hx_payload n) (scope_identity "atp" sx_scope) (last chain) (hx_uuid c) "2026-06-01T00:00:00.000Z" with
  | Ok e => chain ++ [e]
  | Throw _ => chain
  end.
Definition sx_chain : list HashChainEntry := Eval vm_compute in sx_append "2" 2 (sx_append "1" 1 []).
Definition sx_event : AuditEventObject := [("id", VStr "e1"); ("actorDid", VStr "did:agent:s"); ("outcome", VStr "ALLOWED")].

Definition sx_delegator_key : string := Eval vm_compute in toHex (ed25519_pub (seed_of 21)).
Definition sx_requester_key : string := Eval vm_compute in toHex (ed25519_pub (seed_of 22)).
Definition sx_answers : list (answer HashChainEntry) :=
  [A_bool true; A_key (Some sx_key); A_resolve (Some sx_delegator_key); A_resolve (Some sx_requester_key); A_bool true; A_bool true;
   A_entries sx_chain; A_bool true; A_events [sx_event; sx_event]].

Definition sx_result (claims : list string) : ShareResult HashChainEntry := mkShareResult sx_chain [project sx_event claims; project sx_event claims].
Definition sx_calls (q : ShareRequest) : list (call HashChainEntry) :=
  [C_check (sq_challenge q) true; C_key (sq_token q) (Some sx_key); C_resolve sx_delegator (Some sx_delegator_key);
   C_resolve vx_did (Some sx_requester_key); C_consume (sq_challenge q) true; C_allowed sx_delegator (hx_uuid "7") "L1" true;
   C_entries sx_scope sx_chain; C_chain sx_chain true; C_events sx_chain [sx_event; sx_event]].

Lemma sx_returns : returns (verifyAuditRequest sx_q "did:agent:verifier" sx_time) (sx_calls sx_q) (sx_result ["id"; "outcome"]).
Proof. exists sx_answers. vm_compute. reflexivity. Qed.

Example sx_projected : project sx_event ["id"; "outcome"] = [("id", VStr "e1"); ("outcome", VStr "ALLOWED")].
Proof. reflexivity. Qed.

Lemma share_authorized_witness : ∃ key, C_key (sq_token sx_q) (Some key) ∈ sx_calls sx_q ∧ ak_delegatedTo key = vx_did ∧ within_scope (ak_scope key) sx_scope.
Proof.
  destruct (share_authorized sx_q "did:agent:verifier" sx_time (sx_calls sx_q) (sx_result ["id"; "outcome"]) sx_returns)
    as (key & pk & rpk & events & _ & _ & Hk & _ & _ & _ & _ & _ & _ & _ & _ & Hto & _ & Hw & _).
  exists key. split; [exact Hk|]. split; [exact Hto|exact Hw].
Defined.

(** A forged signature ends before the challenge is asked for. *)
Definition sx_forged : ShareRequest := Eval vm_compute in sx_request_with ["id"] (sx_sign "something else" (seed_of 22)).
Example sx_forged_kept : snd <$> run (verifyAuditRequest sx_forged "did:agent:verifier" sx_time) (take 4 sx_answers)
  = Some (Raise "AUDIT_SHARE_REQUESTER_SIGNATURE_INVALID").
Proof. vm_compute. reflexivity. Qed.

Lemma challenge_burn_signed_witness : signed_so_far sx_q sx_time (sx_calls sx_q) (sq_challenge sx_q).
Proof.
  apply (challenge_burn_signed sx_q "did:agent:verifier" sx_time sx_answers (sx_calls sx_q) (Ret (sx_result ["id"; "outcome"])) (sq_challenge sx_q) true).
  - vm_compute. reflexivity.
  - do 4 right. left.
Defined.

(** *** Two requests race for one challenge *)

Definition sx_call (i : nat) (k : nat) : @PoolEvent HashChainEntry := P_call i (default (A_bool true) (sx_answers !! k)).
(** Both find it open; the second to consume it fails. *)
Definition sx_race : list (@PoolEvent HashChainEntry) :=
  [P_issue (hx_uuid "9"); P_start sx_q "did:agent:verifier" sx_time; P_start sx_q "did:agent:verifier" sx_time]
  ++ (sx_call 0 <$> seq 0 4) ++ (sx_call 1 <$> seq 0 4) ++ [sx_call 0 4; sx_call 1 4] ++ (sx_call 0 <$> seq 5 4).
Definition sx_outcomes (pl : @Pool HashChainEntry) : list (res (ShareResult HashChainEntry)) :=
  (λ t, match t.2 with Ret r => Ok r | Raise c => Throw c | _ => Throw "running" end) <$> pl_threads pl.

Example sx_raced : sx_outcomes <$> pool_run empty_pool sx_race = Some [Ok (sx_result ["id"; "outcome"]); Throw "AUDIT_SHARE_CHALLENGE_INVALID"].
Proof. vm_compute. reflexivity. Qed.

Lemma sx_winner : (λ pl, pl_threads pl !! 0%nat) <$> pool_run empty_pool sx_race = Some (Some (sx_q, Ret (sx_result ["id"; "outcome"]))).
Proof. vm_compute. reflexivity. Qed.

Lemma challenge_single_use_witness : (length [0%nat] <= issues (hx_uuid "9") sx_race)%nat.
Proof.
  pose proof sx_winner as Hw. apply fmap_Some in Hw as (pl & E & Hw).
  apply (challenge_single_use sx_race pl (hx_uuid "9") [0%nat]); [exact E|apply NoDup_singleton|].
  intros i Hi. apply list_elem_of_singleton in Hi as ->. exists sx_q, (sx_result ["id"; "outcome"]). split; [symmetry; exact Hw|reflexivity].
Defined.

(** *** Version 0.3 *)

Definition sx_inputs : TransportInputs := mkTransportInputs vx_now vx_now vx_now (vx_answers (Throw "down") vx_now).
Definition sx_checkpoint : TrustedHashChainCheckpoint := mkTrustedCheckpoint (Some 2%nat) None None.
Definition sx_evidence : option RawTransportEvidence := Some (evidence_mtls (vx_named : CertInput) None).
Definition sx_config : option TrustedVerifierConfig := Some (config_mtls [vx_root : CertInput] vx_did).
Definition sx_v03 (q : ShareRequest) : prog HashChainEntry AuditShareV3Result * OAuth2State :=
  verifyAuditRequestV03 q "did:agent:verifier" sx_evidence sx_config sx_inputs sx_time sx_checkpoint vx_state.
Definition sx_v3 (claims : list string) : AuditShareV3Result :=
  mkV3Result sx_chain [project sx_event claims; project sx_event claims] kind_mtls "2026-06-01T00:00:00.000Z".

Lemma sx_v03_returns : returns (sx_v03 sx_q).1 (sx_calls sx_q) (sx_v3 ["id"; "outcome"]).
Proof. exists sx_answers. vm_compute. reflexivity. Qed.
Lemma sx_silent_returns : returns (sx_v03 sx_silent).1 (sx_calls sx_silent) (sx_v3 []).
Proof. exists sx_answers. vm_compute. reflexivity. Qed.

Lemma v03_authorized_witness : sq_requesterDid sx_q = vx_did ∧ sx_chain ≠ [].
Proof.
  pose proof sx_v03_returns as Hr. destruct (sx_v03 sx_q) as [p s'] eqn:E. cbn [fst] in Hr. unfold sx_v03 in E.
  destruct (v03_authorized _ _ _ _ _ _ _ _ _ _ _ _ E Hr) as (ev & cfg & ctx & t & _ & Hc & _ & Hd & _ & _ & _ & _ & Hne & _).
  unfold sx_config in Hc. injection Hc as <-. split; [exact Hd|exact Hne].
Defined.

(** Nothing asked for, and the payloads are there. *)
Lemma v03_payloads_disclosed_witness : Forall (λ event, event = []) (v3_auditEvents (sx_v3 [])) ∧ ∀ e, e ∈ sx_chain → ∃ v, parse_json (canonicalPayload e) = Some v.
Proof.
  pose proof sx_silent_returns as Hr. destruct (sx_v03 sx_silent) as [p s'] eqn:E. cbn [fst] in Hr. unfold sx_v03 in E.
  destruct (v03_payloads_disclosed _ _ _ _ _ _ _ _ _ _ _ _ sx_chain E Hr eq_refl) as (Hf & _ & _ & Hp).
  - do 6 right. left.
  - split; [exact Hf|]. intros e He. destruct (Hp e He) as (v & Hv & _). exists v. exact Hv.
Defined.

(** *** Windows *)

(** The window of a key is compared as text: an end with an offset from UTC is
    eight hours late, an end without milliseconds lasts its whole second. *)
Example sx_window_text :
  str_ltb "2026-06-01T08:00:00+08:00" "2026-06-01T07:59:59.000Z" = false
  ∧ iso_getTime "2026-06-01T08:00:00+08:00" = Some 1780272000000 ∧ iso_getTime "2026-06-01T07:59:59.000Z" = Some 1780300799000
  ∧ str_ltb "2026-06-01T00:00:00Z" "2026-06-01T00:00:00.999Z" = false.
Proof. vm_compute. split_and!; reflexivity. Qed.
