(* ===== verification/PgSessions.v ===== *)
(** * The Postgres session store

    Models packages/communication/src/session/postgres-store.ts over the table
    of sql/001-create-sessions.sql and 004-add-encryption-state.sql: columns,
    CHECK constraints, unique indexes and the deferred foreign key, every query
    of the store, and the manager (session-manager.ts) over this store.
    Instants are in microseconds.  A statement acts on the table at once and a
    transaction commits at once; the query that looks for the reason of a failed
    update comes later and sees the table [later].  [NOW()] is the argument
    [now], the clock of the host, in milliseconds, the argument [t].  Errors of
    the database are their SQLSTATE. *)
From S2P Require Import Prelude JsValue Time Encoding Crypto Authorization SignedPayload Sessions CrossSettle.

(** ** The database *)

(** What the server makes of the text of a parameter: a UUID with its canonical
    text, a BIGINT; and the order of texts under the collation. *)
Class PgInput : Type := {
  uuid_in : string → option string;
  bigint_in : string → res Z;
  text_leb : string → string → bool }.

(** A UUID is read back from its own text, a BIGINT from its digits
    (22P02 and 22003 are the errors of bad input and of overflow), and a
    deterministic collation orders all texts. *)
Class PgInputLaws `{PgInput} : Prop := {
  uuid_in_out s u : uuid_in s = Some u → uuid_in u = Some u ∧ non_empty u = true;
  bigint_in_out n : 0 <= n < 2 ^ 63 → bigint_in (print_decimal n) = Ok n;
  bigint_in_error s c : bigint_in s = Throw c → c = "22P02" ∨ c = "22003";
  text_leb_total a b : text_leb a b = true ∨ text_leb b a = true;
  text_leb_antisym a b : text_leb a b = true → text_leb b a = true → a = b }.

(** ** Rows *)

(** The columns that no statement writes again. *)
Record PgIdentity : Type := mkPgIdentity {
  session_id : string;
  initiator_did : string;
  responder_did : string;
  principal_did : string;
  capability_token_id : option string;
  capability_token_fingerprint : option string;
  encryption_state : EncryptionState;
  supersedes_session_id : option string;
  did_pair_key : string;
  pr_created_at : Z }.

Record PgRow : Type := mkPgRow {
  pr_identity : PgIdentity;
  pr_state : SessionState;
  negotiated_capabilities : list string;
  session_key_fingerprint : option string;
  rekey_count : Z;
  established_at : option Z;
  last_seen_at : Z;
  last_authorized_at : Z;
  idle_since : option Z;
  closed_at : option Z;
  close_reason : option CloseReason;
  pr_updated_at : Z;
  pr_revision : Z }.

Notation SessionTable := (list PgRow).
Definition row_id (r : PgRow) : string := session_id (pr_identity r).
Definition row_live (r : PgRow) : bool := bool_decide (pr_state r ∈ LIVE_STATES).

(** [E'\\x00'] is a backslash and three characters. *)
Definition pair_separator : string := "\x00".
Definition generated_pair_key `{PgInput} (a b : string) : string :=
  let '(least, greatest) := if text_leb a b then (a, b) else (b, a) in
  least +:+ pair_separator +:+ greatest.

(** ** Constraints *)

Definition opt_all {A} (f : A → bool) (o : option A) : bool := match o with Some x => f x | None => true end.
Definition is_null {A} (o : option A) : bool := match o with Some _ => false | None => true end.

Definition token_id_column (s : string) : bool :=
  str_startsWith s "urn:cap:" && matches_template (chars "xxxxxxxx-xxxx-4xxx-Rxxx-xxxxxxxxxxxx") (drop 8 (chars s)).

(** The CHECK constraints, in the order of the two files. *)
Definition row_check (r : PgRow) : bool :=
  let i := pr_identity r in
  opt_all token_id_column (capability_token_id i) && opt_all hex64 (capability_token_fingerprint i)
  && (match pr_state r with
      | CLOSED => negb (is_null (closed_at r)) && negb (is_null (close_reason r))
      | _ => is_null (closed_at r) && is_null (close_reason r)
      end)
  && (match pr_state r with IDLE => negb (is_null (idle_since r)) | _ => is_null (idle_since r) end)
  && (match pr_state r with CREATED => is_null (established_at r) | _ => true end)
  && Bool.eqb (is_null (capability_token_id i)) (is_null (capability_token_fingerprint i))
  && opt_all hex64 (session_key_fingerprint r) && (0 <=? rekey_count r)
  && (match encryption_state i with
      | OFF => is_null (session_key_fingerprint r) && (rekey_count r =? 0)
      | REQUIRED => true
      end).

(** The primary key and [uniq_sessions_live_per_pair]. *)
Definition live_keys (t : SessionTable) : list string := (λ r, did_pair_key (pr_identity r)) <$> filter (λ r, row_live r = true) t.
Definition keys_unique (t : SessionTable) : bool := bool_decide (NoDup (row_id <$> t)) && bool_decide (NoDup (live_keys t)).

(** [supersedes_session_id REFERENCES ... DEFERRABLE INITIALLY DEFERRED] *)
Definition references_ok (t : SessionTable) : bool :=
  forallb (λ r, opt_all (λ s, bool_decide (s ∈ row_id <$> t)) (supersedes_session_id (pr_identity r))) t.

Definition row_error (r : PgRow) : res unit :=
  _ ← check (pr_revision r <? 2 ^ 63) "22003";
  check (row_check r) "23514".
Fixpoint rows_error (rows : list PgRow) : res unit :=
  match rows with [] => mret tt | r :: rows' => _ ← row_error r; rows_error rows' end.

(** A statement that wrote [written] and leaves the table [t]. *)
Definition accept_rows (written : list PgRow) (t : SessionTable) : res unit :=
  _ ← rows_error written;
  check (keys_unique t) "23505".

Definition update_where (sel : PgRow → bool) (f : PgRow → PgRow) (t : SessionTable) : res (list PgRow * SessionTable) :=
  let t' := (λ r, if sel r then f r else r) <$> t in
  let written := f <$> filter (λ r, sel r = true) t in
  _ ← accept_rows written t';
  mret (written, t').

Definition find_row (id : string) (t : SessionTable) : option PgRow := find (λ r, String.eqb (row_id r) id) t.

(** A statement or a transaction: what it commits comes with its answer, an
    error before the commit rolls it back. *)
Definition committed {A} (q : SessionTable → res (res A * SessionTable)) : M SessionTable A := λ t,
  match q t with Ok (answer, t') => (answer, t') | Throw c => (Throw c, t) end.

(** ** Parameters *)

Definition no_nul (s : string) : bool := forallb (λ c, negb (Ascii.eqb c (ascii_of_N 0))) (chars s).

Section params.
Context `{PgTime} `{PgInput}.

Definition uuid_param (s : string) : res string := match uuid_in s with Some u => Ok u | None => Throw "22P02" end.
Definition text_param (s : string) : res string := _ ← check (no_nul s) "22021"; mret s.
Definition json_param (l : list string) : res (list string) := _ ← check (forallb no_nul l) "22P05"; mret l.
Definition int_param (n : Z) : res Z := _ ← check ((- 2 ^ 31 <=? n) && (n <? 2 ^ 31)) "22003"; mret n.

(** A parameter that may be NULL. *)
Definition opt_param {A B} (f : A → res B) (o : option A) : res (option B) :=
  match o with Some a => b ← f a; mret (Some b) | None => mret None end.

(** ** Rows and sessions *)

Definition to_str (s : string) : res string := _ ← check (non_empty s) "Error"; mret s.

Definition session_of_row (r : PgRow) : Session :=
  let i := pr_identity r in
  mkSession
    (mkIdentity (session_id i) (initiator_did i) (responder_did i) (principal_did i) (capability_token_id i)
       (capability_token_fingerprint i) (encryption_state i) (supersedes_session_id i) (did_pair_key i)
       (column_iso (pr_created_at i)))
    (pr_state r) (negotiated_capabilities r) (session_key_fingerprint r) (rekey_count r)
    (column_iso <$> established_at r) (column_iso (last_seen_at r)) (column_iso (last_authorized_at r))
    (column_iso <$> idle_since r) (column_iso <$> closed_at r) (close_reason r) (column_iso (pr_updated_at r))
    (print_decimal (pr_revision r)).

(** The texts that must not be empty are the id and the three DIDs; the key of
    the pair, the state and the revision never are. *)
Definition rowToSession (r : PgRow) : res Session :=
  let i := pr_identity r in
  _ ← to_str (session_id i);
  _ ← to_str (initiator_did i);
  _ ← to_str (responder_did i);
  _ ← to_str (principal_did i);
  mret (session_of_row r).

(** The SET list of an UPDATE, [None] for a column it leaves; all of them write
    [updated_at] and add one to [revision]. *)
Record SetList : Type := mkSetList {
  set_state : option SessionState;
  set_capabilities : option (list string);
  set_established : option Z;
  set_seen : option Z;
  set_authorized : option Z;
  set_idle : option (option Z);
  set_closed : option Z;
  set_reason : option CloseReason;
  set_fingerprint : option (option string);
  set_rekey : option Z }.

Definition set_row (p : SetList) (now : Z) (r : PgRow) : PgRow :=
  mkPgRow (pr_identity r) (default (pr_state r) (set_state p))
    (default (negotiated_capabilities r) (set_capabilities p))
    (default (session_key_fingerprint r) (set_fingerprint p)) (default (rekey_count r) (set_rekey p))
    (match set_established p with Some x => Some x | None => established_at r end)
    (default (last_seen_at r) (set_seen p)) (default (last_authorized_at r) (set_authorized p))
    (default (idle_since r) (set_idle p))
    (match set_closed p with Some x => Some x | None => closed_at r end)
    (match set_reason p with Some x => Some x | None => close_reason r end) now (pr_revision r + 1).

Definition set_closing (at_ : Z) (reason : CloseReason) (clear : bool) : SetList :=
  mkSetList (Some CLOSED) None None None None (if clear then Some None else None) (Some at_) (Some reason) None None.

(** ** Queries *)

(** [SELECT ... WHERE session_id = $1] *)
Definition select_row (id : string) (t : SessionTable) : res (option PgRow) :=
  u ← uuid_param id; mret (find_row u t).

Definition diagnoseNotFound (later : SessionTable) (id : string) : res Session :=
  found ← select_row id later;
  match found with
  | None => Throw "SESSION_NOT_FOUND"
  | Some r => if bool_decide (pr_state r = CLOSED) then Throw "SESSION_CLOSED" else Throw "SESSION_STATE_INVALID"
  end.

Definition encryption_input (input : SessionCreateInput) : res unit :=
  check (negb (bool_decide (default OFF (ci_encryptionState input) = OFF) && bool_decide (is_Some (ci_sessionKeyFingerprint input))))
    "SESSION_STATE_INVALID".

(** The INSERT that creation and supersession share. *)
Definition insert_session (now : Z) (input : SessionCreateInput) (t : SessionTable) : res (PgRow * SessionTable) :=
  let isActive := bool_decide (ci_initialState input = Some ACTIVE) in
  let encState := default OFF (ci_encryptionState input) in
  id ← uuid_param (ci_sessionId input);
  initiator ← text_param (ci_initiatorDid input);
  responder ← text_param (ci_responderDid input);
  principal ← text_param (ci_principalDid input);
  tok ← opt_param text_param (ci_capabilityTokenId input);
  fp ← opt_param text_param (ci_capabilityTokenFingerprint input);
  caps ← json_param (default [] (ci_negotiatedCapabilities input));
  key ← opt_param text_param (if bool_decide (encState = REQUIRED) then ci_sessionKeyFingerprint input else None);
  supersedes ← opt_param uuid_param (ci_supersedesSessionId input);
  let row := mkPgRow
    (mkPgIdentity id initiator responder principal tok fp encState supersedes (generated_pair_key initiator responder) now)
    (if isActive then ACTIVE else CREATED) caps key 0 (if isActive then Some now else None) now now None None None now 1 in
  _ ← accept_rows [row] (t ++ [row]);
  mret (row, t ++ [row]).

(** COMMIT, which checks the foreign key. *)
Definition commit_insert (q : res (PgRow * SessionTable)) : res (res Session * SessionTable) :=
  written ← q;
  _ ← check (references_ok written.2) "23503";
  mret (rowToSession written.1, written.2).

Definition pg_create (now : Z) (input : SessionCreateInput) : M SessionTable Session :=
  committed (λ t, _ ← encryption_input input; commit_insert (insert_session now input t)).

Definition pg_get (id : string) : M SessionTable (option Session) := λ t,
  (found ← select_row id t; match found with Some r => s ← rowToSession r; mret (Some s) | None => mret None end, t).

Definition update_params (p : SessionUpdatePatch) : res SetList :=
  caps ← opt_param json_param (up_negotiatedCapabilities p);
  established ← opt_param timestamptz (up_establishedAt p);
  seen ← opt_param timestamptz (up_lastSeenAt p);
  authorized ← opt_param timestamptz (up_lastAuthorizedAt p);
  idle ← opt_param (opt_param timestamptz) (up_idleSince p);
  closed ← opt_param timestamptz (up_closedAt p);
  key ← opt_param (opt_param text_param) (up_sessionKeyFingerprint p);
  rekey ← opt_param int_param (up_rekeyCount p);
  mret (mkSetList (up_state p) caps established seen authorized idle closed (up_closeReason p) key rekey).

(** The rows an UPDATE returns: the session of the first, or the reason why
    there is none. *)
Definition first_session (reason : res Session) (written : list PgRow) : res Session :=
  match written with r :: _ => rowToSession r | [] => reason end.

Definition pg_update (later : SessionTable) (now : Z) (id : string) (p : SessionUpdatePatch) : M SessionTable Session :=
  committed (λ t,
    u ← uuid_param id;
    sets ← update_params p;
    w ← update_where (λ r, String.eqb (row_id r) u && negb (bool_decide (pr_state r = CLOSED))) (set_row sets now) t;
    mret (first_session (diagnoseNotFound later id) w.1, w.2)).

(** [session.capabilityTokenFingerprint === (input... ?? null)] *)
Definition token_binding (r : PgRow) (tok fp : option string) : bool :=
  bool_decide (capability_token_id (pr_identity r) = tok) && bool_decide (capability_token_fingerprint (pr_identity r) = fp).

(** [nowMs - idleSinceMs > idleHardMs]; the driver gives whole milliseconds. *)
Definition idle_over (nowMs : option Z) (r : PgRow) (hardMs : Z) : bool :=
  match idle_since r, nowMs with Some since, Some n => hardMs <? n - since / 1000 | _, _ => false end.

Definition pg_resume (now t : Z) (input : SessionResumeInput) : M SessionTable Session :=
  committed (λ tab,
    u ← uuid_param (ri_sessionId input);
    match find_row u tab with
    | None => Throw "SESSION_NOT_FOUND"
    | Some r =>
        if bool_decide (pr_state r = CLOSED) then Throw "SESSION_CLOSED"
        else if negb (bool_decide (pr_state r = IDLE)) then Throw "SESSION_STATE_INVALID"
        else if negb (String.eqb (initiator_did (pr_identity r)) (expectedInitiatorDid input)
                      && String.eqb (responder_did (pr_identity r)) (expectedResponderDid input))
        then Throw "SESSION_DID_MISMATCH"
        else
          _ ← match ri_expectedTokenId input with
              | Some tok => _ ← rowToSession r;
                            check (token_binding r (Some tok) (ri_expectedTokenFingerprint input)) "SESSION_TOKEN_MISMATCH"
              | None => mret tt
              end;
          let nowMs := now_ms t (ri_now input) in
          let target := λ r', String.eqb (row_id r') u in
          if idle_over nowMs r (idleHardMs input) then
            nowTs ← iso_of nowMs;
            at_ ← timestamptz nowTs;
            w ← update_where target (set_row (set_closing at_ IDLE_TIMEOUT true) at_) tab;
            mret (Throw "SESSION_IDLE_EXPIRED", w.2)
          else
            nowTs ← match established_at r with None => x ← iso_of nowMs; mret (Some x) | Some _ => mret None end;
            caps ← json_param (ri_negotiatedCapabilities input);
            established ← opt_param timestamptz nowTs;
            w ← update_where target
                  (set_row (mkSetList (Some ACTIVE) (Some caps) established (Some now) (Some now) (Some None) None None None None) now) tab;
            mret (first_session (Throw "TypeError") w.1, w.2)
    end).

(** The unique violation that is given another code. *)
Definition rejected {A} (r : res A * SessionTable) : res A * SessionTable :=
  match r.1 with
  | Throw c => (Throw (if String.eqb c "23505" then "HANDSHAKE_REJECTED" else c), r.2)
  | Ok _ => r
  end.

Definition pg_supersedeAndCreate (now t : Z) (oldSessionId : string) (fallback : CloseReason) (input : SessionCreateInput)
    (given : option string) : M SessionTable Session := λ tab,
  rejected (committed (λ tab,
    old ← uuid_param oldSessionId;
    at_ ← timestamptz (default (toISOString t) given);
    w ← update_where (λ r, String.eqb (row_id r) old && negb (bool_decide (pr_state r = CLOSED)))
          (set_row (set_closing at_ fallback true) at_) tab;
    _ ← encryption_input input;
    commit_insert (insert_session now (with_supersedes input oldSessionId) w.2)) tab).

Definition same_parties (i : PgIdentity) (sender self : string) : bool :=
  (String.eqb (initiator_did i) sender && String.eqb (responder_did i) self)
  || (String.eqb (responder_did i) sender && String.eqb (initiator_did i) self).

Definition claim_diagnosis (later : SessionTable) (p : ClaimParams) : res Session :=
  found ← select_row (cl_sessionId p) later;
  match found with
  | None => Throw "SESSION_NOT_FOUND"
  | Some r =>
      if bool_decide (pr_state r = CLOSED) then Throw "SESSION_CLOSED"
      else if negb (bool_decide (pr_state r = ACTIVE)) then Throw "SESSION_STATE_INVALID"
      else if negb (same_parties (pr_identity r) (cl_senderDid p) (cl_selfDid p)) then Throw "SESSION_DID_MISMATCH"
      else Throw "SESSION_TOKEN_MISMATCH"
  end.

Definition pg_claimForDispatch (later : SessionTable) (now : Z) (p : ClaimParams) : M SessionTable Session :=
  committed (λ t,
    u ← uuid_param (cl_sessionId p);
    sender ← text_param (cl_senderDid p);
    self ← text_param (cl_selfDid p);
    tok ← opt_param text_param (cl_expectedTokenId p);
    fp ← opt_param text_param (cl_expectedTokenFingerprint p);
    w ← update_where (λ r, String.eqb (row_id r) u && bool_decide (pr_state r = ACTIVE)
                           && same_parties (pr_identity r) sender self && token_binding r tok fp)
          (set_row (mkSetList None None None (Some now) None None None None None None) now) t;
    mret (first_session (claim_diagnosis later p) w.1, w.2)).

Definition pg_markAuthorized (later : SessionTable) (now : Z) (id expectedRevision : string) : M SessionTable Session :=
  committed (λ t,
    u ← uuid_param id;
    rev ← bigint_in expectedRevision;
    w ← update_where (λ r, String.eqb (row_id r) u && bool_decide (pr_state r = ACTIVE) && (pr_revision r =? rev))
          (set_row (mkSetList None None None None (Some now) None None None None None) now) t;
    mret (first_session (diagnoseNotFound later id) w.1, w.2)).

Definition close_rows (now : Z) (reason : CloseReason) (sel : PgRow → bool) (t : SessionTable)
    : res (res (list string) * SessionTable) :=
  w ← update_where (λ r, sel r && row_live r) (set_row (set_closing now reason true) now) t;
  mret (Ok (row_id <$> (w.1 : list PgRow)), w.2).

Definition pg_closeByToken (now : Z) (tokenId : string) (reason : option CloseReason) : M SessionTable (list string) :=
  committed (λ t,
    tok ← text_param tokenId;
    close_rows now (default REVOKED_TOKEN reason) (λ r, bool_decide (capability_token_id (pr_identity r) = Some tok)) t).

Definition pg_closeByPrincipal (now : Z) (principal : string) (reason : option CloseReason) : M SessionTable (list string) :=
  committed (λ t,
    did ← text_param principal;
    close_rows now (default REVOKED_TOKEN reason) (λ r, String.eqb (principal_did (pr_identity r)) did) t).

(** ORDER BY last_seen_at DESC; [tie] is the order the server happens to give
    rows of one instant. *)
Definition seen_later (tie : PgRow → Z) (a b : PgRow) : bool :=
  (last_seen_at b <? last_seen_at a) || ((last_seen_at a =? last_seen_at b) && (tie a <=? tie b)).
Fixpoint insert_sorted (tie : PgRow → Z) (r : PgRow) (l : list PgRow) : list PgRow :=
  match l with [] => [r] | x :: l' => if seen_later tie r x then r :: l else x :: insert_sorted tie r l' end.
Definition order_latest (tie : PgRow → Z) (l : list PgRow) : list PgRow := foldr (insert_sorted tie) [] l.

Definition listed (f : SessionListActiveFilter) (r : PgRow) : bool :=
  bool_decide (pr_state r ∈ default [ACTIVE] (lf_states f))
  && opt_all (λ d, String.eqb (initiator_did (pr_identity r)) d) (lf_initiatorDid f)
  && opt_all (λ d, String.eqb (responder_did (pr_identity r)) d) (lf_responderDid f).

Fixpoint sessions_of (rows : list PgRow) : res (list Session) :=
  match rows with [] => mret [] | r :: rows' => s ← rowToSession r; l ← sessions_of rows'; mret (s :: l) end.

Definition pg_listActive (tie : PgRow → Z) (f : SessionListActiveFilter) (t : SessionTable) : res (list Session) :=
  _ ← opt_param text_param (lf_initiatorDid f);
  _ ← opt_param text_param (lf_responderDid f);
  let limit := default 1000 (lf_limit f) in
  _ ← check (0 <=? limit) "2201W";
  sessions_of (take (Z.to_nat limit) (order_latest tie (filter (λ r, listed f r = true) t))).

(** [created_at < NOW() - make_interval(secs => ms / 1000.0)] *)
Definition older (at_ now ms : Z) : bool := at_ <? now - ms * 1000.

Definition pg_cleanExpired (now createdTimeoutMs idleSoftMs hardMs : Z) : M SessionTable SessionCleanResult :=
  committed (λ t,
    r1 ← update_where (λ r, bool_decide (pr_state r = CREATED) && older (pr_created_at (pr_identity r)) now createdTimeoutMs)
           (set_row (set_closing now HANDSHAKE_REJECTED false) now) t;
    r2 ← update_where (λ r, bool_decide (pr_state r = ACTIVE) && older (last_authorized_at r) now idleSoftMs)
           (set_row (mkSetList (Some IDLE) None None None None (Some (Some now)) None None None None) now) r1.2;
    r3 ← update_where (λ r, bool_decide (pr_state r = IDLE)
                            && match idle_since r with Some since => older since now hardMs | None => false end)
           (set_row (set_closing now IDLE_TIMEOUT true) now) r2.2;
    mret (Ok (mkCleanResult (Z.of_nat (length r1.1)) (Z.of_nat (length r2.1)) (Z.of_nat (length r3.1))), r3.2)).

(** ** The manager *)

Definition pg_activate (later : SessionTable) (now t : Z) (id : string) (caps : list string) : M SessionTable Session :=
  found ← pg_get id;
  match found with
  | None => throw "SESSION_NOT_FOUND"
  | Some _ => pg_update later now id (mkPatch (Some ACTIVE) (Some caps) (Some (toISOString t)) None None None None None None None)
  end.

Definition pg_touch (later : SessionTable) (now t : Z) (id : string) : M SessionTable unit :=
  found ← pg_get id;
  match found with
  | Some s =>
      if bool_decide (se_state s = ACTIVE) then
        _ ← pg_update later now id (mkPatch None None None (Some (toISOString t)) None None None None None None); mret tt
      else mret tt
  | None => mret tt
  end.

Definition pg_close_session (later : SessionTable) (now t : Z) (id : string) (reason : CloseReason) : M SessionTable unit :=
  found ← pg_get id;
  match found with
  | None => throw "SESSION_NOT_FOUND"
  | Some s =>
      if bool_decide (se_state s = CLOSED) then mret tt
      else
        _ ← pg_update later now id
              (mkPatch (Some CLOSED) None None None None None (Some (toISOString t)) (Some reason) None None);
        mret tt
  end.
End params.

(** ** Tables *)

(** What the constraints make of a row of a table with the ids [ids]. *)
Record row_ok `{PgInput} (r : PgRow) : Prop := mkRowOk {
  ro_check : row_check r = true;
  ro_revision : 1 <= pr_revision r < 2 ^ 63;
  ro_id : uuid_in (row_id r) = Some (row_id r) ∧ non_empty (row_id r) = true;
  ro_key : did_pair_key (pr_identity r) = generated_pair_key (initiator_did (pr_identity r)) (responder_did (pr_identity r)) }.

Record table_ok `{PgInput} (t : SessionTable) : Prop := mkTableOk {
  to_rows : ∀ r, r ∈ t → row_ok r;
  to_keys : keys_unique t = true;
  to_references : references_ok t = true }.

Lemma find_row_id id t r : find_row id t = Some r → r ∈ t ∧ row_id r = id.
Proof. intros [Hin E%String.eqb_eq]%find_some. split; [by apply list_elem_of_In|done]. Qed.

Lemma find_row_cons id r t : find_row id (r :: t) = if String.eqb (row_id r) id then Some r else find_row id t.
Proof. done. Qed.

Lemma find_row_None id t : find_row id t = None → id ∉ row_id <$> t.
Proof.
  intros Hf (r & -> & Hr)%list_elem_of_fmap. rewrite list_elem_of_In in Hr. pose proof (find_none _ _ Hf r Hr) as E. cbn in E.
  by rewrite String.eqb_refl in E.
Qed.

Lemma find_row_elem r t : NoDup (row_id <$> t) → r ∈ t → find_row (row_id r) t = Some r.
Proof.
  induction t as [|x t IH]; [by intros _ ?%not_elem_of_nil|]. rewrite fmap_cons. intros [Hn Hd]%NoDup_cons Hin. rewrite find_row_cons.
  apply elem_of_cons in Hin as [->|Hin]; [by rewrite String.eqb_refl|].
  destruct (String.eqb_spec (row_id x) (row_id r)) as [E|]; [|by apply IH]. exfalso. apply Hn. rewrite E. by apply list_elem_of_fmap_2.
Qed.

Section tables.
Context `{PgInput}.

Lemma table_ids t : table_ok t → NoDup (row_id <$> t).
Proof. intros [_ [Hi _]%andb_true_iff _]. by apply bool_decide_eq_true in Hi. Qed.

(** An UPDATE that keeps the identity and counts the revision. *)
Definition keeps (f : PgRow → PgRow) : Prop := ∀ r : PgRow, pr_identity (f r) = pr_identity r ∧ pr_revision (f r) = pr_revision r + 1.

Lemma set_row_keeps p now : keeps (set_row p now).
Proof. done. Qed.

Lemma update_ids (sel : PgRow → bool) (f : PgRow → PgRow) (t : SessionTable) : keeps f → row_id <$> ((λ r, if sel r then f r else r) <$> t) = row_id <$> t.
Proof.
  intros Hf. rewrite <- list_fmap_compose. apply list_fmap_ext. intros _ r _. cbn. unfold row_id. destruct (sel r); [|done]. by rewrite (proj1 (Hf r)).
Qed.

Lemma rows_error_ok rows : rows_error rows = Ok tt ↔ ∀ r, r ∈ rows → pr_revision r < 2 ^ 63 ∧ row_check r = true.
Proof.
  induction rows as [|r rows IH]; [split; [by intros _ r ?%not_elem_of_nil|done]|]. cbn [rows_error].
  rewrite res_bind_ok. setoid_rewrite elem_of_cons. split.
  - intros ([] & ([] & H1%check_ok%Z.ltb_lt & H2%check_ok)%res_bind_ok & H3) x [->|Hx]; [done|]. by apply IH.
  - intros Hall. exists tt. split; [|apply IH; auto]. unfold row_error. destruct (Hall r (or_introl eq_refl)) as [H1 H2].
    rewrite res_bind_ok. exists tt. rewrite !check_ok. split; [by apply Z.ltb_lt|done].
Qed.

Lemma accept_rows_ok written t x :
  accept_rows written t = Ok x ↔ (∀ r, r ∈ written → pr_revision r < 2 ^ 63 ∧ row_check r = true) ∧ keys_unique t = true.
Proof.
  unfold accept_rows. rewrite res_bind_ok, <- rows_error_ok. split.
  - by intros ([] & H1 & H2%check_ok).
  - intros [H1 H2]. exists tt. by rewrite check_ok.
Qed.

Lemma update_where_inv sel f t written t' :
  update_where sel f t = Ok (written, t') →
  written = f <$> filter (λ r, sel r = true) t ∧ t' = (λ r, if sel r then f r else r) <$> t
  ∧ (∀ r, r ∈ t → sel r = true → pr_revision (f r) < 2 ^ 63 ∧ row_check (f r) = true) ∧ keys_unique t' = true.
Proof.
  unfold update_where. intros (u & [Hw Hk]%accept_rows_ok & [= <- <-])%res_bind_ok. split_and!; [done|done| |done].
  intros r Hr Hs. apply Hw. apply list_elem_of_fmap_2, list_elem_of_filter. done.
Qed.

Lemma update_table_ok sel f t written t' : keeps f → table_ok t → update_where sel f t = Ok (written, t') → table_ok t'.
Proof.
  intros Hf [Hr Hk Href] (_ & -> & Hw & Hk')%update_where_inv. split; [|done|].
  - intros x (r & -> & Hin)%list_elem_of_fmap. destruct (sel r) eqn:Es; [|by apply Hr]. destruct (Hr r Hin) as [? ? ? ?].
    destruct (Hf r) as [Ei Er], (Hw r Hin Es). split; unfold row_id; rewrite ?Ei, ?Er in *; try done. lia.
  - unfold references_ok in *. rewrite forallb_forall in Href |- *. intros x Hx. rewrite <- list_elem_of_In in Hx.
    apply list_elem_of_fmap in Hx as (r & -> & Hin). rewrite list_elem_of_In in Hin. specialize (Href r Hin).
    rewrite (update_ids sel f t Hf). destruct (sel r); [|done]. by rewrite (proj1 (Hf r)).
Qed.

(** Statements that only touch live rows leave no more live rows. *)
Lemma live_keys_cons r t : live_keys (r :: t) = if row_live r then did_pair_key (pr_identity r) :: live_keys t else live_keys t.
Proof.
  unfold live_keys. destruct (row_live r) eqn:E; [by rewrite filter_cons_True|by rewrite filter_cons_False by congruence].
Qed.

Lemma live_keys_sublist (sel : PgRow → bool) (f : PgRow → PgRow) (t : SessionTable) :
  keeps f → (∀ r, r ∈ t → sel r = true → row_live r = true) → live_keys ((λ r, if sel r then f r else r) <$> t) `sublist_of` live_keys t.
Proof.
  intros Hf Hs. induction t as [|r t IH]; [done|]. rewrite fmap_cons, !live_keys_cons.
  specialize (IH ltac:(intros x Hx; apply Hs; by right)).
  destruct (sel r) eqn:Es; [|by destruct (row_live r); [apply sublist_skip|]]. rewrite (Hs r ltac:(left) Es), (proj1 (Hf r)).
  destruct (row_live (f r)); [by apply sublist_skip|by apply sublist_cons].
Qed.

Lemma update_where_runs sel f t :
  table_ok t → keeps f → (∀ r, r ∈ t → sel r = true → row_live r = true) →
  (∀ r, r ∈ t → sel r = true → pr_revision r + 1 < 2 ^ 63 ∧ row_check (f r) = true) →
  update_where sel f t = Ok (f <$> filter (λ r, sel r = true) t, (λ r, if sel r then f r else r) <$> t).
Proof.
  intros Ht Hf Hs Hw. unfold update_where. rewrite (proj2 (accept_rows_ok _ _ tt)); [done|]. split.
  - intros x (r & -> & [Hsr Hr]%list_elem_of_filter)%list_elem_of_fmap. destruct (Hw r Hr Hsr). by rewrite (proj2 (Hf r)).
  - unfold keys_unique. apply andb_true_iff. rewrite !bool_decide_eq_true. destruct Ht as [_ [Hi Hk]%andb_true_iff _].
    apply bool_decide_eq_true in Hi, Hk. split; [by rewrite update_ids|]. eapply sublist_NoDup; [exact Hk|by apply live_keys_sublist].
Qed.
End tables.

(** ** What the statements write passes the constraints *)

Lemma row_live_not_closed r : row_live r = true ↔ pr_state r ≠ CLOSED.
Proof. unfold row_live, LIVE_STATES. rewrite bool_decide_eq_true. destruct (pr_state r); set_solver. Qed.

Ltac row_cases :=
  repeat match goal with
         | r : PgRow |- _ => destruct r as [[] st ? ? ? ? ? ? ? ? ? ? ?]
         end; unfold row_check, row_live, set_row; cbn in *; try subst; rewrite ?andb_true_iff in *; try done; naive_solver.

Lemma closing_check at_ reason now r : row_check r = true → row_check (set_row (set_closing at_ reason true) now r) = true.
Proof. row_cases. Qed.
Lemma stale_check at_ reason now r :
  pr_state r ≠ IDLE → row_check r = true → row_check (set_row (set_closing at_ reason false) now r) = true.
Proof. intros Hs. destruct r as [[] [] ? ? ? ? ? ? ? ? ? ? ?]; row_cases. Qed.
Lemma seen_check now r : row_check r = true → row_check (set_row (mkSetList None None None (Some now) None None None None None None) now r) = true.
Proof. row_cases. Qed.
Lemma authorized_check now r : row_check r = true → row_check (set_row (mkSetList None None None None (Some now) None None None None None) now r) = true.
Proof. row_cases. Qed.
Lemma idle_check now r :
  pr_state r = ACTIVE → row_check r = true →
  row_check (set_row (mkSetList (Some IDLE) None None None None (Some (Some now)) None None None None) now r) = true.
Proof. intros Hs. row_cases. Qed.
Lemma resume_check caps est now r :
  pr_state r = IDLE → row_check r = true →
  row_check (set_row (mkSetList (Some ACTIVE) (Some caps) est (Some now) (Some now) (Some None) None None None None) now r) = true.
Proof. intros Hs. row_cases. Qed.

(** ** Calls *)

Inductive Answer : Type :=
| A_session (s : Session)
| A_found (s : option Session)
| A_ids (ids : list string)
| A_clean (r : SessionCleanResult).
Definition as_answer {A W} (f : A → Answer) (x : res A * W) : res Answer * W :=
  (match x.1 with Ok a => Ok (f a) | Throw c => Throw c end, x.2).

(** The calls of the store with the clocks of the database and of the host. *)
Inductive PgCall : Type :=
| pc_create (now t : Z) (input : SessionCreateInput)
| pc_get (id : string)
| pc_update (now t : Z) (id : string) (p : SessionUpdatePatch)
| pc_resume (now t : Z) (input : SessionResumeInput)
| pc_supersede (now t : Z) (old : string) (fallback : CloseReason) (input : SessionCreateInput) (given : option string)
| pc_claim (now t : Z) (p : ClaimParams)
| pc_authorize (now t : Z) (id rev : string)
| pc_closeByToken (now t : Z) (tok : string) (reason : option CloseReason)
| pc_closeByPrincipal (now t : Z) (did : string) (reason : option CloseReason)
| pc_clean (now t created soft hard : Z).

Section calls.
Context `{PgTime} `{PgInput}.

Definition pg_call (later : SessionTable) (c : PgCall) (t : SessionTable) : res Answer * SessionTable :=
  match c with
  | pc_create now _ input => as_answer A_session (pg_create now input t)
  | pc_get id => as_answer A_found (pg_get id t)
  | pc_update now _ id p => as_answer A_session (pg_update later now id p t)
  | pc_resume now ms input => as_answer A_session (pg_resume now ms input t)
  | pc_supersede now ms old fb input given => as_answer A_session (pg_supersedeAndCreate now ms old fb input given t)
  | pc_claim now _ p => as_answer A_session (pg_claimForDispatch later now p t)
  | pc_authorize now _ id rev => as_answer A_session (pg_markAuthorized later now id rev t)
  | pc_closeByToken now _ tok reason => as_answer A_ids (pg_closeByToken now tok reason t)
  | pc_closeByPrincipal now _ did reason => as_answer A_ids (pg_closeByPrincipal now did reason t)
  | pc_clean now _ created soft hard => as_answer A_clean (pg_cleanExpired now created soft hard t)
  end.

(** Calls one after the other, each with what its diagnosis sees. *)
Definition pg_run (calls : list (PgCall * SessionTable)) (t : SessionTable) : SessionTable :=
  foldl (λ t c, (pg_call c.2 c.1 t).2) t calls.
End calls.

(** ** Steps *)

(** What changes the table: an UPDATE of live rows, or an INSERT whose
    reference is there. *)
Inductive pg_step `{PgTime} `{PgInput} (t : SessionTable) : SessionTable → Prop :=
| ps_update sel p now written t' :
    (∀ r, r ∈ t → sel r = true → row_live r = true) → update_where sel (set_row p now) t = Ok (written, t') → pg_step t t'
| ps_insert now input row t' :
    insert_session now input t = Ok (row, t') → references_ok t' = true → pg_step t t'.

Section steps.
Context `{PgTime} `{PgInputLaws}.
Notation steps := (rtc pg_step).

Lemma insert_inv now input t row t' :
  insert_session now input t = Ok (row, t') →
  t' = t ++ [row] ∧ row_check row = true ∧ keys_unique t' = true ∧ pr_revision row = 1
  ∧ uuid_in (ci_sessionId input) = Some (row_id row)
  ∧ did_pair_key (pr_identity row) = generated_pair_key (initiator_did (pr_identity row)) (responder_did (pr_identity row)).
Proof.
  unfold insert_session. intros (id & Hid & E)%res_bind_ok. unfold uuid_param in Hid. destruct (uuid_in _) as [u|] eqn:Eu; [|done]. injection Hid as ->.
  repeat match goal with E : _ ≫= _ = Ok _ |- _ => apply res_bind_ok in E as (? & ? & E) end.
  injection E as <- <-. match goal with H : accept_rows _ _ = _ |- _ => apply accept_rows_ok in H as [Ha Hk] end.
  split_and!; try done. by apply Ha, list_elem_of_singleton.
Qed.

Lemma step_ok t t' : pg_step t t' → table_ok t → table_ok t'.
Proof.
  intros [sel p now written x _ Hu|now input row x (-> & Hc & Hk & Hr & Hid & Hkey)%insert_inv Href] Ht;
    [by eapply update_table_ok; [apply set_row_keeps|done|done]|].
  split; [|done|done]. intros y [Hy| ->%list_elem_of_singleton]%elem_of_app; [by apply Ht|].
  apply uuid_in_out in Hid. split; try done. rewrite Hr. lia.
Qed.

Lemma steps_ok t t' : steps t t' → table_ok t → table_ok t'.
Proof. induction 1; eauto using step_ok. Qed.

(** What becomes of the row of an id: it stays, or it was live and moves on
    under the same identity with a greater revision. *)
Definition pg_follows (r r' : PgRow) : Prop :=
  r' = r ∨ row_live r = true ∧ pr_identity r' = pr_identity r ∧ pr_revision r < pr_revision r'.

Lemma find_row_app id t1 t2 : find_row id (t1 ++ t2) = match find_row id t1 with Some r => Some r | None => find_row id t2 end.
Proof. induction t1 as [|x t1 IH]; [done|]. rewrite <- app_comm_cons, !find_row_cons. by destruct (String.eqb _ _). Qed.

Lemma find_row_update id (sel : PgRow → bool) f t : keeps f →
  find_row id ((λ r, if sel r then f r else r) <$> t) = (λ r, if sel r then f r else r) <$> find_row id t.
Proof.
  intros Hf. induction t as [|x t IH]; [done|]. rewrite fmap_cons, !find_row_cons.
  assert (row_id (if sel x then f x else x) = row_id x) as -> by (unfold row_id; destruct (sel x); [by rewrite (proj1 (Hf x))|done]).
  by destruct (String.eqb _ _).
Qed.

Lemma step_follows t t' id r : pg_step t t' → find_row id t = Some r → ∃ r', find_row id t' = Some r' ∧ pg_follows r r'.
Proof.
  intros [sel p now written x Hl (_ & -> & _)%update_where_inv|now input row x (-> & _)%insert_inv _] Hr.
  - rewrite find_row_update, Hr by apply set_row_keeps. eexists. split; [done|]. apply find_row_id in Hr as [Hin _].
    destruct (sel r) eqn:Es; [|by left]. right. split_and!; [by apply Hl|done|cbn; lia].
  - exists r. rewrite find_row_app, Hr. by split; [|left].
Qed.

Lemma pg_steps_follow t t' id r : steps t t' → find_row id t = Some r → ∃ r', find_row id t' = Some r' ∧ pg_follows r r'.
Proof.
  intros Hs. revert r. induction Hs as [t|t t1 t' Hstep Hs IH]; intros r Hr; [by exists r; split; [|left]|].
  destruct (step_follows _ _ _ _ Hstep Hr) as (r1 & Hr1 & F1), (IH r1 Hr1) as (r' & Hr' & F'). exists r'. split; [done|].
  destruct F1 as [->|(L1 & I1 & V1)]; [done|]. destruct F' as [->|(L2 & I2 & V2)]; right; [done|]. split_and!; [done|congruence|lia].
Qed.

(** ** Calls are sequences of steps *)

Lemma committed_inv {A} (q : SessionTable → res (res A * SessionTable)) t r t' :
  committed q t = (r, t') → q t = Ok (r, t') ∨ ∃ c, q t = Throw c ∧ r = Throw c ∧ t' = t.
Proof. unfold committed. destruct (q t) as [[a x]|c]; [intros [= -> ->]; by left|intros [= <- <-]; right; eauto]. Qed.

Lemma committed_ok {A} (q : SessionTable → res (res A * SessionTable)) t a t' : committed q t = (Ok a, t') → q t = Ok (Ok a, t').
Proof. intros [|(c & _ & [=] & _)]%committed_inv; done. Qed.

Lemma update_where_steps sel p now t w :
  (∀ r, r ∈ t → sel r = true → row_live r = true) → update_where sel (set_row p now) t = Ok w → steps t w.2.
Proof. destruct w. intros. eapply rtc_once, ps_update; eauto. Qed.

Lemma commit_steps now input t x : commit_insert (insert_session now input t) = Ok x → steps t x.2.
Proof.
  unfold commit_insert. intros ([row t'] & Hi & ([] & Hc%check_ok & [= <-])%res_bind_ok)%res_bind_ok. eapply rtc_once, ps_insert; done.
Qed.

(** The steps of a call under [committed]. *)
Ltac by_steps E :=
  unfold pg_create, pg_update, pg_claimForDispatch, pg_markAuthorized, pg_closeByToken, pg_closeByPrincipal, pg_cleanExpired in E;
  apply committed_inv in E as [E|(? & _ & _ & ->)]; [|done];
  repeat match type of E with
         | _ ≫= _ = Ok _ => apply res_bind_ok in E as (? & ? & E)
         end.

Lemma active_live r : pr_state r = ACTIVE → row_live r = true.
Proof. intros E. apply row_live_not_closed. by rewrite E. Qed.

Lemma resume_pg_steps now ms input t r t' : table_ok t → pg_resume now ms input t = (r, t') → steps t t'.
Proof.
  intros Ht. unfold pg_resume. intros [E|(? & _ & _ & ->)]%committed_inv; [|done]. apply res_bind_ok in E as (u & _ & E). cbv beta in E.
  destruct (find_row u t) as [x|] eqn:Hx; [|done]. case_bool_decide; [done|].
  destruct (bool_decide_reflect (pr_state x = IDLE)) as [Hi|]; [cbn [negb] in E|done]. destruct (negb _); [done|].
  assert (∀ r0, r0 ∈ t → String.eqb (row_id r0) u = true → row_live r0 = true) as Hl.
  { intros r0 Hin Hu%String.eqb_eq. apply find_row_elem in Hin; [|by apply table_ids]. rewrite Hu, Hx in Hin. injection Hin as <-.
    apply row_live_not_closed. by rewrite Hi. }
  apply res_bind_ok in E as ([] & _ & E). destruct (idle_over _ _ _);
    repeat match type of E with _ ≫= _ = Ok _ => apply res_bind_ok in E as (? & ? & E) end;
    injection E as _ <-; (eapply update_where_steps; [exact Hl|eassumption]).
Qed.

Lemma close_rows_steps now reason sel t x : close_rows now reason sel t = Ok x → steps t x.2.
Proof. intros (w & Hw & [= <-])%res_bind_ok. eapply update_where_steps; [|eassumption]. by intros r _ [_ ?]%andb_true_iff. Qed.

Lemma pg_call_steps later c t : table_ok t → steps t (pg_call later c t).2.
Proof.
  intros Ht. destruct c; cbn [pg_call]; unfold as_answer; cbn [snd];
    match goal with |- steps t (?x).2 => destruct x as [r t'] eqn:E; cbn [snd] end.
  - by_steps E. by apply commit_steps in E.
  - by injection E as _ <-.
  - by_steps E. injection E as _ <-. eapply update_where_steps; [|eassumption].
    intros y _ [_ Hc%negb_true_iff%bool_decide_eq_false]%andb_true_iff. by apply row_live_not_closed.
  - by eapply resume_pg_steps.
  - unfold pg_supersedeAndCreate, rejected in E. destruct (committed _ t) as [a tab] eqn:Ec. assert (t' = tab) as -> by (by destruct a; injection E).
    clear E. by_steps Ec. apply commit_steps in Ec. etrans; [|exact Ec]. eapply update_where_steps; [|eassumption].
    intros y _ [_ Hc%negb_true_iff%bool_decide_eq_false]%andb_true_iff. by apply row_live_not_closed.
  - by_steps E. injection E as _ <-. eapply update_where_steps; [|eassumption]. intros y _. rewrite !andb_true_iff, bool_decide_eq_true. intros [[[_ ?] _] _]. by apply active_live.
  - by_steps E. injection E as _ <-. eapply update_where_steps; [|eassumption]. intros y _. rewrite !andb_true_iff, bool_decide_eq_true. intros [[_ ?] _]. by apply active_live.
  - by_steps E. by apply close_rows_steps in E.
  - by_steps E. by apply close_rows_steps in E.
  - by_steps E. injection E as _ <-. etrans; [|etrans]; (eapply update_where_steps; [|eassumption]);
      intros y _ [Hs%bool_decide_eq_true _]%andb_true_iff; apply row_live_not_closed; by rewrite Hs.
Qed.

Lemma pg_run_steps calls t : table_ok t → steps t (pg_run calls t).
Proof.
  unfold pg_run. revert t. induction calls as [|c calls IH]; intros t Ht; [done|]. cbn [foldl].
  pose proof (pg_call_steps c.2 c.1 t Ht) as Hc. etrans; [exact Hc|]. apply IH. by eapply steps_ok.
Qed.
End steps.

(** ** Theorems of the store *)

Section theorems.
Context `{PgTime} `{PgInputLaws}.

Lemma pair_key_sym a b : generated_pair_key a b = generated_pair_key b a.
Proof.
  unfold generated_pair_key. destruct (text_leb a b) eqn:E1, (text_leb b a) eqn:E2; try done.
  - by rewrite (text_leb_antisym a b E1 E2).
  - destruct (text_leb_total a b); congruence.
Qed.

Lemma live_keys_elem r t : r ∈ t → row_live r = true → did_pair_key (pr_identity r) ∈ live_keys t.
Proof. intros Hr Hl. apply (list_elem_of_fmap_2 (λ r, did_pair_key (pr_identity r))), list_elem_of_filter. done. Qed.

Lemma live_keys_inj t r1 r2 :
  NoDup (live_keys t) → NoDup (row_id <$> t) → r1 ∈ t → r2 ∈ t → row_live r1 = true → row_live r2 = true →
  did_pair_key (pr_identity r1) = did_pair_key (pr_identity r2) → r1 = r2.
Proof.
  induction t as [|x t IH]; [by intros _ _ ?%not_elem_of_nil|]. rewrite live_keys_cons, fmap_cons, !elem_of_cons.
  intros Hk [_ Hi]%NoDup_cons [->|Hr1] [->|Hr2] L1 L2 E; [done| | |].
  - rewrite L1 in Hk. apply NoDup_cons in Hk as [[] _]. rewrite E. by apply live_keys_elem.
  - rewrite L2 in Hk. apply NoDup_cons in Hk as [[] _]. rewrite <- E. by apply live_keys_elem.
  - apply IH; try done. destruct (row_live x); [by apply NoDup_cons in Hk as [_ ?]|done].
Qed.

(** C22.  However the calls of any number of hosts follow each other, and whichever
    clocks and inputs they have: two parties share at most one session that is
    not closed, whoever of them began it. *)
Theorem one_live_session calls t r1 r2 :
  table_ok t → r1 ∈ pg_run calls t → r2 ∈ pg_run calls t → row_live r1 = true → row_live r2 = true →
  (initiator_did (pr_identity r1) = initiator_did (pr_identity r2) ∧ responder_did (pr_identity r1) = responder_did (pr_identity r2)
   ∨ initiator_did (pr_identity r1) = responder_did (pr_identity r2) ∧ responder_did (pr_identity r1) = initiator_did (pr_identity r2)) →
  r1 = r2.
Proof.
  intros Ht Hr1 Hr2 L1 L2 Hp. pose proof (steps_ok _ _ (pg_run_steps calls t Ht) Ht) as Hok. pose proof (table_ids _ Hok) as Hi.
  destruct Hok as [Hr [_ Hk%bool_decide_eq_true]%andb_true_iff _].
  apply (live_keys_inj (pg_run calls t)); try done. rewrite (ro_key _ (Hr _ Hr1)), (ro_key _ (Hr _ Hr2)).
  destruct Hp as [[-> ->]|[-> ->]]; [done|apply pair_key_sym].
Qed.

(** A closed row is never written again. *)
Theorem pg_closed_final calls t id r :
  table_ok t → find_row id t = Some r → pr_state r = CLOSED → find_row id (pg_run calls t) = Some r.
Proof.
  intros Ht Hr Hc. destruct (pg_steps_follow _ _ _ _ (pg_run_steps calls t Ht) Hr) as (r' & -> & [->|(Hl & _)]); [done|].
  by apply row_live_not_closed in Hl.
Qed.

Lemma unselected (sel : PgRow → bool) (f : PgRow → PgRow) (t : SessionTable) :
  (∀ r, r ∈ t → sel r = false) → filter (λ r, sel r = true) t = [] ∧ ((λ r, if sel r then f r else r) <$> t) = t.
Proof.
  induction t as [|x t IH]; [done|]. intros Hs. destruct IH as [E1 E2]; [intros r Hr; apply Hs; by right|].
  assert (sel x = false) as Ex by (apply Hs; left). by rewrite fmap_cons, E2, filter_cons_False, E1, Ex by congruence.
Qed.

(** A statement on one id writes its row, or nothing. *)
Lemma split_row (u : string) (sel : PgRow → bool) (f : PgRow → PgRow) t r :
  table_ok t → (∀ r, sel r = true → row_id r = u) → find_row u t = Some r →
  ∃ pre post, t = pre ++ r :: post ∧ u ∉ row_id <$> pre ∧ row_id r = u
    ∧ filter (λ r, sel r = true) t = (if sel r then [r] else [])
    ∧ ((λ r, if sel r then f r else r) <$> t) = pre ++ (if sel r then f r else r) :: post.
Proof.
  intros Ht Hs Hr. pose proof (table_ids t Ht) as Hi. clear Ht.
  destruct (find_row_id _ _ _ Hr) as [(pre & post & ->)%list_elem_of_split Hid]. rewrite fmap_app, fmap_cons in Hi.
  apply NoDup_app in Hi as (_ & Hpre & [Hpost _]%NoDup_cons). rewrite Hid in *.
  destruct (unselected sel f pre) as [Ep1 Ep2].
  { intros x Hx. destruct (sel x) eqn:Ex; [|done]. destruct (Hpre (row_id x)); [by apply list_elem_of_fmap_2|rewrite (Hs x Ex); left]. }
  destruct (unselected sel f post) as [Eq1 Eq2].
  { intros x Hx. destruct (sel x) eqn:Ex; [|done]. destruct Hpost. rewrite <- (Hs x Ex). by apply list_elem_of_fmap_2. }
  exists pre, post. rewrite filter_app, Ep1, app_nil_l, fmap_app, fmap_cons, Ep2, Eq2. split_and!; try done.
  - intros Hin. apply (Hpre u Hin). left.
  - destruct (sel r) eqn:Er; [by rewrite filter_cons_True, Eq1|by rewrite filter_cons_False, Eq1 by congruence].
Qed.

Lemma no_row (u : string) (sel : PgRow → bool) (f : PgRow → PgRow) t :
  (∀ r, sel r = true → row_id r = u) → find_row u t = None →
  filter (λ r, sel r = true) t = [] ∧ ((λ r, if sel r then f r else r) <$> t) = t.
Proof.
  intros Hs Hr. apply unselected. intros x Hx. destruct (sel x) eqn:Ex; [|done].
  destruct (find_row_None _ _ Hr). rewrite <- (Hs x Ex). by apply list_elem_of_fmap_2.
Qed.

Lemma update_one_row (u : string) (sel : PgRow → bool) f t written t' :
  table_ok t → (∀ r, sel r = true → row_id r = u) → update_where sel f t = Ok (written, t') →
  (∃ r pre post, find_row u t = Some r ∧ sel r = true ∧ written = [f r] ∧ t = pre ++ r :: post ∧ t' = pre ++ f r :: post
     ∧ u ∉ row_id <$> pre ∧ row_id r = u)
  ∨ written = [] ∧ t' = t ∧ ∀ r, find_row u t = Some r → sel r = false.
Proof.
  intros Ht Hs (-> & -> & _)%update_where_inv. destruct (find_row u t) as [r|] eqn:Hr.
  - destruct (split_row u sel f t r Ht Hs Hr) as (pre & post & Et & Hn & Hid & Ef & Em). rewrite Ef, Em.
    destruct (sel r) eqn:Er; [left; by exists r, pre, post|right; rewrite <- Et; split_and!; naive_solver].
  - right. by destruct (no_row u sel f t Hs Hr) as [-> ->].
Qed.

Lemma found_after u t pre post (f : PgRow → PgRow) r : keeps f → t = pre ++ r :: post → u ∉ row_id <$> pre → row_id r = u → find_row u (pre ++ f r :: post) = Some (f r).
Proof.
  intros Hf -> Hn <-. rewrite find_row_app. destruct (find_row (row_id r) pre) as [x|] eqn:E.
  - destruct Hn. destruct (find_row_id _ _ _ E) as [Hx <-]. by apply list_elem_of_fmap_2.
  - rewrite find_row_cons. unfold row_id at 1. rewrite (proj1 (Hf r)). unfold row_id. by rewrite String.eqb_refl.
Qed.

Lemma rowToSession_ok r s : rowToSession r = Ok s → s = session_of_row r.
Proof.
  unfold rowToSession. intros E. repeat match goal with E : _ ≫= _ = Ok _ |- _ => apply res_bind_ok in E as (? & ? & E) end. by injection E.
Qed.

(** The WHERE clause of a claim. *)
Definition dispatchable (p : ClaimParams) (r : PgRow) : bool :=
  bool_decide (pr_state r = ACTIVE) && same_parties (pr_identity r) (cl_senderDid p) (cl_selfDid p)
  && token_binding r (cl_expectedTokenId p) (cl_expectedTokenFingerprint p).

Lemma text_param_ok s x : text_param s = Ok x → x = s.
Proof. by intros ([] & _ & [= <-])%res_bind_ok. Qed.
Lemma opt_text_ok o x : opt_param text_param o = Ok x → x = o.
Proof. destruct o as [s|]; [|by intros [= <-]]. by intros (y & ->%text_param_ok & [= <-])%res_bind_ok. Qed.
Lemma uuid_param_ok s u : uuid_param s = Ok u → uuid_in s = Some u.
Proof. unfold uuid_param. destruct (uuid_in s); naive_solver. Qed.

Lemma claim_inv later now p t s t' :
  table_ok t → pg_claimForDispatch later now p t = (Ok s, t') →
  ∃ u r, uuid_in (cl_sessionId p) = Some u ∧ find_row u t = Some r ∧ dispatchable p r = true
    ∧ find_row u t' = Some (set_row (mkSetList None None None (Some now) None None None None None None) now r)
    ∧ s = session_of_row (set_row (mkSetList None None None (Some now) None None None None None None) now r).
Proof.
  intros Ht. unfold pg_claimForDispatch. intros E%committed_ok. cbv beta in E.
  apply res_bind_ok in E as (u & Hu%uuid_param_ok & (? & ->%text_param_ok & (? & ->%text_param_ok & (? & ->%opt_text_ok & (? & ->%opt_text_ok &
    ([written x] & Hw & E)%res_bind_ok)%res_bind_ok)%res_bind_ok)%res_bind_ok)%res_bind_ok).
  cbn [fst snd] in E. apply (update_one_row u) in Hw as [(r & pre & post & Hr & Hs & -> & Et & -> & Hn & Hid)|(-> & -> & _)].
  - injection E as Es <-. cbn in Es. apply rowToSession_ok in Es. exists u, r. split_and!; try done.
    + unfold dispatchable. apply andb_true_iff in Hs as [[[_ Ha]%andb_true_iff Hb]%andb_true_iff Hc]. by rewrite Ha, Hb, Hc.
    + by eapply (found_after u t pre post (set_row _ now)).
  - injection E as Es <-. cbn in Es. unfold claim_diagnosis in Es. apply res_bind_ok in Es as (o & _ & Es). destruct o as [y|]; [|done].
    repeat case_match; done.
  - done.
  - intros r. rewrite !andb_true_iff, String.eqb_eq. by intros [[[? _] _] _].
Qed.

(** C32.  The revision fences authorizations in the database too: when an
    authorization succeeds with the revision that a claim returned, the row is,
    after whatever calls of whatever hosts came in between, the very row the
    claim wrote: active, of the two parties and bound to the token. *)
Theorem pg_authorization_fenced later now p t s t1 calls later' now' s' t2 u :
  table_ok t → uuid_in (cl_sessionId p) = Some u → pg_claimForDispatch later now p t = (Ok s, t1) →
  pg_markAuthorized later' now' (cl_sessionId p) (revision s) (pg_run calls t1) = (Ok s', t2) →
  ∃ r, find_row u (pg_run calls t1) = Some r ∧ s = session_of_row r ∧ dispatchable p r = true.
Proof.
  intros Ht Hu Hclaim Hmark. pose proof (pg_call_steps later (pc_claim now 0 p) t Ht) as S1. cbn in S1. rewrite Hclaim in S1. cbn in S1.
  pose proof (steps_ok _ _ S1 Ht) as Ht1. pose proof (pg_run_steps calls t1 Ht1) as S2. pose proof (steps_ok _ _ S2 Ht1) as Ht2.
  destruct (claim_inv _ _ _ _ _ _ Ht Hclaim) as (v & r & Hv & Hr & Hd & Hr1 & ->). rewrite Hu in Hv. injection Hv as <-.
  set (r1 := set_row _ now r) in *.
  destruct (pg_steps_follow _ _ _ _ S2 Hr1) as (r2 & Hr2 & F). exists r2. split; [done|].
  assert (r2 = r1) as ->; [|split; [done|exact Hd]]. destruct F as [->|(_ & _ & Hlt)]; [done|]. exfalso.
  unfold pg_markAuthorized in Hmark. apply committed_ok in Hmark. cbv beta in Hmark.
  apply res_bind_ok in Hmark as (w & Hw%uuid_param_ok & (rev & Hrev & ([written x] & Hup & E)%res_bind_ok)%res_bind_ok).
  rewrite Hu in Hw. injection Hw as <-. cbn [revision session_of_row] in Hrev.
  rewrite bigint_in_out in Hrev by (pose proof (ro_revision _ (to_rows _ Ht1 _ (proj1 (find_row_id _ _ _ Hr1)))) as Hb; lia).
  injection Hrev as <-. cbn [fst snd] in E.
  apply (update_one_row u) in Hup as [(y & pre & post & Hy & Hs & _)|(-> & -> & _)].
  - rewrite Hr2 in Hy. injection Hy as <-. apply andb_true_iff in Hs as [_ Hs%Z.eqb_eq]. cbn in Hlt. lia.
  - injection E as Es _. cbn in Es. unfold diagnoseNotFound in Es. apply res_bind_ok in Es as (o & _ & Es). destruct o as [y|]; [|done].
    repeat case_match; done.
  - done.
  - intros y. rewrite !andb_true_iff, String.eqb_eq. by intros [[? _] _].
Qed.
End theorems.

(** ** What the constraints refuse *)

(** The codes the store gives itself; every other code is the database's. *)
Definition protocol_codes : list string :=
  ["SESSION_NOT_FOUND"; "SESSION_CLOSED"; "SESSION_STATE_INVALID"; "SESSION_DID_MISMATCH"; "SESSION_TOKEN_MISMATCH"; "SESSION_IDLE_EXPIRED"].
Definition served {A} (r : res A) : Prop := match r with Ok _ => True | Throw c => c ∈ protocol_codes end.

(** The texts of a row that a session needs. *)
Definition presentable (r : PgRow) : Prop :=
  non_empty (initiator_did (pr_identity r)) = true ∧ non_empty (responder_did (pr_identity r)) = true
  ∧ non_empty (principal_did (pr_identity r)) = true.

Definition opt_text (o : option string) : Prop := opt_all no_nul o = true.

(** The calls that create nothing and patch nothing, with parameters the
    database can read. *)
Definition routine `{PgInput} (c : PgCall) : Prop :=
  match c with
  | pc_get id => is_Some (uuid_in id)
  | pc_resume _ t input =>
      is_Some (uuid_in (ri_sessionId input)) ∧ forallb no_nul (ri_negotiatedCapabilities input) = true ∧ ri_now input = None ∧ iso_range t
  | pc_claim _ _ p =>
      is_Some (uuid_in (cl_sessionId p)) ∧ no_nul (cl_senderDid p) = true ∧ no_nul (cl_selfDid p) = true
      ∧ opt_text (cl_expectedTokenId p) ∧ opt_text (cl_expectedTokenFingerprint p)
  | pc_authorize _ _ id rev => is_Some (uuid_in id) ∧ ∃ n, bigint_in rev = Ok n
  | pc_closeByToken _ _ s _ | pc_closeByPrincipal _ _ s _ => no_nul s = true
  | pc_clean _ _ _ _ _ => True
  | _ => False
  end.

Section refusals.
Context `{PgTimeLaws} `{PgInputLaws}.

Lemma presentable_session r : row_ok r → presentable r → rowToSession r = Ok (session_of_row r).
Proof.
  intros [_ _ [_ Hid] _] (Hx & Hy & Hz). unfold rowToSession, to_str. unfold row_id in Hid. by rewrite Hid, Hx, Hy, Hz.
Qed.

Lemma uuid_param_run s u : uuid_in s = Some u → uuid_param s = Ok u.
Proof. unfold uuid_param. by intros ->. Qed.
Lemma text_param_run s : no_nul s = true → text_param s = Ok s.
Proof. unfold text_param. by intros ->. Qed.
Lemma opt_text_run o : opt_text o → opt_param text_param o = Ok o.
Proof. destruct o as [s|]; [|done]. intros Hs. cbn. by rewrite text_param_run. Qed.
Lemma time_param_run ms : iso_range ms → timestamptz (toISOString ms) = Ok (ms * 1000).
Proof. intros Hr. unfold timestamptz. by rewrite pg_iso. Qed.

Lemma diagnose_served later id : is_Some (uuid_in id) → served (diagnoseNotFound later id).
Proof.
  intros [u Hu]. unfold diagnoseNotFound, select_row. rewrite (uuid_param_run _ _ Hu). cbn.
  destruct (find_row u later) as [r|]; [case_bool_decide|]; cbn; unfold protocol_codes; set_solver.
Qed.

Lemma claim_diagnosis_served later p : is_Some (uuid_in (cl_sessionId p)) → served (claim_diagnosis later p).
Proof.
  intros [u Hu]. unfold claim_diagnosis, select_row. rewrite (uuid_param_run _ _ Hu). cbn.
  destruct (find_row u later) as [r|]; repeat case_match; cbn; unfold protocol_codes; set_solver.
Qed.

Lemma presented p now r : row_ok r → presentable r → rowToSession (set_row p now r) = Ok (session_of_row (set_row p now r)).
Proof.
  intros [_ _ [_ Hid] _] (Hx & Hy & Hz). unfold rowToSession, to_str. unfold row_id in Hid. cbn [pr_identity set_row]. by rewrite Hid, Hx, Hy, Hz.
Qed.

Definition room (k : Z) (t : SessionTable) : Prop := ∀ r, r ∈ t → pr_revision r + k < 2 ^ 63.

(** An UPDATE of live rows that keeps the checks runs, and what it writes can be
    presented. *)
Lemma routine_update sel p now t k :
  table_ok t → room (k + 1) t → 0 <= k → (∀ r, r ∈ t → sel r = true → row_live r = true ∧ row_check (set_row p now r) = true) →
  ∃ t', update_where sel (set_row p now) t = Ok (set_row p now <$> filter (λ r, sel r = true) t, t') ∧ table_ok t' ∧ room k t'.
Proof.
  intros Ht Hroom Hk Hs. eexists. assert (update_where sel (set_row p now) t = Ok (set_row p now <$> filter (λ r, sel r = true) t,
    (λ r, if sel r then set_row p now r else r) <$> t)) as E.
  { apply update_where_runs; [done|apply set_row_keeps|intros r Hr Hx; by apply Hs|].
    intros r Hr Hx. split; [specialize (Hroom r Hr); lia|by apply Hs]. }
  split_and!; [exact E|by eapply update_table_ok; [apply set_row_keeps| |exact E]|].
  intros x (r & -> & Hr)%list_elem_of_fmap. specialize (Hroom r Hr). destruct (sel r); cbn; lia.
Qed.

Lemma first_served reason t sel p now :
  table_ok t → (∀ r, r ∈ t → presentable r) → served reason →
  served (first_session reason (set_row p now <$> filter (λ r, sel r = true) t)).
Proof.
  intros Ht Hp Hr. destruct (filter _ t) as [|r l] eqn:E; [done|]. cbn [fmap list_fmap first_session].
  assert (r ∈ filter (λ r, sel r = true) t) as [Hs Hin]%list_elem_of_filter by (rewrite E; left).
  rewrite presented; [done|by apply (to_rows t Ht)|by apply Hp].
Qed.

Lemma closing_served now reason sel t : table_ok t → room 1 t → ∃ x t', close_rows now reason sel t = Ok (Ok x, t').
Proof.
  intros Ht Hroom. unfold close_rows.
  destruct (routine_update (λ r, sel r && row_live r) (set_closing now reason true) now t 0) as (t' & E & _); [done|done|lia| |].
  { intros r Hr [_ Hl]%andb_true_iff. split; [done|]. apply closing_check. by apply (to_rows t Ht). }
  rewrite E. cbn. eauto.
Qed.

Lemma clean_served now created soft hard t : table_ok t → room 3 t → ∃ x t', pg_cleanExpired now created soft hard t = (Ok x, t').
Proof.
  intros Ht Hroom. unfold pg_cleanExpired, committed.
  edestruct (routine_update (λ r, bool_decide (pr_state r = CREATED) && older (pr_created_at (pr_identity r)) now created)
    (set_closing now HANDSHAKE_REJECTED false) now t 2) as (t1 & E1 & Ht1 & R1); [done|done|lia| |rewrite E1; cbn [mbind res_bind snd fst]].
  { intros r Hr [Hs%bool_decide_eq_true _]%andb_true_iff. split; [apply row_live_not_closed; by rewrite Hs|].
    apply stale_check; [by rewrite Hs|by apply (to_rows t Ht)]. }
  edestruct (routine_update (λ r, bool_decide (pr_state r = ACTIVE) && older (last_authorized_at r) now soft)
    (mkSetList (Some IDLE) None None None None (Some (Some now)) None None None None) now t1 1) as (t2 & E2 & Ht2 & R2);
    [done|done|lia| |rewrite E2; cbn [mbind res_bind snd fst]].
  { intros r Hr [Hs%bool_decide_eq_true _]%andb_true_iff. split; [by apply active_live|]. apply idle_check; [done|by apply (to_rows t1 Ht1)]. }
  edestruct (routine_update (λ r, bool_decide (pr_state r = IDLE) && match idle_since r with Some since => older since now hard | None => false end)
    (set_closing now IDLE_TIMEOUT true) now t2 0) as (t3 & E3 & _); [done|done|lia| |rewrite E3; cbn [mbind res_bind snd fst]].
  { intros r Hr [Hs%bool_decide_eq_true _]%andb_true_iff. split; [apply row_live_not_closed; by rewrite Hs|].
    apply closing_check. by apply (to_rows t2 Ht2). }
  eauto.
Qed.

Lemma resume_served now ms input t :
  table_ok t → room 1 t → (∀ r, r ∈ t → presentable r) → routine (pc_resume now ms input) → served (pg_resume now ms input t).1.
Proof.
  intros Ht Hroom Hp ([u Hu] & Hcaps & Hnow & Hms). unfold pg_resume, committed. rewrite (uuid_param_run _ _ Hu). cbn [mbind res_bind].
  destruct (find_row u t) as [r|] eqn:Hr; [|by cbn; unfold protocol_codes; set_solver].
  case_bool_decide as Hc; [cbn; unfold protocol_codes; set_solver|].
  destruct (bool_decide_reflect (pr_state r = IDLE)) as [Hi|]; cbn [negb]; [|cbn; unfold protocol_codes; set_solver].
  destruct (negb _); [cbn; unfold protocol_codes; set_solver|]. destruct (find_row_id _ _ _ Hr) as [Hin _].
  assert (∀ x, x ∈ t → String.eqb (row_id x) u = true → x = r) as Hone.
  { intros x Hx Hid%String.eqb_eq. apply find_row_elem in Hx; [|by apply table_ids]. rewrite Hid, Hr in Hx. by injection Hx. }
  assert (row_check r = true) as Hck by by apply (to_rows t Ht).
  assert (match ri_expectedTokenId input with
          | Some tok => _ ← rowToSession r; check (token_binding r (Some tok) (ri_expectedTokenFingerprint input)) "SESSION_TOKEN_MISMATCH"
          | None => mret tt end ∈ [Ok tt; Throw "SESSION_TOKEN_MISMATCH"]) as Htok.
  { destruct (ri_expectedTokenId input); [|left]. rewrite presentable_session by (try apply (to_rows t Ht); auto). cbn. unfold check.
    destruct (token_binding _ _ _); [left|right; left]. }
  apply elem_of_cons in Htok as [->| ->%list_elem_of_singleton]; [|by cbn; unfold protocol_codes; set_solver].
  cbn [mbind res_bind]. rewrite Hnow. cbn [now_ms iso_of]. unfold json_param. rewrite Hcaps. cbn [check mbind res_bind mret res_ret].
  destruct (idle_over _ _ _).
  - rewrite time_param_run by done. cbn [mbind res_bind].
    destruct (routine_update (λ r', String.eqb (row_id r') u) (set_closing (ms * 1000) IDLE_TIMEOUT true) (ms * 1000) t 0) as (t' & E & _); [done|done|lia| |].
    { intros x Hx ->%Hone; [|done]. split; [apply row_live_not_closed; by rewrite Hi|by apply closing_check]. }
    rewrite E. cbn. unfold protocol_codes; set_solver.
  - assert (∀ est, ∃ w, update_where (λ r', String.eqb (row_id r') u)
        (set_row (mkSetList (Some ACTIVE) (Some (ri_negotiatedCapabilities input)) est (Some now) (Some now) (Some None) None None None None) now) t = Ok w
        ∧ served (first_session (Throw "TypeError") w.1)) as Hrun.
    { intros est. set (p := mkSetList _ _ _ _ _ _ _ _ _ _). destruct (routine_update (λ r', String.eqb (row_id r') u) p now t 0) as (t' & E & _); [done|exact Hroom|lia| |exists (set_row p now <$> filter (λ r', String.eqb (row_id r') u = true) t, t'); split; [exact E|]].
      { intros x Hx ->%Hone; [|done]. split; [apply row_live_not_closed; by rewrite Hi|by apply resume_check]. }
      destruct (split_row u (λ r', String.eqb (row_id r') u) id t r Ht (λ x Hx, proj1 (String.eqb_eq _ _) Hx) Hr) as (_ & _ & _ & _ & Hid & Ef & _).
      cbn [fst]. rewrite Ef, (proj2 (String.eqb_eq _ _) Hid). cbn [fmap list_fmap first_session].
      rewrite presented; [done|by apply (to_rows t Ht)|by apply Hp]. }
    destruct (established_at r); cbn [opt_param mbind res_bind mret res_ret];
      [|rewrite time_param_run by done; cbn [opt_param mbind res_bind mret res_ret]];
      (match goal with |- context [mkSetList _ _ ?est] => destruct (Hrun est) as (w & -> & Hw) end); exact Hw.
Qed.

(** The constraints of the table never get in the way: on a table that
    satisfies them, lookups, claims, authorizations, resumptions, the closes of
    a token or a principal and sweeps end with an answer or with a code of the
    store, never with an error of the database. *)
Theorem routine_calls_served later c t :
  table_ok t → (∀ r, r ∈ t → presentable r ∧ pr_revision r + 3 < 2 ^ 63) → routine c → served (pg_call later c t).1.
Proof.
  intros Ht Hall Hc. assert (∀ r, r ∈ t → presentable r) as Hp by (intros; by apply Hall).
  assert (room 3 t) as R3 by (intros r Hr; by apply Hall). assert (room 1 t) as R1 by (intros r Hr; specialize (R3 r Hr); lia).
  assert (∀ r, r ∈ t → row_check r = true) as Hck by (intros r Hr; by apply (to_rows t Ht)).
  assert (∀ {A W} (f : A → Answer) (x : res A * W), served x.1 → served (as_answer f x).1) as Has by (by intros A W f [[] ?]).
  destruct c as [| id | | now ms input | |now ms p|now ms id rev|now ms tok reason|now ms did reason|now ms created soft hard];
    cbn [pg_call]; try done; apply Has; clear Has.
  - destruct Hc as [u Hu]. unfold pg_get, select_row. rewrite (uuid_param_run _ _ Hu). cbn. destruct (find_row u t) as [r|] eqn:Hr; [|done].
    destruct (find_row_id _ _ _ Hr). rewrite presentable_session by (try apply (to_rows t Ht); auto). done.
  - by apply resume_served.
  - destruct Hc as ([u Hu] & Hx & Hy & Hz & Hw). unfold pg_claimForDispatch, committed.
    rewrite (uuid_param_run _ _ Hu), (text_param_run _ Hx), (text_param_run _ Hy), (opt_text_run _ Hz), (opt_text_run _ Hw). cbn [mbind res_bind].
    match goal with |- context [update_where ?sel (set_row ?p now) t] => destruct (routine_update sel p now t 0) as (t' & E & _) end; [done|exact R1|lia| |rewrite E; cbn; apply first_served; try done; by apply claim_diagnosis_served; exists u].
    intros r Hr [[[_ Hs%bool_decide_eq_true]%andb_true_iff _]%andb_true_iff _]%andb_true_iff. split; [by apply active_live|by apply seen_check, Hck].
  - destruct Hc as ([u Hu] & n & Hn). unfold pg_markAuthorized, committed. rewrite (uuid_param_run _ _ Hu), Hn. cbn [mbind res_bind].
    match goal with |- context [update_where ?sel (set_row ?p now) t] => destruct (routine_update sel p now t 0) as (t' & E & _) end; [done|exact R1|lia| |rewrite E; cbn; apply first_served; try done; by apply diagnose_served; exists u].
    intros r Hr [[_ Hs%bool_decide_eq_true]%andb_true_iff _]%andb_true_iff. split; [by apply active_live|by apply authorized_check, Hck].
  - unfold pg_closeByToken, committed. rewrite (text_param_run _ Hc). cbn [mbind res_bind].
    edestruct closing_served as (x & t' & ->); done.
  - unfold pg_closeByPrincipal, committed. rewrite (text_param_run _ Hc). cbn [mbind res_bind].
    edestruct closing_served as (x & t' & ->); done.
  - by destruct (clean_served now created soft hard t Ht R3) as (x & t' & ->).
Qed.

(** An idle session cannot be closed by hand: the manager's close leaves
    [idle_since], the constraint on idle rows refuses the row, and the caller
    gets an error of the database with the session still idle. *)
Theorem idle_close_refused later now ms id reason t r :
  table_ok t → uuid_in id = Some id → find_row id t = Some r → pr_state r = IDLE → presentable r → pr_revision r + 1 < 2 ^ 63 →
  iso_range ms → pg_close_session later now ms id reason t = (Throw "23514", t).
Proof.
  intros Ht Hu Hr Hi Hp Hrev Hms. destruct (find_row_id _ _ _ Hr) as [Hin Hid]. pose proof (to_rows t Ht r Hin) as Hok.
  unfold pg_close_session. rewrite (M_bind_run _ _ (Some (session_of_row r)) _ t).
  2:{ unfold pg_get, select_row. rewrite (uuid_param_run _ _ Hu). cbn. rewrite Hr. cbn. by rewrite presentable_session. }
  cbn [se_state session_of_row]. rewrite bool_decide_false by (by rewrite Hi). apply M_bind_run_throw. unfold pg_update, committed.
  rewrite (uuid_param_run _ _ Hu). unfold update_params. cbn [opt_param up_negotiatedCapabilities up_establishedAt up_lastSeenAt up_lastAuthorizedAt up_idleSince up_closedAt up_sessionKeyFingerprint up_rekeyCount up_state up_closeReason mret res_ret mbind res_bind]. rewrite time_param_run by done.
  cbn [mbind res_bind mret res_ret]. unfold update_where.
  match goal with |- context [update_where] => idtac | |- context [set_row ?p now] => set (sets := p) end.
  edestruct (split_row id (λ r0, String.eqb (row_id r0) id && negb (bool_decide (pr_state r0 = CLOSED))) (set_row sets now) t r Ht) as (pre & post & _ & _ & _ & Ef & _);
    [by intros x [Hx%String.eqb_eq _]%andb_true_iff|done|]. rewrite Ef, Hid, String.eqb_refl, bool_decide_false by (by rewrite Hi).
  cbn [negb andb fmap list_fmap]. unfold accept_rows. cbn [rows_error]. unfold row_error.
  assert (pr_revision (set_row sets now r) <? 2 ^ 63 = true) as -> by (apply Z.ltb_lt; cbn; lia). cbn [check mbind res_bind mret res_ret].
  assert (row_check (set_row sets now r) = false) as ->; [|done].
  pose proof (ro_check r Hok) as Hck. unfold row_check in Hck |- *. rewrite Hi in Hck. rewrite !andb_true_iff in Hck. destruct (idle_since r) eqn:Es.
  - cbn. rewrite Es. cbn. by rewrite !andb_false_r.
  - cbn in Hck. naive_solver.
Qed.
End refusals.

(** ** The store in memory *)

Definition with_key (k : string) (s : Session) : Session :=
  let i := identity s in
  mkSession (mkIdentity (sessionId i) (initiatorDid i) (responderDid i) (principalDid i) (capabilityTokenId i)
               (capabilityTokenFingerprint i) (encryptionState i) (supersedesSessionId i) k (createdAt i))
    (se_state s) (negotiatedCapabilities s) (sessionKeyFingerprint s) (rekeyCount s) (establishedAt s) (lastSeenAt s)
    (lastAuthorizedAt s) (idleSince s) (closedAt s) (closeReason s) (updatedAt s) (revision s).

(** The entry of a row, with the key of the pair that the store in memory
    computes. *)
Definition seen_row (r : PgRow) : Session :=
  with_key (pair_key (initiator_did (pr_identity r)) (responder_did (pr_identity r))) (session_of_row r).
Definition mem (t : SessionTable) : list (string * Session) := (λ r, (row_id r, seen_row r)) <$> t.

(** Answers up to the key of the pair. *)
Definition erase_answer (r : res Answer) : res Answer :=
  match r with
  | Ok (A_session s) => Ok (A_session (with_key "" s))
  | Ok (A_found o) => Ok (A_found (with_key "" <$> o))
  | _ => r
  end.

Definition mem_call (c : PgCall) (m : SessionMap) : res Answer * SessionMap :=
  match c with
  | pc_create _ t input => as_answer A_session (store_create t input m)
  | pc_get id => as_answer A_found (store_get id m)
  | pc_update _ t id p => as_answer A_session (store_update t id p m)
  | pc_resume _ t input => as_answer A_session (store_resume t input m)
  | pc_supersede _ t old fb input given => as_answer A_session (supersedeAndCreate t old fb input given m)
  | pc_claim _ t p => as_answer A_session (claimForDispatch t p m)
  | pc_authorize _ t id rev => as_answer A_session (store_markAuthorized t id rev None m)
  | pc_closeByToken _ t tok reason => as_answer A_ids (store_closeByToken t tok reason None m)
  | pc_closeByPrincipal _ t did reason => as_answer A_ids (store_closeByPrincipal t did reason None m)
  | pc_clean _ t created soft hard => as_answer A_clean (cleanExpired t created soft hard None m)
  end.

(** The columns as the texts of a patch. *)
Definition patch_text (p : SetList) : SessionUpdatePatch :=
  mkPatch (set_state p) (set_capabilities p) (column_iso <$> set_established p) (column_iso <$> set_seen p)
    (column_iso <$> set_authorized p) ((λ o : option Z, column_iso <$> o) <$> set_idle p) (column_iso <$> set_closed p) (set_reason p)
    (set_fingerprint p) (set_rekey p).

Definition iso_text (o : option string) : Prop := ∀ s, o = Some s → ∃ ms, s = toISOString ms ∧ iso_range ms.

(** Calls that both stores understand alike: one clock, in whole milliseconds,
    canonical ids and timestamps, and no time of the caller's own. *)
Definition one_clock (now t : Z) : Prop := now = t * 1000 ∧ iso_range t.
Definition canonical `{PgInput} (c : PgCall) : Prop :=
  match c with
  | pc_create now t input =>
      one_clock now t ∧ uuid_in (ci_sessionId input) = Some (ci_sessionId input)
      ∧ ∀ s, ci_supersedesSessionId input = Some s → uuid_in s = Some s
  | pc_get id => uuid_in id = Some id
  | pc_update now t id p =>
      one_clock now t ∧ uuid_in id = Some id ∧ iso_text (up_establishedAt p) ∧ iso_text (up_lastSeenAt p)
      ∧ iso_text (up_lastAuthorizedAt p) ∧ (∀ o, up_idleSince p = Some o → iso_text o) ∧ iso_text (up_closedAt p)
  | pc_resume now t input => one_clock now t ∧ uuid_in (ri_sessionId input) = Some (ri_sessionId input) ∧ ri_now input = None
  | pc_supersede now t old _ input given =>
      one_clock now t ∧ uuid_in old = Some old ∧ uuid_in (ci_sessionId input) = Some (ci_sessionId input) ∧ ci_sessionId input ≠ old
      ∧ encryption_input input = Ok tt ∧ given = None
  | pc_claim now t p => one_clock now t ∧ uuid_in (cl_sessionId p) = Some (cl_sessionId p) ∧ cl_now p = None
  | pc_authorize now t id rev => one_clock now t ∧ uuid_in id = Some id ∧ ∃ n, 0 <= n < 2 ^ 63 ∧ rev = print_decimal n
  | pc_closeByToken now t _ _ | pc_closeByPrincipal now t _ _ | pc_clean now t _ _ _ => one_clock now t
  end.

(** The columns that are compared with the clock. *)
Definition instants (r : PgRow) : Prop :=
  clock_instant (pr_created_at (pr_identity r)) ∧ clock_instant (last_authorized_at r)
  ∧ ∀ x, idle_since r = Some x → clock_instant x.

(** An error that is not one of the store's own. *)
Definition db_only {A} (m : res A) : Prop := ∀ c, m = Throw c → c ∉ protocol_codes.

Create HintDb pg.

Section simulation.
Context `{PgTimeLaws} `{PgInputLaws}.

Lemma db_bind {A B} (m : res A) (f : A → res B) : db_only m → (∀ a, m = Ok a → db_only (f a)) → db_only (m ≫= f).
Proof. intros Hm Hf c. destruct m as [a|d]; cbn; [by apply Hf|intros [= ->]; by apply Hm]. Qed.
Lemma db_ok {A} (a : A) : db_only (Ok a).
Proof. by intros c. Qed.
Lemma db_throw {A} c : bool_decide (c ∈ protocol_codes) = false → db_only (@Throw A c).
Proof. intros Hc d [= <-]. by apply bool_decide_eq_false in Hc. Qed.
Lemma unserved {A} c : bool_decide (c ∈ protocol_codes) = false → ¬ served (@Throw A c).
Proof. intros Hc Hs. by apply bool_decide_eq_false in Hc. Qed.
Lemma db_check b c : bool_decide (c ∈ protocol_codes) = false → db_only (check b c).
Proof. destruct b; [by intros _ d|apply db_throw]. Qed.
Lemma db_uuid s : db_only (uuid_param s).
Proof. unfold uuid_param. destruct (uuid_in s); [apply db_ok|by apply db_throw]. Qed.
Lemma db_text s : db_only (text_param s).
Proof. apply db_bind; [by apply db_check|intros; apply db_ok]. Qed.
Lemma db_json l : db_only (json_param l).
Proof. apply db_bind; [by apply db_check|intros; apply db_ok]. Qed.
Lemma db_int n : db_only (int_param n).
Proof. apply db_bind; [by apply db_check|intros; apply db_ok]. Qed.
Lemma db_time s : db_only (timestamptz s).
Proof. unfold timestamptz. destruct (pg_timestamptz s); [apply db_ok|by apply db_throw]. Qed.
Lemma db_opt {A B} (f : A → res B) o : (∀ a, db_only (f a)) → db_only (opt_param f o).
Proof. intros Hf. destruct o; [|apply db_ok]. apply db_bind; [apply Hf|intros; apply db_ok]. Qed.
Lemma db_bigint s : db_only (bigint_in s).
Proof. intros c [->| ->]%bigint_in_error; by apply (bool_decide_eq_false_1 _). Qed.
Lemma db_rows l : db_only (rows_error l).
Proof.
  induction l as [|r l IH]; [apply db_ok|]. apply db_bind; [|by intros].
  apply db_bind; [by apply db_check|intros; by apply db_check].
Qed.
Lemma db_accept w t : db_only (accept_rows w t).
Proof. apply db_bind; [apply db_rows|intros; by apply db_check]. Qed.
Lemma db_update sel f t : db_only (update_where sel f t).
Proof. apply db_bind; [apply db_accept|intros; apply db_ok]. Qed.
Hint Resolve db_ok db_uuid db_text db_json db_int db_time db_opt db_bigint db_accept db_update : pg.

Lemma db_params p : db_only (update_params p).
Proof. unfold update_params. repeat (apply db_bind; [auto 6 with pg|intros ? _]). apply db_ok. Qed.
Lemma db_insert now input t : db_only (insert_session now input t).
Proof. unfold insert_session. repeat (apply db_bind; [auto 6 with pg|intros ? _]). apply db_ok. Qed.
Lemma db_commit q : db_only q → db_only (commit_insert q).
Proof. intros Hq. apply db_bind; [done|]. intros a _. apply db_bind; [by apply db_check|intros; apply db_ok]. Qed.
Hint Resolve db_params db_insert db_commit : pg.

(** A call that is served did not stop at an error of the database. *)
Lemma served_committed {A} (q : SessionTable → res (res A * SessionTable)) t r t' :
  committed q t = (r, t') → served r → db_only (q t) → q t = Ok (r, t').
Proof. intros [|(c & E & -> & ->)]%committed_inv Hs Hdb; [done|]. by apply Hdb in E. Qed.

(** *** The table as a map *)

Lemma seen_set p now r : 1 <= pr_revision r →
  seen_row (set_row p now r) = patched (seen_row r) (patch_text p) (column_iso now) (next_rev (revision (seen_row r))).
Proof.
  intros Hr. assert (next_rev (revision (seen_row r)) = print_decimal (pr_revision r + 1)) as ->.
  { unfold next_rev. by destruct (bump_rev (revision (seen_row r)) (pr_revision r)) as [-> _]. }
  unfold seen_row, with_key, patched, patch_text, session_of_row, set_row, from_option; cbn -[column_iso]. f_equal;
    match goal with |- context [?f p] => by destruct (f p) | _ => done end.
Qed.

Lemma mem_get id t : map_get id (mem t) = seen_row <$> find_row id t.
Proof. induction t as [|r t IH]; [done|]. cbn [mem fmap list_fmap map_get]. rewrite find_row_cons. by destruct (String.eqb _ _). Qed.

Lemma mem_keys t : (mem t).*1 = row_id <$> t.
Proof. unfold mem. by rewrite <- list_fmap_compose. Qed.

Lemma mem_app t1 t2 : mem (t1 ++ t2) = mem t1 ++ mem t2.
Proof. apply fmap_app. Qed.

Lemma mem_good t : table_ok t → good (mem t).
Proof.
  intros Ht. split; [rewrite mem_keys; by apply table_ids|]. intros id s. rewrite mem_get. intros (r & Hr & ->)%fmap_Some.
  destruct (find_row_id _ _ _ Hr) as [Hin Hid]. split; [done|]. exists (pr_revision r). split; [|done]. by apply (to_rows t Ht).
Qed.

Lemma mem_fetch id t : fetch id (mem t) = (match find_row id t with Some r => Ok (seen_row r) | None => Throw "SESSION_NOT_FOUND" end, mem t).
Proof. unfold fetch. rewrite mem_get. by destruct (find_row id t). Qed.

(** A write of one row. *)
Lemma mem_set u t pre post r r' :
  t = pre ++ r :: post → u ∉ row_id <$> pre → row_id r = u → row_id r' = u → map_set u (seen_row r') (mem t) = mem (pre ++ r' :: post).
Proof.
  intros -> Hn Hr Hr'. rewrite !mem_app. cbn [mem fmap list_fmap]. rewrite Hr, Hr'. apply map_set_split. by rewrite mem_keys.
Qed.

Lemma mem_write u t pre post r p now :
  table_ok t → find_row u t = Some r → t = pre ++ r :: post → u ∉ row_id <$> pre → row_id r = u →
  write_row u (seen_row r) (patch_text p) (column_iso now) (mem t)
  = (Ok (seen_row (set_row p now r)), mem (pre ++ set_row p now r :: post)).
Proof.
  intros Ht Hr Et Hn Hid. rewrite write_row_run; [|by apply mem_good|by rewrite mem_get, Hr].
  destruct (find_row_id _ _ _ Hr) as [Hin _]. cbv zeta. rewrite <- seen_set by (by apply (to_rows t Ht)). by erewrite mem_set.
Qed.

Lemma mem_close u t pre post r reason now :
  table_ok t → find_row u t = Some r → t = pre ++ r :: post → u ∉ row_id <$> pre → row_id r = u →
  store_close_row u (seen_row r) (column_iso now) reason true (mem t)
  = (Ok tt, mem (pre ++ set_row (set_closing now reason true) now r :: post)).
Proof.
  intros Ht Hr Et Hn Hid. rewrite close_row_run; [|by apply mem_good|by rewrite mem_get, Hr].
  destruct (find_row_id _ _ _ Hr) as [Hin _]. unfold closed_row.
  rewrite <- (seen_set (set_closing now reason true)) by (by apply (to_rows t Ht)). by erewrite mem_set.
Qed.

Lemma db_row r : db_only (rowToSession r).
Proof. unfold rowToSession, to_str. repeat (apply db_bind; [apply db_bind; [by apply db_check|intros; apply db_ok]|intros ? _]). apply db_ok. Qed.

Lemma row_session r s : rowToSession r = s → served s → s = Ok (session_of_row r).
Proof. intros <-. destruct (rowToSession r) as [s|c] eqn:E; [by apply rowToSession_ok in E as ->|by intros ?%(db_row r c E)]. Qed.
End simulation.
#[export] Hint Resolve db_ok db_uuid db_text db_json db_int db_time db_opt db_bigint db_accept db_update db_params db_insert db_commit : pg.

(** *** Calls on one row *)

(** Sessions up to the key of the pair, and the same rows. *)
Definition alike (x : res Session * SessionTable) (y : res Session * SessionMap) : Prop :=
  y.2 = mem x.2 ∧ match x.1, y.1 with
                  | Ok s, Ok s' => with_key "" s = with_key "" s'
                  | Throw c, Throw d => c = d
                  | _, _ => False
                  end.

Ltac peel E := repeat match type of E with _ ≫= _ = Ok _ => apply res_bind_ok in E as (? & ? & E) end.
Ltac db := repeat (apply db_bind; [auto 6 with pg|intros ? _]); try apply db_ok.

(** The tests of a row by the one store and the other. *)
Ltac same_tests :=
  cbv zeta;
  repeat match goal with
         | |- (if ?b then _ else _) ?m = (if ?b' then _ else _) => change b with b'; destruct b'; [reflexivity|]
         end.

Section one_row.
Context `{PgTimeLaws} `{PgInputLaws}.

Lemma mem_bind {A} id (f : Session → M SessionMap A) t :
  (fetch id ≫= f) (mem t) = match find_row id t with Some r => f (seen_row r) (mem t) | None => (Throw "SESSION_NOT_FOUND", mem t) end.
Proof. unfold mbind, M_bind. rewrite mem_fetch. by destruct (find_row id t). Qed.

Lemma column_whole ms : column_iso (ms * 1000) = toISOString ms.
Proof. unfold column_iso. by rewrite Z.div_mul. Qed.

(** What a statement on one id answers, against the store in memory. *)
Lemma alike_written u t r sets now reason w m :
  table_ok t → find_row u t = Some r →
  ∀ pre post, t = pre ++ r :: post → u ∉ row_id <$> pre → row_id r = u → w = [set_row sets now r] →
  served (first_session reason w) → m = write_row u (seen_row r) (patch_text sets) (column_iso now) (mem t) →
  alike (first_session reason w, pre ++ set_row sets now r :: post) m.
Proof.
  intros Ht Hr pre post Et Hn Hid -> Hs ->. rewrite (mem_write u t pre post r sets now Ht Hr Et Hn Hid).
  cbn [first_session] in Hs |- *. split; [done|]. cbn [fst]. by rewrite (row_session _ _ eq_refl Hs).
Qed.

Lemma mem_claim t ms p :
  cl_now p = None →
  claimForDispatch ms p (mem t) =
  match find_row (cl_sessionId p) t with
  | None => (Throw "SESSION_NOT_FOUND", mem t)
  | Some r =>
      if bool_decide (pr_state r = CLOSED) then (Throw "SESSION_CLOSED", mem t)
      else if negb (bool_decide (pr_state r = ACTIVE)) then (Throw "SESSION_STATE_INVALID", mem t)
      else if negb (same_parties (pr_identity r) (cl_senderDid p) (cl_selfDid p)) then (Throw "SESSION_DID_MISMATCH", mem t)
      else if negb (token_binding r (cl_expectedTokenId p) (cl_expectedTokenFingerprint p)) then (Throw "SESSION_TOKEN_MISMATCH", mem t)
      else write_row (cl_sessionId p) (seen_row r)
             (patch_text (mkSetList None None None (Some (ms * 1000)) None None None None None None)) (column_iso (ms * 1000)) (mem t)
  end.
Proof.
  intros Hn. unfold claimForDispatch. rewrite mem_bind. destruct (find_row _ t) as [r|]; [|done]. rewrite Hn, column_whole. same_tests.
  unfold patch_text. cbn [set_seen fmap option_fmap option_map]. by rewrite column_whole.
Qed.

Lemma alike_throw c t : alike (Throw c, t) (Throw c, mem t).
Proof. done. Qed.

Lemma active_not_closed r : bool_decide (pr_state r = ACTIVE) = true → bool_decide (pr_state r = CLOSED) = false.
Proof. intros Ha%bool_decide_eq_true. apply bool_decide_eq_false. by rewrite Ha. Qed.

Lemma sim_claim now ms p t r t' :
  table_ok t → canonical (pc_claim now ms p) → pg_claimForDispatch t now p t = (r, t') → served r →
  alike (r, t') (claimForDispatch ms p (mem t)).
Proof.
  intros Ht ([-> Hms] & Hu & Hn) E Hs. unfold pg_claimForDispatch in E. apply served_committed in E; [|done|db]. cbv beta in E.
  apply res_bind_ok in E as (u & Hu'%uuid_param_ok & (? & ->%text_param_ok & (? & ->%text_param_ok & (? & ->%opt_text_ok & (? & ->%opt_text_ok &
    ([written x] & Hw & [= <- <-])%res_bind_ok)%res_bind_ok)%res_bind_ok)%res_bind_ok)%res_bind_ok).
  rewrite Hu in Hu'. injection Hu' as <-. rewrite mem_claim by done. cbn [fst snd] in *.
  apply (update_one_row (cl_sessionId p)) in Hw as [(y & pre & post & Hr & Hsel & -> & Et & -> & Hnp & Hid)|(-> & -> & Hnone)];
    [| |done|by intros y [[[?%String.eqb_eq _]%andb_true_iff _]%andb_true_iff _]%andb_true_iff].
  - rewrite Hr. apply andb_true_iff in Hsel as [[[_ Ha]%andb_true_iff Hb]%andb_true_iff Hc].
    rewrite (active_not_closed y Ha), Ha, Hb, Hc. by eapply alike_written.
  - cbn [first_session] in *. unfold claim_diagnosis, select_row. rewrite (uuid_param_run _ _ Hu). cbn [mbind res_bind mret res_ret].
    destruct (find_row (cl_sessionId p) t) as [y|] eqn:Hy; [|apply alike_throw]. specialize (Hnone y eq_refl).
    rewrite (proj2 (find_row_id _ _ _ Hy)), String.eqb_refl in Hnone.
    destruct (bool_decide (pr_state y = CLOSED)); [apply alike_throw|]. destruct (bool_decide (pr_state y = ACTIVE)); [|apply alike_throw].
    destruct (same_parties _ _ _); [|apply alike_throw]. cbn in Hnone. rewrite Hnone. apply alike_throw.
Qed.

(** *** Authorizations *)

Lemma mem_mark t ms id rev :
  store_markAuthorized ms id rev None (mem t) =
  match find_row id t with
  | None => (Throw "SESSION_NOT_FOUND", mem t)
  | Some r =>
      if bool_decide (pr_state r = CLOSED) then (Throw "SESSION_CLOSED", mem t)
      else if negb (bool_decide (pr_state r = ACTIVE)) then (Throw "SESSION_STATE_INVALID", mem t)
      else if negb (String.eqb (print_decimal (pr_revision r)) rev) then (Throw "SESSION_STATE_INVALID", mem t)
      else write_row id (seen_row r)
             (patch_text (mkSetList None None None None (Some (ms * 1000)) None None None None None)) (column_iso (ms * 1000)) (mem t)
  end.
Proof.
  unfold store_markAuthorized. rewrite mem_bind. destruct (find_row _ t) as [r|]; [|done]. rewrite column_whole. same_tests.
  unfold patch_text. cbn [set_authorized fmap option_fmap option_map]. by rewrite column_whole.
Qed.

Lemma same_revision r n : row_ok r → 0 <= n → String.eqb (print_decimal (pr_revision r)) (print_decimal n) = (pr_revision r =? n).
Proof.
  intros Hr Hn. destruct (Z.eqb_spec (pr_revision r) n) as [->|Hne]; [apply String.eqb_refl|]. apply String.eqb_neq. intros E.
  apply (f_equal parseInt) in E. rewrite !parseInt_print in E by (try done; destruct (ro_revision r Hr); lia). by injection E.
Qed.

Lemma sim_mark now ms id rev t r t' :
  table_ok t → canonical (pc_authorize now ms id rev) → pg_markAuthorized t now id rev t = (r, t') → served r →
  alike (r, t') (store_markAuthorized ms id rev None (mem t)).
Proof.
  intros Ht ([-> Hms] & Hu & n & Hn & ->) E Hs. unfold pg_markAuthorized in E. apply served_committed in E; [|done|db]. cbv beta in E.
  apply res_bind_ok in E as (u & Hu'%uuid_param_ok & (v & Hv & ([written x] & Hw & [= <- <-])%res_bind_ok)%res_bind_ok).
  rewrite Hu in Hu'. injection Hu' as <-. rewrite bigint_in_out in Hv by done. injection Hv as <-. rewrite mem_mark. cbn [fst snd] in *.
  apply (update_one_row id) in Hw as [(y & pre & post & Hr & Hsel & -> & Et & -> & Hnp & Hid)|(-> & -> & Hnone)];
    [| |done|by intros y [[?%String.eqb_eq _]%andb_true_iff _]%andb_true_iff].
  - rewrite Hr. apply andb_true_iff in Hsel as [[_ Ha]%andb_true_iff Hb].
    rewrite (active_not_closed y Ha), Ha, same_revision, Hb by (try lia; apply (to_rows t Ht), (find_row_id _ _ _ Hr)). by eapply alike_written.
  - cbn [first_session] in *. unfold diagnoseNotFound, select_row. rewrite (uuid_param_run _ _ Hu). cbn [mbind res_bind mret res_ret].
    destruct (find_row id t) as [y|] eqn:Hy; [|apply alike_throw]. specialize (Hnone y eq_refl). destruct (find_row_id _ _ _ Hy) as [Hin Hid].
    rewrite Hid, String.eqb_refl in Hnone. rewrite same_revision by (try lia; by apply (to_rows t Ht)).
    destruct (bool_decide (pr_state y = CLOSED)); [apply alike_throw|]. destruct (bool_decide (pr_state y = ACTIVE)); [|apply alike_throw].
    cbn in Hnone. rewrite Hnone. apply alike_throw.
Qed.

(** *** Updates *)

Lemma time_back o x : iso_text o → opt_param timestamptz o = Ok x → column_iso <$> x = o.
Proof.
  intros Ho. destruct o as [s|]; [|by intros [= <-]]. destruct (Ho s eq_refl) as (ms & -> & Hr). cbn [opt_param].
  rewrite time_param_run by done. intros [= <-]. cbn [fmap option_fmap option_map]. by rewrite column_whole.
Qed.
Lemma json_back o x : opt_param json_param o = Ok x → x = o.
Proof. destruct o as [s|]; [|by intros [= <-]]. by intros (y & ([] & _ & [= <-])%res_bind_ok & [= <-])%res_bind_ok. Qed.
Lemma int_back o x : opt_param int_param o = Ok x → x = o.
Proof. destruct o as [s|]; [|by intros [= <-]]. by intros (y & ([] & _ & [= <-])%res_bind_ok & [= <-])%res_bind_ok. Qed.

Lemma params_back p sets :
  iso_text (up_establishedAt p) → iso_text (up_lastSeenAt p) → iso_text (up_lastAuthorizedAt p) →
  (∀ o, up_idleSince p = Some o → iso_text o) → iso_text (up_closedAt p) → update_params p = Ok sets → patch_text sets = p.
Proof.
  intros Ha Hb Hc Hd He E. unfold update_params in E.
  apply res_bind_ok in E as (caps & ->%json_back & (x1 & E1%time_back & (x2 & E2%time_back & (x3 & E3%time_back & (x4 & E4 & (x5 & E5%time_back &
    (x6 & E6 & (x7 & ->%int_back & [= <-])%res_bind_ok)%res_bind_ok)%res_bind_ok)%res_bind_ok)%res_bind_ok)%res_bind_ok)%res_bind_ok); try done.
  assert ((λ o : option Z, column_iso <$> o) <$> x4 = up_idleSince p) as E4'.
  { destruct (up_idleSince p) as [o|]; cbn in E4; [|by injection E4 as <-].
    apply res_bind_ok in E4 as (y & Ey%time_back & [= <-]); [|by apply Hd]. cbn. by rewrite Ey. }
  assert (x6 = up_sessionKeyFingerprint p) as ->.
  { destruct (up_sessionKeyFingerprint p) as [o|]; cbn in E6; [|by injection E6]. by apply res_bind_ok in E6 as (y & ->%opt_text_ok & [= <-]). }
  unfold patch_text. cbn [set_state set_capabilities set_established set_seen set_authorized set_idle set_closed set_reason set_fingerprint set_rekey].
  rewrite E1, E2, E3, E4', E5. by destruct p.
Qed.

Lemma mem_update t ms id p :
  store_update ms id p (mem t) =
  match find_row id t with
  | None => (Throw "SESSION_NOT_FOUND", mem t)
  | Some r => if bool_decide (pr_state r = CLOSED) then (Throw "SESSION_CLOSED", mem t)
              else write_row id (seen_row r) p (column_iso (ms * 1000)) (mem t)
  end.
Proof. unfold store_update. rewrite mem_bind. destruct (find_row _ t) as [r|]; [|done]. rewrite column_whole. by same_tests. Qed.

Lemma sim_update now ms id p t r t' :
  table_ok t → canonical (pc_update now ms id p) → pg_update t now id p t = (r, t') → served r →
  alike (r, t') (store_update ms id p (mem t)).
Proof.
  intros Ht ([-> Hms] & Hu & Ha & Hb & Hc & Hd & He) E Hs. unfold pg_update in E. apply served_committed in E; [|done|db]. cbv beta in E.
  apply res_bind_ok in E as (u & Hu'%uuid_param_ok & (sets & Hp%params_back & ([written x] & Hw & [= <- <-])%res_bind_ok)%res_bind_ok); try done.
  rewrite Hu in Hu'. injection Hu' as <-. rewrite mem_update, <- Hp. cbn [fst snd] in *.
  apply (update_one_row id) in Hw as [(y & pre & post & Hr & Hsel & -> & Et & -> & Hnp & Hid)|(-> & -> & Hnone)];
    [| |done|by intros y [?%String.eqb_eq _]%andb_true_iff].
  - rewrite Hr. apply andb_true_iff in Hsel as [_ Hx%negb_true_iff]. rewrite Hx. by eapply alike_written.
  - cbn [first_session] in *. unfold diagnoseNotFound, select_row. rewrite (uuid_param_run _ _ Hu). cbn [mbind res_bind mret res_ret].
    destruct (find_row id t) as [y|] eqn:Hy; [|apply alike_throw]. specialize (Hnone y eq_refl). destruct (find_row_id _ _ _ Hy) as [Hin Hid].
    rewrite Hid, String.eqb_refl in Hnone. destruct (bool_decide (pr_state y = CLOSED)); [apply alike_throw|done].
Qed.
End one_row.

(** *** Resumption *)

Section creation.
Context `{PgTimeLaws} `{PgInputLaws}.

Lemma elapsed_column ms x limit : clock_instant x →
  non_empty (column_iso x) = true ∧ elapsed_over (Some ms) (column_iso x) limit = (limit <? ms - x / 1000).
Proof.
  intros Hx. split; [by apply column_iso_back|]. destruct Hx as (k & -> & Hk). rewrite column_whole, Z.div_mul by done.
  unfold elapsed_over. by rewrite iso_print_parse.
Qed.

Lemma older_whole x ms limit : clock_instant x → older x (ms * 1000) limit = (limit <? ms - x / 1000).
Proof. intros (k & -> & _). rewrite Z.div_mul by done. unfold older. destruct (Z.ltb_spec (k * 1000) (ms * 1000 - limit * 1000)), (Z.ltb_spec limit (ms - k)); lia. Qed.

(** The token test of resumption in memory takes an absent fingerprint for a
    mismatch; rows with a token have a fingerprint. *)
Lemma resume_token r o want : row_check r = true →
  match o with
  | Some tok => negb (bool_decide (capability_token_id (pr_identity r) = Some tok) && same_fingerprint (capability_token_fingerprint (pr_identity r)) want)
  | None => false
  end = match o with Some tok => negb (token_binding r (Some tok) want) | None => false end.
Proof.
  intros Hck. destruct o as [tok|]; [|done]. f_equal. unfold token_binding. case_bool_decide as Ht; [cbn|done].
  unfold row_check in Hck. rewrite Ht in Hck. destruct (capability_token_fingerprint (pr_identity r)) as [fp|]; [|exfalso; revert Hck; cbn; rewrite !andb_true_iff; naive_solver].
  unfold same_fingerprint. destruct want as [w|]; [|by rewrite bool_decide_false].
  destruct (String.eqb_spec fp w) as [->|Hne]; [by rewrite bool_decide_true|by rewrite bool_decide_false by congruence].
Qed.

Definition resume_sets (ms : Z) (input : SessionResumeInput) (est : option Z) : SetList :=
  mkSetList (Some ACTIVE) (Some (ri_negotiatedCapabilities input)) est (Some (ms * 1000)) (Some (ms * 1000)) (Some None) None None None None.

Lemma mem_resume t ms input :
  ri_now input = None → (∀ r, r ∈ t → row_check r = true ∧ instants r) →
  store_resume ms input (mem t) =
  match find_row (ri_sessionId input) t with
  | None => (Throw "SESSION_NOT_FOUND", mem t)
  | Some r =>
      if bool_decide (pr_state r = CLOSED) then (Throw "SESSION_CLOSED", mem t)
      else if negb (bool_decide (pr_state r = IDLE)) then (Throw "SESSION_STATE_INVALID", mem t)
      else if negb (String.eqb (initiator_did (pr_identity r)) (expectedInitiatorDid input)
                    && String.eqb (responder_did (pr_identity r)) (expectedResponderDid input)) then (Throw "SESSION_DID_MISMATCH", mem t)
      else if match ri_expectedTokenId input with
              | Some tok => negb (token_binding r (Some tok) (ri_expectedTokenFingerprint input))
              | None => false
              end then (Throw "SESSION_TOKEN_MISMATCH", mem t)
      else if idle_over (Some ms) r (idleHardMs input)
      then (_ ← store_close_row (ri_sessionId input) (seen_row r) (column_iso (ms * 1000)) IDLE_TIMEOUT true; throw "SESSION_IDLE_EXPIRED") (mem t)
      else write_row (ri_sessionId input) (seen_row r)
             (patch_text (resume_sets ms input (Some (default (ms * 1000) (established_at r))))) (column_iso (ms * 1000)) (mem t)
  end.
Proof.
  intros Hn Hall. unfold store_resume. rewrite mem_bind. destruct (find_row _ t) as [r|] eqn:Hr; [|done]. rewrite Hn, column_whole.
  destruct (Hall r (proj1 (find_row_id _ _ _ Hr))) as [Hck (_ & _ & Hidle)]. rewrite <- (resume_token r _ _ Hck). cbn [now_ms iso_of].
  assert (idle_over (Some ms) r (idleHardMs input) =
    match idleSince (seen_row r) with Some since => non_empty since && elapsed_over (Some ms) since (idleHardMs input) | None => false end) as ->.
  { unfold idle_over. cbn [seen_row with_key session_of_row idleSince]. destruct (idle_since r) as [x|]; [|done]. cbn [fmap option_fmap option_map].
    by destruct (elapsed_column ms x (idleHardMs input) (Hidle x eq_refl)) as [-> ->]. }
  same_tests. unfold patch_text, resume_sets. cbn [set_state set_capabilities set_established set_seen set_authorized set_idle set_closed set_reason set_fingerprint set_rekey fmap option_fmap option_map].
  cbn [seen_row with_key session_of_row establishedAt]. destruct (established_at r); cbn [fmap option_fmap option_map default from_option]; rewrite ?column_whole; done.
Qed.

Lemma resume_sets_row ms input r now est :
  est = match established_at r with None => Some (ms * 1000) | Some _ => None end →
  set_row (resume_sets ms input est) now r = set_row (resume_sets ms input (Some (default (ms * 1000) (established_at r)))) now r.
Proof. intros ->. unfold set_row. by destruct (established_at r) eqn:E; cbn. Qed.

Lemma sim_resume now ms input t r t' :
  table_ok t → (∀ r, r ∈ t → instants r) → canonical (pc_resume now ms input) → pg_resume now ms input t = (r, t') → served r →
  alike (r, t') (store_resume ms input (mem t)).
Proof.
  intros Ht Hin ([-> Hms] & Hu & Hn) E Hs. rewrite mem_resume; [|done|intros y Hy; split; [by apply (to_rows t Ht)|by apply Hin]].
  unfold pg_resume, committed in E. rewrite (uuid_param_run _ _ Hu), Hn in E. cbn [mbind res_bind now_ms iso_of] in E.
  destruct (find_row (ri_sessionId input) t) as [y|] eqn:Hy; [|injection E as <- <-; apply alike_throw].
  destruct (bool_decide (pr_state y = CLOSED)); [injection E as <- <-; apply alike_throw|].
  destruct (negb (bool_decide (pr_state y = IDLE))); [injection E as <- <-; apply alike_throw|].
  destruct (negb (_ && _)); [injection E as <- <-; apply alike_throw|].
  destruct (match ri_expectedTokenId input with
            | Some tok => _ ← rowToSession y; check (token_binding y (Some tok) (ri_expectedTokenFingerprint input)) "SESSION_TOKEN_MISMATCH"
            | None => mret tt end) as [[]|c] eqn:Etok.
  2:{ injection E as <- <-. destruct (ri_expectedTokenId input) as [tok|]; [|done]. destruct (rowToSession y) as [s|d] eqn:Ey; cbn in Etok.
      - unfold check in Etok. destruct (token_binding _ _ _); [done|]. injection Etok as <-. apply alike_throw.
      - injection Etok as ->. by apply (db_row y) in Ey. }
  assert (match ri_expectedTokenId input with Some tok => negb (token_binding y (Some tok) (ri_expectedTokenFingerprint input)) | None => false end = false) as ->.
  { destruct (ri_expectedTokenId input) as [tok|]; [|done]. apply res_bind_ok in Etok as (s & _ & ->%check_ok). done. }
  cbn [mbind res_bind] in E. destruct (idle_over (Some ms) y (idleHardMs input)).
  - rewrite time_param_run in E by done. cbn [mbind res_bind] in E.
    destruct (update_where _ _ t) as [[w x]|c] eqn:Ew; cbn [mbind res_bind mret res_ret snd fst] in E; [|injection E as <- <-; by apply db_update in Ew].
    injection E as <- <-. apply (update_one_row (ri_sessionId input)) in Ew as [(z & pre & post & Hr & _ & _ & Et & -> & Hnp & Hid)|(_ & _ & Hnone)];
      [| |done|by intros z ?%String.eqb_eq].
    + rewrite Hy in Hr. injection Hr as <-. rewrite (M_bind_run _ _ _ _ _ (mem_close _ t pre post y IDLE_TIMEOUT _ Ht Hy Et Hnp Hid)). done.
    + specialize (Hnone y Hy). by rewrite (proj2 (find_row_id _ _ _ Hy)), String.eqb_refl in Hnone.
  - assert (∃ est, est = match established_at y with None => Some (ms * 1000) | Some _ => None end ∧
      (caps ← json_param (ri_negotiatedCapabilities input); w ← update_where (λ r', String.eqb (row_id r') (ri_sessionId input)) (set_row (resume_sets ms input est) (ms * 1000)) t;
       mret (first_session (Throw "TypeError") w.1, w.2)) = Ok (r, t')) as (est & Hest & Eq).
    { destruct (established_at y); cbn [mbind res_bind mret res_ret opt_param] in E; eexists; (split; [done|]);
        unfold json_param in E |- *; destruct (forallb no_nul _); cbn [check mbind res_bind mret res_ret] in E |- *;
        try rewrite time_param_run in E by done; cbn [mbind res_bind mret res_ret] in E; try (injection E as <- <-; by apply (unserved "22P05" eq_refl) in Hs);
        unfold resume_sets; (destruct (update_where _ _ t) as [[w x]|c] eqn:Ew; cbn [mbind res_bind mret res_ret] in E |- *; [by injection E as <- <-|injection E as <- <-; by apply db_update in Ew]). }
    apply res_bind_ok in Eq as (? & _ & ([w x] & Ew & [= <- <-])%res_bind_ok). cbn [fst snd] in *.
    apply (update_one_row (ri_sessionId input)) in Ew as [(z & pre & post & Hr & _ & -> & Et & -> & Hnp & Hid)|(_ & _ & Hnone)]; [| |done|by intros z ?%String.eqb_eq].
    + rewrite Hy in Hr. injection Hr as <-. rewrite (resume_sets_row ms input y _ est Hest) in *. by eapply alike_written.
    + specialize (Hnone y Hy). by rewrite (proj2 (find_row_id _ _ _ Hy)), String.eqb_refl in Hnone.
Qed.

(** *** Creation *)

Lemma insert_seen ms input t row t' :
  uuid_in (ci_sessionId input) = Some (ci_sessionId input) → (∀ s, ci_supersedesSessionId input = Some s → uuid_in s = Some s) →
  insert_session (ms * 1000) input t = Ok (row, t') → encryption_input input = Ok tt →
  new_session input (toISOString ms) = Ok (seen_row row) ∧ row_id row = ci_sessionId input ∧ t' = t ++ [row]
  ∧ supersedes_session_id (pr_identity row) = ci_supersedesSessionId input ∧ find_row (row_id row) t = None.
Proof.
  intros Hu Hsup E Henc. pose proof (insert_inv _ _ _ _ _ E) as (-> & _ & [Hid _]%andb_true_iff & _ & Hrow & _).
  rewrite Hu in Hrow. injection Hrow as Hrow. split_and!; [|done|done| |].
  - unfold insert_session in E.
    apply res_bind_ok in E as (u & Hu'%uuid_param_ok & (? & ->%text_param_ok & (? & ->%text_param_ok & (? & ->%text_param_ok & (? & ->%opt_text_ok & (? & ->%opt_text_ok &
      (? & ([] & _ & [= <-])%res_bind_ok & (? & ->%opt_text_ok & (sup & Esup & (? & _ & [= <-])%res_bind_ok)%res_bind_ok)%res_bind_ok)%res_bind_ok)%res_bind_ok)%res_bind_ok)%res_bind_ok)%res_bind_ok)%res_bind_ok).
    rewrite Hu in Hu'. injection Hu' as <-.
    assert (sup = ci_supersedesSessionId input) as ->.
    { destruct (ci_supersedesSessionId input) as [s|]; cbn in Esup; [|by injection Esup]. rewrite (uuid_param_run s s) in Esup by auto. by injection Esup. }
    unfold new_session. cbv zeta. unfold encryption_input in Henc. rewrite Henc. cbn [mbind res_bind mret res_ret].
    unfold seen_row, with_key, session_of_row. cbn [pr_identity pr_state negotiated_capabilities session_key_fingerprint rekey_count established_at last_seen_at last_authorized_at idle_since closed_at close_reason pr_updated_at pr_revision session_id initiator_did responder_did principal_did capability_token_id capability_token_fingerprint encryption_state supersedes_session_id did_pair_key pr_created_at identity sessionId initiatorDid responderDid principalDid capabilityTokenId capabilityTokenFingerprint encryptionState supersedesSessionId createdAt se_state negotiatedCapabilities sessionKeyFingerprint rekeyCount establishedAt lastSeenAt lastAuthorizedAt idleSince closedAt closeReason updatedAt revision].
    rewrite column_whole. destruct (bool_decide (ci_initialState input = Some ACTIVE)); cbn [fmap option_fmap option_map]; by rewrite ?column_whole.
  - unfold insert_session in E. peel E. injection E as <-. cbn.
    match goal with Hx : opt_param uuid_param _ = Ok ?sup |- _ => rename Hx into Esup end.
    destruct (ci_supersedesSessionId input) as [s|]; cbn in Esup; [|by injection Esup]. rewrite (uuid_param_run s s) in Esup by auto. by injection Esup.
  - apply bool_decide_eq_true in Hid. rewrite fmap_app in Hid. apply NoDup_app in Hid as (_ & Hd & _).
    destruct (find_row (row_id row) t) as [z|] eqn:Ez; [|done]. destruct (find_row_id _ _ _ Ez) as [Hz Ei].
    destruct (Hd (row_id z)); [by apply list_elem_of_fmap_2|rewrite Ei; left].
Qed.

(** The entry a creation adds. *)
Lemma mem_create ms input t row :
  new_session input (toISOString ms) = Ok (seen_row row) → row_id row = ci_sessionId input → find_row (row_id row) t = None →
  store_create ms input (mem t) = (Ok (seen_row row), mem (t ++ [row])).
Proof.
  intros Hnew Hid Hf. unfold store_create. rewrite <- Hid, mem_get, Hf. cbn [fmap option_fmap option_map].
  rewrite Hnew. unfold mbind, M_bind, lift_res, put, mret, M_ret. rewrite map_set_fresh by (by rewrite mem_get, Hf). by rewrite mem_app.
Qed.

Lemma sim_insert ms input t r t' :
  uuid_in (ci_sessionId input) = Some (ci_sessionId input) → (∀ s, ci_supersedesSessionId input = Some s → uuid_in s = Some s) →
  encryption_input input = Ok tt → commit_insert (insert_session (ms * 1000) input t) = Ok (r, t') → served r →
  alike (r, t') (store_create ms input (mem t)) ∧ ∀ s, ci_supersedesSessionId input = Some s → s ≠ ci_sessionId input → is_Some (find_row s t).
Proof.
  intros Hu Hsup Henc E Hs. unfold commit_insert in E. apply res_bind_ok in E as ([row x] & Hi & ([] & Href%check_ok & [= <- <-])%res_bind_ok).
  cbn [fst snd] in *. destruct (insert_seen ms input t row x Hu Hsup Hi Henc) as (Hnew & Hid & -> & Hrs & Hf). split.
  - rewrite (mem_create ms input t row Hnew Hid Hf). split; [done|]. cbn [fst]. by rewrite (row_session _ _ eq_refl Hs).
  - intros s Es Hne. unfold references_ok in Href. rewrite forallb_forall in Href. specialize (Href row).
    rewrite Hrs, Es in Href. cbn [opt_all] in Href. rewrite bool_decide_eq_true, fmap_app, elem_of_app in Href.
    destruct Href as [(z & -> & Hz)%list_elem_of_fmap|Hx]; [apply in_or_app; right; by left| |].
    + destruct (find_row (row_id z) t) as [y|] eqn:Ey; [done|]. destruct (find_row_None _ _ Ey). by apply list_elem_of_fmap_2.
    + cbn in Hx. apply list_elem_of_singleton in Hx. congruence.
Qed.

Lemma sim_create now ms input t r t' :
  canonical (pc_create now ms input) → pg_create now input t = (r, t') → served r → alike (r, t') (store_create ms input (mem t)).
Proof.
  intros ([-> Hms] & Hu & Hsup) E Hs. unfold pg_create in E. destruct (encryption_input input) as [[]|c] eqn:Henc.
  - apply served_committed in E; [|done|cbn [mbind res_bind]; auto with pg]. cbn [mbind res_bind] in E.
    by eapply sim_insert.
  - unfold committed in E. injection E as <- <-. unfold encryption_input, check in Henc. destruct (negb _) eqn:En; [done|]. injection Henc as <-.
    unfold store_create. destruct (map_get _ _); [apply alike_throw|]. unfold new_session, check. rewrite En. apply alike_throw.
Qed.

Lemma sim_supersede now ms old fb input given t r t' :
  table_ok t → canonical (pc_supersede now ms old fb input given) → pg_supersedeAndCreate now ms old fb input given t = (r, t') → served r →
  alike (r, t') (supersedeAndCreate ms old fb input given (mem t)).
Proof.
  intros Ht ([-> Hms] & Hu & Hui & Hne & Henc & ->) E Hs. unfold pg_supersedeAndCreate in E.
  assert (committed (λ tab, old0 ← uuid_param old; at_ ← timestamptz (default (toISOString ms) None);
     w ← update_where (λ r, String.eqb (row_id r) old0 && negb (bool_decide (pr_state r = CLOSED))) (set_row (set_closing at_ fb true) at_) tab;
     _ ← encryption_input input; commit_insert (insert_session (ms * 1000) (with_supersedes input old) w.2)) t = (r, t')) as Ec.
  { unfold rejected in E. destruct (committed _ t) as [[s|c] x]; cbn [fst snd] in E; [done|]. destruct (String.eqb_spec c "23505"); [|done].
    injection E as <- <-. by apply (unserved "HANDSHAKE_REJECTED" eq_refl) in Hs. }
  clear E. apply served_committed in Ec; [|done|rewrite Henc; do 4 (apply db_bind; [auto 6 with pg|intros ? _]); auto with pg]. cbv beta in Ec.
  apply res_bind_ok in Ec as (u & Hu'%uuid_param_ok & (at_ & Hat & ([w x] & Hw & Ec)%res_bind_ok)%res_bind_ok). rewrite Hu in Hu'. injection Hu' as <-.
  cbn [default from_option id] in Hat. rewrite time_param_run in Hat by done. injection Hat as <-. rewrite Henc in Ec. cbn [mbind res_bind snd] in Ec.
  apply (sim_insert ms (with_supersedes input old)) in Ec as [Hal Href]; [|done|by intros s [= <-]|done|done].
  specialize (Href old eq_refl ltac:(cbn; congruence)). unfold supersedeAndCreate. rewrite mem_bind. cbn [default from_option].
  apply (update_one_row old) in Hw as [(z & pre & post & Hr & Hsel & _ & Et & -> & Hnp & Hid)|(_ & -> & Hnone)]; [| |done|by intros y [?%String.eqb_eq _]%andb_true_iff].
  - rewrite Hr. apply andb_true_iff in Hsel as [_ Hc%negb_true_iff]. change (se_state (seen_row z)) with (pr_state z). rewrite Hc.
    rewrite <- column_whole, (M_bind_run _ _ _ _ _ (mem_close old t pre post z fb (ms * 1000) Ht Hr Et Hnp Hid)). exact Hal.
  - destruct Href as [y Hy]. rewrite Hy. specialize (Hnone y Hy). rewrite (proj2 (find_row_id _ _ _ Hy)), String.eqb_refl in Hnone.
    apply negb_false_iff in Hnone. change (se_state (seen_row y)) with (pr_state y). rewrite Hnone. exact Hal.
Qed.
End creation.

(** *** Statements on many rows *)

(** The columns compared with the clock get instants of the clock. *)
Definition timely (p : SetList) : Prop :=
  (∀ x, set_authorized p = Some x → clock_instant x) ∧ (∀ x, set_idle p = Some (Some x) → clock_instant x).

Lemma idle_where_count sel now (entries : list (string * Session)) m n m' :
  idle_where sel now entries m = (Ok n, m') → n = Z.of_nat (length (filter (λ kv, sel kv.2 = true) entries)).
Proof.
  revert m n m'. induction entries as [|[id row] rest IH]; intros m n m'; cbn [idle_where]; [by intros [= <-]|]. destruct (sel row) eqn:Es.
  - intros (? & ? & _ & (? & ? & _ & (k & ? & Hk%IH & [= <- _])%M_bind_ok)%M_bind_ok)%M_bind_ok.
    rewrite filter_cons_True by done. cbn [length]. lia.
  - intros ->%IH. by rewrite filter_cons_False by (cbn; congruence).
Qed.

Section many_rows.
Context `{PgTimeLaws} `{PgInputLaws}.

Lemma mem_filter (selm : Session → bool) (selp : PgRow → bool) t :
  (∀ r, r ∈ t → selm (seen_row r) = selp r) →
  fst <$> filter (λ kv, selm kv.2 = true) (mem t) = row_id <$> filter (λ r, selp r = true) t.
Proof.
  intros Hs. induction t as [|r t IH]; [done|]. unfold mem. rewrite fmap_cons. fold (mem t). specialize (IH ltac:(intros x Hx; apply Hs; by right)).
  pose proof (Hs r ltac:(left)) as Er. destruct (selp r) eqn:Ep.
  - rewrite filter_cons_True by done. rewrite (filter_cons_True _ r) by done. rewrite !fmap_cons. by f_equal.
  - rewrite filter_cons_False by (cbn; congruence). by rewrite (filter_cons_False _ r) by congruence.
Qed.

Lemma mem_rewrite (selm : Session → bool) (selp : PgRow → bool) g p now t :
  (∀ r, r ∈ t → selm (seen_row r) = selp r ∧ g (seen_row r) = seen_row (set_row p now r)) →
  rewrite_entry selm g <$> mem t = mem ((λ r, if selp r then set_row p now r else r) <$> t).
Proof.
  intros Hs. unfold mem. rewrite <- !list_fmap_compose. apply list_fmap_ext. intros i r Hr%list_elem_of_lookup_2.
  destruct (Hs r Hr) as [E1 E2]. cbn. unfold rewrite_entry. cbn [fst snd]. rewrite E1, E2. by destruct (selp r).
Qed.

Lemma instants_update sel p now t w t' :
  timely p → (∀ r, r ∈ t → instants r) → update_where sel (set_row p now) t = Ok (w, t') → ∀ r, r ∈ t' → instants r.
Proof.
  intros [Ha Hi] Ht (_ & -> & _)%update_where_inv x (r & -> & Hr)%list_elem_of_fmap. destruct (Ht r Hr) as (Hc & Hl & Hd).
  destruct (sel r); [|done]. unfold instants, set_row. cbn [pr_identity last_authorized_at idle_since]. split_and!; [done| |].
  - destruct (set_authorized p); cbn; auto.
  - intros y. destruct (set_idle p) as [o|]; cbn; [intros ->; auto|auto].
Qed.

Lemma seen_closing ms reason clear r : row_ok r →
  closed_row (seen_row r) (toISOString ms) reason clear (next_rev (revision (seen_row r))) = seen_row (set_row (set_closing (ms * 1000) reason clear) (ms * 1000) r).
Proof.
  intros Hr. rewrite seen_set by (by destruct (ro_revision r Hr)). unfold closed_row, patch_text, set_closing.
  cbn [set_state set_capabilities set_established set_seen set_authorized set_idle set_closed set_reason set_fingerprint set_rekey fmap option_fmap option_map].
  rewrite column_whole. by destruct clear.
Qed.

Lemma sim_close_pass (selm : Session → bool) (selp : PgRow → bool) ms reason clear t w t' :
  table_ok t → live_sel selm → (∀ r, r ∈ t → selm (seen_row r) = selp r) →
  update_where selp (set_row (set_closing (ms * 1000) reason clear) (ms * 1000)) t = Ok (w, t') →
  over_entries (close_where selm (toISOString ms) reason clear) (mem t) = (Ok (row_id <$> w), mem t').
Proof.
  intros Ht Hl Hs (-> & -> & _)%update_where_inv. unfold over_entries.
  destruct (close_where_run any_input selm (toISOString ms) reason clear [] (mem t) (mem_good t Ht) Hl) as [E _]. cbn [app] in E. rewrite E. f_equal.
  - f_equal. rewrite (mem_filter selm selp t Hs), <- list_fmap_compose. done.
  - apply mem_rewrite. intros r Hr. split; [by apply Hs|]. by apply seen_closing, (to_rows t Ht).
Qed.

Lemma sim_idle_pass (selm : Session → bool) (selp : PgRow → bool) ms t w t' :
  table_ok t → (∀ row, selm row = true → se_state row = ACTIVE) → (∀ r, r ∈ t → selm (seen_row r) = selp r) →
  update_where selp (set_row (mkSetList (Some IDLE) None None None None (Some (Some (ms * 1000))) None None None None) (ms * 1000)) t = Ok (w, t') →
  over_entries (idle_where selm (toISOString ms)) (mem t) = (Ok (Z.of_nat (length w)), mem t').
Proof.
  intros Ht Hl Hs (-> & -> & _)%update_where_inv. unfold over_entries.
  destruct (idle_where_run any_input selm (toISOString ms) [] (mem t) (mem_good t Ht) Hl) as [[n E] _]. cbn [app] in E. rewrite E.
  apply idle_where_count in E as ->. f_equal.
  - do 2 f_equal. rewrite length_fmap. rewrite <- (length_fmap row_id (filter (λ r, selp r = true) t)), <- (mem_filter selm selp t Hs). by rewrite length_fmap.
  - apply mem_rewrite. intros r Hr. split; [by apply Hs|]. rewrite seen_set by (by apply (to_rows t Ht)).
    unfold patch_text. cbn [set_state set_capabilities set_established set_seen set_authorized set_idle set_closed set_reason set_fingerprint set_rekey fmap option_fmap option_map].
    by rewrite column_whole.
Qed.

Lemma sim_close_rows (selm : Session → bool) (selp : PgRow → bool) ms reason t x t' :
  table_ok t → live_sel selm → (∀ r, selm (seen_row r) = selp r && row_live r) →
  close_rows (ms * 1000) reason selp t = Ok (x, t') → over_entries (close_where selm (toISOString ms) reason true) (mem t) = (x, mem t').
Proof.
  intros Ht Hl Hs ([w y] & Hw & [= <- <-])%res_bind_ok. 
  eapply (sim_close_pass selm (λ r, selp r && row_live r)); [done|done|intros; apply Hs|exact Hw].
Qed.

Lemma sim_clean now ms created soft hard t r t' :
  table_ok t → (∀ r, r ∈ t → instants r) → one_clock now ms → pg_cleanExpired now created soft hard t = (r, t') → served r →
  cleanExpired ms created soft hard None (mem t) = (r, mem t').
Proof.
  intros Ht Hi [-> Hms] E Hs. unfold pg_cleanExpired in E. apply served_committed in E; [|done|db]. cbv beta in E.
  apply res_bind_ok in E as ([w1 t1] & E1 & ([w2 t2] & E2 & ([w3 t3] & E3 & [= <- <-])%res_bind_ok)%res_bind_ok). cbn [fst snd] in *.
  assert (table_ok t1) as Ht1 by (eapply update_table_ok; [apply set_row_keeps|exact Ht|exact E1]).
  assert (table_ok t2) as Ht2 by (eapply update_table_ok; [apply set_row_keeps|exact Ht1|exact E2]).
  assert (∀ r, r ∈ t1 → instants r) as Hi1 by (eapply instants_update; [|exact Hi|exact E1]; by split).
  assert (∀ r, r ∈ t2 → instants r) as Hi2.
  { eapply instants_update; [|exact Hi1|exact E2]. split; [done|]. intros x [= <-]. by exists ms. }
  unfold cleanExpired. cbn [now_ms]. rewrite (M_bind_run _ _ (toISOString ms) _ (mem t)) by done.
  assert (over_entries (close_where (stale_handshake (Some ms) created) (toISOString ms) HANDSHAKE_REJECTED false) (mem t) = (Ok (row_id <$> w1), mem t1)) as P1.
  { eapply sim_close_pass; [done|apply live_stale| |exact E1]. intros y Hy. destruct (Hi y Hy) as (Hc & _). cbv beta. rewrite older_whole by done.
    unfold stale_handshake. f_equal. by apply (elapsed_column ms (pr_created_at (pr_identity y)) created). }
  assert (over_entries (idle_where (unauthorized_long (Some ms) soft) (toISOString ms)) (mem t1) = (Ok (Z.of_nat (length w2)), mem t2)) as P2.
  { eapply sim_idle_pass; [done|apply sel_unauthorized| |exact E2]. intros y Hy. destruct (Hi1 y Hy) as (_ & Hc & _). cbv beta. rewrite older_whole by done.
    unfold unauthorized_long. f_equal. by apply (elapsed_column ms (last_authorized_at y) soft). }
  assert (over_entries (close_where (idle_expired (Some ms) hard) (toISOString ms) IDLE_TIMEOUT true) (mem t2) = (Ok (row_id <$> w3), mem t3)) as P3.
  { eapply sim_close_pass; [done|apply live_expired| |exact E3]. intros y Hy. destruct (Hi2 y Hy) as (_ & _ & Hc). cbv beta.
    unfold idle_expired. f_equal. change (idleSince (seen_row y)) with (column_iso <$> idle_since y).
    destruct (idle_since y) as [x|]; [|done]. cbn [fmap option_fmap option_map]. rewrite older_whole by auto.
    by destruct (elapsed_column ms x hard (Hc x eq_refl)) as [-> ->]. }
  rewrite (M_bind_run _ _ _ _ _ P1), (M_bind_run _ _ _ _ _ P2), (M_bind_run _ _ _ _ _ P3). cbn [mret M_ret].
  by rewrite !length_fmap.
Qed.
End many_rows.

(** ** The two stores agree *)

Section refinement.
Context `{PgTimeLaws} `{PgInputLaws}.

(** Calls one after the other, with nothing in between. *)
Fixpoint pg_answers (calls : list PgCall) (t : SessionTable) : list (res Answer) * SessionTable :=
  match calls with
  | [] => ([], t)
  | c :: rest => let '(r, t') := pg_call t c t in let '(rs, t'') := pg_answers rest t' in (r :: rs, t'')
  end.
Fixpoint mem_answers (calls : list PgCall) (m : SessionMap) : list (res Answer) * SessionMap :=
  match calls with
  | [] => ([], m)
  | c :: rest => let '(r, m') := mem_call c m in let '(rs, m'') := mem_answers rest m' in (r :: rs, m'')
  end.

Lemma alike_answer x y : alike x y → erase_answer (as_answer A_session y).1 = erase_answer (as_answer A_session x).1 ∧ (as_answer A_session y).2 = mem (as_answer A_session x).2.
Proof. destruct x as [[s|c] t], y as [[s'|c'] m]; intros [Hm Hs]; cbn in *; try done; by rewrite Hs. Qed.

Lemma served_answer {A W} (f : A → Answer) (x : res A * W) : served (as_answer f x).1 → served x.1.
Proof. by destruct x as [[] ?]. Qed.

Lemma live_same r : se_live (seen_row r) = row_live r.
Proof. done. Qed.

Lemma sim_call c t :
  table_ok t → (∀ r, r ∈ t → instants r) → canonical c → served (pg_call t c t).1 →
  erase_answer (mem_call c (mem t)).1 = erase_answer (pg_call t c t).1 ∧ (mem_call c (mem t)).2 = mem (pg_call t c t).2.
Proof.
  intros Ht Hi Hc Hs. destruct c as [now ms input|id|now ms id p|now ms input|now ms old fb input given|now ms p|now ms id rev|now ms tok reason|now ms did reason|now ms a b d];
    cbn [pg_call mem_call] in *; apply served_answer in Hs.
  - apply alike_answer. destruct (pg_create now input t) as [r t'] eqn:E. by eapply sim_create.
  - cbn in Hc. unfold pg_get, select_row in *. rewrite (uuid_param_run _ _ Hc) in *. cbn [mbind res_bind mret res_ret fst snd] in *.
    unfold store_get. rewrite mem_get. destruct (find_row id t) as [r|]; [|done]. cbn [fmap option_fmap option_map].
    destruct (rowToSession r) as [s|c] eqn:Er; [by apply rowToSession_ok in Er as ->|by apply db_row in Er].
  - apply alike_answer. destruct (pg_update t now id p t) as [r t'] eqn:E. by eapply sim_update.
  - apply alike_answer. destruct (pg_resume now ms input t) as [r t'] eqn:E. by eapply sim_resume.
  - apply alike_answer. destruct (pg_supersedeAndCreate now ms old fb input given t) as [r t'] eqn:E. by eapply sim_supersede.
  - apply alike_answer. destruct (pg_claimForDispatch t now p t) as [r t'] eqn:E. by eapply sim_claim.
  - apply alike_answer. destruct (pg_markAuthorized t now id rev t) as [r t'] eqn:E. by eapply sim_mark.
  - destruct Hc as [-> _]. destruct (pg_closeByToken (ms * 1000) tok reason t) as [r t'] eqn:E. unfold pg_closeByToken in E.
    apply served_committed in E; [|done|db; unfold close_rows; db]. apply res_bind_ok in E as (? & ->%text_param_ok & E).
    eapply sim_close_rows in E; [|done|apply (live_token tok)|by intros; rewrite <- live_same]. unfold store_closeByToken. cbn [default from_option]. by rewrite E.
  - destruct Hc as [-> _]. destruct (pg_closeByPrincipal (ms * 1000) did reason t) as [r t'] eqn:E. unfold pg_closeByPrincipal in E.
    apply served_committed in E; [|done|db; unfold close_rows; db]. apply res_bind_ok in E as (? & ->%text_param_ok & E).
    eapply sim_close_rows in E; [|done|apply (live_principal did)|by intros; rewrite <- live_same]. unfold store_closeByPrincipal. cbn [default from_option]. by rewrite E.
  - destruct (pg_cleanExpired now a b d t) as [r t'] eqn:E. by rewrite (sim_clean now ms a b d t r t').
Qed.

Lemma time_instant o x : iso_text o → opt_param timestamptz o = Ok (Some x) → clock_instant x.
Proof.
  intros Ho. destruct o as [s|]; [|done]. destruct (Ho s eq_refl) as (ms & -> & Hr). cbn [opt_param]. rewrite time_param_run by done. intros [= <-]. by exists ms.
Qed.

Lemma params_timely p sets : iso_text (up_lastAuthorizedAt p) → (∀ o, up_idleSince p = Some o → iso_text o) → update_params p = Ok sets → timely sets.
Proof.
  intros Ha Hi E. unfold update_params in E.
  apply res_bind_ok in E as (? & _ & (? & _ & (? & _ & (xa & Ea & (xi & Ei & (? & _ & (? & _ & (? & _ & [= <-])%res_bind_ok)%res_bind_ok)%res_bind_ok)%res_bind_ok)%res_bind_ok)%res_bind_ok)%res_bind_ok).
  split; cbn [set_authorized set_idle]; intros v ->; [by eapply time_instant|].
  destruct (up_idleSince p) as [o|]; cbn in Ei; [|done]. apply res_bind_ok in Ei as (y & Ey & [= ->]). eapply time_instant; [by apply Hi|done].
Qed.

Lemma closing_timely at_ reason clear : timely (set_closing at_ reason clear).
Proof. split; cbn; [done|]. by destruct clear. Qed.

Lemma clock_timely ms : iso_range ms → clock_instant (ms * 1000).
Proof. by exists ms. Qed.

Lemma insert_instants ms input t row t' :
  iso_range ms → (∀ r, r ∈ t → instants r) → insert_session (ms * 1000) input t = Ok (row, t') → ∀ r, r ∈ t' → instants r.
Proof.
  intros Hms Hi E. unfold insert_session in E. peel E. injection E as _ <-. intros r [Hr| ->%list_elem_of_singleton]%elem_of_app; [by apply Hi|].
  split_and!; cbn; [by apply clock_timely..|done].
Qed.

Lemma commit_instants ms input t x :
  iso_range ms → (∀ r, r ∈ t → instants r) → commit_insert (insert_session (ms * 1000) input t) = Ok x → ∀ r, r ∈ x.2 → instants r.
Proof. intros Hms Hi ([row t'] & E & ([] & _ & [= <-])%res_bind_ok)%res_bind_ok. by eapply insert_instants. Qed.

Lemma close_instants now reason sel t x :
  (∀ r, r ∈ t → instants r) → close_rows now reason sel t = Ok x → ∀ r, r ∈ x.2 → instants r.
Proof. intros Hi ([w y] & E & [= <-])%res_bind_ok. eapply instants_update; [apply closing_timely|exact Hi|exact E]. Qed.

Lemma rejected_table {A} (x : res A * SessionTable) : (rejected x).2 = x.2.
Proof. by destruct x as [[] ?]. Qed.

Lemma call_instants c t : canonical c → (∀ r, r ∈ t → instants r) → ∀ r, r ∈ (pg_call t c t).2 → instants r.
Proof.
  intros Hc Hi. destruct c as [now ms input|id|now ms id p|now ms input|now ms old fb input given|now ms p|now ms id rev|now ms tok reason|now ms did reason|now ms a b d];
    cbn [pg_call as_answer snd canonical] in *; try destruct Hc as [[-> Hms] Hc]; try destruct Hc as [-> Hms]; try exact Hi;
    unfold pg_create, pg_update, pg_claimForDispatch, pg_markAuthorized, pg_closeByToken, pg_closeByPrincipal, pg_cleanExpired, pg_resume, pg_supersedeAndCreate;
    try rewrite rejected_table;
    match goal with |- ∀ r, r ∈ (committed ?q t).2 → _ => destruct (committed q t) as [x t'] eqn:E; apply committed_inv in E as [E|(? & _ & _ & ->)]; [|exact Hi] end.
  - apply res_bind_ok in E as ([] & _ & E). exact (commit_instants _ _ _ _ Hms Hi E).
  - apply res_bind_ok in E as (? & _ & (sets & Hp & ([w y] & Ew & [= _ <-])%res_bind_ok)%res_bind_ok).
    eapply instants_update; [|exact Hi|exact Ew]. destruct Hc as (_ & _ & _ & Ha & Hb & _). by eapply params_timely.
  - apply res_bind_ok in E as (u & _ & E). cbv beta in E. destruct (find_row u t) as [y|]; [|done].
    destruct (bool_decide _); [done|]. destruct (negb (bool_decide _)); [done|]. destruct (negb _); [done|].
    apply res_bind_ok in E as ([] & _ & E). destruct (idle_over _ _ _); peel E; injection E as _ <-;
      match goal with Ew : update_where _ _ t = Ok ?w |- _ => destruct w as [w z]; eapply instants_update; [|exact Hi|exact Ew] end;
      [apply closing_timely|]. split; [|done]. intros v [= <-]. by apply clock_timely.
  - apply res_bind_ok in E as (? & _ & (? & _ & ([w y] & Ew & ([] & _ & E)%res_bind_ok)%res_bind_ok)%res_bind_ok).
    refine (commit_instants _ _ _ _ Hms _ E). eapply instants_update; [apply closing_timely|exact Hi|exact Ew].
  - peel E. injection E as _ <-. match goal with Ew : update_where _ _ t = Ok ?w |- _ => destruct w as [w z]; eapply instants_update; [|exact Hi|exact Ew] end. by split.
  - peel E. injection E as _ <-. match goal with Ew : update_where _ _ t = Ok ?w |- _ => destruct w as [w z]; eapply instants_update; [|exact Hi|exact Ew] end.
    split; [|done]. intros v [= <-]. by apply clock_timely.
  - apply res_bind_ok in E as (? & _ & E). exact (close_instants _ _ _ _ _ Hi E).
  - apply res_bind_ok in E as (? & _ & E). exact (close_instants _ _ _ _ _ Hi E).
  - apply res_bind_ok in E as ([w1 t1] & E1 & ([w2 t2] & E2 & ([w3 t3] & E3 & [= _ <-])%res_bind_ok)%res_bind_ok).
    eapply instants_update; [apply closing_timely| |exact E3]. eapply instants_update; [| |exact E2]; [split; [done|]; intros v [= <-]; by apply clock_timely|].
    eapply instants_update; [apply closing_timely|exact Hi|exact E1].
Qed.

(** C40.  The store in memory does what the database store does: on any sequence of
    canonical calls, as long as no error of the database stops one, it answers
    the same and holds the same sessions, but for the key of the pair of
    parties.  A call is canonical ([canonical]) when the database and the host
    read one clock, in whole milliseconds, and the caller gives no time of its
    own; its session ids are UUIDs in canonical form, its timestamps are ISO
    texts and its revision is a number in decimal; and a supersession has a new
    session id and valid encryption fields.  The table is consistent and its
    times are in the range of the clock.  Outside these conditions the stores do
    differ, in particular on a time given by the caller and on a supersession
    with the id of the old session. *)
Theorem pg_refines_memory calls t :
  table_ok t → (∀ r, r ∈ t → instants r) → Forall canonical calls → Forall served (pg_answers calls t).1 →
  erase_answer <$> (mem_answers calls (mem t)).1 = erase_answer <$> (pg_answers calls t).1
  ∧ (mem_answers calls (mem t)).2 = mem (pg_answers calls t).2.
Proof.
  revert t. induction calls as [|c calls IH]; intros t Ht Hi Hc Hs; [done|]. apply Forall_cons in Hc as [Hc Hcs]. cbn [pg_answers mem_answers] in *.
  pose proof (sim_call c t Ht Hi Hc) as Hsim. pose proof (call_instants c t Hc Hi) as Hi'.
  pose proof (steps_ok _ _ (pg_call_steps t c t Ht) Ht) as Ht'.
  destruct (pg_call t c t) as [r t'] eqn:E, (mem_call c (mem t)) as [r' m'] eqn:Em. cbn [fst snd] in *.
  destruct (pg_answers calls t') as [rs t''] eqn:Er. cbn [fst snd] in Hs. apply Forall_cons in Hs as [Hr Hrs].
  destruct (Hsim Hr) as [E1 ->]. specialize (IH t' Ht' Hi' Hcs). rewrite Er in IH. cbn [fst snd] in IH. destruct (IH Hrs) as [E2 E3].
  destruct (mem_answers calls (mem t')) as [rs' m'']. cbn [fst snd] in *. rewrite !fmap_cons. split; [by f_equal|done].
Qed.
End refinement.
