(* ===== verification/PgSessionExamples.v ===== *)
(** * Concrete session tables

    A reading of parameters that satisfies the laws of the database, the table
    of a session that is created, claimed and set idle, and the theorems of
    PgSessions.v at it. *)
From S2P Require Import Prelude JsValue Time Encoding Crypto Authorization SignedPayload Sessions CrossSettle PgSessions CrossSettleExamples.

(** UUIDs in lower case, decimal numbers without a sign, bytes in order. *)
Definition px_uuid (s : string) : option string :=
  if matches_template (chars "xxxxxxxx-xxxx-xxxx-xxxx-xxxxxxxxxxxx") (chars s) then Some s else None.
Definition px_bigint (s : string) : res Z :=
  match chars s, decimal_from 0 (chars s) with
  | _ :: _, Some n => if n <? 2 ^ 63 then Ok n else Throw "22003"
  | _, _ => Throw "22P02"
  end.
#[export] Instance px_input : PgInput := {| uuid_in := px_uuid; bigint_in := px_bigint; text_leb := String.leb |}.
#[export] Instance px_laws : PgInputLaws.
Proof.
  split.
  - intros s u. cbn. unfold px_uuid. destruct (matches_template _ (chars s)) eqn:E; [|done]. intros [= <-]. rewrite E. split; [done|].
    by destruct s.
  - intros n Hn. cbn. unfold px_bigint, print_decimal. rewrite (proj2 (Z.ltb_ge n 0)), chars_str by lia.
    destruct (decimal_digits_spec (S (Z.to_nat n)) n) as (Hne & _ & ->); [lia|lia|]. destruct (decimal_digits _ n); [done|].
    by rewrite (proj2 (Z.ltb_lt n (2 ^ 63))) by lia.
  - intros s c. cbn. unfold px_bigint. destruct (chars s) as [|a l]; [intros [= <-]; by left|]. destruct (decimal_from _ _) as [n|]; [|intros [= <-]; by left].
    destruct (n <? 2 ^ 63); [done|intros [= <-]; by right].
  - apply String.leb_total.
  - apply String.leb_antisym.
Qed.

Definition px_id : string := "aaaaaaaa-bbbb-4ccc-8ddd-000000000001".
Definition px_token : string := "urn:cap:123e4567-e89b-42d3-a456-426614174000".
Definition px_fp : string := str (replicate 64 "a"%char).
Definition px_minutes (n : Z) : Z := 1780315200000 + n * msPerMinute.
Definition px_create : SessionCreateInput :=
  mkSessionCreate px_id "did:agent:a" "did:agent:b" "did:agent:p" (Some px_token) (Some px_fp) (Some ["CONFIRM"]) None None (Some ACTIVE) None.
Definition px_claim : ClaimParams := mkClaim px_id "did:agent:b" "did:agent:a" (Some px_token) (Some px_fp) None.
Definition px_at (n : Z) : Z := px_minutes n * 1000.

(** The session after its creation. *)
Definition px_row : PgRow :=
  mkPgRow (mkPgIdentity px_id "did:agent:a" "did:agent:b" "did:agent:p" (Some px_token) (Some px_fp) OFF None "did:agent:a\x00did:agent:b" (px_at 0))
    ACTIVE ["CONFIRM"] None 0 (Some (px_at 0)) (px_at 0) (px_at 0) None None None (px_at 0) 1.
Definition px_table : SessionTable := [px_row].
Definition px_idle_row : PgRow := set_row (mkSetList (Some IDLE) None None None None (Some (Some (px_at 9))) None None None None) (px_at 9) px_row.
Definition px_idle : SessionTable := [px_idle_row].

Example px_created : (pg_create (px_at 0) px_create []).2 = px_table.
Proof. reflexivity. Qed.
Example px_set_idle : (pg_cleanExpired (px_at 9) 60000 300000 1800000 px_table).2 = px_idle.
Proof. reflexivity. Qed.

Lemma px_ok : table_ok px_table.
Proof.
  split; [|done|done]. intros r ->%list_elem_of_singleton. split; [done|cbn; lia|done|done].
Qed.
Lemma px_idle_ok : table_ok px_idle.
Proof.
  split; [|done|done]. intros r ->%list_elem_of_singleton. split; [done|cbn; lia|done|done].
Qed.
Lemma px_instants : ∀ r, r ∈ px_table → instants r.
Proof. intros r ->%list_elem_of_singleton. split_and!; [exists (px_minutes 0)|exists (px_minutes 0)|done]; by split. Qed.

(** Whoever else tries, the two agents keep one live session. *)
Definition px_others : list (PgCall * SessionTable) :=
  [(pc_create (px_at 1) (px_minutes 1)
     (mkSessionCreate "aaaaaaaa-bbbb-4ccc-8ddd-000000000002" "did:agent:b" "did:agent:a" "did:agent:p" None None None None None None None), [])].
Definition px_first : PgRow := default px_row (head (pg_run px_others px_table)).
Definition px_last : PgRow := default px_row (last (pg_run px_others px_table)).
Lemma one_live_session_witness : px_first = px_last.
Proof.
  apply (one_live_session px_others px_table px_first px_last);
    [apply px_ok|vm_compute; left|vm_compute; left|reflexivity|reflexivity|left; split; reflexivity].
Defined.

Lemma pg_closed_final_witness : find_row px_id (pg_run px_others [set_row (set_closing (px_at 5) REVOKED_TOKEN true) (px_at 5) px_row])
  = Some (set_row (set_closing (px_at 5) REVOKED_TOKEN true) (px_at 5) px_row).
Proof.
  apply pg_closed_final; [|reflexivity|reflexivity]. split; [|done|done]. intros r ->%list_elem_of_singleton. split; [done|cbn; lia|done|done].
Defined.

(** A claim and its authorization, with an attempt of another host in between. *)
Definition px_claimed : PgRow := set_row (mkSetList None None None (Some (px_at 1)) None None None None None None) (px_at 1) px_row.
Lemma pg_authorization_fenced_witness : ∃ r, find_row px_id (pg_run px_others [px_claimed]) = Some r ∧ session_of_row px_claimed = session_of_row r ∧ dispatchable px_claim r = true.
Proof.
  eapply (pg_authorization_fenced px_table (px_at 1) px_claim px_table (session_of_row px_claimed) [px_claimed] px_others px_table (px_at 2)).
  - apply px_ok.
  - reflexivity.
  - reflexivity.
  - reflexivity.
Defined.

Lemma routine_calls_served_witness : served (pg_call px_table (pc_claim (px_at 1) (px_minutes 1) px_claim) px_table).1.
Proof.
  apply routine_calls_served; [apply px_ok| |].
  - intros r ->%list_elem_of_singleton. split; [done|cbn; lia].
  - by split_and!.
Defined.

Lemma idle_close_refused_witness : pg_close_session px_idle (px_at 10) (px_minutes 10) px_id EXPLICIT_CLOSE px_idle = (Throw "23514", px_idle).
Proof.
  apply (idle_close_refused px_idle (px_at 10) (px_minutes 10) px_id EXPLICIT_CLOSE px_idle px_idle_row); try done. apply px_idle_ok.
Defined.

(** A claim, its authorization and the revocation of the token. *)
Definition px_calls : list PgCall :=
  [pc_claim (px_at 1) (px_minutes 1) px_claim; pc_authorize (px_at 2) (px_minutes 2) px_id "2"; pc_closeByToken (px_at 3) (px_minutes 3) px_token None].
Lemma pg_refines_memory_witness :
  erase_answer <$> (mem_answers px_calls (mem px_table)).1 = erase_answer <$> (pg_answers px_calls px_table).1
  ∧ (mem_answers px_calls (mem px_table)).2 = mem (pg_answers px_calls px_table).2.
Proof.
  apply pg_refines_memory; [apply px_ok|apply px_instants| |].
  - repeat (apply Forall_cons; split); [split_and!; done|split_and!; try done; by exists 2|done|apply Forall_nil; done].
  - repeat (apply Forall_cons; split); [exact I|exact I|exact I|apply Forall_nil; exact I].
Defined.
